(* ===== verification/_CoqProject ===== *)
-Q . S2P
Prelude.v
GoString.v
GoFloat.v
Kernel.v
StableSort.v
TopoSort.v
Loader.v
SliceAlias.v
Breaker.v
BreakerProps.v
LoadBalancer.v
LoadBalancerProps.v
Discovery.v
DiscoveryProps.v
RateLimit.v
RateLimitProps.v
DbBreaker.v
Orm.v
SqlText.v
OrmProps.v
OrmUtil.v
Select.v
SelectProps.v
SelectNumbering.v
OrmWrite.v
OrmInsert.v
Actor.v
ActorProps.v
WsSession.v
WsSessionProps.v
WsRoom.v
WsManager.v
Bloom.v
Rbac.v
Scheduler.v
Aoi.v
Sharding.v
CacheStore.v
Failover.v
QueryCache.v
Degradation.v
Migration.v
TxManager.v
Pagination.v
OrmLock.v
GatewayRouter.v
RedisClient.v
RedisLock.v
Health.v
Messaging.v
IpFilter.v
Alert.v
ConfigCenter.v
RwProxy.v
DbPool.v
EnhancedPool.v
RpcClient.v
RpcServer.v
RpcManager.v
GoBase64.v
Jwt.v
JwtProps.v
AuthMiddleware.v
GoPath.v
Gateway.v
GatewayProps.v
ServiceManager.v
BootConfig.v
Bootstrap.v
BootstrapProps.v
Ddl.v
Scopes.v
WsClient.v
AuditEvents.v
BatchSink.v
AsyncSink.v
RedisLimiter.v
Upload.v
