(* ===== verification/Prelude.v ===== *)
(** * A verified model of the golang-gin-rpc framework

    golang-gin-rpc is a Go framework: a kernel that loads plugins in
    dependency order, and plugins (circuit breakers, rate limiters, load
    balancers, service discovery, an ORM with caches, transactions and
    migrations, actors, websockets, RPC, a gateway, ...) that an application
    composes.  This library models the parts that carry its logic and proves
    the properties that make them correct.  It also proves, where the code
    does not do what it means to, what it does instead.

    ** Files and sources

    - [Prelude] (this file): Go machine integers ([GoInt], values of [Z] with
      explicit wrap-around), times and durations in nanoseconds ([GoTime]),
      errors with wrapping and [errors.Is] ([GoError]), the types [result] (a
      call that returns an error) and [outcome] (a call that may panic) with
      the notation [let!] of [go_scope], [math/rand] ([GoRand]), [strconv.Atoi]
      ([GoStrconv]), map enumeration ([range_of]), the tactics [zcmp] and
      [in_range], the hint database [goint], and lemmas on lists.
    - [Kernel]: pkg/kernel/kernel.go and registry.go: the plugin contract (a
      record of functions on a context and a world), the service locator and
      the plugin registry, which refines the list of accepted plugins.
    - [StableSort], [TopoSort]: the sorts of pkg/kernel/loader.go; the greedy topological order as an abstract
      specification; [topoSort] (Kahn's algorithm) and its refinement of it.
    - [Loader]: [Loader.Build], [App.Start], [App.Stop] and the rollback of
      pkg/kernel/loader.go.
    - [SliceAlias]: the dependency computation of [topoSort] again, over a
      store of slices, because [dedupe] overwrites its argument in place.
    - [Breaker], [BreakerProps]: plugins/circuitbreaker/circuitbreaker.go: the
      breaker's state machine, [Execute], the group, the HTTP middleware.
    - [LoadBalancer], [LoadBalancerProps]: plugins/loadbalancer (interface,
      factory, four strategies over a store of shared targets) and
      plugins/gateway/loadbalancer_adapter.go.
    - [Discovery], [DiscoveryProps]: plugins/discovery: the backend interface
      and the in-memory registry, the manager with its health checks, the
      instance load balancer, the service registry and the selector.
    - [RateLimit], [RateLimitProps]: plugins/ratelimit (keyed fixed window and
      token bucket) and plugins/ratelimit/ratelimiter (fixed and sliding
      windows, manager, HTTP middleware).
    - [DbBreaker]: plugins/db/circuitbreaker/breaker.go.
    - [Orm], [OrmProps]: plugins/db/orm: the dialects, the WHERE builder, and
      the DELETE and UPDATE statements built from it.  [SqlText]: the theory
      of statement texts their theorems share (numbering, shifting and reading
      back placeholders; the class [SqlDialect] of what a dialect promises).
    - [OrmUtil]: the validators of plugins/db/orm/util.go.
    - [Select], [SelectProps], [SelectNumbering]: select_builder.go and
      join_on_builder.go of plugins/db/orm, over a store of builders.
    - [OrmWrite]: the methods of update_builder.go and delete_builder.go.
    - [OrmInsert]: insert_builder.go and batch_insert.go of plugins/db/orm.
    - [Actor], [ActorProps]: plugins/actor: mailboxes, cells and their
      supervision, the system's registry, stops; sends, stops and the actors'
      goroutines interleave as a step relation.
    - [WsSession], [WsSessionProps]: plugins/websocket: sessions with numbered
      messages and replay (session.go), the envelope protocol (protocol.go) and
      the outbound queue of a connection (server.go).  [WsRoom]: room.go.
      [WsManager]: manager.go and the in-memory cluster bus of cluster.go.
    - [Bloom]: plugins/bloomfilter.  [Rbac]: plugins/rbac.  [Scheduler]:
      plugins/scheduler.  [Aoi]: plugins/gameserver/aoi, with [GoFloat].
    - [Sharding]: the shard strategies of plugins/db/orm/dynamic_sharding.go.
    - [CacheStore]: the storage interface of plugins/cache/failover as a class
      with laws, its memory and file implementations.  [Failover]:
      failover.go, proved against the laws.  [QueryCache]:
      plugins/db/orm/query_cache.go, the cached database over an interface that
      the memory cache and the adapter of the failover cache implement.
    - [Degradation]: plugins/rpc/degradation.go.  [Migration]:
      plugins/db/migration.  [TxManager]: transaction_manager.go and
      transaction_manager_impl.go of plugins/db/orm.  [Pagination]:
      pagination.go of plugins/db/orm.  [OrmLock]: optimistic_lock.go and
      soft_delete.go of plugins/db/orm.  [GatewayRouter]:
      plugins/gateway/router/registry.go.
    - [RedisClient]: config.go of plugins/cache/redis and the routing of
      client.go.  [RedisLock]: distributed_lock.go over a Redis server that is a
      class with laws, and the legacy lock of client.go.
    - [Health]: plugins/health.  [Alert]: plugins/alert, its buffer, loop and
      locks as a step relation.
    - [Messaging]: types, configurations, factory and NATS subscriptions of
      plugins/messaging; request and reply (reply.go) as a step relation over an
      unreliable broker.
    - [IpFilter]: plugins/middleware/ip_filter.go, with the addresses and
      networks of the package net.
    - [ConfigCenter]: plugins/configcenter over its in-memory provider.
    - [RwProxy]: plugins/db/rwproxy.  [DbPool]: plugins/db/factory.go,
      plugins/db/pool/pool.go and plugins/db/poolcb.  [EnhancedPool]:
      plugins/db/pool/enhanced_pool.go.
    - [RpcClient], [RpcServer], [RpcManager]: client.go; server.go, auth.go and
      the middleware chain; manager.go of plugins/rpc.  The client and the server
      call the limiter and the degradation manager of the files above.
    - [Jwt], [JwtProps]: plugins/auth: tokens over any token store and any
      authenticated cipher (classes with laws and instances), with [GoBase64].
      [AuthMiddleware]: auth.go and apikey.go of plugins/middleware, over [Jwt]
      and the policy of [Rbac].
    - [Gateway], [GatewayProps]: plugins/gateway: routes and their targets, the
      proxy, the health of upstreams, permissions and API keys, the lifecycle over
      [Health]; the balancer is an interface that the adapter of [LoadBalancer]
      implements.
    - [ServiceManager], [BootConfig], [Bootstrap], [BootstrapProps]:
      internal/bootstrap and the parts of pkg/config, bootstrap and
      bootstrap/pluginconfig it reads: the services of the framework, its
      configuration, and the assembly of the components through [Kernel] and
      [Loader].
    - [Ddl], [Scopes]: ddl_builder.go and scopes.go of plugins/db/orm.
    - [WsClient]: plugins/websocket/client.go, its goroutines as a step relation.
    - [AuditEvents]: plugins/audit (events, masking, SQL sinks) and audit.go,
      audit_dynamic.go of plugins/middleware.  [BatchSink], [AsyncSink]:
      batch_sql_sink.go and async_sink.go, as step relations.
    - [RedisLimiter]: plugins/ratelimit/redis_limiter.go over a Redis server that
      is a class with laws.  [Upload]: plugins/upload over a file system of paths.
    - [GoFloat]: float64 on the Standard Library's [SpecFloat].  [GoString]:
      string functions of the package strings.  [GoPath]: path and path/filepath.

    A Go struct is a record with the source's field names, a method a function
    from the old state to the new state and the result.  A method that holds a
    mutex is one step.  Clock readings, random draws, the enumeration order of
    a map, the outcome of a network call and the callbacks of a configuration
    are arguments of the functions that use them.  Pointers to shared objects
    (targets, balancers, slices, SELECT builders) are indices into a store where a property
    depends on the sharing.  Code outside the repository is a class or a
    parameter (golang.org/x/time/rate is [RateLimit.XRate]).  Logging is left
    out, except for the kernel, whose log entries the model keeps.

    ** What is proved

    - Kernel: [topoSort] returns, for every enumeration order, the same
      result, a dependency order of all configured plugins with registration
      order as tie breaker, and the cycle error exactly when there is none;
      [Build] returns in that order the plugins whose [Configure] accepted, or a
      true cause; [Start] calls all plugins in order, or calls [Stop] of exactly
      the started ones in reverse; dependencies are started before and stopped
      after their dependents.  These are statements about the calls made and the
      state of the process they leave, and not about the log.
    - Circuit breaker: an invariant of a step relation over interleaved
      admissions and completions bounds the probes of the half-open state;
      reported transitions form a path of the state machine; tripping,
      failing fast, recovery and the middleware's answers are characterised.
    - Rate limiters: bounds on what every limiter admits in any sequence of
      calls; the keyed window refines a specification without cleanup.
    - Load balancing: laws of the interface ([LoadBalancerLaws]), satisfied by
      the strategies and assumed by the adapter; fairness of round robin,
      proportionality of weights, minimality of least connections.
    - Discovery: laws of a backend ([ReliableDiscovery]), satisfied by the
      in-memory registry and assumed by the manager; convergence of health
      checks, connection accounting, correctness of selection.
    - ORM: the placeholder numbering equals a one-pass reference; WHERE
      clauses and whole SELECT, UPDATE and DELETE statements, put together by
      programs of builder calls, bind their arguments in order and one to one
      (with PostgreSQL, where typed conditions number themselves, for the calls
      that [SelectNumbering.in_order] describes); [Build] returns exactly
      when the references among builders have no cycle; a clone builds the
      same statement; ORDER BY items are identifiers only.
    - INSERT and batches: the statement of one row is built exactly from data
      that validates, that of several rows exactly from rows of the right length;
      both bind their arguments one to one; a batch in a transaction
      commits only after every entry has been inserted once.
    - Actors: under every interleaving a mailbox delivers what it accepted in
      order; a stopped actor drains its mailbox; supervision gives up exactly
      after the configured number of consecutive panics; the registry holds
      exactly the actors that have not been removed.
    - Websockets: a client that resumes gets exactly the envelopes and replies it
      missed; a session has one open connection and is not evicted while in use; group
      tags and room members agree; a broadcast reaches every matching
      connection of the cluster exactly once, while these are open.
    - Bloom filter, access control, scheduler, area of interest: each refines or
      equals a reference without its data structure (the set of bit positions,
      the history of grants, the ticks of a period, the coordinates).
    - Sharding: adding a node to the ring moves keys to that node only; every
      strategy names a shard that exists.
    - Caches: through failures and recoveries, while the storages in use saw the
      last change of a key, a value found is the latest one stored, whichever
      storage serves it; a cached query answers as the database does now or did
      at a cached query at most five minutes ago and after the last [Exec].
    - Degradation: the concurrency limit holds in every interleaving; the
      metrics are exactly those of the last minute.
    - Migrations: [Up] applies exactly the pending ones in order and stops at the
      first failure; as many [Down]s restore the database.
    - Transactions: bounded attempts, repeated only after retryable errors,
      settled every time and committed at most once.
    - Pagination: following the offsets ends and reads every row once; following
      the cursors may not, because the statement has no order.
    - Gateway routes: nested wrappers run the middlewares as a chain; every route
      is registered once behind the middlewares of its group.
    - Redis: a validated configuration is well formed; at most one lock object
      holds an unexpired lease on a key, and the lock refines a table of leases.
    - Health, alerts, configuration: a report is exactly the results of the
      enabled checks and the worst of them; alerts are sent in the order in
      which they were accepted; a subscriber reads what the provider has.
    - Messaging: a request that returns, returns what the handler computed for
      that request, whatever the broker loses, delays or duplicates.
    - IP filter: the answer is that of a declarative reading of the lists.
    - Databases: writes go to the master and reads are spread evenly over the
      replicas; a pool serves what was registered; retries are bounded.
    - RPC: a call is invoked at most as often as configured and returns exactly
      the outcome of its last attempt; the server runs a method only for a request that may
      call it; discovery lists exactly the servers of a started manager.
    - Authentication: a token is accepted exactly if it is sealed under the key and
      valid at the moment; logging out and revoking last; a refresh token is
      accepted once; a protected route is reached exactly by those who may.
    - Gateway: a request on a route that has targets is forwarded to one of them, a
      healthy one if there is any, as often as configured at most, and answered by
      the first response.
    - Framework: a start that succeeds has started every enabled plugin after its
      dependencies and filled the container, one that fails leaves no
      application unless the services or the websocket option failed; services
      start in order up to the first failure, and stopping them stops exactly
      these in reverse order.
    - DDL and scopes: a table definition can be read back from its statement;
      scopes, the application's own included, act once each in the order of their
      kinds and of their addition.
    - Websocket client: under every interleaving the connection in use is not
      closed, none is closed twice and one loop of a kind is at work; the client
      reconnects until it is closed.
    - Audit: every event accepted by a sink is written once, waiting or counted as
      lost; closing a sink writes what is waiting.
    - Redis limiter: the instances together refine one window per key.
    - Uploads: whatever a client calls its file, nothing outside the upload
      directory is changed but its missing parents, and what was accepted is served.
    - Defects: a group of theorems states what the code does in cases it does
      not handle: panics after an instance list shrinks, on a hash overflow
      and on restarts; a selector that starves; PostgreSQL statements that reuse
      a placeholder; pages cut from rows without an order; chained conditions that
      are not connected; [Distinct],
      [Count] and the count of a page taken for names; limits that are not
      enforced; breakers that do not wait or stay half-open; a dependency list
      that is overwritten; messages lost or sent on a closed queue in races of
      actors and connections; a session resumed by another user; one-shot tasks
      that never run; caches that serve old values after a recovery, a race, a
      RETURNING statement or a key collision; an emergency level that is never left; migrations reported
      as applied; a transaction reported as failed after its commit; versioned
      updates that always fail; locks lost, released or held twice; headers that
      pass the filter; deadlocks of alerts; configuration values that go back;
      writes sent to replicas; closed clients served for ever; statements
      repeated and transactions never committed; failover that ejects nothing;
      servers that do not serve after a restart; revoked users who refresh their
      tokens; RPC routes open without a key; requests forwarded to the upstream of
      another route.

    ** Bounds and fuel

    [TopoSort.kahn] runs with the number of plugins as fuel; the soundness
    theorem shows that this suffices.  [RateLimit.evict] runs with one round
    more than there are keys, and every round but the last removes a key.
    [Orm.mysql_quote] recurses at most once in the source and has fuel two
    ([SqlText.mysql_quote_fuel]).  [Select.Select_Build] and [Select_Clone]
    follow pointers and may not end; for every store without a cycle some
    fuel gives the result, and more fuel gives the same one.
    Counters keep their width; where a theorem needs that a counter does not
    wrap, the bound is a hypothesis (for the breaker's generation, [n] steps
    with [2n + 3 < 2^64]; for message numbers, fewer than [2^64] steps; for the
    concurrency counter, fewer than [2^62]).
    [OrmInsert.batch_loop] has the number of entries as fuel,
    [Sharding.sortSearch] the length of the ring, [TxManager.tx_loop] the number
    of attempts and [Pagination.follow] one page more than there are rows; the
    theorems about them show that this is enough.  [IpFilter.ipv6_groups] has eight
    rounds, one for each group of an address.  The retry loops of [EnhancedPool]
    and [RpcClient], and that of the gateway's proxy, recurse on the number of
    attempts left.  [GoString.trim_left] has the length of its text as fuel; every
    round drops a byte.

    [BootConfig.parse_parts] has the length of the text as fuel
    ([parse_parts_fuel]); [BatchSink.insert_attempts] recurses on the attempts
    left; a closed [AsyncSink] is drained after [left_to_do] steps of its workers.

    ** What is not modelled

    Network and database clients, HTTP and gRPC plumbing, logging, metrics
    and the command line tools; the interleaving of atomic operations inside
    a method, except where a step relation says so; memory-model effects of
    unsynchronised access; failures of the file system other than those that an
    argument of the model gives.  A statement or a commit that reports an error is
    taken as not executed ([TxManager], [BatchSink], [Migration]: their headers say
    what this leaves out), and the errors of subscribing and publishing in
    [Messaging] only end a request.  Left out as forwarding or input and output over
    code outside the repository: the pooled read/write proxy, the second pair of
    RPC transports, the gateway's RPC proxies, the backends of discovery and of
    the configuration centre that are network services, the clients of message
    brokers, push services and search engines, tracing, and the examples.  The
    lists of SQL injection patterns are data for the package regexp. *)

From Stdlib Require Export ZArith Lia.
From Stdlib Require Import Ascii.
From stdpp Require Export base gmap strings fin_maps sorting numbers list.

#[export] Set Default Goal Selector "!".

(** ** Go machine integers

    A value of a [w]-bit Go integer type is kept as a [Z] in the range of the
    type; the operations that can leave the range wrap explicitly. *)

Module GoInt.

Definition u32 (z : Z) : Z := (z mod 2 ^ 32)%Z.
Definition u64 (z : Z) : Z := (z mod 2 ^ 64)%Z.
Definition i32 (z : Z) : Z := ((z + 2 ^ 31) mod 2 ^ 32 - 2 ^ 31)%Z.
Definition i64 (z : Z) : Z := ((z + 2 ^ 63) mod 2 ^ 64 - 2 ^ 63)%Z.
Definition maxInt64 : Z := (2 ^ 63 - 1)%Z.
Definition minInt64 : Z := (- 2 ^ 63)%Z.

Definition in_u32 (z : Z) : Prop := (0 <= z < 2 ^ 32)%Z.
Definition in_u64 (z : Z) : Prop := (0 <= z < 2 ^ 64)%Z.
Definition in_i64 (z : Z) : Prop := (- 2 ^ 63 <= z < 2 ^ 63)%Z.

Lemma u32_range z : in_u32 (u32 z).
Proof. apply Z.mod_pos_bound. lia. Qed.

Lemma u64_range z : in_u64 (u64 z).
Proof. apply Z.mod_pos_bound. lia. Qed.

Lemma i64_range z : in_i64 (i64 z).
Proof.
  unfold in_i64, i64.
  pose proof (Z.mod_pos_bound (z + 2 ^ 63) (2 ^ 64) ltac:(lia)). lia.
Qed.

Lemma u32_id z : in_u32 z → u32 z = z.
Proof. intros H. by apply Z.mod_small. Qed.

Lemma u64_id z : in_u64 z → u64 z = z.
Proof. intros H. by apply Z.mod_small. Qed.

Lemma i64_id z : in_i64 z → i64 z = z.
Proof.
  unfold in_i64, i64. intros H. rewrite Z.mod_small by lia. lia.
Qed.

(** The range facts, for [auto with goint]. *)
Create HintDb goint.
#[export] Hint Resolve u32_range u64_range i64_range : goint.

Lemma in_u32_0 : in_u32 0.
Proof. unfold in_u32. lia. Qed.

#[export] Hint Resolve in_u32_0 : goint.

End GoInt.

(** ** Go time

    A [time.Time] is the number of nanoseconds since the zero time (year 1),
    so [IsZero] is [= 0]; a [time.Duration] is an int64 number of nanoseconds.
    [Sub] saturates at the ends of the Duration range, as the standard
    library documents. *)

Module GoTime.

Definition Nanosecond : Z := 1%Z.
Definition Millisecond : Z := 1000000%Z.
Definition Second : Z := 1000000000%Z.
Definition Minute : Z := 60000000000%Z.

Definition IsZero (t : Z) : bool := (t =? 0)%Z.
Definition Before (t u : Z) : bool := (t <? u)%Z.
Definition After (t u : Z) : bool := (u <? t)%Z.
Definition Add (t d : Z) : Z := (t + d)%Z.
Definition Sub (t u : Z) : Z :=
  Z.max GoInt.minInt64 (Z.min GoInt.maxInt64 (t - u)).

Lemma Sub_range t u : GoInt.in_i64 (Sub t u).
Proof. unfold Sub, GoInt.in_i64, GoInt.minInt64, GoInt.maxInt64. lia. Qed.

(** Below the saturation point [Sub] is the exact difference. *)
Lemma Sub_exact t u : GoInt.in_i64 (t - u) → Sub t u = (t - u)%Z.
Proof. unfold Sub, GoInt.in_i64, GoInt.minInt64, GoInt.maxInt64. lia. Qed.

Lemma Sub_mono t t' u : (t <= t')%Z → (Sub t u <= Sub t' u)%Z.
Proof. unfold Sub. lia. Qed.

End GoTime.

(** ** Go errors

    An [error] is a package-level sentinel ([errors.New] bound to a variable,
    compared by identity, here by the variable's qualified name), a formatted
    error with or without a wrapped cause, or the result of [errors.Join]. *)

Module GoError.

Inductive error : Type :=
| Sentinel (var : string)
| Errorf (format : string) (args : list string)
| ErrorfW (format : string) (args : list string) (cause : error)
| Joined (errs : list error).

(** [errors.Is(err, target)] for a sentinel target: the error itself or any
    error of its wrap tree is the target. *)
Fixpoint Is (err : error) (target : string) : bool :=
  match err with
  | Sentinel v => bool_decide (v = target)
  | Errorf _ _ => false
  | ErrorfW _ _ c => Is c target
  | Joined es => existsb (λ e, Is e target) es
  end.

(** [errors.Join] returns nil when no error is given. *)
Definition Join (errs : list error) : option error :=
  match errs with
  | [] => None
  | _ => Some (Joined errs)
  end.

Lemma Join_None errs : Join errs = None ↔ errs = [].
Proof. by destruct errs. Qed.

End GoError.

(** A Go call that returns [(T, error)]. *)
Inductive result (T : Type) : Type :=
| Ok (t : T)
| Err (e : GoError.error).
Arguments Ok {T} t.
Arguments Err {T} e.

(** A Go call that may panic; the panic value is a format and its arguments. *)
Inductive outcome (T : Type) : Type :=
| Ret (t : T)
| Panic (format : string) (args : list string).
Arguments Ret {T} t.
Arguments Panic {T} format args.

(** Sequencing of calls that may panic: the first panic is the result. *)
Declare Scope go_scope.
Delimit Scope go_scope with go.
Notation "'let!' x ':=' e 'in' k" :=
  (match e with Ret x => k | Panic m a => Panic m a end)
  (at level 10, x name, e at level 100, k at level 200, only parsing) : go_scope.
Open Scope go_scope.

(** ** Automation *)

(** [zcmp] evaluates a comparison of the goal
    whose outcome follows by [lia]. *)
Ltac zcmp :=
  match goal with
  | |- context [(?a <=? ?b)%Z] =>
      first [rewrite (proj2 (Z.leb_le a b)) by lia | rewrite (proj2 (Z.leb_gt a b)) by lia]
  | |- context [(?a <? ?b)%Z] =>
      first [rewrite (proj2 (Z.ltb_lt a b)) by lia | rewrite (proj2 (Z.ltb_ge a b)) by lia]
  | |- context [(?a =? ?b)%Z] =>
      first [rewrite (proj2 (Z.eqb_eq a b)) by lia | rewrite (proj2 (Z.eqb_neq a b)) by lia]
  end.

(** [in_range]: a value is in the range of its machine type. *)
Ltac in_range := unfold GoInt.in_u32, GoInt.in_u64, GoInt.in_i64 in *; lia.

(** ** Randomness

    [math/rand]'s [Intn]: [draw] is the source's next value; the call panics
    when [n <= 0] and otherwise returns some value of [0, n). *)

Module GoRand.

Definition Intn (draw n : Z) : outcome Z :=
  if (n <=? 0)%Z then Panic "invalid argument to Intn" [] else Ret (draw mod n)%Z.

Lemma Intn_pos draw n : (0 < n)%Z → Intn draw n = Ret (draw mod n)%Z.
Proof. intros Hn. unfold Intn. by rewrite (proj2 (Z.leb_gt _ _)) by lia. Qed.

End GoRand.

(** ** Decimal numbers: [strconv.Atoi] *)

Module GoStrconv.

Definition digit (c : Ascii.ascii) : option Z :=
  let n := Z.of_nat (Ascii.nat_of_ascii c) in
  if (48 <=? n)%Z && (n <=? 57)%Z then Some (n - 48)%Z else None.

Fixpoint digits (s : string) (acc : Z) : option Z :=
  match s with
  | String.EmptyString => Some acc
  | String.String c s =>
      match digit c with
      | Some d => digits s (acc * 10 + d)%Z
      | None => None
      end
  end.

(** An optional sign and at least one digit, in the range of int. *)
Definition Atoi (s : string) : option Z :=
  let '(neg, body) :=
    match s with
    | String.String "-"%char s => (true, s)
    | String.String "+"%char s => (false, s)
    | _ => (false, s)
    end in
  match body with
  | String.EmptyString => None
  | _ =>
      match digits body 0 with
      | Some n =>
          let z := if neg : bool then (- n)%Z else n in
          if (GoInt.minInt64 <=? z)%Z && (z <=? GoInt.maxInt64)%Z then Some z else None
      | None => None
      end
  end.

Lemma Atoi_range s z : Atoi s = Some z → GoInt.in_i64 z.
Proof.
  unfold Atoi, GoInt.in_i64, GoInt.minInt64, GoInt.maxInt64.
  repeat case_match; intros; simplify_eq; lia.
Qed.

End GoStrconv.

(** ** Defaults

    [if x == 0 { x = d }] and [if s == (empty) { s = d }], which the [Validate] methods of
    configurations repeat. *)

Definition or_default (z d : Z) : Z := if (z =? 0)%Z then d else z.
Definition or_default_s (s d : string) : string := if decide (s = "") then d else s.

Lemma or_default_set z d : d ≠ 0%Z → or_default z d ≠ 0%Z.
Proof. unfold or_default. intros ?. destruct (Z.eqb_spec z 0); done. Qed.

Lemma or_default_s_set s d : d ≠ "" → or_default_s s d ≠ "".
Proof. unfold or_default_s. by case_decide. Qed.

Lemma or_default_id z d : z ≠ 0%Z → or_default z d = z.
Proof. unfold or_default. intros ?. destruct (Z.eqb_spec z 0); done. Qed.

Lemma or_default_s_id s d : s ≠ "" → or_default_s s d = s.
Proof. unfold or_default_s. by case_decide. Qed.

Lemma or_default_idemp z d : or_default (or_default z d) d = or_default z d.
Proof. unfold or_default. by destruct (Z.eqb_spec z 0) as [->|]; [destruct (d =? 0)%Z|destruct (Z.eqb_spec z 0)]. Qed.

Lemma or_default_s_idemp s d : or_default_s (or_default_s s d) d = or_default_s s d.
Proof. unfold or_default_s. by repeat case_decide. Qed.

(** Removes repeated defaults. *)
Create HintDb godefault.
#[export] Hint Rewrite or_default_idemp or_default_s_idemp : godefault.
#[export] Hint Resolve or_default_set or_default_s_set : godefault.

(** ** Iteration over a Go map

    [range m] enumerates the keys of [m] in an unspecified order that may
    differ at every loop: an order is an argument of the model, any
    permutation of the keys. *)
Definition range_of {V} (m : gmap string V) (ks : list string) : Prop :=
  ks ≡ₚ (map_to_list m).*1.

(** ** Lists *)

Lemma filter_ext_elem {A} (P Q : A → Prop) `{!∀ x, Decision (P x), !∀ x, Decision (Q x)} (l : list A) :
  (∀ x, x ∈ l → P x ↔ Q x) → filter P l = filter Q l.
Proof.
  induction l as [|x l IH]; intros HPQ; [done|].
  rewrite !filter_cons, IH by (intros y Hy; apply HPQ; by right).
  apply decide_ext, HPQ. by left.
Qed.

Lemma filter_all {A} (P : A → Prop) `{!∀ x, Decision (P x)} (l : list A) :
  (∀ x, x ∈ l → P x) → filter P l = l.
Proof.
  induction l as [|x l IH]; intros HP; [done|].
  rewrite filter_cons, decide_True by (apply HP; by left).
  f_equal. apply IH. intros y Hy. apply HP. by right.
Qed.

Lemma filter_none {A} (P : A → Prop) `{!∀ x, Decision (P x)} (l : list A) :
  (∀ x, x ∈ l → ¬ P x) → filter P l = [].
Proof.
  induction l as [|x l IH]; intros HP; [done|].
  rewrite filter_cons, decide_False by (apply HP; by left).
  apply IH. intros y Hy. apply HP. by right.
Qed.

Lemma NoDup_fmap_filter {A B} (f : A → B) (P : A → Prop) `{!∀ x, Decision (P x)} (l : list A) :
  NoDup (f <$> l) → NoDup (f <$> filter P l).
Proof.
  induction l as [|x l IH]; [done|]. rewrite fmap_cons, NoDup_cons, filter_cons.
  intros [Hx Hnd]. destruct (decide (P x)); [|by apply IH].
  rewrite fmap_cons, NoDup_cons. split; [|by apply IH].
  intros (y & Hy & [_ Hin]%list_elem_of_filter)%list_elem_of_fmap.
  apply Hx. rewrite Hy. by apply list_elem_of_fmap_2.
Qed.

(** In a list with distinct keys an element is determined by its key. *)
Lemma NoDup_fmap_inj_elem {A B} (f : A → B) (l : list A) x y :
  NoDup (f <$> l) → x ∈ l → y ∈ l → f x = f y → x = y.
Proof.
  intros Hnd Hx Hy Hf.
  apply list_elem_of_lookup in Hx as [i Hi], Hy as [j Hj].
  assert (i = j) as ->; [|congruence].
  eapply (NoDup_lookup (f <$> l)); [done|..]; rewrite list_lookup_fmap.
  - by rewrite Hi.
  - by rewrite Hj, Hf.
Qed.

Lemma list_bind_cons {A B} (f : A → list B) x l : (x :: l) ≫= f = f x ++ (l ≫= f).
Proof. reflexivity. Qed.

Lemma elem_of_snoc {A} (x y : A) (l : list A) : x ∈ l ++ [y] ↔ x ∈ l ∨ x = y.
Proof. by rewrite elem_of_app, list_elem_of_singleton. Qed.

Lemma NoDup_snoc {A} (x : A) (l : list A) : NoDup (l ++ [x]) ↔ x ∉ l ∧ NoDup l.
Proof.
  rewrite NoDup_app. setoid_rewrite list_elem_of_singleton. split.
  - intros (? & H & _). split; [|done]. intros Hx. by apply (H x).
  - intros [? ?]. split; [done|]. split; [naive_solver|apply NoDup_singleton].
Qed.

(** The number of elements a filter keeps drops by one when exactly one
    more element is excluded. *)
Lemma length_filter_drop_one {A} `{!EqDecision A} (x : A) (seen l : list A) :
  NoDup l → x ∉ seen →
  length (filter (λ y, y ∉ seen ++ [x]) l) + (if decide (x ∈ l) then 1 else 0) =
  length (filter (λ y, y ∉ seen) l).
Proof.
  intros Hnd Hx. induction Hnd as [|y l Hy Hnd IH]; [done|].
  rewrite !filter_cons. destruct (decide (y = x)) as [->|Hne].
  - rewrite (decide_True (P := x ∈ x :: l)) by set_solver.
    rewrite decide_False in IH by done.
    rewrite decide_False by set_solver. rewrite decide_True by done. simpl. lia.
  - replace (if decide (x ∈ y :: l) then 1 else 0) with (if decide (x ∈ l) then 1 else 0)
      by (apply decide_ext; set_solver).
    destruct (decide (y ∉ seen)).
    + rewrite decide_True by (rewrite elem_of_snoc; naive_solver). simpl. lia.
    + rewrite decide_False by (rewrite elem_of_snoc; naive_solver). lia.
Qed.
