(* ===== verification/GoString.v ===== *)
(** * Go strings

    A Go string is a sequence of bytes.  This file holds what several components
    use of package strings and of [range] over a string: UTF-8 decoding, prefixes
    and suffixes, searching, splitting, and comparison under case folding. *)

From Stdlib Require Import Ascii Wf_nat.
From S2P Require Import Prelude.

Open Scope Z_scope.

Definition byte_of (c : ascii) : Z := Z.of_nat (nat_of_ascii c).

Definition within (lo hi b : Z) : bool := (lo <=? b) && (b <=? hi).

(** ** Runes

    [range s]: the code points of a string.  A byte that does not start a valid
    encoding counts as one rune, U+FFFD. *)

Definition RuneError : Z := 65533.

(** The range of the second byte of a sequence of three or four bytes that
    starts with [b0]; [None] when [b0] starts no such sequence. *)
Definition second_of_three (b0 : Z) : option (Z * Z) :=
  if b0 =? 224 then Some (160, 191)
  else if b0 =? 237 then Some (128, 159)
  else if within 225 239 b0 then Some (128, 191)
  else None.

Definition second_of_four (b0 : Z) : option (Z * Z) :=
  if b0 =? 240 then Some (144, 191)
  else if b0 =? 244 then Some (128, 143)
  else if within 241 243 b0 then Some (128, 191)
  else None.

Definition in_opt (r : option (Z * Z)) (b : Z) : bool :=
  match r with Some (lo, hi) => within lo hi b | None => false end.

Definition cont (b : Z) : bool := within 128 191 b.

Fixpoint runes (s : string) : list Z :=
  match s with
  | String.EmptyString => []
  | String.String c0 s0 =>
      let b0 := byte_of c0 in
      if b0 <? 128 then b0 :: runes s0
      else
        match s0 with
        | String.String c1 s1 =>
            let b1 := byte_of c1 in
            if within 194 223 b0 && cont b1 then ((b0 mod 32) * 64 + b1 mod 64) :: runes s1
            else
              match s1 with
              | String.String c2 s2 =>
                  let b2 := byte_of c2 in
                  if in_opt (second_of_three b0) b1 && cont b2
                  then ((b0 mod 16) * 4096 + (b1 mod 64) * 64 + b2 mod 64) :: runes s2
                  else
                    match s2 with
                    | String.String c3 s3 =>
                        let b3 := byte_of c3 in
                        if in_opt (second_of_four b0) b1 && cont b2 && cont b3
                        then ((b0 mod 8) * 262144 + (b1 mod 64) * 4096 + (b2 mod 64) * 64 + b3 mod 64) :: runes s3
                        else RuneError :: runes s0
                    | String.EmptyString => RuneError :: runes s0
                    end
              | String.EmptyString => RuneError :: runes s0
              end
        | String.EmptyString => RuneError :: runes s0
        end
  end.

(** Two letters, the Kelvin sign, the euro sign and a stray byte. *)
Example runes_mixed :
  runes (String.String "k" (String.String (ascii_of_nat 226) (String.String (ascii_of_nat 132)
        (String.String (ascii_of_nat 170) (String.String (ascii_of_nat 255) "z"))))) = [107; 8490; 65533; 122].
Proof. vm_compute. done. Qed.

Lemma byte_of_range c : 0 <= byte_of c < 256.
Proof. unfold byte_of. pose proof (nat_ascii_bounded c). lia. Qed.

(** Every decoded rune is a code point. *)
Lemma runes_range s r : r ∈ runes s → 0 <= r <= 1114111.
Proof.
  induction s as [s IH] using (induction_ltof1 _ String.length). unfold ltof in IH.
  destruct s as [|c0 s0]; [by intros ?%elem_of_nil|]. cbn [String.length] in IH.
  assert (Hm : ∀ b n, 0 < n → 0 <= b mod n < n) by (intros; by apply Z.mod_pos_bound).
  cbn [runes]. pose proof (byte_of_range c0) as H0. revert H0. generalize (byte_of c0) as b0. intros b0 H0.
  case_match eqn:E0; [apply Z.ltb_lt in E0; intros [Hr|?]%elem_of_cons; [rewrite Hr; lia|eapply IH; [|done]; cbn; lia]|].
  assert (Herr : r ∈ RuneError :: runes s0 → 0 <= r <= 1114111).
  { intros [->|?]%elem_of_cons; [unfold RuneError; lia|eapply IH; [|done]; cbn; lia]. }
  destruct s0 as [|c1 s1]; [apply Herr|]. generalize (byte_of c1) as b1. intros b1.
  pose proof (Hm b0 32 ltac:(lia)). pose proof (Hm b0 16 ltac:(lia)). pose proof (Hm b1 64 ltac:(lia)).
  destruct (within 194 223 b0 && cont b1); [intros [Hr|?]%elem_of_cons; [rewrite Hr; lia|eapply IH; [|done]; cbn; lia]|].
  destruct s1 as [|c2 s2]; [apply Herr|]. generalize (byte_of c2) as b2. intros b2.
  pose proof (Hm b2 64 ltac:(lia)).
  destruct (in_opt (second_of_three b0) b1 && cont b2); [intros [Hr|?]%elem_of_cons; [rewrite Hr; lia|eapply IH; [|done]; cbn; lia]|].
  destruct s2 as [|c3 s3]; [apply Herr|]. generalize (byte_of c3) as b3. intros b3.
  pose proof (Hm b3 64 ltac:(lia)).
  case_match eqn:E4; [|apply Herr].
  intros [->|?]%elem_of_cons; [|eapply IH; [|done]; cbn; lia].
  apply andb_prop in E4 as [[E4 _]%andb_prop _]. unfold in_opt, second_of_four, within in E4.
  destruct (Z.eqb_spec b0 240) as [->|]; [change (240 mod 8) with 0; lia|].
  destruct (Z.eqb_spec b0 244) as [->|].
  - apply andb_prop in E4 as [E1%Z.leb_le E2%Z.leb_le].
    replace (b1 mod 64) with (b1 - 128) in * by (apply (Z.mod_unique_pos b1 64 2); lia).
    change (244 mod 8) with 4. lia.
  - destruct ((241 <=? b0) && (b0 <=? 243)) eqn:E5; [|done].
    apply andb_prop in E5 as [E5%Z.leb_le E6%Z.leb_le].
    replace (b0 mod 8) with (b0 - 240) by (apply (Z.mod_unique_pos b0 8 30); lia). lia.
Qed.

(** ** Package strings *)

Definition HasPrefix (s p : string) : bool := String.prefix p s.

Fixpoint rev_onto (s acc : string) : string :=
  match s with
  | String.EmptyString => acc
  | String.String c s => rev_onto s (String.String c acc)
  end.

Definition HasSuffix (s p : string) : bool := String.prefix (rev_onto p "") (rev_onto s "").

(** [strings.Contains]. *)
Fixpoint Contains (s sub : string) : bool :=
  String.prefix sub s ||
  match s with
  | String.EmptyString => false
  | String.String _ s => Contains s sub
  end.

(** [strings.Split] at a separator of one byte: the parts between its
    occurrences, at least one. *)
Fixpoint Split (sep : ascii) (s : string) : list string :=
  match s with
  | String.EmptyString => [""]
  | String.String c s =>
      if decide (c = sep) then "" :: Split sep s
      else match Split sep s with
           | part :: parts => String.String c part :: parts
           | [] => [String.String c ""]
           end
  end.

(** [strings.Join] with a separator. *)
Fixpoint Join (sep : string) (parts : list string) : string :=
  match parts with
  | [] => ""
  | [p] => p
  | p :: parts => p +:+ sep +:+ Join sep parts
  end.

(** [strings.TrimPrefix] and [strings.TrimSuffix]. *)
Fixpoint drop_chars (n : nat) (s : string) : string :=
  match n, s with
  | S n, String.String _ s => drop_chars n s
  | _, _ => s
  end.

Definition TrimPrefix (s p : string) : string :=
  if HasPrefix s p then drop_chars (String.length p) s else s.

Definition TrimSuffix (s p : string) : string :=
  if HasSuffix s p then rev_onto (drop_chars (String.length p) (rev_onto s "")) "" else s.

(** [strings.EqualFold].  Two runes outside ASCII fold to ASCII letters; the
    other runes outside ASCII are compared as they are, which is exact when one
    of the strings is ASCII. *)
Definition fold_rune (r : Z) : Z :=
  if within 65 90 r then r + 32
  else if r =? 8490 then 107
  else if r =? 383 then 115
  else r.

Definition EqualFold (s t : string) : bool := bool_decide (fold_rune <$> runes s = fold_rune <$> runes t).

(** Unicode white space, and lower case: the runes outside ASCII whose lower
    case is ASCII are the Kelvin sign and the dotted capital i; the others keep
    a lower case outside ASCII and are left as they are, which is exact where the
    result is compared with ASCII. *)
Definition is_space_rune (r : Z) : bool :=
  within 9 13 r || (r =? 32) || (r =? 133) || (r =? 160) || (r =? 5760) || within 8192 8202 r || (r =? 8232)
  || (r =? 8233) || (r =? 8239) || (r =? 8287) || (r =? 12288).

Definition lower_rune (r : Z) : Z :=
  if within 65 90 r then r + 32 else if r =? 8490 then 107 else if r =? 304 then 105 else r.

Fixpoint trim_front (rs : list Z) : list Z :=
  match rs with
  | r :: rs' => if is_space_rune r then trim_front rs' else rs
  | [] => []
  end.

(** [strings.TrimSpace] and [strings.ToLower], on runes. *)
Definition trim_space (rs : list Z) : list Z := reverse (trim_front (reverse (trim_front rs))).
Definition to_lower (rs : list Z) : list Z := lower_rune <$> rs.

#[export] Instance append_assoc : Assoc (=) String.append.
Proof. intros x y z. induction x as [|c x IH]; [done|]. exact (f_equal (String.String c) IH). Qed.

Lemma Split_not_nil sep s : Split sep s ≠ [].
Proof. destruct s as [|c s]; cbn; [done|]. case_decide; [done|]. by destruct (Split sep s). Qed.

Lemma Join_cons sep p ps : ps ≠ [] → Join sep (p :: ps) = p +:+ sep +:+ Join sep ps.
Proof. by destruct ps. Qed.

(** Joining the parts of a split gives the string back. *)
Lemma Join_Split sep s : Join (String.String sep "") (Split sep s) = s.
Proof.
  induction s as [|c s IH]; [done|]. cbn [Split]. pose proof (Split_not_nil sep s).
  case_decide as E.
  - subst c. rewrite Join_cons by done. by rewrite IH.
  - destruct (Split sep s) as [|p [|q ps]]; [done|..]; cbn in IH |- *; by rewrite <-IH.
Qed.

Lemma EqualFold_refl s : EqualFold s s = true.
Proof. by apply bool_decide_eq_true. Qed.

Lemma HasPrefix_spec s p : HasPrefix s p = true ↔ ∃ t, s = p +:+ t.
Proof.
  unfold HasPrefix. revert s. induction p as [|c p IH]; intros s; cbn.
  - split; [|by destruct s]. intros _. by exists s.
  - destruct s as [|d s]; [naive_solver|]. cbn. destruct (ascii_dec c d) as [->|Hne].
    + rewrite IH. split; intros [t Ht]; exists t; [by subst|by injection Ht].
    + split; [done|]. intros [t Ht]. by injection Ht.
Qed.

Lemma Contains_spec s sub : Contains s sub = true ↔ ∃ pre post, s = pre +:+ sub +:+ post.
Proof.
  induction s as [|c s IH]; cbn [Contains]; rewrite orb_true_iff;
    change (String.prefix sub ?s) with (HasPrefix s sub); rewrite HasPrefix_spec.
  - split; [intros [[t Ht]|?]; [by exists "", t|done]|]. intros (pre & post & E). left.
    destruct pre; [by exists post|done].
  - rewrite IH. split.
    + intros [[t Ht]|(pre & post & ->)]; [by exists "", t|]. by exists (String.String c pre), post.
    + intros ([|d pre] & post & E); [left; by exists post|]. injection E as -> ->. right. by exists pre, post.
Qed.

Lemma drop_chars_app p t : drop_chars (String.length p) (p +:+ t) = t.
Proof. induction p as [|c p IH]; cbn; [by destruct t|apply IH]. Qed.

Lemma TrimPrefix_app p t : TrimPrefix (p +:+ t) p = t.
Proof.
  unfold TrimPrefix. rewrite (proj2 (HasPrefix_spec _ _)) by (by exists t). apply drop_chars_app.
Qed.

Lemma TrimPrefix_none s p : HasPrefix s p = false → TrimPrefix s p = s.
Proof. unfold TrimPrefix. by intros ->. Qed.

(** ** [strings.TrimSpace] on bytes *)

Definition chars (ns : list nat) : string := foldr (λ n s, String.String (ascii_of_nat n) s) "" ns.

(** The encodings of the Unicode spaces. *)
Definition spaces : list string :=
  chars <$> ([[9]; [10]; [11]; [12]; [13]; [32]; [194; 133]; [194; 160]; [225; 154; 128]; [226; 128; 128]; [226; 128; 129];
    [226; 128; 130]; [226; 128; 131]; [226; 128; 132]; [226; 128; 133]; [226; 128; 134]; [226; 128; 135]; [226; 128; 136];
    [226; 128; 137]; [226; 128; 138]; [226; 128; 168]; [226; 128; 169]; [226; 128; 175]; [226; 129; 159]; [227; 128; 128]])%nat.

(** Drops the leading occurrences of [ps]; every round drops a byte at least. *)
Fixpoint trim_left (fuel : nat) (ps : list string) (s : string) : string :=
  match fuel with
  | O => s
  | S fuel =>
      match find (HasPrefix s) ps with
      | Some p => trim_left fuel ps (TrimPrefix s p)
      | None => s
      end
  end.

Definition reversed (s : string) : string := rev_onto s "".

Definition TrimSpace (s : string) : string :=
  let s := trim_left (String.length s) spaces s in
  reversed (trim_left (String.length s) (reversed <$> spaces) (reversed s)).

(** ** Splitting and trimming *)

Lemma rev_onto_app s t acc : rev_onto (rev_onto s t) acc = rev_onto t (s +:+ acc).
Proof. revert t. induction s as [|c s IH]; intros t; cbn; [done|]. by rewrite IH. Qed.

Lemma reversed_reversed s : reversed (reversed s) = s.
Proof.
  unfold reversed. rewrite rev_onto_app. cbn. induction s as [|c s IH]; [done|].
  exact (f_equal (String.String c) IH).
Qed.

(** Neither starts nor ends with a space. *)
Definition trimmed (s : string) : Prop :=
  find (HasPrefix s) spaces = None ∧ find (HasPrefix (reversed s)) (reversed <$> spaces) = None.

Lemma trim_left_none n ps s : find (HasPrefix s) ps = None → trim_left n ps s = s.
Proof. destruct n; cbn; [done|]. by intros ->. Qed.

Lemma TrimSpace_trimmed s : trimmed s → TrimSpace s = s.
Proof.
  intros [Hl Hr]. unfold TrimSpace. rewrite (trim_left_none _ _ _ Hl), (trim_left_none _ _ _ Hr).
  apply reversed_reversed.
Qed.

Lemma Contains_tail c s sep : Contains (String.String c s) (String.String sep "") = false →
  c ≠ sep ∧ Contains s (String.String sep "") = false.
Proof.
  intros H. split.
  - intros ->. assert (Contains (String.String sep s) (String.String sep "") = true); [|congruence].
    apply Contains_spec. by exists "", s.
  - cbn [Contains] in H. by apply orb_false_iff in H as [_ ?].
Qed.

Lemma Split_no_sep sep s : Contains s (String.String sep "") = false → Split sep s = [s].
Proof.
  induction s as [|c s IH]; [done|]. intros [Hne Hc]%Contains_tail. cbn [Split].
  rewrite decide_False by done. by rewrite (IH Hc).
Qed.

Lemma Split_app sep p s : Contains p (String.String sep "") = false →
  Split sep (p +:+ String.String sep s) = p :: Split sep s.
Proof.
  induction p as [|c p IH].
  - intros _. change ("" +:+ ?t) with t. cbn [Split]. by rewrite decide_True.
  - intros [Hne Hc]%Contains_tail.
    change (String.String c p +:+ String.String sep s) with (String.String c (p +:+ String.String sep s)).
    cbn [Split]. rewrite decide_False by done. by rewrite (IH Hc).
Qed.

Lemma Split_Join sep p ps : Forall (λ p, Contains p (String.String sep "") = false) (p :: ps) →
  Split sep (Join (String.String sep "") (p :: ps)) = p :: ps.
Proof.
  revert p. induction ps as [|q ps IH]; intros p [Hp Hf]%Forall_cons; [by apply Split_no_sep|].
  rewrite Join_cons by done. change (String.String sep "" +:+ ?t) with (String.String sep t).
  by rewrite Split_app, IH.
Qed.
