(* ===== verification/GoFloat.v ===== *)
(** * Go float64

    Binary64 numbers and the operations the code uses on them, computed with
    the Standard Library's [SpecFloat]. *)

From Stdlib Require Export SpecFloat.
From S2P Require Import Prelude.

Definition float64 : Type := spec_float.

Definition fdiv (x y : float64) : float64 := SFdiv 53 1024 x y.
Definition fmul (x y : float64) : float64 := SFmul 53 1024 x y.

(** [x > y]; false when one is not a number. *)
Definition fgt (x y : float64) : bool := SFltb y x.

(** [float64(z)]. *)
Definition of_int (z : Z) : float64 := binary_normalize 53 1024 z 0 false.

(** [int(x)]: truncation toward zero; what is not representable as an int64
    gives the smallest int64 (the language leaves it to the implementation). *)
Definition to_int (x : float64) : Z :=
  let checked z := if (GoInt.minInt64 <=? z)%Z && (z <=? GoInt.maxInt64)%Z then z else GoInt.minInt64 in
  match x with
  | S754_zero _ => 0
  | S754_finite s m e =>
      let a := if (0 <=? e)%Z then Z.shiftl (Zpos m) e else Z.shiftr (Zpos m) (- e) in
      checked (if s then - a else a)%Z
  | _ => GoInt.minInt64
  end.
