(* ===== verification/Kernel.v ===== *)
(** * pkg/kernel: plugin contract, service locator and plugin registry

    Models [src/pkg/kernel/kernel.go] (the [Plugin] contract, the [Context]
    handed to plugins and the [serviceRegistry] behind it) and
    [src/pkg/kernel/registry.go] ([Registry]).

    The methods of a plugin are code of the application: they are fields of
    the record [Plugin], arbitrary functions of the context and of the process
    state.  [V] is the type of service values ([any]), [X] everything else the
    plugins can read and write, [L] the [context.Context] values. *)

From S2P Require Import Prelude.

Import GoError.

Section Kernel.
Context {V X L : Type}.

(** The state the plugins share: the content of the service locator and
    the rest of the process. *)
Record world := World {
  services : gmap string V;
  outside : X
}.

(** [kernel.Context]: what [clone] sets per call.  The configuration source,
    the locator and the logger are the same pointers in every clone. *)
Record Context := MkContext {
  lifecycle : L;
  pluginName : string
}.

Record Plugin := MkPlugin {
  Name : string;
  Depends : list string;
  SoftDepends : option (list string);   (** [None]: not a [SoftDepender] *)
  Configure : Context → world → world * option error;
  Start : Context → world → world * option error;
  Stop : Context → world → world * option error
}.

Definition clone (c : Context) (lc : L) (name : string) : Context :=
  {| lifecycle := lc; pluginName := name |}.

Definition ErrDisabled : string := "kernel.ErrDisabled".

(** ** Service locator *)

Definition newServiceRegistry : gmap string V := ∅.

Definition SetService (name : string) (svc : V) (w : world) : world :=
  {| services := <[name := svc]> (services w); outside := outside w |}.

Definition GetService (name : string) (w : world) : option V :=
  services w !! name.

Definition MustGetService (name : string) (w : world) : outcome V :=
  match services w !! name with
  | Some svc => Ret svc
  | None => Panic "kernel: service %q not found (missing or disabled plugin?)" [name]
  end.

(** The type assertion [svc.(T)] is the argument [as_T]. *)
Definition GetServiceT {T} (as_T : V → option T) (name : string) (w : world) : option T :=
  match services w !! name with
  | None => None
  | Some svc =>
      match as_T svc with
      | None => None
      | Some typed => Some typed
      end
  end.

Definition MustGetServiceT {T} (as_T : V → option T) (name : string) (w : world) : outcome T :=
  match services w !! name with
  | None => Panic "kernel: service %q not found (missing or disabled plugin?)" [name]
  | Some svc =>
      match as_T svc with
      | None => Panic "kernel: service %q is not of requested type" [name]
      | Some typed => Ret typed
      end
  end.

(** ** Registry *)

Record Registry := MkRegistry {
  plugins : gmap string Plugin;
  order : list string
}.

Definition NewRegistry : Registry := {| plugins := ∅; order := [] |}.

(** [Register]: the argument is a Plugin interface value, [None] for nil. *)
Definition Register (p : option Plugin) (r : Registry) : Registry * option error :=
  match p with
  | None => (r, Some (Errorf "kernel: register nil plugin" []))
  | Some p =>
      let name := Name p in
      if decide (name = "") then (r, Some (Errorf "kernel: plugin name is empty" []))
      else match plugins r !! name with
      | Some _ => (r, Some (Errorf "kernel: plugin %q already registered" [name]))
      | None =>
          ({| plugins := <[name := p]> (plugins r); order := order r ++ [name] |}, None)
      end
  end.

Definition MustRegister (p : option Plugin) (r : Registry) : outcome Registry :=
  match Register p r with
  | (r', None) => Ret r'
  | (_, Some (Errorf f args)) => Panic f args
  | (_, Some _) => Panic "" []
  end.

(** [Plugins]: a name of [order] missing from the map gives a nil plugin. *)
Definition Plugins (r : Registry) : list (option Plugin) :=
  (λ name, plugins r !! name) <$> order r.

Definition Get (name : string) (r : Registry) : option Plugin := plugins r !! name.

Definition Reset (r : Registry) : Registry := {| plugins := ∅; order := [] |}.

(** ** Invariant of the registry: the map and the order list agree, every
    plugin is stored under its own non-empty name, once. *)

Record registry_wf (r : Registry) : Prop := {
  wf_nodup : NoDup (order r);
  wf_dom : ∀ n, n ∈ order r ↔ is_Some (plugins r !! n);
  wf_name : ∀ n p, plugins r !! n = Some p → Name p = n;
  wf_nonempty : "" ∉ order r
}.

Lemma NewRegistry_wf : registry_wf NewRegistry.
Proof.
  split; simpl.
  - constructor.
  - intros n. rewrite lookup_empty, elem_of_nil. split; [done | by intros []].
  - intros n p. by rewrite lookup_empty.
  - apply not_elem_of_nil.
Qed.

Lemma Register_wf p r : registry_wf r → registry_wf (Register p r).1.
Proof.
  intros [Hnd Hdom Hname Hne]. unfold Register.
  destruct p as [p|]; [|done].
  destruct (decide (Name p = "")) as [|Hn]; [done|].
  destruct (plugins r !! Name p) as [q|] eqn:Hq; [done|].
  assert (Hfresh : Name p ∉ order r).
  { rewrite Hdom, Hq. by intros []. }
  split; simpl.
  - apply NoDup_app. repeat split; [done| |apply NoDup_singleton].
    intros x Hx ->%list_elem_of_singleton. done.
  - intros n. rewrite elem_of_app, list_elem_of_singleton, Hdom, lookup_insert.
    case_decide as Hd; [subst; split; [eauto|by right]|].
    split; [by intros [?| ->]|by left].
  - intros n p'. rewrite lookup_insert. case_decide as Hd; [|eauto].
    by intros [= <-].
  - rewrite elem_of_app, list_elem_of_singleton. intros [?|?]; [done|congruence].
Qed.

(** Under the invariant no plugin of the snapshot is nil. *)
Lemma Plugins_wf r :
  registry_wf r → ∃ ps : list Plugin, Plugins r = Some <$> ps ∧ (Name <$> ps) = order r.
Proof.
  intros [_ Hdom Hname _]. unfold Plugins.
  assert (H : ∀ l : list string, (∀ n, n ∈ l → is_Some (plugins r !! n)) →
    ∃ ps : list Plugin, ((λ name, plugins r !! name) <$> l) = Some <$> ps ∧ (Name <$> ps) = l).
  { induction l as [|n l IH]; intros Hl; [by exists []|].
    destruct IH as (ps & Hps & Hnm); [intros m Hm; apply Hl; by right|].
    destruct (Hl n) as [p Hp]; [by left|].
    exists (p :: ps). by rewrite !fmap_cons, Hps, Hnm, Hp, (Hname _ _ Hp). }
  apply H. intros n. by rewrite Hdom.
Qed.

(** ** A sequence of registrations against its specification *)

(** The calls [Register p1; Register p2; ...] on one registry, with the errors
    they return. *)
Fixpoint register_seq (ps : list (option Plugin)) (r : Registry) : Registry * list (option error) :=
  match ps with
  | [] => (r, [])
  | p :: ps =>
      let '(r1, e) := Register p r in
      let '(r2, es) := register_seq ps r1 in
      (r2, e :: es)
  end.

(** Specification: a plugin is accepted when it is not nil, has a name and
    the name was not accepted before. *)
Fixpoint accepted (seen : list string) (ps : list (option Plugin)) : list Plugin :=
  match ps with
  | [] => []
  | None :: ps => accepted seen ps
  | Some p :: ps =>
      if decide (Name p = "" ∨ Name p ∈ seen) then accepted seen ps
      else p :: accepted (Name p :: seen) ps
  end.

Lemma register_seq_spec ps r seen :
  registry_wf r →
  (∀ n, n ∈ seen ↔ is_Some (plugins r !! n)) →
  let r' := (register_seq ps r).1 in
  registry_wf r' ∧
  order r' = order r ++ (Name <$> accepted seen ps) ∧
  (∀ n, plugins r' !! n =
    match plugins r !! n with
    | Some p => Some p
    | None => list_find (λ p, Name p = n) (accepted seen ps) ≫= λ ip, Some ip.2
    end).
Proof.
  revert r seen. induction ps as [|p ps IH]; intros r seen Hwf Hseen; simpl.
  { split; [done|]. split; [by rewrite app_nil_r|].
    intros n. by destruct (plugins r !! n). }
  pose proof (Register_wf p r Hwf) as Hwf1.
  destruct (Register p r) as [r1 e] eqn:HR; simpl in Hwf1.
  destruct (register_seq ps r1) as [r2 es] eqn:HS; simpl.
  unfold Register in HR. destruct p as [p|].
  2:{ injection HR as <- <-. specialize (IH r seen Hwf Hseen). rewrite HS in IH. exact IH. }
  destruct (decide (Name p = "")) as [He|He].
  { injection HR as <- <-. rewrite decide_True by auto.
    specialize (IH r seen Hwf Hseen). rewrite HS in IH. exact IH. }
  destruct (plugins r !! Name p) as [q|] eqn:Hq.
  { injection HR as <- <-. rewrite decide_True by (right; apply Hseen; eauto).
    specialize (IH r seen Hwf Hseen). rewrite HS in IH. exact IH. }
  injection HR as <- <-. rewrite decide_False.
  2:{ intros [?|Hin]; [done|]. apply Hseen in Hin. rewrite Hq in Hin. by destruct Hin. }
  set (r1 := {| plugins := <[Name p := p]> (plugins r); order := order r ++ [Name p] |}) in *.
  destruct (IH r1 (Name p :: seen) Hwf1) as (Hw & Ho & Hl).
  { intros n. subst r1; simpl. rewrite elem_of_cons, Hseen, lookup_insert.
    case_decide as Hd; [subst; split; [eauto|by left]|].
    split; [by intros [->|?]|by right]. }
  rewrite HS in Hw, Ho, Hl. simpl in *. split; [done|]. split.
  { rewrite Ho. subst r1; simpl. by rewrite <- app_assoc. }
  intros n. rewrite Hl. subst r1; simpl. rewrite lookup_insert.
  case_decide as Hd.
  { subst. by rewrite Hq. }
  destruct (plugins r !! n) eqn:Hn; [done|].
  by destruct (list_find (λ p0, Name p0 = n) (accepted (Name p :: seen) ps)) as [[??]|].
Qed.

Lemma accepted_names ps seen :
  NoDup (Name <$> accepted seen ps) ∧
  ∀ n, n ∈ Name <$> accepted seen ps → n ∉ seen.
Proof.
  revert seen. induction ps as [|[p|] ps IH]; intros seen; simpl; [|destruct (decide _) as [|Hne]; [apply IH|]|apply IH].
  { split; [constructor|set_solver]. }
  destruct (IH (Name p :: seen)) as [Hnd Hns]. rewrite fmap_cons. split.
  - constructor; [|done]. intros Hin%Hns. apply Hin. by left.
  - intros n [->|Hn]%elem_of_cons; [naive_solver|]. apply Hns in Hn. set_solver.
Qed.

Lemma list_find_by_name ps p :
  NoDup (Name <$> ps) → p ∈ ps →
  (list_find (λ q, Name q = Name p) ps ≫= λ ip, Some ip.2) = Some p.
Proof.
  intros Hnd Hp.
  destruct (list_find_elem_of (λ q, Name q = Name p) ps p) as [[i q] Hf]; [done..|].
  rewrite Hf. simpl. f_equal. apply list_find_Some in Hf as (Hi & Hq & _).
  eapply NoDup_fmap_inj_elem; [done| |done|done]. by eapply list_elem_of_lookup_2.
Qed.

(** ** Properties *)

(** After any sequence of [Register] calls on a new registry, the
    invariant holds, [Plugins] is the list of the accepted plugins in call
    order (accepted: not nil, named, name not accepted before), none of them
    nil, and [Get] finds exactly those by name. *)
Theorem registry_refines_list (ps : list (option Plugin)) :
  let r := (register_seq ps NewRegistry).1 in
  registry_wf r ∧
  Plugins r = Some <$> accepted [] ps ∧
  ∀ n p, Get n r = Some p ↔ p ∈ accepted [] ps ∧ Name p = n.
Proof.
  intros r. destruct (register_seq_spec ps NewRegistry [] NewRegistry_wf) as (Hwf & Ho & Hl).
  { intros n. simpl. rewrite lookup_empty. split; [set_solver|by intros []]. }
  fold r in Hwf, Ho, Hl. simpl in Ho, Hl. setoid_rewrite lookup_empty in Hl.
  destruct (accepted_names ps []) as [Hnd _].
  split; [done|]. split.
  - unfold Plugins. rewrite Ho, <- list_fmap_compose. apply list_fmap_ext.
    intros i p Hp. simpl. rewrite Hl. apply list_find_by_name; [done|].
    by eapply list_elem_of_lookup_2.
  - intros n p. unfold Get. rewrite Hl. split.
    + intros Hf. destruct (list_find _ _) as [[i q]|] eqn:Hq; [|done].
      injection Hf as <-. apply list_find_Some in Hq as (Hi & Hn & _).
      split; [by eapply list_elem_of_lookup_2|done].
    + intros [Hp <-]. by apply list_find_by_name.
Qed.

End Kernel.
