(* ===== verification/StableSort.v ===== *)
(** * pkg/kernel/loader.go: sortSliceStable and sortStrings

    The in-place insertion sort the loader uses on its work queue and on the
    names of a dependency cycle, modelled on the slice with its swaps, and
    proved to sort for every comparison that is a strict weak order. *)

From Stdlib Require Import OrdersEx.
From S2P Require Import Prelude.

Section StableSort.
Context {A : Type} (less : A → A → bool).

(** The inner loop: [for j := i; j > 0 && less(list[j], list[j-1]); j--] with
    the swap of the two cells. *)
Fixpoint sift (j : nat) (l : list A) : list A :=
  match j with
  | O => l
  | S j' =>
      match l !! j, l !! j' with
      | Some a, Some b =>
          if less a b then sift j' (<[j' := a]> (<[j := b]> l)) else l
      | _, _ => l
      end
  end.

(** The outer loop: [k] iterations from index [i]. *)
Fixpoint sort_from (k i : nat) (l : list A) : list A :=
  match k with
  | O => l
  | S k => sort_from k (S i) (sift i l)
  end.

Definition sortSliceStable (l : list A) : list A := sort_from (length l - 1) 1 l.

(** ** Specification by insertion into a list kept in reverse *)

Fixpoint insert_rev (x : A) (rp : list A) : list A :=
  match rp with
  | [] => [x]
  | y :: rp' => if less x y then y :: insert_rev x rp' else x :: y :: rp'
  end.

Definition insert_last (pre : list A) (x : A) : list A :=
  reverse (insert_rev x (reverse pre)).

Lemma sift_insert pre x post :
  sift (length pre) (pre ++ x :: post) = insert_last pre x ++ post.
Proof.
  revert post. induction pre as [|y pre IH] using rev_ind; intros post; [done|].
  rewrite length_app, Nat.add_1_r. simpl sift.
  unfold insert_last. rewrite reverse_snoc. simpl insert_rev.
  rewrite <- app_assoc. simpl app.
  rewrite (list_lookup_middle pre (x :: post) y (length pre)) by done.
  rewrite cons_middle, app_assoc.
  rewrite (list_lookup_middle (pre ++ [y]) post x) by (rewrite length_app; simpl; lia).
  destruct (less x y); [|by rewrite !reverse_cons, reverse_involutive, <- !app_assoc].
  rewrite <- app_assoc. simpl app.
  rewrite insert_app_r_alt by lia.
  replace (S (length pre) - length pre) with 1 by lia. simpl.
  rewrite insert_app_r_alt by lia. rewrite Nat.sub_diag. simpl.
  rewrite IH. unfold insert_last. by rewrite reverse_cons, <- app_assoc.
Qed.

Lemma insert_rev_perm x rp : insert_rev x rp ≡ₚ x :: rp.
Proof.
  induction rp as [|y rp IH]; [done|]. simpl.
  destruct (less x y); [|done]. rewrite IH. constructor.
Qed.

Lemma insert_last_perm pre x : insert_last pre x ≡ₚ pre ++ [x].
Proof.
  unfold insert_last.
  rewrite reverse_Permutation, insert_rev_perm, reverse_Permutation.
  by rewrite Permutation_app_comm.
Qed.

Lemma sort_from_perm post pre :
  sort_from (length post) (length pre) (pre ++ post) ≡ₚ pre ++ post.
Proof.
  revert pre. induction post as [|x post IH]; intros pre; [done|]. simpl.
  rewrite sift_insert.
  replace (S (length pre)) with (length (insert_last pre x)).
  2:{ rewrite (Permutation_length (insert_last_perm pre x)), length_app. simpl. lia. }
  by rewrite IH, insert_last_perm, <- app_assoc.
Qed.

Lemma sortSliceStable_perm l : sortSliceStable l ≡ₚ l.
Proof.
  destruct l as [|x l]; [done|]. unfold sortSliceStable. rewrite length_cons, Nat.sub_1_r. simpl Nat.pred.
  apply (sort_from_perm l [x]).
Qed.

(** ** Sortedness for a strict weak order *)

Definition not_less (a b : A) : Prop := less b a = false.

Context (less_asym : ∀ a b, less a b = true → less b a = false).
Context (not_less_trans : ∀ a b c, not_less a b → not_less b c → not_less a c).

(** [rp] is the reverse of a sorted list. *)
Lemma insert_rev_sorted x rp :
  StronglySorted (flip not_less) rp → StronglySorted (flip not_less) (insert_rev x rp).
Proof.
  induction 1 as [|y rp Hs IH Hall]; simpl.
  { repeat constructor. }
  destruct (less x y) eqn:Hxy.
  - constructor; [done|]. rewrite insert_rev_perm. constructor; [|done].
    unfold flip, not_less. by apply less_asym.
  - constructor; [by constructor|]. constructor; [done|].
    eapply Forall_impl; [done|]. intros z Hz.
    unfold flip in *. by apply (not_less_trans z y x).
Qed.

Lemma StronglySorted_reverse (R : relation A) l :
  StronglySorted R l → StronglySorted (flip R) (reverse l).
Proof.
  induction 1 as [|x l Hs IH Hall]; [constructor|].
  rewrite reverse_cons. apply StronglySorted_app_2; [|done|repeat constructor].
  intros a b Ha ->%list_elem_of_singleton. rewrite elem_of_reverse in Ha.
  rewrite Forall_forall in Hall. by apply Hall.
Qed.

Lemma insert_last_sorted pre x :
  StronglySorted not_less pre → StronglySorted not_less (insert_last pre x).
Proof.
  intros Hs. apply StronglySorted_reverse in Hs.
  by apply (StronglySorted_reverse (flip not_less)), insert_rev_sorted.
Qed.

Lemma sort_from_sorted post pre :
  StronglySorted not_less pre →
  StronglySorted not_less (sort_from (length post) (length pre) (pre ++ post)).
Proof.
  revert pre. induction post as [|x post IH]; intros pre Hs; simpl.
  { by rewrite app_nil_r. }
  rewrite sift_insert.
  replace (S (length pre)) with (length (insert_last pre x)).
  2:{ rewrite (Permutation_length (insert_last_perm pre x)), length_app. simpl. lia. }
  by apply IH, insert_last_sorted.
Qed.

Lemma sortSliceStable_sorted l : StronglySorted not_less (sortSliceStable l).
Proof.
  destruct l as [|x l]; [constructor|]. unfold sortSliceStable. rewrite length_cons, Nat.sub_1_r. simpl Nat.pred.
  apply (sort_from_sorted l [x]). repeat constructor.
Qed.

(** Stability: elements the comparison does not separate keep their order. *)
Lemma insert_rev_filter x rp (P : A → Prop) `{!∀ a, Decision (P a)} :
  (∀ a b, P a → P b → less a b = false) →
  filter P (insert_rev x rp) = filter P (x :: rp).
Proof.
  intros Heq. induction rp as [|y rp IH]; [done|]. simpl insert_rev.
  destruct (less x y) eqn:Hxy; [|done].
  rewrite !filter_cons, IH, !filter_cons.
  destruct (decide (P x)) as [Hx|Hx], (decide (P y)) as [Hy|Hy]; try done.
  by rewrite (Heq _ _ Hx Hy) in Hxy.
Qed.

Lemma sort_from_filter post pre (P : A → Prop) `{!∀ a, Decision (P a)} :
  (∀ a b, P a → P b → less a b = false) →
  filter P (sort_from (length post) (length pre) (pre ++ post)) = filter P (pre ++ post).
Proof.
  intros Heq. revert pre. induction post as [|x post IH]; intros pre; [done|]. simpl.
  rewrite sift_insert.
  replace (S (length pre)) with (length (insert_last pre x)).
  2:{ rewrite (Permutation_length (insert_last_perm pre x)), length_app. simpl. lia. }
  rewrite IH. change (x :: post) with ([x] ++ post). rewrite (app_assoc pre), !(filter_app _ _ post).
  f_equal. unfold insert_last.
  assert (Hrev : ∀ l, filter P (reverse l) = reverse (filter P l)).
  { induction l as [|a l IHl]; [done|]. rewrite reverse_cons, filter_app, IHl, !filter_cons.
    destruct (decide (P a)); [by rewrite reverse_cons|by rewrite filter_nil, app_nil_r]. }
  rewrite Hrev, insert_rev_filter by done.
  by rewrite <- Hrev, reverse_cons, reverse_involutive.
Qed.

Lemma sortSliceStable_stable l (P : A → Prop) `{!∀ a, Decision (P a)} :
  (∀ a b, P a → P b → less a b = false) → filter P (sortSliceStable l) = filter P l.
Proof.
  intros Heq. destruct l as [|x l]; [done|]. unfold sortSliceStable. rewrite length_cons, Nat.sub_1_r. simpl Nat.pred.
  by apply (sort_from_filter l [x]).
Qed.

End StableSort.

(** ** The two orders the loader sorts by *)

(** [bySeq]: a comparison of natural keys. *)
Definition by_key {A} (key : A → nat) (a b : A) : bool := bool_decide (key a < key b).

Lemma by_key_sorted {A} (key : A → nat) l :
  StronglySorted (λ a b, key a <= key b) (sortSliceStable (by_key key) l).
Proof.
  assert (H : ∀ a b, not_less (by_key key) a b ↔ key a <= key b).
  { intros a b. unfold not_less, by_key. rewrite bool_decide_eq_false. lia. }
  rewrite <- (list_fmap_id (sortSliceStable _ l)).
  apply (StronglySorted_fmap id (not_less (by_key key))); [intros a b; apply H|].
  apply sortSliceStable_sorted.
  - intros a b. unfold by_key. rewrite bool_decide_eq_true, bool_decide_eq_false. lia.
  - intros a b c. rewrite !H. lia.
Qed.

(** Go compares strings byte by byte. *)
Definition string_less (a b : string) : bool := String.ltb a b.

Definition sortStrings (l : list string) : list string := sortSliceStable string_less l.

Lemma string_compare_OT a b : String.compare a b = String_as_OT.compare a b.
Proof.
  revert b. induction a as [|c a IH]; intros [|d b]; simpl; [done..|].
  change (Ascii.compare c d) with (Ascii_as_OT.compare c d).
  by destruct (Ascii_as_OT.compare c d).
Qed.

Lemma string_less_lt a b : string_less a b = true ↔ String_as_OT.lt a b.
Proof.
  unfold string_less, String.ltb, String_as_OT.lt.
  rewrite string_compare_OT. by destruct (String_as_OT.compare a b).
Qed.

Lemma string_not_less a b :
  not_less string_less a b ↔ a = b ∨ String_as_OT.lt a b.
Proof.
  unfold not_less. rewrite <- not_true_iff_false, string_less_lt.
  destruct (String_as_OT.compare_spec a b) as [Heq|Hlt|Hgt].
  - split; [by left|]. intros _ Hlt. rewrite Heq in Hlt. destruct (irreflexivity String_as_OT.lt _ Hlt).
  - split; [by right|]. intros _ Hgt.
    eapply (irreflexivity String_as_OT.lt a). by etrans.
  - split; [done|]. intros [->|Hlt] ?; [destruct (irreflexivity String_as_OT.lt _ Hgt)|].
    eapply (irreflexivity String_as_OT.lt a). by etrans.
Qed.

Lemma sortStrings_sorted l : StronglySorted (not_less string_less) (sortStrings l).
Proof.
  apply sortSliceStable_sorted.
  - intros a b Hab%string_less_lt. apply (string_not_less a b). by right.
  - intros a b c. rewrite !string_not_less. intros [->|?] [->|?]; try by auto.
    right. by etrans.
Qed.

(** Two enumerations of the same names sort to the same list. *)
Lemma sortStrings_unique l l' : l ≡ₚ l' → sortStrings l = sortStrings l'.
Proof.
  intros Hp. eapply (StronglySorted_unique_strong (not_less string_less));
    [|apply sortStrings_sorted..|].
  - intros a b _ _. rewrite !string_not_less. intros [?|Hab] [?|Hba]; try done.
    exfalso. eapply (irreflexivity String_as_OT.lt a). by etrans.
  - unfold sortStrings. by rewrite !sortSliceStable_perm.
Qed.
