(* ===== verification/TopoSort.v ===== *)
(** * pkg/kernel/loader.go: topoSort

    Kahn's algorithm over the configured plugins, with the registration order
    as tie breaker, and its refinement of the specification
    it starts with: the result is the greedy order whatever order Go's map
    iterations take, or the cycle error exactly when no order exists. *)

From S2P Require Import Prelude Kernel StableSort.

Import GoError.

(** ** Specification of the plugin start order

    The contract the loader documents ("topological sort, registration order
    breaks ties, deterministic result"), stated on a finite set of names with
    a dependency relation, independently of the algorithm: an order is
    [greedy] when each element was, among the names whose dependencies all
    precede it, the one registered first.  Such an order is unique, it is a
    topological order when it covers all names, and it covers all names
    whenever any topological order exists. *)

Section GreedyOrder.
Context (N : list string) (D : string → list string) (sq : string → nat).

(** [n] can be placed after the names [placed]. *)
Definition ready (placed : list string) (n : string) : Prop :=
  n ∈ N ∧ (n ∉ placed) ∧ (∀ d, d ∈ D n → d ∈ placed).

Inductive greedy : list string → Prop :=
| greedy_nil : greedy []
| greedy_snoc l x :
    greedy l → ready l x → (∀ y, ready l y → sq x <= sq y) → greedy (l ++ [x]).

Definition maximal (l : list string) : Prop := ∀ y, ¬ ready l y.

(** A topological order of [N]: a permutation in which dependencies come first. *)
Definition topological (l : list string) : Prop :=
  l ≡ₚ N ∧ ∀ l1 x l2, l = l1 ++ x :: l2 → ∀ d, d ∈ D x → d ∈ l1.

Lemma greedy_app_inv l y k :
  greedy (l ++ y :: k) → ready l y ∧ ∀ z, ready l z → sq y <= sq z.
Proof.
  induction k as [|z k IH] using rev_ind; intros Hg.
  - inversion Hg as [He|l' x Hg' Hr Hmin He]; [by destruct l|].
    by apply app_inj_tail in He as [-> ->].
  - inversion Hg as [He|l' x Hg' Hr Hmin He]; [by destruct l|].
    rewrite (app_comm_cons k), app_assoc in He.
    apply app_inj_tail in He as [-> ->]. auto.
Qed.

Lemma greedy_subset l : greedy l → ∀ n, n ∈ l → n ∈ N.
Proof.
  induction 1 as [|l x Hg IH Hr Hmin]; intros n; [set_solver|].
  rewrite elem_of_app, list_elem_of_singleton. intros [?| ->]; [auto|apply Hr].
Qed.

Lemma greedy_NoDup l : greedy l → NoDup l.
Proof.
  induction 1 as [|l x Hg IH Hr Hmin]; [constructor|].
  apply NoDup_app. split; [done|]. split; [|apply NoDup_singleton].
  intros n Hn ->%list_elem_of_singleton. by apply Hr.
Qed.

(** Dependencies of a placed name are placed. *)
Lemma greedy_closed l : greedy l → ∀ n d, n ∈ l → d ∈ D n → d ∈ l.
Proof.
  intros Hg n d Hn Hd. apply list_elem_of_split in Hn as (l1 & l2 & ->).
  destruct (greedy_app_inv _ _ _ Hg) as [(_ & _ & Hr) _].
  apply elem_of_app. left. by apply Hr.
Qed.

Lemma greedy_length l : greedy l → length l <= length N.
Proof.
  intros Hg. apply submseteq_length, NoDup_submseteq; [by apply greedy_NoDup|].
  by apply greedy_subset.
Qed.

Lemma greedy_full_perm l : NoDup N → greedy l → length l = length N → l ≡ₚ N.
Proof.
  intros HN Hg Hlen. apply submseteq_length_Permutation; [|lia].
  apply NoDup_submseteq; [by apply greedy_NoDup|by apply greedy_subset].
Qed.

Lemma greedy_topological l :
  NoDup N → greedy l → length l = length N → topological l.
Proof.
  intros HN Hg Hlen. split; [by apply greedy_full_perm|].
  intros l1 x l2 -> d Hd. apply (greedy_app_inv l1 x l2 Hg). done.
Qed.

(** Two greedy orders are comparable: only the last step can be missing. *)
Lemma greedy_prefix l l' :
  (∀ a b, a ∈ N → b ∈ N → sq a = sq b → a = b) →
  greedy l → greedy l' → l `prefix_of` l' ∨ l' `prefix_of` l.
Proof.
  intros Hinj Hg Hg'. induction Hg as [|l x Hg IH Hr Hmin].
  { left. apply prefix_nil. }
  destruct IH as [[k ->]|Hp].
  2:{ right. etrans; [done|by apply prefix_app_r]. }
  destruct k as [|y k].
  { right. rewrite app_nil_r. by apply prefix_app_r. }
  left. destruct (greedy_app_inv _ _ _ Hg') as [Hry Hminy].
  assert (x = y) as ->.
  { apply Hinj; [apply Hr|apply Hry|].
    pose proof (Hmin y Hry). pose proof (Hminy x Hr). lia. }
  exists k. by rewrite <- app_assoc.
Qed.

(** The order is unique. *)
Lemma greedy_unique l l' :
  (∀ a b, a ∈ N → b ∈ N → sq a = sq b → a = b) →
  greedy l → maximal l → greedy l' → maximal l' → l = l'.
Proof.
  intros Hinj Hg Hm Hg' Hm'.
  assert (H : ∀ l1 l2, greedy l2 → maximal l1 → l1 `prefix_of` l2 → l1 = l2).
  { intros l1 l2 Hg2 Hm1 [[|y k] ->]; [by rewrite app_nil_r|].
    exfalso. apply (Hm1 y). by apply (greedy_app_inv l1 y k). }
  destruct (greedy_prefix l l'); [done..| |]; [by apply H|symmetry; by apply H].
Qed.

(** A maximal greedy order contains every name of any topological order. *)
Lemma maximal_covers l t :
  topological t → maximal l → ∀ n, n ∈ N → n ∈ l.
Proof.
  intros [Hp Ht] Hm.
  assert (Hpre : ∀ t1 t2, t = t1 ++ t2 → ∀ n, n ∈ t1 → n ∈ l).
  { induction t1 as [|x t1 IH] using rev_ind; intros t2 Heq n; [set_solver|].
    rewrite elem_of_app, list_elem_of_singleton.
    rewrite <- app_assoc in Heq. simpl in Heq.
    intros [Hn| ->]; [by eapply IH|].
    destruct (decide (x ∈ l)) as [|Hx]; [done|]. exfalso. apply (Hm x).
    split; [rewrite <- Hp, Heq; set_solver|]. split; [done|].
    intros d Hd. eapply (IH (x :: t2)); [done|]. by eapply Ht. }
  intros n Hn. eapply (Hpre t []); [by rewrite app_nil_r|]. by rewrite Hp.
Qed.

(** When the order misses a name, every missing name waits for a missing one:
    the missing names contain a dependency cycle. *)
Lemma maximal_stuck l n :
  maximal l → n ∈ N → n ∉ l → ∃ d, d ∈ D n ∧ d ∉ l.
Proof.
  intros Hm HnN Hnl.
  destruct (decide (Forall (λ d, d ∈ l) (D n))) as [Hall|Hex].
  - exfalso. apply (Hm n). split; [done|]. split; [done|].
    intros d Hd. rewrite Forall_forall in Hall. by apply Hall.
  - apply not_Forall_Exists in Hex; [|intros d; apply _].
    apply Exists_exists in Hex as (d & Hd & Hnd). eauto.
Qed.

End GreedyOrder.

(** ** The algorithm *)

Section TopoSort.
Context {V X L : Type}.
Abbreviation Plugin := (@Kernel.Plugin V X L).

(** ** Small tools of loader.go *)

Fixpoint contains (list : list string) (v : string) : bool :=
  match list with
  | [] => false
  | s :: rest => if decide (s = v) then true else contains rest v
  end.

(** [dedupe] keeps the first occurrence of each value ([seen] is the map of
    the values met so far). *)
Fixpoint dedupe_from (seen : gset string) (l : list string) : list string :=
  match l with
  | [] => []
  | v :: l =>
      if decide (v ∈ seen) then dedupe_from seen l
      else v :: dedupe_from ({[v]} ∪ seen) l
  end.

Definition dedupe (l : list string) : list string := dedupe_from ∅ l.

Definition softDepends (p : Plugin) : list string :=
  match SoftDepends p with
  | Some l => l
  | None => []
  end.

(** ** The sort *)

(** [seq[p.Name()] = i] for the registered plugins from index [i] on. *)
Fixpoint build_seq (i : nat) (registered : list Plugin) (seq : gmap string nat) : gmap string nat :=
  match registered with
  | [] => seq
  | p :: ps => build_seq (S i) ps (<[Name p := i]> seq)
  end.

Definition seq_of (seq : gmap string nat) (n : string) : nat := default 0 (seq !! n).

(** Hard dependencies, then the soft ones whose target takes part. *)
Definition deps_of (configured : gmap string Plugin) (p : Plugin) : list string :=
  foldl (λ deps dep,
      if bool_decide (is_Some (configured !! dep)) && negb (contains deps dep)
      then deps ++ [dep] else deps)
    (dedupe (Depends p)) (dedupe (softDepends p)).

(** One iteration of the loop that fills [indegree] and [dependents]. *)
Definition graph_step (configured : gmap string Plugin)
    (g : gmap string Z * gmap string (list string)) (name : string) :
    gmap string Z * gmap string (list string) :=
  match configured !! name with
  | None => g
  | Some p =>
      let deps := deps_of configured p in
      (<[name := Z.of_nat (length deps)]> g.1,
       foldl (λ dependents dep, <[dep := default [] (dependents !! dep) ++ [name]]> dependents)
         g.2 deps)
  end.

(** One iteration of [for _, next := range dependents[name]]. *)
Definition relax (st : gmap string Z * list string) (next : string) :
    gmap string Z * list string :=
  let d := (default 0 (st.1 !! next) - 1)%Z in
  (<[next := d]> st.1, if decide (d = 0%Z) then st.2 ++ [next] else st.2).

(** The main loop; [None] is lack of fuel, excluded by [topoSort_total]. *)
Fixpoint kahn (fuel : nat) (seq : gmap string nat) (dependents : gmap string (list string))
    (indegree : gmap string Z) (queue order : list string) : option (list string) :=
  match queue with
  | [] => Some order
  | name :: rest =>
      match fuel with
      | O => None
      | S fuel =>
          let '(indegree', queue') :=
            foldl relax (indegree, rest) (default [] (dependents !! name)) in
          kahn fuel seq dependents indegree'
            (sortSliceStable (by_key (seq_of seq)) queue') (order ++ [name])
      end
  end.

(** [r1], [r2], [r3]: the orders in which the three [range configured] loops
    enumerate the map. *)
Definition topoSort (configured : gmap string Plugin) (registered : list Plugin)
    (r1 r2 r3 : list string) : option (result (list string)) :=
  let seq := build_seq 0 registered ∅ in
  let '(indegree, dependents) := foldl (graph_step configured) (∅, ∅) r1 in
  let queue := filter (λ name, default 0%Z (indegree !! name) = 0%Z) r2 in
  match kahn (size configured) seq dependents indegree
          (sortSliceStable (by_key (seq_of seq)) queue) [] with
  | None => None
  | Some order =>
      if decide (length order = size configured) then Some (Ok order)
      else
        let remaining := filter (λ name, contains order name = false) r3 in
        Some (Err (Errorf "kernel: dependency cycle detected among plugins: %s"
                     (sortStrings remaining)))
  end.

(** ** Correctness of the tools *)

Lemma contains_spec l v : contains l v = true ↔ v ∈ l.
Proof.
  induction l as [|s l IH]; simpl; [set_solver|].
  rewrite elem_of_cons. destruct (decide (s = v)) as [->|Hne]; [by split; [left|]|].
  rewrite IH. split; [by right|]. intros [->|?]; done.
Qed.

Lemma contains_false l v : contains l v = false ↔ v ∉ l.
Proof. rewrite <- contains_spec. by destruct (contains l v). Qed.

Lemma dedupe_from_elem seen l n : n ∈ dedupe_from seen l ↔ n ∈ l ∧ n ∉ seen.
Proof.
  revert seen. induction l as [|v l IH]; intros seen; simpl; [set_solver|].
  destruct (decide (v ∈ seen)) as [Hv|Hv]; rewrite ?elem_of_cons, IH.
  - set_solver.
  - destruct (decide (n = v)); set_solver.
Qed.

Lemma dedupe_elem l n : n ∈ dedupe l ↔ n ∈ l.
Proof. unfold dedupe. rewrite dedupe_from_elem. set_solver. Qed.

Lemma dedupe_NoDup l : NoDup (dedupe l).
Proof.
  unfold dedupe. generalize (∅ : gset string) as seen.
  induction l as [|v l IH]; intros seen; simpl; [constructor|].
  destruct (decide (v ∈ seen)); [done|]. constructor; [|done].
  rewrite dedupe_from_elem. set_solver.
Qed.

Lemma deps_of_spec configured p :
  NoDup (deps_of configured p) ∧
  ∀ d, d ∈ deps_of configured p ↔
    d ∈ Depends p ∨ (d ∈ softDepends p ∧ is_Some (configured !! d)).
Proof.
  unfold deps_of.
  assert (H : ∀ soft deps, NoDup deps →
    let r := foldl (λ deps dep,
      if bool_decide (is_Some (configured !! dep)) && negb (contains deps dep)
      then deps ++ [dep] else deps) deps soft in
    NoDup r ∧ ∀ d, d ∈ r ↔ d ∈ deps ∨ (d ∈ soft ∧ is_Some (configured !! d))).
  { induction soft as [|s soft IH]; intros deps Hnd; simpl; [split; [done|set_solver]|].
    destruct (bool_decide (is_Some (configured !! s)) && negb (contains deps s)) eqn:Hb.
    - apply andb_true_iff in Hb as [Hs Hc]. apply bool_decide_eq_true in Hs.
      apply negb_true_iff, contains_false in Hc.
      destruct (IH (deps ++ [s])) as [Hn Hi].
      { apply NoDup_app. split; [done|]. split; [|apply NoDup_singleton].
        intros x Hx ->%list_elem_of_singleton. done. }
      split; [done|]. intros d. rewrite Hi. set_solver.
    - destruct (IH deps Hnd) as [Hn Hi]. split; [done|]. intros d. rewrite Hi.
      apply andb_false_iff in Hb.
      assert (Hs : is_Some (configured !! s) → s ∈ deps).
      { intros Hs. destruct Hb as [Hb|Hb]; [by apply bool_decide_eq_false in Hb|].
        apply negb_false_iff in Hb. by apply contains_spec. }
      rewrite elem_of_cons. naive_solver. }
  destruct (H (dedupe (softDepends p)) (dedupe (Depends p)) (dedupe_NoDup _)) as [Hn Hi].
  split; [done|]. intros d. rewrite Hi, !dedupe_elem. done.
Qed.

Lemma build_seq_lookup registered i seq n :
  NoDup (Name <$> registered) →
  build_seq i registered seq !! n =
    match list_find (λ p, Name p = n) registered with
    | Some (k, _) => Some (i + k)
    | None => seq !! n
    end.
Proof.
  revert i seq. induction registered as [|p ps IH]; intros i seq Hnd; [done|]. simpl.
  rewrite fmap_cons, NoDup_cons in Hnd. destruct Hnd as [Hp Hnd].
  rewrite IH by done. destruct (decide (Name p = n)) as [<-|Hne].
  - destruct (list_find _ ps) as [[k q]|] eqn:Hf.
    + exfalso. apply list_find_Some in Hf as (Hk & Hq & _). apply Hp.
      rewrite <- Hq. apply list_elem_of_fmap_2. by eapply list_elem_of_lookup_2.
    + rewrite lookup_insert_eq. f_equal. lia.
  - destruct (list_find _ ps) as [[k q]|] eqn:Hf; simpl.
    + f_equal. lia.
    + by rewrite lookup_insert_ne.
Qed.

Lemma seq_of_index registered n :
  NoDup (Name <$> registered) → n ∈ Name <$> registered →
  ∃ k p, registered !! k = Some p ∧ Name p = n ∧ seq_of (build_seq 0 registered ∅) n = k.
Proof.
  intros Hnd (p & -> & Hp)%list_elem_of_fmap.
  destruct (list_find_elem_of (λ q, Name q = Name p) registered p) as [[k q] Hf]; [done..|].
  unfold seq_of. rewrite build_seq_lookup, Hf by done.
  apply list_find_Some in Hf as (Hk & Hq & _). by exists k, q.
Qed.

(** Registration positions separate names. *)
Lemma seq_of_inj registered a b :
  NoDup (Name <$> registered) →
  a ∈ Name <$> registered → b ∈ Name <$> registered →
  seq_of (build_seq 0 registered ∅) a = seq_of (build_seq 0 registered ∅) b → a = b.
Proof.
  intros Hnd Ha Hb. destruct (seq_of_index registered a Hnd Ha) as (k & p & Hk & <- & ->).
  destruct (seq_of_index registered b Hnd Hb) as (k' & q & Hk' & <- & ->).
  intros ->. congruence.
Qed.

(** ** The dependency graph *)

Lemma graph_dependents_fold name deps (g : gmap string (list string)) d :
  NoDup deps →
  default [] (foldl (λ dependents dep,
     <[dep := default [] (dependents !! dep) ++ [name]]> dependents) g deps !! d) =
  default [] (g !! d) ++ (if decide (d ∈ deps) then [name] else []).
Proof.
  revert g. induction deps as [|x deps IH]; intros g Hnd; cbn [foldl].
  { rewrite decide_False by set_solver. by rewrite app_nil_r. }
  apply NoDup_cons in Hnd as [Hx Hnd]. rewrite IH by done.
  rewrite lookup_insert. destruct (decide (x = d)) as [->|Hne].
  - rewrite decide_False by done. rewrite decide_True by set_solver. by rewrite app_nil_r.
  - f_equal. apply decide_ext. set_solver.
Qed.

(** The dependencies the sort counts for a name: the relation of
    [GreedyOrder]. *)
Definition node_deps (configured : gmap string Plugin) (n : string) : list string :=
  match configured !! n with
  | Some p => deps_of configured p
  | None => []
  end.

(** The graph after the loop over the names [r]. *)
Lemma graph_spec configured (r : list string) :
  NoDup r → (∀ n, n ∈ r → is_Some (configured !! n)) →
  let g := foldl (graph_step configured) (∅, ∅) r in
  (∀ n, n ∈ r → default 0%Z (g.1 !! n) = Z.of_nat (length (node_deps configured n))) ∧
  (∀ d, default [] (g.2 !! d) = filter (λ n, d ∈ node_deps configured n) r).
Proof.
  induction r as [|x r IH] using rev_ind; intros Hnd Hin; simpl.
  { split; [set_solver|]. intros d. by rewrite lookup_empty. }
  apply NoDup_app in Hnd as (Hnd & Hx & _).
  assert (Hxr : x ∉ r) by (intros Hxr; apply (Hx x Hxr); set_solver).
  destruct (IH Hnd) as [Hdeg Hdep]; [set_solver|].
  rewrite foldl_app. simpl. set (g := foldl _ _ r) in *.
  destruct (Hin x) as [p Hp]; [set_solver|]. unfold graph_step. rewrite Hp. simpl.
  split.
  - intros n Hn. rewrite lookup_insert. destruct (decide (x = n)) as [<-|Hd].
    + unfold node_deps. by rewrite Hp.
    + apply Hdeg. apply elem_of_snoc in Hn as [?|?]; congruence.
  - intros d. rewrite graph_dependents_fold by apply deps_of_spec.
    rewrite Hdep, filter_app. f_equal. rewrite filter_cons, filter_nil.
    apply decide_ext. unfold node_deps. by rewrite Hp.
Qed.

Lemma relax_fold ks (indeg : gmap string Z) q :
  NoDup ks →
  let st := foldl relax (indeg, q) ks in
  (∀ n, default 0%Z (st.1 !! n) =
     (default 0 (indeg !! n) - (if decide (n ∈ ks) then 1 else 0))%Z) ∧
  st.2 = q ++ filter (λ n, default 0%Z (indeg !! n) = 1%Z) ks.
Proof.
  revert indeg q. induction ks as [|k ks IH]; intros indeg q Hnd; cbn [foldl].
  { split; [intros n; rewrite decide_False by set_solver; cbn; lia|].
    by rewrite filter_nil, app_nil_r. }
  apply NoDup_cons in Hnd as [Hk Hnd].
  destruct (IH (<[k := (default 0 (indeg !! k) - 1)%Z]> indeg)
    (if decide ((default 0 (indeg !! k) - 1)%Z = 0%Z) then q ++ [k] else q) Hnd) as [H1 H2].
  change (relax (indeg, q) k) with (<[k := (default 0 (indeg !! k) - 1)%Z]> indeg,
    if decide ((default 0 (indeg !! k) - 1)%Z = 0%Z) then q ++ [k] else q).
  split.
  - intros n. rewrite H1, lookup_insert. destruct (decide (k = n)) as [->|Hne].
    + rewrite decide_False, decide_True by set_solver. cbn. lia.
    + f_equal. apply decide_ext. set_solver.
  - rewrite H2, filter_cons.
    replace (filter (λ n, default 0%Z
       (<[k := (default 0 (indeg !! k) - 1)%Z]> indeg !! n) = 1%Z) ks)
      with (filter (λ n, default 0%Z (indeg !! n) = 1%Z) ks).
    + destruct (decide (default 0%Z (indeg !! k) = 1%Z)) as [He|He].
      * rewrite decide_True by lia. by rewrite <- app_assoc.
      * by rewrite decide_False by lia.
    + apply filter_ext_elem. intros n Hn.
      rewrite lookup_insert_ne by (intros ->; done). done.
Qed.

(** ** Kahn's loop refines the greedy specification *)

Section Kahn.
Context (N : list string) (D : string → list string).
Context (seq : gmap string nat) (dependents : gmap string (list string)).
Context (HD : ∀ n, NoDup (D n)).
Context (HN : NoDup N).
Context (Hdependents : ∀ d, default [] (dependents !! d) ≡ₚ filter (λ n, d ∈ D n) N).

Record kahn_inv (indegree : gmap string Z) (queue order : list string) : Prop := {
  ki_greedy : greedy N D (seq_of seq) order;
  ki_deg : ∀ n, n ∈ N →
    default 0%Z (indegree !! n) = Z.of_nat (length (filter (λ d, d ∉ order) (D n)));
  ki_queue : ∀ n, n ∈ queue ↔ ready N D order n;
  ki_nodup : NoDup queue;
  ki_sorted : StronglySorted (λ a b, seq_of seq a <= seq_of seq b) queue
}.

Lemma no_missing_dep (order : list string) n :
  length (filter (λ d, d ∉ order) (D n)) = 0 ↔ ∀ d, d ∈ D n → d ∈ order.
Proof.
  rewrite length_zero_iff_nil. split.
  - intros Hf d Hd. destruct (decide (d ∈ order)) as [|Hnd]; [done|].
    exfalso. apply (not_elem_of_nil d). rewrite <- Hf. by apply list_elem_of_filter.
  - intros Hall. apply elem_of_nil_inv. intros d [Hn Hd]%list_elem_of_filter. auto.
Qed.

(** The head of the queue is the ready name registered first. *)
Lemma kahn_inv_pick indegree x rest order :
  kahn_inv indegree (x :: rest) order → greedy N D (seq_of seq) (order ++ [x]).
Proof.
  intros [Hg Hdeg Hq Hnd Hs]. constructor; [done| |].
  - apply Hq. by left.
  - intros y Hy%Hq. apply StronglySorted_cons in Hs as [Hall _].
    apply elem_of_cons in Hy as [->|Hy]; [done|].
    rewrite Forall_forall in Hall. by apply Hall.
Qed.

(** What becomes ready when the head of the queue is taken: the rest of the
    queue, and the dependents whose only missing dependency it was. *)
Lemma ready_step indegree x rest order n :
  kahn_inv indegree (x :: rest) order → x ∉ rest →
  n ∈ rest ∨ default 0%Z (indegree !! n) = 1%Z ∧ x ∈ D n ∧ n ∈ N ↔ ready N D (order ++ [x]) n.
Proof.
  intros [Hg Hdeg Hq _ _] Hxr.
  assert (Hx : ready N D order x) by (apply Hq; by left). destruct Hx as (HxN & Hxo & Hxd).
  pose proof (length_filter_drop_one x order (D n) (HD n) Hxo) as Hdrop.
  unfold ready. rewrite elem_of_snoc. split.
  - intros [Hr|(Hone & Hxn & HnN)].
    + destruct (proj1 (Hq n) ltac:(by right)) as (HnN & Hno & Hnd').
      split; [done|]. split; [intros [?| ->]; done|].
      intros d Hd. rewrite elem_of_snoc. auto.
    + split; [done|]. split.
      * intros [Hno| ->]; [|by apply Hxo, Hxd].
        by apply Hxo, (greedy_closed N D (seq_of seq) order Hg n).
      * apply no_missing_dep. rewrite decide_True in Hdrop by done.
        rewrite Hdeg in Hone by done. lia.
  - intros (HnN & Hno & Hall). destruct (decide (x ∈ D n)) as [Hxn|Hxn].
    + right. split; [|done]. rewrite Hdeg by done. apply no_missing_dep in Hall. lia.
    + left. assert (Hnq : n ∈ x :: rest).
      { apply Hq. split; [done|]. split; [naive_solver|].
        intros d Hd. destruct (proj1 (elem_of_snoc _ _ _) (Hall d Hd)); naive_solver. }
      apply elem_of_cons in Hnq as [->|?]; [|done]. exfalso. naive_solver.
Qed.

Lemma kahn_inv_step indegree x rest order :
  kahn_inv indegree (x :: rest) order →
  let st := foldl relax (indegree, rest) (default [] (dependents !! x)) in
  kahn_inv st.1 (sortSliceStable (by_key (seq_of seq)) st.2) (order ++ [x]).
Proof.
  intros Hinv st. pose proof (kahn_inv_pick _ _ _ _ Hinv) as Hpick.
  pose proof Hinv as [Hg Hdeg Hq Hnd Hs].
  assert (Hx : ready N D order x) by (apply Hq; by left).
  destruct Hx as (HxN & Hxo & Hxd).
  assert (Hks : NoDup (default [] (dependents !! x))).
  { rewrite Hdependents. by apply NoDup_filter. }
  destruct (relax_fold _ indegree rest Hks) as [H1 H2]. fold st in H1, H2.
  assert (Hin : ∀ n, n ∈ default [] (dependents !! x) ↔ x ∈ D n ∧ n ∈ N).
  { intros n. by rewrite Hdependents, list_elem_of_filter. }
  assert (Hdrop : ∀ n, n ∈ N → length (filter (λ d, d ∉ order ++ [x]) (D n)) +
    (if decide (x ∈ D n) then 1 else 0) = length (filter (λ d, d ∉ order) (D n))).
  { intros n _. by apply length_filter_drop_one. }
  apply NoDup_cons in Hnd as [Hxr Hnd].
  assert (Hnew : ∀ n, n ∈ st.2 ↔ ready N D (order ++ [x]) n).
  { intros n. rewrite H2, elem_of_app, list_elem_of_filter, Hin.
    by apply (ready_step indegree x rest order). }
  split.
  - done.
  - intros n HnN. rewrite H1, Hdeg by done. specialize (Hdrop n HnN).
    destruct (decide (n ∈ default [] (dependents !! x))) as [Hn|Hn]; rewrite Hin in Hn.
    + rewrite decide_True in Hdrop by naive_solver. lia.
    + rewrite decide_False in Hdrop by naive_solver. lia.
  - intros n. by rewrite sortSliceStable_perm, Hnew.
  - rewrite sortSliceStable_perm, H2. apply NoDup_app. split; [done|]. split.
    + intros n Hn [_ [Hxn _]%Hin]%list_elem_of_filter.
      destruct (proj1 (Hq n) ltac:(by right)) as (_ & _ & Hnd'). auto.
    + by apply NoDup_filter.
  - apply by_key_sorted.
Qed.

(** The loop terminates within one iteration per name, in a greedy order that
    cannot be extended. *)
Lemma kahn_correct fuel indegree queue order :
  kahn_inv indegree queue order → length N <= fuel + length order →
  ∃ o, kahn fuel seq dependents indegree queue order = Some o ∧
    greedy N D (seq_of seq) o ∧ maximal N D o.
Proof.
  revert indegree queue order.
  induction fuel as [|fuel IH]; intros indegree [|x rest] order Hinv Hfuel; simpl.
  1,3: exists order; split; [done|]; split; [apply Hinv|];
    intros y Hy%(ki_queue _ _ _ Hinv); by apply not_elem_of_nil in Hy.
  - pose proof (greedy_length _ _ _ _ (kahn_inv_pick _ _ _ _ Hinv)) as Hlen.
    rewrite length_app in Hlen. simpl in Hlen. lia.
  - pose proof (kahn_inv_step _ _ _ _ Hinv) as Hstep. simpl in Hstep.
    destruct (foldl relax _ _) as [indegree' queue'].
    apply IH; [done|]. rewrite length_app. simpl. lia.
Qed.

End Kahn.

(** ** topoSort *)

Definition keys (configured : gmap string Plugin) : list string :=
  (map_to_list configured).*1.

Lemma keys_elem configured n : n ∈ keys configured ↔ is_Some (configured !! n).
Proof.
  unfold keys. split.
  - intros ([k p] & -> & Hk)%list_elem_of_fmap. apply elem_of_map_to_list in Hk. eauto.
  - intros [p Hp]. apply list_elem_of_fmap. exists (n, p). split; [done|].
    by apply elem_of_map_to_list.
Qed.

Lemma keys_NoDup configured : NoDup (keys configured).
Proof. apply NoDup_fst_map_to_list. Qed.

Lemma keys_length configured : length (keys configured) = size configured.
Proof. unfold keys. by rewrite length_fmap, length_map_to_list. Qed.

(** The registration position of a plugin name. *)
Definition position (registered : list Plugin) : string → nat :=
  seq_of (build_seq 0 registered ∅).

Lemma topoSort_spec configured registered r1 r2 r3 :
  range_of configured r1 → range_of configured r2 → range_of configured r3 →
  ∃ o, greedy (keys configured) (node_deps configured) (position registered) o ∧
    maximal (keys configured) (node_deps configured) o ∧
    topoSort configured registered r1 r2 r3 =
      Some (if decide (length o = size configured) then Ok o
            else Err (Errorf "kernel: dependency cycle detected among plugins: %s"
                        (sortStrings (filter (λ n, n ∉ o) (keys configured))))).
Proof.
  intros Hr1 Hr2 Hr3. unfold range_of in *. fold (keys configured) in Hr1, Hr2, Hr3.
  unfold topoSort. set (seq := build_seq 0 registered ∅).
  destruct (graph_spec configured r1) as [Hdeg Hdep].
  { rewrite Hr1. apply keys_NoDup. }
  { intros n. rewrite Hr1. apply keys_elem. }
  destruct (foldl (graph_step configured) (∅, ∅) r1) as [indegree dependents].
  simpl in Hdeg, Hdep.
  destruct (kahn_correct (keys configured) (node_deps configured) seq dependents)
    with (fuel := size configured) (indegree := indegree) (order := @nil string)
      (queue := sortSliceStable (by_key (seq_of seq))
         (filter (λ name, default 0%Z (indegree !! name) = 0%Z) r2)) as (o & Hk & Hg & Hm).
  - intros n. unfold node_deps. destruct (configured !! n); [apply deps_of_spec|constructor].
  - apply keys_NoDup.
  - intros d. by rewrite Hdep, Hr1.
  - split.
    + constructor.
    + intros n Hn. rewrite Hdeg by (by rewrite Hr1).
      f_equal. f_equal. symmetry. apply filter_all. intros d _. apply not_elem_of_nil.
    + intros n. rewrite sortSliceStable_perm, list_elem_of_filter, Hr2. unfold ready. split.
      * intros [H0 Hn]. split; [done|]. split; [apply not_elem_of_nil|].
        rewrite Hdeg in H0 by (by rewrite Hr1). intros d Hd.
        destruct (node_deps configured n); [done|]. simpl in H0. lia.
      * intros (Hn & _ & Hall). split; [|done]. rewrite Hdeg by (by rewrite Hr1).
        rewrite (elem_of_nil_inv (node_deps configured n)); [done|].
        intros d Hd%Hall. by apply not_elem_of_nil in Hd.
    + rewrite sortSliceStable_perm. apply NoDup_filter. rewrite Hr2. apply keys_NoDup.
    + apply by_key_sorted.
  - rewrite keys_length. simpl. lia.
  - exists o. split; [done|]. split; [done|]. rewrite Hk.
    destruct (decide (length o = size configured)); [done|]. do 3 f_equal.
    apply sortStrings_unique. rewrite <- Hr3.
    rewrite (filter_ext_elem (λ name, contains o name = false) (λ n, n ∉ o)); [done|].
    intros m _. apply contains_false.
Qed.

Lemma position_inj registered (configured : gmap string Plugin) a b :
  NoDup (Name <$> registered) →
  (∀ n, is_Some (configured !! n) → n ∈ Name <$> registered) →
  a ∈ keys configured → b ∈ keys configured →
  position registered a = position registered b → a = b.
Proof.
  intros Hnd Hsub Ha%keys_elem%Hsub Hb%keys_elem%Hsub. by apply seq_of_inj.
Qed.

(** ** Properties *)

(** What the plugins declare: [n] names [d] in [Depends], or in [SoftDepends] while
    [d] takes part. *)
Definition requires (configured : gmap string Plugin) (n d : string) : Prop :=
  ∃ p, configured !! n = Some p ∧
    (d ∈ Depends p ∨ (∃ soft, SoftDepends p = Some soft ∧ d ∈ soft) ∧ is_Some (configured !! d)).

(** All configured plugins, once each, after what they require. *)
Definition start_order (configured : gmap string Plugin) (o : list string) : Prop :=
  NoDup o ∧ (∀ n, n ∈ o ↔ is_Some (configured !! n)) ∧
  ∀ l1 n l2, o = l1 ++ n :: l2 → ∀ d, requires configured n d → d ∈ l1.

Definition registered_before (registered : list Plugin) (a b : string) : Prop :=
  ∃ i j p q, i < j ∧ registered !! i = Some p ∧ registered !! j = Some q ∧ Name p = a ∧ Name q = b.

Lemma requires_node_deps configured n d : requires configured n d ↔ d ∈ node_deps configured n.
Proof.
  unfold requires, node_deps. destruct (configured !! n) as [p|].
  - rewrite (proj2 (deps_of_spec configured p)). unfold softDepends.
    split; [intros (? & [= <-] & H)|intros H; exists p; split; [done|]]; destruct (SoftDepends p); set_solver.
  - split; [by intros (? & ? & _)|]. intros H. by apply not_elem_of_nil in H.
Qed.

Lemma start_order_topological configured o :
  start_order configured o ↔ topological (keys configured) (node_deps configured) o.
Proof.
  split.
  - intros (Hnd & Hin & Ho). split.
    + apply NoDup_Permutation; [done|apply keys_NoDup|]. intros n. by rewrite Hin, keys_elem.
    + intros l1 n l2 Heq d Hd. eapply Ho; [done|]. by apply requires_node_deps.
  - intros [Hp Ho]. split; [rewrite Hp; apply keys_NoDup|]. split; [intros n; by rewrite Hp, keys_elem|].
    intros l1 n l2 Heq d Hd%requires_node_deps. by eapply Ho.
Qed.

Lemma position_before registered a b :
  NoDup (Name <$> registered) → a ∈ Name <$> registered → b ∈ Name <$> registered → a ≠ b →
  position registered a <= position registered b → registered_before registered a b.
Proof.
  intros Hnd Ha Hb Hne Hle.
  destruct (seq_of_index registered a Hnd Ha) as (i & p & Hi & Hp & Hpi).
  destruct (seq_of_index registered b Hnd Hb) as (j & q & Hj & Hq & Hqj).
  unfold position in Hle. rewrite Hpi, Hqj in Hle. exists i, j, p, q.
  split; [|done]. destruct (decide (i = j)) as [->|]; [congruence|lia].
Qed.

(** C1: [topoSort] always ends with a result, for every order in which Go enumerates
    its maps.  When it returns an order, the order contains every configured plugin
    exactly once, each after all the plugins it names in [Depends] and those it names
    in [SoftDepends] that are configured; and of two plugins that could both be placed
    next, the one registered first comes first.  It returns the cycle error exactly
    when no order of the configured plugins satisfies their dependencies.  (The names
    of registered plugins are distinct, and only registered plugins are configured.) *)
Theorem topoSort_sound_complete configured registered r1 r2 r3
    (Hnd : NoDup (Name <$> registered))
    (Hsub : ∀ n, is_Some (configured !! n) → n ∈ Name <$> registered)
    (Hr1 : range_of configured r1) (Hr2 : range_of configured r2)
    (Hr3 : range_of configured r3) :
  match topoSort configured registered r1 r2 r3 with
  | None => False
  | Some (Ok o) =>
      start_order configured o ∧
      ∀ l1 x l2 y, o = l1 ++ x :: l2 → y ∈ l2 → (∀ d, requires configured y d → d ∈ l1) →
        registered_before registered x y
  | Some (Err _) => ∀ o, ¬ start_order configured o
  end.
Proof.
  destruct (topoSort_spec configured registered r1 r2 r3 Hr1 Hr2 Hr3) as (o & Hg & Hm & ->).
  destruct (decide (length o = size configured)) as [Hlen|Hlen].
  - assert (Ho : start_order configured o).
    { apply start_order_topological. eapply greedy_topological; [apply keys_NoDup|done|]. by rewrite keys_length. }
    split; [done|]. destruct Ho as (Hno & Hin & _). intros l1 x l2 y -> Hy Hready.
    apply NoDup_app in Hno as (_ & Hdis & [Hx _]%NoDup_cons).
    assert (Hyc : is_Some (configured !! y)) by (apply Hin; set_solver).
    apply position_before; [done|apply Hsub, Hin; set_solver|by apply Hsub|by intros ->|].
    apply (greedy_app_inv _ _ _ _ _ _ Hg). split; [by apply keys_elem|]. split; [set_solver|].
    intros d Hd%requires_node_deps. by apply Hready.
  - intros t Ht%start_order_topological. apply Hlen. rewrite <- keys_length. apply Permutation_length.
    apply NoDup_Permutation; [by eapply greedy_NoDup|apply keys_NoDup|].
    intros n. split; [by eapply greedy_subset|]. by apply (maximal_covers _ (node_deps configured) (position registered) o t).
Qed.

(** The result of [topoSort] (the order, or the error with its list of
    names) does not depend on the enumeration orders Go picks for its map
    loops, as long as the registered names are distinct, which the registry
    guarantees. *)
Theorem topoSort_deterministic configured registered r1 r2 r3 r1' r2' r3'
    (Hnd : NoDup (Name <$> registered))
    (Hsub : ∀ n, is_Some (configured !! n) → n ∈ Name <$> registered)
    (Hr1 : range_of configured r1) (Hr2 : range_of configured r2)
    (Hr3 : range_of configured r3)
    (Hr1' : range_of configured r1') (Hr2' : range_of configured r2')
    (Hr3' : range_of configured r3') :
  topoSort configured registered r1 r2 r3 = topoSort configured registered r1' r2' r3'.
Proof.
  destruct (topoSort_spec configured registered r1 r2 r3 Hr1 Hr2 Hr3) as (o & Hg & Hm & ->).
  destruct (topoSort_spec configured registered r1' r2' r3' Hr1' Hr2' Hr3')
    as (o' & Hg' & Hm' & ->).
  assert (o = o') as ->; [|done].
  apply (greedy_unique (keys configured) (node_deps configured) (position registered));
    [|done..]. intros a b. by apply position_inj.
Qed.

End TopoSort.

(** ** A concrete plugin set *)

Module TopoExample.

Definition ok_call (c : @Kernel.Context unit) (w : @world nat (list string)) :
    @world nat (list string) * option error := (w, None).

(** A plugin whose methods do nothing and succeed. *)
Definition mk (name : string) (deps : list string) (soft : option (list string)) :
    @Kernel.Plugin nat (list string) unit :=
  {| Name := name; Depends := deps; SoftDepends := soft;
     Configure := ok_call; Start := ok_call; Stop := ok_call |}.

Definition health := mk "health" [] (Some ["db"; "cache"; "db"]).
Definition db := mk "db" [] None.
Definition api := mk "api" ["db"; "health"; "db"] None.

Definition reg : list (@Kernel.Plugin nat (list string) unit) := [health; db; api].
Definition conf : gmap string (@Kernel.Plugin nat (list string) unit) :=
  <["health" := health]> (<["db" := db]> (<["api" := api]> ∅)).
Definition perm : list string := ["api"; "health"; "db"].
Definition perm' : list string := ["db"; "health"; "api"].

Lemma topo_perm_range : range_of conf perm.
Proof. unfold range_of. apply (bool_decide_unpack _). vm_compute. done. Defined.

Lemma topo_perm_range' : range_of conf perm'.
Proof. unfold range_of. apply (bool_decide_unpack _). vm_compute. done. Defined.

Lemma topo_names : NoDup (Name <$> reg).
Proof. apply (bool_decide_unpack _). vm_compute. done. Defined.

Lemma topo_registered n : is_Some (conf !! n) → n ∈ Name <$> reg.
Proof.
  intros [p Hp]. unfold conf in Hp. rewrite !lookup_insert_Some in Hp. rewrite lookup_empty in Hp. simpl. set_solver.
Defined.

Lemma topoSort_sound_complete_witness :
  topoSort conf reg perm perm' perm = Some (Ok ["db"; "health"; "api"]) ∧
  start_order conf ["db"; "health"; "api"].
Proof.
  assert (H : topoSort conf reg perm perm' perm = Some (Ok ["db"; "health"; "api"]))
    by (vm_compute; reflexivity).
  pose proof (topoSort_sound_complete conf reg perm perm' perm topo_names topo_registered
    topo_perm_range topo_perm_range' topo_perm_range) as T.
  rewrite H in T. split; [exact H|exact (proj1 T)].
Defined.

Lemma topoSort_deterministic_witness :
  topoSort conf reg perm perm' perm = topoSort conf reg perm' perm perm'.
Proof.
  apply topoSort_deterministic;
    [apply topo_names|apply topo_registered|apply topo_perm_range|apply topo_perm_range'|apply topo_perm_range
    |apply topo_perm_range'|apply topo_perm_range|apply topo_perm_range'].
Defined.

End TopoExample.
