(* ===== verification/Loader.v ===== *)
(** * pkg/kernel/loader.go: Loader.Build and the lifecycle of App

    [Build] filters the registered plugins by configuration, configures them,
    checks their hard dependencies and sorts them; [Start] starts them in that
    order and rolls back on failure; [Stop] stops the started ones in reverse.

    The messages the loader logs ("plugin disabled by config", "starting
    plugin", "stopping plugin", ...) are the observable trace of the model. *)

From S2P Require Import Prelude Kernel StableSort TopoSort.

Import GoError.

Section Loader.
Context {V X L : Type}.
Abbreviation world := (@Kernel.world V X).
Abbreviation Plugin := (@Kernel.Plugin V X L).
Abbreviation Registry := (@Kernel.Registry V X L).

(** The log lines of loader.go. *)
Inductive log_entry : Type :=
| LogDisabledByConfig (plugin : string)
| LogOptedOut (plugin : string)
| LogAppBuilt (plugins : nat) (order : list string)
| LogStarting (plugin : string)
| LogAllStarted (count : nat)
| LogStopping (plugin : string).

(** [plugins.<name>.enabled]: a pointer, nil when the key is absent. *)
Record pluginToggle := { Enabled : option bool }.

(** The configuration source as the loader uses it: what
    [UnmarshalSection("plugins", &section)] stores, finds and returns. *)
Record ConfigSource := {
  UnmarshalSection : string → gmap string pluginToggle * (bool * option error)
}.

(** The registry a loader was given: none, the default one, or its own. *)
Inductive registry_ref : Type :=
| NoRegistry
| DefaultRegistry
| OwnRegistry (r : Registry).

Record Loader := MkLoader {
  source : option ConfigSource;
  registry : registry_ref
}.

Record App := MkApp {
  app_plugins : list Plugin;
  app_context : @Kernel.Context L;
  started : list string
}.

(** [defaultRegistry] is the process-wide registry, an argument here.  [None]
    is the nil dereference of [p.Name()] on a nil plugin. *)
Definition registered (l : Loader) (defaultRegistry : Registry) : option (list Plugin) :=
  match registry l with
  | NoRegistry | DefaultRegistry => mapM id (Plugins defaultRegistry)
  | OwnRegistry r =>
      match mapM id (Plugins r), mapM id (Plugins defaultRegistry) with
      | Some out, Some defaults =>
          Some (out ++ filter (λ p, ¬ is_Some (Get (Name p) r)) defaults)
      | _, _ => None
      end
  end.

Definition isEnabled (l : Loader) (name : string) : bool :=
  match source l with
  | None => true
  | Some src =>
      let '(section, (found, err)) := UnmarshalSection src "plugins" in
      match err with
      | Some _ => true
      | None =>
          if negb found then true
          else match section !! name with
          | None => true
          | Some t => match Enabled t with None => true | Some b => b end
          end
      end
  end.

(** Step 1 of [Build]: the plugins the configuration does not disable. *)
Fixpoint select_enabled (l : Loader) (ps : list Plugin) (enabled : gmap string Plugin) :
    gmap string Plugin * list log_entry :=
  match ps with
  | [] => (enabled, [])
  | p :: ps =>
      if isEnabled l (Name p)
      then select_enabled l ps (<[Name p := p]> enabled)
      else let '(en, lg) := select_enabled l ps enabled in
           (en, LogDisabledByConfig (Name p) :: lg)
  end.

(** Step 2: [Configure] in registration order; [ErrDisabled] opts out, any
    other error aborts the build. *)
Fixpoint configure_all (shared : @Kernel.Context L) (background : L) (ps : list Plugin)
    (enabled configured : gmap string Plugin) (w : world) :
    world * list log_entry * result (gmap string Plugin) :=
  match ps with
  | [] => (w, [], Ok configured)
  | p :: ps =>
      match enabled !! Name p with
      | None => configure_all shared background ps enabled configured w
      | Some _ =>
          let '(w, err) := Configure p (clone shared background (Name p)) w in
          match err with
          | Some e =>
              if Is e ErrDisabled then
                let '(w, lg, r) :=
                  configure_all shared background ps (delete (Name p) enabled) configured w in
                (w, LogOptedOut (Name p) :: lg, r)
              else (w, [], Err (ErrorfW "kernel: configure plugin %q: %w" [Name p] e))
          | None =>
              configure_all shared background ps enabled (<[Name p := p]> configured) w
          end
      end
  end.

(** Step 3: the first missing hard dependency met in iteration order. *)
Fixpoint missing_dep (configured : gmap string Plugin) (deps : list string) : option string :=
  match deps with
  | [] => None
  | dep :: deps =>
      match configured !! dep with
      | None => Some dep
      | Some _ => missing_dep configured deps
      end
  end.

Fixpoint check_deps (configured : gmap string Plugin) (range : list string) : option error :=
  match range with
  | [] => None
  | name :: range =>
      match configured !! name with
      | None => check_deps configured range
      | Some p =>
          match missing_dep configured (Depends p) with
          | Some dep =>
              Some (Errorf "kernel: plugin %q depends on %q which is disabled or not registered (import the plugin package or enable it in config)"
                      [name; dep])
          | None => check_deps configured range
          end
      end
  end.

(** [Build].  [r0 .. r3] are the enumeration orders of the [range configured]
    loops of step 3 and of [topoSort].  A nil plugin in the registry makes
    [p.Name()] panic, and lack of fuel in the sort is impossible. *)
Definition Build (l : Loader) (defaultRegistry : Registry) (background : L)
    (ranges : gmap string Plugin → list string * list string * list string * list string)
    (w : world) : world * list log_entry * outcome (result App) :=
  match registered l defaultRegistry with
  | None => (w, [], Panic "invalid memory address or nil pointer dereference" [])
  | Some ps =>
      let '(enabled, lg1) := select_enabled l ps ∅ in
      let shared := {| lifecycle := background; pluginName := "" |} in
      let '(w, lg2, conf) :=
        configure_all shared background ps enabled ∅
          {| services := newServiceRegistry; outside := outside w |} in
      match conf with
      | Err e => (w, lg1 ++ lg2, Ret (Err e))
      | Ok configured =>
          let '(r0, r1, r2, r3) := ranges configured in
          match check_deps configured r0 with
          | Some e => (w, lg1 ++ lg2, Ret (Err e))
          | None =>
              match topoSort configured ps r1 r2 r3 with
              | None => (w, lg1 ++ lg2, Panic "topoSort: out of fuel" [])
              | Some (Err e) => (w, lg1 ++ lg2, Ret (Err e))
              | Some (Ok order) =>
                  match mapM (λ name, configured !! name) order with
                  | None =>
                      (w, lg1 ++ lg2, Panic "invalid memory address or nil pointer dereference" [])
                  | Some plugins =>
                      (w, lg1 ++ lg2 ++ [LogAppBuilt (length plugins) order],
                       Ret (Ok {| app_plugins := plugins; app_context := shared; started := [] |}))
                  end
              end
          end
      end
  end.

(** ** Lifecycle *)

Fixpoint findPlugin (plugins : list Plugin) (name : string) : option Plugin :=
  match plugins with
  | [] => None
  | p :: ps => if decide (Name p = name) then Some p else findPlugin ps name
  end.

(** The loop of [rollbackLocked] over the started names, last first. *)
Fixpoint stop_each (plugins : list Plugin) (ctx : @Kernel.Context L) (names : list string)
    (w : world) : world * list log_entry * list error :=
  match names with
  | [] => (w, [], [])
  | name :: names =>
      match findPlugin plugins name with
      | None => stop_each plugins ctx names w
      | Some p =>
          let '(w, err) := Stop p ctx w in
          let '(w, lg, errs) := stop_each plugins ctx names w in
          (w, LogStopping name :: lg,
           match err with
           | Some e => ErrorfW "stop plugin %q: %w" [name] e :: errs
           | None => errs
           end)
      end
  end.

Definition rollbackLocked (a : App) (ctx : @Kernel.Context L) (w : world) :
    App * world * list log_entry * option error :=
  let '(w, lg, errs) := stop_each (app_plugins a) ctx (reverse (started a)) w in
  ({| app_plugins := app_plugins a; app_context := app_context a; started := [] |},
   w, lg, Join errs).

(** The loop of [Start] over the plugins still to start. *)
Fixpoint start_each (a : App) (lc : L) (ps : list Plugin) (w : world) :
    App * world * list log_entry * option error :=
  match ps with
  | [] => (a, w, [LogAllStarted (length (started a))], None)
  | p :: ps =>
      let pctx := clone (app_context a) lc (Name p) in
      let '(w, err) := Start p pctx w in
      match err with
      | Some e =>
          let startErr := ErrorfW "kernel: start plugin %q: %w" [Name p] e in
          let '(a, w, lg, rollbackErr) := rollbackLocked a pctx w in
          (a, w, LogStarting (Name p) :: lg,
           match rollbackErr with
           | Some re => Join [startErr; ErrorfW "kernel: rollback plugins: %w" [] re]
           | None => Some startErr
           end)
      | None =>
          let a := {| app_plugins := app_plugins a; app_context := app_context a;
                      started := started a ++ [Name p] |} in
          let '(a, w, lg, err) := start_each a lc ps w in
          (a, w, LogStarting (Name p) :: lg, err)
      end
  end.

Definition App_Start (a : App) (lc : L) (w : world) : App * world * list log_entry * option error :=
  start_each a lc (app_plugins a) w.

Definition App_Stop (a : App) (lc : L) (w : world) : App * world * list log_entry * option error :=
  rollbackLocked a (clone (app_context a) lc "") w.

Definition App_Plugins (a : App) : list Plugin := app_plugins a.

Fixpoint started_in (names : list string) (name : string) : bool :=
  match names with
  | [] => false
  | n :: names => if decide (n = name) then true else started_in names name
  end.

Definition App_Started (a : App) (name : string) : bool := started_in (started a) name.

Definition App_Plugin (a : App) (name : string) : option Plugin := findPlugin (app_plugins a) name.

(** ** Correctness of the steps of Build *)

Lemma Plugins_deref (r : Registry) :
  registry_wf r → ∃ ps, mapM id (Plugins r) = Some ps ∧ (Name <$> ps) = order r ∧
    ∀ p, p ∈ ps → plugins r !! Name p = Some p.
Proof.
  intros Hwf. destruct (Plugins_wf r Hwf) as (ps & Hps & Hn). exists ps.
  split; [|split; [done|]].
  - apply mapM_Some. rewrite Hps. clear. induction ps; [constructor|by constructor].
  - intros p Hp. assert (Hin : Some p ∈ Plugins r).
    { rewrite Hps. by apply list_elem_of_fmap_2. }
    unfold Plugins in Hin. apply list_elem_of_fmap in Hin as (n & Hlk & _).
    symmetry in Hlk. by rewrite (wf_name _ Hwf _ _ Hlk).
Qed.

(** The plugins that take part have distinct names. *)
Lemma registered_ok l dr :
  registry_wf dr → (∀ r, registry l = OwnRegistry r → registry_wf r) →
  ∃ ps, registered l dr = Some ps ∧ NoDup (Name <$> ps).
Proof.
  intros Hdr Hown. unfold registered.
  destruct (Plugins_deref dr Hdr) as (dps & Hdps & Hdn & Hdl).
  assert (Hd : ∃ ps, mapM id (Plugins dr) = Some ps ∧ NoDup (Name <$> ps)).
  { exists dps. split; [done|]. rewrite Hdn. apply Hdr. }
  destruct (registry l) as [| |r] eqn:Hr; [done|done|].
  destruct (Plugins_deref r (Hown r eq_refl)) as (ops & Hops & Hon & Hol).
  rewrite Hops, Hdps. eexists. split; [done|].
  rewrite fmap_app, Hon. apply NoDup_app. split; [apply (Hown r eq_refl)|]. split.
  - intros n Hn (p & -> & [Hng _]%list_elem_of_filter)%list_elem_of_fmap.
    apply Hng, (wf_dom _ (Hown r eq_refl)), Hn.
  - assert (Hnd : NoDup (Name <$> dps)) by (rewrite Hdn; apply Hdr).
    by apply NoDup_fmap_filter.
Qed.

(** The enabled map holds exactly the plugins not disabled by configuration. *)
Lemma select_enabled_spec l ps en0 :
  NoDup (Name <$> ps) → (∀ p, p ∈ ps → en0 !! Name p = None) →
  ∀ n p, (select_enabled l ps en0).1 !! n = Some p ↔
    en0 !! n = Some p ∨ (p ∈ ps ∧ Name p = n ∧ isEnabled l n = true).
Proof.
  revert en0. induction ps as [|q ps IH]; intros en0 Hnd Hfresh n p; simpl; [set_solver|].
  rewrite fmap_cons, NoDup_cons in Hnd. destruct Hnd as [Hq Hnd].
  assert (Hqn : ∀ p, p ∈ ps → Name q ≠ Name p).
  { intros p' Hp' He. apply Hq. rewrite He. by apply list_elem_of_fmap_2. }
  destruct (isEnabled l (Name q)) eqn:He.
  - rewrite IH; [|done|].
    2:{ intros p' Hp'. rewrite lookup_insert_ne by auto. apply Hfresh. by right. }
    rewrite lookup_insert. destruct (decide (Name q = n)) as [<-|Hne]; split.
    + intros [[= <-]|(Hp & Hn & ?)]; right; [by split; [left|]|].
      exfalso. by apply (Hqn p).
    + intros [Hs|(Hp & Hn & ?)]; [by rewrite Hfresh in Hs by (by left)|].
      apply elem_of_cons in Hp as [->|Hp]; [by left|by destruct (Hqn p Hp)].
    + intros [?|(? & ? & ?)]; [by left|right]. split; [by right|done].
    + intros [?|(Hp & Hn & ?)]; [by left|].
      apply elem_of_cons in Hp as [->|Hp]; [done|by right].
  - pose proof (IH en0 Hnd ltac:(intros; apply Hfresh; by right) n p) as IH'.
    destruct (select_enabled l ps en0) as [en lg]. simpl in *. rewrite IH'. split.
    + intros [?|(? & ? & ?)]; [by left|right]. split; [by right|done].
    + intros [?|(Hp & Hn & Ht)]; [by left|right].
      apply elem_of_cons in Hp as [->|Hp]; [congruence|done].
Qed.

Lemma configure_all_log shared bg ps en conf w n :
  LogOptedOut n ∈ (configure_all shared bg ps en conf w).1.2 → n ∈ Name <$> ps.
Proof.
  revert en conf w. induction ps as [|q ps IH]; intros en conf w; simpl; [set_solver|].
  destruct (en !! Name q); [|by intros ?%IH; right].
  destruct (Configure q (clone shared bg (Name q)) w) as [w1 [e|]];
    [|by intros ?%IH; right].
  destruct (Is e ErrDisabled); [|set_solver].
  pose proof (IH (delete (Name q) en) conf w1) as IH'.
  destruct (configure_all _ _ _ _ _ _) as [[w2 lg2] r2]; simpl in *.
  intros [[= ->]|Hin]%elem_of_cons; [by left|right; by apply IH'].
Qed.

(** What [configure_all] returns when it does not abort: the enabled plugins
    that did not opt out. *)
Lemma configure_all_ok shared bg ps en conf w w' lg conf' :
  NoDup (Name <$> ps) → (∀ p, p ∈ ps → conf !! Name p = None) →
  configure_all shared bg ps en conf w = (w', lg, Ok conf') →
  ∀ n p, conf' !! n = Some p ↔
    conf !! n = Some p ∨
    (p ∈ ps ∧ Name p = n ∧ is_Some (en !! n) ∧ LogOptedOut n ∉ lg).
Proof.
  revert en conf w w' lg conf'.
  induction ps as [|q ps IH]; intros en conf w w' lg conf' Hnd Hfresh Hc n p; simpl in Hc.
  { injection Hc as <- <- <-. set_solver. }
  rewrite fmap_cons, NoDup_cons in Hnd. destruct Hnd as [Hq Hnd].
  assert (Hqn : ∀ p, p ∈ ps → Name q ≠ Name p).
  { intros p' Hp' He. apply Hq. rewrite He. by apply list_elem_of_fmap_2. }
  destruct (en !! Name q) as [q'|] eqn:Hen.
  2:{ rewrite (IH _ _ _ _ _ _ Hnd ltac:(intros; apply Hfresh; by right) Hc n p).
      rewrite elem_of_cons. split; [naive_solver|].
      intros [?|([->|?] & Hn & [? Hs] & ?)]; [by left| |naive_solver]. congruence. }
  destruct (Configure q (clone shared bg (Name q)) w) as [w1 [e|]].
  - destruct (Is e ErrDisabled); [|by inversion Hc].
    destruct (configure_all shared bg ps (delete (Name q) en) conf w1) as [[w2 lg2] r2] eqn:Hc2.
    injection Hc as <- <- ->.
    rewrite (IH _ _ _ _ _ _ Hnd ltac:(intros; apply Hfresh; by right) Hc2 n p).
    rewrite !elem_of_cons. split.
    + intros [?|(Hp & <- & Hs & Hno)]; [by left|right].
      pose proof (Hqn p Hp). rewrite lookup_delete_ne in Hs by done.
      split; [by right|]. split; [done|]. split; [done|]. intros [[= ?]|?]; congruence.
    + intros [?|([->|Hp] & <- & Hs & Hno)]; [by left|naive_solver|right].
      pose proof (Hqn p Hp). rewrite lookup_delete_ne by done. naive_solver.
  - rewrite (IH _ _ _ _ _ _ Hnd ltac:(intros p' Hp'; rewrite lookup_insert_ne by auto;
      apply Hfresh; by right) Hc n p).
    rewrite lookup_insert, elem_of_cons. destruct (decide (Name q = n)) as [<-|Hne]; split.
    + intros [[= <-]|(Hp & Hn & _)]; [right|by destruct (Hqn p Hp)].
      split; [by left|]. split; [done|]. split; [eauto|].
      intros Hin. apply Hq. eapply (configure_all_log shared bg ps). by rewrite Hc.
    + intros [Hs|([->|Hp] & Hn & _)]; [by rewrite Hfresh in Hs by (by left)|by left|].
      by destruct (Hqn p Hp).
    + naive_solver.
    + intros [?|([->|Hp] & Hn & ? & ?)]; [by left|done|by right].
Qed.

Lemma missing_dep_None configured deps :
  missing_dep configured deps = None ↔ ∀ d, d ∈ deps → is_Some (configured !! d).
Proof.
  induction deps as [|d deps IH]; simpl; [set_solver|].
  setoid_rewrite elem_of_cons. destruct (configured !! d) eqn:Hd.
  - rewrite IH. split; [|by auto]. intros H d' [->|?]; [eauto|auto].
  - split; [done|]. intros H. destruct (H d) as [? Hs]; [by left|congruence].
Qed.

Lemma missing_dep_Some configured deps d :
  missing_dep configured deps = Some d → d ∈ deps ∧ configured !! d = None.
Proof.
  induction deps as [|d' deps IH]; simpl; [done|].
  destruct (configured !! d') eqn:Hd.
  - intros [? ?]%IH. split; [by right|done].
  - intros [= <-]. split; [by left|done].
Qed.

Lemma check_deps_None configured range :
  check_deps configured range = None →
  ∀ n p, n ∈ range → configured !! n = Some p →
  ∀ d, d ∈ Depends p → is_Some (configured !! d).
Proof.
  induction range as [|m range IH]; simpl; [set_solver|]. intros Hc n p Hn Hp.
  apply elem_of_cons in Hn as [<-|Hn].
  - rewrite Hp in Hc. destruct (missing_dep configured (Depends p)) eqn:Hm; [done|].
    by apply missing_dep_None.
  - apply (IH ltac:(destruct (configured !! m) as [q|];
      [by destruct (missing_dep configured (Depends q))|done]) n p); done.
Qed.

Lemma check_deps_Some configured range e :
  check_deps configured range = Some e →
  ∃ n p d, configured !! n = Some p ∧ d ∈ Depends p ∧ configured !! d = None ∧
    e = Errorf "kernel: plugin %q depends on %q which is disabled or not registered (import the plugin package or enable it in config)" [n; d].
Proof.
  induction range as [|m range IH]; simpl; [done|].
  destruct (configured !! m) as [p|] eqn:Hp; [|done].
  destruct (missing_dep configured (Depends p)) as [d|] eqn:Hm; [|done].
  intros [= <-]. apply missing_dep_Some in Hm as [? ?]. by exists m, p, d.
Qed.

(** The enumeration orders handed to [Build] are orders of the configured map. *)
Definition ranges_ok
    (ranges : gmap string Plugin → list string * list string * list string * list string) : Prop :=
  ∀ m, let '(r0, r1, r2, r3) := ranges m in
    range_of m r0 ∧ range_of m r1 ∧ range_of m r2 ∧ range_of m r3.

(** The plugins that pass the configuration phase. *)
Definition takes_part (l : Loader) (ps : list Plugin) (lg : list log_entry) (p : Plugin) : Prop :=
  p ∈ ps ∧ isEnabled l (Name p) = true ∧ LogOptedOut (Name p) ∉ lg.

Lemma configure_all_err shared bg ps en conf w w' lg e :
  configure_all shared bg ps en conf w = (w', lg, Err e) →
  ∃ p e', p ∈ ps ∧ is_Some (en !! Name p) ∧ Is e' ErrDisabled = false ∧
    e = ErrorfW "kernel: configure plugin %q: %w" [Name p] e'.
Proof.
  revert en conf w w' lg.
  induction ps as [|q ps IH]; intros en conf w w' lg Hc; simpl in Hc; [done|].
  destruct (en !! Name q) as [q'|] eqn:Hen.
  2:{ destruct (IH _ _ _ _ _ Hc) as (p & e' & ? & ?). exists p, e'. split; [by right|done]. }
  destruct (Configure q (clone shared bg (Name q)) w) as [w1 [e1|]].
  - destruct (Is e1 ErrDisabled) eqn:Hdis.
    + destruct (configure_all shared bg ps (delete (Name q) en) conf w1) as [[w2 lg2] r2] eqn:Hc2.
      injection Hc as <- <- ->.
      destruct (IH _ _ _ _ _ Hc2) as (p & e' & Hp & Hs & ?). exists p, e'.
      split; [by right|]. split; [|done]. rewrite lookup_delete in Hs.
      case_decide; [by destruct Hs|done].
    + injection Hc as <- <- <-. exists q, e1. split; [by left|]. split; [eauto|done].
  - destruct (IH _ _ _ _ _ Hc) as (p & e' & ? & ?). exists p, e'. split; [by right|done].
Qed.

Lemma select_enabled_log l ps en n : LogOptedOut n ∉ (select_enabled l ps en).2.
Proof.
  revert en. induction ps as [|p ps IH]; intros en; simpl; [set_solver|].
  destruct (isEnabled l (Name p)); [apply IH|]. specialize (IH en).
  destruct (select_enabled l ps en) as [en' lg]. simpl in *. set_solver.
Qed.

(** The map of configured plugins, described by the log of the build. *)
Lemma configured_spec l ps shared bg w w' lg conf :
  NoDup (Name <$> ps) →
  configure_all shared bg ps (select_enabled l ps ∅).1 ∅ w = (w', lg, Ok conf) →
  ∀ n p, conf !! n = Some p ↔ Name p = n ∧ takes_part l ps lg p.
Proof.
  intros Hnd Hc n p.
  rewrite (configure_all_ok _ _ _ _ _ _ _ _ _ Hnd ltac:(intros; apply lookup_empty) Hc n p).
  rewrite lookup_empty. unfold takes_part.
  pose proof (select_enabled_spec l ps ∅ Hnd ltac:(intros; apply lookup_empty)) as Hen.
  split.
  - intros [?|(Hp & <- & [q Hq] & Hno)]; [done|].
    apply Hen in Hq as [Hq|(_ & _ & ?)]; [by rewrite lookup_empty in Hq|done].
  - intros (<- & Hp & He & Hno). right. split; [done|]. split; [done|]. split; [|done].
    exists p. apply Hen. by right.
Qed.

Lemma mapM_lookup (conf : gmap string Plugin) o :
  (∀ n p, conf !! n = Some p → Name p = n) → (∀ n, n ∈ o → is_Some (conf !! n)) →
  ∃ ps, mapM (λ name, conf !! name) o = Some ps ∧ (Name <$> ps) = o ∧
    ∀ p, p ∈ ps → conf !! Name p = Some p.
Proof.
  intros Hname Hin. induction o as [|n o IH]; [exists []; set_solver|].
  destruct IH as (ps & Hps & Hn & Hp); [intros m Hm; apply Hin; by right|].
  destruct (Hin n) as [p Hnp]; [by left|]. exists (p :: ps). simpl.
  rewrite Hnp. simpl. rewrite Hps. simpl. split; [done|].
  rewrite (Hname _ _ Hnp). split; [by f_equal|].
  intros q [->|Hq]%elem_of_cons; [|by apply Hp]. by rewrite (Hname _ _ Hnp).
Qed.

(** The build order and what it guarantees to [Start]: dependencies first. *)
Definition deps_first (ps : list Plugin) : Prop :=
  NoDup (Name <$> ps) ∧
  ∀ l1 p l2, ps = l1 ++ p :: l2 →
    (∀ d, d ∈ Depends p → d ∈ Name <$> l1) ∧
    (∀ d, d ∈ default [] (SoftDepends p) → d ∈ Name <$> ps → d ∈ Name <$> l1).

Lemma topological_deps_first (conf : gmap string Plugin) o (ps : list Plugin) :
  (∀ n p, conf !! n = Some p → Name p = n) →
  (∀ n p d, conf !! n = Some p → d ∈ Depends p → is_Some (conf !! d)) →
  topological (keys conf) (node_deps conf) o →
  (Name <$> ps) = o → (∀ p, p ∈ ps → conf !! Name p = Some p) → deps_first ps.
Proof.
  intros Hname Hhard [Hperm Htop] Hn Hlk. split.
  { rewrite Hn, Hperm. apply keys_NoDup. }
  intros l1 p l2 ->. rewrite fmap_app, fmap_cons in Hn.
  assert (Hp : conf !! Name p = Some p) by (apply Hlk; set_solver).
  assert (Hnd : node_deps conf (Name p) = deps_of conf p) by (unfold node_deps; by rewrite Hp).
  pose proof (Htop _ _ _ (eq_sym Hn)) as Hbefore. rewrite Hnd in Hbefore.
  split.
  - intros d Hd. apply Hbefore, deps_of_spec. by left.
  - intros d Hd Hin. apply Hbefore, deps_of_spec. right. split; [done|].
    apply list_elem_of_fmap in Hin as (q & -> & Hq%Hlk). eauto.
Qed.

(** ** Build *)

Lemma cycle_names (conf : gmap string Plugin) o :
  (∀ n p d, conf !! n = Some p → d ∈ Depends p → is_Some (conf !! d)) →
  NoDup o → (∀ n, n ∈ o → n ∈ keys conf) →
  maximal (keys conf) (node_deps conf) o → length o ≠ size conf →
  let names := sortStrings (filter (λ n, n ∉ o) (keys conf)) in
  names ≠ [] ∧
  ∀ n, n ∈ names → ∃ p d, conf !! n = Some p ∧ d ∈ names ∧
    (d ∈ Depends p ∨ d ∈ softDepends p).
Proof.
  intros Hhard Hnd Hsub Hm Hlen names.
  assert (Hin : ∀ n, n ∈ names ↔ n ∉ o ∧ n ∈ keys conf).
  { intros n. unfold names, sortStrings. by rewrite sortSliceStable_perm, list_elem_of_filter. }
  split.
  - intros Hnil. apply Hlen. rewrite <- keys_length. apply Permutation_length.
    apply NoDup_Permutation; [done|apply keys_NoDup|]. intros n. split; [apply Hsub|].
    intros Hn. destruct (decide (n ∈ o)) as [|Hno]; [done|].
    exfalso. apply (not_elem_of_nil n). rewrite <- Hnil. by apply Hin.
  - intros n [Hno Hk]%Hin.
    destruct (maximal_stuck _ _ _ _ Hm Hk Hno) as (d & Hd & Hdo).
    apply keys_elem in Hk as [p Hp]. unfold node_deps in Hd. rewrite Hp in Hd.
    exists p, d. split; [done|]. apply deps_of_spec in Hd. rewrite Hin, keys_elem.
    destruct Hd as [Hd|[Hd Hc]]; [|by auto]. split; [|by auto]. split; [done|by eapply Hhard].
Qed.

(** The plugins looked up along a topological order: the configured ones,
    dependencies first. *)
Lemma sorted_plugins (conf : gmap string Plugin) o :
  (∀ n p, conf !! n = Some p → Name p = n) →
  (∀ n p d, conf !! n = Some p → d ∈ Depends p → is_Some (conf !! d)) →
  topological (keys conf) (node_deps conf) o →
  ∃ qs, mapM (λ n, conf !! n) o = Some qs ∧ Name <$> qs = o ∧ deps_first qs ∧
    ∀ p, p ∈ qs ↔ conf !! Name p = Some p.
Proof.
  intros Hname Hhard Htop. destruct (mapM_lookup conf o Hname) as (qs & Hqs & Hqn & Hqlk).
  { intros n Hn. apply keys_elem. by rewrite <- (proj1 Htop). }
  exists qs. split; [done|]. split; [done|]. split; [by eapply topological_deps_first|].
  intros p. split; [apply Hqlk|]. intros Hlk.
  assert (Hin : Name p ∈ Name <$> qs) by (rewrite Hqn, (proj1 Htop); apply keys_elem; eauto).
  apply list_elem_of_fmap in Hin as (q & Hq & Hin). pose proof (Hqlk q Hin) as Hql.
  rewrite <- Hq in Hql. by assert (p = q) as -> by congruence.
Qed.

(** [Build] after a configuration phase that did not abort. *)
Lemma Build_configured l dr bg ranges w ps w2 lg2 conf :
  registered l dr = Some ps → ranges_ok ranges → (∀ n p, conf !! n = Some p → Name p = n) →
  configure_all {| lifecycle := bg; pluginName := "" |} bg ps (select_enabled l ps ∅).1 ∅
    {| services := newServiceRegistry; outside := outside w |} = (w2, lg2, Ok conf) →
  match Build l dr bg ranges w with
  | (_, _, Panic _ _) => False
  | (w', lg, Ret (Ok app)) => w' = w2 ∧
      lg = (select_enabled l ps ∅).2 ++ lg2 ++ [LogAppBuilt (length (app_plugins app)) (Name <$> app_plugins app)] ∧
      started app = [] ∧ app_context app = {| lifecycle := bg; pluginName := "" |} ∧ deps_first (app_plugins app) ∧
      ∀ p, p ∈ app_plugins app ↔ conf !! Name p = Some p
  | (w', lg, Ret (Err e)) => w' = w2 ∧ lg = (select_enabled l ps ∅).2 ++ lg2 ∧
      ((∃ n p d, conf !! n = Some p ∧ d ∈ Depends p ∧ conf !! d = None ∧
         e = Errorf "kernel: plugin %q depends on %q which is disabled or not registered (import the plugin package or enable it in config)" [n; d]) ∨
       (∃ names, e = Errorf "kernel: dependency cycle detected among plugins: %s" names ∧ names ≠ [] ∧
          ∀ n, n ∈ names → ∃ p d, conf !! n = Some p ∧ d ∈ names ∧ (d ∈ Depends p ∨ d ∈ softDepends p)))
  end.
Proof.
  intros Hps Hr Hname Hc. unfold Build. rewrite Hps.
  destruct (select_enabled l ps ∅) as [en lg1]. cbn [fst snd] in *. rewrite Hc.
  specialize (Hr conf). destruct (ranges conf) as [[[r0 r1] r2] r3]. destruct Hr as (Hr0 & Hr1 & Hr2 & Hr3).
  destruct (check_deps conf r0) as [e|] eqn:Hck.
  { split; [done|]. split; [done|]. left. by apply check_deps_Some in Hck. }
  assert (Hhard : ∀ n p d, conf !! n = Some p → d ∈ Depends p → is_Some (conf !! d)).
  { intros n p d Hn Hd. eapply check_deps_None; [done| |done..].
    unfold range_of in Hr0. rewrite Hr0. apply (keys_elem conf). eauto. }
  destruct (topoSort_spec conf ps r1 r2 r3 Hr1 Hr2 Hr3) as (o & Hg & Hm & ->).
  destruct (decide (length o = size conf)) as [Hlen|Hlen].
  - assert (Htop : topological (keys conf) (node_deps conf) o).
    { eapply greedy_topological; [apply keys_NoDup|done|by rewrite keys_length]. }
    destruct (sorted_plugins conf o Hname Hhard Htop) as (qs & Hqs & Hqn & Hdf & Hin). rewrite Hqs.
    split; [done|]. cbn [app_plugins]. rewrite Hqn. done.
  - split; [done|]. split; [done|]. right. eexists. split; [done|].
    by apply (cycle_names conf o Hhard); [eapply greedy_NoDup|eapply greedy_subset|..].
Qed.

Lemma Build_spec l dr bg ranges w :
  registry_wf dr → (∀ r, registry l = OwnRegistry r → registry_wf r) → ranges_ok ranges →
  ∃ ps, registered l dr = Some ps ∧
  match Build l dr bg ranges w with
  | (_, _, Panic _ _) => False
  | (_, lg, Ret (Ok app)) =>
      started app = [] ∧ deps_first (app_plugins app) ∧
      (∀ p, p ∈ app_plugins app ↔ takes_part l ps lg p)
  | (_, _, Ret (Err _)) => True
  end.
Proof.
  intros Hdr Hown Hr. destruct (registered_ok l dr Hdr Hown) as (ps & Hps & Hnd).
  exists ps. split; [done|].
  destruct (configure_all {| lifecycle := bg; pluginName := "" |} bg ps (select_enabled l ps ∅).1 ∅
    {| services := newServiceRegistry; outside := outside w |}) as [[w2 lg2] [conf|e]] eqn:Hc.
  2:{ unfold Build. rewrite Hps. destruct (select_enabled l ps ∅). simpl in Hc. by rewrite Hc. }
  pose proof (configured_spec l ps _ bg _ _ _ _ Hnd Hc) as Hconf.
  pose proof (Build_configured l dr bg ranges w ps w2 lg2 conf Hps Hr ltac:(by intros n p [? _]%Hconf) Hc) as HB.
  destruct (Build l dr bg ranges w) as [[w' lg] [[app|e]|]]; [|done..].
  destruct HB as (_ & -> & Hst & _ & Hdf & Hin). split; [done|]. split; [done|].
  intros p. rewrite Hin, Hconf. unfold takes_part. rewrite !elem_of_app.
  pose proof (select_enabled_log l ps ∅ (Name p)). set_solver.
Qed.

(** ** Start, rollback and Stop *)

(** [Start] of the plugins in turn, every call returning nil. *)
Inductive all_start (ctx : @Kernel.Context L) (lc : L) : list Plugin → world → world → Prop :=
| all_start_nil w : all_start ctx lc [] w w
| all_start_cons p ps w w1 w2 :
    Start p (clone ctx lc (Name p)) w = (w1, None) →
    all_start ctx lc ps w1 w2 → all_start ctx lc (p :: ps) w w2.

Lemma findPlugin_Some ps n : n ∈ Name <$> ps → is_Some (findPlugin ps n).
Proof.
  induction ps as [|p ps IH]; simpl; [set_solver|]. rewrite elem_of_cons.
  destruct (decide (Name p = n)) as [|Hne]; [eauto|]. intros [?|?]; [congruence|auto].
Qed.

(** [Stop] of the plugins in turn, all of them whatever the calls return; the errors
    met, in order. *)
Inductive all_stop (ctx : @Kernel.Context L) : list Plugin → world → world → list error → Prop :=
| all_stop_nil w : all_stop ctx [] w w []
| all_stop_ok p ps w w1 w2 errs :
    Stop p ctx w = (w1, None) → all_stop ctx ps w1 w2 errs → all_stop ctx (p :: ps) w w2 errs
| all_stop_err p ps w w1 w2 e errs :
    Stop p ctx w = (w1, Some e) → all_stop ctx ps w1 w2 errs →
    all_stop ctx (p :: ps) w w2 (ErrorfW "stop plugin %q: %w" [Name p] e :: errs).

Lemma findPlugin_elem ps p : NoDup (Name <$> ps) → p ∈ ps → findPlugin ps (Name p) = Some p.
Proof.
  induction ps as [|q ps IH]; [set_solver|]. rewrite fmap_cons, NoDup_cons. intros [Hq Hnd] Hp. simpl.
  apply elem_of_cons in Hp as [->|Hp]; [by rewrite decide_True|].
  rewrite decide_False; [by apply IH|]. intros He. apply Hq. rewrite He. by apply list_elem_of_fmap_2.
Qed.

(** The loop of [rollbackLocked] stops the plugins under the names it is given. *)
Lemma stop_each_spec ps ctx qs w :
  NoDup (Name <$> ps) → qs ⊆ ps →
  let '(w', lg, errs) := stop_each ps ctx (Name <$> qs) w in
  all_stop ctx qs w w' errs ∧ lg = LogStopping <$> (Name <$> qs).
Proof.
  intros Hnd. revert w. induction qs as [|q qs IH]; intros w Hin; [split; [constructor|done]|].
  rewrite fmap_cons. cbn [stop_each]. rewrite (findPlugin_elem ps q Hnd) by set_solver. destruct (Stop q ctx w) as [w1 err] eqn:HS.
  specialize (IH w1 ltac:(set_solver)). destruct (stop_each ps ctx (Name <$> qs) w1) as [[w2 lg] errs].
  destruct IH as [Hall ->]. split; [|done]. destruct err; by econstructor.
Qed.

Definition with_started (a : App) (names : list string) : App :=
  {| app_plugins := app_plugins a; app_context := app_context a; started := names |}.

(** The two outcomes of the start loop. *)
Lemma start_each_spec a lc ps w :
  let '(a', w', lg, err) := start_each a lc ps w in
  (err = None ∧ all_start (app_context a) lc ps w w' ∧
   a' = with_started a (started a ++ (Name <$> ps)) ∧
   lg = (LogStarting <$> (Name <$> ps)) ++ [LogAllStarted (length (started a'))]) ∨
  (∃ l1 p l2 w1 w2 e lgs errs,
     ps = l1 ++ p :: l2 ∧ all_start (app_context a) lc l1 w w1 ∧
     Start p (clone (app_context a) lc (Name p)) w1 = (w2, Some e) ∧
     stop_each (app_plugins a) (clone (app_context a) lc (Name p))
       (reverse (started a ++ (Name <$> l1))) w2 = (w', lgs, errs) ∧
     a' = with_started a [] ∧
     lg = (LogStarting <$> (Name <$> l1 ++ [p])) ++ lgs ∧
     err = (let startErr := ErrorfW "kernel: start plugin %q: %w" [Name p] e in
            match Join errs with
            | Some re => Join [startErr; ErrorfW "kernel: rollback plugins: %w" [] re]
            | None => Some startErr
            end)).
Proof.
  revert a w. induction ps as [|p ps IH]; intros a w; cbn [start_each].
  { left. split; [done|]. split; [constructor|]. split; [|done].
    destruct a. unfold with_started. simpl. by rewrite app_nil_r. }
  destruct (Start p (clone (app_context a) lc (Name p)) w) as [w1 [e|]] eqn:HS.
  - unfold rollbackLocked.
    destruct (stop_each _ _ (reverse (started a)) w1) as [[w2 lgs] errs] eqn:Hst.
    right. exists [], p, ps, w, w1, e, lgs, errs. rewrite app_nil_r.
    split; [done|]. split; [constructor|]. done.
  - specialize (IH (with_started a (started a ++ [Name p])) w1).
    unfold with_started in IH. cbn [app_plugins app_context started] in IH.
    destruct (start_each _ lc ps w1) as [[[a' w'] lg] err].
    destruct IH as [(-> & Hall & -> & ->)|(l1 & q & l2 & w2 & w3 & e & lgs & errs & -> & Hall & HSq & Hst & -> & -> & ->)].
    + left. split; [done|]. split; [by econstructor|].
      rewrite <- app_assoc. done.
    + right. exists (p :: l1), q, l2, w2, w3, e, lgs, errs.
      split; [done|]. split; [by econstructor|]. split; [done|].
      rewrite <- app_assoc in Hst. done.
Qed.

(** [x] occurs in the trace before an occurrence of [y]. *)
Definition precedes {A} (x y : A) (l : list A) : Prop :=
  ∃ l1 l2 l3, l = l1 ++ x :: l2 ++ y :: l3.

Lemma deps_first_precedes ps p d :
  deps_first ps → p ∈ ps →
  (d ∈ Depends p ∨ (d ∈ default [] (SoftDepends p) ∧ d ∈ Name <$> ps)) →
  precedes d (Name p) (Name <$> ps).
Proof.
  intros [_ Hdf] (l1 & l2 & ->)%list_elem_of_split Hd.
  destruct (Hdf l1 p l2 eq_refl) as [Hh Hs].
  assert (Hin : d ∈ Name <$> l1) by naive_solver.
  apply list_elem_of_split in Hin as (k1 & k2 & Hk).
  exists k1, k2, (Name <$> l2). by rewrite fmap_app, fmap_cons, Hk, <- app_assoc.
Qed.

(** ** Properties *)

(** *** Build, against the declarations of the plugins *)

(** The toggle [plugins.<n>.enabled] is read and is false. *)
Definition disabled_by_config (l : Loader) (n : string) : Prop :=
  ∃ src section t, source l = Some src ∧ UnmarshalSection src "plugins" = (section, (true, None)) ∧
    section !! n = Some t ∧ Enabled t = Some false.

(** The plugins of a registry in registration order. *)
Definition in_order (r : Registry) (ps : list Plugin) (names : list string) : Prop :=
  Name <$> ps = names ∧ ∀ p, p ∈ ps → plugins r !! Name p = Some p.

(** The plugins a loader considers: those of its own registry, then those of the
    default registry under names its own does not have. *)
Definition considered (l : Loader) (dr : Registry) (ps : list Plugin) : Prop :=
  match registry l with
  | OwnRegistry r => ∃ own rest, ps = own ++ rest ∧ in_order r own (order r) ∧
      in_order dr rest (filter (λ n, plugins r !! n = None) (order dr))
  | _ => in_order dr ps (order dr)
  end.

(** The calls of [Configure] in registration order, as long as each returns nil
    ([ok]) or an error that is [ErrDisabled] ([out]). *)
Inductive configured_run (l : Loader) (bg : L) : list Plugin → world → list Plugin → list Plugin → world → Prop :=
| run_nil w : configured_run l bg [] w [] [] w
| run_disabled p ps w ok out w' :
    disabled_by_config l (Name p) → configured_run l bg ps w ok out w' → configured_run l bg (p :: ps) w ok out w'
| run_ok p ps w w1 ok out w' :
    ¬ disabled_by_config l (Name p) → Configure p (MkContext bg (Name p)) w = (w1, None) →
    configured_run l bg ps w1 ok out w' → configured_run l bg (p :: ps) w (p :: ok) out w'
| run_out p ps w w1 e ok out w' :
    ¬ disabled_by_config l (Name p) → Configure p (MkContext bg (Name p)) w = (w1, Some e) → Is e ErrDisabled = true →
    configured_run l bg ps w1 ok out w' → configured_run l bg (p :: ps) w ok (p :: out) w'.

(** A call of [Configure] that aborts the build. *)
Definition configure_fails (l : Loader) (bg : L) (ps : list Plugin) (w w' : world) (e : error) : Prop :=
  ∃ l1 p l2 ok out w1 e', ps = l1 ++ p :: l2 ∧ configured_run l bg l1 w ok out w1 ∧
    ¬ disabled_by_config l (Name p) ∧ Configure p (MkContext bg (Name p)) w1 = (w', Some e') ∧
    Is e' ErrDisabled = false ∧ e = ErrorfW "kernel: configure plugin %q: %w" [Name p] e'.

(** What is wrong with the plugins that took part. *)
Definition unsatisfied (ok : list Plugin) (e : error) : Prop :=
  (∃ p d, p ∈ ok ∧ d ∈ Depends p ∧ d ∉ Name <$> ok ∧
     e = Errorf "kernel: plugin %q depends on %q which is disabled or not registered (import the plugin package or enable it in config)" [Name p; d]) ∨
  (∃ names, e = Errorf "kernel: dependency cycle detected among plugins: %s" names ∧ names ≠ [] ∧
     ∀ n, n ∈ names → ∃ p d, p ∈ ok ∧ Name p = n ∧ d ∈ names ∧
       (d ∈ Depends p ∨ d ∈ default [] (SoftDepends p))).

Lemma isEnabled_false l n : isEnabled l n = false ↔ disabled_by_config l n.
Proof.
  unfold isEnabled, disabled_by_config. destruct (source l) as [src|]; [|by split; [|intros (?&?&?&?&_)]].
  destruct (UnmarshalSection src "plugins") as [section [found err]] eqn:Hu. split.
  - destruct err; [done|]. destruct found; [|done]. simpl. destruct (section !! n) as [[[[]|]]|] eqn:Hs; try done.
    intros _. by exists src, section, {| Enabled := Some false |}.
  - intros (src' & section' & t & [= <-] & Hu' & Hs & Ht). rewrite Hu in Hu'. injection Hu' as -> -> ->. simpl.
    by rewrite Hs, Ht.
Qed.

Lemma registered_considered l dr ps :
  registry_wf dr → (∀ r, registry l = OwnRegistry r → registry_wf r) → registered l dr = Some ps → considered l dr ps.
Proof.
  intros Hdr Hown. unfold registered, considered.
  destruct (Plugins_deref dr Hdr) as (dps & Hdps & Hdn & Hdl).
  destruct (registry l) as [| |r] eqn:Hr; [rewrite Hdps; by intros [= <-]..|].
  destruct (Plugins_deref r (Hown r eq_refl)) as (ops & Hops & Hon & Hol). rewrite Hops, Hdps. intros [= <-].
  eexists _, _. split; [done|]. split; [done|]. split; [|by intros p [_ ?]%list_elem_of_filter; apply Hdl].
  rewrite <-Hdn. clear. induction dps as [|p dps IH]; [done|]. rewrite fmap_cons, !filter_cons.
  unfold Get. destruct (plugins r !! Name p) eqn:Hp.
  - rewrite decide_False by (intros Hn; by apply Hn). rewrite decide_False by done. exact IH.
  - rewrite decide_True by (by intros []). rewrite decide_True by done. by rewrite fmap_cons, <-IH.
Qed.

(** The configuration phase follows these calls: [pass] is the list of names that
    [enabled] holds and [configure_all] has still to look at. *)
Lemma configure_all_run l bg ps en conf w w' lg r :
  NoDup (Name <$> ps) → (∀ p, p ∈ ps → is_Some (en !! Name p) ↔ isEnabled l (Name p) = true) →
  configure_all {| lifecycle := bg; pluginName := "" |} bg ps en conf w = (w', lg, r) →
  match r with
  | Ok conf' => ∃ ok out, configured_run l bg ps w ok out w' ∧
      conf' = foldl (λ m p, <[Name p := p]> m) conf ok
  | Err e => configure_fails l bg ps w w' e
  end.
Proof.
  revert en conf w lg. induction ps as [|p ps IH]; intros en conf w lg Hnd Hen Hc; cbn [configure_all] in Hc.
  { injection Hc as <- <- <-. exists [], []. split; [constructor|done]. }
  rewrite fmap_cons, NoDup_cons in Hnd. destruct Hnd as [Hp Hnd].
  assert (Hen' : ∀ q, q ∈ ps → is_Some (en !! Name q) ↔ isEnabled l (Name q) = true) by (intros q Hq; apply Hen; by right).
  assert (Hdel : ∀ q, q ∈ ps → is_Some (delete (Name p) en !! Name q) ↔ isEnabled l (Name q) = true).
  { intros q Hq. rewrite lookup_delete_ne; [by apply Hen'|]. intros He. apply Hp. rewrite He. by apply list_elem_of_fmap_2. }
  specialize (Hen p ltac:(by left)). destruct (en !! Name p) as [q|] eqn:Hq.
  - assert (Hon : ¬ disabled_by_config l (Name p)).
    { rewrite <-isEnabled_false. rewrite (proj1 Hen); [done|by eexists]. }
    destruct (Configure p _ w) as [w1 [e|]] eqn:Hcf.
    + destruct (Is e ErrDisabled) eqn:Hdis.
      * destruct (configure_all _ bg ps _ conf w1) as [[w2 lg2] r2] eqn:Hc2. injection Hc as <- <- <-.
        pose proof (IH _ _ _ _ Hnd Hdel Hc2) as Hrec. destruct r2 as [conf'|e2].
        -- destruct Hrec as (ok & out & Hrun & ->). exists ok, (p :: out). split; [|done]. by eapply run_out.
        -- destruct Hrec as (l1 & x & l2 & ok & out & w3 & e' & -> & Hrun & Hrest).
           exists (p :: l1), x, l2, ok, (p :: out), w3, e'. split; [done|]. split; [by eapply run_out|done].
      * injection Hc as <- <- <-. exists [], p, ps, [], [], w, e. split; [done|]. by split; [constructor|].
    + pose proof (IH _ _ _ _ Hnd Hen' Hc) as Hrec. destruct r as [conf'|e2].
      * destruct Hrec as (ok & out & Hrun & ->). exists (p :: ok), out. split; [|done]. by eapply run_ok.
      * destruct Hrec as (l1 & x & l2 & ok & out & w3 & e' & -> & Hrun & Hrest).
        exists (p :: l1), x, l2, (p :: ok), out, w3, e'. split; [done|]. split; [by eapply run_ok|done].
  - assert (Hoff : disabled_by_config l (Name p)).
    { apply isEnabled_false. destruct (isEnabled l (Name p)); [|done]. by destruct Hen as [_ [? ?]]. }
    pose proof (IH _ _ _ _ Hnd Hen' Hc) as Hrec. destruct r as [conf'|e2].
    + destruct Hrec as (ok & out & Hrun & ->). exists ok, out. split; [|done]. by eapply run_disabled.
    + destruct Hrec as (l1 & x & l2 & ok & out & w3 & e' & -> & Hrun & Hrest).
      exists (p :: l1), x, l2, ok, out, w3, e'. split; [done|]. split; [by eapply run_disabled|done].
Qed.

Lemma configured_run_names l bg ps w ok out w' :
  configured_run l bg ps w ok out w' → NoDup (Name <$> ps) → NoDup (Name <$> ok).
Proof.
  intros Hr Hnd. assert (Hs : ok `sublist_of` ps) by (induction Hr; constructor; apply IHHr; by inversion Hnd).
  eapply sublist_NoDup; [exact Hnd|]. clear -Hs. induction Hs; simpl; by constructor.
Qed.

Lemma foldl_insert_names (conf : gmap string Plugin) ok :
  NoDup (Name <$> ok) → (∀ p, p ∈ ok → conf !! Name p = None) →
  ∀ n p, foldl (λ m p, <[Name p := p]> m) conf ok !! n = Some p ↔ conf !! n = Some p ∨ (p ∈ ok ∧ Name p = n).
Proof.
  revert conf. induction ok as [|q ok IH]; intros conf Hnd Hf n p; simpl; [set_solver|].
  rewrite fmap_cons, NoDup_cons in Hnd. destruct Hnd as [Hq Hnd].
  assert (Hne : ∀ x, x ∈ ok → Name q ≠ Name x).
  { intros x Hx He. apply Hq. rewrite He. by apply list_elem_of_fmap_2. }
  rewrite IH; [|done|intros x Hx; rewrite lookup_insert_ne by auto; apply Hf; by right].
  rewrite lookup_insert_Some. pose proof (Hf q ltac:(by left)). set_solver.
Qed.

(** C2: [Build] never panics on registries that satisfy their invariant.  It considers
    the plugins of its own registry in registration order, then those of the default
    registry that are not overridden, and calls [Configure] of each one whose toggle is
    not false, until one returns an error that is not [ErrDisabled].  When it succeeds,
    the application consists of exactly the plugins whose [Configure] returned nil, each
    after the plugins it depends on and after the soft dependencies that take part, with
    nothing started, and the process is as the calls left it.  When it fails, the error
    is that of [Configure] which aborted the build, or names a plugin that took part and
    a dependency that did not, or names plugins each of which waits for another of them. *)
Theorem Build_correct l dr bg ranges w
    (Hdr : registry_wf dr) (Hown : ∀ r, registry l = OwnRegistry r → registry_wf r)
    (Hranges : ranges_ok ranges) :
  ∃ ps, considered l dr ps ∧
  let w0 := {| services := ∅; outside := outside w |} in
  match Build l dr bg ranges w with
  | (_, _, Panic _ _) => False
  | (w', _, Ret (Ok app)) => ∃ ok out,
      configured_run l bg ps w0 ok out w' ∧ (∀ p, p ∈ app_plugins app ↔ p ∈ ok) ∧
      deps_first (app_plugins app) ∧ started app = []
  | (w', _, Ret (Err e)) =>
      configure_fails l bg ps w0 w' e ∨
      ∃ ok out, configured_run l bg ps w0 ok out w' ∧ unsatisfied ok e
  end.
Proof.
  destruct (registered_ok l dr Hdr Hown) as (ps & Hps & Hnd).
  exists ps. split; [by apply registered_considered|]. intros w0.
  destruct (configure_all {| lifecycle := bg; pluginName := "" |} bg ps (select_enabled l ps ∅).1 ∅ w0)
    as [[w2 lg2] r] eqn:Hc.
  pose proof (configure_all_run l bg ps (select_enabled l ps ∅).1 ∅ w0 w2 lg2 r Hnd) as Hrun.
  specialize (Hrun ltac:(intros p Hp; pose proof (select_enabled_spec l ps ∅ Hnd ltac:(intros; apply lookup_empty)) as He;
    split; [intros [q [Hq|(_ & _ & ?)]%He]; [by rewrite lookup_empty in Hq|done]|intros Ht; exists p; apply He; by right]) Hc).
  destruct r as [conf|e].
  2:{ unfold Build, newServiceRegistry. rewrite Hps. destruct (select_enabled l ps ∅). simpl in Hc. unfold w0 in Hc. rewrite Hc. by left. }
  destruct Hrun as (ok & out & Hrun & Hfold).
  assert (Hconf : ∀ n p, conf !! n = Some p ↔ p ∈ ok ∧ Name p = n).
  { intros n p. rewrite Hfold, foldl_insert_names; [rewrite lookup_empty; naive_solver| |intros; apply lookup_empty].
    eapply configured_run_names; [exact Hrun|exact Hnd]. }
  pose proof (Build_configured l dr bg ranges w ps w2 lg2 conf Hps Hranges ltac:(by intros n p [_ ?]%Hconf) Hc) as HB.
  destruct (Build l dr bg ranges w) as [[w' lg] [[app|e]|]]; [| |done].
  - destruct HB as (-> & _ & Hst & _ & Hdf & Hin). exists ok, out. split; [done|].
    split; [intros p; rewrite Hin, Hconf; naive_solver|done].
  - destruct HB as (-> & _ & HB). right. exists ok, out. split; [done|].
    destruct HB as [(n & p & d & [Hp <-]%Hconf & Hd & Hno & ->)|(names & -> & Hne & Hcyc)].
    + left. exists p, d. split; [done|]. split; [done|]. split; [|done].
      intros (q & -> & Hq)%list_elem_of_fmap. rewrite (proj2 (Hconf (Name q) q)) in Hno; done.
    + right. exists names. split; [done|]. split; [done|]. intros n Hn.
      destruct (Hcyc n Hn) as (p & d & [Hp Hpn]%Hconf & Hd & Hor). by exists p, d.
Qed.

(** C3: [Start] of a fresh application either calls [Start] of every plugin once, in
    order, each returning nil, and records them all; or some call fails, and then it
    calls [Stop] of exactly the plugins started before it, in reverse order and whatever
    these calls return, and calls nothing else.  The process is left as those calls left
    it; nothing is recorded as started, and the error is that of the failed call,
    together with those of the stops that failed. *)
Theorem Start_all_or_nothing (a : App) lc w
    (Hfresh : started a = []) (Hnames : NoDup (Name <$> app_plugins a)) :
  let '(a', w', lg, err) := App_Start a lc w in
  (err = None ∧ all_start (app_context a) lc (app_plugins a) w w' ∧
   started a' = Name <$> app_plugins a ∧
   lg = (LogStarting <$> (Name <$> app_plugins a)) ++ [LogAllStarted (length (app_plugins a))]) ∨
  (∃ l1 p l2 w1 w2 e errs,
     app_plugins a = l1 ++ p :: l2 ∧ all_start (app_context a) lc l1 w w1 ∧
     Start p (MkContext lc (Name p)) w1 = (w2, Some e) ∧
     all_stop (MkContext lc (Name p)) (reverse l1) w2 w' errs ∧
     started a' = [] ∧
     lg = (LogStarting <$> (Name <$> l1 ++ [p])) ++ (LogStopping <$> reverse (Name <$> l1)) ∧
     err = (let startErr := ErrorfW "kernel: start plugin %q: %w" [Name p] e in
            match errs with
            | [] => Some startErr
            | _ => Join [startErr; ErrorfW "kernel: rollback plugins: %w" [] (Joined errs)]
            end)).
Proof.
  unfold App_Start. pose proof (start_each_spec a lc (app_plugins a) w) as H.
  destruct (start_each a lc (app_plugins a) w) as [[[a' w'] lg] err].
  destruct H as [(-> & Hall & -> & ->)|(l1 & p & l2 & w1 & w2 & e & lgs & errs & Hps & Hall & HS & Hst & -> & -> & ->)].
  - left. simpl. rewrite Hfresh. simpl. by rewrite length_fmap.
  - right. rewrite Hfresh in Hst. rewrite app_nil_l, <-fmap_reverse in Hst.
    pose proof (stop_each_spec (app_plugins a) (clone (app_context a) lc (Name p)) (reverse l1) w2 Hnames
      ltac:(rewrite Hps; set_solver)) as Hstop.
    rewrite Hst in Hstop. destruct Hstop as [Hstop ->].
    exists l1, p, l2, w1, w2, e, errs. rewrite <-fmap_reverse. by destruct errs.
Qed.

(** C4: over a successful [Start] of an application built in dependency order and a
    later [Stop], whatever happened in between: [Start] has been called once for every
    plugin in the order of the application and [Stop] is called once for every plugin in
    the opposite order, with the errors of these calls as the result; in that order every
    plugin comes after its dependencies and the soft dependencies that take part, so it
    starts after them and stops before them; and afterwards nothing is recorded as
    started. *)
Theorem lifecycle_order (a a' : App) lc lc' w w' w'' lg
    (Hfresh : started a = []) (Hdf : deps_first (app_plugins a))
    (HS : App_Start a lc w = (a', w', lg, None)) :
  let '(a'', w3, lg', err) := App_Stop a' lc' w'' in
  all_start (app_context a) lc (app_plugins a) w w' ∧
  (∃ errs, all_stop (MkContext lc' "") (reverse (app_plugins a)) w'' w3 errs ∧ err = Join errs) ∧
  (∀ p d, p ∈ app_plugins a →
    (d ∈ Depends p ∨ (d ∈ default [] (SoftDepends p) ∧ d ∈ Name <$> app_plugins a)) →
    precedes d (Name p) (Name <$> app_plugins a)) ∧
  lg = (LogStarting <$> (Name <$> app_plugins a)) ++ [LogAllStarted (length (app_plugins a))] ∧
  lg' = LogStopping <$> (Name <$> reverse (app_plugins a)) ∧ started a'' = [].
Proof.
  unfold App_Start in HS. pose proof (start_each_spec a lc (app_plugins a) w) as H.
  rewrite HS in H. destruct H as [(_ & Hall & -> & ->)|H]; [|destruct H as (?&?&?&?&?&?&?&errs&?&?&?&?&?&?&He); by destruct errs].
  unfold App_Stop, rollbackLocked. cbn [app_plugins started with_started app_context]. rewrite Hfresh, app_nil_l.
  rewrite <-fmap_reverse.
  pose proof (stop_each_spec (app_plugins a) (clone (app_context a) lc' "") (reverse (app_plugins a)) w'' (proj1 Hdf)
    ltac:(set_solver)) as Hstop.
  destruct (stop_each _ _ _ w'') as [[w3 lg'] errs]. destruct Hstop as [Hstop ->].
  split; [done|]. split; [by exists errs|]. split; [|by rewrite length_fmap].
  intros p d Hp Hd. by eapply deps_first_precedes.
Qed.

End Loader.

(** ** A concrete application *)

Module LoaderExample.
Import TopoExample.

Definition W := @world nat (list string).

(** A plugin that notes its calls; [fails] makes its [Start] fail. *)
Definition noting (n : string) (deps : list string) (fails : bool) : @Kernel.Plugin nat (list string) unit :=
  let note call (w : W) : W := {| services := services w; outside := outside w ++ [call +:+ n] |} in
  {| Name := n; Depends := deps; SoftDepends := None; Configure := ok_call;
     Start := λ _ w, (note "start " w, if fails then Some (Sentinel "net.ErrClosed") else None);
     Stop := λ _ w, (note "stop " w, None) |}.

Definition dr : @Registry nat (list string) unit :=
  (register_seq (Some <$> reg) NewRegistry).1.
Definition ldr : @Loader nat (list string) unit :=
  {| source := None; registry := OwnRegistry dr |}.
Definition all_ranges (m : gmap string (@Kernel.Plugin nat (list string) unit)) :=
  let ks := (map_to_list m).*1 in (ks, ks, ks, ks).
Definition w0 : W := {| services := ∅; outside := [] |}.
Definition app : @App nat (list string) unit :=
  {| app_plugins := [db; health; api];
     app_context := {| lifecycle := tt; pluginName := "" |}; started := [] |}.
Definition bad_app : @App nat (list string) unit :=
  {| app_plugins := [noting "db" [] false; noting "health" [] false; noting "api" ["db"; "health"] true];
     app_context := {| lifecycle := tt; pluginName := "" |}; started := [] |}.

Lemma example_dr_wf : registry_wf dr.
Proof.
  apply (register_seq_spec (Some <$> reg) NewRegistry [] NewRegistry_wf).
  intros n. simpl. rewrite lookup_empty. split; [set_solver|by intros []].
Defined.

Lemma Build_correct_witness :
  (Build ldr dr tt all_ranges w0).2 = Ret (Ok app) ∧ deps_first (app_plugins app).
Proof.
  assert (H : (Build ldr dr tt all_ranges w0).2 = Ret (Ok app)) by (vm_compute; reflexivity).
  destruct (Build_correct ldr dr tt all_ranges w0) as (ps & _ & T).
  - exact example_dr_wf.
  - intros r [= <-]. exact example_dr_wf.
  - intros m. unfold range_of. repeat split; reflexivity.
  - destruct (Build ldr dr tt all_ranges w0) as [[w1 lg] out]. simpl in H. rewrite H in T.
    split; [exact H|]. destruct T as (ok & out' & _ & _ & T & _). exact T.
Defined.

Lemma Start_all_or_nothing_witness :
  outside (App_Start bad_app tt w0).1.1.2 = ["start db"; "start health"; "start api"; "stop health"; "stop db"] ∧
  ∃ n w2 errs, all_stop (MkContext tt n) [noting "health" [] false; noting "db" [] false] w2
    (App_Start bad_app tt w0).1.1.2 errs.
Proof.
  split; [vm_compute; reflexivity|].
  pose proof (Start_all_or_nothing bad_app tt w0 eq_refl
    ltac:(apply (bool_decide_unpack _); vm_compute; done)) as T.
  assert (He : (App_Start bad_app tt w0).2 ≠ None) by (vm_compute; discriminate).
  assert (Hl : (App_Start bad_app tt w0).1.2 =
    [LogStarting "db"; LogStarting "health"; LogStarting "api"; LogStopping "health"; LogStopping "db"])
    by (vm_compute; reflexivity).
  destruct (App_Start bad_app tt w0) as [[[a' w'] lg] err]. simpl in He, Hl |- *.
  destruct T as [[? _]|(l1 & p & l2 & w1 & w2 & e & errs & Hps & _ & _ & Hst & _ & Hlg & _)]; [done|].
  exists (Name p), w2, errs.
  destruct l1 as [|p1 [|p2 [|p3 l1]]]; simpl in Hps, Hlg; simplify_eq.
  - exact Hst.
  - by destruct l1.
Defined.

Lemma example_deps_first : deps_first (app_plugins app).
Proof.
  destruct (Build_spec ldr dr tt all_ranges w0) as (ps & _ & B).
  - exact example_dr_wf.
  - intros r [= <-]. exact example_dr_wf.
  - intros m. unfold range_of. repeat split; reflexivity.
  - assert (H : (Build ldr dr tt all_ranges w0).2 = Ret (Ok app)) by (vm_compute; reflexivity).
    destruct (Build ldr dr tt all_ranges w0) as [[w1' lg''] out]. simpl in H. rewrite H in B.
    apply B.
Defined.

Lemma lifecycle_order_witness :
  precedes "db" "api" (Name <$> app_plugins app) ∧
  ∃ errs, all_stop (MkContext tt "") [api; health; db] w0 (App_Stop (App_Start app tt w0).1.1.1 tt w0).1.1.2 errs.
Proof.
  pose proof (lifecycle_order app (App_Start app tt w0).1.1.1 tt tt w0 w0 w0
    (App_Start app tt w0).1.2 eq_refl example_deps_first eq_refl) as T.
  destruct (App_Stop (App_Start app tt w0).1.1.1 tt w0) as [[[a'' w1] lg'] err].
  destruct T as (_ & (errs & Hst & _) & T & _). split; [|exists errs; exact Hst]. apply (T api "db").
  - right; right; left.
  - left; left.
Defined.

End LoaderExample.
