(* ===== verification/SliceAlias.v ===== *)
(** * pkg/kernel/loader.go: dedupe works in place

    [dedupe] reuses the backing array of its argument ([out := in[:0]]) and
    [topoSort] appends soft dependencies to the slice it returns.  A plugin
    whose [Depends] returns a stored slice, as [builtinPlugin] of
    internal/bootstrap does, shares that array with the loader.  This file
    models slices over a heap of arrays, shows that the lists the loader
    computes are those of [TopoSort.deps_of], that duplicate-free dependency
    lists survive a build unchanged, and that a list with duplicates does not. *)

From S2P Require Import Prelude Kernel TopoSort.

(** A slice header: the array it points to, offset, length and capacity. *)
Record slice := MkSlice { arr : nat; off : nat; len : nat; cap : nat }.

(** The heap of backing arrays. *)
Abbreviation heap := (gmap nat (list string)).

Definition content (h : heap) (s : slice) : list string :=
  take (len s) (drop (off s) (default [] (h !! arr s))).

Definition slice_wf (h : heap) (s : slice) : Prop :=
  ∃ a, h !! arr s = Some a ∧ len s <= cap s ∧ off s + cap s <= length a.

(** [s[i]] *)
Definition read (h : heap) (s : slice) (i : nat) : string :=
  default "" (default [] (h !! arr s) !! (off s + i)).

Section Append.
(** Spare capacity of a grown array, chosen by the runtime. *)
Context (spare : nat → nat).

(** [append(s, v)]: in place below the capacity, in a new array above it. *)
Definition append (h : heap) (s : slice) (v : string) : heap * slice :=
  if decide (len s < cap s) then
    (<[arr s := <[off s + len s := v]> (default [] (h !! arr s))]> h,
     {| arr := arr s; off := off s; len := S (len s); cap := cap s |})
  else
    let n := fresh (dom h) in
    (<[n := content h s ++ v :: replicate (spare (len s)) ""]> h,
     {| arr := n; off := 0; len := S (len s); cap := S (len s) + spare (len s) |}).

(** The loop of [dedupe] from index [i], [k] iterations left. *)
Fixpoint dedupe_loop (k i : nat) (inp : slice) (seen : gset string) (h : heap) (out : slice) :
    heap * slice :=
  match k with
  | O => (h, out)
  | S k =>
      let v := read h inp i in
      if decide (v ∈ seen) then dedupe_loop k (S i) inp seen h out
      else
        let '(h, out) := append h out v in
        dedupe_loop k (S i) inp ({[v]} ∪ seen) h out
  end.

Definition dedupe_slice (h : heap) (inp : slice) : heap * slice :=
  dedupe_loop (len inp) 0 inp ∅ h
    {| arr := arr inp; off := off inp; len := 0; cap := cap inp |}.

(** The loop of [topoSort] that appends the soft dependencies taking part;
    [present] is the membership test of the configured map. *)
Fixpoint add_soft (present : string → bool) (k i : nat) (soft : slice) (h : heap) (deps : slice) :
    heap * slice :=
  match k with
  | O => (h, deps)
  | S k =>
      let dep := read h soft i in
      if present dep && negb (contains (content h deps) dep) then
        let '(h, deps) := append h deps dep in
        add_soft present k (S i) soft h deps
      else add_soft present k (S i) soft h deps
  end.

(** Lines 173-178: the dependency list of one plugin, from the slices its
    [Depends] and [SoftDepends] return. *)
Definition heap_deps (present : string → bool) (h : heap) (hard soft : slice) : heap * slice :=
  let '(h, deps) := dedupe_slice h hard in
  let '(h, soft') := dedupe_slice h soft in
  add_soft present (len soft') 0 soft' h deps.

(** ** dedupe *)

Lemma dedupe_from_length seen l : length (dedupe_from seen l) <= length l.
Proof.
  revert seen. induction l as [|a l IH]; intros seen; simpl; [lia|].
  destruct (decide (a ∈ seen)); simpl; [specialize (IH seen)|specialize (IH ({[a]} ∪ seen))]; lia.
Qed.

(** The read index points at the first element not yet read. *)
Lemma read_next h inp i pre acc junk v rest :
  h !! arr inp = Some (pre ++ acc ++ junk ++ v :: rest) → off inp = length pre →
  i = length acc + length junk → read h inp i = v.
Proof.
  intros Hh Ho Hi. unfold read. rewrite Hh, Ho, Hi. simpl.
  rewrite !lookup_app_r by lia.
  by replace (length pre + (length acc + length junk) - length pre - length acc - length junk)
    with 0 by lia.
Qed.

(** Appending in place overwrites the element after the accumulated prefix. *)
Lemma write_next (pre acc junk rest post : list string) v :
  ∃ junk', <[length pre + length acc := v]> (pre ++ acc ++ junk ++ (v :: rest) ++ post)
    = pre ++ (acc ++ [v]) ++ junk' ++ rest ++ post ∧ length junk' = length junk.
Proof.
  rewrite insert_app_r. rewrite <- (Nat.add_0_r (length acc)), insert_app_r.
  destruct junk as [|j junk]; [exists []|exists (junk ++ [v])]; simpl.
  - by rewrite <- app_assoc.
  - rewrite length_app. simpl. split; [|lia]. by rewrite <- !app_assoc.
Qed.

(** Loop invariant: the array is the deduplicated prefix, then garbage up to
    the read index, then the part not yet read. *)
Lemma dedupe_loop_spec k i inp seen h out pre acc junk rest post :
  h !! arr inp = Some (pre ++ acc ++ junk ++ rest ++ post) →
  off inp = length pre → i = length acc + length junk → k = length rest →
  out = {| arr := arr inp; off := off inp; len := length acc; cap := cap inp |} →
  i + k <= cap inp →
  ∃ junk', let '(h', out') := dedupe_loop k i inp seen h out in
    h' = <[arr inp := pre ++ (acc ++ dedupe_from seen rest) ++ junk' ++ post]> h ∧
    length (acc ++ dedupe_from seen rest) + length junk' = i + k ∧
    out' = {| arr := arr inp; off := off inp;
              len := length (acc ++ dedupe_from seen rest); cap := cap inp |} ∧
    (junk = [] → dedupe_from seen rest = rest → junk' = []).
Proof.
  revert i seen h out acc junk rest.
  induction k as [|k IH]; intros i seen h out acc junk rest Hh Ho Hi Hk -> Hc.
  { destruct rest; [|done]. simpl. exists junk. rewrite !app_nil_r. simpl in Hh.
    split; [by rewrite insert_id|]. split; [lia|]. done. }
  destruct rest as [|v rest]; [done|]. injection Hk as Hk. cbn [dedupe_loop].
  assert (Hread : read h inp i = v).
  { eapply read_next; eauto. }
  rewrite Hread. simpl dedupe_from. destruct (decide (v ∈ seen)) as [Hv|Hv].
  - destruct (IH (S i) seen h {| arr := arr inp; off := off inp; len := length acc; cap := cap inp |}
      acc (junk ++ [v]) rest) as (junk' & IH'); try done.
    { by rewrite <- app_assoc. }
    { rewrite length_app. simpl. lia. }
    { lia. }
    exists junk'. destruct (dedupe_loop _ _ _ _ _ _) as [h' out'].
    destruct IH' as (-> & Hl & -> & _). split; [done|]. split; [lia|]. split; [done|].
    intros _ He. exfalso.
    pose proof (dedupe_from_length seen rest) as Hle. rewrite He in Hle. simpl in Hle. lia.
  - unfold append. cbn [len cap arr off]. rewrite decide_True by lia.
    rewrite Hh. cbn [default from_option id].
    set (h1 := <[arr inp := _]> h).
    assert (Hcase : ∃ junk1, h1 !! arr inp = Some (pre ++ (acc ++ [v]) ++ junk1 ++ rest ++ post) ∧
      length junk1 = length junk).
    { unfold h1. rewrite lookup_insert_eq, Ho.
      destruct (write_next pre acc junk rest post v) as (junk1 & -> & ?). eauto. }
    destruct Hcase as (junk1 & Hh1 & Hj1).
    destruct (IH (S i) ({[v]} ∪ seen) h1
      {| arr := arr inp; off := off inp; len := S (length acc); cap := cap inp |}
      (acc ++ [v]) junk1 rest) as (junk' & IH'); try done.
    { rewrite length_app. simpl. lia. }
    { f_equal. rewrite length_app. simpl. lia. }
    { lia. }
    exists junk'. destruct (dedupe_loop _ _ _ _ _ _) as [h' out'].
    destruct IH' as (-> & Hl & -> & Hid). unfold h1. rewrite insert_insert_eq.
    rewrite <- !app_assoc in *. simpl in *. split; [done|]. split; [lia|]. split; [done|].
    intros Hjunk [= He]. apply Hid; [|done]. subst junk. by destruct junk1.
Qed.

Lemma dedupe_id l : NoDup l → dedupe l = l.
Proof.
  intros Hnd. unfold dedupe.
  assert (H : ∀ seen, (∀ x, x ∈ l → x ∉ seen) → dedupe_from seen l = l).
  { induction Hnd as [|x l Hx Hnd IH]; intros seen Hs; [done|]. simpl.
    rewrite decide_False by (apply Hs; by left). f_equal. apply IH.
    intros y Hy. specialize (Hs y ltac:(by right)). set_solver. }
  apply H. set_solver.
Qed.

Lemma content_split h s a :
  h !! arr s = Some a → off s + len s <= length a →
  a = take (off s) a ++ content h s ++ drop (off s + len s) a ∧ length (content h s) = len s.
Proof.
  intros Ha Hl. unfold content. rewrite Ha. simpl. split.
  - by rewrite <- drop_drop, take_drop, take_drop.
  - rewrite length_take, length_drop. lia.
Qed.

Lemma content_middle h n pre mid post l :
  h !! n = Some (pre ++ mid ++ post) → l = length mid → ∀ c,
  content h {| arr := n; off := length pre; len := l; cap := c |} = mid.
Proof.
  intros Hn -> c. unfold content. simpl. rewrite Hn. simpl.
  by rewrite drop_app_length, take_app_length.
Qed.

Lemma dedupe_slice_spec h inp :
  slice_wf h inp →
  let '(h', out) := dedupe_slice h inp in
  ∃ a', h' = <[arr inp := a']> h ∧ slice_wf h' out ∧ slice_wf h' inp ∧
    content h' out = dedupe (content h inp) ∧
    arr out = arr inp ∧ off out = off inp ∧
    (NoDup (content h inp) → h' = h ∧ len out = len inp).
Proof.
  intros (a & Ha & Hlc & Hca).
  destruct (content_split h inp a Ha) as [Hsplit Hlen]; [lia|].
  set (rest := content h inp) in *. set (pre := take (off inp) a) in *.
  set (post := drop (off inp + len inp) a) in *.
  assert (Hpre : off inp = length pre) by (unfold pre; rewrite length_take; lia).
  destruct (dedupe_loop_spec (len inp) 0 inp ∅ h
    {| arr := arr inp; off := off inp; len := 0; cap := cap inp |} pre [] [] rest post)
    as (junk & Hd); try done; [by rewrite Ha, Hsplit|].
  unfold dedupe_slice. destruct (dedupe_loop _ _ _ _ _ _) as [h' out].
  destruct Hd as (-> & Hl & -> & Hid). simpl in Hl, Hid. simpl app in *.
  fold (dedupe rest) in *. eexists. split; [done|].
  assert (Hlen' : length (pre ++ dedupe rest ++ junk ++ post) = length a).
  { rewrite Hsplit, !length_app. lia. }
  split.
  { eexists. simpl. rewrite lookup_insert_eq. split; [done|]. lia. }
  split; [eexists; simpl; rewrite lookup_insert_eq; split; [done|]; lia|].
  split.
  { rewrite Hpre. eapply content_middle; [by rewrite lookup_insert_eq|done]. }
  split; [done|]. split; [done|]. intros Hnd. rewrite (dedupe_id _ Hnd) in *.
  rewrite (Hid eq_refl eq_refl). simpl. split; [|done].
  rewrite insert_id; [done|]. by rewrite Ha, Hsplit.
Qed.

(** ** append *)

(** Appending to [s] cannot touch the content of [t]. *)
Definition apart (t s : slice) : Prop :=
  arr t ≠ arr s ∨ (off t = off s ∧ len t <= len s).

Lemma append_spec h s v :
  slice_wf h s →
  let '(h', s') := append h s v in
  content h' s' = content h s ++ [v] ∧ slice_wf h' s' ∧
  ∀ t, slice_wf h t → apart t s →
    content h' t = content h t ∧ slice_wf h' t ∧ apart t s'.
Proof.
  intros (a & Ha & Hlc & Hca). unfold append, apart.
  destruct (decide (len s < cap s)) as [Hlt|Hge].
  - rewrite Ha. cbn [default from_option id].
    set (a' := <[off s + len s := v]> a).
    assert (Hdrop : drop (off s) a' = <[len s := v]> (drop (off s) a)).
    { unfold a'. rewrite drop_insert_ge by lia. f_equal. lia. }
    assert (Hla : length a' = length a) by apply length_insert.
    split.
    { unfold content. cbn [arr off len]. rewrite lookup_insert_eq, Ha. cbn [default from_option id].
      rewrite Hdrop, (take_S_r _ _ v); [by rewrite take_insert_ge by lia|].
      apply list_lookup_insert_eq. rewrite length_drop. lia. }
    split; [exists a'; cbn [arr off len cap]; rewrite lookup_insert_eq; split; [done|lia]|].
    intros t (b & Hb & Ht) Hap. unfold content, slice_wf. cbn [arr off len].
    destruct (decide (arr t = arr s)) as [Harr|Hne].
    + destruct Hap as [?|[Hoff Hlen]]; [done|]. rewrite Harr in *.
      rewrite lookup_insert_eq, Ha, Hoff. cbn [default from_option id].
      rewrite Hdrop, take_insert_ge by lia. rewrite Ha in Hb. injection Hb as <-.
      split; [done|]. split; [exists a'; split; [done|]; rewrite Hla; lia|]. right. lia.
    + rewrite lookup_insert_ne by done. split; [done|]. split; [by exists b|by left].
  - set (n := fresh (dom h)).
    assert (Hn : h !! n = None) by (apply not_elem_of_dom, is_fresh).
    assert (Hlen : length (content h s) = len s).
    { unfold content. rewrite Ha. simpl. rewrite length_take, length_drop. lia. }
    split.
    { unfold content at 1. cbn [arr off len]. rewrite lookup_insert_eq. cbn [default from_option id].
      rewrite drop_0, cons_middle, app_assoc. apply take_app_length'.
      rewrite length_app, Hlen. simpl. lia. }
    split.
    { eexists. cbn [arr off len cap]. rewrite lookup_insert_eq. split; [done|].
      rewrite length_app, Hlen. simpl. rewrite length_replicate. lia. }
    intros t (b & Hb & Ht) _. assert (Hne : arr t ≠ n) by congruence.
    unfold content, slice_wf. cbn [arr off len].
    rewrite lookup_insert_ne by done. split; [done|]. split; [by exists b|by left].
Qed.

(** ** The dependency list of one plugin *)

Lemma read_content h s i :
  slice_wf h s → i < len s → content h s !! i = Some (read h s i).
Proof.
  intros (a & Ha & Hlc & Hca) Hi. unfold content, read. rewrite Ha.
  cbn [default from_option id]. rewrite lookup_take_lt, lookup_drop by done.
  destruct (lookup_lt_is_Some_2 a (off s + i)) as [x Hx]; [lia|]. by rewrite Hx.
Qed.

Definition soft_step (present : string → bool) (deps : list string) (dep : string) : list string :=
  if present dep && negb (contains deps dep) then deps ++ [dep] else deps.

(** The soft loop: the result list, and every slice apart from the
    result keeps its content. *)
Lemma add_soft_spec present k i soft h deps :
  slice_wf h soft → slice_wf h deps → apart soft deps → i + k = len soft →
  let '(h', deps') := add_soft present k i soft h deps in
  content h' deps' = foldl (soft_step present) (content h deps) (drop i (content h soft)) ∧
  (∀ t, slice_wf h t → apart t deps → content h' t = content h t).
Proof.
  revert i h deps. induction k as [|k IH]; intros i h deps Hws Hwd Hap Hik; cbn [add_soft].
  { rewrite drop_ge; [done|]. unfold content. rewrite length_take. lia. }
  assert (Hrd : content h soft !! i = Some (read h soft i)) by (apply read_content; [done|lia]).
  rewrite (drop_S _ _ _ Hrd). cbn [foldl]. unfold soft_step at 2.
  destruct (present (read h soft i) && negb (contains (content h deps) (read h soft i))).
  - pose proof (append_spec h deps (read h soft i) Hwd) as Happ.
    destruct (append h deps (read h soft i)) as [h1 deps1].
    destruct Happ as (Hc & Hwd1 & Hoth).
    destruct (Hoth soft Hws Hap) as (Hcs & Hws1 & Hap1).
    specialize (IH (S i) h1 deps1 Hws1 Hwd1 Hap1 ltac:(lia)).
    destruct (add_soft present k (S i) soft h1 deps1) as [h' deps'].
    destruct IH as (H1 & H2). rewrite H1, Hc, Hcs. split; [done|].
    intros t Ht Htap. destruct (Hoth t Ht Htap) as (Hct & Hwt & Hnext).
    rewrite <- Hct. by apply H2.
  - specialize (IH (S i) h deps Hws Hwd Hap ltac:(lia)).
    by destruct (add_soft present k (S i) soft h deps).
Qed.

Lemma heap_deps_spec present h hard soft :
  slice_wf h hard → slice_wf h soft → arr hard ≠ arr soft →
  let '(h', deps) := heap_deps present h hard soft in
  content h' deps =
    foldl (soft_step present) (dedupe (content h hard)) (dedupe (content h soft)) ∧
  (NoDup (content h hard) → content h' hard = content h hard) ∧
  (NoDup (content h soft) → content h' soft = content h soft).
Proof.
  intros Hwh Hws Hne. unfold heap_deps.
  pose proof (dedupe_slice_spec h hard Hwh) as Hd1.
  destruct (dedupe_slice h hard) as [h1 deps].
  destruct Hd1 as (a1 & -> & Hwd & Hwh1 & Hcd & Had & Hod & Hnd1).
  assert (Hs1 : ∀ t, arr t ≠ arr hard → slice_wf h t →
    slice_wf (<[arr hard := a1]> h) t ∧ content (<[arr hard := a1]> h) t = content h t).
  { intros t Ht Hw. unfold slice_wf, content. by rewrite lookup_insert_ne. }
  destruct (Hs1 soft (not_eq_sym Hne) Hws) as [Hws1 Hcs1].
  pose proof (dedupe_slice_spec _ soft Hws1) as Hd2.
  destruct (dedupe_slice (<[arr hard := a1]> h) soft) as [h2 soft2].
  destruct Hd2 as (a2 & -> & Hwd2 & Hws2 & Hcd2 & Had2 & Hod2 & Hnd2).
  rewrite Hcs1 in *. set (h1 := <[arr hard := a1]> h) in *.
  assert (Hs2 : ∀ t, arr t ≠ arr soft → slice_wf h1 t →
    slice_wf (<[arr soft := a2]> h1) t ∧ content (<[arr soft := a2]> h1) t = content h1 t).
  { intros t Ht Hw. unfold slice_wf, content. by rewrite lookup_insert_ne. }
  destruct (Hs2 deps ltac:(congruence) Hwd) as [Hwd' Hcd'].
  destruct (Hs2 hard Hne Hwh1) as [Hwh' Hch'].
  pose proof (add_soft_spec present (len soft2) 0 soft2 _ deps Hwd2 Hwd'
    ltac:(left; congruence) eq_refl) as Hadd.
  destruct (add_soft _ _ _ _ _ _) as [h' deps']. destruct Hadd as [Hres Hkeep].
  split; [by rewrite Hres, Hcd', Hcd, drop_0, Hcd2|]. split.
  - intros Hnd. destruct (Hnd1 Hnd) as [Heq Hl]. rewrite Hkeep, Hch'.
    + by rewrite Heq.
    + done.
    + right. by rewrite Hod, Hl.
  - intros Hnd. destruct (Hnd2 Hnd) as [Heq Hl].
    rewrite Hkeep; [by rewrite Heq|done|left; congruence].
Qed.

End Append.

(** ** Properties *)

(** On any heap where the slices of [Depends] and [SoftDepends] do not
    share an array, the in-place code computes the dependency list
    [TopoSort.deps_of] of the plugin, whatever capacities the slices have, and
    lists without duplicates are left as they were. *)
Theorem heap_deps_refines {V X L} spare (configured : gmap string (@Kernel.Plugin V X L)) p
    (h : heap) (hard soft : slice)
    (Hhard : slice_wf h hard) (Hsoft : slice_wf h soft) (Hne : arr hard ≠ arr soft)
    (Hd : content h hard = Depends p) (Hs : content h soft = softDepends p) :
  let present d := bool_decide (is_Some (configured !! d)) in
  let '(h', deps) := heap_deps spare present h hard soft in
  content h' deps = deps_of configured p ∧
  (NoDup (Depends p) → content h' hard = Depends p) ∧
  (NoDup (softDepends p) → content h' soft = softDepends p).
Proof.
  intros present. pose proof (heap_deps_spec spare present h hard soft Hhard Hsoft Hne) as H.
  destruct (heap_deps spare present h hard soft) as [h' deps].
  rewrite Hd, Hs in H. exact H.
Qed.

(** A stored [Depends] list with a duplicate is corrupted by the build: after
    one run over [x; x] with a present soft dependency [y], the plugin's own
    slice reads [x; y], so the soft dependency has become a hard one for
    every later build. *)
Theorem heap_deps_corrupts_duplicates spare x y (Hxy : x ≠ y) :
  let hard := {| arr := 0; off := 0; len := 2; cap := 2 |} in
  let soft := {| arr := 1; off := 0; len := 1; cap := 1 |} in
  let h : heap := <[0 := [x; x]]> (<[1 := [y]]> ∅) in
  let h' := (heap_deps spare (λ _, true) h hard soft).1 in
  content h hard = [x; x] ∧ content h' hard = [x; y].
Proof.
  intros hard soft h. split; [done|].
  assert (H1 : dedupe_slice spare h hard = (h, {| arr := 0; off := 0; len := 1; cap := 2 |})).
  { unfold dedupe_slice. cbn [len hard dedupe_loop]. rewrite (decide_False (P := _ ∈ ∅)) by set_solver.
    change (read h hard 0) with x. unfold append. cbn [len cap arr off].
    rewrite decide_True by (unfold hard; simpl; lia). change (default [] (h !! 0)) with [x; x].
    change (<[0 + 0 := x]> [x; x]) with [x; x].
    rewrite insert_id by done. change (read h hard 1) with x.
    by rewrite decide_True by set_solver. }
  unfold heap_deps. rewrite H1.
  assert (H2 : dedupe_slice spare h soft = (h, soft)).
  { unfold dedupe_slice. cbn [len soft dedupe_loop]. rewrite (decide_False (P := _ ∈ ∅)) by set_solver.
    change (read h soft 0) with y. unfold append. cbn [len cap arr off].
    rewrite decide_True by (unfold soft; simpl; lia). change (default [] (h !! 1)) with [y].
    change (<[0 + 0 := y]> [y]) with [y]. by rewrite insert_id by done. }
  rewrite H2. cbn [len soft add_soft]. change (read h soft 0) with y.
  change (content h _) with [x]. cbn [contains andb]. rewrite decide_False by done.
  reflexivity.
Qed.

Module SliceExample.

Lemma heap_deps_corrupts_duplicates_witness :
  "db" ≠ "cache" ∧
  content (heap_deps (λ _, 0) (λ _, true) (<[0 := ["db"; "db"]]> (<[1 := ["cache"]]> ∅))
    {| arr := 0; off := 0; len := 2; cap := 2 |}
    {| arr := 1; off := 0; len := 1; cap := 1 |}).1
    {| arr := 0; off := 0; len := 2; cap := 2 |} = ["db"; "cache"].
Proof.
  split; [done|]. apply (heap_deps_corrupts_duplicates (λ _, 0) "db" "cache"). done.
Defined.

Lemma heap_deps_refines_witness :
  content (heap_deps (λ _, 0) (λ d, bool_decide (is_Some (TopoExample.conf !! d)))
    (<[0 := []]> (<[1 := ["db"; "cache"; "db"]]> ∅))
    {| arr := 0; off := 0; len := 0; cap := 0 |}
    {| arr := 1; off := 0; len := 3; cap := 3 |}).1
    {| arr := 0; off := 0; len := 0; cap := 0 |} = [].
Proof.
  pose proof (heap_deps_refines (λ _, 0) TopoExample.conf TopoExample.health
    (<[0 := []]> (<[1 := ["db"; "cache"; "db"]]> ∅))
    {| arr := 0; off := 0; len := 0; cap := 0 |}
    {| arr := 1; off := 0; len := 3; cap := 3 |}) as T.
  destruct T as (_ & T & _).
  - exists []. split; [reflexivity|]. simpl. lia.
  - exists ["db"; "cache"; "db"]. split; [reflexivity|]. simpl. lia.
  - discriminate.
  - reflexivity.
  - reflexivity.
  - apply T. constructor.
Defined.

End SliceExample.
