(* ===== verification/Breaker.v ===== *)
(** * plugins/circuitbreaker: the circuit breaker, its group and its middleware

    Models [src/plugins/circuitbreaker/circuitbreaker.go].  Every method that
    takes the mutex is one step on the record [CircuitBreaker]; the clock
    reading [time.Now()] of a step is an argument.  The callbacks of [Config]
    are fields of the record; calls of [OnStateChange] are the trace
    [list transition]. *)

From S2P Require Import Prelude.

Import GoError GoInt.

(** ** Data *)

Inductive State : Type := StateClosed | StateOpen | StateHalfOpen.

#[export] Instance State_eq_dec : EqDecision State.
Proof. solve_decision. Defined.

Definition State_String (s : State) : string :=
  match s with
  | StateClosed => "closed"
  | StateOpen => "open"
  | StateHalfOpen => "half-open"
  end.

Record Counts := MkCounts {
  Requests : Z;               (* uint32, like the others *)
  TotalSuccesses : Z;
  TotalFailures : Z;
  ConsecutiveSuccesses : Z;
  ConsecutiveFailures : Z
}.

Definition zero_counts : Counts := MkCounts 0 0 0 0 0.

Record Config := MkConfig {
  MaxRequests : Z;                                   (* uint32 *)
  Interval : Z;                                      (* time.Duration *)
  Timeout : Z;                                       (* time.Duration *)
  ReadyToTrip : Counts → bool;
  OnStateChange : bool;                              (* whether a callback is set *)
  IsSuccessful : option error → bool;
  Fallback : option (error → outcome (option error))
}.

(** [DefaultConfig]. *)
Definition DefaultConfig : Config := {|
  MaxRequests := 1;
  Interval := GoTime.Minute;
  Timeout := GoTime.Minute;
  ReadyToTrip := λ counts, (5 <? ConsecutiveFailures counts)%Z;
  OnStateChange := true;
  IsSuccessful := λ err, match err with None => true | Some _ => false end;
  Fallback := None
|}.

Record CircuitBreaker := MkCB {
  name : string;
  maxRequests : Z;
  interval : Z;
  timeout : Z;
  readyToTrip : Counts → bool;
  onStateChange : bool;
  isSuccessful : option error → bool;
  fallback : option (error → outcome (option error));
  state : State;
  generation : Z;             (* uint64 *)
  counts : Counts;
  expiry : Z                  (* time.Time *)
}.

(** A call of the [OnStateChange] callback: (name, from, to). *)
Definition transition : Type := string * State * State.

Definition ErrCircuitBreakerOpen : error := Sentinel "circuitbreaker.ErrCircuitBreakerOpen".
Definition ErrTooManyRequests : error := Sentinel "circuitbreaker.ErrTooManyRequests".

Definition set_counts (cb : CircuitBreaker) (c : Counts) : CircuitBreaker :=
  MkCB (name cb) (maxRequests cb) (interval cb) (timeout cb) (readyToTrip cb)
    (onStateChange cb) (isSuccessful cb) (fallback cb) (state cb) (generation cb) c (expiry cb).

Definition set_state (cb : CircuitBreaker) (s : State) : CircuitBreaker :=
  MkCB (name cb) (maxRequests cb) (interval cb) (timeout cb) (readyToTrip cb)
    (onStateChange cb) (isSuccessful cb) (fallback cb) s (generation cb) (counts cb) (expiry cb).

(** ** Methods *)

Definition toNewGeneration (now : Z) (cb : CircuitBreaker) : CircuitBreaker :=
  let exp :=
    match state cb with
    | StateClosed => if decide (interval cb = 0%Z) then 0%Z else GoTime.Add now (interval cb)
    | StateOpen => GoTime.Add now (timeout cb)
    | StateHalfOpen => 0%Z
    end in
  MkCB (name cb) (maxRequests cb) (interval cb) (timeout cb) (readyToTrip cb)
    (onStateChange cb) (isSuccessful cb) (fallback cb) (state cb)
    (u64 (generation cb + 1)) zero_counts exp.

Definition NewCircuitBreaker (nm : string) (config : Config) (now : Z) : CircuitBreaker :=
  let cb := {|
    name := nm;
    maxRequests := if decide (MaxRequests config = 0%Z) then 1%Z else MaxRequests config;
    interval := if decide (Interval config <= 0)%Z then GoTime.Minute else Interval config;
    timeout := if decide (Timeout config <= 0)%Z then GoTime.Minute else Timeout config;
    readyToTrip := ReadyToTrip config;
    onStateChange := OnStateChange config;
    isSuccessful := IsSuccessful config;
    fallback := Fallback config;
    state := StateClosed;
    generation := 0;
    counts := zero_counts;
    expiry := 0
  |} in
  toNewGeneration now cb.

Definition setState (st : State) (now : Z) (cb : CircuitBreaker) :
    CircuitBreaker * list transition :=
  if decide (state cb = st) then (cb, [])
  else
    let prev := state cb in
    let cb := toNewGeneration now (set_state cb st) in
    (cb, if onStateChange cb then [(name cb, prev, st)] else []).

(** [currentState]: the state and the generation it returns are those of the
    breaker it leaves. *)
Definition currentState (now : Z) (cb : CircuitBreaker) : CircuitBreaker * list transition :=
  match state cb with
  | StateClosed =>
      if negb (GoTime.IsZero (expiry cb)) && GoTime.Before (expiry cb) now
      then (toNewGeneration now cb, []) else (cb, [])
  | StateOpen =>
      if GoTime.Before (expiry cb) now then setState StateHalfOpen now cb else (cb, [])
  | StateHalfOpen => (cb, [])
  end.

Definition beforeRequest (now : Z) (cb : CircuitBreaker) :
    CircuitBreaker * list transition * (Z * option error) :=
  let '(cb, tr) := currentState now cb in
  if decide (state cb = StateOpen) then
    (cb, tr, (generation cb, Some ErrCircuitBreakerOpen))
  else if decide (state cb = StateHalfOpen ∧ (maxRequests cb <= Requests (counts cb))%Z) then
    (cb, tr, (generation cb, Some ErrTooManyRequests))
  else
    let c := counts cb in
    (set_counts cb (MkCounts (u32 (Requests c + 1)) (TotalSuccesses c) (TotalFailures c)
       (ConsecutiveSuccesses c) (ConsecutiveFailures c)), tr, (generation cb, None)).

Definition onSuccess (st : State) (now : Z) (cb : CircuitBreaker) :
    CircuitBreaker * list transition :=
  let c := counts cb in
  let cb := set_counts cb (MkCounts (Requests c) (u32 (TotalSuccesses c + 1)) (TotalFailures c)
              (u32 (ConsecutiveSuccesses c + 1)) 0) in
  match st with
  | StateHalfOpen =>
      if (maxRequests cb <=? ConsecutiveSuccesses (counts cb))%Z
      then setState StateClosed now cb else (cb, [])
  | _ => (cb, [])
  end.

Definition onFailure (st : State) (now : Z) (cb : CircuitBreaker) :
    CircuitBreaker * list transition :=
  let c := counts cb in
  let cb := set_counts cb (MkCounts (Requests c) (TotalSuccesses c) (u32 (TotalFailures c + 1))
              0 (u32 (ConsecutiveFailures c + 1))) in
  match st with
  | StateClosed =>
      if readyToTrip cb (counts cb) then setState StateOpen now cb else (cb, [])
  | StateHalfOpen => setState StateOpen now cb
  | StateOpen => (cb, [])
  end.

Definition afterRequest (before : Z) (success : bool) (now : Z) (cb : CircuitBreaker) :
    CircuitBreaker * list transition :=
  let '(cb, tr) := currentState now cb in
  if decide (generation cb ≠ before) then (cb, tr)
  else
    let '(cb, tr') :=
      if success then onSuccess (state cb) now cb else onFailure (state cb) now cb in
    (cb, tr ++ tr').

(** What the guarded function does: return a value and an error, or panic. *)
Inductive fn_outcome (T : Type) : Type :=
| FnRet (result : option T) (err : option error)
| FnPanic (v : string).
Arguments FnRet {T} result err.
Arguments FnPanic {T} v.

(** [Execute] when no other call intervenes: [t1] is the clock of the admission,
    [t2] of the recording, [t3] of the recording in the deferred function.
    [ran] tells whether [fn] was called. *)
Definition Execute {T} (t1 t2 t3 : Z) (fn : fn_outcome T) (cb : CircuitBreaker) :
    CircuitBreaker * list transition * bool * outcome (option T * option error) :=
  let '(cb, tr, (gen, err)) := beforeRequest t1 cb in
  match err with
  | Some e =>
      (cb, tr, false,
       match fallback cb with
       | Some f => match f e with Ret r => Ret (None, r) | Panic m a => Panic m a end
       | None => Ret (None, Some e)
       end)
  | None =>
      match fn with
      | FnPanic v =>
          let '(cb, tr') := afterRequest gen false t3 cb in
          (cb, tr ++ tr', true, Panic "%v" [v])
      | FnRet result err =>
          let '(cb, tr') := afterRequest gen (isSuccessful cb err) t2 cb in
          match err, fallback cb with
          | Some e, Some f =>
              match f e with
              | Ret r => (cb, tr ++ tr', true, Ret (None, r))
              | Panic m a =>
                  (* the deferred function records the request again *)
                  let '(cb, tr'') := afterRequest gen false t3 cb in
                  (cb, tr ++ tr' ++ tr'', true, Panic m a)
              end
          | _, _ => (cb, tr ++ tr', true, Ret (result, err))
          end
      end
  end.

(** [ExecuteContext]: the same code, with the context handed to [fn]. *)
Definition ExecuteContext {C T} (ctx : C) (t1 t2 t3 : Z) (fn : C → fn_outcome T)
    (cb : CircuitBreaker) :
    CircuitBreaker * list transition * bool * outcome (option T * option error) :=
  Execute t1 t2 t3 (fn ctx) cb.

(** ** The group and the HTTP middleware *)

Abbreviation CircuitBreakerGroup := (gmap string CircuitBreaker).

Definition NewCircuitBreakerGroup : CircuitBreakerGroup := ∅.

Definition Group_Add (nm : string) (config : Config) (now : Z) (g : CircuitBreakerGroup) :
    CircuitBreakerGroup := <[nm := NewCircuitBreaker nm config now]> g.

Definition Group_Get (nm : string) (g : CircuitBreakerGroup) : option CircuitBreaker := g !! nm.

Definition Group_Remove (nm : string) (g : CircuitBreakerGroup) : CircuitBreakerGroup := delete nm g.

Definition Group_States (g : CircuitBreakerGroup) : gmap string State := state <$> g.

Definition Group_Execute {T} (nm : string) (t1 t2 t3 : Z) (fn : fn_outcome T)
    (g : CircuitBreakerGroup) :
    CircuitBreakerGroup * list transition * bool * outcome (option T * option error) :=
  match Group_Get nm g with
  | None =>
      (g, [], true,
       match fn with FnRet r e => Ret (r, e) | FnPanic v => Panic "%v" [v] end)
  | Some cb =>
      let '(cb, tr, ran, out) := Execute t1 t2 t3 fn cb in
      (<[nm := cb]> g, tr, ran, out)
  end.

Definition Group_ExecuteContext {C T} (nm : string) (ctx : C) (t1 t2 t3 : Z)
    (fn : C → fn_outcome T) (g : CircuitBreakerGroup) :
    CircuitBreakerGroup * list transition * bool * outcome (option T * option error) :=
  match Group_Get nm g with
  | None =>
      (g, [], true,
       match fn ctx with FnRet r e => Ret (r, e) | FnPanic v => Panic "%v" [v] end)
  | Some cb =>
      let '(cb, tr, ran, out) := ExecuteContext ctx t1 t2 t3 fn cb in
      (<[nm := cb]> g, tr, ran, out)
  end.

(** [CheckHealth] over the states map enumerated as [range]. *)
Fixpoint check_open (states : gmap string State) (range : list string) : option error :=
  match range with
  | [] => None
  | nm :: range =>
      match states !! nm with
      | Some StateOpen => Some (Errorf "circuit breaker %s is open" [nm])
      | _ => check_open states range
      end
  end.

Definition CheckHealth (g : CircuitBreakerGroup) (range : list string) : option error :=
  check_open (Group_States g) range.

Definition GetHealthStatus (g : CircuitBreakerGroup) : gmap string (string * Counts) :=
  map_imap (λ nm st,
    match Group_Get nm g with
    | Some cb => Some (State_String st, counts cb)
    | None => None
    end) (Group_States g).

(** The handler of [Middleware.Wrap]: [served] tells whether the wrapped
    handler ran, [status] the code of the error response, if one is written. *)
Definition Wrap (nm : string) (t1 t2 t3 : Z) (handler_panics : option string)
    (g : CircuitBreakerGroup) : CircuitBreakerGroup * bool * outcome (option Z) :=
  let fn : fn_outcome unit :=
    match handler_panics with Some v => FnPanic v | None => FnRet None None end in
  let '(g, _, ran, out) := Group_Execute nm t1 t2 t3 fn g in
  (g, ran,
   match out with
   | Panic m a => Panic m a
   | Ret (_, None) => Ret None
   | Ret (_, Some (Sentinel v)) =>
       if decide (v = "circuitbreaker.ErrCircuitBreakerOpen") then Ret (Some 503%Z)
       else if decide (v = "circuitbreaker.ErrTooManyRequests") then Ret (Some 429%Z)
       else Ret (Some 500%Z)
   | Ret (_, Some _) => Ret (Some 500%Z)
   end).
