(* ===== verification/BreakerProps.v ===== *)
(** * The circuit breaker: invariant, admission control, recovery

    The invariant of [Breaker.CircuitBreaker] under every interleaving of
    admissions and completions, the transitions it can report, and the
    behaviour of [Execute], the group and the middleware. *)

From S2P Require Import Prelude Breaker.

Import GoError GoInt.

(** ** Invariant of the breaker *)

Definition counts_wf (c : Counts) : Prop :=
  in_u32 (Requests c) ∧ in_u32 (TotalSuccesses c) ∧ in_u32 (TotalFailures c) ∧
  in_u32 (ConsecutiveSuccesses c) ∧ in_u32 (ConsecutiveFailures c).

Record breaker_wf (cb : CircuitBreaker) : Prop := {
  wf_max : (0 < maxRequests cb < 2 ^ 32)%Z;
  wf_interval : (0 < interval cb)%Z;
  wf_timeout : (0 < timeout cb)%Z;
  wf_generation : in_u64 (generation cb);
  wf_counts : counts_wf (counts cb);
  (** While half-open only successes have been recorded, fewer than the
      number that closes the breaker, and no more requests than allowed were
      admitted. *)
  wf_half_open : state cb = StateHalfOpen →
    (Requests (counts cb) <= maxRequests cb)%Z ∧
    TotalFailures (counts cb) = 0%Z ∧
    ConsecutiveSuccesses (counts cb) = TotalSuccesses (counts cb) ∧
    (TotalSuccesses (counts cb) < maxRequests cb)%Z
}.

Lemma counts_wf_intro r ts tf cs cf :
  in_u32 r → in_u32 ts → in_u32 tf → in_u32 cs → in_u32 cf →
  counts_wf (MkCounts r ts tf cs cf).
Proof. by intros; unfold counts_wf. Qed.

Lemma zero_counts_wf : counts_wf zero_counts.
Proof. repeat split; simpl; lia. Qed.

(** The configuration of a breaker never changes. *)
Definition same_config (cb cb' : CircuitBreaker) : Prop :=
  name cb' = name cb ∧ maxRequests cb' = maxRequests cb ∧ interval cb' = interval cb ∧
  timeout cb' = timeout cb ∧ readyToTrip cb' = readyToTrip cb ∧
  onStateChange cb' = onStateChange cb ∧ isSuccessful cb' = isSuccessful cb ∧
  fallback cb' = fallback cb.

Lemma toNewGeneration_wf now cb :
  (0 < maxRequests cb < 2 ^ 32)%Z → (0 < interval cb)%Z → (0 < timeout cb)%Z →
  breaker_wf (toNewGeneration now cb).
Proof.
  intros Hm Hi Ht.
  split; simpl; [done|done|done|apply u64_range|apply zero_counts_wf|lia].
Qed.

Lemma NewCircuitBreaker_wf nm config now :
  in_u32 (MaxRequests config) → breaker_wf (NewCircuitBreaker nm config now).
Proof.
  intros Hm. unfold in_u32 in Hm. unfold NewCircuitBreaker.
  apply toNewGeneration_wf; simpl; case_decide; unfold GoTime.Minute; lia.
Qed.

Lemma setState_wf st now cb : breaker_wf cb → breaker_wf (setState st now cb).1.
Proof.
  intros Hwf. unfold setState. destruct (decide (state cb = st)); [done|].
  apply toNewGeneration_wf; simpl; apply Hwf.
Qed.

Lemma currentState_wf now cb : breaker_wf cb → breaker_wf (currentState now cb).1.
Proof.
  intros Hwf. unfold currentState.
  destruct (state cb); [|case_match; [by apply setState_wf|done]|done].
  case_match; [|done]. apply toNewGeneration_wf; apply Hwf.
Qed.

Lemma setState_state st now cb : state (setState st now cb).1 = st.
Proof. unfold setState. by destruct (decide (state cb = st)). Qed.

Lemma same_config_refl cb : same_config cb cb.
Proof. repeat split. Qed.

Lemma setState_config st now cb : same_config cb (setState st now cb).1.
Proof. unfold setState. by destruct (decide (state cb = st)). Qed.

Lemma currentState_config now cb : same_config cb (currentState now cb).1.
Proof.
  unfold currentState. destruct (state cb); repeat case_match; try done.
  apply setState_config.
Qed.

(** ** Concurrent use: a step relation

    A system is a breaker with the generations of the requests in flight.
    Each step is one critical section: an admission, a refusal, or the
    completion of some request in flight, at any clock reading. *)

Record system := MkSystem { breaker : CircuitBreaker; inflight : list Z }.

Inductive step : system → system → Prop :=
| step_admit cb fl now cb' tr gen :
    beforeRequest now cb = (cb', tr, (gen, None)) →
    step (MkSystem cb fl) (MkSystem cb' (gen :: fl))
| step_refuse cb fl now cb' tr gen e :
    beforeRequest now cb = (cb', tr, (gen, Some e)) →
    step (MkSystem cb fl) (MkSystem cb' fl)
| step_finish cb fl1 gen fl2 now ok cb' tr :
    afterRequest gen ok now cb = (cb', tr) →
    step (MkSystem cb (fl1 ++ gen :: fl2)) (MkSystem cb' (fl1 ++ fl2)).

(** [n] steps from a new breaker. *)
Inductive reachable (nm : string) (config : Config) : nat → system → Prop :=
| reach_new now : reachable nm config 0 (MkSystem (NewCircuitBreaker nm config now) [])
| reach_step n s s' : reachable nm config n s → step s s' → reachable nm config (S n) s'.

(** Requests in flight that belong to the current generation. *)
Definition current_inflight (s : system) : nat :=
  length (filter (λ g, g = generation (breaker s)) (inflight s)).

Record system_inv (n : nat) (s : system) : Prop := {
  inv_wf : breaker_wf (breaker s);
  inv_gen : (0 < generation (breaker s) <= 2 * Z.of_nat n + 1)%Z;
  inv_inflight : ∀ g, g ∈ inflight s → (g <= generation (breaker s))%Z;
  inv_half_open : state (breaker s) = StateHalfOpen →
    Requests (counts (breaker s)) =
      (Z.of_nat (current_inflight s) + TotalSuccesses (counts (breaker s)))%Z
}.

Lemma filter_newer (fl : list Z) g :
  (∀ x, x ∈ fl → (x < g)%Z) → length (filter (λ x, x = g) fl) = 0.
Proof.
  intros H. apply length_zero_iff_nil, elem_of_nil_inv.
  intros x [-> Hx]%list_elem_of_filter. specialize (H _ Hx). lia.
Qed.

(** What a step that may start a new generation can do to the breaker. *)
Lemma currentState_cases now cb :
  let cb' := (currentState now cb).1 in
  cb' = cb ∨
  (generation cb' = u64 (generation cb + 1) ∧ counts cb' = zero_counts ∧
   (state cb' = StateHalfOpen → state cb = StateOpen)).
Proof.
  unfold currentState. destruct (state cb) eqn:Hs; simpl; [|case_match; [|by left]|by left].
  - case_match; [right|by left]. simpl. by rewrite Hs.
  - right. unfold setState. rewrite Hs. simpl. done.
Qed.

Lemma setState_new st now cb :
  state cb ≠ st →
  generation (setState st now cb).1 = u64 (generation cb + 1) ∧
  counts (setState st now cb).1 = zero_counts.
Proof. intros H. unfold setState. by rewrite decide_False. Qed.

(** The part of the invariant every step first re-establishes. *)
Lemma currentState_inv n cb fl now :
  (2 * Z.of_nat n + 3 < 2 ^ 64)%Z →
  system_inv n (MkSystem cb fl) →
  let cb' := (currentState now cb).1 in
  breaker_wf cb' ∧ (0 < generation cb' <= 2 * Z.of_nat n + 2)%Z ∧
  (∀ g, g ∈ fl → (g <= generation cb')%Z) ∧
  (state cb' = StateHalfOpen →
    Requests (counts cb') =
      (Z.of_nat (current_inflight (MkSystem cb' fl)) + TotalSuccesses (counts cb'))%Z).
Proof.
  intros Hn [Hwf Hgen Hfl Hho]. simpl in *.
  split; [by apply currentState_wf|].
  destruct (currentState_cases now cb) as [->|(Hg & Hc & Hst)].
  { split; [lia|]. done. }
  rewrite Hg, Hc, u64_id by in_range.
  split; [lia|]. split; [intros g Hg'; specialize (Hfl g Hg'); lia|].
  intros _. unfold current_inflight. simpl. rewrite Hg, u64_id by in_range.
  rewrite filter_newer; [done|]. intros x Hx. specialize (Hfl x Hx). lia.
Qed.

Lemma current_inflight_cons cb g fl :
  current_inflight (MkSystem cb (g :: fl)) =
    (if decide (g = generation cb) then 1 else 0) + current_inflight (MkSystem cb fl).
Proof. unfold current_inflight. simpl. rewrite filter_cons. by case_decide. Qed.

Lemma current_inflight_app cb fl1 g fl2 :
  current_inflight (MkSystem cb (fl1 ++ g :: fl2)) =
    (if decide (g = generation cb) then 1 else 0) + current_inflight (MkSystem cb (fl1 ++ fl2)).
Proof.
  unfold current_inflight. simpl. rewrite !filter_app, filter_cons, !length_app.
  case_decide; simpl; lia.
Qed.

Lemma step_admit_inv n cb fl now cb' tr gen :
  (2 * Z.of_nat n + 3 < 2 ^ 64)%Z → system_inv n (MkSystem cb fl) →
  beforeRequest now cb = (cb', tr, (gen, None)) →
  system_inv (S n) (MkSystem cb' (gen :: fl)).
Proof.
  intros Hn Hinv Hb. pose proof (currentState_inv n cb fl now Hn Hinv) as H. simpl in H.
  unfold beforeRequest in Hb. destruct (currentState now cb) as [cb1 tr1]. simpl in H.
  destruct H as (Hwf & Hgen & Hfl & Hho).
  destruct (decide (state cb1 = StateOpen)) as [|Hno]; [done|].
  destruct (decide (_ ∧ _)) as [|Hmax]; [done|]. injection Hb as <- <- <-.
  pose proof (wf_max _ Hwf). destruct (wf_counts _ Hwf) as (Hr & ? & ? & ? & ?).
  assert (Hlt : state cb1 = StateHalfOpen →
    u32 (Requests (counts cb1) + 1) = (Requests (counts cb1) + 1)%Z ∧
    (Requests (counts cb1) < maxRequests cb1)%Z).
  { intros Hs. assert (Requests (counts cb1) < maxRequests cb1)%Z.
    { destruct (decide (maxRequests cb1 <= Requests (counts cb1))%Z); [tauto|lia]. }
    split; [|done]. apply u32_id. unfold in_u32 in *. lia. }
  split; simpl.
  - destruct Hwf. split; simpl; try done.
    + apply counts_wf_intro; auto with goint.
    + intros Hs. destruct (Hlt Hs) as [-> ?]. destruct (wf_half_open0 Hs) as (? & ? & ? & ?). lia.
  - lia.
  - intros g [->|Hg]%elem_of_cons; [done|by apply Hfl].
  - intros Hs. destruct (Hlt Hs) as [-> _]. rewrite (Hho Hs), current_inflight_cons.
    simpl. rewrite decide_True by done.
    change (current_inflight (MkSystem (set_counts cb1 _) fl))
      with (current_inflight (MkSystem cb1 fl)). lia.
Qed.

Lemma step_refuse_inv n cb fl now cb' tr gen e :
  (2 * Z.of_nat n + 3 < 2 ^ 64)%Z → system_inv n (MkSystem cb fl) →
  beforeRequest now cb = (cb', tr, (gen, Some e)) →
  system_inv (S n) (MkSystem cb' fl).
Proof.
  intros Hn Hinv Hb. pose proof (currentState_inv n cb fl now Hn Hinv) as H. simpl in H.
  unfold beforeRequest in Hb. destruct (currentState now cb) as [cb1 tr1]. simpl in H.
  destruct H as (Hwf & Hgen & Hfl & Hho).
  assert (cb' = cb1) as ->.
  { destruct (decide (state cb1 = StateOpen)); [by injection Hb as <- <- <- <-|].
    destruct (decide (_ ∧ _)); by injection Hb. }
  split; simpl; try done. lia.
Qed.


Lemma onSuccess_cases st now cb :
  let cb1 := set_counts cb (MkCounts (Requests (counts cb)) (u32 (TotalSuccesses (counts cb) + 1))
    (TotalFailures (counts cb)) (u32 (ConsecutiveSuccesses (counts cb) + 1)) 0) in
  onSuccess st now cb =
    if decide (st = StateHalfOpen ∧ (maxRequests cb <= u32 (ConsecutiveSuccesses (counts cb) + 1))%Z)
    then setState StateClosed now cb1 else (cb1, []).
Proof.
  simpl. unfold onSuccess. destruct st; try (by rewrite decide_False by naive_solver). simpl.
  destruct (Z.leb_spec (maxRequests cb) (u32 (ConsecutiveSuccesses (counts cb) + 1))).
  - by rewrite decide_True.
  - rewrite decide_False; [done|]. lia.
Qed.

Lemma onFailure_cases st now cb :
  let cb1 := set_counts cb (MkCounts (Requests (counts cb)) (TotalSuccesses (counts cb))
    (u32 (TotalFailures (counts cb) + 1)) 0 (u32 (ConsecutiveFailures (counts cb) + 1))) in
  onFailure st now cb =
    if decide (st = StateHalfOpen ∨ (st = StateClosed ∧ readyToTrip cb (counts cb1) = true))
    then setState StateOpen now cb1 else (cb1, []).
Proof.
  intros cb1. unfold onFailure. destruct st.
  - change (counts (set_counts cb _)) with (counts cb1).
    change (readyToTrip (set_counts cb _)) with (readyToTrip cb).
    case_match; [by rewrite decide_True by naive_solver|].
    by rewrite decide_False by naive_solver.
  - by rewrite decide_False by naive_solver.
  - by rewrite decide_True by naive_solver.
Qed.

(** A completion that leaves the generation alone only counts; one that
    changes the state starts a generation. *)
Lemma record_inv n cb fl1 fl2 now ok :
  (2 * Z.of_nat n + 3 < 2 ^ 64)%Z →
  breaker_wf cb → (0 < generation cb <= 2 * Z.of_nat n + 2)%Z →
  (∀ g, g ∈ fl1 ++ fl2 → (g <= generation cb)%Z) →
  (state cb = StateHalfOpen → Requests (counts cb) =
     (1 + Z.of_nat (current_inflight (MkSystem cb (fl1 ++ fl2))) + TotalSuccesses (counts cb))%Z) →
  system_inv (S n) (MkSystem
    (if ok : bool then onSuccess (state cb) now cb else onFailure (state cb) now cb).1 (fl1 ++ fl2)).
Proof.
  intros Hn Hwf Hgen Hfl Hho.
  set (c1 := if ok then _ else _).
  assert (Hc1 : (∃ c, counts_wf c ∧ c1.1 = set_counts cb c ∧
      (state cb = StateHalfOpen → c = MkCounts (Requests (counts cb)) (TotalSuccesses (counts cb) + 1)
         0 (TotalSuccesses (counts cb) + 1) 0 ∧ (TotalSuccesses (counts cb) + 1 < maxRequests cb)%Z)) ∨
      (∃ st c, st ≠ state cb ∧ st ≠ StateHalfOpen ∧ c1 = setState st now (set_counts cb c))).
  { destruct (wf_counts _ Hwf) as (? & ? & ? & ? & ?). pose proof (wf_max _ Hwf) as Hm.
    subst c1. destruct ok; rewrite ?onSuccess_cases, ?onFailure_cases; case_decide as Hd.
    - right. eexists StateClosed, _. split; [|by split]. destruct Hd as [-> _]. done.
    - left. eexists. split; [|split; [done|]].
      { apply counts_wf_intro; auto with goint. }
      intros Hs. destruct (wf_half_open _ Hwf Hs) as (? & Hf & Hcs & Hlt).
      rewrite Hf, Hcs in *. rewrite u32_id in * by in_range.
      split; [done|]. destruct (Z.lt_ge_cases (TotalSuccesses (counts cb) + 1) (maxRequests cb)); [done|].
      exfalso. by apply Hd.
    - right. eexists StateOpen, _. split; [|by split]. by destruct Hd as [->|[-> _]].
    - left. eexists. split; [|split; [done|]].
      { apply counts_wf_intro; auto with goint. }
      intros Hs. exfalso. naive_solver. }
  destruct Hc1 as [(c & Hc & -> & Hs)|(st & c & Hne & Hnh & ->)].
  - split; simpl; [|lia|done|].
    + destruct Hwf. split; simpl; try done. intros Hh. destruct (Hs Hh) as [-> ?]. simpl.
      destruct (wf_half_open0 Hh). done.
    + intros Hh. destruct (Hs Hh) as [-> _]. simpl. rewrite (Hho Hh).
      change (current_inflight (MkSystem (set_counts cb _) _))
        with (current_inflight (MkSystem cb (fl1 ++ fl2))). lia.
  - destruct (setState_new st now (set_counts cb c)) as [Hg _]; [simpl; congruence|].
    simpl in Hg. rewrite u64_id in Hg by in_range.
    split; cbn [breaker inflight]; rewrite ?Hg, ?setState_state; [|lia| |done].
    + unfold setState. rewrite decide_False by (simpl; congruence).
      apply toNewGeneration_wf; apply Hwf.
    + intros g Hg'. specialize (Hfl g Hg'). lia.
Qed.

Lemma step_finish_inv n cb fl1 gen fl2 now ok cb' tr :
  (2 * Z.of_nat n + 3 < 2 ^ 64)%Z → system_inv n (MkSystem cb (fl1 ++ gen :: fl2)) →
  afterRequest gen ok now cb = (cb', tr) →
  system_inv (S n) (MkSystem cb' (fl1 ++ fl2)).
Proof.
  intros Hn Hinv Hb. pose proof (currentState_inv n cb _ now Hn Hinv) as H. simpl in H.
  unfold afterRequest in Hb. destruct (currentState now cb) as [cb1 tr1]. simpl in H.
  destruct H as (Hwf & Hgen & Hfl & Hho).
  assert (Hfl' : ∀ g, g ∈ fl1 ++ fl2 → (g <= generation cb1)%Z).
  { intros g Hg. apply Hfl. set_solver. }
  rewrite current_inflight_app in Hho.
  destruct (decide (generation cb1 ≠ gen)) as [Hne|Heq].
  - injection Hb as <- <-. rewrite decide_False in Hho by done. split; simpl; [done|lia|done|done].
  - assert (gen = generation cb1) as -> by (symmetry; by apply dec_stable).
    rewrite decide_True in Hho by done.
    assert (Heq' : cb' = (if ok then onSuccess (state cb1) now cb1
                          else onFailure (state cb1) now cb1).1).
    { destruct (if ok then _ else _) as [cb2 tr2]. by injection Hb. }
    rewrite Heq'. apply record_inv; try done. intros Hs. rewrite (Hho Hs). lia.
Qed.

Lemma reachable_inv nm config n s :
  in_u32 (MaxRequests config) → (2 * Z.of_nat n + 3 < 2 ^ 64)%Z →
  reachable nm config n s → system_inv n s.
Proof.
  intros Hm Hn Hr. induction Hr as [now|n s s' Hr IH Hst].
  - split; simpl; [by apply NewCircuitBreaker_wf|rewrite u64_id by in_range; lia| |done].
    intros g Hg. by apply not_elem_of_nil in Hg.
  - assert (Hn' : (2 * Z.of_nat n + 3 < 2 ^ 64)%Z) by lia. specialize (IH Hn').
    destruct Hst as [cb fl now cb' tr gen Hb|cb fl now cb' tr gen e Hb|cb fl1 gen fl2 now ok cb' tr Hb].
    + by eapply step_admit_inv.
    + by eapply step_refuse_inv.
    + by eapply step_finish_inv.
Qed.

(** C5: under every interleaving of admissions, refusals and completions by
    concurrent callers, a half-open breaker has at most [maxRequests] probes
    admitted, of which exactly the ones not yet in flight any more succeeded
    (a failure would have opened it), and stale completions (of an older
    generation) never count; the bound on the number of steps keeps the
    uint64 generation from wrapping around. *)
Theorem half_open_admission_bound nm config n s :
  in_u32 (MaxRequests config) → (2 * Z.of_nat n + 3 < 2 ^ 64)%Z →
  reachable nm config n s →
  breaker_wf (breaker s) ∧
  (state (breaker s) = StateHalfOpen →
     Requests (counts (breaker s)) =
       (Z.of_nat (current_inflight s) + TotalSuccesses (counts (breaker s)))%Z ∧
     (Z.of_nat (current_inflight s) + TotalSuccesses (counts (breaker s))
        <= maxRequests (breaker s))%Z ∧
     (TotalSuccesses (counts (breaker s)) < maxRequests (breaker s))%Z ∧
     TotalFailures (counts (breaker s)) = 0%Z).
Proof.
  intros Hm Hn Hr. destruct (reachable_inv _ _ _ _ Hm Hn Hr) as [Hwf _ _ Hho].
  split; [done|]. intros Hs. specialize (Hho Hs).
  destruct (wf_half_open _ Hwf Hs) as (? & ? & ? & ?). rewrite <- Hho. done.
Qed.

(** ** State transitions *)

(** The edges of the state machine. *)
Inductive edge : State → State → Prop :=
| edge_trip : edge StateClosed StateOpen
| edge_probe : edge StateOpen StateHalfOpen
| edge_recover : edge StateHalfOpen StateClosed
| edge_relapse : edge StateHalfOpen StateOpen.

(** [path nm s tr s']: the reported transitions [tr] lead from [s] to [s']. *)
Inductive path (nm : string) : State → list transition → State → Prop :=
| path_nil s : path nm s [] s
| path_cons s s' tr s'' : edge s s' → path nm s' tr s'' → path nm s ((nm, s, s') :: tr) s''.

Lemma path_app nm s tr s' tr' s'' :
  path nm s tr s' → path nm s' tr' s'' → path nm s (tr ++ tr') s''.
Proof. induction 1; simpl; [done|]. intros. constructor; auto. Qed.

Lemma setState_path st now cb :
  onStateChange cb = true → (state cb = st ∨ edge (state cb) st) →
  path (name cb) (state cb) (setState st now cb).2 (state (setState st now cb).1).
Proof.
  intros Hcb Hor. rewrite setState_state. unfold setState.
  destruct (decide (state cb = st)) as [->|Hne]; [constructor|].
  simpl. rewrite Hcb. destruct Hor as [|He]; [done|]. by repeat constructor.
Qed.

Lemma currentState_path now cb :
  onStateChange cb = true →
  path (name cb) (state cb) (currentState now cb).2 (state (currentState now cb).1).
Proof.
  intros Hcb. unfold currentState. destruct (state cb) eqn:Hs; simpl.
  - case_match; simpl; rewrite Hs; constructor.
  - case_match; [|simpl; rewrite Hs; constructor].
    rewrite <- Hs at 1. apply setState_path; [done|]. rewrite Hs. right. constructor.
  - rewrite Hs. constructor.
Qed.

Lemma afterRequest_path before ok now cb :
  onStateChange cb = true →
  path (name cb) (state cb) (afterRequest before ok now cb).2
    (state (afterRequest before ok now cb).1).
Proof.
  intros Hcb. pose proof (currentState_path now cb Hcb) as H1.
  pose proof (currentState_config now cb) as (Hnm & _ & _ & _ & _ & Hon & _).
  unfold afterRequest. destruct (currentState now cb) as [cb1 tr1]. simpl in *.
  case_decide; [done|].
  assert (H2 : ∀ cb2 tr2,
    (if ok then onSuccess (state cb1) now cb1 else onFailure (state cb1) now cb1) = (cb2, tr2) →
    path (name cb) (state cb1) tr2 (state cb2)).
  { intros cb2 tr2. rewrite <- Hnm. rewrite onSuccess_cases, onFailure_cases.
    destruct ok; case_decide as Hd; try (intros [= <- <-]; constructor).
    - intros Heq. destruct Hd as [Hs _]. set (cb3 := set_counts _ _) in Heq.
      change (state cb1) with (state cb3). change (name cb1) with (name cb3).
      replace tr2 with (setState StateClosed now cb3).2 by by rewrite Heq.
      replace cb2 with (setState StateClosed now cb3).1 by by rewrite Heq.
      apply setState_path; [by simpl; rewrite Hon|]. right. simpl. rewrite Hs. constructor.
    - intros Heq. set (cb3 := set_counts _ _) in Heq.
      change (state cb1) with (state cb3). change (name cb1) with (name cb3).
      replace tr2 with (setState StateOpen now cb3).2 by by rewrite Heq.
      replace cb2 with (setState StateOpen now cb3).1 by by rewrite Heq.
      apply setState_path; [by simpl; rewrite Hon|]. right. simpl.
      destruct Hd as [->|[-> _]]; constructor. }
  destruct (if ok then _ else _) as [cb2 tr2]. simpl. eapply path_app; eauto.
Qed.

(** A critical section of the breaker, and a sequence of them. *)
Inductive op : Type :=
| OpBegin (now : Z)
| OpEnd (gen : Z) (ok : bool) (now : Z).

Definition run_op (o : op) (cb : CircuitBreaker) : CircuitBreaker * list transition :=
  match o with
  | OpBegin now => (beforeRequest now cb).1
  | OpEnd gen ok now => afterRequest gen ok now cb
  end.

Fixpoint run_ops (ops : list op) (cb : CircuitBreaker) : CircuitBreaker * list transition :=
  match ops with
  | [] => (cb, [])
  | o :: ops =>
      let '(cb, tr) := run_op o cb in
      let '(cb, tr') := run_ops ops cb in
      (cb, tr ++ tr')
  end.

Lemma beforeRequest_state now cb :
  (beforeRequest now cb).1.2 = (currentState now cb).2 ∧
  state (beforeRequest now cb).1.1 = state (currentState now cb).1 ∧
  same_config (currentState now cb).1 (beforeRequest now cb).1.1.
Proof.
  unfold beforeRequest. destruct (currentState now cb) as [cb1 tr1].
  repeat case_decide; done.
Qed.

Lemma same_config_trans cb1 cb2 cb3 :
  same_config cb1 cb2 → same_config cb2 cb3 → same_config cb1 cb3.
Proof. unfold same_config. intuition congruence. Qed.

Lemma afterRequest_config before ok now cb : same_config cb (afterRequest before ok now cb).1.
Proof.
  unfold afterRequest. pose proof (currentState_config now cb) as H1.
  destruct (currentState now cb) as [cb1 tr1]. simpl in H1. case_decide; [done|].
  eapply same_config_trans; [exact H1|].
  assert (H2 : same_config cb1
    (if ok then onSuccess (state cb1) now cb1 else onFailure (state cb1) now cb1).1).
  { rewrite onSuccess_cases, onFailure_cases.
    destruct ok; case_decide; try done; (eapply same_config_trans; [|apply setState_config]); done. }
  by destruct (if ok then _ else _).
Qed.

Lemma run_op_config o cb : same_config cb (run_op o cb).1.
Proof.
  destruct o as [now|]; simpl; [|apply afterRequest_config].
  destruct (beforeRequest_state now cb) as (_ & _ & H).
  eapply same_config_trans; [apply currentState_config|exact H].
Qed.

Lemma run_op_path o cb :
  onStateChange cb = true →
  path (name cb) (state cb) (run_op o cb).2 (state (run_op o cb).1).
Proof.
  intros H. destruct o as [now|]; simpl; [|by apply afterRequest_path].
  destruct (beforeRequest_state now cb) as (-> & -> & _). by apply currentState_path.
Qed.

(** C6: whatever the calls, their order and the clock, the transitions
    reported to [OnStateChange] form one path of the documented state machine
    (closed to open, open to half-open, half-open to closed or open) from the
    initial to the final state: no report is missing, repeated or illegal,
    and the configuration never changes. *)
Theorem transitions_form_path ops cb :
  onStateChange cb = true →
  path (name cb) (state cb) (run_ops ops cb).2 (state (run_ops ops cb).1) ∧
  same_config cb (run_ops ops cb).1.
Proof.
  revert cb. induction ops as [|o ops IH]; intros cb Hcb; simpl.
  { split; [constructor|apply same_config_refl]. }
  pose proof (run_op_path o cb Hcb) as H1. pose proof (run_op_config o cb) as H2.
  destruct (run_op o cb) as [cb1 tr1]. simpl in *.
  destruct (IH cb1) as [H3 H4].
  { by destruct H2 as (_ & _ & _ & _ & _ & -> & _). }
  destruct (run_ops ops cb1) as [cb2 tr2]. simpl in *.
  split; [|by eapply same_config_trans].
  eapply path_app; [exact H1|]. destruct H2 as (<- & _). done.
Qed.

(** ** Recovery *)

(** Successive calls of [Execute], each with a function that succeeds. *)
Fixpoint succeed_at (ts : list Z) (cb : CircuitBreaker) : CircuitBreaker * list bool :=
  match ts with
  | [] => (cb, [])
  | t :: ts =>
      let '(cb, _, ran, _) := Execute (T := unit) t t t (FnRet None None) cb in
      let '(cb, rans) := succeed_at ts cb in
      (cb, ran :: rans)
  end.

(** [k] probes of a half-open breaker have succeeded, none is in flight. *)
Definition probed (k : Z) (cb : CircuitBreaker) : Prop :=
  breaker_wf cb ∧ isSuccessful cb None = true ∧ state cb = StateHalfOpen ∧
  Requests (counts cb) = k ∧ ConsecutiveSuccesses (counts cb) = k.

Lemma Execute_success {T} t (cb : CircuitBreaker) cb1 tr1 gen :
  beforeRequest t cb = (cb1, tr1, (gen, None)) →
  let '(cb', _, ran, out) := Execute (T := T) t t t (FnRet None None) cb in
  cb' = (afterRequest gen (isSuccessful cb1 None) t cb1).1 ∧ ran = true ∧ out = Ret (None, None).
Proof.
  intros Hb. unfold Execute. rewrite Hb. by destruct (afterRequest _ _ _ _).
Qed.

Lemma afterRequest_half_open now cb :
  state cb = StateHalfOpen →
  afterRequest (generation cb) true now cb = onSuccess StateHalfOpen now cb.
Proof.
  intros Hs. unfold afterRequest, currentState. rewrite Hs.
  rewrite decide_False by (intros Hx; by apply Hx). rewrite Hs. by destruct (onSuccess _ _ _).
Qed.

Lemma probe_step t cb k :
  probed k cb →
  let '(cb', _, ran, out) := Execute (T := unit) t t t (FnRet None None) cb in
  ran = true ∧ out = Ret (None, None) ∧
  if decide (k + 1 < maxRequests cb)%Z then probed (k + 1) cb' ∧ maxRequests cb' = maxRequests cb
  else state cb' = StateClosed.
Proof.
  intros (Hwf & Hok & Hs & Hr & Hc). pose proof (wf_max _ Hwf).
  destruct (wf_half_open _ Hwf Hs) as (_ & Hf & Hcs & Hlt).
  destruct (wf_counts _ Hwf) as (Hr32 & Hts32 & Htf32 & Hcs32 & Hcf32). unfold in_u32 in *.
  set (cb1 := set_counts cb (MkCounts (k + 1) (TotalSuccesses (counts cb)) (TotalFailures (counts cb))
     (ConsecutiveSuccesses (counts cb)) (ConsecutiveFailures (counts cb)))).
  assert (Hb : beforeRequest t cb = (cb1, [], (generation cb, None))).
  { unfold beforeRequest, currentState. rewrite Hs.
    rewrite decide_False by congruence. rewrite decide_False by (intros [_ ?]; lia).
    rewrite Hr, u32_id by in_range. done. }
  pose proof (Execute_success (T := unit) t cb cb1 [] (generation cb) Hb) as HE.
  destruct (Execute _ _ _ _ _) as [[[cb' tr'] ran] out]. destruct HE as (-> & -> & ->).
  split; [done|]. split; [done|].
  change (generation cb) with (generation cb1). change (isSuccessful cb1) with (isSuccessful cb).
  rewrite Hok, afterRequest_half_open, onSuccess_cases by done.
  simpl. rewrite !u32_id by in_range.
  destruct (decide (k + 1 < maxRequests cb)%Z).
  - rewrite decide_False by (rewrite Hc; intuition lia). simpl. split; [|done].
    unfold probed. simpl. rewrite Hc. split; [|done].
    destruct Hwf. split; simpl; try done.
    + apply counts_wf_intro; unfold in_u32; lia.
    + intros _. lia.
  - rewrite decide_True by (rewrite Hc; split; [done|lia]).
    pose proof (setState_state StateClosed t) as HS.
    match goal with |- context [setState StateClosed t ?c] => specialize (HS c) end.
    destruct (setState _ _ _). done.
Qed.

Lemma probes_close ts cb k :
  probed k cb → (k < maxRequests cb)%Z → length ts = Z.to_nat (maxRequests cb - k) →
  state (succeed_at ts cb).1 = StateClosed ∧ (succeed_at ts cb).2 = replicate (length ts) true.
Proof.
  revert cb k. induction ts as [|t ts IH]; intros cb k Hp Hk Hlen; simpl in Hlen; [lia|].
  pose proof (probe_step t cb k Hp) as H. simpl.
  destruct (Execute _ _ _ _ _) as [[[cb' tr'] ran] out]. destruct H as (-> & _ & H).
  case_decide.
  - destruct H as [Hp' Hm]. destruct (IH cb' (k + 1)%Z Hp') as [H1 H2]; [lia| |].
    { rewrite Hm. lia. }
    destruct (succeed_at ts cb'). simpl in *. by rewrite H1, H2.
  - assert (ts = []) as -> by (destruct ts; [done|simpl in Hlen; lia]). done.
Qed.

(** The first request after the timeout makes an open breaker half-open. *)
Lemma open_half_open now cb :
  breaker_wf cb → state cb = StateOpen → (expiry cb < now)%Z →
  let cb1 := (currentState now cb).1 in
  breaker_wf cb1 ∧ state cb1 = StateHalfOpen ∧ counts cb1 = zero_counts ∧
  same_config cb cb1 ∧ Execute (T := unit) now now now (FnRet None None) cb =
    let '(cb', tr, ran, out) := Execute now now now (FnRet None None) cb1 in
    (cb', (currentState now cb).2 ++ tr, ran, out).
Proof.
  intros Hwf Hs Hexp. pose proof (currentState_wf now cb Hwf) as Hwf1.
  pose proof (currentState_config now cb) as Hc1. simpl.
  assert (Hst : currentState now cb = setState StateHalfOpen now cb).
  { unfold currentState, GoTime.Before. rewrite Hs. by rewrite (proj2 (Z.ltb_lt _ _) Hexp). }
  rewrite Hst in *. split; [done|]. rewrite setState_state.
  destruct (setState_new StateHalfOpen now cb) as [_ ->]; [congruence|].
  split; [done|]. split; [done|]. split; [done|].
  assert (Hb : beforeRequest now cb =
    let '(cb', tr, r) := beforeRequest now (setState StateHalfOpen now cb).1 in
    (cb', (setState StateHalfOpen now cb).2 ++ tr, r)).
  { unfold beforeRequest at 1. rewrite Hst.
    pose proof (setState_state StateHalfOpen now cb) as Hs1.
    destruct (setState StateHalfOpen now cb) as [cb1 tr1]. simpl in Hs1.
    unfold beforeRequest, currentState. cbn [fst snd]. rewrite Hs1.
    rewrite Hs1. repeat case_decide; simpl; rewrite ?app_nil_r; try done; congruence. }
  unfold Execute. rewrite Hb.
  destruct (beforeRequest now (setState _ _ _).1) as [[cb2 tr2] [gen [e|]]]; [done|].
  destruct (afterRequest _ _ _ _). by rewrite <- app_assoc.
Qed.

(** C7: an open breaker whose timeout has expired recovers: the next
    [maxRequests] calls that succeed are all let through and close it. *)
Theorem open_breaker_recovers ts cb :
  breaker_wf cb → state cb = StateOpen → isSuccessful cb None = true →
  length ts = Z.to_nat (maxRequests cb) → Forall (λ t, expiry cb < t)%Z ts →
  state (succeed_at ts cb).1 = StateClosed ∧ (succeed_at ts cb).2 = replicate (length ts) true.
Proof.
  intros Hwf Hs Hok Hlen Hts. pose proof (wf_max _ Hwf).
  destruct ts as [|t ts]; [simpl in Hlen; lia|].
  apply Forall_cons in Hts as [Ht _].
  destruct (open_half_open t cb Hwf Hs Ht) as (Hwf1 & Hs1 & Hc1 & Hcf & HE).
  destruct Hcf as (_ & Hm & _ & _ & _ & _ & Hi & _).
  assert (Hp : probed 0 (currentState t cb).1).
  { split; [done|]. rewrite Hi, Hc1. done. }
  destruct (probes_close (t :: ts) _ 0 Hp) as [H1 H2]; [lia|rewrite Hm; rewrite Hlen; f_equal; lia|].
  cbn [succeed_at] in *. rewrite HE.
  destruct (Execute t t t (FnRet None None) (currentState t cb).1) as [[[cb' tr] ran] out].
  by destruct (succeed_at ts cb').
Qed.

(** ** Tripping *)

(** The counts after one more failed request. *)
Definition failed_counts (c : Counts) : Counts :=
  MkCounts (u32 (Requests c + 1)) (TotalSuccesses c) (u32 (TotalFailures c + 1))
    0 (u32 (ConsecutiveFailures c + 1)).

Lemma open_refuses {T} t t2 t3 (fn : fn_outcome T) cb :
  state cb = StateOpen → (t <= expiry cb)%Z → fallback cb = None →
  Execute t t2 t3 fn cb = (cb, [], false, Ret (None, Some ErrCircuitBreakerOpen)).
Proof.
  intros Hs Ht Hf. unfold Execute, beforeRequest, currentState, GoTime.Before.
  rewrite Hs, (proj2 (Z.ltb_ge _ _)) by done. rewrite decide_True by done. by rewrite Hf.
Qed.

Lemma closed_stays t cb :
  state cb = StateClosed → (t <= expiry cb)%Z → currentState t cb = (cb, []).
Proof.
  intros Hs Ht. unfold currentState, GoTime.Before.
  by rewrite Hs, (proj2 (Z.ltb_ge _ _)), andb_false_r by done.
Qed.

Lemma afterRequest_failure t cb :
  state cb = StateClosed → (t <= expiry cb)%Z →
  afterRequest (generation cb) false t cb = onFailure StateClosed t cb.
Proof.
  intros Hs Ht. unfold afterRequest. rewrite closed_stays by done.
  rewrite decide_False by (intros Hx; by apply Hx). rewrite Hs. by destruct (onFailure _ _ _).
Qed.

Lemma beforeRequest_closed t cb :
  state cb = StateClosed → (t <= expiry cb)%Z →
  beforeRequest t cb =
    (set_counts cb (MkCounts (u32 (Requests (counts cb) + 1)) (TotalSuccesses (counts cb))
       (TotalFailures (counts cb)) (ConsecutiveSuccesses (counts cb))
       (ConsecutiveFailures (counts cb))), [], (generation cb, None)).
Proof.
  intros Hs Ht. unfold beforeRequest. rewrite closed_stays by done.
  rewrite decide_False by congruence. rewrite decide_False by (rewrite Hs; naive_solver). done.
Qed.

(** C8: a failing call of a closed breaker (within its counting interval) is
    run and its error returned; the breaker opens exactly when [ReadyToTrip]
    accepts the updated counts, and from then on every call until the timeout
    is over is refused with [ErrCircuitBreakerOpen], without running the
    function and without changing the breaker. *)
Theorem closed_trips_and_fails_fast {T} t1 t2 t3 (r : option T) e cb :
  state cb = StateClosed → (t1 <= expiry cb)%Z → (t2 <= expiry cb)%Z →
  isSuccessful cb (Some e) = false → fallback cb = None → onStateChange cb = true →
  ∃ cb' tr, Execute t1 t2 t3 (FnRet r (Some e)) cb = (cb', tr, true, Ret (r, Some e)) ∧
  if readyToTrip cb (failed_counts (counts cb)) then
    state cb' = StateOpen ∧ tr = [(name cb, StateClosed, StateOpen)] ∧
    ∀ (fn : fn_outcome T) t u v, (t <= t2 + timeout cb)%Z →
      Execute t u v fn cb' = (cb', [], false, Ret (None, Some ErrCircuitBreakerOpen))
  else state cb' = StateClosed ∧ tr = [] ∧ counts cb' = failed_counts (counts cb).
Proof.
  intros Hs Ht1 Ht2 Hi Hf Hon. unfold Execute at 1. rewrite beforeRequest_closed by done.
  set (cb1 := set_counts cb _). change (isSuccessful cb1) with (isSuccessful cb). rewrite Hi.
  change (generation cb) with (generation cb1). rewrite afterRequest_failure, onFailure_cases by done.
  fold (failed_counts (counts cb)).
  change (MkCounts (Requests (counts cb1)) _ _ _ _) with (failed_counts (counts cb)).
  change (readyToTrip cb1) with (readyToTrip cb).
  change (counts (set_counts cb1 ?c)) with c.
  destruct (readyToTrip cb (failed_counts (counts cb))) eqn:Hrt.
  - rewrite decide_True by naive_solver. unfold setState. simpl. rewrite Hs.
    rewrite decide_False by done. simpl. rewrite Hf, Hon.
    eexists _, _. split; [done|]. split; [done|]. split; [done|].
    intros fn t u v Ht. by apply open_refuses.
  - rewrite decide_False by naive_solver. simpl. rewrite Hf.
    eexists _, _. split; [done|]. done.
Qed.

(** A fallback that panics makes the deferred function record the request
    a second time: one admitted request adds two failures to the counts, so
    a closed breaker trips after half as many failing requests. *)
Theorem panicking_fallback_counts_twice {T} t1 t2 t3 (r : option T) e m a f cb :
  state cb = StateClosed → (t1 <= expiry cb)%Z → (t2 <= expiry cb)%Z → (t3 <= expiry cb)%Z →
  isSuccessful cb (Some e) = false → fallback cb = Some f → f e = Panic m a →
  (∀ c, readyToTrip cb c = false) →
  ∃ cb', Execute t1 t2 t3 (FnRet r (Some e)) cb = (cb', [], true, Panic m a) ∧
    Requests (counts cb') = u32 (Requests (counts cb) + 1) ∧
    TotalFailures (counts cb') = u32 (TotalFailures (counts cb) + 2).
Proof.
  intros Hs Ht1 Ht2 Ht3 Hi Hf Hfe Hrt. unfold Execute. rewrite beforeRequest_closed by done.
  set (cb1 := set_counts cb _). change (isSuccessful cb1) with (isSuccessful cb). rewrite Hi.
  change (generation cb) with (generation cb1). rewrite afterRequest_failure, onFailure_cases by done.
  rewrite decide_False by (change (readyToTrip cb1) with (readyToTrip cb); rewrite Hrt; naive_solver).
  set (cb2 := set_counts cb1 _). change (fallback cb2) with (fallback cb). rewrite Hf, Hfe.
  change (generation cb1) with (generation cb2). rewrite afterRequest_failure, onFailure_cases by done.
  rewrite decide_False by (change (readyToTrip cb2) with (readyToTrip cb); rewrite Hrt; naive_solver).
  eexists. split; [done|]. split; [done|]. simpl.
  unfold u32. rewrite Zplus_mod_idemp_l. f_equal. lia.
Qed.

(** ** Group, health and middleware *)

Lemma check_open_None states range :
  check_open states range = None ↔ ∀ nm, nm ∈ range → states !! nm ≠ Some StateOpen.
Proof.
  induction range as [|nm range IH]; simpl.
  - split; [|done]. intros _ nm Hnm. by apply not_elem_of_nil in Hnm.
  - split.
    + intros H x [->|Hx]%elem_of_cons; [by intros Hy; rewrite Hy in H|].
      apply IH; [|done]. by destruct (states !! nm) as [[]|].
    + intros H. assert (check_open states range = None).
      { apply IH. intros x Hx. apply H. by right. }
      specialize (H nm (list_elem_of_here _ _)). by destruct (states !! nm) as [[]|].
Qed.

(** The health check passes exactly when no breaker of the group is open,
    in whatever order the map of states is enumerated; otherwise the error
    names an open breaker. *)
Lemma CheckHealth_correct g range :
  range_of (Group_States g) range →
  (CheckHealth g range = None ↔ ∀ nm cb, Group_Get nm g = Some cb → state cb ≠ StateOpen) ∧
  (∀ e, CheckHealth g range = Some e →
     ∃ nm cb, Group_Get nm g = Some cb ∧ state cb = StateOpen ∧
       e = Errorf "circuit breaker %s is open" [nm]).
Proof.
  intros Hr. unfold CheckHealth, Group_Get. split.
  - rewrite check_open_None. unfold Group_States. split.
    + intros H nm cb Hcb Hs. apply (H nm).
      * rewrite Hr. apply list_elem_of_fmap. exists (nm, state cb). split; [done|].
        apply elem_of_map_to_list. unfold Group_States. by rewrite lookup_fmap, Hcb.
      * by rewrite lookup_fmap, Hcb; simpl; rewrite Hs.
    + intros H nm _. rewrite lookup_fmap. destruct (g !! nm) as [cb|] eqn:Hcb; [|done].
      simpl. intros [= Hs]. by apply (H nm cb).
  - intros e. clear Hr. induction range as [|nm range IH]; simpl; [done|].
    unfold Group_States in *. rewrite lookup_fmap. destruct (g !! nm) as [cb|] eqn:Hcb; simpl; [|done].
    destruct (state cb) eqn:Hs; [done| |done]. intros [= <-]. by exists nm, cb.
Qed.

(** The middleware serves a request directly when the group has no breaker
    of that name; otherwise it runs the handler unless the breaker refuses,
    answers 503 when the breaker is open and 429 when its half-open quota is
    used up, and no other breaker of the group changes. *)
Theorem Wrap_correct nm t1 t2 t3 g :
  (Group_Get nm g = None → Wrap nm t1 t2 t3 None g = (g, true, Ret None)) ∧
  (∀ cb, Group_Get nm g = Some cb → fallback cb = None →
    let '(g', served, out) := Wrap nm t1 t2 t3 None g in
    match (beforeRequest t1 cb).2.2 with
    | None => served = true ∧ out = Ret None
    | Some e => served = false ∧
        out = Ret (Some (if decide (state (currentState t1 cb).1 = StateOpen) then 503 else 429)%Z) ∧
        Group_Get nm g' = Some (currentState t1 cb).1
    end ∧ ∀ nm', nm' ≠ nm → Group_Get nm' g' = Group_Get nm' g).
Proof.
  unfold Wrap, Group_Execute. split; [by intros ->|].
  intros cb Hcb Hf. rewrite Hcb. unfold Execute, beforeRequest.
  pose proof (currentState_config t1 cb) as (_ & _ & _ & _ & _ & _ & _ & Hfb).
  destruct (currentState t1 cb) as [cb1 tr1]. simpl in Hfb. unfold Group_Get.
  destruct (decide (state cb1 = StateOpen)) as [Ho|Ho].
  { simpl. rewrite Hfb, Hf, lookup_insert_eq, decide_True by done.
    split; [done|]. intros. by apply lookup_insert_ne. }
  destruct (decide (_ ∧ _)).
  { simpl. rewrite Hfb, Hf, lookup_insert_eq, decide_False by done.
    split; [done|]. intros. by apply lookup_insert_ne. }
  simpl. destruct (afterRequest _ _ _ _) as [cb2 tr2].
  split; [done|]. intros. by apply lookup_insert_ne.
Qed.

(** ** Concrete instances *)

Module BreakerExample.

Definition two_probes : Config :=
  MkConfig 2 10 20 (λ c, 0 <? ConsecutiveFailures c)%Z true
    (λ err, match err with None => true | Some _ => false end) None.

Definition cb0 : CircuitBreaker := NewCircuitBreaker "svc" two_probes 100.

(** [cb0] after one failing call at time 101: open until 121. *)
Definition cb_open : CircuitBreaker := (afterRequest 1 false 101 (beforeRequest 101 cb0).1.1).1.

Lemma half_open_admission_bound_witness :
  ∃ s, state (breaker s) = StateHalfOpen ∧ current_inflight s = 1 ∧
    (Z.of_nat (current_inflight s) + TotalSuccesses (counts (breaker s)) <= 2)%Z.
Proof.
  set (s1 := MkSystem (beforeRequest 101 cb0).1.1 [1%Z]).
  set (s2 := MkSystem cb_open []).
  set (s3 := MkSystem (beforeRequest 122 cb_open).1.1 [3%Z]).
  assert (Hr : reachable "svc" two_probes 3 s3).
  { apply reach_step with s2; [apply reach_step with s1; [apply reach_step with (MkSystem cb0 [])|]|].
    - apply reach_new.
    - eapply (step_admit _ _ 101). reflexivity.
    - eapply (step_finish _ [] 1 [] 101 false). reflexivity.
    - eapply (step_admit _ _ 122). reflexivity. }
  exists s3. split; [reflexivity|]. split; [reflexivity|].
  destruct (half_open_admission_bound "svc" two_probes 3 s3) as [_ H].
  - unfold in_u32. simpl. lia.
  - lia.
  - exact Hr.
  - destruct H as (_ & Hb & _); [reflexivity|]. exact Hb.
Defined.

Lemma transitions_form_path_witness :
  path "svc" StateClosed
    [("svc", StateClosed, StateOpen); ("svc", StateOpen, StateHalfOpen)] StateHalfOpen.
Proof.
  apply (transitions_form_path [OpBegin 101; OpEnd 1 false 101; OpBegin 122] cb0).
  reflexivity.
Defined.

Lemma open_breaker_recovers_witness :
  state (succeed_at [122; 123]%Z cb_open).1 = StateClosed.
Proof.
  apply (open_breaker_recovers [122; 123]%Z cb_open).
  - apply toNewGeneration_wf; simpl; lia.
  - reflexivity.
  - reflexivity.
  - reflexivity.
  - repeat constructor.
Defined.

Lemma closed_trips_and_fails_fast_witness :
  ∃ cb' tr, Execute (T := unit) 101 101 101 (FnRet None (Some (Errorf "boom" []))) cb0
    = (cb', tr, true, Ret (None, Some (Errorf "boom" []))) ∧ state cb' = StateOpen.
Proof.
  destruct (closed_trips_and_fails_fast (T := unit) 101 101 101 None (Errorf "boom" []) cb0)
    as (cb' & tr & H1 & H2).
  - reflexivity.
  - unfold cb0. simpl. unfold GoTime.Add. lia.
  - unfold cb0. simpl. unfold GoTime.Add. lia.
  - reflexivity.
  - reflexivity.
  - reflexivity.
  - exists cb', tr. split; [exact H1|]. apply H2.
Defined.

Definition panicky : Config :=
  MkConfig 1 10 20 (λ _, false) false (λ err, match err with None => true | Some _ => false end)
    (Some (λ _, Panic "fallback" [])).

Lemma panicking_fallback_counts_twice_witness :
  ∃ cb', Execute (T := unit) 101 101 101 (FnRet None (Some (Errorf "boom" [])))
      (NewCircuitBreaker "svc" panicky 100) = (cb', [], true, Panic "fallback" []) ∧
    Requests (counts cb') = 1%Z ∧ TotalFailures (counts cb') = 2%Z.
Proof.
  eapply (panicking_fallback_counts_twice (T := unit) 101 101 101 None (Errorf "boom" [])
    "fallback" [] (λ _, Panic "fallback" []) (NewCircuitBreaker "svc" panicky 100));
    try reflexivity; simpl; unfold GoTime.Add; lia.
Defined.

End BreakerExample.
