(* ===== verification/LoadBalancer.v ===== *)
(** * plugins/loadbalancer and the gateway's adapter

    Models [src/plugins/loadbalancer/{loadbalancer,factory,strategies}.go] and
    [src/plugins/gateway/loadbalancer_adapter.go].  Targets are shared
    mutable objects: a [*Target] is an index into a [heap], so that the
    connection counts the least-connections strategy updates are seen through
    every copy of a target slice.  Random draws of [math/rand] and clock
    readings are arguments; logging has no effect on the state and is left
    out (so [Options.Logger] is too). *)

From S2P Require Import Prelude.

Import GoError GoInt GoRand.

(** ** Data *)

Record Target := MkTarget {
  Address : string;
  Weight : Z;                              (* int *)
  Healthy : bool;
  ConnectionCount : Z;                     (* int32, updated atomically *)
  Metadata : option (gmap string string);  (* nil map: [None] *)
  LastUpdated : Z
}.

Definition ErrLoadBalancerFailed : error := Sentinel "loadbalancer.ErrLoadBalancerFailed".
Definition ErrNoTargetsAvailable : error := Sentinel "loadbalancer.ErrNoTargetsAvailable".
Definition ErrTargetNotFound : error := Sentinel "loadbalancer.ErrTargetNotFound".

Definition NewTarget (address : string) (now : Z) : Target :=
  MkTarget address 1 true 0 (Some ∅) now.

Definition SetWeight (weight now : Z) (t : Target) : Target :=
  MkTarget (Address t) weight (Healthy t) (ConnectionCount t) (Metadata t) now.

Definition SetHealthy (healthy : bool) (now : Z) (t : Target) : Target :=
  MkTarget (Address t) (Weight t) healthy (ConnectionCount t) (Metadata t) now.

Definition SetMetadata (key value : string) (now : Z) (t : Target) : Target :=
  let m := match Metadata t with None => ∅ | Some m => m end in
  MkTarget (Address t) (Weight t) (Healthy t) (ConnectionCount t) (Some (<[key := value]> m)) now.

(** Strategies are strings in the source. *)
Definition StrategyRoundRobin : string := "round_robin".
Definition StrategyRandom : string := "random".
Definition StrategyWeighted : string := "weighted".
Definition StrategyLeastConnections : string := "least_connections".

Record Options := MkOptions {
  opt_Strategy : string;
  EnableMetrics : bool;
  EnableHealthCheck : bool;
  UpdateInterval : Z
}.

Definition DefaultOptions : Options :=
  MkOptions StrategyRoundRobin false true (30 * GoTime.Second).

Definition Option : Type := Options → Options.

Definition WithStrategy (s : string) : Option := λ o,
  MkOptions s (EnableMetrics o) (EnableHealthCheck o) (UpdateInterval o).
Definition WithMetrics (enable : bool) : Option := λ o,
  MkOptions (opt_Strategy o) enable (EnableHealthCheck o) (UpdateInterval o).
Definition WithHealthCheck (enable : bool) : Option := λ o,
  MkOptions (opt_Strategy o) (EnableMetrics o) enable (UpdateInterval o).
Definition WithUpdateInterval (interval : Z) : Option := λ o,
  MkOptions (opt_Strategy o) (EnableMetrics o) (EnableHealthCheck o) interval.

(** The factory is its options. *)
Definition NewLoadBalancerFactory (opts : list Option) : Options :=
  fold_left (λ o opt, opt o) opts DefaultOptions.

(** The store of targets; a pointer is an index. *)
Abbreviation heap := (list Target).

Definition zero_target : Target := MkTarget "" 0 false 0 None 0.

(** Dereference of a non-nil pointer. *)
Definition deref (h : heap) (l : nat) : Target := default zero_target (h !! l).

(** [atomic.AddInt32(&t.ConnectionCount, d)]. *)
Definition add_connections (d : Z) (l : nat) (h : heap) : heap :=
  let t := deref h l in
  <[l := MkTarget (Address t) (Weight t) (Healthy t) (i32 (ConnectionCount t + d))
           (Metadata t) (LastUpdated t)]> h.

(** [RandomGenerator.Intn] is [GoRand.Intn] of the next draw. *)

(** ** BaseLoadBalancer *)

Record BaseLoadBalancer := MkBase {
  targets : list nat;
  opts : Options;
  closed : bool
}.

Definition NewBaseLoadBalancer (o : Options) : BaseLoadBalancer := MkBase [] o false.

Definition Base_UpdateTargets (ts : list nat) (b : BaseLoadBalancer) :
    BaseLoadBalancer * option error :=
  if closed b then (b, Some ErrLoadBalancerFailed)
  else (MkBase ts (opts b) (closed b), None).

Definition Base_GetTargets (b : BaseLoadBalancer) : list nat := targets b.

Definition Base_Close (b : BaseLoadBalancer) : BaseLoadBalancer * option error :=
  (MkBase [] (opts b) true, None).

Definition GetHealthyTargets (h : heap) (b : BaseLoadBalancer) : list nat :=
  if negb (EnableHealthCheck (opts b)) then targets b
  else filter (λ l, Healthy (deref h l) = true) (targets b).

(** ** The LoadBalancer interface

    Every implementation embeds a [*BaseLoadBalancer], whose [UpdateTargets],
    [GetTargets] and [Close] are promoted: [on_base] applies a method of the
    embedded value. *)

Class LoadBalancer (B : Type) := {
  base : B → BaseLoadBalancer;
  set_base : BaseLoadBalancer → B → B;
  Select : Z → heap → B → heap * B * outcome (result nat)
}.

Definition UpdateTargets `{LoadBalancer B} (ts : list nat) (lb : B) : B * option error :=
  let '(b, e) := Base_UpdateTargets ts (base lb) in (set_base b lb, e).

Definition GetTargets `{LoadBalancer B} (lb : B) : list nat := Base_GetTargets (base lb).

Definition Close `{LoadBalancer B} (lb : B) : B * option error :=
  let '(b, e) := Base_Close (base lb) in (set_base b lb, e).

(** ** The four strategies *)

Record RoundRobinLoadBalancer := MkRR { rr_base : BaseLoadBalancer; current : Z (* uint64 *) }.

Definition NewRoundRobinLoadBalancer (o : Options) : RoundRobinLoadBalancer :=
  MkRR (NewBaseLoadBalancer o) 0.

Definition RoundRobin_Select (draw : Z) (h : heap) (lb : RoundRobinLoadBalancer) :
    heap * RoundRobinLoadBalancer * outcome (result nat) :=
  let ts := GetHealthyTargets h (rr_base lb) in
  if decide (ts = []) then (h, lb, Ret (Err ErrNoTargetsAvailable))
  else
    let cur := u64 (current lb + 1) in
    let index := u64 (cur - 1) in
    match ts !! Z.to_nat (index mod Z.of_nat (length ts)) with
    | Some selected => (h, MkRR (rr_base lb) cur, Ret (Ok selected))
    | None => (h, MkRR (rr_base lb) cur, Panic "index out of range" [])
    end.

#[export] Instance RoundRobin_LoadBalancer : LoadBalancer RoundRobinLoadBalancer := {|
  base := rr_base;
  set_base := λ b lb, MkRR b (current lb);
  Select := RoundRobin_Select
|}.

Record RandomLoadBalancer := MkRandom { random_base : BaseLoadBalancer }.

Definition NewRandomLoadBalancer (o : Options) : RandomLoadBalancer :=
  MkRandom (NewBaseLoadBalancer o).

(** [targets[lb.rand.Intn(len(targets))]]. *)
Definition pick_random (draw : Z) (ts : list nat) : outcome (result nat) :=
  let! index := Intn draw (Z.of_nat (length ts)) in
  match ts !! Z.to_nat index with
  | Some selected => Ret (Ok selected)
  | None => Panic "index out of range" []
  end.

Definition Random_Select (draw : Z) (h : heap) (lb : RandomLoadBalancer) :
    heap * RandomLoadBalancer * outcome (result nat) :=
  let ts := GetHealthyTargets h (random_base lb) in
  if decide (ts = []) then (h, lb, Ret (Err ErrNoTargetsAvailable))
  else (h, lb, pick_random draw ts).

#[export] Instance Random_LoadBalancer : LoadBalancer RandomLoadBalancer := {|
  base := random_base;
  set_base := λ b _, MkRandom b;
  Select := Random_Select
|}.

Record WeightedLoadBalancer := MkWeighted { weighted_base : BaseLoadBalancer }.

Definition NewWeightedLoadBalancer (o : Options) : WeightedLoadBalancer :=
  MkWeighted (NewBaseLoadBalancer o).

(** The loop that sums the positive weights (int addition wraps). *)
Definition totalWeight (h : heap) (ts : list nat) : Z :=
  fold_left (λ total l,
    if (0 <? Weight (deref h l))%Z then i64 (total + Weight (deref h l)) else total) ts 0%Z.

(** The selection loop. *)
Fixpoint pick_weighted (h : heap) (random currentWeight : Z) (ts : list nat) : option nat :=
  match ts with
  | [] => None
  | l :: ts =>
      if (Weight (deref h l) <=? 0)%Z then pick_weighted h random currentWeight ts
      else
        let currentWeight := i64 (currentWeight + Weight (deref h l)) in
        if (random <? currentWeight)%Z then Some l
        else pick_weighted h random currentWeight ts
  end.

Definition Weighted_Select (draw : Z) (h : heap) (lb : WeightedLoadBalancer) :
    heap * WeightedLoadBalancer * outcome (result nat) :=
  let ts := GetHealthyTargets h (weighted_base lb) in
  if decide (ts = []) then (h, lb, Ret (Err ErrNoTargetsAvailable))
  else if (totalWeight h ts =? 0)%Z then (h, lb, pick_random draw ts)
  else
    (h, lb,
     let! random := Intn draw (totalWeight h ts) in
     match pick_weighted h random 0 ts with
     | Some l => Ret (Ok l)
     | None =>
         match ts !! 0 with
         | Some l => Ret (Ok l)
         | None => Panic "index out of range" []
         end
     end).

#[export] Instance Weighted_LoadBalancer : LoadBalancer WeightedLoadBalancer := {|
  base := weighted_base;
  set_base := λ b _, MkWeighted b;
  Select := Weighted_Select
|}.

Record LeastConnectionsLoadBalancer := MkLeast { least_base : BaseLoadBalancer }.

Definition NewLeastConnectionsLoadBalancer (o : Options) : LeastConnectionsLoadBalancer :=
  MkLeast (NewBaseLoadBalancer o).

(** The scan of [targets[1:]]. *)
Fixpoint scan_least (h : heap) (selected : nat) (minConnections : Z) (ts : list nat) : nat :=
  match ts with
  | [] => selected
  | l :: ts =>
      let connections := ConnectionCount (deref h l) in
      if (connections <? minConnections)%Z then scan_least h l connections ts
      else scan_least h selected minConnections ts
  end.

Definition LeastConnections_Select (draw : Z) (h : heap) (lb : LeastConnectionsLoadBalancer) :
    heap * LeastConnectionsLoadBalancer * outcome (result nat) :=
  match GetHealthyTargets h (least_base lb) with
  | [] => (h, lb, Ret (Err ErrNoTargetsAvailable))
  | first :: rest =>
      let selected := scan_least h first (ConnectionCount (deref h first)) rest in
      (add_connections 1 selected h, lb, Ret (Ok selected))
  end.

(** The first target with the given address. *)
Definition find_target (h : heap) (address : string) (ts : list nat) : option nat :=
  snd <$> list_find (λ l, Address (deref h l) = address) ts.

Definition ReleaseConnection (address : string) (h : heap) (lb : LeastConnectionsLoadBalancer) :
    heap * option error :=
  match find_target h address (Base_GetTargets (least_base lb)) with
  | Some l => (add_connections (-1) l h, None)
  | None => (h, Some ErrTargetNotFound)
  end.

Definition GetConnectionCount (address : string) (h : heap) (lb : LeastConnectionsLoadBalancer) : Z :=
  match find_target h address (Base_GetTargets (least_base lb)) with
  | Some l => ConnectionCount (deref h l)
  | None => 0
  end.

#[export] Instance LeastConnections_LoadBalancer : LoadBalancer LeastConnectionsLoadBalancer := {|
  base := least_base;
  set_base := λ b _, MkLeast b;
  Select := LeastConnections_Select
|}.

(** ** The factory *)

(** A value of the interface type: one of the four implementations. *)
Inductive AnyLoadBalancer : Type :=
| AnyRoundRobin (lb : RoundRobinLoadBalancer)
| AnyRandom (lb : RandomLoadBalancer)
| AnyWeighted (lb : WeightedLoadBalancer)
| AnyLeastConnections (lb : LeastConnectionsLoadBalancer).

#[export] Instance Any_LoadBalancer : LoadBalancer AnyLoadBalancer := {|
  base lb :=
    match lb with
    | AnyRoundRobin lb => base lb
    | AnyRandom lb => base lb
    | AnyWeighted lb => base lb
    | AnyLeastConnections lb => base lb
    end;
  set_base b lb :=
    match lb with
    | AnyRoundRobin lb => AnyRoundRobin (set_base b lb)
    | AnyRandom lb => AnyRandom (set_base b lb)
    | AnyWeighted lb => AnyWeighted (set_base b lb)
    | AnyLeastConnections lb => AnyLeastConnections (set_base b lb)
    end;
  Select draw h lb :=
    match lb with
    | AnyRoundRobin lb =>
        let '(h, lb, r) := Select draw h lb in (h, AnyRoundRobin lb, r)
    | AnyRandom lb => let '(h, lb, r) := Select draw h lb in (h, AnyRandom lb, r)
    | AnyWeighted lb => let '(h, lb, r) := Select draw h lb in (h, AnyWeighted lb, r)
    | AnyLeastConnections lb =>
        let '(h, lb, r) := Select draw h lb in (h, AnyLeastConnections lb, r)
    end
|}.

Definition Create (factory : Options) (strategy : string) : result AnyLoadBalancer :=
  if decide (strategy = StrategyRoundRobin) then
    Ok (AnyRoundRobin (NewRoundRobinLoadBalancer factory))
  else if decide (strategy = StrategyRandom) then
    Ok (AnyRandom (NewRandomLoadBalancer factory))
  else if decide (strategy = StrategyWeighted) then
    Ok (AnyWeighted (NewWeightedLoadBalancer factory))
  else if decide (strategy = StrategyLeastConnections) then
    Ok (AnyLeastConnections (NewLeastConnectionsLoadBalancer factory))
  else Err (Errorf "unknown load balancer strategy: " [strategy]).

(** ** The gateway's adapter

    [gateway.LoadBalancer] selects among plain address strings; its adapter
    allocates a new [Target] for every address at every call. *)

Definition GatewayErrLoadBalancerFailed : error := Sentinel "gateway.ErrLoadBalancerFailed".

Record LoadBalancerAdapter (B : Type) := MkAdapter { adapter_lb : B; adapter_targets : list string }.
Arguments MkAdapter {B}.
Arguments adapter_lb {B}.
Arguments adapter_targets {B}.

(** The loop that calls [NewTarget] for every address: the new objects are
    appended to the store. *)
Definition alloc_targets (ts : list string) (now : Z) (h : heap) : heap * list nat :=
  (h ++ ((λ a, NewTarget a now) <$> ts), seq (length h) (length ts)).

Section Adapter.
Context {B : Type} `{!LoadBalancer B}.

Definition Adapter_UpdateTargets (ts : list string) (now : Z) (h : heap)
    (a : LoadBalancerAdapter B) : heap * LoadBalancerAdapter B :=
  if decide (ts = []) then (h, a)
  else
    let '(h, lbTargets) := alloc_targets ts now h in
    (h, MkAdapter (UpdateTargets lbTargets (adapter_lb a)).1 ts).

(** The part of [Select] after the emptiness test: wrap the addresses, hand
    them to the balancer and ask it for one. *)
Definition adapter_select_fresh (currentTargets : list string) (draw now : Z) (h : heap)
    (a : LoadBalancerAdapter B) : heap * LoadBalancerAdapter B * outcome (result string) :=
  let '(h, lbTargets) := alloc_targets currentTargets now h in
  let '(lb, err) := UpdateTargets lbTargets (adapter_lb a) in
  let a := MkAdapter lb (adapter_targets a) in
  match err with
  | Some _ => (h, a, Ret (Err GatewayErrLoadBalancerFailed))
  | None =>
      let '(h, lb, r) := Select draw h (adapter_lb a) in
      let a := MkAdapter lb (adapter_targets a) in
      match r with
      | Panic m args => (h, a, Panic m args)
      | Ret (Err e) =>
          (h, a, Ret (Err (if Is e "loadbalancer.ErrNoTargetsAvailable"
                           then GatewayErrLoadBalancerFailed else e)))
      | Ret (Ok l) => (h, a, Ret (Ok (Address (deref h l))))
      end
  end.

Definition Adapter_Select (ts : list string) (draw now : Z) (h : heap)
    (a : LoadBalancerAdapter B) : heap * LoadBalancerAdapter B * outcome (result string) :=
  let '(h, a, currentTargets) :=
    if decide (ts = []) then (h, a, adapter_targets a)
    else let '(h, a) := Adapter_UpdateTargets ts now h a in (h, a, ts) in
  if decide (currentTargets = []) then (h, a, Ret (Err GatewayErrLoadBalancerFailed))
  else adapter_select_fresh currentTargets draw now h a.

Definition Adapter_Close (a : LoadBalancerAdapter B) : LoadBalancerAdapter B * option error :=
  let '(lb, e) := Close (adapter_lb a) in (MkAdapter lb (adapter_targets a), e).

End Adapter.

(** [strings.ToLower] on ASCII letters.  Bytes above 127 are left alone: no
    rune outside ASCII has a lower case that occurs in a strategy name, so the
    comparisons below have the same outcome. *)
Definition lower_ascii (c : Ascii.ascii) : Ascii.ascii :=
  let n := Ascii.nat_of_ascii c in
  if (65 <=? n) && (n <=? 90) then Ascii.ascii_of_nat (n + 32) else c.

Fixpoint ToLower (s : string) : string :=
  match s with
  | String.EmptyString => String.EmptyString
  | String.String c s => String.String (lower_ascii c) (ToLower s)
  end.

Definition NewLoadBalancerAdapter (strategy : string) : LoadBalancerAdapter AnyLoadBalancer :=
  let s := ToLower strategy in
  let lbStrategy :=
    if decide (s = "round_robin") then StrategyRoundRobin
    else if decide (s = "random") then StrategyRandom
    else if decide (s = "weighted") then StrategyWeighted
    else if decide (s = "least_connections") then StrategyLeastConnections
    else StrategyRoundRobin in
  let factory := NewLoadBalancerFactory [] in
  match Create factory lbStrategy with
  | Ok lb => MkAdapter lb []
  | Err _ => MkAdapter (AnyRoundRobin (NewRoundRobinLoadBalancer factory)) []
  end.
