(* ===== verification/LoadBalancerProps.v ===== *)
(** * Load balancing: the interface's laws and the strategies' guarantees

    [LoadBalancerLaws] is what a client of the interface of [LoadBalancer]
    may rely on; the four strategies and the factory's result satisfy it, and
    the gateway's adapter is verified against it. *)

From S2P Require Import Prelude LoadBalancer.

Import GoError GoInt GoRand.

(** ** The laws of the interface *)

(** All pointers are allocated. *)
Definition valid (h : heap) (ts : list nat) : Prop := Forall (λ l, l < length h) ts.

(** The stores differ at most in connection counts. *)
Definition same_shape (h h' : heap) : Prop :=
  length h' = length h ∧
  ∀ l, Address (deref h' l) = Address (deref h l) ∧ Weight (deref h' l) = Weight (deref h l) ∧
       Healthy (deref h' l) = Healthy (deref h l).

Definition pos_weight (h : heap) (l : nat) : Z := Z.max 0 (Weight (deref h l)).

Definition sum_weights (h : heap) (ts : list nat) : Z :=
  foldr (λ l s, pos_weight h l + s)%Z 0%Z ts.

(** The total of the positive weights is an int. *)
Definition weights_fit (h : heap) (ts : list nat) : Prop := (sum_weights h ts < 2 ^ 63)%Z.

Class LoadBalancerLaws (B : Type) `{LoadBalancer B} : Prop := {
  base_set_base b (lb : B) : base (set_base b lb) = b;
  Select_base d h (lb : B) : base (Select d h lb).1.2 = base lb;
  Select_shape d h (lb : B) :
    valid h (targets (base lb)) → same_shape h (Select d h lb).1.1;
  Select_result d h (lb : B) :
    weights_fit h (GetHealthyTargets h (base lb)) →
    (GetHealthyTargets h (base lb) = [] ∧ (Select d h lb).2 = Ret (Err ErrNoTargetsAvailable)) ∨
    (∃ l, l ∈ GetHealthyTargets h (base lb) ∧ (Select d h lb).2 = Ret (Ok l))
}.

Lemma same_shape_refl h : same_shape h h.
Proof. done. Qed.

Lemma deref_add_connections d l l' h :
  l < length h →
  deref (add_connections d l h) l' =
    if decide (l = l') then
      MkTarget (Address (deref h l)) (Weight (deref h l)) (Healthy (deref h l))
        (i32 (ConnectionCount (deref h l) + d)) (Metadata (deref h l)) (LastUpdated (deref h l))
    else deref h l'.
Proof.
  intros Hl. unfold add_connections, deref at 1. rewrite list_lookup_insert.
  destruct (decide (l = l')) as [->|Hne].
  - by rewrite decide_True.
  - rewrite decide_False by tauto. done.
Qed.

Lemma add_connections_shape d l h : l < length h → same_shape h (add_connections d l h).
Proof.
  intros Hl. split; [apply length_insert|]. intros l'.
  rewrite deref_add_connections by done. by case_decide; subst.
Qed.

Lemma GetHealthyTargets_sub h b l : l ∈ GetHealthyTargets h b → l ∈ targets b.
Proof.
  unfold GetHealthyTargets. destruct (negb _); [done|]. by intros [_ ?]%list_elem_of_filter.
Qed.

Lemma GetHealthyTargets_healthy h b l :
  EnableHealthCheck (opts b) = true → l ∈ GetHealthyTargets h b → Healthy (deref h l) = true.
Proof.
  intros Hc. unfold GetHealthyTargets. rewrite Hc. by intros [? _]%list_elem_of_filter.
Qed.

Lemma nth_mod_some {A} (ts : list A) (i : Z) :
  ts ≠ [] → ∃ x, ts !! Z.to_nat (i mod Z.of_nat (length ts)) = Some x ∧ x ∈ ts.
Proof.
  intros Hne. assert (0 < length ts) by (destruct ts; [done|simpl; lia]).
  destruct (lookup_lt_is_Some_2 ts (Z.to_nat (i mod Z.of_nat (length ts)))) as [x Hx].
  - pose proof (Z.mod_pos_bound i (Z.of_nat (length ts))). lia.
  - exists x. split; [done|]. by eapply list_elem_of_lookup_2.
Qed.

Lemma pick_random_ok draw ts :
  ts ≠ [] → ∃ l, l ∈ ts ∧ pick_random draw ts = Ret (Ok l).
Proof.
  intros Hne. unfold pick_random, Intn.
  assert (0 < length ts) by (destruct ts; [done|simpl; lia]).
  zcmp.
  destruct (nth_mod_some ts draw Hne) as (l & -> & Hl). by exists l.
Qed.

#[export] Instance RoundRobin_Laws : LoadBalancerLaws RoundRobinLoadBalancer.
Proof.
  split; [done|..]; intros d h lb; simpl; unfold RoundRobin_Select;
    destruct (decide (GetHealthyTargets h (rr_base lb) = [])) as [He|He]; try done.
  - by case_match.
  - intros _. by case_match.
  - intros _. by left.
  - intros _. right.
    destruct (nth_mod_some _ (u64 (u64 (current lb + 1) - 1)) He) as (l & -> & Hl). by exists l.
Qed.

#[export] Instance Random_Laws : LoadBalancerLaws RandomLoadBalancer.
Proof.
  split; [done|..]; intros d h lb; simpl; unfold Random_Select;
    destruct (decide (GetHealthyTargets h (random_base lb) = [])) as [He|He]; try done.
  - intros _. by left.
  - intros _. right. by apply pick_random_ok.
Qed.

(** ** Weighted selection *)

Lemma pos_weight_nonneg h l : (0 <= pos_weight h l)%Z.
Proof. unfold pos_weight. lia. Qed.

Lemma sum_weights_nonneg h ts : (0 <= sum_weights h ts)%Z.
Proof.
  induction ts as [|l ts IH]; simpl; [done|]. pose proof (pos_weight_nonneg h l). lia.
Qed.

Lemma totalWeight_sum h ts : weights_fit h ts → totalWeight h ts = sum_weights h ts.
Proof.
  intros Hfit. unfold totalWeight.
  assert (Hgen : ∀ acc, (0 <= acc)%Z → (acc + sum_weights h ts < 2 ^ 63)%Z →
    fold_left (λ total l, if (0 <? Weight (deref h l))%Z then i64 (total + Weight (deref h l))
                          else total) ts acc = (acc + sum_weights h ts)%Z).
  { clear Hfit. induction ts as [|l ts IH]; intros acc H0 Hacc; simpl in *; [lia|].
    pose proof (sum_weights_nonneg h ts). unfold pos_weight in *.
    destruct (Z.ltb_spec 0 (Weight (deref h l))).
    - rewrite i64_id by in_range. rewrite IH by lia. lia.
    - rewrite IH by lia. lia. }
  by rewrite Hgen.
Qed.

(** The loop selects the target whose weight interval contains the draw. *)
Lemma pick_weighted_interval h ts random acc :
  (0 <= acc <= random)%Z → (random < acc + sum_weights h ts)%Z →
  (acc + sum_weights h ts < 2 ^ 63)%Z →
  ∃ ts1 l ts2, ts = ts1 ++ l :: ts2 ∧ pick_weighted h random acc ts = Some l ∧
    (acc + sum_weights h ts1 <= random < acc + sum_weights h ts1 + pos_weight h l)%Z.
Proof.
  revert acc. induction ts as [|l ts IH]; intros acc Hacc Hlt Hfit; simpl in *; [lia|].
  pose proof (sum_weights_nonneg h ts).
  destruct (Z.leb_spec (Weight (deref h l)) 0) as [Hw|Hw].
  - assert (Hp : pos_weight h l = 0%Z) by (unfold pos_weight; lia). rewrite Hp in *.
    destruct (IH acc) as (ts1 & x & ts2 & -> & Hx & Hb); [lia..|].
    exists (l :: ts1), x, ts2. simpl. rewrite Hp. split; [done|]. split; [done|]. lia.
  - assert (Hp : pos_weight h l = Weight (deref h l)) by (unfold pos_weight; lia).
    rewrite Hp in *. rewrite i64_id by in_range.
    destruct (Z.ltb_spec random (acc + Weight (deref h l))).
    + exists [], l, ts. simpl. rewrite Hp. split; [done|]. split; [done|]. lia.
    + destruct (IH (acc + Weight (deref h l))%Z) as (ts1 & x & ts2 & -> & Hx & Hb); [lia..|].
      exists (l :: ts1), x, ts2. simpl. rewrite Hp. split; [done|]. split; [done|]. lia.
Qed.

Lemma Weighted_Select_interval draw h lb :
  let ts := GetHealthyTargets h (weighted_base lb) in
  weights_fit h ts → (0 < sum_weights h ts)%Z →
  ∃ ts1 l ts2, ts = ts1 ++ l :: ts2 ∧ Weighted_Select draw h lb = (h, lb, Ret (Ok l)) ∧
    (sum_weights h ts1 <= draw mod sum_weights h ts < sum_weights h ts1 + pos_weight h l)%Z.
Proof.
  intros ts Hfit Hpos. unfold Weighted_Select. fold ts.
  assert (Hne : ts ≠ []) by (intros Heq; by rewrite Heq in Hpos).
  rewrite decide_False, totalWeight_sum by done.
  zcmp. unfold Intn. zcmp.
  pose proof (Z.mod_pos_bound draw (sum_weights h ts) Hpos) as Hb. unfold weights_fit in Hfit.
  destruct (pick_weighted_interval h ts (draw mod sum_weights h ts) 0) as (ts1 & l & ts2 & Heq & Hx & Hi);
    [lia..|].
  exists ts1, l, ts2. split; [done|]. rewrite Hx. split; [done|]. lia.
Qed.

#[export] Instance Weighted_Laws : LoadBalancerLaws WeightedLoadBalancer.
Proof.
  split; [done|..]; intros d h lb; simpl.
  - unfold Weighted_Select. case_decide; [done|]. by case_match.
  - intros _. unfold Weighted_Select. case_decide; [done|]. by case_match.
  - intros Hfit. destruct (decide (GetHealthyTargets h (weighted_base lb) = [])) as [He|He].
    { left. unfold Weighted_Select. by rewrite decide_True. }
    right. destruct (Z.eq_dec (sum_weights h (GetHealthyTargets h (weighted_base lb))) 0%Z) as [H0|H0].
    + unfold Weighted_Select. rewrite decide_False, totalWeight_sum, H0 by done. simpl.
      by apply pick_random_ok.
    + pose proof (sum_weights_nonneg h (GetHealthyTargets h (weighted_base lb))).
      destruct (Weighted_Select_interval d h lb Hfit) as (ts1 & l & ts2 & Heq & -> & _); [lia|].
      exists l. split; [|done]. rewrite Heq. set_solver.
Qed.

(** ** Least connections *)

(** The scan returns the first minimum of the list. *)
Lemma scan_least_spec h rest sel :
  let r := scan_least h sel (ConnectionCount (deref h sel)) rest in
  r ∈ sel :: rest ∧
  ∀ l, l ∈ sel :: rest → (ConnectionCount (deref h r) <= ConnectionCount (deref h l))%Z.
Proof.
  revert sel. induction rest as [|l rest IH]; intros sel; simpl.
  { split; [by left|]. intros l [->|Hl]%elem_of_cons; [done|by apply not_elem_of_nil in Hl]. }
  destruct (Z.ltb_spec (ConnectionCount (deref h l)) (ConnectionCount (deref h sel))).
  - destruct (IH l) as [H1 H2]. split; [set_solver|].
    intros x Hx. apply elem_of_cons in Hx as [->|Hx]; [|by apply H2].
    specialize (H2 l ltac:(by left)). lia.
  - destruct (IH sel) as [H1 H2]. split; [set_solver|].
    intros x Hx. apply elem_of_cons in Hx as [->|Hx]; [apply H2; by left|].
    apply elem_of_cons in Hx as [->|Hx]; [|apply H2; by right].
    specialize (H2 sel ltac:(by left)). lia.
Qed.

(** When all counts are equal the scan keeps its first candidate. *)
Lemma scan_least_first h rest sel :
  (∀ l, l ∈ rest → ConnectionCount (deref h l) = ConnectionCount (deref h sel)) →
  scan_least h sel (ConnectionCount (deref h sel)) rest = sel.
Proof.
  induction rest as [|l rest IH]; intros Heq; simpl; [done|].
  rewrite (Heq l) by (by left). rewrite Z.ltb_irrefl. apply IH. intros x Hx. apply Heq. by right.
Qed.

Lemma valid_elem h ts l : valid h ts → l ∈ ts → l < length h.
Proof. intros Hv Hl. by apply (proj1 (Forall_forall _ _) Hv). Qed.

#[export] Instance LeastConnections_Laws : LoadBalancerLaws LeastConnectionsLoadBalancer.
Proof.
  split; [done|..]; intros d h lb; simpl; unfold LeastConnections_Select.
  - by destruct (GetHealthyTargets h (least_base lb)).
  - intros Hv. destruct (GetHealthyTargets h (least_base lb)) as [|first rest] eqn:He; [done|].
    apply add_connections_shape, (valid_elem _ _ _ Hv), (GetHealthyTargets_sub h).
    rewrite He. apply scan_least_spec.
  - intros _. destruct (GetHealthyTargets h (least_base lb)) as [|first rest]; [by left|].
    right. eexists. split; [|done]. apply scan_least_spec.
Qed.

(** Reduces a law of the sum to the law of the implementation at hand. *)
Ltac by_implementation law d h lb :=
  destruct lb as [lb|lb|lb|lb];
  (let H := fresh in pose proof (law _ _ _ d h lb) as H; cbn in H |- *;
   match goal with
   | |- context [RoundRobin_Select d h lb] => destruct (RoundRobin_Select d h lb) as [[??]?]
   | |- context [Random_Select d h lb] => destruct (Random_Select d h lb) as [[??]?]
   | |- context [Weighted_Select d h lb] => destruct (Weighted_Select d h lb) as [[??]?]
   | |- context [LeastConnections_Select d h lb] =>
       destruct (LeastConnections_Select d h lb) as [[??]?]
   end; exact H).

#[export] Instance Any_Laws : LoadBalancerLaws AnyLoadBalancer.
Proof.
  split.
  - by intros b [lb|lb|lb|lb].
  - intros d h lb. by_implementation @Select_base d h lb.
  - intros d h lb. by_implementation @Select_shape d h lb.
  - intros d h lb. by_implementation @Select_result d h lb.
Qed.

Lemma healthy_weights_fit h b : weights_fit h (targets b) → weights_fit h (GetHealthyTargets h b).
Proof.
  unfold weights_fit, GetHealthyTargets. destruct (negb _); [done|].
  assert (sum_weights h (filter (λ l, Healthy (deref h l) = true) (targets b))
          <= sum_weights h (targets b))%Z; [|lia].
  induction (targets b) as [|l ts IH]; [done|]. rewrite filter_cons.
  pose proof (pos_weight_nonneg h l). case_decide; simpl; lia.
Qed.

(** Whatever strategy name the factory is asked for, an unknown name is an
    error, and a balancer it creates, given targets and used through the
    interface, never panics: it returns one of the given targets, a healthy
    one when health checking is on, or [ErrNoTargetsAvailable] exactly when
    no target is eligible; nothing but connection counts changes in the
    store.  (The sum of the weights must be an int.) *)
Theorem factory_balancer_sound factory strategy lb ts d h :
  Create factory strategy = Ok lb →
  valid h ts → weights_fit h ts →
  let '(lb1, e) := UpdateTargets ts lb in
  let '(h', lb2, r) := Select d h lb1 in
  e = None ∧ same_shape h h' ∧ GetTargets lb2 = ts ∧
  ((r = Ret (Err ErrNoTargetsAvailable) ∧ GetHealthyTargets h (MkBase ts factory false) = []) ∨
   (∃ l, r = Ret (Ok l) ∧ l ∈ ts ∧
      (EnableHealthCheck factory = true → Healthy (deref h l) = true))).
Proof.
  intros Hc Hv Hfit. assert (Hb : base lb = NewBaseLoadBalancer factory).
  { unfold Create in Hc. repeat case_decide; by simplify_eq. }
  set (b := MkBase ts factory false). set (lb1 := set_base b lb).
  unfold UpdateTargets. rewrite Hb.
  change (Base_UpdateTargets ts (NewBaseLoadBalancer factory)) with (b, @None error).
  cbv iota beta. fold lb1.
  assert (Hb1 : base lb1 = b) by apply base_set_base.
  pose proof (Select_base d h lb1) as H1. pose proof (Select_shape d h lb1) as H2.
  pose proof (Select_result d h lb1) as H3. rewrite Hb1 in *.
  destruct (Select d h lb1) as [[h' lb2] r]. cbn [fst snd] in *.
  split; [done|]. split; [by apply H2|]. split; [unfold GetTargets; by rewrite H1|].
  destruct H3 as [[He ->]|(l & Hl & ->)]; [by apply healthy_weights_fit|by left|].
  right. exists l. split; [done|]. split; [by apply (GetHealthyTargets_sub h b)|].
  intros Hec. by apply (GetHealthyTargets_healthy h b).
Qed.

(** ** Fairness *)

(** Consecutive selections. *)
Fixpoint select_n `{LoadBalancer B} (draws : list Z) (h : heap) (lb : B) :
    heap * B * list (outcome (result nat)) :=
  match draws with
  | [] => (h, lb, [])
  | d :: draws =>
      let '(h, lb, r) := Select d h lb in
      let '(h, lb, rs) := select_n draws h lb in
      (h, lb, r :: rs)
  end.

Lemma RoundRobin_select_n draws h lb :
  let ts := GetHealthyTargets h (rr_base lb) in
  ts ≠ [] → (0 <= current lb)%Z → (current lb + Z.of_nat (length draws) < 2 ^ 64)%Z →
  ∀ i, i < length draws →
    (select_n draws h lb).2 !! i =
      (λ l, Ret (Ok l)) <$> ts !! Z.to_nat ((current lb + Z.of_nat i) mod Z.of_nat (length ts)).
Proof.
  intros ts Hne. subst ts. revert lb Hne.
  induction draws as [|d draws IH]; intros lb Hne H0 Hc i Hi; cbn [length] in *; [lia|].
  cbn [select_n Select RoundRobin_LoadBalancer]. unfold RoundRobin_Select.
  rewrite decide_False by done.
  rewrite (u64_id (current lb + 1)) by in_range.
  replace (current lb + 1 - 1)%Z with (current lb) by lia.
  rewrite (u64_id (current lb)) by in_range.
  destruct (nth_mod_some _ (current lb) Hne) as (l & Hl & _). rewrite Hl.
  specialize (IH (MkRR (rr_base lb) (current lb + 1)) Hne). simpl in IH.
  destruct (select_n draws h _) as [[h2 lb2] rs]. simpl in *.
  destruct i as [|i].
  - replace (current lb + Z.of_nat 0)%Z with (current lb) by lia. by rewrite Hl.
  - simpl. rewrite IH by lia. do 4 f_equal. lia.
Qed.

Lemma select_n_length `{LoadBalancer B} draws h (lb : B) :
  length (select_n draws h lb).2 = length draws.
Proof.
  revert h lb. induction draws as [|d draws IH]; intros h lb; simpl; [done|].
  destruct (Select d h lb) as [[h1 lb1] r]. specialize (IH h1 lb1).
  destruct (select_n draws h1 lb1) as [[??]?]. simpl in *. lia.
Qed.

Lemma rotate_perm {A} n (l : list A) : rotate n l ≡ₚ l.
Proof. unfold rotate. by rewrite Permutation_app_comm, take_drop. Qed.

(** Round robin is fair: as many consecutive selections as there are
    eligible targets select each of them exactly once, in list order starting
    where the counter points (until the uint64 counter wraps around). *)
Theorem round_robin_fair draws h lb :
  let ts := GetHealthyTargets h (rr_base lb) in
  ts ≠ [] → length draws = length ts →
  (0 <= current lb)%Z → (current lb + Z.of_nat (length draws) < 2 ^ 64)%Z →
  (select_n draws h lb).2 = (λ l, Ret (Ok l)) <$> rotate (Z.to_nat (current lb)) ts ∧
  rotate (Z.to_nat (current lb)) ts ≡ₚ ts.
Proof.
  intros ts Hne Hlen H0 Hc. split; [|apply rotate_perm].
  apply list_eq. intros i. destruct (decide (i < length draws)) as [Hi|Hi].
  - rewrite RoundRobin_select_n by done. rewrite list_lookup_fmap, lookup_rotate_r by lia.
    unfold rotate_nat_add. rewrite Z2Nat.id by lia. done.
  - rewrite !lookup_ge_None_2; [done|..].
    + rewrite length_fmap, length_rotate. lia.
    + rewrite select_n_length. lia.
Qed.

Lemma interval_unique h d ts1 l ts2 ts1' l' ts2' :
  ts1 ++ l :: ts2 = ts1' ++ l' :: ts2' →
  (sum_weights h ts1 <= d < sum_weights h ts1 + pos_weight h l)%Z →
  (sum_weights h ts1' <= d < sum_weights h ts1' + pos_weight h l')%Z →
  ts1 = ts1' ∧ l = l'.
Proof.
  revert d ts1'. induction ts1 as [|x ts1 IH]; intros d ts1' Heq H1 H2.
  - destruct ts1' as [|y ts1']; [by injection Heq|].
    injection Heq as -> ->. simpl in *. pose proof (sum_weights_nonneg h ts1'). lia.
  - destruct ts1' as [|y ts1']; injection Heq as -> Heq.
    + simpl in *. pose proof (sum_weights_nonneg h ts1). lia.
    + simpl in *. destruct (IH (d - pos_weight h y)%Z ts1' Heq) as [-> ->]; [lia..|done].
Qed.

(** Weighted selection is proportional: out of the [total] equally likely
    draws a target of positive weight [w] is selected by exactly [w] (the
    interval that starts at the sum of the weights before it), a target
    without positive weight by none; without any positive weight the draw is
    uniform. *)
Theorem weighted_proportional h lb ts1 l ts2 d :
  let ts := ts1 ++ l :: ts2 in
  GetHealthyTargets h (weighted_base lb) = ts → NoDup ts → weights_fit h ts →
  if (sum_weights h ts =? 0)%Z then
    (0 <= d < Z.of_nat (length ts))%Z →
    ((Weighted_Select d h lb).2 = Ret (Ok l) ↔ d = Z.of_nat (length ts1))
  else
    (0 <= d < sum_weights h ts)%Z →
    ((Weighted_Select d h lb).2 = Ret (Ok l) ↔
     (sum_weights h ts1 <= d < sum_weights h ts1 + pos_weight h l)%Z).
Proof.
  intros ts Hts Hnd Hfit. assert (Hne : ts ≠ []) by (subst ts; by destruct ts1).
  assert (Hl : ts !! length ts1 = Some l) by (by apply list_lookup_middle).
  pose proof (sum_weights_nonneg h ts) as Hnn.
  destruct (Z.eqb_spec (sum_weights h ts) 0) as [H0|H0]; intros Hd.
  - unfold Weighted_Select, pick_random, Intn.
    rewrite Hts, decide_False, totalWeight_sum, H0 by done. simpl.
    zcmp. rewrite Z.mod_small by lia.
    destruct (ts !! Z.to_nat d) as [x|] eqn:Hx.
    + split; [|intros ->; rewrite Nat2Z.id in Hx; congruence].
      intros [= ->]. pose proof (NoDup_lookup ts _ _ _ Hnd Hx Hl). lia.
    + apply lookup_ge_None in Hx. lia.
  - destruct (Weighted_Select_interval d h lb) as (ts1' & l' & ts2' & Heq & -> & Hi);
      rewrite ?Hts; [done|lia|].
    rewrite Hts in Heq, Hi. rewrite Z.mod_small in Hi by lia. simpl. split.
    + intros [= ->]. assert (Hl' : ts !! length ts1' = Some l) by (rewrite Heq; by apply list_lookup_middle).
      pose proof (NoDup_lookup ts _ _ _ Hnd Hl Hl') as Hlen.
      subst ts. apply app_inj_1 in Heq as [-> _]; done.
    + intros Hi'. by destruct (interval_unique h d _ _ _ _ _ _ Heq Hi' Hi) as [_ ->].
Qed.

Lemma i32_roundtrip c : (- 2 ^ 31 <= c < 2 ^ 31)%Z → i32 (i32 (c + 1) + -1) = c.
Proof.
  intros Hc. unfold i32.
  replace ((c + 1 + 2 ^ 31) mod 2 ^ 32 - 2 ^ 31 + -1 + 2 ^ 31)%Z
    with ((c + 1 + 2 ^ 31) mod 2 ^ 32 - 1)%Z by lia.
  rewrite Zminus_mod_idemp_l. rewrite Z.mod_small; lia.
Qed.

Lemma add_connections_undo l h :
  l < length h → (- 2 ^ 31 <= ConnectionCount (deref h l) < 2 ^ 31)%Z →
  add_connections (-1) l (add_connections 1 l h) = h.
Proof.
  intros Hl Hc. destruct (lookup_lt_is_Some_2 h l Hl) as [t Ht].
  assert (Hd : deref h l = t) by (unfold deref; by rewrite Ht).
  unfold add_connections at 1. rewrite deref_add_connections, decide_True by done. simpl.
  rewrite i32_roundtrip by done. unfold add_connections. rewrite list_insert_insert_eq.
  apply list_insert_id. rewrite Ht, Hd. by destruct t.
Qed.

Lemma find_target_unique h ts l :
  l ∈ ts → (∀ x, x ∈ ts → Address (deref h x) = Address (deref h l) → x = l) →
  find_target h (Address (deref h l)) ts = Some l.
Proof.
  intros Hl Hu. unfold find_target.
  destruct (list_find _ ts) as [[i x]|] eqn:Hf.
  - apply list_find_Some in Hf as (Hx & Ha & _). simpl. f_equal. apply Hu; [|done].
    by eapply list_elem_of_lookup_2.
  - apply list_find_None in Hf. rewrite Forall_forall in Hf. by destruct (Hf l Hl).
Qed.

(** Least connections selects an eligible target whose connection count is
    minimal and counts the new connection on that target only; releasing it
    by address restores the store (distinct addresses), and releasing an
    unknown address is [ErrTargetNotFound] and changes nothing. *)
Theorem least_connections_correct d h lb :
  let ts := GetHealthyTargets h (least_base lb) in
  ts ≠ [] → valid h (targets (least_base lb)) →
  (∀ l l', l ∈ targets (least_base lb) → l' ∈ targets (least_base lb) →
     Address (deref h l) = Address (deref h l') → l = l') →
  (∀ l, l ∈ ts → - 2 ^ 31 <= ConnectionCount (deref h l) < 2 ^ 31 - 1)%Z →
  ∃ l h', Select d h lb = (h', lb, Ret (Ok l)) ∧ l ∈ ts ∧
    (∀ l', l' ∈ ts → ConnectionCount (deref h l) <= ConnectionCount (deref h l'))%Z ∧
    (∀ l', ConnectionCount (deref h' l') =
       ConnectionCount (deref h l') + (if decide (l = l') then 1 else 0))%Z ∧
    ReleaseConnection (Address (deref h l)) h' lb = (h, None) ∧
    (∀ addr, addr ∉ (λ x, Address (deref h x)) <$> targets (least_base lb) →
       ReleaseConnection addr h lb = (h, Some ErrTargetNotFound)).
Proof.
  intros ts Hne Hv Hu Hrange. simpl. unfold LeastConnections_Select. fold ts.
  destruct ts as [|first rest] eqn:Hts; [done|]. clear Hne.
  pose proof (scan_least_spec h rest first) as [Hin Hmin].
  set (l := scan_least _ _ _ _) in *. exists l, (add_connections 1 l h).
  assert (Hlt : l ∈ targets (least_base lb)).
  { apply (GetHealthyTargets_sub h). unfold ts in Hts. by rewrite Hts. }
  assert (Hl : l < length h) by (by eapply valid_elem).
  specialize (Hrange l Hin). split; [done|]. split; [done|]. split; [done|].
  split; [|split].
  - intros l'. rewrite deref_add_connections by done. case_decide; subst; simpl; [|lia].
    unfold i32. rewrite Z.mod_small; lia.
  - destruct (add_connections_shape 1 l h Hl) as [_ Hs].
    unfold ReleaseConnection, Base_GetTargets. destruct (Hs l) as (<- & _).
    rewrite find_target_unique; [|done|].
    + by rewrite add_connections_undo by (try done; lia).
    + intros x Hx. destruct (Hs l) as (-> & _), (Hs x) as (-> & _). by apply Hu.
  - intros addr Ha. unfold ReleaseConnection, find_target, Base_GetTargets.
    destruct (list_find _ _) as [[i x]|] eqn:Hf; [|done].
    apply list_find_Some in Hf as (Hx & <- & _). exfalso. apply Ha.
    apply list_elem_of_fmap. exists x. split; [done|]. by eapply list_elem_of_lookup_2.
Qed.

(** ** The gateway's adapter, against the interface *)

Section AdapterProps.
Context {B : Type} `{LoadBalancerLaws B}.

Lemma alloc_deref ts now h i a :
  ts !! i = Some a → deref (h ++ ((λ a, NewTarget a now) <$> ts)) (length h + i) = NewTarget a now.
Proof.
  intros Hi. unfold deref. rewrite lookup_app_r by lia.
  replace (length h + i - length h) with i by lia. by rewrite list_lookup_fmap, Hi.
Qed.

(** Facts about the freshly allocated targets. *)
Lemma alloc_targets_spec ts now h :
  let '(h', ls) := alloc_targets ts now h in
  valid h' ls ∧ length ls = length ts ∧
  (∀ l, l ∈ ls → ∃ i a, l = length h + i ∧ ts !! i = Some a ∧ deref h' l = NewTarget a now).
Proof.
  unfold alloc_targets. split; [|split].
  - apply Forall_forall. intros l Hl. apply elem_of_seq in Hl. rewrite length_app, length_fmap. lia.
  - apply length_seq.
  - intros l Hl. apply elem_of_seq in Hl as [Hge Hlt].
    destruct (lookup_lt_is_Some_2 ts (l - length h)) as [a Ha]; [lia|].
    exists (l - length h), a. split; [lia|]. split; [done|].
    replace l with (length h + (l - length h)) at 1 by lia. by apply alloc_deref.
Qed.

Lemma sum_weights_ones h ls :
  (∀ l, l ∈ ls → Weight (deref h l) = 1%Z) → sum_weights h ls = Z.of_nat (length ls).
Proof.
  induction ls as [|l ls IH]; intros Hw; simpl; [done|].
  rewrite IH by (intros x Hx; apply Hw; by right). unfold pos_weight.
  rewrite (Hw l) by (by left). lia.
Qed.

Lemma healthy_all h b :
  (∀ l, l ∈ targets b → Healthy (deref h l) = true) → GetHealthyTargets h b = targets b.
Proof.
  intros Hh. unfold GetHealthyTargets. destruct (negb _); [done|]. by apply filter_all.
Qed.

(** One [Select] on fresh targets. *)
Lemma fresh_select ts now d h (lb : B) :
  closed (base lb) = false → ts ≠ [] → (Z.of_nat (length ts) < 2 ^ 63)%Z →
  let '(h1, ls) := alloc_targets ts now h in
  let '(lb1, e) := UpdateTargets ls lb in
  let '(h2, lb2, r) := Select d h1 lb1 in
  e = None ∧ base lb2 = MkBase ls (opts (base lb)) false ∧
  ∃ l, r = Ret (Ok l) ∧ Address (deref h2 l) ∈ ts.
Proof.
  intros Hcl Hne Hlen. pose proof (alloc_targets_spec ts now h) as Hs.
  destruct (alloc_targets ts now h) as [h1 ls]. destruct Hs as (Hv & Hll & Hnew).
  unfold UpdateTargets, Base_UpdateTargets. rewrite Hcl. simpl.
  set (b := MkBase ls _ _). set (lb1 := set_base b lb).
  assert (Hb1 : base lb1 = b) by apply base_set_base.
  pose proof (Select_base d h1 lb1) as H1. pose proof (Select_shape d h1 lb1) as H2.
  pose proof (Select_result d h1 lb1) as H3. rewrite Hb1 in *.
  assert (Hgh : GetHealthyTargets h1 b = ls).
  { apply healthy_all. intros l Hl. destruct (Hnew l Hl) as (i & a & _ & _ & ->). done. }
  rewrite Hgh in H3. destruct (Select d h1 lb1) as [[h2 lb2] r]. cbn [fst snd] in *.
  split; [done|]. split; [done|].
  destruct H3 as [[He _]|(l & Hl & ->)].
  - unfold weights_fit. rewrite sum_weights_ones; [lia|].
    intros l Hl. by destruct (Hnew l Hl) as (i & a & _ & _ & ->).
  - exfalso. destruct ts; [done|]. by rewrite He in Hll.
  - exists l. split; [done|]. destruct (H2 Hv) as [_ Hsh]. destruct (Hsh l) as [-> _].
    destruct (Hnew l Hl) as (i & a & _ & Hi & ->). by eapply list_elem_of_lookup_2.
Qed.

Lemma adapter_select_fresh_ok cur d now h (a : LoadBalancerAdapter B) :
  closed (base (adapter_lb a)) = false → (Z.of_nat (length cur) < 2 ^ 63)%Z → cur ≠ [] →
  let '(_, a', r) := adapter_select_fresh cur d now h a in
  adapter_targets a' = adapter_targets a ∧ closed (base (adapter_lb a')) = false ∧
  ∃ s, r = Ret (Ok s) ∧ s ∈ cur.
Proof.
  intros Hcl Hlen Hne. unfold adapter_select_fresh.
  pose proof (fresh_select cur now d h (adapter_lb a) Hcl Hne Hlen) as Hf.
  destruct (alloc_targets cur now h) as [h1 ls].
  destruct (UpdateTargets ls (adapter_lb a)) as [lb1 e]. simpl.
  destruct (Select d h1 lb1) as [[h2 lb2] r]. destruct Hf as (-> & Hb & l & -> & Hin). simpl.
  split; [done|]. split; [by rewrite Hb|]. eauto.
Qed.

Lemma Adapter_UpdateTargets_open ts now h (a : LoadBalancerAdapter B) :
  ts ≠ [] → closed (base (adapter_lb a)) = false →
  let a' := (Adapter_UpdateTargets ts now h a).2 in
  closed (base (adapter_lb a')) = false ∧ adapter_targets a' = ts.
Proof.
  intros Hne Hcl. unfold Adapter_UpdateTargets. rewrite decide_False by done. simpl.
  unfold UpdateTargets, Base_UpdateTargets. rewrite Hcl. simpl. by rewrite base_set_base.
Qed.

(** The adapter, over any implementation of the interface that obeys its
    laws, returns one of the addresses it was given (or, called without
    addresses, of the last ones it was given) and fails only when there are
    none; it never panics and remembers the addresses. *)
Theorem adapter_select_sound ts d now h (a : LoadBalancerAdapter B) :
  closed (base (adapter_lb a)) = false → (Z.of_nat (length ts) < 2 ^ 63)%Z →
  (Z.of_nat (length (adapter_targets a)) < 2 ^ 63)%Z →
  let current := if decide (ts = []) then adapter_targets a else ts in
  let '(_, a', r) := Adapter_Select ts d now h a in
  adapter_targets a' = current ∧ closed (base (adapter_lb a')) = false ∧
  if decide (current = []) then r = Ret (Err GatewayErrLoadBalancerFailed)
  else ∃ s, r = Ret (Ok s) ∧ s ∈ current.
Proof.
  intros Hcl Hts Hat. unfold Adapter_Select.
  destruct (decide (ts = [])) as [->|Hne].
  - destruct (decide (adapter_targets a = [])) as [He|He]; [done|].
    by apply adapter_select_fresh_ok.
  - pose proof (Adapter_UpdateTargets_open ts now h a Hne Hcl) as [Hcl' Hat'].
    destruct (Adapter_UpdateTargets ts now h a) as [h1 a1]. simpl in *.
    rewrite decide_False by done.
    pose proof (adapter_select_fresh_ok ts d now h1 a1 Hcl' Hts Hne) as Hf.
    destruct (adapter_select_fresh ts d now h1 a1) as [[h2 a2] r]. rewrite Hat' in Hf.
    by rewrite decide_False by done.
Qed.

End AdapterProps.

(** Through the adapter the least-connections strategy always selects the
    first address: the targets are allocated anew at every call, with zero
    connections, so the counts of earlier calls are lost; whatever the
    adapter's history, the selection is the head of the list. *)
Theorem adapter_least_connections_first addr ts d now h a lb :
  adapter_lb a = AnyLeastConnections lb → closed (least_base lb) = false →
  ∃ h' a' lb', Adapter_Select (addr :: ts) d now h a = (h', a', Ret (Ok addr)) ∧
    adapter_lb a' = AnyLeastConnections lb' ∧ closed (least_base lb') = false.
Proof.
  intros Ha Hcl. unfold Adapter_Select, Adapter_UpdateTargets.
  rewrite !(decide_False (P := addr :: ts = [])) by done. simpl alloc_targets at 1. cbv iota beta.
  rewrite Ha. unfold UpdateTargets at 1, Base_UpdateTargets at 1.
  simpl base. rewrite Hcl. simpl.
  unfold adapter_select_fresh. set (h1 := h ++ _).
  pose proof (alloc_targets_spec (addr :: ts) now h1) as Hs.
  destruct (alloc_targets (addr :: ts) now h1) as [h2 ls] eqn:Hal. destruct Hs as (Hv & Hlen & Hnew).
  destruct ls as [|l0 ls]; [done|].
  assert (Hl0 : Address (deref h2 l0) = addr).
  { assert (l0 = length h1) as -> by (unfold alloc_targets in Hal; by injection Hal).
    destruct (Hnew (length h1) ltac:(by left)) as (i & x & Heq & Hi & ->).
    assert (i = 0) as -> by lia. by injection Hi. }
  unfold UpdateTargets, Base_UpdateTargets. simpl. unfold LeastConnections_Select. simpl.
  rewrite (healthy_all h2 (MkBase (l0 :: ls) _ _)).
  2: { intros l Hl. by destruct (Hnew l Hl) as (? & ? & _ & _ & ->). }
  simpl. rewrite scan_least_first.
  2: { intros l Hl. destruct (Hnew l ltac:(by right)) as (? & ? & _ & _ & ->).
       by destruct (Hnew l0 ltac:(by left)) as (? & ? & _ & _ & ->). }
  assert (Hlt : l0 < length h2) by (by apply (valid_elem _ _ _ Hv); left).
  destruct (add_connections_shape 1 l0 h2 Hlt) as [_ Hsh]. destruct (Hsh l0) as [-> _]. rewrite Hl0.
  eexists _, _, _. by split.
Qed.

(** ** Concrete instances *)

Module LoadBalancerExample.

Definition h3 : heap :=
  [MkTarget "a" 1 true 4 None 0; MkTarget "b" 3 false 0 None 0; MkTarget "c" 2 true 1 None 0].

Definition base3 : BaseLoadBalancer := MkBase [0; 1; 2] DefaultOptions false.

Lemma factory_balancer_sound_witness :
  ∃ lb, Create DefaultOptions StrategyWeighted = Ok lb ∧
  let '(lb1, e) := UpdateTargets [0; 1; 2] lb in
  let '(h', lb2, r) := Select 2 h3 lb1 in
  e = None ∧ same_shape h3 h' ∧ r = Ret (Ok 2).
Proof.
  eexists. split; [reflexivity|].
  pose proof (factory_balancer_sound DefaultOptions StrategyWeighted
    (AnyWeighted (NewWeightedLoadBalancer DefaultOptions)) [0; 1; 2] 2 h3) as H.
  simpl in H |- *. destruct H as (He & Hs & _).
  - reflexivity.
  - repeat constructor.
  - by vm_compute.
  - split; [exact He|]. split; [exact Hs|]. reflexivity.
Defined.

Lemma round_robin_fair_witness :
  (select_n [0; 0]%Z h3 (MkRR base3 7)).2 = [Ret (Ok 2); Ret (Ok 0)].
Proof.
  destruct (round_robin_fair [0; 0]%Z h3 (MkRR base3 7)) as [H _].
  - discriminate.
  - reflexivity.
  - simpl. lia.
  - simpl. lia.
  - rewrite H. reflexivity.
Defined.

Lemma weighted_proportional_witness :
  (Weighted_Select 2 h3 (MkWeighted base3)).2 = Ret (Ok 2).
Proof.
  pose proof (weighted_proportional h3 (MkWeighted base3) [0] 2 [] 2) as H. cbn zeta in H.
  apply H.
  - reflexivity.
  - apply NoDup_cons. split; [set_solver|apply NoDup_singleton].
  - by vm_compute.
  - simpl. unfold pos_weight. simpl. lia.
  - simpl. unfold pos_weight. simpl. lia.
Defined.

Lemma least_connections_correct_witness :
  ∃ l h', Select 0 h3 (MkLeast base3) = (h', MkLeast base3, Ret (Ok l)) ∧
    ReleaseConnection (Address (deref h3 l)) h' (MkLeast base3) = (h3, None).
Proof.
  destruct (least_connections_correct 0 h3 (MkLeast base3)) as (l & h' & H1 & _ & _ & _ & H2 & _).
  - discriminate.
  - repeat constructor.
  - intros l l' Hl Hl'. simpl in Hl, Hl'.
    repeat (apply elem_of_cons in Hl as [->|Hl]; [|]); try (by apply not_elem_of_nil in Hl);
    repeat (apply elem_of_cons in Hl' as [->|Hl']; [|]); try (by apply not_elem_of_nil in Hl');
    done.
  - intros l Hl. change (GetHealthyTargets h3 _) with [0; 2] in Hl.
    repeat (apply elem_of_cons in Hl as [->|Hl]; [|]); try (by apply not_elem_of_nil in Hl);
      vm_compute; split; done.
  - exists l, h'. done.
Defined.

Lemma adapter_select_sound_witness :
  ∃ s, (Adapter_Select ["x"; "y"] 5 0 [] (NewLoadBalancerAdapter "Random")).2 = Ret (Ok s) ∧
    s ∈ ["x"; "y"].
Proof.
  pose proof (adapter_select_sound ["x"; "y"] 5 0 [] (NewLoadBalancerAdapter "Random")) as H.
  destruct (Adapter_Select _ _ _ _ _) as [[h' a'] r]. apply H.
  - reflexivity.
  - simpl. lia.
  - simpl. lia.
Defined.

Lemma adapter_least_connections_first_witness :
  ∃ h' a', Adapter_Select ["x"; "y"] 5 0 [] (NewLoadBalancerAdapter "least_connections")
    = (h', a', Ret (Ok "x")).
Proof.
  destruct (adapter_least_connections_first "x" ["y"] 5 0 []
    (NewLoadBalancerAdapter "least_connections")
    (NewLeastConnectionsLoadBalancer DefaultOptions)) as (h' & a' & lb' & H & _).
  - reflexivity.
  - reflexivity.
  - exists h', a'. exact H.
Defined.

End LoadBalancerExample.
