(* ===== verification/Discovery.v ===== *)
(** * plugins/discovery: registry, manager, load balancer and selector

    Models [src/plugins/discovery/{interface,static,manager,loadbalancer}.go].
    A discovery backend is a class [Discovery]; the in-memory registry is its
    instance, the network backends (consul, etcd, nacos, zookeeper) are other
    possible instances.  The outcome of a TCP dial, the enumeration order of
    a map, clock readings and random draws are arguments.  Logging is left
    out. *)

From S2P Require Import Prelude.
From stdpp Require Import pretty.

Import GoError GoInt GoRand GoStrconv.

(** ** Data *)

Record ServiceInstance := MkInstance {
  ID : string;
  Name : string;
  Address : string;
  Port : Z;
  Payload : option (gmap string string)     (* nil map: [None] *)
}.

#[export] Instance ServiceInstance_eq_dec : EqDecision ServiceInstance.
Proof. solve_decision. Defined.

(** The [Discovery] interface.  [GetService] may enumerate a map: the order
    of the instance IDs is its first argument. *)
Class Discovery (D : Type) := {
  Disc_Register : ServiceInstance → D → D * option error;
  Disc_Deregister : ServiceInstance → D → D * option error;
  Disc_GetService : list string → string → D → result (list ServiceInstance)
}.

(** ** The in-memory registry (static.go) *)

Record staticRegistry := MkStatic { services : gmap string (gmap string ServiceInstance) }.

Definition newStaticRegistry : staticRegistry := MkStatic ∅.

(** The stored instance is a deep copy: values are immutable here. *)
Definition Static_Register (inst : ServiceInstance) (r : staticRegistry) :
    staticRegistry * option error :=
  let bucket := match services r !! Name inst with Some b => b | None => ∅ end in
  (MkStatic (<[Name inst := <[ID inst := inst]> bucket]> (services r)), None).

Definition Static_Deregister (inst : ServiceInstance) (r : staticRegistry) :
    staticRegistry * option error :=
  match services r !! Name inst with
  | None => (r, None)
  | Some bucket =>
      let bucket := delete (ID inst) bucket in
      if decide (bucket = ∅) then (MkStatic (delete (Name inst) (services r)), None)
      else (MkStatic (<[Name inst := bucket]> (services r)), None)
  end.

Definition Static_GetService (range : list string) (serviceName : string) (r : staticRegistry) :
    result (list ServiceInstance) :=
  let bucket := match services r !! serviceName with Some b => b | None => ∅ end in
  Ok (omap (λ id, bucket !! id) range).

#[export] Instance Static_Discovery : Discovery staticRegistry := {|
  Disc_Register := Static_Register;
  Disc_Deregister := Static_Deregister;
  Disc_GetService := Static_GetService
|}.

(** ** The manager (manager.go) *)

Record ManagerConfig := MkManagerConfig {
  Enabled : bool;
  RegistryType : string;
  RegistryAddress : string;
  Timeout : Z;
  HealthCheckInterval : Z;
  HealthCheckTimeout : Z;
  AutoRegister : bool;
  ServiceName : string;
  ServiceAddress : string;
  ServicePort : Z;
  ServiceTags : list string
}.

Definition DefaultManagerConfig : ManagerConfig := {|
  Enabled := false;
  RegistryType := "consul";
  RegistryAddress := "localhost:8500";
  Timeout := 30 * GoTime.Second;
  HealthCheckInterval := 30 * GoTime.Second;
  HealthCheckTimeout := 2 * GoTime.Second;
  AutoRegister := true;
  ServiceName := "github.com/alldev-run/golang-gin-rpc";
  ServiceAddress := "localhost";
  ServicePort := 8080;
  ServiceTags := ["go"; "rpc"; "api"]
|}.

Section Manager.
Context {D : Type} `{!Discovery D}.

(** [unhealthy] holds only [true] entries in the source: a set.  [stopCh] is
    whether the channel is closed; [checking] whether a health-check
    goroutine is running. *)
Record ServiceDiscoveryManager := MkManager {
  config : ManagerConfig;
  discovery : D;
  instances : gmap string ServiceInstance;
  unhealthy : gset string;
  started : bool;
  stopCh : bool;
  checking : bool
}.

(** [NewServiceDiscoveryManager]: [disc] is the outcome of [NewDiscovery],
    [nil_disc] stands for the nil interface a disabled manager never uses. *)
Definition NewServiceDiscoveryManager (c : ManagerConfig) (disc : result D) (nil_disc : D) :
    result ServiceDiscoveryManager :=
  if negb (Enabled c) then Ok (MkManager c nil_disc ∅ ∅ false false false)
  else
    match disc with
    | Err e => Err (ErrorfW "failed to create discovery client: %w" [] e)
    | Ok d => Ok (MkManager c d ∅ ∅ false false false)
    end.

Definition Register (inst : ServiceInstance) (m : ServiceDiscoveryManager) :
    ServiceDiscoveryManager * option error :=
  if negb (Enabled (config m)) then (m, Some (Errorf "service discovery is disabled" []))
  else
    let '(d, err) := Disc_Register inst (discovery m) in
    match err with
    | Some e =>
        (MkManager (config m) d (instances m) (unhealthy m) (started m) (stopCh m) (checking m),
         Some (ErrorfW "failed to register service: %w" [] e))
    | None =>
        (MkManager (config m) d (<[ID inst := inst]> (instances m)) (unhealthy m ∖ {[ID inst]})
           (started m) (stopCh m) (checking m), None)
    end.

Definition Deregister (inst : ServiceInstance) (m : ServiceDiscoveryManager) :
    ServiceDiscoveryManager * option error :=
  if negb (Enabled (config m)) then (m, Some (Errorf "service discovery is disabled" []))
  else
    let '(d, err) := Disc_Deregister inst (discovery m) in
    match err with
    | Some e =>
        (MkManager (config m) d (instances m) (unhealthy m) (started m) (stopCh m) (checking m),
         Some (ErrorfW "failed to deregister service: %w" [] e))
    | None =>
        (MkManager (config m) d (delete (ID inst) (instances m)) (unhealthy m ∖ {[ID inst]})
           (started m) (stopCh m) (checking m), None)
    end.

Definition GetService (range : list string) (serviceName : string) (m : ServiceDiscoveryManager) :
    result (list ServiceInstance) :=
  if negb (Enabled (config m)) then Err (Errorf "service discovery is disabled" [])
  else
    match Disc_GetService range serviceName (discovery m) with
    | Err e => Err (ErrorfW "failed to get service %s: %w" [serviceName] e)
    | Ok insts => Ok insts
    end.

Definition join_tags (tags : list string) : string := String.concat "," tags.

(** [registerSelf] at Unix time [unix]; [stamp] is the RFC 3339 text of the
    time. *)
Definition registerSelf (unix : Z) (stamp : string) (m : ServiceDiscoveryManager) :
    ServiceDiscoveryManager * option error :=
  let c := config m in
  let payload : gmap string string :=
    <["version" := "1.0.0"]> (<["registered_at" := stamp]> ∅) in
  let payload :=
    if decide (ServiceTags c = []) then payload
    else <["tags" := join_tags (ServiceTags c)]> payload in
  Register (MkInstance (ServiceName c +:+ "-" +:+ pretty unix) (ServiceName c) (ServiceAddress c)
              (ServicePort c) (Some payload)) m.

(** [deregisterSelf]: the first instance of the service's own name in the
    enumeration [range] of [instances]. *)
Definition deregisterSelf (range : list string) (m : ServiceDiscoveryManager) :
    ServiceDiscoveryManager * option error :=
  match list_find (λ inst, Name inst = ServiceName (config m))
          (omap (λ id, instances m !! id) range) with
  | None => (m, None)
  | Some (_, inst) => Deregister inst m
  end.

Definition set_flags (started stopCh checking : bool) (m : ServiceDiscoveryManager) :
    ServiceDiscoveryManager :=
  MkManager (config m) (discovery m) (instances m) (unhealthy m) started stopCh checking.

(** The goroutine returns at once when no interval is configured or the stop
    channel is already closed. *)
Definition healthCheckLoop (m : ServiceDiscoveryManager) : ServiceDiscoveryManager :=
  if (HealthCheckInterval (config m) <=? 0)%Z || stopCh m then m
  else set_flags (started m) (stopCh m) true m.

Definition Start (unix : Z) (stamp : string) (m : ServiceDiscoveryManager) :
    ServiceDiscoveryManager * option error :=
  if started m then (m, Some (Errorf "service discovery manager already started" []))
  else if negb (Enabled (config m)) then (set_flags true (stopCh m) (checking m) m, None)
  else
    let '(m, err) :=
      if AutoRegister (config m) then registerSelf unix stamp m else (m, None) in
    match err with
    | Some e => (m, Some (ErrorfW "failed to register self: %w" [] e))
    | None =>
        let m := healthCheckLoop m in
        (set_flags true (stopCh m) (checking m) m, None)
    end.

(** [Stop]: closing a closed channel panics. *)
Definition Stop (range : list string) (m : ServiceDiscoveryManager) :
    ServiceDiscoveryManager * outcome (option error) :=
  if negb (started m) then (m, Ret None)
  else if stopCh m then (m, Panic "close of closed channel" [])
  else
    let m := set_flags false true false m in
    if AutoRegister (config m) then ((deregisterSelf range m).1, Ret None)
    else (m, Ret None).

(** One instance of the health-check loop, [reachable] the outcome of the
    dial.  Between the critical sections the source re-reads the maps; here
    no other call intervenes. *)
Definition check_instance (reachable : bool) (inst : ServiceInstance)
    (m : ServiceDiscoveryManager) : ServiceDiscoveryManager :=
  if reachable then
    if decide (instances m !! ID inst ≠ Some inst ∨ ID inst ∉ unhealthy m) then m
    else
      let '(d, err) := Disc_Register inst (discovery m) in
      match err with
      | None =>
          MkManager (config m) d (instances m) (unhealthy m ∖ {[ID inst]})
            (started m) (stopCh m) (checking m)
      | Some _ =>
          MkManager (config m) d (instances m) (unhealthy m) (started m) (stopCh m) (checking m)
      end
  else if decide (instances m !! ID inst ≠ Some inst ∨ ID inst ∈ unhealthy m) then m
  else
    let d := (Disc_Deregister inst (discovery m)).1 in
    MkManager (config m) d (instances m) ({[ID inst]} ∪ unhealthy m)
      (started m) (stopCh m) (checking m).

(** [performHealthCheck] over a snapshot enumerated as [range]. *)
Definition performHealthCheck (dial : ServiceInstance → bool) (range : list string)
    (m : ServiceDiscoveryManager) : ServiceDiscoveryManager :=
  fold_left (λ m inst, check_instance (dial inst) inst m)
    (omap (λ id, instances m !! id) range) m.

End Manager.
Arguments ServiceDiscoveryManager D : clear implicits.

(** [ServiceWatcher.instancesEqual]: same length, and every instance of the
    first (the last one of an ID) has one of the same ID, address and port
    in the second. *)
Definition by_id (l : list ServiceInstance) : gmap string ServiceInstance :=
  fold_left (λ m inst, <[ID inst := inst]> m) l ∅.

Definition same_endpoint (b : gmap string ServiceInstance) (entry : string * ServiceInstance) : bool :=
  match b !! entry.1 with
  | Some bInst =>
      bool_decide (Address entry.2 = Address bInst) && bool_decide (Port entry.2 = Port bInst)
  | None => false
  end.

Definition instancesEqual (a b : list ServiceInstance) : bool :=
  bool_decide (length a = length b) && forallb (same_endpoint (by_id b)) (map_to_list (by_id a)).

(** One tick of [watchLoop]: the new [lastInstances] and what is sent on the
    watch channel. *)
Definition watch_tick (lastInstances : list ServiceInstance) (r : result (list ServiceInstance)) :
    list ServiceInstance * option (list ServiceInstance) :=
  match r with
  | Err _ => (lastInstances, None)
  | Ok insts =>
      if negb (instancesEqual lastInstances insts) then (insts, Some insts)
      else (lastInstances, None)
  end.

(** ** The load balancer (loadbalancer.go) *)

Record LoadBalancer := MkLB {
  strategy : string;
  lb_instances : list ServiceInstance;
  currentIndex : Z;                        (* int *)
  connections : gmap string Z              (* map[string]int *)
}.

Definition StrategyRoundRobin : string := "round_robin".
Definition StrategyRandom : string := "random".
Definition StrategyWeightedRandom : string := "weighted_random".
Definition StrategyLeastConn : string := "least_conn".
Definition StrategyIPHash : string := "ip_hash".

Definition NewLoadBalancer (s : string) : LoadBalancer := MkLB s [] 0 ∅.

(** The first loop of [UpdateInstances]: entries for new instances. *)
Definition add_missing (insts : list ServiceInstance) (conns : gmap string Z) : gmap string Z :=
  fold_left (λ m inst,
    match m !! ID inst with Some _ => m | None => <[ID inst := 0%Z]> m end) insts conns.

(** The second loop: an entry stays when an instance has its ID. *)
Definition found (insts : list ServiceInstance) (id : string) : bool :=
  existsb (λ inst, bool_decide (ID inst = id)) insts.

Definition UpdateInstances (insts : list ServiceInstance) (lb : LoadBalancer) : LoadBalancer :=
  MkLB (strategy lb) insts (currentIndex lb)
    (filter (λ kv, found insts kv.1 = true) (add_missing insts (connections lb))).

(** A slice index out of range panics. *)
Definition index_instance (insts : list ServiceInstance) (i : Z) : outcome ServiceInstance :=
  if (0 <=? i)%Z then
    match insts !! Z.to_nat i with
    | Some inst => Ret inst
    | None => Panic "index out of range" []
    end
  else Panic "index out of range" [].

Definition roundRobin (lb : LoadBalancer) : LoadBalancer * outcome ServiceInstance :=
  match index_instance (lb_instances lb) (currentIndex lb) with
  | Panic m a => (lb, Panic m a)
  | Ret inst =>
      (MkLB (strategy lb) (lb_instances lb)
         (Z.rem (currentIndex lb + 1) (Z.of_nat (length (lb_instances lb)))) (connections lb),
       Ret inst)
  end.

Definition random (draw : Z) (lb : LoadBalancer) : outcome ServiceInstance :=
  let! i := Intn draw (Z.of_nat (length (lb_instances lb))) in
  index_instance (lb_instances lb) i.

Definition instanceWeight (inst : ServiceInstance) : Z :=
  match Payload inst with
  | None => 1
  | Some p =>
      match Atoi (default "" (p !! "weight")) with
      | Some weight => if (weight <=? 0)%Z then 1 else weight
      | None => 1
      end
  end.

Definition total_weight (insts : list ServiceInstance) : Z :=
  fold_left (λ total inst, i64 (total + instanceWeight inst)) insts 0%Z.

(** The subtraction loop of [weightedRandom]. *)
Fixpoint pick_weighted (target : Z) (insts : list ServiceInstance) : option ServiceInstance :=
  match insts with
  | [] => None
  | inst :: insts =>
      let target := i64 (target - instanceWeight inst) in
      if (target <? 0)%Z then Some inst else pick_weighted target insts
  end.

Definition weightedRandom (draw : Z) (lb : LoadBalancer) : outcome ServiceInstance :=
  let! target := Intn draw (total_weight (lb_instances lb)) in
  match pick_weighted target (lb_instances lb) with
  | Some inst => Ret inst
  | None => index_instance (lb_instances lb) (Z.of_nat (length (lb_instances lb)) - 1)
  end.

(** [leastConn]; a nil result is [None]. *)
Fixpoint scan_conns (conns : gmap string Z) (selected : option ServiceInstance)
    (minConnections : Z) (insts : list ServiceInstance) : option ServiceInstance :=
  match insts with
  | [] => selected
  | inst :: insts =>
      let c := default 0%Z (conns !! ID inst) in
      if (c <? minConnections)%Z then scan_conns conns (Some inst) c insts
      else scan_conns conns selected minConnections insts
  end.

Definition leastConn (lb : LoadBalancer) : option ServiceInstance :=
  scan_conns (connections lb) None maxInt64 (lb_instances lb).

(** [ipHash]; the client IP is the list of runes [range] yields. *)
Definition hash_runes (clientIP : list Z) : Z :=
  fold_left (λ hash c, i64 (hash * 31 + c)) clientIP 0%Z.

Definition ipHash (clientIP : list Z) (lb : LoadBalancer) : outcome ServiceInstance :=
  match clientIP with
  | [] => index_instance (lb_instances lb) 0
  | _ =>
      let hash := hash_runes clientIP in
      let hash := if (hash <? 0)%Z then i64 (- hash) else hash in
      index_instance (lb_instances lb) (Z.rem hash (Z.of_nat (length (lb_instances lb))))
  end.

Definition some_instance (o : outcome ServiceInstance) : outcome (result (option ServiceInstance)) :=
  let! inst := o in Ret (Ok (Some inst)).

Definition NextInstance (draw : Z) (clientIP : list Z) (lb : LoadBalancer) :
    LoadBalancer * outcome (result (option ServiceInstance)) :=
  if decide (lb_instances lb = []) then (lb, Ret (Err (Errorf "no available instances" [])))
  else if decide (strategy lb = StrategyRoundRobin) then
    let '(lb, r) := roundRobin lb in (lb, some_instance r)
  else if decide (strategy lb = StrategyRandom) then (lb, some_instance (random draw lb))
  else if decide (strategy lb = StrategyWeightedRandom) then
    (lb, some_instance (weightedRandom draw lb))
  else if decide (strategy lb = StrategyLeastConn) then (lb, Ret (Ok (leastConn lb)))
  else if decide (strategy lb = StrategyIPHash) then (lb, some_instance (ipHash clientIP lb))
  else let '(lb, r) := roundRobin lb in (lb, some_instance r).

Definition IncrementConnections (id : string) (lb : LoadBalancer) : LoadBalancer :=
  MkLB (strategy lb) (lb_instances lb) (currentIndex lb)
    (<[id := i64 (default 0%Z (connections lb !! id) + 1)]> (connections lb)).

Definition DecrementConnections (id : string) (lb : LoadBalancer) : LoadBalancer :=
  let c := default 0%Z (connections lb !! id) in
  if (0 <? c)%Z then
    MkLB (strategy lb) (lb_instances lb) (currentIndex lb) (<[id := i64 (c - 1)]> (connections lb))
  else lb.

Definition GetConnections (id : string) (lb : LoadBalancer) : Z :=
  default 0%Z (connections lb !! id).

Definition SetStrategy (s : string) (lb : LoadBalancer) : LoadBalancer :=
  MkLB s (lb_instances lb) 0 (connections lb).

(** ** The service registry and the selector

    [loadBalancers] maps a service name to a [*LoadBalancer], an index into
    the store [lbs]; a [ConnectionTracker] keeps such a pointer, which stays
    valid when the service is removed from the registry. *)

Record ServiceRegistry := MkRegistry {
  lbs : list LoadBalancer;
  loadBalancers : gmap string nat
}.

Definition NewServiceRegistry : ServiceRegistry := MkRegistry [] ∅.

Definition RegisterService (serviceName s : string) (sr : ServiceRegistry) : ServiceRegistry * nat :=
  let p := length (lbs sr) in
  (MkRegistry (lbs sr ++ [NewLoadBalancer s]) (<[serviceName := p]> (loadBalancers sr)), p).

Definition GetLoadBalancer (serviceName : string) (sr : ServiceRegistry) : option nat :=
  loadBalancers sr !! serviceName.

(** A method call through a [*LoadBalancer]. *)
Definition on_lb (p : nat) (f : LoadBalancer → LoadBalancer) (sr : ServiceRegistry) : ServiceRegistry :=
  MkRegistry (alter f p (lbs sr)) (loadBalancers sr).

Definition UpdateServiceInstances (serviceName : string) (insts : list ServiceInstance)
    (sr : ServiceRegistry) : ServiceRegistry :=
  match GetLoadBalancer serviceName sr with
  | Some p => on_lb p (UpdateInstances insts) sr
  | None => sr
  end.

Definition RemoveService (serviceName : string) (sr : ServiceRegistry) : ServiceRegistry :=
  MkRegistry (lbs sr) (delete serviceName (loadBalancers sr)).

(** A [ConnectionTracker]: its load balancer and instance ID. *)
Definition ConnectionTracker : Type := nat * string.

Definition NewConnectionTracker (p : nat) (id : string) (sr : ServiceRegistry) :
    ServiceRegistry * ConnectionTracker :=
  (on_lb p (IncrementConnections id) sr, (p, id)).

Definition Tracker_Close (ct : ConnectionTracker) (sr : ServiceRegistry) : ServiceRegistry :=
  on_lb ct.1 (DecrementConnections ct.2) sr.

(** [SelectInstance] once the balancer is known. *)
Definition select_with (p : nat) (draw : Z) (clientIP : list Z) (sr : ServiceRegistry) :
    ServiceRegistry * outcome (result (ServiceInstance * ConnectionTracker)) :=
  match lbs sr !! p with
  | None => (sr, Panic "nil pointer dereference" [])
  | Some lb =>
      let '(lb, r) := NextInstance draw clientIP lb in
      let sr := on_lb p (λ _, lb) sr in
      match r with
      | Panic m a => (sr, Panic m a)
      | Ret (Err e) => (sr, Ret (Err e))
      | Ret (Ok None) => (sr, Panic "nil pointer dereference" [])
      | Ret (Ok (Some inst)) =>
          let '(sr, tracker) := NewConnectionTracker p (ID inst) sr in
          (sr, Ret (Ok (inst, tracker)))
      end
  end.

(** A [ServiceSelector] is its registry, its default strategy and its
    manager [m]. *)
Section Selector.
Context {D : Type} `{!Discovery D}.

Definition SelectInstance (defaultStrategy serviceName : string) (clientIP : list Z) (draw : Z)
    (range : list string) (m : ServiceDiscoveryManager D) (sr : ServiceRegistry) :
    ServiceRegistry * outcome (result (ServiceInstance * ConnectionTracker)) :=
  match GetLoadBalancer serviceName sr with
  | Some p => select_with p draw clientIP sr
  | None =>
      let '(sr, p) := RegisterService serviceName defaultStrategy sr in
      match GetService range serviceName m with
      | Err e => (sr, Ret (Err (ErrorfW "failed to get service instances: %w" [] e)))
      | Ok insts => select_with p draw clientIP (on_lb p (UpdateInstances insts) sr)
      end
  end.

Definition UpdateService (serviceName : string) (range : list string)
    (m : ServiceDiscoveryManager D) (sr : ServiceRegistry) : ServiceRegistry * option error :=
  match GetService range serviceName m with
  | Err e => (sr, Some (ErrorfW "failed to get service instances: %w" [] e))
  | Ok insts => (UpdateServiceInstances serviceName insts sr, None)
  end.

End Selector.

Definition SetServiceStrategy (serviceName s : string) (sr : ServiceRegistry) : ServiceRegistry :=
  match GetLoadBalancer serviceName sr with
  | None => (RegisterService serviceName s sr).1
  | Some p => on_lb p (SetStrategy s) sr
  end.
