(* ===== verification/DiscoveryProps.v ===== *)
(** * Discovery: backend contract, health tracking, balancing

    [ReliableDiscovery] is what the manager needs of a backend that does not
    fail; the in-memory registry satisfies it, and the health checks are
    verified against it.  Then the load balancer and the selector. *)

From S2P Require Import Prelude Discovery.
From stdpp Require Import pretty.

Import GoError GoInt GoRand GoStrconv.

(** ** The contract of a backend *)

Class ReliableDiscovery (D : Type) `{!Discovery D} := {
  (** The instance registered under a service name and an ID. *)
  registered : D → string → string → option ServiceInstance;
  (** The IDs listed for a service, in some order. *)
  enumerates : D → string → list string → Prop;
  Register_law inst d :
    (Disc_Register inst d).2 = None ∧
    ∀ n id, registered (Disc_Register inst d).1 n id =
      if decide (n = Name inst ∧ id = ID inst) then Some inst else registered d n id;
  Deregister_law inst d :
    (Disc_Deregister inst d).2 = None ∧
    ∀ n id, registered (Disc_Deregister inst d).1 n id =
      if decide (n = Name inst ∧ id = ID inst) then None else registered d n id;
  GetService_law range n d :
    enumerates d n range →
    ∃ insts, Disc_GetService range n d = Ok insts ∧
      ∀ inst, inst ∈ insts ↔ ∃ id, registered d n id = Some inst
}.

(** ** The in-memory registry *)

Definition static_registered (r : staticRegistry) (n id : string) : option ServiceInstance :=
  services r !! n ≫= λ bucket, bucket !! id.

Definition static_enumerates (r : staticRegistry) (n : string) (range : list string) : Prop :=
  range_of (default ∅ (services r !! n)) range.

Lemma elem_of_range {V} (m : gmap string V) range k :
  range_of m range → k ∈ range ↔ is_Some (m !! k).
Proof.
  unfold range_of. intros ->. rewrite list_elem_of_fmap. split.
  - intros ([k' v] & -> & Hin). apply elem_of_map_to_list in Hin. by exists v.
  - intros [v Hv]. exists (k, v). split; [done|]. by apply elem_of_map_to_list.
Qed.

Lemma elem_of_omap_range {V} (m : gmap string V) range v :
  range_of m range → v ∈ omap (λ k, m !! k) range ↔ ∃ k, m !! k = Some v.
Proof.
  intros Hr. rewrite list_elem_of_omap. split.
  - intros (k & _ & Hk). by exists k.
  - intros [k Hk]. exists k. split; [|done]. apply (elem_of_range m range); [done|]. by exists v.
Qed.

#[export] Instance Static_Reliable : ReliableDiscovery staticRegistry.
Proof.
  refine {| registered := static_registered; enumerates := static_enumerates |}.
  - intros inst r. split; [done|]. intros n id. unfold static_registered. simpl.
    destruct (decide (n = Name inst)) as [->|Hn].
    + rewrite lookup_insert_eq. simpl. destruct (decide (id = ID inst)) as [->|Hid].
      * by rewrite lookup_insert_eq, decide_True.
      * rewrite lookup_insert_ne, decide_False by naive_solver.
        destruct (services r !! Name inst); simpl; [done|]. apply lookup_empty.
    + rewrite lookup_insert_ne, decide_False by naive_solver. done.
  - intros inst r. simpl. unfold Static_Deregister.
    destruct (services r !! Name inst) as [b|] eqn:Hb.
    + split; [by case_decide|]. intros n id. unfold static_registered.
      destruct (decide (delete (ID inst) b = ∅)) as [He|He]; simpl.
      * destruct (decide (n = Name inst)) as [->|Hn].
        -- rewrite lookup_delete_eq, Hb. simpl. case_decide as Hd; [done|].
           rewrite <- (lookup_delete_ne b (ID inst) id), He by naive_solver.
           by rewrite lookup_empty.
        -- rewrite lookup_delete_ne, decide_False by naive_solver. done.
      * destruct (decide (n = Name inst)) as [->|Hn].
        -- rewrite lookup_insert_eq, Hb. simpl. case_decide as Hd.
           ++ destruct Hd as [_ ->]. apply lookup_delete_eq.
           ++ apply lookup_delete_ne. naive_solver.
        -- rewrite lookup_insert_ne, decide_False by naive_solver. done.
    + split; [done|]. intros n id. simpl. case_decide as Hd; [|done].
      destruct Hd as [-> ->]. unfold static_registered. by rewrite Hb.
  - intros range n r Hr. eexists. split; [reflexivity|]. intros inst.
    unfold static_enumerates in Hr. unfold static_registered.
    change (match services r !! n with Some b => b | None => ∅ end)
      with (default ∅ (services r !! n)).
    rewrite elem_of_omap_range by done.
    destruct (services r !! n); simpl; [done|].
    split; intros [k Hk]; [by rewrite lookup_empty in Hk|done].
Defined.

(** ** Health tracking of the manager *)

Section Health.
Context {D : Type} `{ReliableDiscovery D}.

(** Every registered instance is listed by the backend exactly when it is
    not marked unhealthy. *)
Record manager_inv (m : ServiceDiscoveryManager D) : Prop := {
  inv_id : ∀ id inst, instances m !! id = Some inst → ID inst = id;
  inv_listed : ∀ id inst, instances m !! id = Some inst →
    registered (discovery m) (Name inst) id = if decide (id ∈ unhealthy m) then None else Some inst;
  inv_unhealthy : ∀ id, id ∈ unhealthy m → is_Some (instances m !! id)
}.

Lemma Register_inv inst m :
  manager_inv m → manager_inv (Register inst m).1.
Proof.
  intros [H1 H2 H3]. unfold Register. destruct (negb _); [done|].
  destruct (Register_law inst (discovery m)) as [He Hl].
  destruct (Disc_Register inst (discovery m)) as [d err]. simpl in *. subst err. simpl.
  split; simpl.
  - intros id i [[<- <-]|[? ?]]%lookup_insert_Some; [done|by apply H1].
  - intros id i [[<- <-]|[Hne Hi]]%lookup_insert_Some; rewrite Hl.
    + rewrite decide_True by done. rewrite decide_False by set_solver. done.
    + rewrite decide_False by naive_solver. rewrite (H2 _ _ Hi). apply decide_ext. set_solver.
  - intros id Hid. apply elem_of_difference in Hid as [Hu Hne].
    rewrite lookup_insert_ne by set_solver. by apply H3.
Qed.

Lemma Deregister_inv inst m :
  manager_inv m → manager_inv (Deregister inst m).1.
Proof.
  intros [H1 H2 H3]. unfold Deregister. destruct (negb _); [done|].
  destruct (Deregister_law inst (discovery m)) as [He Hl].
  destruct (Disc_Deregister inst (discovery m)) as [d err]. simpl in *. subst err. simpl.
  split; simpl.
  - intros id i [? ?]%lookup_delete_Some. by apply H1.
  - intros id i [Hne Hi]%lookup_delete_Some. rewrite Hl, decide_False by naive_solver.
    rewrite (H2 _ _ Hi). apply decide_ext. set_solver.
  - intros id Hid. apply elem_of_difference in Hid as [Hu Hne].
    rewrite lookup_delete_ne by set_solver. by apply H3.
Qed.

Lemma check_instance_step reach inst m :
  manager_inv m → instances m !! ID inst = Some inst →
  let m' := check_instance reach inst m in
  manager_inv m' ∧ instances m' = instances m ∧
  (∀ id, id ∈ unhealthy m' ↔ if decide (id = ID inst) then reach = false else id ∈ unhealthy m).
Proof.
  intros [H1 H2 H3] Hi. unfold check_instance. destruct reach.
  - case_decide as Hd.
    { split; [by split|]. split; [done|]. intros id. case_decide; [|done]. subst. naive_solver. }
    destruct (Register_law inst (discovery m)) as [He Hl].
    destruct (Disc_Register inst (discovery m)) as [d err]. simpl in *. subst err.
    split; [split; simpl|split; [done|]]; simpl.
    + done.
    + intros id i Hid. rewrite Hl. case_decide as Hc.
      * destruct Hc as [_ ->]. rewrite Hi in Hid. injection Hid as ->.
        rewrite decide_False by set_solver. done.
      * rewrite (H2 _ _ Hid). apply decide_ext.
        assert (id ≠ ID inst); [|set_solver]. intros ->. rewrite Hi in Hid. naive_solver.
    + intros id Hid. apply H3. set_solver.
    + intros id. case_decide; set_solver.
  - case_decide as Hd.
    { split; [by split|]. split; [done|]. intros id. case_decide; [|done]. subst. naive_solver. }
    destruct (Deregister_law inst (discovery m)) as [He Hl].
    split; [split; simpl|split; [done|]]; simpl.
    + done.
    + intros id i Hid. rewrite Hl. case_decide as Hc.
      * destruct Hc as [_ ->]. rewrite decide_True by set_solver. done.
      * rewrite (H2 _ _ Hid). apply decide_ext.
        assert (id ≠ ID inst); [|set_solver]. intros ->. rewrite Hi in Hid. naive_solver.
    + intros id [Hid%elem_of_singleton|Hid]%elem_of_union; [subst; by exists inst|by apply H3].
    + intros id. case_decide; set_solver.
Qed.

Lemma check_all dial insts m :
  manager_inv m → NoDup (ID <$> insts) →
  (∀ inst, inst ∈ insts → instances m !! ID inst = Some inst) →
  let m' := fold_left (λ m inst, check_instance (dial inst) inst m) insts m in
  manager_inv m' ∧ instances m' = instances m ∧
  (∀ id, id ∈ unhealthy m' ↔
     (id ∈ ID <$> insts ∧ ∃ inst, instances m !! id = Some inst ∧ dial inst = false) ∨
     (id ∉ ID <$> insts ∧ id ∈ unhealthy m)).
Proof.
  revert m. induction insts as [|inst insts IH]; intros m Hm Hnd Hin; simpl.
  { split; [done|]. split; [done|]. set_solver. }
  apply NoDup_cons in Hnd as [Hni Hnd]. fold (fmap (M := list) ID) in *.
  pose proof (Hin inst ltac:(by left)) as Hi.
  destruct (check_instance_step (dial inst) inst m Hm Hi) as (Hm1 & Hi1 & Hu1).
  set (m1 := check_instance _ _ m) in *.
  destruct (IH m1 Hm1 Hnd) as (Hm2 & Hi2 & Hu2).
  { intros x Hx. rewrite Hi1. apply Hin. by right. }
  split; [done|]. split; [congruence|]. intros id. rewrite Hu2, Hu1, Hi1.
  destruct (decide (id = ID inst)) as [->|Hne].
  - assert (dial inst = false ↔ ∃ x, instances m !! ID inst = Some x ∧ dial x = false).
    { rewrite Hi. naive_solver. }
    set_solver.
  - set_solver.
Qed.

(** The health check converges in one round over a backend that does not
    fail: afterwards the instances marked unhealthy are exactly the
    registered ones that cannot be dialled, and the backend lists a
    registered instance exactly when it can be dialled; the invariant that
    makes this true is kept by registration and deregistration too. *)
Theorem health_check_converges dial range m :
  manager_inv m → range_of (instances m) range →
  let m' := performHealthCheck dial range m in
  manager_inv m' ∧ instances m' = instances m ∧
  (∀ id inst, instances m !! id = Some inst →
     registered (discovery m') (Name inst) id = if dial inst then Some inst else None) ∧
  (∀ inst, manager_inv (Register inst m').1 ∧ manager_inv (Deregister inst m').1).
Proof.
  intros Hm Hr. unfold performHealthCheck.
  set (insts := omap _ range).
  assert (Hids : ID <$> insts = range).
  { subst insts. assert (Hall : Forall (λ id, is_Some (instances m !! id)) range).
    { apply Forall_forall. intros id Hid. by apply (elem_of_range _ range). }
    clear Hr. induction Hall as [|id range [x Hx] _ IH]; csimpl; [done|]. rewrite Hx.
    rewrite fmap_cons, IH. f_equal. by apply (inv_id _ Hm). }
  destruct (check_all dial insts m Hm) as (Hm' & Hi' & Hu').
  - rewrite Hids. unfold range_of in Hr. rewrite Hr. apply NoDup_fst_map_to_list.
  - intros inst Hin. apply (elem_of_omap_range _ _ _ Hr) in Hin as [k Hk].
    by rewrite (inv_id _ Hm _ _ Hk).
  - set (m' := fold_left _ insts m) in *. split; [done|]. split; [done|]. split.
    + intros id inst Hid. rewrite (inv_listed _ Hm' id inst) by congruence.
      assert (Hin : id ∈ range) by (apply (elem_of_range _ _ _ Hr); by exists inst).
      specialize (Hu' id). rewrite Hids, Hid in Hu'.
      destruct (dial inst) eqn:Hdl.
      * rewrite decide_False; [done|]. rewrite Hu'.
        intros [(_ & x & [= <-] & ?)|[? _]]; [congruence|done].
      * rewrite decide_True; [done|]. apply Hu'. left. split; [done|]. by exists inst.
    + intros inst. split; [by apply Register_inv|by apply Deregister_inv].
Qed.

End Health.

(** ** Start and stop *)

Section Lifecycle.
Context {D : Type} `{ReliableDiscovery D}.

Definition same_flags (m m' : ServiceDiscoveryManager D) : Prop :=
  config m' = config m ∧ started m' = started m ∧ stopCh m' = stopCh m ∧ checking m' = checking m.

Lemma Register_flags inst m :
  same_flags m (Register inst m).1 ∧ (Enabled (config m) = true → (Register inst m).2 = None).
Proof.
  unfold Register. destruct (Enabled (config m)); simpl; [|done].
  destruct (Register_law inst (discovery m)) as [He _].
  destruct (Disc_Register inst (discovery m)) as [d err]. simpl in He. by subst.
Qed.

Lemma Deregister_flags inst m : same_flags m (Deregister inst m).1.
Proof.
  unfold Deregister. destruct (negb _); [done|].
  by destruct (Disc_Deregister inst (discovery m)) as [d [e|]].
Qed.

Lemma Start_enabled unix stamp m :
  started m = false → Enabled (config m) = true →
  let m' := (Start unix stamp m).1 in
  (Start unix stamp m).2 = None ∧ config m' = config m ∧ started m' = true ∧
  stopCh m' = stopCh m ∧
  checking m' = (if (HealthCheckInterval (config m) <=? 0)%Z || stopCh m then checking m else true).
Proof.
  intros Hst Hen. unfold Start, healthCheckLoop. rewrite Hst, Hen. simpl.
  destruct (AutoRegister (config m)).
  - unfold registerSelf. set (inst := MkInstance _ _ _ _ _).
    destruct (Register_flags inst m) as [(Hc & Hs & Hch & Hck) He].
    destruct (Register inst m) as [m1 err]. simpl in *. rewrite (He Hen).
    rewrite Hc, Hch. destruct (_ || _); simpl; by rewrite ?Hc, ?Hch, ?Hck.
  - by destruct (_ || _).
Qed.

Lemma Stop_started range m :
  started m = true → stopCh m = false →
  let m' := (Stop range m).1 in
  (Stop range m).2 = Ret None ∧ config m' = config m ∧ started m' = false ∧
  stopCh m' = true ∧ checking m' = false.
Proof.
  intros Hst Hch. unfold Stop. rewrite Hst, Hch. simpl.
  destruct (AutoRegister (config m)); [|done]. simpl. unfold deregisterSelf.
  destruct (list_find _ _) as [[i inst]|]; [|done].
  destruct (Deregister_flags inst (set_flags false true false m)) as (-> & -> & -> & ->). done.
Qed.

(** A manager cannot be restarted: after a full start/stop cycle a second
    [Start] succeeds but runs no health checks (its goroutine sees the closed
    stop channel), and the second [Stop] panics on closing that channel
    again. *)
Theorem manager_restart_panics (m : ServiceDiscoveryManager D) u1 s1 u2 s2 r1 r2 :
  started m = false → stopCh m = false → Enabled (config m) = true →
  let m1 := (Start u1 s1 m).1 in
  let m2 := (Stop r1 m1).1 in
  let m3 := (Start u2 s2 m2).1 in
  (Start u1 s1 m).2 = None ∧ (Stop r1 m1).2 = Ret None ∧ (Start u2 s2 m2).2 = None ∧
  checking m3 = false ∧ (Stop r2 m3).2 = Panic "close of closed channel" [].
Proof.
  intros Hst Hch Hen m1 m2 m3.
  destruct (Start_enabled u1 s1 m Hst Hen) as (He1 & Hc1 & Hs1 & Hch1 & _). fold m1 in Hc1, Hs1, Hch1.
  rewrite Hch in Hch1.
  destruct (Stop_started r1 m1 Hs1 Hch1) as (He2 & Hc2 & Hs2 & Hch2 & Hk2). fold m2 in Hc2, Hs2, Hch2, Hk2.
  destruct (Start_enabled u2 s2 m2 Hs2) as (He3 & Hc3 & Hs3 & Hch3 & Hk3); [congruence|].
  fold m3 in Hc3, Hs3, Hch3, Hk3. rewrite Hch2, orb_true_r, Hk2 in Hk3. rewrite Hch2 in Hch3.
  split; [done|]. split; [done|]. split; [done|]. split; [done|].
  unfold Stop. by rewrite Hs3, Hch3.
Qed.

End Lifecycle.

(** ** Connection accounting *)

Lemma found_spec insts id : found insts id = true ↔ id ∈ ID <$> insts.
Proof.
  unfold found. rewrite existsb_exists, list_elem_of_fmap. split.
  - intros (i & Hi & Hb). exists i. rewrite bool_decide_eq_true in Hb.
    split; [done|]. by apply list_elem_of_In.
  - intros (i & -> & Hi). exists i. rewrite bool_decide_eq_true. split; [|done].
    by apply list_elem_of_In.
Qed.

Lemma add_missing_lookup insts conns id :
  add_missing insts conns !! id =
    match conns !! id with
    | Some c => Some c
    | None => if decide (id ∈ ID <$> insts) then Some 0%Z else None
    end.
Proof.
  unfold add_missing. revert conns. induction insts as [|i insts IH]; intros conns; csimpl.
  { by destruct (conns !! id). }
  rewrite IH. destruct (decide (id = ID i)) as [->|Hne].
  - destruct (conns !! ID i) as [c|] eqn:Hc; [by rewrite Hc|].
    rewrite lookup_insert_eq. by rewrite decide_True by (by left).
  - assert (Hl : (match conns !! ID i with Some _ => conns | None => <[ID i := 0%Z]> conns end) !! id
      = conns !! id).
    { destruct (conns !! ID i); [done|]. by rewrite lookup_insert_ne. }
    rewrite Hl. destruct (conns !! id); [done|]. apply decide_ext. set_solver.
Qed.

Lemma UpdateInstances_lookup insts lb id :
  connections (UpdateInstances insts lb) !! id =
    if decide (id ∈ ID <$> insts) then Some (GetConnections id lb) else None.
Proof.
  unfold UpdateInstances, GetConnections. simpl. rewrite map_lookup_filter, add_missing_lookup.
  destruct (decide (id ∈ ID <$> insts)) as [Hin|Hin].
  - assert (found insts id = true) by (by apply found_spec).
    destruct (connections lb !! id); simpl; by rewrite option_guard_True by done.
  - assert (found insts id ≠ true) by (by rewrite found_spec).
    destruct (connections lb !! id); simpl; [|done]. by rewrite option_guard_False by done.
Qed.

(** Counts are never negative, never above the int range. *)
Definition counts_ok (lb : LoadBalancer) : Prop :=
  ∀ id, (0 <= GetConnections id lb < 2 ^ 63)%Z.

(** Connection accounting: an update of the instance list keeps the count
    of every instance that stays, starts new ones at zero and forgets the
    removed ones; opening a connection and closing its tracker restores every
    count, and closing never makes a count negative, also when the instance
    was forgotten in between. *)
Theorem connection_accounting insts lb id :
  counts_ok lb → (GetConnections id lb < 2 ^ 63 - 1)%Z →
  (∀ id', connections (UpdateInstances insts lb) !! id' =
     if decide (id' ∈ ID <$> insts) then Some (GetConnections id' lb) else None) ∧
  (∀ id', GetConnections id' (DecrementConnections id (IncrementConnections id lb)) =
     GetConnections id' lb) ∧
  counts_ok (UpdateInstances insts lb) ∧ counts_ok (IncrementConnections id lb) ∧
  counts_ok (DecrementConnections id lb) ∧
  counts_ok (DecrementConnections id (UpdateInstances insts (IncrementConnections id lb))).
Proof.
  intros Hok Hlt.
  assert (Hinc : ∀ id', GetConnections id' (IncrementConnections id lb) =
    (GetConnections id' lb + if decide (id' = id) then 1 else 0)%Z).
  { intros id'. unfold GetConnections at 1, IncrementConnections. simpl.
    fold (GetConnections id lb). specialize (Hok id).
    rewrite i64_id by in_range.
    case_decide; subst; [by rewrite lookup_insert_eq|]. rewrite lookup_insert_ne by done.
    unfold GetConnections. lia. }
  assert (Hdec : ∀ lb', counts_ok lb' → ∀ id', GetConnections id' (DecrementConnections id lb') =
    (GetConnections id' lb' - if decide (id' = id ∧ (0 < GetConnections id lb')%Z) then 1 else 0)%Z).
  { intros lb' Hok' id'. unfold DecrementConnections. fold (GetConnections id lb').
    specialize (Hok' id).
    destruct (Z.ltb_spec 0 (GetConnections id lb')).
    - unfold GetConnections at 1. simpl. rewrite i64_id by in_range.
      destruct (decide (id' = id)) as [->|].
      + rewrite lookup_insert_eq, decide_True by done. done.
      + rewrite lookup_insert_ne, decide_False by naive_solver. unfold GetConnections. lia.
    - rewrite decide_False by lia. lia. }
  assert (Hok1 : counts_ok (IncrementConnections id lb)).
  { intros id'. rewrite Hinc. specialize (Hok id'). case_decide; subst; lia. }
  assert (Hupd : ∀ lb', counts_ok lb' → counts_ok (UpdateInstances insts lb')).
  { intros lb' Hok' id'. unfold GetConnections. rewrite UpdateInstances_lookup.
    specialize (Hok' id'). case_decide; simpl; lia. }
  assert (Hdok : ∀ lb', counts_ok lb' → counts_ok (DecrementConnections id lb')).
  { intros lb' Hok' id'. rewrite Hdec by done. pose proof (Hok' id').
    case_decide as Hd; [|lia]. destruct Hd as [-> ?]. lia. }
  split; [apply UpdateInstances_lookup|].
  split; [|split; [by apply Hupd|split; [done|split; [by apply Hdok|by apply Hdok, Hupd]]]].
  intros id'. rewrite Hdec, !Hinc by done. specialize (Hok id).
  rewrite (decide_True (P := id = id)) by done.
  destruct (decide (id' = id)); [rewrite decide_True by (split; [done|lia])|rewrite decide_False by naive_solver]; lia.
Qed.

(** ** Selection *)

Lemma index_instance_ok insts i :
  (0 <= i < Z.of_nat (length insts))%Z →
  ∃ inst, index_instance insts i = Ret inst ∧ inst ∈ insts ∧ insts !! Z.to_nat i = Some inst.
Proof.
  intros Hi. unfold index_instance. zcmp.
  destruct (lookup_lt_is_Some_2 insts (Z.to_nat i)) as [inst Hinst]; [lia|].
  rewrite Hinst. exists inst. split; [done|]. split; [by eapply list_elem_of_lookup_2|done].
Qed.

Lemma index_instance_panic insts i :
  ¬ (0 <= i < Z.of_nat (length insts))%Z →
  index_instance insts i = Panic "index out of range" [].
Proof.
  intros Hi. unfold index_instance. destruct (Z.leb_spec 0 i); [|done].
  rewrite lookup_ge_None_2 by lia. done.
Qed.

Lemma instanceWeight_pos inst : (0 < instanceWeight inst < 2 ^ 63)%Z.
Proof.
  unfold instanceWeight. destruct (Payload inst) as [p|]; [|lia].
  destruct (Atoi _) as [w|] eqn:Hw; [|lia]. apply Atoi_range in Hw. unfold in_i64 in Hw.
  destruct (Z.leb_spec w 0); lia.
Qed.

Definition sum_weights (insts : list ServiceInstance) : Z :=
  foldr (λ inst s, instanceWeight inst + s)%Z 0%Z insts.

Lemma sum_weights_pos insts : (0 <= sum_weights insts)%Z ∧ (insts ≠ [] → 0 < sum_weights insts)%Z.
Proof.
  induction insts as [|i insts [IH _]]; simpl; [done|].
  pose proof (instanceWeight_pos i). split; [lia|]. intros _. lia.
Qed.

Lemma total_weight_sum insts :
  (sum_weights insts < 2 ^ 63)%Z → total_weight insts = sum_weights insts.
Proof.
  intros Hfit. unfold total_weight.
  assert (Hgen : ∀ acc, (0 <= acc)%Z → (acc + sum_weights insts < 2 ^ 63)%Z →
    fold_left (λ total inst, i64 (total + instanceWeight inst)) insts acc
      = (acc + sum_weights insts)%Z).
  { clear Hfit. induction insts as [|i insts IH]; intros acc H0 Hacc; simpl in *; [lia|].
    pose proof (instanceWeight_pos i). pose proof (proj1 (sum_weights_pos insts)).
    rewrite i64_id by in_range. rewrite IH by lia. lia. }
  by rewrite Hgen.
Qed.

Lemma pick_weighted_ok target insts :
  (0 <= target < sum_weights insts)%Z → (sum_weights insts < 2 ^ 63)%Z →
  ∃ inst, pick_weighted target insts = Some inst ∧ inst ∈ insts.
Proof.
  revert target. induction insts as [|i insts IH]; intros target Ht Hfit; simpl in *; [lia|].
  pose proof (instanceWeight_pos i). pose proof (proj1 (sum_weights_pos insts)).
  rewrite i64_id by in_range.
  destruct (Z.ltb_spec (target - instanceWeight i) 0).
  - exists i. split; [done|by left].
  - destruct (IH (target - instanceWeight i)%Z) as (x & Hx & Hin); [lia..|].
    exists x. split; [done|by right].
Qed.

(** [leastConn] selects an instance with the fewest connections. *)
Lemma scan_conns_spec conns insts sel mn :
  let r := scan_conns conns sel mn insts in
  (∃ inst, r = Some inst ∧ inst ∈ insts ∧ (default 0 (conns !! ID inst) < mn)%Z ∧
     ∀ x, x ∈ insts → (default 0 (conns !! ID inst) <= default 0 (conns !! ID x))%Z) ∨
  (r = sel ∧ ∀ x, x ∈ insts → (mn <= default 0 (conns !! ID x))%Z).
Proof.
  revert sel mn. induction insts as [|i insts IH]; intros sel mn; simpl.
  { right. split; [done|]. intros x Hx. by apply not_elem_of_nil in Hx. }
  destruct (Z.ltb_spec (default 0%Z (conns !! ID i)) mn) as [Hlt|Hge].
  - left. destruct (IH (Some i) (default 0%Z (conns !! ID i))) as [(x & Hx & Hin & Hl & Hm)|[Hr Hm]].
    + exists x. split; [done|]. split; [by right|]. split; [lia|].
      intros y [->|Hy]%elem_of_cons; [lia|by apply Hm].
    + exists i. split; [done|]. split; [by left|]. split; [done|].
      intros y [->|Hy]%elem_of_cons; [lia|by apply Hm].
  - destruct (IH sel mn) as [(x & Hx & Hin & Hl & Hm)|[Hr Hm]].
    + left. exists x. split; [done|]. split; [by right|]. split; [done|].
      intros y [->|Hy]%elem_of_cons; [lia|by apply Hm].
    + right. split; [done|]. intros y [->|Hy]%elem_of_cons; [done|by apply Hm].
Qed.

Lemma leastConn_ok lb :
  lb_instances lb ≠ [] → (∀ id, GetConnections id lb < maxInt64)%Z →
  ∃ inst, leastConn lb = Some inst ∧ inst ∈ lb_instances lb ∧
    ∀ x, x ∈ lb_instances lb → (GetConnections (ID inst) lb <= GetConnections (ID x) lb)%Z.
Proof.
  intros Hne Hc. unfold leastConn.
  destruct (scan_conns_spec (connections lb) (lb_instances lb) None maxInt64)
    as [(inst & -> & Hin & _ & Hm)|[_ Hm]].
  - exists inst. done.
  - destruct (lb_instances lb) as [|i l]; [done|].
    specialize (Hm i ltac:(by left)). specialize (Hc (ID i)). unfold GetConnections in Hc. lia.
Qed.

Lemma roundRobin_ok lb :
  (0 <= currentIndex lb < Z.of_nat (length (lb_instances lb)))%Z →
  ∃ lb' inst, roundRobin lb = (lb', Ret inst) ∧ inst ∈ lb_instances lb ∧
    lb_instances lb !! Z.to_nat (currentIndex lb) = Some inst ∧
    lb_instances lb' = lb_instances lb ∧ strategy lb' = strategy lb ∧
    connections lb' = connections lb ∧
    currentIndex lb' = ((currentIndex lb + 1) mod Z.of_nat (length (lb_instances lb)))%Z.
Proof.
  intros Hi. unfold roundRobin.
  destruct (index_instance_ok (lb_instances lb) (currentIndex lb) Hi) as (inst & -> & Hin & Hl).
  eexists _, inst. split; [reflexivity|]. simpl. rewrite Z.rem_mod_nonneg by lia. done.
Qed.

Lemma hash_runes_range clientIP : in_i64 (hash_runes clientIP).
Proof.
  unfold hash_runes. assert (H0 : in_i64 0) by in_range. revert H0.
  generalize 0%Z. induction clientIP as [|c l IH]; intros acc Hacc; simpl; [done|].
  apply IH, i64_range.
Qed.

(** The address hashes to the most negative int, whose negation overflows,
    and the remainder is negative. *)
Definition hash_overflows (clientIP : list Z) (n : nat) : Prop :=
  clientIP ≠ [] ∧ hash_runes clientIP = minInt64 ∧ Z.rem minInt64 (Z.of_nat n) ≠ 0%Z.

Lemma ipHash_cases clientIP lb :
  lb_instances lb ≠ [] →
  (¬ hash_overflows clientIP (length (lb_instances lb)) ∧
   ∃ inst, ipHash clientIP lb = Ret inst ∧ inst ∈ lb_instances lb) ∨
  (hash_overflows clientIP (length (lb_instances lb)) ∧
   ipHash clientIP lb = Panic "index out of range" []).
Proof.
  intros Hne. set (n := Z.of_nat (length (lb_instances lb))).
  assert (Hn : (0 < n)%Z) by (subst n; destruct (lb_instances lb); [done|simpl; lia]).
  unfold hash_overflows. fold n. destruct clientIP as [|c l] eqn:Hip.
  { left. split; [tauto|]. simpl.
    destruct (index_instance_ok (lb_instances lb) 0) as (inst & -> & Hin & _); [lia|eauto]. }
  rewrite <- Hip. assert (Hgo : ipHash clientIP lb = index_instance (lb_instances lb)
    (Z.rem (if (hash_runes clientIP <? 0)%Z then i64 (- hash_runes clientIP)
            else hash_runes clientIP) n)) by (by rewrite Hip).
  rewrite Hgo. pose proof (hash_runes_range clientIP) as Hr. unfold in_i64 in Hr.
  assert (Hin : ∀ h, (0 <= h)%Z → ∃ inst, index_instance (lb_instances lb) (Z.rem h n) = Ret inst ∧
    inst ∈ lb_instances lb).
  { intros h Hh. pose proof (Z.rem_bound_pos h n Hh Hn).
    destruct (index_instance_ok (lb_instances lb) (Z.rem h n)) as (inst & -> & Hi & _); [lia|eauto]. }
  destruct (Z.ltb_spec (hash_runes clientIP) 0) as [Hneg|Hpos].
  - destruct (Z.eq_dec (hash_runes clientIP) minInt64) as [Hm|Hm].
    + rewrite Hm. change (i64 (- minInt64)) with minInt64.
      destruct (Z.eq_dec (Z.rem minInt64 n) 0%Z) as [H0|H0].
      * left. split; [tauto|]. rewrite H0.
        destruct (index_instance_ok (lb_instances lb) 0) as (inst & -> & Hi & _); [lia|eauto].
      * right. split; [split; [by rewrite Hip|done]|]. apply index_instance_panic.
        pose proof (Z.rem_nonpos minInt64 n ltac:(lia) ltac:(unfold minInt64; lia)). lia.
    + left. split; [tauto|]. unfold minInt64 in Hm. rewrite i64_id by in_range.
      apply Hin. lia.
  - left. split; [|by apply Hin]. intros (_ & Hm & _). unfold minInt64 in Hm. lia.
Qed.

(** What [NextInstance] needs of its balancer. *)
Record lb_wf (lb : LoadBalancer) : Prop := {
  wf_nonempty : lb_instances lb ≠ [];
  wf_index : (0 <= currentIndex lb < Z.of_nat (length (lb_instances lb)))%Z;
  wf_weights : (sum_weights (lb_instances lb) < 2 ^ 63)%Z;
  wf_conns : ∀ id, (GetConnections id lb < maxInt64)%Z
}.

(** Every strategy selects one of the current instances and keeps the
    balancer well formed: round robin the instance at the index, which it
    advances cyclically; least connections one with the fewest connections;
    an unknown strategy name behaves as round robin. *)
Theorem NextInstance_correct draw clientIP lb :
  lb_wf lb → ¬ hash_overflows clientIP (length (lb_instances lb)) →
  ∃ lb' inst, NextInstance draw clientIP lb = (lb', Ret (Ok (Some inst))) ∧
    inst ∈ lb_instances lb ∧ lb_wf lb' ∧ lb_instances lb' = lb_instances lb ∧
    strategy lb' = strategy lb ∧ connections lb' = connections lb ∧
    (strategy lb = StrategyLeastConn →
       ∀ x, x ∈ lb_instances lb → (GetConnections (ID inst) lb <= GetConnections (ID x) lb)%Z) ∧
    (strategy lb ∉ [StrategyRandom; StrategyWeightedRandom; StrategyLeastConn; StrategyIPHash] →
       lb_instances lb !! Z.to_nat (currentIndex lb) = Some inst ∧
       currentIndex lb' = ((currentIndex lb + 1) mod Z.of_nat (length (lb_instances lb)))%Z).
Proof.
  intros Hwf Hh. pose proof (wf_nonempty _ Hwf) as Hne. pose proof (wf_index _ Hwf) as Hi.
  unfold NextInstance. rewrite decide_False by done.
  assert (Hrr : ∃ lb' inst, (let '(lb', r) := roundRobin lb in (lb', some_instance r))
      = (lb', Ret (Ok (Some inst))) ∧
    inst ∈ lb_instances lb ∧ lb_wf lb' ∧ lb_instances lb' = lb_instances lb ∧
    strategy lb' = strategy lb ∧ connections lb' = connections lb ∧
    lb_instances lb !! Z.to_nat (currentIndex lb) = Some inst ∧
    currentIndex lb' = ((currentIndex lb + 1) mod Z.of_nat (length (lb_instances lb)))%Z).
  { destruct (roundRobin_ok lb Hi) as (lb' & inst & -> & Hin & Hl & Hii & Hs & Hc & Hx).
    exists lb', inst. split; [done|]. split; [done|]. split; [|done].
    split; unfold GetConnections; rewrite ?Hii, ?Hc, ?Hx; [done| |apply Hwf|apply Hwf].
    apply Z.mod_pos_bound. lia. }
  destruct (decide (strategy lb = StrategyRoundRobin)) as [Hs|_].
  { destruct Hrr as (lb' & inst & -> & ? & ? & ? & ? & ? & ? & ?). exists lb', inst.
    split_and!; try done. rewrite Hs. done. }
  destruct (decide (strategy lb = StrategyRandom)) as [Hs|Hs1].
  { unfold random. rewrite Intn_pos by lia.
    destruct (index_instance_ok (lb_instances lb) (draw mod Z.of_nat (length (lb_instances lb))))
      as (inst & -> & Hin & _); [apply Z.mod_pos_bound; lia|].
    exists lb, inst. rewrite Hs. split_and!; try done. intros Hn. by destruct Hn; left. }
  destruct (decide (strategy lb = StrategyWeightedRandom)) as [Hs|Hs2].
  { pose proof (wf_weights _ Hwf) as Hw. destruct (sum_weights_pos (lb_instances lb)) as [_ Hp].
    specialize (Hp Hne). unfold weightedRandom. rewrite total_weight_sum, Intn_pos by done.
    destruct (pick_weighted_ok (draw mod sum_weights (lb_instances lb)) (lb_instances lb))
      as (inst & -> & Hin); [apply Z.mod_pos_bound; lia|done|].
    exists lb, inst. rewrite Hs. split_and!; try done. intros Hn. by destruct Hn; right; left. }
  destruct (decide (strategy lb = StrategyLeastConn)) as [Hs|Hs3].
  { destruct (leastConn_ok lb Hne (wf_conns _ Hwf)) as (inst & -> & Hin & Hm).
    exists lb, inst. rewrite Hs. split_and!; try done. intros Hn. by destruct Hn; right; right; left. }
  destruct (decide (strategy lb = StrategyIPHash)) as [Hs|Hs4].
  { destruct (ipHash_cases clientIP lb Hne) as [[_ (inst & -> & Hin)]|[Hbad _]]; [|done].
    exists lb, inst. rewrite Hs. split_and!; try done. intros Hn. by destruct Hn; right; right; right; left. }
  destruct Hrr as (lb' & inst & -> & ? & ? & ? & ? & ? & ? & ?). exists lb', inst. done.
Qed.

(** [k] calls of a balancer. *)
Fixpoint next_n (k : nat) (lb : LoadBalancer) : LoadBalancer :=
  match k with
  | 0 => lb
  | S k => next_n k (NextInstance 0 [] lb).1
  end.

Lemma next_n_round_robin k lb :
  strategy lb = StrategyRoundRobin → (0 <= currentIndex lb)%Z →
  (currentIndex lb + Z.of_nat k < Z.of_nat (length (lb_instances lb)))%Z →
  let lb' := next_n k lb in
  strategy lb' = StrategyRoundRobin ∧ currentIndex lb' = (currentIndex lb + Z.of_nat k)%Z.
Proof.
  revert lb. induction k as [|k IH]; intros lb Hs H0 Hlt; cbn [next_n].
  { split; [done|lia]. }
  assert (Hne : lb_instances lb ≠ []) by (intros Heq; rewrite Heq in Hlt; simpl in Hlt; lia).
  destruct (roundRobin_ok lb ltac:(lia)) as (lb' & inst & Hrr & _ & _ & Hii & Hs' & _ & Hx).
  assert (Hn : (NextInstance 0 [] lb).1 = lb').
  { unfold NextInstance. rewrite decide_False, decide_True by done. by rewrite Hrr. }
  rewrite Hn. rewrite Z.mod_small in Hx by lia.
  destruct (IH lb') as [H1 H2]; [congruence|lia|rewrite Hii; lia|]. split; [done|lia].
Qed.

(** A round-robin balancer panics when its instance list shrinks below the
    index: [UpdateInstances] does not reset [currentIndex], so after [k]
    selections from a list of more than [k] instances, an update to a
    non-empty list of at most [k] instances makes the next selection index
    out of range. *)
Theorem shrink_panics insts insts' k draw clientIP :
  k < length insts → insts' ≠ [] → length insts' <= k →
  (NextInstance draw clientIP
     (UpdateInstances insts' (next_n k (UpdateInstances insts (NewLoadBalancer StrategyRoundRobin))))).2
    = Panic "index out of range" [].
Proof.
  intros Hk Hne Hle. set (lb0 := UpdateInstances insts _).
  destruct (next_n_round_robin k lb0) as [Hs Hi]; [done|done|simpl; lia|].
  simpl in Hi. unfold NextInstance. simpl. rewrite decide_False by done. rewrite Hs.
  rewrite decide_True by done. unfold roundRobin. simpl. rewrite Hi.
  rewrite index_instance_panic by lia. done.
Qed.

(** The address hash of the [ip_hash] strategy overflows for some client
    addresses: when the 64-bit hash is the most negative int its negation is
    still negative and the selection indexes out of range; this is the only
    way it can panic, and the string [8M<N:K97;11LG] does it with any three
    instances. *)
Theorem ip_hash_overflow draw lb :
  strategy lb = StrategyIPHash → length (lb_instances lb) = 3 →
  (NextInstance draw [56; 77; 60; 78; 58; 75; 57; 55; 59; 49; 49; 76; 71]%Z lb).2
    = Panic "index out of range" [] ∧
  ∀ clientIP, (∃ inst, ipHash clientIP lb = Ret inst ∧ inst ∈ lb_instances lb) ∨
    hash_runes clientIP = minInt64.
Proof.
  intros Hs Hlen. assert (Hne : lb_instances lb ≠ []) by (intros Heq; by rewrite Heq in Hlen).
  split.
  - unfold NextInstance. rewrite decide_False by done. rewrite Hs.
    repeat (rewrite decide_False by done). rewrite decide_True by done.
    destruct (ipHash_cases [56; 77; 60; 78; 58; 75; 57; 55; 59; 49; 49; 76; 71]%Z lb Hne)
      as [[Hn _]|[_ ->]]; [|done].
    destruct Hn. split; [done|]. rewrite Hlen. split; by vm_compute.
  - intros clientIP. destruct (ipHash_cases clientIP lb Hne) as [[_ ?]|[(_ & Hm & _) _]]; [by left|by right].
Qed.

(** A service whose balancer has no instances. *)
Definition starved (serviceName : string) (sr : ServiceRegistry) : Prop :=
  ∃ p lb, GetLoadBalancer serviceName sr = Some p ∧ lbs sr !! p = Some lb ∧ lb_instances lb = [].

Lemma RegisterService_starved serviceName s sr :
  starved serviceName (RegisterService serviceName s sr).1.
Proof.
  unfold starved, RegisterService, GetLoadBalancer. simpl.
  exists (length (lbs sr)), (NewLoadBalancer s). rewrite lookup_insert_eq.
  by rewrite lookup_app_r, Nat.sub_diag by lia.
Qed.

(** A selector never asks the discovery backend twice: once a service has
    a balancer without instances, every selection fails with "no available
    instances" whatever the backend would answer now, and changes nothing.
    Two ordinary calls lead there: a first selection while the backend fails,
    and setting a strategy before the first selection. *)
Theorem selector_starvation {D} `{Discovery D} (m m' : ServiceDiscoveryManager D)
    dflt serviceName clientIP draw range range' sr e s :
  GetLoadBalancer serviceName sr = None → GetService range serviceName m = Err e →
  let sr1 := (SelectInstance dflt serviceName clientIP draw range m sr).1 in
  let sr2 := SetServiceStrategy serviceName s sr in
  SelectInstance dflt serviceName clientIP draw range' m' sr1 =
    (sr1, Ret (Err (Errorf "no available instances" []))) ∧
  SelectInstance dflt serviceName clientIP draw range' m' sr2 =
    (sr2, Ret (Err (Errorf "no available instances" []))).
Proof.
  intros Hnone Herr sr1 sr2.
  assert (Hst : ∀ sr', starved serviceName sr' →
    SelectInstance dflt serviceName clientIP draw range' m' sr' =
      (sr', Ret (Err (Errorf "no available instances" [])))).
  { intros sr' (p & lb & Hp & Hlb & Hi). unfold SelectInstance. rewrite Hp.
    unfold select_with. rewrite Hlb. unfold NextInstance. rewrite decide_True by done. simpl.
    f_equal. unfold on_lb. destruct sr' as [l r]. simpl in *. f_equal.
    apply list_eq. intros i. destruct (decide (i = p)) as [->|Hn].
    - by rewrite list_lookup_alter_eq, Hlb.
    - by rewrite list_lookup_alter_ne. }
  split; apply Hst.
  - subst sr1. unfold SelectInstance. rewrite Hnone.
    pose proof (RegisterService_starved serviceName dflt sr) as Hr.
    destruct (RegisterService serviceName dflt sr) as [sr' p]. by rewrite Herr.
  - subst sr2. unfold SetServiceStrategy. rewrite Hnone. apply RegisterService_starved.
Qed.

(** ** Concrete instances *)

Module DiscoveryExample.

Definition a1 : ServiceInstance := MkInstance "a1" "svc" "10.0.0.1" 80 None.
Definition a2 : ServiceInstance := MkInstance "a2" "svc" "10.0.0.2" 80 (Some {["weight" := "5"]}).

Definition cfg : ManagerConfig :=
  MkManagerConfig true "static" "" 1 1 1 false "self" "localhost" 1 [].

Definition m0 : ServiceDiscoveryManager staticRegistry :=
  MkManager cfg newStaticRegistry ∅ ∅ false false false.

Definition m2 : ServiceDiscoveryManager staticRegistry := (Register a2 (Register a1 m0).1).1.

Lemma m0_inv : manager_inv m0.
Proof.
  split; simpl.
  - intros id inst Hi. by rewrite lookup_empty in Hi.
  - intros id inst Hi. by rewrite lookup_empty in Hi.
  - intros id Hi. set_solver.
Qed.

Lemma health_check_converges_witness :
  let m' := performHealthCheck (λ i, bool_decide (ID i = "a1")) ["a1"; "a2"] m2 in
  static_registered (discovery m') "svc" "a1" = Some a1 ∧
  static_registered (discovery m') "svc" "a2" = None.
Proof.
  destruct (health_check_converges (λ i, bool_decide (ID i = "a1")) ["a1"; "a2"] m2)
    as (_ & _ & H & _).
  - apply Register_inv, Register_inv, m0_inv.
  - unfold range_of. vm_compute. apply Permutation_refl.
  - split; [exact (H "a1" a1 eq_refl)|exact (H "a2" a2 eq_refl)].
Defined.

Lemma manager_restart_panics_witness :
  (Stop [] (Start 2 "t" (Stop [] (Start 1 "t" m0).1).1).1).2 = Panic "close of closed channel" [].
Proof.
  apply (manager_restart_panics m0 1 "t" 2 "t" [] []); reflexivity.
Defined.

Definition lb2 : LoadBalancer :=
  UpdateInstances [a1; a2] (NewLoadBalancer StrategyLeastConn).

Lemma connection_accounting_witness :
  GetConnections "a1" (DecrementConnections "a1" (IncrementConnections "a1" lb2)) = 0%Z.
Proof.
  apply (connection_accounting [a1] lb2 "a1").
  - intros id. unfold GetConnections, lb2. rewrite UpdateInstances_lookup.
    unfold GetConnections. simpl. rewrite lookup_empty. case_decide; simpl; lia.
  - vm_compute. done.
Defined.

Lemma NextInstance_correct_witness :
  ∃ lb' inst, NextInstance 4 [] lb2 = (lb', Ret (Ok (Some inst))) ∧ inst ∈ [a1; a2].
Proof.
  destruct (NextInstance_correct 4 [] lb2) as (lb' & inst & H1 & H2 & _).
  - split.
    + discriminate.
    + simpl. lia.
    + by vm_compute.
    + intros id. unfold GetConnections, lb2. rewrite UpdateInstances_lookup.
      unfold GetConnections, maxInt64. simpl. rewrite lookup_empty. case_decide; simpl; lia.
  - intros [Hn _]. done.
  - exists lb', inst. split; [exact H1|exact H2].
Defined.

Lemma shrink_panics_witness :
  (NextInstance 0 [] (UpdateInstances [a1] (next_n 1 (UpdateInstances [a1; a2]
     (NewLoadBalancer StrategyRoundRobin))))).2 = Panic "index out of range" [].
Proof. apply (shrink_panics [a1; a2] [a1] 1 0 []); simpl; [lia|done|lia]. Defined.

Lemma ip_hash_overflow_witness :
  (NextInstance 0 [56; 77; 60; 78; 58; 75; 57; 55; 59; 49; 49; 76; 71]%Z
     (MkLB StrategyIPHash [a1; a2; a1] 0 ∅)).2 = Panic "index out of range" [].
Proof. apply (ip_hash_overflow 0 (MkLB StrategyIPHash [a1; a2; a1] 0 ∅)); reflexivity. Defined.

Lemma selector_starvation_witness :
  let disabled := MkManager DefaultManagerConfig newStaticRegistry ∅ ∅ false false false in
  (SelectInstance StrategyRandom "svc" [] 0 ["a1"; "a2"] m2
     (SelectInstance StrategyRandom "svc" [] 0 [] disabled NewServiceRegistry).1).2 =
  Ret (Err (Errorf "no available instances" [])).
Proof.
  intros disabled.
  destruct (selector_starvation disabled m2 StrategyRandom "svc" [] 0 [] ["a1"; "a2"]
    NewServiceRegistry (Errorf "service discovery is disabled" []) "random") as [H _].
  - reflexivity.
  - reflexivity.
  - by rewrite H.
Defined.

End DiscoveryExample.
