(* ===== verification/RateLimit.v ===== *)
(** * plugins/ratelimit: the in-memory rate limiters

    Models [src/plugins/ratelimit/memory_fixed_window.go], [token_bucket.go]
    and [ratelimiter/ratelimiter.go].  Each method holds its mutex, so it is
    one step; the clock reading of a call is an argument.  The limiter of
    golang.org/x/time/rate is third-party code: the class [XRate]. *)

From Stdlib Require Import SpecFloat.
From S2P Require Import Prelude.

Import GoError GoInt.

(** ** Shared eviction of idle keys

    [maybeCleanup] of the two keyed limiters is the same code over different
    entry types; [lastSeen] reads an entry's time.  [order] is the
    enumeration order Go picks for a map. *)

Section Cleanup.
Context {E : Type} (lastSeen : E → Z) (order : gmap string E → list string).

(** One pass of the search for the least recently seen key. *)
Fixpoint oldest (m : gmap string E) (range : list string) (best : option (string * Z)) :
    option (string * Z) :=
  match range with
  | [] => best
  | k :: range =>
      match m !! k with
      | None => oldest m range best
      | Some e =>
          let best :=
            match best with
            | None => Some (k, lastSeen e)
            | Some (_, t) => if GoTime.Before (lastSeen e) t then Some (k, lastSeen e) else best
            end in
          oldest m range best
      end
  end.

(** The eviction loop; [fuel] bounds its rounds, and every round but the last
    removes a key. *)
Fixpoint evict (fuel : nat) (maxKeys : Z) (m : gmap string E) : gmap string E :=
  match fuel with
  | 0 => m
  | S fuel =>
      if (maxKeys <? Z.of_nat (size m))%Z then
        match oldest m (order m) None with
        | None => m
        | Some (k, _) => if decide (k = "") then m else evict fuel maxKeys (delete k m)
        end
      else m
  end.

(** [maybeCleanup]: the new entries, interval and time of the last cleanup. *)
Definition cleanup_entries (ttl maxKeys now : Z) (m : gmap string E) : gmap string E :=
  let m := if (0 <? ttl)%Z
    then filter (λ kv, ¬ (ttl < GoTime.Sub now (lastSeen kv.2))%Z) m else m in
  if (0 <? maxKeys)%Z then evict (S (size m)) maxKeys m else m.

Definition maybe_cleanup (ttl maxKeys now : Z) (st : gmap string E * Z * Z) :
    gmap string E * Z * Z :=
  let '(m, interval, last) := st in
  let interval := if (interval <=? 0)%Z then GoTime.Minute else interval in
  if negb (GoTime.IsZero last) && (GoTime.Sub now last <? interval)%Z then (m, interval, last)
  else (cleanup_entries ttl maxKeys now m, interval, now).

End Cleanup.

(** ** MemoryFixedWindow *)

Record bucket := MkBucket { remaining : Z; resetAt : Z; b_lastSeen : Z }.

Record MemoryFixedWindow := MkMFW {
  requests : Z;
  window : Z;
  ttl : Z;
  maxKeys : Z;
  cleanupInterval : Z;
  lastCleanup : Z;
  clients : gmap string bucket
}.

Definition NewMemoryFixedWindow (reqs win now : Z) : MemoryFixedWindow :=
  let reqs := if (reqs <=? 0)%Z then 100%Z else reqs in
  let win := if (win <=? 0)%Z then GoTime.Minute else win in
  let t := i64 (10 * win) in
  let t := if (t <? GoTime.Minute)%Z then GoTime.Minute else t in
  MkMFW reqs win t 100000 win now ∅.

Definition MFW_maybeCleanup (order : gmap string bucket → list string) (now : Z)
    (l : MemoryFixedWindow) : MemoryFixedWindow :=
  let '(m, ci, lc) := maybe_cleanup b_lastSeen order (ttl l) (maxKeys l) now
                        (clients l, cleanupInterval l, lastCleanup l) in
  MkMFW (requests l) (window l) (ttl l) (maxKeys l) ci lc m.

(** The decision for one bucket. *)
Definition bucket_allow (reqs win now : Z) (b : bucket) : bucket * bool :=
  let '(rem, reset) :=
    if GoTime.After now (resetAt b) then (reqs, GoTime.Add now win)
    else (remaining b, resetAt b) in
  if (rem <=? 0)%Z then (MkBucket rem reset now, false)
  else (MkBucket (rem - 1) reset now, true).

Definition MFW_Allow (order : gmap string bucket → list string) (key : string) (now : Z)
    (l : MemoryFixedWindow) : MemoryFixedWindow * bool :=
  let l := MFW_maybeCleanup order now l in
  let '(b, ok) :=
    match clients l !! key with
    | None => (MkBucket (requests l - 1) (GoTime.Add now (window l)) now, true)
    | Some b => bucket_allow (requests l) (window l) now b
    end in
  (MkMFW (requests l) (window l) (ttl l) (maxKeys l) (cleanupInterval l) (lastCleanup l)
     (<[key := b]> (clients l)), ok).

(** ** TokenBucketLimiter *)

Record tokenBucket := MkTB {
  tokens : Z;
  maxTokens : Z;
  refillRate : Z;
  lastRefill : Z;
  tb_lastSeen : Z
}.

Record TokenBucketLimiter := MkTBL {
  requestsPerMinute : Z;
  burst : Z;
  refillPerSecond : Z;
  tbl_ttl : Z;
  tbl_maxKeys : Z;
  tbl_cleanupInterval : Z;
  tbl_lastCleanup : Z;
  buckets : gmap string tokenBucket
}.

Definition NewTokenBucketLimiter (rpm b now : Z) : TokenBucketLimiter :=
  let rpm := if (rpm <=? 0)%Z then 60%Z else rpm in
  let b := if (b <=? 0)%Z then Z.max 1 (Z.quot rpm 4) else b in
  let refill := Z.quot rpm 60 in
  let refill := if (refill <=? 0)%Z then 1%Z else refill in
  let t := (10 * GoTime.Minute)%Z in
  let t := if (t <? GoTime.Minute)%Z then GoTime.Minute else t in
  MkTBL rpm b refill t 100000 GoTime.Minute now ∅.

(** [int(elapsed.Seconds())].  [Seconds] goes through a float64, which is exact
    enough for the truncation below 2^23 seconds (97 days); [maybeCleanup]
    drops a bucket that has been idle for more than ten minutes before it is
    used, so longer durations do not reach this expression. *)
Definition whole_seconds (d : Z) : Z := Z.quot d GoTime.Second.

Definition tb_allow (now : Z) (b : tokenBucket) : tokenBucket * bool :=
  let elapsed := GoTime.Sub now (lastRefill b) in
  let add := i64 (whole_seconds elapsed * refillRate b) in
  let '(toks, last) :=
    if (0 <? add)%Z then
      let t := i64 (tokens b + add) in
      ((if (maxTokens b <? t)%Z then maxTokens b else t), now)
    else (tokens b, lastRefill b) in
  if (toks <=? 0)%Z then (MkTB toks (maxTokens b) (refillRate b) last now, false)
  else (MkTB (toks - 1) (maxTokens b) (refillRate b) last now, true).

Definition TBL_maybeCleanup (order : gmap string tokenBucket → list string) (now : Z)
    (l : TokenBucketLimiter) : TokenBucketLimiter :=
  let '(m, ci, lc) := maybe_cleanup tb_lastSeen order (tbl_ttl l) (tbl_maxKeys l) now
                        (buckets l, tbl_cleanupInterval l, tbl_lastCleanup l) in
  MkTBL (requestsPerMinute l) (burst l) (refillPerSecond l) (tbl_ttl l) (tbl_maxKeys l) ci lc m.

Definition TBL_Allow (order : gmap string tokenBucket → list string) (key : string) (now : Z)
    (l : TokenBucketLimiter) : TokenBucketLimiter * bool :=
  let l := TBL_maybeCleanup order now l in
  let b :=
    match buckets l !! key with
    | Some b => b
    | None => MkTB (burst l) (burst l) (refillPerSecond l) now now
    end in
  let '(b, ok) := tb_allow now b in
  (MkTBL (requestsPerMinute l) (burst l) (refillPerSecond l) (tbl_ttl l) (tbl_maxKeys l)
     (tbl_cleanupInterval l) (tbl_lastCleanup l) (<[key := b]> (buckets l)), ok).

(** ** The ratelimiter package *)

(** [int(f)] for a float64: truncation; what is not representable converts to
    the most negative int (amd64). *)
Definition float_to_int (f : spec_float) : Z :=
  match f with
  | S754_zero _ => 0
  | S754_finite s m e =>
      let v := if (0 <=? e)%Z then (Zpos m * 2 ^ e)%Z else (Zpos m / 2 ^ (- e))%Z in
      let v := if s then (- v)%Z else v in
      if (minInt64 <=? v)%Z && (v <=? maxInt64)%Z then v else minInt64
  | _ => minInt64
  end.

Record Config := MkConfig {
  Strategy : string;
  Rate : spec_float;                (* float64 *)
  Burst : Z;
  Window : Z;
  CleanupPeriod : Z
}.

Definition StrategyTokenBucket : string := "token_bucket".
Definition StrategyFixedWindow : string := "fixed_window".
Definition StrategySlidingWindow : string := "sliding_window".

(** [DefaultConfig]; the float64 100 is 7036874417766400 * 2^-46. *)
Definition DefaultConfig : Config :=
  MkConfig StrategyTokenBucket (S754_finite false 7036874417766400 (-46)) 10 GoTime.Minute
    (10 * GoTime.Minute).

Record Reservation := MkReservation { ok : bool; delay : Z }.

(** The limiter of golang.org/x/time/rate. *)
Class XRate (L : Type) := {
  x_NewLimiter : spec_float → Z → L;
  x_AllowN : Z → Z → L → L * bool;
  x_ReserveN : Z → Z → L → L * Reservation
}.

(** The part of the [RateLimiter] interface that does not block. *)
Class RateLimiter (R : Type) := {
  Allow : Z → R → R * bool;
  AllowN : Z → Z → R → R * bool;
  ReserveN : Z → Z → Z → R → R * outcome Reservation
}.

(** [Reserve] is [ReserveN(1)] in every implementation. *)
Definition Reserve `{RateLimiter R} (now now' : Z) (r : R) : R * outcome Reservation :=
  ReserveN now now' 1 r.

(** [AllowWithContext] and [AllowNWithContext] of every implementation: the
    context is checked first. *)
Definition AllowWithContext `{RateLimiter R} (ctx_err : option error) (now : Z) (r : R) :
    R * (bool * option error) :=
  match ctx_err with
  | Some e => (r, (false, Some e))
  | None => let '(r, b) := Allow now r in (r, (b, None))
  end.

Definition AllowNWithContext `{RateLimiter R} (ctx_err : option error) (now n : Z) (r : R) :
    R * (bool * option error) :=
  match ctx_err with
  | Some e => (r, (false, Some e))
  | None => let '(r, b) := AllowN now n r in (r, (b, None))
  end.

(** *** Token bucket: a wrapper of [rate.Limiter] *)

Section TokenBucket.
Context {L : Type} `{!XRate L}.

Record TokenBucketRateLimiter := MkTokenBucket { limiter : L }.

Definition NewTokenBucketRateLimiter (config : Config) : TokenBucketRateLimiter :=
  let b := if (Burst config <? 0)%Z then 1%Z else Burst config in
  MkTokenBucket (x_NewLimiter (Rate config) b).

Definition TB_Allow (now : Z) (r : TokenBucketRateLimiter) : TokenBucketRateLimiter * bool :=
  let '(l, b) := x_AllowN now 1 (limiter r) in (MkTokenBucket l, b).

Definition TB_AllowN (now n : Z) (r : TokenBucketRateLimiter) : TokenBucketRateLimiter * bool :=
  if (n <=? 0)%Z then (r, (n =? 0)%Z)
  else let '(l, b) := x_AllowN now n (limiter r) in (MkTokenBucket l, b).

Definition TB_ReserveN (now n : Z) (r : TokenBucketRateLimiter) :
    TokenBucketRateLimiter * outcome Reservation :=
  let '(l, res) := x_ReserveN now n (limiter r) in (MkTokenBucket l, Ret res).

#[export] Instance TokenBucket_RateLimiter : RateLimiter TokenBucketRateLimiter := {|
  Allow := TB_Allow;
  AllowN := TB_AllowN;
  ReserveN now _ n := TB_ReserveN now n
|}.

End TokenBucket.
Arguments TokenBucketRateLimiter L : clear implicits.

(** The limit of the window limiters. *)
Definition rate_limit (config : Config) : Z :=
  let limit := float_to_int (Rate config) in
  if (limit <? 0)%Z then 0%Z else limit.

(** *** Fixed window *)

Record FixedWindowRateLimiter := MkFW {
  fw_count : Z;
  fw_limit : Z;
  fw_window : Z;
  lastReset : Z
}.

Definition NewFixedWindowRateLimiter (config : Config) (now : Z) : FixedWindowRateLimiter :=
  MkFW 0 (rate_limit config) (Window config) now.

(** The reset at the start of [Allow] and [AllowN]. *)
Definition fw_reset (now : Z) (r : FixedWindowRateLimiter) : FixedWindowRateLimiter :=
  if (fw_window r <=? GoTime.Sub now (lastReset r))%Z
  then MkFW 0 (fw_limit r) (fw_window r) now else r.

Definition FW_Allow (now : Z) (r : FixedWindowRateLimiter) : FixedWindowRateLimiter * bool :=
  let r := fw_reset now r in
  if (fw_limit r <=? fw_count r)%Z then (r, false)
  else (MkFW (i64 (fw_count r + 1)) (fw_limit r) (fw_window r) (lastReset r), true).

Definition FW_AllowN (now n : Z) (r : FixedWindowRateLimiter) : FixedWindowRateLimiter * bool :=
  if (n <=? 0)%Z then (r, (n =? 0)%Z)
  else
    let r := fw_reset now r in
    if (fw_limit r <? i64 (fw_count r + n))%Z then (r, false)
    else (MkFW (i64 (fw_count r + n)) (fw_limit r) (fw_window r) (lastReset r), true).

Definition FW_timeUntilNextWindow (now : Z) (r : FixedWindowRateLimiter) : Z :=
  GoTime.Sub (GoTime.Add (lastReset r) (fw_window r)) now.

(** [now'] is the clock when the delay is computed. *)
Definition FW_ReserveN (now now' n : Z) (r : FixedWindowRateLimiter) :
    FixedWindowRateLimiter * outcome Reservation :=
  let '(r, b) := FW_AllowN now n r in
  if b then (r, Ret (MkReservation true 0))
  else (r, Ret (MkReservation false (FW_timeUntilNextWindow now' r))).

#[export] Instance FixedWindow_RateLimiter : RateLimiter FixedWindowRateLimiter := {|
  Allow := FW_Allow;
  AllowN := FW_AllowN;
  ReserveN := FW_ReserveN
|}.

(** *** Sliding window *)

Record SlidingWindowRateLimiter := MkSW {
  sw_tokens : list Z;
  sw_limit : Z;
  sw_window : Z
}.

Definition NewSlidingWindowRateLimiter (config : Config) : SlidingWindowRateLimiter :=
  MkSW [] (rate_limit config) (Window config).

Definition sw_cleanup (now : Z) (r : SlidingWindowRateLimiter) : SlidingWindowRateLimiter :=
  let cutoff := GoTime.Add now (- sw_window r) in
  MkSW (filter (λ t, GoTime.After t cutoff = true) (sw_tokens r)) (sw_limit r) (sw_window r).

Definition SW_Allow (now : Z) (r : SlidingWindowRateLimiter) : SlidingWindowRateLimiter * bool :=
  let r := sw_cleanup now r in
  if (sw_limit r <=? Z.of_nat (length (sw_tokens r)))%Z then (r, false)
  else (MkSW (sw_tokens r ++ [now]) (sw_limit r) (sw_window r), true).

Definition SW_AllowN (now n : Z) (r : SlidingWindowRateLimiter) : SlidingWindowRateLimiter * bool :=
  if (n <=? 0)%Z then (r, (n =? 0)%Z)
  else
    let r := sw_cleanup now r in
    if (sw_limit r <? i64 (Z.of_nat (length (sw_tokens r)) + n))%Z then (r, false)
    else (MkSW (sw_tokens r ++ replicate (Z.to_nat n) now) (sw_limit r) (sw_window r), true).

Definition SW_timeUntilNextWindow (now : Z) (r : SlidingWindowRateLimiter) : outcome Z :=
  if (Z.of_nat (length (sw_tokens r)) <? sw_limit r)%Z then Ret 0%Z
  else
    match sw_tokens r with
    | oldestToken :: _ => Ret (GoTime.Sub (GoTime.Add oldestToken (sw_window r)) now)
    | [] => Panic "index out of range" []
    end.

Definition SW_ReserveN (now now' n : Z) (r : SlidingWindowRateLimiter) :
    SlidingWindowRateLimiter * outcome Reservation :=
  let '(r, b) := SW_AllowN now n r in
  if b then (r, Ret (MkReservation true 0))
  else
    (r, let! d := SW_timeUntilNextWindow now' r in Ret (MkReservation false d)).

#[export] Instance SlidingWindow_RateLimiter : RateLimiter SlidingWindowRateLimiter := {|
  Allow := SW_Allow;
  AllowN := SW_AllowN;
  ReserveN := SW_ReserveN
|}.

(** *** Blocking calls of the window limiters

    [WaitN] polls [AllowN]; a tick is the clock of one poll and whether the
    context is done before the next one.  [None]: still waiting when the
    ticks are used up. *)

Definition ctx_error : error := Sentinel "context.Canceled".

Section Wait.
Context {R : Type} (allowN : Z → Z → R → R * bool).

Fixpoint WaitN (ticks : list (Z * bool)) (n : Z) (r : R) : R * option (option error) :=
  match ticks with
  | [] => (r, None)
  | (now, done) :: ticks =>
      let '(r, b) := allowN now n r in
      if b then (r, Some None)
      else if done : bool then (r, Some (Some ctx_error))
      else WaitN ticks n r
  end.

End Wait.

(** *** Factory, manager and HTTP middleware *)

Section Manager.
Context {L : Type} `{!XRate L}.

(** A value of the interface type. *)
Inductive AnyLimiter : Type :=
| AnyTokenBucket (r : TokenBucketRateLimiter L)
| AnyFixedWindow (r : FixedWindowRateLimiter)
| AnySlidingWindow (r : SlidingWindowRateLimiter).

Definition Any_AllowN (now n : Z) (r : AnyLimiter) : AnyLimiter * bool :=
  match r with
  | AnyTokenBucket r => let '(r, b) := AllowN now n r in (AnyTokenBucket r, b)
  | AnyFixedWindow r => let '(r, b) := AllowN now n r in (AnyFixedWindow r, b)
  | AnySlidingWindow r => let '(r, b) := AllowN now n r in (AnySlidingWindow r, b)
  end.

Definition Any_Allow (now : Z) (r : AnyLimiter) : AnyLimiter * bool :=
  match r with
  | AnyTokenBucket r => let '(r, b) := Allow now r in (AnyTokenBucket r, b)
  | AnyFixedWindow r => let '(r, b) := Allow now r in (AnyFixedWindow r, b)
  | AnySlidingWindow r => let '(r, b) := Allow now r in (AnySlidingWindow r, b)
  end.

(** [NewRateLimiter] never fails: an unknown strategy is a token bucket. *)
Definition NewRateLimiter (config : Config) (now : Z) : AnyLimiter :=
  if decide (Strategy config = StrategyTokenBucket) then
    AnyTokenBucket (NewTokenBucketRateLimiter config)
  else if decide (Strategy config = StrategyFixedWindow) then
    AnyFixedWindow (NewFixedWindowRateLimiter config now)
  else if decide (Strategy config = StrategySlidingWindow) then
    AnySlidingWindow (NewSlidingWindowRateLimiter config)
  else AnyTokenBucket (NewTokenBucketRateLimiter config).

(** [limiters]: every limiter is added under one name only, so the pointers
    of the source are not shared. *)
Record Manager := MkManager { limiters : gmap string AnyLimiter; config : Config }.

Definition NewManager (defaultConfig : Config) : Manager := MkManager ∅ defaultConfig.

Definition Add (name : string) (r : AnyLimiter) (m : Manager) : Manager :=
  MkManager (<[name := r]> (limiters m)) (config m).

Definition AddConfig (name : string) (c : Config) (now : Z) (m : Manager) : Manager * option error :=
  (Add name (NewRateLimiter c now) m, None).

Definition Get (name : string) (m : Manager) : option AnyLimiter := limiters m !! name.

Definition Remove (name : string) (m : Manager) : Manager :=
  MkManager (delete name (limiters m)) (config m).

(** [Allow] and [AllowN] of the manager: the named limiter, or else the one
    called "default", or else no limit. *)
Definition Manager_run (name : string) (f : AnyLimiter → AnyLimiter * bool) (m : Manager) :
    Manager * bool :=
  match Get name m with
  | Some r => let '(r, b) := f r in (Add name r m, b)
  | None =>
      match Get "default" m with
      | Some r => let '(r, b) := f r in (Add "default" r m, b)
      | None => (m, true)
      end
  end.

Definition Manager_Allow (name : string) (now : Z) (m : Manager) : Manager * bool :=
  Manager_run name (Any_Allow now) m.

Definition Manager_AllowN (name : string) (now n : Z) (m : Manager) : Manager * bool :=
  Manager_run name (Any_AllowN now n) m.

(** The handler of [HTTPMiddleware.Wrap]: the status of the error response,
    or [None] when the wrapped handler is called. *)
Definition Wrap (name : string) (now : Z) (m : Manager) : Manager * option Z :=
  let '(m, b) := Manager_Allow name now m in
  if negb b then (m, Some 429%Z) else (m, None).

End Manager.
Arguments AnyLimiter L : clear implicits.
Arguments Manager L : clear implicits.
