(* ===== verification/RateLimitProps.v ===== *)
(** * Rate limiting: how many requests each limiter admits

    Bounds for the sliding and fixed windows, the keyed fixed window and the
    token bucket, over arbitrary sequences of calls at non-decreasing clock
    readings; and the calls for which the bounds fail. *)

From Stdlib Require Import SpecFloat.
From S2P Require Import Prelude RateLimit.

Import GoError GoInt.

(** Clock readings that do not go back, from [t] on. *)
Fixpoint increasing (t : Z) (ts : list Z) : Prop :=
  match ts with
  | [] => True
  | u :: ts => (t <= u)%Z ∧ increasing u ts
  end.

(** The last reading, [t] when there is none. *)
Definition latest (t : Z) (ts : list Z) : Z := foldl (λ _ u, u) t ts.

Lemma increasing_snoc t ts u : increasing t (ts ++ [u]) → increasing t ts ∧ (latest t ts <= u)%Z.
Proof. revert t. induction ts as [|v ts IH]; intros t; simpl; [naive_solver|]. by intros [Hv [Hi Hl]%IH]. Qed.

(** Entries of a log in the interval [(lo, hi]]. *)
Definition count_in (lo hi : Z) (log : list Z) : nat :=
  length (filter (λ x, lo < x <= hi)%Z log).

Lemma count_in_app lo hi log1 log2 :
  count_in lo hi (log1 ++ log2) = count_in lo hi log1 + count_in lo hi log2.
Proof. unfold count_in. by rewrite filter_app, length_app. Qed.

Lemma count_in_replicate lo hi n x :
  count_in lo hi (replicate n x) = if decide (lo < x <= hi)%Z then n else 0.
Proof.
  unfold count_in. induction n as [|n IH]; simpl; [by case_decide|].
  rewrite filter_cons. destruct (decide (lo < x <= hi)%Z); simpl; lia.
Qed.

Lemma length_filter_mono {A} (P Q : A → Prop) `{!∀ x, Decision (P x), !∀ x, Decision (Q x)} l :
  (∀ x, x ∈ l → P x → Q x) → length (filter P l) <= length (filter Q l).
Proof.
  induction l as [|x l IH]; intros HPQ; [done|]. rewrite !filter_cons.
  specialize (IH ltac:(intros y Hy; apply HPQ; by right)).
  destruct (decide (P x)) as [Hp|Hp], (decide (Q x)) as [Hq|Hq]; simpl; try lia.
  exfalso. apply Hq, HPQ; [by left|done].
Qed.

(** ** Sliding window *)

(** The calls of a limiter.  [WaitN] is a sequence of [AllowN]s, and the variants
    with a context are these calls or none; [now'] is the clock of the second reading of
    [ReserveN]. *)
Inductive sw_op :=
| OpAllow
| OpAllowN (n : Z)
| OpReserveN (now' n : Z).

(** The number of requests a call asks for. *)
Definition asked (op : sw_op) : Z := match op with OpAllow => 1 | OpAllowN n | OpReserveN _ n => n end.

(** A call, and whether it lets its requests pass. *)
Definition sw_call (now : Z) (op : sw_op) (r : SlidingWindowRateLimiter) : SlidingWindowRateLimiter * bool :=
  match op with
  | OpAllow => SW_Allow now r
  | OpAllowN n => SW_AllowN now n r
  | OpReserveN now' n =>
      let '(r, v) := SW_ReserveN now now' n r in
      (r, match v with Ret v => ok v | Panic _ _ => false end)
  end.

(** A sequence of calls and the log of admitted requests. *)
Fixpoint sw_run (ops : list (Z * sw_op)) (r : SlidingWindowRateLimiter) :
    SlidingWindowRateLimiter * list Z :=
  match ops with
  | [] => (r, [])
  | (now, op) :: ops =>
      let '(r, b) := sw_call now op r in
      let '(r, log) := sw_run ops r in
      (r, (if b : bool then replicate (Z.to_nat (asked op)) now else []) ++ log)
  end.

(** The log so far respects the limit, and the limiter remembers every entry
    that is still in the window, and no others. *)
Record sw_inv (now : Z) (log : list Z) (r : SlidingWindowRateLimiter) : Prop := {
  sw_bound : ∀ t, (Z.of_nat (count_in (t - sw_window r) t log) <= sw_limit r)%Z;
  sw_past : ∀ x, x ∈ log → (x <= now)%Z;
  sw_remembers : ∀ lo, (now - sw_window r <= lo)%Z →
    length (filter (λ x, lo < x)%Z log) = length (filter (λ x, lo < x)%Z (sw_tokens r));
  sw_short : (Z.of_nat (length (sw_tokens r)) <= sw_limit r)%Z
}.

Lemma sw_cleanup_filter now r lo :
  (now - sw_window r <= lo)%Z →
  filter (λ x, lo < x)%Z (sw_tokens (sw_cleanup now r)) = filter (λ x, lo < x)%Z (sw_tokens r).
Proof.
  intros Hlo. unfold sw_cleanup. simpl. rewrite list_filter_filter.
  apply filter_ext_elem. intros x _. unfold GoTime.After, GoTime.Add. rewrite Z.ltb_lt. lia.
Qed.

Lemma sw_step_n now now' log r n :
  (0 <= sw_limit r)%Z → (0 <= sw_window r)%Z → (n + sw_limit r < 2 ^ 63)%Z →
  (now <= now')%Z → sw_inv now log r →
  let '(r', b) := SW_AllowN now' n r in
  sw_limit r' = sw_limit r ∧ sw_window r' = sw_window r ∧
  sw_inv now' (log ++ if b : bool then replicate (Z.to_nat n) now' else []) r' ∧
  (b = true ↔ n = 0 ∨ 0 < n ∧ Z.of_nat (count_in (now' - sw_window r) now' log) + n <= sw_limit r)%Z.
Proof.
  intros Hl Hw Hn Hnow [Hb Hp Hr Hs]. unfold SW_AllowN.
  destruct (Z.leb_spec n 0) as [Hn0|Hn0].
  { split; [done|]. split; [done|].
    assert ((if (n =? 0)%Z then replicate (Z.to_nat n) now' else []) = []) as ->.
    { destruct (Z.eqb_spec n 0) as [->|]; done. }
    rewrite app_nil_r. split; [split; [done| | |done]|].
    - intros x Hx. specialize (Hp x Hx). lia.
    - intros lo Hlo. apply Hr. lia.
    - rewrite Z.eqb_eq. lia. }
  set (r1 := sw_cleanup now' r).
  assert (Hs1 : (Z.of_nat (length (sw_tokens r1)) <= sw_limit r)%Z).
  { unfold r1, sw_cleanup. simpl.
    pose proof (length_filter (λ t, GoTime.After t (GoTime.Add now' (- sw_window r)) = true) (sw_tokens r)).
    lia. }
  assert (Hr1 : ∀ lo, (now' - sw_window r <= lo)%Z →
    length (filter (λ x, lo < x)%Z log) = length (filter (λ x, lo < x)%Z (sw_tokens r1))).
  { intros lo Hlo. unfold r1. rewrite sw_cleanup_filter by done. apply Hr. lia. }
  assert (Hcount : count_in (now' - sw_window r) now' log = length (sw_tokens r1)).
  { unfold count_in. transitivity (length (filter (λ x, now' - sw_window r < x)%Z log)).
    - f_equal. apply filter_ext_elem. intros x Hx. specialize (Hp x Hx). lia.
    - rewrite Hr1 by lia. f_equal. unfold r1, sw_cleanup. simpl. rewrite list_filter_filter. apply filter_ext_elem.
      intros x _. unfold GoTime.After, GoTime.Add. rewrite Z.ltb_lt. lia. }
  rewrite i64_id by in_range. change (sw_limit r1) with (sw_limit r).
  destruct (Z.ltb_spec (sw_limit r) (Z.of_nat (length (sw_tokens r1)) + n)) as [Hd|Ha].
  { split; [done|]. split; [done|]. rewrite app_nil_r. split; [split; simpl; [done| |done|done]|].
    - intros x Hx. specialize (Hp x Hx). lia.
    - rewrite Hcount. split; [done|]. intros [?|[? ?]]; lia. }
  split; [done|]. split; [done|]. split; [split; cbn [sw_tokens sw_limit sw_window]|rewrite Hcount; split; [by right|done]].
  - intros t. rewrite count_in_app, count_in_replicate. change (sw_window r1) with (sw_window r).
    case_decide as Hin; [|specialize (Hb t); lia].
    assert (count_in (t - sw_window r) t log <= length (sw_tokens r1)); [|lia].
    etrans; [|etrans; [apply Nat.eq_le_incl, (Hr1 (t - sw_window r)%Z); lia|apply length_filter]].
    apply length_filter_mono. intros x _. lia.
  - intros x [Hx|Hx]%elem_of_app; [specialize (Hp x Hx); lia|].
    apply elem_of_replicate in Hx as [-> _]. lia.
  - intros lo Hlo. rewrite !filter_app, !length_app. change (sw_window r1) with (sw_window r) in Hlo.
    specialize (Hr1 lo Hlo). lia.
  - rewrite length_app, length_replicate. lia.
Qed.

(** [Allow] is separate code with the same effect as [AllowN(1)]. *)
Lemma SW_Allow_one now r : (0 <= sw_limit r < 2 ^ 63 - 1)%Z → (Z.of_nat (length (sw_tokens r)) <= sw_limit r)%Z →
  SW_Allow now r = SW_AllowN now 1 r.
Proof.
  intros Hl Hs. unfold SW_Allow, SW_AllowN. cbn [Z.leb Z.compare].
  assert (Hc : (length (sw_tokens (sw_cleanup now r)) <= length (sw_tokens r))%nat) by apply length_filter.
  rewrite i64_id by (unfold sw_cleanup in *; in_range). change (sw_limit (sw_cleanup now r)) with (sw_limit r).
  destruct (Z.leb_spec (sw_limit r) (Z.of_nat (length (sw_tokens (sw_cleanup now r))))),
    (Z.ltb_spec (sw_limit r) (Z.of_nat (length (sw_tokens (sw_cleanup now r))) + 1)); try lia; done.
Qed.

(** A call passes exactly if the requests it asks for fit into the window that ends
    now. *)
Definition fits (limit window now : Z) (log : list Z) (n : Z) : Prop :=
  (n = 0 ∨ 0 < n ∧ Z.of_nat (count_in (now - window) now log) + n <= limit)%Z.

Lemma sw_step now now' log r op :
  (0 <= sw_limit r)%Z → (0 <= sw_window r)%Z → (Z.max 1 (asked op) + sw_limit r < 2 ^ 63)%Z →
  (now <= now')%Z → sw_inv now log r →
  let '(r', b) := sw_call now' op r in
  sw_limit r' = sw_limit r ∧ sw_window r' = sw_window r ∧
  sw_inv now' (log ++ if b : bool then replicate (Z.to_nat (asked op)) now' else []) r' ∧
  (b = true ↔ fits (sw_limit r) (sw_window r) now' log (asked op)).
Proof.
  intros Hl Hw Hn Hnow Hinv. pose proof (sw_step_n now now' log r (asked op) Hl Hw ltac:(lia) Hnow Hinv) as Hstep.
  destruct op as [|n|now2 n]; cbn [sw_call asked] in *.
  - rewrite SW_Allow_one; [done|lia|apply Hinv].
  - done.
  - unfold SW_ReserveN. destruct (SW_AllowN now' n r) as [r' [|]]; [done|].
    destruct (SW_timeUntilNextWindow now2 r'); exact Hstep.
Qed.

Lemma sw_inv_new now limit win : (0 <= limit)%Z → sw_inv now [] (MkSW [] limit win).
Proof.
  intros Hl. split; simpl; [done| |done|done]. intros x Hx. by apply not_elem_of_nil in Hx.
Qed.

Lemma sw_run_inv ops now log r :
  (0 <= sw_limit r)%Z → (0 <= sw_window r)%Z →
  Forall (λ op, Z.max 1 (asked op.2) + sw_limit r < 2 ^ 63)%Z ops → increasing now ops.*1 →
  sw_inv now log r →
  sw_inv (latest now ops.*1) (log ++ (sw_run ops r).2) (sw_run ops r).1 ∧
    sw_limit (sw_run ops r).1 = sw_limit r ∧ sw_window (sw_run ops r).1 = sw_window r.
Proof.
  revert now log r. induction ops as [|[t op] ops IH]; intros now log r Hl Hw Hn Hinc Hinv; simpl.
  { by rewrite app_nil_r. }
  apply Forall_cons in Hn as [Hn Hns]. simpl in Hn, Hinc. destruct Hinc as [Ht Hinc].
  pose proof (sw_step now t log r op Hl Hw Hn Ht Hinv) as Hstep.
  destruct (sw_call t op r) as [r1 b]. destruct Hstep as (Hl1 & Hw1 & Hinv1 & _).
  assert (Hns1 : Forall (λ op, Z.max 1 (asked op.2) + sw_limit r1 < 2 ^ 63)%Z ops) by (by rewrite Hl1).
  assert (Hl1' : (0 <= sw_limit r1)%Z) by lia. assert (Hw1' : (0 <= sw_window r1)%Z) by lia.
  destruct (IH t _ r1 Hl1' Hw1' Hns1 Hinc Hinv1) as (Hi & Hl2 & Hw2).
  destruct (sw_run ops r1) as [r2 log2]. simpl in *. rewrite app_assoc. split; [done|]. split; congruence.
Qed.

(** C9: whatever the sequence of calls of [Allow], [AllowN] and [ReserveN], the sliding
    window limiter never admits more than [limit] requests in any interval of one
    window's length; and a further call is admitted exactly if the requests it asks for,
    together with those admitted in the window that ends now, do not exceed the limit
    (asking for none is always admitted, for a negative number never).  The clock does
    not go back, and the numbers are small enough for [len + n] not to overflow an int. *)
Theorem sliding_window_bound config ops now now' op t :
  (0 <= Window config)%Z → increasing now (ops.*1 ++ [now']) →
  Forall (λ op, Z.max 1 (asked op.2) + rate_limit config < 2 ^ 63)%Z (ops ++ [(now', op)]) →
  let '(r, log) := sw_run ops (NewSlidingWindowRateLimiter config) in
  (Z.of_nat (count_in (t - Window config) t log) <= rate_limit config)%Z ∧
  ((sw_call now' op r).2 = true ↔ fits (rate_limit config) (Window config) now' log (asked op)).
Proof.
  intros Hw Hinc Hn. apply Forall_app in Hn as [Hn Hop]. apply Forall_cons in Hop as [Hop _]. simpl in Hop.
  assert (Hl : (0 <= rate_limit config)%Z) by (unfold rate_limit; case_match; lia).
  apply increasing_snoc in Hinc as [Hinc Hlast].
  destruct (sw_run_inv ops now [] (NewSlidingWindowRateLimiter config)) as (Hinv & Hl' & Hw');
    [done..|by apply sw_inv_new|].
  destruct (sw_run ops _) as [r log]. simpl in *. split.
  - pose proof (sw_bound _ _ _ Hinv t) as Hb. by rewrite Hl', Hw' in Hb.
  - pose proof (sw_step (latest now ops.*1) now' log r op) as Hstep. rewrite Hl', Hw' in Hstep.
    specialize (Hstep Hl Hw Hop Hlast Hinv). destruct (sw_call now' op r). apply Hstep.
Qed.

(** ** Fixed window *)

(** A sequence of [AllowN] calls; the log has, for every admitted call, the
    start of the window it was counted in and its [n]. *)
Fixpoint fw_run (ops : list (Z * Z)) (r : FixedWindowRateLimiter) :
    FixedWindowRateLimiter * list (Z * Z) :=
  match ops with
  | [] => (r, [])
  | (now, n) :: ops =>
      let '(r, b) := FW_AllowN now n r in
      let '(r', log) := fw_run ops r in
      (r', (if b : bool then [(lastReset r, n)] else []) ++ log)
  end.

(** Requests admitted in the window that started at [start]. *)
Definition admitted_in (start : Z) (log : list (Z * Z)) : Z :=
  foldr (λ e s, (if decide (e.1 = start) then e.2 else 0) + s)%Z 0%Z log.

Lemma admitted_in_app start log1 log2 :
  admitted_in start (log1 ++ log2) = (admitted_in start log1 + admitted_in start log2)%Z.
Proof. unfold admitted_in. induction log1 as [|e log1 IH]; simpl; [done|]. lia. Qed.

Record fw_inv (log : list (Z * Z)) (r : FixedWindowRateLimiter) : Prop := {
  fw_bound : ∀ start, (admitted_in start log <= fw_limit r)%Z;
  fw_counted : admitted_in (lastReset r) log = fw_count r;
  fw_range : (0 <= fw_count r <= fw_limit r)%Z;
  fw_later : ∀ start, (lastReset r < start)%Z → admitted_in start log = 0%Z
}.

Lemma fw_step now n log r :
  (0 < fw_window r)%Z → (n + fw_limit r < 2 ^ 63)%Z → fw_inv log r →
  let '(r', b) := FW_AllowN now n r in
  fw_limit r' = fw_limit r ∧ fw_window r' = fw_window r ∧
  (lastReset r' = lastReset r ∨ (lastReset r + fw_window r <= lastReset r')%Z) ∧
  fw_inv (log ++ if b : bool then [(lastReset r', n)] else []) r'.
Proof.
  intros Hw Hn [Hb Hc Hr Hl]. unfold FW_AllowN. destruct (Z.leb_spec n 0) as [Hn0|Hn0].
  { split; [done|]. split; [done|]. split; [by left|].
    destruct (Z.eqb_spec n 0) as [->|]; [|by rewrite app_nil_r; split].
    split; try intros start; rewrite ?admitted_in_app; simpl; repeat case_decide; try done;
      rewrite ?Z.add_0_r; auto. }
  assert (H1 : fw_limit (fw_reset now r) = fw_limit r ∧ fw_window (fw_reset now r) = fw_window r ∧
    (lastReset (fw_reset now r) = lastReset r ∨
     (lastReset r + fw_window r <= lastReset (fw_reset now r))%Z) ∧ fw_inv log (fw_reset now r)).
  { unfold fw_reset. destruct (Z.leb_spec (fw_window r) (GoTime.Sub now (lastReset r))) as [Hle|];
      [|split; [done|]; split; [done|]; split; [by left|by split]].
    assert (Hge : (lastReset r + fw_window r <= now)%Z).
    { unfold GoTime.Sub, minInt64, maxInt64 in Hle. lia. }
    split; [done|]. split; [done|]. split; [by right|]. split; simpl; [done| |lia|].
    - apply Hl. lia.
    - intros start Hs. apply Hl. lia. }
  destruct (fw_reset now r) as [c l w lr]. simpl in H1.
  destruct H1 as (-> & -> & Hlr & [Hb1 Hc1 Hr1 Hl1]). simpl in *.
  rewrite i64_id by in_range.
  destruct (Z.ltb_spec (fw_limit r) (c + n)).
  { split; [done|]. split; [done|]. split; [done|]. rewrite app_nil_r. by split. }
  split; [done|]. split; [done|]. split; [done|].
  split; try intros start; rewrite ?admitted_in_app; simpl.
  - specialize (Hb1 start). case_decide; subst; lia.
  - rewrite decide_True by done. lia.
  - lia.
  - intros Hs. rewrite Hl1, decide_False by lia. done.
Qed.

(** The fixed window limiter admits at most [limit] requests per window,
    and a new window starts no earlier than one window length after the
    last one started. *)
Theorem fixed_window_bound config ops now :
  (0 < Window config)%Z → Forall (λ op, op.2 + rate_limit config < 2 ^ 63)%Z ops →
  let '(r, log) := fw_run ops (NewFixedWindowRateLimiter config now) in
  (∀ start, (admitted_in start log <= rate_limit config)%Z) ∧
  admitted_in (lastReset r) log = fw_count r ∧
  (∀ n now', let r' := (FW_AllowN now' n r).1 in
     lastReset r' = lastReset r ∨ (lastReset r + Window config <= lastReset r')%Z).
Proof.
  intros Hw Hn. set (r0 := NewFixedWindowRateLimiter config now).
  assert (Hl : (0 <= rate_limit config)%Z) by (unfold rate_limit; case_match; lia).
  assert (Hrun : ∀ ops log r, fw_limit r = rate_limit config → fw_window r = Window config →
    Forall (λ op, op.2 + rate_limit config < 2 ^ 63)%Z ops → fw_inv log r →
    fw_inv (log ++ (fw_run ops r).2) (fw_run ops r).1 ∧
    fw_limit (fw_run ops r).1 = rate_limit config ∧ fw_window (fw_run ops r).1 = Window config).
  { clear ops Hn. induction ops as [|[t n] ops IH]; intros log r Hl0 Hw0 Hn Hinv; simpl.
    { by rewrite app_nil_r. }
    apply Forall_cons in Hn as [Hn Hns]. simpl in Hn.
    pose proof (fw_step t n log r ltac:(lia) ltac:(lia) Hinv) as Hs.
    destruct (FW_AllowN t n r) as [r1 b]. destruct Hs as (Hl1 & Hw1 & _ & Hinv1).
    specialize (IH (log ++ if b then [(lastReset r1, n)] else []) r1
      ltac:(congruence) ltac:(congruence) Hns Hinv1).
    destruct (fw_run ops r1) as [r2 log2]. simpl in *. by rewrite app_assoc. }
  assert (Hinv0 : fw_inv [] r0) by (split; simpl; intros; lia).
  destruct (Hrun ops [] r0 eq_refl eq_refl Hn Hinv0) as ([Hb Hc Hr Hlt] & Hl' & Hw').
  destruct (fw_run ops r0) as [r log]. simpl in *. rewrite Hl' in Hb.
  split; [done|]. split; [done|]. intros n now'.
  unfold FW_AllowN, fw_reset. rewrite Hw'.
  destruct (n <=? 0)%Z; [by left|].
  destruct (Z.leb_spec (Window config) (GoTime.Sub now' (lastReset r))) as [Hle|]; simpl.
  - right. assert (lastReset r + Window config <= now')%Z;
      [unfold GoTime.Sub, minInt64, maxInt64 in Hle; lia|]. by case_match.
  - left. by case_match.
Qed.

(** A large [n] defeats the fixed window limiter: when [count + n]
    overflows, [AllowN] admits the call, the count becomes negative, and the
    rest of the window admits every further request. *)
Theorem fixed_window_overflow r now now' n :
  (0 < fw_count r <= fw_limit r)%Z → in_i64 (fw_limit r) → in_i64 n →
  (2 ^ 63 <= fw_count r + n)%Z →
  (GoTime.Sub now (lastReset r) < fw_window r)%Z → (GoTime.Sub now' (lastReset r) < fw_window r)%Z →
  let '(r', b) := FW_AllowN now n r in
  b = true ∧ (fw_count r' < 0)%Z ∧ (FW_Allow now' r').2 = true.
Proof.
  intros Hc Hl Hn Ho Hw Hw'. unfold FW_AllowN. rewrite (proj2 (Z.leb_gt n 0)) by in_range.
  unfold fw_reset. rewrite (proj2 (Z.leb_gt _ _)) by done.
  assert (Hneg : (i64 (fw_count r + n) < 0)%Z).
  { unfold i64, in_i64 in *.
    replace (fw_count r + n + 2 ^ 63)%Z with ((fw_count r + n - 2 ^ 63) + 1 * 2 ^ 64)%Z by lia.
    rewrite Z.mod_add, Z.mod_small by lia. lia. }
  zcmp. split; [done|]. split; [done|].
  unfold FW_Allow, fw_reset. simpl.
  rewrite (proj2 (Z.leb_gt (fw_window r) (GoTime.Sub now' (lastReset r)))) by done. simpl.
  by zcmp.
Qed.

(** ** The keyed fixed window: reference and refinement

    The reference keeps one bucket per key for ever and never cleans up. *)

Definition ref_Allow (reqs win : Z) (key : string) (now : Z) (m : gmap string bucket) :
    gmap string bucket * bool :=
  let '(b, ok) :=
    match m !! key with
    | None => (MkBucket (reqs - 1) (now + win) now, true)
    | Some b => bucket_allow reqs win now b
    end in
  (<[key := b]> m, ok).

Fixpoint ref_run (reqs win : Z) (ops : list (string * Z)) (m : gmap string bucket) : list bool :=
  match ops with
  | [] => []
  | (key, now) :: ops =>
      let '(m, ok) := ref_Allow reqs win key now m in ok :: ref_run reqs win ops m
  end.

Fixpoint mfw_run (order : gmap string bucket → list string) (ops : list (string * Z))
    (l : MemoryFixedWindow) : list bool :=
  match ops with
  | [] => []
  | (key, now) :: ops =>
      let '(l, ok) := MFW_Allow order key now l in ok :: mfw_run order ops l
  end.

(** A reference entry the limiter may have dropped: its window is over. *)
Definition expired (now : Z) (b : bucket) : Prop := (resetAt b < now)%Z.

(** The simulation: a key the limiter knows has the reference's bucket, a key
    it dropped has an expired one. *)
Record mfw_sim (now : Z) (keys : gset string) (l : MemoryFixedWindow) (m : gmap string bucket) : Prop := {
  sim_same : ∀ k b, clients l !! k = Some b → m !! k = Some b;
  sim_dropped : ∀ k b, clients l !! k = None → m !! k = Some b → expired now b;
  sim_reset : ∀ k b, m !! k = Some b → (resetAt b <= b_lastSeen b + window l)%Z ∧ (b_lastSeen b <= now)%Z;
  sim_keys : dom (clients l) ⊆ keys
}.

(** The limiter's parameters allow transparent cleanup. *)
Definition mfw_ok (keys : gset string) (l : MemoryFixedWindow) : Prop :=
  (0 < requests l)%Z ∧ (0 < window l <= ttl l)%Z ∧ (ttl l < maxInt64)%Z ∧
  (Z.of_nat (size keys) <= maxKeys l)%Z.

Lemma evict_small {E} (seen : E → Z) order fuel mk (m : gmap string E) :
  (Z.of_nat (size m) <= mk)%Z → evict seen order fuel mk m = m.
Proof.
  intros Hs. destruct fuel; simpl; [done|]. by zcmp.
Qed.

Lemma oldest_elem {E} (seen : E → Z) (m : gmap string E) range best k t :
  oldest seen m range best = Some (k, t) → best = Some (k, t) ∨ is_Some (m !! k).
Proof.
  revert best. induction range as [|x range IH]; intros best; cbn [oldest]; [by left|].
  destruct (m !! x) as [e|] eqn:Hx; [|apply IH]. intros Ho.
  apply IH in Ho as [Ho|]; [|by right].
  destruct best as [[k0 t0]|]; [case_match|]; simplify_eq; [right; by rewrite Hx|by left|right; by rewrite Hx].
Qed.

(** More fuel than one round per key changes nothing. *)
Lemma evict_fuel {E} (seen : E → Z) order mk (m : gmap string E) n :
  evict seen order (S (size m) + n) mk m = evict seen order (S (size m)) mk m.
Proof.
  remember (size m) as sz eqn:Hsz. revert m Hsz. induction sz as [|sz IH]; intros m Hsz;
    cbn [evict plus]; (destruct (mk <? Z.of_nat (size m))%Z; [|done]);
    destruct (oldest seen m (order m) None) as [[k t]|] eqn:Ho; try done;
    (case_decide; [done|]); apply oldest_elem in Ho as [Ho|[e Hk]]; try done.
  - exfalso. symmetry in Hsz. apply map_size_empty_iff in Hsz. subst. by rewrite lookup_empty in Hk.
  - apply IH. rewrite map_size_delete, Hk. lia.
Qed.

(** A cleanup only drops keys that have been idle for more than the TTL. *)
Lemma cleanup_lookup order keys now l k :
  mfw_ok keys l → dom (clients l) ⊆ keys →
  let l' := MFW_maybeCleanup order now l in
  requests l' = requests l ∧ window l' = window l ∧ ttl l' = ttl l ∧ maxKeys l' = maxKeys l ∧
  (clients l' !! k = clients l !! k ∨
   clients l' !! k = None ∧ ∃ b, clients l !! k = Some b ∧ (b_lastSeen b + ttl l < now)%Z) ∧
  dom (clients l') ⊆ dom (clients l).
Proof.
  intros (Hr & Hw & Ht & Hk) Hd. unfold MFW_maybeCleanup, maybe_cleanup.
  destruct (negb (GoTime.IsZero (lastCleanup l)) && _); simpl.
  { do 4 (split; [done|]). split; [by left|done]. }
  unfold cleanup_entries. rewrite (proj2 (Z.ltb_lt 0 (ttl l))) by lia.
  set (m' := filter _ (clients l)).
  assert (Hsub : dom m' ⊆ dom (clients l)) by apply dom_filter_subseteq.
  assert (Hsz : (Z.of_nat (size m') <= maxKeys l)%Z).
  { rewrite <- size_dom. assert (size (dom m') <= size keys); [|lia].
    apply subseteq_size. set_solver. }
  assert (Hm : (if (0 <? maxKeys l)%Z then evict b_lastSeen order (S (size m')) (maxKeys l) m' else m') = m').
  { case_match; [by apply evict_small|done]. }
  rewrite Hm. do 4 (split; [done|]). split; [|done].
  unfold m'. rewrite map_lookup_filter.
  destruct (clients l !! k) as [b|] eqn:Hb; simpl; [|by left].
  destruct (decide (ttl l < GoTime.Sub now (b_lastSeen b))%Z) as [Hlt|Hlt].
  - right. rewrite option_guard_False by (intros Hn; by apply Hn). split; [done|].
    exists b. split; [done|]. unfold GoTime.Sub, minInt64, maxInt64 in *. lia.
  - left. by rewrite option_guard_True.
Qed.

(** After the cleanup a request's key has the reference's bucket, or none
    where the reference's has expired. *)
Lemma known_or_expired order keys t key now l m :
  mfw_ok keys l → (t <= now)%Z → mfw_sim t keys l m →
  let c := clients (MFW_maybeCleanup order now l) in
  c !! key = m !! key ∧
    (∀ b, m !! key = Some b → (resetAt b <= b_lastSeen b + window l ∧ b_lastSeen b <= now)%Z) ∨
  c !! key = None ∧ ∃ b, m !! key = Some b ∧ (resetAt b < now)%Z.
Proof.
  intros Hok Ht [Hsame Hdrop Hreset Hkeys] c.
  destruct (cleanup_lookup order keys now l key Hok Hkeys)
    as (_ & _ & _ & _ & [He|[He (b & Hb & Hlt)]] & _); fold c in He; rewrite He.
  - destruct (clients l !! key) as [b|] eqn:Hb.
    + left. rewrite (Hsame _ _ Hb). split; [done|]. intros b' [= <-].
      specialize (Hreset _ _ (Hsame _ _ Hb)). lia.
    + destruct (m !! key) as [b|] eqn:Hmb; [|left; done].
      right. split; [done|]. exists b. split; [done|].
      specialize (Hdrop _ _ Hb Hmb). unfold expired in Hdrop. lia.
  - right. split; [done|]. exists b. split; [by apply Hsame|].
    destruct Hok as (_ & ? & _). specialize (Hreset _ _ (Hsame _ _ Hb)). lia.
Qed.

(** An expired bucket and a missing one decide alike. *)
Lemma same_decision (reqs win now : Z) (known ref : option bucket) :
  (0 < reqs)%Z → (0 < win)%Z →
  known = ref ∧
    (∀ b, ref = Some b → (resetAt b <= b_lastSeen b + win ∧ b_lastSeen b <= now)%Z) ∨
  known = None ∧ (∃ b, ref = Some b ∧ (resetAt b < now)%Z) →
  let decision o := match o with
    | None => (MkBucket (reqs - 1) (GoTime.Add now win) now, true)
    | Some b => bucket_allow reqs win now b
    end in
  decision known = decision ref ∧
  (resetAt (decision known).1 <= b_lastSeen (decision known).1 + win ∧
   b_lastSeen (decision known).1 <= now)%Z.
Proof.
  intros Hr Hw [[-> Hb]|(-> & b & -> & Hlt)]; simpl.
  - split; [done|]. destruct ref as [b|]; [|unfold GoTime.Add; simpl; lia].
    specialize (Hb b eq_refl). unfold bucket_allow, GoTime.After, GoTime.Add.
    destruct (Z.ltb_spec (resetAt b) now); case_match; simpl; lia.
  - split; [|unfold GoTime.Add; simpl; lia]. unfold bucket_allow, GoTime.After, GoTime.Add.
    rewrite (proj2 (Z.ltb_lt _ _) Hlt). by zcmp.
Qed.

Lemma mfw_step order keys t key now l m :
  mfw_ok keys l → key ∈ keys → (t <= now)%Z → mfw_sim t keys l m →
  let '(l', ok) := MFW_Allow order key now l in
  let '(m', ok') := ref_Allow (requests l) (window l) key now m in
  ok = ok' ∧ mfw_ok keys l' ∧ requests l' = requests l ∧ window l' = window l ∧
  mfw_sim now keys l' m'.
Proof.
  intros Hok Hkey Ht [Hsame Hdrop Hreset Hkeys].
  pose proof (λ k, cleanup_lookup order keys now l k Hok Hkeys) as Hc.
  unfold MFW_Allow, ref_Allow. set (l1 := MFW_maybeCleanup order now l) in *.
  destruct (Hc key) as (Hr1 & Hw1 & Ht1 & Hm1 & _ & Hd1).
  destruct Hok as (Hr & Hw & Ht' & Hk).
  set (next := match clients l1 !! key with None => _ | Some b => _ end).
  set (ref := match m !! key with None => _ | Some b => _ end).
  assert (Hnext : next = ref ∧
    (resetAt next.1 <= b_lastSeen next.1 + window l ∧ b_lastSeen next.1 <= now)%Z).
  { subst next ref. rewrite Hr1, Hw1. apply same_decision; [lia|lia|].
    apply (known_or_expired order keys t); done. }
  destruct Hnext as [Heq Hres]. rewrite <- Heq in *. clearbody next. clear ref Heq.
  destruct next as [b ok]. simpl in *. split; [done|].
  split; [unfold mfw_ok; simpl; rewrite Hr1, Hw1, Ht1, Hm1; done|].
  split; [done|]. split; [done|]. split; simpl.
  - intros k b' Hb'. destruct (decide (k = key)) as [->|Hne].
    + by rewrite lookup_insert_eq in Hb' |- *.
    + rewrite lookup_insert_ne in Hb' |- * by done.
      destruct (Hc k) as (_ & _ & _ & _ & [He|[He _]] & _); rewrite He in Hb'; [by apply Hsame|done].
  - intros k b' Hn Hb'. destruct (decide (k = key)) as [->|Hne].
    { by rewrite lookup_insert_eq in Hn. }
    rewrite lookup_insert_ne in Hn, Hb' by done. unfold expired in *.
    destruct (Hc k) as (_ & _ & _ & _ & [He|[He (b0 & Hb0 & Hlt)]] & _).
    + rewrite He in Hn. specialize (Hdrop _ _ Hn Hb'). lia.
    + specialize (Hsame _ _ Hb0). rewrite Hb' in Hsame. injection Hsame as ->.
      specialize (Hreset _ _ Hb'). lia.
  - intros k b'. rewrite Hw1. destruct (decide (k = key)) as [->|Hne].
    + rewrite lookup_insert_eq. by intros [= <-].
    + rewrite lookup_insert_ne by done. intros Hb'. specialize (Hreset _ _ Hb'). lia.
  - rewrite dom_insert. set_solver.
Qed.

Lemma mfw_run_ref order keys ops t l m :
  mfw_ok keys l → (∀ k, k ∈ ops.*1 → k ∈ keys) → increasing t ops.*2 → mfw_sim t keys l m →
  mfw_run order ops l = ref_run (requests l) (window l) ops m.
Proof.
  revert t l m. induction ops as [|[key now] ops IH]; intros t l m Hok Hk Hinc Hsim; simpl; [done|].
  simpl in Hinc. destruct Hinc as [Ht Hinc].
  assert (Hkey : key ∈ keys) by (apply Hk; csimpl; by left).
  pose proof (mfw_step order keys t key now l m Hok Hkey Ht Hsim) as Hs.
  destruct (MFW_Allow order key now l) as [l1 ok].
  destruct (ref_Allow (requests l) (window l) key now m) as [m1 ok'].
  destruct Hs as (-> & Hok1 & Hr1 & Hw1 & Hsim1). f_equal. rewrite <- Hr1, <- Hw1.
  apply (IH now); [done| |done|done]. intros k Hk'. apply Hk. csimpl. by right.
Qed.


(** ** Token bucket *)

(** Calls of one key's bucket and the number of admitted ones. *)
Fixpoint tb_run (ts : list Z) (b : tokenBucket) : tokenBucket * Z :=
  match ts with
  | [] => (b, 0%Z)
  | t :: ts =>
      let '(b, ok) := tb_allow t b in
      let '(b, n) := tb_run ts b in
      (b, ((if ok : bool then 1 else 0) + n)%Z)
  end.

(** The bucket [TBL_Allow] creates for a new key. *)
Definition new_bucket (l : TokenBucketLimiter) (now : Z) : tokenBucket :=
  MkTB (burst l) (burst l) (refillPerSecond l) now now.

Lemma whole_seconds_add a b :
  (0 <= a)%Z → (0 <= b)%Z → (whole_seconds a + whole_seconds b <= whole_seconds (a + b))%Z.
Proof.
  intros Ha Hb. unfold whole_seconds, GoTime.Second. rewrite !Z.quot_div_nonneg by lia.
  Z.to_euclidean_division_equations. lia.
Qed.

Lemma whole_seconds_mono a b : (0 <= a <= b)%Z → (0 <= whole_seconds a <= whole_seconds b)%Z.
Proof.
  intros H. unfold whole_seconds, GoTime.Second. rewrite !Z.quot_div_nonneg by lia.
  split; [apply Z.div_pos; lia|]. apply Z.div_le_mono; lia.
Qed.

Section TokenBucketBound.
Context (t0 T B R : Z).
Context (Hspan : (0 <= T - t0 < 2 ^ 63)%Z) (HB : (0 < B)%Z) (HR : (0 < R)%Z).
Context (Hfit : (B + whole_seconds (T - t0) * R < 2 ^ 63)%Z).

(** Every admitted request used a token, and tokens come from the initial
    burst and the whole seconds refilled so far. *)
Record tb_inv (t admitted : Z) (b : tokenBucket) : Prop := {
  tb_tokens : (0 <= tokens b <= B)%Z;
  tb_max : maxTokens b = B;
  tb_rate : refillRate b = R;
  tb_times : (t0 <= lastRefill b <= t)%Z ∧ (t <= T)%Z;
  tb_budget : (admitted + tokens b <= B + whole_seconds (lastRefill b - t0) * R)%Z
}.

Lemma tb_step t now n b :
  (t <= now <= T)%Z → tb_inv t n b →
  let '(b', ok) := tb_allow now b in tb_inv now (n + if ok : bool then 1 else 0) b'.
Proof.
  intros Hnow [Htok Hm Hr Ht Hb]. unfold tb_allow.
  rewrite GoTime.Sub_exact by in_range. rewrite Hm, Hr.
  pose proof (whole_seconds_mono (now - lastRefill b) (T - t0) ltac:(lia)) as [Hw0 Hw1].
  assert (whole_seconds (now - lastRefill b) * R <= whole_seconds (T - t0) * R)%Z by nia.
  rewrite i64_id by (unfold in_i64; nia).
  pose proof (whole_seconds_add (lastRefill b - t0) (now - lastRefill b) ltac:(lia) ltac:(lia)) as Ha.
  replace (lastRefill b - t0 + (now - lastRefill b))%Z with (now - t0)%Z in Ha by lia.
  set (refill := if (0 <? _)%Z then _ else _).
  assert (Hre : (0 <= refill.1 <= B)%Z ∧ (t0 <= refill.2 <= now)%Z ∧
    (n + refill.1 <= B + whole_seconds (refill.2 - t0) * R)%Z).
  { subst refill. destruct (Z.ltb_spec 0 (whole_seconds (now - lastRefill b) * R)) as [Hadd|Hadd];
      [|simpl; lia].
    rewrite i64_id by in_range.
    assert ((tokens b + whole_seconds (now - lastRefill b) * R + n
             <= B + whole_seconds (now - t0) * R)%Z) by nia.
    destruct (Z.ltb_spec B (tokens b + whole_seconds (now - lastRefill b) * R)); simpl; lia. }
  destruct refill as [toks last]. simpl in Hre.
  destruct (Z.leb_spec toks 0); split; simpl; try done; lia.
Qed.

Lemma tb_run_bound ts t n b :
  increasing t ts → Forall (λ u, u <= T)%Z ts → tb_inv t n b →
  (n + (tb_run ts b).2 <= B + whole_seconds (T - t0) * R)%Z.
Proof.
  revert t n b. induction ts as [|u ts IH]; intros t n b Hinc HT Hinv; simpl.
  - destruct Hinv as [Htok _ _ Ht Hb].
    pose proof (whole_seconds_mono (lastRefill b - t0) (T - t0) ltac:(lia)). nia.
  - simpl in Hinc. destruct Hinc as [Hu Hinc]. apply Forall_cons in HT as [HuT HT].
    pose proof (tb_step t u n b ltac:(lia) Hinv) as Hs. destruct (tb_allow u b) as [b1 ok].
    specialize (IH u _ b1 Hinc HT Hs). destruct (tb_run ts b1) as [b2 n2]. simpl in *. lia.
Qed.

End TokenBucketBound.

(** C11: the token bucket of a key admits at most [burst] requests plus
    [refillPerSecond] for every whole second since its first request, in any
    sequence of calls up to any time [T] (while these numbers fit an int). *)
Theorem token_bucket_bound rpm b t0 T ts :
  let l := NewTokenBucketLimiter rpm b t0 in
  (0 <= T - t0 < 2 ^ 63)%Z → (burst l + whole_seconds (T - t0) * refillPerSecond l < 2 ^ 63)%Z →
  increasing t0 ts → Forall (λ u, u <= T)%Z ts →
  ((tb_run ts (new_bucket l t0)).2 <= burst l + whole_seconds (T - t0) * refillPerSecond l)%Z.
Proof.
  intros l Hspan Hfit Hinc HT.
  assert (HB : (0 < burst l)%Z).
  { subst l. unfold NewTokenBucketLimiter. cbn [burst]. destruct (Z.leb_spec b 0); lia. }
  assert (HR : (0 < refillPerSecond l)%Z).
  { subst l. unfold NewTokenBucketLimiter. cbn [refillPerSecond].
    match goal with |- context [(?q <=? 0)%Z] => destruct (Z.leb_spec q 0); lia end. }
  clearbody l.
  pose proof (tb_run_bound t0 T (burst l) (refillPerSecond l) Hspan HB HR Hfit ts t0 0
    (new_bucket l t0) Hinc HT) as Hb.
  rewrite Z.add_0_l in Hb. apply Hb.
  split; simpl; rewrite ?Z.sub_diag; change (whole_seconds 0) with 0%Z; try done; lia.
Qed.

(** Below 60 requests per minute the token bucket does not enforce its
    configured rate: the refill is rounded up to one token per second, so a
    client that sends one request per second (60 per minute) is never
    refused, whatever rate between 1 and 59 per minute was configured. *)
Theorem token_bucket_exceeds_rate rpm b t0 n :
  (0 < rpm < 60)%Z → (Z.of_nat n < 2 ^ 32)%Z →
  let l := NewTokenBucketLimiter rpm b t0 in
  (burst l < 2 ^ 62)%Z →
  (tb_run ((λ i, t0 + Z.of_nat i * GoTime.Second)%Z <$> seq 0 n) (new_bucket l t0)).2 = Z.of_nat n.
Proof.
  intros Hrpm Hn l Hbl.
  assert (HB : (0 < burst l)%Z).
  { subst l. unfold NewTokenBucketLimiter. cbn [burst]. destruct (Z.leb_spec b 0); lia. }
  assert (HR : refillPerSecond l = 1%Z).
  { subst l. unfold NewTokenBucketLimiter. cbn [refillPerSecond]. zcmp.
    by rewrite Z.quot_small by lia. }
  assert (Hgo : ∀ n i bk, maxTokens bk = burst l → refillRate bk = 1%Z →
    (0 <= tokens bk <= burst l)%Z →
    (t0 + Z.of_nat i * GoTime.Second = lastRefill bk + GoTime.Second)%Z →
    (tb_run ((λ i, t0 + Z.of_nat i * GoTime.Second)%Z <$> seq i n) bk).2 = Z.of_nat n).
  { clear n Hn. induction n as [|n IH]; intros i bk Hm Hr Htok Ht; [done|].
    cbn [seq]. rewrite fmap_cons. cbn [tb_run]. unfold tb_allow. rewrite Hm, Hr, Ht.
    replace (lastRefill bk + GoTime.Second)%Z with (GoTime.Second + lastRefill bk)%Z by lia.
    rewrite GoTime.Sub_exact; replace (GoTime.Second + lastRefill bk - lastRefill bk)%Z with GoTime.Second by lia;
      [|by vm_compute; split].
    change (i64 (whole_seconds GoTime.Second * 1)) with 1%Z. cbn [Z.ltb Z.compare].
    rewrite i64_id by in_range.
    set (toks := if (burst l <? tokens bk + 1)%Z then burst l else (tokens bk + 1)%Z).
    assert (Htk : (0 < toks <= burst l)%Z) by (subst toks; case_match; lia).
    zcmp.
    specialize (IH (S i) (MkTB (toks - 1) (burst l) 1 (GoTime.Second + lastRefill bk) (GoTime.Second + lastRefill bk))).
    cbn [maxTokens refillRate tokens lastRefill] in IH. specialize (IH eq_refl eq_refl ltac:(lia) ltac:(lia)).
    destruct (tb_run _ _) as [b2 n2]. cbn [snd] in *. lia. }
  destruct n as [|n]; [done|]. cbn [seq]. rewrite fmap_cons. cbn [tb_run].
  replace (t0 + Z.of_nat 0 * GoTime.Second)%Z with t0 by lia.
  assert (Hfirst : tb_allow t0 (new_bucket l t0) =
    (MkTB (burst l - 1) (burst l) (refillPerSecond l) t0 t0, true)).
  { unfold tb_allow, new_bucket. cbn [tokens maxTokens refillRate lastRefill].
    rewrite GoTime.Sub_exact, Z.sub_diag by (rewrite Z.sub_diag; by vm_compute).
    change (i64 (whole_seconds 0 * refillPerSecond l)) with 0%Z. cbn [Z.ltb Z.compare].
    by rewrite (proj2 (Z.leb_gt (burst l) 0)) by lia. }
  rewrite Hfirst.
  specialize (Hgo n 1 (MkTB (burst l - 1) (burst l) (refillPerSecond l) t0 t0) eq_refl HR).
  cbn [tokens lastRefill] in Hgo. specialize (Hgo ltac:(lia) ltac:(lia)).
  destruct (tb_run _ _) as [b2 n2]. cbn [snd] in *. lia.
Qed.

(** ** The manager and the middleware *)

Section ManagerProps.
Context {L : Type} `{!XRate L}.

(** The limiter that decides for [name]. *)
Definition deciding (name : string) (m : Manager L) : option string :=
  match Get name m with
  | Some _ => Some name
  | None => match Get "default" m with Some _ => Some "default" | None => None end
  end.

(** The manager asks exactly one limiter, the named one or else the
    default one, lets the request through when there is neither, and leaves
    every other limiter unchanged; the middleware answers 429 exactly when
    that limiter refuses. *)
Theorem manager_decides name now (m : Manager L) :
  let '(m', status) := Wrap name now m in
  config m' = config m ∧
  match deciding name m with
  | None => m' = m ∧ status = None
  | Some k => ∃ r, Get k m = Some r ∧ Get k m' = Some (Any_Allow now r).1 ∧
      status = (if (Any_Allow now r).2 then None else Some 429%Z) ∧
      ∀ k', k' ≠ k → Get k' m' = Get k' m
  end.
Proof.
  unfold Wrap, Manager_Allow, Manager_run, deciding.
  destruct (Get name m) as [r|] eqn:Hr; [|destruct (Get "default" m) as [r|] eqn:Hd; [|done]].
  all: destruct (Any_Allow now r) as [r' b] eqn:Ha; simpl.
  all: destruct b; simpl; (split; [done|]); exists r; rewrite Ha; unfold Get, Add; simpl.
  all: split; [done|]; split; [by rewrite lookup_insert_eq|]; split; [done|].
  all: intros k' Hk'; by rewrite lookup_insert_ne.
Qed.

End ManagerProps.

(** ** Concrete instances *)

Module RateLimitExample.

Definition three : spec_float := S754_finite false 6755399441055744 (-51).

Definition cfg : Config := MkConfig StrategySlidingWindow three 1 10 0.

Lemma sliding_window_bound_witness :
  let '(r, log) := sw_run [(1, OpAllowN 2); (2, OpAllow); (3, OpReserveN 3 1); (12, OpAllowN 2)]%Z
    (NewSlidingWindowRateLimiter cfg) in
  (Z.of_nat (count_in 0 10 log) <= 3)%Z ∧ (sw_call 12 OpAllow r).2 = true.
Proof.
  pose proof (sliding_window_bound cfg [(1, OpAllowN 2); (2, OpAllow); (3, OpReserveN 3 1); (12, OpAllowN 2)]%Z
    0 12 OpAllow 10) as H.
  assert (Hl : (sw_run [(1, OpAllowN 2); (2, OpAllow); (3, OpReserveN 3 1); (12, OpAllowN 2)]%Z
    (NewSlidingWindowRateLimiter cfg)).2 = [1; 1; 2; 12; 12]%Z) by (vm_compute; reflexivity).
  destruct (sw_run _ _) as [r log]. simpl in Hl. subst log. destruct H as [H1 H2].
  - vm_compute. discriminate.
  - repeat split; vm_compute; discriminate.
  - repeat constructor; vm_compute; reflexivity.
  - split; [exact H1|]. apply H2. right. split; [reflexivity|]. vm_compute. discriminate.
Defined.

Lemma fixed_window_bound_witness :
  (admitted_in 0 (fw_run [(1, 2); (2, 2); (3, 1); (12, 2)]%Z (NewFixedWindowRateLimiter cfg 0)).2 <= 3)%Z.
Proof.
  pose proof (fixed_window_bound cfg [(1, 2); (2, 2); (3, 1); (12, 2)]%Z 0) as H.
  destruct (fw_run _ _) as [r log]. apply H.
  - by vm_compute.
  - change (rate_limit cfg) with 3%Z. repeat constructor.
Defined.

Lemma fixed_window_overflow_witness :
  let r := (FW_AllowN 1 1 (NewFixedWindowRateLimiter cfg 0)).1 in
  (FW_AllowN 2 maxInt64 r).2 = true ∧ (FW_Allow 3 (FW_AllowN 2 maxInt64 r).1).2 = true.
Proof.
  intros r. pose proof (fixed_window_overflow r 2 3 maxInt64) as H.
  destruct (FW_AllowN 2 maxInt64 r) as [r' b]. destruct H as (H1 & _ & H2).
  - vm_compute. split; done.
  - vm_compute. split; done.
  - vm_compute. split; done.
  - vm_compute. done.
  - vm_compute. done.
  - vm_compute. done.
  - split; [exact H1|exact H2].
Defined.


Lemma token_bucket_bound_witness :
  ((tb_run [0; 1; 2; 3; 2000000000]%Z (new_bucket (NewTokenBucketLimiter 60 3 0) 0)).2
    <= 3 + 2 * 1)%Z.
Proof.
  apply (token_bucket_bound 60 3 0 2000000000 [0; 1; 2; 3; 2000000000]%Z).
  - lia.
  - by vm_compute.
  - simpl. lia.
  - repeat constructor; lia.
Defined.

Lemma token_bucket_exceeds_rate_witness :
  (tb_run ((λ i, 0 + Z.of_nat i * GoTime.Second)%Z <$> seq 0 60)
     (new_bucket (NewTokenBucketLimiter 1 1 0) 0)).2 = 60%Z.
Proof.
  apply (token_bucket_exceeds_rate 1 1 0 60).
  - lia.
  - lia.
  - by vm_compute.
Defined.

End RateLimitExample.
