(* ===== verification/DbBreaker.v ===== *)
(** * plugins/db/circuitbreaker: the database circuit breaker

    Models [src/plugins/db/circuitbreaker/breaker.go].  The atomic fields are
    a record; a method is a step at the clock reading it takes (no other
    goroutine intervenes inside a method, so a compare-and-swap fails only
    when the state differs).  Logging is left out. *)

From S2P Require Import Prelude.

Import GoError GoInt.

(** ** The breaker *)

Inductive State : Type := StateClosed | StateOpen | StateHalfOpen.

#[export] Instance State_eq_dec : EqDecision State.
Proof. solve_decision. Defined.

Record Config := MkConfig {
  MaxFailures : Z;             (* uint32 *)
  ResetTimeout : Z;            (* time.Duration *)
  HalfOpenMaxRequests : Z;     (* uint32 *)
  SuccessThreshold : Z;        (* uint32 *)
  Name : string
}.

Definition DefaultConfig : Config := MkConfig 5 (30 * GoTime.Second) 3 2 "default".

Record CircuitBreaker := MkCB {
  config : Config;
  state : State;
  failures : Z;                (* uint32 *)
  successes : Z;               (* uint32 *)
  requests : Z;                (* uint32 *)
  lastFailureTime : Z;         (* int64 *)
  openError : error
}.

Definition ErrCircuitOpen : error := Sentinel "circuitbreaker.ErrCircuitOpen".

Definition New (c : Config) : CircuitBreaker :=
  let or_default v d := if decide (v = 0%Z) then d else v in
  let c := MkConfig (or_default (MaxFailures c) (MaxFailures DefaultConfig))
    (or_default (ResetTimeout c) (ResetTimeout DefaultConfig))
    (or_default (HalfOpenMaxRequests c) (HalfOpenMaxRequests DefaultConfig))
    (or_default (SuccessThreshold c) (SuccessThreshold DefaultConfig)) (Name c) in
  MkCB c StateClosed 0 0 0 0 (ErrorfW "%w: %s" [Name c] ErrCircuitOpen).

Definition toOpen (now : Z) (cb : CircuitBreaker) : CircuitBreaker * bool :=
  match state cb with
  | StateClosed => (MkCB (config cb) StateOpen 0 (successes cb) (requests cb) now (openError cb), true)
  | StateHalfOpen =>
      (MkCB (config cb) StateOpen (failures cb) (successes cb) (requests cb) (lastFailureTime cb)
         (openError cb), true)
  | StateOpen => (cb, false)
  end.

Definition toHalfOpen (cb : CircuitBreaker) : CircuitBreaker * bool :=
  match state cb with
  | StateOpen =>
      (MkCB (config cb) StateHalfOpen (failures cb) 0 0 (lastFailureTime cb) (openError cb), true)
  | _ => (cb, false)
  end.

Definition toClosed (cb : CircuitBreaker) : CircuitBreaker * bool :=
  match state cb with
  | StateHalfOpen => (MkCB (config cb) StateClosed 0 0 0 (lastFailureTime cb) (openError cb), true)
  | _ => (cb, false)
  end.

Definition set_requests (r : Z) (cb : CircuitBreaker) : CircuitBreaker :=
  MkCB (config cb) (state cb) (failures cb) (successes cb) r (lastFailureTime cb) (openError cb).

Definition canExecute (now : Z) (cb : CircuitBreaker) : CircuitBreaker * option error :=
  match state cb with
  | StateClosed => (cb, None)
  | StateOpen =>
      if (ResetTimeout (config cb) <=? GoTime.Sub now (lastFailureTime cb))%Z then
        let '(cb, ok) := toHalfOpen cb in
        if ok then (cb, None)
        else if decide (state cb = StateHalfOpen) then (cb, None)
        else (cb, Some (openError cb))
      else (cb, Some (openError cb))
  | StateHalfOpen =>
      let cb := set_requests (u32 (requests cb + 1)) cb in
      if (HalfOpenMaxRequests (config cb) <? requests cb)%Z
      then (set_requests (u32 (requests cb - 1)) cb, Some (openError cb))
      else (cb, None)
  end.

Definition onFailure (st : State) (now : Z) (cb : CircuitBreaker) : CircuitBreaker :=
  match st with
  | StateClosed =>
      let f := u32 (failures cb + 1) in
      let cb := MkCB (config cb) (state cb) f (successes cb) (requests cb) (lastFailureTime cb)
                  (openError cb) in
      if (MaxFailures (config cb) <=? f)%Z then (toOpen now cb).1 else cb
  | StateHalfOpen => (toOpen now cb).1
  | StateOpen => cb
  end.

Definition onSuccess (st : State) (cb : CircuitBreaker) : CircuitBreaker :=
  match st with
  | StateClosed =>
      MkCB (config cb) (state cb) 0 (successes cb) (requests cb) (lastFailureTime cb) (openError cb)
  | StateHalfOpen =>
      let s := u32 (successes cb + 1) in
      let cb := MkCB (config cb) (state cb) (failures cb) s (requests cb) (lastFailureTime cb)
                  (openError cb) in
      if (SuccessThreshold (config cb) <=? s)%Z then (toClosed cb).1 else cb
  | StateOpen => cb
  end.

Definition recordResult (err : option error) (now : Z) (cb : CircuitBreaker) : CircuitBreaker :=
  match err with
  | Some _ => onFailure (state cb) now cb
  | None => onSuccess (state cb) cb
  end.

(** [Execute] and [ExecuteWithResult]: [t1] is the clock of the admission,
    [t2] of the recording; the second component tells whether [fn] ran. *)
Definition ExecuteWithResult {T} (t1 t2 : Z) (fn : option T * option error) (cb : CircuitBreaker) :
    CircuitBreaker * bool * (option T * option error) :=
  let '(cb, e) := canExecute t1 cb in
  match e with
  | Some e => (cb, false, (None, Some e))
  | None => (recordResult fn.2 t2 cb, true, fn)
  end.

Definition Execute (t1 t2 : Z) (err : option error) (cb : CircuitBreaker) :
    CircuitBreaker * bool * option error :=
  let '(cb, e) := canExecute t1 cb in
  match e with
  | Some e => (cb, false, Some e)
  | None => (recordResult err t2 cb, true, err)
  end.

Definition ForceOpen (now : Z) (cb : CircuitBreaker) : CircuitBreaker :=
  MkCB (config cb) StateOpen (failures cb) (successes cb) (requests cb) now (openError cb).

Definition ForceClosed (cb : CircuitBreaker) : CircuitBreaker :=
  MkCB (config cb) StateClosed 0 0 0 (lastFailureTime cb) (openError cb).

Record Stats := MkStats {
  st_State : State; st_Failures : Z; st_Successes : Z; st_Requests : Z; st_LastFailure : Z
}.

Definition GetStats (cb : CircuitBreaker) : Stats :=
  MkStats (state cb) (failures cb) (successes cb) (requests cb) (lastFailureTime cb).

(** ** Threshold and fail-fast *)

(** Successive failing calls at the given clock readings. *)
Fixpoint fail_at (ts : list Z) (cb : CircuitBreaker) : CircuitBreaker * list bool :=
  match ts with
  | [] => (cb, [])
  | t :: ts =>
      let '(cb, ran, _) := Execute t t (Some (Errorf "failure" [])) cb in
      let '(cb, rans) := fail_at ts cb in
      (cb, ran :: rans)
  end.

Lemma fail_closed_step t cb :
  state cb = StateClosed → in_u32 (MaxFailures (config cb)) →
  (0 <= failures cb < MaxFailures (config cb))%Z →
  let '(cb', ran, _) := Execute t t (Some (Errorf "failure" [])) cb in
  ran = true ∧ config cb' = config cb ∧ openError cb' = openError cb ∧
  if (failures cb + 1 <? MaxFailures (config cb))%Z
  then state cb' = StateClosed ∧ failures cb' = (failures cb + 1)%Z
  else state cb' = StateOpen ∧ lastFailureTime cb' = t.
Proof.
  intros Hs Hm Hf. unfold Execute, canExecute, recordResult, onFailure. rewrite Hs.
  unfold in_u32 in Hm. rewrite u32_id by in_range. simpl.
  destruct (Z.leb_spec (MaxFailures (config cb)) (failures cb + 1)).
  - zcmp. unfold toOpen. simpl. by rewrite Hs.
  - zcmp. by rewrite Hs.
Qed.

Lemma db_open_refuses t t2 err cb :
  state cb = StateOpen → (GoTime.Sub t (lastFailureTime cb) < ResetTimeout (config cb))%Z →
  Execute t t2 err cb = (cb, false, Some (openError cb)).
Proof.
  intros Hs Ht. unfold Execute, canExecute. rewrite Hs. by rewrite (proj2 (Z.leb_gt _ _)).
Qed.

(** The failing calls up to the one that opens the breaker. *)
Lemma fail_closed_run cb last (Hm : in_u32 (MaxFailures (config cb))) ts cb0 :
  state cb0 = StateClosed → config cb0 = config cb → openError cb0 = openError cb →
  (0 <= failures cb0)%Z →
  (failures cb0 + Z.of_nat (S (length ts)) = MaxFailures (config cb))%Z →
  let r := fail_at (ts ++ [last]) cb0 in
  r.2 = replicate (S (length ts)) true ∧ state r.1 = StateOpen ∧
  lastFailureTime r.1 = last ∧ config r.1 = config cb ∧ openError r.1 = openError cb.
Proof.
  revert cb0. induction ts as [|u ts IH]; intros cb0 Hs Hc He Hf0 Hf; cbn [length] in Hf.
  - pose proof (fail_closed_step last cb0 Hs) as H. rewrite Hc in H. specialize (H Hm ltac:(lia)).
    cbn [app fail_at]. destruct (Execute _ _ _ _) as [[cb1 ran] r].
    destruct H as (-> & Hc1 & He1 & Hb). rewrite (proj2 (Z.ltb_ge _ _)) in Hb by lia.
    destruct Hb as [Hs1 Hl1]. simpl. rewrite He1. done.
  - pose proof (fail_closed_step u cb0 Hs) as H. rewrite Hc in H. specialize (H Hm ltac:(lia)).
    cbn [app fail_at]. destruct (Execute _ _ _ _) as [[cb1 ran] r].
    destruct H as (-> & Hc1 & He1 & Hb). rewrite (proj2 (Z.ltb_lt _ _)) in Hb by lia.
    destruct Hb as [Hs1 Hf1]. destruct (IH cb1) as (Hr & Hrest); [done|congruence|congruence|lia|lia|].
    destruct (fail_at (ts ++ [last]) cb1) as [cb2 rans]. simpl in *. by rewrite Hr.
Qed.

(** A closed database breaker whose last call succeeded runs exactly
    [MaxFailures] consecutive failing calls and opens at the last of them;
    it then refuses every call for [ResetTimeout], with an error that
    [errors.Is] recognises as [ErrCircuitOpen], and changes nothing. *)
Theorem db_breaker_trips c ts last t :
  let cb := New c in
  in_u32 (MaxFailures c) →
  Z.of_nat (S (length ts)) = MaxFailures (config cb) →
  (GoTime.Sub t last < ResetTimeout (config cb))%Z →
  let '(cb', rans) := fail_at (ts ++ [last]) cb in
  rans = replicate (S (length ts)) true ∧ state cb' = StateOpen ∧
  ∀ err t2, Execute t t2 err cb' = (cb', false, Some (openError cb')) ∧
    Is (openError cb') "circuitbreaker.ErrCircuitOpen" = true.
Proof.
  intros cb Hm Hlen Ht.
  assert (Hm' : in_u32 (MaxFailures (config cb))).
  { subst cb. unfold New. simpl. case_decide; [unfold in_u32; simpl; lia|done]. }
  destruct (fail_closed_run cb last Hm' ts cb) as (Hr & Hs & Hl & Hc & He); [done|done|done|done|simpl failures; lia|].
  destruct (fail_at (ts ++ [last]) cb) as [cb' rans]. simpl in Hr, Hs, Hl, Hc, He.
  split; [done|]. split; [done|]. intros err t2. split; [|by rewrite He].
  apply db_open_refuses; [done|]. by rewrite Hl, Hc.
Qed.

(** ** Half-open defects *)

(** A failed probe does not restart the timeout: [toOpen] stores the time
    of the failure only when it leaves the closed state, so the breaker that
    re-opens after a half-open failure lets the very next call through, at
    the same clock reading, instead of failing fast for [ResetTimeout]. *)
Theorem reopened_breaker_does_not_wait cb now e t2 err :
  state cb = StateHalfOpen → (ResetTimeout (config cb) <= GoTime.Sub now (lastFailureTime cb))%Z →
  let cb' := recordResult (Some e) now cb in
  state cb' = StateOpen ∧ (Execute now t2 err cb').1.2 = true.
Proof.
  intros Hs Ht. unfold recordResult, onFailure, toOpen. rewrite Hs. simpl. split; [done|].
  unfold Execute, canExecute. simpl. by rewrite (proj2 (Z.leb_le _ _)).
Qed.

(** A half-open breaker can be stuck for ever: completed probes are never
    subtracted from [requests], so once [HalfOpenMaxRequests] probes were
    admitted without reaching [SuccessThreshold], every later call is refused
    and leaves the breaker as it is, at any time; a breaker whose threshold
    exceeds [HalfOpenMaxRequests + 1] gets there by successful probes
    alone. *)
Theorem half_open_stuck cb t t2 err :
  state cb = StateHalfOpen → requests cb = HalfOpenMaxRequests (config cb) →
  (0 <= HalfOpenMaxRequests (config cb) < 2 ^ 32 - 1)%Z →
  Execute t t2 err cb = (cb, false, Some (openError cb)).
Proof.
  intros Hs Hr Hm. unfold Execute, canExecute. rewrite Hs. unfold set_requests. simpl.
  rewrite Hr, u32_id by in_range. zcmp.
  replace (HalfOpenMaxRequests (config cb) + 1 - 1)%Z with (HalfOpenMaxRequests (config cb)) by lia.
  rewrite u32_id by in_range. destruct cb. simpl in *. by subst.
Qed.

Module DbBreakerExample.

Definition cfg : Config := MkConfig 2 10 3 5 "db".

(** Two failures at time 0, then successful probes from time 10 on. *)
Definition tripped : CircuitBreaker := (fail_at [0; 0]%Z (New cfg)).1.

Fixpoint succeed_at (ts : list Z) (cb : CircuitBreaker) : CircuitBreaker :=
  match ts with
  | [] => cb
  | t :: ts => succeed_at ts (Execute t t None cb).1.1
  end.

Lemma db_breaker_trips_witness :
  (fail_at [0; 5]%Z (New cfg)).2 = [true; true] ∧
  (Execute 14 14 None (fail_at [0; 5]%Z (New cfg)).1).1.2 = false.
Proof.
  pose proof (db_breaker_trips cfg [0]%Z 5 14) as H. cbn [app] in H.
  destruct (fail_at [0; 5]%Z (New cfg)) as [cb' rans]. destruct H as (H1 & H2 & H3).
  - vm_compute. split; done.
  - reflexivity.
  - by vm_compute.
  - split; [exact H1|]. cbn [fst]. destruct (H3 None 14%Z) as [H4 _]. by rewrite H4.
Defined.

Lemma reopened_breaker_does_not_wait_witness :
  (Execute 10 10 None (recordResult (Some (Errorf "x" [])) 10 (canExecute 10 tripped).1)).1.2 = true.
Proof.
  apply (reopened_breaker_does_not_wait (canExecute 10 tripped).1 10 (Errorf "x" []) 10 None).
  - reflexivity.
  - by vm_compute.
Defined.

(** Four successful probes, one fewer than the threshold, and the breaker is
    stuck. *)
Lemma half_open_stuck_witness :
  (Execute 1000000 1000000 None (succeed_at [10; 10; 10; 10]%Z tripped)).1.2 = false.
Proof.
  rewrite (half_open_stuck (succeed_at [10; 10; 10; 10]%Z tripped) 1000000 1000000 None).
  - reflexivity.
  - reflexivity.
  - reflexivity.
  - vm_compute. split; done.
Defined.

End DbBreakerExample.
