(* ===== verification/Orm.v ===== *)
(** * plugins/db/orm: dialects and the WHERE, DELETE and UPDATE builders

    Models [src/plugins/db/orm/dialect.go], [where_builder.go], the
    placeholder functions of [select_builder.go] and [Build] of
    [delete_builder.go] and [update_builder.go].  A statement is a string with
    the list of its arguments; argument values are of an arbitrary type [V].
    White space is the ASCII one. *)

From S2P Require Import Prelude StableSort.
From stdpp Require Import pretty.
From Stdlib Require Import Ascii.

Import GoStrconv.

(** ** Strings *)

Definition is_space (c : ascii) : bool :=
  let n := nat_of_ascii c in (n =? 32) || ((9 <=? n) && (n <=? 13)).

(** [strings.Contains(s, c)] for one character, [strings.Count(s, c)]. *)
Fixpoint contains_char (c : ascii) (s : string) : bool :=
  match s with
  | String.EmptyString => false
  | String.String a s => Ascii.eqb a c || contains_char c s
  end.

Fixpoint count_char (c : ascii) (s : string) : nat :=
  match s with
  | String.EmptyString => 0
  | String.String a s => (if Ascii.eqb a c then 1 else 0) + count_char c s
  end.

(** [strings.Replace(s, "?", p, 1)]. *)
Fixpoint replace_first (p s : string) : string :=
  match s with
  | String.EmptyString => String.EmptyString
  | String.String a s =>
      if Ascii.eqb a "?" then p +:+ s else String.String a (replace_first p s)
  end.

(** [strings.ContainsAny]. *)
Fixpoint contains_any (chars s : string) : bool :=
  match s with
  | String.EmptyString => false
  | String.String a s => contains_char a chars || contains_any chars s
  end.

(** [strings.Split] on one character. *)
Fixpoint split_on (c : ascii) (s : string) : list string :=
  match s with
  | String.EmptyString => [String.EmptyString]
  | String.String a s =>
      if Ascii.eqb a c then String.EmptyString :: split_on c s
      else
        match split_on c s with
        | w :: ws => String.String a w :: ws
        | [] => [String.String a String.EmptyString]
        end
  end.

(** [strings.Fields]: [cur] is the word being read. *)
Fixpoint fields_from (cur : string) (s : string) : list string :=
  match s with
  | String.EmptyString => if decide (cur = "") then [] else [cur]
  | String.String a s =>
      if is_space a then
        if decide (cur = "") then fields_from "" s else cur :: fields_from "" s
      else fields_from (cur +:+ String.String a String.EmptyString) s
  end.

Definition Fields (s : string) : list string := fields_from "" s.

(** [strings.TrimSpace]. *)
Fixpoint trim_left (s : string) : string :=
  match s with
  | String.EmptyString => String.EmptyString
  | String.String a s' => if is_space a then trim_left s' else s
  end.

Fixpoint trim_right (s : string) : string :=
  match s with
  | String.EmptyString => String.EmptyString
  | String.String a s =>
      match trim_right s with
      | String.EmptyString => if is_space a then String.EmptyString else String.String a String.EmptyString
      | s => String.String a s
      end
  end.

Definition TrimSpace (s : string) : string := trim_right (trim_left s).

(** ** Dialects *)

Inductive Feature : Type :=
| FeatureWindowFunctions | FeatureCTE | FeatureFullOuterJoin | FeatureJSON
| FeatureArray | FeatureUUID | FeatureUpsert.

(** The [Dialect] interface as a record of its methods; [is_postgres] is the
    type test [dialect.( *PostgreSQLDialect)] of the builders. *)
Record Dialect := MkDialect {
  LockForUpdate : string;
  LockInShareMode : string;
  QuoteIdentifier : string → string;
  Placeholder : Z → string;
  SupportsFeature : Feature → bool;
  LimitOffset : Z → Z → string;
  GetLastInsertID : string;
  is_postgres : bool
}.

(** The same code in all dialects. *)
Definition limit_offset (limit offset : Z) : string :=
  if (limit <=? 0)%Z && (offset <=? 0)%Z then ""
  else if (offset <=? 0)%Z then "LIMIT " +:+ pretty limit
  else if (limit <=? 0)%Z then "OFFSET " +:+ pretty offset
  else "LIMIT " +:+ pretty limit +:+ " OFFSET " +:+ pretty offset.

Definition backquote (s : string) : string := "`" +:+ s +:+ "`".

(** [MySQLDialect.QuoteIdentifier].  The recursive call is on a word without
    white space, which takes one of the last two branches: two rounds are
    enough. *)
Fixpoint mysql_quote (fuel : nat) (identifier : string) : string :=
  match fuel with
  | 0 => identifier
  | S fuel =>
      let identifier := TrimSpace identifier in
      if decide (identifier = "") then "``"
      else if contains_any "()*,+-/\" identifier then identifier
      else if contains_char " " identifier then
        match Fields identifier with
        | first :: ((_ :: _) as rest) =>
            mysql_quote fuel first +:+ " " +:+ String.concat " " rest
        | _ => identifier
        end
      else if contains_char "." identifier then
        String.concat "." (backquote <$> split_on "." identifier)
      else backquote identifier
  end.

Definition mysql_features (f : Feature) : bool :=
  match f with
  | FeatureWindowFunctions | FeatureCTE | FeatureJSON => true
  | _ => false
  end.

Definition MySQLDialect : Dialect :=
  MkDialect "FOR UPDATE" "LOCK IN SHARE MODE" (mysql_quote 2) (λ _, "?") mysql_features
    limit_offset "SELECT LAST_INSERT_ID()" false.

Definition double_quote : string := String.String (ascii_of_nat 34) String.EmptyString.

Definition pg_quote (identifier : string) : string := double_quote +:+ identifier +:+ double_quote.

Definition pg_placeholder (index : Z) : string := "$" +:+ pretty (index + 1)%Z.

Definition PostgreSQLDialect : Dialect :=
  MkDialect "FOR UPDATE" "FOR SHARE" pg_quote pg_placeholder (λ _, true)
    limit_offset "RETURNING id" true.

Definition SQLiteDialect : Dialect :=
  MkDialect "" "" pg_quote (λ _, "?") mysql_features limit_offset "SELECT last_insert_rowid()" false.

Definition ClickHouseDialect : Dialect :=
  MkDialect "" "" (mysql_quote 2) (λ _, "?") mysql_features limit_offset "" false.

(** [DefaultDialect] embeds the MySQL one. *)
Definition NewDefaultDialect : Dialect := MySQLDialect.

Definition NewDialect (dialectType : string) : Dialect :=
  if decide (dialectType = "mysql") then MySQLDialect
  else if decide (dialectType = "postgresql") then PostgreSQLDialect
  else if decide (dialectType = "sqlite") then SQLiteDialect
  else if decide (dialectType = "clickhouse") then ClickHouseDialect
  else NewDefaultDialect.

(** ** Placeholders *)

(** The loop that replaces the first [?], [n] times, by the placeholders from
    index [idx] on. *)
Fixpoint replace_n (d : Dialect) (n : nat) (idx : Z) (s : string) : string :=
  match n with
  | 0 => s
  | S n => replace_n d n (idx + 1) (replace_first (Placeholder d idx) s)
  end.

Definition replaceConditionPlaceholders (condition : string) (d : Dialect) (startIndex : Z) : string :=
  if decide (condition = "") then condition
  else replace_n d (count_char "?" condition) startIndex condition.

(** [shiftPlaceholdersIfNeeded]: every match of [\$\d+] is renumbered;
    [pending] holds the digits read after a dollar sign. *)
Definition flush (offset : Z) (pending : option string) : string :=
  match pending with
  | None => ""
  | Some ds =>
      if decide (ds = "") then "$"
      else
        match Atoi ds with
        | Some n => "$" +:+ pretty (GoInt.i64 (n + offset))
        | None => "$" +:+ ds
        end
  end.

Fixpoint shift_from (offset : Z) (pending : option string) (s : string) : string :=
  match s with
  | String.EmptyString => flush offset pending
  | String.String a s =>
      match pending, digit a with
      | Some ds, Some _ => shift_from offset (Some (ds +:+ String.String a String.EmptyString)) s
      | _, _ =>
          if Ascii.eqb a "$" then flush offset pending +:+ shift_from offset (Some "") s
          else flush offset pending +:+ String.String a (shift_from offset None s)
      end
  end.

Definition shiftPlaceholdersIfNeeded (query : string) (d : Dialect) (offset : Z) : string :=
  if decide (offset = 0%Z) then query
  else if negb (is_postgres d) then query
  else shift_from offset None query.

(** ** WhereBuilder *)

Section Where.
Context {V : Type}.

Record WhereBuilder := MkWhere {
  conditions : list string;
  args : list V;
  dialect : Dialect
}.

Definition NewWhereBuilder (d : option Dialect) : WhereBuilder :=
  MkWhere [] [] (match d with None => NewDefaultDialect | Some d => d end).

Definition nargs (wb : WhereBuilder) : Z := Z.of_nat (length (args wb)).

Definition Where (condition : string) (vs : list V) (wb : WhereBuilder) : WhereBuilder :=
  MkWhere (conditions wb ++ [condition]) (args wb ++ vs) (dialect wb).

(** [And] and [Or]: the connective is left out for the first condition. *)
Definition connect (word condition : string) (vs : list V) (wb : WhereBuilder) : WhereBuilder :=
  MkWhere
    (conditions wb ++ [if decide (conditions wb = []) then condition else word +:+ " " +:+ condition])
    (args wb ++ vs) (dialect wb).

Definition And : string → list V → WhereBuilder → WhereBuilder := connect "AND".
Definition Or : string → list V → WhereBuilder → WhereBuilder := connect "OR".

(** [Group], [AndWhere], [AndGroup] (connective AND) and [OrWhere],
    [OrGroup] (connective OR): [fn] fills a new builder. *)
Definition group (word : string) (fn : WhereBuilder → WhereBuilder) (wb : WhereBuilder) : WhereBuilder :=
  let sub := fn (NewWhereBuilder (Some (dialect wb))) in
  if decide (conditions sub = []) then wb
  else connect word ("(" +:+ String.concat " " (conditions sub) +:+ ")") (args sub) wb.

Definition Group : (WhereBuilder → WhereBuilder) → WhereBuilder → WhereBuilder := group "AND".
Definition AndWhere : (WhereBuilder → WhereBuilder) → WhereBuilder → WhereBuilder := group "AND".
Definition OrWhere : (WhereBuilder → WhereBuilder) → WhereBuilder → WhereBuilder := group "OR".

(** [Eq], [Ne], [Gt], [Gte], [Lt], [Lte], [Like]: a column, an operator and
    one placeholder. *)
Definition compare_op (op column : string) (value : V) (wb : WhereBuilder) : WhereBuilder :=
  Where (QuoteIdentifier (dialect wb) column +:+ " " +:+ op +:+ " " +:+
         Placeholder (dialect wb) (nargs wb)) [value] wb.

Definition Eq : string → V → WhereBuilder → WhereBuilder := compare_op "=".
Definition Ne : string → V → WhereBuilder → WhereBuilder := compare_op "!=".
Definition Gt : string → V → WhereBuilder → WhereBuilder := compare_op ">".
Definition Gte : string → V → WhereBuilder → WhereBuilder := compare_op ">=".
Definition Lt : string → V → WhereBuilder → WhereBuilder := compare_op "<".
Definition Lte : string → V → WhereBuilder → WhereBuilder := compare_op "<=".
Definition Like : string → V → WhereBuilder → WhereBuilder := compare_op "LIKE".

Definition ILike (column : string) (value : V) (wb : WhereBuilder) : WhereBuilder :=
  let d := dialect wb in
  if is_postgres d then compare_op "ILIKE" column value wb
  else Where ("LOWER(" +:+ QuoteIdentifier d column +:+ ") LIKE LOWER(" +:+
              Placeholder d (nargs wb) +:+ ")") [value] wb.

(** The placeholders of a value list. *)
Definition placeholders (d : Dialect) (start : Z) (n : nat) : string :=
  String.concat ", " ((λ i, Placeholder d (start + Z.of_nat i)%Z) <$> seq 0 n).

(** [In] and [NotIn]; [empty] is the condition for no values. *)
Definition in_op (op empty column : string) (values : list V) (wb : WhereBuilder) : WhereBuilder :=
  if decide (length values = 0) then Where empty [] wb
  else
    Where (QuoteIdentifier (dialect wb) column +:+ " " +:+ op +:+ " (" +:+
           placeholders (dialect wb) (nargs wb) (length values) +:+ ")") []
      (MkWhere (conditions wb) (args wb ++ values) (dialect wb)).

Definition In : string → list V → WhereBuilder → WhereBuilder := in_op "IN" "1=0".
Definition NotIn : string → list V → WhereBuilder → WhereBuilder := in_op "NOT IN" "1=1".

Definition IsNull (column : string) (wb : WhereBuilder) : WhereBuilder :=
  Where (QuoteIdentifier (dialect wb) column +:+ " IS NULL") [] wb.
Definition IsNotNull (column : string) (wb : WhereBuilder) : WhereBuilder :=
  Where (QuoteIdentifier (dialect wb) column +:+ " IS NOT NULL") [] wb.

(** [Between] and [NotBetween]. *)
Definition between_op (op column : string) (lo hi : V) (wb : WhereBuilder) : WhereBuilder :=
  let d := dialect wb in
  Where (QuoteIdentifier d column +:+ " " +:+ op +:+ " " +:+ Placeholder d (nargs wb) +:+ " AND " +:+
         Placeholder d (nargs wb + 1)%Z) []
    (MkWhere (conditions wb) (args wb ++ [lo; hi]) d).

Definition Between : string → V → V → WhereBuilder → WhereBuilder := between_op "BETWEEN".
Definition NotBetween : string → V → V → WhereBuilder → WhereBuilder := between_op "NOT BETWEEN".

(** [Exists] and [NotExists] of a query text. *)
Definition exists_op (op subquery : string) (vs : list V) (wb : WhereBuilder) : WhereBuilder :=
  Where (op +:+ " (" +:+ subquery +:+ ")") []
    (MkWhere (conditions wb) (args wb ++ vs) (dialect wb)).

Definition Exists : string → list V → WhereBuilder → WhereBuilder := exists_op "EXISTS".
Definition NotExists : string → list V → WhereBuilder → WhereBuilder := exists_op "NOT EXISTS".

(** [ExistsSubquery] and [NotExistsSubquery] of a built query; nil: [None]. *)
Definition exists_subquery (op : string) (sub : option (string * list V)) (wb : WhereBuilder) :
    WhereBuilder :=
  match sub with
  | None => wb
  | Some (q, vs) =>
      MkWhere (conditions wb ++
                 [op +:+ " (" +:+ shiftPlaceholdersIfNeeded q (dialect wb) (nargs wb) +:+ ")"])
        (args wb ++ vs) (dialect wb)
  end.

(** [InSubquery] and [NotInSubquery]. *)
Definition in_subquery (op column : string) (sub : option (string * list V)) (wb : WhereBuilder) :
    WhereBuilder :=
  exists_subquery (QuoteIdentifier (dialect wb) column +:+ " " +:+ op) sub wb.

(** The loop of [BuildWithOffset] over the conditions. *)
Fixpoint number_conditions (d : Dialect) (idx : Z) (cs : list string) : list string :=
  match cs with
  | [] => []
  | c :: cs =>
      let n := count_char "?" c in
      replace_n d n idx c :: number_conditions d (idx + Z.of_nat n) cs
  end.

Definition BuildWithOffset (startIndex : Z) (wb : WhereBuilder) : string * list V :=
  if decide (conditions wb = []) then ("", [])
  else ("WHERE " +:+ String.concat " " (number_conditions (dialect wb) startIndex (conditions wb)),
        args wb).

Definition Build (wb : WhereBuilder) : string * list V := BuildWithOffset 0 wb.

Definition Reset (wb : WhereBuilder) : WhereBuilder := MkWhere [] [] (dialect wb).

(** ** DELETE and UPDATE *)

Record Join := MkJoin {
  Type_ : string;
  Table : string;
  RawTable : bool;
  TableArgs : list V;
  Condition : string;
  Args : list V
}.

(** The JOIN loop of both [Build] functions. *)
Definition add_join (d : Dialect) (acc : string * list V) (join : Join) : string * list V :=
  let '(query, allArgs) := acc in
  let '(tableExpr, allArgs) :=
    if RawTable join
    then (shiftPlaceholdersIfNeeded (Table join) d (Z.of_nat (length allArgs)),
          allArgs ++ TableArgs join)
    else (QuoteIdentifier d (Table join), allArgs) in
  let cond := replaceConditionPlaceholders (Condition join) d (Z.of_nat (length allArgs)) in
  (query +:+ " " +:+ Type_ join +:+ " JOIN " +:+ tableExpr +:+ " ON " +:+ cond,
   allArgs ++ Args join).

(** The WHERE, ORDER BY and LIMIT clauses of both. *)
Definition finish (d : Dialect) (where_ : WhereBuilder) (orderBy : list string) (limit : Z)
    (acc : string * list V) : string * list V :=
  let '(query, allArgs) := acc in
  let '(whereClause, whereArgs) := BuildWithOffset (Z.of_nat (length allArgs)) where_ in
  let '(query, allArgs) :=
    if decide (whereClause = "") then (query, allArgs)
    else (query +:+ " " +:+ whereClause, allArgs ++ whereArgs) in
  let query :=
    if decide (orderBy = []) then query
    else query +:+ " ORDER BY " +:+ String.concat ", " orderBy in
  let query :=
    if (0 <? limit)%Z then
      let limitClause := LimitOffset d limit 0 in
      if decide (limitClause = "") then query else query +:+ " " +:+ limitClause
    else query in
  (query, allArgs).

Record DeleteBuilder := MkDelete {
  del_table : string;
  del_where : WhereBuilder;
  del_joins : list Join;
  del_orderBy : list string;
  del_limit : Z;
  del_dialect : Dialect
}.

Definition NewDeleteBuilderWithDialect (table : string) (d : Dialect) : DeleteBuilder :=
  MkDelete table (NewWhereBuilder (Some d)) [] [] 0 d.

(** The condition methods of a DELETE builder act on its WHERE builder. *)
Definition delete_where (f : WhereBuilder → WhereBuilder) (b : DeleteBuilder) : DeleteBuilder :=
  MkDelete (del_table b) (f (del_where b)) (del_joins b) (del_orderBy b) (del_limit b) (del_dialect b).

Definition Delete_Build (b : DeleteBuilder) : string * list V :=
  let d := del_dialect b in
  finish d (del_where b) (del_orderBy b) (del_limit b)
    (fold_left (add_join d) (del_joins b)
       ("DELETE FROM " +:+ QuoteIdentifier d (del_table b), [])).

(** A value of [UpdateBuilder.data]: a plain value or a [SQLExpr]. *)
Inductive cell : Type :=
| Value (v : V)
| SQLExpr (SQL : string) (Args : list V).

Record UpdateBuilder := MkUpdate {
  upd_table : string;
  upd_data : gmap string cell;
  upd_where : WhereBuilder;
  upd_joins : list Join;
  upd_orderBy : list string;
  upd_limit : Z;
  upd_dialect : Dialect;
  upd_versionField : string
}.

Definition NewUpdateBuilderWithDialect (table : string) (d : Dialect) : UpdateBuilder :=
  MkUpdate table ∅ (NewWhereBuilder (Some d)) [] [] 0 d "version".

Definition set_data (column : string) (c : cell) (b : UpdateBuilder) : UpdateBuilder :=
  MkUpdate (upd_table b) (<[column := c]> (upd_data b)) (upd_where b) (upd_joins b) (upd_orderBy b)
    (upd_limit b) (upd_dialect b) (upd_versionField b).

Definition Update_Set (column : string) (value : V) : UpdateBuilder → UpdateBuilder :=
  set_data column (Value value).

Definition SetExpr (column expr : string) (vs : list V) : UpdateBuilder → UpdateBuilder :=
  set_data column (SQLExpr expr vs).

Definition Inc (column : string) (amount : V) (b : UpdateBuilder) : UpdateBuilder :=
  SetExpr column (QuoteIdentifier (upd_dialect b) column +:+ " + ?") [amount] b.

Definition Dec (column : string) (amount : V) (b : UpdateBuilder) : UpdateBuilder :=
  SetExpr column (QuoteIdentifier (upd_dialect b) column +:+ " - ?") [amount] b.

Definition update_where (f : WhereBuilder → WhereBuilder) (b : UpdateBuilder) : UpdateBuilder :=
  MkUpdate (upd_table b) (upd_data b) (f (upd_where b)) (upd_joins b) (upd_orderBy b) (upd_limit b)
    (upd_dialect b) (upd_versionField b).

(** One iteration of the SET loop. *)
Definition set_part (d : Dialect) (data : gmap string cell) (acc : list string * list V)
    (key : string) : list string * list V :=
  let '(setParts, vs) := acc in
  let quotedKey := QuoteIdentifier d key in
  let n := Z.of_nat (length vs) in
  match data !! key with
  | Some (SQLExpr sql es) =>
      (setParts ++ [quotedKey +:+ " = " +:+ replaceConditionPlaceholders sql d n], vs ++ es)
  | Some (Value v) => (setParts ++ [quotedKey +:+ " = " +:+ Placeholder d n], vs ++ [v])
  | None => acc
  end.

(** [range] is the enumeration order of the data map; the keys are sorted. *)
Definition Update_Build (range : list string) (b : UpdateBuilder) : string * list V :=
  if decide (upd_data b = ∅) then ("", [])
  else
    let d := upd_dialect b in
    let '(setParts, vs) := fold_left (set_part d (upd_data b)) (sortStrings range) ([], []) in
    finish d (upd_where b) (upd_orderBy b) (upd_limit b)
      (fold_left (add_join d) (upd_joins b)
         ("UPDATE " +:+ QuoteIdentifier d (upd_table b) +:+ " SET " +:+ String.concat ", " setParts, vs)).

End Where.
Arguments WhereBuilder V : clear implicits.
Arguments Join V : clear implicits.
Arguments DeleteBuilder V : clear implicits.
Arguments UpdateBuilder V : clear implicits.
