(* ===== verification/SqlText.v ===== *)
(** * Statement texts: counting, numbering and shifting placeholders

    What the query builders' theorems share.  [number] is the reference for
    placeholder replacement, one left-to-right pass; the repeated
    first-occurrence replacement of the source equals it.  [numbered] says
    that a text is such a numbering of a template; it is closed under the ways
    the builders put texts together, and under the renumbering of
    subqueries. *)

From S2P Require Import Prelude Orm.
From stdpp Require Import pretty.
From Stdlib Require Import Ascii.

Import GoStrconv.

Abbreviation count_q := (count_char "?").

Definition no_q (s : string) : Prop := count_q s = 0.

Lemma count_char_app c s t : count_char c (s +:+ t) = count_char c s + count_char c t.
Proof.
  induction s as [|a s IH]; [done|].
  change (String.String a s +:+ t) with (String.String a (s +:+ t)). simpl. lia.
Qed.

Lemma count_q_app s t : count_q (s +:+ t) = count_q s + count_q t.
Proof. apply count_char_app. Qed.

Lemma app_nil_string s : s +:+ "" = s.
Proof.
  induction s as [|a s IH]; [done|].
  change (String.String a s +:+ "") with (String.String a (s +:+ "")). by rewrite IH.
Qed.

Lemma app_assoc_string s t u : (s +:+ t) +:+ u = s +:+ (t +:+ u).
Proof.
  induction s as [|a s IH]; [done|].
  change ((String.String a s +:+ t) +:+ u) with (String.String a ((s +:+ t) +:+ u)).
  by rewrite IH.
Qed.

Lemma no_q_app s t : no_q s → no_q t → no_q (s +:+ t).
Proof. unfold no_q. rewrite count_q_app. lia. Qed.

Lemma concat_cons_string sep s t ts :
  String.concat sep (s :: t :: ts) = s +:+ sep +:+ String.concat sep (t :: ts).
Proof. done. Qed.

(** Question marks of a list of conditions. *)
Definition count_all (ss : list string) : nat := foldr (λ s n, count_q s + n) 0 ss.

Lemma count_all_app ss ts : count_all (ss ++ ts) = count_all ss + count_all ts.
Proof. induction ss as [|s ss IH]; simpl; [done|]. unfold count_all in *. simpl. lia. Qed.

Lemma count_q_concat sep ss : no_q sep → count_q (String.concat sep ss) = count_all ss.
Proof.
  unfold no_q. intros Hsep. induction ss as [|s ss IH]; [done|].
  destruct ss as [|t ss]; [simpl; lia|].
  rewrite concat_cons_string, !count_q_app, IH, Hsep. simpl. lia.
Qed.

(** ** One-pass numbering *)

(** The reference: every [?] in turn gets the next placeholder. *)
Fixpoint number (ph : Z → string) (idx : Z) (s : string) : string :=
  match s with
  | String.EmptyString => String.EmptyString
  | String.String a s =>
      if Ascii.eqb a "?" then ph idx +:+ number ph (idx + 1) s
      else String.String a (number ph idx s)
  end.

(** The placeholders of the dialects: numbered, or the question mark. *)
Definition good_placeholders (ph : Z → string) : Prop :=
  (∀ i, no_q (ph i)) ∨ (∀ i, ph i = "?").

Lemma replace_first_skip p pre s :
  no_q pre → replace_first p (pre +:+ s) = pre +:+ replace_first p s.
Proof.
  induction pre as [|a pre IH]; [done|]. unfold no_q. simpl. intros Hq.
  change (String.String a pre +:+ s) with (String.String a (pre +:+ s)). simpl.
  destruct (Ascii.eqb a "?"); [lia|]. rewrite IH by done. done.
Qed.

Lemma replace_n_numbered d idx pre s :
  (∀ i, no_q (Placeholder d i)) → no_q pre →
  replace_n d (count_q s) idx (pre +:+ s) = pre +:+ number (Placeholder d) idx s.
Proof.
  intros Hph. revert idx pre. induction s as [|a s IH]; intros idx pre Hpre; [done|].
  cbn [count_char number]. destruct (Ascii.eqb a "?") eqn:Ha.
  - apply Ascii.eqb_eq in Ha as ->. cbn [plus replace_n].
    rewrite replace_first_skip by done. cbn [replace_first]. rewrite Ascii.eqb_refl.
    rewrite <- app_assoc_string, IH by (by apply no_q_app). by rewrite app_assoc_string.
  - cbn [plus].
    assert (Hsp : ∀ t, pre +:+ String.String a t = (pre +:+ String.String a "") +:+ t)
      by (intros t; by rewrite app_assoc_string).
    rewrite Hsp, IH, <- Hsp; [done|]. apply no_q_app; [done|]. unfold no_q. simpl. by rewrite Ha.
Qed.

Lemma replace_first_same s : replace_first "?" s = s.
Proof.
  induction s as [|a s IH]; [done|]. cbn [replace_first]. destruct (Ascii.eqb a "?") eqn:Ha.
  - by apply Ascii.eqb_eq in Ha as ->.
  - by rewrite IH.
Qed.

Lemma replace_n_same d n idx s : (∀ i, Placeholder d i = "?") → replace_n d n idx s = s.
Proof.
  intros Hph. revert idx. induction n as [|n IH]; intros idx; [done|]. cbn [replace_n].
  by rewrite Hph, replace_first_same, IH.
Qed.

Lemma number_same ph idx s : (∀ i, ph i = "?") → number ph idx s = s.
Proof.
  intros Hph. revert idx. induction s as [|a s IH]; intros idx; [done|]. cbn [number].
  destruct (Ascii.eqb a "?") eqn:Ha; rewrite IH; [|done].
  apply Ascii.eqb_eq in Ha as ->. by rewrite Hph.
Qed.

Lemma replace_n_number d idx s :
  good_placeholders (Placeholder d) →
  replace_n d (count_q s) idx s = number (Placeholder d) idx s.
Proof.
  intros [Hph|Hph]; [by apply (replace_n_numbered d idx "")|].
  by rewrite replace_n_same, number_same.
Qed.

Lemma number_app ph idx s t :
  number ph idx (s +:+ t) = number ph idx s +:+ number ph (idx + Z.of_nat (count_q s)) t.
Proof.
  revert idx. induction s as [|a s IH]; intros idx.
  { cbn [count_char number]. by rewrite Z.add_0_r. }
  change (String.String a s +:+ t) with (String.String a (s +:+ t)). cbn [number count_char].
  destruct (Ascii.eqb a "?"); rewrite IH.
  - rewrite app_assoc_string. do 2 f_equal. f_equal. lia.
  - cbn [plus]. done.
Qed.

Lemma number_conditions_concat d idx cs :
  good_placeholders (Placeholder d) →
  String.concat " " (number_conditions d idx cs) = number (Placeholder d) idx (String.concat " " cs).
Proof.
  intros Hph. revert idx. induction cs as [|c cs IH]; intros idx; [done|].
  cbn [number_conditions]. rewrite replace_n_number by done.
  destruct cs as [|c' cs]; [done|].
  rewrite concat_cons_string, number_app, number_app, <- IH.
  change (Z.of_nat (count_q " ")) with 0%Z. rewrite Z.add_0_r. done.
Qed.

(** ** The dialects *)

Lemma pretty_N_char_no_q x : Ascii.eqb (pretty_N_char x) "?" = false.
Proof. unfold pretty_N_char. by repeat case_match. Qed.

Lemma pretty_N_no_q (x : N) : no_q (pretty x).
Proof.
  unfold pretty, pretty_N. case_decide; [done|].
  assert (H0 : no_q "") by done. revert H0. generalize "". clear.
  induction (N.lt_wf_0 x) as [x _ IH]. intros s Hs.
  destruct (decide (x = 0)%N) as [->|Hx]; [by rewrite pretty_N_go_0|].
  rewrite pretty_N_go_step by lia. apply IH.
  - apply N.div_lt; lia.
  - unfold no_q in *. simpl. by rewrite pretty_N_char_no_q.
Qed.

Lemma pg_placeholder_no_q i : no_q (pg_placeholder i).
Proof.
  unfold pg_placeholder. apply no_q_app; [done|]. unfold pretty, pretty_Z.
  destruct (i + 1)%Z; [done|apply pretty_N_no_q|].
  apply no_q_app; [done|apply pretty_N_no_q].
Qed.

Lemma trim_no_q s : no_q s → no_q (TrimSpace s).
Proof.
  unfold no_q, TrimSpace. intros Hs.
  assert (Hl : count_q (trim_left s) = 0).
  { induction s as [|a s IH]; [done|]. cbn [trim_left]. cbn [count_char] in Hs.
    destruct (is_space a); [apply IH; lia|exact Hs]. }
  revert Hl. generalize (trim_left s). clear. induction s as [|a s IH]; [done|].
  cbn [count_char trim_right]. intros Hs. specialize (IH ltac:(lia)).
  destruct (trim_right s) as [|b t] eqn:Ht.
  - destruct (is_space a); [done|]. simpl. lia.
  - cbn [count_char] in *. lia.
Qed.

Lemma fields_no_q cur s : no_q cur → no_q s → Forall no_q (fields_from cur s).
Proof.
  unfold no_q. revert cur. induction s as [|a s IH]; intros cur Hc Hs; cbn [fields_from].
  - case_decide; by repeat constructor.
  - cbn [count_char] in Hs. destruct (is_space a).
    + case_decide; [by apply IH; [|lia]|]. constructor; [done|]. apply IH; [done|lia].
    + apply IH; [|lia]. rewrite count_q_app. cbn [count_char]. lia.
Qed.

Lemma split_no_q c s : no_q s → Forall no_q (split_on c s).
Proof.
  unfold no_q. induction s as [|a s IH]; intros Hs; cbn [split_on]; [by repeat constructor|].
  cbn [count_char] in Hs. specialize (IH ltac:(lia)). destruct (Ascii.eqb a c).
  { by constructor. }
  destruct (split_on c s) as [|w ws].
  - repeat constructor. cbn [count_char]. lia.
  - apply Forall_cons in IH as [Hw Hws]. constructor; [|done]. cbn [count_char]. lia.
Qed.

Lemma concat_no_q sep ss : no_q sep → Forall no_q ss → no_q (String.concat sep ss).
Proof.
  intros Hsep Hss. unfold no_q. rewrite count_q_concat by done.
  induction Hss as [|s ss Hs _ IH]; [done|]. simpl. unfold no_q in Hs. lia.
Qed.

Lemma mysql_quote_no_q fuel s : no_q s → no_q (mysql_quote fuel s).
Proof.
  revert s. induction fuel as [|fuel IH]; intros s Hs; [done|]. cbn [mysql_quote].
  apply trim_no_q in Hs. set (t := TrimSpace s) in *.
  assert (Hb : ∀ w, no_q w → no_q (backquote w)).
  { intros w Hw. unfold backquote. by repeat apply no_q_app. }
  destruct (decide (t = "")); [done|]. destruct (contains_any _ t); [done|].
  destruct (contains_char " " t).
  - pose proof (fields_no_q "" t eq_refl Hs) as Hf. fold (Fields t) in Hf.
    destruct (Fields t) as [|w [|w' ws]]; [done|done|].
    apply Forall_cons in Hf as [Hw Hws].
    apply no_q_app; [by apply IH|]. apply no_q_app; [done|].
    exact (concat_no_q " " (w' :: ws) eq_refl Hws).
  - destruct (contains_char "." t); [|by apply Hb].
    apply concat_no_q; [done|]. apply Forall_fmap.
    eapply Forall_impl; [by apply split_no_q|]. exact Hb.
Qed.

(** Two rounds of [mysql_quote] are enough: words have no white space. *)
Fixpoint no_space (s : string) : Prop :=
  match s with
  | String.EmptyString => True
  | String.String a s => is_space a = false ∧ no_space s
  end.

Lemma no_space_app s t : no_space s → no_space t → no_space (s +:+ t).
Proof.
  induction s as [|a s IH]; [done|]. intros [Ha Hs] Ht.
  change (String.String a s +:+ t) with (String.String a (s +:+ t)). split; [done|by apply IH].
Qed.

Lemma fields_no_space cur s : no_space cur → Forall no_space (fields_from cur s).
Proof.
  revert cur. induction s as [|a s IH]; intros cur Hc; cbn [fields_from].
  - case_decide; by repeat constructor.
  - destruct (is_space a) eqn:Ha.
    + case_decide; [by apply IH|]. constructor; [done|by apply IH].
    + apply IH, no_space_app; [done|by split].
Qed.

Lemma trim_no_space s : no_space s → TrimSpace s = s.
Proof.
  intros Hs. unfold TrimSpace.
  assert (Hl : trim_left s = s) by (destruct s as [|a s]; [done|]; destruct Hs as [Ha _]; simpl; by rewrite Ha).
  rewrite Hl. clear Hl. induction s as [|a s IH]; [done|]. destruct Hs as [Ha Hs].
  cbn [trim_right]. rewrite IH by done. destruct s; [by rewrite Ha|done].
Qed.

Lemma contains_no_space s : no_space s → contains_char " " s = false.
Proof.
  induction s as [|a s IH]; [done|]. intros [Ha Hs]. cbn [contains_char]. rewrite IH by done.
  destruct (Ascii.eqb a " ") eqn:He; [|done]. apply Ascii.eqb_eq in He as ->. done.
Qed.

Lemma mysql_quote_fuel n s : mysql_quote (S (S n)) s = mysql_quote 2 s.
Proof.
  assert (Hw : ∀ n w, no_space w → mysql_quote (S n) w = mysql_quote 1 w).
  { intros k w Hw. cbn [mysql_quote]. rewrite trim_no_space, contains_no_space by done. done. }
  set (rec := mysql_quote (S n)). set (rec1 := mysql_quote 1).
  cbn [mysql_quote].
  set (t := TrimSpace s).
  destruct (decide (t = "")); [done|]. destruct (contains_any _ t); [done|].
  destruct (contains_char " " t); [|done].
  pose proof (fields_no_space "" t I) as Hf. fold (Fields t) in Hf.
  destruct (Fields t) as [|w [|w' ws]]; [done|done|].
  apply Forall_cons in Hf as [Hsp _]. f_equal. exact (Hw n w Hsp).
Qed.

Lemma pg_quote_no_q s : no_q s → no_q (pg_quote s).
Proof.
  intros Hs. unfold pg_quote. apply no_q_app; [done|]. apply no_q_app; [exact Hs|done].
Qed.

(** ** Decimal numerals *)

Fixpoint only_digits (s : string) : Prop :=
  match s with
  | String.EmptyString => True
  | String.String a s => is_Some (digit a) ∧ only_digits s
  end.

Lemma digit_pretty x : (x < 10)%N → digit (pretty_N_char x) = Some (Z.of_N x).
Proof.
  intros Hx.
  assert (x = 0 ∨ x = 1 ∨ x = 2 ∨ x = 3 ∨ x = 4 ∨ x = 5 ∨ x = 6 ∨ x = 7 ∨ x = 8 ∨ x = 9)%N as Hc
    by lia.
  by destruct_or! Hc; subst x.
Qed.

Lemma pretty_go_digits (x : N) s :
  only_digits s → only_digits (pretty_N_go x s) ∧ digits (pretty_N_go x s) 0 = digits s (Z.of_N x).
Proof.
  revert s. induction (N.lt_wf_0 x) as [x _ IH]. intros s Hs.
  destruct (decide (x = 0)%N) as [->|Hx]; [by rewrite pretty_N_go_0|].
  rewrite pretty_N_go_step by lia.
  assert (Hm : (x mod 10 < 10)%N) by (apply N.mod_lt; lia).
  destruct (IH (x / 10)%N ltac:(apply N.div_lt; lia) (String.String (pretty_N_char (x mod 10)) s))
    as [Ho Hd].
  { split; [rewrite digit_pretty by done; eauto|done]. }
  split; [done|]. rewrite Hd. cbn [digits]. rewrite digit_pretty by done. f_equal.
  pose proof (N.div_mod x 10 ltac:(lia)). lia.
Qed.

Lemma pretty_pos (z : Z) :
  (0 < z)%Z → only_digits (pretty z) ∧ digits (pretty z) 0 = Some z ∧ pretty z ≠ "".
Proof.
  intros Hz. destruct z as [|p|p]; [lia| |lia].
  change (pretty (Z.pos p)) with (pretty_N_go (N.pos p) "").
  destruct (pretty_go_digits (N.pos p) "" I) as [Ho Hd]. rewrite Hd. split; [done|]. split; [done|].
  intros He. rewrite He in Hd. cbn in Hd. congruence.
Qed.

Lemma Atoi_pretty (z : Z) : (0 < z <= GoInt.maxInt64)%Z → Atoi (pretty z) = Some z.
Proof.
  intros Hz. destruct (pretty_pos z) as (Ho & Hd & Hne); [lia|].
  destruct (pretty z) as [|a s]; [done|]. destruct Ho as [[x Ha] _]. unfold Atoi.
  assert (Hbody : ∀ body, (match String.String a s with
      | String.String "-"%char s => (true, s)
      | String.String "+"%char s => (false, s)
      | _ => (false, String.String a s) end) = body → body = (false, String.String a s)).
  { intros body <-. by destruct a as [[] [] [] [] [] [] [] []]. }
  rewrite (Hbody _ eq_refl), Hd. unfold GoInt.minInt64. by repeat zcmp.
Qed.

(** ** Clean texts *)

(** No dollar sign, and no digit right after a question mark: the texts whose
    numbering can be read back. *)
Fixpoint clean_from (after_q : bool) (s : string) : bool :=
  match s with
  | String.EmptyString => true
  | String.String a s =>
      negb (Ascii.eqb a "$") && negb (after_q && bool_decide (is_Some (digit a)))
      && clean_from (Ascii.eqb a "?") s
  end.

Definition no_dollar (s : string) : Prop := count_char "$" s = 0.

Lemma clean_weaken s : clean_from true s = true → clean_from false s = true.
Proof. destruct s as [|a s]; [done|]. cbn [clean_from]. rewrite !andb_true_iff. naive_solver. Qed.

Lemma clean_from_app b s t :
  clean_from b s = true → clean_from true t = true → clean_from b (s +:+ t) = true.
Proof.
  revert b. induction s as [|a s IH]; intros b Hs Ht.
  { destruct b; [done|by apply clean_weaken]. }
  change (String.String a s +:+ t) with (String.String a (s +:+ t)). cbn [clean_from] in *.
  rewrite !andb_true_iff in *. destruct Hs as [Ha Hs]. auto.
Qed.

(** Text without placeholders in front. *)
Lemma clean_from_plain s t :
  no_q s → no_dollar s → clean_from false t = true → clean_from false (s +:+ t) = true.
Proof.
  unfold no_q, no_dollar. induction s as [|a s IH]; [done|]. cbn [count_char]. intros Hq Hd Ht.
  change (String.String a s +:+ t) with (String.String a (s +:+ t)). cbn [clean_from].
  destruct (Ascii.eqb a "?"); [lia|]. destruct (Ascii.eqb a "$"); [lia|]. simpl. auto.
Qed.

(** A separator: it starts with a character that is not a digit and has no
    placeholder. *)
Definition separator (s : string) : bool :=
  match s with
  | String.EmptyString => false
  | String.String a _ =>
      negb (bool_decide (is_Some (digit a))) && (count_q s =? 0) && (count_char "$" s =? 0)
  end.

Lemma clean_separator s t :
  separator s = true → clean_from false t = true → clean_from true (s +:+ t) = true.
Proof.
  destruct s as [|a s]; [done|]. unfold separator. rewrite !andb_true_iff, !Nat.eqb_eq.
  intros [[Ha Hq] Hd] Ht. cbn [count_char] in Hq, Hd.
  change (String.String a s +:+ t) with (String.String a (s +:+ t)). cbn [clean_from].
  destruct (Ascii.eqb a "?"); [lia|]. destruct (Ascii.eqb a "$"); [lia|].
  cbn [negb andb]. rewrite Ha. cbn [andb]. apply clean_from_plain; [unfold no_q; lia|unfold no_dollar; lia|done].
Qed.

(** ** Renumbering *)

(** What follows the digits of a placeholder is not a digit. *)
Definition digit_free_head (s : string) : Prop :=
  match s with
  | String.EmptyString => True
  | String.String a _ => digit a = None
  end.

Lemma number_head k s : clean_from true s = true → digit_free_head (number pg_placeholder k s).
Proof.
  destruct s as [|a s]; [done|]. cbn [clean_from number].
  rewrite !andb_true_iff. intros [[_ Ha] _]. destruct (Ascii.eqb a "?"); [done|].
  simpl in *. destruct (digit a) as [x|]; [|done].
  rewrite bool_decide_true in Ha by eauto. done.
Qed.

Lemma shift_digits off ds w t :
  only_digits w → shift_from off (Some ds) (w +:+ t) = shift_from off (Some (ds +:+ w)) t.
Proof.
  revert ds. induction w as [|a w IH]; intros ds; [by rewrite app_nil_string|]. intros [[x Ha] Hw].
  change (String.String a w +:+ t) with (String.String a (w +:+ t)). cbn [shift_from].
  rewrite Ha, IH by done. by rewrite app_assoc_string.
Qed.

Lemma shift_flush off ds t :
  digit_free_head t → shift_from off (Some ds) t = flush off (Some ds) +:+ shift_from off None t.
Proof.
  destruct t as [|a t]; cbn [digit_free_head shift_from]; [by rewrite app_nil_string|]. intros ->.
  destruct (Ascii.eqb a "$"); done.
Qed.

Lemma shift_number off k s :
  clean_from false s = true → (0 <= k)%Z → (0 <= off)%Z →
  (off + k + Z.of_nat (count_q s) <= GoInt.maxInt64)%Z →
  shift_from off None (number pg_placeholder k s) = number pg_placeholder (off + k) s.
Proof.
  unfold GoInt.maxInt64. revert k.
  induction s as [|a s IH]; intros k Hs Hk Ho Hm; [done|].
  cbn [clean_from count_char] in *. rewrite !andb_true_iff in Hs. destruct Hs as [[Hd _] Hs].
  cbn [number]. destruct (Ascii.eqb a "?") eqn:Ha.
  - unfold pg_placeholder at 1. rewrite app_assoc_string.
    change ("$" +:+ pretty (k + 1)%Z +:+ number pg_placeholder (k + 1) s)
      with (String.String "$" (pretty (k + 1)%Z +:+ number pg_placeholder (k + 1) s)).
    destruct (pretty_pos (k + 1)) as (Hod & _ & Hne); [lia|].
    cbn [shift_from flush]. cbn [digit Ascii.eqb]. simpl (Ascii.eqb _ _).
    rewrite shift_digits by done. rewrite shift_flush by (by apply number_head).
    rewrite IH by (try apply clean_weaken; (done || lia)).
    cbn [flush]. change ("" +:+ pretty (k + 1)%Z) with (pretty (k + 1)%Z).
    rewrite decide_False by done. rewrite Atoi_pretty by (unfold GoInt.maxInt64; lia).
    rewrite GoInt.i64_id by (unfold GoInt.in_i64; lia).
    unfold pg_placeholder. rewrite !app_assoc_string.
    replace (k + 1 + off)%Z with (off + k + 1)%Z by lia.
    by replace (off + (k + 1))%Z with (off + k + 1)%Z by lia.
  - cbn [shift_from flush]. destruct (Ascii.eqb a "$"); [done|].
    rewrite IH by (done || lia). done.
Qed.

(** ** Reading the placeholders back *)

(** The numbers of the [$n] placeholders of a text, in order. *)
Definition flush_number (pending : option string) : list (option Z) :=
  match pending with
  | None => []
  | Some ds => if decide (ds = "") then [] else [Atoi ds]
  end.

Fixpoint dollars_from (pending : option string) (s : string) : list (option Z) :=
  match s with
  | String.EmptyString => flush_number pending
  | String.String a s =>
      match pending, digit a with
      | Some ds, Some _ => dollars_from (Some (ds +:+ String.String a String.EmptyString)) s
      | _, _ =>
          flush_number pending ++
          dollars_from (if Ascii.eqb a "$" then Some "" else None) s
      end
  end.

Definition dollars (s : string) : list (option Z) := dollars_from None s.

Lemma dollars_digits ds w t :
  only_digits w → dollars_from (Some ds) (w +:+ t) = dollars_from (Some (ds +:+ w)) t.
Proof.
  revert ds. induction w as [|a w IH]; intros ds; [by rewrite app_nil_string|]. intros [[x Ha] Hw].
  change (String.String a w +:+ t) with (String.String a (w +:+ t)). cbn [dollars_from].
  rewrite Ha, IH by done. by rewrite app_assoc_string.
Qed.

Lemma dollars_flush ds t :
  digit_free_head t → dollars_from (Some ds) t = flush_number (Some ds) ++ dollars_from None t.
Proof.
  destruct t as [|a t]; cbn [digit_free_head dollars_from]; [by rewrite app_nil_r|]. by intros ->.
Qed.

Lemma dollars_number k s :
  clean_from false s = true → (0 <= k)%Z → (k + Z.of_nat (count_q s) <= GoInt.maxInt64)%Z →
  dollars (number pg_placeholder k s) = Some <$> seqZ (k + 1) (Z.of_nat (count_q s)).
Proof.
  unfold dollars. revert k. induction s as [|a s IH]; intros k Hs Hk Hm; [done|].
  cbn [clean_from count_char] in *. rewrite !andb_true_iff in Hs. destruct Hs as [[Hd _] Hs].
  cbn [number]. destruct (Ascii.eqb a "?") eqn:Ha.
  - unfold pg_placeholder at 1. rewrite app_assoc_string.
    change ("$" +:+ pretty (k + 1)%Z +:+ number pg_placeholder (k + 1) s)
      with (String.String "$" (pretty (k + 1)%Z +:+ number pg_placeholder (k + 1) s)).
    destruct (pretty_pos (k + 1)) as (Hod & _ & Hne); [lia|].
    cbn [dollars_from flush_number]. simpl (Ascii.eqb _ _). cbn [app].
    rewrite dollars_digits by done. rewrite dollars_flush by (by apply number_head).
    rewrite IH by (try apply clean_weaken; (done || lia)).
    cbn [flush_number]. change ("" +:+ pretty (k + 1)%Z) with (pretty (k + 1)%Z).
    rewrite decide_False by done. rewrite Atoi_pretty by lia.
    rewrite (seqZ_cons (k + 1)) by lia. cbn [app]. rewrite fmap_cons. do 2 f_equal.
    f_equal; lia.
  - cbn [dollars_from flush_number]. destruct (Ascii.eqb a "$"); [done|]. cbn [app].
    rewrite IH by (done || lia). done.
Qed.

(** ** The dialects *)

(** Text of a statement without placeholders of the dialect. *)
Definition plain (d : Dialect) (s : string) : Prop :=
  no_q s ∧ (is_postgres d = true → no_dollar s).

(** What the builders rely on in a dialect: [?] or [$n] placeholders, and
    quoting, limits and locks that add none. *)
Class SqlDialect (d : Dialect) : Prop := {
  dialect_placeholder i :
    Placeholder d i = if is_postgres d then pg_placeholder i else "?";
  dialect_quote s : plain d s → plain d (QuoteIdentifier d s);
  dialect_limit limit offset : plain d (LimitOffset d limit offset);
  dialect_lock : plain d (LockForUpdate d);
  dialect_share : plain d (LockInShareMode d)
}.

Lemma only_digits_count c s : digit c = None → only_digits s → count_char c s = 0.
Proof.
  intros Hc. induction s as [|a s IH]; [done|]. intros [[x Ha] Hs]. cbn [count_char].
  destruct (Ascii.eqb a c) eqn:He; [|by rewrite IH].
  apply Ascii.eqb_eq in He as ->. congruence.
Qed.

Lemma pretty_count c (z : Z) : digit c = None → c ≠ "-"%char → count_char c (pretty z) = 0.
Proof.
  intros Hc Hm. destruct z as [|p|p].
  - change (pretty 0%Z) with "0". apply only_digits_count; [done|]. cbn. eauto.
  - apply only_digits_count; [done|]. by apply (pretty_pos (Z.pos p)).
  - change (pretty (Z.neg p)) with ("-" +:+ pretty_N_go (N.pos p) "").
    rewrite count_char_app. cbn [count_char].
    destruct (Ascii.eqb "-" c) eqn:He; [by apply Ascii.eqb_eq in He as <-|].
    rewrite (only_digits_count c) by (done || by apply pretty_go_digits). done.
Qed.

Lemma plain_app d s t : plain d s → plain d t → plain d (s +:+ t).
Proof.
  unfold plain, no_q, no_dollar. rewrite !count_char_app. intros [? Hs] [? Ht].
  split; [lia|]. intros Hp. specialize (Hs Hp). specialize (Ht Hp). lia.
Qed.

Lemma plain_pretty d (z : Z) : plain d (pretty z).
Proof. by split; [|intros _]; apply pretty_count. Qed.

Lemma plain_limit d l o : plain d (limit_offset l o).
Proof.
  unfold limit_offset. repeat case_match; repeat apply plain_app; first [apply plain_pretty|done].
Qed.

#[export] Instance MySQL_ok : SqlDialect MySQLDialect.
Proof.
  split; try done; [|apply plain_limit].
  intros s [Hs _]. split; [by apply mysql_quote_no_q|done].
Qed.

#[export] Instance ClickHouse_ok : SqlDialect ClickHouseDialect.
Proof.
  split; try done; [|apply plain_limit].
  intros s [Hs _]. split; [by apply mysql_quote_no_q|done].
Qed.

#[export] Instance PostgreSQL_ok : SqlDialect PostgreSQLDialect.
Proof.
  split; try done; [|apply plain_limit].
  intros s Hs. apply plain_app; [done|]. by apply plain_app.
Qed.

#[export] Instance SQLite_ok : SqlDialect SQLiteDialect.
Proof.
  split; try done; [|apply plain_limit].
  intros s Hs. apply plain_app; [done|]. by apply plain_app.
Qed.

#[export] Instance NewDialect_ok ty : SqlDialect (NewDialect ty).
Proof. unfold NewDialect, NewDefaultDialect. repeat case_decide; apply _. Qed.

Section Dialect.
Context (d : Dialect) `{Hd : !SqlDialect d}.

Lemma dialect_mark i : is_postgres d = false → Placeholder d i = "?".
Proof. intros Hp. rewrite dialect_placeholder. by rewrite Hp. Qed.

Lemma dialect_good : good_placeholders (Placeholder d).
Proof.
  destruct (is_postgres d) eqn:Hp; [left|right]; intros i; rewrite dialect_placeholder, Hp; [|done].
  apply pg_placeholder_no_q.
Qed.

Lemma number_dialect k s :
  number (Placeholder d) k s = if is_postgres d then number pg_placeholder k s else s.
Proof.
  destruct (is_postgres d) eqn:Hp.
  - revert k. induction s as [|a s IH]; intros k; [done|]. cbn [number]. rewrite !IH.
    by rewrite dialect_placeholder, Hp.
  - apply number_same. intros i. by apply dialect_mark.
Qed.

(** ** Numbered texts *)

Definition clean (s : string) : Prop := is_postgres d = true → clean_from false s = true.

(** [q] is the numbering, from placeholder index [k], of a template with [n]
    placeholders. *)
Definition numbered (k : Z) (n : nat) (q : string) : Prop :=
  ∃ s, q = number (Placeholder d) k s ∧ clean s ∧ count_q s = n.

Lemma plain_clean s : plain d s → clean s.
Proof.
  intros [Hq Hd'] Hp. rewrite <- (app_nil_string s). apply clean_from_plain; [done|by apply Hd'|done].
Qed.

Lemma number_plain ph k s : no_q s → number ph k s = s.
Proof.
  unfold no_q. revert k. induction s as [|a s IH]; intros k Hs; [done|]. cbn [number].
  cbn [count_char] in Hs. destruct (Ascii.eqb a "?"); [lia|]. by rewrite IH by lia.
Qed.

Lemma numbered_plain k s : plain d s → numbered k 0 s.
Proof.
  intros Hs. exists s. split; [symmetry; apply number_plain, Hs|].
  split; [by apply plain_clean|apply Hs].
Qed.

(** Text in front, and texts put together with a separator. *)
Lemma numbered_prefix k n s q : plain d s → numbered k n q → numbered k n (s +:+ q).
Proof.
  intros [Hq Hp] (t & -> & Ht & Hn). exists (s +:+ t). split; [|split].
  - rewrite number_app, (number_plain _ _ s) by done. unfold no_q in Hq. by rewrite Hq, Z.add_0_r.
  - intros Hpg. apply clean_from_plain; [done|by apply Hp|by apply Ht].
  - rewrite count_q_app. unfold no_q in Hq. lia.
Qed.

Lemma separator_plain s : separator s = true → plain d s.
Proof.
  destruct s as [|a s]; [done|]. unfold separator. rewrite !andb_true_iff, !Nat.eqb_eq.
  intros [[_ Hq] Hp]. by split.
Qed.

Lemma numbered_glue k n m k' q sep r :
  numbered k n q → separator sep = true → numbered k' m r → k' = (k + Z.of_nat n)%Z →
  numbered k (n + m) (q +:+ sep +:+ r).
Proof.
  intros (s & -> & Hs & Hn) Hsep (t & -> & Ht & Hm) ->.
  destruct (separator_plain sep Hsep) as [Hq _].
  exists (s +:+ sep +:+ t). split; [|split].
  - rewrite !number_app, (number_plain _ _ sep) by done. unfold no_q in Hq.
    rewrite Hq, Hn, Z.add_0_r. done.
  - intros Hp. apply clean_from_app; [by apply Hs|]. apply clean_separator; [done|by apply Ht].
  - rewrite !count_q_app. unfold no_q in Hq. lia.
Qed.

Lemma numbered_suffix k n q sep r :
  numbered k n q → separator sep = true → plain d r → numbered k n (q +:+ sep +:+ r).
Proof.
  intros Hq Hsep Hr. rewrite <- (Nat.add_0_r n).
  eapply numbered_glue; [done|done|by apply numbered_plain|done].
Qed.

Lemma numbered_replace k c : clean c → numbered k (count_q c) (replaceConditionPlaceholders c d k).
Proof.
  intros Hc. unfold replaceConditionPlaceholders. case_decide as He.
  - subst c. by apply numbered_plain.
  - exists c. split; [by apply replace_n_number, dialect_good|done].
Qed.

Lemma numbered_shift off n q :
  numbered 0 n q → (0 <= off)%Z → (off + Z.of_nat n <= GoInt.maxInt64)%Z →
  numbered off n (shiftPlaceholdersIfNeeded q d off).
Proof.
  intros (s & -> & Hs & <-) Ho Hm. exists s. split; [|done].
  unfold shiftPlaceholdersIfNeeded. rewrite !number_dialect.
  destruct (decide (off = 0%Z)) as [->|Hne]; [done|].
  destruct (is_postgres d) eqn:Hp; [|done]. simpl.
  rewrite shift_number by (done || (by apply Hs) || lia). by rewrite Z.add_0_r.
Qed.

(** What a numbered statement means: as many question marks as arguments, or
    the placeholders [$1], [$2], ... in order. *)
Lemma numbered_marks n q : is_postgres d = false → numbered 0 n q → count_q q = n.
Proof. intros Hp (s & -> & _ & Hn). by rewrite number_dialect, Hp. Qed.

Lemma numbered_dollars n q :
  is_postgres d = true → (Z.of_nat n <= GoInt.maxInt64)%Z → numbered 0 n q →
  dollars q = Some <$> seqZ 1 (Z.of_nat n).
Proof.
  intros Hp Hm (s & -> & Hs & <-). rewrite number_dialect, Hp.
  rewrite dollars_number by (done || (by apply Hs) || lia). done.
Qed.

End Dialect.
