(* ===== verification/OrmProps.v ===== *)
(** * The query builders: placeholders and arguments

    The placeholders of a WHERE clause are numbered in one pass and match the
    arguments, for every dialect; and the statements for which they do not. *)

From S2P Require Import Prelude StableSort Orm SqlText.
From stdpp Require Import pretty.
From Stdlib Require Import Ascii.

(** For every dialect, [BuildWithOffset] replaces the question marks of
    the whole WHERE clause by the dialect's placeholders in one left-to-right
    numbering that starts at the given index (the repeated
    first-occurrence replacement of the source never touches a placeholder
    it inserted), and returns the arguments unchanged. *)
Theorem BuildWithOffset_numbers {V} ty start (wb : WhereBuilder V) :
  dialect wb = NewDialect ty → conditions wb ≠ [] →
  BuildWithOffset start wb =
    ("WHERE " +:+ number (Placeholder (NewDialect ty)) start (String.concat " " (conditions wb)), args wb).
Proof.
  intros Hd Hne. unfold BuildWithOffset. rewrite decide_False by done. rewrite Hd.
  by rewrite number_conditions_concat by apply dialect_good, _.
Qed.

(** ** Arguments match placeholders *)

Section Built.
Context {V : Type} (d : Dialect) `{Hd : !SqlDialect d}.

(** The builders reachable by the methods, where a raw condition has as many
    question marks as arguments, and names have no placeholders.  With
    PostgreSQL only raw conditions and conditions without arguments: the
    typed ones write their placeholder when they are added. *)
Inductive built : WhereBuilder V → Prop :=
| built_new : built (NewWhereBuilder (Some d))
| built_where c vs wb : built wb → clean d c → count_q c = length vs → built (Where c vs wb)
| built_connect w c vs wb :
    built wb → plain d w → clean d c → count_q c = length vs → built (connect w c vs wb)
| built_group w fn wb :
    built wb → plain d w → built (fn (NewWhereBuilder (Some d))) → built (group w fn wb)
| built_null col wb : built wb → plain d col → built (IsNull col wb)
| built_not_null col wb : built wb → plain d col → built (IsNotNull col wb)
| built_exists op sub vs wb :
    built wb → plain d op → clean d sub → count_q sub = length vs → built (exists_op op sub vs wb)
| built_compare op col v wb :
    is_postgres d = false → built wb → no_q op → no_q col → built (compare_op op col v wb)
| built_ilike col v wb : is_postgres d = false → built wb → no_q col → built (ILike col v wb)
| built_in op empty col vs wb :
    is_postgres d = false → built wb → no_q op → no_q empty → no_q col →
    built (in_op op empty col vs wb)
| built_between op col lo hi wb :
    is_postgres d = false → built wb → no_q op → no_q col → built (between_op op col lo hi wb)
| built_subquery op q vs wb :
    is_postgres d = false → built wb → no_q op → count_q q = length vs →
    built (exists_subquery op (Some (q, vs)) wb).

Definition balanced (wb : WhereBuilder V) : Prop :=
  dialect wb = d ∧ Forall (clean d) (conditions wb) ∧ count_all (conditions wb) = length (args wb).

Lemma balanced_add wb c vs :
  balanced wb → clean d c → count_q c = length vs →
  balanced (MkWhere (conditions wb ++ [c]) (args wb ++ vs) (dialect wb)).
Proof.
  intros (Hw & Hf & Hb) Hcl Hc. split; [done|]. split; [by apply Forall_app_2; [|constructor]|].
  simpl. rewrite count_all_app, length_app. simpl. lia.
Qed.

(** With question marks every text is clean. *)
Lemma clean_mark s : is_postgres d = false → clean d s.
Proof. intros Hp Hp'. congruence. Qed.

Lemma shift_mark d' q off : is_postgres d' = false → shiftPlaceholdersIfNeeded q d' off = q.
Proof. intros Hp. unfold shiftPlaceholdersIfNeeded. rewrite Hp. by case_decide. Qed.

Lemma quote_no_q s : is_postgres d = false → no_q s → no_q (QuoteIdentifier d s).
Proof. intros Hp Hs. apply dialect_quote. split; [done|congruence]. Qed.

Lemma placeholders_count start n :
  is_postgres d = false → count_q (placeholders d start n) = n.
Proof.
  intros Hp. unfold placeholders. rewrite count_q_concat by done. generalize 0.
  induction n as [|n IH]; intros k; [done|]. cbn [seq]. rewrite fmap_cons. simpl.
  rewrite (dialect_mark d) by done. simpl. f_equal. apply IH.
Qed.

Lemma clean_join s sep t : clean d s → separator sep = true → clean d t → clean d (s +:+ sep +:+ t).
Proof.
  intros Hs Hsep Ht Hp. apply clean_from_app; [by apply Hs|]. apply clean_separator; [done|by apply Ht].
Qed.

Lemma clean_prefix s t : plain d s → clean d t → clean d (s +:+ t).
Proof. intros [Hq Hp] Ht Hpg. apply clean_from_plain; [done|by apply Hp|by apply Ht]. Qed.

Lemma clean_concat cs : Forall (clean d) cs → clean d (String.concat " " cs).
Proof.
  induction 1 as [|c cs Hc Hcs IH]; [done|]. destruct cs as [|c' cs]; [done|].
  rewrite concat_cons_string. by apply clean_join.
Qed.

Lemma connect_balanced w c vs wb :
  balanced wb → plain d w → clean d c → count_q c = length vs → balanced (connect w c vs wb).
Proof.
  intros Hb Hw Hcl Hc. unfold connect. apply balanced_add; [done| |]; case_decide; try done.
  - apply clean_prefix; [done|]. by apply clean_prefix.
  - rewrite !count_q_app. destruct Hw as [Hw _]. unfold no_q in Hw. simpl. lia.
Qed.

(** A condition in parentheses. *)
Lemma clean_parens c : clean d c → clean d ("(" +:+ c +:+ ")").
Proof.
  intros Hc. apply clean_prefix; [done|]. rewrite <- (app_nil_string ")").
  by apply clean_join.
Qed.

Lemma built_balanced wb : built wb → balanced wb.
Proof.
  induction 1 as [|c vs wb _ IH Hcl Hc|w c vs wb _ IH Hw Hcl Hc|w fn wb _ IH Hw _ IHs
    |col wb _ IH Hc|col wb _ IH Hc|op sub vs wb _ IH Ho Hs Hc|op col v wb Hp _ IH Ho Hc
    |col v wb Hp _ IH Hc|op e col vs wb Hp _ IH Ho He Hc|op col lo hi wb Hp _ IH Ho Hc|op q vs wb Hp _ IH Ho Hc].
  - split; [done|]. by split; [constructor|].
  - by apply balanced_add.
  - by apply connect_balanced.
  - pose proof IH as (Hw' & _). unfold group. rewrite Hw'. case_decide; [done|].
    destruct IHs as (_ & Hsc & Hs). apply connect_balanced; [done|done|by apply clean_parens, clean_concat|].
    rewrite !count_q_app, count_q_concat by done. simpl. lia.
  - pose proof (dialect_quote col Hc) as Hq. destruct IH as (Hw & ?). unfold IsNull. rewrite Hw.
    apply balanced_add; [by split|apply plain_clean, plain_app; done|].
    rewrite count_q_app. destruct Hq as [Hq _]. unfold no_q in Hq. by rewrite Hq.
  - pose proof (dialect_quote col Hc) as Hq. destruct IH as (Hw & ?). unfold IsNotNull. rewrite Hw.
    apply balanced_add; [by split|apply plain_clean, plain_app; done|].
    rewrite count_q_app. destruct Hq as [Hq _]. unfold no_q in Hq. by rewrite Hq.
  - unfold exists_op, Where. simpl. rewrite app_nil_r. apply balanced_add; [done| |].
    + apply clean_prefix; [done|]. apply (clean_prefix " "); [done|]. by apply clean_parens.
    + rewrite !count_q_app. destruct Ho as [Ho _]. unfold no_q in Ho. simpl. lia.
  - pose proof (quote_no_q _ Hp Hc) as Hq. unfold no_q in *.
    apply balanced_add; [done|by apply clean_mark|].
    destruct IH as [-> _]. rewrite !count_q_app, (dialect_mark d) by done. simpl. lia.
  - pose proof (quote_no_q _ Hp Hc) as Hq. unfold no_q in *. unfold ILike.
    destruct IH as (Hw & IH). rewrite Hw, Hp. apply balanced_add; [by split|by apply clean_mark|].
    rewrite !count_q_app, (dialect_mark d) by done. simpl. lia.
  - pose proof (quote_no_q _ Hp Hc) as Hq. unfold no_q in *. unfold in_op. case_decide.
    { apply balanced_add; [done|by apply clean_mark|done]. }
    unfold Where. simpl. rewrite app_nil_r. apply balanced_add; [done|by apply clean_mark|].
    destruct IH as [-> _]. rewrite !count_q_app, placeholders_count by done. simpl. lia.
  - pose proof (quote_no_q _ Hp Hc) as Hq. unfold no_q in *. unfold between_op, Where. simpl.
    rewrite app_nil_r. apply balanced_add; [done|by apply clean_mark|].
    destruct IH as [-> _]. rewrite !count_q_app, !(dialect_mark d) by done. simpl. lia.
  - unfold exists_subquery. rewrite shift_mark by (destruct IH as [-> _]; done).
    apply balanced_add; [done|by apply clean_mark|].
    rewrite !count_q_app. unfold no_q in Ho. simpl. lia.
Qed.

(** The clause of a reachable builder is a numbering from the given index. *)
Lemma where_shape k wb :
  balanced wb → conditions wb ≠ [] →
  ∃ x, BuildWithOffset k wb = ("WHERE " +:+ x, args wb) ∧ numbered d k (length (args wb)) x.
Proof.
  intros (Hw & Hf & Hb) Hc. unfold BuildWithOffset. rewrite decide_False by done.
  rewrite Hw, number_conditions_concat by apply dialect_good, _. eexists. split; [done|].
  exists (String.concat " " (conditions wb)). split; [done|].
  split; [by apply clean_concat|]. by rewrite count_q_concat.
Qed.

Lemma where_numbered k wb :
  balanced wb → let '(clause, vs) := BuildWithOffset k wb in numbered d k (length vs) clause.
Proof.
  intros Hb. destruct (decide (conditions wb = [])) as [Hc|Hc].
  - unfold BuildWithOffset. rewrite decide_True by done. by apply numbered_plain.
  - destruct (where_shape k wb Hb Hc) as (x & -> & Hx). by apply numbered_prefix.
Qed.

End Built.

Lemma NewDialect_postgres ty : is_postgres (NewDialect ty) = bool_decide (ty = "postgresql").
Proof. unfold NewDialect, NewDefaultDialect. by repeat case_decide; simplify_eq. Qed.

(** The WHERE clause has exactly one placeholder per argument, however
    the builder was filled.  With a question-mark dialect (every one but
    PostgreSQL): typed conditions, value lists, ranges, subqueries, raw
    conditions that bring as many arguments as question marks, and nested
    groups; the clause has as many question marks as arguments.  With
    PostgreSQL and raw conditions, the placeholders of the clause are
    [$1], [$2], ... in order, one per argument. *)
Theorem where_arguments_match {V} ty (wb : WhereBuilder V) :
  built (NewDialect ty) wb → (Z.of_nat (length (args wb)) <= GoInt.maxInt64)%Z →
  let '(clause, vs) := Build wb in
  (conditions wb ≠ [] → vs = args wb) ∧
  if decide (ty = "postgresql") then dollars clause = Some <$> seqZ 1 (Z.of_nat (length vs))
  else count_q clause = length vs.
Proof.
  intros Hb Hm. apply built_balanced in Hb; [|apply _].
  pose proof (where_numbered (NewDialect ty) 0 wb Hb) as Hn. unfold Build in *.
  pose proof (NewDialect_postgres ty) as Hp.
  destruct (BuildWithOffset 0 wb) as [clause vs] eqn:He. unfold BuildWithOffset in He.
  split; [case_decide; by simplify_eq|].
  assert (Hle : length vs <= length (args wb)) by (case_decide; simplify_eq; simpl; lia).
  destruct (decide (ty = "postgresql")) as [Ht|Ht].
  - apply (numbered_dollars (NewDialect ty)); [|lia|done]. rewrite Hp. by apply bool_decide_true.
  - apply (numbered_marks (NewDialect ty)); [|done]. rewrite Hp. by apply bool_decide_false.
Qed.

(** Conditions added one after the other are put side by side: neither
    [Where] nor the typed conditions insert a connective, so two of them make
    the clause [WHERE c1 c2], which is not SQL, where the guide chains them to
    mean a conjunction; only [And] writes the [AND]. *)
Theorem chained_conditions_not_joined {V} (c1 c2 : string) (us vs : list V) :
  let wb := Where c1 us (NewWhereBuilder None) in
  Build (Where c2 vs wb) = ("WHERE " +:+ c1 +:+ " " +:+ c2, us ++ vs) ∧
  Build (And c2 vs wb) = ("WHERE " +:+ c1 +:+ " AND " +:+ c2, us ++ vs) ∧
  ∀ col v, Build (Eq col v wb) =
    ("WHERE " +:+ c1 +:+ " " +:+ QuoteIdentifier NewDefaultDialect col +:+ " = ?", us ++ [v]).
Proof.
  intros wb.
  assert (Hq : ∀ wb' : WhereBuilder V, dialect wb' = MySQLDialect → conditions wb' ≠ [] →
    Build wb' = ("WHERE " +:+ String.concat " " (conditions wb'), args wb')).
  { intros wb' Hd Hne. unfold Build, BuildWithOffset. rewrite decide_False by done.
    by rewrite Hd, number_conditions_concat, number_same by (done || apply dialect_good, _). }
  split; [by rewrite Hq|]. split; [by rewrite Hq|]. intros col v. by rewrite Hq.
Qed.

(** ** PostgreSQL *)

Lemma pg_numbers start cs :
  String.concat " " (number_conditions PostgreSQLDialect start cs)
    = number pg_placeholder start (String.concat " " cs).
Proof. apply number_conditions_concat, (dialect_good PostgreSQLDialect). Qed.

(** One SET column and a WHERE builder. *)
Lemma pg_update_one {V} table col (v : V) f :
  let wb := f (NewWhereBuilder (Some PostgreSQLDialect)) in
  dialect wb = PostgreSQLDialect → conditions wb ≠ [] →
  Update_Build [col] (update_where f (Update_Set col v (NewUpdateBuilderWithDialect table PostgreSQLDialect)))
    = (("UPDATE " +:+ pg_quote table +:+ " SET " +:+ pg_quote col +:+ " = $1") +:+ " WHERE " +:+
       number pg_placeholder 1 (String.concat " " (conditions wb)), v :: args wb).
Proof.
  intros wb Hd Hne. unfold Update_Build. cbn [upd_data update_where Update_Set set_data NewUpdateBuilderWithDialect].
  rewrite decide_False by apply insert_non_empty.
  cbn [upd_dialect upd_where upd_joins upd_orderBy upd_limit update_where Update_Set set_data NewUpdateBuilderWithDialect].
  change (sortStrings [col]) with [col]. cbn [fold_left set_part]. rewrite lookup_insert_eq.
  cbn [app length Z.of_nat]. unfold finish, BuildWithOffset. fold wb. rewrite decide_False by done.
  rewrite Hd, pg_numbers. rewrite decide_False by done. rewrite decide_True by done.
  cbn [Z.ltb Z.compare length Z.of_nat Pos.of_succ_nat app]. done.
Qed.

(** With PostgreSQL an UPDATE with a typed condition binds the wrong
    argument: typed conditions write their placeholder when they are added,
    numbered from one within the WHERE builder, and [Build] does not shift
    them past the SET arguments, so [SET col = $1 WHERE key = $1] is sent
    with two arguments; the same condition written with a question mark is
    numbered [$2]. *)
Theorem postgres_update_rebinds {V} table col key (v w : V) :
  no_q key →
  let b := Update_Set col v (NewUpdateBuilderWithDialect table PostgreSQLDialect) in
  let set_clause := "UPDATE " +:+ pg_quote table +:+ " SET " +:+ pg_quote col +:+ " = $1" in
  Update_Build [col] (update_where (Eq key w) b)
    = (set_clause +:+ " WHERE " +:+ pg_quote key +:+ " = $1", [v; w]) ∧
  Update_Build [col] (update_where (Where (pg_quote key +:+ " = ?") [w]) b)
    = (set_clause +:+ " WHERE " +:+ pg_quote key +:+ " = $2", [v; w]).
Proof.
  intros Hk b set_clause. unfold b. pose proof (pg_quote_no_q key Hk) as Hq. split.
  - rewrite (pg_update_one table col v (Eq key w)) by done.
    cbn [conditions Eq compare_op Where NewWhereBuilder app String.concat args].
    rewrite number_plain; [done|]. by apply no_q_app.
  - rewrite (pg_update_one table col v (Where (pg_quote key +:+ " = ?") [w])) by done.
    cbn [conditions Where NewWhereBuilder app String.concat args].
    rewrite number_app, number_plain by done. unfold no_q in Hq. rewrite Hq. done.
Qed.

(** ** Concrete instances *)

Module OrmExample.

Definition wb2 : WhereBuilder nat :=
  Group (λ w, Or "role = ?" [3] (Eq "s" 2 w)) (Eq "id" 7 (NewWhereBuilder (Some (NewDialect "mysql")))).

Definition raw2 : WhereBuilder nat :=
  And "b IN (?, ?)" [2; 3] (Where "a = ?" [1] (NewWhereBuilder (Some (NewDialect "postgresql")))).

Lemma BuildWithOffset_numbers_witness :
  BuildWithOffset 4 raw2 = ("WHERE a = $5 AND b IN ($6, $7)", [1; 2; 3]).
Proof. rewrite (BuildWithOffset_numbers "postgresql"); done. Defined.

Lemma where_arguments_match_witness :
  Build wb2 = ("WHERE `id` = ? AND (`s` = ? OR role = ?)", [7; 2; 3]) ∧
  count_q (Build wb2).1 = 3.
Proof.
  split; [reflexivity|].
  pose proof (where_arguments_match "mysql" wb2) as H.
  assert (He : Build wb2 = ((Build wb2).1, [7; 2; 3])) by reflexivity.
  rewrite He in H. destruct H as [_ H]; [|reflexivity || done|exact H].
  apply built_group; [apply built_compare; [done|apply built_new|done|done]|done|].
  apply built_connect; [apply built_compare; [done|apply built_new|done|done]|done|done|done].
Defined.

Lemma postgres_update_rebinds_witness :
  (Update_Build ["balance"] (update_where (Eq "user_id" 1001%Z)
     (Update_Set "balance" 1000%Z (NewUpdateBuilderWithDialect "accounts" PostgreSQLDialect)))).2
    = [1000%Z; 1001%Z].
Proof.
  destruct (postgres_update_rebinds "accounts" "balance" "user_id" 1000%Z 1001%Z) as [H _].
  - reflexivity.
  - by rewrite H.
Defined.

End OrmExample.
