(* ===== verification/OrmUtil.v ===== *)
(** * plugins/db/orm/util.go: identifiers, ORDER BY items and JOIN references

    The validators the SELECT builder applies to the parts of a statement it
    does not bind as arguments.  The source checks them with regular
    expressions; each is a matcher here.  Strings are ASCII: the simple case
    folding of [(?i)] adds two non-ASCII letters, which no identifier has. *)

From S2P Require Import Prelude Orm SqlText.
From Stdlib Require Import Ascii.

Import GoError.

(** ** Characters and words *)

Definition is_letter (c : ascii) : bool :=
  let n := nat_of_ascii c in ((65 <=? n) && (n <=? 90)) || ((97 <=? n) && (n <=? 122)).

(** [a-zA-Z0-9_]. *)
Definition is_word (c : ascii) : bool :=
  let n := nat_of_ascii c in is_letter c || ((48 <=? n) && (n <=? 57)) || (n =? 95).

(** [\s] of the regexp package: no vertical tab, unlike [unicode.IsSpace]. *)
Definition re_space (c : ascii) : bool :=
  let n := nat_of_ascii c in (n =? 32) || (n =? 9) || (n =? 10) || (n =? 12) || (n =? 13).

Fixpoint all_chars (f : ascii → bool) (s : string) : bool :=
  match s with
  | String.EmptyString => true
  | String.String a s => f a && all_chars f s
  end.

(** The longest prefix of characters that satisfy [f], and the rest. *)
Fixpoint span (f : ascii → bool) (s : string) : string * string :=
  match s with
  | String.EmptyString => ("", "")
  | String.String a t =>
      if f a then let '(w, r) := span f t in (String.String a w, r) else ("", s)
  end.

Definition skip (f : ascii → bool) (s : string) : string := (span f s).2.

Definition upper (c : ascii) : ascii :=
  let n := nat_of_ascii c in
  if (97 <=? n) && (n <=? 122) then ascii_of_nat (n - 32) else c.

(** [strings.ToUpper]. *)
Fixpoint ToUpper (s : string) : string :=
  match s with
  | String.EmptyString => String.EmptyString
  | String.String a s => String.String (upper a) (ToUpper s)
  end.

(** ** The identifier patterns *)

(** [[a-zA-Z][a-zA-Z0-9_]*]: the whole string. *)
Definition is_ident (s : string) : bool :=
  match s with
  | String.EmptyString => false
  | String.String a s => is_letter a && all_chars is_word s
  end.

(** [tableNamePattern] and [columnNamePattern] are [is_ident];
    [qualifiedIdentifierPattern]: identifiers separated by dots. *)
Definition is_qualified (s : string) : bool := forallb is_ident (split_on "." s).

(** An identifier in back quotes. *)
Definition is_backquoted (s : string) : bool :=
  match s with
  | String.String "`"%char s =>
      let '(w, r) := span is_word s in
      is_ident w && bool_decide (r = "`")
  | _ => false
  end.

Definition is_quoted_qualified (s : string) : bool := forallb is_backquoted (split_on "." s).

(** The longest identifier a string starts with. *)
Definition take_ident (s : string) : option (string * string) :=
  match s with
  | String.EmptyString => None
  | String.String a t =>
      if is_letter a then let '(w, r) := span is_word t in Some (String.String a w, r) else None
  end.

(** [ident(\.ident)?]: what follows an identifier can not be part of one, so
    the longest match is the only one that can succeed. *)
Definition take_column (s : string) : option (string * string) :=
  match take_ident s with
  | None => None
  | Some (w, String.String "."%char r) =>
      match take_ident r with
      | Some (w2, r2) => Some (w +:+ "." +:+ w2, r2)
      | None => Some (w, String.String "."%char r)
      end
  | Some (w, r) => Some (w, r)
  end.

(** [jsonPathIdentifierPattern]: a column, an arrow and a quoted path. *)
Definition is_json_path (s : string) : bool :=
  match take_column s with
  | Some (_, r) =>
      match skip re_space r with
      | String.String "-"%char (String.String ">"%char r) =>
          let r := match r with String.String ">"%char r => r | _ => r end in
          match skip re_space r with
          | String.String "'"%char r =>
              let '(w, r) := span (λ c, negb (Ascii.eqb c "'")) r in
              negb (bool_decide (w = "")) && bool_decide (r = "'")
          | _ => false
          end
      | _ => false
      end
  | None => false
  end.

(** ** Validators *)

Definition ErrInvalidTableName : error := Sentinel "orm.ErrInvalidTableName".
Definition ErrInvalidColumnName : error := Sentinel "orm.ErrInvalidColumnName".

Definition ValidateTableName (table : string) : option error :=
  if decide (table = "") then Some ErrInvalidTableName
  else if negb (is_ident table) then
    Some (ErrorfW "%w: '%s' (must start with letter and contain only letters, numbers, underscores)"
            [table] ErrInvalidTableName)
  else None.

Definition ValidateColumnName (column : string) : option error :=
  if decide (column = "") then Some ErrInvalidColumnName
  else
    let column := TrimSpace column in
    if is_ident column then None
    else if is_qualified column then None
    else if is_json_path column then None
    else Some (ErrorfW "%w: '%s'" [column] ErrInvalidColumnName).

Definition ValidateQualifiedIdentifier (identifier : string) : option error :=
  if decide (identifier = "") then Some ErrInvalidColumnName
  else if negb (is_qualified identifier) then
    Some (ErrorfW "%w: '%s' (must be one or more dot-separated identifiers)" [identifier]
            ErrInvalidColumnName)
  else None.

(** ** ORDER BY *)

(** [orderByItemPattern]: the column and the direction of an item; the
    direction is empty when there is none. *)
Definition order_by_match (item : string) : option (string * string) :=
  match take_column (skip re_space item) with
  | None => None
  | Some (column, r) =>
      let r := skip re_space r in
      let '(word, rest) := span is_letter r in
      if decide (word = "") then
        if decide (r = "") then Some (column, "") else None
      else if bool_decide (ToUpper word = "ASC") || bool_decide (ToUpper word = "DESC") then
        if decide (skip re_space rest = "") then Some (column, word) else None
      else None
  end.

Definition BuildSafeOrderByItem (d : Dialect) (item : string) : result string :=
  match order_by_match item with
  | None => Err (Errorf "invalid order by item: %s" [item])
  | Some (identifier, word) =>
      match ValidateQualifiedIdentifier identifier with
      | Some e => Err e
      | None =>
          let direction := ToUpper (TrimSpace word) in
          if negb (bool_decide (direction = "")) && negb (bool_decide (direction = "ASC"))
             && negb (bool_decide (direction = "DESC"))
          then Err (Errorf "invalid order direction: %s" [direction])
          else if decide (direction = "") then Ok identifier
          else Ok (identifier +:+ " " +:+ direction)
      end
  end.

(** ** JOIN *)

Definition allowedJoinTypes : list string := ["INNER"; "LEFT"; "RIGHT"; "FULL OUTER"; "CROSS"].

Definition NormalizeJoinType (joinType : string) : result string :=
  let jt := ToUpper (TrimSpace joinType) in
  let jt := String.concat " " (Fields jt) in
  if bool_decide (jt ∈ allowedJoinTypes) then Ok jt
  else Err (Errorf "invalid join type: %s" [joinType]).

Definition ValidateJoinTableReference (table : string) : option error :=
  let table := TrimSpace table in
  let invalid := Some (ErrorfW "%w: '%s'" [table] ErrInvalidTableName) in
  let alias_error alias :=
    match ValidateColumnName alias with Some _ => invalid | None => None end in
  if decide (table = "") then Some ErrInvalidTableName
  else
    match Fields table with
    | base :: rest =>
        if (3 <? length (base :: rest)) then invalid
        else if negb (is_qualified base) && negb (is_quoted_qualified base) then invalid
        else
          match rest with
          | [] => None
          | [alias] => alias_error alias
          | as_ :: alias :: _ =>
              if negb (bool_decide (ToUpper as_ = "AS")) then invalid else alias_error alias
          end
    | [] => invalid
    end.

(** ** ORDER BY items: only identifiers and directions get through *)

(** The first character, if any, does not satisfy [f]. *)
Definition stops (f : ascii → bool) (s : string) : Prop :=
  match s with
  | String.EmptyString => True
  | String.String a _ => f a = false
  end.

Lemma span_app f w r : all_chars f w = true → stops f r → span f (w +:+ r) = (w, r).
Proof.
  intros Hw Hr. induction w as [|a w IH].
  - change ("" +:+ r) with r. destruct r as [|a r]; [done|]. cbn [stops span] in *. by rewrite Hr.
  - cbn [all_chars] in Hw. apply andb_true_iff in Hw as [Ha Hw].
    change (String.String a w +:+ r) with (String.String a (w +:+ r)). cbn [span].
    by rewrite Ha, IH.
Qed.

Lemma skip_app f w r : all_chars f w = true → stops f r → skip f (w +:+ r) = r.
Proof. intros Hw Hr. unfold skip. by rewrite span_app. Qed.

(** An item's column: an identifier, or one qualified by another. *)
Inductive column : string → Prop :=
| column_ident a : is_ident a = true → column a
| column_qualified a b : is_ident a = true → is_ident b = true → column (a +:+ "." +:+ b).

Lemma take_ident_app a r : is_ident a = true → stops is_word r → take_ident (a +:+ r) = Some (a, r).
Proof.
  destruct a as [|c a]; [done|]. cbn [is_ident]. intros [Hc Ha]%andb_true_iff Hr.
  change (String.String c a +:+ r) with (String.String c (a +:+ r)). cbn [take_ident].
  by rewrite Hc, span_app.
Qed.

Lemma space_not_word c : re_space c = true → is_word c = false ∧ is_letter c = false ∧ c ≠ "."%char.
Proof. by destruct c as [[] [] [] [] [] [] [] []]. Qed.

Lemma letter_not_space c : is_letter c = true → re_space c = false ∧ is_space c = false.
Proof. by destruct c as [[] [] [] [] [] [] [] []]. Qed.

Lemma word_not_dot c : is_word c = true → Ascii.eqb c "." = false.
Proof. by destruct c as [[] [] [] [] [] [] [] []]. Qed.

(** What follows a column: nothing, or white space. *)
Definition after_column (r : string) : Prop :=
  match r with
  | String.EmptyString => True
  | String.String a _ => re_space a = true
  end.

Lemma after_column_stops r : after_column r → stops is_word r.
Proof. destruct r as [|a r]; [done|]. intros Ha. by apply space_not_word. Qed.

Lemma take_column_app id r : column id → after_column r → take_column (id +:+ r) = Some (id, r).
Proof.
  intros Hid Hr. pose proof (after_column_stops r Hr) as Hw. unfold take_column.
  destruct Hid as [a Ha|a b Ha Hb].
  - rewrite take_ident_app by done. destruct r as [|c r]; [done|].
    destruct (space_not_word c Hr) as (_ & _ & Hc).
    by destruct c as [[] [] [] [] [] [] [] []].
  - rewrite !app_assoc_string, take_ident_app by done.
    change ("." +:+ b +:+ r) with (String.String "." (b +:+ r)). cbv beta iota.
    by rewrite take_ident_app.
Qed.

Lemma split_word w : all_chars is_word w = true → split_on "." w = [w].
Proof.
  induction w as [|a w IH]; [done|]. cbn [all_chars split_on]. intros [Ha Hw]%andb_true_iff.
  by rewrite word_not_dot, IH.
Qed.

Lemma split_dot w r : all_chars is_word w = true → split_on "." (w +:+ "." +:+ r) = w :: split_on "." r.
Proof.
  induction w as [|a w IH]; [done|]. cbn [all_chars]. intros [Ha Hw]%andb_true_iff.
  change (String.String a w +:+ "." +:+ r) with (String.String a (w +:+ "." +:+ r)). cbn [split_on].
  by rewrite word_not_dot, IH.
Qed.

Lemma ident_word a : is_ident a = true → all_chars is_word a = true ∧ a ≠ "".
Proof.
  destruct a as [|c a]; [done|]. cbn [is_ident all_chars]. intros [Hc Ha]%andb_true_iff.
  rewrite Ha. unfold is_word at 1. by rewrite Hc.
Qed.

Lemma column_valid id : column id → ValidateQualifiedIdentifier id = None.
Proof.
  unfold ValidateQualifiedIdentifier, is_qualified. intros [a Ha|a b Ha Hb].
  - destruct (ident_word a Ha) as [Hw Hne]. rewrite decide_False by done.
    by rewrite split_word by done; simpl; rewrite Ha.
  - destruct (ident_word a Ha) as [Hwa Hne]. destruct (ident_word b Hb) as [Hwb _].
    rewrite decide_False by (by destruct a).
    by rewrite split_dot, split_word by done; simpl; rewrite Ha, Hb.
Qed.

Lemma letters_no_space w : all_chars is_letter w = true → no_space w.
Proof.
  induction w as [|a w IH]; [done|]. cbn [all_chars]. intros [Ha Hw]%andb_true_iff.
  split; [by apply letter_not_space|auto].
Qed.

Lemma spaces_end s : all_chars re_space s = true → skip re_space s = "".
Proof. intros Hs. rewrite <- (app_nil_string s). by apply skip_app. Qed.

Lemma column_head id r : column id → stops re_space (id +:+ r).
Proof.
  intros Hid. assert (Hh : ∃ c t, id = String.String c t ∧ is_letter c = true).
  { destruct Hid as [[|c a] Ha|[|c a] b Ha Hb]; try done;
      cbn [is_ident] in Ha; apply andb_true_iff in Ha as [Hc _]; by do 2 eexists. }
  destruct Hh as (c & t & -> & Hc). by apply letter_not_space.
Qed.

(** The match of an item in the documented forms. *)
Lemma order_by_match_column id sp1 sp2 :
  column id → all_chars re_space sp1 = true → all_chars re_space sp2 = true →
  order_by_match (sp1 +:+ id +:+ sp2) = Some (id, "").
Proof.
  intros Hid H1 H2. unfold order_by_match. rewrite skip_app by (done || by apply column_head).
  rewrite take_column_app; [|done|].
  2:{ destruct sp2 as [|c s]; [done|]. cbn [all_chars] in H2. by apply andb_true_iff in H2 as [? _]. }
  by rewrite spaces_end.
Qed.

Lemma order_by_match_direction id word sp1 sp2 sp3 :
  column id → all_chars is_letter word = true → ToUpper word = "ASC" ∨ ToUpper word = "DESC" →
  all_chars re_space sp1 = true → all_chars re_space sp2 = true → sp2 ≠ "" →
  all_chars re_space sp3 = true →
  order_by_match (sp1 +:+ id +:+ sp2 +:+ word +:+ sp3) = Some (id, word).
Proof.
  intros Hid Hl Hw H1 H2 Hne H3. unfold order_by_match.
  rewrite skip_app by (done || by apply column_head).
  rewrite take_column_app; [|done|].
  2:{ destruct sp2 as [|c s]; [done|]. cbn [all_chars] in H2. by apply andb_true_iff in H2 as [? _]. }
  assert (Hword : word ≠ "") by (intros ->; by destruct Hw).
  assert (Hst : stops re_space (word +:+ sp3)).
  { destruct word as [|c w]; [done|]. cbn [all_chars] in Hl. apply andb_true_iff in Hl as [Hc _].
    by apply letter_not_space. }
  rewrite skip_app by done. rewrite span_app; [|done|].
  2:{ destruct sp3 as [|c s]; [done|]. cbn [all_chars] in H3. apply andb_true_iff in H3 as [Hc _].
      by apply space_not_word. }
  rewrite decide_False by done.
  assert (Hb : bool_decide (ToUpper word = "ASC") || bool_decide (ToUpper word = "DESC") = true).
  { apply orb_true_iff. destruct Hw; [left|right]; by apply bool_decide_true. }
  by rewrite Hb, spaces_end.
Qed.

(** The shape of a text that is accepted. *)
Lemma order_item_shape d item s :
  BuildSafeOrderByItem d item = Ok s →
  ∃ id dir, is_qualified id = true ∧ dir ∈ [""; " ASC"; " DESC"] ∧ s = id +:+ dir.
Proof.
  unfold BuildSafeOrderByItem. destruct (order_by_match item) as [[id word]|]; [|done].
  unfold ValidateQualifiedIdentifier. case_decide; [done|].
  destruct (is_qualified id) eqn:Hid; [|done]. simpl. set (dir := ToUpper (TrimSpace word)).
  case_match eqn:Hdir; [done|]. case_decide as He; intros [= <-].
  + exists id, "". rewrite app_nil_string. set_solver.
  + exists id, (" " +:+ dir). split; [done|]. split; [|done].
    rewrite bool_decide_false in Hdir by done. simpl in Hdir.
    destruct (decide (dir = "ASC")) as [->|Ha]; [set_solver|].
    destruct (decide (dir = "DESC")) as [->|Hb]; [set_solver|].
    by rewrite !bool_decide_false in Hdir.
Qed.

(** [BuildSafeOrderByItem] lets nothing but identifiers into an ORDER BY
    clause.  Whatever text it is given, a text it returns is a dotted
    identifier, alone or followed by ASC or DESC; and it accepts the
    documented forms, a column or a qualified column with an optional
    direction in any case and white space around, and normalises them. *)
Theorem order_by_safe d item :
  (∀ s, BuildSafeOrderByItem d item = Ok s →
     ∃ id dir, is_qualified id = true ∧ dir ∈ [""; " ASC"; " DESC"] ∧ s = id +:+ dir) ∧
  (∀ id sp1 sp2, column id → all_chars re_space sp1 = true → all_chars re_space sp2 = true →
     item = sp1 +:+ id +:+ sp2 → BuildSafeOrderByItem d item = Ok id) ∧
  (∀ id word sp1 sp2 sp3, column id → all_chars is_letter word = true →
     ToUpper word = "ASC" ∨ ToUpper word = "DESC" →
     all_chars re_space sp1 = true → all_chars re_space sp2 = true → sp2 ≠ "" →
     all_chars re_space sp3 = true → item = sp1 +:+ id +:+ sp2 +:+ word +:+ sp3 →
     BuildSafeOrderByItem d item = Ok (id +:+ " " +:+ ToUpper word)).
Proof.
  split; [|unfold BuildSafeOrderByItem; split].
  - apply order_item_shape.
  - intros id sp1 sp2 Hid H1 H2 ->. rewrite order_by_match_column by done.
    by rewrite column_valid.
  - intros id word sp1 sp2 sp3 Hid Hl Hw H1 H2 Hne H3 ->. rewrite order_by_match_direction by done.
    rewrite column_valid, trim_no_space by (done || by apply letters_no_space).
    by destruct Hw as [-> | ->].
Qed.

(** ** Identifiers have no placeholder *)

Lemma word_count c w : is_word c = false → all_chars is_word w = true → count_char c w = 0.
Proof.
  intros Hc. induction w as [|a w IH]; [done|]. cbn [all_chars count_char].
  intros [Ha Hx]%andb_true_iff. rewrite IH by done. destruct (Ascii.eqb a c) eqn:He; [|done].
  apply Ascii.eqb_eq in He as ->. congruence.
Qed.

Lemma split_count c s :
  c ≠ "."%char → Forall (λ w, count_char c w = 0) (split_on "." s) → count_char c s = 0.
Proof.
  intros Hd. induction s as [|a s IH]; [done|]. cbn [split_on count_char].
  destruct (Ascii.eqb a ".") eqn:Ha.
  - intros [_ Hf]%Forall_cons. apply Ascii.eqb_eq in Ha as ->. rewrite IH by done.
    destruct (Ascii.eqb "." c) eqn:He; [|done]. by apply Ascii.eqb_eq in He as <-.
  - destruct (split_on "." s) as [|w ws] eqn:Hs.
    + intros [Hf _]%Forall_cons. cbn [count_char] in Hf. rewrite IH by done. lia.
    + intros [Hf Hr]%Forall_cons. cbn [count_char] in Hf. rewrite IH; [lia|].
      constructor; [lia|done].
Qed.

Lemma qualified_plain d id : is_qualified id = true → plain d id.
Proof.
  unfold is_qualified. rewrite forallb_forall. intros Hid.
  assert (Hc : ∀ c, is_word c = false → c ≠ "."%char → count_char c id = 0).
  { intros c Hw Hd. apply split_count; [done|]. apply Forall_forall. intros w Hin.
    apply word_count; [done|]. apply ident_word, Hid. by apply list_elem_of_In. }
  split; [|intros _]; by apply Hc.
Qed.

Lemma order_item_plain d item s : BuildSafeOrderByItem d item = Ok s → plain d s.
Proof.
  intros (id & dir & Hid & Hdir & ->)%order_item_shape. apply plain_app; [by apply qualified_plain|].
  rewrite !elem_of_cons in Hdir. destruct Hdir as [->|[->|[->|Hx]]]; [done..|set_solver].
Qed.
