(* ===== verification/Select.v ===== *)
(** * plugins/db/orm/select_builder.go: the SELECT builder

    A builder refers to the builders of its common table expressions and of
    its UNION branches by pointer and builds them when it is built itself, so
    builders live in a store that maps addresses to builders, [Build] and
    [Clone] follow the addresses.  Following a cycle does not end, which the
    fuel makes explicit: [None] is no result within the fuel.  The connection
    a builder carries is not part of the statement and is left out; the WHERE
    and HAVING builders are owned by their SELECT builder and kept by value. *)

From S2P Require Import Prelude Orm OrmUtil.
From Stdlib Require Import Ascii.

(** The address of a SELECT builder. *)
Abbreviation ptr := nat.

(** ** JoinOnBuilder *)

Section Select.
Context {V : Type}.

Record JoinOnBuilder := MkJoinOn {
  on_conditions : list string;
  on_args : list V;
  on_dialect : Dialect
}.

Definition NewJoinOnBuilder (d : option Dialect) : JoinOnBuilder :=
  MkJoinOn [] [] (match d with None => NewDefaultDialect | Some d => d end).

(** [On] and [Raw]. *)
Definition On (condition : string) (vs : list V) (jb : JoinOnBuilder) : JoinOnBuilder :=
  MkJoinOn (on_conditions jb ++ [condition]) (on_args jb ++ vs) (on_dialect jb).

(** [And] and [Or]. *)
Definition on_connect (word condition : string) (vs : list V) (jb : JoinOnBuilder) : JoinOnBuilder :=
  MkJoinOn
    (on_conditions jb ++
       [if decide (on_conditions jb = []) then condition else word +:+ " " +:+ condition])
    (on_args jb ++ vs) (on_dialect jb).

Definition On_And : string → list V → JoinOnBuilder → JoinOnBuilder := on_connect "AND".
Definition On_Or : string → list V → JoinOnBuilder → JoinOnBuilder := on_connect "OR".

Definition On_Eq (left right : string) (jb : JoinOnBuilder) : JoinOnBuilder :=
  let d := on_dialect jb in
  On (QuoteIdentifier d left +:+ " = " +:+ QuoteIdentifier d right) [] jb.

Definition On_EqValue (column : string) (value : V) (jb : JoinOnBuilder) : JoinOnBuilder :=
  On (QuoteIdentifier (on_dialect jb) column +:+ " = ?") [value] jb.

Definition On_Build (jb : JoinOnBuilder) : string * list V :=
  if decide (on_conditions jb = []) then ("", [])
  else (String.concat " " (on_conditions jb), on_args jb).

(** ** Data *)

Record cteClause := MkCTE {
  cte_name : string;
  cte_query : ptr;
  cte_recursive : bool
}.

Record unionClause := MkUnion {
  union_all : bool;
  union_query : ptr
}.

Record SelectBuilder := MkSelect {
  sb_table : string;
  sb_rawTable : bool;
  sb_tableArgs : list V;
  sb_columns : list string;
  sb_joins : list (Join V);
  sb_where : WhereBuilder V;
  sb_groupBy : list string;
  sb_having : WhereBuilder V;
  sb_orderBy : list string;
  sb_limit : Z;
  sb_offset : Z;
  sb_lockMode : string;
  sb_dialect : Dialect;
  sb_ctes : list cteClause;
  sb_unions : list unionClause;
  sb_appliedScopes : list string
}.

(** ** Assignments of the fields *)

Definition set_table (table : string) (raw : bool) (vs : list V) (b : SelectBuilder) : SelectBuilder :=
  MkSelect table raw vs (sb_columns b) (sb_joins b) (sb_where b) (sb_groupBy b) (sb_having b)
    (sb_orderBy b) (sb_limit b) (sb_offset b) (sb_lockMode b) (sb_dialect b) (sb_ctes b)
    (sb_unions b) (sb_appliedScopes b).
Definition set_columns (cs : list string) (b : SelectBuilder) : SelectBuilder :=
  MkSelect (sb_table b) (sb_rawTable b) (sb_tableArgs b) cs (sb_joins b) (sb_where b) (sb_groupBy
    b) (sb_having b) (sb_orderBy b) (sb_limit b) (sb_offset b) (sb_lockMode b) (sb_dialect
    b) (sb_ctes b) (sb_unions b) (sb_appliedScopes b).
Definition set_joins (js : list (Join V)) (b : SelectBuilder) : SelectBuilder :=
  MkSelect (sb_table b) (sb_rawTable b) (sb_tableArgs b) (sb_columns b) js (sb_where b) (sb_groupBy
    b) (sb_having b) (sb_orderBy b) (sb_limit b) (sb_offset b) (sb_lockMode b) (sb_dialect
    b) (sb_ctes b) (sb_unions b) (sb_appliedScopes b).
Definition set_where (w : WhereBuilder V) (b : SelectBuilder) : SelectBuilder :=
  MkSelect (sb_table b) (sb_rawTable b) (sb_tableArgs b) (sb_columns b) (sb_joins b) w (sb_groupBy
    b) (sb_having b) (sb_orderBy b) (sb_limit b) (sb_offset b) (sb_lockMode b) (sb_dialect
    b) (sb_ctes b) (sb_unions b) (sb_appliedScopes b).
Definition set_groupBy (g : list string) (b : SelectBuilder) : SelectBuilder :=
  MkSelect (sb_table b) (sb_rawTable b) (sb_tableArgs b) (sb_columns b) (sb_joins b) (sb_where b) g
    (sb_having b) (sb_orderBy b) (sb_limit b) (sb_offset b) (sb_lockMode b) (sb_dialect b)
    (sb_ctes b) (sb_unions b) (sb_appliedScopes b).
Definition set_having (w : WhereBuilder V) (b : SelectBuilder) : SelectBuilder :=
  MkSelect (sb_table b) (sb_rawTable b) (sb_tableArgs b) (sb_columns b) (sb_joins b) (sb_where b)
    (sb_groupBy b) w (sb_orderBy b) (sb_limit b) (sb_offset b) (sb_lockMode b) (sb_dialect
    b) (sb_ctes b) (sb_unions b) (sb_appliedScopes b).
Definition set_orderBy (o : list string) (b : SelectBuilder) : SelectBuilder :=
  MkSelect (sb_table b) (sb_rawTable b) (sb_tableArgs b) (sb_columns b) (sb_joins b) (sb_where b)
    (sb_groupBy b) (sb_having b) o (sb_limit b) (sb_offset b) (sb_lockMode b) (sb_dialect b)
    (sb_ctes b) (sb_unions b) (sb_appliedScopes b).
Definition set_limit (n : Z) (b : SelectBuilder) : SelectBuilder :=
  MkSelect (sb_table b) (sb_rawTable b) (sb_tableArgs b) (sb_columns b) (sb_joins b) (sb_where b)
    (sb_groupBy b) (sb_having b) (sb_orderBy b) n (sb_offset b) (sb_lockMode b) (sb_dialect
    b) (sb_ctes b) (sb_unions b) (sb_appliedScopes b).
Definition set_offset (n : Z) (b : SelectBuilder) : SelectBuilder :=
  MkSelect (sb_table b) (sb_rawTable b) (sb_tableArgs b) (sb_columns b) (sb_joins b) (sb_where b)
    (sb_groupBy b) (sb_having b) (sb_orderBy b) (sb_limit b) n (sb_lockMode b) (sb_dialect
    b) (sb_ctes b) (sb_unions b) (sb_appliedScopes b).
Definition set_lockMode (m : string) (b : SelectBuilder) : SelectBuilder :=
  MkSelect (sb_table b) (sb_rawTable b) (sb_tableArgs b) (sb_columns b) (sb_joins b) (sb_where b)
    (sb_groupBy b) (sb_having b) (sb_orderBy b) (sb_limit b) (sb_offset b) m (sb_dialect b)
    (sb_ctes b) (sb_unions b) (sb_appliedScopes b).
Definition set_ctes (cs : list cteClause) (b : SelectBuilder) : SelectBuilder :=
  MkSelect (sb_table b) (sb_rawTable b) (sb_tableArgs b) (sb_columns b) (sb_joins b) (sb_where b)
    (sb_groupBy b) (sb_having b) (sb_orderBy b) (sb_limit b) (sb_offset b) (sb_lockMode b)
    (sb_dialect b) cs (sb_unions b) (sb_appliedScopes b).
Definition set_unions (us : list unionClause) (b : SelectBuilder) : SelectBuilder :=
  MkSelect (sb_table b) (sb_rawTable b) (sb_tableArgs b) (sb_columns b) (sb_joins b) (sb_where b)
    (sb_groupBy b) (sb_having b) (sb_orderBy b) (sb_limit b) (sb_offset b) (sb_lockMode b)
    (sb_dialect b) (sb_ctes b) us (sb_appliedScopes b).
Definition set_scopes (s : list string) (b : SelectBuilder) : SelectBuilder :=
  MkSelect (sb_table b) (sb_rawTable b) (sb_tableArgs b) (sb_columns b) (sb_joins b) (sb_where b)
    (sb_groupBy b) (sb_having b) (sb_orderBy b) (sb_limit b) (sb_offset b) (sb_lockMode b)
    (sb_dialect b) (sb_ctes b) (sb_unions b) s.

(** ** Construction *)

Definition NewSelectBuilderWithDialect (table : string) (d : Dialect) : SelectBuilder :=
  MkSelect table false [] ["*"] [] (NewWhereBuilder (Some d)) [] (NewWhereBuilder (Some d)) [] 0 0
    "" d [] [] [].

Definition NewSelectBuilder (table : string) : SelectBuilder :=
  NewSelectBuilderWithDialect table NewDefaultDialect.

(** ** The statement *)

(** [HasPrefix(column, "DISTINCT ")] is [String.prefix]. *)
Definition quote_column (d : Dialect) (column : string) : string :=
  if bool_decide (column = "*") || String.prefix "DISTINCT " column then column
  else QuoteIdentifier d column.

(** [strings.Replace(s, old, new, 1)]. *)
Fixpoint replace_word (old new s : string) : string :=
  if String.prefix old s
  then new +:+ String.substring (String.length old) (String.length s - String.length old) s
  else
    match s with
    | String.EmptyString => String.EmptyString
    | String.String a s => String.String a (replace_word old new s)
    end.

Definition QuoteIdentifiers (d : Dialect) (identifiers : list string) : list string :=
  QuoteIdentifier d <$> identifiers.

Definition buildSelectCore (b : SelectBuilder) : string * list V :=
  let d := sb_dialect b in
  let fromExpr := if sb_rawTable b then sb_table b else QuoteIdentifier d (sb_table b) in
  let query := "SELECT " +:+ String.concat ", " (quote_column d <$> sb_columns b) +:+ " FROM " +:+ fromExpr in
  let '(query, allArgs) := fold_left (add_join d) (sb_joins b) (query, sb_tableArgs b) in
  let '(whereClause, whereArgs) := BuildWithOffset (Z.of_nat (length allArgs)) (sb_where b) in
  let '(query, allArgs) :=
    if decide (whereClause = "") then (query, allArgs)
    else (query +:+ " " +:+ whereClause, allArgs ++ whereArgs) in
  let query :=
    if decide (sb_groupBy b = []) then query
    else query +:+ " GROUP BY " +:+ String.concat ", " (QuoteIdentifiers d (sb_groupBy b)) in
  let '(havingClause, havingArgs) := BuildWithOffset (Z.of_nat (length allArgs)) (sb_having b) in
  let '(query, allArgs) :=
    if decide (havingClause = "") then (query, allArgs)
    else (query +:+ " " +:+ replace_word "WHERE" "HAVING" havingClause, allArgs ++ havingArgs) in
  let query :=
    if decide (sb_orderBy b = []) then query
    else query +:+ " ORDER BY " +:+ String.concat ", " (sb_orderBy b) in
  let limitOffsetClause := LimitOffset d (sb_limit b) (sb_offset b) in
  let query :=
    if decide (limitOffsetClause = "") then query else query +:+ " " +:+ limitOffsetClause in
  let query := if decide (sb_lockMode b = "") then query else query +:+ " " +:+ sb_lockMode b in
  (query, allArgs).

(** The loops over the common table expressions and over the UNION branches;
    [build] is [Build] of a referenced builder. *)
Fixpoint build_ctes (build : ptr → option (string * list V)) (d : Dialect) (cs : list cteClause)
    (cteParts : list string) (allArgs : list V) : option (list string * list V) :=
  match cs with
  | [] => Some (cteParts, allArgs)
  | c :: cs =>
      match build (cte_query c) with
      | None => None
      | Some (q, vs) =>
          let q := shiftPlaceholdersIfNeeded q d (Z.of_nat (length allArgs)) in
          build_ctes build d cs
            (cteParts ++ [QuoteIdentifier d (cte_name c) +:+ " AS (" +:+ q +:+ ")"]) (allArgs ++ vs)
      end
  end.

Fixpoint appendUnions (build : ptr → option (string * list V)) (d : Dialect) (us : list unionClause)
    (query : string) (vs : list V) : option (string * list V) :=
  match us with
  | [] => Some (query, vs)
  | u :: us =>
      match build (union_query u) with
      | None => None
      | Some (q, ws) =>
          let q := shiftPlaceholdersIfNeeded q d (Z.of_nat (length vs)) in
          appendUnions build d us
            (query +:+ (if union_all u then " UNION ALL " else " UNION ") +:+ q) (vs ++ ws)
      end
  end.

Fixpoint Select_Build (fuel : nat) (h : gmap ptr SelectBuilder) (p : ptr) : option (string * list V) :=
  match fuel with
  | 0 => None
  | S fuel =>
      match h !! p with
      | None => None
      | Some b =>
          let d := sb_dialect b in
          if decide (sb_ctes b = []) then
            let '(query, vs) := buildSelectCore b in
            appendUnions (Select_Build fuel h) d (sb_unions b) query vs
          else
            match build_ctes (Select_Build fuel h) d (sb_ctes b) [] [] with
            | None => None
            | Some (cteParts, allArgs) =>
                let prefix :=
                  (if existsb cte_recursive (sb_ctes b) then "WITH RECURSIVE " else "WITH ") +:+
                  String.concat ", " cteParts +:+ " " in
                let '(mainQuery, mainArgs) := buildSelectCore b in
                let mainQuery :=
                  shiftPlaceholdersIfNeeded mainQuery d (Z.of_nat (length allArgs)) in
                appendUnions (Select_Build fuel h) d (sb_unions b) (prefix +:+ mainQuery)
                  (allArgs ++ mainArgs)
            end
      end
  end.

(** ** FROM, WITH and UNION *)

Definition FromRaw (tableExpr : string) (vs : list V) : SelectBuilder → SelectBuilder :=
  set_table tableExpr true vs.

(** The methods that take a subquery build it at once: [sub] is the result of
    its [Build], [None] for a nil builder. *)
Definition FromSubquery (sub : option (string * list V)) (alias : string) (b : SelectBuilder) :
    SelectBuilder :=
  match sub with
  | None => b
  | Some (q, vs) =>
      let q := shiftPlaceholdersIfNeeded q (sb_dialect b) 0 in
      set_table ("(" +:+ q +:+ ") " +:+ alias) true vs b
  end.

Definition With (name : string) (q : option ptr) (b : SelectBuilder) : SelectBuilder :=
  let name := TrimSpace name in
  match q with
  | Some q =>
      if decide (name = "") then b else set_ctes (sb_ctes b ++ [MkCTE name q false]) b
  | None => b
  end.

(** [Union] and [UnionAll]. *)
Definition add_union (all : bool) (q : option ptr) (b : SelectBuilder) : SelectBuilder :=
  match q with
  | None => b
  | Some q => set_unions (sb_unions b ++ [MkUnion all q]) b
  end.

Definition Union : option ptr → SelectBuilder → SelectBuilder := add_union false.
Definition UnionAll : option ptr → SelectBuilder → SelectBuilder := add_union true.

(** The alias of a derived table: [t] when none is given. *)
Definition alias_or_t (alias : string) : string :=
  let alias := TrimSpace alias in if decide (alias = "") then "t" else alias.

(** [built] is the result of [Build] of the receiver. *)
Definition AsDerived (built : string * list V) (alias : string) (b : SelectBuilder) : SelectBuilder :=
  let '(q, vs) := built in
  FromRaw ("(" +:+ q +:+ ") " +:+ alias_or_t alias) vs
    (NewSelectBuilderWithDialect "ignored" (sb_dialect b)).

(** ** JOIN *)

Definition append_join (j : Join V) (b : SelectBuilder) : SelectBuilder :=
  set_joins (sb_joins b ++ [j]) b.

(** [JoinSubquery], [LeftJoinSubquery] and [RightJoinSubquery]. *)
Definition join_subquery (type : string) (sub : option (string * list V)) (alias condition : string)
    (vs : list V) (b : SelectBuilder) : SelectBuilder :=
  match sub with
  | None => b
  | Some (q, subArgs) =>
      append_join (MkJoin type ("(" +:+ q +:+ ") " +:+ alias_or_t alias) true subArgs condition vs) b
  end.

Definition JoinSubquery := join_subquery "INNER".
Definition LeftJoinSubquery := join_subquery "LEFT".
Definition RightJoinSubquery := join_subquery "RIGHT".

(** [JoinOn], [LeftJoinOn] and [RightJoinOn]; [fn] fills the ON builder. *)
Definition join_on (type table : string) (fn : JoinOnBuilder → JoinOnBuilder) (b : SelectBuilder) :
    SelectBuilder :=
  let '(cond, vs) := On_Build (fn (NewJoinOnBuilder (Some (sb_dialect b)))) in
  append_join (MkJoin type table false [] cond vs) b.

Definition JoinOn := join_on "INNER".
Definition LeftJoinOn := join_on "LEFT".
Definition RightJoinOn := join_on "RIGHT".

(** [JoinSubqueryOn] and [LeftJoinSubqueryOn]. *)
Definition join_subquery_on (type : string) (sub : option (string * list V)) (alias : string)
    (fn : JoinOnBuilder → JoinOnBuilder) (b : SelectBuilder) : SelectBuilder :=
  let '(cond, vs) := On_Build (fn (NewJoinOnBuilder (Some (sb_dialect b)))) in
  join_subquery type sub alias cond vs b.

Definition JoinSubqueryOn := join_subquery_on "INNER".
Definition LeftJoinSubqueryOn := join_subquery_on "LEFT".

Definition JoinWithType (joinType table condition : string) (vs : list V) (b : SelectBuilder) :
    SelectBuilder :=
  match NormalizeJoinType joinType with
  | Err _ => b
  | Ok normalizedJoinType =>
      match ValidateJoinTableReference table with
      | Some _ => b
      | None => append_join (MkJoin normalizedJoinType table false [] condition vs) b
      end
  end.

Definition JoinWithTypeRaw (joinType table condition : string) (vs : list V) :
    SelectBuilder → SelectBuilder :=
  append_join (MkJoin joinType table true [] condition vs).

Definition Select_Join : string → string → list V → SelectBuilder → SelectBuilder :=
  JoinWithType "INNER".
Definition LeftJoin : string → string → list V → SelectBuilder → SelectBuilder :=
  JoinWithType "LEFT".
Definition RightJoin : string → string → list V → SelectBuilder → SelectBuilder :=
  JoinWithType "RIGHT".

Definition FullOuterJoin (table condition : string) (vs : list V) (b : SelectBuilder) :
    SelectBuilder :=
  if negb (SupportsFeature (sb_dialect b) FeatureFullOuterJoin)
  then JoinWithType "LEFT" table condition vs b
  else JoinWithType "FULL OUTER" table condition vs b.

(** ** Columns, conditions, order, limits and locks *)

(** [Columns] and [Select]. *)
Definition Columns (columns : list string) : SelectBuilder → SelectBuilder := set_columns columns.

Definition Column (column : string) (b : SelectBuilder) : SelectBuilder :=
  set_columns (sb_columns b ++ [column]) b.

Definition Distinct (b : SelectBuilder) : SelectBuilder :=
  set_columns ("DISTINCT" :: sb_columns b) b.

(** The condition methods act on the WHERE builder, the HAVING ones on the
    HAVING builder; the raw forms are the same calls. *)
Definition select_where (f : WhereBuilder V → WhereBuilder V) (b : SelectBuilder) : SelectBuilder :=
  set_where (f (sb_where b)) b.

Definition select_having (f : WhereBuilder V → WhereBuilder V) (b : SelectBuilder) : SelectBuilder :=
  set_having (f (sb_having b)) b.

Definition Select_Where (condition : string) (vs : list V) : SelectBuilder → SelectBuilder :=
  select_where (Where condition vs).
Definition Select_And (condition : string) (vs : list V) : SelectBuilder → SelectBuilder :=
  select_where (And condition vs).
Definition Select_Or (condition : string) (vs : list V) : SelectBuilder → SelectBuilder :=
  select_where (Or condition vs).
Definition Select_Eq (column : string) (value : V) : SelectBuilder → SelectBuilder :=
  select_where (Eq column value).
Definition Select_Ne (column : string) (value : V) : SelectBuilder → SelectBuilder :=
  select_where (Ne column value).
Definition Select_Gt (column : string) (value : V) : SelectBuilder → SelectBuilder :=
  select_where (Gt column value).
Definition Select_Gte (column : string) (value : V) : SelectBuilder → SelectBuilder :=
  select_where (Gte column value).
Definition Select_Lt (column : string) (value : V) : SelectBuilder → SelectBuilder :=
  select_where (Lt column value).
Definition Select_Lte (column : string) (value : V) : SelectBuilder → SelectBuilder :=
  select_where (Lte column value).
Definition Select_Like (column : string) (value : V) : SelectBuilder → SelectBuilder :=
  select_where (Like column value).
Definition Select_ILike (column : string) (value : V) : SelectBuilder → SelectBuilder :=
  select_where (ILike column value).
Definition Select_In (column : string) (values : list V) : SelectBuilder → SelectBuilder :=
  select_where (In column values).
Definition Select_NotIn (column : string) (values : list V) : SelectBuilder → SelectBuilder :=
  select_where (NotIn column values).
Definition Select_IsNull (column : string) : SelectBuilder → SelectBuilder :=
  select_where (IsNull column).
Definition Select_IsNotNull (column : string) : SelectBuilder → SelectBuilder :=
  select_where (IsNotNull column).
Definition Select_Between (column : string) (lo hi : V) : SelectBuilder → SelectBuilder :=
  select_where (Between column lo hi).
Definition Having (condition : string) (vs : list V) : SelectBuilder → SelectBuilder :=
  select_having (Where condition vs).
Definition HavingAnd (condition : string) (vs : list V) : SelectBuilder → SelectBuilder :=
  select_having (And condition vs).
Definition HavingOr (condition : string) (vs : list V) : SelectBuilder → SelectBuilder :=
  select_having (Or condition vs).

Definition GroupBy (columns : list string) (b : SelectBuilder) : SelectBuilder :=
  set_groupBy (sb_groupBy b ++ columns) b.

Fixpoint safe_items (d : Dialect) (order : list string) : list string :=
  match order with
  | [] => []
  | item :: order =>
      match BuildSafeOrderByItem d item with
      | Err _ => safe_items d order
      | Ok safeItem => safeItem :: safe_items d order
      end
  end.

Definition OrderBy (order : list string) (b : SelectBuilder) : SelectBuilder :=
  set_orderBy (sb_orderBy b ++ safe_items (sb_dialect b) order) b.

Definition OrderByRaw (order : list string) (b : SelectBuilder) : SelectBuilder :=
  set_orderBy (sb_orderBy b ++ order) b.

Definition OrderByAsc (column : string) (b : SelectBuilder) : SelectBuilder :=
  set_orderBy (sb_orderBy b ++ [QuoteIdentifier (sb_dialect b) column +:+ " ASC"]) b.

Definition OrderByDesc (column : string) (b : SelectBuilder) : SelectBuilder :=
  set_orderBy (sb_orderBy b ++ [QuoteIdentifier (sb_dialect b) column +:+ " DESC"]) b.

Definition Limit (limit : Z) : SelectBuilder → SelectBuilder := set_limit limit.
Definition Offset (offset : Z) : SelectBuilder → SelectBuilder := set_offset offset.

Definition ForUpdate (b : SelectBuilder) : SelectBuilder :=
  set_lockMode (LockForUpdate (sb_dialect b)) b.

Definition for_update_with (suffix : string) (b : SelectBuilder) : SelectBuilder :=
  let lock := LockForUpdate (sb_dialect b) in
  set_lockMode (if decide (lock = "") then lock else lock +:+ " " +:+ suffix) b.

Definition ForUpdateNowait : SelectBuilder → SelectBuilder := for_update_with "NOWAIT".
Definition ForUpdateSkipLocked : SelectBuilder → SelectBuilder := for_update_with "SKIP LOCKED".

Definition Select_LockInShareMode (b : SelectBuilder) : SelectBuilder :=
  set_lockMode (LockInShareMode (sb_dialect b)) b.

Definition Lock (lockMode : string) : SelectBuilder → SelectBuilder := set_lockMode lockMode.

(** [Table]: the table of a builder, quoted again. *)
Definition Select_Table (table : string) : SelectBuilder → SelectBuilder := set_table table false [].

(** [Reset]: the table, the common table expressions and the UNION branches
    stay. *)
Definition Select_Reset (b : SelectBuilder) : SelectBuilder :=
  MkSelect (sb_table b) (sb_rawTable b) (sb_tableArgs b) ["*"] [] (NewWhereBuilder (Some (sb_dialect b)))
    [] (NewWhereBuilder (Some (sb_dialect b))) [] 0 0 "" (sb_dialect b) (sb_ctes b) (sb_unions b) [].

Definition AddAppliedScope (scopeName : string) (b : SelectBuilder) : SelectBuilder :=
  set_scopes (sb_appliedScopes b ++ [scopeName]) b.

Definition HasAppliedScope (scopeName : string) (b : SelectBuilder) : bool :=
  existsb (λ scope, bool_decide (scope = scopeName)) (sb_appliedScopes b).

Definition ClearAppliedScopes : SelectBuilder → SelectBuilder := set_scopes [].

(** ** Clone and the aggregates *)

(** [Clone] allocates: the builders of the common table expressions are
    cloned, the addresses of the UNION branches are copied. *)
Fixpoint clone_ctes
    (clone : gmap ptr SelectBuilder → ptr → option (gmap ptr SelectBuilder * ptr))
    (h : gmap ptr SelectBuilder) (cs : list cteClause) :
    option (gmap ptr SelectBuilder * list cteClause) :=
  match cs with
  | [] => Some (h, [])
  | c :: cs =>
      match clone h (cte_query c) with
      | None => None
      | Some (h, q) =>
          match clone_ctes clone h cs with
          | None => None
          | Some (h, cs) => Some (h, MkCTE (cte_name c) q (cte_recursive c) :: cs)
          end
      end
  end.

Fixpoint Select_Clone (fuel : nat) (h : gmap ptr SelectBuilder) (p : ptr) : option (gmap ptr SelectBuilder * ptr) :=
  match fuel with
  | 0 => None
  | S fuel =>
      match h !! p with
      | None => None
      | Some b =>
          match clone_ctes (Select_Clone fuel) h (sb_ctes b) with
          | None => None
          | Some (h, cs) => let n := fresh (dom h) in Some (<[n := set_ctes cs b]> h, n)
          end
      end
  end.

(** The columns of the aggregates [Count], [CountColumn], [Sum], [Avg], [Max] and [Min] put in a
    clone. *)
Definition count_columns : list string := ["COUNT(*)"].

Definition aggregate_columns (function column : string) (b : SelectBuilder) : list string :=
  [function +:+ "(" +:+ QuoteIdentifier (sb_dialect b) column +:+ ")"].

Definition select_aggregate (columns : SelectBuilder → list string) (fuel : nat)
    (h : gmap ptr SelectBuilder) (p : ptr) : option (gmap ptr SelectBuilder * ptr) :=
  match Select_Clone fuel h p with
  | None => None
  | Some (h, n) => Some (alter (λ b, set_columns (columns b) b) n h, n)
  end.

Definition Count : nat → gmap ptr SelectBuilder → ptr → option (gmap ptr SelectBuilder * ptr) :=
  select_aggregate (λ _, count_columns).

(** [CountColumn], [Sum], [Avg], [Max] and [Min]. *)
Definition aggregate (function column : string) :
    nat → gmap ptr SelectBuilder → ptr → option (gmap ptr SelectBuilder * ptr) :=
  select_aggregate (aggregate_columns function column).

(** [WithRecursive]: a clone of the seed with the recursive part as a UNION
    ALL branch. *)
Definition WithRecursive (fuel : nat) (name : string) (seed recursive : option ptr) (p : ptr)
    (h : gmap ptr SelectBuilder) : option (gmap ptr SelectBuilder) :=
  let name := TrimSpace name in
  match seed, recursive with
  | Some seed, Some recursive =>
      if decide (name = "") then Some h
      else
        match Select_Clone fuel h seed with
        | None => None
        | Some (h, combined) =>
            let h := alter (UnionAll (Some recursive)) combined h in
            Some (alter (λ b, set_ctes (sb_ctes b ++ [MkCTE name combined true]) b) p h)
        end
  | _, _ => Some h
  end.

End Select.
Arguments JoinOnBuilder V : clear implicits.
Arguments SelectBuilder V : clear implicits.

(** The store of builders. *)
Abbreviation heap V := (gmap ptr (SelectBuilder V)).
