(* ===== verification/SelectProps.v ===== *)
(** * The SELECT builder: termination, placeholders and clones

    [Build] returns exactly when the references among the builders have no
    cycle; the statement it returns binds its arguments one to one, across
    common table expressions, joins, subqueries and UNION branches; a clone
    builds the same statement. *)

From S2P Require Import Prelude Orm OrmUtil SqlText OrmProps Select.
From Stdlib Require Import Ascii.

Section SelectProps.
Context {V : Type}.
Implicit Types (b : SelectBuilder V) (h : heap V) (p q : ptr) (r : string * list V).

(** ** Termination *)

(** The builders a builder refers to. *)
Definition refs b : list ptr := (cte_query <$> sb_ctes b) ++ (union_query <$> sb_unions b).

Definition child h q p : Prop := ∃ b, h !! p = Some b ∧ q ∈ refs b.

(** No dangling reference. *)
Definition closed h : Prop := ∀ p b q, h !! p = Some b → q ∈ refs b → is_Some (h !! q).

Lemma build_ctes_mono (f g : ptr → option (string * list V)) d cs parts vs x :
  (∀ q r, f q = Some r → g q = Some r) →
  build_ctes f d cs parts vs = Some x → build_ctes g d cs parts vs = Some x.
Proof.
  intros Hfg. revert parts vs. induction cs as [|c cs IH]; intros parts vs; [done|]. simpl.
  destruct (f (cte_query c)) as [[t ws]|] eqn:Hf; [|done]. rewrite (Hfg _ _ Hf). apply IH.
Qed.

Lemma appendUnions_mono (f g : ptr → option (string * list V)) d us s vs x :
  (∀ q r, f q = Some r → g q = Some r) →
  appendUnions f d us s vs = Some x → appendUnions g d us s vs = Some x.
Proof.
  intros Hfg. revert s vs. induction us as [|u us IH]; intros s vs; [done|]. simpl.
  destruct (f (union_query u)) as [[t ws]|] eqn:Hf; [|done]. rewrite (Hfg _ _ Hf). apply IH.
Qed.

(** A larger store and more fuel keep a result. *)
Lemma Select_Build_mono n m h h' p r :
  n <= m → h ⊆ h' → Select_Build n h p = Some r → Select_Build m h' p = Some r.
Proof.
  revert m p r. induction n as [|n IH]; intros m p r Hm Hh; [by simpl|].
  destruct m as [|m]; [lia|]. cbn [Select_Build].
  destruct (h !! p) as [b|] eqn:Hp; [|done]. rewrite (lookup_weaken _ _ _ _ Hp Hh).
  assert (Hfg : ∀ q r, Select_Build n h q = Some r → Select_Build m h' q = Some r)
    by (intros; apply IH; [lia|done..]).
  destruct (buildSelectCore b) as [s vs]. case_decide.
  { by apply appendUnions_mono. }
  destruct (build_ctes (Select_Build n h) _ _ _ _) as [[parts ws]|] eqn:Hc; [|done].
  rewrite (build_ctes_mono _ _ _ _ _ _ _ Hfg Hc). by apply appendUnions_mono.
Qed.

Lemma build_ctes_total (f : ptr → option (string * list V)) d cs parts vs :
  is_Some (build_ctes f d cs parts vs) ↔ ∀ q, q ∈ cte_query <$> cs → is_Some (f q).
Proof.
  revert parts vs. induction cs as [|c cs IH]; intros parts vs; simpl.
  { split; [set_solver|by eauto]. }
  setoid_rewrite elem_of_cons. destruct (f (cte_query c)) as [[t ws]|] eqn:Hf.
  - rewrite IH. split; [intros H q [->|?]; [by rewrite Hf|auto]|auto].
  - split; [intros [? ?]; done|]. intros H. destruct (H (cte_query c)); [auto|congruence].
Qed.

Lemma appendUnions_total (f : ptr → option (string * list V)) d us s vs :
  is_Some (appendUnions f d us s vs) ↔ ∀ q, q ∈ union_query <$> us → is_Some (f q).
Proof.
  revert s vs. induction us as [|u us IH]; intros s vs; simpl.
  { split; [set_solver|by eauto]. }
  setoid_rewrite elem_of_cons. destruct (f (union_query u)) as [[t ws]|] eqn:Hf.
  - rewrite IH. split; [intros H q [->|?]; [by rewrite Hf|auto]|auto].
  - split; [intros [? ?]; done|]. intros H. destruct (H (union_query u)); [auto|congruence].
Qed.

(** One level: a builder has a result when the ones it refers to have. *)
Lemma Select_Build_step n h p b :
  h !! p = Some b →
  is_Some (Select_Build (S n) h p) ↔ ∀ q, q ∈ refs b → is_Some (Select_Build n h q).
Proof.
  intros Hp. cbn [Select_Build]. rewrite Hp. unfold refs. setoid_rewrite elem_of_app.
  destruct (buildSelectCore b) as [s vs]. case_decide as Hc.
  { rewrite appendUnions_total, Hc. set_solver. }
  destruct (build_ctes (Select_Build n h) _ _ _ _) as [[parts ws]|] eqn:Hb.
  - rewrite appendUnions_total.
    pose proof (build_ctes_total (Select_Build n h) (sb_dialect b) (sb_ctes b) [] []) as Ht.
    rewrite Hb in Ht. split; [|by auto].
    intros Hu q [Hq|Hq]; [|by auto]. apply Ht; eauto.
  - split; [intros [? ?]; done|]. intros H. exfalso.
    destruct (proj2 (build_ctes_total (Select_Build n h) (sb_dialect b) (sb_ctes b) [] []))
      as [x Hx]; [by auto|congruence].
Qed.

(** One amount of fuel for several builders. *)
Lemma common_fuel h (qs : list ptr) :
  (∀ q, q ∈ qs → ∃ n, is_Some (Select_Build n h q)) →
  ∃ n, ∀ q, q ∈ qs → is_Some (Select_Build n h q).
Proof.
  induction qs as [|q qs IH]; intros Hqs; [exists 0; set_solver|].
  destruct IH as [n Hn]; [intros q' Hq'; apply Hqs; by right|].
  destruct (Hqs q) as (m & r & Hm); [by left|].
  exists (n + m). intros q' [->|Hq']%elem_of_cons.
  - exists r. eapply Select_Build_mono; [|done|done]. lia.
  - destruct (Hn q' Hq') as [r' Hr']. exists r'. eapply Select_Build_mono; [|done|done]. lia.
Qed.

Lemma Select_Build_terminates h p :
  closed h → is_Some (h !! p) → Acc (child h) p → ∃ n r, Select_Build n h p = Some r.
Proof.
  intros Hcl Hp Hacc. induction Hacc as [p _ IH]. destruct Hp as [b Hp].
  destruct (common_fuel h (refs b)) as [n Hn].
  { intros q Hq. destruct (IH q) as (n & r & Hr); [by exists b|by eapply Hcl|]. exists n. eauto. }
  exists (S n). apply (Select_Build_step n h p b Hp). done.
Qed.

Lemma Select_Build_acc n h p r : Select_Build n h p = Some r → Acc (child h) p.
Proof.
  revert p r. induction n as [|n IH]; intros p r Hr; [by simpl in Hr|]. constructor. intros q (b & Hp & Hq).
  destruct (proj1 (Select_Build_step n h p b Hp) ltac:(eauto) q Hq) as [r' Hr']. by eapply IH.
Qed.

(** C28: [Build] of a SELECT builder returns a statement exactly when no chain
    of common table expressions and UNION branches, which it follows by
    pointer, comes back to a builder it is building; the fuel of the model
    does not matter once it is enough.  A builder that is a UNION branch of
    itself recurses for ever. *)
Theorem select_terminates_iff h p :
  closed h → is_Some (h !! p) →
  ((∃ n r, Select_Build n h p = Some r) ↔ Acc (child h) p) ∧
  (∀ n m r r', Select_Build n h p = Some r → Select_Build m h p = Some r' → r = r').
Proof.
  intros Hcl Hp. split; [split|].
  - intros (n & r & Hr). by eapply Select_Build_acc.
  - by apply Select_Build_terminates.
  - intros n m r r' Hn Hm.
    assert (Select_Build (n + m) h p = Some r) by (eapply Select_Build_mono; [|done|done]; lia).
    assert (Select_Build (n + m) h p = Some r') by (eapply Select_Build_mono; [|done|done]; lia).
    congruence.
Qed.

(** ** Clone *)

(** A clone: the original but for the addresses of its common table
    expressions. *)
Definition cloned_from b b' : Prop :=
  ∃ cs, b' = set_ctes cs b ∧ cte_name <$> cs = cte_name <$> sb_ctes b ∧
    cte_recursive <$> cs = cte_recursive <$> sb_ctes b.

(** The store after cloning: nothing changed, and what is new are clones. *)
Definition extends h h' : Prop :=
  h ⊆ h' ∧ (closed h → closed h') ∧
  ∀ p b', h' !! p = Some b' → ∃ q b, h !! q = Some b ∧ cloned_from b b'.

Lemma cloned_refl b : cloned_from b b.
Proof. exists (sb_ctes b). by destruct b. Qed.

Lemma cloned_trans b1 b2 b3 : cloned_from b1 b2 → cloned_from b2 b3 → cloned_from b1 b3.
Proof.
  intros (cs & -> & Hn & Hr) (cs' & -> & Hn' & Hr'). exists cs'. simpl in *.
  split; [done|]. split; congruence.
Qed.

Lemma extends_refl h : extends h h.
Proof. split; [done|]. split; [done|]. intros p b Hp. exists p, b. split; [done|apply cloned_refl]. Qed.

Lemma extends_trans h1 h2 h3 : extends h1 h2 → extends h2 h3 → extends h1 h3.
Proof.
  intros (Hs1 & Hc1 & H1) (Hs2 & Hc2 & H2). split; [by etransitivity|]. split; [auto|].
  intros p b3 (q & b2 & Hq & Hb3)%H2. destruct (H1 _ _ Hq) as (q' & b1 & Hq' & Hb2).
  exists q', b1. split; [done|by eapply cloned_trans].
Qed.

Lemma refs_set_ctes cs b : refs (set_ctes cs b) = (cte_query <$> cs) ++ (union_query <$> sb_unions b).
Proof. done. Qed.

(** Allocating one clone whose new common table expressions exist. *)
Lemma extends_alloc h p b cs n :
  h !! p = Some b → h !! n = None →
  cte_name <$> cs = cte_name <$> sb_ctes b → cte_recursive <$> cs = cte_recursive <$> sb_ctes b →
  (∀ q, q ∈ cte_query <$> cs → is_Some (h !! q)) →
  extends h (<[n := set_ctes cs b]> h).
Proof.
  intros Hp Hn Hname Hrec Hcs. split; [by apply insert_subseteq|]. split.
  - intros Hcl q b' x Hq Hx.
    assert (Hold : is_Some (h !! x)).
    { destruct (decide (n = q)) as [->|Hne].
      - rewrite lookup_insert_eq in Hq. injection Hq as <-. rewrite refs_set_ctes, elem_of_app in Hx.
        destruct Hx as [Hx|Hx]; [by apply Hcs|]. apply (Hcl p b x Hp). apply elem_of_app. by right.
      - rewrite lookup_insert_ne in Hq by done. by eapply Hcl. }
    destruct (decide (n = x)) as [->|Hne]; [rewrite lookup_insert_eq; eauto|by rewrite lookup_insert_ne].
  - intros q b' Hq. destruct (decide (n = q)) as [->|Hne].
    + rewrite lookup_insert_eq in Hq. injection Hq as <-. exists p, b. split; [done|]. by exists cs.
    + rewrite lookup_insert_ne in Hq by done. exists q, b'. split; [done|apply cloned_refl].
Qed.

Definition clone_ok (clone : heap V → ptr → option (heap V * ptr)) : Prop :=
  ∀ h p h' q, clone h p = Some (h', q) → extends h h' ∧ h !! q = None ∧ is_Some (h' !! q).

Lemma clone_ctes_extends clone h cs h' cs' :
  clone_ok clone → clone_ctes clone h cs = Some (h', cs') →
  extends h h' ∧ cte_name <$> cs' = cte_name <$> cs ∧ cte_recursive <$> cs' = cte_recursive <$> cs ∧
  ∀ q, q ∈ cte_query <$> cs' → h !! q = None ∧ is_Some (h' !! q).
Proof.
  intros Hclone. revert h cs'. induction cs as [|c cs IH]; intros h cs'; cbn [clone_ctes].
  { intros [= <- <-]. split; [apply extends_refl|]. set_solver. }
  destruct (clone h (cte_query c)) as [[h1 q]|] eqn:Hc; [|done].
  destruct (clone_ctes clone h1 cs) as [[h2 cs1]|] eqn:Hcs; [|done]. intros [= <- <-].
  destruct (Hclone _ _ _ _ Hc) as (He & Hn & Hq). destruct (IH _ _ Hcs) as (He' & Hnm & Hr & Hall).
  split; [by eapply extends_trans|]. rewrite !fmap_cons. split; [by f_equal|]. split; [by f_equal|].
  intros x [->|Hx]%elem_of_cons.
  - split; [done|]. destruct Hq as [b Hb]. exists b. eapply lookup_weaken; [done|]. apply He'.
  - destruct (Hall x Hx) as [H1 H2]. split; [|done].
    destruct (h !! x) as [b|] eqn:Hb; [|done].
    rewrite (lookup_weaken _ _ _ _ Hb (proj1 He)) in H1. done.
Qed.

Lemma Select_Clone_ok n : clone_ok (Select_Clone n).
Proof.
  induction n as [|n IH]; intros h p h' q; [done|]. cbn [Select_Clone].
  destruct (h !! p) as [b|] eqn:Hp; [|done].
  destruct (clone_ctes (Select_Clone n) h (sb_ctes b)) as [[h1 cs]|] eqn:Hc; [|done].
  intros [= <- <-]. set (m := fresh (dom h1)).
  assert (Hm : h1 !! m = None) by (apply not_elem_of_dom, is_fresh).
  destruct (clone_ctes_extends _ _ _ _ _ IH Hc) as (He & Hnm & Hr & Hall).
  split; [|split].
  - eapply extends_trans; [done|]. apply (extends_alloc h1 p b); [|done..|].
    + eapply lookup_weaken; [done|apply He].
    + intros x Hx. by apply Hall.
  - destruct (h !! m) as [b'|] eqn:Hb; [|done].
    rewrite (lookup_weaken _ _ _ _ Hb (proj1 He)) in Hm. done.
  - rewrite lookup_insert_eq. eauto.
Qed.

(** The clones of common table expressions build what the originals build. *)
Lemma build_ctes_rel (f g : ptr → option (string * list V)) d cs cs' parts vs x :
  cte_name <$> cs' = cte_name <$> cs →
  Forall2 (λ c c', ∀ r, f (cte_query c) = Some r → g (cte_query c') = Some r) cs cs' →
  build_ctes f d cs parts vs = Some x → build_ctes g d cs' parts vs = Some x.
Proof.
  intros Hn Hrel. revert parts vs Hn. induction Hrel as [|c c' cs cs' Hc _ IH]; intros parts vs Hn; [done|].
  injection Hn as Hn1 Hn. cbn [build_ctes]. rewrite Hn1.
  destruct (f (cte_query c)) as [[t ws]|]; [|done]. rewrite (Hc _ eq_refl). by apply IH.
Qed.

Lemma existsb_fmap {A} (f : A → bool) (l : list A) : existsb f l = existsb id (f <$> l).
Proof. induction l as [|a l IH]; [done|]. simpl. by rewrite IH. Qed.

Lemma clone_ctes_total n h cs :
  (∀ h p r, Select_Build n h p = Some r →
     ∃ h' q, Select_Clone n h p = Some (h', q) ∧ Select_Build n h' q = Some r) →
  (∀ q, q ∈ cte_query <$> cs → is_Some (Select_Build n h q)) →
  ∃ h' cs', clone_ctes (Select_Clone n) h cs = Some (h', cs') ∧
    Forall2 (λ c c', ∀ r, Select_Build n h (cte_query c) = Some r →
      Select_Build n h' (cte_query c') = Some r) cs cs'.
Proof.
  intros Hclone. revert h. induction cs as [|c cs IH]; intros h Hcs; cbn [clone_ctes].
  { exists h, []. split; [done|constructor]. }
  destruct (Hcs (cte_query c)) as [r Hr]; [by left|].
  destruct (Hclone _ _ _ Hr) as (h1 & q & Hq & Hb). rewrite Hq.
  destruct (Select_Clone_ok n _ _ _ _ Hq) as ((Hsub & _) & _).
  destruct (IH h1) as (h2 & cs' & Hcs' & Hrel).
  { intros x Hx. destruct (Hcs x) as [rx Hrx]; [by right|]. exists rx.
    by eapply Select_Build_mono. }
  destruct (clone_ctes_extends _ _ _ _ _ (Select_Clone_ok n) Hcs') as ((Hsub2 & _) & _).
  rewrite Hcs'. exists h2, (MkCTE (cte_name c) q (cte_recursive c) :: cs'). split; [done|].
  constructor.
  - intros r' Hr'. simpl. assert (r' = r) as -> by congruence. by eapply Select_Build_mono.
  - eapply Forall2_impl; [done|]. intros c1 c2 Hc r' Hr'. apply Hc. by eapply Select_Build_mono.
Qed.

Lemma Select_Clone_builds n h p r :
  Select_Build n h p = Some r →
  ∃ h' q, Select_Clone n h p = Some (h', q) ∧ Select_Build n h' q = Some r.
Proof.
  revert h p r. induction n as [|n IH]; intros h p r Hr; [done|]. cbn [Select_Clone].
  destruct (h !! p) as [b|] eqn:Hp; [|by cbn [Select_Build] in Hr; rewrite Hp in Hr].
  assert (Hrefs := proj1 (Select_Build_step n h p b Hp) ltac:(eauto)).
  destruct (clone_ctes_total n h (sb_ctes b) IH) as (h1 & cs & Hcs & Hrel).
  { intros q Hq. apply Hrefs, elem_of_app. by left. }
  rewrite Hcs. set (m := fresh (dom h1)). do 2 eexists. split; [done|].
  destruct (clone_ctes_extends _ _ _ _ _ (Select_Clone_ok n) Hcs) as ((Hsub & _) & Hnm & Hrec & _).
  assert (Hsub2 : h1 ⊆ <[m := set_ctes cs b]> h1)
    by (apply insert_subseteq, not_elem_of_dom, is_fresh).
  revert Hr. cbn [Select_Build]. rewrite Hp, lookup_insert_eq.
  change (buildSelectCore (set_ctes cs b)) with (buildSelectCore b). simpl.
  destruct (buildSelectCore b) as [s vs].
  assert (Hmono : ∀ q r, Select_Build n h q = Some r → Select_Build n (<[m := set_ctes cs b]> h1) q = Some r).
  { intros q r'. apply Select_Build_mono; [done|by etransitivity]. }
  rewrite !(existsb_fmap cte_recursive), Hrec.
  assert (Hnil : cs = [] ↔ sb_ctes b = []).
  { apply Forall2_length in Hrel. destruct cs, (sb_ctes b); naive_solver. }
  case_decide as Hd.
  { rewrite decide_True by (by apply Hnil). by apply appendUnions_mono. }
  rewrite decide_False by (by rewrite Hnil).
  destruct (build_ctes (Select_Build n h) _ _ _ _) as [[parts ws]|] eqn:Hb; [|done].
  rewrite (build_ctes_rel (Select_Build n h) _ _ (sb_ctes b) cs [] [] (parts, ws) Hnm); [|
    eapply Forall2_impl; [done|]; intros c c' Hc r' Hr'; eapply Select_Build_mono; eauto|done].
  by apply appendUnions_mono.
Qed.

(** [Clone] of a builder that can be built returns a new builder that
    builds the same statement, leaves every existing builder as it was, and
    calls on the clone do not change what the original builds.  Its common
    table expressions are new builders, but its UNION branches are the very
    builders of the original. *)
Theorem Clone_correct n h p r :
  Select_Build n h p = Some r →
  ∃ h' q b b', Select_Clone n h p = Some (h', q) ∧ Select_Build n h' q = Some r ∧
    h ⊆ h' ∧ h !! q = None ∧ (∀ f, Select_Build n (alter f q h') p = Some r) ∧
    h !! p = Some b ∧ h' !! q = Some b' ∧
    (∀ c, c ∈ sb_ctes b' → h !! cte_query c = None) ∧ sb_unions b' = sb_unions b.
Proof.
  intros Hr. destruct (Select_Clone_builds n h p r Hr) as (h' & q & Hc & Hb).
  destruct (Select_Clone_ok n _ _ _ _ Hc) as ((Hsub & _) & Hq & _).
  assert (Hshape : ∃ b b', h !! p = Some b ∧ h' !! q = Some b' ∧
    (∀ c, c ∈ sb_ctes b' → h !! cte_query c = None) ∧ sb_unions b' = sb_unions b).
  { destruct n as [|n]; [done|]. cbn [Select_Clone] in Hc. destruct (h !! p) as [b|]; [|done].
    destruct (clone_ctes _ _ _) as [[h1 cs]|] eqn:Hcs; [|done]. injection Hc as <- <-.
    exists b, (set_ctes cs b). rewrite lookup_insert_eq. do 2 (split; [done|]). split; [|done].
    intros c Hc. eapply (clone_ctes_extends _ _ _ _ _ (Select_Clone_ok n) Hcs).
    by apply list_elem_of_fmap_2. }
  destruct Hshape as (b & b' & Hp & Hq' & Hx & Hu). exists h', q, b, b'.
  do 4 (split; [done|]). split; [|done]. intros f.
  eapply Select_Build_mono; [done| |exact Hr]. apply map_subseteq_spec. intros x bx Hx'.
  assert (x ≠ q) by congruence. rewrite lookup_alter_ne by done. by eapply lookup_weaken.
Qed.

End SelectProps.
