(* ===== verification/SelectNumbering.v ===== *)
(** * The SELECT builder: placeholders and arguments

    The statement a builder returns binds its arguments one to one, whatever
    methods filled the builders it is put together from. *)

From S2P Require Import Prelude Orm OrmUtil SqlText OrmProps Select SelectProps.
From Stdlib Require Import Ascii.

Section Numbering.
Context {V : Type} (d : Dialect) `{Hd : !SqlDialect d}.
Implicit Types (b : SelectBuilder V) (h : heap V) (p q : ptr).

Abbreviation small vs := (Z.of_nat (length vs) <= GoInt.maxInt64)%Z.

(** ** Well-formed builders *)

(** The text of a table: plain when it is quoted, a numbered text of its own
    when it is raw. *)
Definition wf_table (raw : bool) (table : string) (vs : list V) : Prop :=
  if raw then numbered d 0 (length vs) table else plain d table.

Record wf_join (j : Join V) : Prop := {
  wfj_type : plain d (Type_ j);
  wfj_table : wf_table (RawTable j) (Table j) (TableArgs j);
  wfj_condition : clean d (Condition j) ∧ count_q (Condition j) = length (Args j)
}.

Record wf_select b : Prop := {
  wf_dialect : sb_dialect b = d;
  wf_from : wf_table (sb_rawTable b) (sb_table b) (sb_tableArgs b);
  wf_from_args : sb_rawTable b = false → sb_tableArgs b = [];
  wf_columns : Forall (plain d) (sb_columns b);
  wf_joins : Forall wf_join (sb_joins b);
  wf_groupBy : Forall (plain d) (sb_groupBy b);
  wf_orderBy : Forall (plain d) (sb_orderBy b);
  wf_lock : plain d (sb_lockMode b);
  wf_ctes : Forall (λ c, plain d (cte_name c)) (sb_ctes b)
}.

(** ** Conditions that number themselves

    A raw condition keeps its question marks until the statement is built and
    can be numbered from any index.  A typed condition ([Eq], [In],
    [Between], a subquery, ...) writes its placeholders when it is added,
    numbered after the arguments its WHERE builder already has.  A clause is
    ordered when it has raw conditions first and typed ones after them; then
    the numbers are right if no argument of the statement comes before the
    clause. *)

Inductive ordered : WhereBuilder V → Prop :=
| ordered_raw w : built d w → ordered w
| ordered_plain c w : ordered w → plain d c → ordered (Where c [] w)
| ordered_connect word c w : ordered w → plain d word → plain d c → ordered (connect word c [] w)
| ordered_compare op col v w :
    ordered w → plain d op → plain d col → ordered (compare_op op col v w)
| ordered_in op empty col vs w :
    ordered w → plain d op → plain d empty → plain d col → ordered (in_op op empty col vs w)
| ordered_between op col lo hi w :
    ordered w → plain d op → plain d col → ordered (between_op op col lo hi w)
| ordered_subquery op t vs w :
    ordered w → plain d op → numbered d 0 (length vs) t → small (args w ++ vs) →
    ordered (exists_subquery op (Some (t, vs)) w).

(** The arguments of a statement before its WHERE clause. *)
Definition join_args (j : Join V) : list V := (if RawTable j then TableArgs j else []) ++ Args j.
Definition before_where b : list V := sb_tableArgs b ++ (sb_joins b ≫= join_args).

(** Both clauses are ordered, and one that numbers itself has no argument
    before it. *)
Record in_order b : Prop := {
  io_where : ordered (sb_where b);
  io_having : ordered (sb_having b);
  io_before : built d (sb_where b) ∨ before_where b = [];
  io_between : built d (sb_having b) ∨ before_where b ++ args (sb_where b) = []
}.

Definition wf_heap h : Prop := ∀ p b, h !! p = Some b → wf_select b ∧ in_order b.

Lemma numbered_placeholder k : numbered d k 1 (Placeholder d k).
Proof.
  exists "?". split; [cbn; by rewrite app_nil_string|]. split; [by intros _|done].
Qed.

Lemma numbered_placeholders k n : numbered d k n (placeholders d k n).
Proof.
  unfold placeholders. revert k. induction n as [|n IH]; intros k.
  { by apply numbered_plain. }
  replace ((λ i, Placeholder d (k + Z.of_nat i)%Z) <$> seq 0 (S n))
    with (Placeholder d k :: ((λ i, Placeholder d (k + 1 + Z.of_nat i)%Z) <$> seq 0 n)).
  2: { cbn. f_equal; [f_equal; lia|]. rewrite <- seq_shift, <- list_fmap_compose.
       apply list_fmap_ext. intros _ i _. cbn. f_equal. lia. }
  specialize (IH (k + 1)%Z). destruct n as [|n]; [apply numbered_placeholder|].
  change (seq 0 (S n)) with (0 :: seq 1 n) in *. rewrite fmap_cons in *. rewrite concat_cons_string.
  by apply (numbered_glue d k 1 (S n) (k + 1)); [apply numbered_placeholder|done|exact IH|].
Qed.

(** What an ordered clause means: its text, with the remaining question marks
    replaced, is numbered from one. *)
Record self_numbered (w : WhereBuilder V) : Prop := {
  sn_dialect : dialect w = d;
  sn_empty : conditions w = [] → args w = [];
  sn_text : numbered d 0 (length (args w)) (String.concat " " (number_conditions d 0 (conditions w)))
}.

Lemma number_twice i k s : number (Placeholder d) i (number (Placeholder d) k s) = number (Placeholder d) k s.
Proof.
  destruct (dialect_good d) as [Hp|Hp]; [|by rewrite !number_same].
  apply number_plain. revert k. induction s as [|a s IH]; intros k; [done|]. cbn [number].
  destruct (Ascii.eqb a "?") eqn:Ha; [by apply no_q_app|]. unfold no_q. cbn [count_char]. rewrite Ha. apply IH.
Qed.

Lemma concat_snoc sep ss x :
  String.concat sep (ss ++ [x]) =
  if decide (ss = []) then x else String.concat sep ss +:+ sep +:+ x.
Proof.
  induction ss as [|s ss IH]; [done|]. rewrite decide_False by done.
  destruct ss as [|s' ss]; [done|]. rewrite decide_False in IH by done.
  change ((s :: s' :: ss) ++ [x]) with (s :: s' :: (ss ++ [x])).
  rewrite !concat_cons_string. change (s' :: ss ++ [x]) with ((s' :: ss) ++ [x]). rewrite IH.
  by rewrite !app_assoc_string.
Qed.

Lemma number_conditions_snoc i cs c :
  ∃ j, number_conditions d i (cs ++ [c]) = number_conditions d i cs ++ [number (Placeholder d) j c].
Proof.
  revert i. induction cs as [|c' cs IH]; intros i; cbn [number_conditions app].
  - exists i. by rewrite replace_n_number by apply dialect_good, _.
  - edestruct IH as [j ->]. by exists j.
Qed.

Lemma self_numbered_add w c vs :
  self_numbered w → numbered d (nargs w) (length vs) c →
  self_numbered (MkWhere (conditions w ++ [c]) (args w ++ vs) (dialect w)).
Proof.
  intros [Hdl He Ht] Hc. split; cbn; [done|by destruct (conditions w)|].
  destruct (number_conditions_snoc 0 (conditions w) c) as [j ->].
  assert (number (Placeholder d) j c = c) as -> by (destruct Hc as (s & -> & _); apply number_twice).
  rewrite concat_snoc, length_app. case_decide as Hn.
  - destruct (conditions w); [|done]. unfold nargs in Hc. by rewrite He in *.
  - by eapply numbered_glue.
Qed.

Lemma self_numbered_plain w c :
  self_numbered w → plain d c → self_numbered (MkWhere (conditions w ++ [c]) (args w) (dialect w)).
Proof.
  intros Hw Hc. pose proof (self_numbered_add w c [] Hw (numbered_plain d _ c Hc)) as H.
  by rewrite app_nil_r in H.
Qed.

Lemma numbered_close k n s : numbered d k n s → numbered d k n (s +:+ ")").
Proof. intros Hs. rewrite <- (app_nil_string ")"). by apply numbered_suffix. Qed.

Lemma ordered_self_numbered w : ordered w → self_numbered w.
Proof.
  induction 1 as [w Hw|c w _ IH Hc|word c w _ IH Hw Hc|op col v w _ IH Ho Hc|op e col vs w _ IH Ho He Hc
    |op col lo hi w _ IH Ho Hc|op q vs w _ IH Ho Hq Hs].
  - apply built_balanced in Hw as (Hdl & Hcl & Hn); [|done]. split; [done| |].
    + intros He. rewrite He in Hn. by apply nil_length_inv.
    + rewrite number_conditions_concat by apply dialect_good, _. eexists. split; [done|].
      split; [by apply clean_concat|by rewrite count_q_concat].
  - unfold Where. rewrite app_nil_r. by apply self_numbered_plain.
  - unfold connect. rewrite app_nil_r. apply self_numbered_plain; [done|].
    case_decide; [done|]. apply plain_app; [done|by apply plain_app].
  - apply self_numbered_add; [done|]. rewrite (sn_dialect _ IH).
    do 4 (apply numbered_prefix; [first [done | by apply dialect_quote]|]). apply numbered_placeholder.
  - unfold in_op, Where. case_decide; cbn; rewrite app_nil_r; [by apply self_numbered_plain|].
    apply self_numbered_add; [done|]. rewrite (sn_dialect _ IH).
    do 4 (apply numbered_prefix; [first [done | by apply dialect_quote]|]).
    apply numbered_close, numbered_placeholders.
  - unfold between_op, Where. cbn. rewrite app_nil_r. apply self_numbered_add; [done|].
    rewrite (sn_dialect _ IH). do 4 (apply numbered_prefix; [first [done | by apply dialect_quote]|]).
    by eapply (numbered_glue d _ 1 1); [apply numbered_placeholder|done|apply numbered_placeholder|].
  - unfold exists_subquery. apply self_numbered_add; [done|]. rewrite (sn_dialect _ IH).
    do 2 (apply numbered_prefix; [done|]). rewrite length_app in Hs. unfold nargs.
    apply numbered_close, numbered_shift; [done|done|lia..].
Qed.

(** ** The core of the statement *)

Lemma plain_concat sep ss : plain d sep → Forall (plain d) ss → plain d (String.concat sep ss).
Proof.
  intros Hsep Hss. induction Hss as [|s ss Hs Hss IH]; [done|]. destruct ss as [|s' ss]; [done|].
  rewrite concat_cons_string. apply plain_app; [done|]. by apply plain_app.
Qed.

Lemma plain_quoted ss : Forall (plain d) ss → Forall (plain d) (QuoteIdentifiers d ss).
Proof.
  intros Hss. apply Forall_fmap. eapply Forall_impl; [done|]. intros s. apply dialect_quote.
Qed.

Lemma plain_columns cs : Forall (plain d) cs → Forall (plain d) (quote_column d <$> cs).
Proof.
  intros Hcs. apply Forall_fmap. eapply Forall_impl; [done|]. intros c Hc. unfold compose, quote_column.
  case_match; [done|by apply dialect_quote].
Qed.

Lemma add_join_numbered s vs j :
  wf_join j → numbered d 0 (length vs) s →
  let '(s', vs') := add_join d (s, vs) j in
  length vs <= length vs' ∧ (small vs' → numbered d 0 (length vs') s').
Proof.
  intros [Ht Htab [Hcl Hcn]] Hs. unfold add_join.
  assert (Htable : ∃ ws t, (if RawTable j
      then (shiftPlaceholdersIfNeeded (Table j) d (Z.of_nat (length vs)), vs ++ TableArgs j)
      else (QuoteIdentifier d (Table j), vs)) = (t, vs ++ ws) ∧
    (small (vs ++ ws) → numbered d (Z.of_nat (length vs)) (length ws) t)).
  { unfold wf_table in Htab. destruct (RawTable j).
    - do 2 eexists. split; [done|]. rewrite length_app. intros Hm. apply numbered_shift; [done|done|lia..].
    - exists [], (QuoteIdentifier d (Table j)). rewrite app_nil_r. split; [done|]. intros _.
      by apply numbered_plain, dialect_quote. }
  destruct Htable as (ws & t & -> & Hnum). split; [rewrite !length_app; lia|].
  intros Hm. rewrite !length_app in *. rewrite <- Hcn, <- Nat.add_assoc.
  eapply numbered_glue; [done|done| |done].
  apply numbered_prefix; [done|]. apply numbered_prefix; [done|].
  eapply numbered_glue; [apply Hnum; lia|done|by apply numbered_replace|lia].
Qed.

Lemma joins_length (js : list (Join V)) s vs :
  length vs <= length (fold_left (add_join d) js (s, vs)).2.
Proof.
  revert s vs. induction js as [|j js IH]; intros s vs; [done|]. cbn [fold_left].
  unfold add_join at 2. destruct (RawTable j); (etransitivity; [|apply IH]); rewrite !length_app; lia.
Qed.

Lemma joins_numbered js s vs :
  Forall wf_join js → numbered d 0 (length vs) s →
  let '(s', vs') := fold_left (add_join d) js (s, vs) in
  length vs <= length vs' ∧ (small vs' → numbered d 0 (length vs') s').
Proof.
  intros Hjs. revert s vs. induction Hjs as [|j js Hj Hjs IH]; intros s vs Hs; [done|].
  cbn [fold_left]. pose proof (add_join_numbered s vs j Hj Hs) as Ha.
  destruct (add_join d (s, vs) j) as [s1 vs1] eqn:He. destruct Ha as [Hl Hn].
  destruct (decide (small vs1)) as [Hsm|Hbig].
  - specialize (IH s1 vs1 (Hn Hsm)). destruct (fold_left _ js _) as [s' vs'].
    destruct IH as [Hl' Hn']. split; [lia|done].
  - pose proof (joins_length js s1 vs1) as Hlen.
    destruct (fold_left _ js _) as [s' vs']. simpl in Hlen.
    split; [lia|]. intros ?. lia.
Qed.

(** The WHERE and the HAVING clause: [g] is what is done with the clause. *)
Definition add_clause (g : string → string) (w : WhereBuilder V) (acc : string * list V) :
    string * list V :=
  let '(s, vs) := acc in
  let '(clause, ws) := BuildWithOffset (Z.of_nat (length vs)) w in
  if decide (clause = "") then (s, vs) else (s +:+ " " +:+ g clause, vs ++ ws).

Lemma add_clause_numbered g w s vs :
  (∀ k n x, numbered d k n x → numbered d k n (g ("WHERE " +:+ x))) → built d w →
  let '(s', vs') := add_clause g w (s, vs) in
  length vs <= length vs' ∧ (numbered d 0 (length vs) s → numbered d 0 (length vs') s').
Proof.
  intros Hg Hw%built_balanced; [|done]. unfold add_clause.
  destruct (decide (conditions w = [])) as [Hc|Hc].
  - unfold BuildWithOffset. rewrite !decide_True by done. done.
  - destruct (where_shape d (Z.of_nat (length vs)) w Hw Hc) as (x & -> & Hx).
    rewrite decide_False by done. rewrite length_app. split; [lia|]. intros Hs.
    by eapply numbered_glue; [done|done|apply Hg|].
Qed.

(** The same of an ordered clause, from the start of the statement. *)
Lemma clause_numbered g w s vs :
  (∀ k n x, numbered d k n x → numbered d k n (g ("WHERE " +:+ x))) →
  ordered w → built d w ∨ vs = [] →
  let '(s', vs') := add_clause g w (s, vs) in
  vs' = vs ++ args w ∧ (numbered d 0 (length vs) s → numbered d 0 (length vs') s').
Proof.
  intros Hg Ho Hor. pose proof (ordered_self_numbered w Ho) as [Hdl He Ht].
  destruct (decide (conditions w = [])) as [Hc|Hc].
  { unfold add_clause, BuildWithOffset. rewrite !decide_True by done. by rewrite He, app_nil_r. }
  assert (∃ x, BuildWithOffset (Z.of_nat (length vs)) w = ("WHERE " +:+ x, args w) ∧
            numbered d (Z.of_nat (length vs)) (length (args w)) x) as (x & Hx & Hn).
  { destruct Hor as [Hb| ->]; [by apply (where_shape d); [apply (built_balanced d)|]|].
    unfold BuildWithOffset. rewrite decide_False, Hdl by done. by eexists. }
  unfold add_clause. rewrite Hx, decide_False by done. split; [done|]. intros Hs. rewrite length_app.
  by eapply numbered_glue; [done|done|apply Hg|].
Qed.

Lemma joins_args (js : list (Orm.Join V)) s vs : (fold_left (add_join d) js (s, vs)).2 = vs ++ (js ≫= join_args).
Proof.
  revert s vs. induction js as [|j js IH]; intros s vs; [by rewrite app_nil_r|].
  cbn [fold_left]. rewrite list_bind_cons. unfold add_join at 2, join_args at 1.
  destruct (RawTable j); rewrite IH; by rewrite <-!app_assoc.
Qed.

Lemma substring_all s : String.substring 0 (String.length s) s = s.
Proof. induction s as [|a s IH]; [done|]. simpl. by rewrite IH. Qed.

Lemma having_word x : replace_word "WHERE" "HAVING" ("WHERE " +:+ x) = "HAVING " +:+ x.
Proof.
  assert (Hp : String.prefix "WHERE" ("WHERE " +:+ x) = true) by done.
  assert (Hs : String.substring (String.length "WHERE")
    (String.length ("WHERE " +:+ x) - String.length "WHERE") ("WHERE " +:+ x) = " " +:+ x).
  { exact (f_equal (String.String " ") (substring_all x)). }
  change (replace_word "WHERE" "HAVING" ("WHERE " +:+ x)) with
    (if String.prefix "WHERE" ("WHERE " +:+ x)
     then "HAVING" +:+ String.substring (String.length "WHERE")
       (String.length ("WHERE " +:+ x) - String.length "WHERE") ("WHERE " +:+ x)
     else "W" +:+ replace_word "WHERE" "HAVING" ("HERE " +:+ x)).
  by rewrite Hp, Hs.
Qed.

(** An optional clause without placeholders. *)
Lemma numbered_option n s sep t (P : Prop) `{!Decision P} :
  numbered d 0 n s → separator sep = true → plain d t →
  numbered d 0 n (if decide P then s else s +:+ sep +:+ t).
Proof. intros Hs Hsep Ht. case_decide; [done|by apply numbered_suffix]. Qed.

(** The arguments of a statement without its common table expressions and its
    UNION branches. *)
Definition core_args b : list V := before_where b ++ args (sb_where b) ++ args (sb_having b).

Lemma core_numbered b :
  wf_select b → in_order b →
  let '(s, vs) := buildSelectCore b in vs = core_args b ∧ (small vs → numbered d 0 (length vs) s).
Proof.
  intros [Hdl Hfrom Hfa Hcols Hjoins Hgroup Horder Hlock _] [Hwhere Hhaving Hbw Hbh].
  unfold buildSelectCore. rewrite Hdl.
  set (from := if sb_rawTable b then _ else _).
  assert (Hq : numbered d 0 (length (sb_tableArgs b))
    ("SELECT " +:+ String.concat ", " (quote_column d <$> sb_columns b) +:+ " FROM " +:+ from)).
  { apply numbered_prefix; [done|]. apply numbered_prefix; [by apply plain_concat, plain_columns|].
    apply numbered_prefix; [done|]. unfold from, wf_table in *.
    destruct (sb_rawTable b); [done|]. rewrite Hfa by done. by apply numbered_plain, dialect_quote. }
  pose proof (joins_numbered _ _ _ Hjoins Hq) as Hj.
  match type of Hq with numbered d 0 _ ?s0 =>
    pose proof (joins_args (sb_joins b) s0 (sb_tableArgs b)) as Ha end.
  destruct (fold_left _ _ _) as [s1 vs1]. destruct Hj as [_ Hj]. cbn in Ha. fold (before_where b) in Ha.
  rewrite Ha in *. clear Ha vs1.
  pose proof (clause_numbered id (sb_where b) s1 (before_where b)
    ltac:(intros; by apply numbered_prefix) Hwhere Hbw) as Hw. unfold add_clause in Hw.
  destruct (BuildWithOffset _ (sb_where b)) as [wc ws].
  destruct (if decide (wc = "") then _ else _) as [s2 vs2]. destruct Hw as [-> Hw].
  set (s3 := if decide (sb_groupBy b = []) then s2 else _).
  pose proof (clause_numbered (replace_word "WHERE" "HAVING") (sb_having b) s3 (before_where b ++ args (sb_where b))
    ltac:(intros; rewrite having_word; by apply numbered_prefix) Hhaving Hbh) as Hh.
  unfold add_clause in Hh. destruct (BuildWithOffset _ (sb_having b)) as [hc hs].
  destruct (if decide (hc = "") then _ else _) as [s4 vs4]. destruct Hh as [-> Hh].
  split; [by unfold core_args; rewrite app_assoc|].
  rewrite !length_app in *. intros Hm. repeat apply numbered_option; try done.
  - apply Hh. unfold s3. apply numbered_option; [apply Hw, Hj; lia|done|].
    by apply plain_concat, plain_quoted.
  - by apply plain_concat.
  - apply dialect_limit.
Qed.

(** ** The whole statement *)

Lemma build_ctes_length (f : ptr → option (string * list V)) cs parts vs parts' vs' :
  build_ctes f d cs parts vs = Some (parts', vs') → length vs <= length vs'.
Proof.
  revert parts vs. induction cs as [|c cs IH]; intros parts vs; cbn [build_ctes]; [by intros [= _ ->]|].
  destruct (f (cte_query c)) as [[s ws]|]; [|done]. intros Hb%IH. rewrite length_app in Hb. lia.
Qed.

Lemma build_ctes_numbered (f : ptr → option (string * list V)) cs parts vs parts' vs' :
  (∀ q s ws, f q = Some (s, ws) → small ws → numbered d 0 (length ws) s) →
  Forall (λ c, plain d (cte_name c)) cs → (parts = [] → vs = []) →
  numbered d 0 (length vs) (String.concat ", " parts) →
  build_ctes f d cs parts vs = Some (parts', vs') →
  length vs <= length vs' ∧ (small vs' → numbered d 0 (length vs') (String.concat ", " parts')).
Proof.
  intros Hf Hcs. revert parts vs. induction Hcs as [|c cs Hc Hcs IH]; intros parts vs Hnil Hp.
  { intros [= -> ->]. done. }
  cbn [build_ctes]. destruct (f (cte_query c)) as [[s ws]|] eqn:Hs; [|done]. intros Hb.
  pose proof (build_ctes_length _ _ _ _ _ _ Hb) as Hlen.
  rewrite length_app in Hlen.
  destruct (decide (small (vs ++ ws))) as [Hsm|Hbig]; rewrite length_app in *; [|split; [lia|]; intros; lia].
  assert (Hpart : numbered d (Z.of_nat (length vs)) (length ws) (QuoteIdentifier d (cte_name c) +:+
    " AS (" +:+ shiftPlaceholdersIfNeeded s d (Z.of_nat (length vs)) +:+ ")")).
  { apply numbered_prefix; [by apply dialect_quote|]. apply numbered_prefix; [done|].
    rewrite <- (app_nil_string ")"). apply numbered_suffix; [|done..].
    apply numbered_shift; [done|apply (Hf (cte_query c)); [done|lia]|lia|lia]. }
  edestruct IH as [Hl Hn]; [| |exact Hb|].
  - by destruct parts.
  - rewrite concat_snoc, length_app. case_decide as He.
    + subst parts. by rewrite (Hnil eq_refl) in *.
    + by eapply numbered_glue.
  - rewrite length_app in Hl. split; [lia|done].
Qed.

Lemma appendUnions_numbered (f : ptr → option (string * list V)) us s vs s' vs' :
  (∀ q s ws, f q = Some (s, ws) → small ws → numbered d 0 (length ws) s) →
  (small vs → numbered d 0 (length vs) s) →
  appendUnions f d us s vs = Some (s', vs') →
  length vs <= length vs' ∧ (small vs' → numbered d 0 (length vs') s').
Proof.
  intros Hf. revert s vs. induction us as [|u us IH]; intros s vs Hs.
  { intros [= -> ->]. done. }
  cbn [appendUnions]. destruct (f (union_query u)) as [[t ws]|] eqn:Ht; [|done]. intros Hb.
  apply IH in Hb as [Hl Hn]; rewrite length_app in *; [split; [lia|done]|].
  intros Hm. eapply numbered_glue; [apply Hs; lia|by destruct (union_all u)| |done].
  apply numbered_shift; [done|apply (Hf (union_query u)); [done|lia]|lia|lia].
Qed.

(** The arguments of a statement, in order: those of its common table
    expressions, of FROM and of the joins, of WHERE and of HAVING, and of its
    UNION branches. *)
Inductive arguments h : ptr → list V → Prop :=
| arguments_of p b vss wss :
    h !! p = Some b →
    Forall2 (λ c, arguments h (cte_query c)) (sb_ctes b) vss →
    Forall2 (λ u, arguments h (union_query u)) (sb_unions b) wss →
    arguments h p (mjoin vss ++ core_args b ++ mjoin wss).

Lemma build_ctes_args (f : ptr → option (string * list V)) cs parts vs parts' vs' :
  build_ctes f d cs parts vs = Some (parts', vs') →
  ∃ vss, vs' = vs ++ mjoin vss ∧ Forall2 (λ c ws, ∃ t, f (cte_query c) = Some (t, ws)) cs vss.
Proof.
  revert parts vs. induction cs as [|c cs IH]; intros parts vs; cbn [build_ctes].
  { intros [= _ ->]. exists []. split; [by rewrite app_nil_r|constructor]. }
  destruct (f (cte_query c)) as [[t ws]|] eqn:Hf; [|done]. intros (vss & -> & Hall)%IH.
  exists (ws :: vss). split; [by rewrite <- app_assoc|]. constructor; eauto.
Qed.

Lemma appendUnions_args (f : ptr → option (string * list V)) us s vs s' vs' :
  appendUnions f d us s vs = Some (s', vs') →
  ∃ wss, vs' = vs ++ mjoin wss ∧ Forall2 (λ u ws, ∃ t, f (union_query u) = Some (t, ws)) us wss.
Proof.
  revert s vs. induction us as [|u us IH]; intros s vs; cbn [appendUnions].
  { intros [= _ ->]. exists []. split; [by rewrite app_nil_r|constructor]. }
  destruct (f (union_query u)) as [[t ws]|] eqn:Hf; [|done]. intros (wss & -> & Hall)%IH.
  exists (ws :: wss). split; [by rewrite <- app_assoc|]. constructor; eauto.
Qed.

Lemma Select_Build_args n h p s vs :
  wf_heap h → Select_Build n h p = Some (s, vs) → arguments h p vs.
Proof.
  intros Hwf. revert p s vs. induction n as [|n IH]; intros p s vs; [done|]. cbn [Select_Build].
  destruct (h !! p) as [b|] eqn:Hp; [|done]. destruct (Hwf _ _ Hp) as [Hb Ho].
  pose proof (core_numbered b Hb Ho) as Hcore. destruct (buildSelectCore b) as [s1 vs1].
  destruct Hcore as [-> _]. rewrite (wf_dialect _ Hb).
  assert (∀ us wss, Forall2 (λ u ws, ∃ t, Select_Build n h (union_query u) = Some (t, ws)) us wss →
            Forall2 (λ u, arguments h (union_query u)) us wss) as Hus.
  { intros us wss Hf. eapply Forall2_impl; [exact Hf|]. intros u ws [t Ht]. by eapply IH. }
  case_decide as Hc.
  { intros (wss & -> & Hw)%appendUnions_args. apply (arguments_of h p b []); [done|by rewrite Hc|auto]. }
  destruct (build_ctes (Select_Build n h) d (sb_ctes b) [] []) as [[parts ws]|] eqn:Hcs; [|done].
  apply build_ctes_args in Hcs as (vss & -> & Hall). intros (wss & -> & Hw)%appendUnions_args.
  rewrite app_nil_l, <- app_assoc. apply (arguments_of h p b vss); [done| |auto].
  eapply Forall2_impl; [exact Hall|]. intros c vs [t Ht]. by eapply IH.
Qed.

Lemma Select_Build_numbered n h p s vs :
  wf_heap h → Select_Build n h p = Some (s, vs) → small vs → numbered d 0 (length vs) s.
Proof.
  intros Hwf. revert p s vs. induction n as [|n IH]; intros p s vs; [done|]. cbn [Select_Build].
  destruct (h !! p) as [b|] eqn:Hp; [|done]. destruct (Hwf _ _ Hp) as [Hb Ho].
  pose proof (core_numbered b Hb Ho) as Hcore. destruct (buildSelectCore b) as [s1 vs1]. destruct Hcore as [_ Hcore].
  rewrite (wf_dialect _ Hb). case_decide as Hc.
  { intros Hu Hm. by eapply (appendUnions_numbered _ _ _ _ _ _ IH Hcore Hu). }
  destruct (build_ctes (Select_Build n h) d (sb_ctes b) [] []) as [[parts ws]|] eqn:Hcs; [|done].
  intros Hu Hm. eapply (appendUnions_numbered _ _ _ _ _ _ IH); [|exact Hu|done].
  rewrite length_app. intros Hm'.
  destruct (build_ctes_numbered _ _ [] [] _ _ IH (wf_ctes _ Hb)
    (λ _, eq_refl) (numbered_plain d 0 "" ltac:(done)) Hcs) as [_ Hparts].
  rewrite app_assoc_string. apply numbered_prefix; [by case_match|]. rewrite app_assoc_string.
  eapply numbered_glue; [apply Hparts; lia|done| |done].
  apply numbered_shift; [done|apply Hcore; lia|lia|lia].
Qed.

(** ** Programs of builder calls *)

(** What a condition needs: as many question marks as arguments. *)
Definition binds (c : string) (vs : list V) : Prop := clean d c ∧ count_q c = length vs.

(** The ON builders reachable by their methods. *)
Inductive on_built : JoinOnBuilder V → Prop :=
| on_built_new : on_built (NewJoinOnBuilder (Some d))
| on_built_on c vs jb : on_built jb → binds c vs → on_built (On c vs jb)
| on_built_connect w c vs jb : on_built jb → plain d w → binds c vs → on_built (on_connect w c vs jb)
| on_built_eq l r jb : on_built jb → plain d l → plain d r → on_built (On_Eq l r jb)
| on_built_value c v jb : on_built jb → plain d c → on_built (On_EqValue c v jb).

(** The calls of a builder that involve no other builder.  Names and raw SQL
    bring no placeholders of their own, raw join conditions one argument per
    question mark; [OrderBy], limits, scopes and [Reset] take anything, and
    what is done to the WHERE and the HAVING clause is in [step_ok]. *)
Inductive call : (SelectBuilder V → SelectBuilder V) → Prop :=
| call_columns cs : Forall (plain d) cs → call (Columns cs)
| call_column c : plain d c → call (Column c)
| call_distinct : call Distinct
| call_where f : call (select_where f)
| call_having f : call (select_having f)
| call_group_by cs : Forall (plain d) cs → call (GroupBy cs)
| call_order_by items : call (OrderBy items)
| call_order_by_raw items : Forall (plain d) items → call (OrderByRaw items)
| call_order_by_asc c : plain d c → call (OrderByAsc c)
| call_order_by_desc c : plain d c → call (OrderByDesc c)
| call_limit n : call (Limit n)
| call_offset n : call (Offset n)
| call_for_update : call ForUpdate
| call_for_update_with suffix : plain d suffix → call (for_update_with suffix)
| call_share : call Select_LockInShareMode
| call_lock m : plain d m → call (Lock m)
| call_join ty t c vs : plain d t → binds c vs → call (JoinWithType ty t c vs)
| call_full_join t c vs : plain d t → binds c vs → call (FullOuterJoin t c vs)
| call_join_raw ty t c vs : plain d ty → plain d t → binds c vs → call (JoinWithTypeRaw ty t c vs)
| call_join_on ty t fn :
    plain d ty → plain d t → on_built (fn (NewJoinOnBuilder (Some d))) → call (join_on ty t fn)
| call_from_raw t vs : numbered d 0 (length vs) t → call (FromRaw t vs)
| call_table t : plain d t → call (Select_Table t)
| call_reset : call Select_Reset
| call_scope s : call (AddAppliedScope s)
| call_clear : call ClearAppliedScopes.

(** After a call the clauses of the builder are in order.  With a
    question-mark dialect that means only that its WHERE and HAVING builders
    are filled by their methods, with one argument per question mark. *)
Definition step_ok (f : SelectBuilder V → SelectBuilder V) p h : Prop :=
  ∀ b, h !! p = Some b → in_order (f b).

(** The stores a program can reach: builders are created, called, referred to
    by WITH and UNION, built into FROM and JOIN subqueries, and cloned. *)
Inductive reach : heap V → Prop :=
| reach_empty : reach ∅
| reach_new h p t :
    reach h → h !! p = None → plain d t → reach (<[p := NewSelectBuilderWithDialect t d]> h)
| reach_call h p f : reach h → call f → step_ok f p h → reach (alter f p h)
| reach_with h p name q :
    reach h → plain d (TrimSpace name) → is_Some (h !! q) → reach (alter (With name (Some q)) p h)
| reach_union h p all q :
    reach h → is_Some (h !! q) → reach (alter (add_union all (Some q)) p h)
| reach_from h p q alias n s vs :
    reach h → plain d alias → Select_Build n h q = Some (s, vs) → small vs →
    step_ok (FromSubquery (Some (s, vs)) alias) p h →
    reach (alter (FromSubquery (Some (s, vs)) alias) p h)
| reach_join h p q ty alias c ws n s vs :
    reach h → plain d ty → plain d (alias_or_t alias) → binds c ws →
    Select_Build n h q = Some (s, vs) → small vs →
    step_ok (join_subquery ty (Some (s, vs)) alias c ws) p h →
    reach (alter (join_subquery ty (Some (s, vs)) alias c ws) p h)
| reach_clone h p n h' q : reach h → Select_Clone n h p = Some (h', q) → reach h'.

Lemma on_built_binds jb :
  on_built jb → on_dialect jb = d ∧ Forall (clean d) (on_conditions jb) ∧
    count_all (on_conditions jb) = length (on_args jb).
Proof.
  assert (Hadd : ∀ (cs : list string) (vs : list V) c ws, Forall (clean d) cs → count_all cs = length vs → binds c ws →
    Forall (clean d) (cs ++ [c]) ∧ count_all (cs ++ [c]) = length (vs ++ ws)).
  { intros cs vs c ws Hcs Hn [Hc Hw]. rewrite count_all_app, length_app. simpl.
    split; [by apply Forall_app_2; [|constructor]|lia]. }
  induction 1 as [|c vs jb _ (Hj & IH & Hn) Hb|w c vs jb _ (Hj & IH & Hn) Hw Hb
    |l r jb _ (Hj & IH & Hn) Hl Hr|c v jb _ (Hj & IH & Hn) Hc].
  - by split; [|split].
  - split; [done|]. by apply Hadd.
  - split; [done|]. apply Hadd; [done..|]. case_decide; [done|]. destruct Hb as [Hc Hv]. split.
    + apply clean_prefix; [done|]. by apply clean_prefix.
    + rewrite !count_q_app. destruct Hw as [Hw _]. unfold no_q in Hw. simpl. lia.
  - split; [done|]. apply Hadd; [done..|]. rewrite Hj.
    assert (Hp : plain d (QuoteIdentifier d l +:+ " = " +:+ QuoteIdentifier d r)).
    { apply plain_app; [by apply dialect_quote|]. apply plain_app; [done|by apply dialect_quote]. }
    split; [by apply plain_clean|apply Hp].
  - split; [done|]. apply Hadd; [done..|]. rewrite Hj. apply dialect_quote in Hc. split.
    + apply clean_prefix; [done|]. by intros _.
    + rewrite count_q_app. destruct Hc as [Hc _]. unfold no_q in Hc. by rewrite Hc.
Qed.

Lemma on_build_binds jb : on_built jb → let '(c, vs) := On_Build jb in binds c vs.
Proof.
  intros (_ & Hc & Hn)%on_built_binds. unfold On_Build. case_decide; [by split|].
  split; [by apply clean_concat|by rewrite count_q_concat].
Qed.

(** ** Every call keeps a builder well formed *)

Lemma wf_new t : plain d t → wf_select (NewSelectBuilderWithDialect t d).
Proof. intros Ht. by split; simpl; try done; try constructor; repeat constructor. Qed.

Lemma append_join_wf j b : wf_join j → wf_select b → wf_select (append_join j b).
Proof. intros Hj []. split; simpl; try done. by apply Forall_app_2; [|constructor]. Qed.

Lemma append_order_wf os b :
  Forall (plain d) os → wf_select b → wf_select (set_orderBy (sb_orderBy b ++ os) b).
Proof. intros Hos []. split; simpl; try done. by apply Forall_app_2. Qed.

Lemma set_lock_wf m b : plain d m → wf_select b → wf_select (set_lockMode m b).
Proof. intros Hm []. by split. Qed.

Lemma set_columns_wf cs b : Forall (plain d) cs → wf_select b → wf_select (set_columns cs b).
Proof. intros Hcs []. by split. Qed.

Lemma set_table_wf t raw vs b :
  wf_table raw t vs → (raw = false → vs = []) → wf_select b → wf_select (set_table t raw vs b).
Proof. intros Ht Hv []. by split. Qed.

Lemma safe_items_plain items : Forall (plain d) (safe_items d items).
Proof.
  induction items as [|i items IH]; cbn [safe_items]; [constructor|].
  destruct (BuildSafeOrderByItem d i) eqn:Hi; [|done]. constructor; [|done].
  by eapply order_item_plain.
Qed.

Lemma join_type_plain ty jt : NormalizeJoinType ty = Ok jt → plain d jt.
Proof.
  unfold NormalizeJoinType. case_match eqn:Hb; [|done]. intros [= <-].
  apply bool_decide_eq_true in Hb. unfold allowedJoinTypes in Hb. rewrite !elem_of_cons in Hb.
  destruct Hb as [->|[->|[->|[->|[->|Hx]]]]]; [done..|set_solver].
Qed.

Lemma join_with_type_wf ty t c vs b :
  plain d t → binds c vs → wf_select b → wf_select (JoinWithType ty t c vs b).
Proof.
  intros Ht Hc Hb. unfold JoinWithType. destruct (NormalizeJoinType ty) as [jt|] eqn:Hj; [|done].
  destruct (ValidateJoinTableReference t); [done|]. apply append_join_wf; [|done].
  split; [by eapply join_type_plain|done|done].
Qed.

Lemma call_wf f b : call f → wf_select b → wf_select (f b).
Proof.
  intros Hf Hb. pose proof Hb as [Hdl _ _ Hcols _ Hgr _ _ _].
  destruct Hf as [cs Hcs|c Hc| |f|f|cs Hcs|items|items Hi|c Hc|c Hc|n|n| |su Hsu| |m Hm
    |ty t c vs Ht Hc|t c vs Ht Hc|ty t c vs Hty Ht Hc|ty t fn Hty Ht Hon|t vs Ht|t Ht| |sc| ].
  - by apply set_columns_wf.
  - apply set_columns_wf; [|done]. by apply Forall_app_2; [|constructor].
  - apply set_columns_wf; [|done]. by constructor.
  - destruct Hb. split; simpl; auto.
  - destruct Hb. split; simpl; auto.
  - destruct Hb. split; simpl; try done. by apply Forall_app_2.
  - apply append_order_wf; [|done]. rewrite Hdl. apply safe_items_plain.
  - by apply append_order_wf.
  - apply append_order_wf; [|done]. rewrite Hdl. constructor; [|done].
    apply plain_app; [by apply dialect_quote|done].
  - apply append_order_wf; [|done]. rewrite Hdl. constructor; [|done].
    apply plain_app; [by apply dialect_quote|done].
  - destruct Hb. by split.
  - destruct Hb. by split.
  - apply set_lock_wf; [|done]. rewrite Hdl. apply dialect_lock.
  - apply set_lock_wf; [|done]. rewrite Hdl. case_decide; [apply dialect_lock|].
    apply plain_app; [apply dialect_lock|by apply plain_app].
  - apply set_lock_wf; [|done]. rewrite Hdl. apply dialect_share.
  - by apply set_lock_wf.
  - by apply join_with_type_wf.
  - unfold FullOuterJoin. case_match; by apply join_with_type_wf.
  - apply append_join_wf; [|done]. split; simpl; [done|by apply numbered_plain|done].
  - unfold join_on. rewrite Hdl. pose proof (on_build_binds _ Hon) as Hbi.
    destruct (On_Build _) as [c vs]. by apply append_join_wf.
  - by apply set_table_wf.
  - by apply set_table_wf.
  - destruct Hb. split; simpl; try done; rewrite ?Hdl; repeat constructor.
  - destruct Hb. by split.
  - destruct Hb. by split.
Qed.

Lemma subquery_numbered s alias n :
  numbered d 0 n s → plain d alias → numbered d 0 n ("(" +:+ s +:+ ") " +:+ alias).
Proof. intros Hs Ha. apply numbered_prefix; [done|]. by apply numbered_suffix. Qed.

Lemma cloned_wf b b' : wf_select b → cloned_from b b' → wf_select b'.
Proof.
  intros [] (cs & -> & Hn & _). split; simpl; try done.
  apply (Forall_fmap cte_name (plain d)). rewrite Hn. by apply Forall_fmap.
Qed.

Lemma raw_in_order b : built d (sb_where b) → built d (sb_having b) → in_order b.
Proof. intros Hw Hh. split; [by apply ordered_raw..|by left|by left]. Qed.

(** What leaves the FROM, joins, WHERE and HAVING parts alone keeps the
    order. *)
Lemma in_order_same b b' :
  in_order b → before_where b' = before_where b → sb_where b' = sb_where b → sb_having b' = sb_having b →
  in_order b'.
Proof. intros [Hw Hh Hb Hm] Eb Ew Eh. by split; rewrite ?Eb, ?Ew, ?Eh. Qed.

Lemma alter_wf f p h :
  (∀ b, h !! p = Some b → wf_select b → in_order b → wf_select (f b) ∧ in_order (f b)) →
  wf_heap h → wf_heap (alter f p h).
Proof.
  intros Hf Hh q b. destruct (decide (p = q)) as [->|Hne].
  - rewrite lookup_alter_eq. destruct (h !! q) as [b0|] eqn:Hq; [|done]. intros [= <-].
    destruct (Hh q b0 Hq). by apply Hf.
  - rewrite lookup_alter_ne by done. apply Hh.
Qed.

Lemma reach_wf h : reach h → wf_heap h.
Proof.
  induction 1 as [|h p t _ IH Hp Ht|h p f _ IH Hf Hok|h p name q _ IH Hn Hq|h p all q _ IH Hq
    |h p q alias n s vs _ IH Ha Hs Hm Hok|h p q ty alias c ws n s vs _ IH Hty Ha Hc Hs Hm Hok|h p n h' q _ IH Hcl].
  - by intros p b; rewrite lookup_empty.
  - intros q b. destruct (decide (p = q)) as [->|Hne].
    + rewrite lookup_insert_eq. intros [= <-]. split; [by apply wf_new|apply raw_in_order; constructor].
    + rewrite lookup_insert_ne by done. apply IH.
  - apply alter_wf; [|done]. intros b Hb Hwf _. split; [by apply call_wf|by apply Hok].
  - apply alter_wf; [|done]. intros b _ Hb Ho. unfold With. case_decide; [done|].
    split; [|by eapply in_order_same]. destruct Hb.
    split; simpl; try done. by apply Forall_app_2; [|constructor].
  - apply alter_wf; [|done]. intros b _ [] Ho. split; [by split|by eapply in_order_same].
  - apply alter_wf; [|done]. intros b Hb Hwf _. split; [|by apply Hok].
    unfold FromSubquery. apply set_table_wf; [|done..].
    unfold shiftPlaceholdersIfNeeded. simpl. apply subquery_numbered; [|done].
    by eapply Select_Build_numbered.
  - apply alter_wf; [|done]. intros b Hb Hwf _. split; [|by apply Hok].
    apply append_join_wf; [|done]. split; simpl; [done| |done].
    apply subquery_numbered; [|done]. by eapply Select_Build_numbered.
  - destruct (Select_Clone_ok n _ _ _ _ Hcl) as ((_ & _ & Hall) & _).
    intros x b' (q' & b & Hq' & Hb)%Hall. destruct (IH q' b Hq') as [Hwf Ho].
    split; [by eapply cloned_wf|]. destruct Hb as (cs & -> & _). by eapply in_order_same.
Qed.

(** ** References stay valid *)

Lemma call_refs f b : call f → refs (f b) = refs b.
Proof.
  assert (Hj : ∀ ty t c vs b, refs (JoinWithType ty t c vs b : SelectBuilder V) = refs b).
  { intros. unfold JoinWithType. destruct (NormalizeJoinType _); [|done].
    by destruct (ValidateJoinTableReference _). }
  destruct 1; try done; [by unfold FullOuterJoin; case_match|].
  unfold join_on. by destruct (On_Build _).
Qed.

Lemma alter_closed f p h :
  (∀ b x, h !! p = Some b → x ∈ refs (f b) → x ∈ refs b ∨ is_Some (h !! x)) →
  closed h → closed (alter f p h).
Proof.
  intros Hf Hh q b x Hq Hx.
  assert (Hx' : is_Some (h !! x)).
  { destruct (decide (p = q)) as [->|Hne].
    - rewrite lookup_alter_eq in Hq. destruct (h !! q) as [b0|] eqn:Hb; [|done].
      injection Hq as <-. destruct (Hf b0 x eq_refl Hx); [by eapply Hh|done].
    - rewrite lookup_alter_ne in Hq by done. by eapply Hh. }
  apply elem_of_dom. rewrite dom_alter_L. by apply elem_of_dom.
Qed.

Lemma reach_closed h : reach h → closed h.
Proof.
  induction 1 as [|h p t _ IH Hp Ht|h p f _ IH Hf _|h p name q _ IH Hn Hq|h p all q _ IH Hq
    |h p q alias n s vs _ IH Ha Hs Hm _|h p q ty alias c ws n s vs _ IH Hty Ha Hc Hs Hm _|h p n h' q _ IH Hcl].
  - by intros p b q; rewrite lookup_empty.
  - intros q b x Hq Hx. destruct (decide (p = q)) as [->|Hne].
    + rewrite lookup_insert_eq in Hq. injection Hq as <-. by apply not_elem_of_nil in Hx.
    + rewrite lookup_insert_ne in Hq by done. destruct (IH q b x Hq Hx) as [b' Hb'].
      exists b'. rewrite lookup_insert_ne by congruence. done.
  - apply alter_closed; [|done]. intros b x _. rewrite call_refs by done. by left.
  - apply alter_closed; [|done]. intros b x _. unfold With. case_decide; [by left|].
    unfold refs. simpl. rewrite fmap_app. set_solver.
  - apply alter_closed; [|done]. intros b x _. unfold refs. simpl. rewrite fmap_app. set_solver.
  - apply alter_closed; [|done]. by left.
  - apply alter_closed; [|done]. by left.
  - by apply (Select_Clone_ok n _ _ _ _ Hcl).
Qed.

End Numbering.

(** C27: a SELECT statement binds its arguments one to one.  For every store
    the builder calls of [reach] can put together, a builder without a reference
    cycle builds a statement whose arguments are those of its common table
    expressions, of FROM and of the joins, of WHERE, of HAVING and of its UNION
    branches, in this order; with PostgreSQL its placeholders are [$1], [$2],
    ... in order and as many as arguments, with every other dialect it has as
    many question marks as arguments.  The parts are numbered from one when
    they are built and renumbered when they are put in place.

    With a question-mark dialect WHERE and HAVING may hold any conditions: raw
    ones that bring an argument per question mark, typed ones, groups and
    subqueries.  With PostgreSQL the typed conditions ([Eq], [In], [Between],
    subqueries, ...) number themselves when they are added, so [in_order]
    restricts them: a clause that has one has its raw conditions before it,
    no typed condition within a group, and no argument of FROM, of a join or
    (for HAVING) of WHERE in front of it.  Without this the numbers are wrong:
    see [postgres_select_rebinds]. *)
Theorem select_arguments_match {V} ty (h : heap V) p :
  reach (NewDialect ty) h → is_Some (h !! p) → Acc (child h) p →
  ∃ n s vs, Select_Build n h p = Some (s, vs) ∧ arguments h p vs ∧
    ((Z.of_nat (length vs) <= GoInt.maxInt64)%Z →
     if decide (ty = "postgresql") then dollars s = Some <$> seqZ 1 (Z.of_nat (length vs))
     else count_q s = length vs).
Proof.
  intros Hh Hp Hacc.
  destruct (Select_Build_terminates h p) as (n & [s vs] & Hs); [by apply (reach_closed (NewDialect ty))|done..|].
  exists n, s, vs. split; [done|].
  split; [exact (Select_Build_args (NewDialect ty) n h p s vs (reach_wf _ _ Hh) Hs)|]. intros Hm.
  pose proof (Select_Build_numbered (NewDialect ty) n h p s vs (reach_wf _ _ Hh) Hs Hm) as Hn.
  pose proof (NewDialect_postgres ty) as Hpg. case_decide as Hty.
  - apply (numbered_dollars (NewDialect ty)); [|done..]. rewrite Hpg. by apply bool_decide_true.
  - apply (numbered_marks (NewDialect ty)); [|done]. rewrite Hpg. by apply bool_decide_false.
Qed.

(** With PostgreSQL a SELECT that joins with an argument and has a typed
    condition binds the wrong argument: the condition numbers itself from one
    when it is added and [Build] does not shift it past the arguments of the
    join, so two arguments are sent for [$1] and [$1]; the same condition
    written with a question mark is numbered [$2].  A raw condition after a
    typed one goes wrong in the same way. *)
Theorem postgres_select_rebinds {V} (u v : V) :
  let b := JoinWithType "left" "orders" "orders.kind = ?" [u]
             (NewSelectBuilderWithDialect "users" (NewDialect "postgresql")) in
  let numbers '(s, vs) := (dollars s, vs) in
  numbers (buildSelectCore (select_where (Eq "id" v) b)) = ([Some 1; Some 1]%Z, [u; v]) ∧
  numbers (buildSelectCore (select_where (Where "id = ?" [v]) b)) = ([Some 1; Some 2]%Z, [u; v]) ∧
  numbers (Build (And "b = ?" [v] (Eq "a" u (NewWhereBuilder (Some (NewDialect "postgresql")))))) =
    ([Some 1; Some 1]%Z, [u; v]).
Proof. split_and!; vm_compute; reflexivity. Qed.

(** The keywords [Distinct] and [Count] put in the column list are
    treated as names.  [Distinct] adds the column [DISTINCT], which is quoted
    and separated by a comma, in every dialect; [Count] adds [COUNT( * )],
    which PostgreSQL and SQLite quote as an identifier. *)
Theorem distinct_and_count_quoted {V} ty table :
  let d := NewDialect ty in
  let b : SelectBuilder V := NewSelectBuilderWithDialect table d in
  buildSelectCore (Distinct b) =
    ("SELECT " +:+ QuoteIdentifier d "DISTINCT" +:+ ", * FROM " +:+ QuoteIdentifier d table, []) ∧
  (ty = "postgresql" ∨ ty = "sqlite" →
   buildSelectCore (set_columns count_columns b) =
     ("SELECT " +:+ double_quote +:+ "COUNT(*)" +:+ double_quote +:+ " FROM " +:+ pg_quote table, [])).
Proof.
  intros d b. split; [|by unfold b, d; intros [-> | ->]].
  unfold b, d, NewDialect, NewDefaultDialect. by repeat case_decide.
Qed.

(** ** Concrete instances *)

Module SelectExample.

Abbreviation pg := (NewDialect "postgresql").

(** [WITH a AS (orders with status = ?) SELECT ... FROM users JOIN a ON
    x = ? WHERE id = ? UNION admins WHERE level = ...], the last one a typed
    condition. *)
Definition h0 : heap nat :=
  <[2 := NewSelectBuilderWithDialect "users" pg]>
  (<[1 := NewSelectBuilderWithDialect "admins" pg]>
  (<[0 := NewSelectBuilderWithDialect "orders" pg]> ∅)).

Definition h1 : heap nat :=
  alter (select_where (Where "status = ?" [10])) 0
  (alter (select_where (Eq "level" 40)) 1
  (alter (select_where (Where "id = ?" [30])) 2
  (alter (JoinWithType "left" "a" "a.x = ?" [20]) 2 h0))).

Definition h2 : heap nat := alter (add_union false (Some 1)) 2 (alter (With "a" (Some 0)) 2 h1).

(** A UNION branch of itself. *)
Definition looping : heap nat := alter (Union (Some 1)) 1 h1.

Lemma binds_one c v : clean pg c → count_q c = 1 → binds pg c [v : nat].
Proof. by split. Qed.

Lemma where_call c v w :
  clean pg c → count_q c = 1 → built pg w → built pg (Where c [v : nat] w).
Proof. intros Hc Hn Hw. by apply built_where. Qed.

Lemma h2_reach : reach pg h2.
Proof.
  unfold h2, h1, h0.
  apply reach_union; [|by eexists]. apply reach_with; [|done|by eexists].
  repeat (apply reach_call;
    [|first [apply call_where | by apply call_join; [|apply binds_one]]
     |intros b Hb; simplify_map_eq]).
  - apply reach_new; [|done|done]. apply reach_new; [|done|done].
    apply reach_new; [apply reach_empty|done|done].
  - apply raw_in_order; constructor.
  - apply raw_in_order; [|constructor]. apply where_call; [done|done|constructor].
  - split; [|apply ordered_raw; constructor|by right|left; constructor].
    apply ordered_compare; [apply ordered_raw; constructor|done|done].
  - apply raw_in_order; [|constructor]. apply where_call; [done|done|constructor].
Qed.

Definition statement : string :=
  "WITH 'a' AS (SELECT * FROM 'orders' WHERE status = $1) SELECT * FROM 'users' LEFT JOIN 'a' ON a.x = $2 WHERE id = $3 UNION SELECT * FROM 'admins' WHERE 'level' = $4".

(** [statement] with the double quotes PostgreSQL uses. *)
Fixpoint with_quotes (s : string) : string :=
  match s with
  | String.EmptyString => String.EmptyString
  | String.String "'"%char s => double_quote +:+ with_quotes s
  | String.String a s => String.String a (with_quotes s)
  end.

Lemma h2_builds : Select_Build 2 h2 2 = Some (with_quotes statement, [10; 20; 30; 40]).
Proof. vm_compute. reflexivity. Qed.

Lemma select_arguments_match_witness :
  ∃ n s vs, Select_Build n h2 2 = Some (s, vs) ∧ arguments h2 2 vs ∧
    ((Z.of_nat (length vs) <= GoInt.maxInt64)%Z → dollars s = Some <$> seqZ 1 (Z.of_nat (length vs))).
Proof.
  exact (select_arguments_match "postgresql" h2 2 h2_reach ltac:(by eexists)
    (Select_Build_acc 2 h2 2 _ h2_builds)).
Defined.

Lemma distinct_and_count_quoted_witness :
  buildSelectCore (set_columns count_columns (NewSelectBuilderWithDialect "users" pg) : SelectBuilder nat)
    = (with_quotes "SELECT 'COUNT(*)' FROM 'users'", []).
Proof.
  destruct (@distinct_and_count_quoted nat "postgresql" "users") as [_ H].
  rewrite H; [reflexivity|]. left. reflexivity.
Defined.

Lemma h2_closed : closed h2.
Proof. apply (reach_closed pg), h2_reach. Qed.

(** The instance builds, and no amount of fuel builds the looping one. *)
Lemma select_terminates_iff_witness :
  ((∃ n r, Select_Build n h2 2 = Some r) ↔ Acc (child h2) 2) ∧
  ∀ n, Select_Build n looping 1 = None.
Proof.
  split; [exact (proj1 (select_terminates_iff h2 2 h2_closed ltac:(by eexists)))|].
  induction n as [|n IH]; [reflexivity|]. cbn [Select_Build].
  assert (H : looping !! 1 = Some (Union (Some 1) (select_where (Eq "level" 40)
    (NewSelectBuilderWithDialect "admins" pg)))) by reflexivity.
  rewrite H. rewrite decide_True by reflexivity. destruct (buildSelectCore _) as [s vs].
  match goal with |- appendUnions ?f ?d ?us ?s ?vs = _ => change us with [MkUnion false 1] end.
  cbn [appendUnions union_query]. rewrite IH. reflexivity.
Defined.

(** A clone of the instance, and a change of its UNION branch: it shows in
    what the clone builds. *)
Lemma Clone_correct_witness :
  ∃ h' q, Select_Clone 2 h2 2 = Some (h', q) ∧
    Select_Build 2 h' q = Some (with_quotes statement, [10; 20; 30; 40]) ∧
    Select_Build 2 (alter (Limit 5) 1 h') q ≠ Select_Build 2 h' q.
Proof.
  destruct (Clone_correct 2 h2 2 _ h2_builds) as (h' & q & b & b' & Hc & Hb & _).
  exists h', q. split; [exact Hc|]. split; [exact Hb|].
  assert (Hd : match Select_Clone 2 h2 2 with
    | Some (h', q) => bool_decide (Select_Build 2 (alter (Limit 5) 1 h') q = Select_Build 2 h' q)
    | None => true
    end = false) by (vm_compute; reflexivity).
  rewrite Hc in Hd. exact (bool_decide_eq_false_1 _ Hd).
Defined.

End SelectExample.
