(* ===== verification/OrmWrite.v ===== *)
(** * plugins/db/orm: the methods of the UPDATE and DELETE builders

    The rest of update_builder.go and delete_builder.go over the statements of
    [Orm]: conditions, ORDER BY, LIMIT and JOIN, executing a statement on a
    database or in a transaction, versions, RETURNING, copies.  A database and a
    transaction are used through the same two calls; [R] is the type of the rows
    of a query, [W] the world they act on.  A builder owns its slices and its
    map: [Clone] copies them, and no method hands them out. *)

From S2P Require Import Prelude StableSort Orm OrmUtil SqlText OrmProps Select SelectProps SelectNumbering.
From stdpp Require Import pretty.

(** [Exec] and [Query] of a [DB] or [ExecContext] and [QueryContext] of a
    transaction.  A result may fail to know the number of rows. *)
Record Executor (V W R : Type) := MkExecutor {
  ex_Exec : string → list V → W → W * result (result Z);
  ex_Query : string → list V → W → W * result R
}.
Arguments ex_Exec {V W R}.
Arguments ex_Query {V W R}.

Section Write.
Context {V : Type}.

(** ** The WHERE builder as a value *)

Definition Where_IsEmpty (wb : WhereBuilder V) : bool := bool_decide (conditions wb = []).
Definition Where_Clone (wb : WhereBuilder V) : WhereBuilder V := MkWhere (conditions wb) (args wb) (dialect wb).
Definition GetArgs (wb : WhereBuilder V) : list V := args wb.

(** ** UPDATE: columns *)

Definition NewUpdateBuilder (table : string) : UpdateBuilder V := NewUpdateBuilderWithDialect table NewDefaultDialect.

(** [rng] enumerates the map, each column once, so the order does not matter. *)
Definition Sets (rng : list (string * V)) (b : UpdateBuilder V) : UpdateBuilder V :=
  fold_left (λ b kv, Update_Set kv.1 kv.2 b) rng b.

Definition SetVersionField (field : string) (b : UpdateBuilder V) : UpdateBuilder V :=
  MkUpdate (upd_table b) (upd_data b) (upd_where b) (upd_joins b) (upd_orderBy b) (upd_limit b) (upd_dialect b) field.

(** ** UPDATE: conditions *)

Definition Update_Where c (vs : list V) := update_where (Where c vs).
Definition Update_And c (vs : list V) := update_where (And c vs).
Definition Update_Or c (vs : list V) := update_where (Or c vs).
Definition Update_Eq column (v : V) := update_where (Eq column v).
Definition Update_Ne column (v : V) := update_where (Ne column v).
Definition Update_Gt column (v : V) := update_where (Gt column v).
Definition Update_Gte column (v : V) := update_where (Gte column v).
Definition Update_Lt column (v : V) := update_where (Lt column v).
Definition Update_Lte column (v : V) := update_where (Lte column v).
Definition Update_Like column (v : V) := update_where (Like column v).
Definition Update_ILike column (v : V) := update_where (ILike column v).
Definition Update_In column (vs : list V) := update_where (Orm.In column vs).
Definition Update_NotIn column (vs : list V) := update_where (NotIn column vs).
Definition Update_IsNull column : UpdateBuilder V → UpdateBuilder V := update_where (IsNull column).
Definition Update_IsNotNull column : UpdateBuilder V → UpdateBuilder V := update_where (IsNotNull column).
Definition Update_Between column (lo hi : V) := update_where (Between column lo hi).

(** ** UPDATE: order, limit, joins *)

Definition upd_append_order (items : list string) (b : UpdateBuilder V) : UpdateBuilder V :=
  MkUpdate (upd_table b) (upd_data b) (upd_where b) (upd_joins b) (upd_orderBy b ++ items) (upd_limit b) (upd_dialect b)
    (upd_versionField b).

Definition Update_OrderBy (order : list string) (b : UpdateBuilder V) : UpdateBuilder V :=
  upd_append_order (safe_items (upd_dialect b) order) b.

Definition Update_OrderByRaw (order : list string) : UpdateBuilder V → UpdateBuilder V := upd_append_order order.

Definition Update_Limit (limit : Z) (b : UpdateBuilder V) : UpdateBuilder V :=
  MkUpdate (upd_table b) (upd_data b) (upd_where b) (upd_joins b) (upd_orderBy b) limit (upd_dialect b) (upd_versionField b).

Definition upd_append_join (j : Orm.Join V) (b : UpdateBuilder V) : UpdateBuilder V :=
  MkUpdate (upd_table b) (upd_data b) (upd_where b) (upd_joins b ++ [j]) (upd_orderBy b) (upd_limit b) (upd_dialect b)
    (upd_versionField b).

Definition Update_JoinWithType (joinType table condition : string) (vs : list V) (b : UpdateBuilder V) : UpdateBuilder V :=
  match NormalizeJoinType joinType with
  | Err _ => b
  | Ok normalizedJoinType =>
      match ValidateJoinTableReference table with
      | Some _ => b
      | None => upd_append_join (MkJoin normalizedJoinType table false [] condition vs) b
      end
  end.

Definition Update_Join := Update_JoinWithType "INNER".
Definition Update_LeftJoin := Update_JoinWithType "LEFT".

Definition Update_JoinWithTypeRaw (joinType table condition : string) (vs : list V) : UpdateBuilder V → UpdateBuilder V :=
  upd_append_join (MkJoin joinType table true [] condition vs).

Definition Update_Clone (b : UpdateBuilder V) : UpdateBuilder V :=
  MkUpdate (upd_table b) (upd_data b) (Where_Clone (upd_where b)) (upd_joins b) (upd_orderBy b) (upd_limit b)
    (upd_dialect b) (upd_versionField b).

Definition Update_Reset (b : UpdateBuilder V) : UpdateBuilder V :=
  MkUpdate (upd_table b) ∅ (NewWhereBuilder (Some (upd_dialect b))) [] [] 0 (upd_dialect b) (upd_versionField b).

Definition Update_IsEmpty (b : UpdateBuilder V) : bool := bool_decide (upd_data b = ∅).
Definition GetData (b : UpdateBuilder V) : gmap string cell := upd_data b.

(** ** UPDATE: execution *)

Section Execute.
Context {W R : Type} (of_int : Z → V).

(** The number of rows of a result. *)
Definition rows_affected (r : W * result (result Z)) : W * result Z :=
  match r with
  | (w, Err e) => (w, Err e)
  | (w, Ok n) => (w, n)
  end.

Definition Update_Exec (db : Executor V W R) rng (b : UpdateBuilder V) (w : W) : W * result (result Z) :=
  let '(query, vs) := Update_Build rng b in ex_Exec db query vs w.

(** [Update] and, on a transaction, [UpdateTx]. *)
Definition Update (db : Executor V W R) rng (b : UpdateBuilder V) (w : W) : W * result Z :=
  rows_affected (Update_Exec db rng b w).

(** The builder as [UpdateWithVersion] leaves it. *)
Definition with_version (id : V) (idColumn : string) (currentVersion : V) (b : UpdateBuilder V) : UpdateBuilder V :=
  let d := upd_dialect b in
  let field := QuoteIdentifier d (upd_versionField b) in
  let versionCondition := field +:+ " = " +:+ Placeholder d (Z.of_nat (length (GetArgs (upd_where b)))) in
  let b := update_where (And versionCondition [currentVersion]) b in
  let b := SetExpr (upd_versionField b) (field +:+ " + ?") [of_int 1] b in
  update_where (Eq idColumn id) b.

(** [UpdateWithVersion] and [UpdateWithVersionTx]. *)
Definition Update_WithVersion (db : Executor V W R) rng (id : V) (idColumn : string) (currentVersion : V)
    (b : UpdateBuilder V) (w : W) : UpdateBuilder V * (W * result Z) :=
  let b := with_version id idColumn currentVersion b in (b, Update db rng b w).

Definition returning (d : Dialect) (cols : list string) : string :=
  match cols with
  | [] => " RETURNING *"
  | _ => " RETURNING " +:+ String.concat ", " (QuoteIdentifiers d cols)
  end.

(** [UpdateReturning] and [UpdateReturningTx]. *)
Definition UpdateReturning (db : Executor V W R) rng (cols : list string) (b : UpdateBuilder V) (w : W) : W * result R :=
  if negb (SupportsFeature (upd_dialect b) FeatureCTE)
  then (w, Err (GoError.Errorf "RETURNING clause not supported by this dialect" []))
  else
    let '(query, vs) := Update_Build rng b in
    ex_Query db (query +:+ returning (upd_dialect b) cols) vs w.

End Execute.

(** ** DELETE *)

Definition NewDeleteBuilder (table : string) : DeleteBuilder V := NewDeleteBuilderWithDialect table NewDefaultDialect.

Definition Delete_Where c (vs : list V) := delete_where (Where c vs).
Definition Delete_And c (vs : list V) := delete_where (And c vs).
Definition Delete_Or c (vs : list V) := delete_where (Or c vs).
Definition Delete_Eq column (v : V) := delete_where (Eq column v).
Definition Delete_Ne column (v : V) := delete_where (Ne column v).
Definition Delete_Gt column (v : V) := delete_where (Gt column v).
Definition Delete_Gte column (v : V) := delete_where (Gte column v).
Definition Delete_Lt column (v : V) := delete_where (Lt column v).
Definition Delete_Lte column (v : V) := delete_where (Lte column v).
Definition Delete_Like column (v : V) := delete_where (Like column v).
Definition Delete_ILike column (v : V) := delete_where (ILike column v).
Definition Delete_In column (vs : list V) := delete_where (Orm.In column vs).
Definition Delete_NotIn column (vs : list V) := delete_where (NotIn column vs).
Definition Delete_IsNull column : DeleteBuilder V → DeleteBuilder V := delete_where (IsNull column).
Definition Delete_IsNotNull column : DeleteBuilder V → DeleteBuilder V := delete_where (IsNotNull column).
Definition Delete_Between column (lo hi : V) := delete_where (Between column lo hi).

Definition del_append_order (items : list string) (b : DeleteBuilder V) : DeleteBuilder V :=
  MkDelete (del_table b) (del_where b) (del_joins b) (del_orderBy b ++ items) (del_limit b) (del_dialect b).

Definition Delete_OrderBy (order : list string) (b : DeleteBuilder V) : DeleteBuilder V :=
  del_append_order (safe_items (del_dialect b) order) b.

Definition Delete_OrderByRaw (order : list string) : DeleteBuilder V → DeleteBuilder V := del_append_order order.

Definition Delete_OrderByAsc (column : string) (b : DeleteBuilder V) : DeleteBuilder V :=
  del_append_order [QuoteIdentifier (del_dialect b) column +:+ " ASC"] b.

Definition Delete_OrderByDesc (column : string) (b : DeleteBuilder V) : DeleteBuilder V :=
  del_append_order [QuoteIdentifier (del_dialect b) column +:+ " DESC"] b.

Definition Delete_Limit (limit : Z) (b : DeleteBuilder V) : DeleteBuilder V :=
  MkDelete (del_table b) (del_where b) (del_joins b) (del_orderBy b) limit (del_dialect b).

Definition del_append_join (j : Orm.Join V) (b : DeleteBuilder V) : DeleteBuilder V :=
  MkDelete (del_table b) (del_where b) (del_joins b ++ [j]) (del_orderBy b) (del_limit b) (del_dialect b).

Definition Delete_JoinWithType (joinType table condition : string) (vs : list V) (b : DeleteBuilder V) : DeleteBuilder V :=
  match NormalizeJoinType joinType with
  | Err _ => b
  | Ok normalizedJoinType =>
      match ValidateJoinTableReference table with
      | Some _ => b
      | None => del_append_join (MkJoin normalizedJoinType table false [] condition vs) b
      end
  end.

Definition Delete_Join := Delete_JoinWithType "INNER".
Definition Delete_LeftJoin := Delete_JoinWithType "LEFT".

Definition Delete_JoinWithTypeRaw (joinType table condition : string) (vs : list V) : DeleteBuilder V → DeleteBuilder V :=
  del_append_join (MkJoin joinType table true [] condition vs).

Definition Delete_Clone (b : DeleteBuilder V) : DeleteBuilder V :=
  MkDelete (del_table b) (Where_Clone (del_where b)) (del_joins b) (del_orderBy b) (del_limit b) (del_dialect b).

Definition Delete_Reset (b : DeleteBuilder V) : DeleteBuilder V :=
  MkDelete (del_table b) (NewWhereBuilder (Some (del_dialect b))) [] [] 0 (del_dialect b).

Definition Delete_IsEmpty (b : DeleteBuilder V) : bool := Where_IsEmpty (del_where b).
Definition HasJoins (b : DeleteBuilder V) : bool := negb (bool_decide (del_joins b = [])).
Definition GetJoins (b : DeleteBuilder V) : list (Orm.Join V) := del_joins b.

Section ExecuteDelete.
Context {W R : Type}.

Definition Delete_Exec (db : Executor V W R) (b : DeleteBuilder V) (w : W) : W * result (result Z) :=
  let '(query, vs) := Delete_Build b in ex_Exec db query vs w.

(** [Delete] and, on a transaction, [DeleteTx]; likewise below. *)
Definition Delete (db : Executor V W R) (b : DeleteBuilder V) (w : W) : W * result Z :=
  rows_affected (Delete_Exec db b w).

Definition DeleteReturning (db : Executor V W R) (cols : list string) (b : DeleteBuilder V) (w : W) : W * result R :=
  if negb (SupportsFeature (del_dialect b) FeatureCTE)
  then (w, Err (GoError.Errorf "RETURNING clause not supported by this dialect" []))
  else
    let '(query, vs) := Delete_Build b in
    ex_Query db (query +:+ returning (del_dialect b) cols) vs w.

Definition DeleteByID (db : Executor V W R) (idColumn : string) (id : V) (b : DeleteBuilder V) (w : W) :
    DeleteBuilder V * (W * result Z) :=
  let b := delete_where (Eq idColumn id) b in (b, Delete db b w).

Definition DeleteByIDs (db : Executor V W R) (idColumn : string) (ids : list V) (b : DeleteBuilder V) (w : W) :
    DeleteBuilder V * (W * result Z) :=
  match ids with
  | [] => (b, (w, Ok 0%Z))
  | _ => let b := delete_where (Orm.In idColumn ids) b in (b, Delete db b w)
  end.

Definition DeleteWithVersion (db : Executor V W R) (idColumn : string) (id : V) (versionField : string)
    (currentVersion : V) (b : DeleteBuilder V) (w : W) : DeleteBuilder V * (W * result Z) :=
  let b := delete_where (Eq versionField currentVersion) (delete_where (Eq idColumn id) b) in (b, Delete db b w).

Definition Truncate (db : Executor V W R) (b : DeleteBuilder V) (w : W) : W * result (result Z) :=
  ex_Exec db ("TRUNCATE TABLE " +:+ QuoteIdentifier (del_dialect b) (del_table b)) [] w.

End ExecuteDelete.

End Write.

(** ** The statements bind their arguments *)

Abbreviation small vs := (Z.of_nat (length vs) <= GoInt.maxInt64)%Z.

Section Bind.
Context {V : Type} (d : Dialect) `{Hd : !SqlDialect d}.
Implicit Types (u : UpdateBuilder V) (b : DeleteBuilder V).

(** The arguments that a column brings. *)
Definition cell_args (c : @cell V) : list V := match c with Value v => [v] | SQLExpr _ vs => vs end.
Definition column_args (data : gmap string (@cell V)) (key : string) : list V := default [] (cell_args <$> data !! key).

Definition wf_cell (c : @cell V) : Prop := match c with Value _ => True | SQLExpr sql vs => binds d sql vs end.

Record wf_update u : Prop := {
  wu_dialect : upd_dialect u = d;
  wu_table : plain d (upd_table u);
  wu_data : map_Forall (λ k c, plain d k ∧ wf_cell c) (upd_data u);
  wu_where : built d (upd_where u);
  wu_joins : Forall (wf_join d) (upd_joins u);
  wu_orderBy : Forall (plain d) (upd_orderBy u)
}.

Record wf_delete b : Prop := {
  wd_dialect : del_dialect b = d;
  wd_table : plain d (del_table b);
  wd_where : built d (del_where b);
  wd_joins : Forall (wf_join d) (del_joins b);
  wd_orderBy : Forall (plain d) (del_orderBy b)
}.

(** The calls of a program.  Names and raw texts bring no placeholders, an
    expression or a raw condition one argument per question mark. *)
Inductive update_call : (UpdateBuilder V → UpdateBuilder V) → Prop :=
| uc_set c v : plain d c → update_call (Update_Set c v)
| uc_sets rng : Forall (plain d) rng.*1 → update_call (Sets rng)
| uc_expr c e vs : plain d c → binds d e vs → update_call (SetExpr c e vs)
| uc_inc c v : plain d c → update_call (Inc c v)
| uc_dec c v : plain d c → update_call (Dec c v)
| uc_version f : update_call (SetVersionField f)
| uc_where f : (∀ w, built d w → built d (f w)) → update_call (update_where f)
| uc_order items : update_call (Update_OrderBy items)
| uc_order_raw items : Forall (plain d) items → update_call (Update_OrderByRaw items)
| uc_limit n : update_call (Update_Limit n)
| uc_join ty t c vs : plain d t → binds d c vs → update_call (Update_JoinWithType ty t c vs)
| uc_join_raw ty t c vs : plain d ty → plain d t → binds d c vs → update_call (Update_JoinWithTypeRaw ty t c vs)
| uc_clone : update_call Update_Clone
| uc_reset : update_call Update_Reset.

Inductive delete_call : (DeleteBuilder V → DeleteBuilder V) → Prop :=
| dc_where f : (∀ w, built d w → built d (f w)) → delete_call (delete_where f)
| dc_order items : delete_call (Delete_OrderBy items)
| dc_order_raw items : Forall (plain d) items → delete_call (Delete_OrderByRaw items)
| dc_asc c : plain d c → delete_call (Delete_OrderByAsc c)
| dc_desc c : plain d c → delete_call (Delete_OrderByDesc c)
| dc_limit n : delete_call (Delete_Limit n)
| dc_join ty t c vs : plain d t → binds d c vs → delete_call (Delete_JoinWithType ty t c vs)
| dc_join_raw ty t c vs : plain d ty → plain d t → binds d c vs → delete_call (Delete_JoinWithTypeRaw ty t c vs)
| dc_clone : delete_call Delete_Clone
| dc_reset : delete_call Delete_Reset.

Inductive update_reach : UpdateBuilder V → Prop :=
| ur_new t : plain d t → update_reach (NewUpdateBuilderWithDialect t d)
| ur_call f u : update_call f → update_reach u → update_reach (f u).

Inductive delete_reach : DeleteBuilder V → Prop :=
| dr_new t : plain d t → delete_reach (NewDeleteBuilderWithDialect t d)
| dr_call f b : delete_call f → delete_reach b → delete_reach (f b).

Lemma set_data_wf c x u : plain d c → wf_cell x → wf_update u → wf_update (set_data c x u).
Proof. intros Hc Hx []. split; simpl; try done. by apply map_Forall_insert_2. Qed.

Lemma upd_order_wf items u : Forall (plain d) items → wf_update u → wf_update (upd_append_order items u).
Proof. intros Hi []. split; simpl; try done. by apply Forall_app_2. Qed.

Lemma upd_join_wf j u : wf_join d j → wf_update u → wf_update (upd_append_join j u).
Proof. intros Hj []. split; simpl; try done. by apply Forall_app_2; [|constructor]. Qed.

Lemma del_order_wf items b : Forall (plain d) items → wf_delete b → wf_delete (del_append_order items b).
Proof. intros Hi []. split; simpl; try done. by apply Forall_app_2. Qed.

Lemma del_join_wf j b : wf_join d j → wf_delete b → wf_delete (del_append_join j b).
Proof. intros Hj []. split; simpl; try done. by apply Forall_app_2; [|constructor]. Qed.

Lemma raw_join_wf ty t c (vs : list V) :
  plain d ty → plain d t → binds d c vs → wf_join d (MkJoin ty t true [] c vs).
Proof. intros Hty Ht Hc. split; [done|by apply numbered_plain|done]. Qed.

Lemma step_binds c op (v : V) : plain d c → op = " + ?" ∨ op = " - ?" → binds d (QuoteIdentifier d c +:+ op) [v].
Proof.
  intros Hc%dialect_quote Hop. assert (Ho : clean_from false op = true ∧ count_q op = 1) by (by destruct Hop as [-> | ->]).
  split; [apply clean_prefix; [done|]; intros _; apply Ho|].
  rewrite count_q_app. destruct Hc as [Hq _]. unfold no_q in Hq. rewrite Hq. apply Ho.
Qed.

Lemma Where_Clone_id (w : WhereBuilder V) : Where_Clone w = w.
Proof. by destruct w. Qed.

Lemma update_call_wf f u : update_call f → wf_update u → wf_update (f u).
Proof.
  intros Hf Hu. pose proof Hu as [Hdl Ht Hda Hwh Hj Ho].
  destruct Hf as [c v Hc|rng Hr|c e vs Hc He|c v Hc|c v Hc|f|f Hf|items|items Hi|n|ty t c vs Ht' Hc|ty t c vs Hty Ht' Hc| |].
  - by apply set_data_wf.
  - unfold Sets. clear Hdl Ht Hda Hwh Hj Ho. revert u Hu. induction rng as [|[k v] rng IH]; intros u Hu; [done|].
    apply Forall_cons in Hr as [Hk Hr]. apply IH; [done|]. by apply set_data_wf.
  - by apply set_data_wf.
  - unfold Inc. rewrite Hdl. apply set_data_wf; [done| |done]. apply step_binds; auto.
  - unfold Dec. rewrite Hdl. apply set_data_wf; [done| |done]. apply step_binds; auto.
  - by split.
  - split; simpl; auto.
  - apply upd_order_wf; [|done]. rewrite Hdl. by apply safe_items_plain.
  - by apply upd_order_wf.
  - by split.
  - unfold Update_JoinWithType. destruct (NormalizeJoinType ty) as [jt|] eqn:Hty; [|done].
    destruct (ValidateJoinTableReference t); [done|]. apply upd_join_wf; [|done].
    split; [by eapply join_type_plain|done|done].
  - apply upd_join_wf; [|done]. by apply raw_join_wf.
  - unfold Update_Clone. rewrite Where_Clone_id. by split.
  - split; simpl; try done. rewrite Hdl. constructor.
Qed.

Lemma delete_call_wf f b : delete_call f → wf_delete b → wf_delete (f b).
Proof.
  intros Hf Hb. pose proof Hb as [Hdl Ht Hwh Hj Ho].
  destruct Hf as [f Hf|items|items Hi|c Hc|c Hc|n|ty t c vs Ht' Hc|ty t c vs Hty Ht' Hc| |].
  - split; simpl; auto.
  - apply del_order_wf; [|done]. rewrite Hdl. by apply safe_items_plain.
  - by apply del_order_wf.
  - apply del_order_wf; [|done]. rewrite Hdl. constructor; [|done]. apply plain_app; [by apply dialect_quote|done].
  - apply del_order_wf; [|done]. rewrite Hdl. constructor; [|done]. apply plain_app; [by apply dialect_quote|done].
  - by split.
  - unfold Delete_JoinWithType. destruct (NormalizeJoinType ty) as [jt|] eqn:Hty; [|done].
    destruct (ValidateJoinTableReference t); [done|]. apply del_join_wf; [|done].
    split; [by eapply join_type_plain|done|done].
  - apply del_join_wf; [|done]. by apply raw_join_wf.
  - unfold Delete_Clone. rewrite Where_Clone_id. by split.
  - split; simpl; try done. rewrite Hdl. constructor.
Qed.

Lemma update_reach_wf u : update_reach u → wf_update u.
Proof.
  induction 1 as [t Ht|f u Hf _ IH]; [|by apply update_call_wf].
  split; simpl; try done; constructor.
Qed.

Lemma delete_reach_wf b : delete_reach b → wf_delete b.
Proof.
  induction 1 as [t Ht|f b Hf _ IH]; [|by apply delete_call_wf].
  split; simpl; try done; constructor.
Qed.

(** The SET loop. *)
Lemma set_loop_numbered data keys parts vs :
  map_Forall (λ k c, plain d k ∧ wf_cell c) data → (parts = [] → vs = []) →
  numbered d 0 (length vs) (String.concat ", " parts) →
  let '(parts', vs') := fold_left (set_part d data) keys (parts, vs) in
  vs' = vs ++ (keys ≫= column_args data) ∧ numbered d 0 (length vs') (String.concat ", " parts').
Proof.
  intros Hdata. revert parts vs. induction keys as [|key keys IH]; intros parts vs Hnil Hp.
  { simpl. by rewrite app_nil_r. }
  cbn [fold_left]. rewrite list_bind_cons. unfold column_args at 1.
  destruct (data !! key) as [c|] eqn:Hk; [|unfold set_part at 2; rewrite Hk; by apply IH].
  destruct (Hdata _ _ Hk) as [Hkey Hc].
  assert (Hadd : ∀ t ws, numbered d (Z.of_nat (length vs)) (length ws) t →
    let '(parts', vs') :=
      fold_left (set_part d data) keys (parts ++ [QuoteIdentifier d key +:+ " = " +:+ t], vs ++ ws) in
    vs' = vs ++ ws ++ (keys ≫= column_args data) ∧ numbered d 0 (length vs') (String.concat ", " parts')).
  { intros t ws Ht. rewrite (app_assoc vs). apply IH; [by destruct parts|].
    assert (Hpart : numbered d (Z.of_nat (length vs)) (length ws) (QuoteIdentifier d key +:+ " = " +:+ t)).
    { apply numbered_prefix; [by apply dialect_quote|]. by apply numbered_prefix. }
    rewrite concat_snoc, length_app. case_decide as He; [|by eapply numbered_glue].
    rewrite (Hnil He) in *. done. }
  unfold set_part at 2. rewrite Hk. destruct c as [v|sql es]; cbn [wf_cell fmap option_fmap option_map default cell_args] in *.
  - apply Hadd, numbered_placeholder.
  - destruct Hc as [Hc Hn]. apply (Hadd _ es). rewrite <-Hn. by apply numbered_replace.
Qed.

(** WHERE, ORDER BY and LIMIT. *)
Lemma finish_numbered (w : WhereBuilder V) order limit s vs :
  built d w → Forall (plain d) order →
  let '(s', vs') := finish d w order limit (s, vs) in
  vs' = vs ++ args w ∧ (numbered d 0 (length vs) s → numbered d 0 (length vs') s').
Proof.
  intros Hw Ho. pose proof (add_clause_numbered d id w s vs ltac:(intros; by apply numbered_prefix) Hw) as Hc.
  pose proof (built_balanced d w Hw) as Hbal. unfold add_clause, finish in *.
  assert (Hargs : ∀ k, let '(c, ws) := BuildWithOffset k w in if decide (c = "") then args w = [] else ws = args w).
  { intros k. destruct (decide (conditions w = [])) as [Hcs|Hcs].
    - unfold BuildWithOffset. rewrite !decide_True by done. destruct Hbal as (_ & _ & Hn). rewrite Hcs in Hn.
      by apply nil_length_inv.
    - destruct (where_shape d k w Hbal Hcs) as (x & -> & _). by rewrite decide_False. }
  specialize (Hargs (Z.of_nat (length vs))). destruct (BuildWithOffset (Z.of_nat (length vs)) w) as [c ws].
  assert (Hvs : (if decide (c = "") then (s, vs) else (s +:+ " " +:+ c, vs ++ ws)).2 = vs ++ args w).
  { case_decide; simpl; [by rewrite Hargs, app_nil_r|by rewrite Hargs]. }
  unfold id in Hc. destruct (if decide (c = "") then _ else _) as [s1 vs1]. simpl in Hvs. destruct Hc as [_ Hc].
  split; [done|]. intros Hs. specialize (Hc Hs). destruct (0 <? limit)%Z.
  - apply numbered_option; [|done|apply dialect_limit]. apply numbered_option; [done|done|by apply plain_concat].
  - apply numbered_option; [done|done|by apply plain_concat].
Qed.

Lemma statement_numbered (w : WhereBuilder V) order limit js s vs :
  built d w → Forall (plain d) order → Forall (wf_join d) js → numbered d 0 (length vs) s →
  let '(s', vs') := finish d w order limit (fold_left (add_join d) js (s, vs)) in
  vs' = vs ++ (js ≫= join_args) ++ args w ∧ (small vs' → numbered d 0 (length vs') s').
Proof.
  intros Hw Ho Hj Hs. pose proof (joins_numbered d js s vs Hj Hs) as Hn. pose proof (joins_args d js s vs) as Ha.
  destruct (fold_left (add_join d) js (s, vs)) as [s1 vs1]. simpl in Ha. destruct Hn as [_ Hn].
  pose proof (finish_numbered w order limit s1 vs1 Hw Ho) as Hf.
  destruct (finish d w order limit (s1, vs1)) as [s2 vs2]. destruct Hf as [-> Hf]. rewrite app_assoc, <-Ha.
  split; [done|]. intros Hm. apply Hf, Hn. rewrite length_app in Hm. lia.
Qed.

End Bind.

(** The placeholders of a statement are those of [n] arguments in order. *)
Definition bound_to (ty q : string) (n : nat) : Prop :=
  if decide (ty = "postgresql") then dollars q = Some <$> seqZ 1 (Z.of_nat n) else count_q q = n.

Lemma numbered_bound ty q n :
  numbered (NewDialect ty) 0 n q → (Z.of_nat n <= GoInt.maxInt64)%Z → bound_to ty q n.
Proof.
  intros Hq Hm. unfold bound_to. pose proof (NewDialect_postgres ty) as Hp. case_decide as Ht.
  - apply (numbered_dollars (NewDialect ty)); [|lia|done]. rewrite Hp. by apply bool_decide_true.
  - apply (numbered_marks (NewDialect ty)); [|done]. rewrite Hp. by apply bool_decide_false.
Qed.

(** Whatever methods filled a builder, and in whatever order its map of columns is
    enumerated, the UPDATE statement has the values of the columns in the order of
    their names, then the arguments of the joins and of the conditions, and exactly
    one placeholder for each, numbered in that order; likewise the DELETE statement. *)
Theorem write_statements_bind {V} ty (u : UpdateBuilder V) (b : DeleteBuilder V) rng
    (Hu : update_reach (NewDialect ty) u) (Hb : delete_reach (NewDialect ty) b)
    (Hne : upd_data u ≠ ∅) (Hr : rng ≡ₚ elements (dom (upd_data u))) :
  (let '(q, vs) := Update_Build rng u in
   vs = (sortStrings (elements (dom (upd_data u))) ≫= column_args (upd_data u)) ++
        (upd_joins u ≫= join_args) ++ args (upd_where u) ∧
   (small vs → bound_to ty q (length vs))) ∧
  (let '(q, vs) := Delete_Build b in
   vs = (del_joins b ≫= join_args) ++ args (del_where b) ∧ (small vs → bound_to ty q (length vs))).
Proof.
  apply update_reach_wf in Hu as [Hdl Ht Hda Hw Hj Ho]; [|apply _].
  apply delete_reach_wf in Hb as [Hbdl Hbt Hbw Hbj Hbo]; [|apply _]. split.
  - unfold Update_Build. rewrite decide_False by done. rewrite Hdl, (sortStrings_unique _ _ Hr).
    pose proof (set_loop_numbered (NewDialect ty) (upd_data u) (sortStrings (elements (dom (upd_data u)))) [] []
      Hda (λ _, eq_refl) (numbered_plain _ 0 "" ltac:(done))) as Hs.
    destruct (fold_left (set_part _ _) _ _) as [parts vs]. destruct Hs as [-> Hs].
    pose proof (statement_numbered (NewDialect ty) (upd_where u) (upd_orderBy u) (upd_limit u) (upd_joins u)
      ("UPDATE " +:+ QuoteIdentifier (NewDialect ty) (upd_table u) +:+ " SET " +:+ String.concat ", " parts)
      _ Hw Ho Hj ltac:(apply numbered_prefix; [done|]; apply numbered_prefix; [by apply dialect_quote|];
                       by apply numbered_prefix)) as Hf.
    destruct (finish _ _ _ _ _) as [q vs]. destruct Hf as [-> Hf]. rewrite app_nil_l in *.
    split; [done|]. intros Hm. by apply numbered_bound; [apply Hf|].
  - unfold Delete_Build. rewrite Hbdl.
    pose proof (statement_numbered (NewDialect ty) (del_where b) (del_orderBy b) (del_limit b) (del_joins b)
      ("DELETE FROM " +:+ QuoteIdentifier (NewDialect ty) (del_table b)) [] Hbw Hbo Hbj
      ltac:(apply numbered_plain, plain_app; [done|by apply dialect_quote])) as Hf.
    destruct (finish _ _ _ _ _) as [q vs]. destruct Hf as [-> Hf]. split; [done|].
    intros Hm. by apply numbered_bound; [apply Hf|].
Qed.

(** ** What is sent *)

Section Sent.
Context {V W R : Type} (db : Executor V W R).

(** A clause of the default dialect is the conditions side by side. *)
Lemma default_clause k (wb : WhereBuilder V) :
  dialect wb = NewDefaultDialect → conditions wb ≠ [] →
  BuildWithOffset k wb = ("WHERE " +:+ String.concat " " (conditions wb), args wb).
Proof. intros Hd Hne. rewrite (BuildWithOffset_numbers "mysql") by done. by rewrite number_same. Qed.

Lemma default_delete table (f : WhereBuilder V → WhereBuilder V) :
  let wb := f (NewWhereBuilder (Some NewDefaultDialect)) in
  dialect wb = NewDefaultDialect → conditions wb ≠ [] →
  Delete_Build (delete_where f (NewDeleteBuilder table)) =
    (("DELETE FROM " +:+ mysql_quote 2 table) +:+ " WHERE " +:+ String.concat " " (conditions wb), args wb).
Proof.
  intros wb Hd Hne. unfold Delete_Build.
  cbn [delete_where del_dialect del_where del_joins del_orderBy del_limit fold_left del_table NewDeleteBuilder
    NewDeleteBuilderWithDialect finish length Z.of_nat]. fold wb.
  rewrite default_clause by done. by rewrite decide_False.
Qed.

(** Deleting by a key sends one statement with the key as its argument, deleting by
    several keys one statement with as many question marks as keys, and deleting by
    none sends nothing. *)
Theorem delete_by_id_sends table col (id : V) ids w :
  let del := ("DELETE FROM " +:+ mysql_quote 2 table) +:+ " WHERE " +:+ mysql_quote 2 col in
  (DeleteByID db col id (NewDeleteBuilder table) w).2 = rows_affected (ex_Exec db (del +:+ " = ?") [id] w) ∧
  (DeleteByIDs db col ids (NewDeleteBuilder table) w).2 =
    match ids with
    | [] => (w, Ok 0%Z)
    | _ => rows_affected (ex_Exec db (del +:+ " IN (" +:+ String.concat ", " (replicate (length ids) "?") +:+ ")") ids w)
    end.
Proof.
  intros del. split.
  - unfold DeleteByID, Delete, Delete_Exec. cbn [snd]. rewrite default_delete by done. cbn -[mysql_quote]. unfold del. by rewrite !app_assoc_string.
  - destruct ids as [|v vs]; [done|]. unfold DeleteByIDs, Delete, Delete_Exec. cbn [snd].
    assert (Hp : placeholders NewDefaultDialect 0 (length (v :: vs)) =
      String.concat ", " (replicate (length (v :: vs)) "?")).
    { unfold placeholders. f_equal. rewrite <-(length_seq (length (v :: vs)) 0) at 2. by apply const_fmap. }
    rewrite default_delete by done. unfold Orm.In, in_op. rewrite decide_False by done.
    cbn [conditions args dialect NewWhereBuilder nargs Where app String.concat default].
    change (QuoteIdentifier NewDefaultDialect) with (mysql_quote 2). unfold nargs.
    cbn [NewWhereBuilder args]. change (Z.of_nat (length (@nil V))) with 0%Z. rewrite Hp. unfold del.
    rewrite app_nil_r. by rewrite !app_assoc_string.
Qed.

(** ** What the builders do not handle *)

(** The versioned writes put their two conditions side by side without a connective,
    so neither statement is SQL: the update and the deletion always fail. *)
Theorem versioned_writes_not_joined (of_int : Z → V) (u : UpdateBuilder V) table idcol field (id version : V) rng w :
  upd_dialect u = NewDefaultDialect → upd_where u = NewWhereBuilder (Some NewDefaultDialect) →
  upd_orderBy u = [] → upd_limit u = 0%Z →
  (∃ set vs, (Update_WithVersion of_int db rng id idcol version u w).2 =
    rows_affected (ex_Exec db
      (set +:+ " WHERE " +:+ mysql_quote 2 (upd_versionField u) +:+ " = ? " +:+ mysql_quote 2 idcol +:+ " = ?")
      (vs ++ [version; id]) w)) ∧
  (DeleteWithVersion db idcol id field version (NewDeleteBuilder table) w).2 =
    rows_affected (ex_Exec db
      (("DELETE FROM " +:+ mysql_quote 2 table) +:+ " WHERE " +:+ mysql_quote 2 idcol +:+ " = ? " +:+
        mysql_quote 2 field +:+ " = ?") [id; version] w).
Proof.
  intros Hd Hw Ho Hl. split.
  - unfold Update_WithVersion, Update, Update_Exec, with_version, Update_Build. cbn [snd].
    cbn [update_where SetExpr set_data upd_data upd_where upd_dialect upd_joins upd_orderBy upd_limit upd_table].
    rewrite decide_False by apply insert_non_empty. rewrite Hd, Hw, Ho, Hl.
    destruct (fold_left (set_part _ _) _ _) as [parts vs0]. destruct (fold_left (add_join _) _ _) as [s vs].
    exists s, vs. unfold finish. rewrite default_clause by done.
    cbn [And connect Eq compare_op Where conditions args NewWhereBuilder app String.concat dialect default].
    rewrite decide_False by done. rewrite !decide_True by done. cbn -[mysql_quote].
    by rewrite !app_assoc_string.
  - unfold DeleteWithVersion, Delete, Delete_Exec. cbn [snd].
    change (delete_where (Eq field version) (delete_where (Eq idcol id) (NewDeleteBuilder table)))
      with (delete_where (λ wb, Eq field version (Eq idcol id wb)) (NewDeleteBuilder table)).
    rewrite default_delete by done.
    cbn -[mysql_quote]. by rewrite !app_assoc_string.
Qed.

(** RETURNING is guarded by the support for common table expressions, which every
    dialect has: the statement is sent to MySQL too, which has no RETURNING. *)
Theorem returning_always_sent cols (u : UpdateBuilder V) (b : DeleteBuilder V) ty rng w :
  upd_dialect u = NewDialect ty → del_dialect b = NewDialect ty →
  UpdateReturning db rng cols u w =
    ex_Query db ((Update_Build rng u).1 +:+ returning (NewDialect ty) cols) (Update_Build rng u).2 w ∧
  DeleteReturning db cols b w =
    ex_Query db ((Delete_Build b).1 +:+ returning (NewDialect ty) cols) (Delete_Build b).2 w.
Proof.
  intros Hu Hb. assert (Hs : SupportsFeature (NewDialect ty) FeatureCTE = true).
  { unfold NewDialect, NewDefaultDialect. by repeat case_decide. }
  unfold UpdateReturning, DeleteReturning. rewrite Hu, Hb, Hs.
  destruct (Update_Build rng u), (Delete_Build b). done.
Qed.

(** An update without columns sends an empty statement. *)
Theorem empty_update_sent (u : UpdateBuilder V) rng w :
  Update_IsEmpty u = true → Update db rng u w = rows_affected (ex_Exec db "" [] w).
Proof. unfold Update_IsEmpty, Update, Update_Exec, Update_Build. rewrite bool_decide_eq_true. intros ->. done. Qed.

End Sent.

(** ** Concrete instances *)

Module OrmWriteExample.

Definition upd : UpdateBuilder Z :=
  Update_Where "a.id = ?" [7%Z] (Update_Join "b" "b.k = a.k AND b.x > ?" [5%Z]
    (Inc "n" 2%Z (Update_Set "age" 9%Z (NewUpdateBuilderWithDialect "a" (NewDialect "postgresql"))))).

Definition del : DeleteBuilder Z :=
  Delete_Limit 3 (Delete_OrderBy ["id DESC"; "1; DROP"] (Delete_Where "x IN (?, ?)" [1%Z; 2%Z]
    (NewDeleteBuilderWithDialect "a" (NewDialect "postgresql")))).

Lemma write_statements_bind_witness :
  (Update_Build ["n"; "age"] upd).2 = [9%Z; 2%Z; 5%Z; 7%Z] ∧
  bound_to "postgresql" (Update_Build ["n"; "age"] upd).1 4 ∧
  bound_to "postgresql" (Delete_Build del).1 2.
Proof.
  split; [vm_compute; reflexivity|].
  assert (Hu : update_reach (NewDialect "postgresql") upd).
  { apply ur_call; [apply uc_where; intros w Hw; by apply built_where|].
    apply ur_call; [by apply uc_join|]. apply ur_call; [by apply uc_inc|]. apply ur_call; [by apply uc_set|]. by apply ur_new. }
  assert (Hb : delete_reach (NewDialect "postgresql") del).
  { apply dr_call; [apply dc_limit|]. apply dr_call; [apply dc_order|].
    apply dr_call; [apply dc_where; intros w Hw; by apply built_where|]. by apply dr_new. }
  destruct (write_statements_bind "postgresql" upd del ["n"; "age"] Hu Hb) as [H1 H2].
  - vm_compute. discriminate.
  - vm_compute. first [reflexivity|apply Permutation_swap].
  - destruct (Update_Build ["n"; "age"] upd) as [q vs] eqn:E1. destruct (Delete_Build del) as [q' vs'] eqn:E2.
    assert (Hl : length vs = 4) by (change vs with (q, vs).2; rewrite <-E1; vm_compute; reflexivity).
    assert (Hl' : length vs' = 2) by (change vs' with (q', vs').2; rewrite <-E2; vm_compute; reflexivity).
    rewrite Hl in H1. rewrite Hl' in H2. split; [apply H1|apply H2]; vm_compute; discriminate.
Defined.

End OrmWriteExample.
