(* ===== verification/OrmInsert.v ===== *)
(** * plugins/db/orm: INSERT statements

    Models [insert_builder.go], [BuildInsertQuery] of [util.go] and
    [batch_insert.go].  Values are of an arbitrary type [V] with a nil; whether
    a value has a supported type ([isValidDataType], a test of dynamic types)
    is a parameter.  The database is the list of calls made to it and their
    outcomes. *)

From S2P Require Import Prelude StableSort Orm OrmUtil SqlText OrmProps Select SelectNumbering.
From Stdlib Require Import Ascii.
From stdpp Require Import pretty.

Import GoError.

(** ** The builder *)

Section Insert.
Context {V : Type} (nil : V) (isValidDataType : V → bool).

Definition ErrEmptyData : error := Sentinel "orm.ErrEmptyData".
Definition ErrInvalidDataType : error := Sentinel "orm.ErrInvalidDataType".

(** [mysql] is the type switch of [Build] on the dialect. *)
Record InsertBuilder := MkInsert {
  ins_table : string;
  data : gmap string V;
  columns : list string;
  values : list (list V);
  onConflict : string;
  onDuplicateKeyUpdate : list string;
  insertPrefix : string;
  ins_dialect : Dialect;
  mysql : bool
}.

Definition NewInsertBuilderWithDialect (table : string) (d : Dialect) (is_mysql : bool) : InsertBuilder :=
  MkInsert table ∅ [] [] "" [] "INSERT INTO" d is_mysql.

Definition NewInsertBuilder (table : string) : InsertBuilder :=
  NewInsertBuilderWithDialect table NewDefaultDialect true.

Definition set_prefix (p : string) (b : InsertBuilder) : InsertBuilder :=
  MkInsert (ins_table b) (data b) (columns b) (values b) (onConflict b) (onDuplicateKeyUpdate b) p
    (ins_dialect b) (mysql b).

Definition Ignore : InsertBuilder → InsertBuilder := set_prefix "INSERT IGNORE INTO".
Definition Replace : InsertBuilder → InsertBuilder := set_prefix "REPLACE INTO".

Definition set_map (m : gmap string V) (b : InsertBuilder) : InsertBuilder :=
  MkInsert (ins_table b) m (columns b) (values b) (onConflict b) (onDuplicateKeyUpdate b)
    (insertPrefix b) (ins_dialect b) (mysql b).

Definition Insert_Set (column : string) (value : V) (b : InsertBuilder) : InsertBuilder :=
  set_map (<[column := value]> (data b)) b.

Definition Insert_Sets (m : gmap string V) (b : InsertBuilder) : InsertBuilder := set_map (m ∪ data b) b.

Definition set_rows (cols : list string) (rows : list (list V)) (b : InsertBuilder) : InsertBuilder :=
  MkInsert (ins_table b) (data b) cols rows (onConflict b) (onDuplicateKeyUpdate b) (insertPrefix b)
    (ins_dialect b) (mysql b).

Definition Insert_Values (cols : list string) (rows : list (list V)) : InsertBuilder → InsertBuilder :=
  set_rows cols rows.

Definition AddRow (row : list V) (b : InsertBuilder) : InsertBuilder :=
  set_rows (columns b) (values b ++ [row]) b.

Definition set_conflict (c : string) (b : InsertBuilder) : InsertBuilder :=
  MkInsert (ins_table b) (data b) (columns b) (values b) c (onDuplicateKeyUpdate b) (insertPrefix b)
    (ins_dialect b) (mysql b).

Definition OnConflict : string → InsertBuilder → InsertBuilder := set_conflict.
Definition OnConflictDoNothing : InsertBuilder → InsertBuilder := set_conflict "DO NOTHING".

Definition OnConflictUpdate (updateColumns : list string) (b : InsertBuilder) : InsertBuilder :=
  if decide (updateColumns = []) then set_conflict "DO UPDATE SET excluded = excluded" b
  else
    let q := QuoteIdentifier (ins_dialect b) in
    set_conflict ("DO UPDATE SET " +:+
      String.concat ", " ((λ col, q col +:+ " = EXCLUDED." +:+ q col) <$> updateColumns)) b.

Definition OnDuplicateKeyUpdate (cols : list string) (b : InsertBuilder) : InsertBuilder :=
  MkInsert (ins_table b) (data b) (columns b) (values b) (onConflict b) cols (insertPrefix b)
    (ins_dialect b) (mysql b).

Definition Insert_Reset (b : InsertBuilder) : InsertBuilder :=
  MkInsert (ins_table b) ∅ [] [] "" [] "INSERT INTO" (ins_dialect b) (mysql b).

Definition Insert_IsEmpty (b : InsertBuilder) : bool :=
  bool_decide (data b = ∅) && bool_decide (values b = []).

(** ** Building *)

(** One row of placeholders. *)
Definition row_text (d : Dialect) (k : Z) (n : nat) : string := "(" +:+ placeholders d k n +:+ ")".

(** The loop of [buildBulkInsert]: row [i] is the next one, [k] arguments so
    far. *)
Fixpoint bulk_rows (d : Dialect) (ncols : nat) (i : nat) (k : Z) (rows : list (list V)) :
    result (list string * list V) :=
  match rows with
  | [] => Ok ([], [])
  | row :: rows =>
      if decide (length row = ncols) then
        match bulk_rows d ncols (S i) (k + Z.of_nat (length row)) rows with
        | Ok (ts, vs) => Ok (row_text d k (length row) :: ts, row ++ vs)
        | Err e => Err e
        end
      else
        Err (Errorf "row %d has %d values, expected %d"
               [pretty (Z.of_nat i); pretty (Z.of_nat (length row)); pretty (Z.of_nat ncols)])
  end.

Definition buildBulkInsert (b : InsertBuilder) : result (string * list V) :=
  let d := ins_dialect b in
  match bulk_rows d (length (columns b)) 0 0 (values b) with
  | Err e => Err e
  | Ok (valueStrings, vs) =>
      Ok (insertPrefix b +:+ " " +:+ QuoteIdentifier d (ins_table b) +:+ " (" +:+
          String.concat ", " (QuoteIdentifiers d (columns b)) +:+ ") VALUES " +:+
          String.concat ", " valueStrings, vs)
  end.

(** [m[k]]: nil for a missing key. *)
Definition value_at (m : gmap string V) (k : string) : V := default nil (m !! k).

(** The validation loop of [BuildInsertQuery], in enumeration order. *)
Fixpoint validate_columns (m : gmap string V) (ks : list string) : option error :=
  match ks with
  | [] => None
  | k :: ks =>
      match ValidateColumnName k with
      | Some e => Some (ErrorfW "invalid column name '%s': %w" [k] e)
      | None =>
          if isValidDataType (value_at m k) then validate_columns m ks
          else Some (ErrorfW "invalid data type for column '%s': %w" [k] ErrInvalidDataType)
      end
  end.

(** [ks] is the enumeration of the data map. *)
Definition BuildInsertQuery (table : string) (m : gmap string V) (ks : list string) (d : Dialect) :
    result (string * list V) :=
  match ValidateTableName table with
  | Some e => Err e
  | None =>
      if decide (m = ∅) then Err ErrEmptyData
      else
        match validate_columns m ks with
        | Some e => Err e
        | None =>
            let keys := sortStrings ks in
            Ok ("INSERT INTO " +:+ QuoteIdentifier d table +:+ " (" +:+
                String.concat ", " (QuoteIdentifiers d keys) +:+ ") VALUES (" +:+
                placeholders d 0 (length keys) +:+ ")",
                value_at m <$> keys)
        end
  end.

(** The replacement of the prefix in [Build]. *)
Definition with_prefix (prefix query : string) : string :=
  if decide (prefix = "" ∨ prefix = "INSERT INTO") then query
  else if String.prefix "INSERT INTO " query
  then prefix +:+ " " +:+ String.substring 12 (String.length query - 12) query
  else query.

Definition Insert_Build (ks : list string) (b : InsertBuilder) : result (string * list V) :=
  let d := ins_dialect b in
  let built :=
    if decide (values b ≠ [] ∧ columns b ≠ []) then buildBulkInsert b
    else if decide (data b ≠ ∅) then
      match BuildInsertQuery (ins_table b) (data b) ks d with
      | Ok (q, vs) => Ok (with_prefix (insertPrefix b) q, vs)
      | Err e => Err e
      end
    else Err ErrEmptyData in
  match built with
  | Err e => Err e
  | Ok (q, vs) =>
      let q := if negb (bool_decide (onConflict b = "")) && SupportsFeature d FeatureUpsert
               then q +:+ " ON CONFLICT " +:+ onConflict b else q in
      let q := if negb (bool_decide (onDuplicateKeyUpdate b = [])) && mysql b
               then q +:+ " ON DUPLICATE KEY UPDATE " +:+
                 String.concat ", " ((λ col, QuoteIdentifier d col +:+ " = VALUES(" +:+
                                        QuoteIdentifier d col +:+ ")") <$> onDuplicateKeyUpdate b)
               else q in
      Ok (q, vs)
  end.

End Insert.
Arguments InsertBuilder : clear implicits.

(** ** What a statement may name

    Written without the code's validators: an identifier is a letter followed
    by letters, digits and underscores; a table is named by one; a column, up
    to white space around it, by one or more separated by dots, or by a JSON
    path (the pattern [is_json_path] of [util.go]). *)

Definition letter (c : Ascii.ascii) : Prop :=
  let n := Ascii.nat_of_ascii c in 65 ≤ n ≤ 90 ∨ 97 ≤ n ≤ 122.

Definition word_char (c : Ascii.ascii) : Prop :=
  let n := Ascii.nat_of_ascii c in letter c ∨ 48 ≤ n ≤ 57 ∨ n = 95.

Definition identifier (s : string) : Prop :=
  ∃ a t, s = String.String a t ∧ letter a ∧ Forall word_char (String.list_ascii_of_string t).

Definition column_name (k : string) : Prop :=
  k ≠ "" ∧
  ((∃ ids, ids ≠ [] ∧ Forall identifier ids ∧ TrimSpace k = String.concat "." ids) ∨
   is_json_path (TrimSpace k) = true).

(** What is reported of a column that is wrong: its name, else its value. *)
Definition wrong_column {V} (valid : V → bool) (k : string) (v : V) (e : error) : Prop :=
  (¬ column_name k ∧ ∃ e', Is e' "orm.ErrInvalidColumnName" = true ∧
     e = ErrorfW "invalid column name '%s': %w" [k] e') ∨
  (column_name k ∧ valid v = false ∧
     e = ErrorfW "invalid data type for column '%s': %w" [k] ErrInvalidDataType).

Lemma is_letter_spec c : is_letter c = true ↔ letter c.
Proof.
  unfold is_letter, letter. rewrite orb_true_iff, !andb_true_iff, !Nat.leb_le. lia.
Qed.

Lemma is_word_spec c : is_word c = true ↔ word_char c.
Proof.
  unfold is_word, word_char. rewrite !orb_true_iff, is_letter_spec, andb_true_iff, !Nat.leb_le, Nat.eqb_eq.
  tauto.
Qed.

Lemma all_chars_spec f s : all_chars f s = true ↔ Forall (λ c, f c = true) (String.list_ascii_of_string s).
Proof.
  induction s as [|a s IH]; cbn; [by split|]. by rewrite andb_true_iff, Forall_cons, IH.
Qed.

Lemma is_ident_spec s : is_ident s = true ↔ identifier s.
Proof.
  split.
  - destruct s as [|a t]; [done|]. cbn. intros [Ha Ht]%andb_true_iff. exists a, t. split; [done|].
    split; [by apply is_letter_spec|]. apply all_chars_spec in Ht.
    eapply Forall_impl; [exact Ht|]. intros c. by rewrite is_word_spec.
  - intros (a & t & -> & Ha & Ht). cbn. apply andb_true_iff. split; [by apply is_letter_spec|].
    apply all_chars_spec. eapply Forall_impl; [exact Ht|]. intros c. by rewrite is_word_spec.
Qed.

Lemma split_on_concat c s : String.concat (String.String c "") (split_on c s) = s ∧ split_on c s ≠ [].
Proof.
  induction s as [|a s [IH Hne]]; [done|]. cbn [split_on]. destruct (split_on c s) as [|w ws] eqn:E; [done|].
  destruct (Ascii.eqb a c) eqn:Ha.
  - apply Ascii.eqb_eq in Ha as ->. split; [|done].
    rewrite concat_cons_string, IH. done.
  - split; [|done]. rewrite <- IH. by destruct ws.
Qed.

Lemma is_qualified_spec s :
  is_qualified s = true ↔ ∃ ids, ids ≠ [] ∧ Forall identifier ids ∧ s = String.concat "." ids.
Proof.
  unfold is_qualified. split.
  - intros H. destruct (split_on_concat "."%char s) as [Hs Hne]. exists (split_on "."%char s).
    split; [done|]. split; [|done]. apply Forall_forall. intros w Hw. apply is_ident_spec.
    rewrite forallb_forall in H. by apply H, list_elem_of_In.
  - intros (ids & Hne & Hall & ->). induction ids as [|w ids IH]; [done|].
    apply Forall_cons in Hall as [Hw Hall]. apply is_ident_spec in Hw.
    pose proof (ident_word w Hw) as [Hword _]. destruct ids as [|w' ids].
    + cbn [String.concat]. rewrite split_word by done. cbn. by rewrite Hw.
    + rewrite concat_cons_string, split_dot by done. cbn [forallb]. rewrite Hw. by apply IH.
Qed.

Lemma ValidateTableName_spec t : ValidateTableName t = None ↔ identifier t.
Proof.
  rewrite <- is_ident_spec. unfold ValidateTableName. case_decide as Ht; [by subst|].
  by destruct (is_ident t).
Qed.

Lemma ValidateColumnName_spec k : ValidateColumnName k = None ↔ column_name k.
Proof.
  unfold ValidateColumnName, column_name. case_decide as Hk; [by split; [done|intros []]|].
  rewrite <- is_qualified_spec. set (c := TrimSpace k).
  assert (is_ident c = true → is_qualified c = true) as Hone.
  { intros Hc. apply is_qualified_spec. exists [c]. split; [done|]. split; [|done].
    by constructor; [apply is_ident_spec|]. }
  destruct (is_ident c), (is_qualified c), (is_json_path c); naive_solver.
Qed.

Lemma ValidateTableName_error t e : ValidateTableName t = Some e → Is e "orm.ErrInvalidTableName" = true.
Proof. unfold ValidateTableName. case_decide; [by intros [= <-]|]. by destruct (is_ident t); intros [= <-]. Qed.

Lemma ValidateColumnName_error k e : ValidateColumnName k = Some e → Is e "orm.ErrInvalidColumnName" = true.
Proof.
  unfold ValidateColumnName. case_decide; [by intros [= <-]|].
  set (c := TrimSpace k). by destruct (is_ident c), (is_qualified c), (is_json_path c); intros [= <-].
Qed.

(** ** Placeholders and arguments *)

Section Numbered.
Context {V : Type} (nil : V) (valid : V → bool) (d : Dialect) `{Hd : !SqlDialect d}.

Lemma numbered_row k n : numbered d k n (row_text d k n).
Proof.
  unfold row_text. apply numbered_prefix; [done|].
  change (placeholders d k n +:+ ")") with (placeholders d k n +:+ ")" +:+ "").
  by apply numbered_suffix; [apply numbered_placeholders| |].
Qed.

(** The rows of a bulk insert: all of the right length, or the first that is
    not. *)
Lemma bulk_rows_spec ncols i k rows :
  match bulk_rows (V := V) d ncols i k rows with
  | Ok (ts, vs) =>
      vs = mjoin rows ∧ Forall (λ row, length row = ncols) rows ∧ length ts = length rows ∧
      numbered d k (length vs) (String.concat ", " ts)
  | Err e => ∃ rows1 row rows2, rows = rows1 ++ row :: rows2 ∧
      Forall (λ row, length row = ncols) rows1 ∧ length row ≠ ncols ∧
      e = Errorf "row %d has %d values, expected %d"
            [pretty (Z.of_nat (i + length rows1)); pretty (Z.of_nat (length row)); pretty (Z.of_nat ncols)]
  end.
Proof.
  revert i k. induction rows as [|row rows IH]; intros i k; cbn [bulk_rows].
  { split; [done|]. split; [constructor|]. split; [done|]. by apply numbered_plain. }
  case_decide as Hlen.
  - specialize (IH (S i) (k + Z.of_nat (length row))%Z).
    destruct (bulk_rows _ _ _ _ _) as [[ts vs]|e].
    + destruct IH as (-> & Hall & Hl & Hn). split; [done|]. split; [by constructor|].
      split; [cbn; by f_equal|]. rewrite length_app.
      destruct ts as [|t ts].
      * destruct rows; [|done]. cbn. rewrite Nat.add_0_r. apply numbered_row.
      * rewrite concat_cons_string. by eapply numbered_glue; [apply numbered_row|done|exact Hn|].
    + destruct IH as (rows1 & row' & rows2 & -> & Hall & Hne & ->).
      exists (row :: rows1), row', rows2. split; [done|]. split; [by constructor|]. split; [done|].
      cbn. by rewrite Nat.add_succ_r.
  - exists [], row, rows. split; [done|]. split; [constructor|]. split; [done|].
    cbn. by rewrite Nat.add_0_r.
Qed.

(** The loop stops at the first column that is wrong, and says which and
    why. *)
Lemma validate_columns_spec (m : gmap string V) ks :
  match validate_columns nil valid m ks with
  | None => Forall (λ k, column_name k ∧ valid (value_at nil m k) = true) ks
  | Some e => ∃ ks1 k ks2, ks = ks1 ++ k :: ks2 ∧
      Forall (λ k, column_name k ∧ valid (value_at nil m k) = true) ks1 ∧
      wrong_column valid k (value_at nil m k) e
  end.
Proof.
  induction ks as [|k ks IH]; cbn [validate_columns]; [constructor|].
  destruct (ValidateColumnName k) as [e|] eqn:Hk.
  { exists [], k, ks. split; [done|]. split; [constructor|]. left.
    split; [by rewrite <- ValidateColumnName_spec, Hk|]. exists e.
    split; [by apply (ValidateColumnName_error k)|done]. }
  apply ValidateColumnName_spec in Hk.
  destruct (valid (value_at nil m k)) eqn:Hv.
  2: { exists [], k, ks. split; [done|]. split; [constructor|]. by right. }
  destruct (validate_columns _ _ _ _) as [e|]; [|by constructor].
  destruct IH as (ks1 & k' & ks2 & -> & Hall & Hw).
  exists (k :: ks1), k', ks2. split; [done|]. split; [by constructor|done].
Qed.

Lemma with_prefix_insert p r :
  with_prefix p ("INSERT INTO " +:+ r) =
  (if decide (p = "" ∨ p = "INSERT INTO") then "INSERT INTO" else p) +:+ " " +:+ r.
Proof.
  unfold with_prefix. case_decide; [done|].
  assert (String.prefix "INSERT INTO " ("INSERT INTO " +:+ r) = true) as -> by (simpl; by destruct r).
  change (String.length ("INSERT INTO " +:+ r)) with (12 + String.length r).
  replace (12 + String.length r - 12) with (String.length r) by lia.
  change (String.substring 12 (String.length r) ("INSERT INTO " +:+ r))
    with (String.substring 0 (String.length r) r).
  by rewrite substring_all.
Qed.

(** What the identifiers of a statement must not contain. *)
Record plain_builder (b : InsertBuilder V) (ks : list string) : Prop := {
  pb_table : plain d (ins_table b);
  pb_prefix : plain d (insertPrefix b);
  pb_columns : Forall (plain d) (columns b);
  pb_keys : Forall (plain d) ks;
  pb_conflict : plain d (onConflict b);
  pb_duplicate : Forall (plain d) (onDuplicateKeyUpdate b)
}.

(** The head of a statement up to its values. *)
Lemma numbered_head prefix table cols n q :
  plain d prefix → plain d table → Forall (plain d) cols → numbered d 0 n q →
  numbered d 0 n (prefix +:+ " " +:+ QuoteIdentifier d table +:+ " (" +:+
    String.concat ", " (QuoteIdentifiers d cols) +:+ ") VALUES " +:+ q).
Proof.
  intros Hp Ht Hc Hq. do 6 (apply numbered_prefix;
    [first [done | by apply dialect_quote | by apply plain_concat, plain_quoted]|]). done.
Qed.

Lemma numbered_tail b ks n q :
  plain_builder b ks → ins_dialect b = d → numbered d 0 n q →
  let q := if negb (bool_decide (onConflict b = "")) && SupportsFeature d FeatureUpsert
           then q +:+ " ON CONFLICT " +:+ onConflict b else q in
  numbered d 0 n
    (if negb (bool_decide (onDuplicateKeyUpdate b = [])) && mysql b
     then q +:+ " ON DUPLICATE KEY UPDATE " +:+
       String.concat ", " ((λ col, QuoteIdentifier d col +:+ " = VALUES(" +:+
                              QuoteIdentifier d col +:+ ")") <$> onDuplicateKeyUpdate b)
     else q).
Proof.
  intros Hpb Hb Hq. cbn zeta.
  assert (numbered d 0 n (if negb (bool_decide (onConflict b = "")) && SupportsFeature d FeatureUpsert
                          then q +:+ " ON CONFLICT " +:+ onConflict b else q)) as Hq'.
  { destruct (_ && _); [|done]. by apply numbered_suffix; [|done|apply (pb_conflict _ _ Hpb)]. }
  destruct (negb (bool_decide (onDuplicateKeyUpdate b = [])) && mysql b); [|done].
  apply numbered_suffix; [done|done|]. apply plain_concat; [done|]. apply Forall_fmap.
  eapply Forall_impl; [apply (pb_duplicate _ _ Hpb)|]. intros col Hcol. cbn.
  repeat apply plain_app; first [done | by apply dialect_quote].
Qed.

(** The statement inserts into the table, naming the columns in this order. *)
Definition inserts_into (prefix table : string) (cols : list string) (q : string) : Prop :=
  ∃ rest, q = prefix +:+ " " +:+ QuoteIdentifier d table +:+ " (" +:+
    String.concat ", " (QuoteIdentifiers d cols) +:+ ") VALUES " +:+ rest.

Lemma inserts_into_app prefix table cols q t :
  inserts_into prefix table cols q → inserts_into prefix table cols (q +:+ t).
Proof. intros (rest & ->). exists (rest +:+ t). by rewrite !app_assoc_string. Qed.

(** The prefix of a statement of one row: [BuildInsertQuery]'s own when none
    is set. *)
Definition prefix_of (b : InsertBuilder V) : string :=
  if decide (insertPrefix b = "") then "INSERT INTO" else insertPrefix b.

(** The single-row statement. *)
Lemma single_spec b ks :
  plain_builder b ks → range_of (data b) ks → data b ≠ ∅ →
  match BuildInsertQuery nil valid (ins_table b) (data b) ks d with
  | Ok (q, vs) =>
      (identifier (ins_table b) ∧ Forall (λ k, column_name k ∧ valid (value_at nil (data b) k) = true) ks) ∧
      vs = value_at nil (data b) <$> sortStrings ks ∧
      inserts_into (prefix_of b) (ins_table b) (sortStrings ks) (with_prefix (insertPrefix b) q) ∧
      numbered d 0 (length vs) (with_prefix (insertPrefix b) q)
  | Err e =>
      ValidateTableName (ins_table b) = Some e ∨
      (identifier (ins_table b) ∧ ∃ ks1 k ks2, ks = ks1 ++ k :: ks2 ∧
         Forall (λ k, column_name k ∧ valid (value_at nil (data b) k) = true) ks1 ∧
         wrong_column valid k (value_at nil (data b) k) e)
  end.
Proof.
  intros Hpb Hr Hne. unfold BuildInsertQuery.
  destruct (ValidateTableName _) as [e|] eqn:Ht; [by left|]. apply ValidateTableName_spec in Ht.
  rewrite decide_False by done. pose proof (validate_columns_spec (data b) ks) as Hv.
  destruct (validate_columns _ _ _ _) as [e|]; [by right|].
  split; [done|]. split; [done|]. rewrite with_prefix_insert, length_fmap.
  replace (if decide (insertPrefix b = "" ∨ insertPrefix b = "INSERT INTO") then "INSERT INTO" else insertPrefix b)
    with (prefix_of b) by (unfold prefix_of; repeat case_decide; naive_solver).
  change (") VALUES (" +:+ placeholders d 0 (length (sortStrings ks)) +:+ ")")
    with (") VALUES " +:+ row_text d 0 (length (sortStrings ks))).
  split; [by eexists|]. apply numbered_head.
  - unfold prefix_of. case_decide; [done|apply (pb_prefix _ _ Hpb)].
  - apply (pb_table _ _ Hpb).
  - pose proof (pb_keys _ _ Hpb) as Hk. rewrite Forall_forall in Hk |- *. intros k Hin. apply Hk.
    unfold sortStrings in Hin. by rewrite sortSliceStable_perm in Hin.
  - apply numbered_row.
Qed.

(** The bulk statement. *)
Lemma bulk_spec b ks :
  plain_builder b ks → ins_dialect b = d →
  match buildBulkInsert b with
  | Ok (q, vs) =>
      Forall (λ row, length row = length (columns b)) (values b) ∧ vs = mjoin (values b) ∧
      inserts_into (insertPrefix b) (ins_table b) (columns b) q ∧ numbered d 0 (length vs) q
  | Err e => ∃ rows1 row rows2, values b = rows1 ++ row :: rows2 ∧
      Forall (λ row, length row = length (columns b)) rows1 ∧ length row ≠ length (columns b) ∧
      e = Errorf "row %d has %d values, expected %d"
            [pretty (Z.of_nat (length rows1)); pretty (Z.of_nat (length row));
             pretty (Z.of_nat (length (columns b)))]
  end.
Proof.
  intros Hpb Hb. unfold buildBulkInsert. rewrite Hb.
  pose proof (bulk_rows_spec (length (columns b)) 0 0 (values b)) as H.
  destruct (bulk_rows _ _ _ _ _) as [[ts vs']|e]; [|done].
  destruct H as (-> & Hall & _ & Hn). split; [done|]. split; [done|]. split; [by eexists|].
  apply numbered_head; [apply (pb_prefix _ _ Hpb)|apply (pb_table _ _ Hpb)|apply (pb_columns _ _ Hpb)|done].
Qed.

End Numbered.

(** The two modes of [Build]. *)
Definition bulk_mode {V} (b : InsertBuilder V) : Prop := values b ≠ [] ∧ columns b ≠ [].

Instance bulk_mode_dec {V} (b : InsertBuilder V) : Decision (bulk_mode b).
Proof. unfold bulk_mode. apply _. Defined.

(** The columns and the values of a statement of one row. *)
Lemma sorted_values {V} (nil : V) (m : gmap string V) ks :
  range_of m ks → Forall2 (λ k v, m !! k = Some v) (sortStrings ks) (value_at nil m <$> sortStrings ks).
Proof.
  intros Hr. apply Forall2_fmap_r, Forall_Forall2_diag, Forall_forall. intros k Hk.
  unfold sortStrings in Hk. rewrite sortSliceStable_perm, Hr in Hk.
  apply list_elem_of_fmap in Hk as ([k' v] & -> & Hk%elem_of_map_to_list). unfold value_at. cbn. by rewrite Hk.
Qed.

Lemma range_value {V} (nil : V) (m : gmap string V) ks (P : string → V → Prop) :
  range_of m ks → Forall (λ k, P k (value_at nil m k)) ks → ∀ k v, m !! k = Some v → P k v.
Proof.
  intros Hr Hall k v Hk. rewrite Forall_forall in Hall. specialize (Hall k).
  unfold value_at in Hall. rewrite Hk in Hall. apply Hall. rewrite Hr.
  apply list_elem_of_fmap. exists (k, v). split; [done|]. by apply elem_of_map_to_list.
Qed.

Lemma range_lookup {V} (nil : V) (m : gmap string V) ks k :
  range_of m ks → k ∈ ks → m !! k = Some (value_at nil m k).
Proof.
  intros Hr. rewrite Hr. intros ([k' v] & -> & Hk%elem_of_map_to_list)%list_elem_of_fmap.
  unfold value_at. cbn. by rewrite Hk.
Qed.

(** The clauses [Build] appends leave the head of the statement. *)
Lemma inserts_into_tail d prefix table cols q (c1 c2 : bool) t1 t2 :
  inserts_into d prefix table cols q →
  let q := if c1 then q +:+ t1 else q in
  inserts_into d prefix table cols (if c2 then q +:+ t2 else q).
Proof. intros Hq. destruct c1, c2; cbn; auto using inserts_into_app. Qed.


(** One row of two columns, set out of order, and two rows of two columns,
    with PostgreSQL. *)
Definition ex_insert (rows : list (list nat)) : InsertBuilder nat :=
  Insert_Values ["a"; "b"] rows (NewInsertBuilderWithDialect "t" (NewDialect "postgresql") false).

Definition ex_set (table column : string) (v : nat) : InsertBuilder nat :=
  Insert_Set column v (Insert_Set "a" 1
    (NewInsertBuilderWithDialect table (NewDialect "postgresql") false)).

Definition small_value (v : nat) : bool := v <? 10.


(** ** Batch inserts *)

Section Batch.
Context {V : Type} (nil : V) (isValidDataType : V → bool).

Record BatchInsertConfig := MkBatchConfig {
  BatchSize : Z;
  UseTransaction : bool;
  ReturnIDs : bool
}.

Record BatchInsertResult := MkBatchResult {
  RowsAffected : Z;
  InsertedIDs : list Z
}.

Definition default_config : BatchInsertConfig := MkBatchConfig 100 true false.

(** Only the batch size of a configuration is completed. *)
Definition effective (config : option BatchInsertConfig) : BatchInsertConfig :=
  match config with
  | None => default_config
  | Some c => MkBatchConfig (if (BatchSize c <=? 0)%Z then 100 else BatchSize c)%Z (UseTransaction c) (ReturnIDs c)
  end.

(** The check of one entry against the keys of the first. *)
Fixpoint missing_field (refKeys : list string) (entry : gmap string V) : option string :=
  match refKeys with
  | [] => None
  | k :: ks => match entry !! k with Some _ => missing_field ks entry | None => Some k end
  end.

Fixpoint check_entries (refKeys : list string) (i : nat) (data : list (gmap string V)) : option error :=
  match data with
  | [] => None
  | entry :: data =>
      if decide (size entry = length refKeys) then
        match missing_field refKeys entry with
        | Some k => Some (Errorf "entry %d missing field '%s'" [pretty (Z.of_nat i); k])
        | None => check_entries refKeys (S i) data
        end
      else
        Some (Errorf "entry %d has different number of fields (%d vs %d)"
                [pretty (Z.of_nat i); pretty (Z.of_nat (size entry)); pretty (Z.of_nat (length refKeys))])
  end.

Fixpoint check_fields (entry : gmap string V) (ks : list string) : option error :=
  match ks with
  | [] => None
  | k :: ks =>
      match ValidateColumnName k with
      | Some e => Some (ErrorfW "invalid column name '%s': %w" [k] e)
      | None =>
          if isValidDataType (value_at nil entry k) then check_fields entry ks
          else Some (Errorf "invalid data type for column '%s'" [k])
      end
  end.

Fixpoint check_all_fields (rng : nat → list string) (i : nat) (data : list (gmap string V)) : option error :=
  match data with
  | [] => None
  | entry :: data =>
      match check_fields entry (rng i) with
      | Some e => Some e
      | None => check_all_fields rng (S i) data
      end
  end.

(** [rng i] is the enumeration of entry [i]. *)
Definition validateBatchData (rng : nat → list string) (data : list (gmap string V)) : option error :=
  match data with
  | [] => None
  | _ =>
      match check_entries (rng 0) 0 data with
      | Some e => Some e
      | None => check_all_fields rng 0 data
      end
  end.

Fixpoint batch_rows (d : Dialect) (cols : list string) (k : Z) (batch : list (gmap string V)) :
    list string * list V :=
  match batch with
  | [] => ([], [])
  | row :: batch =>
      let '(ts, vs) := batch_rows d cols (k + Z.of_nat (length cols)) batch in
      (row_text d k (length cols) :: ts, (value_at nil row <$> cols) ++ vs)
  end.

Definition buildBatchInsertQuery (table : string) (batch : list (gmap string V)) (cols : list string)
    (d : Dialect) : string * list V :=
  if decide (batch = []) then ("", [])
  else
    let cols := sortStrings cols in
    let '(ts, vs) := batch_rows d cols 0 batch in
    ("INSERT INTO " +:+ QuoteIdentifier d table +:+ " (" +:+
     String.concat ", " (QuoteIdentifiers d cols) +:+ ") VALUES " +:+ String.concat ", " ts, vs).

(** What the database is asked to do. *)
Inductive db_event : Type :=
| DBegin
| DExec (query : string) (vs : list V)
| DCommit
| DRollback.

(** The outcomes of the statements, by number of the batch. *)
Context (exec_out : nat → result Z) (query_out : nat → result (list Z)).

(** [insertBatch] of batch number [j], whose first entry enumerates as [ks]. *)
Definition insertBatch (j : nat) (table : string) (batch : list (gmap string V)) (ks : list string)
    (d : Dialect) (returnIDs : bool) : list db_event * result BatchInsertResult :=
  if decide (batch = []) then ([], Ok (MkBatchResult 0 []))
  else
    let '(query, vs) := buildBatchInsertQuery table batch ks d in
    if returnIDs && SupportsFeature d FeatureCTE then
      ([DExec (query +:+ " RETURNING id") vs],
       match query_out j with
       | Ok ids => Ok (MkBatchResult (Z.of_nat (length ids)) ids)
       | Err e => Err e
       end)
    else
      ([DExec query vs],
       match exec_out j with Ok n => Ok (MkBatchResult n []) | Err e => Err e end).

(** The loop of [BatchInsert]: entry [i] is the next one. *)
Fixpoint batch_loop (fuel : nat) (j i size : nat) (table : string) (rng : nat → list string) (d : Dialect)
    (returnIDs : bool) (data : list (gmap string V)) (acc : BatchInsertResult) :
    list db_event * result BatchInsertResult :=
  match fuel, data with
  | 0, _ | _, [] => ([], Ok acc)
  | S fuel, _ =>
      let '(es, r) := insertBatch j table (take size data) (rng i) d returnIDs in
      match r with
      | Err e => (es, Err (ErrorfW "batch insert failed at offset %d: %w" [pretty (Z.of_nat i)] e))
      | Ok br =>
          let acc := MkBatchResult (GoInt.i64 (RowsAffected acc + RowsAffected br))
                       (InsertedIDs acc ++ InsertedIDs br) in
          let '(es', r') := batch_loop fuel (S j) (i + size) size table rng d returnIDs (drop size data) acc in
          (es ++ es', r')
      end
  end.

(** [wrapper] is whether the database is a [*DBWrapper], the only type
    [BatchInsert] can begin a transaction on. *)
Definition BatchInsert (wrapper : bool) (table : string) (data : list (gmap string V))
    (rng : nat → list string) (config : option BatchInsertConfig)
    (beginErr commitErr rollbackErr : option error) :
    outcome (list db_event * result BatchInsertResult) :=
  let config := effective config in
  let d := NewDefaultDialect in
  if decide (data = []) then Ret ([], Ok (MkBatchResult 0 []))
  else
    match ValidateTableName table, validateBatchData rng data with
    | Some e, _ => Ret ([], Err e)
    | None, Some e => Ret ([], Err e)
    | None, None =>
        let loop := batch_loop (length data) 0 0 (Z.to_nat (BatchSize config)) table rng d
                      (ReturnIDs config) data (MkBatchResult 0 []) in
        if UseTransaction config then
          if wrapper then
            match beginErr with
            | Some e => Ret ([DBegin], Err e)
            | None =>
                match loop with
                | (es, Err e) =>
                    Ret (DBegin :: es ++ [DRollback],
                         Err (match rollbackErr with
                              | Some re => Joined [e; ErrorfW "rollback transaction: %w" [] re]
                              | None => e
                              end))
                | (es, Ok r) =>
                    Ret (DBegin :: es ++ [DCommit],
                         match commitErr with Some e => Err e | None => Ok r end)
                end
            end
          else Panic "interface conversion: DB is not *DBWrapper" []
        else Ret loop
    end.

(** ** Every entry is inserted once *)

(** The batches of a list. *)
Fixpoint chunks (fuel size : nat) {A} (l : list A) : list (list A) :=
  match fuel, l with
  | 0, _ | _, [] => []
  | S fuel, _ => take size l :: chunks fuel size (drop size l)
  end.

Lemma chunks_spec {A} fuel size (l : list A) :
  0 < size → length l ≤ fuel →
  mjoin (chunks fuel size l) = l ∧ Forall (λ b, b ≠ [] ∧ length b ≤ size) (chunks fuel size l).
Proof.
  intros Hs. revert l. induction fuel as [|fuel IH]; intros l Hl.
  { destruct l; [by split|cbn in Hl; lia]. }
  destruct l as [|x l]; [by split|]. cbn [chunks].
  destruct (IH (drop size (x :: l))) as [Hj Hf].
  { rewrite length_drop. cbn in *. lia. }
  split.
  - change (mjoin (take size (x :: l) :: chunks fuel size (drop size (x :: l))))
      with (take size (x :: l) ++ mjoin (chunks fuel size (drop size (x :: l)))).
    by rewrite Hj, take_drop.
  - constructor; [|done]. split; [|rewrite length_take; lia]. destruct size; [lia|]. by cbn.
Qed.

(** The statements of a list of batches. *)
Fixpoint statements (table : string) (rng : nat → list string) (d : Dialect) (suffix : string) (i : nat)
    (size : nat) (bs : list (list (gmap string V))) : list db_event :=
  match bs with
  | [] => []
  | b :: bs =>
      let '(q, vs) := buildBatchInsertQuery table b (rng i) d in
      DExec (q +:+ suffix) vs :: statements table rng d suffix (i + size) size bs
  end.

Definition suffix_of (d : Dialect) (returnIDs : bool) : string :=
  if returnIDs && SupportsFeature d FeatureCTE then " RETURNING id" else "".

Lemma insertBatch_events j table batch ks d rid :
  batch ≠ [] →
  (insertBatch j table batch ks d rid).1 =
  let '(q, vs) := buildBatchInsertQuery table batch ks d in [DExec (q +:+ suffix_of d rid) vs].
Proof.
  intros Hb. unfold insertBatch, suffix_of. rewrite decide_False by done.
  destruct (buildBatchInsertQuery _ _ _ _). destruct (rid && _); [done|]. by rewrite app_nil_string.
Qed.

Lemma batch_loop_ok fuel j i size table rng d rid data acc es r :
  0 < size → batch_loop fuel j i size table rng d rid data acc = (es, Ok r) →
  es = statements table rng d (suffix_of d rid) i size (chunks fuel size data).
Proof.
  intros Hs. revert j i data acc es r. induction fuel as [|fuel IH]; intros j i data acc es r; cbn.
  { destruct data; by intros [= <- <-]. }
  destruct data as [|x data]; [by intros [= <- <-]|].
  pose proof (insertBatch_events j table (take size (x :: data)) (rng i) d rid) as He.
  destruct (insertBatch _ _ _ _ _ _) as [es1 r1]. cbn [fst] in He. rewrite He by (by destruct size; [lia|]).
  destruct (buildBatchInsertQuery _ _ _ _) as [q vs] eqn:Eq.
  destruct r1 as [br|e]; [|done].
  destruct (batch_loop _ _ _ _ _ _ _ _ _ _) as [es2 r2] eqn:E2. intros [= <- ->].
  cbn [app statements]. rewrite Eq. f_equal. by eapply IH.
Qed.

Lemma insertBatch_no_commit j table batch ks d rid e :
  e ∈ (insertBatch j table batch ks d rid).1 → ∃ q vs, e = DExec q vs.
Proof.
  unfold insertBatch. case_decide; [by inversion 1|]. destruct (buildBatchInsertQuery _ _ _ _).
  destruct (rid && _); intros ->%list_elem_of_singleton; eauto.
Qed.

Lemma batch_loop_no_commit fuel j i size table rng d rid data acc e :
  e ∈ (batch_loop fuel j i size table rng d rid data acc).1 → ∃ q vs, e = DExec q vs.
Proof.
  revert j i data acc. induction fuel as [|fuel IH]; intros j i data acc; cbn.
  { destruct data; by inversion 1. }
  destruct data as [|x data]; [by inversion 1|].
  pose proof (insertBatch_no_commit j table (take size (x :: data)) (rng i) d rid e) as He.
  destruct (insertBatch _ _ _ _ _ _) as [es1 [br|err]]; [|done].
  match goal with |- context [batch_loop fuel ?j' ?i' size table rng d rid ?dt ?ac] =>
    specialize (IH j' i' dt ac) end.
  destruct (batch_loop _ _ _ _ _ _ _ _ _ _) as [es2 r2]. cbn in *.
  rewrite elem_of_app. intros [?|?]; auto.
Qed.

(** The rows of a batch, in the order of the sorted columns. *)
Lemma batch_rows_spec d `{!SqlDialect d} cols k batch :
  (batch_rows d cols k batch).2 = batch ≫= (λ row, value_at nil row <$> cols) ∧
  numbered d k (length (batch_rows d cols k batch).2) (String.concat ", " (batch_rows d cols k batch).1) ∧
  length (batch_rows d cols k batch).1 = length batch.
Proof.
  revert k. induction batch as [|row batch IH]; intros k; cbn; [by split; [|split; [apply numbered_plain|]]|].
  destruct (IH (k + Z.of_nat (length cols))%Z) as (H1 & H2 & H3).
  destruct (batch_rows d cols _ batch) as [ts vs]. cbn [fst snd] in *. subst vs.
  split; [done|]. split; [|cbn; by f_equal]. rewrite length_app, length_fmap.
  destruct ts as [|t ts].
  - destruct batch; [|done]. cbn. rewrite Nat.add_0_r. apply numbered_row.
  - rewrite concat_cons_string. by eapply numbered_glue; [apply numbered_row|done|exact H2|].
Qed.

End Batch.

(** A batch insert in a transaction is all or nothing.  When it succeeds
    the database has seen the begin, one statement per batch in order (the
    batches are not empty, not longer than the batch size and together exactly
    the given entries) and the commit; when it fails nothing was committed,
    unless the commit itself failed, and a begun transaction was rolled
    back. *)
Theorem batch_insert_atomic {V} (nil : V) valid exec_out query_out table data rng config beginErr
    commitErr rollbackErr es res :
  UseTransaction (effective config) = true → data ≠ [] →
  BatchInsert nil valid exec_out query_out true table data rng config beginErr commitErr rollbackErr =
    Ret (es, res) →
  match res with
  | Ok _ =>
      let size := Z.to_nat (BatchSize (effective config)) in
      ∃ bs, mjoin bs = data ∧ Forall (λ b, b ≠ [] ∧ length b ≤ size) bs ∧
        es = DBegin :: statements nil table rng NewDefaultDialect
                         (suffix_of NewDefaultDialect (ReturnIDs (effective config))) 0 size bs ++ [DCommit]
  | Err e =>
      (DCommit ∈ es → commitErr = Some e) ∧
      (DBegin ∈ es → beginErr = Some e ∨ commitErr = Some e ∨ last es = Some DRollback)
  end.
Proof.
  intros Htx Hdata. unfold BatchInsert. rewrite decide_False, Htx by done.
  assert (0 < Z.to_nat (BatchSize (effective config))) as Hsize.
  { destruct config as [c|]; cbn; [|lia]. destruct (Z.leb_spec (BatchSize c) 0); lia. }
  destruct (ValidateTableName table); [intros [= <- <-]; set_solver|].
  destruct (validateBatchData _ _ _ _); [intros [= <- <-]; set_solver|].
  destruct beginErr as [be|]; [intros [= <- <-]; set_solver|].
  match goal with |- context [batch_loop ?a ?b ?c ?f ?j ?i ?s ?t ?r ?d ?rid ?dt ?acc] =>
    pose proof (batch_loop_no_commit a b c f j i s t r d rid dt acc DCommit) as Hnc;
    destruct (batch_loop a b c f j i s t r d rid dt acc) as [es' [r'|e]] eqn:E end.
  - destruct commitErr as [ce|]; intros [= <- <-]; [set_solver|].
    exists (chunks (length data) (Z.to_nat (BatchSize (effective config))) data).
    destruct (chunks_spec (length data) (Z.to_nat (BatchSize (effective config))) data) as [Hj Hf];
      [done|lia|].
    split; [done|]. split; [done|]. apply batch_loop_ok in E; [|done]. by rewrite E.
  - intros [= <- <-]. split.
    + rewrite elem_of_cons, elem_of_app, list_elem_of_singleton.
      intros [?|[(? & ? & ?)%Hnc|?]]; done.
    + intros _. right. right. rewrite last_cons, last_snoc. done.
Qed.

Definition ex_entries : list (gmap string nat) := [{["a" := 1]}; {["a" := 2]}; {["a" := 3]}].

Lemma batch_insert_atomic_witness :
  ∃ es r, BatchInsert 0 (λ _, true) (λ _, Ok 1%Z) (λ _, Ok []) true "t" ex_entries (λ _, ["a"])
      (Some (MkBatchConfig 2 true false)) None None None = Ret (es, Ok r) ∧
    RowsAffected r = 2%Z ∧
    ∃ bs, mjoin bs = ex_entries ∧ Forall (λ b, b ≠ [] ∧ length b ≤ 2) bs.
Proof.
  destruct (BatchInsert 0 (λ _, true) (λ _, Ok 1%Z) (λ _, Ok []) true "t" ex_entries (λ _, ["a"])
              (Some (MkBatchConfig 2 true false)) None None None) as [[es res]|] eqn:E.
  2: { vm_compute in E. discriminate E. }
  pose proof (batch_insert_atomic 0 (λ _, true) (λ _, Ok 1%Z) (λ _, Ok []) "t" ex_entries (λ _, ["a"])
                (Some (MkBatchConfig 2 true false)) None None None es res eq_refl
                ltac:(discriminate) E) as H.
  vm_compute in E. injection E as <- <-. cbv iota in H. destruct H as (bs & H1 & H2 & _).
  eexists _, _. split; [reflexivity|]. split; [reflexivity|]. exists bs. split; [exact H1|exact H2].
Defined.
