(* ===== verification/Actor.v ===== *)
(** * plugins/actor: mailboxes, supervision, cells and the actor system

    Models [mailbox.go], [supervision.go], [cell.go], [props.go],
    [system.go], [future.go] and [scheduler.go] of [src/plugins/actor].  The
    operations are functions on the state of one object; [step] is the
    interleaving of the goroutines of a whole system, one rule per atomic
    action, so that a send, a stop and the loop of the actor overlap the way
    they do in the program.  Messages, actor instances and behaviours are of
    arbitrary types; what an actor does with a message is a parameter. *)

From S2P Require Import Prelude.

Import GoError.

(** ** Errors *)

Definition ErrSystemStopped : error := Sentinel "actor.ErrSystemStopped".
Definition ErrActorNotFound : error := Sentinel "actor.ErrActorNotFound".
Definition ErrActorAlreadyExists : error := Sentinel "actor.ErrActorAlreadyExists".
Definition ErrMailboxClosed : error := Sentinel "actor.ErrMailboxClosed".

(** ** Supervision *)

Inductive RestartStrategy : Type := RestartNever | RestartAlways | RestartBackoff.

#[export] Instance RestartStrategy_eq_dec : EqDecision RestartStrategy.
Proof. solve_decision. Defined.

(** [OnPanic] and [OnGiveUp] are observation callbacks: whether they are set. *)
Record Supervision := MkSupervision {
  Strategy : RestartStrategy;
  MaxConsecutiveRestarts : Z;
  BackoffInitial : Z;
  BackoffMax : Z;
  OnPanic : bool;
  OnGiveUp : bool
}.

Definition ms : Z := 1000000.

(** The loop of [backoffFor]: [n] doublings, left at the first that reaches
    the maximum. *)
Fixpoint backoff_loop (n : nat) (d max : Z) : Z :=
  match n with
  | 0 => d
  | S n =>
      let d := GoInt.i64 (d * 2) in
      if (max <=? d)%Z then max else backoff_loop n d max
  end.

Definition backoffFor (sv : Supervision) (attempt : Z) : Z :=
  let initial := if (BackoffInitial sv <=? 0)%Z then (100 * ms)%Z else BackoffInitial sv in
  let max := if (BackoffMax sv <=? 0)%Z then (5000 * ms)%Z else BackoffMax sv in
  backoff_loop (Z.to_nat (attempt - 1)) initial max.

Definition giveUpErr (pid : string) : error := Errorf "actor: %s restart limit exceeded" [pid].

(** ** Props *)

Section Actor.
Context {Msg Inst Beh : Type}.

Record Envelope := MkEnvelope {
  Sender : string;
  Message : Msg
}.

(** [Producer] is a factory: every call may return an instance or nil. *)
Record Props := MkProps {
  Name : string;
  Actor : option Inst;
  Producer : option (nat → option Inst);
  MailboxSize : Z;
  supervision : option Supervision
}.

(** [props.actor]; [n] counts the calls of the factory. *)
Definition props_actor (p : Props) (n : nat) : result Inst :=
  match Producer p with
  | Some produce =>
      match produce n with
      | None => Err (Errorf "actor: Producer returned nil" [])
      | Some a => Ok a
      end
  | None =>
      match Actor p with
      | Some a => Ok a
      | None => Err (Errorf "actor: Props must provide Actor or Producer" [])
      end
  end.

Definition mailboxSize (p : Props) (defaultSize : Z) : Z :=
  if (0 <? MailboxSize p)%Z then MailboxSize p else defaultSize.

(** ** One cell: processing a message and handling its panic *)

(** The part of [actorCell] its own goroutine writes. *)
Record core := MkCore {
  actor : Inst;
  behavior : option Beh;
  consecutiveFailures : Z;
  produced : nat
}.

(** What a cell does besides: callbacks, the back-off sleep, [stop] and
    [PreStart]. *)
Inductive event : Type :=
| EOnPanic (m : Msg)
| EOnGiveUp (e : error)
| EStop
| ESleep (d : Z)
| EPreStart.

(** User code: [Receive] of the instance, or the behaviour that replaced it;
    the new instance state, the behaviour it left and whether it panicked. *)
Context (receive : Inst → option Beh → Envelope → Inst * option Beh * bool).

(** [process]. *)
Definition process (c : core) (env : Envelope) : core * bool :=
  let '(a, b, panicked) := receive (actor c) (behavior c) env in
  (MkCore a b (consecutiveFailures c) (produced c), panicked).

(** [supervision]: the props override the default of the system. *)
Definition cell_supervision (p : Props) (default : option Supervision) : option Supervision :=
  match supervision p with
  | Some sv => Some sv
  | None => default
  end.

(** The end of [handlePanic]: a new instance from the factory, if there is
    one and it returns one, no behaviour, [PreStart]. *)
Definition restart (p : Props) (c : core) : core :=
  match Producer p with
  | Some produce =>
      let a := match props_actor p (produced c) with Ok a => a | Err _ => actor c end in
      MkCore a None (consecutiveFailures c) (S (produced c))
  | None => MkCore (actor c) None (consecutiveFailures c) (produced c)
  end.

Definition handlePanic (pid : string) (p : Props) (sup : option Supervision) (c : core)
    (env : Envelope) : core * list event :=
  match sup with
  | None => (c, [])
  | Some sup =>
      if decide (Strategy sup = RestartNever) then (c, [])
      else
        let observed := if OnPanic sup then [EOnPanic (Message env)] else [] in
        let c := MkCore (actor c) (behavior c) (GoInt.i64 (consecutiveFailures c + 1)) (produced c) in
        if (0 <? MaxConsecutiveRestarts sup)%Z
           && (MaxConsecutiveRestarts sup <? consecutiveFailures c)%Z
        then
          (c, observed ++ (if OnGiveUp sup then [EOnGiveUp (giveUpErr pid)] else []) ++ [EStop])
        else
          let slept :=
            if decide (Strategy sup = RestartBackoff)
            then [ESleep (backoffFor sup (consecutiveFailures c))] else [] in
          (restart p c, observed ++ slept ++ [EPreStart])
  end.

(** One round of [loop]. *)
Definition loop_round (pid : string) (p : Props) (sup : option Supervision) (c : core)
    (env : Envelope) : core * bool * list event :=
  let '(c, panicked) := process c env in
  if panicked then let '(c, es) := handlePanic pid p sup c env in (c, true, es)
  else (MkCore (actor c) (behavior c) 0 (produced c), false, []).

(** ** Mailbox *)

(** [ch] is the buffered channel with capacity [ch_cap]; [stopCh] is whether
    the stop channel is closed. *)
Record mailbox := MkMailbox {
  ch : list Envelope;
  ch_cap : Z;
  stopCh : bool;
  closed : bool
}.

Definition newMailbox (size : Z) : mailbox :=
  MkMailbox [] (if (size <=? 0)%Z then 64 else size)%Z false false.

(** The channel has room. *)
Definition has_room (m : mailbox) : bool := (Z.of_nat (length (ch m)) <? ch_cap m)%Z.

Definition enqueue (env : Envelope) (m : mailbox) : mailbox :=
  MkMailbox (ch m ++ [env]) (ch_cap m) (stopCh m) (closed m).

(** ** The system *)

(** A cell: [stage] is how far a [stop] has got (see below), [running] where
    its goroutine is.  [accepted] and [handled] record, for the theorems, the
    messages whose [push] returned nil and the ones processed. *)
Inductive phase : Type :=
| AtNext
| Processing (env : Envelope)
| Exited.

Inductive stop_stage : Type :=
| Live       (* no stop yet *)
| Claimed    (* [stopped] was swapped *)
| Removed    (* [remove] was called *)
| Closing    (* [closed] of the mailbox was swapped *)
| Closed.    (* [stopCh] is closed *)

#[export] Instance stop_stage_eq_dec : EqDecision stop_stage.
Proof. solve_decision. Defined.

Record actorCell := MkCell {
  c_pid : string;
  c_mailbox : mailbox;
  c_stage : stop_stage;
  c_phase : phase;
  accepted : list Envelope;
  handled : list Envelope
}.

(** A send in progress: it has found its cell, and then it has seen the
    mailbox open. *)
Inductive pending : Type :=
| Found (c : nat) (env : Envelope)
| Passed (c : nat) (env : Envelope).

Record System := MkSystem {
  actors : gmap string nat;
  cells : gmap nat actorCell;
  s_stopped : bool;
  DefaultMailboxSize : Z;
  sends : list pending
}.

Definition NewWithOptions (size : Z) : System :=
  MkSystem ∅ ∅ false (if (size <=? 0)%Z then 64 else size)%Z [].

Definition Running (s : System) : bool := negb (s_stopped s).
Definition Count (s : System) : nat := size (actors s).

Definition get (pid : string) (s : System) : option nat := actors s !! pid.

Definition remove (pid : string) (s : System) : System :=
  MkSystem (delete pid (actors s)) (cells s) (s_stopped s) (DefaultMailboxSize s) (sends s).

Definition set_cell (c : nat) (cell : actorCell) (s : System) : System :=
  MkSystem (actors s) (<[c := cell]> (cells s)) (s_stopped s) (DefaultMailboxSize s) (sends s).

Definition set_sends (ps : list pending) (s : System) : System :=
  MkSystem (actors s) (cells s) (s_stopped s) (DefaultMailboxSize s) ps.

(** [newActor]. *)
Definition newActor (pid : string) (p : Props) (s : System) : actorCell :=
  MkCell pid (newMailbox (mailboxSize p (DefaultMailboxSize s))) Live AtNext [] [].

(** [add]: under the lock, the stop flag and the name are checked. *)
Definition add (pid : string) (c : nat) (cell : actorCell) (s : System) : result System :=
  if s_stopped s then Err ErrSystemStopped
  else
    match actors s !! pid with
    | Some _ => Err ErrActorAlreadyExists
    | None =>
        Ok (MkSystem (<[pid := c]> (actors s)) (<[c := cell]> (cells s)) (s_stopped s)
              (DefaultMailboxSize s) (sends s))
    end.

(** [Spawn]: [uuid] is the name generated when the props have none, [c] the
    address of the new cell.  [start] of a new cell succeeds. *)
Definition Spawn (props : option Props) (uuid : string) (c : nat) (s : System) :
    result (System * string) :=
  match props with
  | None => Err (Errorf "actor: props is nil" [])
  | Some p =>
      if negb (Running s) then Err ErrSystemStopped
      else
        match props_actor p 0 with
        | Err e => Err e
        | Ok _ =>
            let pid := if decide (Name p = "") then uuid else Name p in
            match add pid c (newActor pid p s) s with
            | Err e => Err e
            | Ok s => Ok (s, pid)
            end
        end
  end.

(** The first part of [send]: an error with whether the dead-letter callback
    is called, or the cell. *)
Definition send_lookup (to : string) (s : System) : error * bool + nat :=
  if negb (Running s) then inl (ErrSystemStopped, false)
  else
    match get to s with
    | None => inl (ErrActorNotFound, true)
    | Some c => inr c
    end.

(** The stages of [actorCell.stop], one action each. *)
Definition stop_next (st : stop_stage) : stop_stage :=
  match st with
  | Live => Claimed
  | Claimed => Removed
  | Removed => Closing
  | Closing | Closed => Closed
  end.

Definition with_stage (st : stop_stage) (cell : actorCell) : actorCell :=
  let m := c_mailbox cell in
  MkCell (c_pid cell)
    (MkMailbox (ch m) (ch_cap m)
       (match st with Closed => true | _ => stopCh m end)
       (match st with Closing | Closed => true | _ => closed m end))
    st (c_phase cell) (accepted cell) (handled cell).

Definition stop_step (c : nat) (cell : actorCell) (s : System) : System :=
  let st := stop_next (c_stage cell) in
  let s := set_cell c (with_stage st cell) s in
  if decide (st = Removed) then remove (c_pid cell) s else s.

(** ** Interleavings *)

Definition with_phase (ph : phase) (cell : actorCell) : actorCell :=
  MkCell (c_pid cell) (c_mailbox cell) (c_stage cell) ph (accepted cell) (handled cell).

(** One atomic action of one goroutine. *)
Inductive step : System → System → Prop :=
| step_spawn s props uuid c s' pid :
    cells s !! c = None → Spawn props uuid c s = Ok (s', pid) → step s s'
| step_shutdown s :
    (* the compare-and-swap of [Shutdown] *)
    step s (MkSystem (actors s) (cells s) true (DefaultMailboxSize s) (sends s))
| step_send s to env c :
    (* [send] has looked the target up *)
    send_lookup to s = inr c → step s (set_sends (sends s ++ [Found c env]) s)
| step_check s l c env r cell :
    (* [push] loads [closed] *)
    sends s = l ++ Found c env :: r → cells s !! c = Some cell → closed (c_mailbox cell) = false →
    step s (set_sends (l ++ Passed c env :: r) s)
| step_refused s l c env r cell :
    sends s = l ++ Found c env :: r → cells s !! c = Some cell → closed (c_mailbox cell) = true →
    step s (set_sends (l ++ r) s)
| step_push s l c env r cell :
    (* the select of [push] takes the channel: allowed also when the stop
       channel is closed *)
    sends s = l ++ Passed c env :: r → cells s !! c = Some cell → has_room (c_mailbox cell) = true →
    step s (set_sends (l ++ r) (set_cell c
      (MkCell (c_pid cell) (enqueue env (c_mailbox cell)) (c_stage cell) (c_phase cell)
         (accepted cell ++ [env]) (handled cell)) s))
| step_push_stopped s l c env r cell :
    (* the select takes the stop channel: ErrMailboxClosed *)
    sends s = l ++ Passed c env :: r → cells s !! c = Some cell → stopCh (c_mailbox cell) = true →
    step s (set_sends (l ++ r) s)
| step_cancelled s l c env r :
    (* the select takes the context's channel *)
    sends s = l ++ Passed c env :: r → step s (set_sends (l ++ r) s)
| step_next s c cell env q :
    (* [next] receives a message, before or after the stop *)
    cells s !! c = Some cell → c_phase cell = AtNext → ch (c_mailbox cell) = env :: q →
    step s (set_cell c
      (MkCell (c_pid cell)
         (MkMailbox q (ch_cap (c_mailbox cell)) (stopCh (c_mailbox cell)) (closed (c_mailbox cell)))
         (c_stage cell) (Processing env) (accepted cell) (handled cell)) s)
| step_done s c cell env :
    (* the message is processed, with or without a panic *)
    cells s !! c = Some cell → c_phase cell = Processing env →
    step s (set_cell c
      (MkCell (c_pid cell) (c_mailbox cell) (c_stage cell) AtNext (accepted cell)
         (handled cell ++ [env])) s)
| step_exit s c cell :
    (* [next] finds the stop channel closed and the channel empty *)
    cells s !! c = Some cell → c_phase cell = AtNext → stopCh (c_mailbox cell) = true →
    ch (c_mailbox cell) = [] → step s (set_cell c (with_phase Exited cell) s)
| step_stop s c cell :
    (* the next action of [stop], called by anyone *)
    cells s !! c = Some cell → c_stage cell ≠ Closed → step s (stop_step c cell s).

Inductive steps : System → System → Prop :=
| steps_refl s : steps s s
| steps_trans s1 s2 s3 : steps s1 s2 → step s2 s3 → steps s1 s3.

End Actor.
Arguments Envelope Msg : clear implicits.
Arguments Props Inst : clear implicits.
Arguments System Msg : clear implicits.
Arguments actorCell Msg : clear implicits.
Arguments mailbox Msg : clear implicits.

(** ** Futures and timed sends *)

Section Future.
Context {Msg : Type}.

(** [futureActor]: whether [once] has run, what is in the channel of
    capacity one, and whether the channel is closed. *)
Record futureActor := MkFuture {
  once : bool;
  reply : option Msg;
  reply_closed : bool
}.

Definition new_future : futureActor := MkFuture false None false.

(** [deliver]; [None] is nil: the timeout and the failed send. *)
Definition deliver (msg : option Msg) (f : futureActor) : futureActor :=
  if once f then f
  else
    MkFuture true
      (match msg, reply f with Some m, None => Some m | _, r => r end) true.

End Future.
Arguments futureActor Msg : clear implicits.

Definition DefaultAskTimeout : Z := 5000 * ms.

(** The timeout [Ask] waits for. *)
Definition ask_timeout (timeout : Z) : Z :=
  if (timeout <=? 0)%Z then DefaultAskTimeout else timeout.

(** The calls of the dead-letter callback of one [System.Send] whose outcome
    is [err]; [send] itself calls it for a missing actor. *)
Definition send_dead_letters (err : option error) : nat :=
  match err with
  | Some e => if Is e "actor.ErrActorNotFound" then 1 else 0
  | None => 0
  end.

(** [SendAfter]: the checks, then what the timer does when it fires. *)
Definition SendAfter_check (d : Z) : option error :=
  if (d <? 0)%Z then Some (Errorf "actor: negative delay" []) else None.

Definition SendAfter_fire (err : option error) : nat :=
  send_dead_letters err + match err with Some _ => 1 | None => 0 end.

(** [SendEvery]: one tick; the callback calls and whether the ticker goes on. *)
Definition SendEvery_check (every : Z) : option error :=
  if (every <=? 0)%Z then Some (Errorf "actor: interval must be positive" []) else None.

Definition SendEvery_tick (err : option error) : nat * bool :=
  match err with
  | None => (0, true)
  | Some e =>
      (send_dead_letters err + 1,
       negb (Is e "actor.ErrActorNotFound" || Is e "actor.ErrSystemStopped"))
  end.
