(* ===== verification/ActorProps.v ===== *)
(** * plugins/actor: delivery, registry, supervision

    An invariant of the interleavings of [Actor.step]: every mailbox is a
    bounded queue whose accepted messages are handled once and in order, and
    the registry maps exactly the actors that have not been removed.  A stop
    drains the mailbox.  The supervision loop gives up exactly after more
    consecutive panics than allowed; the back-off has a closed form. *)

From S2P Require Import Prelude Actor.

Import GoError.

Section Invariant.
Context {Msg Inst Beh : Type}.

Implicit Types (s : System Msg) (cell : actorCell Msg) (env : Envelope Msg).

(** ** The invariant *)

(** The message the goroutine of a cell is working on. *)
Definition in_process cell : list (Envelope Msg) :=
  match c_phase cell with Processing env => [env] | _ => [] end.

(** The actor is registered until its [stop] has called [remove]. *)
Definition registered_stage (st : stop_stage) : bool :=
  match st with Live | Claimed => true | _ => false end.

Definition closed_stage (st : stop_stage) : bool :=
  match st with Closing | Closed => true | _ => false end.

Record cell_inv cell : Prop := {
  ci_queue : accepted cell = handled cell ++ in_process cell ++ ch (c_mailbox cell);
  ci_bound : (Z.of_nat (length (ch (c_mailbox cell))) <= ch_cap (c_mailbox cell))%Z;
  ci_closed : closed (c_mailbox cell) = closed_stage (c_stage cell);
  ci_stopCh : stopCh (c_mailbox cell) = bool_decide (c_stage cell = Closed);
  ci_exited : c_phase cell = Exited → c_stage cell = Closed
}.

Record sys_inv s : Prop := {
  si_cells : map_Forall (λ _ cell, cell_inv cell) (cells s);
  si_actors : ∀ pid c, actors s !! pid = Some c ↔
    ∃ cell, cells s !! c = Some cell ∧ c_pid cell = pid ∧ registered_stage (c_stage cell) = true
}.

Lemma sys_inv_cell s c cell : sys_inv s → cells s !! c = Some cell → cell_inv cell.
Proof. intros [H _] Hc. exact (H c cell Hc). Qed.

(** A step that replaces a cell by one with the same name and registration. *)
Lemma sys_inv_set_cell s c cell cell' :
  sys_inv s → cells s !! c = Some cell → cell_inv cell' →
  c_pid cell' = c_pid cell →
  registered_stage (c_stage cell') = registered_stage (c_stage cell) →
  sys_inv (set_cell c cell' s).
Proof.
  intros [Hcells Hact] Hc Hci Hpid Hreg. split; cbn.
  - by apply map_Forall_insert_2.
  - intros pid c'. rewrite Hact. split; intros (x & Hx & ? & ?).
    + destruct (decide (c' = c)) as [->|?].
      * rewrite Hc in Hx. simplify_eq. exists cell'. rewrite lookup_insert_eq. by rewrite Hpid, Hreg.
      * exists x. by rewrite lookup_insert_ne.
    + destruct (decide (c' = c)) as [->|?].
      * rewrite lookup_insert_eq in Hx. simplify_eq. exists cell. by rewrite <- Hpid, <- Hreg.
      * rewrite lookup_insert_ne in Hx by done. by exists x.
Qed.

Lemma sys_inv_set_sends s ps : sys_inv s → sys_inv (set_sends ps s).
Proof. intros [? ?]. by split. Qed.

Lemma cell_inv_with_stage cell :
  cell_inv cell → cell_inv (with_stage (stop_next (c_stage cell)) cell).
Proof.
  intros [Hq Hb Hc Hs He]. destruct cell as [pid [q cap sc cl] st ph acc hd]; cbn in *.
  split; cbn; [done|done| | |].
  - subst cl. by destruct st.
  - subst sc. by destruct st.
  - intros ->. by rewrite He.
Qed.

Lemma newMailbox_cap size : (0 <= @ch_cap Msg (newMailbox size))%Z.
Proof. cbn. destruct (Z.leb_spec size 0); lia. Qed.

Lemma newActor_inv pid (p : Props Inst) s : cell_inv (newActor pid p s).
Proof. split; try done. apply newMailbox_cap. Qed.

(** What a successful [Spawn] has done. *)
Lemma Spawn_Ok s (props : option (Props Inst)) uuid c s' pid :
  Spawn props uuid c s = Ok (s', pid) →
  ∃ p, props = Some p ∧ s_stopped s = false ∧ actors s !! pid = None ∧
    pid = (if decide (Name p = "") then uuid else Name p) ∧
    s' = MkSystem (<[pid := c]> (actors s)) (<[c := newActor pid p s]> (cells s)) false
           (DefaultMailboxSize s) (sends s).
Proof.
  unfold Spawn, add, Running. destruct props as [p|]; [|done].
  destruct (s_stopped s) eqn:Hs; [done|]. cbn. destruct (props_actor p 0); [|done].
  destruct (actors s !! _) eqn:Hno; [done|]. intros [= <- <-]. by eauto 10.
Qed.

Lemma sys_inv_Spawn s (props : option (Props Inst)) uuid c s' pid :
  sys_inv s → cells s !! c = None → Spawn props uuid c s = Ok (s', pid) → sys_inv s'.
Proof.
  intros [Hcells Hact] Hfresh (p & _ & _ & Hno & _ & ->)%Spawn_Ok. split; cbn.
  - apply map_Forall_insert_2; [apply newActor_inv|done].
  - intros q c'. destruct (decide (c' = c)) as [->|Hne].
    + rewrite lookup_insert_eq. split.
      * intros [[<- _]|[_ Hq]]%lookup_insert_Some; [by eexists|].
        apply Hact in Hq as (? & ? & _). congruence.
      * intros (x & [= <-] & <- & _). apply lookup_insert_eq.
    + rewrite (lookup_insert_ne (cells s)) by done. rewrite <- Hact. split.
      * intros [[_ ->]|[_ Hq]]%lookup_insert_Some; done.
      * intros Hq. rewrite lookup_insert_ne; [done|]. intros <-. congruence.
Qed.

(** [stop]: the entry that [remove] deletes is that of the stopped cell. *)
Lemma sys_inv_stop s c cell :
  sys_inv s → cells s !! c = Some cell → sys_inv (stop_step c cell s).
Proof.
  intros Hinv Hc. pose proof (cell_inv_with_stage _ (sys_inv_cell _ _ _ Hinv Hc)) as Hci.
  unfold stop_step. case_decide as Hst.
  - destruct Hinv as [Hcells Hact].
    assert (c_stage cell = Claimed) as Hcl by (destruct (c_stage cell); done).
    split; cbn; [by apply map_Forall_insert_2|].
    intros pid c'. rewrite lookup_delete_Some, Hact. split.
    + intros [Hne (x & Hx & Hp & Hr)]. exists x. rewrite lookup_insert_ne; [done|].
      intros <-. rewrite Hc in Hx. by simplify_eq.
    + intros (x & [[<- <-]|[Hne Hx]]%lookup_insert_Some & Hp & Hr).
      { rewrite Hst in Hr. done. }
      split; [|by exists x]. intros Hpid.
      assert (actors s !! c_pid cell = Some c) as E1 by (apply Hact; exists cell; rewrite Hcl; auto).
      assert (actors s !! c_pid x = Some c') as E2 by (apply Hact; by exists x).
      congruence.
  - apply (sys_inv_set_cell _ _ cell); auto. cbn in *. by destruct (c_stage cell).
Qed.

Lemma step_sys_inv s s' : step (Inst := Inst) s s' → sys_inv s → sys_inv s'.
Proof.
  intros Hstep Hinv. inversion Hstep; subst; clear Hstep.
  - by eapply sys_inv_Spawn.
  - destruct Hinv. by split.
  - by apply sys_inv_set_sends.
  - by apply sys_inv_set_sends.
  - by apply sys_inv_set_sends.
  - apply sys_inv_set_sends. eapply sys_inv_set_cell; eauto.
    destruct (sys_inv_cell _ _ _ Hinv H0) as [Hq Hb Hcl Hs He]. split; cbn; try done.
    + rewrite Hq. unfold in_process; cbn. by rewrite <- !(assoc_L app).
    + unfold has_room in H1. apply Z.ltb_lt in H1. rewrite length_app; cbn. lia.
  - by apply sys_inv_set_sends.
  - by apply sys_inv_set_sends.
  - eapply sys_inv_set_cell; eauto.
    destruct (sys_inv_cell _ _ _ Hinv H) as [Hq Hb Hcl Hs He]. split; cbn; try done.
    + rewrite Hq, H1. unfold in_process; cbn. by rewrite H0.
    + rewrite H1 in Hb. cbn in Hb. lia.
  - eapply sys_inv_set_cell; eauto.
    destruct (sys_inv_cell _ _ _ Hinv H) as [Hq Hb Hcl Hs He]. split; cbn; try done.
    rewrite Hq. unfold in_process; cbn. rewrite H0. by rewrite <- (assoc_L app).
  - eapply sys_inv_set_cell; eauto.
    destruct (sys_inv_cell _ _ _ Hinv H) as [Hq Hb Hcl Hs He]. split; cbn; try done.
    + rewrite Hq. unfold in_process; cbn. by rewrite H0.
    + intros _. rewrite H1 in Hs. by case_bool_decide.
  - by apply sys_inv_stop.
Qed.

Lemma steps_sys_inv s s' : steps (Inst := Inst) s s' → sys_inv s → sys_inv s'.
Proof. induction 1; eauto using step_sys_inv. Qed.

Lemma NewWithOptions_inv size : sys_inv (NewWithOptions size).
Proof.
  split; [by apply map_Forall_empty|]. intros pid c; cbn. rewrite lookup_empty.
  split; [done|]. by intros (? & ? & _).
Qed.

(** ** Draining *)

(** Every send that has passed the closed check of cell [c] has ended. *)
Definition no_passed (c : nat) s : Prop := ∀ env, Passed c env ∉ sends s.

(** The mailbox is closed, no send is past the check, and the cell has
    accepted [acc]; once its goroutine has left, nothing is queued. *)
Record drained (c : nat) (acc : list (Envelope Msg)) s : Prop := {
  dr_sends : no_passed c s;
  dr_cell : ∃ cell, cells s !! c = Some cell ∧ closed (c_mailbox cell) = true ∧
    accepted cell = acc ∧ (c_phase cell = Exited → ch (c_mailbox cell) = [])
}.

Lemma drained_sends c acc s ps :
  drained c acc s → (∀ env, Passed c env ∈ ps → Passed c env ∈ sends s) → drained c acc (set_sends ps s).
Proof. intros [Hn Hc] Hps. split; [|done]. intros env Hin. by apply (Hn env), Hps. Qed.

Lemma drained_set_cell c acc s c' x x' :
  drained c acc s → cells s !! c' = Some x →
  (closed (c_mailbox x) = true → closed (c_mailbox x') = true) →
  accepted x' = accepted x →
  (c' = c → (c_phase x = Exited → ch (c_mailbox x) = []) →
   c_phase x' = Exited → ch (c_mailbox x') = []) →
  drained c acc (set_cell c' x' s).
Proof.
  intros [Hn (cell & Hc & Hcl & Hacc & He)] Hx Hclx Haccx Hex. split; [done|]. cbn.
  destruct (decide (c' = c)) as [->|Hne].
  - rewrite Hx in Hc. simplify_eq. exists x'. rewrite lookup_insert_eq. eauto 10.
  - exists cell. rewrite lookup_insert_ne by done. eauto.
Qed.

Lemma step_drained c acc s s' :
  step (Inst := Inst) s s' → sys_inv s → drained c acc s → drained c acc s'.
Proof.
  intros Hstep Hinv Hd. inversion Hstep; subst; clear Hstep.
  - destruct Hd as [Hn (cell & Hc & Hr)].
    apply Spawn_Ok in H0 as (p & _ & _ & _ & _ & ->). split; [done|]. cbn.
    exists cell. rewrite lookup_insert_ne; [done|]. intros ->. congruence.
  - by destruct Hd; split.
  - apply drained_sends; [done|]. intros env'. rewrite elem_of_app, list_elem_of_singleton.
    by intros [?|?].
  - apply drained_sends; [done|]. intros env'. rewrite H, !elem_of_app, !elem_of_cons.
    intros [?|[[= <- <-]|?]]; auto.
    destruct Hd as [_ (x & Hx & Hcl & _)]. rewrite Hx in H0. simplify_eq. congruence.
  - apply drained_sends; [done|]. intros env'. rewrite H. set_solver.
  - assert (c0 ≠ c) as Hne.
    { intros ->. apply (dr_sends _ _ _ Hd env). rewrite H. set_solver. }
    apply drained_sends; [|intros env'; cbn; rewrite H; set_solver].
    destruct Hd as [Hn (x & Hx & Hr)]. split; [done|]. exists x. cbn.
    by rewrite lookup_insert_ne.
  - apply drained_sends; [done|]. intros env'. rewrite H. set_solver.
  - apply drained_sends; [done|]. intros env'. rewrite H. set_solver.
  - eapply drained_set_cell; eauto; done.
  - eapply drained_set_cell; eauto; done.
  - eapply drained_set_cell; eauto; done.
  - unfold stop_step. case_decide.
    + destruct (drained_set_cell c acc s c0 cell (with_stage (stop_next (c_stage cell)) cell))
        as [? ?]; auto; [|by split].
      cbn. by destruct (c_stage cell).
    + apply (drained_set_cell _ _ _ _ cell); auto. cbn. by destruct (c_stage cell).
Qed.

Lemma steps_drained c acc s s' :
  steps (Inst := Inst) s s' → sys_inv s → drained c acc s → drained c acc s'.
Proof. induction 1; eauto using step_drained, steps_sys_inv. Qed.

End Invariant.

(** ** Theorems on interleavings *)

(** C30: in every reachable state, whatever the interleaving of sends, stops,
    spawns and the actors' own goroutines, the messages a mailbox has accepted
    are the handled ones, then the one in process, then the queued ones: each
    is handled at most once, in the order of acceptance, and none is dropped;
    the queue never exceeds the channel's capacity. *)
Theorem actor_fifo_delivery {Msg Inst : Type} size (s : System Msg) c cell :
  steps (Inst := Inst) (NewWithOptions size) s → cells s !! c = Some cell →
  accepted cell = handled cell ++ in_process cell ++ ch (c_mailbox cell) ∧
  (Z.of_nat (length (ch (c_mailbox cell))) <= ch_cap (c_mailbox cell))%Z.
Proof.
  intros Hs Hc. destruct (sys_inv_cell s c cell); auto.
  apply (steps_sys_inv _ _ Hs), NewWithOptions_inv.
Qed.

(** In every reachable state the registry holds exactly the actors whose
    [stop] has not yet called [remove], each under its own name; so a stop
    never removes another actor that was spawned under the same name, and
    [Spawn] refuses a name exactly while such an actor exists. *)
Theorem actor_registry_exact {Msg Inst : Type} size (s : System Msg) :
  steps (Inst := Inst) (NewWithOptions size) s →
  ∀ pid c, get pid s = Some c ↔
    ∃ cell, cells s !! c = Some cell ∧ c_pid cell = pid ∧
      (c_stage cell = Live ∨ c_stage cell = Claimed).
Proof.
  intros Hs pid c. unfold get.
  rewrite (si_actors s (steps_sys_inv _ _ Hs (NewWithOptions_inv size))).
  split; intros (cell & Hc & Hp & Hr); exists cell; (split_and!; [done|done|]).
  - destruct (c_stage cell); naive_solver.
  - by destruct Hr as [-> | ->].
Qed.

(** C38: a stop drains the mailbox: from a reachable state in which the mailbox
    of an actor is closed, its goroutine has not left and no send is between
    the closed check and the channel, whatever happens next, when the
    goroutine has left it has handled every accepted message, in order, and
    the mailbox has accepted nothing more. *)
Theorem actor_stop_drains {Msg Inst : Type} size (s s' : System Msg) c cell cell' :
  steps (Inst := Inst) (NewWithOptions size) s →
  cells s !! c = Some cell → closed (c_mailbox cell) = true → c_phase cell ≠ Exited →
  no_passed c s →
  steps (Inst := Inst) s s' → cells s' !! c = Some cell' → c_phase cell' = Exited →
  accepted cell' = accepted cell ∧ handled cell' = accepted cell'.
Proof.
  intros H0 Hc Hcl Hph Hnp Hs Hc' Hex.
  pose proof (steps_sys_inv _ _ H0 (NewWithOptions_inv size)) as Hinv.
  destruct (steps_drained c (accepted cell) s s' Hs Hinv) as [_ (x & Hx & _ & Hacc & Hq)].
  { split; [done|]. exists cell. naive_solver. }
  rewrite Hc' in Hx. simplify_eq. split; [done|].
  destruct (sys_inv_cell s' c x) as [Hqueue _ _ _ _]; [by eapply steps_sys_inv|done|].
  rewrite Hqueue, Hq by done. unfold in_process. rewrite Hex. by rewrite !(right_id_L [] app).
Qed.

(** ** Running a schedule *)

Section Schedule.
Context {Msg Inst : Type}.
Implicit Types (s : System Msg).

(** An action of a schedule; a pending send is given by its position. *)
Inductive action : Type :=
| ASpawn (props : Props Inst) (uuid : string) (c : nat)
| ASend (to : string) (env : Envelope Msg)
| ACheck (i : nat)
| APush (i : nat)
| ANext (c : nat)
| ADone (c : nat)
| AExit (c : nat)
| AStop (c : nat).

(** [list_split i l] is what is before and after position [i]. *)
Definition list_split {A} (i : nat) (l : list A) : option (list A * A * list A) :=
  match drop i l with
  | [] => None
  | x :: r => Some (take i l, x, r)
  end.

Lemma list_split_Some {A} i (l : list A) l1 x r :
  list_split i l = Some (l1, x, r) → l = l1 ++ x :: r.
Proof.
  unfold list_split. destruct (drop i l) eqn:E; [done|]. intros [= <- <- <-].
  by rewrite <- E, take_drop.
Qed.

Definition exec (a : action) s : option (System Msg) :=
  match a with
  | ASpawn props uuid c =>
      match cells s !! c, Spawn (Some props) uuid c s with
      | None, Ok (s', _) => Some s'
      | _, _ => None
      end
  | ASend to env =>
      match send_lookup to s with
      | inr c => Some (set_sends (sends s ++ [Found c env]) s)
      | inl _ => None
      end
  | ACheck i =>
      match list_split i (sends s) with
      | Some (l, Found c env, r) =>
          cell ← cells s !! c;
          Some (set_sends (if closed (c_mailbox cell) then l ++ r else l ++ Passed c env :: r) s)
      | _ => None
      end
  | APush i =>
      match list_split i (sends s) with
      | Some (l, Passed c env, r) =>
          cell ← cells s !! c;
          if has_room (c_mailbox cell)
          then Some (set_sends (l ++ r) (set_cell c
            (MkCell (c_pid cell) (enqueue env (c_mailbox cell)) (c_stage cell) (c_phase cell)
               (accepted cell ++ [env]) (handled cell)) s))
          else None
      | _ => None
      end
  | ANext c =>
      cell ← cells s !! c;
      match c_phase cell, ch (c_mailbox cell) with
      | AtNext, env :: q => Some (set_cell c
          (MkCell (c_pid cell)
            (MkMailbox q (ch_cap (c_mailbox cell)) (stopCh (c_mailbox cell)) (closed (c_mailbox cell)))
            (c_stage cell) (Processing env) (accepted cell) (handled cell)) s)
      | _, _ => None
      end
  | ADone c =>
      cell ← cells s !! c;
      match c_phase cell with
      | Processing env => Some (set_cell c
          (MkCell (c_pid cell) (c_mailbox cell) (c_stage cell) AtNext (accepted cell)
            (handled cell ++ [env])) s)
      | _ => None
      end
  | AExit c =>
      cell ← cells s !! c;
      match c_phase cell, ch (c_mailbox cell), stopCh (c_mailbox cell) with
      | AtNext, [], true => Some (set_cell c (with_phase Exited cell) s)
      | _, _, _ => None
      end
  | AStop c =>
      cell ← cells s !! c;
      if decide (c_stage cell = Closed) then None else Some (stop_step c cell s)
  end.

Lemma exec_step a s s' : exec a s = Some s' → step (Inst := Inst) s s'.
Proof.
  destruct a as [props uuid c|to env|i|i|c|c|c|c]; cbn -[Spawn]; intros H.
  - destruct (cells s !! c) eqn:?; [done|].
    destruct (Spawn (Some props) uuid c s) as [[s1 pid]|] eqn:?; simplify_eq. by eapply step_spawn.
  - destruct (send_lookup to s) eqn:?; simplify_eq. by eapply step_send.
  - destruct (list_split i (sends s)) as [[[l [c env|c env]] r]|] eqn:E; try done.
    apply list_split_Some in E. destruct (cells s !! c) as [cell|] eqn:?; [|done]. cbn in H.
    destruct (closed (c_mailbox cell)) eqn:?; simplify_eq;
      [by eapply step_refused|by eapply step_check].
  - destruct (list_split i (sends s)) as [[[l [c env|c env]] r]|] eqn:E; try done.
    apply list_split_Some in E. destruct (cells s !! c) as [cell|] eqn:?; [|done]. cbn in H.
    destruct (has_room (c_mailbox cell)) eqn:?; simplify_eq. by eapply step_push.
  - destruct (cells s !! c) as [cell|] eqn:?; [|done]. cbn in H.
    destruct (c_phase cell) eqn:?; try done. destruct (ch (c_mailbox cell)) eqn:?; simplify_eq.
    by eapply step_next.
  - destruct (cells s !! c) as [cell|] eqn:?; [|done]. cbn in H.
    destruct (c_phase cell) eqn:?; simplify_eq. by eapply step_done.
  - destruct (cells s !! c) as [cell|] eqn:?; [|done]. cbn in H.
    destruct (c_phase cell) eqn:?, (ch (c_mailbox cell)) eqn:?, (stopCh (c_mailbox cell)) eqn:?;
      simplify_eq. by eapply step_exit.
  - destruct (cells s !! c) as [cell|] eqn:?; [|done]. cbn in H.
    case_decide; simplify_eq. by eapply step_stop.
Qed.

Fixpoint run_schedule (l : list action) s : option (System Msg) :=
  match l with
  | [] => Some s
  | a :: l => s' ← exec a s; run_schedule l s'
  end.

Lemma steps_left s1 s2 s3 :
  step (Inst := Inst) s1 s2 → steps (Inst := Inst) s2 s3 → steps (Inst := Inst) s1 s3.
Proof. intros H1 H2. induction H2; eauto using steps_trans, steps_refl. Qed.

Lemma run_schedule_steps l s s' : run_schedule l s = Some s' → steps (Inst := Inst) s s'.
Proof.
  revert s. induction l as [|a l IH]; cbn; intros s H; [simplify_eq; constructor|].
  destruct (exec a s) as [s1|] eqn:E; [|done]. eapply steps_left; [by eapply exec_step|by apply IH].
Qed.

End Schedule.
Arguments action : clear implicits.

(** ** Concrete runs *)

Definition ex_props : Props unit := MkProps "a" (Some tt) None 2 None.
Definition ex_env (n : nat) : Envelope nat := MkEnvelope "" n.

(** Two messages are accepted and the actor is stopped while it works on the
    first one. *)
Definition ex_stop_acts : list (action nat unit) :=
  [ASpawn ex_props "" 0; ASend "a" (ex_env 0); ASend "a" (ex_env 1); ACheck 0; ACheck 1; APush 0;
   APush 0; ANext 0; AStop 0; AStop 0; AStop 0; AStop 0].

Definition ex_drain_acts : list (action nat unit) := [ADone 0; ANext 0; ADone 0; AExit 0].

(** A send passes the closed check, the actor is stopped and leaves, and the
    send then finds room in the channel. *)
Definition ex_lost_acts : list (action nat unit) :=
  [ASpawn ex_props "" 0; ASend "a" (ex_env 7); ACheck 0; AStop 0; AStop 0; AStop 0; AStop 0;
   AExit 0; APush 0].

Definition ex_run (l : list (action nat unit)) : System nat :=
  default (NewWithOptions 64) (run_schedule l (NewWithOptions 64)).

Definition ex_the_cell (l : list (action nat unit)) : actorCell nat :=
  default (newActor "" ex_props (NewWithOptions 64)) (cells (ex_run l) !! 0).

Lemma ex_stop_reachable : steps (Inst := unit) (NewWithOptions 64) (ex_run ex_stop_acts).
Proof. apply (run_schedule_steps ex_stop_acts). vm_compute. reflexivity. Qed.

Lemma ex_drain_reachable :
  steps (Inst := unit) (ex_run ex_stop_acts) (ex_run (ex_stop_acts ++ ex_drain_acts)).
Proof. apply (run_schedule_steps ex_drain_acts). vm_compute. reflexivity. Qed.

Lemma ex_lost_reachable : steps (Inst := unit) (NewWithOptions 64) (ex_run ex_lost_acts).
Proof. apply (run_schedule_steps ex_lost_acts). vm_compute. reflexivity. Qed.

Lemma actor_fifo_delivery_witness :
  accepted (ex_the_cell ex_stop_acts) = [ex_env 0] ++ [ex_env 1] ∧
  handled (ex_the_cell ex_stop_acts) = [] ∧
  (Z.of_nat (length (ch (c_mailbox (ex_the_cell ex_stop_acts)))) <= 2)%Z.
Proof.
  destruct (actor_fifo_delivery 64 (ex_run ex_stop_acts) 0 (ex_the_cell ex_stop_acts)
              ex_stop_reachable) as [H1 H2]; [vm_compute; reflexivity|].
  split_and!; [exact H1|vm_compute; reflexivity|exact H2].
Defined.

Lemma actor_registry_exact_witness :
  get "a" (ex_run (take 8 ex_stop_acts)) = Some 0 ∧ get "a" (ex_run ex_stop_acts) = None.
Proof.
  split; [|vm_compute; reflexivity].
  apply (actor_registry_exact (Inst := unit) 64 (ex_run (take 8 ex_stop_acts))).
  - apply (run_schedule_steps (take 8 ex_stop_acts)). vm_compute. reflexivity.
  - exists (ex_the_cell (take 8 ex_stop_acts)).
    split; [vm_compute; reflexivity|]. split; [vm_compute; reflexivity|]. left. vm_compute. reflexivity.
Defined.

Lemma actor_stop_drains_witness :
  handled (ex_the_cell (ex_stop_acts ++ ex_drain_acts)) = [ex_env 0; ex_env 1].
Proof.
  destruct (actor_stop_drains (Inst := unit) 64 (ex_run ex_stop_acts)
              (ex_run (ex_stop_acts ++ ex_drain_acts)) 0 (ex_the_cell ex_stop_acts)
              (ex_the_cell (ex_stop_acts ++ ex_drain_acts)) ex_stop_reachable)
    as [H1 H2]; [vm_compute; reflexivity|vm_compute; reflexivity|vm_compute; congruence| | | | |].
  - intros env Hin. vm_compute in Hin. inversion Hin.
  - apply ex_drain_reachable.
  - vm_compute. reflexivity.
  - vm_compute. reflexivity.
  - rewrite H2, H1. vm_compute. reflexivity.
Defined.

(** A send that is between the closed check and the channel when the actor is
    stopped is accepted, its caller gets nil, and the message is never
    handled. *)
Theorem accepted_message_lost :
  ∃ s cell, steps (Inst := unit) (Msg := nat) (NewWithOptions 64) s ∧ cells s !! 0 = Some cell ∧
    c_phase cell = Exited ∧ sends s = [] ∧ accepted cell = [ex_env 7] ∧ handled cell = [].
Proof.
  exists (ex_run ex_lost_acts), (ex_the_cell ex_lost_acts).
  split; [apply ex_lost_reachable|]. split_and!; vm_compute; reflexivity.
Qed.

(** ** Supervision *)

Section Supervised.
Context {Msg Inst Beh : Type}.
Context (receive : Inst → option Beh → Envelope Msg → Inst * option Beh * bool).
Context (pid : string) (p : Props Inst) (sv : Supervision).

Implicit Types (c : core (Inst := Inst) (Beh := Beh)).

(** The rounds of [loop] on a sequence of messages: for each, whether it
    panicked and what the cell did. *)
Fixpoint run_loop c (envs : list (Envelope Msg)) : core * list (bool * list event) :=
  match envs with
  | [] => (c, [])
  | env :: envs =>
      let '(c, b, es) := loop_round receive pid p (Some sv) c env in
      let '(c, outs) := run_loop c envs in
      (c, (b, es) :: outs)
  end.

(** The length of the run of panics a sequence ends with. *)
Definition trailing_panics (bs : list bool) : Z :=
  fold_left (λ n (b : bool), if b then n + 1 else 0)%Z bs 0%Z.

Lemma trailing_panics_snoc bs b :
  trailing_panics (bs ++ [b]) = (if b then trailing_panics bs + 1 else 0)%Z.
Proof. unfold trailing_panics. by rewrite fold_left_app. Qed.

Lemma trailing_panics_bound bs : (0 <= trailing_panics bs <= Z.of_nat (length bs))%Z.
Proof.
  induction bs as [|b bs IH] using rev_ind; [done|].
  rewrite trailing_panics_snoc, length_app; cbn. destruct b; lia.
Qed.

Lemma run_loop_app c l1 l2 :
  run_loop c (l1 ++ l2) =
  let '(c1, o1) := run_loop c l1 in let '(c2, o2) := run_loop c1 l2 in (c2, o1 ++ o2).
Proof.
  revert c. induction l1 as [|env l1 IH]; intros c; cbn.
  - by destruct (run_loop c l2).
  - destruct (loop_round _ _ _ _ _ _) as [[c' b] es]. rewrite IH.
    destruct (run_loop c' l1) as [c1 o1]. by destruct (run_loop c1 l2).
Qed.

Lemma run_loop_length c l : length (run_loop c l).2 = length l.
Proof.
  revert c. induction l as [|env l IH]; intros c; cbn; [done|].
  destruct (loop_round _ _ _ _ _ _) as [[c' b] es]. specialize (IH c').
  destruct (run_loop c' l). cbn in *. by f_equal.
Qed.

(** The round that gives up. *)
Definition gives_up (n : Z) : bool :=
  (0 <? MaxConsecutiveRestarts sv)%Z && (MaxConsecutiveRestarts sv <? n)%Z.

Lemma restart_failures c : consecutiveFailures (restart p c) = consecutiveFailures c.
Proof. unfold restart. by destruct (Producer p). Qed.

(** One round: the counter and the events. *)
Lemma loop_round_spec c env c' b es :
  Strategy sv ≠ RestartNever → GoInt.in_i64 (consecutiveFailures c + 1) →
  loop_round receive pid p (Some sv) c env = (c', b, es) →
  consecutiveFailures c' = (if b then consecutiveFailures c + 1 else 0)%Z ∧
  (EStop ∈ es ↔ b = true ∧ gives_up (consecutiveFailures c + 1) = true) ∧
  (EPreStart ∈ es ↔ b = true ∧ gives_up (consecutiveFailures c + 1) = false).
Proof.
  intros Hst Hr. unfold loop_round, process, handlePanic.
  destruct (receive _ _ _) as [[a b'] panicked]. destruct panicked.
  - rewrite decide_False by done. cbn. rewrite GoInt.i64_id by done. fold (gives_up (consecutiveFailures c + 1)).
    destruct (gives_up _) eqn:Hg; intros [= <- <- <-]; cbn; rewrite ?restart_failures.
    + destruct (OnPanic sv), (OnGiveUp sv); set_solver.
    + destruct (OnPanic sv), (decide (Strategy sv = RestartBackoff)); set_solver.
  - intros [= <- <- <-]. cbn. set_solver.
Qed.

Lemma run_loop_failures c envs :
  Strategy sv ≠ RestartNever → consecutiveFailures c = 0%Z → (Z.of_nat (length envs) < 2 ^ 63 - 1)%Z →
  consecutiveFailures (run_loop c envs).1 = trailing_panics ((run_loop c envs).2.*1).
Proof.
  intros Hst H0. induction envs as [|env envs IH] using rev_ind; intros Hlen; [done|].
  rewrite length_app in Hlen. cbn in Hlen. specialize (IH ltac:(lia)).
  pose proof (run_loop_length c envs) as Hl.
  rewrite run_loop_app. destruct (run_loop c envs) as [c1 o1]. cbn [fst snd] in *.
  pose proof (trailing_panics_bound (o1.*1)) as Hb. rewrite length_fmap in Hb.
  cbn [run_loop]. destruct (loop_round _ _ _ _ _ _) as [[c' b] es] eqn:E.
  apply loop_round_spec in E as (E & _); [|done|unfold GoInt.in_i64; lia].
  cbn [fst snd]. rewrite fmap_app. cbn [fmap list_fmap fst]. rewrite trailing_panics_snoc. destruct b; lia.
Qed.

End Supervised.

(** With a restarting strategy, the cell stops itself at exactly the
    messages at which more than [MaxConsecutiveRestarts] messages in a row
    have panicked (never when the limit is 0), and restarts the actor with
    [PreStart] at every other panic; a message that is handled without a panic
    starts the count again. *)
Theorem supervision_gives_up_exactly {Msg Inst Beh : Type}
    (receive : Inst → option Beh → Envelope Msg → Inst * option Beh * bool)
    pid (p : Props Inst) sv (c : core) envs i b es :
  Strategy sv ≠ RestartNever → consecutiveFailures c = 0%Z →
  (Z.of_nat (length envs) < 2 ^ 63 - 1)%Z →
  (run_loop receive pid p sv c envs).2 !! i = Some (b, es) →
  let n := trailing_panics (take (S i) ((run_loop receive pid p sv c envs).2.*1)) in
  (EStop ∈ es ↔ (0 < MaxConsecutiveRestarts sv < n)%Z) ∧
  (EPreStart ∈ es ↔ b = true ∧ ¬ (0 < MaxConsecutiveRestarts sv < n)%Z).
Proof.
  intros Hst H0 Hlen Hi. cbn zeta.
  assert (i < length envs) as Hlt.
  { apply lookup_lt_Some in Hi. by rewrite run_loop_length in Hi. }
  destruct (lookup_lt_is_Some_2 envs i Hlt) as [env Henv].
  rewrite <- (take_drop_middle envs i env Henv), run_loop_app in Hi |- *.
  pose proof (run_loop_length receive pid p sv c (take i envs)) as Hl.
  pose proof (run_loop_failures receive pid p sv c (take i envs) Hst H0) as Hf.
  rewrite length_take in Hl, Hf. specialize (Hf ltac:(lia)).
  destruct (run_loop receive pid p sv c (take i envs)) as [c1 o1]. cbn [fst snd] in *.
  pose proof (trailing_panics_bound (o1.*1)) as Hb. rewrite length_fmap in Hb.
  cbn [run_loop] in *. destruct (loop_round receive pid p (Some sv) c1 env) as [[c' b'] es'] eqn:E.
  destruct (run_loop receive pid p sv c' (drop (S i) envs)) as [c2 o2]. cbn [fst snd] in *.
  assert (i = length o1 + 0) as Hio by lia.
  rewrite Hio in Hi. rewrite lookup_app_r in Hi by lia.
  replace (length o1 + 0 - length o1) with 0 in Hi by lia. cbn in Hi. simplify_eq.
  rewrite fmap_app. cbn [fmap list_fmap fst].
  replace (S (length o1 + 0)) with (length (o1.*1) + 1) by (rewrite length_fmap; lia).
  rewrite take_app_add. cbn [take]. rewrite ?take_0, trailing_panics_snoc.
  apply loop_round_spec in E as (_ & -> & ->); [|done|unfold GoInt.in_i64; lia].
  unfold gives_up. rewrite Hf.
  destruct (Z.ltb_spec 0 (MaxConsecutiveRestarts sv)),
    (Z.ltb_spec (MaxConsecutiveRestarts sv) (trailing_panics o1.*1 + 1)), b;
    naive_solver lia.
Qed.

(** An actor that panics on odd messages, with two restarts allowed. *)
Definition ex_receive (a : unit) (b : option unit) (env : Envelope nat) : unit * option unit * bool :=
  (a, b, Nat.odd (Message env)).

Definition ex_sv : Supervision := MkSupervision RestartBackoff 2 0 0 true true.

Definition ex_outs (l : list nat) : list (bool * list event) :=
  (run_loop ex_receive "a" ex_props ex_sv (MkCore tt None 0 0) (ex_env <$> l)).2.

Definition ex_msgs : list nat := [1; 3; 2; 5; 7; 9; 11].

Definition ex_round (i : nat) : bool * list event := default (false, []) (ex_outs ex_msgs !! i).

Lemma supervision_gives_up_exactly_witness :
  EStop ∈ (ex_round 5).2 ∧ ¬ (EStop ∈ (ex_round 4).2).
Proof.
  destruct (supervision_gives_up_exactly ex_receive "a" ex_props ex_sv (MkCore tt None 0 0)
              (ex_env <$> ex_msgs) 5 (ex_round 5).1 (ex_round 5).2) as [H5 _];
    [discriminate|reflexivity|reflexivity|vm_compute; reflexivity|].
  destruct (supervision_gives_up_exactly ex_receive "a" ex_props ex_sv (MkCore tt None 0 0)
              (ex_env <$> ex_msgs) 4 (ex_round 4).1 (ex_round 4).2) as [H4 _];
    [discriminate|reflexivity|reflexivity|vm_compute; reflexivity|].
  split; [apply H5; vm_compute; done|].
  intros H. apply H4 in H. vm_compute in H. destruct H as [_ H]. discriminate H.
Defined.

(** After it has given up the cell drains its mailbox with the instance that
    crashed: every further panic calls [OnGiveUp] again. *)
Theorem give_up_reported_again :
  map (λ o, existsb (λ e, match e with EOnGiveUp _ => true | _ => false end) o.2)
    (ex_outs [1; 1; 1; 1; 1]) = [false; false; true; true; true].
Proof. vm_compute. reflexivity. Qed.

(** ** Back-off *)

Lemma backoff_loop_closed n d max :
  (0 < d)%Z → (d * 2 < 2 ^ 63)%Z → (max * 2 < 2 ^ 63)%Z →
  backoff_loop (S n) d max = Z.min (d * 2 ^ Z.of_nat (S n)) max.
Proof.
  revert d. induction n as [|n IH]; intros d Hd Hov Hmax; cbn [backoff_loop].
  - rewrite GoInt.i64_id by (unfold GoInt.in_i64; lia). destruct (Z.leb_spec max (d * 2)); lia.
  - rewrite GoInt.i64_id by (unfold GoInt.in_i64; lia).
    rewrite (Nat2Z.inj_succ (S n)), Z.pow_succ_r by lia.
    destruct (Z.leb_spec max (d * 2)) as [Hle|Hlt].
    + assert (0 < 2 ^ Z.of_nat (S n))%Z by (apply Z.pow_pos_nonneg; lia). nia.
    + specialize (IH (d * 2)%Z). cbn [backoff_loop] in IH. rewrite IH by lia. f_equal. lia.
Qed.

(** The back-off before restart [n] of a row is [initial * 2^(n-1)] capped
    at the maximum for [n >= 2], with the documented defaults, and does not
    overflow; the first back-off is [initial] itself, which the code does not
    cap. *)
Theorem backoff_closed_form sv n :
  let initial := if (BackoffInitial sv <=? 0)%Z then (100 * ms)%Z else BackoffInitial sv in
  let max := if (BackoffMax sv <=? 0)%Z then (5000 * ms)%Z else BackoffMax sv in
  (BackoffInitial sv * 2 < 2 ^ 63)%Z → (BackoffMax sv * 2 < 2 ^ 63)%Z → (1 <= n)%Z →
  backoffFor sv n = if (n =? 1)%Z then initial else Z.min (initial * 2 ^ (n - 1)) max.
Proof.
  intros initial max Hi Hm Hn. unfold backoffFor. fold initial max.
  destruct (Z.eqb_spec n 1) as [->|Hne]; [done|].
  destruct (Z.to_nat (n - 1)) as [|k] eqn:Hk; [lia|].
  rewrite backoff_loop_closed.
  - do 2 f_equal. f_equal. lia.
  - unfold initial. destruct (Z.leb_spec (BackoffInitial sv) 0); unfold ms; lia.
  - unfold initial. destruct (Z.leb_spec (BackoffInitial sv) 0); unfold ms; lia.
  - unfold max. destruct (Z.leb_spec (BackoffMax sv) 0); unfold ms; lia.
Qed.

Lemma backoff_closed_form_witness : backoffFor ex_sv 4 = (800 * ms)%Z ∧ backoffFor ex_sv 40 = (5000 * ms)%Z.
Proof.
  split.
  - rewrite (backoff_closed_form ex_sv 4); [reflexivity| | |]; cbn; lia.
  - rewrite (backoff_closed_form ex_sv 40); [reflexivity| | |]; cbn; lia.
Defined.

(** ** Futures *)

(** Only the first delivery counts, and the channel is closed once. *)
Theorem deliver_once {Msg : Type} (msgs : list (option Msg)) m :
  fold_left (λ f m, deliver m f) (m :: msgs) new_future = MkFuture true m true.
Proof.
  cbn. replace (match m with Some m0 => Some m0 | None => None end) with m by (by destruct m).
  by induction msgs as [|m' msgs IH].
Qed.

(** A timed send to an actor that is not there calls the dead-letter callback
    twice, where [Send] calls it once. *)
Theorem dead_letter_reported_twice :
  send_dead_letters (Some ErrActorNotFound) = 1 ∧ SendAfter_fire (Some ErrActorNotFound) = 2 ∧
  SendEvery_tick (Some ErrActorNotFound) = (2, false).
Proof. done. Qed.
