(* ===== verification/WsSession.v ===== *)
(** * plugins/websocket: connections, envelopes and resumable sessions

    Models the outbound side of [Conn] ([server.go]), the envelope protocol
    and router ([protocol.go]) and session resume ([session.go]).  Connections
    and sessions are shared by pointer, so both live in stores indexed by
    address.  The frames of [outbox] that the writer goroutine has put on the
    wire are removed from it by [write_frame]. *)

From S2P Require Import Prelude.

Import GoError.

(** ** Configuration *)

Record SessionResumeConfig := MkSessionResumeConfig {
  BufferCapacity : Z;
  TTL : Z;
  MaxSessions : Z
}.

Definition defaultReplayBufferCapacity : Z := 1024.
Definition defaultSessionTTL : Z := 60 * GoTime.Second.

Definition normalize (c : SessionResumeConfig) : SessionResumeConfig :=
  MkSessionResumeConfig
    (if (BufferCapacity c <=? 0)%Z then defaultReplayBufferCapacity else BufferCapacity c)
    (if (TTL c <=? 0)%Z then defaultSessionTTL else TTL c)
    (MaxSessions c).

(** ** Identities and close codes *)

Record Identity := MkIdentity {
  ConnectionID : string;
  ClientID : string;
  UserID : string;
  TenantID : string;
  Groups : list string;
  Metadata : gmap string string;
  RemoteAddr : string;
  Path : string;
  Authenticated : bool
}.

Record AuthResult := MkAuthResult {
  ar_ClientID : string;
  ar_UserID : string;
  ar_TenantID : string;
  ar_Groups : list string;
  ar_Metadata : gmap string string
}.

Definition newIdentity (uuid remote path : string) (auth : option AuthResult) : Identity :=
  match auth with
  | None => MkIdentity uuid "" "" "" [] ∅ remote path false
  | Some a =>
      MkIdentity uuid (ar_ClientID a) (ar_UserID a) (ar_TenantID a) (ar_Groups a) (ar_Metadata a)
        remote path true
  end.

Inductive CloseCode : Type :=
| CloseCodeNormal | CloseCodeAuthFailed | CloseCodeHeartbeatTimeout | CloseCodeIdleTimeout
| CloseCodeReadError | CloseCodeWriteError | CloseCodeServerShutdown | CloseCodeReconnectExhausted
| CloseCodeInternalError | CloseCodeSendQueueFull | CloseCodeRateLimited.

(** The close frame's status for a code. *)
Inductive StatusCode : Type :=
| StatusNormalClosure | StatusPolicyViolation | StatusGoingAway | StatusInternalError.

Definition close_status (code : CloseCode) : StatusCode :=
  match code with
  | CloseCodeAuthFailed => StatusPolicyViolation
  | CloseCodeHeartbeatTimeout | CloseCodeIdleTimeout => StatusGoingAway
  | CloseCodeWriteError | CloseCodeReadError | CloseCodeInternalError => StatusInternalError
  | _ => StatusNormalClosure
  end.

(** ** Envelopes *)

Record Envelope := MkEnvelope {
  Seq : Z;
  Action : string;
  ReqID : string;
  Code : Z;
  EErr : string;
  Data : option string
}.

Definition CodeOK : Z := 0.
Definition CodeError : Z := 1.

Definition errEnvelopeNil : error := Errorf "websocket: envelope is nil" [].
Definition errEnvelopeAction : error := Errorf "websocket: envelope action is empty" [].
Definition errNotTextFrame : error := Errorf "websocket: expected text frame for envelope" [].
Definition errUnknownAction : error := Errorf "websocket: unknown action" [].
Definition errTooManyConnections : error := Errorf "websocket: too many connections" [].
Definition errSessionDisplaced : error := Errorf "websocket: session resumed elsewhere" [].

(** [data] is the outcome of marshalling a non-nil value. *)
Definition NewEnvelope (action : string) (data : option (result string)) : result Envelope :=
  if decide (action = "") then Err errEnvelopeAction
  else
    match data with
    | None => Ok (MkEnvelope 0 action "" 0 "" None)
    | Some (Err e) => Err e
    | Some (Ok raw) => Ok (MkEnvelope 0 action "" 0 "" (Some raw))
    end.

(** ** Replay buffer *)

Section Payload.
Context {Payload : Type}.

Record storedMessage := MkStored {
  seq : Z;
  payload : Payload
}.

Record replayBuffer := MkReplay {
  cap : Z;
  ring : list storedMessage
}.

Definition newReplayBuffer (capacity : Z) : replayBuffer := MkReplay capacity [].

Definition store (sq : Z) (pl : Payload) (b : replayBuffer) : replayBuffer :=
  let ring := ring b ++ [MkStored sq pl] in
  let n := Z.of_nat (length ring) in
  MkReplay (cap b) (if (cap b <? n)%Z then drop (Z.to_nat (n - cap b)) ring else ring).

Definition replayAfter (lastSeq : Z) (b : replayBuffer) : list Payload :=
  payload <$> filter (λ m, lastSeq < seq m)%Z (ring b).

(** ** Sessions *)

Record session := MkSession {
  id : string;
  s_userID : string;
  s_seq : Z;
  s_conn : option nat;
  buf : replayBuffer;
  lastSeen : Z
}.

Definition nextSeq (s : session) : session * Z :=
  let n := GoInt.u64 (s_seq s + 1) in
  (MkSession (id s) (s_userID s) n (s_conn s) (buf s) (lastSeen s), n).

Definition session_store (sq : Z) (pl : Payload) (s : session) : session :=
  MkSession (id s) (s_userID s) (s_seq s) (s_conn s) (store sq pl (buf s)) (lastSeen s).

Definition attach (c : nat) (now : Z) (s : session) : session * option nat :=
  (MkSession (id s) (s_userID s) (s_seq s) (Some c) (buf s) now, s_conn s).

Definition detach (c : nat) (now : Z) (s : session) : session :=
  MkSession (id s) (s_userID s) (s_seq s)
    (if decide (s_conn s = Some c) then None else s_conn s) (buf s) now.

Definition touch (now : Z) (s : session) : session :=
  MkSession (id s) (s_userID s) (s_seq s) (s_conn s) (buf s) now.

(** ** Connections *)

(** A frame is a payload and whether it is text. *)
Record Conn := MkConn {
  identity : Identity;
  closed : bool;
  closeCode : CloseCode;
  outbox : list (Payload * bool);
  outbox_cap : Z;
  outSeq : Z;
  c_session : option nat
}.

Record world := MkWorld {
  conns : gmap nat Conn;
  sessions : gmap nat session;
  disconnects : list (string * CloseCode)
}.

Definition set_conn (c : nat) (x : Conn) (w : world) : world :=
  MkWorld (<[c := x]> (conns w)) (sessions w) (disconnects w).

Definition on_session (p : nat) (f : session → session) (w : world) : world :=
  MkWorld (conns w) (alter f p (sessions w)) (disconnects w).

(** The queue [ensureWriter] creates. *)
Definition send_queue_size (SendQueueSize : Z) : Z :=
  if (SendQueueSize <=? 0)%Z then 256 else SendQueueSize.

Definition new_conn (ident : Identity) (SendQueueSize : Z) : Conn :=
  MkConn ident false CloseCodeNormal [] (send_queue_size SendQueueSize) 0 None.

(** The outcome of closing the network connection at an address. *)
Context (net_close : nat → option error).

(** [close]: only the first call has an effect. *)
Definition close (c : nat) (code : CloseCode) (now : Z) (w : world) : world * option error :=
  match conns w !! c with
  | None => (w, None)
  | Some x =>
      if closed x then (w, None)
      else
        let w := set_conn c (MkConn (identity x) true code (outbox x) (outbox_cap x) (outSeq x)
                               (c_session x)) w in
        let w := match c_session x with Some p => on_session p (detach c now) w | None => w end in
        (MkWorld (conns w) (sessions w) (disconnects w ++ [(ConnectionID (identity x), code)]),
         net_close c)
  end.

(** [send]: a full queue closes the connection. *)
Definition send (c : nat) (pl : Payload) (text : bool) (now : Z) (w : world) : world * option error :=
  match conns w !! c with
  | None => (w, Some (Errorf "websocket: connection is not initialized" []))
  | Some x =>
      if closed x then (w, Some (Errorf "websocket: connection closed" []))
      else if (Z.of_nat (length (outbox x)) <? outbox_cap x)%Z then
        (set_conn c (MkConn (identity x) (closed x) (closeCode x) (outbox x ++ [(pl, text)])
                       (outbox_cap x) (outSeq x) (c_session x)) w, None)
      else
        let err := Errorf "websocket: send queue full" [] in
        let '(w, closeErr) := close c CloseCodeSendQueueFull now w in
        (w, Some (match closeErr with
                  | Some _ => ErrorfW "%w: close connection: %v" [] err
                  | None => err
                  end))
  end.

(** The second half of [send], after the closed check: the queue of a
    connection that was closed in between is a closed channel. *)
Definition send_enqueue (c : nat) (pl : Payload) (text : bool) (now : Z) (w : world) :
    outcome (world * option error) :=
  match conns w !! c with
  | Some x => if closed x then Panic "send on closed channel" [] else Ret (send c pl text now w)
  | None => Ret (send c pl text now w)
  end.

(** One round of [writeLoop] that succeeds. *)
Definition write_frame (c : nat) (w : world) : world * option (Payload * bool) :=
  match conns w !! c with
  | Some x =>
      match outbox x with
      | f :: q =>
          (set_conn c (MkConn (identity x) (closed x) (closeCode x) q (outbox_cap x) (outSeq x)
                         (c_session x)) w, Some f)
      | [] => (w, None)
      end
  | None => (w, None)
  end.

(** ** Envelopes on a connection *)

(** [json.Marshal] of an envelope. *)
Context (marshal : Envelope → result Payload).

(** The sequence number of a connection's next envelope. *)
Definition stamp (c : nat) (x : Conn) (w : world) : world * Z :=
  match c_session x with
  | Some p =>
      match sessions w !! p with
      | Some s => (on_session p (λ s, (nextSeq s).1) w, (nextSeq s).2)
      | None => (w, 0%Z)
      end
  | None =>
      let n := GoInt.u64 (outSeq x + 1) in
      (set_conn c (MkConn (identity x) (closed x) (closeCode x) (outbox x) (outbox_cap x) n None) w, n)
  end.

Definition with_seq (n : Z) (env : Envelope) : Envelope :=
  MkEnvelope n (Action env) (ReqID env) (Code env) (EErr env) (Data env).

Definition SendEnvelope (c : nat) (env : option Envelope) (now : Z) (w : world) : world * option error :=
  match env, conns w !! c with
  | None, _ => (w, Some errEnvelopeNil)
  | Some env, Some x =>
      if decide (Action env = "") then (w, Some errEnvelopeAction)
      else
        let '(w, n) := stamp c x w in
        match marshal (with_seq n env) with
        | Err e => (w, Some e)
        | Ok data =>
            let w := match c_session x with
                     | Some p => on_session p (session_store n data) w
                     | None => w
                     end in
            send c data true now w
        end
  | Some _, None => (w, None)
  end.

Definition Reply (c : nat) (req : option Envelope) (data : option (result string))
    (appErr : option string) (now : Z) (w : world) : world * option error :=
  match req with
  | None => (w, Some errEnvelopeNil)
  | Some req =>
      match appErr, data with
      | Some e, _ =>
          SendEnvelope c (Some (MkEnvelope 0 (Action req) (ReqID req) CodeError e None)) now w
      | None, Some (Err e) => (w, Some e)
      | None, Some (Ok raw) =>
          SendEnvelope c (Some (MkEnvelope 0 (Action req) (ReqID req) CodeOK "" (Some raw))) now w
      | None, None =>
          SendEnvelope c (Some (MkEnvelope 0 (Action req) (ReqID req) CodeOK "" None)) now w
      end
  end.

(** A received frame ([text] or not) and [json.Unmarshal] of its payload. *)
Definition ReceiveEnvelope (received : result (bool * Payload))
    (unmarshal : Payload → result Envelope) : result Envelope :=
  match received with
  | Err e => Err e
  | Ok (text, pl) => if text then unmarshal pl else Err errNotTextFrame
  end.

(** ** Session registry *)

Record SessionRegistry := MkRegistry {
  r_sessions : gmap string nat;
  cfg : SessionResumeConfig;
  r_stopped : bool
}.

Definition NewSessionRegistry (c : SessionResumeConfig) : SessionRegistry :=
  MkRegistry ∅ (normalize c) false.

Definition idle (now : Z) (r : SessionRegistry) (w : world) (p : nat) : bool :=
  match sessions w !! p with
  | Some s => bool_decide (s_conn s = None) && (TTL (cfg r) <? GoTime.Sub now (lastSeen s))%Z
  | None => false
  end.

Definition evictExpired (now : Z) (w : world) (r : SessionRegistry) : SessionRegistry :=
  MkRegistry (filter (λ kv, idle now r w kv.2 = false) (r_sessions r)) (cfg r) (r_stopped r).

(** The first part of [resolve], under the read lock. *)
Definition resolve_existing (sessionID : string) (now : Z) (r : SessionRegistry) (w : world) :
    option (world * nat) :=
  match r_sessions r !! sessionID with
  | Some p => Some (on_session p (touch now) w, p)
  | None => None
  end.

(** The rest, under the write lock; [p] is the address of a new session. *)
Definition resolve_create (sessionID userID : string) (p : nat) (now : Z) (r : SessionRegistry)
    (w : world) : SessionRegistry * world * option nat * bool :=
  match r_sessions r !! sessionID with
  | Some p => (r, w, Some p, true)
  | None =>
      if (0 <? MaxSessions (cfg r))%Z && (MaxSessions (cfg r) <=? Z.of_nat (size (r_sessions r)))%Z
      then (r, w, None, false)
      else
        let s := MkSession sessionID userID 0 None (newReplayBuffer (BufferCapacity (cfg r))) now in
        (MkRegistry (<[sessionID := p]> (r_sessions r)) (cfg r) (r_stopped r),
         MkWorld (conns w) (<[p := s]> (sessions w)) (disconnects w), Some p, false)
  end.

Definition resolve (sessionID userID : string) (p : nat) (now : Z) (r : SessionRegistry)
    (w : world) : SessionRegistry * world * option nat * bool :=
  match resolve_existing sessionID now r w with
  | Some (w, p) => (r, w, Some p, true)
  | None => resolve_create sessionID userID p now r w
  end.

Definition Registry_Close (r : SessionRegistry) : SessionRegistry :=
  MkRegistry (r_sessions r) (cfg r) true.

(** ** Attaching a connection *)

(** [query.Get]. *)
Record resumeInfo := MkResumeInfo {
  sessionID : string;
  lastSeq : Z
}.

(** [strconv.ParseUint(s, 10, 64)]. *)
Definition ParseUint (s : string) : option Z :=
  match s with
  | String.EmptyString => None
  | _ =>
      match GoStrconv.digits s 0 with
      | Some n => if (n <? 2 ^ 64)%Z then Some n else None
      | None => None
      end
  end.

Definition parseResumeQuery (query : string → string) : resumeInfo * bool :=
  let sid := query "session_id" in
  if decide (sid = "") then (MkResumeInfo "" 0, false)
  else
    let ls := query "last_seq" in
    (MkResumeInfo sid
       (if decide (ls = "") then 0 else match ParseUint ls with Some n => n | None => 0 end)%Z, true).

(** Sending the missed messages one after the other. *)
Fixpoint replay (c : nat) (pls : list Payload) (now : Z) (w : world) : world * option error :=
  match pls with
  | [] => (w, None)
  | pl :: pls =>
      match send c pl true now w with
      | (w, Some e) => (w, Some e)
      | (w, None) => replay c pls now w
      end
  end.

(** [conn.session = sess] and [sess.attach(conn)], closing the connection that
    was attached before. *)
Definition bind (c p : nat) (now : Z) (w : world) : world :=
  let w := MkWorld (alter (λ x, MkConn (identity x) (closed x) (closeCode x) (outbox x)
                                  (outbox_cap x) (outSeq x) (Some p)) c (conns w))
             (sessions w) (disconnects w) in
  let displaced := s ← sessions w !! p; s_conn s in
  let w := on_session p (λ s, (attach c now s).1) w in
  match displaced with
  | Some d => if decide (d = c) then w else (close d CloseCodeNormal now w).1
  | None => w
  end.

(** The messages a connection to session [p] gets replayed. *)
Definition missed (p : nat) (last : Z) (w : world) : list Payload :=
  match sessions w !! p with
  | Some s => replayAfter last (buf s)
  | None => []
  end.

(** [uuid] is the name generated for a client that gives none. *)
Definition attachSession (registry : option SessionRegistry) (c : nat) (query : string → string)
    (uuid : string) (p : nat) (now : Z) (w : world) :
    option SessionRegistry * world * result string :=
  match registry with
  | None => (None, w, Ok "")
  | Some r =>
      let info := (parseResumeQuery query).1 in
      let sid := if decide (sessionID info = "") then uuid else sessionID info in
      let user := match conns w !! c with Some x => UserID (identity x) | None => "" end in
      match resolve sid user p now r w with
      | (r, w, None, _) => (Some r, w, Err errTooManyConnections)
      | (r, w, Some p, resumed) =>
          let w := bind c p now w in
          if resumed : bool then
            match replay c (missed p (lastSeq info) w) now w with
            | (w, Some e) => (Some r, w, Err e)
            | (w, None) => (Some r, w, Ok sid)
            end
          else (Some r, w, Ok sid)
      end
  end.

End Payload.
Arguments storedMessage : clear implicits.
Arguments replayBuffer : clear implicits.
Arguments session : clear implicits.
Arguments Conn : clear implicits.
Arguments world : clear implicits.

(** ** Router *)

Section Router.
Context {H : Type}.

Record Router := MkRouter {
  handlers : gmap string H;
  fallback : option H
}.

Definition NewRouter : Router := MkRouter ∅ None.

Definition Handle (action : string) (h : option H) (r : Router) : Router :=
  match h with
  | Some h => if decide (action = "") then r else MkRouter (<[action := h]> (handlers r)) (fallback r)
  | None => r
  end.

Definition HandleDefault (h : option H) (r : Router) : Router := MkRouter (handlers r) h.

Definition Router_lookup (action : string) (r : Router) : option H :=
  match handlers r !! action with
  | Some h => Some h
  | None => fallback r
  end.

(** What the read loop does with an envelope. *)
Inductive dispatched : Type :=
| DReply (e : error)
| DHandle (h : H).

Definition dispatch (r : Router) (env : Envelope) : dispatched :=
  if decide (Action env = "") then DReply errEnvelopeAction
  else
    match Router_lookup (Action env) r with
    | None => DReply errUnknownAction
    | Some h => DHandle h
    end.

(** [Handler]: the envelopes received until the first error. *)
Fixpoint Handler (r : Router) (received : list (result Envelope)) : list (dispatched * Envelope) :=
  match received with
  | Ok env :: received => (dispatch r env, env) :: Handler r received
  | _ => []
  end.

End Router.
Arguments Router : clear implicits.
