(* ===== verification/WsSessionProps.v ===== *)
(** * plugins/websocket: session resume

    The replay buffer holds the last messages of a session; in every reachable
    state a session has at most one open connection, numbers its messages
    increasingly and stays registered while it is in use; a client that
    reconnects gets exactly what it has missed. *)

From S2P Require Import Prelude WsSession.

Import GoError.

(** ** The last elements of a list *)

Definition last_n {A} (n : nat) (l : list A) : list A := drop (length l - n) l.

Lemma last_n_all {A} n (l : list A) : length l ≤ n → last_n n l = l.
Proof. intros H. unfold last_n. replace (length l - n) with 0 by lia. done. Qed.

Lemma last_n_snoc {A} n (l : list A) x :
  last_n n (last_n n l ++ [x]) = last_n n (l ++ [x]).
Proof.
  unfold last_n. rewrite !length_app, length_drop. cbn.
  destruct (decide (length l ≤ n)) as [Hle|Hgt].
  - replace (length l - n) with 0 by lia. cbn. f_equal. lia.
  - replace (length l - (length l - n) + 1 - n) with 1 by lia.
    replace (length l + 1 - n) with (1 + (length l - n)) by lia.
    destruct n as [|n].
    + rewrite !drop_ge; [done|rewrite length_app; cbn; lia|rewrite length_app, length_drop; cbn; lia].
    + rewrite (drop_app_le l) by lia. rewrite (drop_app_le (drop _ l)) by (rewrite length_drop; lia).
      rewrite drop_drop. f_equal. f_equal. lia.
Qed.

(** A property that holds from some element on is decided by the last [n]
    elements when no more than [n] have it. *)
Lemma filter_last_n {A} (P : A → Prop) `{!∀ x, Decision (P x)} n (l : list A) :
  (∀ i j x y, i < j → l !! i = Some x → l !! j = Some y → P x → P y) →
  length (filter P l) ≤ n → filter P (last_n n l) = filter P l.
Proof.
  intros Hmono Hlen. unfold last_n. set (k := length l - n).
  assert (filter P l = filter P (take k l) ++ filter P (drop k l)) as Hsplit
    by (by rewrite <- filter_app, take_drop).
  rewrite Hsplit in Hlen |- *. rewrite length_app in Hlen.
  destruct (filter P (take k l)) as [|a r] eqn:E; [done|]. exfalso.
  assert (a ∈ filter P (take k l)) as [Ha Hin]%list_elem_of_filter by (rewrite E; by left).
  apply list_elem_of_lookup in Hin as [i Hi]. apply lookup_take_Some in Hi as [Hi Hlt].
  rewrite (filter_all P (drop k l)), length_drop in Hlen; [cbn in Hlen; lia|].
  intros y [j Hj]%list_elem_of_lookup. rewrite lookup_drop in Hj.
  apply (Hmono i (k + j) a y); [lia|done|done|done].
Qed.

(** ** Buffers and sessions *)

Section Session.
Context {Payload : Type}.
Context (net_close : nat → option error) (marshal : Envelope → result Payload).

Implicit Types (l : list (storedMessage Payload)) (L : nat → list (storedMessage Payload)).
Implicit Types (b : replayBuffer Payload) (s : session Payload) (w : world Payload) (x : Conn Payload).

Lemma store_ring sq pl b :
  (0 <= cap b)%Z → ring (store sq pl b) = last_n (Z.to_nat (cap b)) (ring b ++ [MkStored sq pl]).
Proof.
  intros H. unfold store, last_n. cbn.
  destruct (Z.ltb_spec (cap b) (Z.of_nat (length (ring b ++ [MkStored sq pl])))).
  - f_equal. lia.
  - by replace (length (ring b ++ [MkStored sq pl]) - Z.to_nat (cap b)) with 0 by lia.
Qed.

(** Numbers are given out in increasing order, the buffer is the end of what
    was sent, [l]; [n] bounds the number of envelopes. *)
Record session_inv (n : nat) l s : Prop := {
  se_cap : (0 < cap (buf s))%Z;
  se_ring : ring (buf s) = last_n (Z.to_nat (cap (buf s))) l;
  se_sorted : ∀ i j m m', i < j → l !! i = Some m → l !! j = Some m' → (seq m < seq m')%Z;
  se_bound : ∀ a, a ∈ l → (0 < seq a <= s_seq s)%Z;
  se_seq : (0 <= s_seq s <= Z.of_nat n)%Z
}.

Lemma session_inv_mono n m l s : n ≤ m → session_inv n l s → session_inv m l s.
Proof. intros ? []. split; auto. lia. Qed.

Lemma session_inv_new n i u now c :
  (0 < c)%Z → session_inv n [] (MkSession i u 0 None (newReplayBuffer (Payload := Payload) c) now).
Proof. intros H. split; cbn; [done|done| |set_solver|lia]. intros. by rewrite lookup_nil in *. Qed.

Lemma session_inv_fields n l s c t :
  session_inv n l s → session_inv n l (MkSession (id s) (s_userID s) (s_seq s) c (buf s) t).
Proof. by intros []. Qed.

Lemma nextSeq_eq n l s :
  session_inv n l s → (Z.of_nat (S n) < 2 ^ 64)%Z →
  nextSeq s = (MkSession (id s) (s_userID s) (s_seq s + 1) (s_conn s) (buf s) (lastSeen s),
               s_seq s + 1)%Z.
Proof. intros [] Hn. unfold nextSeq. rewrite GoInt.u64_id by (unfold GoInt.in_u64; lia). done. Qed.

Lemma session_inv_seq n l s :
  session_inv n l s → (Z.of_nat (S n) < 2 ^ 64)%Z → session_inv (S n) l (nextSeq s).1.
Proof.
  intros Hs Hn. rewrite (nextSeq_eq n l) by done. destruct Hs as [Hc Hr Hso Hb Hq].
  split; cbn; auto; [|lia]. intros a Ha. specialize (Hb a Ha). lia.
Qed.

(** Stamping and storing, the way [SendEnvelope] does it. *)
Lemma session_inv_send n l s pl :
  session_inv n l s → (Z.of_nat (S n) < 2 ^ 64)%Z →
  session_inv (S n) (l ++ [MkStored (s_seq s + 1)%Z pl]) (session_store (nextSeq s).2 pl (nextSeq s).1).
Proof.
  intros Hs Hn. rewrite (nextSeq_eq n l) by done. destruct Hs as [Hc Hr Hso Hb Hq].
  unfold session_store. cbn [fst snd id s_userID s_seq s_conn buf lastSeen].
  split; cbn [s_seq buf]; [done| | | |lia].
  - rewrite store_ring by lia. cbn [store cap]. rewrite Hr. apply last_n_snoc.
  - intros i j a b Hij Ha Hbj. apply lookup_app_Some in Hbj as [Hbj|[Hle Hbj]].
    + rewrite lookup_app_l in Ha; [eauto|]. apply lookup_lt_Some in Hbj. lia.
    + apply list_lookup_singleton_Some in Hbj as [Hj <-]. cbn.
      rewrite lookup_app_l in Ha by lia.
      apply list_elem_of_lookup_2, Hb in Ha. lia.
  - intros a [Ha| ->]%elem_of_snoc; [apply Hb in Ha|cbn]; lia.
Qed.

(** A client that has seen everything up to [last] gets the rest, if the
    buffer still holds it. *)
Lemma replayAfter_missed n l s last :
  session_inv n l s →
  (Z.of_nat (length (filter (λ m, last < seq m)%Z l)) <= cap (buf s))%Z →
  replayAfter last (buf s) = payload <$> filter (λ m, last < seq m)%Z l.
Proof.
  intros Hs Hlen. unfold replayAfter. rewrite (se_ring _ _ _ Hs). f_equal.
  apply filter_last_n; [|lia].
  intros i j a b Hij Ha Hb Hl. pose proof (se_sorted _ _ _ Hs i j a b Hij Ha Hb). lia.
Qed.

(** ** Worlds *)

(** [L] is what the sessions at each address have sent. *)
Record world_inv (n : nat) L w : Prop := {
  wi_sessions : ∀ p s, sessions w !! p = Some s → session_inv n (L p) s;
  wi_fresh : ∀ p, sessions w !! p = None → L p = [];
  wi_attached : ∀ p s c, sessions w !! p = Some s → s_conn s = Some c →
    ∃ x, conns w !! c = Some x ∧ closed x = false ∧ c_session x = Some p;
  wi_open : ∀ c x p, conns w !! c = Some x → closed x = false → c_session x = Some p →
    ∃ s, sessions w !! p = Some s ∧ s_conn s = Some c;
  wi_queue : ∀ c x, conns w !! c = Some x → (Z.of_nat (length (outbox x)) <= outbox_cap x)%Z
}.

(** Every registered session exists under its name, and there are at most
    [MaxSessions]. *)
Record reg_inv (r : SessionRegistry) w : Prop := {
  ri_sessions : ∀ i p, r_sessions r !! i = Some p → ∃ s, sessions w !! p = Some s ∧ id s = i;
  ri_bound : (0 < MaxSessions (cfg r))%Z → (Z.of_nat (size (r_sessions r)) <= MaxSessions (cfg r))%Z;
  ri_cap : (0 < BufferCapacity (cfg r))%Z
}.

Lemma reg_inv_world r w w' :
  reg_inv r w → (∀ p s, sessions w !! p = Some s → ∃ s', sessions w' !! p = Some s' ∧ id s' = id s) →
  reg_inv r w'.
Proof.
  intros [Hs Hb Hc] Hw. split; [|done|done]. intros i p Hi.
  destruct (Hs i p Hi) as (s & Hp & <-). eauto.
Qed.

Lemma world_inv_mono n m L w : n ≤ m → world_inv n L w → world_inv m L w.
Proof. intros ? []. split; eauto using session_inv_mono. Qed.

(** Changing fields of a connection other than its state and session. *)
Lemma world_inv_set_conn n L w c x x' :
  world_inv n L w → conns w !! c = Some x → closed x' = closed x → c_session x' = c_session x →
  (Z.of_nat (length (outbox x')) <= outbox_cap x')%Z → world_inv n L (set_conn c x' w).
Proof.
  intros [Hs Hfr Ha Ho Hq] Hx Hcl Hse Hlen. split; cbn; [done|done| | |].
  - intros p s c' Hp Hc'. destruct (Ha p s c' Hp Hc') as (y & Hy & ? & ?).
    destruct (decide (c' = c)) as [->|Hne].
    + exists x'. rewrite lookup_insert_eq. rewrite Hx in Hy. simplify_eq. by rewrite Hcl, Hse.
    + exists y. by rewrite lookup_insert_ne.
  - intros c' y p [[<- <-]|[Hne Hy]]%lookup_insert_Some Hyc Hyp; [|eauto].
    apply (Ho c x p Hx); congruence.
  - intros c' y [[<- <-]|[Hne Hy]]%lookup_insert_Some; eauto.
Qed.

(** Changing fields of a session other than its connection. *)
Lemma world_inv_on_session n L w p f :
  world_inv n L w →
  (∀ s, sessions w !! p = Some s → session_inv n (L p) (f s) ∧ s_conn (f s) = s_conn s) →
  world_inv n L (on_session p f w).
Proof.
  intros [Hs Hfr Ha Ho Hq] Hf. split; cbn; [| | | |done].
  - intros q s. rewrite lookup_alter_Some. intros [(-> & s0 & H0 & ->)|[? ?]]; [by apply Hf|eauto].
  - intros q. rewrite lookup_alter_None. apply Hfr.
  - intros q s c. rewrite lookup_alter_Some. intros [(-> & s0 & H0 & ->)|[? ?]]; [|eauto].
    destruct (Hf s0 H0) as [_ ->]. eauto.
  - intros c x q Hx Hcl Hse. destruct (Ho c x q Hx Hcl Hse) as (s & Hq' & Hc).
    destruct (decide (p = q)) as [->|Hne].
    + exists (f s). rewrite lookup_alter_eq, Hq'. cbn. split; [done|]. by rewrite (proj2 (Hf s Hq')).
    + exists s. by rewrite lookup_alter_ne.
Qed.

(** Every operation below keeps the sessions and their names. *)
Definition same_names w w' : Prop :=
  ∀ p s, sessions w !! p = Some s → ∃ s', sessions w' !! p = Some s' ∧ id s' = id s.

Lemma same_names_eq w w' : sessions w' = sessions w → same_names w w'.
Proof. intros Hw p s Hp. rewrite Hw. eauto. Qed.

Lemma same_names_trans w1 w2 w3 : same_names w1 w2 → same_names w2 w3 → same_names w1 w3.
Proof.
  intros H1 H2 p s Hp. destruct (H1 p s Hp) as (s' & Hp' & <-). by apply H2.
Qed.

Lemma same_names_alter p f w w' :
  sessions w' = alter f p (sessions w) → (∀ s, id (f s) = id s) → same_names w w'.
Proof.
  intros Hw Hf q s Hq. rewrite Hw. destruct (decide (p = q)) as [->|Hne].
  - exists (f s). by rewrite lookup_alter_eq, Hq, Hf.
  - exists s. by rewrite lookup_alter_ne.
Qed.

(** [close] of an open connection. *)
Lemma close_inv n L w c code now :
  world_inv n L w →
  world_inv n L (close net_close c code now w).1 ∧ same_names w (close net_close c code now w).1.
Proof.
  intros Hw. unfold close. destruct (conns w !! c) as [x|] eqn:Hx; [|by split; [|apply same_names_eq]].
  destruct (closed x) eqn:Hcl; [by split; [|apply same_names_eq]|]. cbn.
  destruct (c_session x) as [p|] eqn:Hp.
  - destruct (wi_open _ _ _ Hw c x p Hx Hcl Hp) as (s & Hs & Hc). split.
    2: { by apply (same_names_alter p (detach c now)). }
    destruct Hw as [Hse Hfr Ha Ho Hq]. split; cbn.
    + intros q t. rewrite lookup_alter_Some. intros [(-> & s0 & H0 & ->)|[? ?]]; [|eauto].
      apply session_inv_fields. eauto.
    + intros q. rewrite lookup_alter_None. apply Hfr.
    + intros q t c'. rewrite lookup_alter_Some. intros [(-> & s0 & H0 & ->)|[Hne Ht]] Hc'.
      * rewrite Hs in H0. simplify_eq. cbn in Hc'. by rewrite Hc, decide_True in Hc' by done.
      * destruct (Ha q t c' Ht Hc') as (y & Hy & Hyc & Hyp). exists y.
        rewrite lookup_insert_ne; [done|]. intros ->. congruence.
    + intros c' y q [[<- <-]|[Hne Hy]]%lookup_insert_Some Hyc Hyp; [done|].
      destruct (Ho c' y q Hy Hyc Hyp) as (t & Ht & Htc). exists t.
      rewrite lookup_alter_ne; [done|]. intros ->. congruence.
    + intros c' y [[<- <-]|[Hne Hy]]%lookup_insert_Some; cbn; eauto.
  - split; [|by apply same_names_eq]. destruct Hw as [Hse Hfr Ha Ho Hq]. split; cbn; [done|done| | |].
    + intros q t c' Ht Hc'. destruct (Ha q t c' Ht Hc') as (y & Hy & Hyc & Hyp). exists y.
      rewrite lookup_insert_ne; [done|]. intros ->. congruence.
    + intros c' y q [[<- <-]|[Hne Hy]]%lookup_insert_Some Hyc Hyp; [done|eauto].
    + intros c' y [[<- <-]|[Hne Hy]]%lookup_insert_Some; cbn; eauto.
Qed.

Lemma send_inv n L w c pl text now :
  world_inv n L w →
  world_inv n L (send net_close c pl text now w).1 ∧ same_names w (send net_close c pl text now w).1.
Proof.
  intros Hw. unfold send. destruct (conns w !! c) as [x|] eqn:Hx; [|by split; [|apply same_names_eq]].
  destruct (closed x) eqn:Hcl; [by split; [|apply same_names_eq]|].
  destruct (Z.ltb_spec (Z.of_nat (length (outbox x))) (outbox_cap x)) as [Hlt|Hge].
  - split; [|by apply same_names_eq]. eapply world_inv_set_conn; eauto.
    cbn. rewrite length_app. cbn. lia.
  - pose proof (close_inv n L w c CloseCodeSendQueueFull now Hw) as H.
    by destruct (close _ _ _ _ _) as [w' e].
Qed.

Lemma write_frame_inv n L w c :
  world_inv n L w → world_inv n L (write_frame c w).1 ∧ same_names w (write_frame c w).1.
Proof.
  intros Hw. unfold write_frame. destruct (conns w !! c) as [x|] eqn:Hx; [|by split; [|apply same_names_eq]].
  destruct (outbox x) as [|f q] eqn:Hq; [by split; [|apply same_names_eq]|].
  split; [|by apply same_names_eq]. eapply world_inv_set_conn; eauto.
  pose proof (wi_queue _ _ _ Hw c x Hx) as H. rewrite Hq in H. cbn in *. lia.
Qed.

Lemma replay_inv n L w c pls now :
  world_inv n L w →
  world_inv n L (replay net_close c pls now w).1 ∧ same_names w (replay net_close c pls now w).1.
Proof.
  revert w. induction pls as [|pl pls IH]; intros w Hw; cbn; [by split; [|apply same_names_eq]|].
  destruct (send_inv n L w c pl true now Hw) as [Hw' Hn].
  destruct (send _ _ _ _ _ _) as [w' [e|]]; cbn in *; [done|].
  destruct (IH w' Hw') as [? ?]. split; [done|]. by eapply same_names_trans.
Qed.

(** What a call of [SendEnvelope] sends to the session of the connection: the
    envelope, with the number after the last one of the session, as it is marshalled;
    whether the connection is still open or not. *)
Definition log_sent (c : nat) (env : option Envelope) w L : nat → list (storedMessage Payload) :=
  match env, conns w !! c with
  | Some env, Some x =>
      match c_session x with
      | Some p =>
          match sessions w !! p with
          | Some s =>
              if decide (Action env = "") then L
              else
                match marshal (with_seq (s_seq s + 1) env) with
                | Ok data => λ q, if decide (q = p) then L p ++ [MkStored (s_seq s + 1)%Z data] else L q
                | Err _ => L
                end
          | None => L
          end
      | None => L
      end
  | _, _ => L
  end.

(** The envelope that answers a request: the error of the application, or its
    data. *)
Definition answer (req : option Envelope) (data : option (result string)) (appErr : option string) : option Envelope :=
  match req, appErr, data with
  | Some req, Some e, _ => Some (MkEnvelope 0 (Action req) (ReqID req) 1 e None)
  | Some req, None, Some (Ok raw) => Some (MkEnvelope 0 (Action req) (ReqID req) 0 "" (Some raw))
  | Some req, None, None => Some (MkEnvelope 0 (Action req) (ReqID req) 0 "" None)
  | _, _, _ => None
  end.

(** Numbering and storing an envelope. *)
Lemma store_inv n L w p s data :
  world_inv n L w → sessions w !! p = Some s → (Z.of_nat (S n) < 2 ^ 64)%Z →
  let w' := on_session p (session_store (nextSeq s).2 data) (on_session p (λ s, (nextSeq s).1) w) in
  world_inv (S n) (λ q, if decide (q = p) then L p ++ [MkStored (s_seq s + 1)%Z data] else L q) w' ∧ same_names w w'.
Proof.
  intros Hw Hs Hn. cbn zeta. pose proof Hw as [Hse Hfr Ha Ho Hq].
  assert (∀ q t, sessions (on_session p (session_store (nextSeq s).2 data) (on_session p (λ s, (nextSeq s).1) w)) !! q = Some t →
    (q = p ∧ t = session_store (nextSeq s).2 data (nextSeq s).1) ∨ (q ≠ p ∧ sessions w !! q = Some t)) as Hlook.
  { intros q t. cbn. rewrite lookup_alter_Some. intros [(-> & s0 & H0 & ->)|[Hne Ht]].
    - rewrite lookup_alter_eq, Hs in H0. injection H0 as <-. by left.
    - rewrite lookup_alter_ne in Ht by done. by right. }
  split; [split; cbn [conns on_session]|].
  - intros q t [[-> ->]|[Hne Ht]]%Hlook.
    + rewrite decide_True by done. apply session_inv_send; [by apply Hse|done].
    + rewrite decide_False by done. eapply session_inv_mono; [|by apply Hse]. lia.
  - intros q Ht. cbn in Ht. rewrite !lookup_alter_None in Ht. rewrite decide_False by congruence. by apply Hfr.
  - intros q t c' [[-> ->]|[Hne Ht]]%Hlook Hc'; [|eauto]. by apply (Ha p s).
  - intros c' y q Hy Hycl Hyp. destruct (Ho c' y q Hy Hycl Hyp) as (t & Ht & Htc). cbn.
    destruct (decide (p = q)) as [<-|Hne]; [|exists t; by rewrite !lookup_alter_ne].
    eexists. rewrite !lookup_alter_eq, Ht. cbn. split; [done|]. done.
  - done.
  - apply (same_names_trans _ (on_session p (λ s, (nextSeq s).1) w)).
    + by apply (same_names_alter p (λ s, (nextSeq s).1)).
    + by apply (same_names_alter p (session_store (nextSeq s).2 data)).
Qed.

Lemma SendEnvelope_inv n L w c env now :
  world_inv n L w → (Z.of_nat (S n) < 2 ^ 64)%Z →
  world_inv (S n) (log_sent c env w L) (SendEnvelope net_close marshal c env now w).1 ∧
  same_names w (SendEnvelope net_close marshal c env now w).1.
Proof.
  intros Hw Hn. assert (world_inv (S n) L w) as HwS by (by eapply world_inv_mono; [|exact Hw]; lia).
  unfold SendEnvelope, log_sent. destruct env as [env|]; [|by split; [|apply same_names_eq]].
  destruct (conns w !! c) as [x|] eqn:Hx; [|by split; [|apply same_names_eq]].
  unfold stamp. destruct (c_session x) as [p|] eqn:Hp.
  - destruct (sessions w !! p) as [s|] eqn:Hs.
    2: { case_decide; [by split; [|apply same_names_eq]|].
         destruct (marshal _) as [data|e]; cbn; [|by split; [|apply same_names_eq]].
         destruct (send_inv (S n) L (on_session p (session_store 0 data) w) c data true now) as [? Hsn].
         { apply world_inv_on_session; [done|]. congruence. }
         split; [done|]. eapply same_names_trans; [|exact Hsn].
         by apply (same_names_alter p (session_store 0 data)). }
    case_decide; [by split; [|apply same_names_eq]|].
    assert ((nextSeq s).2 = s_seq s + 1)%Z as Hnum.
    { by rewrite (nextSeq_eq n (L p)) by (done || by apply (wi_sessions _ _ _ Hw)). }
    rewrite Hnum. destruct (marshal (with_seq (s_seq s + 1) env)) as [data|e]; cbn.
    + destruct (store_inv n L w p s data Hw Hs Hn) as [Hw1 Hn1]. rewrite Hnum in Hw1, Hn1.
      destruct (send_inv (S n) _ _ c data true now Hw1) as [Hw2 Hn2].
      split; [exact Hw2|]. eapply same_names_trans; [exact Hn1|exact Hn2].
    + split; [|by apply (same_names_alter p (λ s, (nextSeq s).1))].
      apply world_inv_on_session; [done|]. intros s' Hs'.
      split; [|done]. apply session_inv_seq; [|done]. by apply (wi_sessions _ _ _ Hw p).
  - case_decide; [by split; [|apply same_names_eq]|].
    match goal with |- context [set_conn c ?y w] => set (w1 := set_conn c y w) end.
    assert (world_inv (S n) L w1) as Hw1.
    { apply (world_inv_set_conn _ _ _ _ x); try done. exact (wi_queue _ _ _ Hw c x Hx). }
    destruct (marshal _) as [data|e]; [|by split; [|apply same_names_eq]].
    by apply (send_inv (S n) L w1 c data true now).
Qed.

Lemma Reply_inv n L w c req data appErr now :
  world_inv n L w → (Z.of_nat (S n) < 2 ^ 64)%Z →
  world_inv (S n) (log_sent c (answer req data appErr) w L) (Reply net_close marshal c req data appErr now w).1 ∧
  same_names w (Reply net_close marshal c req data appErr now w).1.
Proof.
  intros Hw Hn. assert (world_inv (S n) L w) as HwS by (by eapply world_inv_mono; [|exact Hw]; lia).
  unfold Reply, answer. destruct req as [req|]; [|by split; [|apply same_names_eq]].
  destruct appErr as [e|]; [by apply SendEnvelope_inv|].
  destruct data as [[raw|e]|]; [by apply SendEnvelope_inv|by split; [|apply same_names_eq]|by apply SendEnvelope_inv].
Qed.

(** ** Attaching *)

(** [bind] when no other connection is attached. *)
Definition bind_free (c p : nat) (now : Z) w : world Payload :=
  MkWorld (alter (λ x, MkConn (identity x) (closed x) (closeCode x) (outbox x)
                         (outbox_cap x) (outSeq x) (Some p)) c (conns w))
    (alter (λ s, (attach c now s).1) p (sessions w)) (disconnects w).

(** Displacing a connection is closing it and then attaching. *)
Lemma bind_displace n L w c p now s d :
  world_inv n L w → (∀ x, conns w !! c = Some x → c_session x = None) →
  sessions w !! p = Some s → s_conn s = Some d →
  bind net_close c p now w = bind_free c p now (close net_close d CloseCodeNormal now w).1.
Proof.
  intros Hw Hc Hs Hd. destruct (wi_attached _ _ _ Hw p s d Hs Hd) as (y & Hy & Hycl & Hyp).
  assert (d ≠ c) as Hne by (intros ->; specialize (Hc y Hy); congruence).
  unfold bind, bind_free, close. cbn. rewrite Hs. cbn. rewrite Hd, decide_False by done.
  rewrite lookup_alter_ne by done. rewrite Hy, Hycl, Hyp. cbn. f_equal.
  - by rewrite alter_insert_ne by done.
  - rewrite !alter_alter_eq. apply alter_ext. intros s' Hs'.
    rewrite Hs in Hs'. simplify_eq. unfold attach, detach, compose. cbn.
    by rewrite decide_False by congruence.
Qed.

Lemma bind_free_inv n L w c p now x s :
  world_inv n L w → conns w !! c = Some x → closed x = false → c_session x = None →
  sessions w !! p = Some s → s_conn s = None →
  world_inv n L (bind_free c p now w) ∧ same_names w (bind_free c p now w).
Proof.
  intros [Hse Hfr Ha Ho Hq] Hx Hcl Hcs Hs Hsc.
  split; [|by apply (same_names_alter p (λ s, (attach c now s).1))].
  split; cbn.
  - intros q t. rewrite lookup_alter_Some. intros [(-> & s0 & H0 & ->)|[? ?]]; [|eauto].
    apply session_inv_fields. eauto.
  - intros q. rewrite lookup_alter_None. apply Hfr.
  - intros q t c'. rewrite lookup_alter_Some. intros [(-> & s0 & H0 & ->)|[Hne Ht]] Hc'.
    + cbn in Hc'. simplify_eq. eexists. rewrite lookup_alter_eq, Hx. by cbn.
    + destruct (Ha q t c' Ht Hc') as (y & Hy & ? & ?). exists y.
      rewrite lookup_alter_ne; [done|]. intros ->. congruence.
  - intros c' y q. rewrite lookup_alter_Some. intros [(-> & x0 & H0 & ->)|[Hne Hy]] Hycl Hyp.
    + cbn in Hyp. simplify_eq. eexists. rewrite lookup_alter_eq, Hs. by cbn.
    + destruct (Ho c' y q Hy Hycl Hyp) as (t & Ht & Htc). exists t.
      rewrite lookup_alter_ne; [done|]. intros ->. congruence.
  - intros c' y. rewrite lookup_alter_Some. intros [(-> & x0 & H0 & ->)|[Hne Hy]]; cbn; eauto.
Qed.

(** Closing [d] does not touch another connection. *)
Lemma close_other c d code now w : d ≠ c → conns (close net_close d code now w).1 !! c = conns w !! c.
Proof.
  intros Hne. unfold close. destruct (conns w !! d) as [y|]; [|done]. destruct (closed y); [done|].
  destruct (c_session y); cbn; by rewrite lookup_insert_ne.
Qed.

(** After closing the attached connection the session is free. *)
Lemma close_detaches n L w p s d code now :
  world_inv n L w → sessions w !! p = Some s → s_conn s = Some d →
  sessions (close net_close d code now w).1 !! p =
    Some (MkSession (id s) (s_userID s) (s_seq s) None (buf s) now).
Proof.
  intros Hw Hs Hd. destruct (wi_attached _ _ _ Hw p s d Hs Hd) as (y & Hy & Hycl & Hyp).
  unfold close. rewrite Hy, Hycl, Hyp. cbn. rewrite lookup_alter_eq, Hs. cbn.
  unfold detach. by rewrite decide_True.
Qed.

(** Attaching an open connection without a session: the invariant holds, the
    session keeps what it has sent, the queue is as it was. *)
Lemma bind_inv n L w c p now x s :
  world_inv n L w → conns w !! c = Some x → closed x = false → c_session x = None →
  sessions w !! p = Some s →
  let w' := bind net_close c p now w in
  world_inv n L w' ∧ same_names w w' ∧
  sessions w' !! p = Some (attach c now s).1 ∧
  conns w' !! c = Some (MkConn (identity x) (closed x) (closeCode x) (outbox x) (outbox_cap x)
                          (outSeq x) (Some p)).
Proof.
  intros Hw Hx Hcl Hcs Hs. cbn zeta. destruct (s_conn s) as [d|] eqn:Hd.
  - assert (d ≠ c) as Hne.
    { intros ->. destruct (wi_attached _ _ _ Hw p s c Hs Hd) as (y & Hy & _ & Hyp). congruence. }
    rewrite (bind_displace n L w c p now s d) by (done || congruence).
    destruct (close_inv n L w d CloseCodeNormal now Hw) as [Hw1 Hn1].
    pose proof (close_detaches n L w p s d CloseCodeNormal now Hw Hs Hd) as Hs1.
    pose proof (close_other c d CloseCodeNormal now w Hne) as Hx1. rewrite Hx in Hx1.
    destruct (bind_free_inv n L _ c p now x _ Hw1 Hx1 Hcl Hcs Hs1 eq_refl) as [Hw2 Hn2].
    split; [done|]. split; [by eapply same_names_trans|]. cbn.
    by rewrite !lookup_alter_eq, Hs1, Hx1.
  - assert (bind net_close c p now w = bind_free c p now w) as ->.
    { unfold bind, bind_free. cbn. rewrite Hs. cbn. by rewrite Hd. }
    destruct (bind_free_inv n L w c p now x s Hw Hx Hcl Hcs Hs Hd) as [? ?].
    split; [done|]. split; [done|]. cbn. by rewrite !lookup_alter_eq, Hs, Hx.
Qed.

Lemma resolve_inv n L r w sid user p now r' w' q resumed :
  world_inv n L w → reg_inv r w → sessions w !! p = None →
  resolve sid user p now r w = (r', w', q, resumed) →
  world_inv n L w' ∧ reg_inv r' w' ∧ conns w' = conns w ∧
  ∀ p', q = Some p' → is_Some (sessions w' !! p').
Proof.
  intros Hw Hr Hp. unfold resolve, resolve_existing, resolve_create.
  destruct (r_sessions r !! sid) as [p0|] eqn:Hsid.
  - intros [= <- <- <- <-]. destruct (ri_sessions _ _ Hr sid p0 Hsid) as (s & Hs & Hid).
    assert (world_inv n L (on_session p0 (touch now) w)) as Hw'.
    { apply world_inv_on_session; [done|]. intros s' Hs'. split; [|done].
      apply session_inv_fields. by apply (wi_sessions _ _ _ Hw p0). }
    split; [done|]. split; [|split; [done|]].
    + eapply reg_inv_world; [done|]. by apply (same_names_alter p0 (touch now)).
    + intros p' [= <-]. cbn. by rewrite lookup_alter_eq, Hs.
  - case_match eqn:Hmax; intros [= <- <- <- <-]; [done|].
    destruct Hw as [Hse Hfr Ha Ho Hq], Hr as [Hrs Hrb Hrc]. split; [|split; [|split; [done|]]].
    + split; cbn; [| | | |done].
      * intros q s [[<- <-]|[Hne Hs]]%lookup_insert_Some; [rewrite Hfr by done; by apply session_inv_new|eauto].
      * intros q [Hs _]%lookup_insert_None. by apply Hfr.
      * intros q s c [[<- <-]|[Hne Hs]]%lookup_insert_Some Hc; [done|eauto].
      * intros c x q Hx Hcl Hse'. destruct (Ho c x q Hx Hcl Hse') as (s & Hs & Hc).
        exists s. rewrite lookup_insert_ne; [done|]. congruence.
    + split; cbn; [| |done].
      * intros i q [[<- <-]|[Hne Hq']]%lookup_insert_Some.
        { eexists. by rewrite lookup_insert_eq. }
        destruct (Hrs i q Hq') as (s & Hs & Hi). exists s. rewrite lookup_insert_ne; [done|]. congruence.
      * intros Hpos. rewrite map_size_insert_None by done. lia.
    + intros p' [= <-]. cbn. rewrite lookup_insert_eq. eauto.
Qed.

Lemma evictExpired_inv r w now : reg_inv r w → reg_inv (evictExpired now w r) w.
Proof.
  intros [Hs Hb Hc]. split; cbn; [| |done].
  - intros i p [Hi _]%map_lookup_filter_Some. eauto.
  - intros H. specialize (Hb H). etrans; [|exact Hb]. apply inj_le, map_subseteq_size, map_filter_subseteq.
Qed.

Lemma attachSession_inv n L r w c query uuid p now x r' w' res :
  world_inv n L w → reg_inv r w → sessions w !! p = None →
  conns w !! c = Some x → closed x = false → c_session x = None →
  attachSession net_close (Some r) c query uuid p now w = (Some r', w', res) →
  world_inv n L w' ∧ reg_inv r' w'.
Proof.
  intros Hw Hr Hp Hx Hcl Hcs. unfold attachSession. rewrite Hx.
  destruct (resolve _ _ _ _ _ _) as [[[r1 w1] q] resumed] eqn:E.
  destruct (resolve_inv _ _ _ _ _ _ _ _ _ _ _ _ Hw Hr Hp E) as (Hw1 & Hr1 & Hc1 & Hq).
  destruct q as [p'|]; [|by intros [= <- <- <-]].
  destruct (Hq p' eq_refl) as [s Hs]. rewrite <- Hc1 in Hx.
  destruct (bind_inv n L w1 c p' now x s Hw1 Hx Hcl Hcs Hs) as (Hw2 & Hn2 & _ & _).
  assert (reg_inv r1 (bind net_close c p' now w1)) as Hr2 by (by eapply reg_inv_world).
  destruct resumed; [|by intros [= <- <- <-]].
  set (pls := missed p' _ _).
  destruct (replay_inv n L (bind net_close c p' now w1) c pls now Hw2) as [Hw3 Hn3].
  destruct (replay net_close c pls now _) as [w3 [e|]]; intros [= <- <- <-];
    (split; [done|]; by eapply reg_inv_world).
Qed.

(** ** Reachable states of a server *)

(** [L] is what [SendEnvelope] and [Reply] were called with for the sessions at each
    address. *)
Inductive ws_reach (config : SessionResumeConfig) :
    nat → (nat → list (storedMessage Payload)) → SessionRegistry → world Payload → Prop :=
| ws_init : ws_reach config 0 (λ _, []) (NewSessionRegistry config) (MkWorld ∅ ∅ [])
| ws_accept n L r w c ident size query uuid p now r' w' res :
    (* [serve]: a new connection gets its session, or is closed *)
    ws_reach config n L r w → conns w !! c = None → sessions w !! p = None →
    attachSession net_close (Some r) c query uuid p now (set_conn c (new_conn ident size) w) =
      (Some r', w', res) →
    ws_reach config (S n) L r'
      (match res with Err _ => (close net_close c CloseCodeInternalError now w').1 | Ok _ => w' end)
| ws_envelope n L r w c env now :
    ws_reach config n L r w →
    ws_reach config (S n) (log_sent c env w L) r (SendEnvelope net_close marshal c env now w).1
| ws_reply n L r w c req data appErr now :
    ws_reach config n L r w →
    ws_reach config (S n) (log_sent c (answer req data appErr) w L) r (Reply net_close marshal c req data appErr now w).1
| ws_send n L r w c pl text now :
    ws_reach config n L r w → ws_reach config (S n) L r (send net_close c pl text now w).1
| ws_close n L r w c code now :
    ws_reach config n L r w → ws_reach config (S n) L r (close net_close c code now w).1
| ws_write n L r w c : ws_reach config n L r w → ws_reach config (S n) L r (write_frame c w).1
| ws_evict n L r w now : ws_reach config n L r w → ws_reach config (S n) L (evictExpired now w r) w.

Lemma new_conn_inv n L w c ident size :
  world_inv n L w → conns w !! c = None → world_inv n L (set_conn c (new_conn ident size) w).
Proof.
  intros [Hse Hfr Ha Ho Hq] Hc. split; cbn; [done|done| | |].
  - intros p s c' Hp Hc'. destruct (Ha p s c' Hp Hc') as (y & Hy & ? & ?). exists y.
    rewrite lookup_insert_ne; [done|]. congruence.
  - intros c' y p [[<- <-]|[Hne Hy]]%lookup_insert_Some; [done|eauto].
  - intros c' y [[<- <-]|[Hne Hy]]%lookup_insert_Some; [|eauto]. cbn. unfold send_queue_size.
    destruct (Z.leb_spec size 0); lia.
Qed.

Lemma ws_reach_inv config n L r w :
  ws_reach config n L r w → (Z.of_nat n < 2 ^ 64)%Z → world_inv n L w ∧ reg_inv r w.
Proof.
  induction 1 as [|n L r w c ident size query uuid p now r' w' res Hre IH Hc Hp Hat|n L r w c env now Hre IH
    |n L r w c req data appErr now Hre IH
    |n L r w c pl text now Hre IH|n L r w c code now Hre IH|n L r w c Hre IH|n L r w now Hre IH]; intros Hn.
  - split; [split; cbn; intros; by rewrite ?lookup_empty in *|].
    split; cbn; [by setoid_rewrite lookup_empty|rewrite map_size_empty; lia|].
    destruct (Z.leb_spec (BufferCapacity config) 0); unfold defaultReplayBufferCapacity; lia.
  - destruct IH as [Hw Hr]; [lia|].
    apply (world_inv_mono n (S n)) in Hw; [|lia].
    destruct (attachSession_inv (S n) L r _ c query uuid p now (new_conn ident size) r' w' res
                (new_conn_inv _ _ _ _ ident size Hw Hc) ltac:(by destruct Hr; split) Hp
                ltac:(cbn; apply lookup_insert_eq) eq_refl eq_refl Hat) as [Hw' Hr'].
    destruct res; [done|].
    destruct (close_inv (S n) L w' c CloseCodeInternalError now Hw') as [? ?].
    split; [done|]. by eapply reg_inv_world.
  - destruct IH as [Hw Hr]; [lia|]. destruct (SendEnvelope_inv n L w c env now Hw Hn) as [? ?].
    split; [done|]. by eapply reg_inv_world.
  - destruct IH as [Hw Hr]; [lia|]. destruct (Reply_inv n L w c req data appErr now Hw Hn) as [? ?].
    split; [done|]. by eapply reg_inv_world.
  - destruct IH as [Hw Hr]; [lia|]. apply (world_inv_mono n (S n)) in Hw; [|lia].
    destruct (send_inv (S n) L w c pl text now Hw) as [? ?]. split; [done|]. by eapply reg_inv_world.
  - destruct IH as [Hw Hr]; [lia|]. apply (world_inv_mono n (S n)) in Hw; [|lia].
    destruct (close_inv (S n) L w c code now Hw) as [? ?]. split; [done|]. by eapply reg_inv_world.
  - destruct IH as [Hw Hr]; [lia|]. apply (world_inv_mono n (S n)) in Hw; [|lia].
    destruct (write_frame_inv (S n) L w c Hw) as [? ?]. split; [done|]. by eapply reg_inv_world.
  - destruct IH as [Hw Hr]; [lia|]. split; [eapply world_inv_mono; [|exact Hw]; lia|].
    by apply evictExpired_inv.
Qed.

(** Sending into a queue that has room for everything. *)
Lemma replay_queue w c pls now x :
  conns w !! c = Some x → closed x = false →
  (Z.of_nat (length (outbox x) + length pls) <= outbox_cap x)%Z →
  ∃ w', replay net_close c pls now w = (w', None) ∧ sessions w' = sessions w ∧
    conns w' = <[c := MkConn (identity x) false (closeCode x)
                        (outbox x ++ map (λ pl, (pl, true)) pls) (outbox_cap x) (outSeq x)
                        (c_session x)]> (conns w).
Proof.
  revert w x. induction pls as [|pl pls IH]; intros w x Hx Hcl Hlen; cbn.
  - exists w. split; [done|]. split; [done|]. rewrite (right_id_L [] app).
    symmetry. apply insert_id. rewrite Hx, <- Hcl. by destruct x.
  - cbn in Hlen. unfold send. rewrite Hx, Hcl. zcmp. cbn.
    edestruct (IH (set_conn c (MkConn (identity x) false (closeCode x) (outbox x ++ [(pl, true)])
                    (outbox_cap x) (outSeq x) (c_session x)) w)) as (w' & -> & Hs & Hc).
    { cbn. apply lookup_insert_eq. }
    { done. }
    { cbn. rewrite length_app. cbn. lia. }
    exists w'. split; [done|]. split; [done|]. rewrite Hc. cbn.
    rewrite insert_insert_eq, <- (assoc_L app). done.
Qed.

End Session.

(** ** Theorems *)

Lemma parseResumeQuery_named query sid last :
  parseResumeQuery query = (MkResumeInfo sid last, true) → sid ≠ "".
Proof. unfold parseResumeQuery. case_decide; intros [= <- <-]; done. Qed.

(** What was sent is what the client has, then what it has missed. *)
Lemma sent_split {Payload} n l (s : session Payload) last :
  session_inv n l s → l = filter (λ m, seq m <= last)%Z l ++ filter (λ m, last < seq m)%Z l.
Proof.
  intros Hs. pose proof (se_sorted _ _ _ Hs) as Hso. clear Hs. revert Hso.
  induction l as [|m l IH]; intros Hso; [done|].
  assert (l = filter (λ m, seq m <= last)%Z l ++ filter (λ m, last < seq m)%Z l) as IH'.
  { apply IH. intros i j a b Hij Ha Hb. by apply (Hso (S i) (S j)); [lia| |]. }
  rewrite !filter_cons. destruct (decide (seq m <= last)%Z) as [Hle|Hgt].
  - rewrite (decide_False (P := (last < seq m)%Z)) by lia. cbn. by f_equal.
  - rewrite (decide_True (P := (last < seq m)%Z)) by lia.
    assert (∀ a, a ∈ l → last < seq a)%Z as Hall.
    { intros a [i Hi]%list_elem_of_lookup.
      pose proof (Hso 0 (S i) m a ltac:(lia) eq_refl Hi). lia. }
    rewrite (filter_all (λ a, last < seq a)%Z l) by done.
    replace (filter (λ a, seq a <= last)%Z l) with (@nil (storedMessage Payload)); [done|].
    symmetry. apply filter_none. intros a Ha. specialize (Hall a Ha). lia.
Qed.

(** C31: session resume loses, repeats and reorders nothing of what [SendEnvelope]
    and [Reply] sent, error replies included: in every reachable state, with [L] what
    these were called with for each session, a new connection (with any queue that
    can hold the missed messages) that names a registered session and the last number
    it has seen is attached, and its queue holds exactly the messages sent to the
    session with a greater number, in the order they were sent; together with the
    ones up to that number they are everything that was sent to it.  The buffer must
    still hold them: at most its capacity was missed.  The calls on the connections
    of the server are taken one after another.  Messages of [SendText], [SendBinary]
    and broadcasts have no number and are not replayed. *)
Theorem resume_replays_missed {Payload : Type} net_close (marshal : Envelope → result Payload)
    config n L r w c ident size query uuid p' now sid p s last :
  ws_reach net_close marshal config n L r w → (Z.of_nat n < 2 ^ 64)%Z →
  conns w !! c = None → sessions w !! p' = None →
  r_sessions r !! sid = Some p → sessions w !! p = Some s →
  parseResumeQuery query = (MkResumeInfo sid last, true) →
  let miss := filter (λ m, last < seq m)%Z (L p) in
  (Z.of_nat (length miss) <= cap (buf s))%Z →
  (Z.of_nat (length miss) <= send_queue_size size)%Z →
  ∃ w' x, attachSession net_close (Some r) c query uuid p' now (set_conn c (new_conn ident size) w) =
      (Some r, w', Ok sid) ∧
    conns w' !! c = Some x ∧ closed x = false ∧ c_session x = Some p ∧
    outbox x = map (λ m, (payload m, true)) miss ∧
    L p = filter (λ m, seq m <= last)%Z (L p) ++ miss.
Proof.
  intros Hre Hn Hc Hp' Hsid Hs Hq miss Hcap Hqueue.
  destruct (ws_reach_inv _ _ _ _ _ _ _ Hre Hn) as [Hw Hr].
  pose proof (parseResumeQuery_named _ _ _ Hq) as Hne.
  pose proof (new_conn_inv n L w c ident size Hw Hc) as Hw0.
  set (w0 := set_conn c (new_conn ident size) w) in *.
  assert (conns w0 !! c = Some (new_conn ident size)) as Hx0 by apply lookup_insert_eq.
  unfold attachSession. rewrite Hq. cbn [fst sessionID lastSeq]. rewrite decide_False by done.
  unfold resolve, resolve_existing. rewrite Hsid.
  assert (world_inv n L (on_session p (touch now) w0)) as Hw1.
  { apply world_inv_on_session; [done|]. intros s' Hs'. split; [|done].
    apply session_inv_fields. by apply (wi_sessions _ _ _ Hw p). }
  destruct (bind_inv net_close n L (on_session p (touch now) w0) c p now _ (touch now s) Hw1 Hx0
              eq_refl eq_refl) as (_ & _ & Hs2 & Hx2).
  { cbn. by rewrite lookup_alter_eq, Hs. }
  set (w2 := bind net_close c p now (on_session p (touch now) w0)) in *.
  assert (missed p last w2 = payload <$> miss) as Hm.
  { unfold missed. rewrite Hs2. apply (replayAfter_missed n (L p) s); [|done].
    by apply (wi_sessions _ _ _ Hw p). }
  rewrite Hm. destruct (replay_queue net_close w2 c (payload <$> miss) now _ Hx2 eq_refl)
    as (w3 & -> & _ & Hconns).
  { cbn. rewrite length_fmap. lia. }
  eexists w3, _. split; [done|]. rewrite Hconns, lookup_insert_eq. split; [done|]. cbn.
  split_and!; [done|done| |].
  - by rewrite <- list_fmap_compose.
  - eapply sent_split. by apply (wi_sessions _ _ _ Hw p).
Qed.

(** In every reachable state a session has at most one open connection, a
    registered session never disappears while a connection is attached or
    before its time-to-live is over, there are at most [MaxSessions] of them
    (when a limit is set), the replay buffers hold at most their capacity and
    the numbers of a session's messages increase strictly. *)
Theorem session_registry_sound {Payload : Type} net_close (marshal : Envelope → result Payload)
    config n L r w :
  ws_reach net_close marshal config n L r w → (Z.of_nat n < 2 ^ 64)%Z →
  (∀ c1 c2 x1 x2 p, conns w !! c1 = Some x1 → conns w !! c2 = Some x2 →
     closed x1 = false → closed x2 = false → c_session x1 = Some p → c_session x2 = Some p → c1 = c2) ∧
  (∀ now i p s, r_sessions r !! i = Some p → sessions w !! p = Some s →
     (is_Some (s_conn s) ∨ (GoTime.Sub now (lastSeen s) <= TTL (cfg r))%Z) →
     r_sessions (evictExpired now w r) !! i = Some p) ∧
  ((0 < MaxSessions (cfg r))%Z → (Z.of_nat (size (r_sessions r)) <= MaxSessions (cfg r))%Z) ∧
  (∀ p s, sessions w !! p = Some s →
     (Z.of_nat (length (ring (buf s))) <= cap (buf s))%Z ∧
     ∀ i j a b, i < j → L p !! i = Some a → L p !! j = Some b → (seq a < seq b)%Z).
Proof.
  intros Hre Hn. destruct (ws_reach_inv _ _ _ _ _ _ _ Hre Hn) as [Hw Hr]. split_and!.
  - intros c1 c2 x1 x2 p H1 H2 Hc1 Hc2 Hs1 Hs2.
    destruct (wi_open _ _ _ Hw c1 x1 p H1 Hc1 Hs1) as (s & Hs & E1).
    destruct (wi_open _ _ _ Hw c2 x2 p H2 Hc2 Hs2) as (s' & Hs' & E2). congruence.
  - intros now i p s Hi Hs Hkeep. cbn. apply map_lookup_filter_Some. split; [done|]. cbn.
    unfold idle. rewrite Hs. apply andb_false_iff.
    destruct Hkeep as [[c Hc]|Hle]; [left; by rewrite Hc|right; by apply Z.ltb_ge].
  - apply (ri_bound _ _ Hr).
  - intros p s Hs. pose proof (wi_sessions _ _ _ Hw p s Hs) as Hsi. split; [|apply (se_sorted _ _ _ Hsi)].
    rewrite (se_ring _ _ _ Hsi). unfold last_n. rewrite length_drop. pose proof (se_cap _ _ _ Hsi). lia.
Qed.

(** ** A concrete server *)

Definition ex_close : nat → option error := λ _, None.
Definition ex_marshal (e : Envelope) : result (Z * string) := Ok (Seq e, Action e).
Definition ex_identity (user : string) : Identity := MkIdentity user "" user "" [] ∅ "" "" true.
Definition ex_query (last : string) (k : string) : string :=
  if decide (k = "session_id") then "s1" else if decide (k = "last_seq") then last else "".
Definition ex_event (a : string) : option Envelope := Some (MkEnvelope 0 a "" 0 "" None).
Definition ex_config : SessionResumeConfig := MkSessionResumeConfig 0 0 8.

Definition ex_attach (c : nat) (user last : string) (size : Z) (r : SessionRegistry)
    (w : world (Z * string)) :=
  attachSession ex_close (Some r) c (ex_query last) "u" c 0
    (set_conn c (new_conn (ex_identity user) size) w).

Definition ex_registry : SessionRegistry := MkRegistry {["s1" := 1]} (normalize ex_config) false.

(** Alice connects, gets two messages and an error reply and disconnects after the
    first. *)
Definition ex_w1 : world (Z * string) :=
  (ex_attach 1 "alice" "" 0 (NewSessionRegistry ex_config) (MkWorld ∅ ∅ [])).1.2.
Definition ex_send (a : string) (w : world (Z * string)) : world (Z * string) :=
  (SendEnvelope ex_close ex_marshal 1 (ex_event a) 0 w).1.
Definition ex_fail (w : world (Z * string)) : world (Z * string) :=
  (Reply ex_close ex_marshal 1 (ex_event "c") None (Some "no such order") 0 w).1.
Definition ex_w2 : world (Z * string) :=
  (close ex_close 1 CloseCodeNormal 0 (ex_fail (ex_send "b" (ex_send "a" ex_w1)))).1.

(** What was sent to the sessions. *)
Definition ex_log : nat → list (storedMessage (Z * string)) :=
  log_sent ex_marshal 1 (answer (ex_event "c") None (Some "no such order")) (ex_send "b" (ex_send "a" ex_w1))
    (log_sent ex_marshal 1 (ex_event "b") (ex_send "a" ex_w1)
       (log_sent ex_marshal 1 (ex_event "a") ex_w1 (λ _, []))).

Lemma ex_w2_reach : ws_reach ex_close ex_marshal ex_config 5 ex_log ex_registry ex_w2.
Proof.
  apply ws_close, ws_reply. do 2 (apply ws_envelope).
  apply (ws_accept _ _ _ 0 (λ _, []) (NewSessionRegistry ex_config) (MkWorld ∅ ∅ []) 1 (ex_identity "alice") 0
           (ex_query "") "u" 1 0 ex_registry ex_w1 (Ok "s1")); [constructor|done|done|].
  vm_compute. reflexivity.
Qed.

Definition ex_session : session (Z * string) :=
  default (MkSession "" "" 0 None (newReplayBuffer 0) 0) (sessions ex_w2 !! 1).

Lemma resume_replays_missed_witness :
  ∃ w' x, ex_attach 2 "alice" "1" 0 ex_registry ex_w2 = (Some ex_registry, w', Ok "s1") ∧
    conns w' !! 2 = Some x ∧ outbox x = [((2, "b")%Z, true); ((3, "c")%Z, true)].
Proof.
  destruct (resume_replays_missed ex_close ex_marshal ex_config 5 ex_log ex_registry ex_w2 2
              (ex_identity "alice") 0 (ex_query "1") "u" 2 0 "s1" 1 ex_session 1)
    as (w' & x & H1 & H2 & _ & _ & H3 & _);
    [exact ex_w2_reach|lia|vm_compute; reflexivity|vm_compute; reflexivity|vm_compute; reflexivity
    |vm_compute; reflexivity|vm_compute; reflexivity|vm_compute; congruence|vm_compute; congruence|].
  exists w', x. split; [exact H1|]. split; [exact H2|]. rewrite H3. vm_compute. reflexivity.
Defined.

Lemma session_registry_sound_witness : (Z.of_nat (size (r_sessions ex_registry)) <= 8)%Z.
Proof.
  destruct (session_registry_sound ex_close ex_marshal ex_config 5 ex_log ex_registry ex_w2 ex_w2_reach)
    as (_ & _ & H & _); [lia|].
  apply H. vm_compute. reflexivity.
Defined.

(** ** What the code does not check *)

(** The user of the new connection plays no role: whoever knows a session's
    name gets the messages addressed to its owner and displaces the owner. *)
Theorem session_resumed_by_another_user :
  ∃ w' x, ex_attach 2 "mallory" "1" 0 ex_registry ex_w2 = (Some ex_registry, w', Ok "s1") ∧
    s_userID ex_session = "alice" ∧ conns w' !! 2 = Some x ∧ UserID (identity x) = "mallory" ∧
    outbox x = [((2, "b")%Z, true); ((3, "c")%Z, true)].
Proof. eexists _, _. split_and!; vm_compute; reflexivity. Qed.

(** The default buffer holds more messages than the default queue: a client
    that has missed more than 256 is kicked by the replay itself, if the
    writer does not keep up. *)
Theorem replay_overflows_queue :
  let s := MkSession "s1" "alice" 300 None
             (MkReplay 1024 ((λ k, MkStored (Z.of_nat k) (Z.of_nat k, "m")) <$> List.seq 1 300)) 0 in
  match ex_attach 2 "alice" "" 0 ex_registry (MkWorld ∅ {[1 := s]} []) with
  | (_, w', res) => res = Err (Errorf "websocket: send queue full" []) ∧
      closed <$> conns w' !! 2 = Some true
  end.
Proof. vm_compute. done. Qed.

(** A send whose connection is closed after the closed check panics. *)
Theorem send_races_close {Payload} net_close c (pl : Payload) text now now' code w x :
  conns w !! c = Some x → closed x = false →
  send_enqueue net_close c pl text now (close net_close c code now' w).1 =
    Panic "send on closed channel" [].
Proof.
  intros Hx Hcl. unfold send_enqueue, close. rewrite Hx, Hcl.
  destruct (c_session x); cbn; by rewrite lookup_insert_eq.
Qed.

(** ** Router *)

(** The handler of an action is the one registered last, any other action goes
    to the default handler, and without one the client gets an error reply. *)
Theorem router_dispatch {H : Type} (l : list (string * H)) fb env :
  Action env ≠ "" →
  dispatch (HandleDefault fb (fold_left (λ r ah, Handle ah.1 (Some ah.2) r) l NewRouter)) env =
  match last (filter (λ ah, ah.1 = Action env) l) with
  | Some ah => DHandle ah.2
  | None => match fb with Some h => DHandle h | None => DReply errUnknownAction end
  end.
Proof.
  intros Hne. unfold dispatch, Router_lookup. rewrite decide_False by done.
  cbn [HandleDefault handlers fallback].
  assert (handlers (fold_left (λ r ah, Handle ah.1 (Some ah.2) r) l NewRouter) !! Action env =
          snd <$> last (filter (λ ah, ah.1 = Action env) l)) as ->.
  2: { by destruct (last _). }
  induction l as [|[a h] l IH] using rev_ind; [done|].
  rewrite fold_left_app, filter_app. cbn [fold_left fst snd].
  set (r := fold_left _ l NewRouter) in *. rewrite filter_cons, filter_nil. cbn [fst].
  destruct (decide (a = Action env)) as [->|Hae]; unfold Handle.
  - rewrite decide_False by done. cbn. by rewrite lookup_insert_eq, last_snoc.
  - rewrite (right_id_L [] app), <- IH. case_decide; [done|]. cbn. by rewrite lookup_insert_ne.
Qed.
