(* ===== verification/WsRoom.v ===== *)
(** * plugins/websocket/room.go: rooms

    Rooms are shared by pointer: [Join] looks a room up under the manager's
    lock and enters it under the room's, and the janitor may evict it in
    between.  [Join] is therefore two steps, [join_room] and [join_enter].
    Connections are given by their identities ([Conn.AddGroups] and
    [Conn.RemoveGroups] of [server.go] change their group tags). *)

From S2P Require Import Prelude WsSession.

Import GoError.

(** ** Group tags of a connection *)

Fixpoint add_groups (gs groups : list string) : list string :=
  match gs with
  | [] => groups
  | g :: gs => add_groups gs (if decide (g ∈ groups) then groups else groups ++ [g])
  end.

Definition with_groups (gs : list string) (i : Identity) : Identity :=
  MkIdentity (ConnectionID i) (ClientID i) (UserID i) (TenantID i) gs (Metadata i) (RemoteAddr i)
    (Path i) (Authenticated i).

Definition SetGroups (gs : list string) (i : Identity) : Identity := with_groups gs i.
Definition AddGroups (gs : list string) (i : Identity) : Identity := with_groups (add_groups gs (Groups i)) i.
Definition RemoveGroups (gs : list string) (i : Identity) : Identity :=
  with_groups (filter (λ g, g ∉ gs) (Groups i)) i.

(** ** Rooms *)

Record RoomOptions := MkRoomOptions {
  MaxMembers : Z;
  EmptyTTL : Z;
  JanitorEvery : Z
}.

Definition defaultRoomEmptyTTL : Z := 30 * GoTime.Second.
Definition defaultRoomJanitorEvery : Z := 10 * GoTime.Second.

Definition roomGroup (roomID : string) : string := String.append "room:" roomID.

Definition RoomOptions_normalize (o : RoomOptions) : RoomOptions :=
  MkRoomOptions (MaxMembers o)
    (if (EmptyTTL o =? 0)%Z then defaultRoomEmptyTTL else EmptyTTL o)
    (if (JanitorEvery o <=? 0)%Z then defaultRoomJanitorEvery else JanitorEvery o).

Record Room := MkRoom {
  room_id : string;
  members : gmap string nat;
  emptySince : Z
}.

Definition Count (r : Room) : nat := size (members r).
Definition Has (connectionID : string) (r : Room) : bool := bool_decide (is_Some (members r !! connectionID)).

Definition errRoomFull : error := Errorf "websocket: room is full" [].

(** The manager with the stores of rooms and connections. *)
Record RoomManager := MkRoomManager {
  rooms : gmap string nat;
  opts : RoomOptions;
  room_heap : gmap nat Room;
  idents : gmap nat Identity
}.

Definition NewRoomManager (o : RoomOptions) (ids : gmap nat Identity) : RoomManager :=
  MkRoomManager ∅ (RoomOptions_normalize o) ∅ ids.

Definition Get (roomID : string) (rm : RoomManager) : option Room :=
  p ← rooms rm !! roomID; room_heap rm !! p.

Definition set_room (p : nat) (r : Room) (rm : RoomManager) : RoomManager :=
  MkRoomManager (rooms rm) (opts rm) (<[p := r]> (room_heap rm)) (idents rm).

Definition on_ident (c : nat) (f : Identity → Identity) (rm : RoomManager) : RoomManager :=
  MkRoomManager (rooms rm) (opts rm) (room_heap rm) (alter f c (idents rm)).

(** The first half of [Join]: the room, created on demand at address [p]. *)
Definition join_room (roomID : string) (p : nat) (rm : RoomManager) : RoomManager * nat :=
  match rooms rm !! roomID with
  | Some p => (rm, p)
  | None =>
      (MkRoomManager (<[roomID := p]> (rooms rm)) (opts rm)
         (<[p := MkRoom roomID ∅ 0]> (room_heap rm)) (idents rm), p)
  end.

(** The second half: entering the room. *)
Definition join_enter (roomID : string) (p : nat) (c : nat) (rm : RoomManager) :
    RoomManager * (nat * option error) :=
  match room_heap rm !! p, idents rm !! c with
  | Some room, Some ident =>
      let cid := ConnectionID ident in
      if (0 <? MaxMembers (opts rm))%Z && (MaxMembers (opts rm) <=? Z.of_nat (size (members room)))%Z
         && bool_decide (members room !! cid = None)
      then (rm, (size (members room), Some errRoomFull))
      else
        let room := MkRoom (room_id room) (<[cid := c]> (members room)) 0 in
        (on_ident c (AddGroups [roomGroup roomID]) (set_room p room rm), (Count room, None))
  | _, _ => (rm, (0, None))
  end.

(** [conn] is nil when it is [None]. *)
Definition Join (roomID : string) (conn : option nat) (p : nat) (rm : RoomManager) :
    RoomManager * (nat * option error) :=
  match conn with
  | None => (rm, (0, Some errEnvelopeNil))
  | Some c =>
      if decide (roomID = "") then (rm, (0, Some errEnvelopeNil))
      else let '(rm, p) := join_room roomID p rm in join_enter roomID p c rm
  end.

(** A room after one connection has left it. *)
Definition leave_room (connectionID : string) (now : Z) (room : Room) : Room :=
  let ms := delete connectionID (members room) in
  MkRoom (room_id room) ms (if decide (size ms = 0) then now else emptySince room).

Definition Leave (roomID : string) (c : nat) (now : Z) (rm : RoomManager) : RoomManager * bool :=
  match rooms rm !! roomID with
  | None => (rm, false)
  | Some p =>
      match room_heap rm !! p, idents rm !! c with
      | Some room, Some ident =>
          let cid := ConnectionID ident in
          let existed := bool_decide (is_Some (members room !! cid)) in
          let rm := set_room p (leave_room cid now room) rm in
          (if existed then on_ident c (RemoveGroups [roomGroup roomID]) rm else rm, existed)
      | _, _ => (rm, false)
      end
  end.

(** One round of the loop of [RemoveConnection]. *)
Definition remove_from (connectionID : string) (now : Z) (rm : RoomManager) (p : nat) : RoomManager :=
  match room_heap rm !! p with
  | None => rm
  | Some room =>
      let rm := set_room p (leave_room connectionID now room) rm in
      match members room !! connectionID with
      | Some c => on_ident c (RemoveGroups [roomGroup (room_id room)]) rm
      | None => rm
      end
  end.

(** [ps] is the enumeration of the rooms. *)
Definition RemoveConnection (connectionID : string) (now : Z) (ps : list nat) (rm : RoomManager) :
    RoomManager :=
  if decide (connectionID = "") then rm else fold_left (remove_from connectionID now) ps rm.

Definition evictable (now : Z) (rm : RoomManager) (p : nat) : bool :=
  match room_heap rm !! p with
  | None => false
  | Some room =>
      bool_decide (size (members room) = 0) && negb (GoTime.IsZero (emptySince room))
      && (0 <? EmptyTTL (opts rm))%Z && (EmptyTTL (opts rm) <=? GoTime.Sub now (emptySince room))%Z
  end.

Definition evictEmptyRooms (now : Z) (rm : RoomManager) : RoomManager :=
  MkRoomManager (filter (λ kp, evictable now rm kp.2 = false) (rooms rm)) (opts rm) (room_heap rm)
    (idents rm).

(** ** Membership *)

Definition member (rm : RoomManager) (roomID : string) (c : nat) : Prop :=
  ∃ p room ident, rooms rm !! roomID = Some p ∧ room_heap rm !! p = Some room ∧
    idents rm !! c = Some ident ∧ members room !! ConnectionID ident = Some c.

Definition tagged (rm : RoomManager) (roomID : string) (c : nat) : Prop :=
  ∃ ident, idents rm !! c = Some ident ∧ roomGroup roomID ∈ Groups ident.

(** Connection ids are unique. *)
Definition distinct_ids (ids : gmap nat Identity) : Prop :=
  ∀ c c' i i', ids !! c = Some i → ids !! c' = Some i' → ConnectionID i = ConnectionID i' → c = c'.

Record room_inv (rm : RoomManager) : Prop := {
  rv_rooms : ∀ rid p, rooms rm !! rid = Some p → ∃ room, room_heap rm !! p = Some room ∧ room_id room = rid;
  rv_members : ∀ p room cid c, room_heap rm !! p = Some room → members room !! cid = Some c →
    ∃ ident, idents rm !! c = Some ident ∧ ConnectionID ident = cid;
  rv_bound : ∀ p room, room_heap rm !! p = Some room → (0 < MaxMembers (opts rm))%Z →
    (Z.of_nat (size (members room)) <= MaxMembers (opts rm))%Z;
  rv_distinct : distinct_ids (idents rm);
  rv_tags : ∀ rid c, tagged rm rid c ↔ member rm rid c
}.

(** ** The operations preserve the invariant *)

Lemma roomGroup_inj r1 r2 : roomGroup r1 = roomGroup r2 → r1 = r2.
Proof. unfold roomGroup. apply (inj (String.append "room:")). Qed.

Lemma elem_of_add_groups g gs groups : g ∈ add_groups gs groups ↔ g ∈ gs ∨ g ∈ groups.
Proof.
  revert groups. induction gs as [|g' gs IH]; intros groups; cbn; [set_solver|].
  rewrite IH. case_decide; set_solver.
Qed.

Lemma distinct_ids_alter c f ids :
  (∀ i, ConnectionID (f i) = ConnectionID i) → distinct_ids ids → distinct_ids (alter f c ids).
Proof.
  intros Hf Hd c1 c2 i1 i2. rewrite !lookup_alter_Some.
  intros [(-> & j1 & H1 & ->)|[? H1]] [(-> & j2 & H2 & ->)|[? H2]] E; rewrite ?Hf in E; eauto.
Qed.

Lemma join_room_inv rm rid p :
  room_inv rm → room_heap rm !! p = None →
  room_inv (join_room rid p rm).1 ∧ rooms (join_room rid p rm).1 !! rid = Some (join_room rid p rm).2.
Proof.
  intros [Hr Hm Hb Hd Ht] Hp. unfold join_room. destruct (rooms rm !! rid) as [p0|] eqn:E; [done|].
  cbn. split; [|apply lookup_insert_eq]. split; cbn; [| | |done|].
  - intros r q [[<- <-]|[Hne Hq]]%lookup_insert_Some; [eexists; by rewrite lookup_insert_eq|].
    destruct (Hr r q Hq) as (room & Hroom & Hid). exists room. rewrite lookup_insert_ne; [done|]. congruence.
  - intros q room cid c [[<- <-]|[Hne Hq]]%lookup_insert_Some Hc; [by cbn in Hc; rewrite lookup_empty in Hc|eauto].
  - intros q room [[<- <-]|[Hne Hq]]%lookup_insert_Some Hpos; cbn; [rewrite map_size_empty; lia|eauto].
  - intros r c. change (tagged _ r c) with (tagged rm r c). rewrite Ht. split.
    + intros (q & room & ident & Hq & Hroom & Hi & Hc). exists q, room, ident. cbn.
      rewrite !lookup_insert_ne by congruence. done.
    + intros (q & room & ident & Hq & Hroom & Hi & Hc). cbn in *. exists q, room, ident.
      apply lookup_insert_Some in Hroom as [[<- <-]|[Hne Hroom]]; [by cbn in Hc; rewrite lookup_empty in Hc|].
      apply lookup_insert_Some in Hq as [[_ <-]|[? ?]]; done.
Qed.

(** Two names of one room are equal. *)
Lemma rooms_inj rm r1 r2 p : room_inv rm → rooms rm !! r1 = Some p → rooms rm !! r2 = Some p → r1 = r2.
Proof.
  intros Hi H1 H2. destruct (rv_rooms _ Hi r1 p H1) as (? & ? & <-).
  destruct (rv_rooms _ Hi r2 p H2) as (? & ? & <-). congruence.
Qed.

(** Changing the members of one room and the tag of one connection alike. *)
Section Update.
Context (rm : RoomManager) (rid : string) (p : nat) (room : Room) (ms : gmap string nat) (t : Z).
Context (c : nat) (f : Identity → Identity).
Hypothesis Hinv : room_inv rm.
Hypothesis Hrid : rooms rm !! rid = Some p.
Hypothesis Hroom : room_heap rm !! p = Some room.
Hypothesis Hf : ∀ i, ConnectionID (f i) = ConnectionID i.
Hypothesis Hms : ∀ cid c', ms !! cid = Some c' → ∃ i, idents rm !! c' = Some i ∧ ConnectionID i = cid.
Hypothesis Hbd : (0 < MaxMembers (opts rm))%Z → (Z.of_nat (size ms) <= MaxMembers (opts rm))%Z.
Hypothesis Htag : ∀ r' i, idents rm !! c = Some i →
  (roomGroup r' ∈ Groups (f i) ↔
     if decide (r' = rid) then ms !! ConnectionID i = Some c else roomGroup r' ∈ Groups i).
Hypothesis Hother : ∀ c' i, c' ≠ c → idents rm !! c' = Some i →
  ms !! ConnectionID i = Some c' ↔ members room !! ConnectionID i = Some c'.

(** The tags of a connection afterwards. *)
Lemma update_ident c' i' :
  alter f c (idents rm) !! c' = Some i' →
  ∃ i, idents rm !! c' = Some i ∧ ConnectionID i' = ConnectionID i ∧
    ∀ r', roomGroup r' ∈ Groups i' ↔
      if decide (r' = rid) then ms !! ConnectionID i = Some c' else roomGroup r' ∈ Groups i.
Proof.
  rewrite lookup_alter_Some. intros [(-> & i & Hi & ->)|[Hne Hi]].
  - exists i. split; [done|]. split; [done|]. intros r'. by apply Htag.
  - exists i'. split; [done|]. split; [done|]. intros r'. case_decide as E; [|done]. subst r'.
    rewrite Hother by done. pose proof (rv_tags _ Hinv rid c') as H. split.
    + intros Hin. destruct (proj1 H) as (q & rm' & i0 & Hq & Hrm & Hi0 & Hc'); [by exists i'|]. congruence.
    + intros Hc'. destruct (proj2 H) as (i0 & Hi0 & Hin); [by exists p, room, i'|]. congruence.
Qed.

Lemma update_tags r' c' :
  tagged (on_ident c f (set_room p (MkRoom (room_id room) ms t) rm)) r' c' ↔
  member (on_ident c f (set_room p (MkRoom (room_id room) ms t) rm)) r' c'.
Proof.
  split.
  - intros (i' & Hi' & Hin). cbn in Hi'. destruct (update_ident c' i' Hi') as (i & Hi & Hcid & Hg).
    apply Hg in Hin. case_decide as E.
    + subst r'. exists p, (MkRoom (room_id room) ms t), i'. cbn. rewrite lookup_insert_eq, Hcid. done.
    + destruct (proj1 (rv_tags _ Hinv r' c')) as (q & room' & i0 & Hq & Hroom' & Hi0 & Hc'); [by exists i|].
      rewrite Hi in Hi0. simplify_eq. exists q, room', i'. cbn. rewrite Hcid.
      rewrite lookup_insert_ne; [done|]. intros <-. apply E. by eapply rooms_inj.
  - intros (q & room' & i' & Hq & Hroom' & Hi' & Hc'). cbn in Hq, Hroom', Hi'.
    destruct (update_ident c' i' Hi') as (i & Hi & Hcid & Hg).
    exists i'. split; [done|]. apply Hg. rewrite Hcid in Hc'.
    apply lookup_insert_Some in Hroom' as [[<- <-]|[Hne Hroom']].
    + rewrite decide_True by (by eapply rooms_inj). done.
    + rewrite decide_False by congruence.
      destruct (proj2 (rv_tags _ Hinv r' c')) as (i0 & Hi0 & Hin0); [by exists q, room', i|]. congruence.
Qed.

Lemma room_inv_update : room_inv (on_ident c f (set_room p (MkRoom (room_id room) ms t) rm)).
Proof.
  split; cbn; [| | | |apply update_tags].
  - intros r q Hq. destruct (rv_rooms _ Hinv r q Hq) as (room' & Hroom' & Hid).
    destruct (decide (q = p)) as [->|Hne].
    + eexists. rewrite lookup_insert_eq. split; [done|]. cbn. congruence.
    + exists room'. by rewrite lookup_insert_ne.
  - intros q room' cid c' Hq Hc'.
    assert (∃ i, idents rm !! c' = Some i ∧ ConnectionID i = cid) as (i & Hi & <-).
    { apply lookup_insert_Some in Hq as [[<- <-]|[Hne Hq]]; [by apply Hms|by eapply (rv_members _ Hinv)]. }
    destruct (decide (c' = c)) as [->|Hne].
    + exists (f i). by rewrite lookup_alter_eq, Hi.
    + exists i. by rewrite lookup_alter_ne.
  - intros q room' [[<- <-]|[Hne Hq]]%lookup_insert_Some; [done|]. by eapply (rv_bound _ Hinv).
  - apply distinct_ids_alter; [done|]. apply (rv_distinct _ Hinv).
Qed.

End Update.

Lemma join_enter_inv rm rid p c :
  room_inv rm → rooms rm !! rid = Some p → room_inv (join_enter rid p c rm).1.
Proof.
  intros Hinv Hp. unfold join_enter. destruct (room_heap rm !! p) as [room|] eqn:Hroom; [|done].
  destruct (idents rm !! c) as [ident|] eqn:Hi; [|done]. case_match eqn:Hfull; [done|].
  apply (room_inv_update rm rid); try done.
  - intros cid c' [[<- <-]|[Hne Hc']]%lookup_insert_Some; [by exists ident|]. by eapply (rv_members _ Hinv).
  - intros Hpos. destruct (members room !! ConnectionID ident) as [c'|] eqn:Hmem.
    + rewrite map_size_insert_Some by eauto. by apply (rv_bound _ Hinv p).
    + rewrite map_size_insert_None by done. rewrite bool_decide_eq_true_2 in Hfull by done. lia.
  - intros r' i Hi'. simplify_eq. cbn [AddGroups with_groups Groups]. rewrite elem_of_add_groups, list_elem_of_singleton, lookup_insert_eq.
    case_decide as E; [subst; naive_solver|]. split; [|auto]. intros [->%roomGroup_inj|?]; done.
  - intros c' i Hne Hi'. rewrite lookup_insert_ne; [done|]. intros E.
    apply Hne. symmetry. by eapply (rv_distinct _ Hinv).
Qed.

(** Leaving, for the member at a connection id. *)
Lemma leave_inv rm rid p room cid c now :
  room_inv rm → rooms rm !! rid = Some p → room_heap rm !! p = Some room →
  members room !! cid = Some c →
  room_inv (on_ident c (RemoveGroups [roomGroup rid]) (set_room p (leave_room cid now room) rm)).
Proof.
  intros Hinv Hp Hroom Hc. destruct (rv_members _ Hinv p room cid c Hroom Hc) as (ident & Hi & Hcid).
  apply (room_inv_update rm rid); try done.
  - intros cid' c' [_ Hc']%lookup_delete_Some. by eapply (rv_members _ Hinv).
  - intros Hpos. etrans; [|exact (rv_bound _ Hinv p room Hroom Hpos)].
    apply inj_le, map_subseteq_size, delete_subseteq.
  - intros r' i Hi'. simplify_eq. cbn. rewrite list_elem_of_filter, list_elem_of_singleton.
    rewrite lookup_delete_eq. case_decide as E; [subst; naive_solver|].
    split; [by intros []|]. intros H. split; [|done]. by intros ?%roomGroup_inj.
  - intros c' i Hne Hi'. rewrite lookup_delete_ne; [done|]. intros E.
    apply Hne. eapply (rv_distinct _ Hinv); eauto. congruence.
Qed.

(** Leaving a room of which one is not a member. *)
Lemma leave_absent_inv rm p room cid now :
  room_inv rm → room_heap rm !! p = Some room → members room !! cid = None →
  room_inv (set_room p (leave_room cid now room) rm).
Proof.
  intros [Hr Hm Hb Hd Ht] Hroom Hc. unfold leave_room. rewrite delete_id by done.
  set (room' := MkRoom _ _ _).
  split; cbn; [| | |done|].
  - intros r q Hq. destruct (Hr r q Hq) as (x & Hx & Hid). destruct (decide (q = p)) as [->|Hne].
    + exists room'. rewrite lookup_insert_eq. split; [done|]. cbn. congruence.
    + exists x. by rewrite lookup_insert_ne.
  - intros q x cid' c [[<- <-]|[Hne Hq]]%lookup_insert_Some; cbn; eauto.
  - intros q x [[<- <-]|[Hne Hq]]%lookup_insert_Some; cbn; eauto.
  - intros r c. change (tagged _ r c) with (tagged rm r c). rewrite Ht. unfold member. cbn. split.
    + intros (q & x & i & Hq & Hx & Hi & Hcx). destruct (decide (q = p)) as [->|Hne].
      * exists p, room', i. rewrite lookup_insert_eq. cbn. rewrite Hroom in Hx. by simplify_eq.
      * exists q, x, i. by rewrite lookup_insert_ne.
    + intros (q & x & i & Hq & [[<- <-]|[Hne Hx]]%lookup_insert_Some & Hi & Hcx);
        [by exists p, room, i|by exists q, x, i].
Qed.

Lemma Leave_inv rm rid c now : room_inv rm → room_inv (Leave rid c now rm).1.
Proof.
  intros Hinv. unfold Leave. destruct (rooms rm !! rid) as [p|] eqn:Hp; [|done].
  destruct (room_heap rm !! p) as [room|] eqn:Hroom; [|done].
  destruct (idents rm !! c) as [ident|] eqn:Hi; [|done]. cbn.
  destruct (members room !! ConnectionID ident) as [c'|] eqn:Hc.
  - rewrite bool_decide_eq_true_2 by eauto.
    destruct (rv_members _ Hinv p room _ c' Hroom Hc) as (i' & Hi' & E).
    assert (c' = c) as -> by (by eapply (rv_distinct _ Hinv)). by apply leave_inv.
  - rewrite bool_decide_eq_false_2 by (intros [? ?]; done). by apply leave_absent_inv.
Qed.

Lemma remove_from_inv cid now rm p rid :
  room_inv rm → rooms rm !! rid = Some p → room_inv (remove_from cid now rm p).
Proof.
  intros Hinv Hp. unfold remove_from. destruct (rv_rooms _ Hinv rid p Hp) as (room & Hroom & Hid).
  rewrite Hroom. destruct (members room !! cid) as [c|] eqn:Hc; [|by apply leave_absent_inv].
  rewrite Hid. by apply leave_inv.
Qed.

Lemma remove_from_rooms cid now rm p : rooms (remove_from cid now rm p) = rooms rm.
Proof. unfold remove_from. by repeat case_match. Qed.

Lemma RemoveConnection_inv cid now ps rm :
  room_inv rm → (∀ p, p ∈ ps → ∃ rid, rooms rm !! rid = Some p) →
  room_inv (RemoveConnection cid now ps rm).
Proof.
  unfold RemoveConnection. case_decide; [done|]. revert rm.
  induction ps as [|p ps IH]; intros rm Hinv Hps; cbn; [done|].
  destruct (Hps p) as [rid Hp]; [by left|]. apply IH; [by eapply remove_from_inv|].
  intros q Hq. rewrite remove_from_rooms. apply Hps. by right.
Qed.

Lemma evictEmptyRooms_inv now rm : room_inv rm → room_inv (evictEmptyRooms now rm).
Proof.
  intros [Hr Hm Hb Hd Ht]. split; cbn; [|done|done|done|].
  - intros rid p [Hp _]%map_lookup_filter_Some. eauto.
  - intros rid c. change (tagged _ rid c) with (tagged rm rid c). rewrite Ht. unfold member. cbn.
    split; intros (p & room & i & Hp & Hroom & Hi & Hc); exists p, room, i; (split; [|done]).
    + apply map_lookup_filter_Some. split; [done|]. cbn. unfold evictable. rewrite Hroom.
      rewrite bool_decide_eq_false_2; [done|]. intros E%map_size_empty_inv. rewrite E in Hc.
      by rewrite lookup_empty in Hc.
    + by apply map_lookup_filter_Some in Hp as [? _].
Qed.

(** ** Theorems *)

(** The states reached by any sequence of calls, each completed before the
    next one starts. *)
Inductive room_reach (o : RoomOptions) (ids : gmap nat Identity) : RoomManager → Prop :=
| rr_init : room_reach o ids (NewRoomManager o ids)
| rr_join rm roomID conn p :
    room_reach o ids rm → room_heap rm !! p = None → room_reach o ids (Join roomID conn p rm).1
| rr_leave rm roomID c now : room_reach o ids rm → room_reach o ids (Leave roomID c now rm).1
| rr_remove rm cid now ps :
    room_reach o ids rm → ps ≡ₚ (map_to_list (rooms rm)).*2 →
    room_reach o ids (RemoveConnection cid now ps rm)
| rr_evict rm now : room_reach o ids rm → room_reach o ids (evictEmptyRooms now rm).

(** The enumeration of the rooms is the addresses of the registered ones. *)
Lemma enumerated rm ps p :
  ps ≡ₚ (map_to_list (rooms rm)).*2 → p ∈ ps ↔ ∃ rid, rooms rm !! rid = Some p.
Proof.
  intros ->. rewrite list_elem_of_fmap. split.
  - intros ([rid q] & -> & H%elem_of_map_to_list). eauto.
  - intros [rid H]. exists (rid, p). by rewrite elem_of_map_to_list.
Qed.

Lemma room_reach_inv o ids rm :
  distinct_ids ids → (∀ c i rid, ids !! c = Some i → roomGroup rid ∉ Groups i) →
  room_reach o ids rm → room_inv rm.
Proof.
  intros Hd Hno. induction 1 as [|rm roomID conn p Hre IH Hp|rm roomID c now Hre IH
    |rm cid now ps Hre IH Hps|rm now Hre IH].
  - split; cbn; [by setoid_rewrite lookup_empty|by setoid_rewrite lookup_empty
      |by setoid_rewrite lookup_empty|done|].
    intros rid c. split.
    + intros (i & Hi & Hin). by destruct (Hno c i rid Hi).
    + intros (q & room & i & Hq & _). cbn in Hq. by rewrite lookup_empty in Hq.
  - unfold Join. destruct conn as [c|]; [|done]. case_decide; [done|].
    destruct (join_room_inv rm roomID p IH Hp) as [Hinv Hr].
    destruct (join_room roomID p rm) as [rm' p']. by apply join_enter_inv.
  - by apply Leave_inv.
  - apply RemoveConnection_inv; [done|]. intros p. by apply enumerated.
  - by apply evictEmptyRooms_inv.
Qed.

(** After any sequence of joins, leaves, disconnects and evictions, a
    connection carries the group tag of a room exactly when it is a member of
    that room, no room has more members than allowed, and every member is
    listed under its own connection id: a cluster-wide group broadcast reaches
    exactly the members, and eviction never removes a room with members. *)
Theorem rooms_consistent o ids rm :
  distinct_ids ids → (∀ c i rid, ids !! c = Some i → roomGroup rid ∉ Groups i) →
  room_reach o ids rm →
  (∀ rid c, tagged rm rid c ↔ member rm rid c) ∧
  (∀ rid room, Get rid rm = Some room →
     (0 < MaxMembers (opts rm))%Z → (Z.of_nat (Count room) <= MaxMembers (opts rm))%Z) ∧
  (∀ now rid c, member rm rid c → member (evictEmptyRooms now rm) rid c).
Proof.
  intros Hd Hno Hre. pose proof (room_reach_inv o ids rm Hd Hno Hre) as Hinv. split_and!.
  - apply (rv_tags _ Hinv).
  - unfold Get, Count. intros rid room Hget. destruct (rooms rm !! rid) as [p|]; [|done].
    by apply (rv_bound _ Hinv p).
  - intros now rid c Hm. apply (rv_tags _ (evictEmptyRooms_inv now rm Hinv)).
    by apply (rv_tags _ Hinv).
Qed.

(** What one round of [RemoveConnection] leaves of the other rooms. *)
Lemma remove_from_heap cid now rm p q :
  room_heap (remove_from cid now rm p) !! q =
  if decide (p = q) then leave_room cid now <$> room_heap rm !! q else room_heap rm !! q.
Proof.
  unfold remove_from. destruct (room_heap rm !! p) as [room|] eqn:Hroom.
  - destruct (members room !! cid); cbn; case_decide as E; subst;
      rewrite ?lookup_insert_eq, ?Hroom, ?lookup_insert_ne by done; done.
  - case_decide as E; [|done]. subst. by rewrite Hroom.
Qed.

Lemma fold_remove_absent cid now ps rm q room :
  (q ∈ ps ∨ ∀ x, room_heap rm !! q = Some x → members x !! cid = None) →
  room_heap (fold_left (remove_from cid now) ps rm) !! q = Some room → members room !! cid = None.
Proof.
  revert rm. induction ps as [|p ps IH]; intros rm Hq; cbn.
  - destruct Hq as [Hq|Hq]; [by inversion Hq|apply Hq].
  - apply IH. destruct (decide (q ∈ ps)) as [|Hnot]; [by left|]. right. intros x.
    rewrite remove_from_heap. case_decide as E.
    + subst. intros (y & Hy & ->)%fmap_Some. cbn. apply lookup_delete_eq.
    + destruct Hq as [[->|?]%elem_of_cons|Hq]; [done|done|apply Hq].
Qed.

(** When a connection is gone it is a member of no registered room and
    carries no room tag. *)
Theorem RemoveConnection_complete o ids rm cid now ps c i :
  distinct_ids ids → (∀ c i rid, ids !! c = Some i → roomGroup rid ∉ Groups i) →
  room_reach o ids rm → ps ≡ₚ (map_to_list (rooms rm)).*2 → cid ≠ "" →
  idents (RemoveConnection cid now ps rm) !! c = Some i → ConnectionID i = cid →
  ∀ rid, ¬ member (RemoveConnection cid now ps rm) rid c ∧
    ¬ tagged (RemoveConnection cid now ps rm) rid c.
Proof.
  intros Hd Hno Hre Hps Hne Hi Hcid rid.
  pose proof (room_reach_inv o ids _ Hd Hno (rr_remove o ids rm cid now ps Hre Hps)) as Hinv.
  assert (¬ member (RemoveConnection cid now ps rm) rid c) as Hnm.
  { intros (p & room & i' & Hp & Hroom & Hi' & Hc).
    assert (rooms (RemoveConnection cid now ps rm) = rooms rm) as Er.
    { unfold RemoveConnection. rewrite decide_False by done. clear.
      revert rm. induction ps as [|q ps IH]; intros rm; cbn; [done|]. by rewrite IH, remove_from_rooms. }
    rewrite Er in Hp. unfold RemoveConnection in Hroom. rewrite decide_False in Hroom by done.
    assert (members room !! cid = None); [|congruence].
    apply (fold_remove_absent cid now ps rm p room); [|done].
    left. apply (enumerated rm ps p Hps). eauto. }
  split; [done|]. by rewrite (rv_tags _ Hinv).
Qed.

(** ** A concrete manager *)

Definition ex_ident (cid : string) : Identity := MkIdentity cid "" "" "" ["vip"] ∅ "" "" true.
Definition ex_ids : gmap nat Identity := {[1 := ex_ident "c1"; 2 := ex_ident "c2"]}.
Definition ex_opts : RoomOptions := MkRoomOptions 1 0 0.
Definition ex_rm1 : RoomManager := (Join "lobby" (Some 1) 10 (NewRoomManager ex_opts ex_ids)).1.

Lemma ex_ids_ok :
  distinct_ids ex_ids ∧ ∀ c i rid, ex_ids !! c = Some i → roomGroup rid ∉ Groups i.
Proof.
  assert (∀ c i, ex_ids !! c = Some i → (c = 1 ∧ i = ex_ident "c1") ∨ (c = 2 ∧ i = ex_ident "c2")) as H.
  { intros c i. unfold ex_ids. rewrite lookup_insert_Some, lookup_singleton_Some. naive_solver. }
  split.
  - intros c c' i i' [[-> ->]|[-> ->]]%H [[-> ->]|[-> ->]]%H E; done.
  - intros c i rid [[-> ->]|[-> ->]]%H; intros [Hin|Hin]%elem_of_cons;
      (by inversion Hin || discriminate Hin).
Qed.

Lemma ex_rm1_reach : room_reach ex_opts ex_ids ex_rm1.
Proof. apply rr_join; [constructor|done]. Qed.

Lemma rooms_consistent_witness : member ex_rm1 "lobby" 1 ∧ tagged ex_rm1 "lobby" 1 ∧
  (Join "lobby" (Some 2) 11 ex_rm1).2 = (1, Some errRoomFull).
Proof.
  destruct (rooms_consistent ex_opts ex_ids ex_rm1 (proj1 ex_ids_ok) (proj2 ex_ids_ok) ex_rm1_reach)
    as (H & _ & _).
  assert (tagged ex_rm1 "lobby" 1) as Ht.
  { exists (AddGroups ["room:lobby"] (ex_ident "c1")). split; [vm_compute; reflexivity|].
    apply elem_of_add_groups. left. by apply list_elem_of_singleton. }
  split; [by apply H|]. split; [exact Ht|vm_compute; reflexivity].
Defined.

Lemma RemoveConnection_complete_witness : ¬ member (RemoveConnection "c1" 5 [10] ex_rm1) "lobby" 1.
Proof.
  apply (RemoveConnection_complete ex_opts ex_ids ex_rm1 "c1" 5 [10] 1 (ex_ident "c1")
           (proj1 ex_ids_ok) (proj2 ex_ids_ok) ex_rm1_reach);
    [vm_compute; reflexivity|discriminate|vm_compute; reflexivity|reflexivity].
Defined.

(** ** What the code does not handle *)

(** A join whose room is evicted between its two halves enters a room nobody
    can find: the connection has the tag but is a member of no registered
    room, and a disconnect leaves it there. *)
Theorem join_races_eviction :
  let rm := (Leave "lobby" 1 1 ex_rm1).1 in
  let '(rm, p) := join_room "lobby" 11 rm in
  let '(rm, res) := join_enter "lobby" p 2 (evictEmptyRooms (1 + 30 * GoTime.Second) rm) in
  res = (1, None) ∧ Get "lobby" rm = None ∧ tagged rm "lobby" 2 ∧
  (members <$> room_heap (RemoveConnection "c2" 0 [] rm) !! p) = Some {["c2" := 2]}.
Proof.
  split; [reflexivity|]. split; [reflexivity|]. split; [|reflexivity].
  eexists. split; [vm_compute; reflexivity|]. apply elem_of_cons. right. by apply list_elem_of_singleton.
Qed.

(** Every disconnect restarts the clock of every empty room, member or not:
    as long as clients disconnect more often than the time-to-live, no empty
    room is ever evicted. *)
Theorem disconnect_postpones_eviction rm cid now now' p room :
  cid ≠ "" → room_heap rm !! p = Some room → members room = ∅ →
  (GoTime.Sub now' now < EmptyTTL (opts rm))%Z →
  evictable now' (RemoveConnection cid now [p] rm) p = false.
Proof.
  intros Hne Hroom Hm Hlt. unfold RemoveConnection. rewrite decide_False by done. cbn.
  unfold evictable. rewrite remove_from_heap, decide_True, Hroom by done. cbn.
  rewrite Hm, delete_empty. cbn. unfold remove_from. rewrite Hroom, Hm, lookup_empty. cbn.
  rewrite (proj2 (Z.leb_gt _ _)) by done. by rewrite !andb_false_r.
Qed.
