(* ===== verification/WsManager.v ===== *)
(** * plugins/websocket/manager.go and cluster.go: broadcast

    The connection manager of a node, its broadcasts, and the cluster events
    that repeat them on the other nodes, over the in-memory bus of
    [cluster.go].  Connections are those of [WsSession]. *)

From S2P Require Import Prelude WsSession.

Import GoError.

(** ** Errors of a broadcast *)

Definition BroadcastErrors : Type := list error.

Definition Add (err : option error) (be : BroadcastErrors) : BroadcastErrors :=
  match err with Some e => be ++ [e] | None => be end.

Definition First (be : BroadcastErrors) : option error := head be.

(** ** Managers *)

(** [cluster] is the node id when a transport is configured. *)
Record Manager := MkManager {
  m_conns : gmap string nat;
  cluster : option string
}.

(** The cluster messages; the payload is a text or a byte string. *)
Record clusterEnvelope := MkCluster {
  SourceNode : string;
  EType : string;
  Target : string;
  EPayload : string
}.

Section Manager.
Context (net_close : nat → option error).

Notation world := (WsSession.world string).

Definition conn_id (c : nat) (w : world) : string :=
  match conns w !! c with Some x => ConnectionID (identity x) | None => "" end.

Definition Register (c : nat) (w : world) (m : Manager) : Manager :=
  if decide (conn_id c w = "") then m
  else MkManager (<[conn_id c w := c]> (m_conns m)) (cluster m).

Definition Unregister (c : nat) (w : world) (m : Manager) : Manager :=
  if decide (conn_id c w = "") then m
  else MkManager (delete (conn_id c w) (m_conns m)) (cluster m).

Definition Manager_Count (m : Manager) : nat := size (m_conns m).

(** A snapshot, in the order the map is enumerated. *)
Definition snapshotConnections (m : Manager) : list nat := (map_to_list (m_conns m)).*2.

Definition matches (fn : Identity → bool) (w : world) (c : nat) : bool :=
  match conns w !! c with Some x => fn (identity x) | None => false end.

Definition connectionsByFilter (fn : Identity → bool) (w : world) (m : Manager) : list nat :=
  filter (λ c, matches fn w c = true) (snapshotConnections m).

(** [broadcastSnapshot]: every connection is tried, the first error returned. *)
Fixpoint send_all (cs : list nat) (pl : string) (text : bool) (now : Z) (w : world)
    (be : BroadcastErrors) : world * BroadcastErrors :=
  match cs with
  | [] => (w, be)
  | c :: cs =>
      let '(w, err) := send net_close c pl text now w in
      send_all cs pl text now w (Add err be)
  end.

Definition broadcastSnapshot (cs : list nat) (pl : string) (text : bool) (now : Z) (w : world) :
    world * option error :=
  let '(w, be) := send_all cs pl text now w [] in (w, First be).

(** [handleClusterMessage] of a decoded envelope: its own events are ignored, the
    others handled by their type. *)
Definition handleClusterMessage (env : clusterEnvelope) (now : Z) (m : Manager) (w : world) :
    world * option error :=
  if match cluster m with
     | Some node => negb (bool_decide (node = "")) && bool_decide (SourceNode env = node)
     | None => false
     end
  then (w, None)
  else if decide (EType env = "broadcast_text") then
    broadcastSnapshot (snapshotConnections m) (EPayload env) true now w
  else if decide (EType env = "broadcast_binary") then
    broadcastSnapshot (snapshotConnections m) (EPayload env) false now w
  else if decide (EType env = "broadcast_group_text") then
    broadcastSnapshot (connectionsByFilter (λ i, existsb (λ group, bool_decide (group = Target env)) (Groups i)) w m)
      (EPayload env) true now w
  else if decide (EType env = "broadcast_user_text") then
    broadcastSnapshot (connectionsByFilter (λ i, bool_decide (UserID i = Target env)) w m) (EPayload env) true now w
  else if decide (EType env = "broadcast_client_text") then
    broadcastSnapshot (connectionsByFilter (λ i, bool_decide (ClientID i = Target env)) w m) (EPayload env) true now w
  else if decide (EType env = "send_connection_text") then
    match m_conns m !! Target env with
    | None => (w, None)
    | Some c => send net_close c (EPayload env) true now w
    end
  else (w, None).

(** [InMemoryClusterTransport.Publish]: the subscribers in order, up to the
    first error. *)
Fixpoint bus_publish (env : clusterEnvelope) (now : Z) (nodes : list Manager) (w : world) :
    world * option error :=
  match nodes with
  | [] => (w, None)
  | m :: nodes =>
      match handleClusterMessage env now m w with
      | (w, Some e) => (w, Some e)
      | (w, None) => bus_publish env now nodes w
      end
  end.

(** [publishClusterEvent]; [nodes] are the subscribers of the bus. *)
Definition publishClusterEvent (t target pl : string) (now : Z) (nodes : list Manager)
    (m : Manager) (w : world) : world * option error :=
  match cluster m with
  | None => (w, None)
  | Some node => bus_publish (MkCluster node t target pl) now nodes w
  end.

(** The broadcasts: the local connections, then, if there was no error, the
    cluster. *)
Definition BroadcastText (message : string) (now : Z) (nodes : list Manager) (m : Manager) (w : world) :
    world * option error :=
  match broadcastSnapshot (snapshotConnections m) message true now w with
  | (w, Some e) => (w, Some e)
  | (w, None) => publishClusterEvent "broadcast_text" "all" message now nodes m w
  end.

Definition BroadcastBinary (payload : string) (now : Z) (nodes : list Manager) (m : Manager) (w : world) :
    world * option error :=
  match broadcastSnapshot (snapshotConnections m) payload false now w with
  | (w, Some e) => (w, Some e)
  | (w, None) => publishClusterEvent "broadcast_binary" "all" payload now nodes m w
  end.

Definition BroadcastToGroup (group message : string) (now : Z) (nodes : list Manager) (m : Manager) (w : world) :
    world * option error :=
  let cs := connectionsByFilter (λ i, existsb (λ item, bool_decide (item = group)) (Groups i)) w m in
  match broadcastSnapshot cs message true now w with
  | (w, Some e) => (w, Some e)
  | (w, None) => publishClusterEvent "broadcast_group_text" group message now nodes m w
  end.

Definition BroadcastToUser (userID message : string) (now : Z) (nodes : list Manager) (m : Manager) (w : world) :
    world * option error :=
  let cs := connectionsByFilter (λ i, bool_decide (UserID i = userID)) w m in
  match broadcastSnapshot cs message true now w with
  | (w, Some e) => (w, Some e)
  | (w, None) => publishClusterEvent "broadcast_user_text" userID message now nodes m w
  end.

Definition BroadcastToClient (clientID message : string) (now : Z) (nodes : list Manager) (m : Manager) (w : world) :
    world * option error :=
  let cs := connectionsByFilter (λ i, bool_decide (ClientID i = clientID)) w m in
  match broadcastSnapshot cs message true now w with
  | (w, Some e) => (w, Some e)
  | (w, None) => publishClusterEvent "broadcast_client_text" clientID message now nodes m w
  end.

Definition SendToConnection (connectionID message : string) (now : Z) (nodes : list Manager) (m : Manager) (w : world) :
    world * option error :=
  let '(w, err) :=
    match m_conns m !! connectionID with
    | Some c => send net_close c message true now w
    | None => (w, None)
    end in
  match err with
  | Some e => (w, Some e)
  | None => publishClusterEvent "send_connection_text" connectionID message now nodes m w
  end.

(** The check of one connection by the heartbeat loop. *)
Definition heartbeat_verdict (now lastSeen heartbeatTimeout idleTimeout : Z) (closed : bool) :
    option CloseCode :=
  if closed then None
  else if (0 <? heartbeatTimeout)%Z && (heartbeatTimeout <? GoTime.Sub now lastSeen)%Z
  then Some CloseCodeHeartbeatTimeout
  else if (0 <? idleTimeout)%Z && (idleTimeout <? GoTime.Sub now lastSeen)%Z
  then Some CloseCodeIdleTimeout
  else None.

(** [checkAllConnections]; [seen] is when each connection was last seen. *)
Fixpoint check_all (cs : list nat) (now heartbeatTimeout idleTimeout : Z) (seen : nat → Z)
    (mw : Manager * world) : Manager * world :=
  match cs with
  | [] => mw
  | c :: cs =>
      let '(m, w) := mw in
      let isClosed := match conns w !! c with Some x => closed x | None => true end in
      check_all cs now heartbeatTimeout idleTimeout seen
        match heartbeat_verdict now (seen c) heartbeatTimeout idleTimeout isClosed with
        | Some code => let w := (close net_close c code now w).1 in (Unregister c w m, w)
        | None => (m, w)
        end
  end.

Definition checkAllConnections (now heartbeatTimeout idleTimeout : Z) (seen : nat → Z) (m : Manager)
    (w : world) : Manager * world :=
  check_all (snapshotConnections m) now heartbeatTimeout idleTimeout seen (m, w).

Fixpoint close_all (cs : list nat) (now : Z) (w : world) : world :=
  match cs with
  | [] => w
  | c :: cs => close_all cs now (close net_close c CloseCodeServerShutdown now w).1
  end.

Definition CloseAll (now : Z) (m : Manager) (w : world) : Manager * world :=
  (MkManager ∅ None, close_all (snapshotConnections m) now w).

(** ** Broadcasts reach every recipient once *)

Definition enqueued (pl : string) (text : bool) (x : Conn string) : Conn string :=
  MkConn (identity x) (closed x) (closeCode x) (outbox x ++ [(pl, text)]) (outbox_cap x) (outSeq x)
    (c_session x).

(** A connection that accepts a frame. *)
Definition ready (c : nat) (w : world) : Prop :=
  ∃ x, conns w !! c = Some x ∧ closed x = false ∧ (Z.of_nat (length (outbox x)) < outbox_cap x)%Z.

(** Exactly the connections of [cs] have got one more frame. *)
Definition delivered (cs : list nat) (pl : string) (text : bool) (w w' : world) : Prop :=
  ∀ c, conns w' !! c = if decide (c ∈ cs) then enqueued pl text <$> conns w !! c else conns w !! c.

Lemma delivered_nil pl text w : delivered [] pl text w w.
Proof. intros c. by rewrite decide_False by set_solver. Qed.

Lemma delivered_app cs1 cs2 pl text w1 w2 w3 :
  (∀ c, c ∈ cs1 → c ∉ cs2) →
  delivered cs1 pl text w1 w2 → delivered cs2 pl text w2 w3 → delivered (cs1 ++ cs2) pl text w1 w3.
Proof.
  clear net_close. intros Hd H1 H2 c. rewrite H2, H1.
  destruct (decide (c ∈ cs1)) as [Hin|Hout].
  - rewrite (decide_False (P := c ∈ cs2)) by auto. by rewrite decide_True by set_solver.
  - destruct (decide (c ∈ cs2)).
    + by rewrite decide_True by set_solver.
    + by rewrite decide_False by set_solver.
Qed.

Lemma send_ready c pl text now w :
  ready c w → ∃ w', send net_close c pl text now w = (w', None) ∧ delivered [c] pl text w w'.
Proof.
  intros (x & Hx & Hcl & Hlen). unfold send. rewrite Hx, Hcl. zcmp. eexists. split; [done|].
  intros c'. cbn. destruct (decide (c' = c)) as [->|Hne].
  - rewrite lookup_insert_eq, decide_True, Hx by set_solver. cbn. unfold enqueued. by rewrite Hcl.
  - rewrite lookup_insert_ne by done. by rewrite decide_False by set_solver.
Qed.

Lemma delivered_ready cs pl text w w' c :
  delivered cs pl text w w' → c ∉ cs → ready c w → ready c w'.
Proof. intros Hd Hc (x & Hx & Hr). exists x. rewrite Hd, decide_False by done. done. Qed.

Lemma delivered_identity cs pl text w w' c :
  delivered cs pl text w w' → identity <$> conns w' !! c = identity <$> conns w !! c.
Proof. intros Hd. rewrite Hd. case_decide; [|done]. by destruct (conns w !! c). Qed.

Lemma send_all_ready cs pl text now w be :
  NoDup cs → (∀ c, c ∈ cs → ready c w) →
  ∃ w', send_all cs pl text now w be = (w', be) ∧ delivered cs pl text w w'.
Proof.
  intros Hnd. revert w be. induction Hnd as [|c cs Hc Hnd IH]; intros w be Hr; cbn.
  - exists w. split; [done|]. apply delivered_nil.
  - destruct (send_ready c pl text now w) as (w1 & -> & Hd1); [apply Hr; by left|].
    destruct (IH w1 be) as (w2 & Hs2 & Hd2).
    { intros c' Hc'. eapply delivered_ready; [exact Hd1|set_solver|apply Hr; by right]. }
    exists w2. split; [exact Hs2|]. apply (delivered_app [c] cs _ _ _ w1); [set_solver|done|done].
Qed.

Lemma broadcastSnapshot_ready cs pl text now w :
  NoDup cs → (∀ c, c ∈ cs → ready c w) →
  ∃ w', broadcastSnapshot cs pl text now w = (w', None) ∧ delivered cs pl text w w'.
Proof.
  intros Hnd Hr. unfold broadcastSnapshot.
  destruct (send_all_ready cs pl text now w [] Hnd Hr) as (w' & -> & Hd). eauto.
Qed.

(** ** What a broadcast promises *)

(** The calls, by whom they address. *)
Inductive message := ToAll (text : bool) | ToGroup (g : string) | ToUser (u : string) | ToClient (k : string)
  | ToConnection (i : string).

Definition perform (msg : message) (pl : string) (now : Z) (nodes : list Manager) (m : Manager) (w : world) :
    world * option error :=
  match msg with
  | ToAll true => BroadcastText pl now nodes m w
  | ToAll false => BroadcastBinary pl now nodes m w
  | ToGroup g => BroadcastToGroup g pl now nodes m w
  | ToUser u => BroadcastToUser u pl now nodes m w
  | ToClient k => BroadcastToClient k pl now nodes m w
  | ToConnection i => SendToConnection i pl now nodes m w
  end.

(** The connection [c] is registered on one of the nodes and the message is for
    it. *)
Definition matching (msg : message) (w : world) (nodes : list Manager) (c : nat) : Prop :=
  ∃ m i, m ∈ nodes ∧ m_conns m !! i = Some c ∧
    match msg with
    | ToAll _ => True
    | ToGroup g => ∃ x, conns w !! c = Some x ∧ g ∈ Groups (identity x)
    | ToUser u => ∃ x, conns w !! c = Some x ∧ UserID (identity x) = u
    | ToClient k => ∃ x, conns w !! c = Some x ∧ ClientID (identity x) = k
    | ToConnection j => i = j
    end.

Definition is_text (msg : message) : bool := match msg with ToAll text => text | _ => true end.

(** Of the connections of one node, those the message is for; the sender and the
    receivers of the event both come to them. *)
Definition addressees (msg : message) (w : world) (m : Manager) : list nat :=
  match msg with
  | ToAll _ => snapshotConnections m
  | ToGroup g => connectionsByFilter (λ i, bool_decide (g ∈ Groups i)) w m
  | ToUser u => connectionsByFilter (λ i, bool_decide (UserID i = u)) w m
  | ToClient k => connectionsByFilter (λ i, bool_decide (ClientID i = k)) w m
  | ToConnection j => match m_conns m !! j with Some c => [c] | None => [] end
  end.

Lemma snapshot_elem m c : c ∈ snapshotConnections m ↔ ∃ i, m_conns m !! i = Some c.
Proof.
  clear net_close. unfold snapshotConnections. rewrite list_elem_of_fmap. split.
  - intros ([i c'] & -> & H%elem_of_map_to_list). by exists i.
  - intros [i H]. exists (i, c). by rewrite elem_of_map_to_list.
Qed.

Lemma filter_elem fn m w c :
  c ∈ connectionsByFilter fn w m ↔ (∃ i, m_conns m !! i = Some c) ∧ ∃ x, conns w !! c = Some x ∧ fn (identity x) = true.
Proof.
  clear net_close. unfold connectionsByFilter, matches. rewrite list_elem_of_filter, snapshot_elem.
  destruct (conns w !! c); naive_solver.
Qed.

Lemma addressees_matching msg w m c : c ∈ addressees msg w m ↔ matching msg w [m] c.
Proof.
  clear net_close. unfold matching. destruct msg as [text|g|u|k|j]; cbn; rewrite ?filter_elem, ?snapshot_elem;
    try setoid_rewrite bool_decide_eq_true.
  - set_solver.
  - set_solver.
  - set_solver.
  - set_solver.
  - destruct (m_conns m !! j) as [c'|] eqn:E; [rewrite list_elem_of_singleton|]; set_solver.
Qed.

Lemma matching_bind msg w nodes c : c ∈ nodes ≫= addressees msg w ↔ matching msg w nodes c.
Proof.
  clear net_close. rewrite list_elem_of_bind. setoid_rewrite addressees_matching. unfold matching. split.
  - intros (m & (m' & i & ->%list_elem_of_singleton & H) & Hm). eauto.
  - intros (m & i & Hm & H). exists m. split; [|done]. exists m, i. split; [by left|done].
Qed.

Lemma existsb_groups (g : string) gs : existsb (λ item, bool_decide (item = g)) gs = bool_decide (g ∈ gs).
Proof.
  clear net_close. induction gs as [|x gs IH]; [done|]. cbn. rewrite IH.
  destruct (bool_decide_reflect (x = g)) as [->|]; cbn.
  - symmetry. apply bool_decide_eq_true_2. by left.
  - apply bool_decide_ext. set_solver.
Qed.

Lemma groups_filter g w m :
  connectionsByFilter (λ i, existsb (λ item, bool_decide (item = g)) (Groups i)) w m =
  connectionsByFilter (λ i, bool_decide (g ∈ Groups i)) w m.
Proof.
  clear net_close. apply filter_ext_elem. intros c _. unfold matches. destruct (conns w !! c); [|done].
  by rewrite existsb_groups.
Qed.

Lemma broadcastSnapshot_one c pl now w : broadcastSnapshot [c] pl true now w = send net_close c pl true now w.
Proof. unfold broadcastSnapshot. cbn. destruct (send _ _ _ _ _ _) as [w' [e|]]; done. Qed.

(** The event of a call. *)
Definition event (msg : message) : string * string :=
  match msg with
  | ToAll true => ("broadcast_text", "all")
  | ToAll false => ("broadcast_binary", "all")
  | ToGroup g => ("broadcast_group_text", g)
  | ToUser u => ("broadcast_user_text", u)
  | ToClient k => ("broadcast_client_text", k)
  | ToConnection i => ("send_connection_text", i)
  end.

(** Each method sends to its local addressees and publishes its event. *)
Lemma perform_local msg pl now nodes m w :
  perform msg pl now nodes m w =
  match broadcastSnapshot (addressees msg w m) pl (is_text msg) now w with
  | (w, Some e) => (w, Some e)
  | (w, None) => publishClusterEvent (event msg).1 (event msg).2 pl now nodes m w
  end.
Proof.
  destruct msg as [[]|g|u|k|j]; try done; cbn.
  - unfold BroadcastToGroup. by rewrite groups_filter.
  - unfold SendToConnection. destruct (m_conns m !! j) as [c|]; [|done]. rewrite broadcastSnapshot_one.
    by destruct (send _ _ _ _ _ _) as [w' [e|]].
Qed.

(** Another node that receives the event sends to its addressees. *)
Lemma handle_event msg pl now m w node :
  cluster m ≠ Some node →
  handleClusterMessage (MkCluster node (event msg).1 (event msg).2 pl) now m w =
  broadcastSnapshot (addressees msg w m) pl (is_text msg) now w.
Proof.
  intros Hother. unfold handleClusterMessage. cbn [SourceNode EType Target EPayload].
  replace (match cluster m with Some node' => _ | None => false end) with false.
  2: { destruct (cluster m) as [node'|]; [|done]. symmetry.
       rewrite (bool_decide_eq_false_2 (node = node')) by congruence. apply andb_false_r. }
  destruct msg as [[]|g|u|k|j]; try done; cbn [event fst snd decide].
  - change (addressees (ToGroup g) w m) with (connectionsByFilter (λ i, bool_decide (g ∈ Groups i)) w m).
    rewrite <-groups_filter. done.
  - cbn [addressees]. destruct (m_conns m !! j) as [c|]; [|done]. by rewrite broadcastSnapshot_one.
Qed.

(** The addressees depend on identities only, which a broadcast does not change. *)
Lemma addressees_delivered cs msg pl text w w' m :
  delivered cs pl text w w' → addressees msg w' m = addressees msg w m.
Proof.
  intros Hd.
  assert (∀ fn, connectionsByFilter fn w' m = connectionsByFilter fn w m) as H.
  { intros fn. apply filter_ext_elem. intros c _. pose proof (delivered_identity _ _ _ _ _ c Hd) as Hi.
    unfold matches. destruct (conns w' !! c), (conns w !! c); cbn in Hi; simplify_eq; [|done].
    by rewrite Hi. }
  destruct msg; cbn; rewrite ?H; done.
Qed.

Lemma addressees_sub msg w m c : c ∈ addressees msg w m → c ∈ snapshotConnections m.
Proof. rewrite addressees_matching, snapshot_elem. intros (? & i & ->%list_elem_of_singleton & H & _). by exists i. Qed.

Lemma addressees_NoDup msg w m : NoDup (snapshotConnections m) → NoDup (addressees msg w m).
Proof.
  clear net_close. intros Hnd. destruct msg as [text|g|u|k|j]; cbn; try done; try (by apply NoDup_filter).
  destruct (m_conns m !! j); [apply NoDup_singleton|constructor].
Qed.

(** The nodes an event of [node] is handled on. *)
Definition others (node : string) (nodes : list Manager) : list Manager :=
  filter (λ m, cluster m ≠ Some node) nodes.

Lemma bus_publish_ready node msg pl now nodes w :
  node ≠ "" →
  NoDup (nodes ≫= snapshotConnections) →
  (∀ m c, m ∈ others node nodes → c ∈ addressees msg w m → ready c w) →
  ∃ w', bus_publish (MkCluster node (event msg).1 (event msg).2 pl) now nodes w = (w', None) ∧
    delivered (others node nodes ≫= addressees msg w) pl (is_text msg) w w'.
Proof.
  intros Hs. revert w. induction nodes as [|m nodes IH]; intros w Hnd Hr; cbn [bus_publish].
  { exists w. split; [done|]. apply delivered_nil. }
  cbn in Hnd. apply NoDup_app in Hnd as (Hm & Hdisj & Hnd). unfold others in *. rewrite filter_cons in *.
  destruct (decide (cluster m = Some node)) as [Hown|Hother].
  - rewrite decide_False in Hr |- * by (intros H; by apply H). unfold handleClusterMessage. rewrite Hown.
    cbn [SourceNode]. rewrite bool_decide_eq_false_2, bool_decide_eq_true_2 by done. by apply IH.
  - rewrite decide_True in Hr |- * by done. rewrite handle_event by done.
    destruct (broadcastSnapshot_ready (addressees msg w m) pl (is_text msg) now w) as (w1 & -> & Hd1).
    { by apply addressees_NoDup. }
    { intros c Hc. apply (Hr m); [by left|done]. }
    assert (∀ m' c, m' ∈ filter (λ m, cluster m ≠ Some node) nodes →
              c ∈ addressees msg w m' → c ∉ addressees msg w m) as Hout.
    { intros m' c [_ Hm']%list_elem_of_filter Hc Hc'.
      apply (Hdisj c); [by eapply addressees_sub|]. apply list_elem_of_bind.
      exists m'. split; [by eapply addressees_sub|done]. }
    destruct (IH w1) as (w2 & Hw2 & Hd2); [done| |].
    { intros m' c Hm' Hc. rewrite (addressees_delivered _ _ _ _ _ _ m' Hd1) in Hc.
      eapply delivered_ready; [exact Hd1|by eapply Hout|]. by apply (Hr m'); [right|]. }
    exists w2. split; [done|]. cbn. eapply delivered_app; [|exact Hd1|].
    + intros c Hc (m' & Hc' & Hm')%list_elem_of_bind. by eapply Hout.
    + erewrite list_bind_ext; [exact Hd2| |done]. intros m'. symmetry. by eapply addressees_delivered.
Qed.

End Manager.

(** C33: a broadcast (of a text or bytes to all, of a text to a group, a user, a
    client or one connection) puts the message exactly once into the queue of every
    connection of every node of the cluster that it is for, and into no other: the
    sender's node handles it locally and ignores its own cluster event, every other
    node of the bus delivers it.  The conditions are that connections belong to one
    node, that the nodes have different ids that are not empty, and that the
    connections it is for are open and have room in their queues
    ([local_error_stops_cluster] shows what happens otherwise). *)
Theorem cluster_broadcast_exactly_once net_close msg pl now nodes1 m nodes2 w node :
  cluster m = Some node → node ≠ "" →
  (∀ m', m' ∈ nodes1 ++ nodes2 → cluster m' ≠ Some node) →
  NoDup ((nodes1 ++ m :: nodes2) ≫= snapshotConnections) →
  (∀ c, matching msg w (nodes1 ++ m :: nodes2) c → ready c w) →
  ∃ w', perform net_close msg pl now (nodes1 ++ m :: nodes2) m w = (w', None) ∧
    (∀ c, matching msg w (nodes1 ++ m :: nodes2) c →
       conns w' !! c = enqueued pl (is_text msg) <$> conns w !! c) ∧
    (∀ c, ¬ matching msg w (nodes1 ++ m :: nodes2) c → conns w' !! c = conns w !! c).
Proof.
  intros Hm Hne Hother Hnd Hr.
  assert (∀ m' c, m' ∈ nodes1 ++ m :: nodes2 → c ∈ addressees msg w m' → ready c w) as Hr'.
  { intros m' c Hm' Hc. apply Hr, matching_bind, list_elem_of_bind. eauto. }
  rewrite perform_local. pose proof Hnd as Hnd'. rewrite bind_app in Hnd'. cbn in Hnd'.
  apply NoDup_app in Hnd' as (_ & Hd1 & Hnd'). apply NoDup_app in Hnd' as (Hndm & Hd2 & _).
  destruct (broadcastSnapshot_ready net_close (addressees msg w m) pl (is_text msg) now w)
    as (w1 & -> & Hdel1).
  { by apply addressees_NoDup. }
  { intros c Hc. apply (Hr' m); [set_solver|done]. }
  assert (others node (nodes1 ++ m :: nodes2) = nodes1 ++ nodes2) as Eo.
  { unfold others. rewrite filter_app, filter_cons, decide_False by (intros H; by apply H).
    rewrite !filter_all; [done| |]; intros m' Hm'; apply Hother; set_solver. }
  assert (∀ m' c, m' ∈ nodes1 ++ nodes2 → c ∈ addressees msg w m' → c ∉ addressees msg w m) as Hout.
  { intros m' c Hm' Hc%addressees_sub Hc'%addressees_sub. apply elem_of_app in Hm' as [Hm'|Hm'].
    - apply (Hd1 c); [apply list_elem_of_bind; eauto|set_solver].
    - apply (Hd2 c Hc'), list_elem_of_bind. eauto. }
  unfold publishClusterEvent. rewrite Hm.
  destruct (bus_publish_ready net_close node msg pl now (nodes1 ++ m :: nodes2) w1)
    as (w2 & -> & Hdel2); [done|done| |].
  { rewrite Eo. intros m' c Hm' Hc. rewrite (addressees_delivered _ _ _ _ _ _ m' Hdel1) in Hc.
    eapply delivered_ready; [exact Hdel1|by eapply Hout|]. apply (Hr' m'); [set_solver|done]. }
  rewrite Eo in Hdel2.
  assert (delivered (addressees msg w m ++ ((nodes1 ++ nodes2) ≫= addressees msg w)) pl (is_text msg) w w2)
    as Hdel.
  { apply (delivered_app _ _ _ _ _ w1); [|exact Hdel1|].
    - intros c' Hc' (m' & Hc'' & Hm')%list_elem_of_bind. by eapply Hout.
    - erewrite list_bind_ext; [exact Hdel2| |done]. intros m'. symmetry. by eapply addressees_delivered. }
  assert (∀ c, c ∈ addressees msg w m ++ ((nodes1 ++ nodes2) ≫= addressees msg w) ↔
    matching msg w (nodes1 ++ m :: nodes2) c) as Heq.
  { intros c. rewrite <-matching_bind, !bind_app. cbn. set_solver. }
  exists w2. split; [done|]. split; intros c Hc; rewrite Hdel.
  - by rewrite decide_True by (by apply Heq).
  - by rewrite decide_False by (by rewrite Heq).
Qed.

(** ** A concrete cluster *)

Definition ex_conn (cid user : string) (shut : bool) : Conn string :=
  MkConn (MkIdentity cid "" user "" ["g"] ∅ "" "" true) shut CloseCodeNormal [] 4 0 None.
Definition ex_node1 : Manager := MkManager {["a" := 1; "b" := 2]} (Some "n1").
Definition ex_node2 : Manager := MkManager {["c" := 3]} (Some "n2").
Definition ex_world (shut : bool) : world string :=
  MkWorld {[1 := ex_conn "a" "u" shut; 2 := ex_conn "b" "v" false; 3 := ex_conn "c" "u" false]} ∅ [].

Lemma ex_ready m c : m ∈ [ex_node1; ex_node2] → c ∈ snapshotConnections m → ready c (ex_world false).
Proof.
  intros Hm Hc. assert (c ∈ [1; 2; 3]) as Hin.
  { apply elem_of_cons in Hm as [->| ->%list_elem_of_singleton].
    - change (snapshotConnections ex_node1) with [1; 2] in Hc. set_solver.
    - change (snapshotConnections ex_node2) with [3] in Hc. set_solver. }
  assert (∀ x, conns (ex_world false) !! c = Some x → closed x = false ∧ (Z.of_nat (length (outbox x)) < outbox_cap x)%Z →
            ready c (ex_world false)) as H by (intros x ? ?; by exists x).
  repeat (apply elem_of_cons in Hin as [->|Hin]; [by eapply H; [vm_compute; reflexivity|]|]).
  by inversion Hin.
Qed.

Lemma ex_NoDup : NoDup ([ex_node1; ex_node2] ≫= snapshotConnections).
Proof. apply (bool_decide_unpack _). vm_compute. exact I. Qed.

Lemma cluster_broadcast_exactly_once_witness :
  ∃ w', BroadcastToUser (λ _, None) "u" "hi" 0 [ex_node1; ex_node2] ex_node1 (ex_world false) = (w', None) ∧
    outbox <$> conns w' !! 3 = Some [("hi", true)] ∧ outbox <$> conns w' !! 2 = Some [].
Proof.
  destruct (cluster_broadcast_exactly_once (λ _, None) (ToUser "u") "hi" 0 [] ex_node1 [ex_node2]
              (ex_world false) "n1") as (w' & H1 & H2 & H3).
  - reflexivity.
  - discriminate.
  - intros m' ->%list_elem_of_singleton. discriminate.
  - exact ex_NoDup.
  - intros c (m' & i & Hm' & Hi & _). eapply ex_ready; [exact Hm'|]. apply snapshot_elem. by exists i.
  - exists w'. split; [exact H1|]. split.
    + rewrite H2; [vm_compute; reflexivity|].
      exists ex_node2, "c". split; [right; left|]. split; [reflexivity|]. eexists. split; reflexivity.
    + rewrite H3; [vm_compute; reflexivity|].
      intros (m' & i & _ & _ & x & Hx & Hu). vm_compute in Hx. injection Hx as <-. discriminate.
Defined.

(** A broadcast that fails on one local connection (here one that is closed
    but not yet unregistered) is not published: the other nodes never see
    it. *)
Theorem local_error_stops_cluster :
  let '(w', err) := BroadcastText (λ _, None) "hi" 0 [ex_node1; ex_node2] ex_node1 (ex_world true) in
  err = Some (Errorf "websocket: connection closed" []) ∧
  outbox <$> conns w' !! 2 = Some [("hi", true)] ∧ outbox <$> conns w' !! 3 = Some [].
Proof. vm_compute. done. Qed.
