(* ===== verification/Bloom.v ===== *)
(** * plugins/bloomfilter/bloomfilter.go

    The filter's bit array as a list of 64-bit words, its double hashing with
    the two FNV hashes of the standard library, and its refinement of a set of
    bit positions.  [New] computes the numbers of bits and of hash functions
    with floating point logarithms; they are arguments here. *)

From S2P Require Import Prelude.

(** ** FNV hashes of [hash/fnv] *)

Definition offset64 : Z := 14695981039346656037.
Definition prime64 : Z := 1099511628211.

(** [New64a]: exclusive or, then multiply; [New64]: the other way round. *)
Definition fnv64a (data : list Z) : Z :=
  fold_left (λ h b, GoInt.u64 (Z.lxor h b * prime64)) data offset64.
Definition fnv64 (data : list Z) : Z :=
  fold_left (λ h b, Z.lxor (GoInt.u64 (h * prime64)) b) data offset64.

(** ** The filter *)

Record BloomFilter := MkBloom {
  bits : list Z;
  size : Z;
  hashes : Z
}.

(** [New] after its two floating point formulas. *)
Definition New (size0 hashes0 : Z) : BloomFilter :=
  let size := if (size0 =? 0)%Z then 1%Z else size0 in
  let hashes := if (hashes0 =? 0)%Z then 1%Z else hashes0 in
  let words := (GoInt.u64 (size + 63) / 64)%Z in
  MkBloom (replicate (Z.to_nat words) 0%Z) (GoInt.u64 (words * 64)) hashes.

Definition hash (data : list Z) : Z * Z := (fnv64a data, fnv64 data).

(** The position of hash function [i]. *)
Definition position (bf : BloomFilter) (h1 h2 : Z) (i : Z) : Z :=
  (GoInt.u64 (h1 + GoInt.u64 (i * h2)) mod size bf)%Z.

(** [positions]; the remainder by a size of zero panics. *)
Definition positions (bf : BloomFilter) (data : list Z) : outcome (list Z) :=
  if (size bf =? 0)%Z then Panic "runtime error: integer divide by zero" []
  else
    let '(h1, h2) := hash data in
    Ret (map (λ i, position bf h1 h2 (Z.of_nat i)) (seq 0 (Z.to_nat (hashes bf)))).

Definition set_bit (bs : list Z) (pos : Z) : outcome (list Z) :=
  let word := Z.to_nat (pos / 64) in
  match bs !! word with
  | Some v => Ret (<[word := Z.lor v (Z.shiftl 1 (pos mod 64))]> bs)
  | None => Panic "runtime error: index out of range" []
  end.

Fixpoint set_bits (bs : list Z) (ps : list Z) : outcome (list Z) :=
  match ps with
  | [] => Ret bs
  | p :: ps => let! bs := set_bit bs p in set_bits bs ps
  end.

Definition Add (data : list Z) (bf : BloomFilter) : outcome BloomFilter :=
  let! ps := positions bf data in
  let! bs := set_bits (bits bf) ps in
  Ret (MkBloom bs (size bf) (hashes bf)).

Fixpoint test_bits (bs : list Z) (ps : list Z) : outcome bool :=
  match ps with
  | [] => Ret true
  | p :: ps =>
      match bs !! Z.to_nat (p / 64) with
      | Some v => if (Z.land v (Z.shiftl 1 (p mod 64)) =? 0)%Z then Ret false else test_bits bs ps
      | None => Panic "runtime error: index out of range" []
      end
  end.

Definition Contains (data : list Z) (bf : BloomFilter) : outcome bool :=
  let! ps := positions bf data in test_bits (bits bf) ps.

Definition Clear (bf : BloomFilter) : BloomFilter :=
  MkBloom (map (λ _, 0%Z) (bits bf)) (size bf) (hashes bf).

(** ** The set of bits *)

(** Bit [p] of the array. *)
Definition bit_at (bs : list Z) (p : Z) : bool :=
  match bs !! Z.to_nat (p / 64) with
  | Some v => Z.testbit v (p mod 64)
  | None => false
  end.

(** The array covers the size, which is not zero. *)
Definition bloom_wf (bf : BloomFilter) : Prop :=
  (0 < size bf)%Z ∧ (size bf <= 64 * Z.of_nat (length (bits bf)))%Z.

Lemma New_wf size0 hashes0 : (0 <= size0 < 2 ^ 64 - 63)%Z → bloom_wf (New size0 hashes0).
Proof.
  intros H. unfold bloom_wf, New. cbn [size bits]. rewrite length_replicate.
  set (s := if (size0 =? 0)%Z then 1%Z else size0).
  assert (1 <= s < 2 ^ 64 - 63)%Z as Hs by (subst s; destruct (Z.eqb_spec size0 0); lia).
  rewrite (GoInt.u64_id (s + 63)) by in_range.
  pose proof (Z.div_mod (s + 63) 64 ltac:(lia)). pose proof (Z.mod_pos_bound (s + 63) 64 ltac:(lia)).
  rewrite GoInt.u64_id by in_range. split; [lia|]. lia.
Qed.

Lemma position_range bf h1 h2 i : (0 < size bf)%Z → (0 <= position bf h1 h2 i < size bf)%Z.
Proof. intros H. by apply Z.mod_pos_bound. Qed.

(** On a well-formed filter the positions exist and are in range. *)
Lemma positions_ok bf data :
  bloom_wf bf → ∃ ps, positions bf data = Ret ps ∧ ∀ p, p ∈ ps → (0 <= p < size bf)%Z.
Proof.
  intros [Hs _]. unfold positions. destruct (Z.eqb_spec (size bf) 0); [lia|]. cbn.
  eexists. split; [done|]. intros p (i & -> & _)%list_elem_of_fmap. by apply position_range.
Qed.

Lemma lookup_word (bs : list Z) p :
  (0 <= p < 64 * Z.of_nat (length bs))%Z → is_Some (bs !! Z.to_nat (p / 64)).
Proof.
  intros H. apply lookup_lt_is_Some. pose proof (Z.div_mod p 64 ltac:(lia)).
  pose proof (Z.mod_pos_bound p 64 ltac:(lia)). apply Nat2Z.inj_lt. rewrite Z2Nat.id by lia. lia.
Qed.

Lemma same_bit p q :
  (0 <= p)%Z → (0 <= q)%Z → Z.to_nat (p / 64) = Z.to_nat (q / 64) → (p mod 64 = q mod 64)%Z → p = q.
Proof.
  intros Hp Hq Hw Hb. rewrite (Z.div_mod p 64), (Z.div_mod q 64) by lia. rewrite Hb.
  apply Z2Nat.inj in Hw; [lia|apply Z.div_pos; lia|apply Z.div_pos; lia].
Qed.

(** Setting a bit sets that bit only. *)
Lemma set_bit_ok (bs : list Z) p :
  (0 <= p < 64 * Z.of_nat (length bs))%Z →
  ∃ bs', set_bit bs p = Ret bs' ∧ length bs' = length bs ∧
    ∀ q, (0 <= q)%Z → bit_at bs' q = bit_at bs q || (q =? p)%Z.
Proof.
  intros Hp. destruct (lookup_word bs p Hp) as [v Hv]. unfold set_bit. rewrite Hv.
  eexists. split; [done|]. split; [apply length_insert|]. intros q Hq. unfold bit_at.
  pose proof (Z.mod_pos_bound p 64 ltac:(lia)). pose proof (Z.mod_pos_bound q 64 ltac:(lia)).
  destruct (decide (Z.to_nat (q / 64) = Z.to_nat (p / 64))) as [E|E].
  - rewrite E, list_lookup_insert_eq by (by eapply lookup_lt_Some). rewrite Hv.
    rewrite Z.lor_spec, Z.shiftl_spec by lia. f_equal.
    destruct (Z.eqb_spec q p) as [->|Hne].
    + rewrite Z.sub_diag. done.
    + assert (q mod 64 ≠ p mod 64)%Z by (intros Eb; apply Hne; apply same_bit; [lia|lia|done|done]).
      destruct (Z.ltb_spec (q mod 64 - p mod 64) 0); [by rewrite Z.testbit_neg_r|].
      apply Z.bits_above_log2; [lia|]. cbn. lia.
  - rewrite list_lookup_insert_ne by congruence.
    destruct (Z.eqb_spec q p) as [->|]; [done|]. by rewrite orb_false_r.
Qed.

Lemma set_bits_ok bs ps :
  (∀ p, p ∈ ps → (0 <= p < 64 * Z.of_nat (length bs))%Z) →
  ∃ bs', set_bits bs ps = Ret bs' ∧ length bs' = length bs ∧
    ∀ q, (0 <= q)%Z → bit_at bs' q = true ↔ bit_at bs q = true ∨ q ∈ ps.
Proof.
  revert bs. induction ps as [|p ps IH]; intros bs Hps; cbn.
  { exists bs. split; [done|]. split; [done|]. set_solver. }
  destruct (set_bit_ok bs p) as (bs1 & -> & Hl1 & Hb1); [apply Hps; by left|].
  destruct (IH bs1) as (bs2 & -> & Hl2 & Hb2); [rewrite Hl1; intros q Hq; apply Hps; by right|].
  exists bs2. split; [done|]. split; [congruence|]. intros q Hq. rewrite Hb2, Hb1 by done.
  rewrite orb_true_iff, Z.eqb_eq, elem_of_cons. tauto.
Qed.

Lemma test_bits_ok bs ps :
  (∀ p, p ∈ ps → (0 <= p < 64 * Z.of_nat (length bs))%Z) →
  test_bits bs ps = Ret (forallb (bit_at bs) ps).
Proof.
  induction ps as [|p ps IH]; intros Hps; cbn; [done|].
  destruct (lookup_word bs p) as [v Hv]; [apply Hps; by left|].
  rewrite IH by (intros q Hq; apply Hps; by right). unfold bit_at at 2. rewrite Hv.
  pose proof (Z.mod_pos_bound p 64 ltac:(lia)).
  replace (Z.shiftl 1 (p mod 64)) with (2 ^ (p mod 64))%Z by (by rewrite Z.shiftl_1_l).
  destruct (Z.testbit v (p mod 64)) eqn:Hb.
  - destruct (Z.eqb_spec (Z.land v (2 ^ (p mod 64))) 0) as [E|]; [|done].
    apply (f_equal (λ z, Z.testbit z (p mod 64))) in E.
    rewrite Z.land_spec, Z.pow2_bits_true, Hb, Z.bits_0 in E by lia. done.
  - replace (Z.land v (2 ^ (p mod 64))) with 0%Z; [done|]. symmetry. apply Z.bits_inj'. intros k Hk.
    rewrite Z.land_spec, Z.bits_0. destruct (decide (k = p mod 64)%Z) as [->|Hne]; [by rewrite Hb|].
    rewrite Z.pow2_bits_false by done. apply andb_false_r.
Qed.

(** ** Runs *)

Inductive op : Type := OAdd (data : list Z) | OClear.

(** A run of the operations; a panic ends it. *)
Fixpoint run (ops : list op) (bf : BloomFilter) : outcome BloomFilter :=
  match ops with
  | [] => Ret bf
  | OAdd data :: ops => let! bf := Add data bf in run ops bf
  | OClear :: ops => run ops (Clear bf)
  end.

(** The specification: the elements added since the last [Clear]. *)
Definition added (ops : list op) (S : list (list Z)) : list (list Z) :=
  fold_left (λ S o, match o with OAdd d => d :: S | OClear => [] end) ops S.

(** The positions of an element in a filter of this size. *)
Definition pos_of (bf : BloomFilter) (data : list Z) : list Z :=
  match positions bf data with Ret ps => ps | Panic _ _ => [] end.

(** The bits of a filter are the positions of the elements of [S]. *)
Definition represents (bf : BloomFilter) (S : list (list Z)) : Prop :=
  bloom_wf bf ∧ ∀ q, (0 <= q)%Z → bit_at (bits bf) q = true ↔ ∃ d, d ∈ S ∧ q ∈ pos_of bf d.

Lemma represents_New size0 hashes0 :
  (0 <= size0 < 2 ^ 64 - 63)%Z → represents (New size0 hashes0) [].
Proof.
  intros H. split; [by apply New_wf|]. intros q Hq. split; [|set_solver].
  unfold bit_at, New. cbn. destruct (_ !! _) eqn:E; [|done].
  apply lookup_replicate in E as [-> _]. by rewrite Z.bits_0.
Qed.

Lemma Add_represents bf S data :
  represents bf S → ∃ bf', Add data bf = Ret bf' ∧ represents bf' (data :: S) ∧
    size bf' = size bf ∧ hashes bf' = hashes bf.
Proof.
  intros [Hwf Hb]. destruct (positions_ok bf data Hwf) as (ps & Hps & Hr). unfold Add. rewrite Hps.
  destruct Hwf as [Hs Hl].
  destruct (set_bits_ok (bits bf) ps) as (bs & -> & Hlen & Hbs).
  { intros p Hp. specialize (Hr p Hp). lia. }
  eexists. split; [done|]. split; [|done]. split; [split; cbn; [done|by rewrite Hlen]|].
  intros q Hq. cbn [bits]. rewrite Hbs, Hb by done.
  assert (∀ d, pos_of (MkBloom bs (size bf) (hashes bf)) d = pos_of bf d) as Hpo by done.
  setoid_rewrite Hpo. setoid_rewrite elem_of_cons. unfold pos_of at 2.
  split; [intros [(d & ? & ?)|?]|intros (d & [->|?] & ?)].
  - eauto.
  - exists data. split; [by left|]. unfold pos_of. by rewrite Hps.
  - right. unfold pos_of in *. by rewrite Hps in *.
  - left. eauto.
Qed.

Lemma Clear_represents bf S : represents bf S → represents (Clear bf) [].
Proof.
  intros [[Hs Hl] _]. split; [split; cbn; [done|by rewrite length_map]|].
  intros q Hq. split; [|set_solver]. unfold bit_at, Clear. cbn.
  rewrite list_lookup_fmap. destruct (bits bf !! _); cbn; [by rewrite Z.bits_0|done].
Qed.

Lemma run_represents ops bf S :
  represents bf S → ∃ bf', run ops bf = Ret bf' ∧ represents bf' (added ops S) ∧
    size bf' = size bf ∧ hashes bf' = hashes bf.
Proof.
  revert bf S. induction ops as [|[data|] ops IH]; intros bf S HR; cbn.
  - eauto.
  - destruct (Add_represents bf S data HR) as (bf1 & -> & HR1 & E1 & E2).
    destruct (IH bf1 (data :: S) HR1) as (bf2 & ? & ? & ? & ?). exists bf2. split_and!; congruence || done.
  - destruct (IH (Clear bf) [] (Clear_represents bf S HR)) as (bf2 & ? & ? & ? & ?).
    exists bf2. split_and!; congruence || done.
Qed.

(** The filter refines the set of the bit positions of the elements added
    since the last [Clear]: no sequence of operations panics, and [Contains]
    answers true exactly when every position of the element is the position
    of one of them; in particular for the elements themselves (no false
    negatives), and after a [Clear] for none. *)
Theorem bloom_refines_bit_set size0 hashes0 ops data :
  (0 <= size0 < 2 ^ 64 - 63)%Z → (0 <= hashes0)%Z →
  ∃ bf answer, run ops (New size0 hashes0) = Ret bf ∧ Contains data bf = Ret answer ∧
    (answer = true ↔ ∀ p, p ∈ pos_of bf data → ∃ d, d ∈ added ops [] ∧ p ∈ pos_of bf d) ∧
    (data ∈ added ops [] → answer = true) ∧ (added ops [] = [] → answer = false).
Proof.
  intros H Hh. destruct (run_represents ops _ [] (represents_New size0 hashes0 H))
    as (bf & Hrun & [Hwf Hb] & Hsz & Hha).
  destruct (positions_ok bf data Hwf) as (ps & Hps & Hr). destruct Hwf as [Hs Hl].
  exists bf, (forallb (bit_at (bits bf)) ps). split; [done|].
  assert (pos_of bf data = ps) as Epo by (unfold pos_of; by rewrite Hps).
  assert (forallb (bit_at (bits bf)) ps = true ↔
          ∀ p, p ∈ pos_of bf data → ∃ d, d ∈ added ops [] ∧ p ∈ pos_of bf d) as Hiff.
  { rewrite Epo, forallb_forall. split; intros Hall p Hp.
    - apply Hb; [by apply Hr|]. apply Hall. by apply list_elem_of_In.
    - apply list_elem_of_In in Hp. apply Hb; [by apply Hr|]. by apply Hall. }
  split; [|split; [exact Hiff|]].
  { unfold Contains. rewrite Hps. apply test_bits_ok. intros p Hp. specialize (Hr p Hp). lia. }
  split.
  - intros Hin. apply Hiff. eauto.
  - intros E. rewrite E in Hiff. apply not_true_is_false. rewrite Hiff. intros Hall.
    destruct (Hall (position bf (fnv64a data) (fnv64 data) 0)) as (d & Hd & _); [|by inversion Hd].
    rewrite Epo. unfold positions in Hps. destruct (Z.eqb_spec (size bf) 0); [done|].
    unfold hash in Hps. injection Hps as <-. apply list_elem_of_fmap. exists 0. split; [done|].
    apply elem_of_seq. rewrite Hha. cbn. destruct (Z.eqb_spec hashes0 0); lia.
Qed.

Lemma bloom_refines_bit_set_witness :
  ∃ bf, run [OAdd [104; 105]; OAdd [7]]%Z (New 96 7) = Ret bf ∧ Contains [104; 105]%Z bf = Ret true.
Proof.
  destruct (bloom_refines_bit_set 96 7 [OAdd [104; 105]; OAdd [7]]%Z [104; 105]%Z)
    as (bf & a & H1 & H2 & _ & H3 & _); [lia|lia|].
  exists bf. split; [exact H1|]. rewrite H2, H3; [done|]. cbn. right. left.
Defined.
