(* ===== verification/Rbac.v ===== *)
(** * plugins/rbac/rbac.go: role based access control

    The policy table and its refinement of the relation between roles and
    permissions that a history of grants describes. *)

From S2P Require Import Prelude.

Record Policy := MkPolicy { rolePerm : gmap string (gset string) }.

Definition SetRolePermissions (role : string) (permissions : list string) (p : Policy) : Policy :=
  if decide (role = "") then p
  else MkPolicy (<[role := list_to_set (filter (λ perm, perm ≠ "") permissions)]> (rolePerm p)).

Definition AddPermission (role permission : string) (p : Policy) : Policy :=
  if decide (role = "" ∨ permission = "") then p
  else
    let perms := default ∅ (rolePerm p !! role) in
    MkPolicy (<[role := {[permission]} ∪ perms]> (rolePerm p)).

(** [NewPolicy]; [roles] is the enumeration order of the bindings. *)
Definition NewPolicy (bindings : gmap string (list string)) (roles : list string) : Policy :=
  fold_left (λ p role, SetRolePermissions role (default [] (bindings !! role)) p) roles (MkPolicy ∅).

Fixpoint any_role (p : Policy) (roles : list string) (permission : string) : bool :=
  match roles with
  | [] => false
  | role :: roles =>
      match rolePerm p !! role with
      | Some perms => if decide (permission ∈ perms) then true else any_role p roles permission
      | None => any_role p roles permission
      end
  end.

Definition HasPermission (p : Policy) (roles : list string) (permission : string) : bool :=
  if decide (permission = "") then false else any_role p roles permission.

Fixpoint HasAnyPermission (p : Policy) (roles permissions : list string) : bool :=
  match permissions with
  | [] => false
  | perm :: permissions => if HasPermission p roles perm then true else HasAnyPermission p roles permissions
  end.

Fixpoint HasAllPermissions (p : Policy) (roles permissions : list string) : bool :=
  match permissions with
  | [] => true
  | perm :: permissions => if HasPermission p roles perm then HasAllPermissions p roles permissions else false
  end.

(** ** The relation *)

Inductive grant : Type :=
| GSet (role : string) (permissions : list string)
| GAdd (role permission : string).

Definition apply_grant (p : Policy) (g : grant) : Policy :=
  match g with
  | GSet role perms => SetRolePermissions role perms p
  | GAdd role perm => AddPermission role perm p
  end.

(** What a history, latest grant first, gives to a role: the grants added
    since its permissions were last replaced. *)
Fixpoint granted (history : list grant) (role permission : string) : Prop :=
  match history with
  | [] => False
  | GSet r perms :: history =>
      if decide (r = role) then permission ∈ perms else granted history role permission
  | GAdd r perm :: history =>
      (r = role ∧ perm = permission) ∨ granted history role permission
  end.

Lemma any_role_true p roles permission :
  any_role p roles permission = true ↔
  ∃ role perms, role ∈ roles ∧ rolePerm p !! role = Some perms ∧ permission ∈ perms.
Proof.
  induction roles as [|role roles IH]; cbn; [split; [done|]; intros (? & ? & H & _); by inversion H|].
  setoid_rewrite elem_of_cons.
  destruct (rolePerm p !! role) as [perms|] eqn:E; [case_decide|]; naive_solver.
Qed.

Lemma granted_table history role permission :
  role ≠ "" → permission ≠ "" →
  granted history role permission ↔
  ∃ perms, rolePerm (fold_right (λ g p, apply_grant p g) (MkPolicy ∅) history) !! role = Some perms ∧
    permission ∈ perms.
Proof.
  intros Hr Hp. induction history as [|[r perms|r perm] history IH]; cbn.
  - split; [done|]. intros (? & H & _). by rewrite lookup_empty in H.
  - unfold SetRolePermissions. destruct (decide (r = role)) as [->|Hne].
    + rewrite decide_False by done. cbn. rewrite lookup_insert_eq. split.
      * intros Hin. eexists. split; [done|]. rewrite elem_of_list_to_set, list_elem_of_filter. done.
      * intros (? & [= <-] & [_ ?]%elem_of_list_to_set%list_elem_of_filter). done.
    + rewrite IH. case_decide; [done|]. cbn. by rewrite lookup_insert_ne.
  - rewrite IH. unfold AddPermission. set (q := fold_right _ _ _).
    destruct (decide (r = role)) as [->|Hne].
    + case_decide as Hbad; [naive_solver|]. cbn. rewrite lookup_insert_eq.
      destruct (rolePerm q !! role) as [perms|]; cbn; split.
      * intros [[_ ->]|(? & [= <-] & ?)]; eexists; (split; [done|]); set_solver.
      * intros (? & [= <-] & [->%elem_of_singleton|?]%elem_of_union); eauto.
      * intros [[_ ->]|(? & [=] & _)]; eexists; (split; [done|]); set_solver.
      * intros (? & [= <-] & [->%elem_of_singleton|?]%elem_of_union); [eauto|set_solver].
    + case_decide; [naive_solver|]. cbn. rewrite lookup_insert_ne by done. naive_solver.
Qed.

(** After any history of grants and replacements, roles have a permission
    exactly when the history grants it to one of them (the empty role and the
    empty permission are never granted), and the checks for any and for all of
    several permissions are the disjunction and the conjunction. *)
Theorem rbac_decides_grants history roles permission permissions :
  let p := fold_right (λ g p, apply_grant p g) (MkPolicy ∅) history in
  (∀ role, role ∈ roles → role ≠ "") →
  (HasPermission p roles permission = true ↔
     permission ≠ "" ∧ ∃ role, role ∈ roles ∧ granted history role permission) ∧
  (HasAnyPermission p roles permissions = true ↔
     ∃ perm, perm ∈ permissions ∧ HasPermission p roles perm = true) ∧
  (HasAllPermissions p roles permissions = true ↔
     ∀ perm, perm ∈ permissions → HasPermission p roles perm = true).
Proof.
  intros p Hroles. split; [|split].
  - unfold HasPermission. case_decide as Hp; [naive_solver|]. rewrite any_role_true. split.
    + intros (role & perms & Hin & Hl & Hperm). split; [done|]. exists role. split; [done|].
      apply granted_table; eauto.
    + intros [_ (role & Hin & Hg)]. apply granted_table in Hg as (perms & ? & ?); [|auto|done]. eauto.
  - induction permissions as [|perm perms IH]; cbn; [split; [done|]; intros (? & H & _); by inversion H|].
    destruct (HasPermission p roles perm) eqn:E.
    + split; [|done]. intros _. exists perm. split; [by left|done].
    + rewrite IH. split; intros (x & Hx & Hp); exists x; [split; [by right|done]|].
      apply elem_of_cons in Hx as [->|Hx]; [congruence|done].
  - induction permissions as [|perm perms IH]; cbn; [split; [intros _ ? H; by inversion H|done]|].
    destruct (HasPermission p roles perm) eqn:E.
    + rewrite IH. split; intros Hall x; [intros [->|Hx]%elem_of_cons; auto|].
      intros Hx. apply Hall. by right.
    + split; [done|]. intros Hall. rewrite <- E. apply Hall. by left.
Qed.

Lemma rbac_decides_grants_witness :
  HasPermission (fold_right (λ g p, apply_grant p g) (MkPolicy ∅)
                   [GAdd "admin" "write"; GSet "admin" ["read"]; GAdd "admin" "delete"]) ["admin"] "write" = true.
Proof.
  destruct (rbac_decides_grants [GAdd "admin" "write"; GSet "admin" ["read"]; GAdd "admin" "delete"]
              ["admin"] "write" []) as [H _]; [by intros role ->%list_elem_of_singleton|].
  apply H. split; [discriminate|]. exists "admin". split; [by left|]. by left.
Defined.
