(* ===== verification/Scheduler.v ===== *)
(** * plugins/scheduler/scheduler.go: periodic tasks

    Tasks are shared between the caller, the ticker goroutine and the
    goroutines that execute them; the model keeps them in a store.  A tick
    decides which tasks to run ([shouldRun]), and their goroutines execute
    them afterwards ([executeTask]). *)

From S2P Require Import Prelude.

Import GoError.

Record Task := MkTask {
  Interval : Z;
  Delay : Z;
  Times : Z;
  has_func : bool;
  nextRun : Z;
  runCount : Z;
  active : bool
}.

Record Scheduler := MkScheduler {
  tasks : gmap string nat;
  task_heap : gmap nat Task;
  stopCh_closed : bool;
  running : bool;
  precision : Z
}.

Definition New (Precision : Z) : Scheduler :=
  MkScheduler ∅ ∅ false false
    (if (Precision <=? 0)%Z then 10 * GoTime.Millisecond else Precision)%Z.

Definition with_run (closed run : bool) (s : Scheduler) : Scheduler :=
  MkScheduler (tasks s) (task_heap s) closed run (precision s).

Definition Start (s : Scheduler) : Scheduler :=
  if running s then s else with_run (stopCh_closed s) true s.

(** Closing a closed channel panics. *)
Definition Stop (s : Scheduler) : outcome Scheduler :=
  if running s then
    if stopCh_closed s then Panic "close of closed channel" [] else Ret (with_run true false s)
  else Ret s.

Definition prepared (now : Z) (t : Task) : Task :=
  MkTask (Interval t) (Delay t) (Times t) (has_func t)
    (if GoTime.IsZero (nextRun t) then GoTime.Add now (Delay t) else nextRun t) (runCount t) true.

Definition AddTask (id : string) (p : nat) (now : Z) (s : Scheduler) : Scheduler * option error :=
  match task_heap s !! p with
  | None => (s, None)
  | Some t =>
      if decide (id = "") then (s, Some (Errorf "task ID and function are required" []))
      else if negb (has_func t) then (s, Some (Errorf "task ID and function are required" []))
      else
        let heap := <[p := prepared now t]> (task_heap s) in
        match tasks s !! id with
        | Some _ =>
            (MkScheduler (tasks s) heap (stopCh_closed s) (running s) (precision s),
             Some (Errorf "task %s already exists" [id]))
        | None =>
            (MkScheduler (<[id := p]> (tasks s)) heap (stopCh_closed s) (running s) (precision s), None)
        end
  end.

Definition deactivate (t : Task) : Task :=
  MkTask (Interval t) (Delay t) (Times t) (has_func t) (nextRun t) (runCount t) false.

Definition RemoveTask (id : string) (s : Scheduler) : Scheduler :=
  match tasks s !! id with
  | None => s
  | Some p =>
      MkScheduler (delete id (tasks s)) (alter deactivate p (task_heap s)) (stopCh_closed s)
        (running s) (precision s)
  end.

(** [shouldRun]. *)
Definition shouldRun (now : Z) (t : Task) : Task * bool :=
  if negb (active t) then (t, false)
  else if (0 <? Times t)%Z && (Times t <=? runCount t)%Z then (deactivate t, false)
  else if GoTime.Before now (nextRun t) then (t, false)
  else if (0 <? Interval t)%Z then
    (MkTask (Interval t) (Delay t) (Times t) (has_func t) (GoTime.Add now (Interval t))
       (runCount t + 1) (active t), true)
  else
    (MkTask (Interval t) (Delay t) (Times t) (has_func t) (nextRun t) (runCount t + 1) false, true).

(** [executeTask]: whether the function is called. *)
Definition executeTask (t : Task) : bool := active t.

(** [tick] for one task: the decision and, when it is to run, its goroutine
    before the next tick. *)
Definition tick_task (now : Z) (t : Task) : Task * bool :=
  let '(t, due) := shouldRun now t in (t, due && executeTask t).

Fixpoint tick_all (now : Z) (ps : list nat) (heap : gmap nat Task) : gmap nat Task * list nat :=
  match ps with
  | [] => (heap, [])
  | p :: ps =>
      match heap !! p with
      | None => tick_all now ps heap
      | Some t =>
          let '(t, ran) := tick_task now t in
          let '(heap, rs) := tick_all now ps (<[p := t]> heap) in
          (heap, if ran : bool then p :: rs else rs)
      end
  end.

(** [ps] is the enumeration of the tasks; the tasks that were executed. *)
Definition tick (now : Z) (ps : list nat) (s : Scheduler) : Scheduler * list nat :=
  let '(heap, rs) := tick_all now ps (task_heap s) in
  (MkScheduler (tasks s) heap (stopCh_closed s) (running s) (precision s), rs).

(** ** Runs of one task *)

(** The times at which a task runs, for ticks at the times [ts]. *)
Fixpoint run_times (ts : list Z) (t : Task) : list Z :=
  match ts with
  | [] => []
  | now :: ts => let '(t, ran) := tick_task now t in if ran then now :: run_times ts t else run_times ts t
  end.

(** The reference: the ticks that are at or after the due time, each moving
    the due time by an interval, at most [k] of them ([None]: no limit). *)
Fixpoint due_times (ts : list Z) (due interval : Z) (k : option nat) : list Z :=
  match ts with
  | [] => []
  | now :: ts =>
      match k with
      | Some 0 => []
      | _ => if (due <=? now)%Z then now :: due_times ts (now + interval) interval (pred <$> k)
             else due_times ts due interval k
      end
  end.

(** The runs left: no limit when [Times] is not positive. *)
Definition runs_left (t : Task) : option nat :=
  if (0 <? Times t)%Z then Some (Z.to_nat (Times t - runCount t)) else None.

Lemma run_times_inactive ts t : active t = false → run_times ts t = [].
Proof.
  intros Ha. induction ts as [|now ts IH]; cbn; [done|]. unfold tick_task, shouldRun. rewrite Ha. done.
Qed.

Lemma due_times_zero ts due interval : due_times ts due interval (Some 0) = [].
Proof. by destruct ts. Qed.

Lemma run_times_due ts t :
  active t = true → (0 < Interval t)%Z →
  run_times ts t = due_times ts (nextRun t) (Interval t) (runs_left t).
Proof.
  revert t. induction ts as [|now ts IH]; intros t Ha Hi; [done|]. cbn [run_times].
  unfold tick_task, shouldRun. rewrite Ha. cbn [negb].
  destruct ((0 <? Times t)%Z && (Times t <=? runCount t)%Z) eqn:Hdone.
  - cbn. rewrite run_times_inactive by done. unfold runs_left.
    apply andb_true_iff in Hdone as [Ht Hc]. rewrite Ht. apply Z.leb_le in Hc.
    by replace (Z.to_nat (Times t - runCount t)) with 0 by lia.
  - unfold GoTime.Before, GoTime.Add.
    assert (runs_left t ≠ Some 0) as Hleft.
    { unfold runs_left. destruct (Z.ltb_spec 0 (Times t)); [|done]. cbn in Hdone.
      apply Z.leb_gt in Hdone. intros [=]. lia. }
    destruct (Z.ltb_spec now (nextRun t)) as [Hlt|Hge].
    + cbn. rewrite IH by done. rewrite (proj2 (Z.leb_gt _ _)) by lia.
      by destruct (runs_left t) as [[|k]|].
    + rewrite (proj2 (Z.ltb_lt _ _) Hi). cbn [executeTask active andb].
      rewrite IH by done. cbn [nextRun Interval]. cbn [due_times]. rewrite (proj2 (Z.leb_le _ _)) by lia.
      assert (runs_left (MkTask (Interval t) (Delay t) (Times t) (has_func t) (now + Interval t)
                           (runCount t + 1) true) = pred <$> runs_left t) as ->.
      { unfold runs_left. cbn. destruct (0 <? Times t)%Z; cbn; [|done]. f_equal. lia. }
      by destruct (runs_left t) as [[|k]|].
Qed.

Lemma due_times_length ts due interval k : length (due_times ts due interval (Some k)) ≤ k.
Proof.
  revert due k. induction ts as [|now ts IH]; intros due k; cbn; [lia|].
  destruct k as [|k]; [cbn; lia|]. destruct (due <=? now)%Z; cbn; [|apply IH].
  pose proof (IH (now + interval)%Z k). lia.
Qed.

(** Every run is due, and runs are an interval apart. *)
Lemma due_times_after ts due interval k x : x ∈ due_times ts due interval k → (due <= x)%Z ∨ (interval < 0)%Z.
Proof.
  revert due k. induction ts as [|now ts IH]; intros due k; cbn; [by inversion 1|].
  destruct k as [[|k]|]; cbn; [by inversion 1| |];
    (destruct (Z.leb_spec due now); [|apply IH]; intros [->|Hin]%elem_of_cons; [lia|];
     apply IH in Hin; lia).
Qed.

Lemma due_times_spaced ts due interval k i x y :
  (0 < interval)%Z → due_times ts due interval k !! i = Some x →
  due_times ts due interval k !! S i = Some y → (x + interval <= y)%Z.
Proof.
  intros Hi. revert due k i. induction ts as [|now ts IH]; intros due k i; cbn; [done|].
  destruct k as [[|k]|]; cbn; [done| |];
    (destruct (Z.leb_spec due now); [|apply IH]; destruct i as [|i]; [|apply IH];
     intros [= <-] Hy; rewrite lookup_cons in Hy; apply list_elem_of_lookup_2, due_times_after in Hy; lia).
Qed.

(** A periodic task that has been added runs at exactly the ticks the
    reference gives: at the first tick at or after its due time, then at the
    first tick at least an interval after each run; never more often than
    [Times] (when it is positive), and consecutive runs are at least an
    interval apart. *)
Theorem periodic_task_schedule ts t now :
  let t' := prepared now t in
  (0 < Interval t)%Z → nextRun t = 0%Z → runCount t = 0%Z →
  run_times ts t' = due_times ts (now + Delay t) (Interval t)
                      (if (0 <? Times t)%Z then Some (Z.to_nat (Times t)) else None) ∧
  ((0 < Times t)%Z → (Z.of_nat (length (run_times ts t')) <= Times t)%Z) ∧
  (∀ i x y, run_times ts t' !! i = Some x → run_times ts t' !! S i = Some y → (x + Interval t <= y)%Z).
Proof.
  intros t' Hi Hn Hc.
  assert (run_times ts t' = due_times ts (now + Delay t) (Interval t)
            (if (0 <? Times t)%Z then Some (Z.to_nat (Times t)) else None)) as E.
  { rewrite run_times_due by done. unfold t', prepared, runs_left. cbn. rewrite Hn, Hc. cbn.
    by rewrite Z.sub_0_r. }
  rewrite E. split; [done|]. split.
  - intros Ht. rewrite (proj2 (Z.ltb_lt _ _) Ht).
    pose proof (due_times_length ts (now + Delay t) (Interval t) (Z.to_nat (Times t))). lia.
  - intros i x y. by apply due_times_spaced.
Qed.

Definition ex_task : Task := MkTask 10 5 3 true 0 0 false.

Lemma periodic_task_schedule_witness :
  run_times [100; 104; 105; 110; 117; 130; 160; 190]%Z (prepared 100 ex_task) = [105; 117; 130]%Z.
Proof.
  destruct (periodic_task_schedule [100; 104; 105; 110; 117; 130; 160; 190]%Z ex_task 100) as [H _];
    [done|done|done|].
  rewrite H. vm_compute. reflexivity.
Defined.

(** ** What the code does not do *)

(** A task without an interval, documented to run once, never runs:
    [shouldRun] marks it inactive and [executeTask] skips inactive tasks. *)
Theorem one_shot_task_never_runs ts t now :
  (Interval t <= 0)%Z → run_times ts (prepared now t) = [].
Proof.
  intros Hi. assert (∀ t, (Interval t <= 0)%Z → run_times ts t = []) as H; [|by apply H].
  clear t Hi. induction ts as [|x ts IH]; intros t Hi; [done|]. cbn [run_times].
  unfold tick_task, shouldRun. destruct (active t) eqn:Ha; [|by cbn; apply IH]. cbn [negb].
  destruct (_ && _); [by cbn; apply IH|]. destruct (GoTime.Before _ _); [by cbn; apply IH|].
  rewrite (proj2 (Z.ltb_ge _ _) Hi). cbn. by apply IH.
Qed.

(** A scheduler that was stopped and started again panics at the next stop. *)
Theorem second_stop_panics s :
  running s = true → stopCh_closed s = false →
  ∃ s', Stop s = Ret s' ∧ Stop (Start s') = Panic "close of closed channel" [].
Proof. intros Hr Hc. unfold Stop. rewrite Hr, Hc. eexists. split; [done|]. done. Qed.
