(* ===== verification/Aoi.v ===== *)
(** * plugins/gameserver/aoi/aoi.go: area of interest

    The grid index: entities in a store (the world's map and the cells share
    them by pointer), cells, and the cell of every entity.  Coordinates are
    binary64 numbers ([GoFloat]); [floorDiv] is computed with them. *)

From S2P Require Import Prelude GoFloat.

(** ** The index *)

Record Entity := MkEntity {
  ID : Z;
  X : float64;
  Y : float64
}.

Definition cellKey : Type := Z * Z.
Definition zeroKey : cellKey := (0, 0)%Z.

(** [heap] is the store of entities; a cell maps ids to addresses. *)
Record Manager := MkManager {
  cellSize : float64;
  cells : gmap cellKey (gmap Z nat);
  entities : gmap Z nat;
  entityCell : gmap Z cellKey;
  heap : gmap nat Entity
}.

Definition NewManager (cs : float64) : Manager :=
  MkManager (if SFleb cs (S754_zero false) then of_int 100 else cs) ∅ ∅ ∅ ∅.

Definition floorDiv (v d : float64) : Z :=
  let c := to_int (fdiv v d) in
  if SFltb v (S754_zero false) && negb (SFeqb (fmul (of_int c) d) v) then GoInt.i64 (c - 1) else c.

Definition keyAt (m : Manager) (x y : float64) : cellKey :=
  (floorDiv x (cellSize m), floorDiv y (cellSize m)).

(** [cellAt]: a missing cell is created empty. *)
Definition cellAt (m : Manager) (k : cellKey) : gmap Z nat := default ∅ (cells m !! k).

Definition moveLocked (id : Z) (x y : float64) (m : Manager) : Manager :=
  match entities m !! id with
  | None => m
  | Some p =>
      let h := alter (λ e, MkEntity (ID e) x y) p (heap m) in
      let nk := keyAt m x y in
      let ok := default zeroKey (entityCell m !! id) in
      if decide (ok = nk) then MkManager (cellSize m) (cells m) (entities m) (entityCell m) h
      else
        let cs := alter (delete id) ok (cells m) in
        MkManager (cellSize m) (<[nk := <[id := p]> (default ∅ (cs !! nk))]> cs) (entities m)
          (<[id := nk]> (entityCell m)) h
  end.

(** [p] is the address of the new entity. *)
Definition Enter (id : Z) (x y : float64) (p : nat) (m : Manager) : Manager :=
  match entities m !! id with
  | Some _ => moveLocked id x y m
  | None =>
      let k := keyAt m x y in
      MkManager (cellSize m) (<[k := <[id := p]> (cellAt m k)]> (cells m)) (<[id := p]> (entities m))
        (<[id := k]> (entityCell m)) (<[p := MkEntity id x y]> (heap m))
  end.

Definition Move (id : Z) (x y : float64) (m : Manager) : Manager := moveLocked id x y m.

Definition Leave (id : Z) (m : Manager) : Manager * bool :=
  match entities m !! id with
  | None => (m, false)
  | Some p =>
      let k := default zeroKey (entityCell m !! id) in
      let eid := match heap m !! p with Some e => ID e | None => id end in
      (MkManager (cellSize m) (alter (delete eid) k (cells m)) (delete id (entities m))
         (delete id (entityCell m)) (heap m), true)
  end.

Definition Get (id : Z) (m : Manager) : option Entity := p ← entities m !! id; heap m !! p.

Definition Count (m : Manager) : nat := size (entities m).

(** The entities of one cell, in the order the map is enumerated. *)
Definition cell_entities (m : Manager) (excludeID : Z) (k : cellKey) : list Entity :=
  match cells m !! k with
  | None => []
  | Some c =>
      omap (λ ip : Z * nat, if (ip.1 =? excludeID)%Z then None else heap m !! ip.2) (map_to_list c)
  end.

Definition neighbours (k : cellKey) : list cellKey :=
  dx ← [-1; 0; 1]%Z; dy ← [-1; 0; 1]%Z; [(GoInt.i64 (k.1 + dx), GoInt.i64 (k.2 + dy))].

Definition aroundCellLocked (m : Manager) (k : cellKey) (excludeID : Z) : list Entity :=
  neighbours k ≫= cell_entities m excludeID.

Definition Around (id : Z) (m : Manager) : list Entity :=
  match entityCell m !! id with
  | None => []
  | Some k => aroundCellLocked m k id
  end.

Definition AroundPoint (x y : float64) (m : Manager) : list Entity :=
  aroundCellLocked m (keyAt m x y) (-1).

(** ** The invariant *)

(** Every entity is stored once, in the cell of its coordinates. *)
Record aoi_inv (m : Manager) : Prop := {
  ai_heap : ∀ id p, entities m !! id = Some p → ∃ e, heap m !! p = Some e ∧ ID e = id;
  ai_cell : ∀ id k, entityCell m !! id = Some k ↔
    ∃ e, Get id m = Some e ∧ keyAt m (X e) (Y e) = k;
  ai_index : ∀ k id p, (cells m !! k ≫= (.!! id)) = Some p ↔
    entities m !! id = Some p ∧ entityCell m !! id = Some k
}.

Lemma NewManager_inv cs : aoi_inv (NewManager cs).
Proof.
  split; cbn.
  - intros id p. by rewrite lookup_empty.
  - intros id k. unfold Get. cbn. rewrite !lookup_empty. split; [done|]. by intros (e & ? & _).
  - intros k id p. rewrite !lookup_empty. split; [done|]. by intros [? _].
Qed.

Lemma entities_inj m id id' p :
  aoi_inv m → entities m !! id = Some p → entities m !! id' = Some p → id = id'.
Proof.
  intros Hi H1 H2. destruct (ai_heap _ Hi _ _ H1) as (e & He & <-).
  destruct (ai_heap _ Hi _ _ H2) as (e' & He' & <-). congruence.
Qed.

Lemma entity_has_cell m id p :
  aoi_inv m → entities m !! id = Some p → is_Some (entityCell m !! id).
Proof.
  intros Hi Hp. destruct (ai_heap _ Hi id p Hp) as (e & He & _).
  exists (keyAt m (X e) (Y e)). apply (ai_cell _ Hi). exists e. split; [|done].
  unfold Get. by rewrite Hp.
Qed.

(** Storing an entity at new coordinates, with an index that says so. *)
Lemma place_inv m cs es ec h id p x y :
  aoi_inv m →
  (∀ id', entities m !! id' = Some p → id' = id) →
  es = <[id := p]> (entities m) → ec = <[id := keyAt m x y]> (entityCell m) →
  h !! p = Some (MkEntity id x y) → (∀ q, q ≠ p → h !! q = heap m !! q) →
  (∀ k id' q, (cs !! k ≫= (.!! id')) = Some q ↔
     if decide (id' = id) then q = p ∧ k = keyAt m x y else (cells m !! k ≫= (.!! id')) = Some q) →
  aoi_inv (MkManager (cellSize m) cs es ec h).
Proof.
  intros Hi Hinj -> -> Hp Hh Hcs.
  assert (∀ id' q, id' ≠ id → entities m !! id' = Some q → q ≠ p) as Hne.
  { intros id' q Hid Hq ->. apply Hid. by apply Hinj. }
  split; cbn.
  - intros id' q [[<- <-]|[Hid Hq]]%lookup_insert_Some; [by eexists|].
    destruct (ai_heap _ Hi id' q Hq) as (e & He & Hide). exists e. rewrite Hh by eauto. done.
  - intros id' k. unfold Get. cbn. destruct (decide (id' = id)) as [->|Hid].
    + rewrite !lookup_insert_eq. cbn. rewrite Hp. unfold keyAt. cbn. split.
      * intros [= <-]. by eexists.
      * intros (e & [= <-] & <-). done.
    + rewrite !lookup_insert_ne by done. rewrite (ai_cell _ Hi). unfold Get.
      destruct (entities m !! id') as [q|] eqn:Hq; cbn; [|done]. by rewrite Hh by eauto.
  - intros k id' q. rewrite Hcs. case_decide as Hid.
    + subst. rewrite !lookup_insert_eq. naive_solver.
    + rewrite !lookup_insert_ne by done. apply (ai_index _ Hi).
Qed.

Lemma moveLocked_inv id x y m : aoi_inv m → aoi_inv (moveLocked id x y m).
Proof.
  intros Hi. unfold moveLocked. destruct (entities m !! id) as [p|] eqn:Hp; [|done].
  destruct (entity_has_cell m id p Hi Hp) as [k Hk]. rewrite Hk. change (default zeroKey (Some k)) with k.
  destruct (ai_heap _ Hi id p Hp) as (e & He & Hid).
  assert (alter (λ e, MkEntity (ID e) x y) p (heap m) !! p = Some (MkEntity id x y)) as Hh
    by (by rewrite lookup_alter_eq, He, <- Hid).
  assert (∀ k' id' q, (cells m !! k' ≫= (.!! id')) = Some q → id' = id → q = p ∧ k' = k) as Hown.
  { intros k' id' q H ->. apply (ai_index _ Hi) in H. naive_solver congruence. }
  assert (entities m = <[id := p]> (entities m)) as Ees by (by rewrite insert_id).
  case_decide as E.
  - apply (place_inv m _ _ _ _ id p x y); try done.
    + intros id' Hid'. by eapply entities_inj.
    + rewrite insert_id; [done|]. by rewrite <- E.
    + intros q Hq. by rewrite lookup_alter_ne.
    + intros k' id' q. case_decide as Hid'; [|done]. subst id'. rewrite (ai_index _ Hi), Hp, Hk, E.
      naive_solver.
  - apply (place_inv m _ _ _ _ id p x y); try done.
    + intros id' Hid'. by eapply entities_inj.
    + intros q Hq. by rewrite lookup_alter_ne.
    + intros k' id' q. destruct (decide (k' = keyAt m x y)) as [->|Hk'].
      * rewrite lookup_insert_eq. cbn. rewrite lookup_alter_ne by done.
        case_decide as Hid'; [subst; rewrite lookup_insert_eq; naive_solver|].
        rewrite lookup_insert_ne by done. by destruct (cells m !! keyAt m x y).
      * rewrite lookup_insert_ne by done. destruct (decide (k' = k)) as [->|Hkk].
        -- rewrite lookup_alter_eq. destruct (cells m !! k) as [c|] eqn:Hc; cbn.
           ++ case_decide as Hid'; [subst; rewrite lookup_delete_eq; naive_solver|].
              by rewrite lookup_delete_ne.
           ++ case_decide; naive_solver.
        -- rewrite lookup_alter_ne by done. case_decide as Hid'; [|done].
           split; [|naive_solver]. intros H. destruct (Hown _ _ _ H Hid'). done.
Qed.

Lemma Enter_inv id x y p m : aoi_inv m → heap m !! p = None → aoi_inv (Enter id x y p m).
Proof.
  intros Hi Hp. unfold Enter. destruct (entities m !! id) as [q|] eqn:Hq; [by apply moveLocked_inv|].
  assert (entityCell m !! id = None) as Hk.
  { destruct (entityCell m !! id) as [k|] eqn:Hk; [|done].
    apply (ai_cell _ Hi) in Hk as (e & He & _). unfold Get in He. by rewrite Hq in He. }
  apply (place_inv m _ _ _ _ id p x y); try done.
  - intros id' Hid'. destruct (ai_heap _ Hi id' p Hid') as (e & He & _). congruence.
  - apply lookup_insert_eq.
  - intros q Hne. by rewrite lookup_insert_ne.
  - intros k' id' q. unfold cellAt. destruct (decide (k' = keyAt m x y)) as [->|Hk'].
    + rewrite lookup_insert_eq. cbn. case_decide as Hid'; [subst; rewrite lookup_insert_eq; naive_solver|].
      rewrite lookup_insert_ne by done. by destruct (cells m !! keyAt m x y).
    + rewrite lookup_insert_ne by done. case_decide as Hid'; [|done]. subst.
      rewrite (ai_index _ Hi), Hq. naive_solver.
Qed.

Lemma aoi_leave_inv id m : aoi_inv m → aoi_inv (Leave id m).1.
Proof.
  intros Hi. unfold Leave. destruct (entities m !! id) as [p|] eqn:Hp; [|done].
  destruct (entity_has_cell m id p Hi Hp) as [k Hk]. rewrite Hk.
  destruct (ai_heap _ Hi id p Hp) as (e & He & Hid). rewrite He, Hid. split; cbn.
  - intros id' q [_ Hq]%lookup_delete_Some. by apply (ai_heap _ Hi).
  - intros id' k'. unfold Get. cbn. destruct (decide (id' = id)) as [->|Hne].
    + rewrite !lookup_delete_eq. split; [done|]. by intros (? & ? & _).
    + rewrite !lookup_delete_ne by done. apply (ai_cell _ Hi).
  - intros k' id' q. rewrite !lookup_delete_Some.
    transitivity (id ≠ id' ∧ (cells m !! k' ≫= (.!! id')) = Some q).
    + destruct (decide (k' = k)) as [->|Hkk].
      * rewrite lookup_alter_eq. destruct (cells m !! k) as [c|]; cbn; [apply lookup_delete_Some|naive_solver].
      * rewrite lookup_alter_ne by done. split; [|by intros [_ ?]]. intros H. split; [|done].
        intros <-. apply (ai_index _ Hi) in H as [_ H]. congruence.
    + rewrite (ai_index _ Hi). naive_solver.
Qed.

(** ** Theorems *)

Inductive aoi_reach (cs : float64) : Manager → Prop :=
| ar_new : aoi_reach cs (NewManager cs)
| ar_enter m id x y p : aoi_reach cs m → heap m !! p = None → aoi_reach cs (Enter id x y p m)
| ar_move m id x y : aoi_reach cs m → aoi_reach cs (Move id x y m)
| ar_leave m id : aoi_reach cs m → aoi_reach cs (Leave id m).1.

Lemma aoi_reach_inv cs m : aoi_reach cs m → aoi_inv m.
Proof.
  induction 1; [apply NewManager_inv|by apply Enter_inv|by apply moveLocked_inv|by apply aoi_leave_inv].
Qed.

(** The entities of a cell are those whose coordinates are in it. *)
Lemma elem_of_cell_entities m ex k e :
  aoi_inv m →
  e ∈ cell_entities m ex k ↔ Get (ID e) m = Some e ∧ ID e ≠ ex ∧ keyAt m (X e) (Y e) = k.
Proof.
  intros Hi. unfold cell_entities.
  assert (∀ id p, Get id m = Some e → entities m !! id = Some p → heap m !! p = Some e ∧ ID e = id) as Hget.
  { unfold Get. intros id p Hg Hp. rewrite Hp in Hg. destruct (ai_heap _ Hi id p Hp) as (e' & He' & <-).
    split; [done|]. cbn in Hg. congruence. }
  assert (e ∈ match cells m !! k with
          | None => []
          | Some c => omap (λ ip : Z * nat, if (ip.1 =? ex)%Z then None else heap m !! ip.2) (map_to_list c)
          end ↔ ∃ id p, (cells m !! k ≫= (.!! id)) = Some p ∧ id ≠ ex ∧ heap m !! p = Some e) as ->.
  { destruct (cells m !! k) as [c|]; cbn; [|split; [by inversion 1|naive_solver]].
    rewrite list_elem_of_omap. split.
    - intros ([id p] & Hin%elem_of_map_to_list & He). cbn in He. destruct (Z.eqb_spec id ex); [done|]. eauto.
    - intros (id & p & Hc & Hne & He). exists (id, p). rewrite elem_of_map_to_list. cbn.
      by rewrite (proj2 (Z.eqb_neq _ _) Hne). }
  setoid_rewrite (ai_index _ Hi). split.
  - intros (id & p & [Hp Hk] & Hne & He). destruct (ai_heap _ Hi id p Hp) as (e' & He' & Hid).
    assert (e' = e) as -> by congruence. apply (ai_cell _ Hi) in Hk as (e' & Hg & Hk).
    assert (Get id m = Some e) as Hg' by (unfold Get; by rewrite Hp). rewrite Hid. naive_solver congruence.
  - intros (Hg & Hne & Hk). unfold Get in Hg. destruct (entities m !! ID e) as [p|] eqn:Hp; [|done].
    exists (ID e), p. split; [|done]. split; [done|]. apply (ai_cell _ Hi). exists e. unfold Get. by rewrite Hp.
Qed.

(** After any sequence of enters, moves and leaves the neighbours of an
    entity are exactly the other entities whose current coordinates lie in
    the three by three cells around its own, none missing and none stale. *)
Theorem aoi_around_exact cs m id e :
  aoi_reach cs m → Get id m = Some e →
  ∀ e', e' ∈ Around id m ↔
    Get (ID e') m = Some e' ∧ ID e' ≠ id ∧
    keyAt m (X e') (Y e') ∈ neighbours (keyAt m (X e) (Y e)).
Proof.
  intros Hre Hg e'. pose proof (aoi_reach_inv cs m Hre) as Hi. unfold Around.
  assert (entityCell m !! id = Some (keyAt m (X e) (Y e))) as -> by (apply (ai_cell _ Hi); eauto).
  unfold aroundCellLocked. rewrite list_elem_of_bind. split.
  - intros (k & (H1 & H2 & <-)%elem_of_cell_entities & Hk); [done|done].
  - intros (H1 & H2 & Hk). eexists. split; [|exact Hk]. by apply elem_of_cell_entities.
Qed.

Definition ex_m : Manager :=
  Move 1 (of_int 50) (of_int 50) (Enter 3 (of_int 500) (of_int 0) 3
    (Enter 2 (of_int (-10)) (of_int 20) 2 (Enter 1 (of_int 900) (of_int 900) 1 (NewManager (of_int 100))))).

Lemma aoi_around_exact_witness : MkEntity 2 (of_int (-10)) (of_int 20) ∈ Around 1 ex_m.
Proof.
  apply (aoi_around_exact (of_int 100) ex_m 1 (MkEntity 1 (of_int 50) (of_int 50))).
  - apply ar_move. repeat (apply ar_enter; [|vm_compute; reflexivity]). constructor.
  - vm_compute. reflexivity.
  - split; [vm_compute; reflexivity|]. split; [discriminate|].
    apply (bool_decide_unpack _). vm_compute. exact I.
Defined.

(** [AroundPoint] excludes the id -1: an entity with that id is never seen. *)
Theorem entity_minus_one_invisible cs m x y e :
  aoi_reach cs m → e ∈ AroundPoint x y m → ID e ≠ (-1)%Z.
Proof.
  intros Hre%aoi_reach_inv. unfold AroundPoint, aroundCellLocked. rewrite list_elem_of_bind.
  by intros (k & (_ & ? & _)%elem_of_cell_entities & _).
Qed.
