(* ===== verification/Sharding.v ===== *)
(** * plugins/db/orm/dynamic_sharding.go: shard strategies

    The hash, weighted and consistent-hash strategies, and the pagination of
    cross-shard results.  A value to be sharded is given by its formatted text.
    The ring of the consistent hash is specified by the successor of a hash on
    the circle. *)

From S2P Require Import Prelude StableSort.
From stdpp Require Import pretty.
From Stdlib Require Import Ascii.

(** ** Hashes *)

Fixpoint bytes_of (s : string) : list Z :=
  match s with
  | String.EmptyString => []
  | String.String a s => Z.of_nat (nat_of_ascii a) :: bytes_of s
  end.

(** [hashValue] of a formatted value. *)
Definition hashValue (s : string) : Z :=
  fold_left (λ h b, GoInt.u64 (Z.lxor h b * 1099511628211)) (bytes_of s) 14695981039346656037%Z.

Definition secondaryHash (h : Z) : Z :=
  let h := Z.lxor h (Z.shiftr h 33) in
  let h := GoInt.u64 (h * 0xff51afd7ed558ccd) in
  let h := Z.lxor h (Z.shiftr h 33) in
  let h := GoInt.u64 (h * 0xc4ceb9fe1a85ec53) in
  Z.lxor h (Z.shiftr h 33).

(** [int(h % uint64(n))]; the remainder by zero panics. *)
Definition bucket (h n : Z) : outcome Z :=
  if (GoInt.u64 n =? 0)%Z then Panic "runtime error: integer divide by zero" []
  else Ret (GoInt.i64 (h mod GoInt.u64 n)).

(** ** Hash strategy *)

Record HashShardStrategy := MkHashShard { h_DBCount : Z; h_TableCount : Z }.

Definition Hash_CalculateShard (s : HashShardStrategy) (value : string) : outcome (Z * Z) :=
  let h := hashValue value in
  let! db := bucket h (h_DBCount s) in
  let! tb := bucket (secondaryHash h) (h_TableCount s) in
  Ret (db, tb).

(** ** Weighted strategy *)

Record WeightedShardStrategy := MkWeightedShard {
  w_DBCount : Z;
  w_TableCount : Z;
  Weights : list Z;
  totalWeight : Z
}.

(** [make] panics on a negative length. *)
Definition NewWeightedShardStrategy (db table : Z) (weights : list Z)
    : outcome WeightedShardStrategy :=
  let! weights :=
    if decide (weights = []) then
      if (db <? 0)%Z then Panic "runtime error: makeslice: len out of range" []
      else Ret (replicate (Z.to_nat db) 100%Z)
    else Ret weights in
  Ret (MkWeightedShard db table weights (fold_left (λ t w, GoInt.i64 (t + w)) weights 0%Z)).

(** The first database whose cumulative weight exceeds [mod]. *)
Fixpoint pick_db (i : Z) (acc md : Z) (weights : list Z) : Z :=
  match weights with
  | [] => 0
  | w :: weights =>
      let acc := GoInt.i64 (acc + w) in
      if (md <? acc)%Z then i else pick_db (i + 1) acc md weights
  end.

Definition Weighted_CalculateShard (s : WeightedShardStrategy) (value : string) : outcome (Z * Z) :=
  if (totalWeight s <=? 0)%Z then Ret (0, 0)%Z
  else
    let h := hashValue value in
    let! md := bucket h (totalWeight s) in
    let! tb := bucket (secondaryHash h) (w_TableCount s) in
    Ret (pick_db 0 0 md (Weights s), tb).

(** ** Consistent hash *)

Record ConsistentHash := MkRing {
  nodes : list string;
  nodeToIndex : gmap string nat;
  ring : list Z;
  nodeMap : gmap Z string
}.

Definition replica_hash (n : string) (i : nat) : Z :=
  hashValue ("NODE-" +:+ n +:+ "-REPLICA-" +:+ pretty (Z.of_nat i)).

(** The virtual nodes of a list of nodes, in the order they are added. *)
Definition virtual (replicas : nat) (ns : list string) : list (Z * string) :=
  n ← ns; (λ i, (replica_hash n i, n)) <$> seq 0 replicas.

Definition by_hash (a b : Z) : bool := (a <? b)%Z.

Definition NewConsistentHash (ns : list string) (replicas : nat) : ConsistentHash :=
  MkRing ns
    (fold_left (λ m (p : nat * string), <[p.2 := p.1]> m) (zip (seq 0 (length ns)) ns) ∅)
    (sortSliceStable by_hash (virtual replicas ns).*1)
    (fold_left (λ m (p : Z * string), <[p.1 := p.2]> m) (virtual replicas ns) ∅).

(** [sort.Search]: binary search for the first index from [i] below [j] at
    which [f] holds, or [j]. *)
Fixpoint sortSearch (fuel : nat) (f : nat → bool) (i j : nat) : nat :=
  match fuel with
  | O => i
  | S fuel =>
      if decide (i < j) then
        let h := Nat.div2 (i + j) in
        if f h then sortSearch fuel f i h else sortSearch fuel f (S h) j
      else i
  end.

(** The position on the ring of a hash: [sort.Search], then wrap around. *)
Definition ring_position (r : list Z) (h : Z) : nat :=
  let idx := sortSearch (length r) (λ i, (h <=? default 0%Z (r !! i))%Z) 0 (length r) in
  if decide (idx = length r) then 0 else idx.

Definition GetNodeInfo (c : ConsistentHash) (key : string) : string * Z :=
  if decide (ring c = []) then ("", (-1)%Z)
  else
    let x := default 0%Z (ring c !! ring_position (ring c) (hashValue key)) in
    let name := default "" (nodeMap c !! x) in
    (name, Z.of_nat (default 0 (nodeToIndex c !! name))).

Record ConsistentShardStrategy := MkConsistent {
  dbRing : ConsistentHash;
  tableRing : ConsistentHash
}.

Definition NewConsistentShardStrategy (dbNodes tableNodes : list string) : ConsistentShardStrategy :=
  MkConsistent (NewConsistentHash dbNodes 100) (NewConsistentHash tableNodes 100).

Definition Consistent_CalculateShard (s : ConsistentShardStrategy) (value : string) : Z * Z :=
  let orZero i := if (i =? -1)%Z then 0%Z else i in
  (orZero (GetNodeInfo (dbRing s) value).2, orZero (GetNodeInfo (tableRing s) value).2).

(** ** Cross-shard pagination *)

(** Slicing outside the bounds panics. *)
Definition applyPagination {A} (data : list A) (offset limit : Z) : outcome (list A) :=
  let n := Z.of_nat (length data) in
  if (n <=? offset)%Z then Ret []
  else
    let e := GoInt.i64 (offset + limit) in
    let e := if (limit <=? 0)%Z || (n <? e)%Z then n else e in
    if (offset <? 0)%Z || (e <? offset)%Z then Panic "runtime error: slice bounds out of range" []
    else Ret (take (Z.to_nat (e - offset)) (drop (Z.to_nat offset) data)).

(** ** The circle *)

(** [x] is the successor of [h] among the hashes [R]: the next one at or after
    it, or the smallest one. *)
Definition successor (R : list Z) (h x : Z) : Prop :=
  x ∈ R ∧ (((h <= x)%Z ∧ ∀ y, y ∈ R → (h <= y)%Z → (x <= y)%Z) ∨
           ((∀ y, y ∈ R → (y < h)%Z) ∧ ∀ y, y ∈ R → (x <= y)%Z)).

Lemma successor_unique R h x y : successor R h x → successor R h y → x = y.
Proof.
  intros [Hx [[Hhx Hmx]|[Hax Hmx]]] [Hy [[Hhy Hmy]|[Hay Hmy]]].
  - specialize (Hmx y Hy Hhy). specialize (Hmy x Hx Hhx). lia.
  - specialize (Hay x Hx). lia.
  - specialize (Hax y Hy). lia.
  - specialize (Hmx y Hy). specialize (Hmy x Hx). lia.
Qed.

(** More points on the circle: the successor stays or is one of them. *)
Lemma successor_grow R R' h x x' :
  successor R h x → successor (R ++ R') h x' → x' ∈ R' ∨ x' = x.
Proof.
  intros Hs [Hin Hx']. apply elem_of_app in Hin as [Hin|Hin]; [right|by left].
  apply (successor_unique R h); [|done]. split; [done|]. destruct Hx' as [[Hh Hm]|[Ha Hm]].
  - left. split; [done|]. intros y Hy. apply Hm. set_solver.
  - right. split; intros y Hy; [apply Ha|apply Hm]; set_solver.
Qed.

Definition increasing (l : list Z) : Prop := StronglySorted (λ a b, a <= b)%Z l.

Lemma ring_sorted l : increasing (sortSliceStable by_hash l).
Proof.
  assert (StronglySorted (not_less by_hash) (sortSliceStable by_hash l)) as H.
  { apply sortSliceStable_sorted.
    - unfold not_less, by_hash. intros a b. rewrite Z.ltb_lt, Z.ltb_ge. lia.
    - unfold not_less, by_hash. intros a b c. rewrite !Z.ltb_ge. lia. }
  unfold increasing. induction H as [|a l' _ IH Ha]; constructor; [done|].
  eapply Forall_impl; [exact Ha|]. unfold not_less, by_hash. intros b. rewrite Z.ltb_ge. lia.
Qed.

(** Binary search finds the first index where a monotone test holds. *)
Lemma sortSearch_spec f n fuel i j :
  (∀ a b, a ≤ b → b < n → f a = true → f b = true) →
  i ≤ j → j ≤ n → j ≤ i + fuel →
  let k := sortSearch fuel f i j in
  i ≤ k ≤ j ∧ (∀ a, i ≤ a < k → f a = false) ∧ (k < j → f k = true).
Proof.
  intros Hmono. revert i j. induction fuel as [|fuel IH]; intros i j Hij Hn Hf; cbn.
  { split_and!; [lia|lia|intros; lia|intros; lia]. }
  case_decide as Hlt; [|split_and!; [lia|lia|intros; lia|intros; lia]].
  assert (Nat.div2 (i + j) = (i + j) / 2) as -> by (by rewrite Nat.div2_div).
  assert (i ≤ (i + j) / 2 < j) as Hmid.
  { split; [apply Nat.div_le_lower_bound|apply Nat.Div0.div_lt_upper_bound]; lia. }
  destruct (f ((i + j) / 2)) eqn:Hfm.
  - destruct (IH i ((i + j) / 2)) as ((? & ?) & Hlow & Hhit); [lia..|].
    split_and!; [lia|lia|done|]. intros Hk.
    destruct (decide (sortSearch fuel f i ((i + j) / 2) = (i + j) / 2)) as [->|]; [done|].
    apply Hhit. lia.
  - destruct (IH (S ((i + j) / 2)) j) as ((? & ?) & Hlow & Hhit); [lia..|].
    split_and!; [lia|lia| |done]. intros a Ha.
    destruct (decide (a ≤ (i + j) / 2)) as [Hle|]; [|apply Hlow; lia].
    destruct (f a) eqn:Hfa; [|done]. rewrite (Hmono a _ Hle) in Hfm; [done|lia|done].
Qed.

Lemma increasing_lookup l i j x y :
  increasing l → i ≤ j → l !! i = Some x → l !! j = Some y → (x <= y)%Z.
Proof.
  intros Hl. revert i j. induction Hl as [|a l _ IH Ha]; intros i j Hij Hi Hj; [done|].
  rewrite Forall_forall in Ha. destruct i as [|i], j as [|j]; simplify_eq/=; [lia| |lia|].
  - apply Ha. by eapply list_elem_of_lookup_2.
  - eapply (IH i j); [lia|done..].
Qed.

(** What [GetNodeInfo] looks up is the successor of the key's hash. *)
Lemma ring_position_successor r h :
  increasing r → r ≠ [] →
  ∃ x, r !! ring_position r h = Some x ∧ successor r h x.
Proof.
  intros Hr Hne. unfold ring_position.
  set (f := λ i, (h <=? default 0%Z (r !! i))%Z).
  destruct (sortSearch_spec f (length r) (length r) 0 (length r)) as ((_ & Hk) & Hlow & Hhit);
    [|lia..|].
  { intros a b Hab Hb. unfold f. rewrite !Z.leb_le. intros Ha.
    destruct (lookup_lt_is_Some_2 r a) as [x Hx]; [lia|].
    destruct (lookup_lt_is_Some_2 r b Hb) as [y Hy].
    pose proof (increasing_lookup r a b x y Hr Hab Hx Hy). rewrite Hx in Ha. rewrite Hy.
    cbn in *. lia. }
  set (k := sortSearch (length r) f 0 (length r)) in *. unfold f in *.
  assert (0 < length r) as Hpos by (destruct r; [done|cbn; lia]).
  case_decide as Hend.
  - destruct (lookup_lt_is_Some_2 r 0 Hpos) as [x Hx]. exists x. split; [done|].
    split; [by eapply list_elem_of_lookup_2|]. right.
    split; intros y [j Hj]%list_elem_of_lookup.
    + pose proof (lookup_lt_Some _ _ _ Hj). specialize (Hlow j ltac:(lia)).
      rewrite Hj in Hlow. cbn in Hlow. by apply Z.leb_gt.
    + by apply (increasing_lookup r 0 j x y); [|lia|..].
  - destruct (lookup_lt_is_Some_2 r k) as [x Hx]; [lia|]. exists x. split; [done|].
    split; [by eapply list_elem_of_lookup_2|]. left. specialize (Hhit ltac:(lia)).
    rewrite Hx in Hhit. cbn in Hhit. apply Z.leb_le in Hhit. split; [done|].
    intros y [j Hj]%list_elem_of_lookup Hy. destruct (decide (j < k)) as [Hjk|].
    + specialize (Hlow j ltac:(lia)). rewrite Hj in Hlow. cbn in Hlow.
      apply Z.leb_gt in Hlow. lia.
    + by apply (increasing_lookup r k j x y); [|lia|..].
Qed.

Lemma successor_perm R R' h x : R ≡ₚ R' → successor R h x → successor R' h x.
Proof. unfold successor. intros HP. by setoid_rewrite HP. Qed.

(** ** The maps of the ring *)

Lemma fold_insert_lookup `{Countable K} {V} (l : list (K * V)) k v :
  NoDup l.*1 →
  fold_left (λ m (p : K * V), <[p.1 := p.2]> m) l (∅ : gmap K V) !! k = Some v ↔ (k, v) ∈ l.
Proof.
  intros Hl.
  rewrite <-(fold_left_rev_right (λ (p : K * V) m, <[p.1 := p.2]> m)).
  assert (fold_right (λ (p : K * V) m, <[p.1 := p.2]> m) ∅ (rev l) = list_to_map (M := gmap K V) (rev l))
    as ->.
  { induction (rev l) as [|[a b] r IH]; [done|]. cbn. by rewrite IH. }
  rewrite rev_alt. fold (reverse l).
  rewrite <-(elem_of_list_to_map (M := gmap K)), elem_of_reverse; [done|].
  by rewrite fmap_reverse, reverse_Permutation.
Qed.

Lemma elem_of_virtual r ns h n :
  (h, n) ∈ virtual r ns ↔ n ∈ ns ∧ ∃ i, i < r ∧ h = replica_hash n i.
Proof.
  unfold virtual. rewrite list_elem_of_bind. setoid_rewrite list_elem_of_fmap.
  setoid_rewrite elem_of_seq. split.
  - intros (m & (i & Heq & Hi) & Hm). simplify_eq. split; [done|]. exists i. split; [lia|done].
  - intros (Hn & i & Hi & ->). exists n. split; [|done]. exists i. split; [done|lia].
Qed.

Lemma virtual_app r ns ns' : virtual r (ns ++ ns') = virtual r ns ++ virtual r ns'.
Proof. unfold virtual. by rewrite bind_app. Qed.

(** Distinct replica hashes come from distinct nodes. *)
Lemma distinct_nodes r ns : 0 < r → NoDup (virtual r ns).*1 → NoDup ns.
Proof.
  intros Hr. induction ns as [|n ns IH]; [constructor|].
  change (n :: ns) with ([n] ++ ns). rewrite virtual_app, fmap_app, NoDup_app.
  intros (_ & Hdisj & Hns). constructor; [|by apply IH]. intros Hn.
  apply (Hdisj (replica_hash n 0)).
  - apply list_elem_of_fmap. exists (replica_hash n 0, n). split; [done|].
    apply elem_of_virtual. split; [by left|]. exists 0. split; [done|done].
  - apply list_elem_of_fmap. exists (replica_hash n 0, n). split; [done|].
    apply elem_of_virtual. split; [done|]. exists 0. split; [done|done].
Qed.

Lemma nodeToIndex_lookup ns r n i :
  NoDup ns → nodeToIndex (NewConsistentHash ns r) !! n = Some i ↔ ns !! i = Some n.
Proof.
  intros Hns. cbn.
  transitivity ((n, i) ∈ zip ns (seq 0 (length ns))).
  - rewrite <-fold_insert_lookup by (rewrite fst_zip; [done|rewrite length_seq; lia]).
    assert (∀ (m : gmap string nat) (a : list nat) (b : list string),
      fold_left (λ m (p : nat * string), <[p.2 := p.1]> m) (zip a b) m =
      fold_left (λ m (p : string * nat), <[p.1 := p.2]> m) (zip b a) m) as Hswap.
    { intros m a. revert m. induction a as [|x a IH]; intros m [|y b]; cbn; [done..|]. apply IH. }
    by rewrite Hswap.
  - rewrite list_elem_of_lookup. setoid_rewrite lookup_zip_with_Some. split.
    + intros (k & a & b & Heq & Ha & Hb). simplify_eq. apply lookup_seq in Hb as [-> _]. done.
    + intros Hi. exists i, n, i. split_and!; [done..|]. apply lookup_seq.
      split; [done|]. by eapply lookup_lt_Some.
Qed.

(** ** Who owns a key *)

(** The owner of a key is the node of the successor of its hash. *)
Definition owner (r : nat) (ns : list string) (key n : string) : Prop :=
  ∃ x, successor (virtual r ns).*1 (hashValue key) x ∧ (x, n) ∈ virtual r ns.

Lemma owner_unique r ns key n n' :
  NoDup (virtual r ns).*1 → owner r ns key n → owner r ns key n' → n = n'.
Proof.
  intros Hnd (x & Hx & Hn) (x' & Hx' & Hn').
  assert (x = x') as <- by (by eapply successor_unique).
  apply (fold_insert_lookup _ _ _ Hnd) in Hn. apply (fold_insert_lookup _ _ _ Hnd) in Hn'.
  congruence.
Qed.

Lemma GetNodeInfo_owner r ns key :
  0 < r → ns ≠ [] → NoDup (virtual r ns).*1 →
  ∃ n i, GetNodeInfo (NewConsistentHash ns r) key = (n, Z.of_nat i) ∧
         ns !! i = Some n ∧ owner r ns key n.
Proof.
  intros Hr Hns Hnd. unfold GetNodeInfo.
  assert (ring (NewConsistentHash ns r) ≡ₚ (virtual r ns).*1) as HP.
  { cbn. apply sortSliceStable_perm. }
  assert (ring (NewConsistentHash ns r) ≠ []) as Hne.
  { intros He. rewrite He in HP. apply Permutation_nil in HP.
    destruct ns as [|n ns]; [done|]. destruct r; [lia|done]. }
  rewrite decide_False by done.
  destruct (ring_position_successor (ring (NewConsistentHash ns r)) (hashValue key))
    as (x & Hx & Hsucc); [apply ring_sorted|done|].
  rewrite Hx. cbn [from_option id]. pose proof Hsucc as [Hin _]. rewrite HP in Hin.
  apply list_elem_of_fmap in Hin as ([x' n] & Heq & Hin). cbn in Heq. subst x'.
  assert (nodeMap (NewConsistentHash ns r) !! x = Some n) as -> by (by apply fold_insert_lookup).
  cbn [from_option id]. pose proof Hin as [Hn _]%elem_of_virtual.
  apply list_elem_of_lookup in Hn as [i Hi].
  assert (nodeToIndex (NewConsistentHash ns r) !! n = Some i) as Hidx.
  { apply nodeToIndex_lookup; [by eapply distinct_nodes|done]. }
  exists n, i. rewrite Hidx. split_and!; [done|done|]. exists x. split; [|done].
  by eapply successor_perm.
Qed.

(** The ring of [NewConsistentHash] moves as little as possible.  When no
    two virtual nodes hash to the same point, every key has an owner among the
    nodes, reported with its index; and after a node is appended, every key
    either moves to the new node or keeps the node and the index it had. *)
Theorem consistent_hash_minimal_movement r ns n key :
  0 < r → ns ≠ [] → NoDup (virtual r (ns ++ [n])).*1 →
  let before := GetNodeInfo (NewConsistentHash ns r) key in
  let after := GetNodeInfo (NewConsistentHash (ns ++ [n]) r) key in
  (∃ i, before.2 = Z.of_nat i ∧ ns !! i = Some before.1 ∧ owner r ns key before.1) ∧
  (after = before ∨ after = (n, Z.of_nat (length ns))).
Proof.
  intros Hr Hns Hnd before after.
  pose proof (distinct_nodes r _ Hr Hnd) as Hnodes.
  assert (NoDup (virtual r ns).*1) as Hnd0.
  { rewrite virtual_app, fmap_app, NoDup_app in Hnd. tauto. }
  destruct (GetNodeInfo_owner r ns key Hr Hns Hnd0) as (m & i & Hb & Hi & Ho).
  destruct (GetNodeInfo_owner r (ns ++ [n]) key Hr) as (m' & i' & Ha & Hi' & Ho'); [|done|].
  { by destruct ns. }
  unfold before, after. rewrite Hb, Ha. split; [by exists i|].
  destruct Ho as (x & Hx & Hm), Ho' as (x' & Hx' & Hm').
  rewrite virtual_app, fmap_app in Hx'.
  destruct (successor_grow _ _ _ _ _ Hx Hx') as [Hnew| ->].
  - right. apply list_elem_of_fmap in Hnew as ([y k] & -> & Hk). cbn in Hm'.
    assert (m' = k) as ->.
    { apply (fold_insert_lookup _ _ _ Hnd) in Hm'.
      assert ((y, k) ∈ virtual r (ns ++ [n])) as Hk' by (rewrite virtual_app; set_solver).
      apply (fold_insert_lookup _ _ _ Hnd) in Hk'. congruence. }
    apply elem_of_virtual in Hk as [->%list_elem_of_singleton _].
    f_equal. f_equal. eapply NoDup_lookup; [exact Hnodes|exact Hi'|].
    rewrite lookup_app_r by lia. by rewrite Nat.sub_diag.
  - left. assert (m' = m) as ->.
    { apply (fold_insert_lookup _ _ _ Hnd) in Hm'.
      assert ((x, m) ∈ virtual r (ns ++ [n])) as Hk' by (rewrite virtual_app; set_solver).
      apply (fold_insert_lookup _ _ _ Hnd) in Hk'. congruence. }
    f_equal. f_equal. eapply NoDup_lookup; [exact Hnodes|exact Hi'|].
    by apply lookup_app_l_Some.
Qed.

Lemma consistent_hash_minimal_movement_witness :
  GetNodeInfo (NewConsistentHash (["db0"; "db1"] ++ ["db2"]) 3) "user-7" =
    GetNodeInfo (NewConsistentHash ["db0"; "db1"] 3) "user-7" ∨
  GetNodeInfo (NewConsistentHash (["db0"; "db1"] ++ ["db2"]) 3) "user-7" = ("db2", 2%Z).
Proof.
  apply (consistent_hash_minimal_movement 3 ["db0"; "db1"] "db2" "user-7"); [lia|done|].
  apply (bool_decide_unpack _). vm_compute. exact I.
Defined.

(** ** Ranges *)

Definition shard_in (dbs tables : nat) (o : outcome (Z * Z)) : Prop :=
  ∃ i j, o = Ret (Z.of_nat i, Z.of_nat j) ∧ i < dbs ∧ j < tables.

Lemma bucket_in h n :
  0 < n → (Z.of_nat n < 2^63)%Z → ∃ i, bucket h (Z.of_nat n) = Ret (Z.of_nat i) ∧ i < n.
Proof.
  intros Hn Hb. unfold bucket. rewrite GoInt.u64_id by in_range.
  destruct (Z.eqb_spec (Z.of_nat n) 0) as [|_]; [lia|].
  pose proof (Z.mod_pos_bound h (Z.of_nat n) ltac:(lia)).
  exists (Z.to_nat (h mod Z.of_nat n)). split; [|lia]. f_equal.
  rewrite GoInt.i64_id; [lia|in_range].
Qed.

Definition weight_upto (i : nat) (ws : list Z) : Z := foldr Z.add 0%Z (take i ws).

Definition weight_sum (ws : list Z) : Z := foldr Z.add 0%Z ws.

Lemma weight_sum_nonneg ws : Forall (λ w, 0 <= w)%Z ws → (0 <= weight_sum ws)%Z.
Proof. unfold weight_sum. induction 1; cbn; lia. Qed.

Lemma fold_weights ws acc :
  Forall (λ w, 0 <= w)%Z ws → (0 <= acc)%Z → (acc + weight_sum ws < 2^63)%Z →
  fold_left (λ t w, GoInt.i64 (t + w)) ws acc = (acc + weight_sum ws)%Z.
Proof.
  intros Hws. revert acc. induction Hws as [|w ws Hw Hws IH]; intros acc Ha Hb; cbn in *; [lia|].
  pose proof (weight_sum_nonneg ws Hws). unfold weight_sum in *.
  rewrite GoInt.i64_id by in_range. rewrite IH; lia.
Qed.

(** The database picked is the one whose slice of the weights holds [md]. *)
Lemma pick_db_spec ws k acc md :
  Forall (λ w, 0 <= w)%Z ws → (0 <= acc <= md)%Z → (md < acc + weight_sum ws < 2^63)%Z →
  ∃ i, pick_db k acc md ws = (k + Z.of_nat i)%Z ∧ i < length ws ∧
       (acc + weight_upto i ws <= md < acc + weight_upto (S i) ws)%Z.
Proof.
  intros Hws. revert k acc. induction Hws as [|w ws Hw Hws IH]; intros k acc Ha Hb; cbn in *; [lia|].
  pose proof (weight_sum_nonneg ws Hws). unfold weight_sum in *.
  rewrite GoInt.i64_id by in_range. destruct (Z.ltb_spec md (acc + w)) as [Hlt|Hge].
  - exists 0. cbn. split; [lia|]. split; [lia|]. rewrite take_0. cbn. lia.
  - destruct (IH (k + 1)%Z (acc + w)%Z) as (i & -> & Hi & Hr); [lia..|].
    exists (S i). split; [lia|]. split; [lia|]. unfold weight_upto in *. cbn in *. lia.
Qed.

Lemma weighted_shard_exact dbs tables ws s value :
  NewWeightedShardStrategy dbs (Z.of_nat tables) ws = Ret s →
  Forall (λ w, 0 <= w)%Z ws → (0 < weight_sum ws < 2^63)%Z →
  0 < tables → (Z.of_nat tables < 2^63)%Z →
  ∃ i j, Weighted_CalculateShard s value = Ret (Z.of_nat i, Z.of_nat j) ∧
         i < length ws ∧ j < tables ∧
         (weight_upto i ws <= hashValue value mod weight_sum ws < weight_upto (S i) ws)%Z.
Proof.
  intros Hnew Hws Htot Ht Htb. unfold NewWeightedShardStrategy in Hnew.
  rewrite decide_False in Hnew by (intros ->; cbn in Htot; lia). cbn in Hnew. simplify_eq.
  unfold Weighted_CalculateShard. cbn. rewrite fold_weights by (done || lia). rewrite Z.add_0_l.
  destruct (Z.leb_spec (weight_sum ws) 0); [lia|]. unfold bucket at 1.
  rewrite GoInt.u64_id by in_range. destruct (Z.eqb_spec (weight_sum ws) 0); [lia|]. cbn.
  pose proof (Z.mod_pos_bound (hashValue value) (weight_sum ws) ltac:(lia)).
  rewrite GoInt.i64_id by in_range.
  destruct (bucket_in (secondaryHash (hashValue value)) tables Ht Htb) as (j & -> & Hj). cbn.
  destruct (pick_db_spec ws 0 0 (hashValue value mod weight_sum ws)) as (i & -> & Hi & Hr);
    [done|lia..|].
  exists i, j. split_and!; [done|done|done|lia|lia].
Qed.

(** Every strategy names a shard that exists.  With positive counts the hash
    strategy, with distinct ring points the consistent strategy, and with
    non-negative weights the weighted one return a database and a table index
    in range without panicking; the weighted one picks a database [i] exactly
    for the hashes whose remainder falls in its slice of the total weight, so
    it serves [Weights[i]] of every [totalWeight] consecutive hashes. *)
Theorem shards_in_range (dbs tables : list string) (weights : list Z) (value : string) :
  dbs ≠ [] → tables ≠ [] →
  (Z.of_nat (length dbs) < 2^63)%Z → (Z.of_nat (length tables) < 2^63)%Z →
  length weights = length dbs → Forall (λ w, 0 <= w)%Z weights → (0 < weight_sum weights < 2^63)%Z →
  NoDup (virtual 100 dbs).*1 → NoDup (virtual 100 tables).*1 →
  let d := Z.of_nat (length dbs) in
  let t := Z.of_nat (length tables) in
  shard_in (length dbs) (length tables) (Hash_CalculateShard (MkHashShard d t) value) ∧
  shard_in (length dbs) (length tables)
    (Ret (Consistent_CalculateShard (NewConsistentShardStrategy dbs tables) value)) ∧
  ∃ s i j, NewWeightedShardStrategy d t weights = Ret s ∧
    Weighted_CalculateShard s value = Ret (Z.of_nat i, Z.of_nat j) ∧
    i < length dbs ∧ j < length tables ∧
    (weight_upto i weights <= hashValue value mod weight_sum weights < weight_upto (S i) weights)%Z.
Proof.
  intros Hd Ht Hdb Htb Hlen Hws Hsum Hnd Hnt d t.
  assert (0 < length dbs) as Hd0 by (destruct dbs; [done|cbn; lia]).
  assert (0 < length tables) as Ht0 by (destruct tables; [done|cbn; lia]).
  split_and!.
  - unfold Hash_CalculateShard, d, t. cbn [h_DBCount h_TableCount].
    destruct (bucket_in (hashValue value) _ Hd0 Hdb) as (i & -> & Hi). cbn.
    destruct (bucket_in (secondaryHash (hashValue value)) _ Ht0 Htb) as (j & -> & Hj). cbn.
    by exists i, j.
  - unfold Consistent_CalculateShard. cbn [dbRing tableRing NewConsistentShardStrategy].
    destruct (GetNodeInfo_owner 100 dbs value) as (? & i & -> & Hi & _); [lia|done..|].
    destruct (GetNodeInfo_owner 100 tables value) as (? & j & -> & Hj & _); [lia|done..|].
    apply lookup_lt_Some in Hi, Hj. exists i, j. cbn.
    destruct (Z.eqb_spec (Z.of_nat i) (-1)), (Z.eqb_spec (Z.of_nat j) (-1)); try lia. done.
  - destruct (NewWeightedShardStrategy d t weights) as [s|? ?] eqn:Hs.
    + destruct (weighted_shard_exact d (length tables) weights s value) as (i & j & ? & ? & ? & ?);
        [done..|]. exists s, i, j. rewrite <-Hlen. done.
    + unfold NewWeightedShardStrategy in Hs. case_decide; [|done]. subst. cbn in Hsum. lia.
Qed.

Lemma shards_in_range_witness :
  ∃ s i j, NewWeightedShardStrategy 2 2 [30; 70]%Z = Ret s ∧
    Weighted_CalculateShard s "user-7" = Ret (Z.of_nat i, Z.of_nat j) ∧ i < 2 ∧ j < 2.
Proof.
  destruct (shards_in_range ["db0"; "db1"] ["t0"; "t1"] [30; 70]%Z "user-7")
    as (_ & _ & s & i & j & Hs & Hc & Hi & Hj & _);
    [done|done|cbn; lia|cbn; lia|done|repeat constructor; lia|cbn; lia|
     apply (bool_decide_unpack _); vm_compute; exact I..|].
  by exists s, i, j.
Defined.

(** ** Pagination *)

(** For a non-negative offset that does not overflow, the page is the slice of
    at most [limit] rows after the first [offset], all of them without limit. *)
Lemma applyPagination_slice {A} (data : list A) offset limit :
  (0 <= offset)%Z → GoInt.in_i64 (offset + limit) →
  applyPagination data offset limit =
    Ret (if (limit <=? 0)%Z then drop (Z.to_nat offset) data
         else take (Z.to_nat limit) (drop (Z.to_nat offset) data)).
Proof.
  intros Ho Hb. unfold applyPagination. rewrite GoInt.i64_id by done.
  destruct (Z.leb_spec (Z.of_nat (length data)) offset) as [Hle|Hlt].
  { rewrite drop_ge by lia. by rewrite take_nil; destruct (limit <=? 0)%Z. }
  destruct (Z.ltb_spec offset 0); [lia|]. destruct (Z.leb_spec limit 0); cbn.
  - destruct (Z.ltb_spec (Z.of_nat (length data)) offset); [lia|].
    rewrite take_ge; [done|]. rewrite length_drop. lia.
  - destruct (Z.ltb_spec (Z.of_nat (length data)) (offset + limit)); cbn.
    + destruct (Z.ltb_spec (Z.of_nat (length data)) offset); [lia|].
      rewrite !take_ge; [done|rewrite length_drop; lia..].
    + destruct (Z.ltb_spec (offset + limit) offset); [lia|].
      by replace (offset + limit - offset)%Z with limit by lia.
Qed.

(** A negative offset panics on any data. *)
Lemma applyPagination_negative {A} (data : list A) offset limit :
  (offset < 0)%Z → ∃ m, applyPagination data offset limit = Panic m [].
Proof.
  intros Ho. unfold applyPagination.
  destruct (Z.leb_spec (Z.of_nat (length data)) offset); [lia|].
  destruct (Z.ltb_spec offset 0); [|lia]. cbn. eauto.
Qed.
