(* ===== verification/CacheStore.v ===== *)
(** * Cache storages

    The storage interface of plugins/cache/failover/storage.go as a class, its
    memory and file implementations, and what the interface promises to a
    client ([StorageLaws]).  A file storage owns its directory, a map from file
    names to files; [accessible] is whether the directory can be used.  The JSON
    coding of an entry is given by [marshal] and [unmarshal]. *)

From S2P Require Import Prelude StableSort.
From Stdlib Require Import Ascii.
Import GoError.

Record CacheEntry (V : Type) := MkEntry { Data : V; Timestamp : Z; TTL : Z }.
Arguments MkEntry {V}.
Arguments Data {V}.
Arguments Timestamp {V}.
Arguments TTL {V}.

Definition IsExpired {V} (now : Z) (ce : CacheEntry V) : bool :=
  (TTL ce <? GoTime.Sub now (Timestamp ce))%Z.

(** The interface.  Every operation that reads the clock gets the time. *)
Class Storage (V S : Type) := {
  st_Get : Z → string → S → S * option V;
  st_Set : Z → string → V → Z → S → S * option error;
  st_Delete : string → S → S * option error;
  st_Clear : S → S * option error;
  st_Keys : S → list string;
  st_HealthCheck : S → option error
}.

(** What a client relies on.  [view now s k] is what [Get] finds at [now]; the
    laws hold for the keys of [dom]. *)
Class StorageLaws (V S : Type) `{!Storage V S} (dom : string → Prop) (view : Z → S → string → option V) := {
  get_view now k s : dom k → (st_Get now k s).2 = view now s k;
  get_keeps now k s t k' : dom k → dom k' → (now <= t)%Z →
    view t (st_Get now k s).1 k' = view t s k';
  set_view now k v ttl s t k' : dom k → dom k' → (now <= t)%Z →
    (st_Set now k v ttl s).2 = None →
    view t (st_Set now k v ttl s).1 k' =
      if decide (k' = k) then if (GoTime.Sub t now <=? ttl)%Z then Some v else None
      else view t s k';
  set_fails now k v ttl s : (st_Set now k v ttl s).2 ≠ None → (st_Set now k v ttl s).1 = s;
  delete_view k s t k' : dom k → dom k' → st_HealthCheck s = None →
    view t (st_Delete k s).1 k' = if decide (k' = k) then None else view t s k';
  clear_view s t k : dom k → st_HealthCheck s = None → view t (st_Clear s).1 k = None;
  view_expires s t t' k : dom k → (t <= t')%Z → view t s k = None → view t' s k = None;
  health_get now k s : st_HealthCheck (st_Get now k s).1 = st_HealthCheck s;
  health_set now k v ttl s : st_HealthCheck (st_Set now k v ttl s).1 = st_HealthCheck s;
  health_delete k s : st_HealthCheck (st_Delete k s).1 = st_HealthCheck s;
  health_clear s : st_HealthCheck (st_Clear s).1 = st_HealthCheck s
}.

(** ** Suffixes *)

(** [strings.HasSuffix] and [strings.TrimSuffix]. *)
Definition HasSuffix (suffix name : string) : bool :=
  let n := String.length name - String.length suffix in
  bool_decide (String.length suffix ≤ String.length name) &&
  bool_decide (String.substring n (String.length suffix) name = suffix).

Definition TrimSuffix (suffix name : string) : string :=
  if HasSuffix suffix name then String.substring 0 (String.length name - String.length suffix) name
  else name.

Lemma length_append a b : String.length (a +:+ b) = String.length a + String.length b.
Proof. induction a as [|c a IH]; [done|exact (f_equal S IH)]. Qed.

Lemma substring_whole s : String.substring 0 (String.length s) s = s.
Proof. induction s as [|c s IH]; cbn; [done|]. by rewrite IH. Qed.

Lemma substring_suffix a s : String.substring (String.length a) (String.length s) (a +:+ s) = s.
Proof. induction a as [|c a IH]; cbn; [apply substring_whole|done]. Qed.

Lemma substring_prefix a s : String.substring 0 (String.length a) (a +:+ s) = a.
Proof. induction a as [|c a IH]; [by destruct s|exact (f_equal (String.String c) IH)]. Qed.

Lemma append_inj_r s a b : a +:+ s = b +:+ s → a = b.
Proof.
  intros Heq. pose proof (f_equal String.length Heq) as Hlen. rewrite !length_append in Hlen.
  transitivity (String.substring 0 (String.length a) (a +:+ s)); [by rewrite substring_prefix|].
  rewrite Heq. replace (String.length a) with (String.length b) by lia. apply substring_prefix.
Qed.

Lemma HasSuffix_app a s : HasSuffix s (a +:+ s) = true.
Proof.
  unfold HasSuffix. rewrite length_append, Nat.add_sub, substring_suffix.
  rewrite !bool_decide_eq_true_2; [done..|lia].
Qed.

Lemma TrimSuffix_app a s : TrimSuffix s (a +:+ s) = a.
Proof.
  unfold TrimSuffix. rewrite HasSuffix_app, length_append, Nat.add_sub. apply substring_prefix.
Qed.

Section Stores.
Context {V : Type}.
Notation CacheEntry := (CacheEntry V).

(** ** Memory *)

Record MemoryStorage := MkMemory { cache : gmap string CacheEntry }.

Definition NewMemoryStorage : MemoryStorage := MkMemory ∅.

Definition Mem_Get (now : Z) (key : string) (m : MemoryStorage) : MemoryStorage * option V :=
  match cache m !! key with
  | None => (m, None)
  | Some entry =>
      if IsExpired now entry then (MkMemory (delete key (cache m)), None)
      else (m, Some (Data entry))
  end.

Definition Mem_Set (now : Z) (key : string) (value : V) (ttl : Z) (m : MemoryStorage) :
    MemoryStorage * option error :=
  (MkMemory (<[key := MkEntry value now ttl]> (cache m)), None).

Definition Mem_Delete (key : string) (m : MemoryStorage) : MemoryStorage * option error :=
  (MkMemory (delete key (cache m)), None).

Definition Mem_Clear (m : MemoryStorage) : MemoryStorage * option error := (MkMemory ∅, None).

(** In an unspecified order. *)
Definition Mem_Keys (m : MemoryStorage) : list string := (map_to_list (cache m)).*1.

Definition Mem_HealthCheck (m : MemoryStorage) : option error := None.

#[export] Instance Mem_Storage : Storage V MemoryStorage := {|
  st_Get := Mem_Get; st_Set := Mem_Set; st_Delete := Mem_Delete; st_Clear := Mem_Clear;
  st_Keys := Mem_Keys; st_HealthCheck := Mem_HealthCheck
|}.

(** What an entry is worth at a time. *)
Definition live (now : Z) (e : option CacheEntry) : option V :=
  match e with
  | Some e => if IsExpired now e then None else Some (Data e)
  | None => None
  end.

Definition Mem_view (now : Z) (m : MemoryStorage) (k : string) : option V := live now (cache m !! k).

Lemma live_expires t t' e : (t <= t')%Z → live t e = None → live t' e = None.
Proof.
  destruct e as [e|]; cbn; [|done]. unfold IsExpired. intros Ht.
  pose proof (GoTime.Sub_mono t t' (Timestamp e) Ht).
  destruct (Z.ltb_spec (TTL e) (GoTime.Sub t (Timestamp e))); [|done].
  destruct (Z.ltb_spec (TTL e) (GoTime.Sub t' (Timestamp e))); [done|lia].
Qed.

Lemma live_fresh t now v ttl :
  live t (Some (MkEntry v now ttl)) = if (GoTime.Sub t now <=? ttl)%Z then Some v else None.
Proof.
  cbn. unfold IsExpired. cbn. destruct (Z.ltb_spec ttl (GoTime.Sub t now)),
    (Z.leb_spec (GoTime.Sub t now) ttl); (done || lia).
Qed.

#[export] Instance Mem_laws : StorageLaws V MemoryStorage (λ _, True) Mem_view.
Proof.
  split; cbn; try done.
  - intros now k s _. unfold Mem_Get, Mem_view, live. by repeat case_match.
  - intros now k s t k' _ _ Ht. unfold Mem_Get, Mem_view.
    destruct (cache s !! k) as [e|] eqn:He; [|done]. destruct (IsExpired now e) eqn:Hx; [|done].
    cbn. destruct (decide (k' = k)) as [->|Hne]; [|by rewrite lookup_delete_ne by done].
    rewrite lookup_delete_eq, He. symmetry. apply (live_expires now t); [done|]. cbn. by rewrite Hx.
  - intros now k v ttl s t k' _ _ Ht _. unfold Mem_view. cbn.
    case_decide as Hk; [subst; by rewrite lookup_insert_eq, live_fresh|].
    by rewrite lookup_insert_ne by done.
  - intros k s t k' _ _ _. unfold Mem_view. cbn.
    case_decide as Hk; [subst; by rewrite lookup_delete_eq|]. by rewrite lookup_delete_ne by done.
  - intros s t t' k _. apply live_expires.
Qed.

(** ** Files *)

Context {text : Type} (marshal : CacheEntry → result text) (unmarshal : text → option CacheEntry)
        (text_size : text → Z).

Record file := MkFile { content : text; modTime : Z }.

Record FileStorage := MkFileStorage {
  directory : string;
  fileSuffix : string;
  maxSize : Z;
  maxFiles : Z;
  accessible : bool;
  files : gmap string file
}.

Definition with_files (fs : gmap string file) (f : FileStorage) : FileStorage :=
  MkFileStorage (directory f) (fileSuffix f) (maxSize f) (maxFiles f) (accessible f) fs.

Definition ErrNotExist (op path : string) : error :=
  ErrorfW "%s %s: %w" [op; path] (Sentinel "fs.ErrNotExist").

Fixpoint replace_char (a b : ascii) (s : string) : string :=
  match s with
  | String.EmptyString => String.EmptyString
  | String.String c s => String.String (if decide (c = a) then b else c) (replace_char a b s)
  end.

Definition safeKey (key : string) : string :=
  replace_char ":"%char "_"%char (replace_char "/"%char "_"%char key).

(** The file of a key within the directory. *)
Definition getFilePath (f : FileStorage) (key : string) : string := safeKey key +:+ fileSuffix f.

Definition ReadFile (f : FileStorage) (name : string) : option text :=
  if accessible f then content <$> files f !! name else None.

Definition File_Get (now : Z) (key : string) (f : FileStorage) : FileStorage * option V :=
  let path := getFilePath f key in
  match ReadFile f path with
  | None => (f, None)
  | Some data =>
      match unmarshal data with
      | None => (f, None)
      | Some entry =>
          if IsExpired now entry then (with_files (delete path (files f)) f, None)
          else (f, Some (Data entry))
      end
  end.

Definition File_Set (now : Z) (key : string) (value : V) (ttl : Z) (f : FileStorage) :
    FileStorage * option error :=
  match marshal (MkEntry value now ttl) with
  | Err e => (f, Some (ErrorfW "failed to marshal cache entry: %w" [] e))
  | Ok data =>
      let path := getFilePath f key in
      if accessible f then (with_files (<[path := MkFile data now]> (files f)) f, None)
      else (f, Some (ErrNotExist "open" path))
  end.

(** [os.Remove] of a missing file is an error. *)
Definition File_Delete (key : string) (f : FileStorage) : FileStorage * option error :=
  let path := getFilePath f key in
  if accessible f && bool_decide (is_Some (files f !! path))
  then (with_files (delete path (files f)) f, None)
  else (f, Some (ErrNotExist "remove" path)).

Definition File_Clear (f : FileStorage) : FileStorage * option error :=
  if accessible f
  then (with_files (filter (λ p, HasSuffix (fileSuffix f) p.1 = false) (files f)) f, None)
  else (f, Some (ErrNotExist "open" (directory f))).

Definition File_Keys (f : FileStorage) : list string :=
  if accessible f
  then TrimSuffix (fileSuffix f) <$>
         filter (λ n, HasSuffix (fileSuffix f) n = true) (sortStrings (map_to_list (files f)).*1)
  else [].

Definition File_HealthCheck (f : FileStorage) : option error :=
  if accessible f then None else Some (ErrNotExist "stat" (directory f)).

#[export] Instance File_Storage : Storage V FileStorage := {|
  st_Get := File_Get; st_Set := File_Set; st_Delete := File_Delete; st_Clear := File_Clear;
  st_Keys := File_Keys; st_HealthCheck := File_HealthCheck
|}.

(** *** The laws *)

Definition File_view (now : Z) (f : FileStorage) (k : string) : option V :=
  live now (ReadFile f (getFilePath f k) ≫= unmarshal).

(** Keys that are their own file names: no slash and no colon. *)
Definition plain_key (k : string) : Prop := safeKey k = k.

Lemma getFilePath_inj f k k' :
  plain_key k → plain_key k' → getFilePath f k = getFilePath f k' → k = k'.
Proof. unfold plain_key, getFilePath. intros -> ->. apply append_inj_r. Qed.

Lemma ReadFile_insert f name name' x :
  accessible f = true →
  ReadFile (with_files (<[name := x]> (files f)) f) name' =
    if decide (name' = name) then Some (content x) else ReadFile f name'.
Proof.
  intros Hacc. unfold ReadFile. cbn. rewrite Hacc. case_decide as Hn.
  - subst. by rewrite lookup_insert_eq.
  - by rewrite lookup_insert_ne by done.
Qed.

Lemma ReadFile_delete f name name' :
  ReadFile (with_files (delete name (files f)) f) name' =
    if decide (name' = name) then None else ReadFile f name'.
Proof.
  unfold ReadFile. cbn. destruct (accessible f); [|by case_decide]. case_decide as Hn.
  - subst. by rewrite lookup_delete_eq.
  - by rewrite lookup_delete_ne by done.
Qed.

Lemma File_laws :
  (∀ e d, marshal e = Ok d → unmarshal d = Some e) →
  StorageLaws V FileStorage plain_key File_view.
Proof.
  intros Hjson. split; cbn.
  - intros now k f _. unfold File_Get, File_view. destruct (ReadFile f (getFilePath f k)) as [d|]; [|done].
    cbn. destruct (unmarshal d) as [e|]; [|done]. cbn. by destruct (IsExpired now e).
  - intros now k f t k' Hk Hk' Ht. unfold File_Get.
    destruct (ReadFile f (getFilePath f k)) as [d|] eqn:Hd; [|done].
    destruct (unmarshal d) as [e|] eqn:He; [|done]. destruct (IsExpired now e) eqn:Hx; [|done].
    cbn. unfold File_view. rewrite ReadFile_delete. unfold getFilePath at 1 2. cbn.
    case_decide as Hp; [|done].
    apply (getFilePath_inj f k' k) in Hp; [|done..]. subst k'. rewrite Hd. cbn. rewrite He.
    symmetry. apply (live_expires now t); [done|]. cbn. by rewrite Hx.
  - intros now k v ttl f t k' Hk Hk' Ht. unfold File_Set.
    destruct (marshal (MkEntry v now ttl)) as [d|e] eqn:Hd; [|done].
    destruct (accessible f) eqn:Hacc; [|done]. cbn. intros _. unfold File_view.
    rewrite ReadFile_insert by done. unfold getFilePath at 1. cbn.
    destruct (decide (k' = k)) as [->|Hne].
    + rewrite decide_True by done. cbn. rewrite (Hjson _ _ Hd). apply live_fresh.
    + rewrite decide_False; [done|]. intros Hp. apply Hne. by apply (getFilePath_inj f).
  - intros now k v ttl f. unfold File_Set. by repeat case_match.
  - intros k f t k' Hk Hk'. unfold File_HealthCheck, File_Delete.
    destruct (accessible f) eqn:Hacc; [|done]. intros _. cbn.
    destruct (decide (k' = k)) as [->|Hne].
    + unfold File_view. case_bool_decide as Hsome; cbn.
      * rewrite ReadFile_delete. unfold getFilePath at 1. cbn. by rewrite decide_True.
      * unfold ReadFile. rewrite Hacc. apply eq_None_not_Some in Hsome. by rewrite Hsome.
    + case_bool_decide as Hsome; [|done]. cbn. unfold File_view. rewrite ReadFile_delete.
      unfold getFilePath at 1. cbn. rewrite decide_False; [done|].
      intros Hp. apply Hne. by apply (getFilePath_inj f).
  - intros f t k _. unfold File_HealthCheck, File_Clear. destruct (accessible f) eqn:Hacc; [|done].
    intros _. unfold File_view, ReadFile, getFilePath. cbn. rewrite Hacc.
    rewrite map_lookup_filter_None_2; [done|]. right. intros x _. cbn. by rewrite HasSuffix_app.
  - intros f t t' k _. apply live_expires.
  - intros now k f. unfold File_Get. repeat case_match; done.
  - intros now k v ttl f. unfold File_Set. by repeat case_match.
  - intros k f. unfold File_Delete. by repeat case_match.
  - intros f. unfold File_Clear. by repeat case_match.
Qed.

(** ** Cleaning up files *)

Record fileInfo := MkInfo { fi_name : string; fi_size : Z; fi_modTime : Z; fi_expired : bool }.

Definition file_info (now : Z) (p : string * file) : fileInfo :=
  MkInfo p.1 (text_size (content p.2)) (modTime p.2)
    (match unmarshal (content p.2) with Some entry => IsExpired now entry | None => false end).

Definition older (a b : fileInfo) : bool := GoTime.Before (fi_modTime a) (fi_modTime b).

(** The first loop: expired files go. *)
Definition remove_expired (infos : list fileInfo) (fs : gmap string file) (total : Z) :
    gmap string file * Z :=
  fold_left (λ (st : gmap string file * Z) i,
    if fi_expired i then (delete (fi_name i) st.1, (st.2 - fi_size i)%Z) else st) infos (fs, total).

(** The second loop: [n] files are counted when file [infos] is the next. *)
Fixpoint remove_oldest (maxSize maxFiles : Z) (infos : list fileInfo) (n : Z) (fs : gmap string file)
    (total : Z) : gmap string file :=
  match infos with
  | [] => fs
  | i :: infos =>
      if (total <=? maxSize)%Z && (n <=? maxFiles)%Z then fs
      else remove_oldest maxSize maxFiles infos (n - 1)%Z (delete (fi_name i) fs) (total - fi_size i)%Z
  end.

(** [dir] is the order of the directory's entries. *)
Definition File_cleanup (now : Z) (dir : list (string * file)) (f : FileStorage) : FileStorage :=
  if accessible f then
    let infos := file_info now <$> filter (λ p, HasSuffix (fileSuffix f) p.1 = true) dir in
    let totalSize := foldr Z.add 0%Z (fi_size <$> infos) in
    let '(fs, total) := remove_expired infos (files f) totalSize in
    let n := Z.of_nat (length infos) in
    if (maxSize f <? total)%Z || (maxFiles f <? n)%Z
    then with_files (remove_oldest (maxSize f) (maxFiles f) (sortSliceStable older infos) n fs total) f
    else with_files fs f
  else f.

(** *** What cleaning up leaves *)

Definition sizes (infos : list fileInfo) : Z := foldr Z.add 0%Z (fi_size <$> infos).

Definition within (f : FileStorage) (infos : list fileInfo) : Prop :=
  (sizes infos <= maxSize f)%Z ∧ (Z.of_nat (length infos) <= maxFiles f)%Z.

Definition delete_names (ns : list string) (fs : gmap string file) : gmap string file :=
  fold_left (λ fs n, delete n fs) ns fs.

Lemma lookup_delete_names ns fs n :
  delete_names ns fs !! n = if decide (n ∈ ns) then None else fs !! n.
Proof.
  revert fs. induction ns as [|m ns IH]; intros fs; cbn; [done|]. fold (delete_names ns (delete m fs)).
  rewrite IH. destruct (decide (n = m)) as [->|Hne].
  - rewrite (decide_True (P := m ∈ m :: ns)) by (by left). rewrite lookup_delete_eq. by case_decide.
  - rewrite lookup_delete_ne by done. apply decide_ext. rewrite elem_of_cons. naive_solver.
Qed.

Lemma remove_oldest_spec f infos fs :
  (0 <= maxSize f)%Z → (0 <= maxFiles f)%Z →
  ∃ k, k ≤ length infos ∧
    remove_oldest (maxSize f) (maxFiles f) infos (Z.of_nat (length infos)) fs (sizes infos) =
      delete_names (fi_name <$> take k infos) fs ∧
    within f (drop k infos) ∧ ∀ j, j < k → ¬ within f (drop j infos).
Proof.
  intros Hs Hf. revert fs. induction infos as [|i infos IH]; intros fs.
  { exists 0. cbn. split_and!; [lia|done| |intros; lia]. split; cbn; lia. }
  cbn [remove_oldest].
  destruct (Z.leb_spec (sizes (i :: infos)) (maxSize f)),
    (Z.leb_spec (Z.of_nat (length (i :: infos))) (maxFiles f)); cbn [andb].
  1: { exists 0. cbn. split_and!; [lia|done|done|intros; lia]. }
  all: replace (Z.of_nat (length (i :: infos)) - 1)%Z with (Z.of_nat (length infos)) by (cbn; lia).
  all: replace (sizes (i :: infos) - fi_size i)%Z with (sizes infos)
         by (change (sizes (i :: infos)) with (fi_size i + sizes infos)%Z; lia).
  all: destruct (IH (delete (fi_name i) fs)) as (k & Hk & -> & Hw & Hmin).
  all: exists (S k); cbn; split_and!; [lia|done|done|]; intros [|j] Hj; [|apply Hmin; lia].
  all: unfold within; cbn -[sizes] in *; lia.
Qed.

Lemma remove_expired_lookup infos fs total n x :
  (remove_expired infos fs total).1 !! n = Some x →
  fs !! n = Some x ∧ ∀ i, i ∈ infos → fi_name i = n → fi_expired i = false.
Proof.
  unfold remove_expired. revert fs total. induction infos as [|i infos IH]; intros fs total; cbn.
  { intros Hx. split; [done|]. by inversion 1. }
  destruct (fi_expired i) eqn:Hi; intros Hx; apply IH in Hx as [Hx Hrest]; cbn in Hx.
  - apply lookup_delete_Some in Hx as [Hne Hx]. split; [done|].
    intros j [->|Hj]%elem_of_cons Hn; [done|by apply Hrest].
  - split; [done|]. intros j [->|Hj]%elem_of_cons Hn; [done|by apply Hrest].
Qed.

Lemma remove_expired_none infos fs total :
  Forall (λ i, fi_expired i = false) infos → remove_expired infos fs total = (fs, total).
Proof. unfold remove_expired. induction 1 as [|i infos Hi _ IH]; cbn; [done|]. by rewrite Hi. Qed.

Lemma remove_oldest_subset ms mf infos n fs total : remove_oldest ms mf infos n fs total ⊆ fs.
Proof.
  revert n fs total. induction infos as [|i infos IH]; intros n fs total; cbn; [done|].
  destruct (_ && _); [done|]. etransitivity; [apply IH|]. apply delete_subseteq.
Qed.

Lemma sizes_perm infos infos' : infos ≡ₚ infos' → sizes infos = sizes infos'.
Proof. unfold sizes. induction 1; cbn in *; lia. Qed.

(** Cleaning up removes every expired file of the storage.  When none has
    expired it brings the storage within its limits by removing the oldest
    files, and no more of them than needed. *)
Theorem file_cleanup_enforces_limits now dir f :
  accessible f = true → dir ≡ₚ map_to_list (files f) →
  (0 <= maxSize f)%Z → (0 <= maxFiles f)%Z →
  let f' := File_cleanup now dir f in
  let infos := file_info now <$> filter (λ p, HasSuffix (fileSuffix f) p.1 = true) dir in
  (∀ n x, files f' !! n = Some x → HasSuffix (fileSuffix f) n = true →
     files f !! n = Some x ∧ fi_expired (file_info now (n, x)) = false) ∧
  (Forall (λ i, fi_expired i = false) infos →
   ∃ k, let sorted := sortSliceStable older infos in
     files f' = delete_names (fi_name <$> take k sorted) (files f) ∧
     within f (drop k sorted) ∧ ∀ j, j < k → ¬ within f (drop j sorted)).
Proof.
  intros Hacc Hdir Hs Hf f' infos. split.
  - intros n x Hx Hsuf.
    assert ((remove_expired infos (files f) (sizes infos)).1 !! n = Some x) as Hx'.
    { revert Hx. unfold f', File_cleanup. rewrite Hacc. fold infos. fold (sizes infos).
      destruct (remove_expired infos (files f) (sizes infos)) as [fs total]. cbn.
      destruct (_ || _); cbn; [|done]. intros Hx. by eapply lookup_weaken, remove_oldest_subset. }
    apply remove_expired_lookup in Hx' as [Hin Hexp]. split; [done|]. apply Hexp; [|done].
    apply list_elem_of_fmap. exists (n, x). split; [done|]. apply list_elem_of_filter.
    split; [done|]. rewrite Hdir. by apply elem_of_map_to_list.
  - intros Hnone. unfold f', File_cleanup. rewrite Hacc. fold infos. fold (sizes infos).
    rewrite remove_expired_none by done. set (sorted := sortSliceStable older infos).
    assert (sorted ≡ₚ infos) as HP by apply sortSliceStable_perm.
    rewrite <-(sizes_perm _ _ HP), <-(Permutation_length HP).
    destruct (_ || _) eqn:Hover; cbn.
    + destruct (remove_oldest_spec f sorted (files f) Hs Hf) as (k & _ & Heq & Hw & Hmin).
      by exists k.
    + exists 0. apply orb_false_iff in Hover as [H1%Z.ltb_ge H2%Z.ltb_ge].
      rewrite drop_0. split; [done|]. split; [by split|]. intros; lia.
Qed.

End Stores.
Arguments MemoryStorage : clear implicits.
Arguments FileStorage : clear implicits.

(** ** What the file storage does not handle *)

(** A codec that keeps entries, each with a size. *)
Definition ex_marshal (e : CacheEntry Z) : result (CacheEntry Z) := Ok e.
Definition ex_size (e : CacheEntry Z) : Z := Data e.

Definition ex_files (limit : Z) (l : list (string * CacheEntry Z)) : FileStorage (CacheEntry Z) :=
  MkFileStorage "/tmp/failover_cache" ".failover" limit 100 true
    (list_to_map ((λ p, (p.1 +:+ ".failover", MkFile p.2 (Timestamp p.2))) <$> l)).

(** The cleanup with an expired file among three: the expired file is counted
    twice, once in each loop, and the storage stays above its limit of 15. *)
Theorem cleanup_counts_expired_twice :
  let f := ex_files 15 [("a", MkEntry 10 0 5); ("b", MkEntry 10 1 100); ("c", MkEntry 10 2 100)]%Z in
  let f' := File_cleanup Some ex_size 50 (map_to_list (files f)) f in
  (map_to_list (files f')).*1 ≡ₚ ["b.failover"; "c.failover"] ∧
  (15 < foldr Z.add 0 ((λ p, ex_size (content p.2)) <$> map_to_list (files f')))%Z.
Proof. vm_compute. split; [|done]. repeat constructor. Qed.

(** Two keys that differ in a slash and an underscore share a file. *)
Theorem file_keys_collide :
  let f := ex_files 1000 [] in
  let f := (File_Set ex_marshal 0 "user/1" 7%Z 60 f).1 in
  (File_Get Some 1 "user_1" f).2 = Some 7%Z.
Proof. vm_compute. reflexivity. Qed.

(** Deleting a key that is not there is an error. *)
Theorem delete_missing_fails :
  is_Some (File_Delete "a" (ex_files 1000 [])).2.
Proof. vm_compute. eauto. Qed.
