(* ===== verification/Failover.v ===== *)
(** * plugins/cache/failover/failover.go: the failover cache

    Up to three storages behind the interface of [CacheStore]; reads fall
    through to the next healthy storage and restore what they find there.
    The clock is read once per call.  The error of an operation names the
    storages that failed. *)

From S2P Require Import Prelude CacheStore.
Import GoError.

Section Failover.
Context {V S : Type} `{!Storage V S}.

Record FailoverCache := MkFailover {
  primary : option S;
  secondary : option S;
  tertiary : option S;
  maxRetries : Z;
  retryDelay : Z;
  healthCheckInterval : Z;
  ticking : bool;
  healthStatus : gmap string bool
}.

Inductive slot := Primary | Secondary | Tertiary.

Definition slot_name (i : slot) : string :=
  match i with Primary => "primary" | Secondary => "secondary" | Tertiary => "tertiary" end.

Definition storage (i : slot) (fc : FailoverCache) : option S :=
  match i with Primary => primary fc | Secondary => secondary fc | Tertiary => tertiary fc end.

Definition with_storages (p s t : option S) (fc : FailoverCache) : FailoverCache :=
  MkFailover p s t (maxRetries fc) (retryDelay fc) (healthCheckInterval fc) (ticking fc) (healthStatus fc).

Definition isHealthy (name : string) (fc : FailoverCache) : bool := default false (healthStatus fc !! name).

(** [storage != nil && storage.HealthCheck() == nil]. *)
Definition check (st : option S) : bool :=
  match st with Some s => bool_decide (st_HealthCheck s = None) | None => false end.

Definition updateHealthStatus (fc : FailoverCache) : FailoverCache :=
  MkFailover (primary fc) (secondary fc) (tertiary fc) (maxRetries fc) (retryDelay fc)
    (healthCheckInterval fc) (ticking fc)
    (<["tertiary" := check (tertiary fc)]>
      (<["secondary" := check (secondary fc)]>
        (<["primary" := check (primary fc)]> (healthStatus fc)))).

Definition NewFailoverCache (p s t : option S) (retries delay interval : Z) : FailoverCache :=
  updateHealthStatus (MkFailover p s t retries delay interval (0 <? interval)%Z ∅).

Definition Stop (fc : FailoverCache) : FailoverCache :=
  MkFailover (primary fc) (secondary fc) (tertiary fc) (maxRetries fc) (retryDelay fc)
    (healthCheckInterval fc) false (healthStatus fc).

(** [if cond && st != nil { st.op() }] *)
Definition try {A} (cond : bool) (st : option S) (op : S → S * A) : option S * option A :=
  match st with
  | Some s => if cond then let '(s, a) := op s in (Some s, Some a) else (Some s, None)
  | None => (None, None)
  end.

Definition restoreTTL : Z := (5 * GoTime.Minute)%Z.

Definition Get (now : Z) (key : string) (fc : FailoverCache) : FailoverCache * option V :=
  let up i := isHealthy (slot_name i) fc in
  let '(p, r) := try (up Primary) (primary fc) (st_Get now key) in
  match r with
  | Some (Some v) => (with_storages p (secondary fc) (tertiary fc) fc, Some v)
  | _ =>
      let '(s, r) := try (up Secondary) (secondary fc) (st_Get now key) in
      match r with
      | Some (Some v) =>
          let '(p, _) := try (up Primary) p (st_Set now key v restoreTTL) in
          (with_storages p s (tertiary fc) fc, Some v)
      | _ =>
          let '(t, r) := try (up Tertiary) (tertiary fc) (st_Get now key) in
          match r with
          | Some (Some v) =>
              let '(p, _) := try (up Primary) p (st_Set now key v restoreTTL) in
              let '(s, _) := try (up Secondary) s (st_Set now key v restoreTTL) in
              (with_storages p s t fc, Some v)
          | _ => (with_storages p s t fc, None)
          end
      end
  end.

(** The names of the storages whose call returned an error. *)
Definition failed (i : slot) (r : option (option error)) : list string :=
  match r with Some (Some _) => [slot_name i] | _ => [] end.

Definition report (format : string) (names : list string) : option error :=
  match names with [] => None | _ => Some (Errorf format names) end.

(** The shape of [Set], [Delete] and [Clear]: one call per storage that
    satisfies [cond], then the collected errors. *)
Definition each (cond : slot → bool) (op : S → S * option error) (format : string) (fc : FailoverCache) :
    FailoverCache * option error :=
  let '(p, rp) := try (cond Primary) (primary fc) op in
  let '(s, rs) := try (cond Secondary) (secondary fc) op in
  let '(t, rt) := try (cond Tertiary) (tertiary fc) op in
  (with_storages p s t fc, report format (failed Primary rp ++ failed Secondary rs ++ failed Tertiary rt)).

Definition Set_ (now : Z) (key : string) (value : V) (ttl : Z) (fc : FailoverCache) :
    FailoverCache * option error :=
  each (λ i, isHealthy (slot_name i) fc) (st_Set now key value ttl) "failover set errors: %v" fc.

Definition Delete (key : string) (fc : FailoverCache) : FailoverCache * option error :=
  each (λ _, true) (st_Delete key) "failover delete errors: %v" fc.

Definition Clear (fc : FailoverCache) : FailoverCache * option error :=
  each (λ _, true) st_Clear "failover clear errors: %v" fc.

(** A storage that may be used. *)
Definition usable (i : slot) (fc : FailoverCache) : option S :=
  if isHealthy (slot_name i) fc then storage i fc else None.

Definition Keys (fc : FailoverCache) : list string :=
  match usable Primary fc with
  | Some p => st_Keys p
  | None =>
      match usable Secondary fc with
      | Some s => st_Keys s
      | None => match usable Tertiary fc with Some t => st_Keys t | None => [] end
      end
  end.

Definition GetStorageStatus (fc : FailoverCache) : gmap string bool := healthStatus fc.

(** What the health-check goroutine does at a tick. *)
Definition health_tick (fc : FailoverCache) : FailoverCache :=
  if ticking fc then updateHealthStatus fc else fc.

End Failover.
Arguments FailoverCache : clear implicits.

(** ** The failover cache serves the latest value

    Proved against the laws of the storage interface, and applied to a cache of
    memory and file storages. *)

Section Props.
Context {V S : Type} `{!Storage V S} {dom : string → Prop} {view : Z → S → string → option V}.
Context `{!StorageLaws V S dom view}.
Notation FailoverCache := (FailoverCache S).

(** What has been stored and not deleted: value, time and time-to-live. *)
Notation stored := (gmap string (V * Z * Z)).

(** Of the keys of [P], a storage has no value that is not the latest. *)
Definition clean (now : Z) (sp : stored) (P : string → Prop) (s : S) : Prop :=
  ∀ t k v, (now <= t)%Z → dom k → P k → view t s k = Some v → ∃ t0 ttl, sp !! k = Some (v, t0, ttl).

(** Of the keys of [P], a storage has every value that has not expired. *)
Definition full (now : Z) (sp : stored) (P : string → Prop) (s : S) : Prop :=
  ∀ t k v t0 ttl, (now <= t)%Z → dom k → P k → sp !! k = Some (v, t0, ttl) →
    (GoTime.Sub t t0 <= ttl)%Z → view t s k = Some v.

Implicit Types (P Q : string → Prop).

Lemma clean_get now sp P s k : dom k → clean now sp P s → clean now sp P (st_Get now k s).1.
Proof. intros Hk Hc t k' v Ht Hk'. rewrite get_keeps by done. by apply Hc. Qed.

Lemma full_get now sp P s k : dom k → full now sp P s → full now sp P (st_Get now k s).1.
Proof. intros Hk Hf t k' v t0 ttl Ht Hk'. rewrite get_keeps by done. by apply Hf. Qed.

Lemma clean_restore now sp P s k v ttl :
  dom k → (P k → ∃ t0 ttl0, sp !! k = Some (v, t0, ttl0)) → clean now sp P s → clean now sp P (st_Set now k v ttl s).1.
Proof.
  intros Hk Hsp Hc. destruct (st_Set now k v ttl s).2 eqn:He.
  { rewrite set_fails; [done|congruence]. }
  intros t k' v' Ht Hk' HP. rewrite set_view by done. case_decide as Heq; [|by apply Hc].
  subst. destruct (_ <=? _)%Z; [|done]. intros [= <-]. auto.
Qed.

Lemma full_restore now sp P s k v ttl :
  dom k → view now s k = None → full now sp P s → full now sp P (st_Set now k v ttl s).1.
Proof.
  intros Hk Hmiss Hf. destruct (st_Set now k v ttl s).2 eqn:He.
  { rewrite set_fails; [done|congruence]. }
  intros t k' v' t0 ttl0 Ht Hk' HP Hsp Hlive. rewrite set_view by done.
  case_decide as Heq; [|by eapply Hf]. subst k'. exfalso.
  pose proof (GoTime.Sub_mono now t t0 Ht).
  rewrite (Hf now k v' t0 ttl0) in Hmiss; [done|lia|done..|lia].
Qed.

Lemma clean_set now sp P Q s k v ttl :
  dom k → (st_Set now k v ttl s).2 = None → (∀ k', k' ≠ k → Q k' → P k') → clean now sp P s →
  clean now (<[k := (v, now, ttl)]> sp) Q (st_Set now k v ttl s).1.
Proof.
  intros Hk He HQ Hc t k' v' Ht Hk' HP. rewrite set_view by done. case_decide as Heq.
  - subst. destruct (_ <=? _)%Z; [|done]. intros [= <-]. rewrite lookup_insert_eq. eauto.
  - rewrite lookup_insert_ne by done. apply Hc; auto.
Qed.

Lemma full_set now sp P Q s k v ttl :
  dom k → (st_Set now k v ttl s).2 = None → (∀ k', k' ≠ k → Q k' → P k') → full now sp P s →
  full now (<[k := (v, now, ttl)]> sp) Q (st_Set now k v ttl s).1.
Proof.
  intros Hk He HQ Hf t k' v' t0 ttl0 Ht Hk' HP Hsp Hlive. rewrite set_view by done. case_decide as Heq.
  - subst. rewrite lookup_insert_eq in Hsp. simplify_eq. by rewrite (proj2 (Z.leb_le _ _)).
  - rewrite lookup_insert_ne in Hsp by done. eapply Hf; eauto.
Qed.

(** Whatever [Set] did to its key, it did nothing to the others. *)
Lemma set_others now k v ttl s t k' :
  dom k → dom k' → (now <= t)%Z → k' ≠ k → view t (st_Set now k v ttl s).1 k' = view t s k'.
Proof.
  intros Hk Hk' Ht Hne. destruct (st_Set now k v ttl s).2 eqn:He; [by rewrite set_fails by congruence|].
  rewrite set_view by done. by rewrite decide_False.
Qed.

Lemma clean_delete now sp P Q s k :
  dom k → st_HealthCheck s = None → (∀ k', k' ≠ k → Q k' → P k') → clean now sp P s →
  clean now (delete k sp) Q (st_Delete k s).1.
Proof.
  intros Hk Hh HQ Hc t k' v Ht Hk' HP. rewrite delete_view by done. case_decide; [done|].
  rewrite lookup_delete_ne by done. apply Hc; auto.
Qed.

Lemma full_delete now sp P Q s k :
  dom k → st_HealthCheck s = None → (∀ k', k' ≠ k → Q k' → P k') → full now sp P s →
  full now (delete k sp) Q (st_Delete k s).1.
Proof.
  intros Hk Hh HQ Hf t k' v t0 ttl Ht Hk' HP [Hne Hsp]%lookup_delete_Some Hl. rewrite delete_view by done.
  rewrite decide_False by done. eapply Hf; eauto.
Qed.

Lemma clean_empty now P s : (∀ t k, dom k → P k → view t s k = None) → clean now ∅ P s ∧ ∀ Q, full now ∅ Q s.
Proof.
  intros Hv. split.
  - intros t k v _ Hk HP. by rewrite Hv.
  - intros Q t k v t0 ttl _ _ _. by rewrite lookup_empty.
Qed.

Lemma storage_clean_weaken now now' sp P Q s :
  (now <= now')%Z → (∀ k, Q k → P k) → clean now sp P s → clean now' sp Q s.
Proof. intros Hle HQ Hc t k v Ht Hk HP. apply Hc; [lia|done|auto]. Qed.

Lemma full_weaken now now' sp P Q s :
  (now <= now')%Z → (∀ k, Q k → P k) → full now sp P s → full now' sp Q s.
Proof. intros Hle HQ Hf t k v t0 ttl Ht Hk HP. apply Hf; [lia|done|auto]. Qed.

(** ** Histories *)

(** What a history says of the storages, by the calls alone.  A storage is in step
    for a key if it was in use at the last change of the key, so that it did not
    miss it, and no old value was copied to it since; it kept the key if it was in
    use when its value was stored and has not lost it since; [was] is the storage as
    it was when it was last in use. *)
Record ghost := MkGhost {
  latest : stored;
  in_step : slot → string → Prop;
  kept : slot → string → Prop;
  was : slot → option S
}.

Definition in_use (fc : FailoverCache) (i : slot) : Prop := is_Some (usable i fc).

(** The storage if it is in use, else what it was when it was. *)
Definition last_state (fc : FailoverCache) (g : ghost) (i : slot) : option S :=
  match usable i fc with Some s => Some s | None => was g i end.

(** A history of calls.  Between two health checks a storage changes only by these
    calls.  At a check it may be found down, or back: then it has of the values that
    it had when it was last in use all or some (a directory that is mounted again, a
    server that was restarted), old ones among them. *)
Inductive history : Z → FailoverCache → ghost → Prop :=
| h_new now p s t retries delay interval fresh :
    let fc := NewFailoverCache p s t retries delay interval in
    (∀ i st t k, usable i fc = Some st → fresh i k → dom k → view t st k = None) →
    history now fc (MkGhost ∅ (λ i k, in_use fc i ∧ fresh i k) (λ _ _, False) (λ _, None))
| h_time now now' fc g : history now fc g → (now <= now')%Z → history now' fc g
| h_get now fc g k : history now fc g → dom k →
    (* the value that is found is copied to others: old, if one in use is not in step *)
    history now (Get now k fc).1
      (MkGhost (latest g) (λ i k', in_step g i k' ∧ (k' = k → ∀ j, in_use fc j → in_step g j k)) (kept g) (was g))
| h_set now fc g k v ttl :
    history now fc g → dom k → (Set_ now k v ttl fc).2 = None →
    history now (Set_ now k v ttl fc).1
      (MkGhost (<[k := (v, now, ttl)]> (latest g)) (λ i k', if decide (k' = k) then in_use fc i else in_step g i k')
         (λ i k', if decide (k' = k) then in_use fc i else kept g i k') (was g))
| h_set_failed now fc g k v ttl :
    (* some storages may have the value and others not *)
    history now fc g → dom k → (Set_ now k v ttl fc).2 ≠ None →
    history now (Set_ now k v ttl fc).1
      (MkGhost (latest g) (λ i k', k' ≠ k ∧ in_step g i k') (kept g) (was g))
| h_delete now fc g k :
    history now fc g → dom k →
    history now (Delete k fc).1
      (MkGhost (delete k (latest g)) (λ i k', if decide (k' = k) then in_use fc i else in_step g i k') (kept g) (was g))
| h_clear now fc g : history now fc g →
    history now (Clear fc).1 (MkGhost ∅ (λ i _, in_use fc i) (kept g) (was g))
| h_check now fc g p s t :
    history now fc g →
    let fc' := updateHealthStatus (with_storages p s t fc) in
    (∀ i st t k v, usable i fc' = Some st → (now <= t)%Z → dom k → view t st k = Some v →
       ∃ s0, last_state fc g i = Some s0 ∧ view t s0 k = Some v) →
    history now fc'
      (MkGhost (latest g) (in_step g)
         (λ i k, kept g i k ∧ ∀ st s0 t, usable i fc' = Some st → last_state fc g i = Some s0 → (now <= t)%Z →
                   view t st k = view t s0 k)
         (last_state fc g)).

Definition ok (now : Z) (sp : stored) (P Q : string → Prop) (s : S) : Prop :=
  clean now sp P s ∧ full now sp (λ k, Q k ∧ P k) s.

Definition inv (now : Z) (fc : FailoverCache) (g : ghost) : Prop :=
  (∀ i s, usable i fc = Some s → st_HealthCheck s = None) ∧
  (∀ i s, last_state fc g i = Some s → ok now (latest g) (in_step g i) (kept g i) s) ∧
  (∀ i k, in_step g i k ∨ kept g i k → is_Some (last_state fc g i)).

Lemma update_healthy i (fc : FailoverCache) s : usable i (updateHealthStatus fc) = Some s → st_HealthCheck s = None.
Proof.
  unfold usable, isHealthy, updateHealthStatus, check. destruct i; cbn; simplify_map_eq; cbn.
  - destruct (primary fc) as [x|]; [|done]. case_bool_decide; [|done]. by intros [= <-].
  - destruct (secondary fc) as [x|]; [|done]. case_bool_decide; [|done]. by intros [= <-].
  - destruct (tertiary fc) as [x|]; [|done]. case_bool_decide; [|done]. by intros [= <-].
Qed.

Lemma try_some {A} cond (st : option S) (op : S → S * A) s :
  (try cond st op).1 = Some s → cond = true → ∃ s0, st = Some s0 ∧ s = (op s0).1 ∧ (try cond st op).2 = Some (op s0).2.
Proof.
  destruct st as [s0|]; cbn; [|done]. destruct cond; [|done]. destruct (op s0) as [s1 a] eqn:He.
  cbn. intros [= <-] _. exists s0. by rewrite He.
Qed.

Lemma each_usable cond (op : S → S * option error) fmt (fc : FailoverCache) i s :
  (∀ j, isHealthy (slot_name j) fc = true → cond j = true) →
  usable i (each cond op fmt fc).1 = Some s →
  ∃ s0, usable i fc = Some s0 ∧ s = (op s0).1 ∧
        ((each cond op fmt fc).2 = None → (op s0).2 = None).
Proof.
  intros Hc. unfold usable, each, isHealthy.
  pose proof (try_some (cond i) (storage i fc) op s) as Htry.
  destruct (try (cond Primary) (primary fc) op) as [p rp] eqn:Hp,
    (try (cond Secondary) (secondary fc) op) as [x rs] eqn:Hs,
    (try (cond Tertiary) (tertiary fc) op) as [t rt] eqn:Ht. cbn.
  fold (isHealthy (slot_name i) fc). destruct (isHealthy (slot_name i) fc) eqn:Hi; [|done].
  intros Hst. specialize (Hc i Hi). destruct i; cbn in *; rewrite ?Hp, ?Hs, ?Ht in Htry; cbn in Htry.
  all: destruct (Htry Hst Hc) as (s0 & Hs0 & -> & Hr); exists s0; split_and!; [done..|].
  all: rewrite Hr; cbn; destruct (op s0).2; [|done]; cbn; destruct (failed Primary rp) eqn:?, (failed Secondary rs); done.
Qed.

Lemma each_is_some cond (op : S → S * option error) fmt (fc : FailoverCache) i :
  is_Some (usable i fc) → is_Some (usable i (each cond op fmt fc).1).
Proof.
  unfold usable, each, isHealthy.
  destruct (try (cond Primary) (primary fc) op) as [p rp] eqn:Hp,
    (try (cond Secondary) (secondary fc) op) as [x rs] eqn:Hs,
    (try (cond Tertiary) (tertiary fc) op) as [t rt] eqn:Ht. cbn.
  fold (isHealthy (slot_name i) fc). destruct (isHealthy (slot_name i) fc); [|done].
  unfold try in *. destruct i; cbn.
  - destruct (primary fc); [|by inversion 1]. intros _. repeat case_match; simplify_eq; eauto.
  - destruct (secondary fc); [|by inversion 1]. intros _. repeat case_match; simplify_eq; eauto.
  - destruct (tertiary fc); [|by inversion 1]. intros _. repeat case_match; simplify_eq; eauto.
Qed.

(** *** Reading *)

(** What [try] leaves of a storage that may be used only when healthy. *)
Definition slot_ok now sp P Q (up : bool) (st : option S) : Prop :=
  up = true → ∀ s, st = Some s → st_HealthCheck s = None ∧ ok now sp P Q s.

Lemma try_get_ok now sp P Q up st k st' r :
  dom k → slot_ok now sp P Q up st → try up st (st_Get now k) = (st', r) →
  slot_ok now sp P Q up st' ∧
  (up = true → is_Some st → is_Some st') ∧
  (∀ v, r = Some (Some v) → up = true ∧ is_Some st ∧ (P k → ∃ t0 ttl, sp !! k = Some (v, t0, ttl))) ∧
  ((∀ v, r ≠ Some (Some v)) → up = true → ∀ s, st' = Some s → view now s k = None).
Proof.
  intros Hk Hok. unfold try. destruct st as [s|]; [|intros [= <- <-]; naive_solver].
  destruct up; [|intros [= <- <-]; split_and!; [done|eauto|done|done]].
  destruct (Hok eq_refl s eq_refl) as (Hh & Hc & Hf).
  pose proof (get_view now k s Hk) as Hv. pose proof (get_keeps now k s now k Hk Hk) as Hkeep.
  pose proof (health_get now k s) as Hhg. pose proof (clean_get now sp P s k Hk Hc) as Hcg.
  pose proof (full_get now sp _ s k Hk Hf) as Hfg.
  destruct (st_Get now k s) as [s' a]. cbn in *. intros [= <- <-]. split_and!.
  - intros _ s1 [= <-]. split; [congruence|]. by split.
  - eauto.
  - intros v [= ->]. split; [done|]. split; [eauto|]. intros HP. apply (Hc now k v); [lia|done..].
  - intros Hne _ s1 [= <-]. rewrite Hkeep by lia. rewrite <-Hv.
    destruct a as [v|]; [|done]. by destruct (Hne v).
Qed.

Lemma try_restore_ok now sp P Q up st k v ttl st' r :
  dom k → (up = true → is_Some st → P k → ∃ t0 ttl0, sp !! k = Some (v, t0, ttl0)) → slot_ok now sp P Q up st →
  (up = true → ∀ s, st = Some s → view now s k = None) →
  try up st (st_Set now k v ttl) = (st', r) →
  slot_ok now sp P Q up st' ∧ (up = true → is_Some st → is_Some st').
Proof.
  intros Hk Hsp Hok Hmiss. unfold try. destruct st as [s|]; [|intros [= <- <-]; naive_solver].
  destruct up; [|intros [= <- <-]; split; [done|eauto]].
  destruct (Hok eq_refl s eq_refl) as (Hh & Hc & Hf).
  pose proof (health_set now k v ttl s) as Hhs.
  pose proof (clean_restore now sp P s k v ttl Hk (Hsp eq_refl ltac:(eauto)) Hc) as Hcs.
  pose proof (full_restore now sp _ s k v ttl Hk (Hmiss eq_refl s eq_refl) Hf) as Hfs.
  destruct (st_Set now k v ttl s) as [s' a]. cbn in *. intros [= <- <-]. split; [|eauto].
  intros _ s1 [= <-]. split; [congruence|]. by split.
Qed.

(** A call of [Get] keeps the storages in order; what it finds is the latest value if
    those in use are in step for the key, and it finds nothing only when none has
    it. *)
Definition get_ok now sp (P Q : slot → string → Prop) (fc : FailoverCache) k (out : FailoverCache * option V) : Prop :=
  healthStatus out.1 = healthStatus fc ∧
  (∀ i, slot_ok now sp (P i) (Q i) (isHealthy (slot_name i) fc) (storage i out.1)) ∧
  (∀ i, isHealthy (slot_name i) fc = true → is_Some (storage i fc) → is_Some (storage i out.1)) ∧
  (∀ v, out.2 = Some v → (∀ j, in_use fc j → P j k) → ∃ t0 ttl, sp !! k = Some (v, t0, ttl)) ∧
  (out.2 = None → ∀ i, isHealthy (slot_name i) fc = true → ∀ s, storage i out.1 = Some s → view now s k = None).

Lemma some_some_dec {A} (r : option (option A)) : (∃ v, r = Some (Some v)) ∨ ∀ v, r ≠ Some (Some v).
Proof. destruct r as [[v|]|]; [left; eauto|right; congruence..]. Qed.

Lemma match_none {A B} (r : option (option A)) (f : A → B) (d : B) :
  (∀ v, r ≠ Some (Some v)) → match r with Some (Some v) => f v | _ => d end = d.
Proof. intros Hr. destruct r as [[v|]|]; [by destruct (Hr v)|done..]. Qed.

Lemma usable_some i (fc : FailoverCache) s :
  usable i fc = Some s ↔ isHealthy (slot_name i) fc = true ∧ storage i fc = Some s.
Proof. unfold usable. destruct (isHealthy _ fc); naive_solver. Qed.

Lemma in_use_iff i (fc : FailoverCache) : in_use fc i ↔ isHealthy (slot_name i) fc = true ∧ is_Some (storage i fc).
Proof.
  split; [by intros [s [? ?]%usable_some]|]. intros [Hi [s Hs]]. exists s. by apply usable_some.
Qed.

Lemma Get_ok now sp (P Q : slot → string → Prop) fc k :
  dom k → (∀ i, slot_ok now sp (P i) (Q i) (isHealthy (slot_name i) fc) (storage i fc)) →
  (∀ i j, in_use fc i → in_use fc j → P i k → P j k) →
  get_ok now sp P Q fc k (Get now k fc).
Proof.
  intros Hk Hok Hall. unfold Get, get_ok.
  destruct (try _ (primary fc) _) as [p rp] eqn:Hp.
  destruct (try_get_ok now sp (P Primary) (Q Primary) _ (primary fc) k p rp Hk (Hok Primary) Hp) as (Hp1 & Hp2 & Hp3 & Hp4).
  assert (Hin : ∀ i up st, isHealthy (slot_name i) fc = up → storage i fc = st → up = true → is_Some st → in_use fc i).
  { intros i up st <- <- ? ?. by apply in_use_iff. }
  destruct (some_some_dec rp) as [[v ->]|Hrp].
  { split_and!; cbn; [done|intros []; cbn; [done|apply Hok|apply Hok]|intros []; cbn; auto| |done].
    intros v' [= <-] HP. destruct (Hp3 v eq_refl) as (Hu & Hs & Hv). apply Hv, HP. by eapply (Hin Primary). }
  rewrite match_none by done. specialize (Hp4 Hrp).
  destruct (try _ (secondary fc) _) as [s rs] eqn:Hs.
  destruct (try_get_ok now sp (P Secondary) (Q Secondary) _ (secondary fc) k s rs Hk (Hok Secondary) Hs)
    as (Hs1 & Hs2 & Hs3 & Hs4).
  assert (Hpu : isHealthy (slot_name Primary) fc = true → is_Some p → in_use fc Primary).
  { intros Hu Hsome. apply (Hin Primary _ _ eq_refl eq_refl Hu). cbn. unfold try in Hp. destruct (primary fc); [eauto|].
    injection Hp as <- _. by destruct Hsome. }
  destruct (some_some_dec rs) as [[v ->]|Hrs].
  { destruct (Hs3 v eq_refl) as (Hu & Hsm & Hsp). pose proof (Hin Secondary _ _ eq_refl eq_refl Hu Hsm) as Hsu.
    destruct (try _ p _) as [p' rp'] eqn:Hp'.
    destruct (try_restore_ok now sp (P Primary) (Q Primary) _ p k v _ p' rp' Hk ltac:(eauto) Hp1 Hp4 Hp') as [Hq1 Hq2].
    split_and!; cbn; [done|intros []; cbn; [done|done|apply Hok]|intros []; cbn; auto| |done].
    intros v' [= <-] HP. auto. }
  rewrite match_none by done. specialize (Hs4 Hrs).
  assert (Hsu : isHealthy (slot_name Secondary) fc = true → is_Some s → in_use fc Secondary).
  { intros Hu Hsome. apply (Hin Secondary _ _ eq_refl eq_refl Hu). cbn. unfold try in Hs. destruct (secondary fc); [eauto|].
    injection Hs as <- _. by destruct Hsome. }
  destruct (try _ (tertiary fc) _) as [t rt] eqn:Ht.
  destruct (try_get_ok now sp (P Tertiary) (Q Tertiary) _ (tertiary fc) k t rt Hk (Hok Tertiary) Ht) as (Ht1 & Ht2 & Ht3 & Ht4).
  destruct (some_some_dec rt) as [[v ->]|Hrt].
  { destruct (Ht3 v eq_refl) as (Hu & Htm & Hsp). pose proof (Hin Tertiary _ _ eq_refl eq_refl Hu Htm) as Htu.
    destruct (try _ p _) as [p' rp'] eqn:Hp'.
    destruct (try_restore_ok now sp (P Primary) (Q Primary) _ p k v _ p' rp' Hk ltac:(eauto) Hp1 Hp4 Hp') as [Hq1 Hq2].
    destruct (try _ s _) as [s' rs'] eqn:Hs'.
    destruct (try_restore_ok now sp (P Secondary) (Q Secondary) _ s k v _ s' rs' Hk ltac:(eauto) Hs1 Hs4 Hs') as [Hr1 Hr2].
    split_and!; cbn; [done|intros []; cbn; done|intros []; cbn; auto| |done].
    intros v' [= <-] HP. auto. }
  rewrite match_none by done. specialize (Ht4 Hrt).
  split_and!; cbn; [done|intros []; cbn; done|intros []; cbn; auto|done|].
  intros _ []; cbn; done.
Qed.

Lemma inv_slots now fc g i : inv now fc g →
  slot_ok now (latest g) (in_step g i) (kept g i) (isHealthy (slot_name i) fc) (storage i fc).
Proof.
  intros (Hh & Hok & _) Hi s Hs. assert (usable i fc = Some s) as Hu by (by apply usable_some).
  split; [by eapply Hh|]. apply Hok. unfold last_state. by rewrite Hu.
Qed.

(** The storages in use are the same after a call, and the others are what they
    were. *)
Lemma inv_step now fc fc' g g' :
  (∀ i, in_use fc' i ↔ in_use fc i) → was g' = was g →
  (∀ i s', usable i fc' = Some s' → ∃ s, usable i fc = Some s ∧
     (st_HealthCheck s = None → ok now (latest g) (in_step g i) (kept g i) s →
      st_HealthCheck s' = None ∧ ok now (latest g') (in_step g' i) (kept g' i) s')) →
  (∀ i s, usable i fc = None → ok now (latest g) (in_step g i) (kept g i) s →
     ok now (latest g') (in_step g' i) (kept g' i) s) →
  (∀ i k, in_step g' i k ∨ kept g' i k → in_step g i k ∨ kept g i k ∨ in_use fc i) →
  inv now fc g → inv now fc' g'.
Proof.
  intros Huse Hwas Hup Hdown Hdom (Hh & Hok & Hsome).
  assert (∀ i, usable i fc' = None → usable i fc = None) as Hnone.
  { intros i Hi. apply eq_None_not_Some. rewrite <-(Huse i : is_Some (usable i fc') ↔ is_Some (usable i fc)). by rewrite Hi; intros []. }
  split_and!.
  - intros i s' Hs'. destruct (Hup i s' Hs') as (s & Hs & H). apply H; [by eapply Hh|].
    apply Hok. unfold last_state. by rewrite Hs.
  - intros i s' Hs'. unfold last_state in Hs'. destruct (usable i fc') as [x|] eqn:E.
    + injection Hs' as ->. destruct (Hup i s' E) as (s & Hs & H). apply H; [by eapply Hh|].
      apply Hok. unfold last_state. by rewrite Hs.
    + pose proof (Hnone i E) as En. apply Hdown; [done|]. apply Hok. unfold last_state. rewrite En. by rewrite <-Hwas.
  - intros i k [Hg|[Hg|Hg]]%Hdom.
    + assert (is_Some (last_state fc g i)) as H by eauto. unfold last_state in *. rewrite Hwas.
      destruct (usable i fc') eqn:E; [eauto|]. by rewrite (Hnone i E) in H.
    + assert (is_Some (last_state fc g i)) as H by eauto. unfold last_state in *. rewrite Hwas.
      destruct (usable i fc') eqn:E; [eauto|]. by rewrite (Hnone i E) in H.
    + apply Huse in Hg as [s Hs]. unfold last_state. rewrite Hs. eauto.
Qed.

Lemma each_in_use cond (op : S → S * option error) fmt (fc : FailoverCache) i :
  (∀ j, isHealthy (slot_name j) fc = true → cond j = true) →
  in_use (each cond op fmt fc).1 i ↔ in_use fc i.
Proof.
  intros Hc. split; [|apply each_is_some].
  intros [s Hs]. destruct (each_usable cond op fmt fc i s Hc Hs) as (s0 & ? & _). by exists s0.
Qed.

Lemma ok_weaken now now' sp P P' Q Q' s :
  (now <= now')%Z → (∀ k, P' k → P k) → (∀ k, P' k → Q' k → Q k) → ok now sp P Q s → ok now' sp P' Q' s.
Proof.
  intros Hle HP HQ [Hc Hf]. split; [by eapply storage_clean_weaken|]. eapply full_weaken; [done| |exact Hf]. intros k [? ?]. auto.
Qed.

(** A storage that misses a change of [k]. *)
Lemma ok_missed now sp sp' P P' Q Q' s k :
  (∀ k', k' ≠ k → sp' !! k' = sp !! k') →
  (∀ k', P' k' → k' ≠ k ∧ P k') → (∀ k', P' k' → Q' k' → Q k') → ok now sp P Q s → ok now sp' P' Q' s.
Proof.
  intros Hsp HP HQ [Hc Hf]. split.
  - intros t k' v Ht Hk' [Hne HP']%HP Hv. rewrite Hsp by done. by eapply Hc.
  - intros t k' v t0 ttl Ht Hk' [HQ' HP'] Hs. destruct (HP k' HP') as [Hne HPk]. rewrite Hsp in Hs by done.
    eapply Hf; eauto.
Qed.

Lemma inv_get now fc g k : inv now fc g → dom k →
  inv now (Get now k fc).1
    (MkGhost (latest g) (λ i k', in_step g i k' ∧ (k' = k → ∀ j, in_use fc j → in_step g j k)) (kept g) (was g)).
Proof.
  intros Hinv Hk. set (P := λ i k', in_step g i k' ∧ (k' = k → ∀ j, in_use fc j → in_step g j k)).
  destruct (Get_ok now (latest g) P (kept g) fc k Hk) as (Hh & Hslots & Hsome & _ & _).
  { intros i Hi s Hs. destruct (inv_slots now fc g i Hinv Hi s Hs) as [Hhl Hok]. split; [done|].
    eapply ok_weaken; [reflexivity| | |exact Hok]; unfold P; naive_solver. }
  { intros i j Hi Hj [_ HP]. unfold P. naive_solver. }
  assert (∀ i, isHealthy (slot_name i) (Get now k fc).1 = isHealthy (slot_name i) fc) as Hup.
  { intros i. unfold isHealthy. by rewrite Hh. }
  assert (∀ i, in_use (Get now k fc).1 i ↔ in_use fc i) as Huse.
  { intros i. rewrite !in_use_iff, Hup. split; [|naive_solver]. intros [Hi Hs]. split; [done|].
    destruct (storage i fc) as [s|] eqn:E; [eauto|]. exfalso. revert Hs. unfold Get.
    destruct i; cbn in E; rewrite E; cbn; intros [x Hx]; repeat (case_match; simplify_eq/=); done. }
  apply (inv_step now fc _ g); [done|done| | |cbn; unfold P; naive_solver|done].
  - intros i s' [Hi Hs']%usable_some. rewrite Hup in Hi. destruct (Hslots i Hi s' Hs') as [Hhl Hok].
    destruct (proj1 (Huse i)) as [s Hs]; [exists s'; apply usable_some; by rewrite Hup|]. exists s. by split.
  - intros i s _ Hok. cbn. eapply ok_weaken; [reflexivity| | |exact Hok]; unfold P; naive_solver.
Qed.

Lemma Set_usable now k v ttl (fc : FailoverCache) i s' :
  usable i (Set_ now k v ttl fc).1 = Some s' →
  ∃ s, usable i fc = Some s ∧ s' = (st_Set now k v ttl s).1 ∧ ((Set_ now k v ttl fc).2 = None → (st_Set now k v ttl s).2 = None).
Proof. apply each_usable. done. Qed.

Lemma inv_set now fc g k v ttl : inv now fc g → dom k → (Set_ now k v ttl fc).2 = None →
  inv now (Set_ now k v ttl fc).1
    (MkGhost (<[k := (v, now, ttl)]> (latest g)) (λ i k', if decide (k' = k) then in_use fc i else in_step g i k')
       (λ i k', if decide (k' = k) then in_use fc i else kept g i k') (was g)).
Proof.
  intros Hinv Hk He. apply (inv_step now fc _ g); [by intros i; apply each_in_use|done| | | |done].
  - intros i s' Hs'. apply Set_usable in Hs' as (s & Hs & -> & Herr). exists s. split; [done|].
    specialize (Herr He). intros Hh [Hc Hf]. split; [by rewrite health_set|]. cbn. split.
    + eapply clean_set; [done|done| |exact Hc]. intros k' Hne. cbn. by rewrite decide_False.
    + eapply full_set; [done|done| |exact Hf]. intros k' Hne. cbn. by rewrite !decide_False.
  - intros i s Hn Hok. cbn. eapply (ok_missed _ _ _ _ _ _ _ _ k); [| | |exact Hok].
    + intros k' Hne. by rewrite lookup_insert_ne.
    + intros k'. cbn. case_decide; [|done]. intros [x Hx]. congruence.
    + intros k'. cbn. case_decide; [|done]. intros [x Hx]. congruence.
  - intros i k'. cbn. case_decide; tauto.
Qed.

Lemma inv_set_failed now fc g k v ttl : inv now fc g → dom k →
  inv now (Set_ now k v ttl fc).1 (MkGhost (latest g) (λ i k', k' ≠ k ∧ in_step g i k') (kept g) (was g)).
Proof.
  intros Hinv Hk. apply (inv_step now fc _ g); [by intros i; apply each_in_use|done| | |cbn; tauto|done].
  - intros i s' Hs'. apply Set_usable in Hs' as (s & Hs & -> & _). exists s. split; [done|].
    intros Hh [Hc Hf]. split; [by rewrite health_set|]. cbn. split.
    + intros t k' v' Ht Hk' [Hne HP]. rewrite set_others by done. by eapply Hc.
    + intros t k' v' t0 ttl0 Ht Hk' (HQ & Hne & HP). rewrite set_others by done. by eapply Hf.
  - intros i s _ Hok. cbn. eapply ok_weaken; [reflexivity| | |exact Hok]; naive_solver.
Qed.

Lemma inv_delete now fc g k : inv now fc g → dom k →
  inv now (Delete k fc).1
    (MkGhost (delete k (latest g)) (λ i k', if decide (k' = k) then in_use fc i else in_step g i k') (kept g) (was g)).
Proof.
  intros Hinv Hk. apply (inv_step now fc _ g); [by intros i; apply each_in_use|done| | | |done].
  - intros i s' Hs'. apply each_usable in Hs' as (s & Hs & -> & _); [|done]. exists s. split; [done|].
    intros Hh [Hc Hf]. split; [by rewrite health_delete|]. cbn. split.
    + eapply clean_delete; [done|done| |exact Hc]. intros k' Hne. cbn. by rewrite decide_False.
    + eapply full_delete; [done|done| |exact Hf]. intros k' Hne. cbn. by rewrite decide_False.
  - intros i s Hn Hok. cbn. eapply (ok_missed _ _ _ _ _ _ _ _ k); [| | |exact Hok].
    + intros k' Hne. by rewrite lookup_delete_ne.
    + intros k'. cbn. case_decide; [|done]. intros [x Hx]. congruence.
    + done.
  - intros i k'. cbn. case_decide; tauto.
Qed.

Lemma inv_clear now fc g : inv now fc g → inv now (Clear fc).1 (MkGhost ∅ (λ i _, in_use fc i) (kept g) (was g)).
Proof.
  intros Hinv. apply (inv_step now fc _ g); [by intros i; apply each_in_use|done| | |cbn; tauto|done].
  - intros i s' Hs'. apply each_usable in Hs' as (s & Hs & -> & _); [|done]. exists s. split; [done|].
    intros Hh _. split; [by rewrite health_clear|].
    destruct (clean_empty now (λ _, in_use fc i) (st_Clear s).1) as [Hc Hf]; [intros; by apply clear_view|]. by split.
  - intros i s Hn _. cbn. split.
    + intros t k v _ _ [x Hx]. congruence.
    + intros t k v t0 ttl _ _ _. by rewrite lookup_empty.
Qed.

Lemma inv_check now fc g p s t :
  let fc' := updateHealthStatus (with_storages p s t fc) in
  (∀ i st t k v, usable i fc' = Some st → (now <= t)%Z → dom k → view t st k = Some v →
     ∃ s0, last_state fc g i = Some s0 ∧ view t s0 k = Some v) →
  inv now fc g →
  inv now fc'
    (MkGhost (latest g) (in_step g)
       (λ i k, kept g i k ∧ ∀ st s0 t, usable i fc' = Some st → last_state fc g i = Some s0 → (now <= t)%Z →
                 view t st k = view t s0 k)
       (last_state fc g)).
Proof.
  intros fc' Henv (Hh & Hok & Hsome). split_and!.
  - intros i st. apply update_healthy.
  - intros i st Hst. unfold last_state in Hst. destruct (usable i fc') as [x|] eqn:E; cbn in *.
    + injection Hst as ->. split.
      * intros t' k v Ht Hk HP Hv. destruct (Henv i st t' k v E Ht Hk Hv) as (s0 & Hs0 & Hv0).
        destruct (Hok i s0 Hs0) as [Hc _]. by eapply Hc.
      * intros t' k v t0 ttl Ht Hk [[HK Hkeep] HP] Hsp Hl.
        destruct (Hsome i k (or_introl HP)) as [s0 Hs0]. rewrite (Hkeep st s0) by done.
        destruct (Hok i s0 Hs0) as [_ Hf]. by eapply Hf.
    + eapply ok_weaken; [reflexivity| | |by apply Hok]; naive_solver.
  - intros i k Hg. unfold last_state at 1. destruct (usable i fc'); [eauto|]. cbn in Hg |- *. apply (Hsome i k). tauto.
Qed.

Lemma history_inv now fc g : history now fc g → inv now fc g.
Proof.
  induction 1 as [now p s t r d iv fresh fc Hempty|now now' fc g _ IH Hle|now fc g k _ IH Hk
    |now fc g k v ttl _ IH Hk He|now fc g k v ttl _ IH Hk He|now fc g k _ IH Hk|now fc g _ IH|now fc g p s t _ IH fc' Henv].
  - split_and!.
    + intros i st. apply update_healthy.
    + intros i st Hst. unfold last_state in Hst. destruct (usable i fc) as [x|] eqn:E; [|done]. injection Hst as ->.
      destruct (clean_empty now (λ k, in_use fc i ∧ fresh i k) st) as [Hc Hf]; [intros t' k Hk [_ Hfr]; by eapply Hempty|].
      by split.
    + intros i k [[[x Hx] _]|[]]. unfold last_state. rewrite Hx. eauto.
  - destruct IH as (Hh & Hok & Hs). split_and!; [done| |done]. intros i st Hst. eapply ok_weaken; [exact Hle| | |by apply Hok]; done.
  - by apply inv_get.
  - by apply inv_set.
  - by apply inv_set_failed.
  - by apply inv_delete.
  - by apply inv_clear.
  - by apply inv_check.
Qed.


End Props.

(** ** Storages of different types *)

Section Sum.
Context {V S1 S2 : Type} `{!Storage V S1, !Storage V S2}.

Definition on_sum {A} (f : S1 → S1 * A) (g : S2 → S2 * A) (s : S1 + S2) : (S1 + S2) * A :=
  match s with
  | inl s => let '(s, a) := f s in (inl s, a)
  | inr s => let '(s, a) := g s in (inr s, a)
  end.

(** An interface value that holds one of two implementations. *)
#[export] Instance sum_Storage : Storage V (S1 + S2) := {|
  st_Get now k := on_sum (st_Get now k) (st_Get now k);
  st_Set now k v ttl := on_sum (st_Set now k v ttl) (st_Set now k v ttl);
  st_Delete k := on_sum (st_Delete k) (st_Delete k);
  st_Clear := on_sum st_Clear st_Clear;
  st_Keys s := match s with inl s => st_Keys s | inr s => st_Keys s end;
  st_HealthCheck s := match s with inl s => st_HealthCheck s | inr s => st_HealthCheck s end
|}.

Definition sum_view (v1 : Z → S1 → string → option V) (v2 : Z → S2 → string → option V) (now : Z)
    (s : S1 + S2) : string → option V :=
  match s with inl s => v1 now s | inr s => v2 now s end.

Lemma on_sum_fst {A} (f : S1 → S1 * A) (g : S2 → S2 * A) s :
  (on_sum f g s).1 = match s with inl s => inl (f s).1 | inr s => inr (g s).1 end.
Proof. destruct s as [s|s]; cbn; [by destruct (f s)|by destruct (g s)]. Qed.

Lemma on_sum_snd {A} (f : S1 → S1 * A) (g : S2 → S2 * A) s :
  (on_sum f g s).2 = match s with inl s => (f s).2 | inr s => (g s).2 end.
Proof. destruct s as [s|s]; cbn; [by destruct (f s)|by destruct (g s)]. Qed.

#[export] Instance sum_laws (d1 d2 : string → Prop) v1 v2 :
  StorageLaws V S1 d1 v1 → StorageLaws V S2 d2 v2 →
  StorageLaws V (S1 + S2) (λ k, d1 k ∧ d2 k) (sum_view v1 v2).
Proof.
  intros L1 L2. split; cbn -[on_sum]; intros *; rewrite ?on_sum_fst, ?on_sum_snd; destruct s as [s|s]; cbn.
  all: intros; destruct_and?.
  all: first [by apply get_view | by apply get_keeps | by apply set_view
             | by (f_equal; apply set_fails) | by apply delete_view | by apply clear_view
             | by eapply view_expires | apply health_get | apply health_set | apply health_delete
             | apply health_clear].
Qed.

End Sum.

(** ** A cache of a file and a memory storage *)

Section Example.

#[local] Instance ex_file_storage : Storage Z (FileStorage (CacheEntry Z)) := File_Storage ex_marshal Some.
#[local] Instance ex_file_laws : StorageLaws Z (FileStorage (CacheEntry Z)) plain_key (File_view Some).
Proof. apply File_laws. intros e d Hd. by injection Hd as ->. Qed.

Notation ex_storage := (FileStorage (CacheEntry Z) + MemoryStorage Z)%type.

Definition ex_dir (up : bool) : FileStorage (CacheEntry Z) :=
  MkFileStorage "/tmp/failover_cache" ".failover" 1000 100 up ∅.

Definition ex_failover (up : bool) : FailoverCache ex_storage :=
  NewFailoverCache (Some (inl (ex_dir up))) (Some (inr NewMemoryStorage)) None 3 1 30.

(** The directory of the file storage goes away or comes back, and the next
    health check notices. *)
Definition ex_toggle (up : bool) (fc : FailoverCache ex_storage) : FailoverCache ex_storage :=
  let p := match primary fc with
           | Some (inl f) => Some (inl (MkFileStorage (directory f) (fileSuffix f) (maxSize f) (maxFiles f) up (files f)))
           | p => p
           end in
  updateHealthStatus (with_storages p (secondary fc) (tertiary fc) fc).

Notation ex_history := (history (dom := λ k, plain_key k ∧ True) (view := sum_view (File_view Some) Mem_view)).

(** Two keys are stored; the primary goes down and misses an update of one of them;
    it comes back; the key is stored once more. *)
Definition ex_stored : FailoverCache ex_storage :=
  (Set_ 0 "user" 1%Z 1000 (Set_ 0 "limit" 7%Z 1000 (ex_failover true)).1).1.
Definition ex_missed : FailoverCache ex_storage := (Set_ 1 "user" 2%Z 1000 (ex_toggle false ex_stored)).1.
Definition ex_back : FailoverCache ex_storage := ex_toggle true ex_missed.
Definition ex_again : FailoverCache ex_storage := (Set_ 2 "user" 3%Z 1000 ex_back).1.

Lemma ex_in_use (fc : FailoverCache ex_storage) i :
  tertiary fc = None → in_use fc i → i = Primary ∨ i = Secondary.
Proof. intros Ht [s [_ Hs]%usable_some]. destruct i; cbn in Hs; [by left|by right|congruence]. Qed.

Lemma ex_again_history : ∃ g, ex_history 3 ex_again g ∧
  (∀ i k, i = Primary ∨ i = Secondary → k = "user" ∨ k = "limit" → in_step g i k ∧ kept g i k) ∧
  latest g !! "user" = Some (3, 2, 1000)%Z ∧ latest g !! "limit" = Some (7, 0, 1000)%Z.
Proof.
  assert (∀ k, plain_key k → plain_key k ∧ True) as Hpl by (by split).
  eexists. split_and!.
  - apply (h_time 2); [|lia].
    apply (h_set 2 ex_back); [|apply Hpl; reflexivity|reflexivity].
    apply (h_time 1); [|lia]. unfold ex_back, ex_toggle.
    apply (h_check 1 ex_missed).
    + apply (h_set 1 (ex_toggle false ex_stored)); [|apply Hpl; reflexivity|reflexivity].
      apply (h_time 0); [|lia]. unfold ex_toggle. apply (h_check 0 ex_stored).
      * apply (h_set 0); [|apply Hpl; reflexivity|reflexivity].
        apply (h_set 0 (ex_failover true)); [|apply Hpl; reflexivity|reflexivity].
        apply (h_new 0 _ _ _ _ _ _ (λ _ _, True)).
        intros [] st t k Hst _ _; vm_compute in Hst; simplify_eq; reflexivity.
      * intros [] st t k v Hst _ _ Hv; vm_compute in Hst; simplify_eq; eexists; (split; [vm_compute; reflexivity|exact Hv]).
    + intros [] st t k v Hst _ _ Hv; vm_compute in Hst; simplify_eq; eexists; (split; [vm_compute; reflexivity|exact Hv]).
  - intros i k Hi Hk.
    destruct Hi as [-> | ->], Hk as [-> | ->]; cbn [in_step kept]; rewrite ?(decide_True (P := "user" = "user")) by done;
      rewrite ?(decide_False (P := "limit" = "user")) by done; rewrite ?(decide_True (P := "limit" = "limit")) by done;
      (split; [by eexists|]); try (by eexists).
    + split; [split; [by eexists|]|]; intros st s0 t Hst Hs0 _; vm_compute in Hst, Hs0; simplify_eq; reflexivity.
    + split; [split; [by eexists|]|]; intros st s0 t Hst Hs0 _; vm_compute in Hst, Hs0; simplify_eq; reflexivity.
  - reflexivity.
  - reflexivity.
Qed.


(** ** What the failover cache does not handle *)

(** The primary misses an update while it is down; when it is back, its old
    value is served again. *)
Theorem stale_after_recovery :
  let fc := (Set_ 0 "user" 1%Z 1000 (ex_failover true)).1 in
  let fc := ex_toggle false fc in
  let '(fc, err) := Set_ 1 "user" 2%Z 1000 fc in
  let fc := ex_toggle true fc in
  err = None ∧ (Get 2 "user" fc).2 = Some 1%Z.
Proof. vm_compute. done. Qed.

(** A value stored for a minute and restored within it is served for five more
    minutes. *)
Theorem restore_outlives_ttl :
  let fc := (Set_ 0 "user" 1%Z GoTime.Minute (ex_failover false)).1 in
  let fc := ex_toggle true fc in
  let fc := (Get (59 * GoTime.Second) "user" fc).1 in
  (Get (5 * GoTime.Minute) "user" fc).2 = Some 1%Z.
Proof. vm_compute. done. Qed.

End Example.
