(* ===== verification/QueryCache.v ===== *)
(** * plugins/db/orm/query_cache.go: the cached database

    The cache interface of the ORM as a class, its memory implementation, and
    the database wrapper that caches SELECT results; and the adapter of
    plugins/cache/failover/adapter.go that puts a failover cache behind the
    same interface.  An argument of a query is
    given by its formatted text, and the database by what its calls answer and
    how they change it ([db_query], [db_exec], [db_begin]): a query may write too
    (RETURNING).  MD5 is a parameter. *)

From S2P Require Import Prelude CacheStore Failover Orm OrmUtil.
From Stdlib Require Import Ascii.
Import GoError.

Class QueryCache (V C : Type) := {
  qc_Get : Z → string → C → C * option V;
  qc_Set : Z → string → V → Z → C → C;
  qc_Delete : string → C → C;
  qc_Clear : C → C;
  qc_Keys : C → list string
}.

(** What the wrapper relies on: [may t c k v] is that the cache may return [v]
    for [k] at the time [t]. *)
Class QueryCacheLaws (V C : Type) `{!QueryCache V C} (may : Z → C → string → V → Prop) := {
  qc_found now k c v : (qc_Get now k c).2 = Some v → may now c k v;
  qc_get_keeps now k c t k' v : may t (qc_Get now k c).1 k' v → may t c k' v;
  qc_set_adds now k v ttl c t k' v' : may t (qc_Set now k v ttl c) k' v' →
    (k' = k ∧ v' = v ∧ (GoTime.Sub t now <= ttl)%Z) ∨ may t c k' v';
  qc_clear_empties t c k v : ¬ may t (qc_Clear c) k v
}.

(** ** The memory cache *)

Section Memory.
Context {V : Type}.

Record MemoryCache := MkMemoryCache { entries : gmap string (CacheEntry V) }.

Definition NewMemoryCache : MemoryCache := MkMemoryCache ∅.

Definition MC_Get (now : Z) (key : string) (mc : MemoryCache) : MemoryCache * option V :=
  match entries mc !! key with
  | None => (mc, None)
  | Some entry =>
      if IsExpired now entry then (MkMemoryCache (delete key (entries mc)), None)
      else (mc, Some (Data entry))
  end.

Definition MC_Set (now : Z) (key : string) (value : V) (ttl : Z) (mc : MemoryCache) : MemoryCache :=
  MkMemoryCache (<[key := MkEntry value now ttl]> (entries mc)).

Definition MC_Delete (key : string) (mc : MemoryCache) : MemoryCache :=
  MkMemoryCache (delete key (entries mc)).

Definition MC_Clear (mc : MemoryCache) : MemoryCache := MkMemoryCache ∅.

Definition MC_Keys (mc : MemoryCache) : list string := (map_to_list (entries mc)).*1.

#[export] Instance MC_QueryCache : QueryCache V MemoryCache := {|
  qc_Get := MC_Get; qc_Set := MC_Set; qc_Delete := MC_Delete; qc_Clear := MC_Clear; qc_Keys := MC_Keys
|}.

Definition MC_may (t : Z) (mc : MemoryCache) (k : string) (v : V) : Prop :=
  ∃ e, entries mc !! k = Some e ∧ Data e = v ∧ IsExpired t e = false.

Lemma MC_may_new t k v : ¬ MC_may t NewMemoryCache k v.
Proof. intros (e & He & _). cbn in He. by rewrite lookup_empty in He. Qed.

Lemma MC_Get_new now k : MC_Get now k NewMemoryCache = (NewMemoryCache, None).
Proof. unfold MC_Get. cbn. by rewrite lookup_empty. Qed.

Lemma MC_Get_Set now now' k v ttl mc :
  IsExpired now' (MkEntry v now ttl) = false → (MC_Get now' k (MC_Set now k v ttl mc)).2 = Some v.
Proof. intros He. unfold MC_Get, MC_Set. cbn. by rewrite lookup_insert_eq, He. Qed.

#[export] Instance MC_laws : QueryCacheLaws V MemoryCache MC_may.
Proof.
  split; cbn; unfold MC_may.
  - intros now k c v. unfold MC_Get. destruct (entries c !! k) as [e|]; [|done].
    destruct (IsExpired now e) eqn:He; [done|]. intros [= <-]. eauto.
  - intros now k c t k' v. unfold MC_Get. destruct (entries c !! k) as [e|]; [|done].
    destruct (IsExpired now e); [|done]. cbn. intros (e' & [_ He']%lookup_delete_Some & Hv). eauto.
  - intros now k v ttl c t k' v' (e & He & <- & Ht). cbn in He.
    apply lookup_insert_Some in He as [[-> <-]|[_ He]]; [left|right; eauto].
    split; [done|]. split; [done|]. unfold IsExpired in Ht. cbn in Ht. by apply Z.ltb_ge in Ht.
  - intros t c k v. apply MC_may_new.
Qed.

End Memory.
Arguments MemoryCache : clear implicits.

(** ** The wrapper *)

Section CachedDB.
Context {row D C : Type} `{!QueryCache (list row) C}.
Context (md5hex : string → string).
Context (db_query : D → string → list string → D * result (list row)).
Context (db_exec : D → string → list string → D * result Z).
Context {T : Type} (db_begin : D → D * result T).

Record CachedDB := MkCachedDB { db : D; cache : C }.

Definition isSelectQuery (query : string) : bool :=
  String.prefix "SELECT" (TrimSpace (ToUpper query)).

(** The query and the formatted arguments are written one after the other. *)
Definition generateCacheKey (query : string) (args : list string) : string :=
  md5hex (query +:+ String.concat "" args).

Definition invalidateCacheForQuery (cdb : CachedDB) : CachedDB := MkCachedDB (db cdb) (qc_Clear (cache cdb)).

Definition run_exec (query : string) (args : list string) (cdb : CachedDB) : CachedDB * result Z :=
  let '(d, r) := db_exec (db cdb) query args in (MkCachedDB d (cache cdb), r).

Definition Exec (query : string) (args : list string) (cdb : CachedDB) : CachedDB * result Z :=
  run_exec query args (invalidateCacheForQuery cdb).

Definition run_query (query : string) (args : list string) (cdb : CachedDB) : CachedDB * result (list row) :=
  let '(d, r) := db_query (db cdb) query args in (MkCachedDB d (cache cdb), r).

(** The cache never holds the [*sql.Rows] and [*sql.Row] that these methods look
    for. *)
Definition Query (now : Z) (query : string) (args : list string) (cdb : CachedDB) :
    CachedDB * result (list row) :=
  if isSelectQuery query then
    run_query query args (MkCachedDB (db cdb) (qc_Get now (generateCacheKey query args) (cache cdb)).1)
  else run_query query args cdb.

Definition ErrNoRows : error := Sentinel "sql.ErrNoRows".

(** The row, as it is scanned. *)
Definition QueryRow (now : Z) (query : string) (args : list string) (cdb : CachedDB) : CachedDB * result row :=
  let cdb :=
    if isSelectQuery query then MkCachedDB (db cdb) (qc_Get now (generateCacheKey query args) (cache cdb)).1
    else cdb in
  match run_query query args cdb with
  | (cdb, Ok (r :: _)) => (cdb, Ok r)
  | (cdb, Ok []) => (cdb, Err ErrNoRows)
  | (cdb, Err e) => (cdb, Err e)
  end.

(** A transaction of the database itself, which the cache does not see. *)
Definition Begin (cdb : CachedDB) : CachedDB * result T :=
  let '(d, r) := db_begin (db cdb) in (MkCachedDB d (cache cdb), r).

Definition cacheTTL : Z := (5 * GoTime.Minute)%Z.

Definition CachedQuery (now : Z) (query : string) (args : list string) (cdb : CachedDB) :
    CachedDB * result (list row) :=
  if isSelectQuery query then
    let key := generateCacheKey query args in
    match qc_Get now key (cache cdb) with
    | (c, Some cached) => (MkCachedDB (db cdb) c, Ok cached)
    | (c, None) =>
        match db_query (db cdb) query args with
        | (d, Err e) => (MkCachedDB d c, Err e)
        | (d, Ok rows) => (MkCachedDB d (qc_Set now key rows cacheTTL c), Ok rows)
        end
    end
  else (cdb, Err (Errorf "only SELECT queries can be cached" [])).

Definition CachedQueryRow (now : Z) (query : string) (args : list string) (cdb : CachedDB) :
    CachedDB * result row :=
  match CachedQuery now query args cdb with
  | (cdb, Err e) => (cdb, Err e)
  | (cdb, Ok (r :: _)) => (cdb, Ok r)
  | (cdb, Ok []) => (cdb, Err ErrNoRows)
  end.

Definition ClearCache (cdb : CachedDB) : CachedDB := MkCachedDB (db cdb) (qc_Clear (cache cdb)).

Definition SetCache (c : C) (cdb : CachedDB) : CachedDB := MkCachedDB (db cdb) c.

(** ** How old a cached answer may be *)

Section Fresh.
Context {may : Z → C → string → list row → Prop} `{!QueryCacheLaws (list row) C may}.

(** The queries of a history, and that their keys differ. *)
Context (used : string → list string → Prop).
Hypothesis keys_distinct : ∀ q vs q' vs', used q vs → used q' vs' →
  generateCacheKey q vs = generateCacheKey q' vs' → q = q' ∧ vs = vs'.

(** Calls one after the other, from an empty cache, with the databases that
    [CachedQuery] and [CachedQueryRow] found, and when, since the cache was last
    cleared.  Every call may change the database, and so may others at any time:
    transactions, connections of their own, other programs. *)
Inductive calls : list (Z * D) → CachedDB → Prop :=
| c_new d c : (∀ t k v, ¬ may t c k v) → calls [] (MkCachedDB d c)
| c_exec q vs past cdb : calls past cdb → calls [] (Exec q vs cdb).1
| c_query now q vs past cdb : calls past cdb → calls past (Query now q vs cdb).1
| c_query_row now q vs past cdb : calls past cdb → calls past (QueryRow now q vs cdb).1
| c_begin past cdb : calls past cdb → calls past (Begin cdb).1
| c_others d past cdb : calls past cdb → calls past (MkCachedDB d (cache cdb))
| c_cached now q vs past cdb : calls past cdb → used q vs →
    calls ((now, db cdb) :: past) (CachedQuery now q vs cdb).1
| c_cached_row now q vs past cdb : calls past cdb → used q vs →
    calls ((now, db cdb) :: past) (CachedQueryRow now q vs cdb).1
| c_clear past cdb : calls past cdb → calls [] (ClearCache cdb)
| c_set_cache c past cdb : calls past cdb → (∀ t k v, ¬ may t c k v) → calls [] (SetCache c cdb).

(** What the cache may return at a time is what the database answered at one of the
    moments, not longer ago than the time-to-live. *)
Definition dated (past : list (Z * D)) (c : C) : Prop :=
  ∀ t q vs v, used q vs → may t c (generateCacheKey q vs) v →
    ∃ t0 d, (t0, d) ∈ past ∧ (db_query d q vs).2 = Ok v ∧ (GoTime.Sub t t0 <= cacheTTL)%Z.

Lemma dated_weaken past past' c c' :
  (∀ t k v, may t c' k v → may t c k v) → past ⊆ past' → dated past c → dated past' c'.
Proof.
  intros Hsub Hp Hd t q vs v Hu Hm. destruct (Hd t q vs v Hu (Hsub _ _ _ Hm)) as (t0 & d & Hin & H).
  exists t0, d. split; [by apply Hp|done].
Qed.

Lemma dated_none past c : (∀ t k v, ¬ may t c k v) → dated past c.
Proof. intros Hn t q vs v _ Hm. by destruct (Hn _ _ _ Hm). Qed.

Lemma dated_cached now q vs past cdb :
  dated past (cache cdb) → used q vs → dated ((now, db cdb) :: past) (cache (CachedQuery now q vs cdb).1).
Proof.
  intros Hd Hu. unfold CachedQuery. destruct (isSelectQuery q); [|by apply (dated_weaken past _ (cache cdb)); [|set_solver|exact Hd]].
  pose proof (qc_get_keeps now (generateCacheKey q vs) (cache cdb)) as Hkeep.
  destruct (qc_Get now (generateCacheKey q vs) (cache cdb)) as [c [v|]]; cbn in *.
  { by apply (dated_weaken past _ (cache cdb)); [|set_solver|exact Hd]. }
  destruct (db_query (db cdb) q vs) as [d [rows|e]] eqn:Hq; cbn; [|by apply (dated_weaken past _ (cache cdb)); [|set_solver|exact Hd]].
  intros t q' vs' v Hu' [(Hk & -> & Ht)|Hm]%qc_set_adds; cbn in *.
  - destruct (keys_distinct _ _ _ _ Hu' Hu Hk) as [-> ->]. exists now, (db cdb). split; [by left|]. by rewrite Hq.
  - destruct (Hd t q' vs' v Hu' (Hkeep _ _ _ Hm)) as (t0 & d0 & Hin & H). exists t0, d0. split; [by right|done].
Qed.

Lemma run_query_cache q vs cdb : cache (run_query q vs cdb).1 = cache cdb.
Proof. unfold run_query. by destruct (db_query _ _ _). Qed.

Lemma calls_dated past cdb : calls past cdb → dated past (cache cdb).
Proof.
  induction 1 as [d c He|q vs past cdb _ _|now q vs past cdb _ IH|now q vs past cdb _ IH|past cdb _ IH|d past cdb _ IH
    |now q vs past cdb _ IH Hu|now q vs past cdb _ IH Hu|past cdb _ _|c past cdb _ _ He].
  - by apply dated_none.
  - unfold Exec, run_exec. destruct (db_exec _ _ _) as [d r]. apply dated_none. intros. apply qc_clear_empties.
  - unfold Query. destruct (isSelectQuery q); rewrite run_query_cache; [|done]. cbn.
    eapply dated_weaken; [apply qc_get_keeps|reflexivity|exact IH].
  - unfold QueryRow. set (cdb' := if isSelectQuery q then _ else _).
    assert (dated past (cache cdb')) as Hd.
    { unfold cdb'. destruct (isSelectQuery q); [|done]. cbn. eapply dated_weaken; [apply qc_get_keeps|reflexivity|exact IH]. }
    rewrite <-(run_query_cache q vs cdb') in Hd. by destruct (run_query q vs cdb') as [c [[|]|]].
  - unfold Begin. by destruct (db_begin _).
  - done.
  - by apply dated_cached.
  - pose proof (dated_cached now q vs past cdb IH Hu) as Hd. unfold CachedQueryRow.
    by destruct (CachedQuery now q vs cdb) as [c [[|]|]].
  - apply dated_none. intros. apply qc_clear_empties.
  - by apply dated_none.
Qed.

(** C35: however calls follow one another and the database is changed by them and by
    others, and as long as the keys of the queries differ, [CachedQuery] answers a
    SELECT as the database does now, or as it did, with these rows, when a cached
    query was made before: after the last statement that went through [Exec] (or the
    last time the cache was cleared or replaced), and at most five minutes ago.  So it
    is as the database does now, rows or error, if the answer did not change at these
    moments; a change that does not go through [Exec], such as one of a transaction or
    a RETURNING statement, may go unseen ([returning_serves_stale]).  Other statements
    are refused. *)
Theorem cached_query_fresh now q vs past cdb :
  calls past cdb → used q vs →
  let r := (CachedQuery now q vs cdb).2 in
  if isSelectQuery q then
    (r = (db_query (db cdb) q vs).2 ∨
     ∃ t d rows, (t, d) ∈ past ∧ (GoTime.Sub now t <= 5 * GoTime.Minute)%Z ∧ (db_query d q vs).2 = Ok rows ∧ r = Ok rows) ∧
    ((∀ t d, (t, d) ∈ past → (db_query d q vs).2 = (db_query (db cdb) q vs).2) → r = (db_query (db cdb) q vs).2)
  else r = Err (Errorf "only SELECT queries can be cached" []) ∧ (CachedQuery now q vs cdb).1 = cdb.
Proof.
  intros Hd%calls_dated Hu r.
  assert (isSelectQuery q = true → r = (db_query (db cdb) q vs).2 ∨
    ∃ t d rows, (t, d) ∈ past ∧ (GoTime.Sub now t <= 5 * GoTime.Minute)%Z ∧ (db_query d q vs).2 = Ok rows ∧ r = Ok rows) as H.
  { intros Hsel. unfold r, CachedQuery. rewrite Hsel.
    pose proof (qc_found now (generateCacheKey q vs) (cache cdb)) as Hfound.
    destruct (qc_Get now (generateCacheKey q vs) (cache cdb)) as [c [v|]]; cbn in *.
    - right. destruct (Hd now q vs v Hu (Hfound v eq_refl)) as (t & d & Hin & Hq & Ht). exists t, d, v. auto.
    - left. by destruct (db_query (db cdb) q vs) as [d [rows|e]]. }
  destruct (isSelectQuery q) eqn:Hsel.
  - specialize (H eq_refl). split; [done|]. intros Hsame. destruct H as [|(t & d & rows & Hin & _ & Hq & ->)]; [done|].
    by rewrite <-(Hsame t d Hin).
  - unfold r, CachedQuery. by rewrite Hsel.
Qed.

End Fresh.
End CachedDB.

(** ** A database of one number *)

(** A statement that is not a SELECT adds one. *)
Definition ex_query (d : Z) (q : string) (vs : list string) : Z * result (list (Z * list string)) :=
  let d := if isSelectQuery q then d else (d + 1)%Z in (d, Ok [(d, vs)]).
Definition ex_exec (d : Z) (q : string) (vs : list string) : Z * result Z := ((d + 1)%Z, Ok 1%Z).
Definition ex_begin (d : Z) : Z * result unit := (d, Ok tt).
Definition ex_cached (d : Z) : CachedDB := MkCachedDB d (NewMemoryCache (V := list (Z * list string))).

Lemma cached_query_fresh_witness :
  let cdb := (CachedQuery id ex_query 0 "SELECT n" [] (ex_cached 5)).1 in
  let cdb := (Exec ex_exec "UPDATE n" [] cdb).1 in
  let cdb := (CachedQuery id ex_query 1 "SELECT n" [] cdb).1 in
  (CachedQuery id ex_query 2 "SELECT n" [] cdb).2 = Ok [(6%Z, [])].
Proof.
  intros cdb cdb' cdb''.
  destruct (cached_query_fresh id ex_query ex_exec ex_begin (λ q vs, q = "SELECT n" ∧ vs = [])
              ltac:(by intros q vs q' vs' [-> ->] [-> ->] _) 2 "SELECT n" [] [(1%Z, 6%Z)] cdb'') as [_ H].
  - apply (c_cached id ex_query ex_exec ex_begin _ 1 "SELECT n" [] [] cdb'); [|done].
    apply (c_exec id ex_query ex_exec ex_begin _ "UPDATE n" [] [(0%Z, 5%Z)] cdb).
    apply (c_cached id ex_query ex_exec ex_begin _ 0 "SELECT n" [] [] (ex_cached 5)); [|done].
    apply c_new. apply MC_may_new.
  - done.
  - rewrite H; [reflexivity|]. intros t d Hin. apply list_elem_of_singleton in Hin. injection Hin as -> ->. reflexivity.
Defined.

(** ** What the cached database does not handle *)

(** A statement with RETURNING goes through [Query], which does not clear the cache:
    the rows of before are served after it. *)
Theorem returning_serves_stale :
  let cdb := (CachedQuery id ex_query 0 "SELECT n" [] (ex_cached 5)).1 in
  let '(cdb, r) := Query id ex_query 1 "UPDATE n RETURNING n" [] cdb in
  r = Ok [(6%Z, [])] ∧ db cdb = 6%Z ∧ (CachedQuery id ex_query 2 "SELECT n" [] cdb).2 = Ok [(5%Z, [])].
Proof. vm_compute. done. Qed.

(** Arguments are written without a separator: another query's rows are
    returned, whatever the hash. *)
Theorem cache_key_collision (md5hex : string → string) :
  let cdb := (CachedQuery md5hex ex_query 0 "SELECT n WHERE a = ? AND b = ?" ["1"; "23"] (ex_cached 5)).1 in
  (CachedQuery md5hex ex_query 1 "SELECT n WHERE a = ? AND b = ?" ["12"; "3"] cdb).2 = Ok [(5%Z, ["1"; "23"])].
Proof.
  set (q := "SELECT n WHERE a = ? AND b = ?").
  assert (generateCacheKey md5hex q ["12"; "3"] = generateCacheKey md5hex q ["1"; "23"]) as Hkey by reflexivity.
  assert (isSelectQuery q = true) as Hsel by reflexivity.
  unfold CachedQuery, ex_query. rewrite Hkey, !Hsel. cbn [cache db ex_cached qc_Get qc_Set MC_QueryCache].
  rewrite MC_Get_new. cbn [fst cache db qc_Get qc_Set MC_QueryCache].
  pose proof (MC_Get_Set 0 1 (generateCacheKey md5hex q ["1"; "23"]) [(5%Z, ["1"; "23"])] cacheTTL
    NewMemoryCache eq_refl) as Hget.
  by destruct (MC_Get 1 _ _) as [c [v|]]; cbn in Hget; simplify_eq.
Qed.

(** A query between the invalidation and the statement of an [Exec] caches the
    old answer, which is served afterwards. *)
Theorem exec_races_query :
  let cdb := invalidateCacheForQuery (ex_cached 5) in
  let cdb := (CachedQuery id ex_query 0 "SELECT n" [] cdb).1 in
  let cdb := (run_exec ex_exec "UPDATE n" [] cdb).1 in
  db cdb = 6%Z ∧ (CachedQuery id ex_query 1 "SELECT n" [] cdb).2 = Ok [(5%Z, [])].
Proof. vm_compute. done. Qed.

(** ** A failover cache as the query cache *)

Section Adapter.
Context {V S : Type} `{!Storage V S}.

Definition Adapter_Get (now : Z) (key : string) (a : FailoverCache S) : FailoverCache S * option V :=
  Failover.Get now key a.

(** The adapter drops errors. *)
Definition Adapter_Set (now : Z) (key : string) (value : V) (ttl : Z) (a : FailoverCache S) : FailoverCache S :=
  (Set_ now key value ttl a).1.

Definition Adapter_Delete (key : string) (a : FailoverCache S) : FailoverCache S := (Failover.Delete key a).1.

Definition Adapter_Clear (a : FailoverCache S) : FailoverCache S := (Failover.Clear a).1.

Definition Adapter_Keys (a : FailoverCache S) : list string := Keys a.

#[export] Instance Adapter_QueryCache : QueryCache V (FailoverCache S) := {|
  qc_Get := Adapter_Get; qc_Set := Adapter_Set; qc_Delete := Adapter_Delete;
  qc_Clear := Adapter_Clear; qc_Keys := Adapter_Keys
|}.

End Adapter.

(** A directory of cache files. *)
Notation ex_rows := (list (Z * list string)).

#[local] Instance ex_rows_storage : Storage ex_rows (FileStorage (CacheEntry ex_rows)) :=
  File_Storage (λ e, Ok e) Some.

Definition ex_dir_cache (up : bool) (fs : gmap string (file (text := CacheEntry ex_rows))) :
    FailoverCache (FileStorage (CacheEntry ex_rows)) :=
  NewFailoverCache (Some (MkFileStorage "/tmp/failover_cache" ".failover" 1000 100 up fs)) None None 3 1 30.

Definition ex_recover (fc : FailoverCache (FileStorage (CacheEntry ex_rows))) (up : bool) :
    FailoverCache (FileStorage (CacheEntry ex_rows)) :=
  match primary fc with Some f => ex_dir_cache up (files f) | None => fc end.

(** The invalidation of an [Exec] fails while the directory is away and the
    adapter drops the error: when it is back, the old answer is served. *)
Theorem dropped_invalidation_serves_stale :
  let cdb := MkCachedDB 5%Z (ex_dir_cache true ∅) in
  let cdb := (CachedQuery id ex_query 0 "SELECT n" [] cdb).1 in
  let cdb := SetCache (ex_recover (cache cdb) false) cdb in
  let cdb := (Exec ex_exec "UPDATE n" [] cdb).1 in
  let cdb := SetCache (ex_recover (cache cdb) true) cdb in
  db cdb = 6%Z ∧ (CachedQuery id ex_query 1 "SELECT n" [] cdb).2 = Ok [(5%Z, [])].
Proof. vm_compute. done. Qed.
