(* ===== verification/Degradation.v ===== *)
(** * plugins/rpc/degradation.go: service degradation

    The manager's levels, the admission of methods, the metrics of the last
    minute with the automatic choice of a level, the concurrency limit, and the
    middleware.  The readings of the memory statistics and of the clock are
    arguments; what a handler returns is too.  The circuit breaker the manager
    can create is the one of [Breaker] and is left out here. *)

From S2P Require Import Prelude GoFloat.
Import GoError.

(** ** Levels and configuration *)

Definition DegradationLevel : Type := Z.
Definition DegradationLevelNormal : DegradationLevel := 0%Z.
Definition DegradationLevelLight : DegradationLevel := 1%Z.
Definition DegradationLevelMedium : DegradationLevel := 2%Z.
Definition DegradationLevelHeavy : DegradationLevel := 3%Z.
Definition DegradationLevelEmergency : DegradationLevel := 4%Z.

Definition Level_String (l : DegradationLevel) : string :=
  match l with
  | 0 => "normal"
  | 1 => "light"
  | 2 => "medium"
  | 3 => "heavy"
  | 4 => "emergency"
  | _ => "unknown"
  end%Z.

Record DegradationConfig := MkDegConfig {
  Enabled : bool;
  Level : DegradationLevel;
  AutoDetect : bool;
  CPUThreshold : float64;
  MemoryThreshold : float64;
  ErrorRateThreshold : float64;
  LatencyThreshold : Z;
  EssentialMethods : list string;
  DisabledMethods : list string
}.

Definition outside_percent (x : float64) : bool := fgt (of_int 0) x || fgt x (of_int 100).

Definition Validate (c : DegradationConfig) : option error :=
  if outside_percent (CPUThreshold c) then Some (Errorf "cpu_threshold must be between 0 and 100" [])
  else if outside_percent (MemoryThreshold c) then Some (Errorf "memory_threshold must be between 0 and 100" [])
  else if outside_percent (ErrorRateThreshold c) then Some (Errorf "error_rate_threshold must be between 0 and 100" [])
  else if (LatencyThreshold c <? 0)%Z then Some (Errorf "latency_threshold must be non-negative" [])
  else None.

Definition DefaultDegradationConfig : DegradationConfig :=
  MkDegConfig true DegradationLevelNormal true (of_int 80) (of_int 85) (of_int 50)
    (5 * GoTime.Second)%Z [] [].

(** ** The manager *)

Record metricEntry := MkMetric { timestamp : Z; duration : Z; failed : bool }.

Section Manager.
Context {P R : Type}.

(** A fallback maps the parameters of a call to its result. *)
Record DegradationManager := MkDegManager {
  config : DegradationConfig;
  currentLevel : DegradationLevel;
  fallbacks : gmap string (P → result R);
  methodLevels : gmap string DegradationLevel;
  windowSize : Z;
  requests : list metricEntry;
  notifies : bool;
  stopped : bool
}.

Definition NewDegradationManager (c : DegradationConfig) : result DegradationManager :=
  match Validate c with
  | Some e => Err e
  | None => Ok (MkDegManager c (Level c) ∅ ∅ GoTime.Minute [] false false)
  end.

Definition RegisterFallback (method : string) (f : P → result R) (dm : DegradationManager) :=
  MkDegManager (config dm) (currentLevel dm) (<[method := f]> (fallbacks dm)) (methodLevels dm)
    (windowSize dm) (requests dm) (notifies dm) (stopped dm).

Definition UnregisterFallback (method : string) (dm : DegradationManager) :=
  MkDegManager (config dm) (currentLevel dm) (delete method (fallbacks dm)) (methodLevels dm)
    (windowSize dm) (requests dm) (notifies dm) (stopped dm).

Definition SetMethodLevel (method : string) (l : DegradationLevel) (dm : DegradationManager) :=
  MkDegManager (config dm) (currentLevel dm) (fallbacks dm) (<[method := l]> (methodLevels dm))
    (windowSize dm) (requests dm) (notifies dm) (stopped dm).

Definition GetCurrentLevel (dm : DegradationManager) : DegradationLevel := currentLevel dm.

(** The new state and what the callback is called with. *)
Definition SetLevel (l : DegradationLevel) (dm : DegradationManager) :
    DegradationManager * list (DegradationLevel * DegradationLevel) :=
  (MkDegManager (config dm) l (fallbacks dm) (methodLevels dm) (windowSize dm) (requests dm)
     (notifies dm) (stopped dm),
   if negb (currentLevel dm =? l)%Z && notifies dm then [(currentLevel dm, l)] else []).

Definition OnLevelChange (dm : DegradationManager) : DegradationManager :=
  MkDegManager (config dm) (currentLevel dm) (fallbacks dm) (methodLevels dm) (windowSize dm)
    (requests dm) true (stopped dm).

Definition isNonEssentialMethod (method : string) : bool :=
  bool_decide (method ∈ ["list"; "set"; "hash"; "zset"; "geo"; "hyperloglog"]).

Definition isReadMethod (method : string) : bool :=
  bool_decide (method ∈ ["get"; "mget"; "hget"; "hgetall"; "lrange"; "smembers"]).

Definition isEssentialWriteMethod (method : string) : bool :=
  bool_decide (method ∈ ["set"; "hset"; "del"]).

Definition isEssentialReadMethod (method : string) : bool := bool_decide (method ∈ ["get"; "hget"]).

(** The switch on the level. *)
Definition allowed_at (l : DegradationLevel) (method : string) : bool :=
  match l with
  | 0 => true
  | 1 => negb (isNonEssentialMethod method)
  | 2 => isReadMethod method || isEssentialWriteMethod method
  | 3 => isEssentialReadMethod method
  | 4 => bool_decide (method = "ping") || bool_decide (method = "health")
  | _ => true
  end%Z.

Definition ShouldAllowMethod (method : string) (dm : DegradationManager) : bool :=
  match methodLevels dm !! method with
  | Some l => (currentLevel dm <=? l)%Z
  | None =>
      if bool_decide (method ∈ EssentialMethods (config dm)) then true
      else if bool_decide (method ∈ DisabledMethods (config dm)) then false
      else allowed_at (currentLevel dm) method
  end.

Definition GetFallback (method : string) (dm : DegradationManager) : option (P → result R) :=
  fallbacks dm !! method.

(** ** Metrics *)

Definition GetMetrics (dm : DegradationManager) : Z * Z * Z :=
  let total := Z.of_nat (length (requests dm)) in
  if (total =? 0)%Z then (0, 0, 0)%Z
  else
    let errors := Z.of_nat (length (filter (λ e, failed e = true) (requests dm))) in
    let latency := fold_left (λ s e, GoInt.i64 (s + duration e)) (requests dm) 0%Z in
    (total, errors, Z.quot latency total).

(** [sys] and [released] are the runtime's [Sys] and [HeapReleased]; the CPU
    usage is always zero. *)
Definition GetSystemMetrics (sys released : Z) : float64 * float64 :=
  (of_int 0,
   if (0 <? sys)%Z then fmul (fdiv (of_int (GoInt.u64 (sys - released))) (of_int sys)) (of_int 100)
   else of_int 0).

Definition set_requests (l : list metricEntry) (dm : DegradationManager) : DegradationManager :=
  MkDegManager (config dm) (currentLevel dm) (fallbacks dm) (methodLevels dm) (windowSize dm) l
    (notifies dm) (stopped dm).

Definition RecordMetrics (now : Z) (d : Z) (err : bool) (dm : DegradationManager) : DegradationManager :=
  if AutoDetect (config dm) then
    let windowStart := GoTime.Add now (- windowSize dm) in
    set_requests
      (filter (λ e, GoTime.After (timestamp e) windowStart = true) (requests dm) ++ [MkMetric now d err]) dm
  else dm.

(** The level [evaluateDegradation] chooses from the measurements. *)
Definition choose_level (c : DegradationConfig) (errorRate : float64) (avgLatency : Z)
    (cpuUsage memoryUsage : float64) : DegradationLevel :=
  let times n := GoInt.i64 (n * LatencyThreshold c) in
  let over r l u := fgt errorRate (of_int r) || (times l <? avgLatency)%Z ||
                    fgt cpuUsage u || fgt memoryUsage u in
  if fgt errorRate (ErrorRateThreshold c) || (LatencyThreshold c <? avgLatency)%Z ||
     fgt cpuUsage (CPUThreshold c) || fgt memoryUsage (MemoryThreshold c)
  then
    if over 80%Z 10%Z (of_int 95) then DegradationLevelEmergency
    else if over 50%Z 5%Z (of_int 90) then DegradationLevelHeavy
    else if fgt errorRate (of_int 20) || (times 2%Z <? avgLatency)%Z ||
            fgt cpuUsage (CPUThreshold c) || fgt memoryUsage (MemoryThreshold c)
    then DegradationLevelMedium
    else DegradationLevelLight
  else DegradationLevelNormal.

Definition evaluateDegradation (sys released : Z) (dm : DegradationManager) :
    DegradationManager * list (DegradationLevel * DegradationLevel) :=
  let '(total, errors, avgLatency) := GetMetrics dm in
  let '(cpuUsage, memoryUsage) := GetSystemMetrics sys released in
  if (total =? 0)%Z then (dm, [])
  else
    let errorRate := fmul (fdiv (of_int errors) (of_int total)) (of_int 100) in
    let newLevel := choose_level (config dm) errorRate avgLatency cpuUsage memoryUsage in
    if negb (newLevel =? currentLevel dm)%Z then SetLevel newLevel dm else (dm, []).

(** A tick of [autoDetectLoop], which runs only with automatic detection. *)
Definition auto_tick (sys released : Z) (dm : DegradationManager) :=
  if AutoDetect (config dm) && negb (stopped dm) then evaluateDegradation sys released dm else (dm, []).

Definition Close (dm : DegradationManager) : outcome DegradationManager :=
  if stopped dm then Panic "close of closed channel" []
  else Ret (MkDegManager (config dm) (currentLevel dm) (fallbacks dm) (methodLevels dm) (windowSize dm)
              (requests dm) (notifies dm) true).

(** ** The middleware *)

Definition ErrDegraded : error := Errorf "service temporarily unavailable due to degradation" [].

(** [handler params] is the result of the handler, which starts at [start] and
    ends at [now]. *)
Definition Wrap (handler : P → result R) (method : string) (params : P) (start now : Z)
    (dm : DegradationManager) : DegradationManager * result R :=
  if ShouldAllowMethod method dm then
    let r := handler params in
    (RecordMetrics now (GoTime.Sub now start) (match r with Err _ => true | Ok _ => false end) dm, r)
  else
    (dm, match GetFallback method dm with
         | Some fallback => fallback params
         | None => Err ErrDegraded
         end).

(** ** The window of metrics *)

Definition in_window (now w : Z) (e : metricEntry) : Prop := (now - w < timestamp e)%Z.

#[export] Instance in_window_dec now w e : Decision (in_window now w e).
Proof. unfold in_window. apply _. Defined.

Definition record_all (l : list metricEntry) (dm : DegradationManager) : DegradationManager :=
  fold_left (λ dm e, RecordMetrics (timestamp e) (duration e) (failed e) dm) l dm.

Lemma RecordMetrics_requests e dm :
  AutoDetect (config dm) = true →
  requests (RecordMetrics (timestamp e) (duration e) (failed e) dm) =
    filter (in_window (timestamp e) (windowSize dm)) (requests dm) ++ [e].
Proof.
  intros Hauto. unfold RecordMetrics. rewrite Hauto. cbn. f_equal; [|by destruct e].
  apply filter_ext_elem. intros x _. unfold GoTime.After, GoTime.Add, in_window.
  rewrite Z.ltb_lt. lia.
Qed.

Lemma RecordMetrics_config now d err dm :
  config (RecordMetrics now d err dm) = config dm ∧ windowSize (RecordMetrics now d err dm) = windowSize dm.
Proof. unfold RecordMetrics. by destruct (AutoDetect (config dm)). Qed.

Lemma filter_window_later now now' w (l : list metricEntry) :
  (now <= now')%Z → filter (in_window now' w) (filter (in_window now w) l) = filter (in_window now' w) l.
Proof.
  intros Hle. rewrite list_filter_filter. apply filter_ext_elem. intros x _.
  unfold in_window. split; [by intros [? ?]|]. intros Hx. split; [done|lia].
Qed.

(** Recording requests one after the other keeps exactly those of the window
    that ends at the last one. *)
Lemma record_all_window dm l e :
  AutoDetect (config dm) = true → requests dm = [] → (0 < windowSize dm)%Z →
  StronglySorted (λ a b, timestamp a <= timestamp b)%Z (l ++ [e]) →
  requests (record_all (l ++ [e]) dm) = filter (in_window (timestamp e) (windowSize dm)) (l ++ [e]).
Proof.
  intros Hauto Hempty Hw. revert e. induction l as [|x l IH] using rev_ind; intros e Hs.
  - cbn [record_all fold_left app]. rewrite RecordMetrics_requests by done.
    rewrite Hempty, filter_cons, decide_True; [done|].
    unfold in_window. lia.
  - unfold record_all in *. rewrite fold_left_app. cbn.
    set (dm' := fold_left _ (l ++ [x]) dm) in *.
    assert (config dm' = config dm ∧ windowSize dm' = windowSize dm) as [Hc Hwin].
    { subst dm'. clear IH Hs Hauto Hempty Hw. revert dm. induction (l ++ [x]) as [|y ys IH]; intros dm; [done|].
      cbn. destruct (IH (RecordMetrics (timestamp y) (duration y) (failed y) dm)) as [-> ->].
      apply RecordMetrics_config. }
    rewrite RecordMetrics_requests by (by rewrite Hc). rewrite Hwin.
    apply StronglySorted_app in Hs as (Hcross & Hs & _).
    unfold dm'. rewrite IH by done. rewrite filter_window_later.
    + rewrite (filter_app _ (l ++ [x])). f_equal. rewrite filter_cons, decide_True; [done|].
      unfold in_window. lia.
    + apply Hcross; set_solver.
Qed.

(** ** Methods and levels *)

(** Except for three methods, what a level allows every lower level allows. *)
Lemma levels_monotone l l' m :
  m ∉ ["set"; "ping"; "health"] → (0 <= l <= l')%Z → (l' <= 4)%Z →
  allowed_at l' m = true → allowed_at l m = true.
Proof.
  intros Hm Hl Hl' Ha.
  assert (l' = 0 ∨ l' = 1 ∨ l' = 2 ∨ l' = 3 ∨ l' = 4)%Z as Hcases by lia.
  assert (l = 0 ∨ l = 1 ∨ l = 2 ∨ l = 3 ∨ l = 4)%Z as Hcases' by lia.
  destruct Hcases as [->|[->|[->|[->| ->]]]], Hcases' as [->|[->|[->|[->| ->]]]]; try done; try lia.
  all: cbn in *; unfold isNonEssentialMethod, isReadMethod, isEssentialWriteMethod, isEssentialReadMethod in *.
  all: rewrite ?orb_true_iff, ?negb_true_iff, ?bool_decide_eq_true, ?bool_decide_eq_false in *.
  all: set_solver.
Qed.

(** ** Who recovers *)

(** What can happen while every call is refused. *)
Inductive quiet : DegradationManager → DegradationManager → Prop :=
| q_refused handler method params start now dm :
    ShouldAllowMethod method dm = false → quiet dm (Wrap handler method params start now dm).1
| q_tick sys released dm : quiet dm (auto_tick sys released dm).1.

Definition error_rate (dm : DegradationManager) : float64 :=
  let '(total, errors, _) := GetMetrics dm in
  fmul (fdiv (of_int errors) (of_int total)) (of_int 100).

(** Refused calls are not measured and old measurements are dropped only when
    a call is measured: with an error rate above 80 percent the manager stays
    in the emergency level as long as every call is refused, for ever when
    callers use no other method. *)
Theorem emergency_is_permanent dm dm' :
  requests dm ≠ [] → currentLevel dm = DegradationLevelEmergency →
  fgt (error_rate dm) (ErrorRateThreshold (config dm)) = true → fgt (error_rate dm) (of_int 80) = true →
  rtc quiet dm dm' → currentLevel dm' = DegradationLevelEmergency.
Proof.
  intros Hne Hl Ht H80 Hr.
  assert (requests dm' = requests dm ∧ config dm' = config dm ∧ currentLevel dm' = currentLevel dm)
    as (_ & _ & ->); [|done].
  induction Hr as [dm|dm dm1 dm2 Hstep _ IH]; [done|].
  assert (requests dm1 = requests dm ∧ config dm1 = config dm ∧ currentLevel dm1 = currentLevel dm)
    as (Hq & Hc & Hlev).
  { destruct Hstep as [h m p st now dm Hno|sys rel dm].
    - unfold Wrap. by rewrite Hno.
    - unfold auto_tick. destruct (_ && _); [|done]. unfold evaluateDegradation.
      unfold error_rate in *. destruct (GetMetrics dm) as [[total errors] lat].
      destruct (GetSystemMetrics sys rel) as [cpu mem]. destruct (total =? 0)%Z; [done|].
      unfold choose_level. rewrite Ht, H80. cbn. by rewrite Hl. }
  assert (error_rate dm1 = error_rate dm) as He.
  { unfold error_rate, GetMetrics. by rewrite Hq. }
  destruct IH as (-> & -> & ->); [by rewrite Hq|by rewrite Hlev|by rewrite He, Hc|by rewrite He|].
  done.
Qed.

End Manager.
Arguments DegradationManager : clear implicits.

(** ** The concurrency limit

    The calls of [AcquireConcurrencyToken] interleave at their atomic
    operations: a call reads the level, adds one to the counter, and takes it
    back when the sum is above the limit. *)

Definition concurrency_limit (l : DegradationLevel) : Z :=
  if (l =? DegradationLevelMedium)%Z then 50
  else if (l =? DegradationLevelHeavy)%Z || (l =? DegradationLevelEmergency)%Z then 20
  else 100.

Record tokens := MkTokens {
  level : DegradationLevel;
  activeRequests : Z;
  entering : list Z;
  leaving : nat;
  holders : nat
}.

(** [Some l] when a call is admitted under the limit [l]. *)
Inductive token_step : tokens → option Z → tokens → Prop :=
| t_level s l : token_step s None (MkTokens l (activeRequests s) (entering s) (leaving s) (holders s))
| t_read s :
    token_step s None
      (MkTokens (level s) (activeRequests s) (concurrency_limit (level s) :: entering s) (leaving s) (holders s))
| t_admit s before l after :
    entering s = before ++ l :: after → (GoInt.i64 (activeRequests s + 1) <= l)%Z →
    token_step s (Some l)
      (MkTokens (level s) (GoInt.i64 (activeRequests s + 1)) (before ++ after) (leaving s) (S (holders s)))
| t_reject s before l after :
    entering s = before ++ l :: after → (l < GoInt.i64 (activeRequests s + 1))%Z →
    token_step s None
      (MkTokens (level s) (GoInt.i64 (activeRequests s + 1)) (before ++ after) (S (leaving s)) (holders s))
| t_undo s n :
    leaving s = S n →
    token_step s None (MkTokens (level s) (GoInt.i64 (activeRequests s - 1)) (entering s) n (holders s))
| t_release s n :
    holders s = S n →
    token_step s None (MkTokens (level s) (GoInt.i64 (activeRequests s - 1)) (entering s) (leaving s) n).

Definition no_tokens (l : DegradationLevel) : tokens := MkTokens l 0 [] 0 0.

(** The state after [n] steps. *)
Inductive token_reach (l0 : DegradationLevel) : nat → tokens → Prop :=
| tr_init : token_reach l0 0 (no_tokens l0)
| tr_step n s o s' : token_reach l0 n s → token_step s o s' → token_reach l0 (S n) s'.

Lemma concurrency_limit_range l : (20 <= concurrency_limit l <= 100)%Z.
Proof. unfold concurrency_limit. repeat case_match; lia. Qed.

Lemma tokens_inv l0 n s :
  token_reach l0 n s → (Z.of_nat n < 2^62)%Z →
  activeRequests s = (Z.of_nat (holders s) + Z.of_nat (leaving s))%Z ∧ holders s + leaving s ≤ n ∧
  (Z.of_nat (holders s) <= 100)%Z ∧ Forall (λ l, 20 <= l <= 100)%Z (entering s).
Proof.
  induction 1 as [|n s o s' _ IH Hstep]; intros Hn; [cbn; split_and!; [done|lia|lia|constructor]|].
  destruct IH as (Ha & Hb & Hh & Hf); [lia|].
  destruct Hstep as [s l|s|s b l a He Hle|s b l a He Hlt|s k Hk|s k Hk]; cbn in *.
  - split_and!; [done|lia|done|done].
  - split_and!; [done|lia|done|]. constructor; [apply concurrency_limit_range|done].
  - rewrite GoInt.i64_id in * by in_range. rewrite He, Forall_app, Forall_cons in Hf.
    destruct Hf as (Hf1 & Hl & Hf2). split_and!; [lia|lia|lia|by apply Forall_app].
  - rewrite GoInt.i64_id in * by in_range. rewrite He, Forall_app, Forall_cons in Hf.
    destruct Hf as (Hf1 & Hl & Hf2). split_and!; [lia|lia|lia|by apply Forall_app].
  - rewrite GoInt.i64_id by in_range. split_and!; [lia|lia|lia|done].
  - rewrite GoInt.i64_id by in_range. split_and!; [lia|lia|lia|done].
Qed.

(** In every interleaving of calls, however the level changes, a request is
    admitted only when with it at most the limit of the level it has read hold
    a token, never more than a hundred hold one, and while no call is taking
    its count back a call is admitted whenever fewer than its limit hold one. *)
Theorem concurrency_bounded l0 n s :
  token_reach l0 n s → (Z.of_nat n < 2^62)%Z →
  (Z.of_nat (holders s) <= 100)%Z ∧
  (∀ l s', token_step s (Some l) s' → (Z.of_nat (holders s') <= l <= 100)%Z) ∧
  (∀ before l after, entering s = before ++ l :: after → leaving s = 0 → (Z.of_nat (holders s) < l)%Z →
     ∃ s', token_step s (Some l) s' ∧ holders s' = S (holders s)).
Proof.
  intros Hr Hn. destruct (tokens_inv l0 n s Hr Hn) as (Ha & Hb & Hh & Hf). split_and!; [done| |].
  - intros l s' Hstep. inversion Hstep as [| |s0 b l0' a He Hle| | |]; subst; cbn.
    rewrite GoInt.i64_id in Hle by in_range. rewrite He, Forall_app, Forall_cons in Hf. lia.
  - intros b l a He Hl Hlt. eexists. split; [|shelve]. apply (t_admit s b l a He).
    rewrite GoInt.i64_id by in_range. lia.
    Unshelve. done.
Qed.

Lemma concurrency_bounded_witness :
  let s := MkTokens DegradationLevelHeavy 0 [20%Z] 0 0 in
  ∃ s', token_step s (Some 20%Z) s' ∧ holders s' = 1.
Proof.
  destruct (concurrency_bounded DegradationLevelHeavy 1 (MkTokens DegradationLevelHeavy 0 [20%Z] 0 0))
    as (_ & _ & Hadmit).
  - apply (tr_step _ 0 (no_tokens DegradationLevelHeavy) None); [apply tr_init|].
    exact (t_read (no_tokens DegradationLevelHeavy)).
  - reflexivity.
  - apply (Hadmit [] 20%Z []); [reflexivity|reflexivity|reflexivity].
Defined.

(** *** Concrete behaviour *)

(** Light degradation refuses [set], which medium degradation allows; heavy
    degradation refuses [ping], which the emergency level allows. *)
Theorem levels_not_monotone :
  allowed_at DegradationLevelLight "set" = false ∧ allowed_at DegradationLevelMedium "set" = true ∧
  allowed_at DegradationLevelHeavy "ping" = false ∧ allowed_at DegradationLevelEmergency "ping" = true.
Proof. vm_compute. done. Qed.

(** A process that has returned no memory to the system counts as using all of
    it: one successful request and a tick lead to the emergency level. *)
Theorem fresh_process_is_emergency :
  match NewDegradationManager (P := unit) (R := unit) DefaultDegradationConfig with
  | Ok dm => (auto_tick 1000000 0 (RecordMetrics 0 1 false dm)).1.(currentLevel) = DegradationLevelEmergency
  | Err _ => False
  end.
Proof. vm_compute. done. Qed.
