(* ===== verification/Migration.v ===== *)
(** * plugins/db/migration/migrator.go: schema migrations

    A database is its schema and the tracking table, once that exists.  What an
    SQL text does to a schema ([exec]) and which transactions fail to begin or
    to commit are parameters.  Taken as given: creating the tracking table and
    reading the current version succeed (their errors are returned before
    anything is migrated); a transaction that does not commit changes nothing,
    which holds of databases with transactional DDL and not of MySQL, whose
    DDL commits by itself; and migrations of equal version keep the order in
    which they were added, where [sort.Slice] promises no order. *)

From S2P Require Import Prelude StableSort.
From stdpp Require Import pretty.
Import GoError.

Record Migration := MkMigration { Version : Z; Name : string; UpSQL : string; DownSQL : string }.

Record Migrator := MkMigrator { TableName : string; migrations : list Migration }.

Definition New : Migrator := MkMigrator "schema_migrations" [].

Definition Add (version : Z) (name upSQL downSQL : string) (m : Migrator) : Migrator :=
  MkMigrator (TableName m) (migrations m ++ [MkMigration version name upSQL downSQL]).

Section Migrate.
Context {D : Type} (exec : string → D → result D).
Context (begin_err commit_err : Migration → option error).

(** [applied] is the tracking table: names by version, the primary key. *)
Record database := MkDatabase { schema : D; applied : option (gmap Z string) }.

(** [CREATE TABLE IF NOT EXISTS]. *)
Definition Init (d : database) : database := MkDatabase (schema d) (Some (default ∅ (applied d))).

Definition ErrNoTable : error := Sentinel "sql: table does not exist".
Definition ErrDuplicateKey : error := Sentinel "sql: duplicate key".

(** [COALESCE(MAX(version), 0)]. *)
Definition max_version (t : gmap Z string) : Z :=
  match (map_to_list t).*1 with
  | [] => 0
  | v :: vs => foldr Z.max v vs
  end.

Definition GetCurrentVersion (d : database) : result Z :=
  match applied d with
  | None => Err ErrNoTable
  | Some t => Ok (max_version t)
  end.

Definition runUp (mg : Migration) (d : database) : database * option error :=
  match begin_err mg with
  | Some e => (d, Some e)
  | None =>
      match exec (UpSQL mg) (schema d) with
      | Err e => (d, Some (ErrorfW "up sql failed: %w" [] e))
      | Ok s =>
          match applied d with
          | None => (d, Some (ErrorfW "failed to record migration: %w" [] ErrNoTable))
          | Some t =>
              match t !! Version mg with
              | Some _ => (d, Some (ErrorfW "failed to record migration: %w" [] ErrDuplicateKey))
              | None =>
                  match commit_err mg with
                  | Some e => (d, Some e)
                  | None => (MkDatabase s (Some (<[Version mg := Name mg]> t)), None)
                  end
              end
          end
      end
  end.

Definition runDown (mg : Migration) (d : database) : database * option error :=
  match begin_err mg with
  | Some e => (d, Some e)
  | None =>
      match exec (DownSQL mg) (schema d) with
      | Err e => (d, Some (ErrorfW "down sql failed: %w" [] e))
      | Ok s =>
          match applied d with
          | None => (d, Some (ErrorfW "failed to remove migration record: %w" [] ErrNoTable))
          | Some t =>
              match commit_err mg with
              | Some e => (d, Some e)
              | None => (MkDatabase s (Some (delete (Version mg) t)), None)
              end
          end
      end
  end.

Definition by_version (a b : Migration) : bool := (Version a <? Version b)%Z.

(** The loop of [Up]. *)
Fixpoint up_loop (current : Z) (ms : list Migration) (d : database) : database * option error :=
  match ms with
  | [] => (d, None)
  | mg :: ms =>
      if (current <? Version mg)%Z then
        match runUp mg d with
        | (d, Some e) => (d, Some (ErrorfW "migration %d failed: %w" [pretty (Version mg)] e))
        | (d, None) => up_loop current ms d
        end
      else up_loop current ms d
  end.

(** The migrations are sorted in place. *)
Definition Up (m : Migrator) (d : database) : Migrator * database * option error :=
  let d := Init d in
  match GetCurrentVersion d with
  | Err e => (m, d, Some (ErrorfW "failed to get current version: %w" [] e))
  | Ok current =>
      let ms := sortSliceStable by_version (migrations m) in
      let '(d, e) := up_loop current ms d in
      (MkMigrator (TableName m) ms, d, e)
  end.

Definition Down (m : Migrator) (d : database) : database * option error :=
  match GetCurrentVersion d with
  | Err e => (d, Some e)
  | Ok current =>
      if (current =? 0)%Z then (d, Some (Errorf "no migrations to rollback" []))
      else
        match List.find (λ mg, (Version mg =? current)%Z) (migrations m) with
        | Some mg => runDown mg d
        | None => (d, Some (Errorf "migration %d not found" [pretty current]))
        end
  end.

Record MigrationStatus := MkStatus { st_Version : Z; st_Name : string; Applied : bool }.

Definition Status (m : Migrator) (d : database) : database * list MigrationStatus :=
  let d := Init d in
  let current := match GetCurrentVersion d with Ok v => v | Err _ => 0%Z end in
  (d, (λ mg, MkStatus (Version mg) (Name mg) (Version mg <=? current)%Z) <$> migrations m).

(** ** What [Up] applies *)

(** The migrations of a list committed one after the other. *)
Inductive ran : list Migration → database → database → Prop :=
| ran_nil d : ran [] d d
| ran_cons mg ms d d1 d2 : runUp mg d = (d1, None) → ran ms d1 d2 → ran (mg :: ms) d d2.

Lemma ran_snoc ms mg d d1 d2 : ran ms d d1 → runUp mg d1 = (d2, None) → ran (ms ++ [mg]) d d2.
Proof. induction 1; cbn; intros Hr; econstructor; eauto using ran_nil. Qed.

Lemma ran_app_inv ms ms' d d2 : ran (ms ++ ms') d d2 → ∃ d1, ran ms d d1 ∧ ran ms' d1 d2.
Proof.
  revert d. induction ms as [|mg ms IH]; cbn; intros d Hr; [by exists d; split; [constructor|]|].
  inversion Hr; subst. destruct (IH d1) as (d1' & ? & ?); [done|]. exists d1'. split; [by econstructor|done].
Qed.

Lemma runUp_fails mg d d' e : runUp mg d = (d', Some e) → d' = d.
Proof. unfold runUp. intros H. repeat case_match; by simplify_eq. Qed.

Lemma runUp_ok mg d d' :
  runUp mg d = (d', None) →
  ∃ t, applied d = Some t ∧ t !! Version mg = None ∧ exec (UpSQL mg) (schema d) = Ok (schema d') ∧
       applied d' = Some (<[Version mg := Name mg]> t) ∧ begin_err mg = None ∧ commit_err mg = None.
Proof. unfold runUp. intros H. repeat case_match; simplify_eq. cbn. eauto 10. Qed.

Definition pending (current : Z) (ms : list Migration) : list Migration :=
  filter (λ mg, (current < Version mg)%Z) ms.

(** The outcome of a run over the sorted migrations [ms]. *)
Definition up_outcome (current : Z) (ms : list Migration) (d d' : database) (e : option error) : Prop :=
  ∃ done rest, pending current ms = done ++ rest ∧ ran done d d' ∧
    match e with
    | None => rest = []
    | Some e => ∃ mg rest' cause, rest = mg :: rest' ∧ runUp mg d' = (d', Some cause) ∧
                  e = ErrorfW "migration %d failed: %w" [pretty (Version mg)] cause
    end.

Lemma up_loop_outcome current ms d d' e :
  up_loop current ms d = (d', e) → up_outcome current ms d d' e.
Proof.
  unfold up_outcome, pending. revert d. induction ms as [|mg ms IH]; intros d; cbn [up_loop].
  { intros [= <- <-]. exists [], []. split_and!; [done|constructor|done]. }
  destruct (Z.ltb_spec current (Version mg)) as [Hlt|Hge].
  - rewrite filter_cons, decide_True by done. destruct (runUp mg d) as [d1 [e1|]] eqn:Hr.
    + intros [= <- <-]. pose proof (runUp_fails _ _ _ _ Hr) as ->.
      eexists [], (mg :: _). split_and!; [done|constructor|]. eauto 10.
    + intros (done & rest & Heq & Hran & He)%IH. exists (mg :: done), rest.
      split_and!; [cbn; by f_equal|by econstructor|done].
  - rewrite filter_cons, decide_False by lia. apply IH.
Qed.

Lemma StronglySorted_filter {A} (R : relation A) (P : A → Prop) `{!∀ x, Decision (P x)} l :
  StronglySorted R l → StronglySorted R (filter P l).
Proof.
  induction 1 as [|x l _ IH Hx]; [constructor|]. rewrite filter_cons. case_decide; [|done].
  constructor; [done|]. rewrite Forall_forall in Hx |- *. intros y [_ Hy]%list_elem_of_filter. by apply Hx.
Qed.

Lemma by_version_sorted ms :
  NoDup (Version <$> ms) →
  StronglySorted (λ a b, Version a < Version b)%Z (sortSliceStable by_version ms).
Proof.
  intros Hnd.
  assert (StronglySorted (not_less by_version) (sortSliceStable by_version ms)) as Hs.
  { apply sortSliceStable_sorted.
    - unfold not_less, by_version. intros a b. rewrite Z.ltb_lt, Z.ltb_ge. lia.
    - unfold not_less, by_version. intros a b c. rewrite !Z.ltb_ge. lia. }
  assert (NoDup (Version <$> sortSliceStable by_version ms)) as Hnd'.
  { by rewrite sortSliceStable_perm. }
  clear Hnd. induction Hs as [|x l Hl IH Hx]; [constructor|].
  rewrite fmap_cons, NoDup_cons in Hnd'. destruct Hnd' as [Hnew Hnd']. constructor; [by apply IH|].
  rewrite Forall_forall in Hx |- *. intros y Hy. specialize (Hx y Hy).
  unfold not_less, by_version in Hx. rewrite Z.ltb_ge in Hx.
  assert (Version y ≠ Version x); [|lia]. intros Heq. apply Hnew. rewrite <-Heq.
  by apply list_elem_of_fmap_2.
Qed.

(** ** Rolling back *)

Lemma foldr_max_spec x l :
  (∀ v, v ∈ x :: l → (v <= foldr Z.max x l)%Z) ∧ foldr Z.max x l ∈ x :: l.
Proof.
  induction l as [|y l [Hmax Helem]]; cbn.
  { split; [intros v ->%list_elem_of_singleton; lia|by left]. }
  split.
  - intros v [->|[->|Hv]%elem_of_cons]%elem_of_cons; [|lia|].
    + pose proof (Hmax x ltac:(by left)). lia.
    + pose proof (Hmax v ltac:(by right)). lia.
  - destruct (Z.max_spec y (foldr Z.max x l)) as [[_ ->]|[_ ->]]; set_solver.
Qed.

Lemma max_version_spec t :
  (∀ v, is_Some (t !! v) → (v <= max_version t)%Z) ∧
  (t = ∅ ∧ max_version t = 0%Z ∨ is_Some (t !! max_version t)).
Proof.
  unfold max_version.
  assert (∀ v, is_Some (t !! v) ↔ v ∈ (map_to_list t).*1) as Hin.
  { intros v. rewrite list_elem_of_fmap. split.
    - intros [n Hn]. exists (v, n). split; [done|]. by apply elem_of_map_to_list.
    - intros ([v' n] & -> & Hn). apply elem_of_map_to_list in Hn. cbn. eauto. }
  destruct ((map_to_list t).*1) as [|x l] eqn:Hl.
  { split; [intros v Hv; apply Hin in Hv; by inversion Hv|]. left. split; [|done].
    apply fmap_nil_inv in Hl. by apply map_to_list_empty_iff. }
  destruct (foldr_max_spec x l) as [Hmax Helem]. split.
  - intros v Hv. by apply Hmax, Hin.
  - right. by apply Hin.
Qed.

(** The newest migration of a table. *)
Lemma max_version_insert t v n :
  (∀ u, is_Some (t !! u) → (u < v)%Z) → max_version (<[v := n]> t) = v.
Proof.
  intros Hlt. destruct (max_version_spec (<[v := n]> t)) as [Hmax [[He _]|Hin]].
  { by apply insert_non_empty in He. }
  assert (v <= max_version (<[v := n]> t))%Z as Hle.
  { apply Hmax. rewrite lookup_insert_eq. eauto. }
  destruct (decide (max_version (<[v := n]> t) = v)) as [|Hne]; [done|].
  rewrite lookup_insert_ne in Hin by done. specialize (Hlt _ Hin). lia.
Qed.

Fixpoint downs (n : nat) (m : Migrator) (d : database) : database * option error :=
  match n with
  | 0 => (d, None)
  | S n =>
      match Down m d with
      | (d, Some e) => (d, Some e)
      | (d, None) => downs n m d
      end
  end.

(** One [Down] undoes the last migration that ran. *)
Lemma Down_undoes m mg d d' t :
  mg ∈ migrations m → NoDup (Version <$> migrations m) → (0 < Version mg)%Z →
  applied d = Some t → (∀ v, is_Some (t !! v) → (v < Version mg)%Z) →
  runUp mg d = (d', None) →
  (∀ s s', exec (UpSQL mg) s = Ok s' → exec (DownSQL mg) s' = Ok s) →
  Down m d' = (d, None).
Proof.
  intros Hin Hnd Hpos Ht Hlt Hrun Hinv.
  destruct (runUp_ok _ _ _ Hrun) as (t' & Ht' & Hfresh & Hup & Happ & Hb & Hc).
  rewrite Ht in Ht'. injection Ht' as <-.
  unfold Down, GetCurrentVersion. rewrite Happ, max_version_insert by done.
  destruct (Z.eqb_spec (Version mg) 0) as [|_]; [lia|].
  assert (List.find (λ x, (Version x =? Version mg)%Z) (migrations m) = Some mg) as ->.
  { destruct (List.find _ _) as [x|] eqn:Hf.
    - apply List.find_some in Hf as [Hx Heq%Z.eqb_eq]. f_equal.
      apply list_elem_of_In in Hx. by eapply NoDup_fmap_inj_elem.
    - apply list_elem_of_In in Hin. pose proof (List.find_none _ _ Hf mg Hin) as Hne.
      cbn in Hne. by rewrite Z.eqb_refl in Hne. }
  unfold runDown. rewrite Hb, (Hinv _ _ Hup), Happ, Hc. f_equal. destruct d as [s a]. cbn in *. subst a.
  f_equal. f_equal. by apply delete_insert_id.
Qed.

(** Migrations above everything in the table are rolled back one by one. *)
Lemma downs_undo m ms d d' t :
  (∀ mg, mg ∈ ms → mg ∈ migrations m) → NoDup (Version <$> migrations m) →
  Forall (λ mg, 0 < Version mg)%Z ms → StronglySorted (λ a b, Version a < Version b)%Z ms →
  applied d = Some t → (∀ v mg, is_Some (t !! v) → mg ∈ ms → (v < Version mg)%Z) →
  (∀ mg, mg ∈ ms → ∀ s s', exec (UpSQL mg) s = Ok s' → exec (DownSQL mg) s' = Ok s) →
  ran ms d d' → downs (length ms) m d' = (d, None).
Proof.
  intros Hin Hnd Hpos Hs Ht Hlt Hinv. revert d'. induction ms as [|mg ms IH] using rev_ind; intros d' Hran.
  { by inversion Hran. }
  rewrite length_app, Nat.add_comm. cbn [length Nat.add downs].
  apply ran_app_inv in Hran as (d1 & Hran1 & Hran2). inversion Hran2 as [|? ? ? ? ? Hrun Hnil]; subst.
  inversion Hnil; subst. apply StronglySorted_app in Hs as (Hcross & Hs & _).
  apply Forall_app in Hpos as [Hpos [Hp _]%Forall_cons].
  assert (∃ t1, applied d1 = Some t1 ∧ ∀ v, is_Some (t1 !! v) → (v < Version mg)%Z) as (t1 & Ht1 & Hlt1).
  { assert (∀ v, is_Some (t !! v) → (v < Version mg)%Z) as Hlt0 by (intros v Hv; apply Hlt; set_solver).
    assert (∀ x, x ∈ ms → (Version x < Version mg)%Z) as Hms by (intros x Hx; apply Hcross; set_solver).
    clear -Hran1 Ht Hlt0 Hms. revert t Ht Hlt0. induction Hran1 as [d|x xs d d1 d2 Hrun _ IH]; intros t Ht Hlt0; [eauto|].
    destruct (runUp_ok _ _ _ Hrun) as (t' & Ht' & _ & _ & Happ & _). rewrite Ht in Ht'. injection Ht' as <-.
    apply (IH ltac:(intros y Hy; apply Hms; by right) _ Happ).
    intros v [n [[<- _]|[_ Hv]]%lookup_insert_Some]; [apply Hms; by left|]. apply Hlt0. eauto. }
  rewrite (Down_undoes m mg d1 d' t1); [|apply Hin; set_solver|done|done|done|done|done|apply Hinv; set_solver].
  apply IH; [..|done].
  - intros x Hx. apply Hin. set_solver.
  - done.
  - done.
  - intros v x Hv Hx. apply Hlt; [done|set_solver].
  - intros x Hx. apply Hinv. set_solver.
Qed.

(** C36: [Up] runs exactly the migrations above the current version, in version
    order, each in its own transaction; at the first that fails it stops with an
    error that names it, having applied and recorded all before it and nothing
    of it.  With distinct positive versions and down scripts that undo their up
    scripts, as many [Down]s as [Up] has run migrations restore the schema and
    the tracking table. *)
Theorem migrations_up_down m d m' d' e :
  Up m d = (m', d', e) →
  let current := max_version (default ∅ (applied d)) in
  let sorted := sortSliceStable by_version (migrations m) in
  migrations m' = sorted ∧ up_outcome current sorted (Init d) d' e ∧
  (e = None → NoDup (Version <$> migrations m) → Forall (λ mg, 0 < Version mg)%Z (migrations m) →
   (∀ mg, mg ∈ migrations m → ∀ s s', exec (UpSQL mg) s = Ok s' → exec (DownSQL mg) s' = Ok s) →
   downs (length (pending current sorted)) m' d' = (Init d, None)).
Proof.
  unfold Up. cbn. destruct (up_loop _ _ _) as [d1 e1] eqn:Hloop. intros [= <- <- <-].
  pose proof (up_loop_outcome _ _ _ _ _ Hloop) as Hout.
  set (current := max_version _) in *. set (sorted := sortSliceStable _ _) in *.
  split_and!; [done|done|]. intros -> Hnd Hpos Hinv.
  assert (sorted ≡ₚ migrations m) as HP by apply sortSliceStable_perm.
  destruct Hout as (done & rest & Heq & Hran & ->). rewrite app_nil_r in Heq. rewrite Heq.
  assert (∀ mg, mg ∈ done → (current < Version mg)%Z ∧ mg ∈ sorted) as Hdone.
  { intros mg Hmg. rewrite <-Heq in Hmg. by apply list_elem_of_filter in Hmg. }
  apply (downs_undo _ done _ _ (default ∅ (applied d))); cbn.
  - intros mg Hmg. by apply Hdone.
  - unfold sorted. by rewrite sortSliceStable_perm.
  - apply Forall_forall. intros mg [_ Hmg]%Hdone. rewrite HP in Hmg. rewrite Forall_forall in Hpos. by apply Hpos.
  - rewrite <-Heq. apply StronglySorted_filter, by_version_sorted, Hnd.
  - done.
  - intros v mg Hv [Hmg _]%Hdone. destruct (max_version_spec (default ∅ (applied d))) as [Hmax _].
    specialize (Hmax v Hv). unfold current in Hmg. lia.
  - intros mg [_ Hmg]%Hdone. rewrite HP in Hmg. by apply Hinv.
  - done.
Qed.

End Migrate.
Arguments database : clear implicits.

(** A schema is the list of its objects. *)
Definition ex_sql (q : string) (s : list string) : result (list string) :=
  match q with
  | "DROP" => match s with [] => Err ErrNoTable | _ :: s => Ok s end
  | _ => Ok (q :: s)
  end.

Definition ex_migrator : Migrator :=
  Add 2 "b" "B" "DROP" (Add 1 "a" "A" "DROP" New).

Lemma migrations_up_down_witness :
  downs ex_sql (λ _, None) (λ _, None) 2 (MkMigrator "schema_migrations" (sortSliceStable by_version (migrations ex_migrator)))
    (MkDatabase ["B"; "A"] (Some {[1%Z := "a"; 2%Z := "b"]})) = (MkDatabase [] (Some ∅), None).
Proof.
  destruct (migrations_up_down ex_sql (λ _, None) (λ _, None) ex_migrator (MkDatabase [] None)
    (MkMigrator "schema_migrations" (sortSliceStable by_version (migrations ex_migrator)))
    (MkDatabase ["B"; "A"] (Some {[1%Z := "a"; 2%Z := "b"]})) None) as (_ & _ & Hdown).
  - vm_compute. reflexivity.
  - apply Hdown; [reflexivity|apply (bool_decide_unpack _); vm_compute; exact I|repeat constructor|].
    intros mg Hmg s s'. cbn in Hmg.
    assert (mg = MkMigration 1 "a" "A" "DROP" ∨ mg = MkMigration 2 "b" "B" "DROP") as [-> | ->] by set_solver;
      cbn; by intros [= <-].
Defined.

(** ** What the migrator does not handle *)

(** A migration added below the current version is never run, and its status
    says that it is applied. *)
Theorem late_migration_reported_applied :
  let m := Add 1 "a" "A" "DROP" New in
  let d := MkDatabase ["B"] (Some {[2%Z := "b"]}) in
  let '(_, d', e) := Up ex_sql (λ _, None) (λ _, None) m d in
  e = None ∧ schema d' = ["B"] ∧ (Status m d').2 = [MkStatus 1 "a" true].
Proof. vm_compute. done. Qed.
