(* ===== verification/TxManager.v ===== *)
(** * plugins/db/orm: the transaction manager

    transaction_manager.go and transaction_manager_impl.go: the classification
    of errors, the retry strategy, [WithTransaction] with an optional
    coordinator, [WithRetry], nested transactions and the metrics.  What the
    database, the function and the coordinator return is given per attempt; the
    text of an error is a parameter.  Delays, tracing and the monitor's log
    lines are left out; the database is a [*DBWrapper].  A [Commit] that
    returns an error is taken as not committed: if the database committed and
    only the acknowledgement was lost, an error that counts as retryable
    ("connection reset") makes the function run and commit again, which no
    theorem here speaks about. *)

From S2P Require Import Prelude OrmUtil.
From stdpp Require Import pretty.
From Stdlib Require Import Ascii.
Import GoError.

(** ** Error classification *)

(** The patterns are [(?i)lit] and [(?i)lit.*lit]. *)
Inductive pattern := Lit (a : string) | Seq (a b : string).

Fixpoint contains (p s : string) : bool :=
  String.prefix p s || match s with String.EmptyString => false | String.String _ s => contains p s end.

(** [b] later on the same line. *)
Fixpoint later (b s : string) : bool :=
  String.prefix b s ||
  match s with
  | String.EmptyString => false
  | String.String c s => negb (bool_decide (c = "010"%char)) && later b s
  end.

Fixpoint contains_seq (a b s : string) : bool :=
  (String.prefix a s && later b (String.substring (String.length a) (String.length s) s)) ||
  match s with String.EmptyString => false | String.String _ s => contains_seq a b s end.

(** Case is folded by comparing upper case. *)
Definition MatchString (p : pattern) (text : string) : bool :=
  match p with
  | Lit a => contains (ToUpper a) (ToUpper text)
  | Seq a b => contains_seq (ToUpper a) (ToUpper b) (ToUpper text)
  end.

Definition retryablePatterns : list pattern :=
  [Seq "connection" "refused"; Seq "connection" "reset"; Seq "connection" "lost"; Lit "deadlock";
   Lit "lock wait timeout"; Lit "serialization failure"; Lit "could not serialize access"; Lit "timeout";
   Lit "temporary"; Lit "too many connections"; Lit "connection pool exhausted"; Seq "network" "error";
   Seq "read" "timeout"; Seq "write" "timeout"].

Definition deadlockPatterns : list pattern :=
  [Lit "deadlock"; Lit "lock wait timeout"; Lit "serialization failure"; Lit "could not serialize access"].

Definition timeoutPatterns : list pattern := [Lit "timeout"; Lit "deadline exceeded"; Seq "context" "canceled"].

Definition connectionPatterns : list pattern :=
  [Seq "connection" "refused"; Seq "connection" "reset"; Seq "connection" "lost"; Lit "too many connections";
   Lit "connection pool exhausted"].

Definition constraintPatterns : list pattern :=
  [Lit "unique constraint"; Lit "foreign key constraint"; Lit "check constraint"; Lit "not null constraint";
   Lit "duplicate key"].

Definition permissionPatterns : list pattern := [Lit "permission denied"; Lit "access denied"; Lit "unauthorized"].

Definition resourcePatterns : list pattern := [Lit "out of memory"; Lit "disk full"; Lit "quota exceeded"].

Inductive ErrorType :=
| ErrorTypeConnection | ErrorTypeTimeout | ErrorTypeDeadlock | ErrorTypeConstraint
| ErrorTypePermission | ErrorTypeResource | ErrorTypeLogic | ErrorTypeUnknown.

#[export] Instance ErrorType_eq_dec : EqDecision ErrorType.
Proof. solve_decision. Defined.

Inductive ErrorSeverity := SeverityLow | SeverityMedium | SeverityHigh | SeverityCritical.

Record ErrorClassification := MkClass {
  Type_ : ErrorType;
  Retryable : bool;
  Transient : bool;
  Severity : ErrorSeverity;
  Category : string
}.

Definition any_match (ps : list pattern) (text : string) : bool := existsb (λ p, MatchString p text) ps.

(** [None] is the nil error. *)
Definition ClassifyError (err : option string) : ErrorClassification :=
  match err with
  | None => MkClass ErrorTypeUnknown false false SeverityLow ""
  | Some text =>
      if any_match deadlockPatterns text then MkClass ErrorTypeDeadlock true true SeverityHigh "concurrency"
      else if any_match timeoutPatterns text then MkClass ErrorTypeTimeout true true SeverityMedium "performance"
      else if any_match connectionPatterns text then MkClass ErrorTypeConnection true true SeverityHigh "infrastructure"
      else if any_match constraintPatterns text then MkClass ErrorTypeConstraint false false SeverityMedium "data_integrity"
      else if any_match permissionPatterns text then MkClass ErrorTypePermission false false SeverityCritical "security"
      else if any_match resourcePatterns text then MkClass ErrorTypeResource false false SeverityCritical "infrastructure"
      else if any_match retryablePatterns text then MkClass ErrorTypeConnection true true SeverityMedium "infrastructure"
      else MkClass ErrorTypeLogic false false SeverityLow "application"
  end.

Definition IsRetryable (err : option string) : bool := Retryable (ClassifyError err).
Definition IsTransient (err : option string) : bool := Transient (ClassifyError err).

(** ** The manager *)

Record TransactionMetrics := MkTxMetrics {
  TotalTransactions : Z;
  SuccessfulTransactions : Z;
  FailedTransactions : Z;
  RetriedTransactions : Z;
  AvgDuration : Z;
  MaxDuration : Z;
  MinDuration : Z
}.

(** The fields the modelled operations read. *)
Record TransactionConfig := MkTxConfig {
  MaxRetries : Z;
  EnableMetrics : bool;
  EnableDistributed : bool
}.

(** The retry strategy keeps the configuration it was created with. *)
Record TransactionManager := MkTxManager {
  config : TransactionConfig;
  strategy : TransactionConfig;
  coordinator : bool;
  metrics : TransactionMetrics;
  activeTxCount : Z;
  totalTxCount : Z
}.

Definition no_metrics : TransactionMetrics := MkTxMetrics 0 0 0 0 0 0 0.

Definition NewTransactionManager (c : TransactionConfig) (coordinatorURL : string) : TransactionManager :=
  let c := MkTxConfig (if (MaxRetries c =? 0)%Z then 3 else MaxRetries c) (EnableMetrics c) (EnableDistributed c) in
  MkTxManager c c (EnableDistributed c && negb (bool_decide (coordinatorURL = ""))) no_metrics 0 0.

Definition SetConfig (c : TransactionConfig) (tm : TransactionManager) : TransactionManager :=
  MkTxManager c (strategy tm) (coordinator tm) (metrics tm) (activeTxCount tm) (totalTxCount tm).

(** Without the identifier, the options and the times. *)
Record TransactionResult := MkTxResult {
  Success : bool;
  Retries : Z;
  Error : option error;
  RetryAttempts : list (option error)
}.

(** [result.Duration] is given. *)
Definition updateMetrics (duration : Z) (success retried : bool) (enabled : bool) (m : TransactionMetrics) :
    TransactionMetrics :=
  if enabled then
    let total := (TotalTransactions m + 1)%Z in
    MkTxMetrics total
      (if success then SuccessfulTransactions m + 1 else SuccessfulTransactions m)%Z
      (if success then FailedTransactions m else FailedTransactions m + 1)%Z
      (if retried then RetriedTransactions m + 1 else RetriedTransactions m)%Z
      (Z.quot (GoInt.i64 (GoInt.i64 (AvgDuration m * (total - 1)) + duration)) total)
      (Z.max duration (MaxDuration m))
      (if (MinDuration m =? 0)%Z || (duration <? MinDuration m)%Z then duration else MinDuration m)
  else m.

Definition ResetMetrics (tm : TransactionManager) : TransactionManager :=
  MkTxManager (config tm) (strategy tm) (coordinator tm) no_metrics (activeTxCount tm) (totalTxCount tm).

Section Run.
Context (error_text : error → string).

Definition ShouldRetry (tm : TransactionManager) (attempt : Z) (err : error) : bool :=
  if (MaxRetries (strategy tm) <=? attempt)%Z then false else IsRetryable (Some (error_text err)).

(** What the outside does: per attempt the errors of beginning, of the function
    and of committing, and whether the context ends during the wait; and the
    errors of the coordinator. *)
Record environment := MkEnv {
  begin_out : nat → option error;
  fn_out : nat → option error;
  commit_out : nat → option error;
  ctx_done : nat → option error;
  coord_begin : option error;
  coord_commit : option error;
  coord_rollback : option error
}.

(** What is done, in order. *)
Inductive event :=
| EBegin (n : nat) (ok : bool)
| ERun (n : nat)
| ECommit (n : nat) (ok : bool)
| ERollback (n : nat)
| ECoordBegin | ECoordCommit | ECoordRollback.

Definition is_nil (e : option error) : bool := match e with None => true | Some _ => false end.

(** Attempt [n]; a transaction that is not committed is rolled back. *)
Definition executeTransactionOnce (env : environment) (n : nat) : list event * option error :=
  match begin_out env n with
  | Some e => ([EBegin n false], Some e)
  | None =>
      match fn_out env n with
      | Some e => ([EBegin n true; ERun n; ERollback n], Some e)
      | None =>
          match commit_out env n with
          | Some e => ([EBegin n true; ERun n; ECommit n false; ERollback n], Some e)
          | None => ([EBegin n true; ERun n; ECommit n true], None)
          end
      end
  end.

Definition distributed (tm : TransactionManager) : bool := EnableDistributed (config tm) && coordinator tm.

(** The end of a failed transaction: the coordinator is told to roll back. *)
Definition fail_with (tm : TransactionManager) (env : environment) (retries : Z) (err : error)
    (attempts : list (option error)) : list event * TransactionResult :=
  let err := if distributed tm then
               match coord_rollback env with
               | Some re => Joined [err; ErrorfW "rollback distributed transaction: %w" [] re]
               | None => err
               end
             else err in
  (if distributed tm then [ECoordRollback] else [], MkTxResult false retries (Some err) attempts).

(** [attempt] is the number of the next attempt and [rest] how many may follow;
    the last error is kept for the end of the loop. *)
Fixpoint tx_loop (tm : TransactionManager) (env : environment) (rest attempt : nat)
    (attempts : list (option error)) (lastErr : option error) : list event * TransactionResult :=
  match rest with
  | O =>
      let cause := match lastErr with
                   | Some e => ErrorfW "transaction failed after %d attempts: %w" [pretty (MaxRetries (config tm) + 1)%Z] e
                   | None => Errorf "transaction failed after %d attempts: %w" [pretty (MaxRetries (config tm) + 1)%Z]
                   end in
      fail_with tm env (MaxRetries (config tm)) cause attempts
  | S rest =>
      let '(es, err) := executeTransactionOnce env attempt in
      let attempts := attempts ++ [err] in
      match err with
      | None =>
          if distributed tm then
            match coord_commit env with
            | Some ce =>
                (es ++ [ECoordCommit],
                 MkTxResult false (Z.of_nat attempt)
                   (Some (ErrorfW "failed to commit distributed transaction: %w" [] ce)) attempts)
            | None => (es ++ [ECoordCommit], MkTxResult true (Z.of_nat attempt) None attempts)
            end
          else (es, MkTxResult true (Z.of_nat attempt) None attempts)
      | Some e =>
          if ShouldRetry tm (Z.of_nat attempt) e then
            match (if (Z.of_nat attempt <? MaxRetries (config tm))%Z then ctx_done env attempt else None) with
            | Some ce =>
                let '(es', r) := fail_with tm env (Z.of_nat attempt) ce attempts in (es ++ es', r)
            | None =>
                let '(es', r) := tx_loop tm env rest (S attempt) attempts (Some e) in (es ++ es', r)
            end
          else
            let '(es', r) := fail_with tm env (Z.of_nat attempt) e attempts in (es ++ es', r)
      end
  end.

Definition with_metrics (tm : TransactionManager) (m : TransactionMetrics) : TransactionManager :=
  MkTxManager (config tm) (strategy tm) (coordinator tm) m (activeTxCount tm) (totalTxCount tm + 2).

(** The transaction counter is raised when the identifier is made and again at
    the start.  The metrics are updated before the coordinator commits. *)
Definition WithTransaction (env : environment) (duration : Z) (tm : TransactionManager) :
    TransactionManager * list event * TransactionResult :=
  match (if distributed tm then coord_begin env else None) with
  | Some e =>
      (with_metrics tm (metrics tm), [ECoordBegin],
       MkTxResult false 0 (Some (ErrorfW "failed to begin distributed transaction: %w" [] e)) [])
  | None =>
      let '(es, r) := tx_loop tm env (Z.to_nat (MaxRetries (config tm) + 1)) 0 [] None in
      let ok := Success r || existsb (λ e, match e with ECoordCommit => true | _ => false end) es in
      (with_metrics tm (updateMetrics duration ok (0 <? Retries r)%Z (EnableMetrics (config tm)) (metrics tm)),
       (if distributed tm then [ECoordBegin] else []) ++ es, r)
  end.

(** [WithRetry] of a function whose calls return [fn_out]. *)
Fixpoint retry_loop (tm : TransactionManager) (env : environment) (rest attempt : nat) (lastErr : option error) :
    nat * option error :=
  match rest with
  | O =>
      (attempt, Some (match lastErr with
                      | Some e => ErrorfW "operation failed after %d attempts: %w" [pretty (MaxRetries (config tm) + 1)%Z] e
                      | None => Errorf "operation failed after %d attempts: %w" [pretty (MaxRetries (config tm) + 1)%Z]
                      end))
  | S rest =>
      match fn_out env attempt with
      | None => (S attempt, None)
      | Some e =>
          if ShouldRetry tm (Z.of_nat attempt) e then
            match (if (Z.of_nat attempt <? MaxRetries (config tm))%Z then ctx_done env attempt else None) with
            | Some ce => (S attempt, Some ce)
            | None => retry_loop tm env rest (S attempt) (Some e)
            end
          else (S attempt, Some e)
      end
  end.

(** The number of calls and the result. *)
Definition WithRetry (env : environment) (tm : TransactionManager) : nat * option error :=
  retry_loop tm env (Z.to_nat (MaxRetries (config tm) + 1)) 0 None.

(** [WithNestedTransaction]: the statements sent around the function. *)
Definition WithNestedTransaction (name : string) (create rollback release fn : option error) :
    list string * option error :=
  match create with
  | Some e => (["SAVEPOINT " +:+ name], Some (ErrorfW "failed to create savepoint %s: %w" [name] e))
  | None =>
      match fn with
      | Some e =>
          (["SAVEPOINT " +:+ name; "ROLLBACK TO SAVEPOINT " +:+ name],
           match rollback with
           | Some re => Some (ErrorfW "failed to rollback to savepoint %s: %w (original error: %w)" [name] (Joined [re; e]))
           | None => Some e
           end)
      | None =>
          (["SAVEPOINT " +:+ name; "RELEASE SAVEPOINT " +:+ name],
           match release with
           | Some e => Some (ErrorfW "failed to release savepoint %s: %w" [name] e)
           | None => None
           end)
      end
  end.

(** ** At most one commit *)

Definition is_commit (e : event) : bool := match e with ECommit _ ok => ok | _ => false end.

Definition commits (es : list event) : nat := length (filter (λ e, is_commit e = true) es).

Lemma commits_app es es' : commits (es ++ es') = commits es + commits es'.
Proof. unfold commits. by rewrite filter_app, length_app. Qed.

(** Every transaction that was begun is committed or rolled back. *)
Definition settled (es : list event) : Prop :=
  ∀ n, EBegin n true ∈ es → ECommit n true ∈ es ∨ ERollback n ∈ es.

Lemma settled_app es es' : settled es → settled es' → settled (es ++ es').
Proof. unfold settled. set_solver. Qed.

Lemma once_spec env n es err :
  executeTransactionOnce env n = (es, err) →
  settled es ∧ commits es = (if is_nil err then 1 else 0) ∧ ECoordCommit ∉ es.
Proof.
  unfold executeTransactionOnce, settled. intros H.
  destruct (begin_out env n), (fn_out env n), (commit_out env n); simplify_eq.
  all: split_and!; [|done|set_solver]; intros k; rewrite ?elem_of_cons, ?elem_of_nil; naive_solver.
Qed.

(** Attempts that were followed by another failed with a retryable error. *)
Definition retried_ok (attempts : list (option error)) : Prop :=
  ∀ i, S i < length attempts → ∃ e, attempts !! i = Some (Some e) ∧ IsRetryable (Some (error_text e)) = true.

(** The last attempt succeeded. *)
Definition ends_ok (attempts : list (option error)) : bool :=
  match last attempts with Some None => true | _ => false end.

(** What a run of at most [k] attempts guarantees. *)
Definition run_ok (tm : TransactionManager) (env : environment) (k : nat) (es : list event)
    (attempts : list (option error)) (r : TransactionResult) : Prop :=
  settled es ∧ length attempts ≤ k ∧ retried_ok attempts ∧ (Success r = true ↔ Error r = None) ∧
  commits es = (if Success r then 1
                else if distributed tm && ends_ok attempts then 1 else 0) ∧
  (ends_ok attempts = true → Success r = false → distributed tm = true ∧ is_Some (coord_commit env)).

Lemma fail_with_spec tm env retries e attempts es r :
  fail_with tm env retries e attempts = (es, r) →
  settled es ∧ commits es = 0 ∧ Success r = false ∧ is_Some (Error r) ∧ RetryAttempts r = attempts.
Proof.
  unfold fail_with. destruct (distributed tm); intros [= <- <-]; cbn.
  all: split_and!; try done; unfold settled; set_solver.
Qed.

Lemma retried_ok_cons e attempts :
  IsRetryable (Some (error_text e)) = true → retried_ok attempts → retried_ok (Some e :: attempts).
Proof. intros He Hr [|i] Hi; cbn in *; [by exists e|]. apply Hr. lia. Qed.

(** One failed attempt ends the run. *)
Lemma run_ok_failed tm env k es es' e r :
  settled es → commits es = 0 → settled es' → commits es' = 0 → Success r = false → is_Some (Error r) →
  1 ≤ k → run_ok tm env k (es ++ es') [Some e] r.
Proof.
  intros H1 H2 H3 H4 H5 [x Hx] Hk. unfold run_ok. rewrite commits_app, H2, H4, H5, Hx. cbn.
  split_and!; [by apply settled_app|done|intros i Hi; cbn in Hi; lia|done|by rewrite andb_false_r|done].
Qed.

Lemma tx_loop_spec tm env rest attempt attempts lastErr es r :
  tx_loop tm env rest attempt attempts lastErr = (es, r) →
  ∃ new, RetryAttempts r = attempts ++ new ∧ run_ok tm env rest es new r.
Proof.
  revert attempt attempts lastErr es r. induction rest as [|rest IH]; intros attempt attempts lastErr es r; cbn [tx_loop].
  { intros (Hs & Hc & Hf & [x He] & Hr)%fail_with_spec. exists []. rewrite app_nil_r. split; [done|].
    unfold run_ok. rewrite Hf, He, Hc. cbn. split_and!; [done|done|intros i Hi; cbn in Hi; lia|done|by rewrite andb_false_r|done]. }
  destruct (executeTransactionOnce env attempt) as [es0 err] eqn:Honce.
  destruct (once_spec _ _ _ _ Honce) as (Hs0 & Hc0 & _). destruct err as [e|]; cbn in Hc0.
  - destruct (ShouldRetry tm (Z.of_nat attempt) e) eqn:Hretry.
    + destruct (if (Z.of_nat attempt <? _)%Z then _ else _) as [ce|].
      * destruct (fail_with _ _ _ _ _) as [es' r'] eqn:Hfail. intros [= <- <-].
        apply fail_with_spec in Hfail as (Hs & Hc & Hf & He & Hr). exists [Some e].
        split; [done|]. apply run_ok_failed; (done || lia).
      * destruct (tx_loop _ _ _ _ _ _) as [es' r'] eqn:Hloop. intros [= <- <-].
        apply IH in Hloop as (new & Hr & Hok). exists (Some e :: new). rewrite <-app_assoc in Hr.
        split; [done|]. destruct Hok as (Hs & Hlen & Hret & Hsucc & Hcom & Hdist).
        unfold run_ok. rewrite commits_app, Hc0. cbn [length].
        assert (ends_ok (Some e :: new) = ends_ok new) as Hlast.
        { destruct new as [|x new]; [done|]. unfold ends_ok. by rewrite last_cons_cons. }
        split_and!; [by apply settled_app|lia| |done| |].
        -- apply retried_ok_cons; [|done]. unfold ShouldRetry in Hretry. by destruct (_ <=? _)%Z.
        -- by rewrite Hlast, Hcom.
        -- by rewrite Hlast.
    + destruct (fail_with _ _ _ _ _) as [es' r'] eqn:Hfail. intros [= <- <-].
      apply fail_with_spec in Hfail as (Hs & Hc & Hf & He & Hr). exists [Some e].
      split; [done|]. apply run_ok_failed; (done || lia).
  - assert (settled (es0 ++ [ECoordCommit])) as Hs1.
    { apply settled_app; [done|]. unfold settled. set_solver. }
    destruct (distributed tm) eqn:Hd; [destruct (coord_commit env) as [ce|] eqn:Hcc|];
      intros [= <- <-]; exists [None]; (split; [done|]); unfold run_ok; cbn; rewrite ?commits_app, Hc0, ?Hd, ?Hcc.
    all: split_and!; [done|lia|intros i Hi; cbn in Hi; lia|done|done|intros; by eauto].
Qed.

(** C37: [WithTransaction] begins every attempt in a transaction of its own and
    settles it by a commit or a rollback, makes at most [MaxRetries + 1]
    attempts, repeats only after retryable errors, and commits at most once: on
    success exactly once, in the last attempt, and on failure not at all, except
    when the local commit succeeded and the coordinator's commit then failed.
    (A [Commit] that returns an error is taken as not committed.) *)
Theorem transaction_commits_once tm env duration tm' es r :
  (0 <= MaxRetries (config tm))%Z →
  WithTransaction env duration tm = (tm', es, r) →
  settled es ∧ (Z.of_nat (length (RetryAttempts r)) <= MaxRetries (config tm) + 1)%Z ∧
  retried_ok (RetryAttempts r) ∧ (Success r = true ↔ Error r = None) ∧
  (Success r = true → commits es = 1) ∧
  (Success r = false →
   commits es = 0 ∨ commits es = 1 ∧ distributed tm = true ∧ is_Some (coord_commit env)).
Proof.
  intros Hmax. unfold WithTransaction.
  destruct (if distributed tm then coord_begin env else None) as [e|].
  { intros [= <- <- <-]. cbn. split_and!; [|lia| |done|done|by left].
    - unfold settled. set_solver.
    - intros i Hi. cbn in Hi. lia. }
  destruct (tx_loop _ _ _ _ _ _) as [es0 r0] eqn:Hloop. intros [= <- <- <-].
  apply tx_loop_spec in Hloop as (new & Hr & Hs & Hlen & Hret & Hsucc & Hcom & Hdist).
  cbn in Hr. rewrite Hr. set (pre := if distributed tm then [ECoordBegin] else []).
  assert (commits (pre ++ es0) = commits es0) as Hpre.
  { unfold pre. by destruct (distributed tm). }
  rewrite Hpre, Hcom. split_and!; [|lia|done|done| |].
  - apply settled_app; [|done]. unfold pre, settled. destruct (distributed tm); set_solver.
  - by intros ->.
  - intros Hf. rewrite Hf. destruct (distributed tm) eqn:Hd; [|by left]. cbn.
    destruct (ends_ok new) eqn:Hl; [|by left]. right. split; [done|]. by apply Hdist.
Qed.

End Run.

(** ** Concrete runs *)

Definition ex_text (e : error) : string := match e with Sentinel s => s | _ => "" end.

Definition ex_tm (retries : Z) (dist : bool) : TransactionManager :=
  NewTransactionManager (MkTxConfig retries true dist) (if dist then "http://coordinator" else "").

(** The first attempt is chosen as the victim of a deadlock. *)
Definition ex_env (coord : option error) : environment :=
  MkEnv (λ _, None) (λ n, if decide (n = 0) then Some (Sentinel "Deadlock found") else None) (λ _, None)
    (λ _, None) None coord None.

Lemma transaction_commits_once_witness :
  commits (WithTransaction ex_text (ex_env None) 5 (ex_tm 3 false)).1.2 = 1.
Proof.
  destruct (WithTransaction ex_text (ex_env None) 5 (ex_tm 3 false)) as [[tm' es] r] eqn:Hrun.
  assert (Success r = true) as Hok.
  { vm_compute in Hrun. by simplify_eq. }
  destruct (transaction_commits_once ex_text (ex_tm 3 false) (ex_env None) 5 tm' es r)
    as (_ & _ & _ & _ & Hone & _); [vm_compute; discriminate|exact Hrun|].
  by apply Hone.
Defined.

(** The local transaction is committed before the coordinator is asked: when
    its commit fails the caller is told that the transaction failed, the data
    stays, and the metrics count a success. *)
Theorem coordinator_failure_after_commit :
  let '(tm', es, r) := WithTransaction ex_text (ex_env (Some (Sentinel "unreachable"))) 5 (ex_tm 3 true) in
  Success r = false ∧ commits es = 1 ∧ SuccessfulTransactions (metrics tm') = 1%Z.
Proof. vm_compute. done. Qed.

(** With a negative number of retries the function is never run. *)
Theorem negative_retries_run_nothing :
  let '(_, es, r) := WithTransaction ex_text (ex_env None) 5 (ex_tm (-1) false) in
  es = [] ∧ Success r = false.
Proof. vm_compute. done. Qed.

(** A constraint violation whose text mentions a timeout counts as a timeout and
    is retried. *)
Theorem constraint_taken_for_timeout :
  ClassifyError (Some "duplicate key value violates unique constraint timeout_pkey") =
    MkClass ErrorTypeTimeout true true SeverityMedium "performance".
Proof. vm_compute. done. Qed.
