(* ===== verification/Pagination.v ===== *)
(** * plugins/db/orm/pagination.go: pages of query results

    Page numbers, offsets and cursors.  A page is the answer to the statement of a
    clone of the builder with the page's clauses added; what the database answers to
    a statement is an argument.  [None] stands for a builder that does not build,
    because it refers to itself. *)

From S2P Require Import Prelude GoFloat Orm OrmUtil Select.
From Stdlib Require Import Ascii.
Import GoError.

(** ** Numbered pages *)

Record PaginationOptions := MkPageOptions { po_Page : Z; po_PageSize : Z; po_OrderBy : string }.

Definition DefaultPaginationOptions : PaginationOptions := MkPageOptions 1 10 "".

Definition Validate (po : PaginationOptions) : PaginationOptions :=
  let size := if (po_PageSize po <=? 0)%Z then 10%Z else po_PageSize po in
  MkPageOptions (if (po_Page po <=? 0)%Z then 1 else po_Page po) (if (1000 <? size)%Z then 1000 else size)
    (po_OrderBy po).

Definition CalculateOffset (po : PaginationOptions) : Z :=
  GoInt.i64 (GoInt.i64 (po_Page po - 1) * po_PageSize po).

Record Pagination := MkPagination {
  Page : Z;
  PageSize : Z;
  Total : Z;
  TotalPages : Z;
  HasNext : bool;
  HasPrev : bool
}.

(** [int(math.Ceil(x))]. *)
Definition ceil_int (x : float64) : Z :=
  match x with
  | S754_finite false m e =>
      if (0 <=? e)%Z then to_int x
      else (to_int x + (if (Z.shiftl (Z.shiftr (Zpos m) (- e)) (- e) =? Zpos m)%Z then 0 else 1))%Z
  | _ => to_int x
  end.

Definition NewPagination (page pageSize total : Z) : Pagination :=
  let page := if (page <=? 0)%Z then 1%Z else page in
  let pageSize := if (pageSize <=? 0)%Z then 10%Z else pageSize in
  let totalPages := ceil_int (fdiv (of_int total) (of_int pageSize)) in
  MkPagination page pageSize total totalPages (page <? totalPages)%Z (1 <? page)%Z.

Section Pages.
Context {V row : Type}.

(** The rows that the database answers to a statement, and the number that it
    answers to one that counts. *)
Context (query : string * list V → result (list row)) (query_count : string * list V → result Z).

(** The statement of a clone of the builder at [p], changed by [f]. *)
Definition clone_statement (f : SelectBuilder V → SelectBuilder V) (fuel : nat) (h : gmap nat (SelectBuilder V)) (p : nat) :
    option (string * list V) :=
  match Select_Clone fuel h p with
  | Some (h', q) => Select_Build fuel (alter f q h') q
  | None => None
  end.

Definition count_statement : nat → gmap nat (SelectBuilder V) → nat → option (string * list V) :=
  clone_statement (Columns ["COUNT(*) as total"]).

Definition paginate_builder (o : PaginationOptions) (b : SelectBuilder V) : SelectBuilder V :=
  let b := if decide (po_OrderBy o = "") then b else OrderBy [po_OrderBy o] b in
  Offset (CalculateOffset o) (Limit (po_PageSize o) b).

Definition Paginate (fuel : nat) (h : gmap nat (SelectBuilder V)) (p : nat) (options : PaginationOptions) :
    option (result (list row * Pagination)) :=
  let options := Validate options in
  match count_statement fuel h p, clone_statement (paginate_builder options) fuel h p with
  | Some cs, Some ps =>
      Some
        match query_count cs with
        | Err e => Err (ErrorfW "failed to count total rows: %w" [] e)
        | Ok total =>
            match query ps with
            | Err e => Err (ErrorfW "failed to execute paginated query: %w" [] e)
            | Ok data => Ok (data, NewPagination (po_Page options) (po_PageSize options) total)
            end
        end
  | _, _ => None
  end.

(** ** Offsets *)

Record OffsetPagination := MkOffset {
  op_Offset : Z;
  op_Limit : Z;
  op_Total : Z;
  op_HasNext : bool;
  op_HasPrev : bool
}.

Definition page_limit (limit : Z) : Z :=
  let limit := if (limit <=? 0)%Z then 10%Z else limit in if (1000 <? limit)%Z then 1000%Z else limit.

Definition PaginateByOffset (fuel : nat) (h : gmap nat (SelectBuilder V)) (p : nat) (offset limit : Z) :
    option (result (list row * OffsetPagination)) :=
  let limit := page_limit limit in
  let offset := if (offset <? 0)%Z then 0%Z else offset in
  match count_statement fuel h p, clone_statement (λ b, Limit limit (Offset offset b)) fuel h p with
  | Some cs, Some ps =>
      Some
        match query_count cs with
        | Err e => Err (ErrorfW "failed to count total rows: %w" [] e)
        | Ok total =>
            match query ps with
            | Err e => Err (ErrorfW "failed to execute offset paginated query: %w" [] e)
            | Ok data =>
                Ok (data, MkOffset offset limit total (GoInt.i64 (offset + limit) <? total)%Z (0 <? offset)%Z)
            end
        end
  | _, _ => None
  end.

(** ** Cursors *)

(** A string as an argument, and the text of a row's cursor column. *)
Context (text : string → V) (cursor_text : row → string).

Record CursorPagination := MkCursor { cp_Cursor : string; cp_Limit : Z; cp_HasNext : bool }.

Definition cursor_builder (cursorColumn cursor : string) (limit : Z) (b : SelectBuilder V) : SelectBuilder V :=
  let b :=
    if decide (cursor = "") then b
    else Select_And (QuoteIdentifier (sb_dialect b) cursorColumn +:+ " > ?") [text cursor] b in
  let b := Limit (limit + 1) b in
  OrderBy [QuoteIdentifier (sb_dialect b) cursorColumn +:+ " ASC"] b.

Definition PaginateByCursor (fuel : nat) (h : gmap nat (SelectBuilder V)) (p : nat) (cursorColumn cursor : string)
    (limit : Z) : option (result (list row * CursorPagination)) :=
  let limit := page_limit limit in
  match clone_statement (cursor_builder cursorColumn cursor limit) fuel h p with
  | None => None
  | Some st =>
      Some
        match query st with
        | Err e => Err (ErrorfW "failed to execute cursor paginated query: %w" [] e)
        | Ok rows =>
            let data := take (Z.to_nat limit) rows in
            let hasNext := (limit <=? Z.of_nat (length data))%Z in
            let lastCursor := match last data with Some r => cursor_text r | None => "" end in
            Ok (data, MkCursor lastCursor limit hasNext)
        end
  end.

(** ** Following the offsets *)

(** A client that asks for the next page while there is one: the pages it gets. *)
Fixpoint follow (n fuel : nat) (h : gmap nat (SelectBuilder V)) (p : nat) (offset limit : Z) : option (list (list row)) :=
  match n with
  | O => None
  | S n =>
      match PaginateByOffset fuel h p offset limit with
      | Some (Ok (data, pg)) =>
          if op_HasNext pg then
            match follow n fuel h p (op_Offset pg + op_Limit pg) limit with
            | Some pages => Some (data :: pages)
            | None => None
            end
          else Some [data]
      | _ => None
      end
  end.

Section Follow.
(** A builder that builds, and a database that executes its statements on a table
    that nobody changes, always in the same order: LIMIT and OFFSET take a part of
    it, and the count is its length. *)
Context (fuel : nat) (h : gmap nat (SelectBuilder V)) (p : nat) (table : list row).
Hypothesis builds : ∀ f, is_Some (clone_statement f fuel h p).
Hypothesis query_page : ∀ l o st, clone_statement (λ b, Limit l (Offset o b)) fuel h p = Some st →
  query st = Ok (take (Z.to_nat l) (drop (Z.to_nat o) table)).
Hypothesis query_total : ∀ st, count_statement fuel h p = Some st → query_count st = Ok (Z.of_nat (length table)).
Hypothesis table_small : (Z.of_nat (length table) < 2 ^ 62)%Z.

Lemma page_limit_range limit : (1 <= page_limit limit <= 1000)%Z.
Proof. unfold page_limit. repeat case_match; lia. Qed.

Lemma offset_page offset limit : (0 <= offset <= Z.of_nat (length table))%Z →
  ∃ pg, PaginateByOffset fuel h p offset limit =
      Some (Ok (take (Z.to_nat (page_limit limit)) (drop (Z.to_nat offset) table), pg)) ∧
    op_Offset pg = offset ∧ op_Limit pg = page_limit limit ∧
    op_HasNext pg = (offset + page_limit limit <? Z.of_nat (length table))%Z.
Proof.
  intros Ho. pose proof (page_limit_range limit) as Hl. unfold PaginateByOffset.
  replace (offset <? 0)%Z with false by lia.
  destruct (builds (Columns ["COUNT(*) as total"])) as [cs Hcs]. unfold count_statement. rewrite Hcs.
  destruct (builds (λ b, Limit (page_limit limit) (Offset offset b))) as [ps Hps]. rewrite Hps.
  rewrite (query_total cs Hcs), (query_page _ _ ps Hps). eexists. split; [reflexivity|]. cbn.
  rewrite GoInt.i64_id by (unfold GoInt.in_i64; lia). done.
Qed.

Lemma follow_from limit n : ∀ offset, (0 <= offset <= Z.of_nat (length table))%Z →
  (length table < Z.to_nat offset + n)%nat →
  ∃ pages, follow n fuel h p offset limit = Some pages ∧ concat pages = drop (Z.to_nat offset) table ∧
    Forall (λ x, (Z.of_nat (length x) <= page_limit limit)%Z) pages.
Proof.
  pose proof (page_limit_range limit) as Hl. induction n as [|n IH]; intros offset Ho Hn; [lia|]. cbn [follow].
  destruct (offset_page offset limit Ho) as (pg & -> & Hoff & Hlim & Hnext). rewrite Hoff, Hlim, Hnext.
  set (l := page_limit limit) in *.
  assert (Z.of_nat (length (take (Z.to_nat l) (drop (Z.to_nat offset) table))) <= l)%Z as Hlen by (rewrite length_take; lia).
  destruct (Z.ltb_spec (offset + l) (Z.of_nat (length table))).
  - destruct (IH (offset + l)%Z) as (pages & -> & Hc & Hall); [lia|lia|]. eexists. split; [done|]. cbn.
    rewrite Hc. split; [|by constructor]. rewrite Z2Nat.inj_add by lia. rewrite <-drop_drop. apply take_drop.
  - eexists. split; [done|]. cbn. rewrite app_nil_r. split; [|by constructor].
    apply take_ge. rewrite length_drop. lia.
Qed.

(** A client that asks for the pages by their offsets until there is no next page
    reads every row exactly once, in order, in pages of at most the limit, and it
    comes to an end. *)
Theorem offset_pages_complete limit :
  ∃ pages, follow (S (length table)) fuel h p 0 limit = Some pages ∧ concat pages = table ∧
    Forall (λ x, (Z.of_nat (length x) <= page_limit limit)%Z) pages.
Proof. apply follow_from; lia. Qed.

End Follow.
End Pages.

(** ** Cursor pages are not ordered *)

Lemma quoted_not_ident c s : c = "`"%char ∨ c = "034"%char → order_by_match (String.String c s) = None.
Proof. by intros [-> | ->]. Qed.

(** A quoted name begins with the quote. *)
Lemma mysql_quote_first col :
  contains_any "()*,+-/\" (TrimSpace col) = false → contains_char " " (TrimSpace col) = false →
  ∃ s, mysql_quote 2 col = String.String "`" s.
Proof.
  intros H1 H2. cbn [mysql_quote]. case_decide; [by eexists|]. rewrite H1, H2.
  destruct (contains_char "." (TrimSpace col)); [|by eexists].
  destruct (split_on "." (TrimSpace col)) as [|x xs] eqn:E; [|by destruct xs; eexists].
  exfalso. revert E. clear. destruct (TrimSpace col) as [|a s]; cbn; [done|].
  destruct (Ascii.eqb _ _); [done|]. by destruct (split_on _ s).
Qed.

(** [PaginateByCursor] orders by the quoted name of the column, which [OrderBy]
    takes for an unsafe item and drops: the statement of a cursor page has the
    condition and the limit but no order. *)
Theorem cursor_order_dropped {V} (text : string → V) ty col cursor limit (b : SelectBuilder V) :
  sb_dialect b = NewDialect ty →
  contains_any "()*,+-/\" (TrimSpace col) = false → contains_char " " (TrimSpace col) = false →
  cursor_builder text col cursor limit b =
    Limit (limit + 1) (if decide (cursor = "") then b
                       else Select_And (QuoteIdentifier (NewDialect ty) col +:+ " > ?") [text cursor] b).
Proof.
  intros Hd H1 H2.
  assert (Hitem : BuildSafeOrderByItem (NewDialect ty) (QuoteIdentifier (NewDialect ty) col +:+ " ASC") =
    Err (Errorf "invalid order by item: %s" [QuoteIdentifier (NewDialect ty) col +:+ " ASC"])).
  { assert (∃ c s, QuoteIdentifier (NewDialect ty) col = String.String c s ∧ (c = "`"%char ∨ c = "034"%char)) as (c & s & Hq & Hc).
    { destruct (mysql_quote_first col H1 H2) as [s Hs].
      unfold NewDialect, NewDefaultDialect. repeat case_decide; cbn [QuoteIdentifier MySQLDialect PostgreSQLDialect SQLiteDialect ClickHouseDialect];
        first [by exists "`"%char, s; split; [|left]|by eexists "034"%char, _; split; [reflexivity|right]]. }
    unfold BuildSafeOrderByItem. rewrite Hq.
    change (String.String c s +:+ " ASC") with (String.String c (s +:+ " ASC")). by rewrite quoted_not_ident. }
  unfold cursor_builder, OrderBy. rewrite Hd.
  set (b' := Limit (limit + 1) _). assert (sb_dialect b' = NewDialect ty) as Hd'.
  { unfold b'. cbn. by case_decide. }
  rewrite Hd'. cbn [safe_items]. rewrite Hitem. rewrite app_nil_r. by destruct b'.
Qed.

(** ** Concrete behaviour *)

Definition ex_heap : gmap nat (SelectBuilder string) :=
  {[0%nat := NewSelectBuilderWithDialect "users" (NewDialect "mysql")]}.

Example cursor_statement :
  clone_statement (cursor_builder (λ s, s) "id" "b" 2) 1 ex_heap 0 =
    Some ("SELECT * FROM `users` WHERE `id` > ? LIMIT 3", ["b"]).
Proof. vm_compute. reflexivity. Qed.

(** A database that answers in the order in which its rows are stored, as it may
    without an order. *)
Definition ex_database (table : list string) (st : string * list string) : result (list string) :=
  Ok (take 3 (match st.2 with
              | [c] => filter (λ r, String.ltb c r = true) table
              | _ => table
              end)).

(** With rows that are not stored by the cursor column, following the cursors
    leaves a row out. *)
Theorem cursor_pages_skip_rows :
  let page c := PaginateByCursor (ex_database ["b"; "c"; "a"]) (λ s, s) (λ r, r) 1 ex_heap 0 "id" c 2 in
  page "" = Some (Ok (["b"; "c"], MkCursor "c" 2 true)) ∧ page "c" = Some (Ok ([], MkCursor "" 2 false)).
Proof. vm_compute. done. Qed.

(** With exactly one page of rows the extra row that is asked for is not there,
    but a next page is announced, which is empty. *)
Theorem cursor_announces_empty_page :
  let page c := PaginateByCursor (ex_database ["a"; "b"]) (λ s, s) (λ r, r) 1 ex_heap 0 "id" c 2 in
  page "" = Some (Ok (["a"; "b"], MkCursor "b" 2 true)) ∧ page "b" = Some (Ok ([], MkCursor "" 2 false)).
Proof. vm_compute. done. Qed.

(** A database that executes the statements of the heap above on a table of three
    rows. *)
Definition ex_pages (table : list string) (st : string * list string) : result (list string) :=
  if decide (st.1 = "SELECT * FROM `users` LIMIT 2") then Ok (take 2 table)
  else Ok (take 2 (drop 2 table)).

Example offset_statements :
  clone_statement (λ b, Limit 2 (Offset 2 b)) 1 ex_heap 0 = Some ("SELECT * FROM `users` LIMIT 2 OFFSET 2", []) ∧
  follow (ex_pages ["a"; "b"; "c"]) (λ _, Ok 3%Z) 4 1 ex_heap 0 0 2 = Some [["a"; "b"]; ["c"]].
Proof. vm_compute. done. Qed.

(** The column of the count query is quoted as a name by every dialect but
    MySQL's. *)
Theorem count_query_names_a_column :
  (buildSelectCore (V := unit)
     (set_columns ["COUNT(*) as total"] (NewSelectBuilderWithDialect "users" (NewDialect "sqlite")))).1 =
  "SELECT " +:+ String.String "034"%char ("COUNT(*) as total" +:+ String.String "034"%char (" FROM " +:+ String.String "034"%char ("users" +:+ String.String "034"%char ""))).
Proof. vm_compute. done. Qed.

Example total_pages_examples :
  (λ total, TotalPages (NewPagination 1 10 total)) <$> [0; 1; 10; 95; 100; 101]%Z = [0; 1; 1; 10; 10; 11]%Z.
Proof. vm_compute. done. Qed.
