(* ===== verification/OrmLock.v ===== *)
(** * plugins/db/orm: optimistic locks and soft deletion

    optimistic_lock.go and soft_delete.go: the statements they send and what
    they make of the answers.  The outcome of a statement is a function of its
    text and arguments. *)

From S2P Require Import Prelude StableSort Orm OrmUtil SqlText OrmProps Select SelectNumbering OrmInsert.
From stdpp Require Import pretty.
Import GoError.

(** ** Values *)

(** The dynamic types a version may have; the rest is opaque. *)
Inductive value :=
| VInt (z : Z) | VInt32 (z : Z) | VInt64 (z : Z) | VUint (z : Z) | VUint32 (z : Z) | VUint64 (z : Z)
| VOther (s : string)
| VNil.

#[export] Instance value_eq_dec : EqDecision value.
Proof. solve_decision. Defined.

Definition incrementVersion (v : value) : value :=
  match v with
  | VInt z => VInt (GoInt.i64 (z + 1))
  | VInt32 z => VInt32 (GoInt.i32 (z + 1))
  | VInt64 z => VInt64 (GoInt.i64 (z + 1))
  | VUint z => VUint (GoInt.u64 (z + 1))
  | VUint32 z => VUint32 (GoInt.u32 (z + 1))
  | VUint64 z => VUint64 (GoInt.u64 (z + 1))
  | v => v
  end.

(** ** Optimistic locks *)

Record OptimisticLock := MkLock { VersionColumn : string; RetryCount : Z }.

Definition NewOptimisticLock : OptimisticLock := MkLock "version" 3.

Record OptimisticLockResult := MkLockResult {
  Success : bool;
  RowsAffected : Z;
  CurrentVersion : value
}.

(** The assignments of the sorted columns, from placeholder [k] on. *)
Fixpoint set_parts (d : Dialect) (k : Z) (keys : list string) : list string :=
  match keys with
  | [] => []
  | key :: keys => (QuoteIdentifier d key +:+ " = " +:+ Placeholder d k) :: set_parts d (k + 1) keys
  end.

(** [ks] is the enumeration of the data map. *)
Definition buildVersionedUpdateQuery (ol : OptimisticLock) (table idColumn : string) (id expected : value)
    (data : gmap string value) (ks : list string) (d : Dialect) : string * list value :=
  let keys := sortStrings ks in
  let n := Z.of_nat (length keys) in
  let setParts := set_parts d 0 keys ++ [QuoteIdentifier d (VersionColumn ol) +:+ " = " +:+ Placeholder d n] in
  ("UPDATE " +:+ QuoteIdentifier d table +:+ " SET " +:+ String.concat ", " setParts +:+ " WHERE " +:+
   QuoteIdentifier d idColumn +:+ " = " +:+ Placeholder d (n + 1) +:+ " AND " +:+
   QuoteIdentifier d (VersionColumn ol) +:+ " = " +:+ Placeholder d n,
   (value_at VNil data <$> keys) ++ [incrementVersion expected; id]).

Section Update.
Context (isValidDataType : value → bool) (exec : string → list value → result Z).

(** The validation of the columns, in enumeration order. *)
Fixpoint validate_data (data : gmap string value) (ks : list string) : option error :=
  match ks with
  | [] => None
  | k :: ks =>
      match ValidateColumnName k with
      | Some e => Some (ErrorfW "invalid column name '%s': %w" [k] e)
      | None =>
          if isValidDataType (value_at VNil data k) then validate_data data ks
          else Some (Errorf "invalid data type for column '%s'" [k])
      end
  end.

(** Returns the caller's map as well, from which the version is removed; [rng]
    enumerates that map. *)
Definition UpdateWithVersion (ol : OptimisticLock) (table idColumn : string) (id expected : value)
    (data : gmap string value) (rng : gmap string value → list string) :
    gmap string value * result OptimisticLockResult :=
  let d := NewDefaultDialect in
  match ValidateTableName table with
  | Some e => (data, Err e)
  | None =>
      match ValidateColumnName idColumn with
      | Some e => (data, Err (ErrorfW "invalid ID column name '%s': %w" [idColumn] e))
      | None =>
          match ValidateColumnName (VersionColumn ol) with
          | Some e => (data, Err (ErrorfW "invalid version column name '%s': %w" [VersionColumn ol] e))
          | None =>
              let data := delete (VersionColumn ol) data in
              if decide (data = ∅) then (data, Err ErrEmptyData)
              else
                match validate_data data (rng data) with
                | Some e => (data, Err e)
                | None =>
                    let '(query, vs) := buildVersionedUpdateQuery ol table idColumn id expected data (rng data) d in
                    match exec query vs with
                    | Err e => (data, Err e)
                    | Ok n =>
                        (data, Ok (MkLockResult (0 <? n)%Z n (if (0 <? n)%Z then incrementVersion expected else VNil)))
                    end
                end
          end
      end
  end.

(** The loop of [UpdateWithRetry]; [version i] is what [getCurrentVersion]
    returns at attempt [i] and [ctx_done i] the context's error in the wait. *)
Fixpoint retry_update (ol : OptimisticLock) (table idColumn : string) (id : value)
    (rng : gmap string value → list string) (version : nat → value) (ctx_done : nat → option error)
    (rest attempt : nat) (data : gmap string value) (lastErr : option error) : result OptimisticLockResult :=
  match rest with
  | O =>
      Err (match lastErr with
           | Some e => ErrorfW "optimistic lock failed after %d attempts: %w" [pretty (RetryCount ol + 1)%Z] e
           | None => Errorf "optimistic lock failed after %d attempts: %w" [pretty (RetryCount ol + 1)%Z]
           end)
  | S rest =>
      if decide (version attempt = VNil) then Err (Errorf "failed to get current version" [])
      else
        match UpdateWithVersion ol table idColumn id (version attempt) data rng with
        | (_, Err e) => Err e
        | (data, Ok r) =>
            if Success r then Ok r
            else
              match (if (Z.of_nat attempt <? RetryCount ol)%Z then ctx_done attempt else None) with
              | Some e => Err e
              | None =>
                  retry_update ol table idColumn id rng version ctx_done rest (S attempt) data
                    (Some (Errorf "optimistic lock conflict on attempt %d" [pretty (Z.of_nat attempt + 1)%Z]))
              end
        end
  end.

Definition UpdateWithRetry (ol : OptimisticLock) (table idColumn : string) (id : value) (data : gmap string value)
    (rng : gmap string value → list string) (version : nat → value) (ctx_done : nat → option error) :
    result OptimisticLockResult :=
  retry_update ol table idColumn id rng version ctx_done (Z.to_nat (RetryCount ol + 1)) 0 data None.

(** [count] is the result of the count query. *)
Definition CheckVersionConflict (ol : OptimisticLock) (table idColumn : string) (id expected : value)
    (count : string → list value → result Z) : result bool :=
  let d := NewDefaultDialect in
  match count ("SELECT COUNT(*) FROM " +:+ QuoteIdentifier d table +:+ " WHERE " +:+
               QuoteIdentifier d idColumn +:+ " = " +:+ Placeholder d 0 +:+ " AND " +:+
               QuoteIdentifier d (VersionColumn ol) +:+ " = " +:+ Placeholder d 1) [id; expected] with
  | Err e => Err e
  | Ok n => Ok (n =? 0)%Z
  end.

End Update.

(** ** Soft deletion *)

Record SoftDelete := MkSoftDelete { DeletedAtColumn : string; RetentionPeriod : Z }.

Definition NewSoftDelete : SoftDelete := MkSoftDelete "deleted_at" (30 * 24 * 60 * GoTime.Minute)%Z.

Section Soft.
Context {V : Type}.

Definition buildSoftDeleteQuery (sd : SoftDelete) (table idColumn : string) (ids : list V) (deletedAt : V)
    (d : Dialect) : string * list V :=
  ("UPDATE " +:+ QuoteIdentifier d table +:+ " SET " +:+ QuoteIdentifier d (DeletedAtColumn sd) +:+ " = " +:+
   Placeholder d 0 +:+ " WHERE " +:+ QuoteIdentifier d idColumn +:+ " IN (" +:+
   placeholders d 1 (length ids) +:+ ")", deletedAt :: ids).

Definition buildRestoreQuery (sd : SoftDelete) (table idColumn : string) (ids : list V) (d : Dialect) :
    string * list V :=
  ("UPDATE " +:+ QuoteIdentifier d table +:+ " SET " +:+ QuoteIdentifier d (DeletedAtColumn sd) +:+
   " = NULL WHERE " +:+ QuoteIdentifier d idColumn +:+ " IN (" +:+ placeholders d 0 (length ids) +:+ ")", ids).

Context (exec : string → list V → result Z).

(** The rows affected and the time stored. *)
Definition SoftDelete_ (sd : SoftDelete) (table idColumn : string) (ids : list V) (now : V) : result (Z * V) :=
  if decide (ids = []) then Err (Errorf "no IDs provided for soft delete" [])
  else
    match ValidateTableName table with
    | Some e => Err e
    | None =>
        match ValidateColumnName idColumn with
        | Some e => Err (ErrorfW "invalid ID column name '%s': %w" [idColumn] e)
        | None =>
            match ValidateColumnName (DeletedAtColumn sd) with
            | Some e => Err (ErrorfW "invalid deleted_at column name '%s': %w" [DeletedAtColumn sd] e)
            | None =>
                let '(query, vs) := buildSoftDeleteQuery sd table idColumn ids now NewDefaultDialect in
                match exec query vs with Err e => Err e | Ok n => Ok (n, now) end
            end
        end
    end.

Definition Restore (sd : SoftDelete) (table idColumn : string) (ids : list V) : result Z :=
  if decide (ids = []) then Err (Errorf "no IDs provided for restore" [])
  else
    match ValidateTableName table with
    | Some e => Err e
    | None =>
        match ValidateColumnName idColumn with
        | Some e => Err (ErrorfW "invalid ID column name '%s': %w" [idColumn] e)
        | None =>
            let '(query, vs) := buildRestoreQuery sd table idColumn ids NewDefaultDialect in exec query vs
        end
    end.

(** [before] is the argument for a cutoff time. *)
Definition CleanSoftDeleted (sd : SoftDelete) (table : string) (before : Z → V) (now : Z) : result Z :=
  match ValidateTableName table with
  | Some e => Err e
  | None =>
      let d := NewDefaultDialect in
      exec ("DELETE FROM " +:+ QuoteIdentifier d table +:+ " WHERE " +:+
            QuoteIdentifier d (DeletedAtColumn sd) +:+ " < " +:+ Placeholder d 0)
        [before (GoTime.Add now (- RetentionPeriod sd))]
  end.

End Soft.

Definition FindNotDeleted (sd : SoftDelete) : string := "(" +:+ DeletedAtColumn sd +:+ " IS NULL)".
Definition FindSoftDeleted (sd : SoftDelete) : string := "(" +:+ DeletedAtColumn sd +:+ " IS NOT NULL)".

(** ** Placeholders and arguments *)

Section Bind.
Context (d : Dialect) `{!SqlDialect d}.

(** A list of parts with one placeholder each, joined by commas. *)
Lemma numbered_parts k ps :
  ps ≠ [] → (∀ i p, ps !! i = Some p → numbered d (k + Z.of_nat i) 1 p) →
  numbered d k (length ps) (String.concat ", " ps).
Proof.
  revert k. induction ps as [|p ps IH]; intros k Hne Hp; [done|].
  pose proof (Hp 0 p eq_refl) as H0. rewrite Z.add_0_r in H0.
  destruct ps as [|q ps]; [done|]. rewrite concat_cons_string.
  apply (numbered_glue d k 1 (length (q :: ps)) (k + 1)); [done|done| |done].
  apply IH; [done|]. intros i r Hr. replace (k + 1 + Z.of_nat i)%Z with (k + Z.of_nat (S i))%Z by lia.
  by apply Hp.
Qed.

Lemma numbered_assign k col : plain d col → numbered d k 1 (QuoteIdentifier d col +:+ " = " +:+ Placeholder d k).
Proof.
  intros Hc. apply numbered_prefix; [by apply dialect_quote|]. apply numbered_prefix; [done|].
  by apply numbered_placeholder.
Qed.

Lemma set_parts_lookup k keys i p :
  set_parts d k keys !! i = Some p →
  ∃ key, keys !! i = Some key ∧ p = QuoteIdentifier d key +:+ " = " +:+ Placeholder d (k + Z.of_nat i).
Proof.
  revert k i. induction keys as [|key keys IH]; intros k i; [done|]. destruct i as [|i]; cbn.
  - intros [= <-]. exists key. by rewrite Z.add_0_r.
  - intros (key' & ? & ->)%IH. exists key'. split; [done|].
    by replace (k + 1 + Z.of_nat i)%Z with (k + Z.of_nat (S i))%Z by lia.
Qed.

Lemma set_parts_length k keys : length (set_parts d k keys) = length keys.
Proof. revert k. induction keys as [|key keys IH]; intros k; cbn; [done|]. by rewrite IH. Qed.

(** The IN list and the parenthesis after it. *)
Lemma numbered_in k n : numbered d k n (placeholders d k n +:+ ")").
Proof.
  change (placeholders d k n +:+ ")") with (placeholders d k n +:+ ")" +:+ "").
  by apply numbered_suffix; [by apply numbered_placeholders| |].
Qed.

Lemma soft_delete_numbered {V} sd table idColumn (ids : list V) now :
  plain d table → plain d idColumn → plain d (DeletedAtColumn sd) →
  (let '(q, vs) := buildSoftDeleteQuery sd table idColumn ids now d in numbered d 0 (length vs) q) ∧
  (let '(q, vs) := buildRestoreQuery sd table idColumn ids d in numbered d 0 (length vs) q).
Proof.
  intros Ht Hi Hc. split; cbn [buildSoftDeleteQuery buildRestoreQuery length].
  - do 5 (apply numbered_prefix; [first [done|by apply dialect_quote]|]).
    apply (numbered_glue d 0 1 (length ids) 1); [by apply numbered_placeholder|done| |done].
    do 2 (apply numbered_prefix; [first [done|by apply dialect_quote]|]). apply numbered_in.
  - do 7 (apply numbered_prefix; [first [done|by apply dialect_quote]|]). apply numbered_in.
Qed.

End Bind.

(** The default dialect writes every placeholder as a question mark. *)
Lemma numbered_default k j : numbered NewDefaultDialect k 1 (Placeholder NewDefaultDialect j).
Proof.
  change (Placeholder NewDefaultDialect j) with (Placeholder NewDefaultDialect k).
  apply (numbered_placeholder NewDefaultDialect).
Qed.

(** The statement of a versioned update has one question mark more than there
    are arguments: the version it compares with is not among them, only the
    new one that it stores. *)
Theorem versioned_update_lacks_version ol table idColumn id expected data ks :
  let d := NewDefaultDialect in
  plain d table → plain d idColumn → plain d (VersionColumn ol) → Forall (plain d) ks →
  let '(q, vs) := buildVersionedUpdateQuery ol table idColumn id expected data ks d in
  count_q q = S (length vs) ∧ vs = (value_at VNil data <$> sortStrings ks) ++ [incrementVersion expected; id].
Proof.
  intros d Ht Hi Hv Hks. cbn [buildVersionedUpdateQuery]. split; [|done].
  set (keys := sortStrings ks).
  assert (Forall (plain d) keys) as Hkeys.
  { unfold keys, sortStrings. by rewrite sortSliceStable_perm. }
  apply (numbered_marks d); [done|]. rewrite length_app, length_fmap. cbn [length].
  do 3 (apply numbered_prefix; [first [done|by apply dialect_quote]|]).
  replace (S (length keys + 2)) with (S (length keys) + 2) by lia.
  set (parts := set_parts d 0 keys ++ _).
  assert (length parts = S (length keys)) as Hlen.
  { unfold parts. rewrite length_app, set_parts_length. cbn. lia. }
  apply (numbered_glue d 0 (S (length keys)) 2 (Z.of_nat (S (length keys)))); [|done| |lia].
  - rewrite <-Hlen. apply (numbered_parts NewDefaultDialect); [|].
    { unfold parts. by destruct (set_parts d 0 keys). }
    intros i p Hp. unfold parts in Hp. apply lookup_app_Some in Hp as [Hp|[_ Hp]].
    + apply set_parts_lookup in Hp as (key & Hkey & ->). rewrite Z.add_0_l.
      apply (numbered_assign NewDefaultDialect). rewrite Forall_lookup in Hkeys. by eapply Hkeys.
    + apply list_lookup_singleton_Some in Hp as [_ <-].
      apply numbered_prefix; [by apply dialect_quote|]. apply numbered_prefix; [done|]. apply numbered_default.
  - do 2 (apply numbered_prefix; [first [done|by apply dialect_quote]|]).
    apply (numbered_glue d _ 1 1 (Z.of_nat (S (length keys)) + 1)); [apply numbered_default|done| |lia].
    do 2 (apply numbered_prefix; [first [done|by apply dialect_quote]|]). apply numbered_default.
Qed.

(** A database that rejects statements with a wrong number of arguments, as
    [database/sql] does, fails every versioned update. *)
Definition strict_exec (q : string) (vs : list value) : result Z :=
  if (count_q q =? length vs) then Ok 1%Z else Err (Sentinel "sql: expected arguments").

Theorem versioned_update_always_fails isValid ol table idColumn id expected data rng :
  let d := NewDefaultDialect in
  plain d table → plain d idColumn → plain d (VersionColumn ol) → (∀ m, Forall (plain d) (rng m)) →
  ∃ e, (UpdateWithVersion isValid strict_exec ol table idColumn id expected data rng).2 = Err e.
Proof.
  intros d Ht Hi Hv Hr. unfold UpdateWithVersion.
  destruct (ValidateTableName table); [by eauto|]. destruct (ValidateColumnName idColumn); [by eauto|].
  destruct (ValidateColumnName (VersionColumn ol)); [by eauto|]. cbn zeta. case_decide; [by eauto|].
  destruct (validate_data _ _ _); [by eauto|].
  pose proof (versioned_update_lacks_version ol table idColumn id expected (delete (VersionColumn ol) data)
    (rng (delete (VersionColumn ol) data)) Ht Hi Hv (Hr _)) as Hbuild.
  destruct (buildVersionedUpdateQuery _ _ _ _ _ _ _ _) as [q vs]. destruct Hbuild as [Hq _].
  unfold strict_exec. rewrite Hq. destruct (Nat.eqb_spec (S (length vs)) (length vs)) as [|_]; [lia|]. by eauto.
Qed.
