(* ===== verification/GatewayRouter.v ===== *)
(** * plugins/gateway/router/registry.go: the route registry

    Routes, groups and the composition of middlewares.  A handler changes a
    request context of type [C]; [aborted] is [IsAborted].  The engine is the
    list of the routes registered with it.  The key under which a wrapper stores
    the next handler is read by nobody and left out. *)

From S2P Require Import Prelude.

Section Router.
Context {C : Type} (aborted : C → bool).

Definition handler : Type := C → C.

Record RouteConfig := MkRoute {
  Path : string;
  Method : string;
  Handler : handler;
  Description : string;
  Middlewares : list handler
}.

Record RouteGroup := MkGroup {
  g_name : string;
  prefix : string;
  g_routes : list RouteConfig;
  g_middlewares : list handler
}.

(** Only the key ["global"] of the source's map of middlewares is used. *)
Record RouteRegistry := MkRegistry {
  routes : list RouteConfig;
  groups : gmap string RouteGroup;
  global : list handler
}.

Definition NewRouteRegistry : RouteRegistry := MkRegistry [] ∅ [].

(** The group of a name; the prefix is used only for a new one. *)
Definition Group (name prefix : string) (rr : RouteRegistry) : RouteRegistry * RouteGroup :=
  match groups rr !! name with
  | Some g => (rr, g)
  | None =>
      let g := MkGroup name prefix [] [] in
      (MkRegistry (routes rr) (<[name := g]> (groups rr)) (global rr), g)
  end.

Definition Use (ms : list handler) (rr : RouteRegistry) : RouteRegistry :=
  MkRegistry (routes rr) (groups rr) (global rr ++ ms).

Definition Register (method path : string) (h : handler) (description : list string) (rr : RouteRegistry) :
    RouteRegistry :=
  MkRegistry (routes rr ++ [MkRoute path method h (default "" (head description)) []]) (groups rr) (global rr).

Definition Group_Use (ms : list handler) (g : RouteGroup) : RouteGroup :=
  MkGroup (g_name g) (prefix g) (g_routes g) (g_middlewares g ++ ms).

Definition Group_Register (method path : string) (h : handler) (description : list string) (g : RouteGroup) :
    RouteGroup :=
  MkGroup (g_name g) (prefix g) (g_routes g ++ [MkRoute path method h (default "" (head description)) []])
    (g_middlewares g).

(** Middlewares for the route added last. *)
Definition Group_Middleware (ms : list handler) (g : RouteGroup) : RouteGroup :=
  match last (g_routes g) with
  | None => g
  | Some r =>
      MkGroup (g_name g) (prefix g)
        (take (length (g_routes g) - 1) (g_routes g) ++
         [MkRoute (Path r) (Method r) (Handler r) (Description r) (Middlewares r ++ ms)])
        (g_middlewares g)
  end.

(** A group is shared with the registry: its methods act on the entry. *)
Definition on_group (name : string) (f : RouteGroup → RouteGroup) (rr : RouteRegistry) : RouteRegistry :=
  MkRegistry (routes rr) (alter f name (groups rr)) (global rr).

(** ** Composition *)

(** [middleware(c); if !c.IsAborted() { next(c) }]. *)
Definition wrap (m next : handler) : handler :=
  λ c, let c := m c in if aborted c then c else next c.

(** The inner loop: from the last middleware of a group to the first. *)
Definition wrap_group (ms : list handler) (h : handler) : handler := foldr wrap h ms.

(** The outer loop: from the last group to the first. *)
Definition applyMiddlewares (h : handler) (mss : list (list handler)) : handler := foldr wrap_group h mss.

(** One after the other until one aborts, then the handler. *)
Fixpoint ChainMiddlewares (h : handler) (ms : list handler) : handler :=
  match ms with
  | [] => h
  | m :: ms => λ c, let c := m c in if aborted c then c else ChainMiddlewares h ms c
  end.

(** What the engine is told: method, path and handler.  ["*"] is every method,
    and other methods are dropped. *)
Definition registerRoute (method path : string) (h : handler) : list (string * string * handler) :=
  if decide (method ∈ ["GET"; "POST"; "PUT"; "DELETE"; "PATCH"; "OPTIONS"; "*"]) then [(method, path, h)] else [].

(** [order] enumerates the groups. *)
Definition Build (order : list string) (rr : RouteRegistry) : list (string * string * handler) :=
  (r ← routes rr;
   registerRoute (Method r) (Path r) (applyMiddlewares (Handler r) [Middlewares r; global rr])) ++
  (name ← order;
   match groups rr !! name with
   | None => []
   | Some g =>
       r ← g_routes g;
       registerRoute (Method r) (prefix g +:+ Path r)
         (applyMiddlewares (Handler r) [g_middlewares g ++ Middlewares r; global rr])
   end).

(** ** The order of middlewares *)

Lemma wrap_group_chain ms h c : wrap_group ms h c = ChainMiddlewares h ms c.
Proof.
  revert c. induction ms as [|m ms IH]; intros c; cbn; [done|]. unfold wrap.
  destruct (aborted (m c)); [done|]. apply IH.
Qed.

Lemma chain_app h ms ms' c : ChainMiddlewares h (ms ++ ms') c = ChainMiddlewares (ChainMiddlewares h ms') ms c.
Proof. revert c. induction ms as [|m ms IH]; intros c; cbn; [done|]. by destruct (aborted (m c)). Qed.

(** The nested wrappers run all middlewares in order, the groups one after the
    other, until one aborts; only then nothing reaches the handler. *)
Theorem applyMiddlewares_chain h mss c :
  applyMiddlewares h mss c = ChainMiddlewares h (mjoin mss) c.
Proof.
  revert c. induction mss as [|ms mss IH]; intros c; cbn; [done|].
  rewrite wrap_group_chain, chain_app. clear -IH. revert c. induction ms as [|m ms IH']; intros c; cbn; [apply IH|].
  by destruct (aborted (m c)).
Qed.

(** Every route with a known method is registered once, under the prefix of its
    group, behind the middlewares of the group, of the route and the global
    ones, in this order. *)
Theorem Build_registers order rr method path h :
  order ≡ₚ (map_to_list (groups rr)).*1 →
  (method, path, h) ∈ Build order rr ↔
  method ∈ ["GET"; "POST"; "PUT"; "DELETE"; "PATCH"; "OPTIONS"; "*"] ∧
  ((∃ r, r ∈ routes rr ∧ Method r = method ∧ Path r = path ∧
         h = applyMiddlewares (Handler r) [Middlewares r; global rr]) ∨
   (∃ name g r, groups rr !! name = Some g ∧ r ∈ g_routes g ∧ Method r = method ∧ prefix g +:+ Path r = path ∧
         h = applyMiddlewares (Handler r) [g_middlewares g ++ Middlewares r; global rr])).
Proof.
  intros Horder. unfold Build, registerRoute. rewrite elem_of_app, !list_elem_of_bind. split.
  - intros [(r & Hr & Hin)|(name & Hname & Hin)].
    + case_decide as Hm; [|by inversion Hr]. apply list_elem_of_singleton in Hr. simplify_eq. eauto 10.
    + destruct (groups rr !! name) as [g|] eqn:Hg; [|by inversion Hname].
      apply list_elem_of_bind in Hname as (r & Hr & Hin'). case_decide as Hm; [|by inversion Hr].
      apply list_elem_of_singleton in Hr. simplify_eq. split; [done|]. right. by exists name, g, r.
  - intros [Hm [(r & Hin & <- & <- & ->)|(name & g & r & Hg & Hin & <- & <- & ->)]].
    + left. exists r. split; [|done]. rewrite decide_True by done. by left.
    + right. exists name. rewrite Hg. split.
      * apply list_elem_of_bind. exists r. split; [|done]. rewrite decide_True by done. by left.
      * rewrite Horder. apply list_elem_of_fmap. exists (name, g). split; [done|]. by apply elem_of_map_to_list.
Qed.

End Router.

(** ** Concrete behaviour *)

(** A context is the trace of what ran. *)
Definition ex_mark (s : string) : handler (C := list string) := λ c, c ++ [s].

(** The global middlewares run after those of the group. *)
Theorem global_middleware_runs_last :
  let g := Group_Use [ex_mark "auth"] (Group_Register "GET" "/x" (ex_mark "handler") [] (MkGroup "api" "/api" [] [])) in
  let rr := Use [ex_mark "request-id"] (MkRegistry [] {["api" := g]} []) in
  (λ r, r.2 []) <$> Build (λ _, false) ["api"] rr = [["auth"; "request-id"; "handler"]].
Proof. vm_compute. done. Qed.

(** A second group of a name keeps the first prefix. *)
Theorem group_prefix_ignored :
  let rr := (Group (C := unit) "api" "/v1" NewRouteRegistry).1 in
  prefix (Group "api" "/v2" rr).2 = "/v1".
Proof. vm_compute. done. Qed.

(** A route with a method that is not listed is dropped without an error. *)
Theorem head_route_dropped :
  Build (λ _, false) [] (Register "HEAD" "/x" (ex_mark "handler") [] NewRouteRegistry) = [].
Proof. vm_compute. done. Qed.
