(* ===== verification/RedisClient.v ===== *)
(** * plugins/cache/redis: configuration and routing of the client

    config.go: the configuration, its presets and [Validate].  client.go: the
    construction of the connections for each mode and the choice of the
    connection that serves a key.  The server and go-redis are not part of the
    repository: a connection is what it was opened with, [ping] is the answer of
    a server.  The commands of client.go pass their arguments to the connection
    that [getClientForKey] chooses; those the lock uses are in [RedisLock]. *)

From stdpp Require Import pretty.
From S2P Require Import Prelude GoString.

Open Scope Z_scope.

(** ** config.go *)

(** [Mode] is a string type; other values are refused by [New]. *)
Definition ModeSingle : string := "single".
Definition ModeCluster : string := "cluster".
Definition ModeSentinel : string := "sentinel".
Definition ModeMasterSlave : string := "master_slave".
Definition ModeMulti : string := "multi".

Record NodeConfig := MkNode {
  n_Host : string;
  n_Port : Z;
  n_Password : string;
  n_Database : Z;
  Weight : Z;
  IsMaster : bool
}.

Record SentinelOpts := MkSentinel {
  MasterName : string;
  SentinelAddrs : list string;
  SentinelPassword : string
}.

Record ClusterOpts := MkCluster {
  MaxRedirects : Z;
  ReadOnly : bool;
  RouteByLatency : bool;
  RouteRandomly : bool
}.

Record MultiOpts := MkMulti {
  ShardingStrategy : string;
  KeyPrefixRoutes : gmap string Z;
  DefaultNode : Z
}.

(** The limits and timeouts, which every mode shares. *)
Record Tuning := MkTuning {
  Timeout : Z;
  MaxRetries : Z;
  PoolSize : Z;
  MinIdleConns : Z;
  MaxIdleConns : Z;
  ConnMaxIdleTime : Z;
  ConnMaxLifetime : Z;
  DialTimeout : Z;
  ReadTimeout : Z;
  WriteTimeout : Z;
  PoolTimeout : Z;
  IdleTimeout : Z;
  IdleCheckFrequency : Z
}.

Record Config := MkConfig {
  mode : string;
  Nodes : list NodeConfig;
  Host : string;
  Port : Z;
  Password : string;
  Database : Z;
  KeyPrefix : string;
  tuning : Tuning;
  Enabled : bool;
  Sentinel : SentinelOpts;
  Cluster : ClusterOpts;
  Multi : MultiOpts
}.

Definition Hour : Z := 60 * GoTime.Minute.

Definition default_tuning (pool minIdle maxIdle : Z) : Tuning :=
  MkTuning (5 * GoTime.Second) 3 pool minIdle maxIdle (30 * GoTime.Minute) Hour (5 * GoTime.Second)
    (3 * GoTime.Second) (3 * GoTime.Second) (4 * GoTime.Second) (5 * GoTime.Minute) GoTime.Minute.

Definition no_sentinel : SentinelOpts := MkSentinel "" [] "".
Definition no_cluster : ClusterOpts := MkCluster 0 false false false.
Definition no_multi : MultiOpts := MkMulti "" ∅ 0.

Definition DefaultConfig : Config :=
  MkConfig ModeSingle [] "localhost" 6379 "" 0 "" (default_tuning 10 2 5) true no_sentinel
    (MkCluster 3 false false false) no_multi.

Definition ClusterConfig : Config :=
  MkConfig ModeCluster [] "localhost" 6379 "" 0 "" (default_tuning 20 5 10) true no_sentinel
    (MkCluster 3 true false false) no_multi.

Definition SentinelConfig : Config :=
  MkConfig ModeSentinel [] "localhost" 26379 "" 0 "" (default_tuning 10 2 5) true
    (MkSentinel "mymaster" ["localhost:26379"] "") no_cluster no_multi.

Definition plain_node (port : Z) : NodeConfig := MkNode "localhost" port "" 0 0 false.

Definition MultiConfig : Config :=
  MkConfig ModeMulti [plain_node 6379; plain_node 6380; plain_node 6381] "localhost" 6379 "" 0 ""
    (default_tuning 10 2 5) true no_sentinel no_cluster
    (MkMulti "prefix" (<["user:" := 1]> {["order:" := 2]}) 0).

Definition MasterSlaveConfig : Config :=
  MkConfig ModeMasterSlave
    [MkNode "localhost" 6379 "" 0 0 true; MkNode "localhost" 6380 "" 0 1 false;
     MkNode "localhost" 6381 "" 0 1 false]
    "localhost" 6379 "" 0 "" (default_tuning 10 2 5) true no_sentinel no_cluster no_multi.

(** ** Validate *)

Definition fix_node (n : NodeConfig) : NodeConfig :=
  MkNode (or_default_s (n_Host n) "localhost") (or_default (n_Port n) 6379) (n_Password n) (n_Database n)
    (Weight n) (IsMaster n).

Definition fix_nodes (c : Config) : list NodeConfig :=
  fix_node <$> match Nodes c with
               | [] => [MkNode (Host c) (Port c) (Password c) (Database c) 0 false]
               | ns => ns
               end.

Definition fix_multi (nodes : list NodeConfig) (m : MultiOpts) : MultiOpts :=
  MkMulti (or_default_s (ShardingStrategy m) "hash") (KeyPrefixRoutes m)
    (if (DefaultNode m <? 0) || (Z.of_nat (length nodes) <=? DefaultNode m) then 0 else DefaultNode m).

Definition fix_sentinel (c : Config) : SentinelOpts :=
  MkSentinel (or_default_s (MasterName (Sentinel c)) "mymaster")
    (match SentinelAddrs (Sentinel c) with
     | [] => [Host c +:+ ":" +:+ pretty (Port c)]
     | a => a
     end) (SentinelPassword (Sentinel c)).

Definition fix_tuning (t : Tuning) : Tuning :=
  MkTuning (or_default (Timeout t) (5 * GoTime.Second)) (or_default (MaxRetries t) 3) (or_default (PoolSize t) 10)
    (or_default (MinIdleConns t) 2) (or_default (MaxIdleConns t) 5)
    (or_default (ConnMaxIdleTime t) (30 * GoTime.Minute)) (or_default (ConnMaxLifetime t) Hour)
    (or_default (DialTimeout t) (5 * GoTime.Second)) (or_default (ReadTimeout t) (3 * GoTime.Second))
    (or_default (WriteTimeout t) (3 * GoTime.Second)) (or_default (PoolTimeout t) (4 * GoTime.Second))
    (or_default (IdleTimeout t) (5 * GoTime.Minute)) (or_default (IdleCheckFrequency t) GoTime.Minute).

Definition Validate (c : Config) : Config :=
  let m := or_default_s (mode c) ModeSingle in
  let t := fix_tuning (tuning c) in
  if decide (m = ModeSingle) then
    MkConfig m (Nodes c) (or_default_s (Host c) "localhost") (or_default (Port c) 6379) (Password c) (Database c)
      (KeyPrefix c) t (Enabled c) (Sentinel c) (Cluster c) (Multi c)
  else if decide (m = ModeCluster ∨ m = ModeMasterSlave ∨ m = ModeMulti) then
    MkConfig m (fix_nodes c) (Host c) (Port c) (Password c) (Database c) (KeyPrefix c) t (Enabled c) (Sentinel c)
      (Cluster c) (if decide (m = ModeMulti) then fix_multi (fix_nodes c) (Multi c) else Multi c)
  else if decide (m = ModeSentinel) then
    MkConfig m (Nodes c) (Host c) (Port c) (Password c) (Database c) (KeyPrefix c) t (Enabled c) (fix_sentinel c)
      (Cluster c) (Multi c)
  else
    MkConfig m (Nodes c) (Host c) (Port c) (Password c) (Database c) (KeyPrefix c) t (Enabled c) (Sentinel c)
      (Cluster c) (Multi c).

(** ** client.go: construction *)

(** What a connection was opened with. *)
Inductive conn : Type :=
| Single (addr password : string) (db : Z)
| Failover (master : string) (sentinels : list string)
| ClusterOf (addrs : list string).

#[export] Instance conn_eq_dec : EqDecision conn.
Proof. solve_decision. Defined.

Record Client := MkClient {
  config : Config;
  rdb : option conn;
  cluster : option conn;
  nodes : list (option conn)
}.

Definition address (host : string) (port : Z) : string := host +:+ ":" +:+ pretty port.

Section New.
(** The answer of the server to the ping. *)
Variable ping : conn → option GoError.error.

Definition newSingleClient (c : Config) : result Client :=
  let conn := Single (address (Host c) (Port c)) (Password c) (Database c) in
  match ping conn with
  | Some e => Err (GoError.ErrorfW "failed to ping redis: %w" [] e)
  | None => Ok (MkClient c (Some conn) None [])
  end.

Definition newClusterClient (c : Config) : result Client :=
  let conn := ClusterOf ((λ n, address (n_Host n) (n_Port n)) <$> Nodes c) in
  match ping conn with
  | Some e => Err (GoError.ErrorfW "failed to ping redis cluster: %w" [] e)
  | None => Ok (MkClient c None (Some conn) [])
  end.

Definition newSentinelClient (c : Config) : result Client :=
  let conn := Failover (MasterName (Sentinel c)) (SentinelAddrs (Sentinel c)) in
  match ping conn with
  | Some e => Err (GoError.ErrorfW "failed to ping redis sentinel: %w" [] e)
  | None => Ok (MkClient c (Some conn) None [])
  end.

(** All nodes are opened, then pinged in order; the first failure is returned. *)
Fixpoint ping_all (i : Z) (conns : list conn) : option GoError.error :=
  match conns with
  | [] => None
  | conn :: conns =>
      match ping conn with
      | Some e => Some (GoError.ErrorfW "failed to ping redis node %d: %w" [pretty i] e)
      | None => ping_all (i + 1) conns
      end
  end.

Definition open_nodes (c : Config) : list conn :=
  (λ n, Single (address (n_Host n) (n_Port n)) (n_Password n) (n_Database n)) <$> Nodes c.

Definition newMasterSlaveClient (c : Config) : result Client :=
  match ping_all 0 (open_nodes c) with
  | Some e => Err e
  | None => Ok (MkClient c None None (Some <$> open_nodes c))
  end.

Definition newMultiClient (c : Config) : result Client :=
  match ping_all 0 (open_nodes c) with
  | Some e => Err e
  | None => Ok (MkClient c None None (Some <$> open_nodes c))
  end.

Definition New (c : Config) : result Client :=
  let c := Validate c in
  if decide (mode c = ModeSingle ∨ mode c = "") then newSingleClient c
  else if decide (mode c = ModeCluster) then newClusterClient c
  else if decide (mode c = ModeSentinel) then newSentinelClient c
  else if decide (mode c = ModeMasterSlave) then newMasterSlaveClient c
  else if decide (mode c = ModeMulti) then newMultiClient c
  else Err (GoError.Errorf "unsupported redis mode: %s" [mode c]).
End New.

(** ** client.go: routing *)

Definition getSafeDefaultNode (c : Client) : Z :=
  let n := Z.of_nat (length (nodes c)) in
  if n =? 0 then 0
  else
    let d := DefaultNode (Multi (config c)) in
    if (0 <=? d) && (d <? n) then d else 0.

(** [hash = (hash*31 + int(ch)) % len(c.nodes)]. *)
Definition hash_key (n : Z) (key : string) : Z :=
  foldl (λ hash ch, Z.rem (GoInt.i64 (GoInt.i64 (hash * 31) + ch)) n) 0 (runes key).

(** [order] enumerates the prefixes: the first that matches decides. *)
Fixpoint route_prefix (c : Client) (key : string) (order : list string) : option Z :=
  match order with
  | [] => None
  | prefix :: order =>
      match KeyPrefixRoutes (Multi (config c)) !! prefix with
      | Some nodeIdx =>
          if HasPrefix key prefix then
            Some (if (0 <=? nodeIdx) && (nodeIdx <? Z.of_nat (length (nodes c))) then nodeIdx
                  else getSafeDefaultNode c)
          else route_prefix c key order
      | None => route_prefix c key order
      end
  end.

Definition getNodeForKey (order : list string) (key : string) (c : Client) : Z :=
  let n := Z.of_nat (length (nodes c)) in
  if negb (bool_decide (mode (config c) = ModeMulti)) || (n =? 0) then 0
  else
    match route_prefix c key order with
    | Some i => i
    | None =>
        if decide (ShardingStrategy (Multi (config c)) = "hash") then hash_key n key else getSafeDefaultNode c
    end.

(** The first node that is not nil. *)
Fixpoint getFirstAvailableNode (ns : list (option conn)) : option conn :=
  match ns with
  | [] => None
  | Some c :: _ => Some c
  | None :: ns => getFirstAvailableNode ns
  end.

Definition getClientForKey (order : list string) (key : string) (c : Client) : option conn :=
  match rdb c with
  | Some r => Some r
  | None =>
      match cluster c with
      | Some cl => Some cl
      | None =>
          if (0 <? Z.of_nat (length (nodes c))) then
            if decide (mode (config c) = ModeMulti) then
              let idx := getNodeForKey order key c in
              match (if (0 <=? idx) && (idx <? Z.of_nat (length (nodes c)))
                     then mjoin (nodes c !! Z.to_nat idx) else None) with
              | Some node => Some node
              | None => getFirstAvailableNode (nodes c)
              end
            else match mjoin (nodes c !! 0%nat) with
                 | Some node => Some node
                 | None => getFirstAvailableNode (nodes c)
                 end
          else None
      end
  end.

(** [getClient]: the connection of pipelines, chosen without a key. *)
Definition getClient (write : bool) (c : Client) : option conn :=
  match rdb c with
  | Some r => Some r
  | None =>
      match cluster c with
      | Some cl => Some cl
      | None =>
          match (if write then getFirstAvailableNode (nodes c) else None) with
          | Some node => Some node
          | None => mjoin (nodes c !! 0%nat)
          end
      end
  end.

(** ** What [Validate] establishes *)

Definition limits (t : Tuning) : list Z :=
  [Timeout t; MaxRetries t; PoolSize t; MinIdleConns t; MaxIdleConns t; ConnMaxIdleTime t; ConnMaxLifetime t;
   DialTimeout t; ReadTimeout t; WriteTimeout t; PoolTimeout t; IdleTimeout t; IdleCheckFrequency t].

(** A configuration the rest of the package may rely on. *)
Definition tuning_set (t : Tuning) : Prop := Forall (λ z, z ≠ 0) (limits t).

(** Decides equations between the names of modes. *)
Ltac modes :=
  unfold ModeSingle, ModeCluster, ModeSentinel, ModeMasterSlave, ModeMulti in *; naive_solver.

Definition has_nodes (m : string) : Prop := m = ModeCluster ∨ m = ModeMasterSlave ∨ m = ModeMulti.

Record well_formed (c : Config) : Prop := {
  wf_mode : mode c ≠ "";
  wf_single : mode c = ModeSingle → Host c ≠ "" ∧ Port c ≠ 0;
  wf_nodes : has_nodes (mode c) → Nodes c ≠ [] ∧ Forall (λ n, n_Host n ≠ "" ∧ n_Port n ≠ 0) (Nodes c);
  wf_multi : mode c = ModeMulti →
    ShardingStrategy (Multi c) ≠ "" ∧ 0 <= DefaultNode (Multi c) < Z.of_nat (length (Nodes c));
  wf_sentinel : mode c = ModeSentinel → MasterName (Sentinel c) ≠ "" ∧ SentinelAddrs (Sentinel c) ≠ [];
  wf_tuning : tuning_set (tuning c)
}.

Lemma fix_tuning_set t : tuning_set (fix_tuning t).
Proof. repeat (constructor; [apply or_default_set; done|]). constructor. Qed.

Lemma fix_tuning_id t : tuning_set t → fix_tuning t = t.
Proof.
  unfold tuning_set, limits. rewrite !Forall_cons. intros H. destruct t. unfold fix_tuning. cbn in *.
  rewrite !or_default_id by naive_solver. done.
Qed.

Lemma fix_nodes_wf c : fix_nodes c ≠ [] ∧ Forall (λ n, n_Host n ≠ "" ∧ n_Port n ≠ 0) (fix_nodes c).
Proof.
  unfold fix_nodes. split; [by destruct (Nodes c)|]. apply Forall_fmap, Forall_true. intros n. cbn.
  split; [by apply or_default_s_set|by apply or_default_set].
Qed.

Lemma fix_nodes_id c :
  Nodes c ≠ [] → Forall (λ n, n_Host n ≠ "" ∧ n_Port n ≠ 0) (Nodes c) → fix_nodes c = Nodes c.
Proof.
  unfold fix_nodes. intros Hne Hwf. destruct (Nodes c) as [|n ns]; [done|]. clear Hne.
  induction Hwf as [|[] l [] ? IH]; cbn; [done|]. cbn in *. rewrite IH. unfold fix_node. cbn.
  by rewrite or_default_s_id, or_default_id.
Qed.

Lemma fix_multi_wf ns m :
  ns ≠ [] → ShardingStrategy (fix_multi ns m) ≠ "" ∧ 0 <= DefaultNode (fix_multi ns m) < Z.of_nat (length ns).
Proof.
  intros Hne. split; [by apply or_default_s_set|]. cbn.
  assert (0 < Z.of_nat (length ns)) by (destruct ns; [done|cbn; lia]).
  destruct (_ || _) eqn:E; [lia|]. apply orb_false_iff in E as [?%Z.ltb_ge ?%Z.leb_gt]. lia.
Qed.

Lemma fix_multi_id ns m :
  ShardingStrategy m ≠ "" → 0 <= DefaultNode m < Z.of_nat (length ns) → fix_multi ns m = m.
Proof.
  intros Hs Hd. destruct m. unfold fix_multi. cbn in *. rewrite or_default_s_id by done.
  rewrite (proj2 (Z.ltb_ge _ _)), (proj2 (Z.leb_gt _ _)) by lia. done.
Qed.

(** [v] has what [c] sets, and defaults for the rest: the mode single, the limits
    and timeouts of [DefaultConfig], the local server. *)
Record completes (c v : Config) : Prop := {
  co_mode : mode v = if decide (mode c = "") then "single" else mode c;
  co_same : Password v = Password c ∧ Database v = Database c ∧ KeyPrefix v = KeyPrefix c ∧ Enabled v = Enabled c ∧
    Cluster v = Cluster c;
  co_limits : limits (tuning v) =
    zip_with (λ given dflt, if decide (given = 0) then dflt else given) (limits (tuning c)) (limits (tuning DefaultConfig));
  co_single : mode v = ModeSingle →
    Host v = (if decide (Host c = "") then "localhost" else Host c) ∧
    Port v = (if decide (Port c = 0) then 6379 else Port c);
  co_nodes : has_nodes (mode v) →
    Forall2 (λ n n', n_Host n' = (if decide (n_Host n = "") then "localhost" else n_Host n) ∧
                     n_Port n' = (if decide (n_Port n = 0) then 6379 else n_Port n) ∧
                     n_Password n' = n_Password n ∧ n_Database n' = n_Database n ∧ Weight n' = Weight n ∧
                     IsMaster n' = IsMaster n)
      (if decide (Nodes c = []) then [MkNode (Host c) (Port c) (Password c) (Database c) 0 false] else Nodes c) (Nodes v);
  co_other_nodes : ¬ has_nodes (mode v) → Nodes v = Nodes c
}.

Lemma or_default_if (z d : Z) : or_default z d = if decide (z = 0) then d else z.
Proof. unfold or_default. repeat case_match; try done; case_decide; (done || lia). Qed.

Lemma or_default_s_if (z d : string) : or_default_s z d = if decide (z = "") then d else z.
Proof. unfold or_default_s. by repeat case_match. Qed.

Lemma fix_tuning_limits t :
  limits (fix_tuning t) =
    zip_with (λ given dflt, if decide (given = 0) then dflt else given) (limits t) (limits (tuning DefaultConfig)).
Proof. unfold fix_tuning, limits. cbn -[decide]. by rewrite !or_default_if. Qed.

Lemma fix_nodes_completes c :
  Forall2 (λ n n', n_Host n' = (if decide (n_Host n = "") then "localhost" else n_Host n) ∧
                   n_Port n' = (if decide (n_Port n = 0) then 6379 else n_Port n) ∧
                   n_Password n' = n_Password n ∧ n_Database n' = n_Database n ∧ Weight n' = Weight n ∧
                   IsMaster n' = IsMaster n)
    (if decide (Nodes c = []) then [MkNode (Host c) (Port c) (Password c) (Database c) 0 false] else Nodes c) (fix_nodes c).
Proof.
  unfold fix_nodes. replace (if decide (Nodes c = []) then _ else Nodes c)
    with (match Nodes c with [] => [MkNode (Host c) (Port c) (Password c) (Database c) 0 false] | ns => ns end)
    by (by destruct (Nodes c)).
  apply Forall2_fmap_r. apply Forall_Forall2_diag, Forall_true. intros n. cbn. rewrite or_default_if, or_default_s_if. done.
Qed.

Lemma Validate_completes c : completes c (Validate c).
Proof.
  pose proof (fix_tuning_limits (tuning c)) as Ht. pose proof (fix_nodes_completes c) as Hn.
  pose proof (or_default_s_if (mode c) ModeSingle) as Hm.
  unfold Validate. cbv zeta. revert Hm. generalize (or_default_s (mode c) ModeSingle) as m. intros m Hm.
  destruct (decide (m = ModeSingle)) as [H1|H1];
    [|destruct (decide (m = ModeCluster ∨ m = ModeMasterSlave ∨ m = ModeMulti)) as [H2|H2];
      [|destruct (decide (m = ModeSentinel)) as [H3|H3]]]; split; cbn [mode Password Database KeyPrefix Enabled Cluster tuning Host Port Nodes];
    try done; try (intros Hx; exfalso; unfold has_nodes in *; modes).
  - intros _. by rewrite or_default_if, or_default_s_if.
  - rewrite H1. by intros [?|[?|?]].
Qed.

Lemma Validate_wf c : well_formed (Validate c).
Proof.
  pose proof (fix_nodes_wf c) as Hn. pose proof (fix_tuning_set (tuning c)) as Ht.
  pose proof (or_default_s_set (mode c) ModeSingle) as Hm.
  pose proof (fix_multi_wf (fix_nodes c) (Multi c)) as Hmu.
  unfold Validate, has_nodes in *. cbv zeta. revert Hm. generalize (or_default_s (mode c) ModeSingle) as m. intros m Hm.
  repeat case_decide; split; cbn; unfold has_nodes;
    first [intros _; split; [apply or_default_s_set; done|first [apply or_default_set; done|by case_match]]
          |done|intros ?; simplify_eq; first [done|tauto|naive_solver]|modes].
Qed.


(** ** Routing *)

(** A client has one connection, or nodes that are all open. *)
Definition connected (c : Client) : Prop :=
  is_Some (rdb c) ∨ is_Some (cluster c) ∨ (nodes c ≠ [] ∧ Forall is_Some (nodes c)).

Lemma Validate_mode c : mode (Validate c) = or_default_s (mode c) ModeSingle.
Proof. unfold Validate. by repeat case_decide. Qed.

Lemma open_nodes_connected c r cl :
  Nodes c ≠ [] → connected (MkClient c r cl (Some <$> open_nodes c)).
Proof.
  intros Hne. right. right. cbn. split.
  - unfold open_nodes. by destruct (Nodes c).
  - apply Forall_fmap, Forall_true. intros n. by exists n.
Qed.

Lemma New_connected ping c client : New ping c = Ok client → connected client ∧ config client = Validate c.
Proof.
  unfold New. pose proof (Validate_wf c) as [_ _ Hn _ _ _]. unfold has_nodes in Hn.
  unfold newSingleClient, newClusterClient, newSentinelClient, newMasterSlaveClient, newMultiClient.
  repeat (case_decide || case_match); intros; simplify_eq; split; try done.
  all: first [by left|by right; left|apply open_nodes_connected; naive_solver].
Qed.

Lemma getFirstAvailableNode_all ns : ns ≠ [] → Forall is_Some ns → is_Some (getFirstAvailableNode ns).
Proof. destruct ns as [|[n|] ns]; [done|by eexists|]. by intros _ [[] _]%Forall_cons. Qed.

(** A command never meets a nil connection: every key of a client that [New]
    returned, and every pipeline, is served. *)
Theorem New_serves_every_key ping c client order key write :
  New ping c = Ok client → is_Some (getClientForKey order key client) ∧ is_Some (getClient write client).
Proof.
  intros [[Hr|[Hc|[Hne Hall]]] _]%New_connected; unfold getClientForKey, getClient.
  - destruct Hr as [r ->]. eauto.
  - destruct Hc as [r ->]. destruct (rdb client); eauto.
  - destruct (rdb client); [eauto|]. destruct (cluster client); [eauto|].
    pose proof (getFirstAvailableNode_all _ Hne Hall) as Hf.
    assert (Hlen : 0 < Z.of_nat (length (nodes client))) by (destruct (nodes client); [done|cbn; lia]).
    assert (Hzero : is_Some (mjoin (nodes client !! 0%nat))).
    { destruct (nodes client) as [|n ns]; [done|]. by apply Forall_cons in Hall as [? _]. }
    split; [|destruct write; [by destruct Hf as [f ->]; eexists|exact Hzero]].
    rewrite (proj2 (Z.ltb_lt _ _)) by done. case_decide; case_match; eauto.
Qed.

Lemma hash_fold_range n rs h :
  0 < n < 2 ^ 57 → 0 <= h < n → (∀ r, r ∈ rs → 0 <= r <= 1114111) →
  0 <= foldl (λ hash ch, Z.rem (GoInt.i64 (GoInt.i64 (hash * 31) + ch)) n) h rs < n.
Proof.
  intros Hn. revert h. induction rs as [|ch rs IH]; intros h Hh Hr; cbn [foldl]; [done|].
  apply IH; [|intros r Hin; apply Hr; by right].
  assert (0 <= ch <= 1114111) by (apply Hr; by left).
  rewrite (GoInt.i64_id (h * 31)) by in_range. rewrite GoInt.i64_id by in_range.
  apply Z.rem_bound_pos; lia.
Qed.

Lemma hash_key_range n key : 0 < n < 2 ^ 57 → 0 <= hash_key n key < n.
Proof. intros Hn. apply hash_fold_range; [done|lia|apply runes_range]. Qed.

Lemma getSafeDefaultNode_range c : nodes c ≠ [] → 0 <= getSafeDefaultNode c < Z.of_nat (length (nodes c)).
Proof.
  intros Hne. assert (0 < Z.of_nat (length (nodes c))) by (destruct (nodes c); [done|cbn; lia]).
  unfold getSafeDefaultNode. zcmp. destruct (_ && _) eqn:E; [|lia].
  apply andb_prop in E as [?%Z.leb_le ?%Z.ltb_lt]. lia.
Qed.

(** The index of a key is the index of a node, whatever is configured. *)
Theorem getNodeForKey_range order key c :
  nodes c ≠ [] → Z.of_nat (length (nodes c)) < 2 ^ 57 →
  0 <= getNodeForKey order key c < Z.of_nat (length (nodes c)).
Proof.
  intros Hne Hlt. assert (0 < Z.of_nat (length (nodes c))) by (destruct (nodes c); [done|cbn; lia]).
  pose proof (getSafeDefaultNode_range c Hne) as Hd.
  unfold getNodeForKey. destruct (_ || _); [lia|].
  assert (Hp : ∀ i, route_prefix c key order = Some i → 0 <= i < Z.of_nat (length (nodes c))).
  { induction order as [|p order IH]; cbn; [done|]. intros i. repeat case_match; intros; simplify_eq; eauto.
    match goal with H : _ && _ = true |- _ => apply andb_prop in H as [?%Z.leb_le ?%Z.ltb_lt] end. lia. }
  destruct (route_prefix c key order) as [i|]; [by apply Hp|]. case_decide; [|done].
  by apply hash_key_range.
Qed.

(** At most one configured prefix matches the key. *)
Definition unambiguous (c : Client) (key : string) : Prop :=
  ∀ p q, is_Some (KeyPrefixRoutes (Multi (config c)) !! p) → is_Some (KeyPrefixRoutes (Multi (config c)) !! q) →
    HasPrefix key p = true → HasPrefix key q = true → p = q.

Lemma route_prefix_spec c key order i :
  route_prefix c key order = Some i →
  ∃ p idx, p ∈ order ∧ KeyPrefixRoutes (Multi (config c)) !! p = Some idx ∧ HasPrefix key p = true ∧
    i = if (0 <=? idx) && (idx <? Z.of_nat (length (nodes c))) then idx else getSafeDefaultNode c.
Proof.
  induction order as [|p order IH]; cbn; [done|].
  destruct (KeyPrefixRoutes _ !! p) as [idx|] eqn:Hp.
  - destruct (HasPrefix key p) eqn:Hpre.
    + intros [= <-]. exists p, idx. split; [by left|]. done.
    + intros (q & j & ? & ?)%IH. exists q, j. split; [by right|done].
  - intros (q & j & ? & ?)%IH. exists q, j. split; [by right|done].
Qed.

Lemma route_prefix_None c key order p idx :
  route_prefix c key order = None → p ∈ order → KeyPrefixRoutes (Multi (config c)) !! p = Some idx →
  HasPrefix key p = false.
Proof.
  induction order as [|q order IH]; cbn; [by intros _ ?%elem_of_nil|].
  intros H [->|Hin]%elem_of_cons Hp.
  - rewrite Hp in H. by destruct (HasPrefix key q).
  - destruct (KeyPrefixRoutes _ !! q); [destruct (HasPrefix key q); [done|]|]; by apply IH.
Qed.

(** The route of a key does not depend on the enumeration of the prefixes
    when at most one of them matches. *)
Theorem route_deterministic c key o1 o2 :
  unambiguous c key →
  range_of (KeyPrefixRoutes (Multi (config c))) o1 → range_of (KeyPrefixRoutes (Multi (config c))) o2 →
  getClientForKey o1 key c = getClientForKey o2 key c.
Proof.
  intros Hu H1 H2.
  assert (Hin : ∀ o p idx, range_of (KeyPrefixRoutes (Multi (config c))) o →
            KeyPrefixRoutes (Multi (config c)) !! p = Some idx → p ∈ o).
  { intros o p idx Ho Hp. rewrite Ho. apply list_elem_of_fmap. exists (p, idx). by rewrite elem_of_map_to_list. }
  assert (Hr : route_prefix c key o1 = route_prefix c key o2).
  { destruct (route_prefix c key o1) as [i|] eqn:E1, (route_prefix c key o2) as [j|] eqn:E2; [..|done].
    - apply route_prefix_spec in E1 as (p & idx & _ & Hp & Hpre & ->).
      apply route_prefix_spec in E2 as (q & idx' & _ & Hq & Hpre' & ->).
      assert (p = q) as <- by (eapply Hu; eauto). by simplify_eq.
    - apply route_prefix_spec in E1 as (p & idx & _ & Hp & Hpre & _).
      by rewrite (route_prefix_None _ _ _ _ _ E2 (Hin _ _ _ H2 Hp) Hp) in Hpre.
    - apply route_prefix_spec in E2 as (p & idx & _ & Hp & Hpre & _).
      by rewrite (route_prefix_None _ _ _ _ _ E1 (Hin _ _ _ H1 Hp) Hp) in Hpre. }
  unfold getClientForKey, getNodeForKey. by rewrite Hr.
Qed.

(** ** Concrete behaviour *)

Lemma route_deterministic_witness :
  unambiguous (MkClient MultiConfig None None (Some <$> open_nodes MultiConfig)) "user:1" ∧
  getClientForKey ["user:"; "order:"] "user:1" (MkClient MultiConfig None None (Some <$> open_nodes MultiConfig)) =
  getClientForKey ["order:"; "user:"] "user:1" (MkClient MultiConfig None None (Some <$> open_nodes MultiConfig)).
Proof.
  assert (Hu : unambiguous (MkClient MultiConfig None None (Some <$> open_nodes MultiConfig)) "user:1").
  { intros p q [i Hp] [j Hq]. cbn in Hp, Hq.
    apply lookup_insert_Some in Hp as [[<- _]|[_ [<- _]%lookup_singleton_Some]]; [|done].
    apply lookup_insert_Some in Hq as [[<- _]|[_ [<- _]%lookup_singleton_Some]]; done. }
  split; [exact Hu|].
  apply (route_deterministic _ "user:1" ["user:"; "order:"] ["order:"; "user:"] Hu); unfold range_of; cbn.
  - rewrite map_to_list_insert, map_to_list_singleton; done.
  - rewrite map_to_list_insert, map_to_list_singleton by done. cbn. apply Permutation_swap.
Defined.


(** With prefixes of which one extends another, the node of a key depends on
    the enumeration of the map. *)
Theorem overlapping_prefixes_ambiguous :
  let c := MkClient
    (MkConfig ModeMulti (Nodes MultiConfig) "localhost" 6379 "" 0 "" (default_tuning 10 2 5) true no_sentinel
       no_cluster (MkMulti "prefix" (<["user:" := 1]> {["user:vip:" := 2]}) 0))
    None None (Some <$> open_nodes MultiConfig) in
  getNodeForKey ["user:"; "user:vip:"] "user:vip:7" c = 1 ∧
  getNodeForKey ["user:vip:"; "user:"] "user:vip:7" c = 2.
Proof. vm_compute. done. Qed.

(** In master-slave mode every command goes to the first node, also when the
    master is another one. *)
Theorem master_is_first_node order key :
  let ms := MkConfig ModeMasterSlave [MkNode "slave" 6379 "" 0 1 false; MkNode "master" 6379 "" 0 0 true]
              "" 0 "" 0 "" (default_tuning 10 2 5) true no_sentinel no_cluster no_multi in
  let c := MkClient (Validate ms) None None (Some <$> open_nodes (Validate ms)) in
  New (λ _, None) ms = Ok c ∧ getClientForKey order key c = Some (Single "slave:6379" "" 0).
Proof. split; [vm_compute; reflexivity|reflexivity]. Qed.

(** Without addresses and host the sentinel address is [":0"]. *)
Theorem sentinel_default_address :
  SentinelAddrs (Sentinel (Validate
    (MkConfig ModeSentinel [] "" 0 "" 0 "" (default_tuning 10 2 5) true no_sentinel no_cluster no_multi))) = [":0"].
Proof. vm_compute. done. Qed.
