(* ===== verification/RedisLock.v ===== *)
(** * plugins/cache/redis/distributed_lock.go: the distributed lock

    A lock is a key with the holder's token and a time to live; the Lua scripts
    check the token before they delete the key or extend its life.  The Redis
    servers are a class of commands with the documented laws ([RedisServer],
    [RedisLaws]), one database per connection of the client; [RedisClient]
    chooses the connection.  A command may be lost before or after the server
    has executed it.  The locks of any number of processes run as a list of
    operations with the server's clock; their abstract specification is a lease
    with an owner and a deadline. *)

From S2P Require Import Prelude GoString RedisClient.

Open Scope Z_scope.

(** ** The server *)

Class RedisServer (DB : Type) := {
  rd_get : Z → string → DB → option string;
  rd_setnx : Z → string → string → Z → DB → DB * bool;
  rd_del : Z → string → DB → DB * Z;
  rd_pexpire : Z → string → Z → DB → DB * Z
}.

(** [SET key value NX PX ms], [DEL] and [PEXPIRE] by what [GET] answers at any
    later time; the time is the server's, in nanoseconds. *)
Class RedisLaws (DB : Type) `{!RedisServer DB} : Prop := {
  setnx_taken now k v ms db w : rd_get now k db = Some w → rd_setnx now k v ms db = (db, false);
  setnx_free now k v ms db :
    rd_get now k db = None → 0 < ms →
    (rd_setnx now k v ms db).2 = true ∧
    ∀ t k', now <= t → rd_get t k' (rd_setnx now k v ms db).1 =
      if decide (k' = k) then (if t <? now + ms * GoTime.Millisecond then Some v else None) else rd_get t k' db;
  del_spec now k db :
    (rd_del now k db).2 = (if rd_get now k db then 1 else 0) ∧
    ∀ t k', now <= t → rd_get t k' (rd_del now k db).1 = if decide (k' = k) then None else rd_get t k' db;
  pexpire_spec now k ms db w :
    rd_get now k db = Some w →
    (rd_pexpire now k ms db).2 = 1 ∧
    ∀ t k', now <= t → rd_get t k' (rd_pexpire now k ms db).1 =
      if decide (k' = k) then (if t <? now + ms * GoTime.Millisecond then Some w else None) else rd_get t k' db
}.

(** A server: keys with a value and a deadline. *)
Notation memdb := (gmap string (string * Z)).

Definition mem_get (now : Z) (k : string) (db : memdb) : option string :=
  match db !! k with
  | Some (v, d) => if now <? d then Some v else None
  | None => None
  end.

#[export] Instance memdb_server : RedisServer memdb := {
  rd_get := mem_get;
  rd_setnx now k v ms db :=
    if mem_get now k db then (db, false) else (<[k := (v, now + ms * GoTime.Millisecond)]> db, true);
  rd_del now k db := (delete k db, if mem_get now k db then 1 else 0);
  rd_pexpire now k ms db :=
    match mem_get now k db with
    | Some v => (<[k := (v, now + ms * GoTime.Millisecond)]> db, 1)
    | None => (db, 0)
    end
}.

Lemma mem_get_insert t k k' v d (db : memdb) :
  mem_get t k' (<[k := (v, d)]> db) =
  if decide (k' = k) then (if t <? d then Some v else None) else mem_get t k' db.
Proof.
  unfold mem_get. case_decide as E; [subst; by rewrite lookup_insert_eq|by rewrite lookup_insert_ne].
Qed.

#[export] Instance memdb_laws : RedisLaws memdb.
Proof.
  split; cbn; intros.
  - by match goal with H : mem_get _ _ _ = _ |- _ => rewrite H end.
  - match goal with H : mem_get _ _ _ = _ |- _ => rewrite H end. split; [done|]. intros. apply mem_get_insert.
  - split; [done|]. intros t k' _. unfold mem_get. case_decide as E; [subst; by rewrite lookup_delete_eq|].
    by rewrite lookup_delete_ne.
  - match goal with H : mem_get _ _ _ = _ |- _ => rewrite H end. split; [done|]. intros. apply mem_get_insert.
Qed.

(** ** The lock *)

Record DistributedLock := MkLock {
  key : string;
  token : string;
  ttl : Z;
  acquired : bool;
  watchdogEnabled : bool;
  watchdog : bool           (** [watchdogStop != nil]: the goroutine runs *)
}.

Definition NewDistributedLock (uuid key : string) (ttl : Z) : DistributedLock :=
  MkLock ("lock:" +:+ key) uuid (if ttl <=? 0 then 30 * GoTime.Second else ttl) false false false.

Definition set_acquired (b : bool) (l : DistributedLock) : DistributedLock :=
  MkLock (key l) (token l) (ttl l) b (watchdogEnabled l) (watchdog l).

Definition EnableWatchdog (l : DistributedLock) : DistributedLock :=
  MkLock (key l) (token l) (ttl l) (acquired l) true (watchdog l).

Definition maybeStartWatchdog (l : DistributedLock) : DistributedLock :=
  MkLock (key l) (token l) (ttl l) (acquired l) (watchdogEnabled l) (watchdogEnabled l || watchdog l).

Definition stopWatchdog (l : DistributedLock) : DistributedLock :=
  MkLock (key l) (token l) (ttl l) (acquired l) (watchdogEnabled l) false.

(** The watchdog renews every third of the time to live. *)
Definition watchdog_interval (l : DistributedLock) : Z :=
  let interval := Z.quot (ttl l) 3 in if interval <=? 0 then GoTime.Second else interval.

(** What becomes of a command on its way: executed and answered, executed with
    the answer lost, or not executed. *)
Inductive fate := Answered | AnswerLost | NotSent.

Definition ErrLockNotHeld : GoError.error := GoError.Sentinel "redislock: lock not held".
Definition errConn : GoError.error := GoError.Errorf "connection" [].

Section Lock.
Context {DB : Type} `{!RedisServer DB}.

(** The databases, by the connection they are reached through. *)
Definition world : Type := conn → DB.

Definition set_db (h : conn) (db : DB) (w : world) : world := λ h', if decide (h' = h) then db else w h'.

(** Runs a command on the server of a connection. *)
Definition exec {R} (f : fate) (h : conn) (cmd : DB → DB * R) (w : world) : world * result R :=
  match f with
  | NotSent => (w, Err errConn)
  | AnswerLost => (set_db h (cmd (w h)).1 w, Err errConn)
  | Answered => (set_db h (cmd (w h)).1 w, Ok (cmd (w h)).2)
  end.

(** go-redis sends a duration in whole milliseconds, at least one. *)
Definition formatMs (d : Z) : Z :=
  if (0 <? d) && (d <? GoTime.Millisecond) then 1 else Z.quot d GoTime.Millisecond.

(** [time.Duration.Milliseconds]. *)
Definition Milliseconds (d : Z) : Z := Z.quot d GoTime.Millisecond.

Definition SetNX (now : Z) (k v : string) (d : Z) (db : DB) : DB * bool := rd_setnx now k v (formatMs d) db.

(** The scripts. *)
Definition luaRelease (now : Z) (k tok : string) (db : DB) : DB * Z :=
  if decide (rd_get now k db = Some tok) then rd_del now k db else (db, 0).

Definition luaRenew (now : Z) (k tok : string) (ms : Z) (db : DB) : DB * Z :=
  if decide (rd_get now k db = Some tok) then rd_pexpire now k ms db else (db, 0).

Definition TryAcquire (now : Z) (f : fate) (h : conn) (l : DistributedLock) (w : world) :
    DistributedLock * world * result bool :=
  let '(w, r) := exec f h (SetNX now (key l) (token l) (ttl l)) w in
  match r with
  | Err e => (l, w, Err (GoError.ErrorfW "redislock: acquire: %w" [] e))
  | Ok true => (maybeStartWatchdog (set_acquired true l), w, Ok true)
  | Ok false => (l, w, Ok false)
  end.

(** The attempts until the context is done. *)
Fixpoint Acquire (attempts : list (Z * fate)) (h : conn) (l : DistributedLock) (w : world) :
    DistributedLock * world * option GoError.error :=
  match attempts with
  | [] => (l, w, Some (GoError.Sentinel "context.Canceled"))
  | (now, f) :: attempts =>
      match TryAcquire now f h l w with
      | (l, w, Err e) => (l, w, Some e)
      | (l, w, Ok true) => (l, w, None)
      | (l, w, Ok false) => Acquire attempts h l w
      end
  end.

Definition Release (now : Z) (f : fate) (h : conn) (l : DistributedLock) (w : world) :
    DistributedLock * world * option GoError.error :=
  let l := stopWatchdog l in
  let '(w, r) := exec f h (luaRelease now (key l) (token l)) w in
  match r with
  | Err e => (l, w, Some (GoError.ErrorfW "redislock: release: %w" [] e))
  | Ok n => (set_acquired false l, w, if n =? 1 then None else Some ErrLockNotHeld)
  end.

Definition Renew (now : Z) (f : fate) (h : conn) (l : DistributedLock) (w : world) : world * result bool :=
  let '(w, r) := exec f h (luaRenew now (key l) (token l) (Milliseconds (ttl l))) w in
  match r with
  | Err e => (w, Err (GoError.ErrorfW "redislock: renew: %w" [] e))
  | Ok n => (w, if n =? 1 then Ok true else Err ErrLockNotHeld)
  end.

(** [Client.Lock] and [Client.Unlock], which use no token. *)
Definition Client_Lock (now : Z) (k : string) (d : Z) (db : DB) : DB * bool := rd_setnx now k "1" (formatMs d) db.
Definition Client_Unlock (now : Z) (k : string) (db : DB) : DB := (rd_del now k db).1.

(** ** Runs

    Locks of any processes, by index; every operation has the server's time, the
    fate of its command and the enumeration of the prefix routes that chose its
    connection.  The watchdog is a source of [ORenew]. *)
Inductive op := OAcquire | ORelease | ORenew.

Record event := MkEvent { who : nat; what : op; at_ : Z; fate_of : fate; route : list string }.

(** The answer of an operation: [Some true] granted or confirmed, [Some false]
    refused, [None] an error of the connection. *)
Definition answer : Type := option bool.

Definition step (c : Client) (e : event) (locks : list DistributedLock) (w : world) :
    list DistributedLock * world * answer :=
  match locks !! who e with
  | None => (locks, w, None)
  | Some l =>
      match getClientForKey (route e) (key l) c with
      | None => (locks, w, None)
      | Some h =>
          match what e with
          | OAcquire =>
              let '(l, w, r) := TryAcquire (at_ e) (fate_of e) h l w in
              (<[who e := l]> locks, w, match r with Ok b => Some b | Err _ => None end)
          | ORelease =>
              let '(l, w, r) := Release (at_ e) (fate_of e) h l w in
              (<[who e := l]> locks, w,
               match r with None => Some true | Some er => if GoError.Is er "redislock: lock not held" then Some false else None end)
          | ORenew =>
              let '(w, r) := Renew (at_ e) (fate_of e) h l w in
              (locks, w,
               match r with Ok b => Some b | Err er => if GoError.Is er "redislock: lock not held" then Some false else None end)
          end
      end
  end.

Fixpoint run (c : Client) (es : list event) (locks : list DistributedLock) (w : world) : list answer :=
  match es with
  | [] => []
  | e :: es => let '(locks, w, a) := step c e locks w in a :: run c es locks w
  end.

(** ** The specification: a lease *)

Definition lease : Type := option (nat * Z).

Definition live (now : Z) (s : lease) : lease :=
  match s with
  | Some (o, d) => if now <? d then Some (o, d) else None
  | None => None
  end.

(** The effect of an operation that reaches the server, and its answer. *)
Definition lease_op (ttl_ns : nat → Z) (e : event) (s : lease) : lease * bool :=
  match what e, live (at_ e) s with
  | OAcquire, None => (Some (who e, at_ e + ttl_ns (who e)), true)
  | OAcquire, Some _ => (s, false)
  | ORelease, Some (o, _) => if decide (o = who e) then (None, true) else (s, false)
  | ORenew, Some (o, _) => if decide (o = who e) then (Some (o, at_ e + ttl_ns (who e)), true) else (s, false)
  | _, None => (s, false)
  end.

#[local] Arguments lease_op : simpl never.

Definition lease_step (ttl_ns : nat → Z) (e : event) (s : lease) : lease * answer :=
  match fate_of e with
  | NotSent => (s, None)
  | AnswerLost => ((lease_op ttl_ns e s).1, None)
  | Answered => ((lease_op ttl_ns e s).1, Some (lease_op ttl_ns e s).2)
  end.

Fixpoint lease_run (ttl_ns : nat → Z) (es : list event) (s : lease) : list answer :=
  match es with
  | [] => []
  | e :: es => (lease_step ttl_ns e s).2 :: lease_run ttl_ns es (lease_step ttl_ns e s).1
  end.

(** ** Refinement *)

Section Refinement.
Context `{!RedisLaws DB}.
(** Locks on one key with their own tokens, by index: token and time to live. *)
Context (c : Client) (k : string) (h : conn) (ids : list (string * Z)).
Hypothesis ids_distinct : NoDup ids.*1.
Hypothesis ids_ttl : ∀ i tok d, ids !! i = Some (tok, d) → GoTime.Millisecond <= d.
(** Whatever the enumeration, the key has one connection. *)
Hypothesis one_route : ∀ o, range_of (KeyPrefixRoutes (Multi (config c))) o → getClientForKey o k c = Some h.

Definition statics (l : DistributedLock) : string * string * Z := (key l, token l, ttl l).

Definition on_key (locks : list DistributedLock) : Prop := statics <$> locks = (λ id, (k, id.1, id.2)) <$> ids.

(** The time to live as the server keeps it. *)
Definition ttl_ns (i : nat) : Z :=
  match ids !! i with Some (_, d) => Milliseconds d * GoTime.Millisecond | None => 0 end.

(** From time [t] on the key of the database shows the lease. *)
Definition shows (t : Z) (s : lease) (db : DB) : Prop :=
  (match s with Some (o, _) => is_Some (ids !! o) | None => True end) ∧
  ∀ u, t <= u → rd_get u k db = match live u s with Some (o, _) => fst <$> (ids !! o) | None => None end.

Lemma formatMs_id d : GoTime.Millisecond <= d → formatMs d = Milliseconds d ∧ 0 < Milliseconds d.
Proof.
  intros Hd. unfold formatMs, Milliseconds, GoTime.Millisecond in *.
  rewrite (proj2 (Z.ltb_ge _ _) Hd), andb_false_r. split; [done|]. apply Z.quot_str_pos. lia.
Qed.

Lemma live_keep t u s : t <= u → live u s = None ∨ (∃ o d, s = Some (o, d) ∧ live u s = s ∧ live t s = s).
Proof.
  intros Htu. destruct s as [[o d]|]; cbn; [|by left]. destruct (Z.ltb_spec u d) as [H|H]; [|by left].
  right. exists o, d. by rewrite (proj2 (Z.ltb_lt t d)) by lia.
Qed.

Lemma shows_later t u s db : t <= u → shows t s db → shows u s db.
Proof. intros Htu [Ho Hs]. split; [done|]. intros v Hv. apply Hs. lia. Qed.

(** Extending the lease to a new deadline. *)
Lemma shows_set now i tok d ms db :
  ids !! i = Some (tok, d) →
  (∀ t k', now <= t → rd_get t k' db =
     if decide (k' = k) then (if t <? now + ms * GoTime.Millisecond then Some tok else None) else rd_get t k' db) →
  shows now (Some (i, now + ms * GoTime.Millisecond)) db.
Proof.
  intros Hi Hg. split; [by rewrite Hi|]. intros u Hu. rewrite Hg, decide_True by done. cbn.
  destruct (_ <? _); [by rewrite Hi|done].
Qed.

Lemma owner_of s now i tok d o dl :
  ids !! i = Some (tok, d) → live now s = Some (o, dl) → is_Some (ids !! o) →
  (fst <$> ids !! o) = Some tok ↔ o = i.
Proof.
  intros Hi _ [[tok' d'] Ho]. rewrite Ho. cbn. split.
  - intros [= ->]. eapply (NoDup_lookup ids.*1); [done|..]; rewrite list_lookup_fmap, ?Ho, ?Hi; done.
  - intros ->. congruence.
Qed.

Lemma shows_acquire t now i tok d f r s db :
  shows t s db → t <= now → ids !! i = Some (tok, d) →
  let e := MkEvent i OAcquire now f r in
  (SetNX now k tok d db).2 = (lease_op ttl_ns e s).2 ∧ shows now (lease_op ttl_ns e s).1 (SetNX now k tok d db).1.
Proof.
  intros Hs Ht Hi e. pose proof (shows_later _ _ _ _ Ht Hs) as Hn. destruct Hs as [Ho Hs].
  destruct (formatMs_id d (ids_ttl _ _ _ Hi)) as [Hms Hpos]. unfold SetNX. rewrite Hms.
  pose proof (Hs now Ht) as Hget. unfold lease_op, e; cbn.
  destruct (live now s) as [[o dl]|] eqn:Hl.
  - assert (is_Some (fst <$> ids !! o)) as [w Hw].
    { destruct s as [[o' d']|]; [|done]. cbn in Hl. destruct (now <? d'); [|done]. simplify_eq.
      destruct Ho as [[] ->]. by eexists. }
    rewrite Hw in Hget. by rewrite (setnx_taken now k tok _ db w Hget).
  - destruct (setnx_free now k tok (Milliseconds d) db Hget Hpos) as [-> Hg]. split; [done|]. cbn.
    unfold ttl_ns. rewrite Hi. eapply shows_set; [done|]. intros u k' Hu. rewrite !Hg by done. by case_decide.
Qed.

Lemma shows_release t now i tok d f r s db :
  shows t s db → t <= now → ids !! i = Some (tok, d) →
  let e := MkEvent i ORelease now f r in
  ((luaRelease now k tok db).2 =? 1) = (lease_op ttl_ns e s).2 ∧
  shows now (lease_op ttl_ns e s).1 (luaRelease now k tok db).1.
Proof.
  intros Hs Ht Hi e. pose proof (shows_later _ _ _ _ Ht Hs) as Hn. destruct Hs as [Ho Hs].
  pose proof (Hs now Ht) as Hget. unfold luaRelease, lease_op, e; cbn.
  destruct (live now s) as [[o dl]|] eqn:Hl; [|by rewrite Hget].
  assert (Hown : (fst <$> ids !! o) = Some tok ↔ o = i).
  { eapply owner_of; [done..|]. destruct s as [[o' d']|]; [|done]. cbn in Hl. by destruct (now <? d'); simplify_eq. }
  rewrite Hget. destruct (decide (o = i)) as [->|Hne].
  - rewrite decide_True by tauto. destruct (del_spec now k db) as [Hd Hg]. rewrite Hget, (proj2 Hown eq_refl) in Hd.
    rewrite Hd. split; [done|]. split; [done|]. intros u Hu. rewrite Hg, decide_True by done. done.
  - rewrite decide_False by tauto. done.
Qed.

Lemma shows_renew t now i tok d f r s db :
  shows t s db → t <= now → ids !! i = Some (tok, d) →
  let e := MkEvent i ORenew now f r in
  ((luaRenew now k tok (Milliseconds d) db).2 =? 1) = (lease_op ttl_ns e s).2 ∧
  shows now (lease_op ttl_ns e s).1 (luaRenew now k tok (Milliseconds d) db).1.
Proof.
  intros Hs Ht Hi e. pose proof (shows_later _ _ _ _ Ht Hs) as Hn. destruct Hs as [Ho Hs].
  pose proof (Hs now Ht) as Hget. unfold luaRenew, lease_op, e; cbn.
  destruct (live now s) as [[o dl]|] eqn:Hl; [|by rewrite Hget].
  assert (Hown : (fst <$> ids !! o) = Some tok ↔ o = i).
  { eapply owner_of; [done..|]. destruct s as [[o' d']|]; [|done]. cbn in Hl. by destruct (now <? d'); simplify_eq. }
  rewrite Hget. destruct (decide (o = i)) as [->|Hne].
  - rewrite decide_True by tauto. rewrite (proj2 Hown eq_refl) in Hget.
    destruct (pexpire_spec now k (Milliseconds d) db tok Hget) as [-> Hg]. split; [done|]. cbn.
    unfold ttl_ns. rewrite Hi. eapply shows_set; [done|]. intros u k' Hu. rewrite !Hg by done. by case_decide.
  - rewrite decide_False by tauto. done.
Qed.

Lemma on_key_lookup locks i l :
  on_key locks → locks !! i = Some l → key l = k ∧ ids !! i = Some (token l, ttl l).
Proof.
  intros Hk Hl. assert (H : (statics <$> locks) !! i = Some (statics l)) by (by rewrite list_lookup_fmap, Hl).
  rewrite Hk, list_lookup_fmap in H. destruct (ids !! i) as [[tok d]|]; [|done]. by injection H as <- <- <-.
Qed.

Lemma on_key_insert locks i l l' :
  on_key locks → locks !! i = Some l → statics l' = statics l → on_key (<[i := l']> locks).
Proof.
  intros Hk Hl Hs. unfold on_key. rewrite list_fmap_insert, Hs, <-Hk. apply list_insert_id.
  by rewrite list_lookup_fmap, Hl.
Qed.

Lemma set_db_same h' db w : set_db h' db w h' = db.
Proof. unfold set_db. by rewrite decide_True. Qed.

Definition scheduled (e : event) : Prop :=
  (who e < length ids)%nat ∧ range_of (KeyPrefixRoutes (Multi (config c))) (route e).

(** A command on the database of the key, with its fate. *)
Lemma exec_shows {R} t now f (cmd : DB → DB * R) (P : R → bool) s s' b w :
  shows t s (w h) → t <= now → (P (cmd (w h)).2 = b ∧ shows now s' (cmd (w h)).1) →
  match f with
  | NotSent => exec f h cmd w = (w, Err errConn) ∧ shows now s (w h)
  | AnswerLost => (exec f h cmd w).2 = Err errConn ∧ shows now s' ((exec f h cmd w).1 h)
  | Answered => ∃ r, (exec f h cmd w).2 = Ok r ∧ P r = b ∧ shows now s' ((exec f h cmd w).1 h)
  end.
Proof.
  intros Hs Ht [Hb Hs']. destruct f; cbn.
  - eexists. split; [done|]. by rewrite set_db_same.
  - by rewrite set_db_same.
  - split; [done|]. by eapply shows_later.
Qed.

Lemma step_refines t e locks w s :
  on_key locks → shows t s (w h) → t <= at_ e → scheduled e →
  ∃ locks' w', step c e locks w = (locks', w', (lease_step ttl_ns e s).2) ∧ on_key locks' ∧
    shows (at_ e) (lease_step ttl_ns e s).1 (w' h).
Proof.
  intros Hk Hs Ht [Hwho Hroute]. destruct e as [i o now f r]. cbn in *.
  assert (is_Some (locks !! i)) as [l Hl].
  { apply lookup_lt_is_Some. apply (f_equal length) in Hk. rewrite !length_fmap in Hk. lia. }
  destruct (on_key_lookup _ _ _ Hk Hl) as [Hkey Hid].
  unfold step, lease_step. cbn. rewrite Hl, Hkey, (one_route _ Hroute).
  destruct o.
  - pose proof (exec_shows t now f (SetNX now k (token l) (ttl l)) id s _ _ w Hs Ht
      (shows_acquire t now i _ _ f r s (w h) Hs Ht Hid)) as He.
    unfold TryAcquire. rewrite Hkey. destruct (exec _ _ _ w) as [w' a].
    destruct f; cbn in He; [destruct He as (b & -> & Hb & Hs')|destruct He as [-> Hs']|destruct He as [[= -> ->] Hs']].
    + unfold id in Hb. subst b. destruct (lease_op _ _ s).2 eqn:E; eexists _, _; (split; [reflexivity|]; split; [|done]);
        eapply on_key_insert; done.
    + eexists _, _. split; [reflexivity|]. split; [by eapply on_key_insert|done].
    + eexists _, _. split; [reflexivity|]. split; [by eapply on_key_insert|done].
  - pose proof (exec_shows t now f (luaRelease now k (token l)) (λ n, n =? 1) s _ _ w Hs Ht
      (shows_release t now i _ _ f r s (w h) Hs Ht Hid)) as He.
    unfold Release. cbn. rewrite Hkey. destruct (exec _ _ _ w) as [w' a].
    destruct f; cbn in He; [destruct He as (b & -> & Hb & Hs')|destruct He as [-> Hs']|destruct He as [[= -> ->] Hs']].
    + rewrite Hb. destruct (lease_op _ _ s).2 eqn:E; eexists _, _; (split; [reflexivity|]; split; [|done]);
        eapply on_key_insert; done.
    + eexists _, _. split; [reflexivity|]. split; [by eapply on_key_insert|done].
    + eexists _, _. split; [reflexivity|]. split; [by eapply on_key_insert|done].
  - pose proof (exec_shows t now f (luaRenew now k (token l) (Milliseconds (ttl l))) (λ n, n =? 1) s _ _ w Hs Ht
      (shows_renew t now i _ _ f r s (w h) Hs Ht Hid)) as He.
    unfold Renew. rewrite Hkey. destruct (exec _ _ _ w) as [w' a].
    destruct f; cbn in He; [destruct He as (b & -> & Hb & Hs')|destruct He as [-> Hs']|destruct He as [[= -> ->] Hs']].
    + rewrite Hb. by destruct (lease_op _ _ s).2; eexists _, _.
    + by eexists _, _.
    + by eexists _, _.
Qed.

(** Times do not go back. *)
Fixpoint ordered (t : Z) (es : list event) : Prop :=
  match es with
  | [] => True
  | e :: es => t <= at_ e ∧ ordered (at_ e) es
  end.

Lemma run_refines_from t es locks w s :
  on_key locks → shows t s (w h) → ordered t es → Forall scheduled es →
  run c es locks w = lease_run ttl_ns es s.
Proof.
  revert t locks w s. induction es as [|e es IH]; intros t locks w s Hk Hs Hord Hsch; [done|].
  destruct Hord as [Ht Hord]. apply Forall_cons in Hsch as [He Hsch].
  destruct (step_refines t e locks w s Hk Hs Ht He) as (locks' & w' & Hstep & Hk' & Hs').
  cbn. rewrite Hstep. f_equal. by eapply IH.
Qed.

End Refinement.

(** ** Exclusion, on the specification *)

Section Exclusion.
Context (ttl_ns : nat → Z).

(** Until [D] the lease is [i]'s. *)
Definition reserved (i : nat) (D t : Z) (s : lease) : Prop :=
  D <= t ∨ ∃ d, s = Some (i, d) ∧ D <= d <= t + ttl_ns i.

(** A release of [i] that may reach the server. *)
Definition releases (i : nat) (e : event) : Prop := who e = i ∧ what e = ORelease ∧ fate_of e ≠ NotSent.

Lemma reserved_keep i D t e s :
  reserved i D t s → t <= at_ e → ¬ releases i e → reserved i D (at_ e) (lease_step ttl_ns e s).1.
Proof.
  unfold reserved, releases. intros [H|(d & -> & H)] Ht Hr; [left; lia|].
  destruct (Z.le_gt_cases D (at_ e)) as [?|HD]; [by left|]. right.
  assert (Hop : fate_of e ≠ NotSent →
            ∃ d', (lease_op ttl_ns e (Some (i, d))).1 = Some (i, d') ∧ D <= d' <= at_ e + ttl_ns i).
  { intros Hf. unfold lease_op, live. rewrite (proj2 (Z.ltb_lt _ _)) by lia.
    destruct (what e) eqn:Hw; [exists d; split; [done|lia]|..].
    - rewrite decide_False by naive_solver. exists d. split; [done|lia].
    - case_decide as E; [|exists d; split; [done|lia]]. subst i. eexists. split; [done|]. lia. }
  unfold lease_step. destruct (fate_of e); cbn; [by apply Hop|by apply Hop|]. exists d. split; [done|lia].
Qed.

Lemma lease_run_lookup es s n :
  lease_run ttl_ns es s !! n =
  (λ e, (lease_step ttl_ns e (foldl (λ s e, (lease_step ttl_ns e s).1) s (take n es))).2) <$> es !! n.
Proof.
  revert s n. induction es as [|e es IH]; intros s [|n]; cbn; [done..|]. apply IH.
Qed.

Lemma reserved_fold i D t es s :
  reserved i D t s → ordered t es → (∀ e, e ∈ es → ¬ releases i e) →
  reserved i D (default t (at_ <$> last es)) (foldl (λ s e, (lease_step ttl_ns e s).1) s es).
Proof.
  revert t s. induction es as [|e es IH]; intros t s Hr Ho Hrel; [done|]. destruct Ho as [Ht Ho].
  cbn [foldl]. rewrite last_cons. specialize (IH (at_ e) (lease_step ttl_ns e s).1).
  assert (H : reserved i D (at_ e) (lease_step ttl_ns e s).1).
  { apply reserved_keep with t; [done..|]. apply Hrel. by left. }
  specialize (IH H Ho ltac:(intros; apply Hrel; by right)). by destruct (last es).
Qed.

Lemma granted_reserves e s :
  0 <= ttl_ns (who e) → what e ≠ ORelease → (lease_step ttl_ns e s).2 = Some true →
  reserved (who e) (at_ e + ttl_ns (who e)) (at_ e) (lease_step ttl_ns e s).1.
Proof.
  intros Hpos Hw Hg. right. exists (at_ e + ttl_ns (who e)). split; [|lia]. revert Hg. unfold lease_step, lease_op.
  destruct (fate_of e); cbn; [|done..]. destruct (what e), (live (at_ e) s) as [[o d]|]; cbn; try done.
  case_decide as E; cbn; [|done]. by rewrite E.
Qed.

Lemma ordered_app t es1 es2 :
  ordered t (es1 ++ es2) ↔ ordered t es1 ∧ ordered (default t (at_ <$> last es1)) es2.
Proof.
  revert t. induction es1 as [|e es1 IH]; intros t; cbn [app ordered]; [cbn; tauto|].
  rewrite IH, last_cons. destruct (last es1); cbn; tauto.
Qed.

(** After a granted operation of [i], and before its time to live is over,
    nobody is granted the lock and [i]'s own operations are confirmed. *)
Lemma lease_exclusive es s t a b e1 e2 :
  (∀ i, 0 <= ttl_ns i) → ordered t es → es !! a = Some e1 → es !! b = Some e2 → (a < b)%nat →
  what e1 ≠ ORelease → lease_run ttl_ns es s !! a = Some (Some true) →
  (∀ n e, (a < n < b)%nat → es !! n = Some e → ¬ releases (who e1) e) →
  at_ e2 < at_ e1 + ttl_ns (who e1) →
  match what e2 with
  | OAcquire => lease_run ttl_ns es s !! b ≠ Some (Some true)
  | _ => who e2 = who e1 → fate_of e2 = Answered → lease_run ttl_ns es s !! b = Some (Some true)
  end.
Proof.
  intros Hpos Hord Ha Hb Hab Hw Hg Hrel Ht. rewrite lease_run_lookup, Ha in Hg. rewrite lease_run_lookup, Hb. cbn in *.
  set (s1 := foldl _ s (take a es)) in *. injection Hg as Hg.
  assert (Hes : es = take a es ++ e1 :: take (b - S a) (drop (S a) es) ++ e2 :: drop (S b) es).
  { rewrite <-(take_drop_middle es a e1 Ha) at 1. f_equal. f_equal.
    rewrite <-(take_drop (b - S a) (drop (S a) es)) at 1. f_equal. rewrite drop_drop.
    replace (S a + (b - S a))%nat with b by lia. by apply drop_S. }
  set (mid := take (b - S a) (drop (S a) es)) in *.
  assert (Htake : take b es = take a es ++ e1 :: mid).
  { rewrite Hes at 1. rewrite app_comm_cons, app_assoc. apply take_app_length'.
    rewrite length_app, length_take. cbn. unfold mid. rewrite length_take, length_drop.
    apply lookup_lt_Some in Ha, Hb. lia. }
  rewrite Htake, foldl_app. cbn [foldl]. fold s1.
  rewrite Hes in Hord. apply ordered_app in Hord as [_ Hord]. destruct Hord as [_ Hord].
  apply ordered_app in Hord as [Hmid [He2 _]].
  assert (Hres : reserved (who e1) (at_ e1 + ttl_ns (who e1)) (default (at_ e1) (at_ <$> last mid))
    (foldl (λ s e, (lease_step ttl_ns e s).1) (lease_step ttl_ns e1 s1).1 mid)).
  { apply reserved_fold; [by apply granted_reserves|done|]. intros e [n Hn]%list_elem_of_lookup.
    assert (Hlt : (n < b - S a)%nat).
    { apply lookup_lt_Some in Hn. unfold mid in Hn. rewrite length_take in Hn. lia. }
    unfold mid in Hn. rewrite lookup_take_lt, lookup_drop in Hn by done.
    apply (Hrel (S a + n)%nat); [lia|done]. }
  destruct Hres as [?|(d & -> & Hd)]; [lia|].
  unfold lease_step, lease_op. cbn. rewrite (proj2 (Z.ltb_lt _ _)) by lia.
  destruct (what e2); [by destruct (fate_of e2)|..]; intros -> ->; cbn; by rewrite decide_True.
Qed.

End Exclusion.

(** ** The lock *)

(** The locks of several processes on one name. *)
Definition new_locks (name : string) (ids : list (string * Z)) : list DistributedLock :=
  (λ id, NewDistributedLock id.1 name id.2) <$> ids.

Section Theorems.
Context `{!RedisLaws DB}.

Lemma new_locks_on_key name ids :
  (∀ i tok d, ids !! i = Some (tok, d) → GoTime.Millisecond <= d) → on_key ("lock:" +:+ name) ids (new_locks name ids).
Proof.
  intros Hd. unfold on_key, new_locks. rewrite <-list_fmap_compose. apply list_fmap_ext. intros i [tok d] Hi.
  cbn. unfold statics. cbn. rewrite (proj2 (Z.leb_gt _ _)); [done|]. apply Hd in Hi. unfold GoTime.Millisecond in Hi. lia.
Qed.

Lemma one_route_of ping cfg c k :
  New ping cfg = Ok c → unambiguous c k →
  ∃ h, ∀ o, range_of (KeyPrefixRoutes (Multi (config c))) o → getClientForKey o k c = Some h.
Proof.
  intros Hnew Hu. set (o0 := (map_to_list (KeyPrefixRoutes (Multi (config c)))).*1).
  destruct (proj1 (New_serves_every_key ping cfg c o0 k true Hnew)) as [h Hh]. exists h. intros o Ho.
  rewrite <-Hh. apply route_deterministic; [done..|]. unfold range_of. reflexivity.
Qed.

(** Locks of any processes on one name, over any client whose prefix routes are
    not ambiguous for its key, answer as one lease with an owner and a deadline. *)
Theorem lock_refines_lease ping cfg c name ids w t es :
  New ping cfg = Ok c → unambiguous c ("lock:" +:+ name) →
  NoDup ids.*1 → (∀ i tok d, ids !! i = Some (tok, d) → GoTime.Millisecond <= d) →
  (∀ h u, t <= u → rd_get u ("lock:" +:+ name) (w h) = None) →
  ordered t es → Forall (scheduled c ids) es →
  run c es (new_locks name ids) w = lease_run (ttl_ns ids) es None.
Proof.
  intros Hnew Hu Hnd Hd Hfree Hord Hsch. destruct (one_route_of _ _ _ _ Hnew Hu) as [h Hh].
  eapply run_refines_from with (t := t) (h := h); try done; [by apply new_locks_on_key|].
  split; [done|]. intros u Hle. by rewrite Hfree.
Qed.

(** C22: While a lock is held and not released, until its time to live after the
    acquisition or the last confirmed renewal is over, no process is granted the
    lock, and the holder's renewals and release are confirmed: whatever the
    other processes do and whatever commands or answers are lost. *)
Theorem lock_mutual_exclusion ping cfg c name ids w t es a b e1 e2 :
  New ping cfg = Ok c → unambiguous c ("lock:" +:+ name) →
  NoDup ids.*1 → (∀ i tok d, ids !! i = Some (tok, d) → GoTime.Millisecond <= d) →
  (∀ h u, t <= u → rd_get u ("lock:" +:+ name) (w h) = None) →
  ordered t es → Forall (scheduled c ids) es →
  es !! a = Some e1 → es !! b = Some e2 → (a < b)%nat → what e1 ≠ ORelease →
  run c es (new_locks name ids) w !! a = Some (Some true) →
  (∀ n e, (a < n < b)%nat → es !! n = Some e → ¬ releases (who e1) e) →
  at_ e2 < at_ e1 + ttl_ns ids (who e1) →
  match what e2 with
  | OAcquire => run c es (new_locks name ids) w !! b ≠ Some (Some true)
  | _ => who e2 = who e1 → fate_of e2 = Answered → run c es (new_locks name ids) w !! b = Some (Some true)
  end.
Proof.
  intros Hnew Hu Hnd Hd Hfree Hord Hsch. rewrite (lock_refines_lease ping cfg c name ids w t es) by done.
  apply lease_exclusive with t; [|done]. intros i. unfold ttl_ns, Milliseconds.
  destruct (ids !! i) as [[tok d]|] eqn:Hi; [|done]. apply Hd in Hi.
  pose proof (Z.quot_pos d GoTime.Millisecond). unfold GoTime.Millisecond in *. lia.
Qed.

End Theorems.
End Lock.

(** ** Concrete runs *)

Definition ex_client : Client := MkClient DefaultConfig (Some (Single "localhost:6379" "" 0)) None [].
Definition ex_ids : list (string * Z) := [("token-a", 10 * GoTime.Second); ("token-b", 10 * GoTime.Second)].
Definition ex_world : @world memdb := λ _, ∅.
Definition ex_event (i : nat) (o : op) (seconds : Z) : event := MkEvent i o (seconds * GoTime.Second) Answered [].

(** The first process holds the lock, renews it after eight seconds and keeps
    it beyond the first ten. *)
Definition ex_run : list event :=
  [ex_event 0 OAcquire 0; ex_event 1 OAcquire 5; ex_event 0 ORenew 8; ex_event 1 OAcquire 12].

Example ex_run_answers :
  run ex_client ex_run (new_locks "job" ex_ids) ex_world = [Some true; Some false; Some true; Some false].
Proof. vm_compute. done. Qed.

Lemma lock_mutual_exclusion_witness :
  run ex_client ex_run (new_locks "job" ex_ids) ex_world !! 3%nat ≠ Some (Some true).
Proof.
  apply (lock_mutual_exclusion (λ _, None) DefaultConfig ex_client "job" ex_ids ex_world 0 ex_run 2 3
           (ex_event 0 ORenew 8) (ex_event 1 OAcquire 12)); try done.
  - intros p q [x Hp]. cbn in Hp. by rewrite lookup_empty in Hp.
  - apply (bool_decide_unpack _). vm_compute. done.
  - intros [|[|i]] tok d Hi; cbn in Hi; simplify_eq; vm_compute; done.
  - repeat constructor; cbn; try lia; unfold range_of; cbn; by rewrite map_to_list_empty.
  - lia.
  - intros n e Hn. lia.
Defined.

(** Two processes hold the lock when prefix routes overlap: the enumeration of
    the map sends their commands to different servers. *)
Definition ex_overlap : Client :=
  MkClient
    (MkConfig ModeMulti (Nodes MultiConfig) "localhost" 6379 "" 0 "" (default_tuning 10 2 5) true no_sentinel
       no_cluster (MkMulti "prefix" (<["lock:" := 1]> {["lock:job:" := 2]}) 0))
    None None (Some <$> open_nodes MultiConfig).

Theorem overlapping_routes_two_holders :
  run ex_overlap
    [MkEvent 0 OAcquire 0 Answered ["lock:"; "lock:job:"]; MkEvent 1 OAcquire 1 Answered ["lock:job:"; "lock:"]]
    (new_locks "job:1" ex_ids) ex_world = [Some true; Some true].
Proof. vm_compute. done. Qed.

(** With a time to live below a millisecond a confirmed renewal deletes the key:
    [Milliseconds] is zero, and the next process is granted the lock. *)
Theorem short_renewal_releases :
  run ex_client
    [MkEvent 0 OAcquire 0 Answered []; MkEvent 0 ORenew 1 Answered []; MkEvent 1 OAcquire 1 Answered []]
    (new_locks "job" [("token-a", 500000); ("token-b", 500000)]) ex_world = [Some true; Some true; Some true].
Proof. vm_compute. done. Qed.

(** The watchdog drops the answer of [Renew]: a process whose lease ran out, and
    whose lock another process holds, still has [acquired] set. *)
Definition ex_final (es : list event) : list DistributedLock :=
  (foldl (λ st e, (step ex_client e st.1 st.2).1) (new_locks "job" ex_ids, ex_world) es).1.

Theorem lost_lock_unnoticed :
  acquired <$> ex_final [ex_event 0 OAcquire 0; ex_event 1 OAcquire 11; ex_event 0 ORenew 12] = [true; true].
Proof. vm_compute. done. Qed.

(** A lost answer leaves the lock taken by a process that was told of an error. *)
Theorem lost_answer_blocks :
  run ex_client [MkEvent 0 OAcquire 0 AnswerLost []; ex_event 1 OAcquire 5; ex_event 1 OAcquire 10]
    (new_locks "job" ex_ids) ex_world = [None; Some false; Some true].
Proof. vm_compute. done. Qed.

(** [Client.Unlock] deletes the key of whoever holds it: the first holder's late
    unlock lets a third process in beside the second. *)
Theorem unlock_removes_another :
  let db0 : memdb := ∅ in
  let '(db1, a) := Client_Lock 0 "job" GoTime.Second db0 in
  let '(db2, b) := Client_Lock (2 * GoTime.Second) "job" GoTime.Second db1 in
  let db3 := Client_Unlock (2 * GoTime.Second) "job" db2 in
  let '(_, c) := Client_Lock (2 * GoTime.Second) "job" GoTime.Second db3 in
  a = true ∧ b = true ∧ c = true.
Proof. vm_compute. done. Qed.
