(* ===== verification/Health.v ===== *)
(** * plugins/health: health checks

    config.go: the configurations and their defaults.  health.go: the checkers
    for databases, caches and HTTP endpoints, the manager with its background
    loop and its report, the HTTP handler.  What a database, a cache or an
    endpoint answers is an argument; a context is its deadline.  The check of a
    custom function may return a nil result, so a result is an [option]. *)

From stdpp Require Import pretty.
From S2P Require Import Prelude.

Open Scope Z_scope.

(** ** config.go *)

Record HealthConfig := MkHealthConfig {
  hc_Enabled : bool;
  Host : string;
  Port : Z;
  Path : string;
  hc_Timeout : Z;
  CheckInterval : Z;
  Detailed : bool;
  Version : string;
  Build_ : string;
  Description : string
}.

(** The values of [Options]. *)
Inductive opt_value : Type :=
| OptInt (z : Z)
| OptString (s : string)
| OptBool (b : bool)
| OptFunc (f : option (unit → option GoError.error)).

Record HealthCheckConfig := MkCheckConfig {
  cc_Name : string;
  Type_ : string;
  Target : string;
  Timeout : Z;
  Interval : Z;
  FailureThreshold : Z;
  SuccessThreshold : Z;
  Enabled : bool;
  Critical : bool;
  Options : option (gmap string opt_value)   (** [None]: the nil map *)
}.

Definition DefaultHealthConfig : HealthConfig :=
  MkHealthConfig true "0.0.0.0" 8081 "/health" (5 * GoTime.Second) (30 * GoTime.Second) true "1.0.0" ""
    "AllDev Gin RPC Service".

Definition preset (name type target : string) (timeout : Z) (critical : bool) (options : gmap string opt_value) :
    HealthCheckConfig :=
  MkCheckConfig name type target timeout (30 * GoTime.Second) 3 2 true critical (Some options).

Definition DefaultHealthCheckConfig : HealthCheckConfig :=
  preset "default" "http" "http://localhost:8080/health" (5 * GoTime.Second) true ∅.

Definition HTTPCheckConfig (name url : string) : HealthCheckConfig :=
  preset name "http" url (5 * GoTime.Second) true
    (<["method" := OptString "GET"]> (<["expected_status" := OptInt 200]> {["follow_redirects" := OptBool true]})).

Definition TCPCheckConfig (name address : string) : HealthCheckConfig :=
  preset name "tcp" address (3 * GoTime.Second) true ∅.

Definition RedisCheckConfig (name address : string) : HealthCheckConfig :=
  preset name "redis" address (3 * GoTime.Second) false
    (<["database" := OptInt 0]> {["password" := OptString ""]}).

Definition MySQLCheckConfig (name dsn : string) : HealthCheckConfig :=
  preset name "mysql" dsn (5 * GoTime.Second) false
    (<["max_open_conns" := OptInt 1]> {["max_idle_conns" := OptInt 1]}).

Definition CustomCheckConfig (name : string) (checkFunc : option (unit → option GoError.error)) : HealthCheckConfig :=
  preset name "custom" "" (5 * GoTime.Second) false {["check_func" := OptFunc checkFunc]}.

Definition HealthConfig_Validate (c : HealthConfig) : HealthConfig :=
  MkHealthConfig (hc_Enabled c) (or_default_s (Host c) "0.0.0.0") (or_default (Port c) 8081) (or_default_s (Path c) "/health")
    (or_default (hc_Timeout c) (5 * GoTime.Second)) (or_default (CheckInterval c) (30 * GoTime.Second)) (Detailed c)
    (Version c) (Build_ c) (Description c).

Definition CheckConfig_Validate (c : HealthCheckConfig) : HealthCheckConfig :=
  MkCheckConfig (or_default_s (cc_Name c) "default") (or_default_s (Type_ c) "http") (Target c)
    (or_default (Timeout c) (5 * GoTime.Second)) (or_default (Interval c) (30 * GoTime.Second)) (or_default (FailureThreshold c) 3)
    (or_default (SuccessThreshold c) 2) (Enabled c) (Critical c) (Some (default ∅ (Options c))).

(** The zero configuration, which a missing map entry yields. *)
Definition zero_config : HealthCheckConfig := MkCheckConfig "" "" "" 0 0 0 0 false false None.

(** ** Results *)

(** [HealthStatus] is a string type: a custom check may use other values. *)
Inductive HealthStatus :=
| StatusHealthy | StatusUnhealthy | StatusDegraded | StatusUnknown | StatusOther (s : string).

#[export] Instance HealthStatus_eq_dec : EqDecision HealthStatus.
Proof. solve_decision. Defined.

Record CheckResult := MkResult {
  Name : string;
  Status : HealthStatus;
  Message : string;
  Details : list (string * Z);
  Duration : Z;
  Timestamp : Z;
  LastChecked : Z
}.

Record Summary := MkSummary {
  Total : Z;
  Healthy : Z;
  Unhealthy : Z;
  Degraded : Z;
  Unknown : Z
}.

Record HealthReport := MkReport {
  r_Status : HealthStatus;
  r_Timestamp : Z;
  Checks : gmap string (option CheckResult);
  r_Summary : Summary
}.

(** ** Checkers

    [start] and [stop] are the clock when the check begins and when its deferred
    function runs. *)

Definition finish (start stop : Z) (name : string) (details : list (string * Z)) (st : HealthStatus) (msg : string) :
    CheckResult := MkResult name st msg details (GoTime.Sub stop start) start stop.

(** [Pinger]: [None] is a nil database, otherwise the answer of the ping. *)
Definition DatabaseHealthChecker_Check (start stop : Z) (name : string) (db : option (option string)) : CheckResult :=
  match db with
  | None => finish start stop name [] StatusUnhealthy "Database connection is nil"
  | Some (Some e) => finish start stop name [] StatusUnhealthy ("Database ping failed: " +:+ e)
  | Some None => finish start stop name [] StatusHealthy "Database is healthy"
  end.

(** The cache answers to [Set], [Get] and [Delete] of the test key, and its
    statistics when it keeps any. *)
Record CacheAnswers := MkCacheAnswers {
  set_err : option string;
  get_answer : string + string;            (** an error or the value *)
  delete_err : option string;
  stats : option (list (string * Z))
}.

Definition cache_key (name : string) : string := "health_check_" +:+ name.
Definition test_value (unix : Z) : string := "health_check_" +:+ pretty unix.

(** The cache sees the value stored; [answers] is what it replies. *)
Definition CacheHealthChecker_Check (start stop unix : Z) (name : string) (cache : option (string → CacheAnswers)) :
    CheckResult :=
  match cache with
  | None => finish start stop name [] StatusUnhealthy "Cache is nil"
  | Some c =>
      let testValue := test_value unix in
      let a := c testValue in
      match set_err a with
      | Some e => finish start stop name [] StatusUnhealthy ("Cache set failed: " +:+ e)
      | None =>
          match get_answer a with
          | inl e => finish start stop name [] StatusUnhealthy ("Cache get failed: " +:+ e)
          | inr v =>
              if decide (v = testValue) then
                match delete_err a with
                | Some e => finish start stop name [] StatusDegraded ("Cache delete failed: " +:+ e)
                | None => finish start stop name (default [] (stats a)) StatusHealthy "Cache is healthy"
                end
              else finish start stop name [] StatusUnhealthy "Cache value mismatch"
          end
      end
  end.

(** [http.NewRequest] and the client: an error or the status code. *)
Inductive HttpAnswer := RequestFailed (e : string) | DoFailed (e : string) | Responded (code : Z).

(** The response time, a float64 of seconds, is left out of the details. *)
Definition HTTPHealthChecker_Check (start stop : Z) (name : string) (a : HttpAnswer) : CheckResult :=
  match a with
  | RequestFailed e => finish start stop name [] StatusUnhealthy ("Failed to create request: " +:+ e)
  | DoFailed e => finish start stop name [] StatusUnhealthy ("HTTP request failed: " +:+ e)
  | Responded code =>
      let d := [("status_code", code)] in
      if (200 <=? code) && (code <? 300) then finish start stop name d StatusHealthy "HTTP endpoint is healthy"
      else if 500 <=? code then
        finish start stop name d StatusUnhealthy ("HTTP endpoint returned error: " +:+ pretty code)
      else finish start stop name d StatusDegraded ("HTTP endpoint returned warning: " +:+ pretty code)
  end.

Definition CustomHealthChecker_Check (now : Z) (name : string) (checkFunc : option (option CheckResult)) :
    option CheckResult :=
  match checkFunc with
  | None => Some (MkResult name StatusUnhealthy "Check function is nil" [] 0 now 0)
  | Some r => r
  end.

(** ** The manager *)

(** A deadline; [None] has none. *)
Definition Ctx : Type := option Z.

Definition WithTimeout (now : Z) (ctx : Ctx) (timeout : Z) : Ctx :=
  Some (match ctx with Some d => Z.min d (now + timeout) | None => now + timeout end).

(** [HealthChecker]: its name and what [Check] returns under a context. *)
Record HealthChecker := MkChecker {
  c_Name : string;
  Check_ : Ctx → option CheckResult
}.

Record HealthManager := MkManager {
  checkers : gmap string HealthChecker;
  configs : gmap string HealthCheckConfig;
  results : gmap string (option CheckResult);
  running : bool;
  stopClosed : bool;          (** [stopCh] is closed *)
  ticking : bool;             (** [ticker] runs *)
  loops : nat                 (** goroutines in [runChecks] *)
}.

Definition NewHealthManager : HealthManager := MkManager ∅ ∅ ∅ false false false 0.

Definition RegisterChecker (checker : HealthChecker) (config : HealthCheckConfig) (hm : HealthManager) :
    HealthManager :=
  MkManager (<[c_Name checker := checker]> (checkers hm)) (<[c_Name checker := config]> (configs hm)) (results hm)
    (running hm) (stopClosed hm) (ticking hm) (loops hm).

Definition UnregisterChecker (name : string) (hm : HealthManager) : HealthManager :=
  MkManager (delete name (checkers hm)) (delete name (configs hm)) (delete name (results hm))
    (running hm) (stopClosed hm) (ticking hm) (loops hm).

Definition Start (hm : HealthManager) : HealthManager :=
  if running hm then hm
  else MkManager (checkers hm) (configs hm) (results hm) true (stopClosed hm) true (S (loops hm)).

(** [close] of a closed channel panics. *)
Definition Stop (hm : HealthManager) : outcome HealthManager :=
  if negb (running hm) then Ret hm
  else if stopClosed hm then Panic "close of closed channel" []
  else Ret (MkManager (checkers hm) (configs hm) (results hm) false true false (loops hm)).

(** The first loop of [CheckHealth], over a copy of the registrations; [order]
    enumerates them.  A checker that is not enabled is passed over. *)
Definition check_one (now : Z) (ctx : Ctx) (chs : gmap string HealthChecker) (cfgs : gmap string HealthCheckConfig)
    (rs : gmap string (option CheckResult)) (name : string) : gmap string (option CheckResult) :=
  match chs !! name with
  | Some checker =>
      let config := default zero_config (cfgs !! name) in
      if Enabled config then <[name := Check_ checker (WithTimeout now ctx (Timeout config))]> rs else rs
  | None => rs
  end.

Definition run_checks (now : Z) (ctx : Ctx) (order : list string) (chs : gmap string HealthChecker)
    (cfgs : gmap string HealthCheckConfig) : gmap string (option CheckResult) :=
  foldl (check_one now ctx chs cfgs) ∅ order.

(** [hm.results[name] = result] for every result. *)
Definition store_results (rs : gmap string (option CheckResult)) (hm : HealthManager) : HealthManager :=
  MkManager (checkers hm) (configs hm) (rs ∪ results hm) (running hm) (stopClosed hm) (ticking hm) (loops hm).

Definition count_status (st : HealthStatus) (s : Summary) : Summary :=
  match st with
  | StatusHealthy => MkSummary (Total s + 1) (Healthy s + 1) (Unhealthy s) (Degraded s) (Unknown s)
  | StatusUnhealthy => MkSummary (Total s + 1) (Healthy s) (Unhealthy s + 1) (Degraded s) (Unknown s)
  | StatusDegraded => MkSummary (Total s + 1) (Healthy s) (Unhealthy s) (Degraded s + 1) (Unknown s)
  | _ => MkSummary (Total s + 1) (Healthy s) (Unhealthy s) (Degraded s) (Unknown s + 1)
  end.

(** The loop of [generateReport]: a nil result panics. *)
Fixpoint summarize (rs : gmap string (option CheckResult)) (order : list string) (s : Summary) : outcome Summary :=
  match order with
  | [] => Ret s
  | name :: order =>
      match rs !! name with
      | Some (Some r) => summarize rs order (count_status (Status r) s)
      | Some None => Panic "invalid memory address or nil pointer dereference" []
      | None => summarize rs order s
      end
  end.

Definition overall (s : Summary) : HealthStatus :=
  if 0 <? Unhealthy s then StatusUnhealthy
  else if 0 <? Degraded s then StatusDegraded
  else if Healthy s =? Total s then StatusHealthy
  else StatusUnknown.

Definition generateReport (now : Z) (order : list string) (rs : gmap string (option CheckResult)) :
    outcome HealthReport :=
  let! s := summarize rs order (MkSummary 0 0 0 0 0) in
  Ret (MkReport (overall s) now rs s).

(** [order] and [order'] enumerate the checkers and the results. *)
Definition CheckHealth (now : Z) (ctx : Ctx) (order order' : list string) (hm : HealthManager) :
    HealthManager * outcome HealthReport :=
  let rs := run_checks now ctx order (checkers hm) (configs hm) in
  (store_results rs hm, generateReport now order' rs).

Definition CheckHealthByName (now : Z) (ctx : Ctx) (name : string) (hm : HealthManager) :
    HealthManager * option CheckResult :=
  match checkers hm !! name with
  | None => (hm, Some (MkResult name StatusUnknown "Checker not found" [] 0 now 0))
  | Some checker =>
      let config := default zero_config (configs hm !! name) in
      if Enabled config then
        let result := Check_ checker (WithTimeout now ctx (Timeout config)) in
        (store_results {[name := result]} hm, result)
      else (hm, Some (MkResult name StatusUnknown "Checker disabled" [] 0 now 0))
  end.

Definition GetCachedResults (now : Z) (order : list string) (hm : HealthManager) : outcome HealthReport :=
  generateReport now order (results hm).

(** The background loops: one leaves when the stop channel is closed, one
    checks at a tick. *)
Inductive loop_step (now : Z) (order : list string) : HealthManager → HealthManager → Prop :=
| loop_stop hm n :
    stopClosed hm = true → loops hm = S n →
    loop_step now order hm
      (MkManager (checkers hm) (configs hm) (results hm) (running hm) (stopClosed hm) (ticking hm) n)
| loop_tick hm n :
    ticking hm = true → loops hm = S n → loop_step now order hm (CheckHealth now None order order hm).1.

(** The status code of the handler: the query names a checker or not.  A nil
    result panics in the handler's goroutine. *)
Definition HTTPHandler (now : Z) (ctx : Ctx) (check : string) (order order' : list string) (hm : HealthManager) :
    HealthManager * outcome Z :=
  if decide (check = "") then
    let '(hm, r) := CheckHealth now ctx order order' hm in
    (hm, let! report := r in
         Ret (match r_Status report with StatusHealthy | StatusDegraded => 200 | _ => 503 end))
  else
    let '(hm, r) := CheckHealthByName now ctx check hm in
    (hm, match r with
         | Some r => Ret (if decide (Status r = StatusHealthy) then 200 else 503)
         | None => Panic "invalid memory address or nil pointer dereference" []
         end).

(** ** The checks that run *)

(** What a check of [name] yields. *)
Definition checked (now : Z) (ctx : Ctx) (hm_checkers : gmap string HealthChecker)
    (hm_configs : gmap string HealthCheckConfig) (name : string) : option (option CheckResult) :=
  checker ← hm_checkers !! name;
  let config := default zero_config (hm_configs !! name) in
  if Enabled config then Some (Check_ checker (WithTimeout now ctx (Timeout config))) else None.

Lemma check_one_lookup now ctx chs cfgs rs x name :
  check_one now ctx chs cfgs rs x !! name =
  if decide (name = x) then (match checked now ctx chs cfgs name with Some r => Some r | None => rs !! name end)
  else rs !! name.
Proof.
  unfold check_one, checked. case_decide as E.
  - subst x. destruct (chs !! name); cbn; [|done]. destruct (Enabled _); [by rewrite lookup_insert_eq|done].
  - destruct (chs !! x); [|done]. cbv zeta. destruct (Enabled _); [by rewrite lookup_insert_ne|done].
Qed.

Lemma run_checks_fold now ctx order chs cfgs rs name :
  foldl (check_one now ctx chs cfgs) rs order !! name =
  if decide (name ∈ order) then (match checked now ctx chs cfgs name with Some r => Some r | None => rs !! name end)
  else rs !! name.
Proof.
  revert rs. induction order as [|x order IH]; intros rs; cbn [foldl]; [by rewrite decide_False by set_solver|].
  rewrite IH, check_one_lookup. destruct (decide (name = x)) as [->|Hne].
  - rewrite (decide_True (P := x ∈ x :: order)) by set_solver. by case_decide; destruct (checked now ctx chs cfgs x).
  - by rewrite (decide_ext (name ∈ x :: order) (name ∈ order)) by set_solver.
Qed.

(** The results of a check: one for every registered checker that is enabled. *)
Lemma run_checks_lookup now ctx order chs cfgs name :
  range_of chs order → run_checks now ctx order chs cfgs !! name = checked now ctx chs cfgs name.
Proof.
  intros Ho. unfold run_checks. rewrite run_checks_fold. case_decide as E; [by destruct (checked _ _ _ _ _)|].
  rewrite lookup_empty. unfold checked. destruct (chs !! name) as [ch|] eqn:Hc; [|done]. destruct E.
  rewrite Ho. apply list_elem_of_fmap. exists (name, ch). by rewrite elem_of_map_to_list.
Qed.

(** ** The report *)

Section Report.
Context (rs : gmap string (option CheckResult)).

Definition of_status (st : HealthStatus) (name : string) : Prop :=
  ∃ r, rs !! name = Some (Some r) ∧ Status r = st.

#[export] Instance of_status_dec st name : Decision (of_status st name).
Proof.
  destruct (rs !! name) as [[r|]|] eqn:E.
  - destruct (decide (Status r = st)) as [H|H]; [left; by exists r|right; intros (r' & E' & ?)]. congruence.
  - right. intros (r' & E' & ?). congruence.
  - right. intros (r' & E' & ?). congruence.
Defined.

Definition tally (st : HealthStatus) (order : list string) : Z := Z.of_nat (length (filter (of_status st) order)).

Lemma tally_cons st name order r :
  rs !! name = Some (Some r) →
  tally st (name :: order) = (if decide (Status r = st) then 1 else 0) + tally st order.
Proof.
  intros Hr. unfold tally. rewrite filter_cons. destruct (decide (Status r = st)) as [Hs|Hs].
  - rewrite decide_True by (by exists r). cbn [length]. lia.
  - rewrite decide_False; [lia|]. intros (r' & ? & ?). congruence.
Qed.

Lemma summarize_spec order s :
  (∀ name, name ∈ order → ∃ r, rs !! name = Some (Some r)) →
  ∃ s', summarize rs order s = Ret s' ∧ Total s' = Total s + Z.of_nat (length order) ∧
    Healthy s' = Healthy s + tally StatusHealthy order ∧ Unhealthy s' = Unhealthy s + tally StatusUnhealthy order ∧
    Degraded s' = Degraded s + tally StatusDegraded order ∧
    Total s' - Healthy s' - Unhealthy s' - Degraded s' - Unknown s' =
    Total s - Healthy s - Unhealthy s - Degraded s - Unknown s.
Proof.
  revert s. induction order as [|name order IH]; intros s Hall.
  - exists s. cbn. unfold tally. cbn. split; [done|]. lia.
  - destruct (Hall name) as [r Hr]; [by left|].
    destruct (IH (count_status (Status r) s)) as (s' & Hs & H1 & H2 & H3 & H4 & H5).
    { intros n Hn. apply Hall. by right. }
    exists s'. cbn [summarize]. rewrite Hr. split; [done|].
    rewrite !(tally_cons _ _ _ _ Hr), length_cons.
    destruct (Status r); cbn [count_status Total Healthy Unhealthy Degraded Unknown] in *;
      repeat case_decide; try congruence; lia.
Qed.

Lemma summarize_nil order s name :
  name ∈ order → rs !! name = Some None → ∃ m, summarize rs order s = Panic m [].
Proof.
  revert s. induction order as [|x order IH]; intros s; [by intros ?%elem_of_nil|].
  intros [->|Hin]%elem_of_cons Hn; cbn; [rewrite Hn; by eexists|].
  destruct (rs !! x) as [[r|]|]; [by apply IH|by eexists|by apply IH].
Qed.

Lemma tally_pos st order : 0 < tally st order ↔ ∃ name, name ∈ order ∧ of_status st name.
Proof.
  unfold tally. split.
  - destruct (filter (of_status st) order) as [|x l] eqn:E; [cbn; lia|]. intros _. exists x.
    assert (Hx : x ∈ filter (of_status st) order) by (rewrite E; by left). apply list_elem_of_filter in Hx. tauto.
  - intros (x & Hx & Hs). assert (H : x ∈ filter (of_status st) order) by (by apply list_elem_of_filter).
    destruct (filter _ _); [by apply elem_of_nil in H|cbn; lia].
Qed.

Lemma tally_all st order :
  tally st order = Z.of_nat (length order) ↔ ∀ name, name ∈ order → of_status st name.
Proof.
  unfold tally. induction order as [|x order IH]; [split; [by intros _ ? ?%elem_of_nil|done]|].
  rewrite filter_cons. pose proof (length_filter (of_status st) order) as Hle. split.
  - case_decide; cbn [length]; [|lia]. intros Heq name [->|Hin]%elem_of_cons; [done|]. apply IH; [lia|done].
  - intros Hall. rewrite decide_True by (apply Hall; by left). cbn [length]. rewrite !Nat2Z.inj_succ. f_equal.
    apply IH. intros. apply Hall. by right.
Qed.

End Report.

(** The overall status a set of results deserves. *)
Definition deserved (rs : gmap string (option CheckResult)) (st : HealthStatus) : Prop :=
  match st with
  | StatusUnhealthy => ∃ n, of_status rs StatusUnhealthy n
  | StatusDegraded => (¬ ∃ n, of_status rs StatusUnhealthy n) ∧ ∃ n, of_status rs StatusDegraded n
  | StatusHealthy => ∀ n r, rs !! n = Some r → of_status rs StatusHealthy n
  | StatusUnknown =>
      (¬ ∃ n, of_status rs StatusUnhealthy n) ∧ (¬ ∃ n, of_status rs StatusDegraded n) ∧
      ∃ n r, rs !! n = Some r ∧ ¬ of_status rs StatusHealthy n
  | StatusOther _ => False
  end.

Lemma range_of_elem (rs : gmap string (option CheckResult)) order name :
  range_of rs order → name ∈ order ↔ is_Some (rs !! name).
Proof.
  intros ->. rewrite list_elem_of_fmap. split.
  - intros ([n r] & -> & H%elem_of_map_to_list). by exists r.
  - intros [r Hr]. exists (name, r). by rewrite elem_of_map_to_list.
Qed.

Lemma generateReport_deserved now order rs :
  range_of rs order → (∀ n, rs !! n ≠ Some None) →
  ∃ report, generateReport now order rs = Ret report ∧ Checks report = rs ∧ deserved rs (r_Status report) ∧
    Total (r_Summary report) = Z.of_nat (size rs) ∧
    Total (r_Summary report) = Healthy (r_Summary report) + Unhealthy (r_Summary report)
      + Degraded (r_Summary report) + Unknown (r_Summary report).
Proof.
  intros Ho Hnn. pose proof (range_of_elem rs order) as Hin.
  destruct (summarize_spec rs order (MkSummary 0 0 0 0 0)) as (s & Hs & H1 & H2 & H3 & H4 & H5).
  { intros n [[r|] Hr]%Hin; [by exists r| |done]. by destruct (Hnn n). }
  unfold generateReport. rewrite Hs. eexists. split; [done|]. cbn in *. split; [done|].
  assert (Hlen : length order = size rs) by (rewrite Ho, length_fmap; apply length_map_to_list).
  split; [|rewrite H1, Hlen; lia].
  assert (Hex : ∀ st, (∃ name, name ∈ order ∧ of_status rs st name) ↔ ∃ n, of_status rs st n).
  { intros st. split; [naive_solver|]. intros (n & r & Hr & Hst). exists n. split; [|by exists r].
    apply Hin; [done|by eexists]. }
  pose proof (tally_pos rs StatusUnhealthy order) as Hu. pose proof (tally_pos rs StatusDegraded order) as Hd.
  pose proof (tally_all rs StatusHealthy order) as Hh. rewrite Hex in Hu, Hd.
  unfold overall. destruct (Z.ltb_spec 0 (Unhealthy s)); [cbn; apply Hu; lia|].
  assert (¬ ∃ n, of_status rs StatusUnhealthy n) by (rewrite <-Hu; lia).
  destruct (Z.ltb_spec 0 (Degraded s)); [cbn; split; [done|apply Hd; lia]|].
  assert (¬ ∃ n, of_status rs StatusDegraded n) by (rewrite <-Hd; lia).
  destruct (Z.eqb_spec (Healthy s) (Total s)) as [E|E]; cbn.
  - intros n r Hr. apply Hh; [lia|]. apply Hin; [done|by eexists].
  - split; [done|]. split; [done|].
    assert (Hnot : ¬ ∀ n, n ∈ order → of_status rs StatusHealthy n) by (rewrite <-Hh; lia).
    destruct (decide (Forall (of_status rs StatusHealthy) order)) as [HF|HF].
    + rewrite Forall_forall in HF. naive_solver.
    + apply not_Forall_Exists in HF; [|apply _]. apply Exists_exists in HF as (n & [r Hr]%Hin & Hn); [|done].
      exists n, r. done.
Qed.

(** A health check runs exactly the registered checkers that are enabled,
    each under its own timeout; the report holds their results, its status is
    the worst of them (healthy only when all are), its counts add up; and the
    cached results are updated with them. *)
Theorem health_report_correct now ctx order order' hm :
  range_of (checkers hm) order →
  let rs := run_checks now ctx order (checkers hm) (configs hm) in
  range_of rs order' → (∀ n, rs !! n ≠ Some None) →
  (∀ name, rs !! name = checked now ctx (checkers hm) (configs hm) name) ∧
  (∃ report, (CheckHealth now ctx order order' hm).2 = Ret report ∧ Checks report = rs ∧
     deserved rs (r_Status report) ∧ Total (r_Summary report) = Z.of_nat (size rs) ∧
     Total (r_Summary report) = Healthy (r_Summary report) + Unhealthy (r_Summary report)
       + Degraded (r_Summary report) + Unknown (r_Summary report)) ∧
  (∀ name, results (CheckHealth now ctx order order' hm).1 !! name =
     match rs !! name with Some r => Some r | None => results hm !! name end).
Proof.
  intros Ho rs Ho' Hnn. split; [intros name; by apply run_checks_lookup|].
  split; [by apply generateReport_deserved|]. intros name. cbn. rewrite lookup_union. fold rs.
  destruct (rs !! name), (results hm !! name); done.
Qed.

(** A nil result of a custom check makes every report that contains it panic. *)
Theorem nil_result_panics now order rs name :
  range_of rs order → rs !! name = Some None → ∃ m, generateReport now order rs = Panic m [].
Proof.
  intros Ho Hn. unfold generateReport.
  destruct (summarize_nil rs order (MkSummary 0 0 0 0 0) name) as [m ->]; [|done|by eexists].
  apply (range_of_elem _ _ _ Ho). by eexists.
Qed.

(** ** The life cycle *)

(** A manager that was stopped cannot be started again: the stop channel stays
    closed, so the loop of the second start leaves, and the second stop panics. *)
Theorem restart_is_dead hm hm' :
  running hm = false → Stop (Start hm) = Ret hm' →
  stopClosed (Start hm') = true ∧ running (Start hm') = true ∧ Stop (Start hm') = Panic "close of closed channel" [].
Proof.
  intros Hr. unfold Start at 1. rewrite Hr. unfold Stop at 1. cbn. destruct (stopClosed hm); [done|].
  intros [= <-]. by vm_compute.
Qed.

(** A result that was computed while its checker was unregistered is cached
    afterwards and stays until the name is unregistered again. *)
Theorem unregister_races_check now ctx order hm name checker :
  range_of (checkers hm) order → checkers hm !! name = Some checker →
  Enabled (default zero_config (configs hm !! name)) = true →
  let rs := run_checks now ctx order (checkers hm) (configs hm) in
  let hm' := store_results rs (UnregisterChecker name hm) in
  checkers hm' !! name = None ∧ is_Some (results hm' !! name).
Proof.
  intros Ho Hc He rs hm'. split; [cbn; apply lookup_delete_eq|]. unfold hm'. cbn. rewrite lookup_union.
  unfold rs. rewrite run_checks_lookup by done. unfold checked. rewrite Hc. cbn. rewrite He. destruct (delete name _ !! name); by eexists.
Qed.

(** ** Concrete behaviour *)

Definition ex_result (name : string) (st : HealthStatus) : CheckResult := MkResult name st "" [] 0 0 0.
Definition ex_checker (name : string) (st : HealthStatus) : HealthChecker :=
  MkChecker name (λ _, Some (ex_result name st)).
Definition ex_manager : HealthManager :=
  RegisterChecker (ex_checker "db" StatusHealthy) (MySQLCheckConfig "db" "dsn")
    (RegisterChecker (ex_checker "cache" StatusDegraded) (RedisCheckConfig "cache" "addr") NewHealthManager).

Lemma health_report_correct_witness :
  ∃ report, (CheckHealth 0 None ["db"; "cache"] ["db"; "cache"] ex_manager).2 = Ret report ∧
    deserved (run_checks 0 None ["db"; "cache"] (checkers ex_manager) (configs ex_manager)) (r_Status report).
Proof.
  assert (H1 : range_of (checkers ex_manager) ["db"; "cache"]).
  { unfold range_of. vm_compute. apply Permutation_swap. }
  destruct (health_report_correct 0 None ["db"; "cache"] ["db"; "cache"] ex_manager H1) as (_ & (rep & Hr & _ & Hd & _) & _).
  - unfold range_of. vm_compute. apply Permutation_swap.
  - intros n. rewrite run_checks_lookup by exact H1. unfold checked. destruct (checkers ex_manager !! n) as [ch|] eqn:E; cbn; [|done].
    destruct (Enabled _); [|done]. cbn in E.
    apply lookup_insert_Some in E as [[_ <-]|[_ [[_ <-]|[_ E]]%lookup_insert_Some]]; cbn; [done..|].
    by rewrite lookup_empty in E.
  - by exists rep.
Defined.

(** The endpoint answers 200 for a degraded service as a whole and 503 for the
    degraded checker alone. *)
Theorem degraded_probe_differs :
  (HTTPHandler 0 None "" ["db"; "cache"] ["db"; "cache"] ex_manager).2 = Ret 200 ∧
  (HTTPHandler 0 None "cache" [] [] ex_manager).2 = Ret 503.
Proof. vm_compute. done. Qed.

(** A checker registered with a configuration that was not validated is run
    with a context that has expired. *)
Theorem zero_timeout_expired :
  let pinger := MkChecker "db" (λ ctx, Some (DatabaseHealthChecker_Check 100 100 "db"
    (Some (match ctx with Some d => if d <=? 100 then Some "context deadline exceeded" else None | None => None end)))) in
  let config := MkCheckConfig "db" "mysql" "" 0 0 0 0 true true None in
  Status <$> (CheckHealthByName 100 None "db" (RegisterChecker pinger config NewHealthManager)).2 = Some StatusUnhealthy.
Proof. vm_compute. done. Qed.

(** A checker that is disabled later keeps its last result in the cached report. *)
Theorem disabled_result_remains :
  let hm := (CheckHealth 0 None ["db"; "cache"] ["db"; "cache"] ex_manager).1 in
  let off := MkCheckConfig "cache" "redis" "" 0 0 0 0 false true None in
  let hm := RegisterChecker (ex_checker "cache" StatusDegraded) off hm in
  let '(hm, _) := CheckHealth 0 None ["db"; "cache"] ["db"] hm in
  is_Some (results hm !! "cache").
Proof. vm_compute. by eexists. Qed.
