(* ===== verification/Messaging.v ===== *)
(** * plugins/messaging: configuration, message types, request and reply

    config.go, types.go and factory.go: the kinds of brokers, their
    configurations and the choice of a client.  nats.go: the table of
    subscriptions of a client.  reply.go: requests and replies over any client;
    the broker may duplicate, reorder and drop messages, and any number of
    requests run at the same time, as a step relation.  JSON encoding is a
    parameter with its round trip as hypothesis; the handler's function may be
    any function of the payload.  The errors of subscribing and publishing and
    the cancellation of a request's context, which only end a request with an
    error, are left out. *)

From Stdlib Require Import Ascii.
From stdpp Require Import pretty.
From S2P Require Import Prelude GoString.

Open Scope Z_scope.

(** ** Message types *)

(** [MessageType] is a string type; its constants: *)
Definition MessageTypeRabbitMQ : string := "rabbitmq".
Definition MessageTypeKafka : string := "kafka".
Definition MessageTypeNATS : string := "nats".
Definition MessageTypeRedis : string := "redis".
Definition MessageTypeMemory : string := "memory".

Definition GetSupportedTypes : list string :=
  [MessageTypeRabbitMQ; MessageTypeKafka; MessageTypeNATS; MessageTypeRedis; MessageTypeMemory].
Definition GetImplementedTypes : list string := [MessageTypeRabbitMQ; MessageTypeKafka; MessageTypeNATS].
Definition GetFutureTypes : list string := [MessageTypeRedis].

Definition IsValid (mt : string) : bool := bool_decide (mt ∈ GetSupportedTypes).
Definition IsImplemented (mt : string) : bool := bool_decide (mt ∈ GetImplementedTypes).

Definition DisplayName (mt : string) : string :=
  if decide (mt = MessageTypeRabbitMQ) then "RabbitMQ"
  else if decide (mt = MessageTypeKafka) then "Apache Kafka"
  else if decide (mt = MessageTypeNATS) then "NATS"
  else if decide (mt = MessageTypeRedis) then "Redis"
  else if decide (mt = MessageTypeMemory) then "Memory"
  else "Unknown".

Definition DefaultPort (mt : string) : Z :=
  if decide (mt = MessageTypeRabbitMQ) then 5672
  else if decide (mt = MessageTypeKafka) then 9092
  else if decide (mt = MessageTypeNATS) then 4222
  else if decide (mt = MessageTypeRedis) then 6379
  else 0.

Definition IsOpenSource (mt : string) : bool :=
  bool_decide (mt ∈ [MessageTypeRabbitMQ; MessageTypeKafka; MessageTypeNATS; MessageTypeRedis]).

Definition RequiresAuthentication (mt : string) : bool :=
  bool_decide (mt ∈ [MessageTypeRabbitMQ; MessageTypeKafka]).

(** The text of the error is left out. *)
Definition ParseMessageType (s : string) : result string :=
  let rs := to_lower (trim_space (runes s)) in
  if decide (rs = runes "rabbitmq" ∨ rs = runes "amqp") then Ok MessageTypeRabbitMQ
  else if decide (rs = runes "kafka") then Ok MessageTypeKafka
  else if decide (rs = runes "nats") then Ok MessageTypeNATS
  else if decide (rs = runes "redis") then Ok MessageTypeRedis
  else if decide (rs = runes "memory") then Ok MessageTypeMemory
  else Err (GoError.Errorf "unsupported messaging type: %s" []).

Record MessagingCapabilities := MkCaps {
  SupportsPublish : bool;
  SupportsSubscribe : bool;
  SupportsHeaders : bool;
  SupportsPartitioning : bool;
  SupportsOrdering : bool;
  SupportsPersistence : bool;
  SupportsTransactions : bool;
  SupportsDLQ : bool;
  SupportsReplay : bool;
  SupportsCompression : bool
}.

Definition GetCapabilities (mt : string) : MessagingCapabilities :=
  if decide (mt = MessageTypeRabbitMQ) then MkCaps true true true false false true true true false false
  else if decide (mt = MessageTypeKafka) then MkCaps true true true true true true true true true true
  else if decide (mt = MessageTypeNATS) then MkCaps true true true false false true false false false false
  else if decide (mt = MessageTypeRedis) then MkCaps true true false false true true true false true false
  else if decide (mt = MessageTypeMemory) then MkCaps true true false false false false false false false false
  else MkCaps false false false false false false false false false false.

(** ** Configuration *)

Inductive opt_value : Type :=
| OptInt (z : Z)
| OptString (s : string)
| OptBool (b : bool)
| OptStrings (l : list string).

Record Config := MkConfig {
  Type_ : string;
  Host : string;
  Port : Z;
  Username : string;
  Password : string;
  Database : string;
  Timeout : Z;
  ConnectionTimeout : Z;
  ReadTimeout : Z;
  WriteTimeout : Z;
  MaxRetries : Z;
  RetryDelay : Z;
  PoolSize : Z;
  IdleTimeout : Z;
  Heartbeat : Z;
  PrefetchCount : Z;
  DefaultExchange : string;
  DefaultQueue : string;
  DefaultRoutingKey : string;
  DeliveryMode : string;
  Priority : Z;
  TTL : Z;
  Expiration : Z;
  Compression : bool;
  Persistent : bool;
  AutoReconnect : bool;
  ReconnectDelay : Z;
  MaxReconnectAttempts : Z;
  Options : option (gmap string opt_value);
  Enabled : bool
}.

Definition DeliveryModeTransient : string := "transient".
Definition DeliveryModePersistent : string := "persistent".

Definition sec (n : Z) : Z := n * GoTime.Second.

Definition DefaultConfig : Config :=
  MkConfig MessageTypeRabbitMQ "localhost" 5672 "guest" "guest" "/" (sec 30) (sec 10) (sec 30) (sec 30) 3 (sec 5) 10 (sec 60)
    (sec 30) 10 "" "default" "default" DeliveryModePersistent 0 0 0 false true true (sec 5) 5 (Some ∅) true.

Definition RabbitMQConfig (host : string) (port : Z) : Config :=
  MkConfig MessageTypeRabbitMQ host port "guest" "guest" "/" (sec 30) (sec 10) (sec 30) (sec 30) 3 (sec 5) 10 (sec 60)
    (sec 30) 10 "amq.direct" "default" "default" DeliveryModePersistent 0 0 0 false true true (sec 5) 5
    (Some (<["vhost" := OptString "/"]> (<["exchange_durable" := OptBool true]> {["queue_durable" := OptBool true]})))
    true.

(** [hosts[0]] panics when there are none. *)
Definition KafkaConfig (hosts : list string) : outcome Config :=
  match hosts with
  | [] => Panic "index out of range [0] with length 0" []
  | host :: _ =>
      Ret (MkConfig MessageTypeKafka host 9092 "" "" "" (sec 30) (sec 10) (sec 30) (sec 30) 3 (sec 5) 10 (sec 60)
        (sec 3) 100 "" "default-topic" "default" DeliveryModePersistent 0 0 0 true true true (sec 5) 5
        (Some (<["brokers" := OptStrings hosts]>
          (<["client_id" := OptString "github.com/alldev-run/golang-gin-rpc"]>
          (<["compression_type" := OptString "gzip"]> (<["acks" := OptString "all"]> (<["retries" := OptInt 3]>
          (<["batch_size" := OptInt 16384]> (<["linger_ms" := OptInt 10]> {["buffer_memory" := OptInt 33554432]})))))))) true)
  end.

Definition NATSConfig (host : string) (port : Z) : Config :=
  MkConfig MessageTypeNATS host port "" "" "" (sec 10) (sec 5) (sec 10) (sec 10) 3 (sec 2) 5 (sec 30)
    0 0 "" "default" "default" DeliveryModeTransient 0 0 0 false false true (sec 2) 10
    (Some (<["client_name" := OptString "github.com/alldev-run/golang-gin-rpc"]> {["no_echo" := OptBool true]})) true.

Definition RedisConfig (host : string) (port : Z) : Config :=
  MkConfig MessageTypeRedis host port "" "" "0" (sec 5) (sec 5) (sec 5) (sec 5) 3 (sec 1) 10 (sec 30)
    0 0 "" "default" "default" DeliveryModeTransient 0 0 0 false false true (sec 1) 5
    (Some (<["db" := OptInt 0]> (<["key_prefix" := OptString "messaging:"]> {["max_retries" := OptInt 3]}))) true.

Definition in_memory (queue key : string) (options : gmap string opt_value) : Config :=
  MkConfig MessageTypeMemory "" 0 "" "" "" (sec 1) (100 * GoTime.Millisecond) (sec 1) (sec 1) 0 0 1 0
    0 0 "" queue key DeliveryModeTransient 0 0 0 false false false 0 0 (Some options) true.

Definition MemoryConfig : Config := in_memory "default" "default" ∅.
Definition DevelopmentConfig : Config := in_memory "dev-queue" "dev" {["env" := OptString "development"]}.

Definition ProductionConfig (msgType host : string) (port : Z) : outcome Config :=
  if decide (msgType = MessageTypeRabbitMQ) then Ret (RabbitMQConfig host port)
  else if decide (msgType = MessageTypeKafka) then KafkaConfig [host]
  else if decide (msgType = MessageTypeNATS) then Ret (NATSConfig host port)
  else if decide (msgType = MessageTypeRedis) then Ret (RedisConfig host port)
  else Ret (RabbitMQConfig host port).

(** A missing host is replaced together with the port, for the known brokers. *)
Definition fix_host (mt host : string) (port : Z) : string * Z :=
  if decide (host = "") then
    if decide (mt ∈ [MessageTypeRabbitMQ; MessageTypeKafka; MessageTypeNATS; MessageTypeRedis])
    then ("localhost", DefaultPort mt) else (host, port)
  else (host, port).

Definition Validate (c : Config) : Config :=
  let mt := or_default_s (Type_ c) MessageTypeRabbitMQ in
  let hp := fix_host mt (Host c) (Port c) in
  MkConfig mt hp.1 hp.2 (Username c) (Password c) (Database c) (or_default (Timeout c) (sec 30))
    (or_default (ConnectionTimeout c) (sec 10)) (or_default (ReadTimeout c) (sec 30)) (or_default (WriteTimeout c) (sec 30))
    (or_default (MaxRetries c) 3) (or_default (RetryDelay c) (sec 5)) (or_default (PoolSize c) 10)
    (or_default (IdleTimeout c) (sec 60)) (Heartbeat c) (PrefetchCount c) (DefaultExchange c)
    (or_default_s (DefaultQueue c) "default") (or_default_s (DefaultRoutingKey c) "default") (DeliveryMode c)
    (Priority c) (TTL c) (Expiration c) (Compression c) (Persistent c) (AutoReconnect c)
    (or_default (ReconnectDelay c) (sec 5)) (or_default (MaxReconnectAttempts c) 5) (Some (default ∅ (Options c)))
    (Enabled c).

Definition GetConnectionString (c : Config) : string :=
  if decide (Type_ c = MessageTypeRabbitMQ) then
    "amqp://" +:+ Username c +:+ ":" +:+ Password c +:+ "@" +:+ Host c +:+ ":" +:+ pretty (Port c) +:+ Database c
  else if decide (Type_ c = MessageTypeKafka) then Host c +:+ ":" +:+ pretty (Port c)
  else if decide (Type_ c = MessageTypeNATS) then "nats://" +:+ Host c +:+ ":" +:+ pretty (Port c)
  else if decide (Type_ c = MessageTypeRedis) then
    "redis://" +:+ Host c +:+ ":" +:+ pretty (Port c) +:+ "/" +:+ Database c
  else "".

(** ** factory.go *)

Section Factory.
(** Opening a connection to a broker. *)
Context {Client : Type} (NewRabbitMQClient NewKafkaClient NewNATSClient : Config → result Client).

Definition NewClient (c : Config) : result Client :=
  match ParseMessageType (Type_ c) with
  | Err e => Err (GoError.ErrorfW "invalid messaging type '%s': %w" [Type_ c] e)
  | Ok mt =>
      if negb (IsImplemented mt) then
        Err (GoError.Errorf "messaging type '%s' is not yet implemented. Supported types: %v" [DisplayName mt])
      else if decide (mt = MessageTypeRabbitMQ) then NewRabbitMQClient c
      else if decide (mt = MessageTypeKafka) then NewKafkaClient c
      else if decide (mt = MessageTypeNATS) then NewNATSClient c
      else Err (GoError.Errorf "unsupported messaging type: %s" [DisplayName mt])
  end.

Definition with_type (mt : string) (c : Config) : Config :=
  MkConfig mt (Host c) (Port c) (Username c) (Password c) (Database c) (Timeout c) (ConnectionTimeout c)
    (ReadTimeout c) (WriteTimeout c) (MaxRetries c) (RetryDelay c) (PoolSize c) (IdleTimeout c) (Heartbeat c)
    (PrefetchCount c) (DefaultExchange c) (DefaultQueue c) (DefaultRoutingKey c) (DeliveryMode c) (Priority c)
    (TTL c) (Expiration c) (Compression c) (Persistent c) (AutoReconnect c) (ReconnectDelay c)
    (MaxReconnectAttempts c) (Options c) (Enabled c).

Definition CreateClientByType (mt : string) (c : Config) : result Client :=
  if negb (IsValid mt) then Err (GoError.Errorf "invalid message type: %s" [mt])
  else if negb (IsImplemented mt) then
    Err (GoError.Errorf "messaging type '%s' is not yet implemented" [DisplayName mt])
  else NewClient (with_type mt c).
End Factory.

(** The port is set in the function's own copy and lost. *)
Definition ValidateConfig (c : Config) : option GoError.error :=
  match ParseMessageType (Type_ c) with
  | Err e => Some (GoError.ErrorfW "invalid messaging type: %w" [] e)
  | Ok mt =>
      if negb (IsImplemented mt) then Some (GoError.Errorf "messaging type '%s' is not implemented" [DisplayName mt])
      else if decide (mt = MessageTypeRabbitMQ) then
        if decide (Host c = "") then Some (GoError.Errorf "RabbitMQ requires host" [])
        else if decide (Username c = "") then Some (GoError.Errorf "rabbitmq requires username" [])
        else if decide (Password c = "") then Some (GoError.Errorf "rabbitmq requires password" [])
        else None
      else if decide (mt = MessageTypeKafka) then
        if decide (Host c = "") then Some (GoError.Errorf "kafka requires host" []) else None
      else if decide (mt = MessageTypeNATS) then
        if decide (Host c = "") then Some (GoError.Errorf "nats requires host" []) else None
      else None
  end.

(** ** nats.go: the table of subscriptions

    A subscription is a number; [ctx] is the context its goroutine waits for. *)

Record NATSClient := MkNats {
  connected : bool;
  subs : gmap string nat;
  next_sub : nat;
  active : gset nat           (** subscriptions the server delivers to *)
}.

Definition NATS_Subscribe (topic : string) (c : NATSClient) : NATSClient * option string :=
  match subs c !! topic with
  | Some _ => (c, Some "already subscribed")
  | None =>
      if negb (connected c) then (c, Some "not connected")
      else (MkNats true (<[topic := next_sub c]> (subs c)) (S (next_sub c)) ({[next_sub c]} ∪ active c), None)
  end.

(** [Unsubscribe], and the goroutine of [Subscribe] once its context is done:
    both act on whatever subscription the topic has then. *)
Definition NATS_Unsubscribe (topic : string) (c : NATSClient) : NATSClient :=
  match subs c !! topic with
  | Some n => MkNats (connected c) (delete topic (subs c)) (next_sub c) (active c ∖ {[n]})
  | None => c
  end.

Definition NATS_context_done (topic : string) (c : NATSClient) : NATSClient := NATS_Unsubscribe topic c.

Definition NATS_Close (c : NATSClient) : NATSClient := MkNats false ∅ (next_sub c) ∅.

(** ** Facts about types and configurations *)

(** Every supported type is parsed from its own name, in any case and between
    spaces; the result of parsing is a supported type. *)
Theorem ParseMessageType_roundtrip mt :
  IsValid mt = true → ParseMessageType mt = Ok mt.
Proof.
  unfold IsValid. rewrite bool_decide_eq_true. unfold GetSupportedTypes. rewrite !elem_of_cons, elem_of_nil.
  intros [->|[->|[->|[->|[->|[]]]]]]; vm_compute; reflexivity.
Qed.

Theorem ParseMessageType_valid t mt : ParseMessageType t = Ok mt → IsValid mt = true.
Proof. unfold ParseMessageType. repeat case_decide; intros; simplify_eq; done. Qed.

Lemma fix_host_idemp mt h p : fix_host mt (fix_host mt h p).1 (fix_host mt h p).2 = fix_host mt h p.
Proof. unfold fix_host. by repeat case_decide. Qed.

(** Validating twice is validating once. *)
Theorem Validate_idempotent c : Validate (Validate c) = Validate c.
Proof. unfold Validate. cbn. autorewrite with godefault. rewrite fix_host_idemp. done. Qed.

(** A configuration that passes [ValidateConfig] and has a connection is one of
    the three implemented brokers. *)
Theorem NewClient_implemented {Client} (r k n : Config → result Client) c cl :
  NewClient r k n c = Ok cl →
  (r c = Ok cl ∧ ParseMessageType (Type_ c) = Ok MessageTypeRabbitMQ) ∨
  (k c = Ok cl ∧ ParseMessageType (Type_ c) = Ok MessageTypeKafka) ∨
  (n c = Ok cl ∧ ParseMessageType (Type_ c) = Ok MessageTypeNATS).
Proof. unfold NewClient. repeat (case_match || case_decide); intros; simplify_eq; eauto. Qed.

(** The production configuration of the in-memory type is RabbitMQ's. *)
Theorem production_memory_is_rabbitmq host port :
  ProductionConfig MessageTypeMemory host port = Ret (RabbitMQConfig host port).
Proof. done. Qed.

(** The port that [ValidateConfig] fills in is lost: a configuration without a
    port passes and connects to port zero. *)
Theorem validated_port_lost :
  let c := NATSConfig "broker" 0 in
  ValidateConfig c = None ∧ GetConnectionString c = "nats://broker:0".
Proof. vm_compute. done. Qed.

(** A subscription made after an unsubscription is cancelled when the context
    of the earlier one is done. *)
Theorem old_context_cancels_new_subscription :
  let c := (NATS_Subscribe "t" (MkNats true ∅ 0 ∅)).1 in
  let c := (NATS_Subscribe "t" (NATS_Unsubscribe "t" c)).1 in
  1%nat ∈ active c ∧ active (NATS_context_done "t" c) = ∅.
Proof. vm_compute. split; [apply (bool_decide_unpack _); vm_compute; done|done]. Qed.

(** ** reply.go *)

Record ReplyEnvelope := MkEnv {
  CorrelationID : string;
  ReplyTo : string;
  IsError : bool;
  Payload : string
}.

(** What [Request] returns. *)
Inductive reply :=
| Replied (payload : string)
| ReplyError (payload : string)
| ErrRequestTimeout.

Section Reply.
(** [encoding/json] on the envelope. *)
Context (marshal : ReplyEnvelope → string) (unmarshal : string → option ReplyEnvelope).

Definition replyTo (correlationID : string) : string := "reply." +:+ correlationID.

(** The envelope [Request] publishes. *)
Definition request_envelope (correlationID payload : string) : ReplyEnvelope :=
  MkEnv correlationID (replyTo correlationID) false payload.

(** The handler of the temporary topic: [got] holds one envelope. *)
Definition on_reply (payload : string) (got : option ReplyEnvelope) : option ReplyEnvelope :=
  match unmarshal payload with
  | None => got
  | Some env => match got with None => Some env | Some _ => got end
  end.

Definition finish_request (env : ReplyEnvelope) : reply :=
  if IsError env then ReplyError (Payload env) else Replied (Payload env).

(** [timeout <= 0] is five seconds. *)
Definition request_timeout (timeout : Z) : Z := if timeout <=? 0 then 5 * GoTime.Second else timeout.

(** [HandleRequests]: the topic and the payload it publishes, if any. *)
Definition HandleRequests (fn : string → string + string) (payload : string) : option (string * string) :=
  if decide (payload = "") then None
  else
    match unmarshal payload with
    | None => None
    | Some env =>
        if decide (ReplyTo env = "") then None
        else
          let resp :=
            match fn (Payload env) with
            | inl err => MkEnv (CorrelationID env) "" true err
            | inr out => MkEnv (CorrelationID env) "" false out
            end in
          Some (ReplyTo env, marshal resp)
    end.

(** ** Requests over an unreliable broker *)

Record request := MkReq {
  sent : string;
  got : option ReplyEnvelope;
  returned : option reply
}.

(** Messages on their way, by topic, and the requests by correlation id. *)
Record system := MkSystem {
  flight : list (string * string);
  requests : gmap string request
}.

(** The topic of the service, and the function that answers its requests. *)
Context (topic : string) (fn : string → string + string).

(** A delivery leaves the message in flight, so it may be delivered again. *)
Inductive step : system → system → Prop :=
| step_request id payload st :
    requests st !! id = None →
    step st (MkSystem (flight st ++ [(topic, marshal (request_envelope id payload))])
              (<[id := MkReq payload None None]> (requests st)))
| step_handle payload st :
    (topic, payload) ∈ flight st →
    step st (MkSystem (flight st ++ option_list (HandleRequests fn payload)) (requests st))
| step_reply id r payload st :
    (replyTo id, payload) ∈ flight st → requests st !! id = Some r →
    step st (MkSystem (flight st)
              (<[id := MkReq (sent r) (on_reply payload (got r)) (returned r)]> (requests st)))
| step_return id r env st :
    requests st !! id = Some r → returned r = None → got r = Some env →
    step st (MkSystem (flight st) (<[id := MkReq (sent r) None (Some (finish_request env))]> (requests st)))
| step_timeout id r st :
    requests st !! id = Some r → returned r = None →
    step st (MkSystem (flight st) (<[id := MkReq (sent r) (got r) (Some ErrRequestTimeout)]> (requests st)))
| step_lose i st :
    step st (MkSystem (delete i (flight st)) (requests st)).

Definition initial : system := MkSystem [] ∅.

(** The answer a request deserves. *)
Definition answer_of (payload : string) : reply :=
  match fn payload with inl err => ReplyError err | inr out => Replied out end.

Definition response_envelope (id payload : string) : ReplyEnvelope :=
  match fn payload with inl err => MkEnv id "" true err | inr out => MkEnv id "" false out end.

(** Decoding inverts encoding, and an encoding is not empty. *)
Hypothesis roundtrip : ∀ env, unmarshal (marshal env) = Some env.
Hypothesis marshal_not_empty : ∀ env, marshal env ≠ "".
(** The service does not listen on a reply topic. *)
Hypothesis topic_ok : ∀ id, topic ≠ replyTo id.

Record consistent (st : system) : Prop := {
  c_flight t p : (t, p) ∈ flight st →
    ∃ id r, requests st !! id = Some r ∧
      ((t = topic ∧ p = marshal (request_envelope id (sent r))) ∨
       (t = replyTo id ∧ p = marshal (response_envelope id (sent r))));
  c_got id r env : requests st !! id = Some r → got r = Some env → env = response_envelope id (sent r);
  c_returned id r : requests st !! id = Some r → returned r = None ∨ returned r = Some ErrRequestTimeout ∨
    returned r = Some (answer_of (sent r))
}.

Lemma replyTo_inj id id' : replyTo id = replyTo id' → id = id'.
Proof. unfold replyTo. intros H. by injection H. Qed.

Lemma finish_response id payload : finish_request (response_envelope id payload) = answer_of payload.
Proof. unfold finish_request, response_envelope, answer_of. by destruct (fn payload). Qed.

Lemma handle_request id payload :
  HandleRequests fn (marshal (request_envelope id payload)) =
  Some (replyTo id, marshal (response_envelope id payload)).
Proof.
  unfold HandleRequests. rewrite decide_False by apply marshal_not_empty. rewrite roundtrip. cbn.
  rewrite decide_False by done. unfold response_envelope. by destruct (fn payload).
Qed.

(** Updating a request without changing its payload keeps the flight consistent. *)
Lemma flight_update st id r r' t p :
  consistent st → requests st !! id = Some r → sent r' = sent r → (t, p) ∈ flight st →
  ∃ id' r'', <[id := r']> (requests st) !! id' = Some r'' ∧
    ((t = topic ∧ p = marshal (request_envelope id' (sent r''))) ∨
     (t = replyTo id' ∧ p = marshal (response_envelope id' (sent r'')))).
Proof.
  intros [Hf _ _] Hr Hs Hin. destruct (Hf _ _ Hin) as (id' & r'' & Hr'' & H).
  destruct (decide (id = id')) as [<-|Hne].
  - exists id, r'. rewrite lookup_insert_eq, Hs. split; [done|]. by simplify_eq.
  - exists id', r''. by rewrite lookup_insert_ne.
Qed.

Lemma consistent_update st id r r' :
  consistent st → requests st !! id = Some r → sent r' = sent r →
  (∀ env, got r' = Some env → env = response_envelope id (sent r)) →
  (returned r' = None ∨ returned r' = Some ErrRequestTimeout ∨ returned r' = Some (answer_of (sent r))) →
  consistent (MkSystem (flight st) (<[id := r']> (requests st))).
Proof.
  intros Hc Hr Hs Hgot Hret. split; cbn.
  - intros t p. by apply flight_update with r.
  - intros id' r'' env Hl Hg. apply lookup_insert_Some in Hl as [[<- <-]|[_ Hl]].
    + rewrite Hs. by apply Hgot.
    + by eapply (c_got st Hc).
  - intros id' r'' Hl. apply lookup_insert_Some in Hl as [[<- <-]|[_ Hl]].
    + by rewrite Hs.
    + by eapply (c_returned st Hc).
Qed.

Lemma step_consistent st st' : consistent st → step st st' → consistent st'.
Proof.
  intros Hc Hstep. destruct Hstep as [id payload st Hnew|payload st Hin|id r payload st Hin Hr
    |id r env st Hr Hret Hgot|id r st Hr Hret|i st].
  - split; cbn.
    + intros t p [Hin| [= -> ->]%list_elem_of_singleton]%elem_of_app.
      * destruct (c_flight st Hc _ _ Hin) as (id' & r & Hr & H). exists id', r.
        rewrite lookup_insert_ne by congruence. done.
      * exists id, (MkReq payload None None). rewrite lookup_insert_eq. split; [done|]. by left.
    + intros id' r env [[<- <-]|[_ Hl]]%lookup_insert_Some Hg; [done|]. by eapply (c_got st Hc).
    + intros id' r [[<- <-]|[_ Hl]]%lookup_insert_Some; [by left|]. by eapply (c_returned st Hc).
  - split; cbn; [|apply Hc|apply Hc]. intros t p [?|Hnew]%elem_of_app; [by apply (c_flight st Hc)|].
    destruct (c_flight st Hc _ _ Hin) as (id & r & Hr & [[_ ->]|[Ht _]]); [|by destruct (topic_ok id)].
    rewrite handle_request in Hnew. cbn in Hnew. apply list_elem_of_singleton in Hnew as [= -> ->].
    exists id, r. split; [done|]. by right.
  - apply consistent_update with r; [done..|cbn|exact (c_returned st Hc id r Hr)].
    destruct (c_flight st Hc _ _ Hin) as (id' & r' & Hr' & [[Ht _]|[Ht ->]]); [by destruct (topic_ok id)|].
    apply replyTo_inj in Ht as <-. simplify_eq. unfold on_reply. rewrite roundtrip. intros env.
    destruct (got r) eqn:Hg; intros; simplify_eq; [|done]. by eapply (c_got st Hc).
  - apply consistent_update with r; [done..|]. cbn. right. right.
    rewrite (c_got st Hc _ _ _ Hr Hgot). by rewrite finish_response.
  - apply consistent_update with r; [done..|intros env Hg; by eapply (c_got st Hc)|]. cbn. auto.
  - split; cbn; [|apply Hc|apply Hc]. intros t p Hin. apply (c_flight st Hc).
    rewrite delete_take_drop in Hin. rewrite <-(take_drop i (flight st)). apply elem_of_app in Hin as [?|Hin]; set_unfold; [by left|].
    right. rewrite <-(take_drop 1 (drop i (flight st))), drop_drop. apply elem_of_app. right.
    by rewrite Nat.add_1_r.
Qed.

Lemma reachable_consistent st : rtc step initial st → consistent st.
Proof.
  apply (rtc_ind_r (λ st, consistent st) initial); [|by intros; eapply step_consistent].
  split; cbn; [by intros ? ? ?%elem_of_nil|by intros ? ? ? ?%lookup_empty_Some|by intros ? ? ?%lookup_empty_Some].
Qed.

(** A request with an envelope in its channel returns. *)
Lemma received_returns st id r :
  consistent st → requests st !! id = Some r → returned r = None → is_Some (got r) →
  ∃ st' r', step st st' ∧ requests st' !! id = Some r' ∧ returned r' = Some (answer_of (sent r)).
Proof.
  intros Hc Hr Hret [env Hg]. eexists _, _. split; [by eapply step_return|]. cbn. rewrite lookup_insert_eq.
  split; [done|]. cbn. by rewrite (c_got st Hc _ _ _ Hr Hg), finish_response.
Qed.

(** C26: Whatever messages are lost, repeated or overtake each other, and however
    many requests run at the same time, a request that returns has got the
    answer of the service's function to its own payload, its error as an error,
    or a timeout; and a pending request whose message is still on its way can
    always be answered. *)
Theorem request_reply_correct st id r :
  rtc step initial st → requests st !! id = Some r →
  match returned r with
  | Some rep => rep = ErrRequestTimeout ∨ rep = answer_of (sent r)
  | None => (topic, marshal (request_envelope id (sent r))) ∈ flight st →
      ∃ st' r', rtc step st st' ∧ requests st' !! id = Some r' ∧ returned r' = Some (answer_of (sent r))
  end.
Proof.
  intros Hrtc Hr. pose proof (reachable_consistent st Hrtc) as Hc.
  destruct (returned r) as [rep|] eqn:Hret.
  - destruct (c_returned st Hc id r Hr) as [H|[H|H]]; rewrite H in Hret; simplify_eq; auto.
  - intros Hin. set (st1 := MkSystem (flight st ++ option_list (HandleRequests fn (marshal (request_envelope id (sent r)))))
                              (requests st)).
    assert (H1 : step st st1) by (by apply step_handle).
    set (r2 := MkReq (sent r) (on_reply (marshal (response_envelope id (sent r))) (got r)) (returned r)).
    set (st2 := MkSystem (flight st1) (<[id := r2]> (requests st1))).
    assert (H2 : step st1 st2).
    { apply step_reply; [|done]. unfold st1. cbn. rewrite handle_request. apply elem_of_app. right. by left. }
    assert (Hc2 : consistent st2) by (eapply step_consistent, H2; by eapply step_consistent).
    destruct (received_returns st2 id r2 Hc2) as (st' & r' & H3 & Hr' & Hret').
    { unfold st2. cbn. by rewrite lookup_insert_eq. }
    { done. }
    { unfold r2, on_reply. cbn. rewrite roundtrip. by destruct (got r); eexists. }
    exists st', r'. split; [|done]. eapply rtc_l; [exact H1|]. eapply rtc_l; [exact H2|]. by apply rtc_once.
Qed.

End Reply.

(** ** Concrete behaviour *)

(** An encoding of envelopes that can be decoded: every byte of a field is
    marked, and so is the end of the field. *)
Fixpoint ex_enc (f rest : string) : string :=
  match f with
  | String.EmptyString => String.String "."%char rest
  | String.String c f => String.String "c"%char (String.String c (ex_enc f rest))
  end.

Fixpoint ex_dec (s : string) : option (string * string) :=
  match s with
  | String.String "."%char rest => Some ("", rest)
  | String.String "c"%char (String.String c s) =>
      match ex_dec s with Some (f, rest) => Some (String.String c f, rest) | None => None end
  | _ => None
  end.

Definition ex_marshal (e : ReplyEnvelope) : string :=
  String.String (if IsError e then "1" else "0")%char
    (ex_enc (CorrelationID e) (ex_enc (ReplyTo e) (ex_enc (Payload e) ""))).

Definition ex_unmarshal (s : string) : option ReplyEnvelope :=
  match s with
  | String.String b s =>
      match ex_dec s with
      | Some (c, s) =>
          match ex_dec s with
          | Some (r, s) =>
              match ex_dec s with
              | Some (p, _) => Some (MkEnv c r (bool_decide (b = "1"%char)) p)
              | None => None
              end
          | None => None
          end
      | None => None
      end
  | String.EmptyString => None
  end.

Lemma ex_dec_enc f rest : ex_dec (ex_enc f rest) = Some (f, rest).
Proof. induction f as [|c f IH]; cbn; [done|]. by rewrite IH. Qed.

Lemma ex_roundtrip e : ex_unmarshal (ex_marshal e) = Some e.
Proof. unfold ex_marshal, ex_unmarshal. rewrite !ex_dec_enc. by destruct e as [c r [] p]. Qed.

Definition ex_fn (payload : string) : string + string := inr (payload +:+ "!").

(** One request on its way. *)
Definition ex_system : system :=
  MkSystem [("svc", ex_marshal (request_envelope "1" "hi"))] {["1" := MkReq "hi" None None]}.

Lemma request_reply_correct_witness :
  ∃ st' r', rtc (step ex_marshal ex_unmarshal "svc" ex_fn) ex_system st' ∧ requests st' !! "1" = Some r' ∧
    returned r' = Some (Replied "hi!").
Proof.
  apply (request_reply_correct ex_marshal ex_unmarshal "svc" ex_fn ex_roundtrip (λ e, ltac:(done)) (λ id, ltac:(done))
           ex_system "1" (MkReq "hi" None None)).
  - apply rtc_once. change ex_system with (MkSystem (flight initial ++ [("svc", ex_marshal (request_envelope "1" "hi"))])
      (<["1" := MkReq "hi" None None]> (requests initial))). by apply step_request.
  - done.
  - by left.
Defined.

(** [Request] compares no correlation id: a reply to another request, or any
    JSON object, is taken for the answer. *)
Theorem correlation_unchecked payload p :
  ex_unmarshal payload = Some (MkEnv "other" "" false p) →
  finish_request <$> on_reply ex_unmarshal payload None = Some (Replied p).
Proof. unfold on_reply. by intros ->. Qed.
