(* ===== verification/IpFilter.v ===== *)
(** * plugins/middleware/ip_filter.go: the IP filter

    The configuration, the parsing of its list, the choice of the client address
    and the decision.  The context of gin is what the filter reads of it: the
    path, the headers and [ClientIP].  The GeoIP database is a parameter that
    answers a country or an error. *)

From Stdlib Require Import Ascii.
From S2P Require Import Prelude GoString Orm.

Open Scope Z_scope.

(** ** Go's package net: addresses and networks

    [net.ParseIP], [net.ParseCIDR] and [IPNet.Contains] as the filter uses
    them.  An address is its 128 bits, most significant first; IPv4 addresses
    are those of [::ffff:0:0/96], as the package keeps them. *)

(** The first 96 bits of an IPv4 address, and the address of four bytes. *)
Definition v4prefix : Z := 65535 * 2 ^ 32.
Definition v4 (a : Z) : Z := v4prefix + a.

(** [IP.To4]. *)
Definition to4 (ip : Z) : option Z := if Z.shiftr ip 32 =? 65535 then Some (Z.land ip (Z.ones 32)) else None.

(** *** Parsing *)

(** [parseIPv4Fields]: the fields read so far (from [acc]), the value and the
    number of digits of the current one.  A dot needs a digit before it and
    something after it. *)
Fixpoint ipv4_fields (s : string) (pos acc val digits : Z) : option Z :=
  match s with
  | String.EmptyString => if (pos =? 3) && (0 <? digits) then Some (acc * 256 + val) else None
  | String.String c s =>
      match GoStrconv.digit c with
      | Some d =>
          if (digits =? 1) && (val =? 0) then None
          else
            let val := val * 10 + d in
            if 255 <? val then None else ipv4_fields s pos acc val (digits + 1)
      | None =>
          if decide (c = "."%char) then
            if (digits =? 0) || (pos =? 3) then None
            else ipv4_fields s (pos + 1) (acc * 256 + val) 0 0
          else None
      end
  end.

Definition parseIPv4Fields (s : string) : option Z := ipv4_fields s 0 0 0 0.

Definition hex_digit (c : ascii) : option Z :=
  let b := byte_of c in
  if within 48 57 b then Some (b - 48)
  else if within 97 102 b then Some (b - 87)
  else if within 65 70 b then Some (b - 55)
  else None.

(** The digits of a group: value, number of digits and the rest; more than four
    digits fail. *)
Fixpoint hex_group (s : string) (acc n : Z) : option (Z * Z * string) :=
  match s with
  | String.String c s' =>
      match hex_digit c with
      | Some d => if 3 <? n then None else hex_group s' (acc * 16 + d) (n + 1)
      | None => Some (acc, n, s)
      end
  | String.EmptyString => Some (acc, n, s)
  end.

(** The loop of [parseIPv6] over groups: [ip] holds the [i] bytes read so far,
    [ell] the position of the ellipsis.  Each round reads two bytes, so eight
    rounds are enough.  The result is the bytes read, their number, the ellipsis
    and whether the string was used up. *)
Fixpoint ipv6_groups (fuel : nat) (s : string) (ip i : Z) (ell : option Z) : option (Z * Z * option Z) :=
  match fuel with
  | O => if decide (s = "") then Some (ip, i, ell) else None
  | S fuel =>
      match hex_group s 0 0 with
      | None => None
      | Some (acc, n, rest) =>
          if n =? 0 then None
          else
            match rest with
            | String.String c rest' =>
                if decide (c = "."%char) then
                  if bool_decide (ell = None) && negb (i =? 12) then None
                  else if 16 <? i + 4 then None
                  else match parseIPv4Fields s with
                       | Some a => Some (ip * 2 ^ 32 + a, i + 4, ell)
                       | None => None
                       end
                else if decide (c = ":"%char) then
                  match rest' with
                  | String.EmptyString => None
                  | String.String c' rest'' =>
                      if decide (c' = ":"%char) then
                        match ell with
                        | Some _ => None
                        | None =>
                            if decide (rest'' = "") then Some (ip * 65536 + acc, i + 2, Some (i + 2))
                            else ipv6_groups fuel rest'' (ip * 65536 + acc) (i + 2) (Some (i + 2))
                        end
                      else ipv6_groups fuel rest' (ip * 65536 + acc) (i + 2) ell
                  end
                else None
            | String.EmptyString => Some (ip * 65536 + acc, i + 2, ell)
            end
      end
  end.

(** The bytes before the ellipsis stay, those after it move to the end. *)
Definition expand (r : Z * Z * option Z) : option Z :=
  let '(ip, i, ell) := r in
  if i <? 16 then
    match ell with
    | None => None
    | Some e =>
        let low := 8 * (i - e) in
        Some (Z.shiftl (Z.shiftr ip low) (128 - 8 * e) + Z.land ip (Z.ones low))
    end
  else match ell with Some _ => None | None => Some ip end.

(** Without a zone: [net.ParseIP] refuses addresses with one. *)
Definition parseIPv6 (s : string) : option Z :=
  match s with
  | String.String ":"%char (String.String ":"%char rest) =>
      if decide (rest = "") then Some 0
      else match ipv6_groups 8 rest 0 0 (Some 0) with Some r => expand r | None => None end
  | _ => match ipv6_groups 8 s 0 0 None with Some r => expand r | None => None end
  end.

(** The first dot, colon or percent sign decides; a zone fails either way. *)
Fixpoint first_of (s : string) : option ascii :=
  match s with
  | String.EmptyString => None
  | String.String c s => if decide (c ∈ ["."%char; ":"%char; "%"%char]) then Some c else first_of s
  end.

Fixpoint has_char (c : ascii) (s : string) : bool :=
  match s with
  | String.EmptyString => false
  | String.String d s => bool_decide (d = c) || has_char c s
  end.

(** [netip.ParseAddr] restricted to addresses without a zone: the address and
    its number of bits. *)
Definition parse_addr (s : string) : option (Z * Z) :=
  match first_of s with
  | Some "."%char => match parseIPv4Fields s with Some a => Some (v4 a, 32) | None => None end
  | Some ":"%char =>
      if has_char "%"%char s then None else match parseIPv6 s with Some a => Some (a, 128) | None => None end
  | _ => None
  end.

Definition ParseIP (s : string) : option Z := match parse_addr s with Some (a, _) => Some a | None => None end.

(** *** Networks *)

(** [CIDRMask(n, bits)] as a number of [bits] bits. *)
Definition CIDRMask (n bits : Z) : Z := Z.shiftl (Z.ones n) (bits - n).

(** An [IPNet]: address and mask of 32 or 128 bits. *)
Record IPNet := MkNet {
  net_bits : Z;
  net_ip : Z;
  net_mask : Z
}.

(** [strings.Cut] at the first slash. *)
Fixpoint cut_slash (s : string) : option (string * string) :=
  match s with
  | String.EmptyString => None
  | String.String c s =>
      if decide (c = "/"%char) then Some ("", s)
      else match cut_slash s with Some (a, b) => Some (String.String c a, b) | None => None end
  end.

(** [dtoi] of the whole string: digits only, below the package's limit. *)
Definition dtoi (s : string) : option Z :=
  match s with
  | String.EmptyString => None
  | _ => match GoStrconv.digits s 0 with
         | Some n => if 16777215 <=? n then None else Some n
         | None => None
         end
  end.

(** The address is masked with a mask of its own length; an IPv4 network has
    four bytes. *)
Definition ParseCIDR (s : string) : option IPNet :=
  match cut_slash s with
  | None => None
  | Some (addr, mask) =>
      match parse_addr addr, dtoi mask with
      | Some (ip, bits), Some n =>
          if bits <? n then None
          else
            let m := CIDRMask n bits in
            Some (MkNet bits (Z.land (if bits =? 32 then Z.land ip (Z.ones 32) else ip) m) m)
      | _, _ => None
      end
  end.

(** [networkNumberAndMask]: a network of 128 bits that lies in the IPv4 range
    is one of 32 bits with the last part of the mask. *)
Definition network_number (n : IPNet) : Z * Z * Z :=
  if net_bits n =? 32 then (32, net_ip n, net_mask n)
  else match to4 (net_ip n) with
       | Some a => (32, a, Z.land (net_mask n) (Z.ones 32))
       | None => (128, net_ip n, net_mask n)
       end.

Definition Net_Contains (n : IPNet) (ip : Z) : bool :=
  let '(bits, nn, m) := network_number n in
  let '(len, x) := match to4 ip with Some a => (32, a) | None => (128, ip) end in
  (len =? bits) && (Z.land nn m =? Z.land x m).

(** *** Parsed addresses are addresses *)

Lemma digit_range c d : GoStrconv.digit c = Some d → 0 <= d <= 9.
Proof.
  unfold GoStrconv.digit. destruct (_ && _) eqn:E; [|done]. apply andb_prop in E as [?%Z.leb_le ?%Z.leb_le].
  intros [= <-]. lia.
Qed.

Lemma within_spec lo hi b : within lo hi b = true ↔ lo <= b <= hi.
Proof. unfold within. rewrite andb_true_iff, !Z.leb_le. done. Qed.

Lemma hex_digit_range c d : hex_digit c = Some d → 0 <= d <= 15.
Proof.
  unfold hex_digit. destruct (within 48 57 _) eqn:E1; [apply within_spec in E1; intros [= <-]; lia|].
  destruct (within 97 102 _) eqn:E2; [apply within_spec in E2; intros [= <-]; lia|].
  destruct (within 65 70 _) eqn:E3; [apply within_spec in E3; intros [= <-]; lia|done].
Qed.

Lemma ipv4_fields_range s pos acc val digits a :
  0 <= pos <= 3 → 0 <= acc < 256 ^ pos → 0 <= val <= 255 → ipv4_fields s pos acc val digits = Some a → 0 <= a < 2 ^ 32.
Proof.
  revert pos acc val digits. induction s as [|c s IH]; intros pos acc val digits Hp Ha Hv; cbn.
  - destruct ((pos =? 3) && (0 <? digits)) eqn:E; [|done]. apply andb_prop in E as [->%Z.eqb_eq _].
    change (256 ^ 3) with 16777216 in Ha. intros [= <-]. lia.
  - destruct (GoStrconv.digit c) as [d|] eqn:Ed.
    + apply digit_range in Ed. destruct (_ && _); [done|]. destruct (Z.ltb_spec 255 (val * 10 + d)); [done|].
      apply IH; lia.
    + case_decide; [|done]. destruct (digits =? 0); [done|]. destruct (Z.eqb_spec pos 3); [done|]. cbn.
      apply IH; [lia| |lia]. rewrite Z.pow_add_r by lia. lia.
Qed.

Lemma parseIPv4_range s a : parseIPv4Fields s = Some a → 0 <= a < 2 ^ 32.
Proof. apply ipv4_fields_range; [lia|cbn; lia|lia]. Qed.

Lemma hex_group_range s acc n v m rest :
  0 <= n <= 4 → 0 <= acc < 16 ^ n → hex_group s acc n = Some (v, m, rest) → 0 <= v < 65536.
Proof.
  revert acc n. assert (Hend : ∀ acc n, 0 <= n <= 4 → 0 <= acc < 16 ^ n → 0 <= acc < 65536).
  { intros acc n Hn Ha. assert (16 ^ n <= 16 ^ 4) by (apply Z.pow_le_mono_r; lia). change (16 ^ 4) with 65536 in *. lia. }
  induction s as [|c s IH]; intros acc n Hn Ha; cbn.
  - intros; simplify_eq. by eapply Hend.
  - destruct (hex_digit c) as [d|] eqn:Ed; [|intros; simplify_eq; by eapply Hend].
    apply hex_digit_range in Ed. destruct (Z.ltb_spec 3 n); [done|]. apply IH; [lia|].
    rewrite Z.pow_add_r by lia. lia.
Qed.

Lemma append_bytes ip i x k : 0 <= i → 0 <= k → 0 <= ip < 2 ^ (8 * i) → 0 <= x < 2 ^ (8 * k) →
  0 <= ip * 2 ^ (8 * k) + x < 2 ^ (8 * (i + k)).
Proof. intros. rewrite Z.mul_add_distr_l, Z.pow_add_r by lia. nia. Qed.

Definition group_ok (r : Z * Z * option Z) : Prop :=
  let '(ip, i, ell) := r in
  0 <= i <= 16 ∧ 0 <= ip < 2 ^ (8 * i) ∧ match ell with Some e => 0 <= e <= i | None => True end.

Lemma ipv6_groups_ok fuel s ip i ell r :
  group_ok (ip, i, ell) → i + 2 * Z.of_nat fuel <= 16 → ipv6_groups fuel s ip i ell = Some r → group_ok r.
Proof.
  revert s ip i ell. induction fuel as [|fuel IH]; intros s ip i ell Hok Hf; cbn [ipv6_groups].
  { case_decide; intros; by simplify_eq. }
  destruct Hok as (Hi & Hip & Hell).
  destruct (hex_group s 0 0) as [[[acc n] rest]|] eqn:Eg; [|done].
  apply hex_group_range in Eg; [|lia|cbn; lia]. destruct (n =? 0); [done|].
  assert (Hnext : ∀ e, match e with Some e => 0 <= e <= i + 2 | None => True end → group_ok (ip * 65536 + acc, i + 2, e)).
  { intros e He. split; [lia|]. split; [|done]. apply (append_bytes ip i acc 2); cbn; lia. }
  assert (Hell' : match ell with Some e => 0 <= e <= i + 2 | None => True end) by (destruct ell; [lia|done]).
  destruct rest as [|c rest]; [intros [= <-]; by apply Hnext|].
  case_decide.
  - destruct (_ && _); [done|]. destruct (Z.ltb_spec 16 (i + 4)); [done|].
    destruct (parseIPv4Fields s) as [a|] eqn:Ea; [|done]. apply parseIPv4_range in Ea. intros [= <-].
    split; [lia|]. split; [apply (append_bytes ip i a 4); cbn; lia|]. destruct ell; [lia|done].
  - case_decide; [|done]. destruct rest as [|c' rest]; [done|]. case_decide.
    + destruct ell; [done|]. assert (group_ok (ip * 65536 + acc, i + 2, Some (i + 2))) by (apply Hnext; lia).
      case_decide; [intros; by simplify_eq|]. apply IH; [done|lia].
    + apply IH; [by apply Hnext|lia].
Qed.

Lemma expand_range r a : group_ok r → expand r = Some a → 0 <= a < 2 ^ 128.
Proof.
  destruct r as [[ip i] ell]. intros (Hi & Hip & Hell). unfold expand.
  destruct (Z.ltb_spec i 16) as [Hlt|Hge].
  - destruct ell as [e|]; [|done]. intros [= <-]. set (low := 8 * (i - e)).
    rewrite Z.land_ones, Z.shiftl_mul_pow2, Z.shiftr_div_pow2 by lia.
    assert (Hm : 0 <= ip mod 2 ^ low < 2 ^ low) by (apply Z.mod_pos_bound, Z.pow_pos_nonneg; lia).
    assert (Hd : 0 <= ip / 2 ^ low < 2 ^ (8 * e)).
    { split; [apply Z.div_pos; [lia|apply Z.pow_pos_nonneg; lia]|]. apply Z.div_lt_upper_bound; [apply Z.pow_pos_nonneg; lia|].
      rewrite <-Z.pow_add_r by lia. replace (low + 8 * e) with (8 * i) by lia. lia. }
    assert (H1 : 2 ^ low <= 2 ^ (128 - 8 * e)) by (apply Z.pow_le_mono_r; lia).
    assert (H2 : 2 ^ 128 = 2 ^ (8 * e) * 2 ^ (128 - 8 * e)) by (rewrite <-Z.pow_add_r by lia; f_equal; lia).
    rewrite H2. nia.
  - destruct ell; [done|]. intros [= <-]. by replace i with 16 in Hip by lia.
Qed.

Lemma parse_addr_range s a bits : parse_addr s = Some (a, bits) → 0 <= a < 2 ^ 128 ∧ (bits = 32 ∧ is_Some (to4 a) ∨ bits = 128).
Proof.
  unfold parse_addr. destruct (first_of s) as [c|]; [|done].
  assert (H6 : ∀ t a, parseIPv6 t = Some a → 0 <= a < 2 ^ 128).
  { intros t b. unfold parseIPv6.
    assert (Hg : ∀ u e r, ipv6_groups 8 u 0 0 e = Some r → e = None ∨ e = Some 0 → expand r = Some b → 0 <= b < 2 ^ 128).
    { intros u e r Er He. apply expand_range. apply (ipv6_groups_ok 8 u 0 0 e r); [|lia|exact Er]. split; [lia|]. split; [cbn; lia|].
      destruct He as [->| ->]; [done|lia]. }
    repeat case_match; try done; first [intros [= <-]; lia|eapply Hg; eauto]. }
  destruct (decide (c = "."%char)) as [->|]; [|destruct (decide (c = ":"%char)) as [->|]].
  - destruct (parseIPv4Fields s) as [x|] eqn:Ex; [|done]. intros [= <- <-]. apply parseIPv4_range in Ex.
    unfold v4, v4prefix. split; [lia|]. left. split; [done|]. unfold to4.
    rewrite Z.shiftr_div_pow2, Z.add_comm, Z.div_add, Z.div_small by lia. by eexists.
  - destruct (has_char _ s); [done|]. destruct (parseIPv6 s) as [x|] eqn:Ex; [|done].
    intros [= <- <-]. split; [by eapply H6|by right].
  - repeat case_match; simplify_eq; done.
Qed.

(** *** Networks as prefixes *)

(** Masking keeps the first [n] bits. *)
Lemma land_CIDRMask a n bits :
  0 <= n <= bits → 0 <= a < 2 ^ bits → Z.land a (CIDRMask n bits) = a / 2 ^ (bits - n) * 2 ^ (bits - n).
Proof.
  intros Hn Ha. unfold CIDRMask. set (k := bits - n).
  assert (Hk : 0 <= k) by lia.
  replace (Z.land a (Z.shiftl (Z.ones n) k)) with (Z.shiftl (Z.land (Z.shiftr a k) (Z.ones n)) k).
  - rewrite Z.land_ones, Z.shiftl_mul_pow2, Z.shiftr_div_pow2 by lia. f_equal. apply Z.mod_small.
    split; [apply Z.div_pos; [lia|apply Z.pow_pos_nonneg; lia]|]. apply Z.div_lt_upper_bound; [apply Z.pow_pos_nonneg; lia|].
    rewrite <-Z.pow_add_r by lia. replace (k + n) with bits by lia. lia.
  - apply Z.bits_inj'. intros i Hi. rewrite Z.shiftl_spec, Z.land_spec, Z.land_spec, Z.shiftl_spec by done.
    destruct (Z.ltb_spec i k).
    + rewrite !(Z.testbit_neg_r _ (i - k)) by lia. by rewrite !andb_false_r.
    + rewrite Z.shiftr_spec by lia. by replace (i - k + k) with i by lia.
Qed.

Lemma mask_eq a b n bits :
  0 <= n <= bits → 0 <= a < 2 ^ bits → 0 <= b < 2 ^ bits →
  Z.land a (CIDRMask n bits) = Z.land b (CIDRMask n bits) ↔ a / 2 ^ (bits - n) = b / 2 ^ (bits - n).
Proof.
  intros Hn Ha Hb. rewrite !land_CIDRMask by done. split; [|by intros ->].
  intros H. apply Z.mul_reg_r in H; [done|]. apply Z.pow_nonzero; lia.
Qed.

Lemma to4_range ip a : to4 ip = Some a → 0 <= a < 2 ^ 32.
Proof.
  unfold to4. destruct (_ =? _); [|done]. intros [= <-]. rewrite Z.land_ones by lia. apply Z.mod_pos_bound. lia.
Qed.

Lemma dtoi_nonneg s n : dtoi s = Some n → 0 <= n.
Proof.
  assert (H : ∀ t acc m, 0 <= acc → GoStrconv.digits t acc = Some m → 0 <= m).
  { induction t as [|c t IH]; intros acc m Ha; cbn; [intros; by simplify_eq|].
    destruct (GoStrconv.digit c) as [d|] eqn:Ed; [|done]. apply digit_range in Ed. apply IH. lia. }
  unfold dtoi. destruct s; [done|]. case_match eqn:E; [|done]. case_match; [done|]. intros [= <-]. by eapply H, E.
Qed.

(** An IPv4 network [base/n] contains exactly the IPv4 addresses whose first
    [n] bits are those of the base. *)
Theorem v4_network_contains s addr mask base n ip net :
  cut_slash s = Some (addr, mask) → parseIPv4Fields addr = Some base → first_of addr = Some "."%char →
  dtoi mask = Some n → ParseCIDR s = Some net →
  Net_Contains net ip = true ↔ ∃ a, to4 ip = Some a ∧ a / 2 ^ (32 - n) = base / 2 ^ (32 - n).
Proof.
  intros Hcut Hbase Hfirst Hn. unfold ParseCIDR, parse_addr. rewrite Hcut, Hfirst, Hbase, Hn.
  pose proof (parseIPv4_range _ _ Hbase) as Hb. pose proof (dtoi_nonneg _ _ Hn) as Hn0.
  destruct (Z.ltb_spec 32 n); [done|]. intros [= <-].
  assert (Hland : Z.land (v4 base) (Z.ones 32) = base).
  { rewrite Z.land_ones by lia. unfold v4, v4prefix. rewrite Z.add_comm, Z.mod_add by lia. by apply Z.mod_small. }
  change (32 =? 32) with true. cbv iota. rewrite Hland. unfold Net_Contains, network_number. cbn [net_bits net_ip net_mask].
  change (32 =? 32) with true. cbv iota. rewrite <-Z.land_assoc, Z.land_diag.
  destruct (to4 ip) as [a|] eqn:Ha.
  - change (32 =? 32) with true. rewrite andb_true_l, Z.eqb_eq, mask_eq by (try lia; by eapply to4_range).
    split; [intros H'; by exists a|]. by intros (a' & [= <-] & ->).
  - split; [done|]. by intros (a & ? & _).
Qed.

(** An IPv6 network outside the IPv4 range contains exactly the IPv6 addresses
    with its prefix, and no IPv4 address. *)
Theorem v6_network_contains s addr mask base n ip net :
  cut_slash s = Some (addr, mask) → parse_addr addr = Some (base, 128) → dtoi mask = Some n →
  to4 (Z.land base (CIDRMask n 128)) = None → 0 <= ip < 2 ^ 128 → ParseCIDR s = Some net →
  Net_Contains net ip = true ↔ to4 ip = None ∧ ip / 2 ^ (128 - n) = base / 2 ^ (128 - n).
Proof.
  intros Hcut Hbase Hn Hout Hip. unfold ParseCIDR. rewrite Hcut, Hbase, Hn.
  pose proof (proj1 (parse_addr_range _ _ _ Hbase)) as Hb. pose proof (dtoi_nonneg _ _ Hn) as Hn0.
  destruct (Z.ltb_spec 128 n); [done|]. intros [= <-]. change (128 =? 32) with false. cbv iota.
  unfold Net_Contains, network_number. cbn [net_bits net_ip net_mask]. change (128 =? 32) with false. cbv iota.
  rewrite Hout. destruct (to4 ip) as [a|] eqn:Ha; [split; [done|by intros [? _]]|].
  change (128 =? 128) with true. rewrite andb_true_l, Z.eqb_eq, <-Z.land_assoc, Z.land_diag, mask_eq by lia.
  split; [intros ->; done|by intros [_ ->]].
Qed.

(** *** Examples *)

Example parse_v4 : ParseIP "192.168.1.7" = Some (v4 3232235783).
Proof. vm_compute. done. Qed.

Example parse_v6 : ParseIP "2001:db8::1" = Some (42540766411282592856903984951653826561).
Proof. vm_compute. done. Qed.

Example parse_all : ParseIP "::" = Some 0 ∧ ParseIP "::1" = Some 1 ∧ ParseIP "1::" = Some (2 ^ 112).
Proof. vm_compute. done. Qed.

(** The mapped notation is the same address. *)
Example parse_mapped : ParseIP "::ffff:1.2.3.4" = ParseIP "1.2.3.4".
Proof. vm_compute. done. Qed.

Example parse_full : ParseIP "1:2:3:4:5:6:7:8" = ParseIP "0001:2:3:4:5:6:0.7.0.8".
Proof. vm_compute. done. Qed.

Example parse_bad :
  ParseIP <$> [""; "1.2.3"; "1.2.3.4.5"; "01.2.3.4"; "1.2.3.256"; "1..2.3"; "1.2.3."; ".1.2.3"; "1:2:3:4:5:6:7";
               "1:2:3:4:5:6:7:8:9"; "::1::"; "1:2:3:4:5:6:7::8"; "12345::"; "fe80::1%eth0"; "1:"; ":1"; "1:2:1.2.3.4"] =
  [None; None; None; None; None; None; None; None; None; None; None; None; None; None; None; None; None].
Proof. vm_compute. done. Qed.

Example cidr_contains :
  (λ n, (Net_Contains n <$> ParseIP "10.1.255.7", Net_Contains n <$> ParseIP "10.2.0.1", Net_Contains n <$> ParseIP "::ffff:10.1.0.9"))
    <$> ParseCIDR "10.1.3.4/16" = Some (Some true, Some false, Some true).
Proof. vm_compute. done. Qed.

(** ** The configuration *)

(** [IPFilterMode] is a string type. *)
Definition IPFilterModeBlacklist : string := "blacklist".
Definition IPFilterModeWhitelist : string := "whitelist".

Record IPFilterConfig := MkFilterConfig {
  Enabled : bool;
  Mode : string;
  IPList : list string;
  CountryBlacklist : list string;
  CountryWhitelist : list string;
  EnableGeoIP : bool;
  GeoIPDBPath : string;
  BlockMessage : string;
  BlockStatusCode : Z;
  SkipPaths : list string;
  TrustProxy : bool;
  ipNets : list IPNet;
  geoip : option (string → option string)   (** [GetCountry]; [None] inside is an error *)
}.

Definition DefaultIPFilterConfig : IPFilterConfig :=
  MkFilterConfig false IPFilterModeBlacklist [] [] [] false "" "Access denied" 403 ["/health"; "/metrics"; "/ping"]
    true [] None.

(** What the filter reads of a request. *)
Record request := MkRequest {
  path : string;
  GetHeader : string → string;
  ClientIP : string
}.

(** Opening the database: [open] is [geoip.NewManager]. *)
Definition InitGeoIP (open : string → result (string → option string)) (c : IPFilterConfig) :
    IPFilterConfig * option GoError.error :=
  if negb (EnableGeoIP c) then (c, None)
  else
    let with_geoip g := MkFilterConfig (Enabled c) (Mode c) (IPList c) (CountryBlacklist c) (CountryWhitelist c)
      (EnableGeoIP c) (GeoIPDBPath c) (BlockMessage c) (BlockStatusCode c) (SkipPaths c) (TrustProxy c) (ipNets c) g in
    match open (GeoIPDBPath c) with
    | Ok g => (with_geoip (Some g), None)
    | Err e => (with_geoip None, Some e)
    end.

(** Entries with a slash that parse are networks; others are dropped. *)
Definition newIPFilterMiddleware (c : IPFilterConfig) : IPFilterConfig :=
  MkFilterConfig (Enabled c) (Mode c) (IPList c) (CountryBlacklist c) (CountryWhitelist c) (EnableGeoIP c)
    (GeoIPDBPath c) (BlockMessage c) (BlockStatusCode c) (SkipPaths c) (TrustProxy c)
    (ipNets c ++ omap (λ ip, if has_char "/"%char ip then ParseCIDR ip else None) (IPList c)) (geoip c).

Definition shouldSkip (path : string) (c : IPFilterConfig) : bool := existsb (HasPrefix path) (SkipPaths c).

Definition getClientIP (r : request) (c : IPFilterConfig) : string :=
  if TrustProxy c then
    if decide (GetHeader r "X-Forwarded-For" ≠ "") then
      TrimSpace (default "" (head (Split ","%char (GetHeader r "X-Forwarded-For"))))
    else if decide (GetHeader r "X-Real-Ip" ≠ "") then GetHeader r "X-Real-Ip"
    else ClientIP r
  else ClientIP r.

Definition isInIPList (ip : string) (c : IPFilterConfig) : bool :=
  match ParseIP ip with
  | None => false
  | Some clientIP => bool_decide (ip ∈ IPList c) || existsb (λ n, Net_Contains n clientIP) (ipNets c)
  end.

Definition isCountryBlocked (ip : string) (c : IPFilterConfig) : bool * string :=
  match geoip c with
  | Some getCountry =>
      if EnableGeoIP c then
        match getCountry ip with
        | None => (false, "")
        | Some country =>
            if decide (CountryWhitelist c ≠ []) then
              (negb (existsb (λ w, EqualFold w country) (CountryWhitelist c)), country)
            else (existsb (λ b, EqualFold b country) (CountryBlacklist c), country)
        end
      else (false, "")
  | None => (false, "")
  end.

Definition isBlocked (ip : string) (c : IPFilterConfig) : option string :=
  let country := isCountryBlocked ip c in
  if EnableGeoIP c && country.1 then Some ("country " +:+ country.2 +:+ " blocked")
  else
    let inList := isInIPList ip c in
    if decide (Mode c = IPFilterModeWhitelist) then if inList then None else Some "not in whitelist"
    else if decide (Mode c = IPFilterModeBlacklist) then if inList then Some "in blacklist" else None
    else None.

(** [Handle]: the request goes on, with the client address in the context or
    not, or is answered with the status, the address and the reason. *)
Inductive verdict :=
| Pass (client_ip : option string)
| Block (code : Z) (ip reason : string).

Definition Handle (r : request) (c : IPFilterConfig) : verdict :=
  if negb (Enabled c) then Pass None
  else if shouldSkip (path r) c then Pass None
  else
    let clientIP := getClientIP r c in
    match isBlocked clientIP c with
    | Some reason => Block (BlockStatusCode c) clientIP reason
    | None => Pass (Some clientIP)
    end.

Definition IPFilter (config : IPFilterConfig) (r : request) : verdict := Handle r (newIPFilterMiddleware config).

(** [GetClientIP] of a later handler: the value of the filter, or gin's. *)
Definition GetClientIP (stored : option string) (r : request) : string := default (ClientIP r) stored.

(** ** The decision *)

(** An address is listed when its text is an entry, or an entry is a network
    that contains it. *)
Definition listed (entries : list string) (ip : string) : Prop :=
  ∃ a, ParseIP ip = Some a ∧
    (ip ∈ entries ∨ ∃ e net, e ∈ entries ∧ has_char "/"%char e = true ∧ ParseCIDR e = Some net ∧ Net_Contains net a = true).

Lemma isInIPList_listed c ip :
  ipNets c = [] → isInIPList ip (newIPFilterMiddleware c) = true ↔ listed (IPList c) ip.
Proof.
  intros Hn. unfold isInIPList, listed. cbn. rewrite Hn, app_nil_l.
  destruct (ParseIP ip) as [a|]; [|split; [done|by intros (a & ? & _)]].
  rewrite orb_true_iff, bool_decide_eq_true, existsb_exists. setoid_rewrite <-list_elem_of_In.
  setoid_rewrite list_elem_of_omap. split.
  - intros [?|(net & (e & He & Hc) & Hin)]; exists a; [eauto|]. split; [done|]. right.
    destruct (has_char "/"%char e) eqn:Hs; [|done]. eauto 10.
  - intros (a' & [= <-] & [?|(e & net & He & Hs & Hc & Hin)]); [by left|]. right. exists net. split; [|done].
    exists e. by rewrite Hs.
Qed.

(** The country is acceptable, or unknown. *)
Definition country_ok (c : IPFilterConfig) (ip : string) : Prop :=
  ∀ g country, geoip c = Some g → EnableGeoIP c = true → g ip = Some country →
    if decide (CountryWhitelist c ≠ []) then ∃ w, w ∈ CountryWhitelist c ∧ EqualFold w country = true
    else ∀ b, b ∈ CountryBlacklist c → EqualFold b country = false.

Lemma isCountryBlocked_ok c ip : (EnableGeoIP c && (isCountryBlocked ip c).1) = false ↔ country_ok c ip.
Proof.
  unfold isCountryBlocked, country_ok. destruct (geoip c) as [g|], (EnableGeoIP c); cbn; try (split; [by intros _ g' c' ? ?|done]).
  destruct (g ip) as [country|] eqn:Eg; cbn; [|split; [intros _ g' c' [= <-] _; congruence|done]]. case_decide as E; cbn.
  - rewrite negb_false_iff, existsb_exists. setoid_rewrite <-list_elem_of_In. split.
    + intros (w & Hw & Heq) g' c' [= <-] _ Hg'. rewrite Eg in Hg'. injection Hg' as <-. by exists w.
    + intros H. by apply (H g country).
  - split.
    + intros H g' c' [= <-] _ Hg' b Hb. rewrite Eg in Hg'. injection Hg' as <-. destruct (EqualFold b country) eqn:Eb; [|done].
      assert (existsb (λ b, EqualFold b country) (CountryBlacklist c) = true); [|congruence].
      apply existsb_exists. exists b. by rewrite <-list_elem_of_In.
    + intros H. apply not_true_is_false. rewrite existsb_exists. intros (b & Hb & Heq).
      rewrite (H g country eq_refl eq_refl Eg b) in Heq; [done|]. by apply list_elem_of_In.
Qed.

(** A request is let through exactly when the filter is off, its path is
    exempt, or the country of the client's address is acceptable and the address
    is listed (white list) or not listed (black list), where an address is
    listed when its text is an entry or an entry is a network that contains it. *)
Theorem IPFilter_decides c r :
  ipNets c = [] → Mode c = IPFilterModeWhitelist ∨ Mode c = IPFilterModeBlacklist →
  let ip := getClientIP r c in
  (∃ o, IPFilter c r = Pass o) ↔
  Enabled c = false ∨ (∃ p, p ∈ SkipPaths c ∧ HasPrefix (path r) p = true) ∨
  (country_ok c ip ∧ (listed (IPList c) ip ↔ Mode c = IPFilterModeWhitelist)).
Proof.
  intros Hn Hmode ip. unfold IPFilter, Handle, shouldSkip. cbn.
  assert (Hskip : existsb (HasPrefix (path r)) (SkipPaths c) = true ↔ ∃ p, p ∈ SkipPaths c ∧ HasPrefix (path r) p = true).
  { rewrite existsb_exists. by setoid_rewrite <-list_elem_of_In. }
  destruct (Enabled c); cbn; [|naive_solver].
  destruct (existsb _ _) eqn:Es; [split; [intros _; right; left; by apply Hskip|by eexists]|].
  change (getClientIP r (newIPFilterMiddleware c)) with ip.
  pose proof (isInIPList_listed c ip Hn) as Hl.
  pose proof (isCountryBlocked_ok (newIPFilterMiddleware c) ip) as Hc.
  change (country_ok (newIPFilterMiddleware c) ip) with (country_ok c ip) in Hc.
  unfold isBlocked. change (EnableGeoIP (newIPFilterMiddleware c)) with (EnableGeoIP c) in *.
  change (Mode (newIPFilterMiddleware c)) with (Mode c).
  assert (Hno : ¬ ∃ p, p ∈ SkipPaths c ∧ HasPrefix (path r) p = true) by (rewrite <-Hskip; congruence).
  destruct (EnableGeoIP c && _).
  { split; [by intros [? ?]|]. intros [?|[?|[Hok _]]]; [done..|]. by apply Hc in Hok. }
  assert (Hok : country_ok c ip) by (by apply Hc).
  destruct (isInIPList ip (newIPFilterMiddleware c)) eqn:Ein.
  - assert (Hli : listed (IPList c) ip) by (by apply Hl).
    destruct Hmode as [->| ->]; [rewrite decide_True by done|rewrite decide_False, decide_True by done]; naive_solver.
  - assert (Hli : ¬ listed (IPList c) ip) by (rewrite <-Hl; congruence).
    destruct Hmode as [->| ->]; [rewrite decide_True by done|rewrite decide_False, decide_True by done]; naive_solver.
Qed.

(** ** Concrete behaviour *)

Definition ex_request (path xff real direct : string) : request :=
  MkRequest path (λ h, if decide (h = "X-Forwarded-For") then xff else if decide (h = "X-Real-Ip") then real else "") direct.

Definition ex_filter (mode : string) (entries : list string) (trust : bool) : IPFilterConfig :=
  MkFilterConfig true mode entries [] [] false "" "Access denied" 403 ["/health"] trust [] None.

Lemma IPFilter_decides_witness :
  (∃ o, IPFilter (ex_filter "whitelist" ["10.0.0.0/8"] false) (ex_request "/api" "" "" "10.1.2.3") = Pass o) ↔
  true = false ∨ (∃ p, p ∈ ["/health"] ∧ HasPrefix "/api" p = true) ∨
  (country_ok (ex_filter "whitelist" ["10.0.0.0/8"] false) "10.1.2.3" ∧
   (listed ["10.0.0.0/8"] "10.1.2.3" ↔ "whitelist" = IPFilterModeWhitelist)).
Proof.
  apply (IPFilter_decides (ex_filter "whitelist" ["10.0.0.0/8"] false) (ex_request "/api" "" "" "10.1.2.3"));
    [reflexivity|by left].
Defined.

Example whitelist_by_network :
  IPFilter (ex_filter "whitelist" ["10.0.0.0/8"] false) <$>
    [ex_request "/api" "" "" "10.1.2.3"; ex_request "/api" "" "" "11.0.0.1"; ex_request "/health" "" "" "11.0.0.1"] =
  [Pass (Some "10.1.2.3"); Block 403 "11.0.0.1" "not in whitelist"; Pass None].
Proof. vm_compute. done. Qed.

(** Proxies are trusted by default and the first forwarded address is the
    client's own claim: a header gets any client past a white list, and out of
    a black list. *)
Theorem forged_header_passes direct :
  IPFilter (ex_filter "whitelist" ["10.0.0.1"] true) (ex_request "/api" "10.0.0.1" "" direct) = Pass (Some "10.0.0.1") ∧
  IPFilter (ex_filter "blacklist" ["0.0.0.0/0"] true) (ex_request "/api" "unknown" "" direct) = Pass (Some "unknown").
Proof. split; vm_compute; done. Qed.

(** Single addresses are compared as text: other notations of a black-listed
    address pass. *)
Theorem other_notation_passes :
  (λ ip, IPFilter (ex_filter "blacklist" ["2001:db8::1"; "10.0.0.1"] false) (ex_request "/api" "" "" ip)) <$>
    ["2001:db8::1"; "2001:DB8::1"; "2001:db8:0:0:0:0:0:1"; "::ffff:10.0.0.1"] =
  [Block 403 "2001:db8::1" "in blacklist"; Pass (Some "2001:DB8::1"); Pass (Some "2001:db8:0:0:0:0:0:1");
   Pass (Some "::ffff:10.0.0.1")].
Proof. vm_compute. done. Qed.

(** An entry that is not a network is dropped without a word, so is a mode that
    is misspelt; paths are exempt by prefix. *)
Theorem silent_gaps :
  IPFilter (ex_filter "blacklist" ["10.0.0.0/33"] false) (ex_request "/api" "" "" "10.0.0.1") = Pass (Some "10.0.0.1") ∧
  IPFilter (ex_filter "white-list" [] false) (ex_request "/api" "" "" "10.0.0.1") = Pass (Some "10.0.0.1") ∧
  IPFilter (ex_filter "whitelist" [] false) (ex_request "/healthcare/records" "" "" "10.0.0.1") = Pass None.
Proof. vm_compute. done. Qed.
