(* ===== verification/Alert.v ===== *)
(** * plugins/alert/alert.go: the alert manager

    [Send] to all channels and handlers; the buffered [Queue], the goroutine
    that batches and flushes, and [Close], which interleave as a step relation
    with the manager's read/write lock: a reader waits while a writer waits or
    holds it. *)

From S2P Require Import Prelude.

Open Scope Z_scope.

(** ** Alerts and channels *)

Record Alert := MkAlert {
  ID : string;
  Level : string;
  Title : string;
  Message : string;
  Source : string;
  Tags : gmap string string;
  Timestamp : Z
}.

Definition LevelDebug : string := "debug".
Definition LevelInfo : string := "info".
Definition LevelWarning : string := "warning".
Definition LevelError : string := "error".
Definition LevelCritical : string := "critical".

Record Config := MkConfig {
  Enabled : bool;
  BufferSize : Z;
  FlushInterval : Z
}.

Definition DefaultConfig : Config := MkConfig true 1000 (5 * GoTime.Second).

(** The defaults of [NewManager]. *)
Definition normalize (c : Config) : Config :=
  MkConfig (Enabled c) (if BufferSize c <=? 0 then 1000 else BufferSize c)
    (if FlushInterval c <=? 0 then 5 * GoTime.Second else FlushInterval c).

(** [generateID] and the time of an alert that has none. *)
Definition stamp (id : string) (now : Z) (a : Alert) : Alert :=
  MkAlert (if decide (ID a = "") then id else ID a) (Level a) (Title a) (Message a) (Source a) (Tags a)
    (if GoTime.IsZero (Timestamp a) then now else Timestamp a).

Section Send.
(** Channels by name, with the answer of their [Send]; handlers by level. *)
Context {H : Type}.

Record Manager := MkManager {
  config : Config;
  channels : gmap string (Alert → option GoError.error);
  handlers : gmap string (list H)
}.

Definition RegisterChannel (name : string) (ch : Alert → option GoError.error) (m : Manager) : Manager :=
  MkManager (config m) (<[name := ch]> (channels m)) (handlers m).

Definition UnregisterChannel (name : string) (m : Manager) : Manager :=
  MkManager (config m) (delete name (channels m)) (handlers m).

Definition OnAlert (level : string) (h : H) (m : Manager) : Manager :=
  MkManager (config m) (channels m) (<[level := default [] (handlers m !! level) ++ [h]]> (handlers m)).

(** What [Send] did: the handlers it started, the channels it sent to, and the
    error of the last channel that failed. *)
Fixpoint send_all (chs : gmap string (Alert → option GoError.error)) (a : Alert) (order : list string)
    (lastErr : option GoError.error) : list string * option GoError.error :=
  match order with
  | [] => ([], lastErr)
  | name :: order =>
      match chs !! name with
      | Some ch =>
          let lastErr := match ch a with
                         | Some e => Some (GoError.ErrorfW "failed to send to %s: %w" [name] e)
                         | None => lastErr
                         end in
          let r := send_all chs a order lastErr in (name :: r.1, r.2)
      | None => send_all chs a order lastErr
      end
  end.

Definition Send (id : string) (now : Z) (order : list string) (alert : Alert) (m : Manager) :
    list H * list string * option GoError.error :=
  if negb (Enabled (config m)) then ([], [], None)
  else
    let a := stamp id now alert in
    let hs := default [] (handlers m !! Level a) ++ default [] (handlers m !! "*") in
    let r := send_all (channels m) a order None in (hs, r.1, r.2).

Lemma send_all_order chs a order e :
  (∀ n, n ∈ order → is_Some (chs !! n)) → (send_all chs a order e).1 = order.
Proof.
  revert e. induction order as [|n order IH]; intros e Hall; [done|]. cbn.
  destruct (Hall n) as [ch ->]; [by left|]. cbn. f_equal. apply IH. intros. apply Hall. by right.
Qed.

Lemma send_all_err chs a order e :
  (send_all chs a order e).2 = None ↔ e = None ∧ ∀ n ch, n ∈ order → chs !! n = Some ch → ch a = None.
Proof.
  revert e. induction order as [|n order IH]; intros e; cbn.
  - split; [intros ->; split; [done|by intros ? ? ?%elem_of_nil]|tauto].
  - destruct (chs !! n) as [ch|] eqn:Hc; cbn; rewrite IH.
    + split.
      * intros [He Hall]. destruct (ch a) eqn:Ha; [done|]. split; [done|].
        intros n' ch' [->|Hin]%elem_of_cons Hl; [by simplify_eq|by eapply Hall].
      * intros [-> Hall]. rewrite (Hall n ch) by (done || by left). split; [done|]. intros n' ch' Hin. apply Hall. by right.
    + split; intros [-> Hall]; (split; [done|]).
      * intros n' ch' [->|Hin]%elem_of_cons Hl; [congruence|by eapply Hall].
      * intros n' ch' Hin. apply Hall. by right.
Qed.

(** An alert that is sent reaches every registered channel once and starts the
    handlers of its level and of all levels; the call fails exactly when a
    channel does. *)
Theorem Send_complete id now order alert m :
  Enabled (config m) = true → order ≡ₚ (map_to_list (channels m)).*1 →
  let r := Send id now order alert m in
  r.1.2 = order ∧ r.1.1 = default [] (handlers m !! Level alert) ++ default [] (handlers m !! "*") ∧
  (r.2 = None ↔ ∀ n ch, channels m !! n = Some ch → ch (stamp id now alert) = None).
Proof.
  intros He Ho. unfold Send. rewrite He. cbn.
  assert (Hin : ∀ n, n ∈ order ↔ is_Some (channels m !! n)).
  { intros n. rewrite Ho, list_elem_of_fmap. split.
    - intros ([n' ch] & -> & Hm%elem_of_map_to_list). by exists ch.
    - intros [ch Hc]. exists (n, ch). by rewrite elem_of_map_to_list. }
  split; [apply send_all_order; intros; by apply Hin|]. split; [done|]. rewrite send_all_err. split.
  - intros [_ Hall] n ch Hc. eapply Hall; [|done]. apply Hin. by eexists.
  - intros Hall. split; [done|]. intros n ch _. apply Hall.
Qed.

End Send.

(** [mergeTags]: later maps win. *)
Definition mergeTags (tags : list (gmap string string)) : gmap string string := foldl (λ r t, t ∪ r) ∅ tags.

Definition helper (level title message : string) (tags : list (gmap string string)) : Alert :=
  MkAlert "" level title message "" (mergeTags tags) 0.

(** The answer of a webhook: [inl] when no response came. *)
Definition Webhook_Send (name : string) (marshal_err new_request_err : option GoError.error)
    (response : GoError.error + Z) : option GoError.error :=
  match marshal_err, new_request_err, response with
  | Some e, _, _ => Some (GoError.ErrorfW "marshal alert for webhook %q: %w" [name] e)
  | None, Some e, _ => Some (GoError.ErrorfW "create webhook request for %q: %w" [name] e)
  | None, None, inl e => Some (GoError.ErrorfW "send webhook %q: %w" [name] e)
  | None, None, inr code =>
      if (code <? 200) || (300 <=? code) then Some (GoError.Errorf "webhook %q returned status %s" [name]) else None
  end.

(** ** The queue

    A queuing call: before it has the read lock, inside [Queue] before the first
    and the second [select], after it removed the oldest alert, and after it
    returned. *)
Section Queue.
Context {A : Type} (cap : nat).

Inductive qstate :=
| QStart (a : A)
| QIn (a : A)
| QFull (a : A)
| QPopped (a : A)
| QDone.

Definition inside (q : qstate) : bool :=
  match q with QIn _ | QFull _ | QPopped _ => true | _ => false end.

(** Where [processLoop] goes after a flush. *)
Inductive cont := KSelect | KDrain | KExit.

Inductive lstate :=
| LSelect
| LDrain
| LFlushing (todo : list A) (k : cont)
| LDone.

Inductive wstate := WIdle | WWaiting | WDone.

Record state := MkState {
  queuers : list qstate;
  buffer : list A;
  batch : list A;
  loop : lstate;
  closer : wstate;
  closed : bool;
  sent : list A;
  pushed : list A;      (** all alerts that entered the buffer, in order *)
  dropped : list A      (** those that were removed to make room *)
}.

Definition readers (st : state) : nat := length (filter (λ q, inside q = true) (queuers st)).

(** The read lock is granted unless a writer waits. *)
Definition can_read (st : state) : Prop := closer st ≠ WWaiting.

Definition set_q (i : nat) (q : qstate) (st : state) : state :=
  MkState (<[i := q]> (queuers st)) (buffer st) (batch st) (loop st) (closer st) (closed st) (sent st) (pushed st)
    (dropped st).

Definition push (i : nat) (a : A) (st : state) : state :=
  MkState (<[i := QDone]> (queuers st)) (buffer st ++ [a]) (batch st) (loop st) (closer st) (closed st) (sent st)
    (pushed st ++ [a]) (dropped st).

Definition set_loop (buf bat : list A) (l : lstate) (st : state) : state :=
  MkState (queuers st) buf bat l (closer st) (closed st) (sent st) (pushed st) (dropped st).

(** [batch = append(batch, alert)], flushed at a hundred. *)
Definition take_alert (a : A) (buf : list A) (k : cont) (l : lstate) (st : state) : state :=
  let bat := batch st ++ [a] in
  if (100 <=? length bat)%nat then set_loop buf [] (LFlushing bat k) st else set_loop buf bat l st.

Definition after (k : cont) : lstate := match k with KSelect => LSelect | KDrain => LDrain | KExit => LDone end.

Inductive step : state → state → Prop :=
| q_enter i a st :
    queuers st !! i = Some (QStart a) → can_read st → closed st = false → step st (set_q i (QIn a) st)
| q_closed i a st :
    queuers st !! i = Some (QStart a) → can_read st → closed st = true → step st (set_q i QDone st)
| q_send i a st :
    queuers st !! i = Some (QIn a) → (length (buffer st) < cap)%nat → step st (push i a st)
| q_full i a st :
    queuers st !! i = Some (QIn a) → (cap <= length (buffer st))%nat → step st (set_q i (QFull a) st)
| q_pop i a b buf st :
    queuers st !! i = Some (QFull a) → buffer st = b :: buf →
    step st (MkState (<[i := QPopped a]> (queuers st)) buf (batch st) (loop st) (closer st) (closed st) (sent st)
               (pushed st) (dropped st ++ [b]))
| q_lost i a st :
    queuers st !! i = Some (QFull a) → buffer st = [] → step st (set_q i QDone st)
| q_push i a st :
    queuers st !! i = Some (QPopped a) → (length (buffer st) < cap)%nat → step st (push i a st)
| c_call st :
    closer st = WIdle →
    step st (MkState (queuers st) (buffer st) (batch st) (loop st) WWaiting (closed st) (sent st) (pushed st) (dropped st))
| c_lock st :
    closer st = WWaiting → readers st = 0%nat →
    step st (MkState (queuers st) (buffer st) (batch st) (loop st) WDone true (sent st) (pushed st) (dropped st))
| l_receive a buf st :
    loop st = LSelect → buffer st = a :: buf → step st (take_alert a buf KSelect LSelect st)
| l_tick st :
    loop st = LSelect → batch st ≠ [] → step st (set_loop (buffer st) [] (LFlushing (batch st) KSelect) st)
| l_stop st :
    loop st = LSelect → closed st = true → step st (set_loop (buffer st) (batch st) LDrain st)
| l_drain a buf st :
    loop st = LDrain → buffer st = a :: buf → step st (take_alert a buf KDrain LDrain st)
| l_last st :
    loop st = LDrain → buffer st = [] → batch st ≠ [] → step st (set_loop [] [] (LFlushing (batch st) KExit) st)
| l_exit st :
    loop st = LDrain → buffer st = [] → batch st = [] → step st (set_loop [] [] LDone st)
| l_send a todo k st :
    loop st = LFlushing (a :: todo) k → can_read st →
    step st (MkState (queuers st) (buffer st) (batch st) (LFlushing todo k) (closer st) (closed st) (sent st ++ [a])
               (pushed st) (dropped st))
| l_flushed k st :
    loop st = LFlushing [] k → step st (set_loop (buffer st) (batch st) (after k) st).

(** A manager whose calls are about to be made. *)
Definition init (alerts : list A) : state :=
  MkState (QStart <$> alerts) [] [] LSelect WIdle false [] [] [].

(** Alerts that are on their way, in the order they will be sent. *)
Definition todo_of (l : lstate) : list A := match l with LFlushing todo _ => todo | _ => [] end.
Definition pending (st : state) : list A := todo_of (loop st) ++ batch st ++ buffer st.

Record inv (st : state) : Prop := {
  i_order : (sent st ++ pending st) `sublist_of` pushed st;
  i_count : pushed st ≡ₚ dropped st ++ sent st ++ pending st;
  i_cap : (length (buffer st) <= cap)%nat;
  i_closed : closed st = true → ∀ i q, queuers st !! i = Some q → inside q = false;
  i_flush : ∀ todo k, loop st = LFlushing todo k → batch st = [];
  i_phase : closed st = true ∨ loop st = LSelect ∨ ∃ todo, loop st = LFlushing todo KSelect;
  i_exit : loop st = LDone ∨ (∃ todo, loop st = LFlushing todo KExit) →
    closed st = true ∧ batch st = [] ∧ buffer st = []
}.

Lemma readers_zero st : readers st = 0%nat → ∀ i q, queuers st !! i = Some q → inside q = false.
Proof.
  unfold readers. intros H0 i q Hq. destruct (inside q) eqn:E; [|done]. exfalso.
  assert (Hin : q ∈ filter (λ q, inside q = true) (queuers st)).
  { apply list_elem_of_filter. split; [done|]. by eapply list_elem_of_lookup_2. }
  destruct (filter _ _); [by apply elem_of_nil in Hin|done].
Qed.

Lemma init_inv alerts : inv (init alerts).
Proof. split; cbn; try done; [lia|auto|intros [|[]]; done]. Qed.

(** A call inside [Queue] keeps the manager open. *)
Lemma inside_open st i q : inv st → queuers st !! i = Some q → inside q = true → closed st = false.
Proof. intros Hi Hq Hin. destruct (closed st) eqn:E; [|done]. by rewrite (i_closed st Hi E i q Hq) in Hin. Qed.

(** While the manager is open the loop is in its select or flushes for it. *)
Lemma open_loop st : inv st → closed st = false → todo_of (loop st) = [] ∨ batch st = [].
Proof.
  intros Hi Hc. destruct (i_phase st Hi) as [?|[->|[todo Hl]]]; [congruence|by left|]. right. by eapply (i_flush st Hi).
Qed.

Lemma set_q_inv st i q q' :
  inv st → queuers st !! i = Some q → (inside q' = true → closed st = false) → inv (set_q i q' st).
Proof.
  intros Hi Hq Hin. destruct Hi. split; cbn; try done. intros Hc j r [[<- [<- _]]|[_ Hr]]%list_lookup_insert_Some; [|by eapply i_closed0].
  destruct (inside q'); [|done]. specialize (Hin eq_refl). congruence.
Qed.

Lemma closed_insert st i q' j r :
  inv st → inside q' = false → closed st = true → <[i := q']> (queuers st) !! j = Some r → inside r = false.
Proof. intros Hi Hq Hc [[<- [<- _]]|[_ Hr]]%list_lookup_insert_Some; [done|by eapply (i_closed st Hi)]. Qed.

Lemma push_inv st i q a :
  inv st → queuers st !! i = Some q → inside q = true → (length (buffer st) < cap)%nat → inv (push i a st).
Proof.
  intros Hi Hq Hin Hlen. pose proof (inside_open st i q Hi Hq Hin) as Hopen.
  assert (Hp : pending (push i a st) = pending st ++ [a]).
  { unfold pending. cbn. by rewrite !app_assoc. }
  split; rewrite ?Hp; cbn.
  - rewrite app_assoc. apply sublist_app; [apply Hi|done].
  - rewrite (i_count st Hi) at 1. by rewrite !app_assoc.
  - rewrite length_app. cbn. lia.
  - congruence.
  - apply Hi.
  - apply (i_phase st Hi).
  - intros Hl%(i_exit st Hi). destruct Hl. congruence.
Qed.

(** Moving alerts between the stages of the loop keeps their order. *)
Lemma set_loop_inv st buf bat l :
  inv st → todo_of l ++ bat ++ buf = pending st → (length buf <= cap)%nat →
  (∀ todo k, l = LFlushing todo k → bat = []) →
  (closed st = true ∨ l = LSelect ∨ ∃ todo, l = LFlushing todo KSelect) →
  (l = LDone ∨ (∃ todo, l = LFlushing todo KExit) → closed st = true ∧ bat = [] ∧ buf = []) →
  inv (set_loop buf bat l st).
Proof.
  intros Hi Hp Hcap Hf Hph Hex. assert (Hpe : pending (set_loop buf bat l st) = pending st) by done.
  destruct Hi. split; rewrite ?Hpe; cbn; done.
Qed.

Lemma take_alert_inv st a buf k l :
  inv st → loop st = l → buffer st = a :: buf → (l = LSelect ∧ k = KSelect ∨ l = LDrain ∧ k = KDrain) →
  inv (take_alert a buf k l st).
Proof.
  intros Hi Hl Hb Hlk. unfold take_alert.
  assert (Hcap : (length buf <= cap)%nat) by (pose proof (i_cap st Hi) as H; rewrite Hb in H; cbn in H; lia).
  assert (Hph : closed st = true ∨ l = LSelect) by (destruct (i_phase st Hi) as [?|[?|[todo ?]]]; [auto|right; congruence|destruct Hlk as [[-> _]|[-> _]]; congruence]).
  assert (Hpe : pending st = batch st ++ [a] ++ buf).
  { unfold pending. rewrite Hl, Hb. by destruct Hlk as [[-> _]|[-> _]]. }
  case_match; apply set_loop_inv; cbn; try done.
  - by rewrite Hpe, <-app_assoc.
  - destruct Hlk as [[-> ->]|[-> ->]]; [right; right; by eexists|destruct Hph; [by left|done]].
  - destruct Hlk as [[-> ->]|[-> ->]]; by intros [|[]].
  - rewrite Hpe. destruct Hlk as [[-> ->]|[-> ->]]; cbn; by rewrite <-app_assoc.
  - destruct Hlk as [[-> ->]|[-> ->]]; by intros ? ?.
  - destruct Hph; auto.
  - destruct Hlk as [[-> ->]|[-> ->]]; by intros [|[]].
Qed.

Lemma step_inv st st' : inv st → step st st' → inv st'.
Proof.
  intros Hi Hstep. destruct Hstep.
  - by eapply set_q_inv.
  - by eapply set_q_inv.
  - by eapply push_inv.
  - eapply set_q_inv; [done..|]. intros _. by eapply inside_open.
  - pose proof (inside_open st i _ Hi H eq_refl) as Hopen.
    assert (Hsub : sent st ++ todo_of (loop st) ++ batch st ++ buf `sublist_of` sent st ++ pending st).
    { apply sublist_app; [done|]. apply sublist_app; [done|]. apply sublist_app; [done|]. rewrite H0. by apply sublist_cons. }
    split; cbn.
    + etrans; [apply Hsub|apply Hi].
    + rewrite (i_count st Hi) at 1. unfold pending. cbn. rewrite H0. solve_Permutation.
    + pose proof (i_cap st Hi) as Hc. rewrite H0 in Hc. cbn in Hc. lia.
    + congruence.
    + apply Hi.
    + apply (i_phase st Hi).
    + intros Hl%(i_exit st Hi). destruct Hl. congruence.
  - by eapply set_q_inv.
  - by eapply push_inv.
  - destruct Hi. split; cbn; done.
  - destruct Hi. split; cbn; try done; [intros _; by apply readers_zero|by left|naive_solver].
  - by apply take_alert_inv; auto.
  - apply set_loop_inv; cbn; try done.
    + unfold pending. by rewrite H.
    + apply Hi.
    + right. right. by eexists.
    + by intros [|[]].
  - apply set_loop_inv; cbn; try done; [unfold pending; by rewrite H|apply Hi|auto|by intros [|[]]].
  - by apply take_alert_inv; auto.
  - assert (Hc : closed st = true) by (destruct (i_phase st Hi) as [?|[?|[todo ?]]]; congruence).
    apply set_loop_inv; cbn; try done; [unfold pending; rewrite H, H0; by rewrite app_nil_r|lia|auto].
  - assert (Hc : closed st = true) by (destruct (i_phase st Hi) as [?|[?|[todo ?]]]; congruence).
    apply set_loop_inv; cbn; try done; [unfold pending; by rewrite H, H0, H1|lia|auto].
  - match goal with |- inv ?s => set (st' := s) end.
    assert (Hp : sent st' ++ pending st' = sent st ++ pending st).
    { unfold pending. cbn. rewrite H. cbn. by rewrite <-app_assoc. }
    split; rewrite ?Hp; cbn.
    + apply Hi.
    + apply Hi.
    + apply Hi.
    + apply Hi.
    + intros todo' k' [= -> ->]. by eapply (i_flush st Hi).
    + destruct (i_phase st Hi) as [?|[?|[todo' Hl]]]; [by left|congruence|]. rewrite H in Hl. simplify_eq. eauto.
    + intros [?|[todo' [= -> ->]]]; [done|]. apply (i_exit st Hi). eauto.
  - pose proof (i_flush st Hi _ _ H) as Hbat.
    apply set_loop_inv; cbn; try done.
    + unfold pending. rewrite H. by destruct k.
    + apply Hi.
    + destruct (i_phase st Hi) as [?|[?|[todo' Hl]]]; [by left|congruence|]. rewrite H in Hl. simplify_eq. eauto.
    + intros Hk. apply (i_exit st Hi). right. exists []. rewrite H. destruct Hk as [Hk|[? Hk]]; by destruct k.
Qed.

(** Under every interleaving of queuing calls, the loop and [Close]: alerts
    are sent in the order they entered the buffer, each at most once; every one
    that entered it is sent, pending, or was removed to make room; and once the
    loop has ended nothing is pending. *)
Theorem alerts_sent_in_order alerts st :
  rtc step (init alerts) st →
  sent st `sublist_of` pushed st ∧ pushed st ≡ₚ dropped st ++ sent st ++ pending st ∧
  (length (buffer st) <= cap)%nat ∧ (loop st = LDone → pending st = []).
Proof.
  intros Hrtc. assert (Hi : inv st).
  { revert Hrtc. apply (rtc_ind_r inv); [apply init_inv|intros; by eapply step_inv]. }
  split; [etrans; [|apply (i_order st Hi)]; by apply sublist_inserts_r|]. split; [apply Hi|]. split; [apply Hi|].
  intros Hl. destruct (i_exit st Hi) as (_ & Hb & Hbuf); [by left|]. unfold pending. by rewrite Hl, Hb, Hbuf.
Qed.

End Queue.

(** ** Concrete behaviour *)

(** Three alerts through a buffer of two, then [Close]. *)
Definition ex_end : state (A := nat) :=
  MkState [QDone; QDone; QStart 3%nat] [] [] (LFlushing [] KSelect) WIdle false [1; 2]%nat [1; 2]%nat [].

Lemma ex_reachable : rtc (step 2) (init [1; 2; 3]%nat) ex_end.
Proof.
  eapply rtc_l; [by apply (q_enter 2 0 1%nat)|]. eapply rtc_l; [apply (q_send 2 0 1%nat); cbn; (done || lia)|].
  eapply rtc_l; [by apply (q_enter 2 1 2%nat)|]. eapply rtc_l; [apply (q_send 2 1 2%nat); cbn; (done || lia)|].
  eapply rtc_l; [by eapply l_receive|]. eapply rtc_l; [by eapply l_receive|]. eapply rtc_l; [by apply l_tick|].
  eapply rtc_l; [by eapply l_send|]. eapply rtc_l; [by eapply l_send|]. apply rtc_refl.
Qed.

Lemma alerts_sent_in_order_witness :
  sent ex_end `sublist_of` pushed ex_end ∧ pushed ex_end ≡ₚ dropped ex_end ++ sent ex_end ++ pending ex_end.
Proof.
  destruct (alerts_sent_in_order 2 [1; 2; 3]%nat ex_end ex_reachable) as (H1 & H2 & _). exact (conj H1 H2).
Defined.

(** A call that found the buffer full holds the read lock and waits for room,
    [Close] waits for the write lock, and the loop, which would make room, waits
    for the read lock behind [Close]: nothing can go on. *)
Definition ex_dead : state (A := nat) :=
  MkState [QDone; QDone; QPopped 2%nat; QDone] [3%nat] [] (LFlushing [0%nat] KSelect) WWaiting false [] [0; 1; 3]%nat [1%nat].

Theorem close_deadlocks :
  rtc (step 1) (init [0; 1; 2; 3]%nat) ex_dead ∧ ∀ st', ¬ step 1 ex_dead st'.
Proof.
  split.
  - eapply rtc_l; [by apply (q_enter 1 0 0%nat)|]. eapply rtc_l; [apply (q_send 1 0 0%nat); cbn; (done || lia)|].
    eapply rtc_l; [by eapply l_receive|]. eapply rtc_l; [by apply l_tick|].
    eapply rtc_l; [by apply (q_enter 1 1 1%nat)|]. eapply rtc_l; [apply (q_send 1 1 1%nat); cbn; (done || lia)|].
    eapply rtc_l; [by apply (q_enter 1 2 2%nat)|]. eapply rtc_l; [by apply (q_enter 1 3 3%nat)|].
    eapply rtc_l; [apply (q_full 1 2 2%nat); cbn; (done || lia)|]. eapply rtc_l; [by eapply (q_pop 1 2 2%nat)|].
    eapply rtc_l; [apply (q_send 1 3 3%nat); cbn; (done || lia)|].
    eapply rtc_l; [by apply c_call|]. apply rtc_refl.
  - intros st' Hs. inversion Hs; subst; cbn in *; try done; try lia;
      repeat match goal with
        | H : [_; _; _; _] !! ?i = Some _ |- _ => destruct i as [|[|[|[|i]]]]; cbn in H; simplify_eq
        end; try lia; by unfold can_read in *.
Qed.

(** A second look at a buffer that the loop has emptied in between drops the
    new alert instead of the oldest one. *)
Theorem new_alert_lost :
  rtc (step 1) (init [1; 2]%nat)
    (MkState [QDone; QDone] [] [1%nat] LSelect WIdle false [] [1%nat] []).
Proof.
  eapply rtc_l; [by apply (q_enter 1 0 1%nat)|]. eapply rtc_l; [apply (q_send 1 0 1%nat); cbn; (done || lia)|].
  eapply rtc_l; [by apply (q_enter 1 1 2%nat)|]. eapply rtc_l; [apply (q_full 1 1 2%nat); cbn; (done || lia)|].
  eapply rtc_l; [by eapply l_receive|]. eapply rtc_l; [by apply (q_lost 1 1 2%nat)|]. apply rtc_refl.
Qed.
