(* ===== verification/ConfigCenter.v ===== *)
(** * plugins/configcenter: the configuration centre

    provider_memory.go: the in-memory provider with its watchers.
    configcenter.go: the cache in front of a provider, subscriptions and the
    handling of changes.  provider_consul.go: the differences between two
    listings.  Writers of the provider, calls of the centre and the handling of
    changes interleave as a step relation; clock readings are arguments. *)

From S2P Require Import Prelude GoString.

Open Scope Z_scope.

(** ** Maps of maps

    [map[string]map[string]V] as the code keeps it: an inner map is made when it
    is needed and removed when it is empty. *)
Notation nested V := (gmap string (gmap string V)).

Section Nested.
Context {V : Type}.

Definition nget (ns key : string) (m : nested V) : option V := m !! ns ≫= λ inner, inner !! key.

Definition nset (ns key : string) (v : V) (m : nested V) : nested V :=
  <[ns := <[key := v]> (default ∅ (m !! ns))]> m.

Definition ndel (ns key : string) (m : nested V) : nested V :=
  match m !! ns with
  | None => m
  | Some inner =>
      let inner := delete key inner in
      if decide (inner = ∅) then delete ns m else <[ns := inner]> m
  end.

Lemma nget_nset ns key v m ns' key' :
  nget ns' key' (nset ns key v m) = if decide (ns' = ns ∧ key' = key) then Some v else nget ns' key' m.
Proof.
  unfold nget, nset. destruct (decide (ns' = ns)) as [->|Hn].
  - rewrite lookup_insert_eq. cbn. destruct (decide (key' = key)) as [->|Hk].
    + by rewrite lookup_insert_eq, decide_True.
    + rewrite lookup_insert_ne, decide_False by naive_solver. by destruct (m !! ns); cbn; rewrite ?lookup_empty.
  - rewrite lookup_insert_ne by done. by rewrite decide_False by naive_solver.
Qed.

Lemma nget_ndel ns key m ns' key' :
  nget ns' key' (ndel ns key m) = if decide (ns' = ns ∧ key' = key) then None else nget ns' key' m.
Proof.
  unfold nget, ndel. destruct (m !! ns) as [inner|] eqn:Hm; cbn.
  - destruct (decide (ns' = ns)) as [->|Hn].
    + assert (Hd : ∀ k, delete key inner !! k = if decide (k = key) then None else inner !! k).
      { intros k. case_decide as E; [subst; apply lookup_delete_eq|by rewrite lookup_delete_ne]. }
      case_decide as E.
      * rewrite lookup_delete_eq. cbn. rewrite Hm. cbn. specialize (Hd key'). rewrite E, lookup_empty in Hd.
        destruct (decide (key' = key)) as [->|Hk]; [by rewrite decide_True|]. rewrite decide_False by naive_solver. done.
      * rewrite lookup_insert_eq. cbn. rewrite Hm, Hd. cbn.
        destruct (decide (key' = key)) as [->|Hk]; [by rewrite decide_True|by rewrite decide_False by naive_solver].
    + rewrite (decide_False (P := ns' = ns ∧ _)) by naive_solver.
      case_decide; by rewrite ?lookup_delete_ne, ?lookup_insert_ne.
  - case_decide as E; [|done]. destruct E as [-> ->]. by rewrite Hm.
Qed.

End Nested.

(** ** provider_memory.go *)

Inductive ChangeType := ChangeTypeSet | ChangeTypeDelete.

Record ConfigChange := MkChange {
  Namespace : string;
  Key : string;
  Value : string;
  Version : Z;
  Change : ChangeType
}.

(** Channels of watchers hold at most sixteen changes; they are numbered. *)
Definition watch_cap : nat := 16.

Record MemoryProvider := MkProvider {
  data : nested (string * Z);
  p_watchers : gmap string (list nat);
  chans : gmap nat (list ConfigChange);
  version : Z
}.

Definition NewMemoryProvider : MemoryProvider := MkProvider ∅ ∅ ∅ 0.

Definition ErrNotFound : GoError.error := GoError.Sentinel "configcenter: key not found".

Definition P_Get (ns key : string) (p : MemoryProvider) : result (string * Z) :=
  match nget ns key (data p) with Some v => Ok v | None => Err ErrNotFound end.

(** The part of [Set] under the lock. *)
Definition P_store (ns key value : string) (p : MemoryProvider) : MemoryProvider * Z :=
  let ver := GoInt.i64 (version p + 1) in
  (MkProvider (nset ns key (value, ver) (data p)) (p_watchers p) (chans p) ver, ver).

(** [notify]: a full channel drops the change. *)
Definition offer (c : ConfigChange) (q : list ConfigChange) : list ConfigChange :=
  if (length q <? watch_cap)%nat then q ++ [c] else q.

Definition P_notify (c : ConfigChange) (p : MemoryProvider) : MemoryProvider :=
  MkProvider (data p) (p_watchers p)
    (foldl (λ m ch, alter (offer c) ch m) (chans p) (default [] (p_watchers p !! Namespace c))) (version p).

Definition P_Set (ns key value : string) (p : MemoryProvider) : MemoryProvider * Z :=
  let '(p, ver) := P_store ns key value p in
  (P_notify (MkChange ns key value ver ChangeTypeSet) p, ver).

Definition P_Delete (ns key : string) (p : MemoryProvider) : MemoryProvider * option GoError.error :=
  match nget ns key (data p) with
  | Some _ =>
      (P_notify (MkChange ns key "" 0 ChangeTypeDelete)
         (MkProvider (ndel ns key (data p)) (p_watchers p) (chans p) (version p)), None)
  | None => (p, Some ErrNotFound)
  end.

(** [Watch] with a new channel. *)
Definition P_Watch (ch : nat) (ns : string) (p : MemoryProvider) : MemoryProvider :=
  MkProvider (data p) (<[ns := default [] (p_watchers p !! ns) ++ [ch]]> (p_watchers p)) (<[ch := []]> (chans p))
    (version p).

(** The goroutine of [Watch] once its context is done. *)
Definition P_unwatch (ch : nat) (ns : string) (p : MemoryProvider) : MemoryProvider :=
  let ws := filter (λ c, c ≠ ch) (default [] (p_watchers p !! ns)) in
  MkProvider (data p) (if decide (ws = []) then delete ns (p_watchers p) else <[ns := ws]> (p_watchers p)) (chans p)
    (version p).

(** ** The cache of the centre *)

Record cacheEntry := MkEntry {
  value : string;
  e_version : Z;
  expires : Z
}.

Record ConfigCenter := MkCenter {
  cache : nested cacheEntry;
  cacheTTL : Z;
  subs : gmap string (list nat);
  watchers : gset string;
  closed : bool
}.

Definition New (ttl : Z) : ConfigCenter := MkCenter ∅ ttl ∅ ∅ false.

Definition set_cache_map (m : nested cacheEntry) (cc : ConfigCenter) : ConfigCenter :=
  MkCenter m (cacheTTL cc) (subs cc) (watchers cc) (closed cc).

Definition getFromCache (now : Z) (ns key : string) (cc : ConfigCenter) : option (string * Z) :=
  match nget ns key (cache cc) with
  | Some e => if GoTime.After now (expires e) then None else Some (value e, e_version e)
  | None => None
  end.

Definition setCache (now : Z) (ns key v : string) (ver : Z) (cc : ConfigCenter) : ConfigCenter :=
  set_cache_map (nset ns key (MkEntry v ver (now + cacheTTL cc)) (cache cc)) cc.

Definition deleteCache (ns key : string) (cc : ConfigCenter) : ConfigCenter :=
  set_cache_map (ndel ns key (cache cc)) cc.

Definition errClosed : GoError.error := GoError.Errorf "configcenter: closed" [].

(** The operations of the centre over the memory provider. *)
Definition Get (now : Z) (ns key : string) (w : ConfigCenter * MemoryProvider) :
    (ConfigCenter * MemoryProvider) * result (string * Z) :=
  let '(cc, p) := w in
  if closed cc then (w, Err errClosed)
  else
    match getFromCache now ns key cc with
    | Some v => (w, Ok v)
    | None =>
        match P_Get ns key p with
        | Ok (v, ver) => ((setCache now ns key v ver cc, p), Ok (v, ver))
        | Err e => (w, Err e)
        end
    end.

Definition Set_ (now : Z) (ns key v : string) (w : ConfigCenter * MemoryProvider) :
    (ConfigCenter * MemoryProvider) * result Z :=
  let '(cc, p) := w in
  if closed cc then (w, Err errClosed)
  else
    let '(p, ver) := P_Set ns key v p in
    ((setCache now ns key v ver cc, p), Ok ver).

Definition Delete (ns key : string) (w : ConfigCenter * MemoryProvider) :
    (ConfigCenter * MemoryProvider) * option GoError.error :=
  let '(cc, p) := w in
  if closed cc then (w, Some errClosed)
  else
    match P_Delete ns key p with
    | (p, None) => ((deleteCache ns key cc, p), None)
    | (p, Some e) => ((cc, p), Some e)
    end.

(** [handleChange]: the cache part; the handlers of [subs] are started. *)
Definition handleChange (now : Z) (c : ConfigChange) (cc : ConfigCenter) : ConfigCenter * list nat :=
  (match Change c with
   | ChangeTypeDelete => deleteCache (Namespace c) (Key c) cc
   | ChangeTypeSet => setCache now (Namespace c) (Key c) (Value c) (Version c) cc
   end, default [] (subs cc !! Namespace c)).

(** ** Subscriptions *)

Definition Subscribe (sub : nat) (ns : string) (cc : ConfigCenter) : ConfigCenter :=
  let l := default [] (subs cc !! ns) ++ [sub] in
  MkCenter (cache cc) (cacheTTL cc) (<[ns := l]> (subs cc))
    (if (length l =? 1)%nat then {[ns]} ∪ watchers cc else watchers cc) (closed cc).

(** The first occurrence is removed; a namespace without subscriptions loses
    its watcher. *)
Fixpoint remove_first (sub : nat) (l : list nat) : list nat :=
  match l with
  | [] => []
  | x :: l => if decide (x = sub) then l else x :: remove_first sub l
  end.

Definition removeSubscription (ns : string) (sub : nat) (cc : ConfigCenter) : ConfigCenter :=
  let l := remove_first sub (default [] (subs cc !! ns)) in
  if decide (l = []) then
    MkCenter (cache cc) (cacheTTL cc) (delete ns (subs cc)) (watchers cc ∖ {[ns]}) (closed cc)
  else MkCenter (cache cc) (cacheTTL cc) (<[ns := l]> (subs cc)) (watchers cc) (closed cc).

Definition Close (cc : ConfigCenter) : ConfigCenter :=
  if closed cc then cc else MkCenter (cache cc) (cacheTTL cc) ∅ ∅ true.

(** ** Consul: the differences of two listings

    A pair of the store: its value and its index, by its full key. *)

Definition extractKey (prefix key : string) : string := TrimPrefix (TrimPrefix key prefix) "/".

Definition diffConsulPairs (ns prefix : string) (order : list string) (oldPairs newPairs : gmap string (string * Z))
    (order' : list string) : list ConfigChange :=
  omap (λ key,
    match newPairs !! key with
    | Some (v, idx) =>
        match oldPairs !! key with
        | Some (_, idx') => if idx' =? idx then None else Some (MkChange ns (extractKey prefix key) v idx ChangeTypeSet)
        | None => Some (MkChange ns (extractKey prefix key) v idx ChangeTypeSet)
        end
    | None => None
    end) order ++
  omap (λ key,
    match oldPairs !! key, newPairs !! key with
    | Some (_, idx), None => Some (MkChange ns (extractKey prefix key) "" idx ChangeTypeDelete)
    | _, _ => None
    end) order'.

(** ** A subscribed centre reads what the provider holds *)

Section Coherence.
(** The namespace with a subscription, and the channel of its watcher. *)
Context (ns : string) (ch : nat).

Notation world := (ConfigCenter * MemoryProvider)%type.

(** There is room for another change of the namespace. *)
Definition room (ns' : string) (p : MemoryProvider) : Prop :=
  ns' = ns → ∀ q, chans p !! ch = Some q → (length q < watch_cap)%nat.

(** Calls of the centre, writers that use the provider directly, and the
    watcher, which handles the oldest change. *)
Inductive step : world → world → Prop :=
| s_get now ns' key w : step w (Get now ns' key w).1
| s_set now ns' key v w : room ns' w.2 → step w (Set_ now ns' key v w).1
| s_delete ns' key w : room ns' w.2 → step w (Delete ns' key w).1
| s_ext_set ns' key v cc p : room ns' p → step (cc, p) (cc, (P_Set ns' key v p).1)
| s_ext_delete ns' key cc p : room ns' p → step (cc, p) (cc, (P_Delete ns' key p).1)
| s_handle now c q cc p :
    chans p !! ch = Some (c :: q) →
    step (cc, p) ((handleChange now c cc).1, MkProvider (data p) (p_watchers p) (<[ch := q]> (chans p)) (version p)).

(** The latest change of a key that is still to be handled. *)
Definition pending (key : string) (q : list ConfigChange) : option ConfigChange := last (filter (λ c, Key c = key) q).

Definition shows (c : ConfigChange) (cur : option (string * Z)) : Prop :=
  cur = match Change c with ChangeTypeSet => Some (Value c, Version c) | ChangeTypeDelete => None end.

Record coherent (w : world) : Prop := {
  h_open : closed w.1 = false;
  h_watch : p_watchers w.2 = {[ns := [ch]]};
  h_chan : ∃ q, chans w.2 !! ch = Some q ∧ Forall (λ c, Namespace c = ns) q ∧
    ∀ key, match pending key q with
           | Some c => shows c (nget ns key (data w.2))
           | None => ∀ e, nget ns key (cache w.1) = Some e → nget ns key (data w.2) = Some (value e, e_version e)
           end
}.

Lemma pending_snoc key q c :
  pending key (q ++ [c]) = if decide (Key c = key) then Some c else pending key q.
Proof.
  unfold pending. rewrite filter_app, filter_cons, filter_nil. case_decide; [by rewrite last_snoc|by rewrite app_nil_r].
Qed.

Lemma pending_cons key q c :
  pending key (c :: q) = match pending key q with Some c' => Some c' | None => if decide (Key c = key) then Some c else None end.
Proof.
  unfold pending. rewrite filter_cons. case_decide; [by rewrite last_cons|]. by destruct (last _).
Qed.

Lemma notify_chan c p q :
  p_watchers p = {[ns := [ch]]} → chans p !! ch = Some q → (Namespace c = ns → (length q < watch_cap)%nat) →
  chans (P_notify c p) !! ch = Some (if decide (Namespace c = ns) then q ++ [c] else q).
Proof.
  intros Hw Hq Hroom. unfold P_notify. cbn. rewrite Hw. case_decide as E.
  - rewrite E, lookup_singleton_eq. cbn. rewrite lookup_alter_eq, Hq. cbn. unfold offer.
    by rewrite (proj2 (Nat.ltb_lt _ _)) by (by apply Hroom).
  - by rewrite lookup_singleton_ne.
Qed.

(** A change of the provider that is announced, with a cache that agrees with
    it or was not touched at that key. *)
Lemma announced cc cc' p p' c :
  coherent (cc, p) → closed cc' = false → p_watchers p' = p_watchers p → chans p' = chans p →
  room (Namespace c) p →
  (∀ ns' key, ¬ (ns' = Namespace c ∧ key = Key c) → nget ns' key (data p') = nget ns' key (data p)) →
  (∀ ns' key, ¬ (ns' = Namespace c ∧ key = Key c) → nget ns' key (cache cc') = nget ns' key (cache cc)) →
  (Namespace c = ns → shows c (nget ns (Key c) (data p'))) →
  coherent (cc', P_notify c p').
Proof.
  intros [Ho Hw (q & Hq & Hns & Hcoh)] Ho' Hw' Hc' Hroom Hdata Hcache Hshow. cbn in *. split; cbn; [done|congruence|].
  exists (if decide (Namespace c = ns) then q ++ [c] else q). split.
  { apply notify_chan; [congruence|congruence|]. intros E. by eapply Hroom. }
  split; [case_decide; [apply Forall_app_2; [done|by repeat constructor]|done]|].
  intros key. case_decide as E.
  - rewrite pending_snoc. case_decide as Ek; [rewrite <-Ek; by apply Hshow|].
    rewrite Hdata, Hcache by naive_solver. apply Hcoh.
  - rewrite Hdata, Hcache by naive_solver. apply Hcoh.
Qed.

(** The provider stays; an entry that it confirms is cached. *)
Lemma cached cc p now key v ver :
  coherent (cc, p) → nget ns key (data p) = Some (v, ver) → coherent (setCache now ns key v ver cc, p).
Proof.
  intros [Ho Hw (q & Hq & Hns & Hcoh)] Hv. split; [done|done|]. exists q. split; [done|]. split; [done|].
  intros k. specialize (Hcoh k). cbn in *. destruct (pending k q); [done|]. intros e. rewrite nget_nset.
  case_decide as E; [|apply Hcoh]. destruct E as [_ ->]. by intros [= <-].
Qed.

Lemma other_namespace cc cc' p :
  coherent (cc, p) → closed cc' = false → (∀ key, nget ns key (cache cc') = nget ns key (cache cc)) → coherent (cc', p).
Proof.
  intros [Ho Hw (q & Hq & Hns & Hcoh)] Ho' Hc. split; [done|done|]. exists q. split; [done|]. split; [done|].
  intros k. specialize (Hcoh k). cbn in *. by rewrite Hc.
Qed.

Lemma P_Set_coherent cc cc' p ns' key v :
  coherent (cc, p) → room ns' p → closed cc' = false →
  (∀ n k, ¬ (n = ns' ∧ k = key) → nget n k (cache cc') = nget n k (cache cc)) → coherent (cc', (P_Set ns' key v p).1).
Proof.
  intros Hc Hroom Ho Hcache. cbn. eapply announced; try done; cbn; [intros; by rewrite nget_nset, decide_False|].
  intros ->. unfold shows. cbn. by rewrite nget_nset, decide_True.
Qed.

Lemma P_Delete_coherent cc cc' p p' ns' key :
  coherent (cc, p) → room ns' p → closed cc' = false → P_Delete ns' key p = (p', None) →
  (∀ n k, ¬ (n = ns' ∧ k = key) → nget n k (cache cc') = nget n k (cache cc)) → coherent (cc', p').
Proof.
  intros Hc Hroom Ho. unfold P_Delete. destruct (nget ns' key (data p)); [|done]. intros [= <-] Hcache.
  eapply announced; try done; cbn; [intros; by rewrite nget_ndel, decide_False|].
  intros ->. unfold shows. cbn. by rewrite nget_ndel, decide_True.
Qed.

Lemma handle_coherent now c q cc p :
  coherent (cc, p) → chans p !! ch = Some (c :: q) →
  coherent ((handleChange now c cc).1, MkProvider (data p) (p_watchers p) (<[ch := q]> (chans p)) (version p)).
Proof.
  intros [Ho Hw (q0 & Hq & Hns & Hcoh)] Hq'. cbn in *. simplify_eq. apply Forall_cons in Hns as [Hn Hns].
  split; [by unfold handleChange; destruct (Change c)|done|]. exists q. cbn. rewrite lookup_insert_eq.
  split; [done|]. split; [done|]. intros key. specialize (Hcoh key). rewrite pending_cons in Hcoh.
  destruct (pending key q) as [c'|]; [done|]. intros e. unfold handleChange, shows in *. cbn in *.
  case_decide as Ek.
  - rewrite Hcoh. destruct (Change c); cbn; rewrite ?nget_nset, ?nget_ndel, decide_True by done; by intros [= <-].
  - destruct (Change c); cbn; rewrite ?nget_nset, ?nget_ndel, decide_False by naive_solver; apply Hcoh.
Qed.

Lemma coherent_open cc p : coherent (cc, p) → closed cc = false.
Proof. apply h_open. Qed.

Lemma step_coherent w w' : coherent w → step w w' → coherent w'.
Proof.
  intros Hc Hs. destruct Hs as [now ns' key [cc p]|now ns' key v [cc p] Hr|ns' key [cc p] Hr|ns' key v cc p Hr|ns' key cc p Hr|].
  - unfold Get. rewrite (coherent_open _ _ Hc). destruct (getFromCache now ns' key cc); [done|].
    unfold P_Get. destruct (nget ns' key (data p)) as [[v ver]|] eqn:Hv; [|done]. cbn.
    destruct (decide (ns' = ns)) as [->|Hne]; [by apply cached|].
    eapply other_namespace; [done|exact (coherent_open _ _ Hc)|]. intros k. cbn. by rewrite nget_nset, decide_False by naive_solver.
  - unfold Set_. rewrite (coherent_open _ _ Hc). apply (P_Set_coherent cc); [done..|exact (coherent_open _ _ Hc)|].
    intros n k Hnk. cbn. by rewrite nget_nset, decide_False.
  - unfold Delete. rewrite (coherent_open _ _ Hc). destruct (P_Delete ns' key p) as [p' [e|]] eqn:E; cbn.
    + unfold P_Delete in E. destruct (nget ns' key (data p)); simplify_eq. done.
    + eapply (P_Delete_coherent cc); [done..|exact (coherent_open _ _ Hc)|done|]. intros n k Hnk. cbn. by rewrite nget_ndel, decide_False.
  - by apply (P_Set_coherent cc); [..|exact (coherent_open _ _ Hc)|].
  - destruct (P_Delete ns' key p) as [p' [e|]] eqn:E; cbn.
    + unfold P_Delete in E. destruct (nget ns' key (data p)); simplify_eq. done.
    + by eapply (P_Delete_coherent cc); [..|exact (coherent_open _ _ Hc)|done|].
  - by apply handle_coherent.
Qed.

(** A centre that has just subscribed. *)
Definition subscribed (ttl : Z) (p : MemoryProvider) : world := (New ttl, P_Watch ch ns p).

Lemma subscribed_coherent ttl p : p_watchers p = ∅ → coherent (subscribed ttl p).
Proof.
  intros Hw. split; [done|cbn; by rewrite Hw, lookup_empty|]. exists []. cbn. rewrite lookup_insert_eq.
  split; [done|]. split; [constructor|]. intros key e. unfold nget. by rewrite lookup_empty.
Qed.

(** As long as no announcement is dropped, whatever the centre and other
    writers do: once the announcements of a key have been handled, [Get] returns
    exactly what the provider holds, value and version, or that there is no such
    key; cached or not, expired or not. *)
Theorem subscribed_reads_current ttl p w now key q :
  p_watchers p = ∅ → rtc step (subscribed ttl p) w →
  chans w.2 !! ch = Some q → pending key q = None →
  (Get now ns key w).2 = P_Get ns key w.2.
Proof.
  intros Hw Hrtc Hq Hp. assert (Hc : coherent w).
  { revert Hrtc. apply (rtc_ind_r coherent); [by apply subscribed_coherent|intros; by eapply step_coherent]. }
  destruct Hc as [Ho _ (q' & Hq' & _ & Hcoh)]. rewrite Hq in Hq'. simplify_eq. specialize (Hcoh key). rewrite Hp in Hcoh.
  destruct w as [cc p']. unfold Get. cbn in *. rewrite Ho. unfold getFromCache, P_Get.
  destruct (nget ns key (cache cc)) as [e|].
  - rewrite (Hcoh e eq_refl). by destruct (GoTime.After now (expires e)).
  - by destruct (nget ns key (data p')) as [[v ver]|].
Qed.

End Coherence.

(** ** Subscriptions and watchers *)

(** There is a watcher for exactly the namespaces with subscriptions. *)
Definition watched (cc : ConfigCenter) : Prop :=
  dom (subs cc) = watchers cc ∧ ∀ ns l, subs cc !! ns = Some l → l ≠ [].

Theorem watchers_exact cc sub ns :
  watched cc → watched (Subscribe sub ns cc) ∧ watched (removeSubscription ns sub cc) ∧ watched (Close cc).
Proof.
  intros [Hd Hne]. split_and!.
  - split; cbn.
    + rewrite dom_insert_L, Hd. case_match eqn:E; [done|]. destruct (subs cc !! ns) as [l|] eqn:Hl; [|done].
      apply elem_of_dom_2 in Hl. rewrite Hd in Hl. set_solver.
    + intros ns' l [[<- <-]|[_ Hl]]%lookup_insert_Some; [by destruct (default [] _)|by eapply Hne].
  - unfold removeSubscription. case_decide as E; split; cbn.
    + by rewrite dom_delete_L, Hd.
    + intros ns' l [_ Hl]%lookup_delete_Some. by eapply Hne.
    + rewrite dom_insert_L. destruct (subs cc !! ns) as [l|] eqn:Hl; [|done].
      apply elem_of_dom_2 in Hl. set_solver.
    + intros ns' l [[<- <-]|[_ Hl]]%lookup_insert_Some; [done|by eapply Hne].
  - unfold Close. destruct (closed cc); [done|]. split; cbn; [by rewrite dom_empty_L|by intros ? ? ?%lookup_empty_Some].
Qed.

(** ** Consul: applying the differences *)

Definition apply_change (m : gmap string (string * Z)) (c : ConfigChange) : gmap string (string * Z) :=
  match Change c with
  | ChangeTypeSet => <[Key c := (Value c, Version c)]> m
  | ChangeTypeDelete => delete (Key c) m
  end.

Lemma apply_other m cs k : k ∉ Key <$> cs → foldl apply_change m cs !! k = m !! k.
Proof.
  revert m. induction cs as [|c cs IH]; intros m Hk; cbn; [done|]. rewrite IH by set_solver. unfold apply_change.
  destruct (Change c); [rewrite lookup_insert_ne|rewrite lookup_delete_ne]; set_solver.
Qed.

Lemma apply_one m cs c :
  NoDup (Key <$> cs) → c ∈ cs →
  foldl apply_change m cs !! Key c =
  match Change c with ChangeTypeSet => Some (Value c, Version c) | ChangeTypeDelete => None end.
Proof.
  revert m. induction cs as [|d cs IH]; intros m Hnd Hin; [by apply elem_of_nil in Hin|]. cbn in *.
  apply NoDup_cons in Hnd as [Hd Hnd]. apply elem_of_cons in Hin as [->|Hin]; [|by apply IH].
  rewrite apply_other by done. unfold apply_change. destruct (Change d); [apply lookup_insert_eq|apply lookup_delete_eq].
Qed.

Section Consul.
Context (ns prefix : string) (oldPairs newPairs : gmap string (string * Z)).

(** Full keys are the prefix and a key that does not start with a slash. *)
Definition full (k : string) : string := prefix +:+ k.
Hypothesis keys_ok : ∀ key, is_Some (oldPairs !! key) ∨ is_Some (newPairs !! key) →
  ∃ k, key = full k ∧ HasPrefix k "/" = false.
(** Consul changes the index with the value. *)
Hypothesis index_ok : ∀ key v v' i, oldPairs !! key = Some (v, i) → newPairs !! key = Some (v', i) → v = v'.

Lemma extractKey_full k : HasPrefix k "/" = false → extractKey prefix (full k) = k.
Proof. intros H. unfold extractKey, full. rewrite TrimPrefix_app. by apply TrimPrefix_none. Qed.

Definition change_of (key : string) : option ConfigChange :=
  match newPairs !! key with
  | Some (v, idx) =>
      match oldPairs !! key with
      | Some (_, idx') => if idx' =? idx then None else Some (MkChange ns (extractKey prefix key) v idx ChangeTypeSet)
      | None => Some (MkChange ns (extractKey prefix key) v idx ChangeTypeSet)
      end
  | None =>
      match oldPairs !! key with
      | Some (_, idx) => Some (MkChange ns (extractKey prefix key) "" idx ChangeTypeDelete)
      | None => None
      end
  end.

Lemma change_of_key key c : change_of key = Some c → Key c = extractKey prefix key ∧ ∃ k, key = full k ∧ HasPrefix k "/" = false.
Proof.
  unfold change_of. intros H. split; [repeat case_match; by simplify_eq|]. apply keys_ok.
  destruct (newPairs !! key) as [[]|]; [right; by eexists|]. destruct (oldPairs !! key); [left; by eexists|done].
Qed.

Lemma omap_keys (f : string → option ConfigChange) order :
  NoDup order → (∀ key c, f key = Some c → change_of key = Some c) → NoDup (Key <$> omap f order).
Proof.
  intros Hnd Hf. induction Hnd as [|x order Hx Hnd IH]; cbn; [constructor|].
  destruct (f x) as [c|] eqn:Hc; [|done]. cbn. apply NoDup_cons. split; [|done].
  intros (d & Hd & (y & Hy & Hfy)%list_elem_of_omap)%list_elem_of_fmap. apply Hf in Hc, Hfy.
  apply change_of_key in Hc as (Hc & k & -> & Hk), Hfy as (Hy' & k' & -> & Hk').
  rewrite Hc, Hy', !extractKey_full in Hd by done. subst. done.
Qed.

Lemma diff_elem order order' c :
  range_of newPairs order → range_of oldPairs order' →
  c ∈ diffConsulPairs ns prefix order oldPairs newPairs order' ↔ ∃ key, change_of key = Some c.
Proof.
  intros Ho Ho'. unfold diffConsulPairs. rewrite elem_of_app, !list_elem_of_omap.
  assert (Hin : ∀ (m : gmap string (string * Z)) o key, range_of m o → is_Some (m !! key) → key ∈ o).
  { intros m o key -> [x Hx]. apply list_elem_of_fmap. exists (key, x). by rewrite elem_of_map_to_list. }
  unfold change_of. split.
  - intros [(key & _ & H)|(key & _ & H)]; exists key.
    + by destruct (newPairs !! key) as [[]|].
    + destruct (oldPairs !! key) as [[]|]; [|done]. by destruct (newPairs !! key).
  - intros (key & H). destruct (newPairs !! key) as [[v i]|] eqn:Hn.
    + left. exists key. rewrite Hn. split; [|done]. eapply Hin; [done|by eexists].
    + right. exists key. destruct (oldPairs !! key) as [[]|] eqn:Hold; [|done]. rewrite Hn. split; [|done].
      eapply Hin; [done|by eexists].
Qed.

Lemma diff_keys order order' :
  range_of newPairs order → range_of oldPairs order' →
  NoDup (Key <$> diffConsulPairs ns prefix order oldPairs newPairs order').
Proof.
  intros Ho Ho'. unfold diffConsulPairs. rewrite fmap_app. apply NoDup_app.
  assert (Hnd : ∀ (m : gmap string (string * Z)) o, range_of m o → NoDup o).
  { intros m o ->. apply NoDup_fst_map_to_list. }
  split_and!.
  - apply omap_keys; [by eapply Hnd|]. intros key c. unfold change_of. by destruct (newPairs !! key) as [[]|].
  - intros k (c & -> & (x & _ & Hx)%list_elem_of_omap)%list_elem_of_fmap (d & Hd & (y & _ & Hy)%list_elem_of_omap)%list_elem_of_fmap.
    assert (Hcx : change_of x = Some c) by (unfold change_of; by destruct (newPairs !! x) as [[]|]).
    assert (Hcy : change_of y = Some d).
    { unfold change_of. destruct (oldPairs !! y) as [[]|]; [|done]. by destruct (newPairs !! y). }
    apply change_of_key in Hcx as (Hc & kx & -> & Hkx), Hcy as (Hd' & ky & -> & Hky).
    rewrite Hc, Hd', !extractKey_full in Hd by done. subst ky.
    destruct (newPairs !! full kx) as [[]|]; [|done]. by destruct (oldPairs !! full kx) as [[]|].
  - apply omap_keys; [by eapply Hnd|]. intros key c. unfold change_of.
    destruct (oldPairs !! key) as [[]|]; [|done]. by destruct (newPairs !! key).
Qed.

(** Applying the differences to what was listed before gives what is listed
    now, for every order in which the listings are enumerated. *)
Theorem diff_applies order order' m k :
  range_of newPairs order → range_of oldPairs order' → HasPrefix k "/" = false →
  (∀ k, HasPrefix k "/" = false → m !! k = oldPairs !! full k) →
  foldl apply_change m (diffConsulPairs ns prefix order oldPairs newPairs order') !! k = newPairs !! full k.
Proof.
  intros Ho Ho' Hk Hm. pose proof (diff_keys order order' Ho Ho') as Hnd.
  destruct (change_of (full k)) as [c|] eqn:Hc.
  - assert (Hin : c ∈ diffConsulPairs ns prefix order oldPairs newPairs order') by (apply diff_elem; eauto).
    destruct (change_of_key _ _ Hc) as [Hkey _]. rewrite extractKey_full in Hkey by done. rewrite <-Hkey at 1.
    rewrite apply_one by done.
    unfold change_of in Hc. destruct (newPairs !! full k) as [[v i]|], (oldPairs !! full k) as [[v' i']|]; try done.
    + destruct (i' =? i); [done|]. by injection Hc as <-.
    + by injection Hc as <-.
    + by injection Hc as <-.
  - rewrite apply_other.
    + rewrite Hm by done. unfold change_of in Hc. repeat case_match; simplify_eq; [|done].
      match goal with H : (_ =? _) = true |- _ => apply Z.eqb_eq in H; subst end. f_equal. f_equal. by eapply index_ok.
    + intros (c & Hck & (key & Hkey)%diff_elem)%list_elem_of_fmap; [|done..].
      destruct (change_of_key _ _ Hkey) as (Hk' & k' & -> & Hs). rewrite extractKey_full in Hk' by done. subst. congruence.
Qed.

End Consul.

(** ** Concrete behaviour *)

Definition ex_start : ConfigCenter * MemoryProvider := subscribed "app" 0 (30 * GoTime.Second) NewMemoryProvider.
Definition ex_w1 : ConfigCenter * MemoryProvider := (ex_start.1, (P_Set "app" "k" "one" ex_start.2).1).
Definition ex_w2 : ConfigCenter * MemoryProvider :=
  ((handleChange 5 (MkChange "app" "k" "one" 1 ChangeTypeSet) ex_w1.1).1,
   MkProvider (data ex_w1.2) (p_watchers ex_w1.2) (<[0%nat := []]> (chans ex_w1.2)) (version ex_w1.2)).

Lemma subscribed_reads_current_witness : (Get 6 "app" "k" ex_w2).2 = P_Get "app" "k" ex_w2.2.
Proof.
  apply (subscribed_reads_current "app" 0 (30 * GoTime.Second) NewMemoryProvider ex_w2 6 "k" []); try done.
  eapply rtc_l; [apply (s_ext_set "app" 0 "app" "k" "one" ex_start.1 ex_start.2); intros _ q Hq; vm_compute in Hq; simplify_eq; unfold watch_cap; cbn; lia|].
  eapply rtc_l; [apply (s_handle "app" 0 5 (MkChange "app" "k" "one" 1 ChangeTypeSet) [] ex_w1.1 ex_w1.2); reflexivity|].
  apply rtc_refl.
Defined.

(** The centre stores a change without looking at versions: a change that was
    announced earlier and is handled after a later [Set] has returned brings the
    old value back. *)
Theorem handled_change_goes_back :
  let w := (Set_ 1 "app" "k" "two" ((Set_ 0 "app" "k" "one" ex_start).1)).1 in
  let cc := (handleChange 2 (MkChange "app" "k" "one" 1 ChangeTypeSet) w.1).1 in
  (Get 3 "app" "k" w).2 = Ok ("two", 2) ∧ (Get 3 "app" "k" (cc, w.2)).2 = Ok ("one", 1).
Proof. vm_compute. done. Qed.

(** Seventeen changes before the watcher runs: the last announcement is dropped
    and the cache keeps the one before it. *)
Definition ex_full : MemoryProvider :=
  foldl (λ p v, (P_Set "app" "k" v p).1) ex_start.2
    ["1"; "2"; "3"; "4"; "5"; "6"; "7"; "8"; "9"; "10"; "11"; "12"; "13"; "14"; "15"; "16"; "17"].

Theorem dropped_change_leaves_stale :
  let cc := foldl (λ cc c, (handleChange 1 c cc).1) ex_start.1 (default [] (chans ex_full !! 0%nat)) in
  (Get 2 "app" "k" (cc, ex_full)).2 = Ok ("16", 16) ∧ P_Get "app" "k" ex_full = Ok ("17", 17).
Proof. vm_compute. done. Qed.

(** Two writers may announce their changes in the opposite order, since the
    announcement is made after the lock is released. *)
Theorem announcements_cross :
  let '(p, v1) := P_store "app" "k" "one" ex_start.2 in
  let '(p, v2) := P_store "app" "k" "two" p in
  let p := P_notify (MkChange "app" "k" "one" v1 ChangeTypeSet) (P_notify (MkChange "app" "k" "two" v2 ChangeTypeSet) p) in
  let cc := foldl (λ cc c, (handleChange 1 c cc).1) ex_start.1 (default [] (chans p !! 0%nat)) in
  (Get 2 "app" "k" (cc, p)).2 = Ok ("one", 1) ∧ P_Get "app" "k" p = Ok ("two", 2).
Proof. vm_compute. done. Qed.

(** [Delete] of a key that the provider no longer has leaves the cached value:
    the call reports that there is no such key, and [Get] still returns it. *)
Theorem delete_keeps_cached_value :
  let w := (Set_ 0 "app" "k" "one" (New (30 * GoTime.Second), NewMemoryProvider)).1 in
  let w := (w.1, (P_Delete "app" "k" w.2).1) in
  let '(w, e) := Delete "app" "k" w in
  e = Some ErrNotFound ∧ (Get 1 "app" "k" w).2 = Ok ("one", 1).
Proof. vm_compute. done. Qed.
