(* ===== verification/RwProxy.v ===== *)
(** * plugins/db/rwproxy: read-write splitting

    client.go: the classification of a statement by its first keyword, the
    choice of a replica, the query and transaction methods, [Ping], [Close] and
    the changes of the replica set.  A [*sql.DB] is a number, [None] the nil
    pointer; a method's result names the database that gets the statement.
    What a database answers is an argument where the code looks at it.  The
    counter is changed atomically and everything else by one goroutine, as the
    code needs it to be: [ForceMaster], [AddReplica] and [RemoveReplica] take no
    lock. *)

From S2P Require Import Prelude GoString.
From stdpp Require Import pretty.
Import GoError.

Open Scope Z_scope.

(** ** Classification *)

Inductive QueryType := QueryUnknown | QueryWrite | QueryRead.

#[export] Instance QueryType_eq_dec : EqDecision QueryType.
Proof. solve_decision. Defined.

(** [\s] of a Go regular expression. *)
Definition re_space (r : Z) : bool := (r =? 9) || (r =? 10) || (r =? 12) || (r =? 13) || (r =? 32).

Fixpoint skip_spaces (rs : list Z) : list Z :=
  match rs with
  | r :: rs' => if re_space r then skip_spaces rs' else rs
  | [] => []
  end.

(** [(?i)word\s+] at the front. *)
Definition word_at (word : string) (rs : list Z) : bool :=
  let w := runes word in
  bool_decide (fold_rune <$> take (length w) rs = fold_rune <$> w) &&
  match drop (length w) rs with r :: _ => re_space r | [] => false end.

(** [^\s*(?i)(word|...)\s+]: no keyword begins with a space, so the spaces in
    front are all those there are. *)
Definition MatchRunes (words : list string) (rs : list Z) : bool :=
  existsb (λ w, word_at w (skip_spaces rs)) words.

Definition writePattern : list string :=
  ["INSERT"; "UPDATE"; "DELETE"; "REPLACE"; "CREATE"; "DROP"; "ALTER"; "TRUNCATE"; "MERGE"; "UPSERT"; "GRANT";
   "REVOKE"; "LOCK"].

Definition readPattern : list string := ["SELECT"].

Definition getQueryType (query : string) : QueryType :=
  let trimmed := trim_space (runes query) in
  if MatchRunes writePattern trimmed then QueryWrite
  else if MatchRunes readPattern trimmed then QueryRead
  else QueryUnknown.

(** ** The client *)

Notation DB := nat.

Inductive LBStrategy := LBStrategyRoundRobin | LBStrategyRandom.

Record Config := MkConfig {
  Master : option DB;
  Replicas : list (option DB);
  Strategy : LBStrategy;
  MaxReplicaLag : Z;
  Forced : bool
}.

Record Client := MkClient { config : Config; roundRobin : Z }.

Definition New (cfg : Config) : Client := MkClient cfg 0.

Definition set_replicas (rs : list (option DB)) (c : Client) : Client :=
  MkClient (MkConfig (Master (config c)) rs (Strategy (config c)) (MaxReplicaLag (config c)) (Forced (config c)))
    (roundRobin c).

(** Both strategies add one to the counter and take it modulo the number of
    replicas; [int] has 64 bits, so the index is not negative. *)
Definition next_index (c : Client) : Z := GoInt.u32 (roundRobin c + 1) mod Z.of_nat (length (Replicas (config c))).

Definition selectReplica (c : Client) : option DB * Client :=
  match Replicas (config c) with
  | [] => (None, c)
  | _ =>
      if Forced (config c) then (None, c)
      else
        let pick := (mjoin (Replicas (config c) !! Z.to_nat (next_index c)),
                     MkClient (config c) (GoInt.u32 (roundRobin c + 1))) in
        match Strategy (config c) with
        | LBStrategyRandom => pick
        | LBStrategyRoundRobin => pick
        end
  end.

Definition getDB (qt : QueryType) (c : Client) : option DB * Client :=
  if bool_decide (qt = QueryWrite) || Forced (config c) then (Master (config c), c)
  else
    match selectReplica c with
    | (Some db, c') => (Some db, c')
    | (None, c') => (Master (config c), c')
    end.

(** ** Statements *)

Definition available (db : option DB) (msg : string) : result DB :=
  match db with Some d => Ok d | None => Err (Errorf msg []) end.

Definition Query (query : string) (c : Client) : result DB * Client :=
  let (db, c') := getDB (getQueryType query) c in
  (available db "no database available for query", c').

(** [None] is the nil row. *)
Definition QueryRow (query : string) (c : Client) : option DB * Client := getDB (getQueryType query) c.

Definition Exec (c : Client) : result DB * Client :=
  let (db, c') := getDB QueryWrite c in
  (available db "no master database available", c').

Definition Prepare (c : Client) : result DB * Client :=
  let (db, c') := getDB QueryWrite c in
  (available db "no master database available", c').

(** [beginTx] is the error of [BeginTx] on a database. *)
Definition Begin (beginTx : DB → option error) (c : Client) : result DB :=
  match Master (config c) with
  | None => Err (Errorf "no master database available" [])
  | Some d => match beginTx d with Some e => Err e | None => Ok d end
  end.

Inductive fn_result := FnOk | FnErr (e : error) | FnPanic (msg : string).

Inductive event := EBegin (d : DB) | EFn (d : DB) | ECommit (d : DB) | ERollback (d : DB).

#[export] Instance event_eq_dec : EqDecision event.
Proof. solve_decision. Defined.

(** [fn] is what the function does with the transaction, [commit] the error of
    the commit; the error of a rollback is dropped. *)
Definition Transaction (beginTx : DB → option error) (fn : fn_result) (commit : option error) (c : Client) :
    list event * outcome (option error) :=
  match Begin beginTx c with
  | Err e => ([], Ret (Some e))
  | Ok d =>
      match fn with
      | FnPanic p => ([EBegin d; EFn d; ERollback d], Panic p [])
      | FnErr e => ([EBegin d; EFn d; ERollback d], Ret (Some e))
      | FnOk => ([EBegin d; EFn d; ECommit d], Ret commit)
      end
  end.

(** ** Health, statistics and shutdown *)

(** The errors of [Ping], in the order the goroutines end: [order] lists the
    master as 0 and replica i as i + 1. *)
Definition ping_of (ping : DB → option error) (c : Client) (i : nat) : list error :=
  match i with
  | O => match Master (config c) with
         | Some d => match ping d with Some e => [ErrorfW "master ping failed: %w" [] e] | None => [] end
         | None => []
         end
  | S i => match mjoin (Replicas (config c) !! i) with
           | Some d => match ping d with Some e => [ErrorfW "replica %d ping failed: %w" [pretty i] e] | None => [] end
           | None => []
           end
  end.

(** The errors are formatted with [%v], so none of them is wrapped. *)
Definition Ping (ping : DB → option error) (order : list nat) (c : Client) : option error :=
  match order ≫= ping_of ping c with
  | [] => None
  | _ => Some (Errorf "ping errors: %v" [])
  end.

(** The databases whose statistics [Stats] returns: those that are not nil. *)
Definition Stats (c : Client) : option DB * list DB := (Master (config c), omap id (Replicas (config c))).

Fixpoint close_replicas (close : DB → option error) (i : nat) (rs : list (option DB)) : outcome (list DB * list error) :=
  match rs with
  | [] => Ret ([], [])
  | None :: _ => Panic "invalid memory address or nil pointer dereference" []
  | Some d :: rs =>
      let! r := close_replicas close (S i) rs in
      Ret (d :: r.1,
           match close d with Some e => [ErrorfW "failed to close replica %d: %w" [pretty i] e] | None => [] end ++ r.2)
  end.

(** The databases closed, in order, and the first error. *)
Definition Close (close : DB → option error) (c : Client) : outcome (list DB * option error) :=
  let m := match Master (config c) with
           | Some d => ([d], match close d with Some e => [ErrorfW "failed to close master: %w" [] e] | None => [] end)
           | None => ([], [])
           end in
  let! r := close_replicas close 0 (Replicas (config c)) in
  Ret (m.1 ++ r.1, head (m.2 ++ r.2)).

(** ** Changes *)

Definition ForceMaster (force : bool) (c : Client) : Client :=
  MkClient (MkConfig (Master (config c)) (Replicas (config c)) (Strategy (config c)) (MaxReplicaLag (config c)) force)
    (roundRobin c).

Definition IsMasterForced (c : Client) : bool := Forced (config c).
Definition GetReplicaCount (c : Client) : Z := Z.of_nat (length (Replicas (config c))).
Definition GetMasterDB (c : Client) : option DB := Master (config c).

Definition AddReplica (db : option DB) (c : Client) : Client := set_replicas (Replicas (config c) ++ [db]) c.

Definition RemoveReplica (index : Z) (c : Client) : option error * Client :=
  let rs := Replicas (config c) in
  if (index <? 0) || (index >=? Z.of_nat (length rs)) then (Some (Errorf "invalid replica index: %d" [pretty index]), c)
  else (None, set_replicas (take (Z.to_nat index) rs ++ drop (S (Z.to_nat index)) rs) c).

(** ** What a pattern matches *)

(** The declarative reading of [^\s*(?i)word\s+]. *)
Definition starts_with_word (word : string) (rs : list Z) : Prop :=
  ∃ sp k s rest, rs = sp ++ k ++ s :: rest ∧ Forall (λ r, re_space r = true) sp ∧
    fold_rune <$> k = fold_rune <$> runes word ∧ re_space s = true.

Definition keyword (word : string) : bool :=
  match runes word with [] => false | r :: _ => negb (re_space (fold_rune r)) end.

Lemma skip_spaces_split rs :
  ∃ sp, rs = sp ++ skip_spaces rs ∧ Forall (λ r, re_space r = true) sp.
Proof.
  induction rs as [|r rs (sp & E & Hsp)]; cbn [skip_spaces]; [by exists []|].
  destruct (re_space r) eqn:Hr; [|by exists []]. exists (r :: sp). split; [by rewrite E at 1|by constructor].
Qed.

Lemma skip_spaces_app sp rs : Forall (λ r, re_space r = true) sp → skip_spaces (sp ++ rs) = skip_spaces rs.
Proof. induction 1 as [|r sp Hr _ IH]; [done|]. cbn. by rewrite Hr. Qed.

Lemma fold_space r : re_space r = true → fold_rune r = r.
Proof.
  unfold re_space, fold_rune, within. rewrite !orb_true_iff, !Z.eqb_eq. intros H.
  repeat case_match; rewrite ?andb_true_iff, ?Z.leb_le, ?Z.eqb_eq in *; lia.
Qed.

Lemma word_at_spec word rs :
  word_at word rs = true ↔
  ∃ k s rest, rs = k ++ s :: rest ∧ fold_rune <$> k = fold_rune <$> runes word ∧ re_space s = true.
Proof.
  unfold word_at. rewrite andb_true_iff, bool_decide_eq_true. split.
  - intros [E H]. exists (take (length (runes word)) rs).
    destruct (drop (length (runes word)) rs) as [|s rest] eqn:D; [done|]. exists s, rest.
    split_and!; [|done..]. by rewrite <-D, take_drop.
  - intros (k & s & rest & -> & E & Hs).
    assert (length k = length (runes word)) as <- by (by rewrite <-(length_fmap fold_rune k), E, length_fmap).
    by rewrite take_app_length, drop_app_length.
Qed.

Lemma starts_with_word_spec word rs :
  keyword word = true → word_at word (skip_spaces rs) = true ↔ starts_with_word word rs.
Proof.
  unfold keyword. intros Hk. rewrite word_at_spec. split.
  - intros (k & s & rest & E & Ek & Hs). destruct (skip_spaces_split rs) as (sp & Hrs & Hsp).
    exists sp, k, s, rest. by rewrite <-E, <-Hrs.
  - intros (sp & k & s & rest & -> & Hsp & Ek & Hs). exists k, s, rest. split; [|done].
    rewrite skip_spaces_app by done. destruct k as [|r k]; destruct (runes word) as [|w ws]; try done.
    cbn in Ek |- *. injection Ek as Er Ek. destruct (re_space r) eqn:Hr; [|done].
    apply fold_space in Hr as Hf. rewrite <-Er, Hf, Hr in Hk. done.
Qed.

(** A statement is a write exactly when its text, trimmed, begins with one of
    the thirteen keywords, in any case, followed by white space. *)
Theorem getQueryType_write query :
  getQueryType query = QueryWrite ↔
  ∃ w, w ∈ writePattern ∧ starts_with_word w (trim_space (runes query)).
Proof.
  transitivity (MatchRunes writePattern (trim_space (runes query)) = true).
  { unfold getQueryType. destruct (MatchRunes writePattern _); [done|]. by destruct (MatchRunes readPattern _). }
  unfold MatchRunes. rewrite existsb_exists.
  assert (∀ w, In w writePattern → keyword w = true) as Hk by (by apply forallb_forall; vm_compute).
  split; intros (w & Hw & H); exists w; rewrite list_elem_of_In in *;
    (split; [done|]); apply (starts_with_word_spec w); auto.
Qed.

(** ** Routing *)

Definition is_write (query : string) : bool := bool_decide (getQueryType query = QueryWrite).

Definition counter_ok (c : Client) : Prop := GoInt.in_u32 (roundRobin c).

(** A statement classified as a write, [Exec], [Prepare] and [Begin] go to the
    master. *)
Lemma Query_write q c :
  is_write q = true → Query q c = (available (Master (config c)) "no database available for query", c).
Proof. unfold is_write, Query, getDB. by intros ->. Qed.

Lemma Exec_master c : Exec c = (available (Master (config c)) "no master database available", c).
Proof. reflexivity. Qed.

Lemma next_index_range c : Replicas (config c) ≠ [] → 0 <= next_index c < Z.of_nat (length (Replicas (config c))).
Proof. intros H. apply Z.mod_pos_bound. destruct (Replicas (config c)); cbn; [done|lia]. Qed.

(** Another statement goes to the replica the counter names, unless the master
    is forced or there is no replica. *)
Lemma Query_read q c rs :
  is_write q = false → Forced (config c) = false → Replicas (config c) = Some <$> rs → rs ≠ [] →
  ∃ d, rs !! Z.to_nat (next_index c) = Some d ∧
       Query q c = (Ok d, MkClient (config c) (GoInt.u32 (roundRobin c + 1))).
Proof.
  intros Hq Hf Hr Hne. unfold is_write in Hq.
  destruct (lookup_lt_is_Some_2 rs (Z.to_nat (next_index c))) as [d Hd].
  { pose proof (next_index_range c) as Hi. rewrite Hr, length_fmap in Hi.
    destruct Hi; [by destruct rs|lia]. }
  exists d. split; [done|]. unfold Query, getDB. rewrite Hq, Hf. cbn [orb].
  unfold selectReplica. rewrite Hf. rewrite Hr at 1. destruct rs as [|r rs]; [done|]. cbn [fmap list_fmap].
  rewrite Hr, list_lookup_fmap, Hd. cbn. by destruct (Strategy (config c)).
Qed.

Fixpoint queries (qs : list string) (c : Client) : list (bool * result DB) * Client :=
  match qs with
  | [] => ([], c)
  | q :: qs =>
      let (r, c) := Query q c in
      let (out, c) := queries qs c in
      ((is_write q, r) :: out, c)
  end.

Definition reads_of (out : list (bool * result DB)) : list (result DB) := (filter (λ o, o.1 = false) out).*2.

Definition reads_in (qs : list string) : nat := length (filter (λ q, is_write q = false) qs).

(** The [j]th read after the counter stood at [rr] goes to replica
    [(rr + j) mod n]. *)
Definition slot (n : nat) (rr : Z) (j : nat) : nat := Z.to_nat ((rr + Z.of_nat j) mod Z.of_nat n).

Lemma queries_trace qs c rs d :
  Forced (config c) = false → Replicas (config c) = Some <$> rs → rs ≠ [] → Master (config c) = Some d →
  counter_ok c → roundRobin c + Z.of_nat (reads_in qs) < 2 ^ 32 →
  let out := (queries qs c).1 in
  (∀ r, (true, r) ∈ out → r = Ok d) ∧
  Forall2 (λ j r, ∃ x, rs !! slot (length rs) (roundRobin c) j = Some x ∧ r = Ok x)
    (seq 1 (reads_in qs)) (reads_of out).
Proof.
  intros Hf Hr Hne Hm. revert c Hf Hr Hm. induction qs as [|q qs IH]; intros c Hf Hr Hm Hc Hb.
  { split; [|constructor]. intros r Hin. by apply elem_of_nil in Hin. }
  unfold reads_in in *. cbn [queries]. rewrite filter_cons in *. destruct (is_write q) eqn:Hq.
  - rewrite Query_write by done. rewrite Hm. cbn [available].
    rewrite decide_False in Hb |- * by congruence.
    destruct (IH c Hf Hr Hm Hc Hb) as [HW HR]. destruct (queries qs c) as [out c2]. cbn [fst] in *. split.
    + intros r [E|?]%elem_of_cons; [congruence|auto].
    + unfold reads_of. rewrite filter_cons, decide_False by done. exact HR.
  - destruct (Query_read q c rs Hq Hf Hr Hne) as (x & Hx & ->). rewrite decide_True in Hb |- * by done.
    cbn [length] in Hb |- *. unfold counter_ok in *.
    assert (GoInt.u32 (roundRobin c + 1) = roundRobin c + 1) as Hu.
    { unfold GoInt.u32, GoInt.in_u32 in *. apply Z.mod_small. lia. }
    rewrite Hu. destruct (IH (MkClient (config c) (roundRobin c + 1))) as [HW HR];
      [done..|unfold GoInt.in_u32 in *; cbn; lia|cbn; lia|].
    destruct (queries qs _) as [out c2]. cbn [fst config roundRobin] in *. split.
    + intros r [E|?]%elem_of_cons; [done|auto].
    + unfold reads_of. rewrite filter_cons, decide_True by done. cbn [seq fmap list_fmap]. constructor.
      * exists x. split; [|done]. rewrite <-Hx. f_equal. unfold slot, next_index.
        rewrite Hu, Hr, length_fmap. do 3 f_equal.
      * rewrite <-fmap_S_seq. apply Forall2_fmap_l. eapply Forall2_impl; [exact HR|].
        intros j r (y & Hy & ->). exists y. split; [|done]. rewrite <-Hy. unfold slot. do 3 f_equal. cbn. lia.
Qed.

(** [n] reads in a row visit each of the [n] replicas once. *)
Lemma slots_round n rr s : (0 < n)%nat → slot n rr <$> seq s n ≡ₚ seq 0 n.
Proof.
  intros Hn. apply submseteq_length_Permutation; [|by rewrite length_fmap, !length_seq].
  apply NoDup_submseteq.
  - apply NoDup_fmap_2_strong; [|apply NoDup_seq]. intros i j Hi%elem_of_seq Hj%elem_of_seq E.
    unfold slot in E.
    pose proof (Z.mod_pos_bound (rr + Z.of_nat i) (Z.of_nat n)).
    pose proof (Z.mod_pos_bound (rr + Z.of_nat j) (Z.of_nat n)).
    pose proof (Z.div_mod (rr + Z.of_nat i) (Z.of_nat n)).
    pose proof (Z.div_mod (rr + Z.of_nat j) (Z.of_nat n)).
    assert ((rr + Z.of_nat i) / Z.of_nat n = (rr + Z.of_nat j) / Z.of_nat n) by nia. nia.
  - intros x Hx. apply list_elem_of_fmap in Hx as (j & -> & _). apply elem_of_seq. unfold slot.
    pose proof (Z.mod_pos_bound (rr + Z.of_nat j) (Z.of_nat n)). lia.
Qed.

Lemma lookup_all {A} (rs : list A) (dflt : A) : (λ i, default dflt (rs !! i)) <$> seq 0 (length rs) = rs.
Proof.
  induction rs as [|r rs IH]; [done|]. cbn [length seq fmap list_fmap]. f_equal.
  rewrite <-fmap_S_seq, <-list_fmap_compose. exact IH.
Qed.

Lemma slots_rounds {A} (rs : list A) (dflt : A) rr m s :
  rs ≠ [] →
  (λ j, default dflt (rs !! slot (length rs) rr j)) <$> seq s (m * length rs) ≡ₚ concat (replicate m rs).
Proof.
  intros Hne. assert (0 < length rs)%nat by (destruct rs; cbn; [done|lia]). revert s.
  induction m as [|m IH]; intros s; [done|]. cbn [Nat.mul replicate concat].
  rewrite seq_app, fmap_app. f_equiv; [|apply IH].
  change (λ j, default dflt (rs !! slot (length rs) rr j))
    with ((λ i, default dflt (rs !! i)) ∘ slot (length rs) rr).
  by rewrite list_fmap_compose, slots_round, lookup_all.
Qed.

(** Read-write splitting is right and fair: over any run of queries with
    the master not forced and replicas present, every statement classified as a
    write goes to the master, and as long as the 32-bit counter does not wrap the
    others are spread evenly: over m times n of them each of the n replicas gets
    exactly m. *)
Theorem rw_split_fair c rs d qs m :
  Forced (config c) = false → Replicas (config c) = Some <$> rs → rs ≠ [] → Master (config c) = Some d →
  counter_ok c → roundRobin c + Z.of_nat (reads_in qs) < 2 ^ 32 → reads_in qs = (m * length rs)%nat →
  let out := (queries qs c).1 in
  out.*1 = is_write <$> qs ∧
  (∀ r, (true, r) ∈ out → r = Ok d) ∧
  reads_of out ≡ₚ Ok <$> concat (replicate m rs).
Proof.
  intros Hf Hr Hne Hm Hc Hb Hq out. subst out. split; [|].
  { clear. revert c. induction qs as [|q qs IH]; intros c; [done|]. cbn. destruct (Query q c) as [r c1].
    specialize (IH c1). destruct (queries qs c1). cbn in *. by rewrite IH. }
  destruct (queries_trace qs c rs d) as [HW HR]; [done..|]. split; [done|].
  destruct rs as [|r0 rs0] eqn:Ers; [done|]. rewrite <-Ers in *.
  assert (reads_of (queries qs c).1 =
          Ok <$> ((λ j, default r0 (rs !! slot (length rs) (roundRobin c) j)) <$> seq 1 (reads_in qs))) as ->.
  { rewrite <-list_fmap_compose. symmetry. apply list_eq_Forall2, Forall2_fmap_l.
    eapply Forall2_impl; [exact HR|]. intros j r (x & Hx & ->). cbn. by rewrite Hx. }
  rewrite Hq. by rewrite slots_rounds by congruence.
Qed.

(** ** Transactions *)

(** A transaction runs on the master; the function's error or panic rolls it
    back once and is what the caller gets, and it is committed, once, exactly when
    the function returned nil. *)
Theorem rw_transaction beginTx fn commit c evs res :
  Transaction beginTx fn commit c = (evs, res) →
  (∀ e, e ∈ evs → ∃ d, Master (config c) = Some d ∧ e ∈ [EBegin d; EFn d; ECommit d; ERollback d]) ∧
  (res = Ret None ↔ ∃ d, evs = [EBegin d; EFn d; ECommit d] ∧ fn = FnOk ∧ commit = None) ∧
  (∀ d, EFn d ∈ evs → (ECommit d ∈ evs ↔ fn = FnOk) ∧ (ERollback d ∈ evs ↔ fn ≠ FnOk)).
Proof.
  unfold Transaction, Begin. intros H.
  destruct (Master (config c)) as [d|]; [destruct (beginTx d); [|destruct fn]|];
    injection H as <- <-; set_solver.
Qed.

(** ** Ping *)

(** [Ping] returns nil exactly when every database that is not nil answers,
    whatever the order in which the goroutines end. *)
Theorem Ping_all ping order c :
  order ≡ₚ seq 0 (S (length (Replicas (config c)))) →
  Ping ping order c = None ↔
  (∀ d, Master (config c) = Some d ∨ Some d ∈ Replicas (config c) → ping d = None).
Proof.
  intros Ho.
  assert (Ping ping order c = None ↔ ∀ i, (i < S (length (Replicas (config c))))%nat → ping_of ping c i = []) as ->.
  { transitivity (order ≫= ping_of ping c = []).
    { unfold Ping. by destruct (order ≫= ping_of ping c). }
    split.
    - intros H i Hi. apply elem_of_nil_inv. intros e He. apply (not_elem_of_nil e). rewrite <-H.
      apply list_elem_of_bind. exists i. split; [done|]. rewrite Ho. apply elem_of_seq. lia.
    - intros H. apply elem_of_nil_inv. intros e (i & He & Hi)%list_elem_of_bind.
      rewrite Ho, elem_of_seq in Hi. rewrite H in He by lia. by apply elem_of_nil in He. }
  split.
  - intros H d [Hd|[i Hi]%list_elem_of_lookup].
    + specialize (H O ltac:(lia)). cbn in H. rewrite Hd in H. by destruct (ping d).
    + apply lookup_lt_Some in Hi as Hl. specialize (H (S i) ltac:(lia)). cbn in H.
      rewrite Hi in H. cbn in H. by destruct (ping d).
  - intros H [|i] Hi; cbn.
    + destruct (Master (config c)) as [d|] eqn:Hd; [|done]. by rewrite H by auto.
    + destruct (Replicas (config c) !! i) as [[d|]|] eqn:Hd; cbn; [|done..].
      by rewrite H by (right; by eapply list_elem_of_lookup_2).
Qed.

(** ** Where the splitting goes wrong *)

Definition example_client : Client := New (MkConfig (Some 0%nat) [Some 1%nat; Some 2%nat; Some 3%nat] LBStrategyRandom 5 false).

(** Only the first word is looked at, so these statements, which write or take
    row locks on the server that runs them, are sent to a replica by [Query] and
    [QueryRow]. *)
Theorem writes_reach_replicas :
  Forall (λ q, (Query q example_client).1 = Ok 2%nat)
    ["SELECT * FROM stock WHERE id = 1 FOR UPDATE";
     "WITH old AS (SELECT id FROM jobs) DELETE FROM jobs USING old RETURNING jobs.id";
     "/* audit */ INSERT INTO log(v) VALUES (1) RETURNING id";
     "UPDATE`stock` SET n = n - 1 RETURNING n";
     "CALL transfer(1, 2, 100)";
     "SET @@session.time_zone = '+00:00'"].
Proof. repeat constructor. Qed.

(** The strategy [LBStrategyRandom] is the round robin. *)
Theorem random_is_round_robin m rs lag f n :
  (selectReplica (MkClient (MkConfig m rs LBStrategyRandom lag f) n)).1 =
  (selectReplica (MkClient (MkConfig m rs LBStrategyRoundRobin lag f) n)).1.
Proof. unfold selectReplica. cbn. by destruct rs, f. Qed.

(** When the counter wraps, the replica that served last serves again. *)
Theorem wrap_repeats_replica :
  let c := MkClient (config example_client) (2 ^ 32 - 2) in
  reads_of (queries ["SELECT 1"; "SELECT 1"; "SELECT 1"] c).1 = [Ok 1; Ok 1; Ok 2]%nat.
Proof. vm_compute. reflexivity. Qed.

(** A nil replica: reads fall back to the master on its turn, and [Close]
    panics with the master already closed. *)
Theorem nil_replica c i rs :
  Replicas (config c) = rs → rs !! i = Some None → Forced (config c) = false →
  (Z.to_nat (next_index c) = i → (getDB QueryRead c).1 = Master (config c)) ∧
  (∀ close, ∃ msg, Close close c = Panic msg []).
Proof.
  intros Hr Hi Hf. split.
  - intros Hn. unfold getDB, selectReplica. rewrite Hf, Hr, Hn, Hi. cbn. by destruct rs, (Strategy (config c)).
  - intros close. unfold Close. rewrite Hr.
    assert (∀ k, ∃ msg, close_replicas close k rs = Panic msg []) as Hk;
      [|destruct (Hk 0%nat) as [msg ->]; by eexists].
    clear Hr. revert i Hi. induction rs as [|[d|] rs IH]; intros i Hi k; cbn; [done| |by eexists].
    destruct i as [|i]; [done|]. destruct (IH i Hi (S k)) as [msg ->]. by eexists.
Qed.

(** ** Witnesses *)

Definition example_queries : list string :=
  ["select 1"; "INSERT INTO t VALUES (1)"; "SELECT 2"; "  update t set a = 1"; "SELECT 3"; "SHOW TABLES"; "SELECT 5"; "SELECT 6"].

Lemma rw_split_fair_witness :
  let out := (queries example_queries example_client).1 in
  out.*1 = is_write <$> example_queries ∧
  (∀ r, (true, r) ∈ out → r = Ok 0%nat) ∧
  reads_of out ≡ₚ Ok <$> concat (replicate 2 [1; 2; 3]%nat).
Proof.
  apply (rw_split_fair example_client [1; 2; 3]%nat 0%nat example_queries 2);
    [reflexivity|reflexivity|discriminate|reflexivity|vm_compute; by split|vm_compute; done|vm_compute; done].
Defined.

Lemma rw_transaction_witness :
  Transaction (λ _, None) (FnErr (Sentinel "e")) None example_client =
    ([EBegin 0; EFn 0; ERollback 0]%nat, Ret (Some (Sentinel "e"))) ∧
  (ERollback 0%nat ∈ [EBegin 0; EFn 0; ERollback 0]%nat ↔ FnErr (Sentinel "e") ≠ FnOk).
Proof.
  split; [reflexivity|].
  apply (rw_transaction (λ _, None) (FnErr (Sentinel "e")) None example_client _ _ eq_refl).
  right. left.
Defined.

Lemma Ping_all_witness :
  Ping (λ d, if decide (d = 2%nat) then Some (Sentinel "down") else None) [2; 0; 3; 1]%nat example_client = None ↔
  (∀ d, Master (config example_client) = Some d ∨ Some d ∈ Replicas (config example_client) →
        (if decide (d = 2%nat) then Some (Sentinel "down") else None) = None).
Proof.
  apply Ping_all. apply (bool_decide_unpack _). vm_compute. exact I.
Defined.

Lemma nil_replica_witness :
  let c := AddReplica None example_client in
  (Z.to_nat (next_index c) = 3%nat → (getDB QueryRead c).1 = Some 0%nat) ∧
  (∀ close, ∃ msg, Close close c = Panic msg []).
Proof. exact (nil_replica (AddReplica None example_client) 3 _ eq_refl eq_refl eq_refl). Defined.
