(* ===== verification/DbPool.v ===== *)
(** * plugins/db: the client factory and the connection pools built on it

    - factory.go and driver.go: the driver registry and the factory, which
      keeps one client per configuration;
    - pool/pool.go: the named connection pool with its health check and
      reconnection;
    - poolcb/pool.go: the pool behind a circuit breaker ([DbBreaker]).

    Clients are numbered in the order they are opened; the world records which
    were closed.  An [env] is what the outside answers during one operation.
    Every operation is one step: those that change the pool hold its mutex, and
    the factory runs one creation per key at a time (singleflight).  [Acquire]
    reads the entry after it has released the mutex; it is a step here.  Contexts
    other than the wait for a slot are left out. *)

From S2P Require Import Prelude.
From S2P Require DbBreaker.
Import GoError GoTime.

Open Scope Z_scope.

(** ** Drivers and the factory *)

Definition TypeMySQL : string := "mysql".
Definition TypePostgres : string := "postgres".

(** A configuration: its type, and the other fields as [%v] prints them, which
    is all the factory reads of them. *)
Record Config := MkConfig { Type_ : string; Fields : string }.

#[export] Instance Config_eq_dec : EqDecision Config.
Proof. solve_decision. Defined.

Definition createKey (prefix text : string) : string := prefix +:+ ":{" +:+ text +:+ "}".

Definition cfg_key (cfg : Config) : string := createKey (Type_ cfg) (Type_ cfg +:+ " " +:+ Fields cfg).

Notation drivers := (gset string).

Definition RegisterDriver (t : string) (ds : drivers) : outcome drivers :=
  if decide (t ∈ ds) then Panic "db: driver already registered: %s" [t] else Ret ({[t]} ∪ ds).

Definition DriverLinked (t : string) (ds : drivers) : bool := bool_decide (t ∈ ds).

(** [init] registers the two built-in drivers. *)
Definition builtin_drivers : drivers := {[TypeMySQL; TypePostgres]}.

Record env := MkEnv {
  linked : drivers;
  connect : Config → option error;   (* the error of the driver's creator *)
  pingErr : nat → option error;      (* of an open client *)
  closeErr : nat → option error
}.

Record world := MkWorld { fresh : nat; closed : gset nat }.

Definition ErrClosed : error := Sentinel "sql: database is closed".

Definition Client_Close (i : nat) (w : world) : world := MkWorld (fresh w) ({[i]} ∪ closed w).

Definition Client_Ping (e : env) (i : nat) (w : world) : option error :=
  if decide (i ∈ closed w) then Some ErrClosed else pingErr e i.

Notation Factory := (gmap string nat).

Definition NewFactory : Factory := ∅.

(** The configuration is stored under its key, and under its type when it is
    the first of the type. *)
Definition remember (cfg : Config) (i : nat) (f : Factory) : Factory :=
  let f := <[cfg_key cfg := i]> f in
  match f !! Type_ cfg with Some _ => f | None => <[Type_ cfg := i]> f end.

Definition Create (e : env) (cfg : Config) (f : Factory) (w : world) : result nat * (Factory * world) :=
  if decide (Type_ cfg = "") then (Err (Errorf "database type is required" []), (f, w))
  else if negb (DriverLinked (Type_ cfg) (linked e)) then
    (Err (Errorf "database driver %q not linked: import the corresponding plugins/db/<driver> package" [Type_ cfg]),
     (f, w))
  else
    match f !! cfg_key cfg with
    | Some i => (Ok i, (f, w))
    | None =>
        match connect e cfg with
        | Some err => (Err err, (f, w))
        | None => (Ok (fresh w), (remember cfg (fresh w) f, MkWorld (S (fresh w)) (closed w)))
        end
    end.

Definition GetClient (dbType : string) (f : Factory) : result nat :=
  match f !! dbType with
  | Some i => Ok i
  | None => Err (Errorf "client for type %s not found" [dbType])
  end.

(** [createMySQL], the body of [GetMySQLWithConfig]: [text] is the MySQL
    configuration printed. *)
Definition GetMySQLWithConfig (e : env) (text : string) (f : Factory) (w : world) : result nat * (Factory * world) :=
  let key := createKey TypeMySQL text in
  match f !! key with
  | Some i => (Ok i, (f, w))
  | None =>
      match connect e (MkConfig TypeMySQL text) with
      | Some err => (Err err, (f, w))
      | None =>
          let i := fresh w in
          let f := <[key := i]> f in
          let f := match f !! TypeMySQL with Some _ => f | None => <[TypeMySQL := i]> f end in
          (Ok i, (f, MkWorld (S i) (closed w)))
      end
  end.

(** The PostgreSQL counterpart does not look at the cache. *)
Definition GetPostgresWithConfig (e : env) (text : string) (f : Factory) (w : world) : result nat * (Factory * world) :=
  match connect e (MkConfig TypePostgres text) with
  | Some err => (Err err, (f, w))
  | None =>
      let i := fresh w in
      (Ok i, (<[createKey TypePostgres text := i]> f, MkWorld (S i) (closed w)))
  end.

(** ** The pool *)

Inductive State := StateDisconnected | StateConnecting | StateConnected | StateFailed.

#[export] Instance State_eq_dec : EqDecision State.
Proof. solve_decision. Defined.

Record PooledClient := MkPC {
  client : nat;
  config : Config;
  state : State;
  lastUsed : Z;                 (* int64, seconds *)
  createdAt : Z;
  useCount : Z;                 (* int64 *)
  failCount : Z                 (* int32 *)
}.

Record PoolConfig := MkPoolConfig {
  MaxSize : Z; InitialSize : Z; MaxIdleTime : Z; HealthCheckPeriod : Z; MaxFailures : Z; AcquireTimeout : Z;
  RetryDelay : Z
}.

Definition DefaultConfig : PoolConfig :=
  MkPoolConfig 10 2 (30 * Minute) (30 * Second) 3 (5 * Second) Second.

Definition IsConnected (pc : PooledClient) : bool := bool_decide (state pc = StateConnected).

Definition markUsed (now : Z) (pc : PooledClient) : PooledClient :=
  MkPC (client pc) (config pc) (state pc) now (createdAt pc) (GoInt.i64 (useCount pc + 1)) 0.

Definition markFailed (pc : PooledClient) : PooledClient :=
  MkPC (client pc) (config pc) (state pc) (lastUsed pc) (createdAt pc) (useCount pc) (GoInt.i32 (failCount pc + 1)).

Definition set_state (s : State) (pc : PooledClient) : PooledClient :=
  MkPC (client pc) (config pc) s (lastUsed pc) (createdAt pc) (useCount pc) (failCount pc).

Definition set_healthy (pc : PooledClient) : PooledClient :=
  MkPC (client pc) (config pc) StateConnected (lastUsed pc) (createdAt pc) (useCount pc) 0.

Notation clients_map := (gmap string PooledClient).

(** The pool, the factory it was given and the world. *)
Record Pool := MkPool { pconfig : PoolConfig; clients : clients_map; factory : Factory; wld : world }.

Definition New (cfg : PoolConfig) (f : Factory) (w : world) : outcome Pool :=
  if MaxSize cfg <? 0 then Panic "makechan: size out of range" []
  else if HealthCheckPeriod cfg <=? 0 then Panic "non-positive interval for NewTicker" []
  else Ret (MkPool cfg ∅ f w).

Definition new_entry (i : nat) (cfg : Config) (now : Z) : PooledClient := MkPC i cfg StateConnected now now 0 0.

(** Creation uses a configuration of its own, whatever the name was registered
    with. *)
Definition default_mysql : Config := MkConfig TypeMySQL "".

Definition createClientLocked (e : env) (now : Z) (name : string) (p : Pool) : result nat * Pool :=
  match Create e default_mysql (factory p) (wld p) with
  | (Err err, (f, w)) => (Err (ErrorfW "failed to create client: %w" [] err), MkPool (pconfig p) (clients p) f w)
  | (Ok i, (f, w)) => (Ok i, MkPool (pconfig p) (<[name := new_entry i default_mysql now]> (clients p)) f w)
  end.

Definition use_entry (now : Z) (name : string) (pc : PooledClient) (p : Pool) : result nat * Pool :=
  (Ok (client pc), MkPool (pconfig p) (<[name := markUsed now pc]> (clients p)) (factory p) (wld p)).

Definition ErrSlot : error :=
  ErrorfW "timeout waiting for connection slot: %w" [] (Sentinel "context.DeadlineExceeded").

(** [held] slots are kept by other goroutines for as long as this one waits. *)
Definition acquireOrCreate (e : env) (now held : Z) (name : string) (p : Pool) : result nat * Pool :=
  if MaxSize (pconfig p) <=? held then (Err ErrSlot, p)
  else
    match clients p !! name with
    | Some pc => if IsConnected pc then use_entry now name pc p else createClientLocked e now name p
    | None => createClientLocked e now name p
    end.

Definition Acquire (e : env) (now held : Z) (name : string) (p : Pool) : result nat * Pool :=
  match clients p !! name with
  | Some pc => if IsConnected pc then use_entry now name pc p else acquireOrCreate e now held name p
  | None => acquireOrCreate e now held name p
  end.

Definition Register (e : env) (now : Z) (name : string) (cfg : Config) (p : Pool) : option error * Pool :=
  match clients p !! name with
  | Some _ => (Some (Errorf "connection %s already registered" [name]), p)
  | None =>
      match Create e cfg (factory p) (wld p) with
      | (Err err, (f, w)) =>
          (Some (ErrorfW "failed to create initial connection: %w" [] err), MkPool (pconfig p) (clients p) f w)
      | (Ok i, (f, w)) => (None, MkPool (pconfig p) (<[name := new_entry i cfg now]> (clients p)) f w)
      end
  end.

Definition Unregister (e : env) (name : string) (p : Pool) : option error * Pool :=
  match clients p !! name with
  | None => (Some (Errorf "connection %s not found" [name]), p)
  | Some pc =>
      let w := Client_Close (client pc) (wld p) in
      match closeErr e (client pc) with
      | Some err => (Some (ErrorfW "failed to close client: %w" [] err), MkPool (pconfig p) (clients p) (factory p) w)
      | None => (None, MkPool (pconfig p) (delete name (clients p)) (factory p) w)
      end
  end.

(** One entry of [checkHealth]: the entry, the world and whether a goroutine
    was started to reconnect it. *)
Definition check_entry (e : env) (cfg : PoolConfig) (now : Z) (pc : PooledClient) (w : world) :
    PooledClient * world * bool :=
  if GoInt.i64 (GoInt.i64 (now - lastUsed pc) * Second) >? MaxIdleTime cfg then
    (set_state StateDisconnected pc, Client_Close (client pc) w, false)
  else
    match Client_Ping e (client pc) w with
    | Some _ =>
        let pc := markFailed pc in
        if failCount pc >=? MaxFailures cfg then (set_state StateFailed pc, Client_Close (client pc) w, true)
        else (pc, w, false)
    | None => (set_healthy pc, w, false)
    end.

(** [names]: the order in which the map is enumerated.  The second component
    lists the reconnections started. *)
Fixpoint checkHealth (e : env) (now : Z) (names : list string) (p : Pool) : Pool * list (string * Config) :=
  match names with
  | [] => (p, [])
  | name :: names =>
      match clients p !! name with
      | None => checkHealth e now names p
      | Some pc =>
          let '(pc', w, spawn) := check_entry e (pconfig p) now pc (wld p) in
          let (p', gs) := checkHealth e now names (MkPool (pconfig p) (<[name := pc']> (clients p)) (factory p) w) in
          (p', if spawn then (name, config pc) :: gs else gs)
      end
  end.

Definition reconnect (e : env) (now : Z) (name : string) (cfg : Config) (p : Pool) : Pool :=
  match clients p !! name with
  | None => p
  | Some pc =>
      if negb (bool_decide (state pc = StateFailed)) then p
      else
        match Create e cfg (factory p) (wld p) with
        | (Err _, (f, w)) => MkPool (pconfig p) (<[name := set_state StateFailed pc]> (clients p)) f w
        | (Ok i, (f, w)) =>
            let pc' := MkPC i (config pc) StateConnected now (createdAt pc) (useCount pc) 0 in
            MkPool (pconfig p) (<[name := pc']> (clients p)) f (Client_Close (client pc) w)
        end
  end.

(** [Close] closes every client, in the order [names], and returns the first
    error. *)
Definition Close (e : env) (names : list string) (p : Pool) : option error * Pool :=
  let ids := omap (λ n, client <$> clients p !! n) names in
  let errs := omap (λ n, i ← client <$> clients p !! n; err ← closeErr e i;
                         Some (ErrorfW "failed to close %s: %w" [n] err)) names in
  (head errs, MkPool (pconfig p) (clients p) (factory p) (foldr Client_Close (wld p) ids)).

Definition Size (p : Pool) : Z := Z.of_nat (size (clients p)).

(** ** The pool behind a circuit breaker (poolcb) *)

Record CbPool := MkCbPool { pool : Pool; breaker : DbBreaker.CircuitBreaker }.

(** [Execute] of the breaker around a call that may itself use the breaker;
    the clock does not move during one call. *)
Definition Execute (now : Z) (fn : CbPool → option error * CbPool) (s : CbPool) : option error * CbPool :=
  match DbBreaker.canExecute now (breaker s) with
  | (cb, Some err) => (Some err, MkCbPool (pool s) cb)
  | (cb, None) =>
      let (err, s') := fn (MkCbPool (pool s) cb) in
      (err, MkCbPool (pool s') (DbBreaker.recordResult err now (breaker s')))
  end.

Definition unix (now : Z) : Z := now / Second.

Definition cb_Acquire (e : env) (now held : Z) (name : string) (s : CbPool) : result nat * CbPool :=
  match DbBreaker.canExecute now (breaker s) with
  | (cb, Some err) => (Err (ErrorfW "failed to acquire connection: %w" [] err), MkCbPool (pool s) cb)
  | (cb, None) =>
      match Acquire e (unix now) held name (pool s) with
      | (Ok i, p) => (Ok i, MkCbPool p (DbBreaker.recordResult None now cb))
      | (Err err, p) => (Err (ErrorfW "failed to acquire connection: %w" [] err),
                         MkCbPool p (DbBreaker.recordResult (Some err) now cb))
      end
  end.

(** A statement on a client: [stmt] is the answer of an open one. *)
Definition Client_Exec (stmt : nat → option error) (i : nat) (s : CbPool) : option error * CbPool :=
  (if decide (i ∈ closed (wld (pool s))) then Some ErrClosed else stmt i, s).

(** [Query], [Exec] and [Transaction] of [protectedClient]. *)
Definition protected_exec (now : Z) (isSQL : nat → bool) (stmt : nat → option error) (i : nat) (s : CbPool) :
    option error * CbPool :=
  if isSQL i then Execute now (Client_Exec stmt i) s else (Some (Errorf "client is not SQLClient" []), s).

(** [Close] of [protectedClient] closes the pooled client. *)
Definition protected_close (i : nat) (s : CbPool) : CbPool :=
  let p := pool s in
  MkCbPool (MkPool (pconfig p) (clients p) (factory p) (Client_Close i (wld p))) (breaker s).

(** [Query], [Exec] and [Transaction] of [SQLPoolWithBreaker]: acquire, run
    the statement of the protected client inside the breaker, and close on return. *)
Definition cb_Exec (e : env) (now held : Z) (isSQL : nat → bool) (stmt : nat → option error) (name : string)
    (s : CbPool) : option error * CbPool :=
  match cb_Acquire e now held name s with
  | (Err err, s) => (Some err, s)
  | (Ok i, s) =>
      let (err, s) := Execute now (protected_exec now isSQL stmt i) s in
      (err, protected_close i s)
  end.

(** [QueryRow] runs outside the breaker; [None] is the nil row. *)
Definition cb_QueryRow (e : env) (now held : Z) (isSQL : nat → bool) (stmt : nat → option error) (name : string)
    (s : CbPool) : option (option error) * CbPool :=
  match cb_Acquire e now held name s with
  | (Err _, s) => (None, s)
  | (Ok i, s) => (if isSQL i then Some (Client_Exec stmt i s).1 else None, protected_close i s)
  end.

(** ** Runs *)

Inductive op :=
| ORegister (now : Z) (name : string) (cfg : Config)
| OUnregister (name : string)
| OAcquire (now held : Z) (name : string)
| OCheck (now : Z) (names : list string)
| OReconnect (now : Z) (name : string)
| OClientClose (i : nat)
| OCreate (cfg : Config).

(** A reconnection here has the configuration of the entry it finds; the case
    of another one is [stale_reconnection] below.  [OClientClose] is a caller
    that closes a client it acquired, [OCreate] another user of the factory. *)
Definition step (e : env) (o : op) (p : Pool) : Pool :=
  match o with
  | ORegister now name cfg => (Register e now name cfg p).2
  | OUnregister name => (Unregister e name p).2
  | OAcquire now held name => (Acquire e now held name p).2
  | OCheck now names => (checkHealth e now names p).1
  | OReconnect now name =>
      match clients p !! name with Some pc => reconnect e now name (config pc) p | None => p end
  | OClientClose i => MkPool (pconfig p) (clients p) (factory p) (Client_Close i (wld p))
  | OCreate cfg =>
      let '(_, (f, w)) := Create e cfg (factory p) (wld p) in MkPool (pconfig p) (clients p) f w
  end.

Inductive steps : Pool → Pool → Prop :=
| steps_refl p : steps p p
| steps_step p e o p' : steps (step e o p) p' → steps p p'.

(** ** The factory keeps what it created *)

Lemma remember_key cfg i f : remember cfg i f !! cfg_key cfg = Some i.
Proof.
  unfold remember. cbn zeta. destruct (<[cfg_key cfg:=i]> f !! Type_ cfg) eqn:E; [apply lookup_insert_eq|].
  rewrite lookup_insert_ne; [apply lookup_insert_eq|]. intros Heq. rewrite Heq, lookup_insert_eq in E. done.
Qed.

Lemma remember_mono cfg i f : f !! cfg_key cfg = None → f ⊆ remember cfg i f.
Proof.
  intros Hk. assert (f ⊆ <[cfg_key cfg := i]> f) as Hs by (by apply insert_subseteq).
  unfold remember. cbn zeta. destruct (<[cfg_key cfg:=i]> f !! Type_ cfg) eqn:E; [done|].
  etransitivity; [exact Hs|]. by apply insert_subseteq.
Qed.

Lemma Create_spec e cfg f w r f' w' :
  Create e cfg f w = (r, (f', w')) →
  f ⊆ f' ∧ closed w' = closed w ∧ (∀ i, r = Ok i → f' !! cfg_key cfg = Some i).
Proof.
  unfold Create. intros H. repeat case_match; simplify_eq; split_and!; try done; try naive_solver.
  - by apply remember_mono.
  - intros i [= <-]. apply remember_key.
Qed.

Lemma Create_cached e cfg f w i :
  f !! cfg_key cfg = Some i → Type_ cfg ≠ "" → DriverLinked (Type_ cfg) (linked e) = true →
  Create e cfg f w = (Ok i, (f, w)).
Proof. intros Hi Ht Hl. unfold Create. rewrite decide_False by done. by rewrite Hl, Hi. Qed.

(** What every operation keeps: the factory only grows, a closed client stays
    closed, and each entry holds the factory's client for its configuration. *)
Definition cached (p : Pool) : Prop :=
  ∀ name pc, clients p !! name = Some pc → factory p !! cfg_key (config pc) = Some (client pc).

Definition grows (p p' : Pool) : Prop := factory p ⊆ factory p' ∧ closed (wld p) ⊆ closed (wld p').

#[export] Instance grows_preorder : PreOrder grows.
Proof. split; [by intros p; split|]. intros p q r [? ?] [? ?]. split; by etrans. Qed.

Definition keeps (p p' : Pool) : Prop := grows p p' ∧ (cached p → cached p').

#[export] Instance keeps_preorder : PreOrder keeps.
Proof. split; [by intros p; split|]. intros p q r [? ?] [? ?]. split; [by etrans|auto]. Qed.

(** A step that grows the factory and the closed set and puts at most one
    entry, itself cached, into the map. *)
Lemma keeps_entry p cfg' f w (m : clients_map) :
  factory p ⊆ f → closed (wld p) ⊆ closed w →
  (cached p → ∀ name pc, m !! name = Some pc →
     clients p !! name = Some pc ∨ f !! cfg_key (config pc) = Some (client pc)) →
  keeps p (MkPool cfg' m f w).
Proof.
  intros Hf Hw Hm. split; [done|]. intros Hc name pc Hpc. cbn in *.
  destruct (Hm Hc name pc Hpc) as [H|H]; [|done]. by eapply lookup_weaken, Hf; apply (Hc name).
Qed.

Lemma keeps_insert p cfg' f w name pc :
  factory p ⊆ f → closed (wld p) ⊆ closed w →
  f !! cfg_key (config pc) = Some (client pc) →
  keeps p (MkPool cfg' (<[name := pc]> (clients p)) f w).
Proof.
  intros Hf Hw He. apply keeps_entry; [done..|]. intros _ n x [[-> ->]|[? ?]]%lookup_insert_Some; auto.
Qed.

(** The same when the entry keeps the client and configuration it had. *)
Lemma keeps_update p cfg' w name pc pc' :
  closed (wld p) ⊆ closed w → clients p !! name = Some pc →
  config pc' = config pc → client pc' = client pc →
  keeps p (MkPool cfg' (<[name := pc']> (clients p)) (factory p) w).
Proof.
  intros Hw Hpc Hc Hi. split; [done|]. intros Hcached n x Hx. cbn in Hx.
  apply lookup_insert_Some in Hx as [[-> <-]|[? ?]]; [|by eapply Hcached].
  cbn. rewrite Hc, Hi. by eapply Hcached.
Qed.

Create HintDb dbpool.
#[export] Hint Resolve keeps_insert keeps_update : dbpool.

Lemma closed_Close i w : closed w ⊆ closed (Client_Close i w).
Proof. set_solver. Qed.
#[export] Hint Resolve closed_Close : dbpool.

Lemma createClientLocked_keeps e now name p : keeps p (createClientLocked e now name p).2.
Proof.
  unfold createClientLocked. destruct (Create e default_mysql (factory p) (wld p)) as [r [f w]] eqn:E.
  apply Create_spec in E as (Hf & Hw & Hi).
  destruct r as [i|err]; cbn; [apply keeps_insert; cbn; auto; by rewrite Hw|].
  apply keeps_entry; [done|by rewrite Hw|auto].
Qed.

Lemma use_entry_keeps now name pc p : clients p !! name = Some pc → keeps p (use_entry now name pc p).2.
Proof. intros H. by eapply keeps_update. Qed.

Lemma acquireOrCreate_keeps e now held name p : keeps p (acquireOrCreate e now held name p).2.
Proof.
  unfold acquireOrCreate. repeat case_match; [done|by apply use_entry_keeps|apply createClientLocked_keeps..].
Qed.

Lemma Acquire_keeps e now held name p : keeps p (Acquire e now held name p).2.
Proof. unfold Acquire. repeat case_match; [by apply use_entry_keeps|apply acquireOrCreate_keeps..]. Qed.

Lemma Register_keeps e now name cfg p : keeps p (Register e now name cfg p).2.
Proof.
  unfold Register. destruct (clients p !! name); [done|].
  destruct (Create e cfg (factory p) (wld p)) as [r [f w]] eqn:E. apply Create_spec in E as (Hf & Hw & Hi).
  destruct r as [i|err]; cbn; [apply keeps_insert; cbn; auto; by rewrite Hw|].
  apply keeps_entry; [done|by rewrite Hw|auto].
Qed.

Lemma Unregister_keeps e name p : keeps p (Unregister e name p).2.
Proof.
  unfold Unregister. destruct (clients p !! name) as [pc|]; [|done].
  destruct (closeErr e (client pc)); cbn; apply keeps_entry; auto with dbpool.
  intros _ n x [? ?]%lookup_delete_Some. by left.
Qed.

Lemma check_entry_spec e cfg now pc w pc' w' b :
  check_entry e cfg now pc w = (pc', w', b) → config pc' = config pc ∧ client pc' = client pc ∧ closed w ⊆ closed w'.
Proof. unfold check_entry. intros H. repeat case_match; simplify_eq; split_and!; try done; apply closed_Close. Qed.

Lemma checkHealth_keeps e now names p : keeps p (checkHealth e now names p).1.
Proof.
  revert p. induction names as [|name names IH]; intros p; cbn; [done|].
  destruct (clients p !! name) as [pc|] eqn:Hpc; [|apply IH].
  destruct (check_entry e (pconfig p) now pc (wld p)) as [[pc' w] b] eqn:E.
  apply check_entry_spec in E as (Hc & Hi & Hw).
  specialize (IH (MkPool (pconfig p) (<[name:=pc']> (clients p)) (factory p) w)).
  destruct (checkHealth e now names _) as [p' gs]. cbn in *. etrans; [|exact IH]. by eapply keeps_update.
Qed.

Lemma reconnect_keeps e now name pc p : clients p !! name = Some pc → keeps p (reconnect e now name (config pc) p).
Proof.
  intros Hpc. unfold reconnect. rewrite Hpc. destruct (negb _); [done|].
  destruct (Create e (config pc) (factory p) (wld p)) as [r [f w]] eqn:E. apply Create_spec in E as (Hf & Hw & Hi).
  destruct r as [i|err]; cbn.
  - apply keeps_insert; cbn; auto. rewrite <-Hw. set_solver.
  - apply keeps_entry; [done|by rewrite Hw|]. intros Hc n x [[-> <-]|[? ?]]%lookup_insert_Some; [|auto].
    right. eapply lookup_weaken, Hf. by apply (Hc n pc).
Qed.

Lemma step_keeps e o p : keeps p (step e o p).
Proof.
  destruct o as [now name cfg|name|now held name|now names|now name|i|cfg]; cbn [step].
  - apply Register_keeps.
  - apply Unregister_keeps.
  - apply Acquire_keeps.
  - apply checkHealth_keeps.
  - destruct (clients p !! name) eqn:E; [by apply reconnect_keeps|done].
  - apply keeps_entry; auto with dbpool.
  - destruct (Create e cfg (factory p) (wld p)) as [r [f w]] eqn:E. apply Create_spec in E as (Hf & Hw & _).
    apply keeps_entry; [done|by rewrite Hw|auto].
Qed.

Lemma steps_keeps p p' : steps p p' → keeps p p'.
Proof. induction 1 as [|p e o p' _ IH]; [done|]. etrans; [apply step_keeps|exact IH]. Qed.

(** From an empty pool each entry always holds the factory's client for its
    configuration. *)
Theorem pool_entries_cached cfg f w p : steps (MkPool cfg ∅ f w) p → cached p.
Proof. intros H. apply (steps_keeps _ _ H). intros name pc Hpc. done. Qed.

(** ** What that means for reconnection *)

(** Once the client of a configuration is closed, by the health check, by
    [Unregister] or by a caller, every entry with that configuration holds the
    closed client from then on: the factory never opens another. *)
Theorem closed_configuration_stays_closed cfg f w p name pc p' name' pc' :
  steps (MkPool cfg ∅ f w) p → clients p !! name = Some pc → client pc ∈ closed (wld p) →
  steps p p' → clients p' !! name' = Some pc' → config pc' = config pc →
  client pc' = client pc ∧ client pc' ∈ closed (wld p').
Proof.
  intros Hr Hpc Hcl Hs Hpc' Hcfg. pose proof (pool_entries_cached _ _ _ _ Hr) as Hc.
  destruct (steps_keeps _ _ Hs) as [[Hf Hw] Hk]. specialize (Hk Hc _ _ Hpc').
  rewrite Hcfg, (lookup_weaken _ _ _ _ (Hc _ _ Hpc) Hf) in Hk. injection Hk as <-. auto.
Qed.

(** So reconnection of a failed connection marks it connected and leaves it
    with the client it had, closed; that is the client [Acquire] gives out. *)
Theorem reconnection_serves_closed_client cfg f w p e name pc now held :
  steps (MkPool cfg ∅ f w) p → clients p !! name = Some pc → state pc = StateFailed →
  Type_ (config pc) ≠ "" → DriverLinked (Type_ (config pc)) (linked e) = true →
  let p' := reconnect e now name (config pc) p in
  (Acquire e now held name p').1 = Ok (client pc) ∧ client pc ∈ closed (wld p') ∧
  Client_Ping e (client pc) (wld p') = Some ErrClosed.
Proof.
  intros Hr Hpc Hst Ht Hl p'. pose proof (pool_entries_cached _ _ _ _ Hr _ _ Hpc) as Hc.
  subst p'. unfold reconnect. rewrite Hpc, Hst. cbn [negb bool_decide decide_rel].
  rewrite bool_decide_true by done. cbn [negb]. rewrite (Create_cached _ _ _ _ _ Hc Ht Hl). cbn.
  assert (client pc ∈ {[client pc]} ∪ closed (wld p)) as Hin by set_solver.
  split_and!; [|done|].
  - unfold Acquire. cbn. by rewrite lookup_insert_eq.
  - unfold Client_Ping. cbn. by rewrite decide_True.
Qed.

(** ** Registration and acquisition *)

Definition allocated (p : Pool) : Prop := ∀ i, i ∈ closed (wld p) → (i < fresh (wld p))%nat.

(** A name registered with a configuration new to the factory is served an open
    client of its own, and each acquisition counts a use and resets the failures;
    a second registration of the name is refused and changes nothing. *)
Theorem registered_connection_served e now name cfg p p' :
  Register e now name cfg p = (None, p') → factory p !! cfg_key cfg = None → allocated p →
  let i := fresh (wld p) in
  i ∉ closed (wld p') ∧
  (∀ e' now' held, Acquire e' now' held name p' =
     (Ok i, MkPool (pconfig p') (<[name := MkPC i cfg StateConnected now' now 1 0]> (clients p')) (factory p') (wld p'))) ∧
  (∀ e' now' cfg', ∃ err, Register e' now' name cfg' p' = (Some err, p')).
Proof.
  intros H Hk Ha i. unfold Register, Create in *. rewrite Hk in H.
  destruct (clients p !! name); [done|]. destruct (decide _); [done|]. destruct (negb _); [done|].
  destruct (connect e cfg); [done|]. injection H as <-. cbn. split_and!.
  - intros Hin. apply Ha in Hin. subst i. lia.
  - intros e' now' held. unfold Acquire. cbn. by rewrite lookup_insert_eq.
  - intros e' now' cfg'. rewrite lookup_insert_eq. by eexists.
Qed.

(** ** Examples of what goes wrong *)

Definition up : env := MkEnv builtin_drivers (λ _, None) (λ _, None) (λ _, None).
Definition ping_down : env := MkEnv builtin_drivers (λ _, None) (λ _, Some (Sentinel "refused")) (λ _, None).
Definition orders : Config := MkConfig TypePostgres "orders-db".
Definition archive : Config := MkConfig TypePostgres "archive-db".
Definition start : Pool := MkPool DefaultConfig ∅ NewFactory (MkWorld 0 ∅).

Definition run (os : list (env * op)) (p : Pool) : Pool := fold_left (λ p eo, step eo.1 eo.2 p) os p.

Lemma run_steps os p : steps p (run os p).
Proof. revert p. induction os as [|[e o] os IH]; intros p; cbn; [constructor|]. by econstructor. Qed.

(** A PostgreSQL connection left idle for half an hour is closed by the health
    check; the next [Acquire] of its name returns a client made from the empty
    MySQL configuration. *)
Theorem idle_connection_replaced_by_default :
  let p := run [(up, ORegister 0 "orders" orders); (up, OCheck 1801 ["orders"])] start in
  let (r, p') := Acquire up 1801 0 "orders" p in
  r = Ok 1%nat ∧ factory p' !! cfg_key default_mysql = Some 1%nat ∧
  (config <$> clients p' !! "orders") = Some default_mysql ∧ 0%nat ∈ closed (wld p').
Proof. vm_compute. split_and!; [done..|]. by apply (bool_decide_unpack _). Qed.

(** Three failed pings leave a connection failed and its client closed. *)
Definition failed_pool : Pool :=
  run [(up, ORegister 0 "orders" orders); (ping_down, OCheck 30 ["orders"]); (ping_down, OCheck 60 ["orders"]);
       (ping_down, OCheck 90 ["orders"])] start.

(** Two names with the same configuration share one client: unregistering the
    first closes the second's. *)
Theorem unregister_closes_shared_client :
  let p := run [(up, ORegister 0 "a" orders); (up, ORegister 0 "b" orders); (up, OUnregister "a")] start in
  (Acquire up 1 0 "b" p).1 = Ok 0%nat ∧ Client_Ping up 0 (wld p) = Some ErrClosed.
Proof. vm_compute. done. Qed.

(** A reconnection still waiting for its delay when the name is registered
    again, with another configuration that then fails too, connects the name to
    the old configuration's database. *)
Theorem stale_reconnection :
  let p := run [(up, OUnregister "orders"); (up, ORegister 91 "orders" archive);
                (ping_down, OCheck 100 ["orders"]); (ping_down, OCheck 101 ["orders"]);
                (ping_down, OCheck 102 ["orders"])] failed_pool in
  let p' := reconnect up 103 "orders" orders p in
  (config <$> clients p' !! "orders") = Some archive ∧
  (client <$> clients p' !! "orders") = factory p' !! cfg_key orders ∧
  factory p' !! cfg_key orders ≠ factory p' !! cfg_key archive.
Proof. vm_compute. done. Qed.

(** [GetPostgresWithConfig] opens a client at every call and drops the one
    it had without closing it. *)
Theorem postgres_clients_leak e text f w i :
  connect e (MkConfig TypePostgres text) = None → f !! createKey TypePostgres text = Some i → i ∉ closed w →
  let '(r, (f', w')) := GetPostgresWithConfig e text f w in
  r = Ok (fresh w) ∧ f' !! createKey TypePostgres text = Some (fresh w) ∧ i ∉ closed w'.
Proof.
  intros Hc Hf Hi. unfold GetPostgresWithConfig. rewrite Hc. split_and!; [done|apply lookup_insert_eq|done].
Qed.

(** ** The breaker in front of the pool *)

(** With a closed breaker and a connected entry a statement runs on the
    entry's client, and the client is closed afterwards while the entry stays
    connected. *)
Lemma cb_Exec_step e now held stmt name s pc :
  DbBreaker.state (breaker s) = DbBreaker.StateClosed →
  clients (pool s) !! name = Some pc → state pc = StateConnected →
  let err := (Client_Exec stmt (client pc) s).1 in
  let cb0 := DbBreaker.onSuccess DbBreaker.StateClosed (breaker s) in
  2 < DbBreaker.MaxFailures (DbBreaker.config (breaker s)) → err ≠ None →
  ∃ s', cb_Exec e now held (λ _, true) stmt name s = (err, s') ∧
    clients (pool s') !! name = Some (markUsed (unix now) pc) ∧ client pc ∈ closed (wld (pool s')) ∧
    breaker s' = DbBreaker.MkCB (DbBreaker.config cb0) DbBreaker.StateClosed 2 (DbBreaker.successes cb0)
                   (DbBreaker.requests cb0) (DbBreaker.lastFailureTime cb0) (DbBreaker.openError cb0).
Proof.
  destruct s as [p [bc st f su rq lf oe]]. cbn [breaker pool DbBreaker.state DbBreaker.config].
  intros -> Hpc Hst Hmax Herr. unfold Client_Exec in *. cbn [pool wld fst] in *.
  unfold cb_Exec, cb_Acquire, Acquire. cbn [DbBreaker.canExecute DbBreaker.state breaker pool].
  rewrite Hpc. unfold IsConnected. rewrite bool_decide_true by done. cbn.
  destruct (if decide _ then _ else _) as [er|] eqn:E; [|done]. cbn.
  eexists. split; [reflexivity|]. cbn. split_and!; [apply lookup_insert_eq|set_solver|].
  change (GoInt.u32 (0 + 1)) with 1. zcmp. cbn. change (GoInt.u32 (1 + 1)) with 2. by zcmp.
Qed.

Fixpoint cb_execs (e : env) (held : Z) (stmt : nat → option error) (name : string) (ts : list Z) (s : CbPool) :
    list (option error) * CbPool :=
  match ts with
  | [] => ([], s)
  | t :: ts =>
      let (err, s) := cb_Exec e t held (λ _, true) stmt name s in
      let (errs, s) := cb_execs e held stmt name ts s in (err :: errs, s)
  end.

(** The client behind a name, once closed, fails every statement; each call
    resets the breaker's failures when it acquires the client and then counts its
    failure twice, so the breaker never opens when it allows more than two
    failures, however many statements fail. *)
Theorem poolcb_never_trips e held stmt name ts s pc :
  DbBreaker.state (breaker s) = DbBreaker.StateClosed →
  2 < DbBreaker.MaxFailures (DbBreaker.config (breaker s)) →
  clients (pool s) !! name = Some pc → state pc = StateConnected → client pc ∈ closed (wld (pool s)) →
  let (errs, s') := cb_execs e held stmt name ts s in
  errs = replicate (length ts) (Some ErrClosed) ∧ DbBreaker.state (breaker s') = DbBreaker.StateClosed ∧
  (ts ≠ [] → DbBreaker.failures (breaker s') = 2).
Proof.
  revert s pc. induction ts as [|t ts IH]; intros s pc Hcl Hmax Hpc Hst Hin; [done|]. cbn [cb_execs].
  destruct (cb_Exec_step e t held stmt name s pc Hcl Hpc Hst Hmax) as (s1 & -> & Hpc1 & Hin1 & Hb1).
  { unfold Client_Exec. cbn. by rewrite decide_True. }
  specialize (IH s1 _ ltac:(by rewrite Hb1) ltac:(by rewrite Hb1) Hpc1 Hst Hin1).
  destruct ts as [|t' ts].
  - cbn [cb_execs]. unfold Client_Exec. cbn. rewrite decide_True by done. by rewrite Hb1.
  - destruct (cb_execs e held stmt name (t' :: ts) s1) as [errs s2]. destruct IH as (-> & Hc & Hf).
    split_and!; [|done|auto]. unfold Client_Exec. cbn. by rewrite decide_True.
Qed.

(** A first statement that succeeds is enough to close the client. *)
Theorem poolcb_closes_after_use :
  let s := MkCbPool (run [(up, ORegister 0 "orders" orders)] start) (DbBreaker.New DbBreaker.DefaultConfig) in
  let (r1, s1) := cb_Exec up Second 0 (λ _, true) (λ _, None) "orders" s in
  let (r2, s2) := cb_Exec up Second 0 (λ _, true) (λ _, None) "orders" s1 in
  r1 = None ∧ r2 = Some ErrClosed.
Proof. vm_compute. done. Qed.

(** A breaker that refuses keeps the pool as it is. *)
Theorem poolcb_refused e now held isSQL stmt name s cb err :
  DbBreaker.canExecute now (breaker s) = (cb, Some err) →
  cb_Exec e now held isSQL stmt name s =
  (Some (ErrorfW "failed to acquire connection: %w" [] err), MkCbPool (pool s) cb).
Proof. unfold cb_Exec, cb_Acquire. by intros ->. Qed.

(** ** Witnesses *)

Lemma pool_entries_cached_witness : cached failed_pool.
Proof. apply (pool_entries_cached DefaultConfig NewFactory (MkWorld 0 ∅)). apply run_steps. Defined.

Lemma closed_configuration_stays_closed_witness :
  let p' := run [(up, OReconnect 91 "orders"); (up, ORegister 92 "copy" orders)] failed_pool in
  ∃ pc, clients p' !! "copy" = Some pc ∧ client pc = 0%nat ∧ client pc ∈ closed (wld p').
Proof.
  eexists. split; [vm_compute; reflexivity|].
  apply (closed_configuration_stays_closed DefaultConfig NewFactory (MkWorld 0 ∅) failed_pool "orders"
           (MkPC 0 orders StateFailed 0 0 0 3) _ "copy");
    [apply run_steps|vm_compute; reflexivity|by apply (bool_decide_unpack _); vm_compute|apply run_steps|
     vm_compute; reflexivity|reflexivity].
Defined.

Lemma reconnection_serves_closed_client_witness :
  let p' := reconnect up 91 "orders" orders failed_pool in
  (Acquire up 91 0 "orders" p').1 = Ok 0%nat ∧ 0%nat ∈ closed (wld p') ∧
  Client_Ping up 0 (wld p') = Some ErrClosed.
Proof.
  assert (∃ pc, clients failed_pool !! "orders" = Some pc ∧ state pc = StateFailed ∧ config pc = orders ∧
                client pc = 0%nat) as (pc & Hpc & Hst & Hc & Hi) by (eexists; vm_compute; done).
  cbv zeta. rewrite <-Hc, <-Hi.
  apply (reconnection_serves_closed_client DefaultConfig NewFactory (MkWorld 0 ∅));
    [apply run_steps|exact Hpc|exact Hst|by rewrite Hc|rewrite Hc; vm_compute; reflexivity].
Defined.

Lemma registered_connection_served_witness :
  0%nat ∉ closed (wld (Register up 5 "orders" orders start).2) ∧
  (Acquire up 6 0 "orders" (Register up 5 "orders" orders start).2).1 = Ok 0%nat.
Proof.
  destruct (registered_connection_served up 5 "orders" orders start (Register up 5 "orders" orders start).2)
    as (Hc & Ha & _); [vm_compute; reflexivity|vm_compute; reflexivity| |split; [exact Hc|by rewrite Ha]].
  intros i Hi. cbn in Hi. set_solver.
Defined.

Lemma postgres_clients_leak_witness :
  let '(r, (f', w')) := GetPostgresWithConfig up "db" {[createKey TypePostgres "db" := 0%nat]} (MkWorld 1 ∅) in
  r = Ok 1%nat ∧ f' !! createKey TypePostgres "db" = Some 1%nat ∧ 0%nat ∉ closed w'.
Proof.
  apply (postgres_clients_leak up "db" {[createKey TypePostgres "db" := 0%nat]} (MkWorld 1 ∅) 0);
    [reflexivity|apply lookup_singleton_eq|cbn; set_solver].
Defined.

Lemma poolcb_never_trips_witness :
  let s := MkCbPool (step up (OClientClose 0) (run [(up, ORegister 0 "orders" orders)] start))
             (DbBreaker.New DbBreaker.DefaultConfig) in
  let (errs, s') := cb_execs up 0 (λ _, None) "orders" [1; 2; 3; 4; 5; 6; 7; 8; 9; 10] s in
  errs = replicate 10 (Some ErrClosed) ∧ DbBreaker.state (breaker s') = DbBreaker.StateClosed ∧
  ([1; 2; 3; 4; 5; 6; 7; 8; 9; 10] ≠ [] → DbBreaker.failures (breaker s') = 2).
Proof.
  eapply (poolcb_never_trips up 0 (λ _, None) "orders" [1; 2; 3; 4; 5; 6; 7; 8; 9; 10]);
    [reflexivity|by vm_compute|vm_compute; reflexivity|reflexivity|by apply (bool_decide_unpack _); vm_compute].
Defined.

Lemma poolcb_refused_witness :
  let cb := DbBreaker.ForceOpen 5 (DbBreaker.New DbBreaker.DefaultConfig) in
  cb_Exec up 6 0 (λ _, true) (λ _, None) "orders" (MkCbPool start cb) =
  (Some (ErrorfW "failed to acquire connection: %w" [] (DbBreaker.openError cb)), MkCbPool start cb).
Proof. apply poolcb_refused. by vm_compute. Defined.

