(* ===== verification/EnhancedPool.v ===== *)
(** * plugins/db/pool/enhanced_pool.go: a pool over one [*sql.DB]

    The presets, the retrying [Query] and [Exec], [Begin] and [Transaction] with
    their context, the health flag, and the manager of several pools.  What the
    database answers to each attempt is an argument, and so is whether the
    context is done when the code waits between attempts.  Metrics and logging
    are left out. *)

From S2P Require Import Prelude.
From stdpp Require Import pretty.
Import GoError GoTime.

Open Scope Z_scope.

(** ** Configuration *)

Record PoolConfig := MkPoolConfig {
  MaxOpenConns : Z; MaxIdleConns : Z; ConnMaxLifetime : Z; ConnMaxIdleTime : Z;
  MinOpenConns : Z; ConnectTimeout : Z; QueryTimeout : Z;
  HealthCheckPeriod : Z; HealthCheckTimeout : Z; HealthCheckQuery : string;
  MaxRetries : Z; RetryDelay : Z;
  EnableMetrics : bool; MetricsInterval : Z
}.

Definition DefaultPoolConfig : PoolConfig :=
  MkPoolConfig 25 10 (30 * Minute) (5 * Minute) 5 (10 * Second) (30 * Second) (1 * Minute) (5 * Second) "SELECT 1"
    3 (1 * Second) true (30 * Second).

Definition ProductionPoolConfig : PoolConfig :=
  MkPoolConfig 50 25 (60 * Minute) (10 * Minute) 10 (5 * Second) (10 * Second) (30 * Second) (3 * Second) "SELECT 1"
    5 (500 * Millisecond) true (15 * Second).

Definition DevelopmentPoolConfig : PoolConfig :=
  MkPoolConfig 10 5 (10 * Minute) (2 * Minute) 2 (30 * Second) (60 * Second) (2 * Minute) (10 * Second) "SELECT 1"
    2 (2 * Second) true (1 * Minute).

(** ** The pool *)

(** The limits [applyConfig] gives the database. *)
Record limits := MkLimits { maxOpen : Z; maxIdle : Z; maxLifetime : Z; maxIdleTime : Z }.

Record EnhancedPool := MkPool {
  db : nat;
  config : PoolConfig;
  applied : limits;
  lastHealthCheck : Z;
  isHealthy : bool;
  stopped : bool
}.

Definition applyConfig (c : PoolConfig) : limits :=
  MkLimits (MaxOpenConns c) (MaxIdleConns c) (ConnMaxLifetime c) (ConnMaxIdleTime c).

(** The tickers are made with the configured intervals. *)
Definition NewEnhancedPool (d : option nat) (c : PoolConfig) : outcome (result EnhancedPool) :=
  match d with
  | None => Ret (Err (Errorf "database connection is nil" []))
  | Some d =>
      if EnableMetrics c && (MetricsInterval c <=? 0) then Panic "non-positive interval for NewTicker" []
      else if HealthCheckPeriod c <=? 0 then Panic "non-positive interval for NewTicker" []
      else Ret (Ok (MkPool d c (applyConfig c) 0 false false))
  end.

Definition isRetryableError (err : error) : bool := true.

Definition ErrCanceled : error := Sentinel "context.Canceled".

(** The error after the last attempt. *)
Definition gave_up (verb : string) (maxRetries : Z) (last : option error) : error :=
  match last with
  | Some e => ErrorfW (verb +:+ " failed after %d attempts: %w") [pretty (maxRetries + 1)] e
  | None => Errorf (verb +:+ " failed after %d attempts: %!w(<nil>)") [pretty (maxRetries + 1)]
  end.

(** The loop of [Query] and [Exec] from [attempt] on: [n] attempts are left,
    [answer k] is what the database says to attempt [k] ([None]: success),
    [done k] the context's error when attempt [k] waits for its delay, [last] the
    error of the attempt before.  The result is the number of calls made and the
    error returned.  [verb] is the word of the message. *)
Fixpoint attempts (verb : string) (maxRetries : Z) (answer : nat → option error) (done : nat → option error)
    (n attempt : nat) (last : option error) : nat * option error :=
  match n with
  | O => (O, Some (gave_up verb maxRetries last))
  | S n =>
      match (if decide (attempt = O) then None else done attempt) with
      | Some e => (O, Some e)
      | None =>
          match answer attempt with
          | None => (1%nat, None)
          | Some e =>
              if negb (isRetryableError e) then (1%nat, Some e)
              else
                let (calls, r) := attempts verb maxRetries answer done n (S attempt) (Some e) in
                (S calls, r)
          end
      end
  end.

(** Attempts 0 to [MaxRetries]; none when it is negative. *)
Definition rounds (p : EnhancedPool) : nat := Z.to_nat (MaxRetries (config p) + 1).

Definition Query (answer done : nat → option error) (p : EnhancedPool) : nat * option error :=
  attempts "query" (MaxRetries (config p)) answer done (rounds p) 0 None.

Definition Exec (answer done : nat → option error) (p : EnhancedPool) : nat * option error :=
  attempts "exec" (MaxRetries (config p)) answer done (rounds p) 0 None.

(** ** Transactions *)

(** A [*sql.Tx]: whether the context given to [BeginTx] is done.  The package
    documentation says that the transaction is rolled back when that context is
    canceled and that [Commit] then returns an error. *)
Record Tx := MkTx { ctxDone : bool }.

Definition Tx_Commit (commit : option error) (tx : Tx) : option error :=
  if ctxDone tx then Some ErrCanceled else commit.

(** The deferred [cancel] of [Begin] runs when it returns. *)
Definition Begin (beginErr : option error) : result Tx :=
  match beginErr with
  | Some e => Err e
  | None =>
      let tx := MkTx false in
      let cancel tx := MkTx true in
      Ok (cancel tx)
  end.

Inductive fn_result := FnOk | FnErr (e : error) | FnPanic (msg : string).

(** [fn] is given the transaction it runs in. *)
Definition Transaction (beginErr : option error) (fn : Tx → fn_result) (commit : option error) : outcome (option error) :=
  match Begin beginErr with
  | Err e => Ret (Some e)
  | Ok tx =>
      match fn tx with
      | FnPanic p => Panic p []
      | FnErr e => Ret (Some e)
      | FnOk => Ret (Tx_Commit commit tx)
      end
  end.

(** ** Health and shutdown *)

Definition performHealthCheck (ping : option error) (now : Z) (p : EnhancedPool) : EnhancedPool :=
  MkPool (db p) (config p) (applied p) now (bool_decide (ping = None)) (stopped p).

Definition IsHealthy (p : EnhancedPool) : bool := isHealthy p.

Definition Close (closeErr : option error) (p : EnhancedPool) : outcome (option error * EnhancedPool) :=
  if stopped p then Panic "close of closed channel" []
  else Ret (closeErr, MkPool (db p) (config p) (applied p) (lastHealthCheck p) (isHealthy p) true).

(** ** The manager *)

Notation PoolManager := (gmap string EnhancedPool).

Definition NewPoolManager : PoolManager := ∅.

Definition AddPool (name : string) (d : option nat) (c : PoolConfig) (pm : PoolManager) :
    outcome (option error * PoolManager) :=
  let! r := NewEnhancedPool d c in
  match r with
  | Err e => Ret (Some (ErrorfW "failed to create pool %s: %w" [name] e), pm)
  | Ok p => Ret (None, <[name := p]> pm)
  end.

Definition GetPool (name : string) (pm : PoolManager) : option EnhancedPool := pm !! name.

(** [names] is the order of the enumeration; the result tells which databases
    were closed, in order. *)
Fixpoint close_pools (closeErr : nat → option error) (names : list string) (pm : PoolManager) :
    outcome (list nat * list error * PoolManager) :=
  match names with
  | [] => Ret ([], [], pm)
  | name :: names =>
      match pm !! name with
      | None => close_pools closeErr names pm
      | Some p =>
          let! r := Close (closeErr (db p)) p in
          let! rest := close_pools closeErr names (<[name := r.2]> pm) in
          Ret (db p :: rest.1.1,
               match r.1 with Some e => [ErrorfW "failed to close pool %s: %w" [name] e] | None => [] end ++ rest.1.2,
               rest.2)
      end
  end.

Definition Manager_Close (closeErr : nat → option error) (names : list string) (pm : PoolManager) :
    outcome (list nat * option error * PoolManager) :=
  let! r := close_pools closeErr names pm in
  Ret (r.1.1, match r.1.2 with [] => None | _ => Some (Errorf "errors closing pools: %v" []) end, r.2).

(** ** Retries *)

(** Attempt [k] is reached: every earlier one failed and no wait was cut
    short. *)
Definition reached (answer done : nat → option error) (from k : nat) : Prop :=
  (∀ j, from ≤ j < k → answer j ≠ None)%nat ∧ (∀ j, from ≤ j ≤ k → j ≠ O → done j = None)%nat.

Lemma reached_next answer done from k :
  answer from ≠ None → (from ≠ O → done from = None) → reached answer done (S from) k → (from < k)%nat →
  reached answer done from k.
Proof.
  intros Ha Hd [H1 H2] Hk. split.
  - intros j Hj. destruct (decide (j = from)) as [->|]; [done|]. apply H1. lia.
  - intros j Hj Hne. destruct (decide (j = from)) as [->|]; [auto|]. apply H2; [lia|done].
Qed.

(** The three ways the loop ends. *)
Lemma attempts_cases verb m answer done n a last calls r :
  attempts verb m answer done n a last = (calls, r) →
  (r = None ∧ ∃ k, calls = S k ∧ (k < n)%nat ∧ answer (a + k)%nat = None ∧ reached answer done a (a + k))
  ∨ (∃ e k, r = Some e ∧ calls = k ∧ (k < n)%nat ∧ (a + k ≠ O)%nat ∧ done (a + k)%nat = Some e ∧
      (∀ j, a ≤ j < a + k → answer j ≠ None)%nat)
  ∨ (r = Some (gave_up verb m (match n with O => last | S n => answer (a + n)%nat end)) ∧ calls = n ∧
      (∀ j, a ≤ j < a + n → answer j ≠ None)%nat).
Proof.
  revert a last calls r. induction n as [|n IH]; intros a last calls r; cbn [attempts].
  { intros [= <- <-]. right; right. split_and!; [done..|intros; lia]. }
  destruct (if decide (a = O) then None else done a) as [e|] eqn:Hd.
  { intros [= <- <-]. right; left. destruct (decide (a = O)); [done|].
    exists e, O. rewrite Nat.add_0_r. split_and!; [done..|lia|done|done|intros; lia]. }
  destruct (answer a) as [e|] eqn:Ha; cbn [negb isRetryableError].
  2: { intros [= <- <-]. left. split; [done|]. exists O. rewrite Nat.add_0_r.
       split_and!; [done|lia|done|]. split; intros j Hj; [lia|]. intros Hne.
       replace j with a by lia. destruct (decide (a = O)); [lia|done]. }
  destruct (attempts verb m answer done n (S a) (Some e)) as [c r'] eqn:E. intros [= <- <-].
  assert (∀ j k, (a ≤ j < a + S k)%nat → (∀ j, S a ≤ j < S a + k → answer j ≠ None)%nat → answer j ≠ None) as Hstep.
  { intros j k Hj H. destruct (decide (j = a)) as [->|]; [congruence|]. apply H. lia. }
  apply IH in E as [(-> & k & -> & Hk & Hak & Hr)|[(e' & k & -> & -> & Hk & _ & Hdk & Hall)|(-> & -> & Hall)]].
  - left. split; [done|]. exists (S k). rewrite Nat.add_succ_r. split_and!; [done|lia|done|].
    apply reached_next; [congruence|by intros; destruct (decide (a = O))|done|lia].
  - right; left. exists e', (S k). rewrite Nat.add_succ_r.
    split_and!; [done..|lia|lia|done|]. intros j Hj. apply (Hstep j k); [lia|done].
  - right; right. split_and!; [|done|intros j Hj; by apply (Hstep j n)].
    do 2 f_equal. destruct n as [|n]; [by rewrite Nat.add_0_r|]. by rewrite Nat.add_succ_r.
Qed.

(** [Exec] succeeds with call [k + 1] exactly when attempt [k], at most
    [MaxRetries], is the first that the database accepts and no wait before it was
    cut short; it never makes more than [MaxRetries + 1] calls; and when every
    attempt fails and no wait is cut short it makes all of them and returns the
    last error, wrapped. *)
Theorem Exec_retries answer done p :
  let (calls, r) := Exec answer done p in
  (∀ k, r = None ∧ calls = S k ↔
     (Z.of_nat k <= MaxRetries (config p) ∧ answer k = None ∧ reached answer done 0 k)) ∧
  (Z.of_nat calls <= Z.max 0 (MaxRetries (config p) + 1)) ∧
  (0 <= MaxRetries (config p) →
   (∀ j, Z.of_nat j <= MaxRetries (config p) → answer j ≠ None ∧ (j ≠ O → done j = None)) →
   Z.of_nat calls = MaxRetries (config p) + 1 ∧
   r = Some (gave_up "exec" (MaxRetries (config p)) (answer (Z.to_nat (MaxRetries (config p)))))).
Proof.
  destruct (Exec answer done p) as [calls r] eqn:E. unfold Exec, rounds in E. set (m := MaxRetries (config p)) in *.
  apply attempts_cases in E. cbn [Nat.add] in E.
  destruct E as [(-> & k & -> & Hk & Hak & Hr)|[(e & k & -> & -> & Hk & Hne & Hdk & Hall)|(-> & -> & Hall)]];
    (split_and!; [intros k'; split| |]).
  - intros [_ [= <-]]. split_and!; [lia|done..].
  - intros (Hm & Ha' & [Hr1 _]). split; [done|]. f_equal. destruct Hr as [Hr0 _].
    destruct (Nat.lt_total k k') as [?|[?|?]]; [|done|]; [destruct (Hr1 k)|destruct (Hr0 k')]; (lia || done).
  - lia.
  - intros _ H. destruct (H k) as [? _]; [lia|done].
  - by intros [? _].
  - intros (Hm & Ha' & [Hr1 Hr2]). exfalso. destruct (decide (k' < k)%nat).
    + apply (Hall k'); [lia|done].
    + rewrite (Hr2 k) in Hdk; [done|lia|done].
  - lia.
  - intros _ H. destruct (H k) as [_ ?]; [lia|]. rewrite H0 in Hdk; [done|lia].
  - by intros [? _].
  - intros (Hm & Ha' & _). exfalso. apply (Hall k'); [lia|done].
  - lia.
  - intros Hm _. split; [lia|]. replace (Z.to_nat (m + 1)) with (S (Z.to_nat m)) by lia. done.
Qed.

(** An [Exec] whose answer is lost each time has been applied by the server at
    each attempt: four times with the default configuration, six in production,
    and the caller gets an error. *)
Theorem Exec_repeats_statement lost d c :
  lost ≠ None → NewEnhancedPool (Some d) c = Ret (Ok (MkPool d c (applyConfig c) 0 false false)) →
  c ∈ [DefaultPoolConfig; ProductionPoolConfig; DevelopmentPoolConfig] →
  let (calls, r) := Exec (λ _, lost) (λ _, None) (MkPool d c (applyConfig c) 0 false false) in
  Z.of_nat calls = MaxRetries c + 1 ∧ 2 < Z.of_nat calls ∧ r ≠ None.
Proof.
  intros Hl _ Hc. destruct lost as [e|]; [|done].
  pose proof (Exec_retries (λ _, Some e) (λ _, None) (MkPool d c (applyConfig c) 0 false false)) as H.
  destruct (Exec _ _ _) as [calls r]. destruct H as (_ & _ & H). cbn [config] in H.
  assert (2 <= MaxRetries c) as Hm by (set_unfold in Hc; destruct Hc as [->|[->|[->|[]]]]; by vm_compute).
  destruct H as [-> ->]; [lia|done|]. split_and!; [done|lia|done].
Qed.

(** ** Transactions *)

(** [Begin] cancels the context of the transaction as it returns, so no
    transaction of the pool is ever committed: [Transaction] returns an error, or
    panics with the function's panic, whatever the function and the database do. *)
Theorem enhanced_transaction_never_commits beginErr fn commit :
  Transaction beginErr fn commit ≠ Ret None ∧
  (∀ tx, Begin beginErr = Ok tx → Tx_Commit commit tx = Some ErrCanceled).
Proof.
  split; [|by destruct beginErr; intros tx [= <-]].
  unfold Transaction. destruct beginErr; [done|]. cbn. by destruct (fn _).
Qed.

(** ** Health *)

(** The flag is the result of the last check, and false before the first. *)
Theorem health_follows_last_check d c p checks :
  NewEnhancedPool (Some d) c = Ret (Ok p) →
  IsHealthy (fold_left (λ p x, performHealthCheck x.1 x.2 p) checks p) =
  match last checks with Some x => bool_decide (x.1 = None) | None => false end.
Proof.
  intros H. destruct checks as [|x l _] using rev_ind.
  - unfold NewEnhancedPool in H. repeat case_match; by simplify_eq.
  - by rewrite fold_left_app, last_snoc.
Qed.

(** ** The manager *)

Lemma omap_agree {A B} (f g : A → option B) (l : list A) : (∀ x, x ∈ l → f x = g x) → omap f l = omap g l.
Proof.
  induction l as [|x l IH]; intros H; [done|]. cbn. rewrite (H x) by left.
  rewrite IH by (intros y Hy; apply H; by right). done.
Qed.

Definition mark_stopped (p : EnhancedPool) : EnhancedPool :=
  MkPool (db p) (config p) (applied p) (lastHealthCheck p) (isHealthy p) true.

Lemma close_pools_all closeErr names (pm : PoolManager) :
  NoDup names → (∀ n p, n ∈ names → pm !! n = Some p → stopped p = false) →
  ∃ errs pm', close_pools closeErr names pm = Ret (omap (λ n, db <$> pm !! n) names, errs, pm') ∧
    (∀ n, pm' !! n = if decide (n ∈ names) then mark_stopped <$> pm !! n else pm !! n).
Proof.
  revert pm. induction names as [|name names IH]; intros pm Hnd Hst; cbn [close_pools].
  { by exists [], pm. }
  apply NoDup_cons in Hnd as [Hni Hnd]. destruct (pm !! name) as [p|] eqn:Hp.
  - unfold Close. rewrite (Hst name p) by (done || left). cbn.
    destruct (IH (<[name := mark_stopped p]> pm) Hnd) as (errs & pm' & E & Hpm).
    { intros n q Hn Hq. rewrite lookup_insert_ne in Hq by congruence. by eapply Hst; [right|]. }
    unfold mark_stopped in E. rewrite E. cbn. eexists _, pm'. split.
    + rewrite Hp. cbn. do 4 f_equal. apply omap_agree. intros n Hn. by rewrite lookup_insert_ne by congruence.
    + intros n. rewrite Hpm. destruct (decide (n = name)) as [->|Hne].
      * rewrite decide_False, decide_True by (done || left). by rewrite lookup_insert_eq, Hp.
      * rewrite lookup_insert_ne by done. apply decide_ext. set_solver.
  - destruct (IH pm Hnd) as (errs & pm' & -> & Hpm).
    { intros n q Hn. by apply Hst; right. }
    cbn. rewrite Hp. cbn. exists errs, pm'. split; [done|]. intros n. rewrite Hpm.
    destruct (decide (n = name)) as [->|Hne]; [by rewrite !Hp; repeat case_decide|]. apply decide_ext. set_solver.
Qed.

Lemma dbs_of_pairs (pm : PoolManager) (l : list (string * EnhancedPool)) :
  (∀ n p, (n, p) ∈ l → pm !! n = Some p) → omap (λ n, db <$> pm !! n) l.*1 = (db ∘ snd) <$> l.
Proof.
  induction l as [|[n p] l IH]; intros H; [done|]. cbn. rewrite (H n p) by left. cbn. f_equal.
  apply IH. intros m q Hq. apply H. by right.
Qed.

(** [Close] of the manager, over any enumeration of its pools, closes the
    database of every pool once. *)
Theorem Manager_Close_all closeErr names (pm : PoolManager) :
  range_of pm names → (∀ n p, pm !! n = Some p → stopped p = false) →
  ∃ dbs err pm', Manager_Close closeErr names pm = Ret (dbs, err, pm') ∧
    dbs ≡ₚ (db ∘ snd) <$> map_to_list pm ∧ (∀ n p, pm' !! n = Some p → stopped p = true).
Proof.
  intros Hr Hst.
  assert (NoDup names) as Hnd by (rewrite Hr; apply NoDup_fst_map_to_list).
  destruct (close_pools_all closeErr names pm Hnd) as (errs & pm' & E & Hpm); [intros; by eapply Hst|].
  unfold Manager_Close. rewrite E. cbn. eexists _, _, pm'. split_and!; [done| |].
  - rewrite Hr. apply reflexive_eq, dbs_of_pairs. intros n p. apply elem_of_map_to_list.
  - intros n p Hp. rewrite Hpm in Hp.
    assert (is_Some (pm !! n)) as [q Hq].
    { case_decide; [by destruct (pm !! n)|by eexists]. }
    rewrite decide_True, Hq in Hp.
    + by injection Hp as <-.
    + rewrite Hr. apply list_elem_of_fmap. exists (n, q). split; [done|]. by apply elem_of_map_to_list.
Qed.

(** A pool added under a name already taken replaces the other one, which is
    not closed then nor by the manager's [Close]. *)
Theorem replaced_pool_never_closed closeErr :
  let pool d := MkPool d DefaultPoolConfig (applyConfig DefaultPoolConfig) 0 false false in
  let pm1 := <["main" := pool 1%nat]> NewPoolManager in
  let pm2 := <["main" := pool 2%nat]> pm1 in
  AddPool "main" (Some 1%nat) DefaultPoolConfig NewPoolManager = Ret (None, pm1) ∧
  AddPool "main" (Some 2%nat) DefaultPoolConfig pm1 = Ret (None, pm2) ∧
  range_of pm2 ["main"] ∧
  (∃ err pm3, Manager_Close closeErr ["main"] pm2 = Ret ([2%nat], err, pm3) ∧
     (∀ closeErr2, ∃ msg, Manager_Close closeErr2 ["main"] pm3 = Panic msg [])).
Proof.
  intros pool pm1 pm2. split_and!; [done|done| |].
  - unfold range_of, pm2, pm1. rewrite insert_insert_eq. unfold NewPoolManager. by rewrite map_to_list_insert.
  - unfold Manager_Close. cbn [close_pools]. unfold pm2. rewrite lookup_insert_eq. cbn.
    eexists _, _. split; [reflexivity|]. intros closeErr2. rewrite lookup_insert_eq. cbn. by eexists.
Qed.

(** ** Witnesses *)

Definition example_pool : EnhancedPool := MkPool 0 DefaultPoolConfig (applyConfig DefaultPoolConfig) 0 false false.

Lemma Exec_repeats_statement_witness :
  let (calls, r) := Exec (λ _, Some (Sentinel "bad connection")) (λ _, None) example_pool in
  Z.of_nat calls = 4 ∧ 2 < Z.of_nat calls ∧ r ≠ None.
Proof.
  apply (Exec_repeats_statement (Some (Sentinel "bad connection")) 0 DefaultPoolConfig); [done|reflexivity|left].
Defined.

Lemma health_follows_last_check_witness :
  IsHealthy (fold_left (λ p x, performHealthCheck x.1 x.2 p) [(Some (Sentinel "down"), 60); (None, 120)] example_pool)
  = true.
Proof. exact (health_follows_last_check 0 DefaultPoolConfig example_pool _ eq_refl). Defined.

Definition two_pools : PoolManager := <["a" := example_pool]> {["b" := example_pool]}.

Lemma Manager_Close_all_witness :
  ∃ dbs err pm', Manager_Close (λ _, None) ["b"; "a"] two_pools = Ret (dbs, err, pm') ∧
    dbs ≡ₚ (db ∘ snd) <$> map_to_list two_pools ∧ (∀ n p, pm' !! n = Some p → stopped p = true).
Proof.
  apply Manager_Close_all.
  - unfold range_of. apply (bool_decide_unpack _). vm_compute. exact I.
  - unfold two_pools. intros n p [[_ <-]|[_ [_ <-]%lookup_singleton_Some]]%lookup_insert_Some; done.
Defined.
