(* ===== verification/RpcClient.v ===== *)
(** * plugins/rpc/client.go: the RPC clients

    The target selector, the endpoint cache, the failover table, the resolution
    of a target and, on top of them, [Invoke] of the gRPC client and [Call] of the
    JSON-RPC client.  The network is given attempt by attempt: what discovery
    answers, whether dialing works, what the server replies, and the clock.  The
    rate limiter's decision is an argument; the degradation manager is that of
    [Degradation].  JSON bodies are strings; an observer only records and is left
    out. *)

From S2P Require Import Prelude GoString.
From S2P Require Degradation.
From stdpp Require Import pretty.
Import GoError GoTime.

Open Scope Z_scope.

(** ** Configuration *)

Definition ClientTypeGRPC : string := "grpc".
Definition ClientTypeJSONRPC : string := "jsonrpc".

Record ClientConfig := MkConfig {
  Type_ : string;
  Host : string;
  Port : Z;
  Timeout : Z;
  EnableTLS : bool;
  MaxMsgSize : Z;
  ServiceName : string;
  APIKey : string;
  AuthHeader : string;
  LoadBalance : string;
  RetryCount : Z;
  RetryBackoff : Z;
  Jittered : bool;                  (* RetryJitter > 0 *)
  IdempotentMethods : list string;
  MaxRetryElapsedTime : Z;
  DiscoveryCacheTTL : Z;
  FailoverThreshold : Z;
  FailoverCooldown : Z
}.

Definition DefaultClientConfig : ClientConfig :=
  MkConfig ClientTypeGRPC "localhost" 50051 (30 * Second) false (4 * 1024 * 1024) "" "" "X-API-Key" "round_robin" 1
    (100 * Millisecond) true [] (2 * Second) (5 * Second) 3 (30 * Second).

(** ** Selecting a target *)

Record clientTargetSelector := MkSelector { strategy : string; counter : Z }.

Definition newClientTargetSelector (s : string) : clientTargetSelector :=
  MkSelector (if decide (s = "") then "round_robin" else s) 0.

(** [draw] is the generator's next value. *)
Definition Select (draw : Z) (targets : list string) (s : clientTargetSelector) :
    result string * clientTargetSelector :=
  match targets with
  | [] => (Err (Errorf "no targets available" []), s)
  | t0 :: _ =>
      let n := Z.of_nat (length targets) in
      if decide (strategy s = "random") then (Ok (default t0 (targets !! Z.to_nat (draw mod n))), s)
      else
        let c := GoInt.u64 (counter s + 1) in
        (Ok (default t0 (targets !! Z.to_nat (GoInt.u64 (c - 1) mod n))), MkSelector (strategy s) c)
  end.

(** ** The endpoint cache *)

Record clientEndpointCache := MkCache { targets : list string; expiresAt : Z }.

Definition empty_cache : clientEndpointCache := MkCache [] 0.

Definition cache_get (now draw : Z) (c : clientEndpointCache) (s : clientTargetSelector) :
    option string * clientTargetSelector :=
  if bool_decide (targets c = []) || After now (expiresAt c) then (None, s)
  else
    match Select draw (targets c) s with
    | (Ok t, s) => (Some t, s)
    | (Err _, s) => (None, s)
    end.

Definition cache_store (now : Z) (ts : list string) (ttl : Z) : clientEndpointCache :=
  MkCache ts (Add now (if ttl <=? 0 then 5 * Second else ttl)).

Definition cache_invalidate (c : clientEndpointCache) : clientEndpointCache := empty_cache.

(** ** Failover *)

(** [ejectedUntil] 0 is the zero time. *)
Record targetHealthState := MkHealth { failures : Z; ejectedUntil : Z }.

Notation clientTargetFailover := (gmap string targetHealthState).

Definition available (now : Z) (f : clientTargetFailover) (target : string) : bool :=
  match f !! target with
  | None => true
  | Some st => IsZero (ejectedUntil st) || negb (Before now (ejectedUntil st))
  end.

Definition filterAvailable (now : Z) (ts : list string) (f : clientTargetFailover) : list string :=
  filter (λ t, available now f t = true) ts.

Definition recordSuccess (target : string) (f : clientTargetFailover) : clientTargetFailover :=
  if decide (target = "") then f else delete target f.

Definition recordFailure (now : Z) (target : string) (threshold cooldown : Z) (f : clientTargetFailover) :
    clientTargetFailover :=
  if decide (target = "") then f
  else
    let threshold := if threshold <=? 0 then 3 else threshold in
    let cooldown := if cooldown <=? 0 then 30 * Second else cooldown in
    let st := default (MkHealth 0 0) (f !! target) in
    let n := GoInt.i64 (failures st + 1) in
    <[target := if n >=? threshold then MkHealth 0 (Add now cooldown) else MkHealth n (ejectedUntil st)]> f.

(** ** What the two clients share *)

Record Client := MkClient {
  config : ClientConfig;
  selector : clientTargetSelector;
  cache : clientEndpointCache;
  failover : clientTargetFailover;
  conn : option string;             (* the gRPC connection, by its target *)
  baseURL : string;                 (* the JSON-RPC base URL *)
  requestID : Z                     (* uint64 *)
}.

Definition set_routing (s : clientTargetSelector) (k : clientEndpointCache) (f : clientTargetFailover) (c : Client) :
    Client := MkClient (config c) s k f (conn c) (baseURL c) (requestID c).

Definition set_conn (x : option string) (c : Client) : Client :=
  MkClient (config c) (selector c) (cache c) (failover c) x (baseURL c) (requestID c).

Definition setBaseURL (u : string) (c : Client) : Client :=
  MkClient (config c) (selector c) (cache c) (failover c) (conn c) u (requestID c).

Definition getCachedTarget (now draw : Z) (c : Client) : option string * Client :=
  let (t, s) := cache_get now draw (cache c) (selector c) in
  (t, set_routing s (cache c) (failover c) c).

Definition storeTargets (now : Z) (ts : list string) (c : Client) : Client :=
  set_routing (selector c) (cache_store now ts (DiscoveryCacheTTL (config c))) (failover c) c.

Definition invalidateTargets (c : Client) : Client :=
  set_routing (selector c) (cache_invalidate (cache c)) (failover c) c.

Definition selectHealthyTarget (now draw : Z) (ts : list string) (c : Client) : result string * Client :=
  let filtered := filterAvailable now ts (failover c) in
  let filtered := if bool_decide (filtered = []) then ts else filtered in
  let (r, s) := Select draw filtered (selector c) in
  (r, set_routing s (cache c) (failover c) c).

Definition recordTargetSuccess (target : string) (c : Client) : Client :=
  set_routing (selector c) (cache c) (recordSuccess target (failover c)) c.

Definition recordTargetFailure (now : Z) (target : string) (c : Client) : Client :=
  set_routing (selector c) (cache c)
    (recordFailure now target (FailoverThreshold (config c)) (FailoverCooldown (config c)) (failover c)) c.

(** What the outside says when a target is resolved: the clock, the
    generator's draws, and discovery, [None] when there is no resolver. *)
Record lookup_in := MkLookup {
  now : Z;
  draw : Z;
  discovery : option (result (list (string * Z)))
}.

Definition hostport (h : string) (p : Z) : string := h +:+ ":" +:+ pretty p.

Definition with_timeout (cfg : ClientConfig) : ClientConfig :=
  MkConfig (Type_ cfg) (Host cfg) (Port cfg) (if Timeout cfg =? 0 then 30 * Second else Timeout cfg) (EnableTLS cfg)
    (MaxMsgSize cfg) (ServiceName cfg) (APIKey cfg) (AuthHeader cfg) (LoadBalance cfg) (RetryCount cfg)
    (RetryBackoff cfg) (Jittered cfg) (IdempotentMethods cfg) (MaxRetryElapsedTime cfg) (DiscoveryCacheTTL cfg)
    (FailoverThreshold cfg) (FailoverCooldown cfg).

Definition scheme (cfg : ClientConfig) : string := if EnableTLS cfg then "https" else "http".

Definition NewGRPCClient (cfg : ClientConfig) : Client :=
  MkClient (with_timeout cfg) (newClientTargetSelector (LoadBalance cfg)) empty_cache ∅ None "" 0.

Definition NewJSONRPCClient (cfg : ClientConfig) : Client :=
  MkClient (with_timeout cfg) (newClientTargetSelector (LoadBalance cfg)) empty_cache ∅ None
    (scheme cfg +:+ "://" +:+ hostport (Host cfg) (Port cfg)) 0.

Definition NewClient (cfg : ClientConfig) : result Client :=
  if decide (Type_ cfg = ClientTypeGRPC) then Ok (NewGRPCClient cfg)
  else if decide (Type_ cfg = ClientTypeJSONRPC) then Ok (NewJSONRPCClient cfg)
  else Err (Errorf "unsupported client type: %s" [Type_ cfg]).

(** ** gRPC *)

(** An error with a gRPC status, and any other. *)
Inductive rpcError := StatusErr (code : Z) | OtherErr (e : error).

Definition resolveGRPCTarget (i : lookup_in) (c : Client) : result string * Client :=
  let (cached, c) := getCachedTarget (now i) (draw i) c in
  match cached with
  | Some t => (Ok t, c)
  | None =>
      match discovery i with
      | Some found =>
          if decide (ServiceName (config c) = "") then (Ok (hostport (Host (config c)) (Port (config c))), c)
          else
            match found with
            | Err e => (Err (ErrorfW "failed to resolve grpc service %s: %w" [ServiceName (config c)] e), c)
            | Ok [] => (Err (Errorf "no instances found for grpc service: %s" [ServiceName (config c)]), c)
            | Ok insts =>
                let ts := (λ x, hostport x.1 x.2) <$> insts in
                selectHealthyTarget (now i) (draw i) ts (storeTargets (now i) ts c)
            end
      | None => (Ok (hostport (Host (config c)) (Port (config c))), c)
      end
  end.

(** [dial] is the error of [grpc.NewClient]. *)
Definition Connect (i : lookup_in) (dial : option error) (c : Client) : option error * Client :=
  match resolveGRPCTarget i c with
  | (Err e, c) => (Some e, c)
  | (Ok addr, c) =>
      match dial with
      | Some e => (Some (ErrorfW "failed to connect to gRPC server: %w" [] e), invalidateTargets c)
      | None => (None, set_conn (Some addr) c)
      end
  end.

Definition isIdempotentMethod (method : string) (cfg : ClientConfig) : bool :=
  bool_decide (IdempotentMethods cfg = []) || bool_decide (method ∈ IdempotentMethods cfg).

(** Unavailable 14, DeadlineExceeded 4, ResourceExhausted 8, Aborted 10. *)
Definition retryable_code (code : Z) : bool := bool_decide (code ∈ [14; 4; 8; 10]).

Definition shouldRetryGRPC (method : string) (err : option rpcError) (cfg : ClientConfig) : bool :=
  match err with
  | None => false
  | Some err =>
      if negb (isIdempotentMethod method cfg) then false
      else match err with OtherErr _ => true | StatusErr code => retryable_code code end
  end.

(** [scale] is the multiplication by the random factor. *)
Definition retryBackoff (scale : Z → Z) (attempt : nat) (base : Z) (cfg : ClientConfig) : Z :=
  let base := if base <=? 0 then 100 * Millisecond else base in
  let backoff := GoInt.i64 (Z.shiftl base (Z.of_nat attempt)) in
  let maxBackoff := 2 * Second in
  let backoff := if backoff >? maxBackoff then maxBackoff else backoff in
  if Jittered cfg then scale backoff else backoff.

(** One attempt of [Invoke] as the outside sees it: the time since the start,
    the resolution, the dialing, and the server's answer ([None]: success). *)
Record attempt_in := MkAttempt {
  elapsed : Z;
  lookup : lookup_in;
  dial : option error;
  answer : option rpcError
}.

(** The connection made if there is none: the error, the target as the code
    remembers it, which an existing connection does not give, and the client. *)
Definition ensure_conn (a : attempt_in) (target : string) (c : Client) : option rpcError * string * Client :=
  match conn c with
  | Some _ => (None, target, c)
  | None =>
      match Connect (lookup a) (dial a) c with
      | (Some e, c) => (Some (OtherErr e), target, c)
      | (None, c) => (None, default target (conn c), c)
      end
  end.

(** Connect if needed, invoke, and record the outcome for the target: the
    connection the method was invoked on, the error and the target. *)
Definition attempt_once (a : attempt_in) (target : string) (c : Client) :
    list string * option rpcError * string * Client :=
  let '(cerr, target, c) := ensure_conn a target c in
  match cerr, conn c with
  | None, Some on =>
      ([on], answer a, target,
       match answer a with
       | None => recordTargetSuccess target c
       | Some _ => recordTargetFailure (now (lookup a)) target c
       end)
  | _, _ => ([], cerr, target, c)
  end.

(** What a failed attempt leaves to the next. *)
Definition drop_conn (c : Client) : Client := invalidateTargets (set_conn None c).

(** The loop of [Invoke]: [n] attempts are left; the result has the targets
    the method was invoked on, in order. *)
Fixpoint invoke_loop (method : string) (ins : nat → attempt_in) (n attempt : nat) (target : string)
    (lastErr : option rpcError) (c : Client) : list string * option rpcError * Client :=
  match n with
  | O => ([], lastErr, c)
  | S n =>
      let a := ins attempt in
      let maxElapsed := MaxRetryElapsedTime (config c) in
      if (maxElapsed >? 0) && (elapsed a >=? maxElapsed) then ([], lastErr, c)
      else
        let '(called, err, target, c) := attempt_once a target c in
        match err with
        | None => (called, None, c)
        | Some _ =>
            if negb (shouldRetryGRPC method err (config c)) then (called, err, c)
            else
              let '(rest, r, c) := invoke_loop method ins n (S attempt) target err (drop_conn c) in
              (called ++ rest, r, c)
        end
  end.

Definition attempts_of (cfg : ClientConfig) : nat := Z.to_nat (if RetryCount cfg <=? 0 then 1 else RetryCount cfg).

Definition Invoke (method : string) (ins : nat → attempt_in) (c : Client) : list string * option rpcError * Client :=
  invoke_loop method ins (attempts_of (config c)) 0 "" None c.

(** [allowed] and [degraded] are the decisions of the rate limiter and of the
    degradation manager. *)
Definition GRPC_Call (allowed permitted : bool) (method : string) (ins : nat → attempt_in) (c : Client) :
    list string * option rpcError * Client :=
  if negb allowed then ([], Some (OtherErr (Errorf "rate limit exceeded for method: %s" [method])), c)
  else if negb permitted then ([], Some (OtherErr (Errorf "method %s blocked by degradation policy" [method])), c)
  else Invoke method ins c.

(** ** JSON-RPC *)

Definition refreshJSONRPCBaseURL (i : lookup_in) (c : Client) : option error * Client :=
  let (cached, c) := getCachedTarget (now i) (draw i) c in
  match cached with
  | Some t => (None, setBaseURL t c)
  | None =>
      match discovery i with
      | None => (None, c)
      | Some found =>
          if decide (ServiceName (config c) = "") then (None, c)
          else
            match found with
            | Err e => (Some (ErrorfW "failed to resolve jsonrpc service %s: %w" [ServiceName (config c)] e), c)
            | Ok [] => (Some (Errorf "no instances found for jsonrpc service: %s" [ServiceName (config c)]), c)
            | Ok insts =>
                let ts := (λ x, scheme (config c) +:+ "://" +:+ hostport x.1 x.2) <$> insts in
                match selectHealthyTarget (now i) (draw i) ts (storeTargets (now i) ts c) with
                | (Err e, c) => (Some e, c)
                | (Ok t, c) => (None, setBaseURL t c)
                end
            end
      end
  end.

(** The [Host] of the URL: what follows the scheme. *)
Definition url_host (u : string) : string :=
  if HasPrefix u "https://" then TrimPrefix u "https://" else TrimPrefix u "http://".

(** A response body, decoded: the error object and the result. *)
Record response := MkResponse { rpc_error : option (Z * string); rpc_result : option string }.

(** The answer to one HTTP request: an error of the transport, or the status
    and the body, [None] when it is not a JSON-RPC response. *)
Record http_in := MkHttp { at_ : Z; reply : result (Z * option response) }.

(** A reply below 500 is taken; the others and the errors are failures. *)
Definition outcome_of (r : result (Z * option response)) : option response + error :=
  match r with
  | Ok (status, body) => if status <? 500 then inl body else inr (Errorf "server returned status %d" [pretty status])
  | Err e => inr e
  end.

(** The loop of [doJSONRPCRequestWithRetry]: the number of requests sent, the
    reply and the client. *)
Fixpoint request_loop (host : string) (ins : nat → http_in) (n attempt : nat) (lastErr : error) (c : Client) :
    nat * result (option response) * Client :=
  match n with
  | O => (O, Err lastErr, c)
  | S n =>
      let a := ins attempt in
      match outcome_of (reply a) with
      | inl body => (1%nat, Ok body, recordTargetSuccess host c)
      | inr e =>
          let '(k, r, c) := request_loop host ins n (S attempt) e
                              (invalidateTargets (recordTargetFailure (at_ a) host c)) in
          (S k, r, c)
      end
  end.

Definition doJSONRPCRequestWithRetry (url : string) (ins : nat → http_in) (c : Client) :
    nat * result (option response) * Client :=
  request_loop (url_host url) ins (attempts_of (config c)) 0 (Errorf "" []) c.

(** A request: its URL, its id and its authentication header. *)
Record request := MkRequest { url : string; id_ : Z; auth : option (string * string) }.

Definition auth_header (cfg : ClientConfig) : option (string * string) :=
  if decide (APIKey cfg = "") then None
  else Some (if decide (AuthHeader cfg = "") then "X-API-Key" else AuthHeader cfg, APIKey cfg).

Definition next_id (c : Client) : Client :=
  MkClient (config c) (selector c) (cache c) (failover c) (conn c) (baseURL c) (GoInt.u64 (requestID c + 1)).

(** [unmarshal] is the error of decoding the result into the caller's variable. *)
Definition read_response (unmarshal : string → option error) (body : option response) : result (option string) :=
  match body with
  | None => Err (Errorf "failed to decode response: %w" [])
  | Some r =>
      match rpc_error r with
      | Some (code, msg) => Err (Errorf "JSON-RPC error [%d]: %s" [pretty code; msg])
      | None =>
          match rpc_result r with
          | None => Ok None
          | Some v =>
              match unmarshal v with
              | Some e => Err (ErrorfW "failed to unmarshal result: %w" [] e)
              | None => Ok (Some v)
              end
          end
      end
  end.

(** The part of [Call] after the gates: the requests sent, the result and the
    client. *)
Definition send_call (i : lookup_in) (ins : nat → http_in) (unmarshal : string → option error) (c : Client) :
    list request * result (option string) * Client :=
  match refreshJSONRPCBaseURL i c with
  | (Some e, c) => ([], Err e, c)
  | (None, c) =>
      let c := next_id c in
      let req := MkRequest (baseURL c +:+ "/rpc") (requestID c) (auth_header (config c)) in
      match doJSONRPCRequestWithRetry (baseURL c) ins c with
      | (k, Err e, c) => (replicate k req, Err (ErrorfW "failed to send request: %w" [] e), c)
      | (k, Ok body, c) => (replicate k req, read_response unmarshal body, c)
      end
  end.

Notation DM := (@Degradation.DegradationManager string string).

(** [params] is the text of the parameters; the call starts at [start] and ends
    at [finish]. *)
Definition JSON_Call (allowed : bool) (dm : option DM) (method params : string) (start finish : Z) (i : lookup_in)
    (ins : nat → http_in) (unmarshal : string → option error) (c : Client) :
    list request * result (option string) * Client * option DM :=
  if negb allowed then ([], Err (Errorf "rate limit exceeded for method: %s" [method]), c, dm)
  else
    match dm with
    | Some d =>
        if Degradation.ShouldAllowMethod method d then
          let '(reqs, r, c) := send_call i ins unmarshal c in
          (reqs, r, c, Some (Degradation.RecordMetrics finish (Sub finish start) false d))
        else
          match Degradation.GetFallback method d with
          | None => ([], Err (Errorf "method %s blocked by degradation policy" [method]), c, dm)
          | Some fallback =>
              match fallback params with
              | Err e => ([], Err e, c, dm)
              | Ok v =>
                  match unmarshal v with
                  | Some e => ([], Err (ErrorfW "failed to unmarshal fallback result: %w" [] e), c, dm)
                  | None => ([], Ok (Some v), c, dm)
                  end
              end
          end
    | None =>
        let '(reqs, r, c) := send_call i ins unmarshal c in (reqs, r, c, None)
    end.

Definition SetAPIKey (key : string) (c : Client) : Client :=
  let g := config c in
  MkClient (MkConfig (Type_ g) (Host g) (Port g) (Timeout g) (EnableTLS g) (MaxMsgSize g) (ServiceName g) key
              (AuthHeader g) (LoadBalance g) (RetryCount g) (RetryBackoff g) (Jittered g) (IdempotentMethods g)
              (MaxRetryElapsedTime g) (DiscoveryCacheTTL g) (FailoverThreshold g) (FailoverCooldown g))
    (selector c) (cache c) (failover c) (conn c) (baseURL c) (requestID c).

(** ** Selection *)

Lemma pick_in (t0 : string) ts k : ts ≠ [] → default t0 (ts !! Z.to_nat (k mod Z.of_nat (length ts))) ∈ ts.
Proof.
  intros Hne. assert (0 < Z.of_nat (length ts)) by (destruct ts; cbn; [done|lia]).
  pose proof (Z.mod_pos_bound k (Z.of_nat (length ts))).
  destruct (lookup_lt_is_Some_2 ts (Z.to_nat (k mod Z.of_nat (length ts)))) as [t Ht]; [lia|].
  rewrite Ht. by eapply list_elem_of_lookup_2.
Qed.

Lemma Select_spec draw ts s :
  ts ≠ [] → ∃ t s', Select draw ts s = (Ok t, s') ∧ t ∈ ts.
Proof.
  intros Hne. unfold Select. destruct ts as [|t0 ts]; [done|].
  case_decide; eexists _, _; (split; [reflexivity|]); by apply pick_in.
Qed.

(** ** Failover *)

Definition fail_all (target : string) (thr cool : Z) (times : list Z) (f : clientTargetFailover) :
    clientTargetFailover := fold_left (λ f t, recordFailure t target thr cool f) times f.

(** After [k] failures in a row the counter stands at [k mod thr] and the
    target is ejected from the last failure that completed a round. *)
Lemma fail_all_state target thr cool times f :
  target ≠ "" → 0 < thr < 2 ^ 62 → 0 < cool → f !! target = None → times ≠ [] →
  let k := Z.of_nat (length times) in
  fail_all target thr cool times f !! target =
  Some (MkHealth (k mod thr)
          (if k <? thr then 0 else default 0 (times !! Z.to_nat (thr * (k / thr) - 1)) + cool)).
Proof.
  intros Ht Hthr Hc Hf. induction times as [|t times IH] using rev_ind; [done|]. intros _ k.
  unfold fail_all. rewrite fold_left_app. cbn [fold_left].
  change (fold_left _ times f) with (fail_all target thr cool times f).
  unfold recordFailure at 1. rewrite decide_False by done. zcmp. replace (cool <=? 0) with false by lia.
  rewrite lookup_insert_eq. f_equal. subst k. rewrite length_app. cbn [length].
  set (k := Z.of_nat (length times)) in *. replace (Z.of_nat (length times + 1)) with (k + 1) by lia.
  set (st := default (MkHealth 0 0) (fail_all target thr cool times f !! target)).
  assert (failures st = k mod thr ∧
          ejectedUntil st = if k <? thr then 0 else default 0 (times !! Z.to_nat (thr * (k / thr) - 1)) + cool) as [Ef Ee].
  { subst st. destruct (decide (times = [])) as [E|Hne].
    - subst k. rewrite E. cbn. rewrite Hf. cbn. zcmp. by rewrite Z.mod_0_l by lia.
    - rewrite (IH Hne). done. }
  pose proof (Z.mod_pos_bound k thr ltac:(lia)). pose proof (Z.div_mod k thr ltac:(lia)).
  assert (GoInt.i64 (failures st + 1) = k mod thr + 1) as ->.
  { rewrite Ef. unfold GoInt.i64. rewrite Z.mod_small by lia. lia. }
  destruct (decide (k mod thr + 1 = thr)) as [Er|Er].
  - assert (k + 1 = thr * (k / thr + 1)) as Ek by lia.
    assert ((k + 1) mod thr = 0) as -> by (rewrite Ek, Z.mul_comm; apply Z.mod_mul; lia).
    assert ((k + 1) / thr = k / thr + 1) as -> by (rewrite Ek, Z.mul_comm, Z.div_mul; lia).
    replace (k mod thr + 1 >=? thr) with true by lia.
    replace (k + 1 <? thr) with false by (pose proof (Z.div_pos k thr); nia).
    f_equal. rewrite <-Ek, lookup_app_r by lia.
    replace (Z.to_nat (k + 1 - 1) - length times)%nat with O by lia. done.
  - assert ((k + 1) mod thr = k mod thr + 1) as ->.
    { symmetry. apply (Z.mod_unique _ _ (k / thr)); lia. }
    assert ((k + 1) / thr = k / thr) as ->.
    { symmetry. apply (Z.div_unique _ _ _ (k mod thr + 1)); lia. }
    replace (k mod thr + 1 >=? thr) with false by lia. f_equal. rewrite Ee.
    destruct (k <? thr) eqn:Hk.
    + replace (k + 1 <? thr) with true; [done|]. rewrite Z.div_small in * by lia. lia.
    + replace (k + 1 <? thr) with false by lia. do 2 f_equal. rewrite lookup_app_l; [done|].
      assert (0 < k / thr) by (apply Z.div_str_pos; lia). nia.
Qed.

(** A target is ejected by its [thr]th failure in a row, for [cool] from that
    failure on and again at each further round of [thr] failures; one success
    makes it available at once. *)
Theorem failover_ejects target thr cool times f t :
  target ≠ "" → 0 < thr < 2 ^ 62 → 0 < cool → f !! target = None → times ≠ [] → Forall (λ x, 0 <= x) times →
  let k := Z.of_nat (length times) in
  let f' := fail_all target thr cool times f in
  (available t f' target = true ↔ k < thr ∨ default 0 (times !! Z.to_nat (thr * (k / thr) - 1)) + cool <= t) ∧
  available t (recordSuccess target f') target = true.
Proof.
  intros Ht Hthr Hc Hf Hne Hpos k f'. split.
  - unfold available, f'. rewrite fail_all_state by done. cbn [ejectedUntil]. fold k.
    destruct (k <? thr) eqn:Hk; [rewrite Z.ltb_lt in Hk; naive_solver|]. rewrite Z.ltb_ge in Hk.
    unfold IsZero, Before.
    assert (0 <= default 0 (times !! Z.to_nat (thr * (k / thr) - 1))).
    { destruct (times !! _) eqn:E; cbn; [|lia]. by eapply Forall_lookup_1 in E. }
    rewrite orb_true_iff, negb_true_iff, Z.eqb_eq, Z.ltb_ge. lia.
  - unfold available, recordSuccess. rewrite decide_False by done. by rewrite lookup_delete_eq.
Qed.

(** The choice among the targets discovery returned: one of them, and never an
    ejected one while another is available. *)
Theorem selectHealthyTarget_avoids_ejected t draw ts c :
  ts ≠ [] → ∃ x c', selectHealthyTarget t draw ts c = (Ok x, c') ∧ x ∈ ts ∧
    (available t (failover c) x = true ∨ ∀ y, y ∈ ts → available t (failover c) y = false) ∧
    failover c' = failover c.
Proof.
  intros Hne. unfold selectHealthyTarget.
  destruct (bool_decide (filterAvailable t ts (failover c) = [])) eqn:E.
  - apply bool_decide_eq_true in E. destruct (Select_spec draw ts (selector c) Hne) as (x & s & -> & Hx).
    eexists _, _. split_and!; [done|done| |done]. right. intros y Hy.
    apply not_true_is_false. intros Ha. apply (elem_of_nil y). rewrite <-E. by apply list_elem_of_filter.
  - apply bool_decide_eq_false in E. destruct (Select_spec draw _ (selector c) E) as (x & s & -> & Hx).
    apply list_elem_of_filter in Hx as [Ha Hx]. eexists _, _. split_and!; [done|done|by left|done].
Qed.

(** ** Invoke *)

Lemma Connect_config i d c : config (Connect i d c).2 = config c.
Proof.
  assert (config (resolveGRPCTarget i c).2 = config c) as Hr.
  { unfold resolveGRPCTarget, getCachedTarget. destruct (cache_get _ _ _ _) as [[x|] s]; [done|].
    destruct (discovery i) as [[[|y l]|e]|]; [| | |done]; cbn; repeat case_match; try done.
    unfold selectHealthyTarget in *. simplify_eq/=. by destruct (Select _ _ _); simplify_eq. }
  unfold Connect. destruct (resolveGRPCTarget i c) as [[x|e] c']; [|done]. by destruct d.
Qed.

Lemma ensure_conn_config a target c : config (ensure_conn a target c).2 = config c.
Proof.
  unfold ensure_conn. destruct (conn c); [done|].
  pose proof (Connect_config (lookup a) (dial a) c). by destruct (Connect _ _ _) as [[e|] c'].
Qed.

Lemma Connect_conn i d c c' : Connect i d c = (None, c') → is_Some (conn c').
Proof.
  unfold Connect. destruct (resolveGRPCTarget i c) as [[x|e] c1]; [|done]. destruct d; [done|].
  intros [= <-]. by eexists.
Qed.

Lemma ensure_conn_some a target c e tg c' :
  ensure_conn a target c = (e, tg, c') → e = None → is_Some (conn c').
Proof.
  unfold ensure_conn. intros H He. destruct (conn c) eqn:E; [by simplify_eq; rewrite E|].
  destruct (Connect _ _ _) as [[er|] c1] eqn:E1; simplify_eq. by eapply Connect_conn.
Qed.

(** What one attempt of a call comes to, without reference to how the client goes
    about it: the server's answer on a connection, or why there is none. *)
Definition no_connection (cfg : ClientConfig) (a : attempt_in) (e : error) : Prop :=
  (∃ de, discovery (lookup a) = Some (Err de) ∧ e = ErrorfW "failed to resolve grpc service %s: %w" [ServiceName cfg] de) ∨
  (discovery (lookup a) = Some (Ok []) ∧ e = Errorf "no instances found for grpc service: %s" [ServiceName cfg]) ∨
  (∃ de, dial a = Some de ∧ e = ErrorfW "failed to connect to gRPC server: %w" [] de).

Inductive tried (cfg : ClientConfig) (a : attempt_in) : list string → option rpcError → Prop :=
| tried_invoked on : tried cfg a [on] (answer a)
| tried_unconnected e : no_connection cfg a e → tried cfg a [] (Some (OtherErr e)).

(** The budget of the call is not spent when the attempt begins. *)
Definition in_budget (cfg : ClientConfig) (a : attempt_in) : Prop :=
  0 < MaxRetryElapsedTime cfg → elapsed a < MaxRetryElapsedTime cfg.

(** An error after which the method may be tried again: the method is idempotent,
    which all are when none is named, and the error is not one of the server, or is
    Unavailable, DeadlineExceeded, ResourceExhausted or Aborted. *)
Definition may_retry (cfg : ClientConfig) (method : string) (e : rpcError) : Prop :=
  (IdempotentMethods cfg = [] ∨ method ∈ IdempotentMethods cfg) ∧
  match e with OtherErr _ => True | StatusErr code => code = 14 ∨ code = 4 ∨ code = 8 ∨ code = 10 end.

Lemma shouldRetryGRPC_spec method e cfg : shouldRetryGRPC method (Some e) cfg = true ↔ may_retry cfg method e.
Proof.
  unfold shouldRetryGRPC, isIdempotentMethod, may_retry, retryable_code.
  destruct (bool_decide_reflect (IdempotentMethods cfg = [])), (bool_decide_reflect (method ∈ IdempotentMethods cfg));
    cbn [orb negb]; destruct e as [code|e]; rewrite ?bool_decide_eq_true; try set_solver.
Qed.

Lemma Connect_error a c e c' : Connect (lookup a) (dial a) c = (Some e, c') → no_connection (config c) a e.
Proof.
  unfold Connect. destruct (resolveGRPCTarget (lookup a) c) as [[addr|er] c1] eqn:E.
  - destruct (dial a) as [de|] eqn:Ed; [|done]. intros [= <- _]. right; right. eauto.
  - intros [= <- _]. unfold resolveGRPCTarget, getCachedTarget in E.
    destruct (cache_get _ _ _ _) as [[x|] s]; [done|].
    destruct (discovery (lookup a)) as [[[|y l]|de]|] eqn:Hd; [| | |done]; cbn [config set_routing] in E; case_decide; try done.
    + injection E as <- _. right; left. auto.
    + destruct (selectHealthyTarget_avoids_ejected (now (lookup a)) (draw (lookup a)) ((λ x, hostport x.1 x.2) <$> y :: l)
        (storeTargets (now (lookup a)) ((λ x, hostport x.1 x.2) <$> y :: l) (set_routing s (cache c) (failover c) c)))
        as (x & c2 & Es & _); [done|]. rewrite Es in E. done.
    + injection E as <- _. left. eauto.
Qed.

Lemma attempt_once_spec a target c called err tg c' :
  attempt_once a target c = (called, err, tg, c') →
  config c' = config c ∧ tried (config c) a called err ∧ (err = None → ∃ on, called = [on] ∧ conn c' = Some on).
Proof.
  unfold attempt_once. pose proof (ensure_conn_config a target c) as Hcfg.
  destruct (ensure_conn a target c) as [[cerr tg1] c1] eqn:E. cbn in Hcfg.
  pose proof (ensure_conn_some _ _ _ _ _ _ E) as Hconn. destruct cerr as [er|].
  - intros [= <- <- <- <-]. split; [done|]. split; [|done].
    unfold ensure_conn in E. destruct (conn c); [done|]. destruct (Connect _ _ _) as [[x|] y] eqn:Ec; simplify_eq.
    apply tried_unconnected. by eapply Connect_error.
  - destruct (Hconn eq_refl) as [on Hon]. rewrite Hon. intros [= <- <- <- <-]. split; [by destruct (answer a)|].
    split; [constructor|]. intros ->. by exists on.
Qed.

(** The attempts of a call, from the attempt [a] on, of which [n] are left. *)
Definition attempts_made (cfg : ClientConfig) (method : string) (ins : nat → attempt_in) (n a : nat)
    (tries : list (list string * option rpcError)) : Prop :=
  (length tries ≤ n)%nat ∧
  (∀ k called err, tries !! k = Some (called, err) →
     tried cfg (ins (a + k)%nat) called err ∧ in_budget cfg (ins (a + k)%nat)) ∧
  (∀ k, (S k < length tries)%nat → ∃ called e, tries !! k = Some (called, Some e) ∧ may_retry cfg method e) ∧
  ((length tries < n)%nat →
     ¬ in_budget cfg (ins (a + length tries)%nat) ∨
     ∃ called err, last tries = Some (called, err) ∧ ∀ e, err = Some e → ¬ may_retry cfg method e).

Lemma attempts_made_one cfg method ins n a called err :
  tried cfg (ins a) called err → in_budget cfg (ins a) → (∀ e, err = Some e → ¬ may_retry cfg method e) →
  attempts_made cfg method ins (S n) a [(called, err)].
Proof.
  intros Ht Hb He. split; [cbn; lia|]. split.
  { intros [|k] ? ?; [|done]. intros [= <- <-]. by rewrite Nat.add_0_r. }
  split; [cbn; lia|]. intros _. right. exists called, err. auto.
Qed.

Lemma attempts_made_cons cfg method ins n a called e tries :
  tried cfg (ins a) called (Some e) → in_budget cfg (ins a) → may_retry cfg method e →
  attempts_made cfg method ins n (S a) tries → attempts_made cfg method ins (S n) a ((called, Some e) :: tries).
Proof.
  intros Ht Hb Hm (Hl & Htr & Hre & Hst). split; [cbn; lia|]. split.
  { intros [|k] called' err'; cbn; [intros [= <- <-]; by rewrite Nat.add_0_r|]. rewrite Nat.add_succ_r. apply Htr. }
  split.
  { intros [|k] Hk; cbn in *; [eauto|]. apply Hre. lia. }
  cbn [length]. intros Hlt. rewrite Nat.add_succ_r. destruct Hst as [?|(cl & er & Hlast & He)]; [lia|by left|].
  right. exists cl, er. split; [|done]. by destruct tries.
Qed.

Lemma invoke_loop_spec method ins n a target lastErr c calls r c' :
  invoke_loop method ins n a target lastErr c = (calls, r, c') →
  ∃ tries, attempts_made (config c) method ins n a tries ∧ calls = concat tries.*1 ∧
    r = match last tries with Some (_, err) => err | None => lastErr end ∧
    (∀ called, last tries = Some (called, None) → ∃ on, called = [on] ∧ conn c' = Some on).
Proof.
  revert a target lastErr c calls r c'.
  induction n as [|n IH]; intros a target lastErr c calls r c'; cbn [invoke_loop].
  { intros [= <- <- <-]. exists []. split; [|done]. split; [done|]. split; [done|]. split; cbn; lia. }
  destruct ((MaxRetryElapsedTime (config c) >? 0) && _) eqn:Hb.
  { intros [= <- <- <-]. exists []. split; [|done]. split; [cbn; lia|]. split; [done|]. split; [cbn; lia|].
    intros _. left. cbn [length]. rewrite Nat.add_0_r. unfold in_budget. lia. }
  assert (in_budget (config c) (ins a)) as Hin by (unfold in_budget; lia).
  destruct (attempt_once (ins a) target c) as [[[called err] tg] c1] eqn:E1.
  apply attempt_once_spec in E1 as (Hcfg & Ht & Hnone).
  destruct err as [er|].
  2: { intros [= <- <- <-]. exists [(called, None)]. split; [by apply attempts_made_one|].
       split; [cbn; by rewrite app_nil_r|]. split; [done|]. intros ? [= <-]. auto. }
  pose proof (shouldRetryGRPC_spec method er (config c1)) as Hs. rewrite Hcfg in Hs at 2.
  destruct (shouldRetryGRPC method (Some er) (config c1)); cbn [negb].
  2: { intros [= <- <- <-]. exists [(called, Some er)]. split.
       { apply attempts_made_one; [done..|]. intros e [= <-] Hm. by apply Hs in Hm. }
       split; [cbn; by rewrite app_nil_r|]. done. }
  destruct (invoke_loop method ins n (S a) tg (Some er) (drop_conn c1)) as [[rest r1] c2] eqn:E2.
  intros [= <- <- <-]. apply IH in E2 as (tries & Hm & -> & Hr & Hc). cbn [config drop_conn invalidateTargets set_routing set_conn] in Hm.
  rewrite Hcfg in Hm. exists ((called, Some er) :: tries).
  split; [apply attempts_made_cons; [done..| |done]; by apply Hs|]. split; [done|].
  destruct tries as [|t tries]; [split; [exact Hr|by intros ? [=]]|].
  change (last ((called, Some er) :: t :: tries)) with (last (t :: tries)). split; [|exact Hc]. rewrite Hr.
  destruct (last (t :: tries)) eqn:El; [done|]. by apply last_None in El.
Qed.

(** C25: a gRPC call makes attempts one after another, at most as many as are
    configured and one at least unless its budget is spent before the first; each
    invokes the method once on one connection or finds none to be had; another
    attempt follows only an error that may be retried, and the last one is that
    which succeeded, or whose error may not be retried, or after which the number
    or the budget is used up.  The call returns exactly the outcome of its last
    attempt: the answer of the server, or why there was no connection; nil means
    that the attempt succeeded on a connection that is kept, or that the budget was
    spent before there was any.  A method that is not among the idempotent ones
    that are given is invoked once at most. *)
Theorem Invoke_correct method ins c :
  let '(calls, r, c') := Invoke method ins c in
  ∃ tries, attempts_made (config c) method ins (Z.to_nat (Z.max 1 (RetryCount (config c)))) 0 tries ∧
    calls = concat tries.*1 ∧
    (tries = [] ↔ ¬ in_budget (config c) (ins O)) ∧
    r = match last tries with Some (_, err) => err | None => None end ∧
    (r = None → tries = [] ∨ ∃ on, last tries = Some ([on], None) ∧ conn c' = Some on) ∧
    (IdempotentMethods (config c) ≠ [] → method ∉ IdempotentMethods (config c) → (length calls ≤ 1)%nat).
Proof.
  unfold Invoke. destruct (invoke_loop _ _ _ _ _ _ _) as [[calls r] c'] eqn:E.
  apply invoke_loop_spec in E as (tries & Hm & -> & -> & Hc).
  replace (attempts_of (config c)) with (Z.to_nat (Z.max 1 (RetryCount (config c)))) in Hm
    by (unfold attempts_of; destruct (Z.leb_spec (RetryCount (config c)) 0); lia).
  exists tries. split; [done|]. split; [done|]. destruct Hm as (Hl & Htr & Hre & Hst). split.
  { split.
    - intros ->. cbn in Hst. destruct Hst as [?|(? & ? & ? & _)]; [lia|done|done].
    - intros Hb. destruct tries as [|[called err] tries]; [done|]. by destruct (Htr O called err eq_refl) as [_ ?]. }
  split; [done|]. split.
  { intros Hr. destruct (last tries) as [[called err]|] eqn:El; [|left; by apply last_None in El]. subst err. right.
    destruct (Hc called eq_refl) as (on & -> & ?). by exists on. }
  intros Hne Hni. destruct tries as [|[called err] [|t tries]]; [cbn; lia| |].
  - destruct (Htr O called err eq_refl) as [[on|e He] _]; cbn; lia.
  - destruct (Hre O) as (? & e & _ & [[?|?] _]); [cbn; lia|done|done].
Qed.

(** ** The gates of a call *)

(** A call refused by the rate limiter sends nothing and changes nothing; one
    refused by the degradation manager is answered by the method's fallback
    without a request, or refused when there is none. *)
Theorem JSON_Call_gates allowed d method params start finish i ins unmarshal c :
  (allowed = false → ∃ e, JSON_Call allowed (Some d) method params start finish i ins unmarshal c =
                          ([], Err e, c, Some d)) ∧
  (allowed = true → Degradation.ShouldAllowMethod method d = false →
   ∃ r, JSON_Call allowed (Some d) method params start finish i ins unmarshal c = ([], r, c, Some d) ∧
     (∀ v, r = Ok (Some v) ↔ ∃ fb, Degradation.GetFallback method d = Some fb ∧ fb params = Ok v ∧ unmarshal v = None) ∧
     r ≠ Ok None).
Proof.
  split; [intros ->; by eexists|]. intros -> Hd. unfold JSON_Call. cbn [negb]. rewrite Hd.
  destruct (Degradation.GetFallback method d) as [fb|].
  2: { eexists. split_and!; [done| |done]. intros v. split; [done|by intros (? & ? & _)]. }
  destruct (fb params) as [v|e] eqn:Ev.
  2: { eexists. split_and!; [done| |done]. intros v. split; [done|]. intros (? & [= <-] & ? & _). congruence. }
  destruct (unmarshal v) eqn:Eu; eexists; (split_and!; [done| |done]); intros v'; split.
  - done.
  - intros (fb' & [= <-] & ? & ?). simplify_eq. congruence.
  - intros [= <-]. by exists fb.
  - intros (fb' & [= <-] & E & _). rewrite Ev in E. by injection E as ->.
Qed.

(** ** Sending *)

(** What a success and a failure keep, the loop keeps. *)
Lemma request_loop_inv host ins (P : Client → Prop) :
  (∀ c, P c → P (recordTargetSuccess host c)) →
  (∀ t c, P c → P (invalidateTargets (recordTargetFailure t host c))) →
  ∀ n a e c, P c → (let '(k, _, c') := request_loop host ins n a e c in (k ≤ n)%nat ∧ P c').
Proof.
  intros Hs Hf n. induction n as [|n IH]; intros a e c Hc; cbn [request_loop]; [done|].
  destruct (outcome_of (reply (ins a))) as [body|er]; [split; [lia|auto]|].
  specialize (IH (S a) er _ (Hf (at_ (ins a)) c Hc)). destruct (request_loop _ _ _ _ _ _) as [[k r] c'].
  destruct IH. split; [lia|done].
Qed.

(** The requests of one call are at most the configured number and all the
    same: the same URL, so that a retry goes to the server that failed, whatever
    the method and the other targets. *)
Theorem JSON_retries_same_server i ins unmarshal c :
  let '(reqs, _, c') := send_call i ins unmarshal c in
  (length reqs ≤ attempts_of (config c'))%nat ∧ ∃ q, reqs = replicate (length reqs) q.
Proof.
  unfold send_call. destruct (refreshJSONRPCBaseURL i c) as [[e|] c1]; [split; [cbn; lia|by exists (MkRequest "" 0 None)]|].
  unfold doJSONRPCRequestWithRetry.
  pose proof (request_loop_inv (url_host (baseURL (next_id c1))) ins (λ c, config c = config c1)
                ltac:(done) ltac:(done) (attempts_of (config (next_id c1))) 0 (Errorf "" []) (next_id c1) eq_refl) as H.
  destruct (request_loop _ _ _ _ _ _) as [[k [body|e]] c2]; destruct H as [Hk Hc]; rewrite length_replicate, Hc;
    (split; [done|]); by eexists.
Qed.


(** ** JSON-RPC failover *)

(** Failures are recorded under the host of the URL, and targets are looked up
    with their scheme, so nothing is ever found: with addresses that do not begin
    with the scheme themselves, no failure keeps a target from being chosen. *)
Definition good_host (sch h : string) : Prop := HasPrefix h (sch +:+ "://") = false.

Definition good_url (sch u : string) : Prop := ∃ h, u = sch +:+ "://" +:+ h ∧ good_host sch h.

Definition hosts_only (sch : string) (c : Client) : Prop :=
  ∀ x, is_Some (failover c !! x) → good_host sch x.

Definition json_inv (sch : string) (c : Client) : Prop :=
  scheme (config c) = sch ∧ good_url sch (baseURL c) ∧ Forall (good_url sch) (targets (cache c)) ∧ hosts_only sch c.

Lemma url_host_good cfg u : good_url (scheme cfg) u → good_host (scheme cfg) (url_host u).
Proof.
  intros (h & -> & Hh). unfold url_host, scheme in *. destruct (EnableTLS cfg).
  - replace (HasPrefix _ _) with true.
    + by change ("https" +:+ "://" +:+ h) with ("https://" +:+ h); rewrite TrimPrefix_app.
    + symmetry. apply HasPrefix_spec. by exists h.
  - change (HasPrefix ("http" +:+ "://" +:+ h) "https://") with false. cbv iota.
    by change ("http" +:+ "://" +:+ h) with ("http://" +:+ h); rewrite TrimPrefix_app.
Qed.

Lemma Select_in draw ts s t s' : Select draw ts s = (Ok t, s') → t ∈ ts.
Proof.
  intros H. destruct ts as [|t0 ts]; [done|].
  destruct (Select_spec draw (t0 :: ts) s ltac:(done)) as (x & s1 & E & Hx). congruence.
Qed.

Lemma json_inv_routing sch c s k :
  json_inv sch c → Forall (good_url sch) (targets k) → json_inv sch (set_routing s k (failover c) c).
Proof. intros (? & ? & _ & ?) ?. by split_and!. Qed.

Lemma json_inv_base sch c u : json_inv sch c → good_url sch u → json_inv sch (setBaseURL u c).
Proof. intros (? & _ & ? & ?) ?. by split_and!. Qed.

(** The cached target is one of the targets stored. *)
Lemma getCachedTarget_spec t draw c r c' :
  getCachedTarget t draw c = (r, c') →
  (∃ s, c' = set_routing s (cache c) (failover c) c) ∧ (∀ x, r = Some x → x ∈ targets (cache c)).
Proof.
  unfold getCachedTarget, cache_get. intros H.
  destruct (_ || _); [simplify_eq; split; [by eexists|done]|].
  destruct (Select draw (targets (cache c)) (selector c)) as [[x|e] s] eqn:E; simplify_eq; (split; [by eexists|]).
  - intros y [= <-]. by eapply Select_in.
  - done.
Qed.

Lemma refresh_inv sch i c :
  json_inv sch c →
  (∀ insts x, discovery i = Some (Ok insts) → x ∈ insts → good_host sch (hostport x.1 x.2)) →
  json_inv sch (refreshJSONRPCBaseURL i c).2.
Proof.
  intros Hinv Hi. unfold refreshJSONRPCBaseURL. destruct (getCachedTarget _ _ c) as [r c1] eqn:Ec.
  apply getCachedTarget_spec in Ec as [[s ->] Hx]. pose proof Hinv as (Hs & _ & Ht & _).
  assert (json_inv sch (set_routing s (cache c) (failover c) c)) as H1 by (by apply json_inv_routing).
  destruct r as [t|]; cbn [snd].
  { apply json_inv_base; [done|]. rewrite Forall_forall in Ht. by apply Ht, Hx. }
  destruct (discovery i) as [[insts|e]|] eqn:Ed; [|by case_decide|done].
  case_decide; [done|]. destruct insts as [|x0 insts]; [done|]. set (ts := _ <$> x0 :: insts).
  assert (Forall (good_url sch) ts) as Hts.
  { apply Forall_forall. intros u (x & -> & Hin)%list_elem_of_fmap. exists (hostport x.1 x.2).
    split; [by rewrite <-Hs|by eapply Hi]. }
  destruct (selectHealthyTarget_avoids_ejected (now i) (draw i) ts
              (storeTargets (now i) ts (set_routing s (cache c) (failover c) c))) as (t & c2 & E & Hin & _); [done|].
  rewrite E. cbn [snd]. apply json_inv_base; [|by rewrite Forall_forall in Hts; apply Hts].
  unfold selectHealthyTarget in E. destruct (Select _ _ _) as [r' s']. injection E as _ <-.
  apply (json_inv_routing sch (storeTargets (now i) ts (set_routing s (cache c) (failover c) c))); [|done].
  by apply (json_inv_routing sch (set_routing s (cache c) (failover c) c)).
Qed.

Lemma json_inv_success sch host c : json_inv sch c → json_inv sch (recordTargetSuccess host c).
Proof.
  intros (? & ? & ? & Hh). split_and!; [done..|]. intros x. cbn. unfold recordSuccess. case_decide; [apply Hh|].
  intros [st [_ Hst]%lookup_delete_Some]. apply Hh. by eexists.
Qed.

Lemma json_inv_failure sch host (Hg : good_host sch host) t c :
  json_inv sch c → json_inv sch (invalidateTargets (recordTargetFailure t host c)).
Proof.
  intros (? & ? & ? & Hh). split_and!; [done..|constructor|]. intros x. cbn. unfold recordFailure.
  case_decide; [apply Hh|]. intros [st [[<- _]|[_ Hst]]%lookup_insert_Some]; [done|]. apply Hh. by eexists.
Qed.

Lemma send_call_inv sch i ins unmarshal c :
  json_inv sch c →
  (∀ insts x, discovery i = Some (Ok insts) → x ∈ insts → good_host sch (hostport x.1 x.2)) →
  json_inv sch (send_call i ins unmarshal c).2.
Proof.
  intros Hinv Hi. unfold send_call. pose proof (refresh_inv sch i c Hinv Hi) as H1.
  destruct (refreshJSONRPCBaseURL i c) as [[e|] c1]; [done|]. cbn [snd] in H1. unfold doJSONRPCRequestWithRetry.
  assert (good_host sch (url_host (baseURL (next_id c1)))) as Hg.
  { destruct H1 as (<- & Hb & _). by apply url_host_good. }
  pose proof (request_loop_inv (url_host (baseURL (next_id c1))) ins (json_inv sch)
                (json_inv_success sch _) (json_inv_failure sch _ Hg) (attempts_of (config (next_id c1))) 0
                (Errorf "" []) (next_id c1) H1) as Hl.
  by destruct (request_loop _ _ _ _ _ _) as [[k [body|e]] c2]; destruct Hl.
Qed.

(** So the filter of the targets discovery returns lets them all through. *)
Theorem json_failover_inert sch c t ts :
  json_inv sch c → Forall (good_url sch) ts → filterAvailable t ts (failover c) = ts.
Proof.
  intros (_ & _ & _ & Hh) Hts. apply filter_all. intros u Hu. unfold available.
  destruct (failover c !! u) eqn:E; [|done]. exfalso.
  rewrite Forall_forall in Hts. destruct (Hts u Hu) as (h & -> & _).
  specialize (Hh _ (ex_intro _ _ E)). unfold good_host in Hh.
  rewrite (proj2 (HasPrefix_spec _ _)) in Hh; [done|]. exists h. by apply (assoc_L String.append).
Qed.

(** ** Backoff *)

(** Without jitter the delay is positive and at most two seconds as long as
    the shift does not overflow. *)
Theorem retryBackoff_bounds scale attempt base cfg :
  Jittered cfg = false → 0 < base → base * 2 ^ Z.of_nat attempt < 2 ^ 63 →
  0 < retryBackoff scale attempt base cfg <= 2 * Second ∧
  retryBackoff scale attempt base cfg = Z.min (base * 2 ^ Z.of_nat attempt) (2 * Second).
Proof.
  intros Hj Hb Hlt. unfold retryBackoff. rewrite Hj. replace (base <=? 0) with false by lia.
  rewrite Z.shiftl_mul_pow2 by lia.
  assert (0 < 2 ^ Z.of_nat attempt) by (apply Z.pow_pos_nonneg; lia).
  assert (GoInt.i64 (base * 2 ^ Z.of_nat attempt) = base * 2 ^ Z.of_nat attempt) as ->.
  { unfold GoInt.i64. rewrite Z.mod_small; [lia|]. nia. }
  assert (0 < base * 2 ^ Z.of_nat attempt) by nia.
  unfold Second. destruct (_ >? _) eqn:E; [rewrite Z.gtb_lt in E|apply Z.gtb_ltb, Z.ltb_ge in E || rewrite Z.gtb_ltb, Z.ltb_ge in E]; lia.
Qed.

(** The default delay of 100 ms, shifted 37 times, is negative: the 38th retry
    and later ones do not wait. *)
Theorem backoff_overflows scale cfg :
  Jittered cfg = false → retryBackoff scale 37 (100 * Millisecond) cfg < 0.
Proof. intros Hj. unfold retryBackoff. rewrite Hj. by vm_compute. Qed.

(** ** What the clients miss *)

(** A budget spent before the first attempt ends the loop with no error: nil is
    returned and the method was not invoked. *)
Theorem spent_budget_returns_nil method ins c :
  0 < MaxRetryElapsedTime (config c) <= elapsed (ins O) → Invoke method ins c = ([], None, c).
Proof.
  intros H. unfold Invoke. assert (attempts_of (config c) ≠ O) as Hat by (unfold attempts_of; case_match; lia).
  destruct (attempts_of (config c)) as [|n]; [done|]. cbn [invoke_loop].
  by replace ((MaxRetryElapsedTime (config c) >? 0) && (elapsed (ins 0%nat) >=? MaxRetryElapsedTime (config c)))
    with true by lia.
Qed.

(** The target is known only when the call makes the connection, so a failure
    on a connection that is already there is not counted against its target. *)
Theorem established_failure_uncounted a c on :
  conn c = Some on → failover (attempt_once a "" c).2 = failover c.
Proof. intros H. unfold attempt_once, ensure_conn. rewrite H, H. by destruct (answer a). Qed.

(** A target served from the cache is not checked against the ejected ones. *)
Definition two_targets : Client :=
  set_routing (newClientTargetSelector "") (cache_store 0 ["a:1"; "b:1"] (30 * Second))
    {["a:1" := MkHealth 0 (30 * Second)]} (NewGRPCClient DefaultClientConfig).

Theorem cached_target_may_be_ejected :
  available 10 (failover two_targets) "a:1" = false ∧ available 10 (failover two_targets) "b:1" = true ∧
  (resolveGRPCTarget (MkLookup 10 0 None) two_targets).1 = Ok "a:1".
Proof. by vm_compute. Qed.

(** The JSON-RPC client reports every call to the degradation manager as a
    success, so its error rate stays what it was. *)
Theorem client_errors_never_counted dm method params start finish i ins unmarshal c :
  let '(_, r, _, dm') := JSON_Call true (Some dm) method params start finish i ins unmarshal c in
  (∀ m, m ∈ Degradation.requests dm → Degradation.failed m = false) →
  ∀ d m, dm' = Some d → m ∈ Degradation.requests d → Degradation.failed m = false.
Proof.
  unfold JSON_Call. cbn [negb]. destruct (Degradation.ShouldAllowMethod method dm).
  - destruct (send_call i ins unmarshal c) as [[reqs r] c']. intros H d m [= <-]. unfold Degradation.RecordMetrics.
    destruct (Degradation.AutoDetect _); [|apply H]. cbn. rewrite elem_of_app, list_elem_of_filter, list_elem_of_singleton.
    intros [[_ Hm]| ->]; [auto|done].
  - repeat case_match; simplify_eq; intros H d m [= <-]; apply H.
Qed.

(** ** Witnesses *)

Definition reach (ts : list (string * Z)) : lookup_in := MkLookup 1 0 (Some (Ok ts)).

Definition svc_config : ClientConfig :=
  MkConfig ClientTypeGRPC "localhost" 50051 (30 * Second) false 0 "users" "" "" "round_robin" 3 (100 * Millisecond) false
    ["Get"] (2 * Second) (5 * Second) 3 (30 * Second).

Definition flaky (k : nat) : attempt_in :=
  MkAttempt (Z.of_nat k * 100 * Millisecond) (reach [("10.0.0.1", 50051); ("10.0.0.2", 50051)]) None
    (if decide (k = O) then Some (StatusErr 14) else None).

Lemma Invoke_correct_witness :
  let '(calls, r, c') := Invoke "Get" flaky (NewGRPCClient svc_config) in
  calls = ["10.0.0.1:50051"; "10.0.0.2:50051"] ∧ r = None ∧ is_Some (conn c').
Proof.
  pose proof (Invoke_correct "Get" flaky (NewGRPCClient svc_config)) as H.
  destruct (Invoke "Get" flaky (NewGRPCClient svc_config)) as [[calls r] c'] eqn:E.
  assert (calls = ["10.0.0.1:50051"; "10.0.0.2:50051"] ∧ r = None) as [Hc Hr].
  { vm_compute in E. by injection E as <- <- _. }
  destruct H as (tries & _ & Ht & _ & _ & H & _). split_and!; [done|done|].
  destruct (H Hr) as [->|(on & _ & ->)]; [by rewrite Ht in Hc|by eexists].
Defined.

Lemma failover_ejects_witness :
  let f := fail_all "a:1" 3 (30 * Second) [1; 2; 3; 4] ∅ in
  available 5 f "a:1" = false ∧ available (3 + 30 * Second) f "a:1" = true.
Proof.
  assert (Forall (λ x, 0 <= x) [1; 2; 3; 4]) as Hp by (repeat constructor; lia).
  intros f.
  assert (∀ t, available t f "a:1" = true ↔ 4 < 3 ∨ 3 + 30 * Second <= t) as Hf.
  { intros t. apply (failover_ejects "a:1" 3 (30 * Second) [1; 2; 3; 4] ∅ t);
      [discriminate|lia|unfold Second; lia|apply lookup_empty|discriminate|exact Hp]. }
  split.
  - apply not_true_is_false. rewrite Hf. unfold Second. lia.
  - apply Hf. unfold Second. lia.
Defined.

Lemma selectHealthyTarget_avoids_ejected_witness :
  ∃ x c', selectHealthyTarget 10 0 ["a:1"; "b:1"] two_targets = (Ok x, c') ∧ x ∈ ["a:1"; "b:1"] ∧
    (available 10 (failover two_targets) x = true ∨ ∀ y, y ∈ ["a:1"; "b:1"] → available 10 (failover two_targets) y = false) ∧
    failover c' = failover two_targets.
Proof. apply selectHealthyTarget_avoids_ejected. done. Defined.

Lemma retryBackoff_bounds_witness :
  0 < retryBackoff (λ x, x) 4 (100 * Millisecond) svc_config <= 2 * Second ∧
  retryBackoff (λ x, x) 4 (100 * Millisecond) svc_config = 1600 * Millisecond.
Proof. apply (retryBackoff_bounds (λ x, x) 4 (100 * Millisecond) svc_config); [reflexivity|by vm_compute|by vm_compute]. Defined.

Lemma backoff_overflows_witness : retryBackoff (λ x, x) 37 (100 * Millisecond) svc_config < 0.
Proof. apply backoff_overflows. reflexivity. Defined.

Lemma spent_budget_returns_nil_witness :
  Invoke "Get" (λ k, MkAttempt (3 * Second) (reach []) None None) (NewGRPCClient svc_config) =
  ([], None, NewGRPCClient svc_config).
Proof. apply spent_budget_returns_nil. by vm_compute. Defined.

Lemma established_failure_uncounted_witness :
  failover (attempt_once (flaky 0) "" (set_conn (Some "a:1") (NewGRPCClient svc_config))).2 = ∅.
Proof.
  apply (established_failure_uncounted (flaky 0) (set_conn (Some "a:1") (NewGRPCClient svc_config)) "a:1").
  reflexivity.
Defined.

Lemma json_failover_inert_witness :
  let c := (send_call (MkLookup 1 0 (Some (Ok [("10.0.0.1", 8080)]))) (λ _, MkHttp 1 (Err (Sentinel "refused")))
              (λ _, None) (NewJSONRPCClient svc_config)).2 in
  filterAvailable 2 ["http://10.0.0.1:8080"] (failover c) = ["http://10.0.0.1:8080"].
Proof.
  apply (json_failover_inert "http").
  - apply send_call_inv.
    + split_and!; [done| |constructor|]; [by exists "localhost:50051"|]. intros x [st Hx]. cbn in Hx. by rewrite lookup_empty in Hx.
    + intros insts x [= <-] Hx. apply list_elem_of_singleton in Hx as ->. by vm_compute.
  - constructor; [|constructor]. by exists "10.0.0.1:8080".
Defined.
