(* ===== verification/RpcServer.v ===== *)
(** * plugins/rpc: the server side of a call

    auth.go (API keys), service.go (the service registry and the middleware
    chain) and server.go (the JSON-RPC handler, the dispatch to a service by
    reflection, the gRPC interceptor).  A service is a map from the names of its
    exported methods, which are all [reflect] finds, to what a call of the method
    returns.  JSON values are strings.  The rate limiter's decision is an
    argument, the degradation manager is that of [Degradation]; observers, tracing
    and the HTTP server itself are left out. *)

From S2P Require Import Prelude GoString.
From S2P Require Degradation.
From Stdlib Require Import Ascii.
Import GoError GoTime.

Open Scope Z_scope.

(** ** Authentication *)

Record AuthConfig := MkAuth {
  APIKeys : gmap string string;
  HeaderName : string;
  QueryName : string;
  SkipMethods : list string;
  Enabled : bool
}.

Definition DefaultAuthConfig : AuthConfig :=
  MkAuth ∅ "X-API-Key" "api_key" ["system.ping"; "health.check"; "service.stats"] false.

(** The values the package keeps in a context. *)
Record context := MkCtx { api_key : option string; api_user : option string; rpc_method : option string }.

Definition Background : context := MkCtx None None None.

Definition SetAPIKeyInContext (k : string) (ctx : context) : context :=
  MkCtx (Some k) (api_user ctx) (rpc_method ctx).
Definition SetAPIUserInContext (u : string) (ctx : context) : context :=
  MkCtx (api_key ctx) (Some u) (rpc_method ctx).
Definition SetRPCMethodInContext (m : string) (ctx : context) : context :=
  MkCtx (api_key ctx) (api_user ctx) (Some m).

Definition extractRPCMethod (ctx : context) : string := default "" (rpc_method ctx).

Definition extractAPIKeyFromContext (ctx : context) : result string :=
  match api_key ctx with
  | Some k => Ok k
  | None => Err (Errorf "API key not found in context" [])
  end.

Definition shouldSkipMethod (method : string) (a : AuthConfig) : bool := bool_decide (method ∈ SkipMethods a).

(** The loop over the keys finds the key exactly when the map has it. *)
Definition validateAPIKey (key : string) (a : AuthConfig) : bool := bool_decide (is_Some (APIKeys a !! key)).

Definition AddAPIKey (key description : string) (a : AuthConfig) : AuthConfig :=
  MkAuth (<[key := description]> (APIKeys a)) (HeaderName a) (QueryName a) (SkipMethods a) (Enabled a).

Definition RemoveAPIKey (key : string) (a : AuthConfig) : AuthConfig :=
  MkAuth (delete key (APIKeys a)) (HeaderName a) (QueryName a) (SkipMethods a) (Enabled a).

Definition HasAPIKey (key : string) (a : AuthConfig) : bool := bool_decide (is_Some (APIKeys a !! key)).

Definition IsAuthenticated (ctx : context) (a : AuthConfig) : bool :=
  match extractAPIKeyFromContext ctx with Ok k => validateAPIKey k a | Err _ => false end.

(** The middleware: the context the request continues with. *)
Definition RPCAuth_Execute (ctx : context) (a : AuthConfig) : result context :=
  if negb (Enabled a) then Ok ctx
  else if shouldSkipMethod (extractRPCMethod ctx) a then Ok ctx
  else
    match extractAPIKeyFromContext ctx with
    | Err e => Err (ErrorfW "API key required: %w" [] e)
    | Ok k =>
        if negb (validateAPIKey k a) then Err (Errorf "invalid API key" [])
        else Ok (SetAPIUserInContext (default "" (APIKeys a !! k)) (SetAPIKeyInContext k ctx))
    end.

(** ** Middleware chain *)

Definition middleware := context → string → result string.

Fixpoint Chain_Execute (ctx : context) (chain : list middleware) (req : string) : result string :=
  match chain with
  | [] => Ok req
  | m :: chain => match m ctx req with Err e => Err e | Ok req => Chain_Execute ctx chain req end
  end.

(** ** Dispatch *)

(** A value returned by a method: one whose type is an interface that
    implements [error], or another, with whether its type has a nil and the JSON
    of the value, [None] for nil. *)
Inductive rval := RErr (e : option error) | RVal (nillable : bool) (v : option string).

(** A method: whether its first argument is a context, whether a JSON value
    converts to the type of its other arguments, and its results when called;
    [None] is the zero value of that type. *)
Record method := MkMethod {
  convertible : string → bool;
  run : context → option string → list rval
}.

Notation service := (gmap string method).

Definition ErrMethodNotFound : error := Sentinel "rpc.ErrMethodNotFound".

(** [err == ErrMethodNotFound]: a wrapped one is another value. *)
Definition is_not_found (e : error) : bool :=
  match e with Sentinel v => bool_decide (v = "rpc.ErrMethodNotFound") | _ => false end.

(** The results of a call: one that is an error or not, or the first two. *)
Definition read_results (results : list rval) : outcome (result (option string)) :=
  match results with
  | [] => Ret (Ok None)
  | [RErr (Some e)] => Ret (Err e)
  | [RErr None] => Ret (Ok None)
  | [RVal _ v] => Ret (Ok v)
  | r0 :: RErr (Some e) :: _ => Ret (Err e)
  | r0 :: RErr None :: _ | r0 :: RVal true None :: _ =>
      Ret (Ok match r0 with RVal _ v => v | RErr _ => None end)
  | r0 :: RVal true (Some _) :: _ => Panic "interface conversion: missing method Error" []
  | r0 :: RVal false _ :: _ => Panic "reflect: call of reflect.Value.IsNil on non-nillable Value" []
  end.

(** Parameters that do not convert are replaced by the zero value. *)
Definition callMethod (ctx : context) (svc : service) (name : string) (params : option string) :
    outcome (result (option string)) :=
  match svc !! name with
  | None => Ret (Err ErrMethodNotFound)
  | Some m =>
      let arg := match params with Some p => if convertible m p then Some p else None | None => None end in
      read_results (run m ctx arg)
  end.

Definition executeMethod (ctx : context) (services : gmap string service) (method : string) (params : option string) :
    outcome (result (option string)) :=
  match Split "."%char method with
  | [serviceName; methodName] =>
      match services !! serviceName with
      | None => Ret (Err ErrMethodNotFound)
      | Some svc => callMethod ctx svc methodName params
      end
  | _ => Ret (Err ErrMethodNotFound)
  end.

(** ** The JSON-RPC handler *)

Record JSONRPCRequest := MkReq { JSONRPC : string; Method : string; Params : option string; ID : option string }.

(** A response: the HTTP status, the code and message of its error, its result
    and its id. *)
Record response := MkResp { status : Z; error_ : option (Z * string); result_ : option string; rid : option string }.

Definition fail (st code : Z) (msg : string) (id : option string) : response := MkResp st (Some (code, msg)) None id.
Definition succeed (v id : option string) : response := MkResp 200 None v id.

Notation DM := (@Degradation.DegradationManager (option string) (option string)).

Record Server := MkServer {
  auth : AuthConfig;
  services : gmap string service;
  degradation : option DM
}.

(** What the code takes from an HTTP request: a header and a query parameter by
    name, "" when absent. *)
Record http_request := MkHttp { header : string → string; query : string → string; body : option JSONRPCRequest }.

Definition apiKey_of (r : http_request) (a : AuthConfig) : string :=
  let headerName := if decide (HeaderName a = "") then "X-API-Key" else HeaderName a in
  let queryName := if decide (QueryName a = "") then "api_key" else QueryName a in
  let key := header r headerName in
  if decide (key = "") then query r queryName else key.

Definition auth_context (key : string) (a : AuthConfig) : context :=
  if decide (key = "") then Background
  else
    let ctx := SetAPIKeyInContext key Background in
    match APIKeys a !! key with Some user => SetAPIUserInContext user ctx | None => ctx end.

(** The method run inside the handler, with the metrics recorded; [true]: the
    dispatch took place. *)
Definition dispatch (now : Z) (duration : Z) (ctx : context) (req : JSONRPCRequest) (s : Server) :
    outcome (response * bool * Server) :=
  let! r := executeMethod ctx (services s) (Method req) (Params req) in
  let record err := match degradation s with
                    | Some d => MkServer (auth s) (services s) (Some (Degradation.RecordMetrics now duration err d))
                    | None => s
                    end in
  match r with
  | Err e =>
      if is_not_found e then Ret (fail 200 (-32601) "Method not found" (ID req), true, record true)
      else Ret (fail 200 (-32603) "Internal error" (ID req), true, record true)
  | Ok v => Ret (succeed v (ID req), true, record false)
  end.

(** [allowed] is the rate limiter's decision. *)
Definition handleJSONRPC (allowed : bool) (now duration : Z) (r : http_request) (s : Server) :
    outcome (response * bool * Server) :=
  let ctx := auth_context (apiKey_of r (auth s)) (auth s) in
  match body r with
  | None => Ret (fail 200 (-32700) "Parse error" None, false, s)
  | Some req =>
      let ctx := SetRPCMethodInContext (Method req) ctx in
      if negb (bool_decide (JSONRPC req = "2.0")) then Ret (fail 200 (-32600) "Invalid Request" (ID req), false, s)
      else if decide (Method req = "") then Ret (fail 200 (-32600) "Invalid Request" (ID req), false, s)
      else if Enabled (auth s) && negb (shouldSkipMethod (Method req) (auth s)) && negb (IsAuthenticated ctx (auth s))
      then Ret (fail 200 (-32601) "Unauthorized" (ID req), false, s)
      else if negb allowed then Ret (fail 429 (-32000) "Rate limit exceeded" (ID req), false, s)
      else
        match degradation s with
        | Some d =>
            if Degradation.ShouldAllowMethod (Method req) d then dispatch now duration ctx req s
            else
              match Degradation.GetFallback (Method req) d with
              | Some fallback =>
                  match fallback (Params req) with
                  | Err _ => Ret (fail 200 (-32603) "Internal error" (ID req), false, s)
                  | Ok v => Ret (succeed v (ID req), false, s)
                  end
              | None => Ret (fail 200 (-32603) "Service temporarily unavailable due to degradation" (ID req), false, s)
              end
        | None => dispatch now duration ctx req s
        end
  end.

Definition RegisterService (name : string) (svc : service) (s : Server) : Server :=
  MkServer (auth s) (<[name := svc]> (services s)) (degradation s).

Definition SetAuthConfig (a : AuthConfig) (s : Server) : Server := MkServer a (services s) (degradation s).

Definition EnableAuth (s : Server) : Server :=
  let d := DefaultAuthConfig in
  MkServer (MkAuth (APIKeys d) (HeaderName d) (QueryName d) (SkipMethods d) true) (services s) (degradation s).

Definition DisableAuth (s : Server) : Server :=
  let a := auth s in
  MkServer (MkAuth (APIKeys a) (HeaderName a) (QueryName a) (SkipMethods a) false) (services s) (degradation s).

(** ** The gRPC interceptor *)

Inductive grpc_status := Unauthenticated | ResourceExhausted | Unavailable | HandlerError (e : error).

(** [metadata] is the first value of a key of the incoming metadata, "" when
    there is none; [lower] is [strings.ToLower] of the header name. *)
Definition governance (allowed : bool) (now duration : Z) (lower : string → string) (metadata : string → string)
    (fullMethod : string) (req : option string) (handler : context → option string → option string + error)
    (s : Server) : (option string + grpc_status) * bool * Server :=
  let headerName := if decide (HeaderName (auth s) = "") then "x-api-key" else lower (HeaderName (auth s)) in
  let ctx := SetRPCMethodInContext fullMethod (auth_context (metadata headerName) (auth s)) in
  if Enabled (auth s) && negb (shouldSkipMethod fullMethod (auth s)) && negb (IsAuthenticated ctx (auth s))
  then (inr Unauthenticated, false, s)
  else if negb allowed then (inr ResourceExhausted, false, s)
  else
    let call (record : bool → Server) :=
      match handler ctx req with
      | inl v => (inl v, true, record false)
      | inr e => (inr (HandlerError e), true, record true)
      end in
    match degradation s with
    | Some d =>
        if Degradation.ShouldAllowMethod fullMethod d then
          call (λ err, MkServer (auth s) (services s) (Some (Degradation.RecordMetrics now duration err d)))
        else
          match Degradation.GetFallback fullMethod d with
          | Some fallback =>
              match fallback req with Err _ => (inr Unavailable, false, s) | Ok v => (inl v, false, s) end
          | None => (inr Unavailable, false, s)
          end
    | None => call (λ _, s)
    end.

(** ** Who may call *)

(** The key of a request is accepted. *)
Definition key_accepted (key : string) (a : AuthConfig) : Prop := key ≠ "" ∧ is_Some (APIKeys a !! key).

Lemma IsAuthenticated_spec key m a :
  IsAuthenticated (SetRPCMethodInContext m (auth_context key a)) a = true ↔ key_accepted key a.
Proof.
  unfold IsAuthenticated, extractAPIKeyFromContext, auth_context, key_accepted, validateAPIKey.
  case_decide as Hk; cbn; [naive_solver|].
  destruct (APIKeys a !! key) eqn:E; cbn; rewrite E, bool_decide_eq_true; tauto.
Qed.

(** The condition under which a method is open to the request. *)
Definition may_call (key method : string) (a : AuthConfig) : Prop :=
  Enabled a = false ∨ method ∈ SkipMethods a ∨ key_accepted key a.

Lemma auth_gate key m a :
  (Enabled a && negb (shouldSkipMethod m a) &&
     negb (IsAuthenticated (SetRPCMethodInContext m (auth_context key a)) a)) = false ↔ may_call key m a.
Proof.
  unfold may_call. rewrite !andb_false_iff, !negb_false_iff, IsAuthenticated_spec.
  unfold shouldSkipMethod. rewrite bool_decide_eq_true. tauto.
Qed.

Lemma dispatch_spec now duration ctx req s :
  ∀ resp ran s', dispatch now duration ctx req s = Ret (resp, ran, s') →
  ran = true ∧ rid resp = ID req ∧ (error_ resp = None ↔ ∃ v, executeMethod ctx (services s) (Method req) (Params req) = Ret (Ok v)) ∧
  (error_ resp ≠ None → result_ resp = None) ∧ auth s' = auth s ∧ services s' = services s.
Proof.
  intros resp ran s'. unfold dispatch. destruct (executeMethod _ _ _ _) as [[v|e]|msg l] eqn:E; [| |done].
  - intros [= <- <- <-]. split_and!; [done|done| |done|by destruct (degradation s)..].
    split; [by eexists|done].
  - intros H. assert (∃ code msg, resp = fail 200 code msg (ID req)) as (code & msg & ->).
    { destruct (is_not_found e); simplify_eq; by eexists _, _. }
    split_and!; [by destruct (is_not_found e); simplify_eq|done| |done|
      destruct (is_not_found e); simplify_eq; by destruct (degradation s)..].
    split; [done|]. by intros [v ?].
Qed.

(** C24: the JSON-RPC handler answers every request it can parse with the
    request's id, an error or a result and not both, and it runs a service method
    only if the version is right, the request may call the method (authentication
    is off, the method is public, or the key is registered), the rate limiter and
    the degradation level allow it; a request that may not call the method gets
    the error Unauthorized and reaches no service and no fallback. *)
Theorem handleJSONRPC_correct allowed now duration r req s resp ran s' :
  body r = Some req → handleJSONRPC allowed now duration r s = Ret (resp, ran, s') →
  rid resp = ID req ∧ (error_ resp ≠ None → result_ resp = None) ∧ auth s' = auth s ∧ services s' = services s ∧
  (ran = true → JSONRPC req = "2.0" ∧ allowed = true ∧ may_call (apiKey_of r (auth s)) (Method req) (auth s) ∧
     (∀ d, degradation s = Some d → Degradation.ShouldAllowMethod (Method req) d = true)) ∧
  (JSONRPC req = "2.0" → Method req ≠ "" → ¬ may_call (apiKey_of r (auth s)) (Method req) (auth s) →
     resp = fail 200 (-32601) "Unauthorized" (ID req) ∧ s' = s).
Proof.
  intros Hb. unfold handleJSONRPC. rewrite Hb.
  destruct (bool_decide (JSONRPC req = "2.0")) eqn:Hv; cbn [negb].
  2: { intros [= <- <- <-]. apply bool_decide_eq_false in Hv. by split_and!. }
  apply bool_decide_eq_true in Hv. case_decide as Hm; [intros [= <- <- <-]; by split_and!|].
  destruct (_ && _ && _) eqn:Ha.
  { intros [= <- <- <-]. by split_and!. }
  apply auth_gate in Ha. destruct allowed; cbn [negb]; [|intros [= <- <- <-]; split_and!; done || tauto].
  assert (∀ resp ran s', dispatch now duration (SetRPCMethodInContext (Method req)
            (auth_context (apiKey_of r (auth s)) (auth s))) req s = Ret (resp, ran, s') →
          rid resp = ID req ∧ (error_ resp ≠ None → result_ resp = None) ∧ auth s' = auth s ∧ services s' = services s)
    as Hd by (intros resp1 ran1 s1 H1; apply dispatch_spec in H1; tauto).
  destruct (degradation s) as [d|] eqn:Ed.
  2: { intros H. apply Hd in H as (? & ? & ? & ?). split_and!; done || tauto. }
  destruct (Degradation.ShouldAllowMethod (Method req) d) eqn:Eal.
  { intros H. apply Hd in H as (? & ? & ? & ?). split_and!; try (done || tauto).
    intros _. split_and!; [done..|]. by intros d' [= <-]. }
  intros H. repeat case_match; simplify_eq; split_and!; done || tauto.
Qed.

(** The gRPC interceptor has the same gate: the handler runs only for a caller
    that may call the method, and is refused as unauthenticated otherwise. *)
Theorem governance_correct allowed now duration lower metadata fullMethod req handler s res ran s' :
  let key := metadata (if decide (HeaderName (auth s) = "") then "x-api-key" else lower (HeaderName (auth s))) in
  governance allowed now duration lower metadata fullMethod req handler s = (res, ran, s') →
  (ran = true → allowed = true ∧ may_call key fullMethod (auth s) ∧
     (∀ d, degradation s = Some d → Degradation.ShouldAllowMethod fullMethod d = true)) ∧
  (¬ may_call key fullMethod (auth s) → res = inr Unauthenticated ∧ s' = s) ∧
  auth s' = auth s.
Proof.
  intros key. unfold governance. fold key. destruct (_ && _ && _) eqn:Ha.
  { intros [= <- <- <-]. by split_and!. }
  apply auth_gate in Ha. destruct allowed; cbn [negb]; [|intros [= <- <- <-]; split_and!; done || tauto].
  intros H. destruct (degradation s) as [d|] eqn:Ed.
  2: { destruct (handler _ _); simplify_eq; split_and!; done || tauto. }
  destruct (Degradation.ShouldAllowMethod fullMethod d) eqn:Eal.
  - destruct (handler _ _); simplify_eq; (split_and!; [|tauto|done]); intros _;
      (split_and!; [done..|]); by intros d' [= <-].
  - repeat case_match; simplify_eq; split_and!; done || tauto.
Qed.

(** The middleware and the handler agree on who may call. *)
Theorem RPCAuth_Execute_agrees key method a :
  (∃ ctx, RPCAuth_Execute (SetRPCMethodInContext method (auth_context key a)) a = Ok ctx) ↔ may_call key method a.
Proof.
  rewrite <-auth_gate. unfold RPCAuth_Execute, IsAuthenticated.
  change (extractRPCMethod (SetRPCMethodInContext method (auth_context key a))) with method.
  destruct (Enabled a); cbn [negb andb]; [|split; [done|by eexists]].
  destruct (shouldSkipMethod method a); cbn [negb andb]; [split; [done|by eexists]|].
  destruct (extractAPIKeyFromContext _) as [k|e]; [|by split; [intros [? ?]|]].
  destruct (validateAPIKey k a); cbn [negb]; [split; [done|by eexists]|by split; [intros [? ?]|]].
Qed.

(** A chain is the composition of its middleware, and stops at the first that
    fails. *)
Theorem Chain_Execute_app ctx c1 c2 req :
  Chain_Execute ctx (c1 ++ c2) req =
  match Chain_Execute ctx c1 req with Err e => Err e | Ok req => Chain_Execute ctx c2 req end.
Proof. revert req. induction c1 as [|m c1 IH]; intros req; cbn; [done|]. by destruct (m ctx req). Qed.

(** ** Findings *)

(** [reflect] finds exported methods, whose names do not begin with a lower
    case letter. *)
Definition exported (name : string) : bool :=
  match name with String.String c _ => negb (within 97 122 (byte_of c)) | String.EmptyString => false end.

Definition services_exported (ss : gmap string service) : Prop :=
  ∀ n svc m, ss !! n = Some svc → is_Some (svc !! m) → exported m = true.

(** None of the methods that are public by default can be called: their names
    are in lower case. *)
Theorem public_methods_not_found ctx ss params :
  services_exported ss →
  Forall (λ m, executeMethod ctx ss m params = Ret (Err ErrMethodNotFound)) (SkipMethods DefaultAuthConfig).
Proof.
  intros Hs.
  assert (∀ n m, exported m = false → match ss !! n with
            | None => Ret (Err ErrMethodNotFound) | Some svc => callMethod ctx svc m params end =
            Ret (Err ErrMethodNotFound)) as H.
  { intros n m Hm. destruct (ss !! n) as [svc|] eqn:E; [|done]. unfold callMethod.
    destruct (svc !! m) eqn:Em; [|done]. rewrite (Hs n svc m E) in Hm; [done|by eexists]. }
  repeat constructor; by apply H.
Qed.

(** [EnableAuth] starts from the default configuration: the keys added before
    it are gone, and every method that is not public is refused. *)
Theorem EnableAuth_drops_keys s key method : method ∉ SkipMethods DefaultAuthConfig →
  ¬ may_call key method (auth (EnableAuth s)).
Proof. intros Hm [H|[H|[_ [v H]]]]; [done|done|]. cbn in H. by rewrite lookup_empty in H. Qed.

(** Parameters that do not convert to the method's type, such as an object for
    a method that takes a struct, are dropped without an error: the method runs
    on the zero value. *)
Theorem unconvertible_params_dropped ctx svc name m p :
  svc !! name = Some m → convertible m p = false →
  callMethod ctx svc name (Some p) = callMethod ctx svc name None.
Proof. intros Hm Hc. unfold callMethod. by rewrite Hm, Hc. Qed.

(** A method whose second result cannot be nil makes the handler panic. *)
Theorem second_result_panics ctx svc name m params v0 v1 l :
  svc !! name = Some m → (∀ ctx a, run m ctx a = RVal false v0 :: RVal false v1 :: l) →
  ∃ msg, callMethod ctx svc name params = Panic msg [].
Proof. intros Hm Hr. unfold callMethod. rewrite Hm, Hr. by eexists. Qed.

(** ** Witnesses *)

Definition echo : method := MkMethod (λ p, bool_decide (p = "text")) (λ _ a, [RVal true a; RErr None]).
Definition pair_of_ints : method := MkMethod (λ _, true) (λ _ _, [RVal false (Some "1"); RVal false (Some "2")]).

Definition example_server : Server :=
  MkServer (MkAuth {["k1" := "alice"]} "" "" ["sys.Ping"] true)
    {["svc" := <["Echo" := echo]> {["Two" := pair_of_ints]}]} None.

Definition example_request (key method : string) : http_request :=
  MkHttp (λ h, if decide (h = "X-API-Key") then key else "") (λ _, "")
    (Some (MkReq "2.0" method (Some "text") (Some "7"))).

Lemma handleJSONRPC_correct_witness :
  may_call "k1" "svc.Echo" (auth example_server) ∧
  handleJSONRPC true 0 0 (example_request "bad" "svc.Echo") example_server =
    Ret (fail 200 (-32601) "Unauthorized" (Some "7"), false, example_server).
Proof.
  split.
  - destruct (handleJSONRPC_correct true 0 0 (example_request "k1" "svc.Echo") (MkReq "2.0" "svc.Echo" (Some "text") (Some "7"))
      example_server (succeed (Some "text") (Some "7")) true example_server) as (_ & _ & _ & _ & H & _);
      [reflexivity|by vm_compute|]. by apply H.
  - by vm_compute.
Defined.

Lemma governance_correct_witness :
  (governance true 0 0 (λ h, h) (λ _, "bad") "svc.Echo" None (λ _ _, inl None) example_server).1.1 = inr Unauthenticated.
Proof.
  destruct (governance true 0 0 (λ h, h) (λ _, "bad") "svc.Echo" None (λ _ _, inl None) example_server)
    as [[res ran] s'] eqn:E.
  destruct (governance_correct true 0 0 (λ h, h) (λ _, "bad") "svc.Echo" None (λ _ _, inl None) example_server res ran s' E)
    as (_ & H & _).
  apply H. intros [Hx|[Hx|[_ [v Hx]]]]; [done|set_solver|by vm_compute in Hx].
Defined.

Lemma public_methods_not_found_witness :
  Forall (λ m, executeMethod Background (services example_server) m None = Ret (Err ErrMethodNotFound))
    (SkipMethods DefaultAuthConfig).
Proof.
  apply public_methods_not_found. cbn [services example_server]. intros n svc m [_ <-]%lookup_singleton_Some [x Hx].
  apply lookup_insert_Some in Hx as [[<- _]|[_ [<- _]%lookup_singleton_Some]]; reflexivity.
Defined.

Lemma EnableAuth_drops_keys_witness : ¬ may_call "k1" "svc.Echo" (auth (EnableAuth example_server)).
Proof. apply EnableAuth_drops_keys. set_solver. Defined.

Lemma unconvertible_params_dropped_witness :
  callMethod Background {["Echo" := echo]} "Echo" (Some "{}") = callMethod Background {["Echo" := echo]} "Echo" None.
Proof. apply (unconvertible_params_dropped _ _ _ echo); [apply lookup_singleton_eq|reflexivity]. Defined.

Lemma second_result_panics_witness :
  ∃ msg, callMethod Background {["Two" := pair_of_ints]} "Two" None = Panic msg [].
Proof. apply (second_result_panics _ _ _ pair_of_ints None (Some "1") (Some "2") []); [apply lookup_singleton_eq|done]. Defined.
