(* ===== verification/RpcManager.v ===== *)
(** * plugins/rpc/manager.go: the manager of the RPC servers

    Servers and services, start and stop, and the registration of the servers
    with service discovery.  The discovery registry is a map from ids to
    instances beside the manager, with the errors of its calls as arguments, and
    the enumerations of Go maps are given by lists.  A server is its
    configuration, the services registered with it and its phase: [net/http] and
    gRPC document that a server that was stopped does not serve again.  Rate
    limiters, the degradation manager and middleware are handed through and left
    out here; [Start] waits for nothing, so the goroutines' [Serve] is one step. *)

From S2P Require Import Prelude GoString.
From stdpp Require Import pretty.
Import GoError GoTime.

Open Scope Z_scope.

(** ** Servers *)

Definition ServerTypeGRPC : string := "grpc".
Definition ServerTypeJSONRPC : string := "jsonrpc".

Record Config := MkConfig {
  Type_ : string;
  Host : string;
  Port : Z;
  EnableTLS : bool;
  CertFile : string;
  KeyFile : string
}.

Inductive phase := Idle | Serving | Stopped.

Record server := MkServer { cfg : Config; registered : list string; ph : phase }.

(** [certs] is the error of loading the certificate files. *)
Definition NewServer (certs : option error) (c : Config) : result server :=
  if decide (Type_ c = ServerTypeGRPC) then
    if EnableTLS c then
      if bool_decide (CertFile c = "") || bool_decide (KeyFile c = "") then
        Err (Errorf "grpc TLS enabled but cert_file/key_file not configured" [])
      else
        match certs with
        | Some e => Err (ErrorfW "failed to load grpc TLS certs: %w" [] e)
        | None => Ok (MkServer c [] Idle)
        end
    else Ok (MkServer c [] Idle)
  else if decide (Type_ c = ServerTypeJSONRPC) then
    let host := if HasPrefix (Host c) ":" then Host c else ":" +:+ pretty (Port c) in
    Ok (MkServer (MkConfig (Type_ c) host (Port c) (EnableTLS c) (CertFile c) (KeyFile c)) [] Idle)
  else Err (Errorf "unsupported server type: %s" [Type_ c]).

Definition Addr (s : server) : string :=
  if decide (Type_ (cfg s) = ServerTypeGRPC) then Host (cfg s) +:+ ":" +:+ pretty (Port (cfg s)) else Host (cfg s).

(** A gRPC server keeps a list of services, a JSON-RPC server a map. *)
Definition add_service (name : string) (s : server) : server :=
  let l := if decide (Type_ (cfg s) = ServerTypeJSONRPC) then filter (λ n, n ≠ name) (registered s) else registered s in
  MkServer (cfg s) (l ++ [name]) (ph s).

Definition serve (s : server) : server :=
  match ph s with
  | Idle => MkServer (cfg s) (registered s) Serving
  | _ => s
  end.

Definition shut (s : server) : server := MkServer (cfg s) (registered s) Stopped.

(** ** The manager *)

Record DiscoveryConfig := MkDiscovery {
  DEnabled : bool;
  ServiceName : string;
  ServiceAddress : string;
  ServiceTags : list string;
  Metadata : gmap string string
}.

Record instance := MkInst { iid : string; iname : string; address : string; port : Z; payload : gmap string string }.

Record Manager := MkManager {
  configured : gmap string Config;           (* config.Servers *)
  servers : gmap string server;
  services : gset string;
  hasDiscovery : bool;                       (* discoveryManager <> nil *)
  discoveryConfig : DiscoveryConfig;
  registeredInstances : gmap string instance;
  started : bool
}.

Definition set_servers (ss : gmap string server) (m : Manager) : Manager :=
  MkManager (configured m) ss (services m) (hasDiscovery m) (discoveryConfig m) (registeredInstances m) (started m).
Definition set_instances (insts : gmap string instance) (m : Manager) : Manager :=
  MkManager (configured m) (servers m) (services m) (hasDiscovery m) (discoveryConfig m) insts (started m).
Definition set_started (b : bool) (m : Manager) : Manager :=
  MkManager (configured m) (servers m) (services m) (hasDiscovery m) (discoveryConfig m) (registeredInstances m) b.
Definition set_services (ss : gset string) (m : Manager) : Manager :=
  MkManager (configured m) (servers m) ss (hasDiscovery m) (discoveryConfig m) (registeredInstances m) (started m).

(** A server that cannot be created is logged and left out. *)
Definition create_all (certs : string → option error) (cs : gmap string Config) : gmap string server :=
  map_imap (λ n c, match NewServer (certs n) c with Ok s => Some s | Err _ => None end) cs.

Definition NewManager (certs : string → option error) (cs : gmap string Config) : Manager :=
  MkManager cs (create_all certs cs) ∅ false (MkDiscovery false "" "" [] ∅) ∅ false.

Definition AddServer (certs : option error) (name : string) (c : Config) (m : Manager) : option error * Manager :=
  if started m then (Some (Errorf "cannot add server after manager has started" []), m)
  else
    match servers m !! name with
    | Some _ => (Some (Errorf "server %s already exists" [name]), m)
    | None =>
        match NewServer certs c with
        | Err e => (Some (ErrorfW "failed to create server %s: %w" [name] e), m)
        | Ok s => (None, set_servers (<[name := s]> (servers m)) m)
        end
    end.

Definition RemoveServer (name : string) (m : Manager) : option error * Manager :=
  if started m then (Some (Errorf "cannot remove server after manager has started" []), m)
  else
    match servers m !! name with
    | None => (Some (Errorf "server %s does not exist" [name]), m)
    | Some _ => (None, set_servers (delete name (servers m)) m)
    end.

Definition RegisterService (name : string) (m : Manager) : option error * Manager :=
  if started m then (Some (Errorf "cannot register service after manager has started" []), m)
  else if decide (name ∈ services m) then (Some (Errorf "service %s already registered" [name]), m)
  else (None, set_services ({[name]} ∪ services m) m).

Definition UnregisterService (name : string) (m : Manager) : option error * Manager :=
  if started m then (Some (Errorf "cannot unregister service after manager has started" []), m)
  else if decide (name ∈ services m) then (None, set_services (services m ∖ {[name]}) m)
  else (Some (Errorf "service %s does not exist" [name]), m).

(** ** Discovery *)

Definition buildDiscoveryInstance (serverName : string) (s : server) (m : Manager) : result instance :=
  match configured m !! serverName with
  | None => Err (Errorf "server config %s not found" [serverName])
  | Some c =>
      let d := discoveryConfig m in
      let serviceName := if decide (ServiceName d = "") then "rpc-service" else ServiceName d in
      let addr := if decide (ServiceAddress d = "") then TrimPrefix (Host c) ":" else ServiceAddress d in
      let addr := if bool_decide (addr ∈ [""; "0.0.0.0"; "::"]) then "localhost" else addr in
      let md := <["server_name" := serverName]> (<["protocol" := Type_ (cfg s)]> (Metadata d)) in
      let md := match ServiceTags d with [] => md | tags => <["tags" := GoString.Join "," tags]> md end in
      let name := serviceName +:+ "-" +:+ serverName in
      Ok (MkInst (name +:+ "-" +:+ pretty (Port c)) name addr (Port c) md)
  end.

Notation directory := (gmap string instance).

(** [derr] is the error of a deregistration; [ids] enumerates the instances. *)
Fixpoint deregister_all (derr : string → option error) (ids : list string) (m : Manager) (dir : directory) :
    option error * Manager * directory :=
  match ids with
  | [] => (None, m, dir)
  | id :: ids =>
      match registeredInstances m !! id with
      | None => deregister_all derr ids m dir
      | Some i =>
          match derr id with
          | Some e => (Some (ErrorfW "failed to deregister rpc instance %s: %w" [id] e), m, dir)
          | None =>
              deregister_all derr ids (set_instances (delete id (registeredInstances m)) m) (delete (iid i) dir)
          end
      end
  end.

Definition deregisterDiscoveryLocked (derr : string → option error) (ids : list string) (m : Manager) (dir : directory) :
    option error * Manager * directory :=
  if hasDiscovery m then deregister_all derr ids m dir else (None, m, dir).

(** [rerr] is the error of a registration; [names] enumerates the servers. *)
Fixpoint register_all (rerr : string → option error) (names : list string) (m : Manager) (dir : directory) :
    option error * Manager * directory :=
  match names with
  | [] => (None, m, dir)
  | name :: names =>
      match servers m !! name with
      | None => register_all rerr names m dir
      | Some s =>
          match buildDiscoveryInstance name s m with
          | Err e => (Some e, m, dir)
          | Ok i =>
              match rerr (iid i) with
              | Some e => (Some (ErrorfW "failed to register rpc instance %s: %w" [iid i] e), m, dir)
              | None =>
                  register_all rerr names (set_instances (<[iid i := i]> (registeredInstances m)) m)
                    (<[iid i := i]> dir)
              end
          end
      end
  end.

Definition registerDiscoveryLocked (rerr derr : string → option error) (ids names : list string) (m : Manager)
    (dir : directory) : option error * Manager * directory :=
  if negb (hasDiscovery m) || negb (DEnabled (discoveryConfig m)) then (None, m, dir)
  else
    match deregisterDiscoveryLocked derr ids m dir with
    | (Some e, m, dir) => (Some e, m, dir)
    | (None, m, dir) => register_all rerr names m dir
    end.

Definition SetDiscoveryIntegration (rerr derr : string → option error) (ids names : list string) (present : bool)
    (c : DiscoveryConfig) (m : Manager) (dir : directory) : option error * Manager * directory :=
  let m := MkManager (configured m) (servers m) (services m) present c (registeredInstances m) (started m) in
  if negb (started m) || negb present || negb (DEnabled c) then (None, m, dir)
  else registerDiscoveryLocked rerr derr ids names m dir.

(** ** Start and stop *)

(** What the outside answers to [Start]: the error of registering a service
    with a server, of the preflight check of a server and of discovery, and the
    orders of the enumerations. *)
Record start_in := MkStart {
  registerErr : string → string → option error;
  preflight : string → option error;
  rerr : string → option error;
  derr : string → option error;
  service_order : list string;
  server_order : list string;
  instance_order : list string
}.

(** Every service with every server; the first error ends it. *)
Fixpoint register_with (err : string → option error) (svc : string) (names : list string) (ss : gmap string server) :
    option error * gmap string server :=
  match names with
  | [] => (None, ss)
  | n :: names =>
      match err n with
      | Some e => (Some (ErrorfW "failed to register service %s with server %s: %w" [svc; n] e), ss)
      | None => register_with err svc names (alter (add_service svc) n ss)
      end
  end.

Fixpoint register_services (err : string → string → option error) (svcs names : list string)
    (ss : gmap string server) : option error * gmap string server :=
  match svcs with
  | [] => (None, ss)
  | svc :: svcs =>
      match register_with (err svc) svc names ss with
      | (Some e, ss) => (Some e, ss)
      | (None, ss) => register_services err svcs names ss
      end
  end.

Definition first_error (check : string → option error) (names : list string) : option (string * error) :=
  head (omap (λ n, (λ e, (n, e)) <$> check n) names).

Definition Start (i : start_in) (m : Manager) (dir : directory) : option error * Manager * directory :=
  if started m then (Some (Errorf "manager already started" []), m, dir)
  else
    match register_services (registerErr i) (service_order i) (server_order i) (servers m) with
    | (Some e, ss) => (Some e, set_servers ss m, dir)
    | (None, ss) =>
        let m := set_servers ss m in
        match first_error (preflight i) (server_order i) with
        | Some (n, e) => (Some (ErrorfW "preflight check failed for server %s: %w" [n] e), m, dir)
        | None =>
            match registerDiscoveryLocked (rerr i) (derr i) (instance_order i) (server_order i) m dir with
            | (Some e, m, dir) => (Some e, m, dir)
            | (None, m, dir) => (None, set_started true (set_servers (serve <$> servers m) m), dir)
            end
        end
    end.

(** [stopErr] are the errors of the servers' [Stop], [timeout] whether the
    wait for them ran out; [ids] enumerates the instances. *)
Definition Stop (stopErr : string → option error) (timeout : bool) (derr : string → option error) (names ids : list string)
    (m : Manager) (dir : directory) : option error * Manager * directory :=
  if negb (started m) then (Some (Errorf "manager not started" []), m, dir)
  else
    let m := set_servers (shut <$> servers m) m in
    let failed := bool_decide (first_error stopErr names ≠ None) || timeout in
    let '(e, m, dir) := deregisterDiscoveryLocked derr ids m dir in
    let m := set_started false m in
    if failed || match e with Some _ => true | None => false end
    then (Some (Errorf "errors during shutdown: %v" []), m, dir) else (None, m, dir).

Definition Restart (i : start_in) (stopErr : string → option error) (timeout : bool) (derr : string → option error)
    (names ids : list string) (m : Manager) (dir : directory) : option error * Manager * directory :=
  match Stop stopErr timeout derr names ids m dir with
  | (Some e, m, dir) => (Some (ErrorfW "failed to stop manager: %w" [] e), m, dir)
  | (None, m, dir) => Start i m dir
  end.

(** [CheckHealth] of the manager's health checker. *)
Definition CheckHealth (names : list string) (m : Manager) : option error :=
  if negb (started m) then Some (Errorf "RPC manager is not started" [])
  else
    match filter (λ n, (Addr <$> servers m !! n) = Some "") names with
    | [] => None
    | n :: _ => Some (Errorf "server %s has invalid address" [n])
    end.

(** ** What discovery knows *)

(** Every instance the manager remembers is in the directory under its id. *)
Definition tracked (m : Manager) (dir : directory) : Prop :=
  ∀ id i, registeredInstances m !! id = Some i → iid i = id ∧ dir !! id = Some i.

Lemma deregister_all_spec derr ids m dir e m' dir' :
  deregister_all derr ids m dir = (e, m', dir') → tracked m dir →
  tracked m' dir' ∧ servers m' = servers m ∧ started m' = started m ∧ configured m' = configured m ∧
  discoveryConfig m' = discoveryConfig m ∧ hasDiscovery m' = hasDiscovery m ∧
  registeredInstances m' ⊆ registeredInstances m ∧
  (e = None → ∀ id, id ∈ ids → registeredInstances m' !! id = None ∧
     (is_Some (registeredInstances m !! id) → dir' !! id = None)) ∧
  (∀ id, dir !! id = None → dir' !! id = None).
Proof.
  revert m dir. induction ids as [|id ids IH]; intros m dir; cbn [deregister_all].
  { intros [= <- <- <-] Ht. split_and!; try done. intros _ id Hid. by apply elem_of_nil in Hid. }
  destruct (registeredInstances m !! id) as [i|] eqn:Ei.
  - destruct (derr id) as [er|]; [intros [= <- <- <-] Ht; by split_and!|].
    intros H Ht. destruct (Ht id i Ei) as [Hid Hdir]. rewrite Hid in H. apply IH in H.
    + destruct H as (Ht' & ? & ? & ? & ? & ? & Hsub & Hno & Hdel). cbn in *. split_and!; try done.
      * etrans; [exact Hsub|]. apply delete_subseteq.
      * intros He x [->|Hx]%elem_of_cons; [|].
        -- split; [|intros _; apply Hdel, lookup_delete_eq].
           destruct (registeredInstances m' !! id) eqn:E; [|done]. eapply lookup_weaken in E; [|exact Hsub].
           by rewrite lookup_delete_eq in E.
        -- destruct (Hno He x Hx) as [Hn1 Hn2]. split; [done|]. intros Hs.
           destruct (decide (x = id)) as [->|Hne]; [apply Hdel, lookup_delete_eq|]. apply Hn2.
           by rewrite lookup_delete_ne.
      * intros x Hx. apply Hdel. by rewrite lookup_delete_None; right.
    + intros x j Hj. cbn in Hj. apply lookup_delete_Some in Hj as [Hne Hj]. destruct (Ht x j Hj) as [? ?].
      split; [done|]. by rewrite lookup_delete_ne.
  - intros H Ht. destruct (IH _ _ H Ht) as (? & ? & ? & ? & ? & ? & Hsub & Hno & ?). split_and!; try done.
    intros He x [->|Hx]%elem_of_cons; [|auto]. split; [|by intros [? ?]; congruence].
    destruct (registeredInstances m' !! id) eqn:E; [|done]. eapply lookup_weaken in E; [|exact Hsub]. congruence.
Qed.

Lemma register_all_spec rerr names m dir e m' dir' :
  register_all rerr names m dir = (e, m', dir') → tracked m dir →
  tracked m' dir' ∧ servers m' = servers m ∧ started m' = started m ∧ configured m' = configured m ∧
  discoveryConfig m' = discoveryConfig m ∧
  (∀ id, is_Some (registeredInstances m !! id) → is_Some (registeredInstances m' !! id)) ∧
  (e = None → ∀ n s, n ∈ names → servers m !! n = Some s →
     ∃ i, buildDiscoveryInstance n s m = Ok i ∧ is_Some (registeredInstances m' !! iid i)).
Proof.
  revert m dir. induction names as [|n names IH]; intros m dir; cbn [register_all].
  { intros [= <- <- <-] Ht. split_and!; try done. intros _ n s Hn. by apply elem_of_nil in Hn. }
  destruct (servers m !! n) as [s|] eqn:Es.
  - destruct (buildDiscoveryInstance n s m) as [i|er] eqn:Ei; [|intros [= <- <- <-] Ht; by split_and!].
    destruct (rerr (iid i)) as [er|]; [intros [= <- <- <-] Ht; by split_and!|].
    intros H Ht. apply IH in H as (Ht' & ? & ? & ? & ? & Hmono & Hall).
    + cbn in *. split_and!; try done.
      * intros id [j Hj]. apply Hmono. destruct (decide (id = iid i)) as [->|Hne];
          [rewrite lookup_insert_eq|rewrite lookup_insert_ne by done]; by eexists.
      * intros He x s' [->|Hx]%elem_of_cons Hs; [|by apply (Hall He x s')].
        rewrite Es in Hs. injection Hs as <-. exists i. split; [done|]. apply Hmono. rewrite lookup_insert_eq. by eexists.
    + intros id j Hj. cbn in Hj. apply lookup_insert_Some in Hj as [[<- <-]|[Hne Hj]];
        [split; [done|apply lookup_insert_eq]|]. rewrite lookup_insert_ne by done. by apply Ht.
  - intros H Ht. destruct (IH _ _ H Ht) as (? & ? & ? & ? & ? & ? & Hall). split_and!; try done.
    intros He x s' [->|Hx]%elem_of_cons Hs; [congruence|by apply Hall].
Qed.

Lemma register_with_dom err svc names ss e ss' : register_with err svc names ss = (e, ss') → dom ss' = dom ss.
Proof.
  revert ss. induction names as [|n names IH]; intros ss; cbn; [by intros [= _ <-]|].
  destruct (err n); [by intros [= _ <-]|]. intros H%IH. by rewrite H, dom_alter_L.
Qed.

Lemma register_services_dom err svcs names ss e ss' :
  register_services err svcs names ss = (e, ss') → dom ss' = dom ss.
Proof.
  revert ss. induction svcs as [|svc svcs IH]; intros ss; cbn; [by intros [= _ <-]|].
  destruct (register_with _ _ _ _) as [[er|] ss1] eqn:E; apply register_with_dom in E.
  - by intros [= _ <-].
  - intros H%IH. congruence.
Qed.

Lemma registerDiscovery_tracked rerr derr ids names m dir e m' dir' :
  registerDiscoveryLocked rerr derr ids names m dir = (e, m', dir') → tracked m dir →
  tracked m' dir' ∧ servers m' = servers m ∧ started m' = started m ∧
  (e = None → hasDiscovery m = true → DEnabled (discoveryConfig m) = true →
   ∀ n s, n ∈ names → servers m !! n = Some s →
     ∃ i, buildDiscoveryInstance n s m = Ok i ∧ is_Some (dir' !! iid i)).
Proof.
  unfold registerDiscoveryLocked, deregisterDiscoveryLocked. intros H Ht.
  destruct (hasDiscovery m) eqn:Hd; cbn [negb orb] in H; [|injection H as <- <- <-; by split_and!].
  destruct (DEnabled (discoveryConfig m)) eqn:He; cbn [negb] in H; [|injection H as <- <- <-; by split_and!].
  destruct (deregister_all derr ids m dir) as [[[er|] m1] dir1] eqn:E1;
    apply deregister_all_spec in E1 as (Ht1 & Hs1 & Hst1 & Hc1 & Hd1 & _ & _); try done.
  { injection H as <- <- <-. by split_and!. }
  apply register_all_spec in H as (Ht2 & Hs2 & Hst2 & _ & _ & _ & Hall); [|done].
  split_and!; [done|congruence|congruence|]. intros Hn _ _ n s Hin Hsv. rewrite <-Hs1 in Hsv.
  destruct (Hall Hn n s Hin Hsv) as (i & Hi & [j Hj]). exists i. split.
  - rewrite <-Hi. unfold buildDiscoveryInstance. by rewrite Hc1, Hd1.
  - apply Ht2 in Hj as [_ ->]. by eexists.
Qed.

Lemma set_servers_tracked ss m dir : tracked m dir → tracked (set_servers ss m) dir.
Proof. done. Qed.

Lemma Start_spec i m dir e m' dir' :
  Start i m dir = (e, m', dir') → tracked m dir →
  tracked m' dir' ∧
  (e = None → started m' = true ∧ dom (servers m') = dom (servers m) ∧
     (hasDiscovery m = true → DEnabled (discoveryConfig m) = true → range_of (servers m) (server_order i) →
      ∀ n, n ∈ dom (servers m) → ∃ s x, buildDiscoveryInstance n s m = Ok x ∧ is_Some (dir' !! iid x))).
Proof.
  unfold Start. intros H Ht. destruct (started m); [by injection H as <- <- <-|].
  destruct (register_services _ _ _ _) as [[er|] ss] eqn:Ers; [by injection H as <- <- <-|].
  apply register_services_dom in Ers. destruct (first_error _ _) as [[n er]|]; [by injection H as <- <- <-|].
  destruct (registerDiscoveryLocked _ _ _ _ _ _) as [[[er|] m2] dir2] eqn:Erd;
    apply registerDiscovery_tracked in Erd as (Ht2 & Hs2 & _ & Hall); try done.
  - by injection H as <- <- <-.
  - injection H as <- <- <-. split; [done|]. intros _. split_and!; [done| |].
    + cbn. rewrite dom_fmap_L, Hs2. exact Ers.
    + intros Hd He Hr n Hn. cbn in Hall.
      assert (∃ s, ss !! n = Some s) as [s Hs] by (by apply elem_of_dom; rewrite Ers).
      destruct (Hall eq_refl Hd He n s) as (x & Hx & Hin); [|done|by exists s, x].
      rewrite Hr. apply elem_of_dom in Hn as [s0 Hs0]. apply list_elem_of_fmap. exists (n, s0).
      split; [done|]. by apply elem_of_map_to_list.
Qed.

Lemma Stop_spec stopErr timeout derr names ids m dir e m' dir' :
  Stop stopErr timeout derr names ids m dir = (e, m', dir') → tracked m dir →
  tracked m' dir' ∧ started m' = false ∧
  (e = None → hasDiscovery m = true → range_of (registeredInstances m) ids →
   registeredInstances m' = ∅ ∧ ∀ id, is_Some (registeredInstances m !! id) → dir' !! id = None).
Proof.
  unfold Stop. intros H Ht. destruct (started m) eqn:Hst; cbn [negb] in H; [|injection H as <- <- <-; by split_and!].
  unfold deregisterDiscoveryLocked in H. cbn [hasDiscovery set_servers] in H.
  destruct (hasDiscovery m) eqn:Hd.
  2: { destruct (_ || _); injection H as <- <- <-; by split_and!. }
  destruct (deregister_all derr ids _ dir) as [[de m1] dir1] eqn:E1.
  apply deregister_all_spec in E1 as (Ht1 & _ & _ & _ & _ & _ & Hsub & Hno & _); [|done]. cbn in Hsub, Hno.
  destruct (_ || _) eqn:Hf in H; injection H as <- <- <-; (split_and!; [done|done|]); [done|].
  intros _ _ Hr. destruct de; [by rewrite orb_true_r in Hf|].
  assert (∀ id, is_Some (registeredInstances m !! id) → id ∈ ids) as Hin.
  { intros id [x Hx]. rewrite Hr. apply list_elem_of_fmap. exists (id, x). split; [done|]. by apply elem_of_map_to_list. }
  split.
  - apply map_empty. intros id. cbn. destruct (registeredInstances m1 !! id) as [x|] eqn:E; [|done].
    destruct (Hno eq_refl id) as [Hx _]; [|congruence]. apply Hin. exists x. by eapply lookup_weaken.
  - intros id Hs. by apply Hno; [|apply Hin|].
Qed.

(** ** The manager's life *)

Inductive step : Manager * directory → Manager * directory → Prop :=
| s_add certs name c m dir : step (m, dir) ((AddServer certs name c m).2, dir)
| s_remove name m dir : step (m, dir) ((RemoveServer name m).2, dir)
| s_register name m dir : step (m, dir) ((RegisterService name m).2, dir)
| s_unregister name m dir : step (m, dir) ((UnregisterService name m).2, dir)
| s_discovery rerr derr ids names present c m dir e m' dir' :
    SetDiscoveryIntegration rerr derr ids names present c m dir = (e, m', dir') → step (m, dir) (m', dir')
| s_start i m dir e m' dir' : Start i m dir = (e, m', dir') → step (m, dir) (m', dir')
| s_stop stopErr timeout derr names ids m dir e m' dir' :
    Stop stopErr timeout derr names ids m dir = (e, m', dir') → step (m, dir) (m', dir').

Inductive reachable (certs : string → option error) (cs : gmap string Config) (dir0 : directory) :
    Manager * directory → Prop :=
| r_new : reachable certs cs dir0 (NewManager certs cs, dir0)
| r_step s s' : reachable certs cs dir0 s → step s s' → reachable certs cs dir0 s'.

Lemma step_tracked s s' : step s s' → tracked s.1 s.2 → tracked s'.1 s'.2.
Proof.
  destruct 1 as [certs name c m dir|name m dir|name m dir|name m dir|rerr derr ids names present c m dir e m' dir' H|
                 i m dir e m' dir' H|stopErr timeout derr names ids m dir e m' dir' H]; cbn [fst snd]; intros Ht.
  - unfold AddServer. repeat case_match; done.
  - unfold RemoveServer. repeat case_match; done.
  - unfold RegisterService. repeat case_match; done.
  - unfold UnregisterService. repeat case_match; done.
  - unfold SetDiscoveryIntegration in H. destruct (_ || _ || _) in H; [by injection H as <- <- <-|].
    by apply registerDiscovery_tracked in H as [? _].
  - by apply Start_spec in H as [? _].
  - by apply Stop_spec in H as [? _].
Qed.

Lemma reachable_tracked certs cs dir0 s : reachable certs cs dir0 s → tracked s.1 s.2.
Proof.
  induction 1 as [|s s' _ IH Hs]; [|by eapply step_tracked]. intros id i Hi. cbn in Hi. by rewrite lookup_empty in Hi.
Qed.

(** Discovery follows the life of the manager: in every reachable state the
    instances the manager remembers are in the directory under their own ids; a
    start that succeeds with discovery on has every server's instance in the
    directory; and a stop that succeeds leaves none of those it had registered. *)
Theorem discovery_follows_manager certs cs dir0 m dir :
  reachable certs cs dir0 (m, dir) →
  tracked m dir ∧
  (∀ i m' dir', Start i m dir = (None, m', dir') → hasDiscovery m = true → DEnabled (discoveryConfig m) = true →
     range_of (servers m) (server_order i) →
     started m' = true ∧
     ∀ n, n ∈ dom (servers m) → ∃ s x, buildDiscoveryInstance n s m = Ok x ∧ is_Some (dir' !! iid x)) ∧
  (∀ stopErr timeout derr names ids m' dir',
     Stop stopErr timeout derr names ids m dir = (None, m', dir') → hasDiscovery m = true →
     range_of (registeredInstances m) ids →
     started m' = false ∧ registeredInstances m' = ∅ ∧
     ∀ id, is_Some (registeredInstances m !! id) → dir' !! id = None).
Proof.
  intros Hr.
  pose proof (reachable_tracked _ _ _ _ Hr) as Ht. cbn in Ht.
  split_and!; [done|..].
  - intros i m' dir' H Hd He Ho. apply Start_spec in H as [_ H]; [|done].
    destruct (H eq_refl) as (? & _ & Hall). split; [done|]. by apply Hall.
  - intros stopErr timeout derr names ids m' dir' H Hd Ho. apply Stop_spec in H as (_ & ? & H); [|done].
    destruct (H eq_refl Hd Ho). by split_and!.
Qed.

(** ** Findings *)

(** A server added with [AddServer] has no entry in the configuration, so with
    discovery on no start succeeds. *)
Theorem added_server_breaks_start i m dir name :
  hasDiscovery m = true → DEnabled (discoveryConfig m) = true → range_of (servers m) (server_order i) →
  name ∈ dom (servers m) → configured m !! name = None → tracked m dir →
  (Start i m dir).1.1 ≠ None.
Proof.
  intros Hd He Hr Hn Hc Ht H. destruct (Start i m dir) as [[e m'] dir'] eqn:E. cbn in H. subst e.
  apply Start_spec in E as [_ E]; [|done]. destruct (E eq_refl) as (_ & _ & Hall).
  destruct (Hall Hd He Hr name Hn) as (s & x & Hx & _). unfold buildDiscoveryInstance in Hx. by rewrite Hc in Hx.
Qed.

Definition all_stopped (ss : gmap string server) : Prop := ∀ n s, ss !! n = Some s → ph s = Stopped.

Lemma register_with_phase err svc names ss e ss' :
  register_with err svc names ss = (e, ss') → all_stopped ss → all_stopped ss'.
Proof.
  revert ss. induction names as [|x l IH]; intros ss; cbn; [by intros [= _ <-]|].
  destruct (err x); [by intros [= _ <-]|]. intros H Hs. apply (IH _ H). intros k sv Hk.
  destruct (decide (k = x)) as [->|Hne]; [|rewrite lookup_alter_ne in Hk by done; by eapply Hs].
  rewrite lookup_alter_eq in Hk. destruct (ss !! x) eqn:E2; [|done]. injection Hk as <-. exact (Hs x _ E2).
Qed.

Lemma register_services_phase err svcs names ss e ss' :
  register_services err svcs names ss = (e, ss') → all_stopped ss → all_stopped ss'.
Proof.
  revert ss. induction svcs as [|svc svcs IH]; intros ss; cbn; [by intros [= _ <-]|].
  destruct (register_with _ _ _ _) as [[er|] ss1] eqn:E; intros H Hs; apply register_with_phase in E; try done.
  - by injection H as _ <-.
  - by eapply IH.
Qed.

(** After a restart that reports success the manager is started and healthy
    and no server serves. *)
Lemma Start_phase i m dir m' dir' n s :
  Start i m dir = (None, m', dir') → tracked m dir → all_stopped (servers m) →
  servers m' !! n = Some s → ph s = Stopped.
Proof.
  unfold Start. intros H Ht Hall Hs. destruct (started m); [done|].
  destruct (register_services _ _ _ _) as [[er|] ss] eqn:Ers; [done|].
  assert (all_stopped ss) as Hss.
  { by eapply register_services_phase. }
  destruct (first_error _ _) as [[k er]|]; [done|].
  destruct (registerDiscoveryLocked _ _ _ _ _ _) as [[[er|] m2] dir2] eqn:Erd; [done|].
  apply registerDiscovery_tracked in Erd as (_ & Hs2 & _); [|done]. injection H as <- <-.
  cbn in Hs. rewrite lookup_fmap, Hs2 in Hs. cbn in Hs. destruct (ss !! n) as [s0|] eqn:E; [|done].
  injection Hs as <-. pose proof (Hss n s0 E) as Hp. unfold serve. by rewrite Hp.
Qed.

Theorem restart_serves_nothing i stopErr timeout derr names ids m dir m' dir' :
  Restart i stopErr timeout derr names ids m dir = (None, m', dir') → tracked m dir →
  started m' = true ∧ all_stopped (servers m').
Proof.
  unfold Restart. destruct (Stop _ _ _ _ _ _ _) as [[[e|] m1] dir1] eqn:Es; [done|]. intros H Ht.
  pose proof Es as Es'. apply Stop_spec in Es as (Ht1 & _ & _); [|done].
  assert (all_stopped (servers m1)) as Hst.
  { unfold Stop in Es'. destruct (negb (started m)); [done|]. unfold deregisterDiscoveryLocked in Es'.
    intros n s Hs. cbn [hasDiscovery set_servers] in Es'.
    destruct (if hasDiscovery m then _ else _) as [[de m2] dir2] eqn:E.
    assert (servers m2 = shut <$> servers m) as Hm2.
    { destruct (hasDiscovery m); [|by simplify_eq]. by apply deregister_all_spec in E as (_ & ? & _). }
    destruct (_ || _) in Es'; [done|]. injection Es' as <- <-. cbn in Hs. rewrite Hm2, lookup_fmap in Hs.
    by destruct (servers m !! n); simplify_eq/=. }
  split; [|by intros n s; eapply Start_phase]. by apply Start_spec in H as [_ [? _]].
Qed.

(** The instance id has the service, the server and the port and not the
    address: two processes on different hosts register under the same id. *)
Theorem instance_id_ignores_address n s m c addr :
  configured m !! n = Some c →
  let d := discoveryConfig m in
  let m' := MkManager (configured m) (servers m) (services m) (hasDiscovery m)
              (MkDiscovery (DEnabled d) (ServiceName d) addr (ServiceTags d) (Metadata d))
              (registeredInstances m) (started m) in
  ∃ x x', buildDiscoveryInstance n s m = Ok x ∧ buildDiscoveryInstance n s m' = Ok x' ∧ iid x = iid x'.
Proof. intros Hc d m'. unfold buildDiscoveryInstance, m'. cbn. rewrite Hc. eexists _, _. by split_and!. Qed.

(** A JSON-RPC server configured for [localhost] listens on every address. *)
Theorem jsonrpc_host_ignored certs c s :
  Type_ c = ServerTypeJSONRPC → HasPrefix (Host c) ":" = false → NewServer certs c = Ok s →
  Addr s = ":" +:+ pretty (Port c).
Proof.
  unfold NewServer. intros Ht Hh. rewrite Ht, Hh. rewrite decide_False, decide_True by done. intros [= <-].
  done.
Qed.

(** ** Witnesses *)

Definition grpc_cfg : Config := MkConfig ServerTypeGRPC "localhost" 50051 false "" "".
Definition json_cfg : Config := MkConfig ServerTypeJSONRPC "localhost" 8080 false "" "".

Definition quiet : start_in :=
  MkStart (λ _ _, None) (λ _, None) (λ _, None) (λ _, None) ["users"] ["grpc"; "jsonrpc"] [].

Definition manager0 : Manager :=
  let m := NewManager (λ _, None) (<["grpc" := grpc_cfg]> {["jsonrpc" := json_cfg]}) in
  let m := (RegisterService "users" m).2 in
  (SetDiscoveryIntegration (λ _, None) (λ _, None) [] [] true (MkDiscovery true "api" "" ["v1"; "eu"] ∅) m ∅).1.2.

Definition running : Manager * directory := let r := Start quiet manager0 ∅ in (r.1.2, r.2).

Lemma manager0_reachable :
  reachable (λ _, None) (<["grpc" := grpc_cfg]> {["jsonrpc" := json_cfg]}) ∅ (manager0, ∅).
Proof.
  eapply r_step; [|eapply (s_discovery (λ _, None) (λ _, None) [] [] true (MkDiscovery true "api" "" ["v1"; "eu"] ∅))].
  - eapply r_step; [apply r_new|]. apply (s_register "users").
  - reflexivity.
Qed.

Lemma running_reachable :
  reachable (λ _, None) (<["grpc" := grpc_cfg]> {["jsonrpc" := json_cfg]}) ∅ running.
Proof.
  eapply r_step; [apply manager0_reachable|].
  apply (s_start quiet manager0 ∅ (Start quiet manager0 ∅).1.1). by destruct (Start quiet manager0 ∅) as [[? ?] ?].
Qed.

Lemma discovery_follows_manager_witness :
  (is_Some (running.2 !! "api-grpc-50051") ∧ is_Some (running.2 !! "api-jsonrpc-8080")) ∧ tracked running.1 running.2.
Proof.
  split; [split; by eexists; vm_compute|].
  apply (discovery_follows_manager (λ _, None) (<["grpc" := grpc_cfg]> {["jsonrpc" := json_cfg]}) ∅ running.1 running.2).
  rewrite <-surjective_pairing. exact running_reachable.
Defined.

Lemma added_server_breaks_start_witness :
  let m := (AddServer None "extra" json_cfg manager0).2 in
  (Start (MkStart (λ _ _, None) (λ _, None) (λ _, None) (λ _, None) ["users"] ["grpc"; "jsonrpc"; "extra"] []) m ∅).1.1
  ≠ None.
Proof.
  intros m. apply (added_server_breaks_start _ m ∅ "extra"); [reflexivity|reflexivity|..|reflexivity|].
  - unfold range_of. apply (bool_decide_unpack _). vm_compute. exact I.
  - apply (bool_decide_unpack _). vm_compute. exact I.
  - intros id i Hi. vm_compute in Hi. done.
Defined.

Lemma restart_serves_nothing_witness :
  let r := Restart quiet (λ _, None) false (λ _, None) ["grpc"; "jsonrpc"] ["api-grpc-50051"; "api-jsonrpc-8080"]
             running.1 running.2 in
  r.1.1 = None ∧ started r.1.2 = true ∧ all_stopped (servers r.1.2) ∧ CheckHealth ["grpc"; "jsonrpc"] r.1.2 = None.
Proof.
  intros r. assert (r.1.1 = None) as Hr by (by vm_compute).
  destruct (restart_serves_nothing quiet (λ _, None) false (λ _, None) ["grpc"; "jsonrpc"]
              ["api-grpc-50051"; "api-jsonrpc-8080"] running.1 running.2 r.1.2 r.2) as [Hst Hall].
  - fold r. rewrite <-Hr. by destruct r as [[? ?] ?].
  - exact (reachable_tracked _ _ _ _ running_reachable).
  - split_and!; [done|done|done|by vm_compute].
Defined.

Lemma instance_id_ignores_address_witness :
  ∃ x x', buildDiscoveryInstance "grpc" (MkServer grpc_cfg [] Idle) manager0 = Ok x ∧
    buildDiscoveryInstance "grpc" (MkServer grpc_cfg [] Idle)
      (MkManager (configured manager0) (servers manager0) (services manager0) (hasDiscovery manager0)
         (MkDiscovery true "api" "10.0.0.9" ["v1"; "eu"] ∅) (registeredInstances manager0) (started manager0)) = Ok x' ∧
    iid x = iid x'.
Proof. apply (instance_id_ignores_address "grpc" (MkServer grpc_cfg [] Idle) manager0 grpc_cfg "10.0.0.9"). by vm_compute. Defined.

Lemma jsonrpc_host_ignored_witness :
  Addr (MkServer (MkConfig ServerTypeJSONRPC ":8080" 8080 false "" "") [] Idle) = ":8080".
Proof. apply (jsonrpc_host_ignored None json_cfg); by vm_compute. Defined.
