(* ===== verification/GoBase64.v ===== *)
(** * The standard base64 encoding of encoding/base64

    A []byte is a [string] of bytes.  The decoder is that of
    [base64.StdEncoding]: carriage returns and line feeds are skipped wherever
    they are, padding is required, and the unused bits of the last group are
    not looked at.  The position that a decoding error reports is left out. *)

From S2P Require Import Prelude GoString.
From Stdlib Require Import Ascii.

Open Scope Z_scope.

Definition alphabet : string :=
  "ABCDEFGHIJKLMNOPQRSTUVWXYZabcdefghijklmnopqrstuvwxyz0123456789+/".

Definition pad : ascii := "="%char.

Definition byte (n : Z) : ascii := ascii_of_nat (Z.to_nat n).

Definition encode_char (v : Z) : ascii := default pad (String.get (Z.to_nat v) alphabet).

(** The index of a character of the alphabet. *)
Definition decode_char (c : ascii) : option Z :=
  let n := byte_of c in
  if within 65 90 n then Some (n - 65)
  else if within 97 122 n then Some (n - 71)
  else if within 48 57 n then Some (n + 4)
  else if n =? 43 then Some 62
  else if n =? 47 then Some 63
  else None.

(** The four digits of a group of 24 bits, and its three bytes. *)
Definition sextet (i v : Z) : Z := v / 64 ^ i mod 64.
Definition octet (i v : Z) : Z := v / 256 ^ i mod 256.

Fixpoint EncodeToString (s : string) : string :=
  match s with
  | "" => ""
  | String.String a "" =>
      let v := byte_of a * 65536 in
      String.String (encode_char (sextet 3 v)) (String.String (encode_char (sextet 2 v)) (String.String pad (String.String pad "")))
  | String.String a (String.String b "") =>
      let v := byte_of a * 65536 + byte_of b * 256 in
      String.String (encode_char (sextet 3 v)) (String.String (encode_char (sextet 2 v))
        (String.String (encode_char (sextet 1 v)) (String.String pad "")))
  | String.String a (String.String b (String.String c rest)) =>
      let v := byte_of a * 65536 + byte_of b * 256 + byte_of c in
      String.String (encode_char (sextet 3 v)) (String.String (encode_char (sextet 2 v))
        (String.String (encode_char (sextet 1 v)) (String.String (encode_char (sextet 0 v)) (EncodeToString rest))))
  end%string.

Definition newline (c : ascii) : bool := (byte_of c =? 10) || (byte_of c =? 13).

Fixpoint skip_newlines (s : string) : string :=
  match s with
  | "" => ""
  | String.String c s => if newline c then skip_newlines s else String.String c (skip_newlines s)
  end%string.

Fixpoint decode_groups (s : string) : option string :=
  match s with
  | "" => Some ""
  | String.String w (String.String x (String.String y (String.String z rest))) =>
      match decode_char w, decode_char x, decode_char y, decode_char z with
      | Some w, Some x, Some y, Some z =>
          let v := w * 262144 + x * 4096 + y * 64 + z in
          (λ d, String.String (byte (octet 2 v)) (String.String (byte (octet 1 v)) (String.String (byte (octet 0 v)) d)))
            <$> decode_groups rest
      | Some w, Some x, Some y, None =>
          let v := w * 262144 + x * 4096 + y * 64 in
          if bool_decide (z = pad) && bool_decide (rest = "")
          then Some (String.String (byte (octet 2 v)) (String.String (byte (octet 1 v)) ""))
          else None
      | Some w, Some x, None, _ =>
          let v := w * 262144 + x * 4096 in
          if bool_decide (y = pad) && bool_decide (z = pad) && bool_decide (rest = "")
          then Some (String.String (byte (octet 2 v)) "")
          else None
      | _, _, _, _ => None
      end
  | _ => None
  end%string.

Definition DecodeString (s : string) : option string := decode_groups (skip_newlines s).

(** ** Decoding what was encoded *)

Lemma decode_encode_char v : 0 <= v < 64 → decode_char (encode_char v) = Some v.
Proof.
  intros Hv.
  assert (forallb (λ n, bool_decide (decode_char (encode_char (Z.of_nat n)) = Some (Z.of_nat n))) (seq 0 64) = true)
    as H by by vm_compute.
  rewrite forallb_forall in H. specialize (H (Z.to_nat v)).
  rewrite Z2Nat.id in H by lia. apply bool_decide_eq_true in H; [done|]. apply in_seq. lia.
Qed.

(** A digit is neither padding nor a line break. *)
Lemma encode_char_plain v : 0 <= v < 64 → newline (encode_char v) = false.
Proof.
  intros Hv.
  assert (forallb (λ n, negb (newline (encode_char (Z.of_nat n)))) (seq 0 64) = true) as H by by vm_compute.
  rewrite forallb_forall in H. specialize (H (Z.to_nat v)).
  rewrite Z2Nat.id in H by lia. apply negb_true_iff, H, in_seq. lia.
Qed.

Lemma sextet_range i v : 0 <= sextet i v < 64.
Proof. apply Z.mod_pos_bound. lia. Qed.

Lemma sextets v : 0 <= v < 16777216 →
  sextet 3 v * 262144 + sextet 2 v * 4096 + sextet 1 v * 64 + sextet 0 v = v.
Proof.
  intros Hv. unfold sextet. change (64 ^ 3) with 262144. change (64 ^ 2) with 4096. change (64 ^ 1) with 64.
  change (64 ^ 0) with 1. Z.div_mod_to_equations. lia.
Qed.

Lemma byte_byte_of c : byte (byte_of c) = c.
Proof. unfold byte, byte_of. by rewrite Nat2Z.id, ascii_nat_embedding. Qed.

Lemma octets a b c : 0 <= a < 256 → 0 <= b < 256 → 0 <= c < 256 →
  octet 2 (a * 65536 + b * 256 + c) = a ∧ octet 1 (a * 65536 + b * 256 + c) = b ∧ octet 0 (a * 65536 + b * 256 + c) = c.
Proof.
  intros. unfold octet. change (256 ^ 2) with 65536. change (256 ^ 1) with 256. change (256 ^ 0) with 1.
  repeat split; Z.div_mod_to_equations; lia.
Qed.

Lemma skip_newlines_encoded s : skip_newlines (EncodeToString s) = EncodeToString s.
Proof.
  revert s. fix IH 1. intros [|a [|b [|c s]]]; [done| | |];
    cbn [EncodeToString skip_newlines]; rewrite ?encode_char_plain by apply sextet_range; [done..|].
  by rewrite IH.
Qed.

Lemma decode_groups_encoded s : decode_groups (EncodeToString s) = Some s.
Proof.
  revert s. fix IH 1. intros [|a [|b [|c s]]]; [done| | |];
    pose proof (byte_of_range a) as Ha; try pose proof (byte_of_range b) as Hb; try pose proof (byte_of_range c) as Hc;
    cbn [EncodeToString decode_groups]; rewrite ?decode_encode_char by apply sextet_range.
  - change (decode_char pad) with (@None Z). cbn -[sextet octet byte].
    pose proof (sextets (byte_of a * 65536) ltac:(lia)) as Hv.
    assert (sextet 1 (byte_of a * 65536) = 0 ∧ sextet 0 (byte_of a * 65536) = 0) as [H1 H0].
    { unfold sextet. change (64 ^ 1) with 64. change (64 ^ 0) with 1. split; Z.div_mod_to_equations; lia. }
    replace (sextet 3 _ * 262144 + sextet 2 _ * 4096) with (byte_of a * 65536 + 0 * 256 + 0) by lia.
    destruct (octets (byte_of a) 0 0) as (-> & _); [lia..|]. by rewrite byte_byte_of.
  - change (decode_char pad) with (@None Z). cbn -[sextet octet byte].
    set (v := byte_of a * 65536 + byte_of b * 256).
    pose proof (sextets v ltac:(lia)) as Hv.
    assert (sextet 0 v = 0) as H0.
    { unfold sextet, v. change (64 ^ 0) with 1. Z.div_mod_to_equations. lia. }
    replace (sextet 3 v * 262144 + sextet 2 v * 4096 + sextet 1 v * 64) with (byte_of a * 65536 + byte_of b * 256 + 0) by lia.
    destruct (octets (byte_of a) (byte_of b) 0) as (-> & -> & _); [lia..|]. by rewrite !byte_byte_of.
  - rewrite sextets by lia. destruct (octets (byte_of a) (byte_of b) (byte_of c)) as (-> & -> & ->); [lia..|].
    by rewrite IH, !byte_byte_of.
Qed.

(** Decoding the encoding of any bytes returns them. *)
Lemma DecodeString_EncodeToString s : DecodeString (EncodeToString s) = Some s.
Proof. unfold DecodeString. by rewrite skip_newlines_encoded, decode_groups_encoded. Qed.

(** Only digits, padding and line breaks are accepted. *)
Definition accepted (c : ascii) : Prop := is_Some (decode_char c) ∨ c = pad ∨ newline c = true.

Lemma decode_groups_accepted s d : decode_groups s = Some d → Forall accepted (String.list_ascii_of_string s).
Proof.
  revert s d. fix IH 1. intros [|w [|x [|y [|z s]]]] d H; [constructor|done..|].
  cbn [decode_groups] in H. cbn [String.list_ascii_of_string].
  assert (∀ c v, decode_char c = Some v → accepted c) as Hd by (left; eauto).
  assert (accepted pad) as Hp by (right; by left).
  repeat case_match; simplify_eq;
    repeat match goal with H : _ && _ = true |- _ => apply andb_true_iff in H as [? ?] end;
    repeat match goal with H : bool_decide _ = true |- _ => apply bool_decide_eq_true in H as -> end;
    repeat (constructor; eauto).
  destruct (decode_groups s) as [d'|] eqn:E; [|done]. by apply (IH s d').
Qed.

Lemma skip_newlines_accepted s :
  Forall accepted (String.list_ascii_of_string (skip_newlines s)) → Forall accepted (String.list_ascii_of_string s).
Proof.
  induction s as [|c s IH]; [done|]. cbn [skip_newlines String.list_ascii_of_string].
  destruct (newline c) eqn:E; intros H.
  - constructor; [by right; right|auto].
  - cbn in H. apply Forall_cons in H as [? ?]. constructor; auto.
Qed.

Lemma DecodeString_accepted s d : DecodeString s = Some d → Forall accepted (String.list_ascii_of_string s).
Proof. intros H. by apply skip_newlines_accepted, (decode_groups_accepted _ d). Qed.

(** A line break anywhere makes another text of the same bytes. *)
Lemma DecodeString_newline s : DecodeString (s +:+ String.String (byte 10) "") = DecodeString s.
Proof.
  unfold DecodeString. f_equal. induction s as [|c s IH]; [done|].
  change (String.String c s +:+ ?t) with (String.String c (s +:+ t)). cbn [skip_newlines].
  by destruct (newline c); rewrite IH.
Qed.
