(* ===== verification/Jwt.v ===== *)
(** * Tokens: plugins/auth/jwtx and plugins/auth/auth.go

    Claims, sealed with AES-GCM under a key derived from the configured secret;
    pairs of access and refresh tokens, validation, refreshing, logging out and
    revocation over a token store; the gin middleware and the manager of
    plugins/auth/auth.go.

    A token store is any implementation of the interface [Store] ([TokenStore]);
    [StoreLaws] is what one that does not fail promises, a time to live of zero
    meaning none.  The cipher is a class with the two equations of an
    authenticated encryption; the JSON form of claims is a class too.  The key has
    32 bytes, so the constructors of the cipher do not fail.  Clock readings,
    nonces and identifiers are arguments; a call reads the clock once. *)

From Stdlib Require Import Ascii.
From S2P Require Import Prelude GoString GoBase64.
Import GoTime.

Open Scope Z_scope.

Definition TokenTypeAccess : string := "access".
Definition TokenTypeRefresh : string := "refresh".

(** A nil payload and an empty one have the same JSON form and are one value. *)
Record Claims := MkClaims {
  UserID : string;
  Username : string;
  DeviceID : string;
  TokenID : string;
  Version : Z;
  Typ : string;
  IssuedAt : Z;
  ExpireAt : Z;
  Payload : gmap string string;
}.

#[export] Instance Claims_eq_dec : EqDecision Claims.
Proof. solve_decision. Defined.

(** ** The interfaces *)

(** crypto/sha256 and the AES-GCM of crypto/cipher, by their keys and nonces. *)
Class AEAD := {
  Sum256 : string → string;
  Seal : string → string → string → string;
  Open : string → string → string → option string;
}.

(** Opening inverts sealing and accepts nothing else. *)
Class AEADLaws `{!AEAD} : Prop := {
  Open_Seal k n d : Open k n (Seal k n d) = Some d;
  Open_inv k n c d : Open k n c = Some d → c = Seal k n d;
}.

(** encoding/json on claims.  [encodable] claims consist of valid UTF-8 and of
    dates of four-digit years. *)
Class ClaimsJSON := {
  Marshal : Claims → option string;
  Unmarshal : string → option Claims;
  encodable : Claims → Prop;
}.

Class JSONLaws `{!ClaimsJSON} : Prop := {
  Marshal_encodable c : encodable c → ∃ d, Marshal c = Some d ∧ Unmarshal d = Some c;
}.

(** The interface [Store]; every call carries the time at which it is made. *)
Class TokenStore (S : Type) := {
  st_Set : Z → string → string → Z → S → option GoError.error * S;
  st_Get : Z → string → S → result string;
  st_Del : Z → string → S → option GoError.error * S;
}.

Definition missing {T} (r : result T) : Prop := ∃ e, r = Err e.

Class StoreLaws (S : Type) `{!TokenStore S} : Prop := {
  Set_succeeds now k v ttl (s : S) : (st_Set now k v ttl s).1 = None;
  Set_keeps now k v ttl (s : S) t : now <= t → 0 <= ttl → (ttl = 0 ∨ t < now + ttl) →
    st_Get t k (st_Set now k v ttl s).2 = Ok v;
  Set_other now k v ttl (s : S) t k' : k ≠ k' → st_Get t k' (st_Set now k v ttl s).2 = st_Get t k' s;
  Del_succeeds now k (s : S) : (st_Del now k s).1 = None;
  Del_removes now k (s : S) t : missing (st_Get t k (st_Del now k s).2);
  Del_other now k (s : S) t k' : k ≠ k' → st_Get t k' (st_Del now k s).2 = st_Get t k' s;
}.

(** ** Configuration *)

(** [HasStore] is [Store != nil]; the store itself is passed to the calls. *)
Record Config := MkConfig {
  Secret : string;
  AccessTokenTTL : Z;
  RefreshTokenTTL : Z;
  HasStore : bool;
}.

Definition applyDefaults (cfg : Config) : Config :=
  MkConfig (Secret cfg)
    (if AccessTokenTTL cfg =? 0 then Minute * 15 else AccessTokenTTL cfg)
    (if RefreshTokenTTL cfg =? 0 then 3600 * Second * 24 * 7 else RefreshTokenTTL cfg)
    (HasStore cfg).

Record Manager := MkManager { config : Config }.

Definition NewManager (cfg : Config) : Manager := MkManager (applyDefaults cfg).

(** The package's manager before [Init]. *)
Definition defaultManager : Manager := MkManager (applyDefaults (MkConfig "" 0 0 false)).

(** [Init] replaces it. *)
Definition Init (cfg : Config) (dm : Manager) : Manager := NewManager cfg.

(** [Manager.Config], also of a nil manager. *)
Definition Config_of (m : option Manager) : Config :=
  match m with
  | None => applyDefaults (MkConfig "" 0 0 false)
  | Some m => config m
  end.

Definition errTokenInvalid : GoError.error := GoError.Errorf "token invalid" [].

(** ** Tokens *)

Definition NonceSize : nat := 12.

Fixpoint take_chars (n : nat) (s : string) : string :=
  match n, s with
  | S n, String.String c s => String.String c (take_chars n s)
  | _, _ => ""
  end%string.

Section Tokens.
Context `{!AEAD, !ClaimsJSON}.

Definition key_of (m : Manager) : string := Sum256 (Secret (config m)).

(** [nonce] is what the random source returns. *)
Definition encrypt (nonce : option string) (m : Manager) (data : string) : result string :=
  match nonce with
  | None => Err (GoError.Errorf "rand" [])
  | Some nonce => Ok (EncodeToString (nonce +:+ Seal (key_of m) nonce data))
  end.

Definition decrypt (m : Manager) (token : string) : result string :=
  match DecodeString token with
  | None => Err (GoError.Errorf "illegal base64 data" [])
  | Some data =>
      if (String.length data <? NonceSize)%nat then Err errTokenInvalid
      else
        match Open (key_of m) (take_chars NonceSize data) (drop_chars NonceSize data) with
        | Some d => Ok d
        | None => Err (GoError.Errorf "cipher: message authentication failed" [])
        end
  end.

Definition encodeClaims (nonce : option string) (m : Manager) (c : Claims) : result string :=
  match Marshal c with
  | None => Err (GoError.Errorf "json" [])
  | Some data => encrypt nonce m data
  end.

Definition decodeClaims (m : Manager) (token : string) : result Claims :=
  match decrypt m token with
  | Err e => Err e
  | Ok data =>
      match Unmarshal data with
      | Some c => Ok c
      | None => Err (GoError.Errorf "json" [])
      end
  end.

Definition ParseClaims (m : Manager) (token : string) : result Claims := decodeClaims m token.

(** [id] is the identifier that uuid.NewString returns. *)
Definition SignAccessClaims (now : Z) (id : string) (nonce : option string) (m : Manager) (c : Claims) : result string :=
  let typ := if bool_decide (Typ c = "") then TokenTypeAccess else Typ c in
  if negb (bool_decide (typ = TokenTypeAccess)) then Err (GoError.Errorf "claims type must be access" [])
  else
    let token_id := if bool_decide (TokenID c = "") then id else TokenID c in
    let issued := if IsZero (IssuedAt c) then now else IssuedAt c in
    let expire := if IsZero (ExpireAt c) then Add issued (AccessTokenTTL (config m)) else ExpireAt c in
    encodeClaims nonce m
      (MkClaims (UserID c) (Username c) (DeviceID c) token_id (Version c) typ issued expire (Payload c)).

Record TokenPair := MkPair { AccessToken : string; RefreshToken : string }.

(** What one call draws: two identifiers and two nonces. *)
Record draws := MkDraws { access_id : string; refresh_id : string; nonce1 : option string; nonce2 : option string }.

(** [strconv.Atoi] with its error dropped: zero, or the end of the range. *)
Definition atoi_value (s : string) : Z :=
  match GoStrconv.Atoi s with
  | Some z => z
  | None =>
      let '(neg, body) :=
        match s with
        | String.String "-"%char s => (true, s)
        | String.String "+"%char s => (false, s)
        | _ => (false, s)
        end in
      match body, GoStrconv.digits body 0 with
      | String.EmptyString, _ | _, None => 0
      | _, Some _ => if neg : bool then GoInt.minInt64 else GoInt.maxInt64
      end
  end.

Definition access_claims (now : Z) (d : draws) (userID username deviceID : string) (version : Z) (m : Manager) : Claims :=
  MkClaims userID username deviceID (access_id d) version TokenTypeAccess now (Add now (AccessTokenTTL (config m))) ∅.

Definition refresh_claims (now : Z) (d : draws) (userID username deviceID : string) (version : Z) (m : Manager) : Claims :=
  MkClaims userID username deviceID (refresh_id d) version TokenTypeRefresh now (Add now (RefreshTokenTTL (config m))) ∅.

Definition version_key (user : string) : string := "user:version:" +:+ user.
Definition refresh_key (id : string) : string := "refresh:" +:+ id.
Definition blacklist_key (id : string) : string := "blacklist:" +:+ id.

Section Store.
Context {S : Type} `{!TokenStore S}.

Definition current_version (now : Z) (s : S) (m : Manager) (userID : string) : Z :=
  if HasStore (config m) then
    match st_Get now (version_key userID) s with
    | Ok v => atoi_value v
    | Err _ => 1
    end
  else 1.

Definition GenerateTokenPair (now : Z) (d : draws) (userID username deviceID : string) (m : Manager) (s : S) :
    result TokenPair * S :=
  let version := current_version now s m userID in
  match encodeClaims (nonce1 d) m (access_claims now d userID username deviceID version m) with
  | Err e => (Err e, s)
  | Ok accessToken =>
      match encodeClaims (nonce2 d) m (refresh_claims now d userID username deviceID version m) with
      | Err e => (Err e, s)
      | Ok refreshToken =>
          if HasStore (config m) then
            match st_Set now (refresh_key (refresh_id d)) userID (RefreshTokenTTL (config m)) s with
            | (Some e, s) => (Err e, s)
            | (None, s) => (Ok (MkPair accessToken refreshToken), s)
            end
          else (Ok (MkPair accessToken refreshToken), s)
      end
  end.

Definition ValidateAccessToken (now : Z) (s : S) (m : Manager) (token : string) : result Claims :=
  match decodeClaims m token with
  | Err e => Err e
  | Ok c =>
      if negb (bool_decide (Typ c = TokenTypeAccess)) then Err (GoError.Errorf "invalid token type" [])
      else if After now (ExpireAt c) then Err (GoError.Errorf "token expired" [])
      else if HasStore (config m) then
        match st_Get now (blacklist_key (TokenID c)) s with
        | Ok _ => Err (GoError.Errorf "token revoked" [])
        | Err _ =>
            match st_Get now (version_key (UserID c)) s with
            | Ok v => if atoi_value v =? Version c then Ok c else Err errTokenInvalid
            | Err _ => Ok c
            end
        end
      else Ok c
  end.

(** [Refresh] up to the look into the store, and from the deletion on; between
    the two other calls may run. *)
Definition refresh_check (now : Z) (s : S) (m : Manager) (refreshToken : string) : result Claims :=
  match decodeClaims m refreshToken with
  | Err e => Err e
  | Ok c =>
      if negb (bool_decide (Typ c = TokenTypeRefresh)) then Err (GoError.Errorf "invalid refresh token" [])
      else if After now (ExpireAt c) then Err (GoError.Errorf "refresh token expired" [])
      else if HasStore (config m) then
        match st_Get now (refresh_key (TokenID c)) s with
        | Err _ => Err (GoError.Errorf "refresh token invalid" [])
        | Ok _ => Ok c
        end
      else Ok c
  end.

Definition refresh_take (now : Z) (d : draws) (c : Claims) (m : Manager) (s : S) : result TokenPair * S :=
  if HasStore (config m) then
    match st_Del now (refresh_key (TokenID c)) s with
    | (Some e, s) => (Err e, s)
    | (None, s) => GenerateTokenPair now d (UserID c) (Username c) (DeviceID c) m s
    end
  else GenerateTokenPair now d (UserID c) (Username c) (DeviceID c) m s.

Definition Refresh (now : Z) (d : draws) (refreshToken : string) (m : Manager) (s : S) : result TokenPair * S :=
  match refresh_check now s m refreshToken with
  | Err e => (Err e, s)
  | Ok c => refresh_take now d c m s
  end.

Definition Logout (now : Z) (token : string) (m : Manager) (s : S) : option GoError.error * S :=
  match decodeClaims m token with
  | Err e => (Some e, s)
  | Ok c =>
      if HasStore (config m) then st_Set now (blacklist_key (TokenID c)) "1" (Sub (ExpireAt c) now) s
      else (None, s)
  end.

Definition RevokeUser (now : Z) (userID : string) (m : Manager) (s : S) : option GoError.error * S :=
  if HasStore (config m) then st_Set now (version_key userID) "999" 0 s else (None, s).

(** The middleware: the request is answered with 401, or goes on with the user
    in its context. *)
Inductive verdict := Unauthorized (e : GoError.error) | Next (user_id username : string).

Definition Middleware (now : Z) (s : S) (m : Manager) (authorization : string) : verdict :=
  if bool_decide (authorization = "") then Unauthorized (GoError.Errorf "missing token" [])
  else
    match ValidateAccessToken now s m authorization with
    | Err e => Unauthorized e
    | Ok c => Next (UserID c) (Username c)
    end.

End Store.
End Tokens.

(** ** The manager of plugins/auth/auth.go *)

Definition ErrInvalidAuthConfig : GoError.error := GoError.Sentinel "auth.ErrInvalidAuthConfig".

Record AuthConfig := MkAuthConfig { Enabled : bool; JWT_config : Config }.

Record AuthManager := MkAuthManager {
  am_config : AuthConfig;
  jwtManager : option Manager;
  initErr : option GoError.error;
}.

Definition Validate (c : option AuthConfig) : option GoError.error :=
  match c with
  | None => None
  | Some c =>
      if negb (Enabled c) then None
      else if bool_decide (Secret (JWT_config c) = "") then Some ErrInvalidAuthConfig
      else None
  end.

(** With the package's manager, which an enabled configuration initialises. *)
Definition NewAuthManager (c : AuthConfig) (dm : Manager) : AuthManager * Manager :=
  match Validate (Some c) with
  | Some e => (MkAuthManager c None (Some e), dm)
  | None =>
      if Enabled c then (MkAuthManager c (Some (NewManager (JWT_config c))) None, Init (JWT_config c) dm)
      else (MkAuthManager c None None, dm)
  end.

Definition IsEnabled (am : AuthManager) : bool := Enabled (am_config am).

Definition IsReady (am : option AuthManager) : bool :=
  match am with
  | None => false
  | Some am => match initErr am with None => true | Some _ => false end
  end.

Definition ValidationError (am : option AuthManager) : option GoError.error :=
  match am with None => None | Some am => initErr am end.

Definition JWT (am : option AuthManager) : option Manager :=
  match am with None => None | Some am => jwtManager am end.
