(* ===== verification/JwtProps.v ===== *)
(** * Properties of tokens

    When a token is accepted; that what is issued works until it expires; that a
    refresh token works once; that logging out and revoking last.  And what the
    package does not prevent. *)

From Stdlib Require Import Ascii.
From S2P Require Import Prelude GoString GoBase64 Jwt.
Import GoTime.

Open Scope Z_scope.

(** ** Sealing and opening *)

Lemma take_chars_app n s t : String.length s = n → take_chars n (s +:+ t) = s.
Proof. intros <-. induction s as [|c s IH]; [done|]. unfold String.app in *. cbn. by rewrite IH. Qed.

Lemma take_drop_chars n s : take_chars n s +:+ drop_chars n s = s.
Proof. revert s. induction n as [|n IH]; intros [|c s]; [done..|]. unfold String.app in *. cbn. by rewrite IH. Qed.

Lemma take_chars_length n s : (n <= String.length s)%nat → String.length (take_chars n s) = n.
Proof.
  revert s. induction n as [|n IH]; intros [|c s] H; cbn in *; [lia..|]. rewrite IH; lia.
Qed.

Lemma append_length s t : String.length (s +:+ t) = (String.length s + String.length t)%nat.
Proof. induction s as [|c s IH]; [done|]. unfold String.app in *. cbn. by rewrite IH. Qed.

Section Sealing.
Context `{!AEAD, !ClaimsJSON, !AEADLaws}.

(** The token holds [c], sealed under the manager's key with some nonce. *)
Definition sealed (m : Manager) (token : string) (c : Claims) : Prop :=
  ∃ n d, String.length n = NonceSize ∧ DecodeString token = Some (n +:+ Seal (key_of m) n d) ∧ Unmarshal d = Some c.

Lemma decrypt_spec m token d : decrypt m token = Ok d ↔
  ∃ n, String.length n = NonceSize ∧ DecodeString token = Some (n +:+ Seal (key_of m) n d).
Proof.
  unfold decrypt. split.
  - destruct (DecodeString token) as [data|]; [|done].
    destruct (Nat.ltb_spec (String.length data) NonceSize) as [?|Hl]; [done|].
    destruct (Open _ _ _) as [d'|] eqn:Ho; [|done]. intros [= ->].
    exists (take_chars NonceSize data). split; [by apply take_chars_length|].
    by rewrite <-(Open_inv _ _ _ _ Ho), take_drop_chars.
  - intros (n & Hn & ->).
    destruct (Nat.ltb_spec (String.length (n +:+ Seal (key_of m) n d)) NonceSize) as [Hl|_].
    { rewrite append_length in Hl. lia. }
    rewrite take_chars_app by done. rewrite <-Hn, drop_chars_app. by rewrite Open_Seal.
Qed.

Lemma decodeClaims_spec m token c : decodeClaims m token = Ok c ↔ sealed m token c.
Proof.
  unfold decodeClaims, sealed. split.
  - destruct (decrypt m token) as [d|] eqn:Hd; [|done]. apply decrypt_spec in Hd as (n & ? & ?).
    destruct (Unmarshal d) eqn:?; [|done]. intros [= ->]. eauto 6.
  - intros (n & d & Hn & Ht & Hu). assert (decrypt m token = Ok d) as -> by (apply decrypt_spec; eauto).
    by rewrite Hu.
Qed.

Lemma encodeClaims_sealed `{!JSONLaws} m n c : String.length n = NonceSize → encodable c →
  ∃ token, encodeClaims (Some n) m c = Ok token ∧ decodeClaims m token = Ok c.
Proof.
  intros Hn (d & Hm & Hu)%Marshal_encodable. unfold encodeClaims. rewrite Hm. eexists. split; [done|].
  apply decodeClaims_spec. exists n, d. by rewrite DecodeString_EncodeToString.
Qed.

End Sealing.

(** ** Which tokens are accepted *)

Section Accepted.
Context `{!AEAD, !ClaimsJSON, !AEADLaws} {S : Type} `{!TokenStore S}.

(** Claims that the manager accepts at the moment: an access token that has not
    expired, is not on the blacklist and has the version of its user. *)
Definition valid_now (now : Z) (s : S) (m : Manager) (c : Claims) : Prop :=
  Typ c = TokenTypeAccess ∧ now <= ExpireAt c ∧
  (HasStore (config m) = true →
   missing (st_Get now (blacklist_key (TokenID c)) s) ∧
   ∀ v, st_Get now (version_key (UserID c)) s = Ok v → atoi_value v = Version c).

Lemma ValidateAccessToken_decoded now s m token c :
  ValidateAccessToken now s m token = Ok c ↔ decodeClaims m token = Ok c ∧ valid_now now s m c.
Proof.
  unfold ValidateAccessToken, valid_now, After. split.
  - destruct (decodeClaims m token) as [c'|]; [|done].
    destruct (bool_decide_reflect (Typ c' = TokenTypeAccess)) as [?|]; [|done]. cbn [negb].
    destruct (Z.ltb_spec (ExpireAt c') now); [done|].
    destruct (HasStore (config m)); [|by intros [= ->]].
    destruct (st_Get _ (blacklist_key _) s) as [|e1] eqn:Hb; [done|].
    destruct (st_Get _ (version_key _) s) as [v|e'] eqn:Hv.
    + destruct (Z.eqb_spec (atoi_value v) (Version c')); [|done]. intros [= ->].
      repeat split; [done..| |]; [by exists e1|]. intros v'. rewrite Hv. by intros [= <-].
    + intros [= ->]. repeat split; [done..| |]; [by exists e1|]. intros v'. by rewrite Hv.
  - intros (-> & Ht & He & Hs). rewrite bool_decide_eq_true_2 by done. cbn [negb].
    destruct (Z.ltb_spec (ExpireAt c) now); [lia|].
    destruct (HasStore (config m)); [|done]. destruct (Hs eq_refl) as ((e & ->) & Hv).
    destruct (st_Get _ (version_key _) s) as [v|]; [|done]. by rewrite (Hv v eq_refl), Z.eqb_refl.
Qed.

(** C14: A token is accepted, with the claims it holds, exactly if it is the sealing
    of these claims under the manager's key, and they are the claims of an access
    token that has not expired, is not on the blacklist and carries the version of
    its user, as far as the store answers.  No other text is accepted. *)
Theorem access_token_decision now s m token c :
  ValidateAccessToken now s m token = Ok c ↔ sealed m token c ∧ valid_now now s m c.
Proof. by rewrite ValidateAccessToken_decoded, decodeClaims_spec. Qed.

(** The middleware lets exactly these requests through, as the user of the token. *)
Lemma Middleware_correct now s m header u n :
  Middleware now s m header = Next u n ↔
  header ≠ "" ∧ ∃ c, sealed m header c ∧ valid_now now s m c ∧ u = UserID c ∧ n = Username c.
Proof.
  unfold Middleware. split.
  - destruct (bool_decide_reflect (header = "")); [done|].
    destruct (ValidateAccessToken now s m header) as [c|] eqn:E; [|done]. intros [= <- <-].
    split; [done|]. exists c. apply ValidateAccessToken_decoded in E as [? ?].
    rewrite <-decodeClaims_spec. auto.
  - intros (Hne & c & Hs & Hv & -> & ->). rewrite bool_decide_eq_false_2 by done.
    assert (ValidateAccessToken now s m header = Ok c) as ->; [|done].
    by rewrite ValidateAccessToken_decoded, decodeClaims_spec.
Qed.

End Accepted.

(** ** What is issued works *)

Section Issued.
Context `{!AEAD, !ClaimsJSON, !AEADLaws, !JSONLaws} {S : Type} `{!TokenStore S, !StoreLaws S}.

(** The keys of the three kinds differ. *)
Lemma refresh_not_blacklist i j : refresh_key i ≠ blacklist_key j.
Proof. done. Qed.
Lemma refresh_not_version i u : refresh_key i ≠ version_key u.
Proof. done. Qed.
Lemma blacklist_not_version i u : blacklist_key i ≠ version_key u.
Proof. done. Qed.

Lemma refresh_key_inj i j : refresh_key i = refresh_key j → i = j.
Proof. unfold refresh_key. by intros [=]. Qed.
Lemma blacklist_key_inj i j : blacklist_key i = blacklist_key j → i = j.
Proof. unfold blacklist_key. by intros [=]. Qed.
Lemma version_key_inj i j : version_key i = version_key j → i = j.
Proof. unfold version_key. by intros [=]. Qed.

(** Draws with nonces of the right length. *)
Definition good_draws (d : draws) : Prop :=
  (∃ n, nonce1 d = Some n ∧ String.length n = NonceSize) ∧ ∃ n, nonce2 d = Some n ∧ String.length n = NonceSize.

(** The store after a pair was generated. *)
Definition recorded (now : Z) (d : draws) (userID : string) (m : Manager) (s : S) : S :=
  if HasStore (config m) then (st_Set now (refresh_key (refresh_id d)) userID (RefreshTokenTTL (config m)) s).2 else s.

Lemma GenerateTokenPair_ok now d u n dev m s v :
  good_draws d → v = current_version now s m u →
  encodable (access_claims now d u n dev v m) → encodable (refresh_claims now d u n dev v m) →
  ∃ p, GenerateTokenPair now d u n dev m s = (Ok p, recorded now d u m s) ∧
    decodeClaims m (AccessToken p) = Ok (access_claims now d u n dev v m) ∧
    decodeClaims m (RefreshToken p) = Ok (refresh_claims now d u n dev v m).
Proof.
  intros [(n1 & E1 & L1) (n2 & E2 & L2)] -> Ha Hr. unfold GenerateTokenPair, recorded. rewrite E1, E2.
  destruct (encodeClaims_sealed m n1 _ L1 Ha) as (t1 & -> & D1).
  destruct (encodeClaims_sealed m n2 _ L2 Hr) as (t2 & -> & D2).
  destruct (HasStore (config m)); [|by exists (MkPair t1 t2)].
  destruct (st_Set _ _ _ _ s) as [e s'] eqn:Es.
  pose proof (Set_succeeds now (refresh_key (refresh_id d)) u (RefreshTokenTTL (config m)) s) as He.
  rewrite Es in He. cbn in He. subst e. by exists (MkPair t1 t2).
Qed.

Lemma Refresh_checked now d token m s c :
  HasStore (config m) = true → refresh_check now s m token = Ok c →
  Refresh now d token m s =
  GenerateTokenPair now d (UserID c) (Username c) (DeviceID c) m (st_Del now (refresh_key (TokenID c)) s).2.
Proof.
  intros Hs Hc. unfold Refresh, refresh_take. rewrite Hc, Hs.
  destruct (st_Del _ _ s) as [e s'] eqn:Ed. pose proof (Del_succeeds now (refresh_key (TokenID c)) s) as He.
  rewrite Ed in He. cbn in He. by subst e.
Qed.

Lemma refresh_check_spec now s m token c :
  refresh_check now s m token = Ok c ↔
  decodeClaims m token = Ok c ∧ Typ c = TokenTypeRefresh ∧ now <= ExpireAt c ∧
  (HasStore (config m) = true → ∃ v, st_Get now (refresh_key (TokenID c)) s = Ok v).
Proof.
  unfold refresh_check, After. split.
  - destruct (decodeClaims m token) as [c'|]; [|done].
    destruct (bool_decide_reflect (Typ c' = TokenTypeRefresh)) as [?|]; [|done]. cbn [negb].
    destruct (Z.ltb_spec (ExpireAt c') now); [done|].
    destruct (HasStore (config m)); [|by intros [= ->]].
    destruct (st_Get _ _ s) as [v|] eqn:?; [|done]. intros [= ->]. eauto.
  - intros (-> & Ht & He & Hs). rewrite bool_decide_eq_true_2 by done. cbn [negb].
    destruct (Z.ltb_spec (ExpireAt c) now); [lia|].
    destruct (HasStore (config m)); [|done]. by destruct (Hs eq_refl) as (v & ->).
Qed.

(** A pair that was generated works: the access token is accepted with the claims
    of its user until it expires, as long as it is not put on the blacklist and
    the user's version stays; the refresh token is accepted as long as it lives. *)
Theorem issued_tokens_work now d u n dev m s v :
  HasStore (config m) = true → 0 < RefreshTokenTTL (config m) → good_draws d → v = current_version now s m u →
  encodable (access_claims now d u n dev v m) → encodable (refresh_claims now d u n dev v m) →
  ∃ p s', GenerateTokenPair now d u n dev m s = (Ok p, s') ∧
    (∀ t, now <= t <= now + AccessTokenTTL (config m) →
       missing (st_Get t (blacklist_key (access_id d)) s) →
       st_Get t (version_key u) s = st_Get now (version_key u) s →
       ValidateAccessToken t s' m (AccessToken p) = Ok (access_claims now d u n dev v m)) ∧
    (∀ t, now <= t < now + RefreshTokenTTL (config m) →
       refresh_check t s' m (RefreshToken p) = Ok (refresh_claims now d u n dev v m)).
Proof.
  intros Hs Hr Hd Hv Ha Hre.
  destruct (GenerateTokenPair_ok now d u n dev m s v Hd Hv Ha Hre) as (p & -> & Da & Dr).
  unfold recorded. rewrite Hs. eexists p, _. split; [done|]. split.
  - intros t Ht Hb Hver. apply ValidateAccessToken_decoded. split; [done|]. split; [done|].
    split; [unfold access_claims, Add; cbn; lia|]. intros _. cbn [access_claims TokenID UserID Version].
    rewrite !Set_other by done. split; [done|]. intros w Hw. rewrite Hver in Hw. subst v.
    unfold current_version. by rewrite Hs, Hw.
  - intros t Ht. apply refresh_check_spec. split; [done|]. split; [done|].
    split; [unfold refresh_claims, Add; cbn; lia|]. intros _. eexists. apply Set_keeps; [lia..|]. right. lia.
Qed.

End Issued.

(** ** Runs of the manager *)

Inductive op :=
| OGenerate (d : draws) (u n dev : string)
| ORefresh (d : draws) (token : string)
| OLogout (token : string)
| ORevoke (u : string).

(** An operation and the time at which it is called. *)
Definition event : Type := Z * op.

Section Runs.
Context `{!AEAD, !ClaimsJSON} {S : Type} `{!TokenStore S}.

Definition apply (m : Manager) (e : event) (s : S) : S :=
  match e.2 with
  | OGenerate d u n dev => (GenerateTokenPair e.1 d u n dev m s).2
  | ORefresh d token => (Refresh e.1 d token m s).2
  | OLogout token => (Logout e.1 token m s).2
  | ORevoke u => (RevokeUser e.1 u m s).2
  end.

Definition final (m : Manager) (es : list event) (s : S) : S := foldl (λ s e, apply m e s) s es.

(** The identifier of the refresh token that a step accepts. *)
Definition refreshed_by (m : Manager) (e : event) (s : S) : list string :=
  match e.2 with
  | ORefresh d token =>
      match (Refresh e.1 d token m s).1, decodeClaims m token with
      | Ok _, Ok c => [TokenID c]
      | _, _ => []
      end
  | _ => []
  end.

Fixpoint refreshed (m : Manager) (es : list event) (s : S) : list string :=
  match es with
  | [] => []
  | e :: es => refreshed_by m e s ++ refreshed m es (apply m e s)
  end.

(** The identifiers drawn for refresh tokens. *)
Definition issued_by (e : event) : list string :=
  match e.2 with
  | OGenerate d _ _ _ | ORefresh d _ => [refresh_id d]
  | _ => []
  end.

Definition writes (m : Manager) (e : event) (k : string) : Prop :=
  match e.2 with
  | OGenerate d _ _ _ => k = refresh_key (refresh_id d)
  | ORefresh d token =>
      k = refresh_key (refresh_id d) ∨ ∃ c, decodeClaims m token = Ok c ∧ k = refresh_key (TokenID c)
  | OLogout token => ∃ c, decodeClaims m token = Ok c ∧ k = blacklist_key (TokenID c)
  | ORevoke u => k = version_key u
  end.

Context `{!StoreLaws S}.

Lemma GenerateTokenPair_frame now d u n dev m (s : S) t k : k ≠ refresh_key (refresh_id d) →
  st_Get t k (GenerateTokenPair now d u n dev m s).2 = st_Get t k s.
Proof.
  intros Hk. unfold GenerateTokenPair. repeat (case_match; try done); cbn [snd];
    match goal with H : st_Set ?a ?b ?c ?d ?s = (_, ?s') |- _ =>
      replace s' with (st_Set a b c d s).2 by (by rewrite H); by apply Set_other end.
Qed.

(** A step leaves every key alone that it does not write. *)
Lemma apply_frame m e (s : S) t k : ¬ writes m e k → st_Get t k (apply m e s) = st_Get t k s.
Proof.
  destruct e as [now [d u n dev|d token|token|u]]; unfold writes, apply; cbn [fst snd]; intros Hw.
  - by apply GenerateTokenPair_frame.
  - unfold Refresh, refresh_take. destruct (refresh_check now s m token) as [c|] eqn:Hc; [|done].
    assert (decodeClaims m token = Ok c) as Hd.
    { unfold refresh_check in Hc. by repeat case_match; simplify_eq. }
    destruct (HasStore (config m)); [|apply GenerateTokenPair_frame; tauto].
    assert (st_Get t k (st_Del now (refresh_key (TokenID c)) s).2 = st_Get t k s) as <-.
    { apply Del_other. intros <-. apply Hw. right. eauto. }
    destruct (st_Del _ _ s) as [[e|] s'] eqn:Ed; [done|]. cbn [snd]. apply GenerateTokenPair_frame. tauto.
  - unfold Logout. destruct (decodeClaims m token) as [c|] eqn:Hc; [|done].
    destruct (HasStore (config m)); [|done]. apply Set_other. intros <-. apply Hw. eauto.
  - unfold RevokeUser. destruct (HasStore (config m)); [|done]. apply Set_other. by intros <-.
Qed.

Lemma refresh_check_decoded now (s : S) m token c : refresh_check now s m token = Ok c → decodeClaims m token = Ok c.
Proof. unfold refresh_check. intros. by repeat case_match; simplify_eq. Qed.

(** After a step a refresh key is there because the step issued it, or because
    it was there before and the step did not use it up. *)
Lemma refresh_keys_after m e (s : S) t id v : HasStore (config m) = true →
  st_Get t (refresh_key id) (apply m e s) = Ok v →
  id ∈ issued_by e ∨ (st_Get t (refresh_key id) s = Ok v ∧ id ∉ refreshed_by m e s).
Proof.
  intros Hs. destruct e as [now [d u n dev|d token|token|u]]; unfold issued_by, refreshed_by;
    cbn [fst snd]; rewrite ?list_elem_of_singleton.
  - destruct (decide (id = refresh_id d)) as [|Hne]; [auto|]. unfold apply. cbn [fst snd].
    rewrite GenerateTokenPair_frame by (by intros ?%refresh_key_inj). right. split; [done|]. apply not_elem_of_nil.
  - destruct (decide (id = refresh_id d)) as [|Hne]; [auto|]. unfold apply. cbn [fst snd].
    destruct (refresh_check now s m token) as [c|] eqn:Hc.
    + rewrite (Refresh_checked _ _ _ _ _ c) by done.
      rewrite GenerateTokenPair_frame by (by intros ?%refresh_key_inj). intros Hg.
      rewrite (refresh_check_decoded _ _ _ _ _ Hc).
      destruct (decide (id = TokenID c)) as [->|Hid].
      { destruct (Del_removes now (refresh_key (TokenID c)) s t) as [e He]. by rewrite He in Hg. }
      rewrite Del_other in Hg by (by intros ?%refresh_key_inj). right. split; [done|].
      case_match; [|apply not_elem_of_nil]. by rewrite list_elem_of_singleton.
    + unfold Refresh. rewrite Hc. right. split; [done|apply not_elem_of_nil].
  - rewrite apply_frame by (intros (c & _ & ?); done). right. split; [done|apply not_elem_of_nil].
  - rewrite apply_frame by done. right. split; [done|apply not_elem_of_nil].
Qed.

(** A refresh token that a step accepts is in the store. *)
Lemma refreshed_present m e (s : S) id : HasStore (config m) = true → id ∈ refreshed_by m e s →
  refreshed_by m e s = [id] ∧ ∃ v, st_Get e.1 (refresh_key id) s = Ok v.
Proof.
  intros Hs. unfold refreshed_by. destruct e as [now [|d token| |]]; cbn [fst snd]; try by intros ?%not_elem_of_nil.
  unfold Refresh. destruct (refresh_check now s m token) as [c|] eqn:Hc; [|by intros ?%not_elem_of_nil].
  rewrite (refresh_check_decoded _ _ _ _ _ Hc). case_match; [|by intros ?%not_elem_of_nil].
  intros ->%list_elem_of_singleton. split; [done|]. by apply refresh_check_spec in Hc as (_ & _ & _ & Hv); auto.
Qed.

Lemma refreshed_once m es (s : S) pool : HasStore (config m) = true →
  (∀ t id v, st_Get t (refresh_key id) s = Ok v → id ∈ pool) → NoDup (pool ++ (es ≫= issued_by)) →
  NoDup (refreshed m es s) ∧ ∀ id, id ∈ refreshed m es s → id ∈ pool ++ (es ≫= issued_by).
Proof.
  intros Hs. revert s pool. induction es as [|e es IH]; intros s pool Hpool Hnd.
  { split; [constructor|]. by intros ? ?%not_elem_of_nil. }
  cbn [mbind list_bind refreshed] in *. fold (es ≫= issued_by) in *.
  set (used := refreshed_by m e s) in *.
  set (pool' := filter (λ id, id ∉ used) pool ++ issued_by e).
  destruct (IH (apply m e s) pool') as [IHn IHs].
  - intros t id v Hg. unfold pool'. rewrite elem_of_app, list_elem_of_filter.
    apply (refresh_keys_after m e s t id v Hs) in Hg as [?|[Hg Hu]]; [auto|]. left. split; [done|]. by eapply Hpool.
  - unfold pool'. rewrite <-app_assoc. eapply sublist_NoDup; [exact Hnd|].
    apply sublist_app; [apply sublist_filter|done].
  - assert (∀ id, id ∈ used → used = [id] ∧ id ∈ pool) as Hu.
    { intros id Hid. destruct (refreshed_present m e s id Hs Hid) as [? [v ?]]. split; [done|]. by eapply Hpool. }
    split.
    + apply NoDup_app. split; [|split; [|done]].
      * destruct used as [|id l] eqn:E; [constructor|]. destruct (Hu id) as [-> _]; [by left|]. apply NoDup_singleton.
      * intros id Hid Hin. destruct (Hu id Hid) as [_ Hp]. apply IHs in Hin. unfold pool' in Hin.
        rewrite <-app_assoc, elem_of_app, list_elem_of_filter in Hin. destruct Hin as [[? _]|Hin]; [done|].
        apply NoDup_app in Hnd as (_ & Hnd & _). by apply (Hnd id).
    + intros id [Hid|Hid]%elem_of_app; rewrite elem_of_app.
      * left. by apply Hu.
      * apply IHs in Hid. unfold pool' in Hid. rewrite !elem_of_app, list_elem_of_filter in *. tauto.
Qed.

(** With a store, and identifiers that are all different, a refresh token is
    accepted at most once in any sequence of calls, whatever its times, and only
    if it was issued in that sequence. *)
Theorem refresh_token_single_use m es (s : S) :
  HasStore (config m) = true → (∀ t id, missing (st_Get t (refresh_key id) s)) → NoDup (es ≫= issued_by) →
  NoDup (refreshed m es s) ∧ ∀ id, id ∈ refreshed m es s → id ∈ (es ≫= issued_by).
Proof.
  intros Hs Hempty Hnd. apply (refreshed_once m es s [] Hs); [|done].
  intros t id v Hg. destruct (Hempty t id) as [e He]. by rewrite He in Hg.
Qed.

(** Times that do not go back, from [t0] on. *)
Fixpoint ordered (t0 : Z) (es : list event) : Prop :=
  match es with
  | [] => True
  | e :: es => t0 <= e.1 ∧ ordered e.1 es
  end.

Definition end_time (t0 : Z) (es : list event) : Z := foldl (λ _ e, e.1) t0 es.

(** What holds of the future at every step holds at the end. *)
Lemma final_invariant (P : Z → S → Prop) m es : ∀ t0 s, ordered t0 es →
  (∀ t s e, e ∈ es → t <= e.1 → P t s → P e.1 (apply m e s)) → P t0 s → P (end_time t0 es) (final m es s).
Proof.
  unfold final, end_time. induction es as [|e es IH]; intros t0 s Ho Hstep HP; [done|]. cbn.
  destruct Ho as [Ht Ho]. apply IH; [done| |].
  - intros t s' e' He'. apply Hstep. by right.
  - apply (Hstep t0); [by left|done..].
Qed.

Definition on_blacklist (c : Claims) (t0 : Z) (s : S) : Prop :=
  ∀ t, t0 <= t < ExpireAt c → ∃ v, st_Get t (blacklist_key (TokenID c)) s = Ok v.

Definition version_999 (u : string) (t0 : Z) (s : S) : Prop :=
  ∀ t, t0 <= t → st_Get t (version_key u) s = Ok "999".

Lemma Logout_blacklists t0 token m (s : S) c : HasStore (config m) = true → decodeClaims m token = Ok c →
  ExpireAt c - t0 < 2 ^ 63 → on_blacklist c t0 (Logout t0 token m s).2.
Proof.
  intros Hs Hd He t Ht. unfold Logout. rewrite Hd, Hs. exists "1". unfold Sub, GoInt.maxInt64, GoInt.minInt64.
  apply Set_keeps; lia.
Qed.

Lemma on_blacklist_step m c t0 (s : S) e : HasStore (config m) = true → ExpireAt c - t0 < 2 ^ 63 → t0 <= e.1 →
  (∀ token c', e.2 = OLogout token → decodeClaims m token = Ok c' → TokenID c' = TokenID c → ExpireAt c' = ExpireAt c) →
  on_blacklist c t0 s → on_blacklist c e.1 (apply m e s).
Proof.
  intros Hs He Ht Hsame HP.
  assert (¬ writes m e (blacklist_key (TokenID c)) → on_blacklist c e.1 (apply m e s)) as Hframe.
  { intros Hw t Hin. rewrite apply_frame by done. apply HP. lia. }
  destruct e as [now [| |token|]]; cbn [fst snd] in *;
    [by apply Hframe|apply Hframe; intros [?|(? & _ & ?)]; done| |by apply Hframe].
  destruct (decodeClaims m token) as [c'|] eqn:Hd; [|apply Hframe; intros (? & ? & _); cbn in *; congruence].
  destruct (decide (TokenID c' = TokenID c)) as [Hid|Hid].
  - pose proof (Hsame token c' eq_refl Hd Hid) as Hx. unfold apply, on_blacklist. cbn [fst snd].
    rewrite <-Hx, <-Hid. apply Logout_blacklists; [done..|]. lia.
  - apply Hframe. intros (? & ? & ?%blacklist_key_inj). cbn in *. congruence.
Qed.

Lemma version_999_step m u t0 (s : S) e : HasStore (config m) = true → t0 <= e.1 → version_999 u t0 s →
  version_999 u e.1 (apply m e s).
Proof.
  intros Hs Ht HP t Hle.
  assert (¬ writes m e (version_key u) → st_Get t (version_key u) (apply m e s) = Ok "999") as Hframe.
  { intros Hw. rewrite apply_frame by done. apply HP. lia. }
  destruct e as [now [| | |u']]; cbn [fst snd] in *;
    [by apply Hframe|apply Hframe; intros [?|(? & _ & ?)]; done|apply Hframe; intros (? & _ & ?); done|].
  destruct (decide (u' = u)) as [->|Hne].
  - unfold apply, RevokeUser. cbn [fst snd]. rewrite Hs. apply Set_keeps; lia.
  - apply Hframe. by intros ?%version_key_inj.
Qed.

(** C16: Logging out and revoking last.  After [Logout] of a token, whatever is
    called later, the token is refused for ever (the instant of its expiry, at
    which the entry of the store ends too, excepted), provided that no token with
    the same identifier but another expiry is logged out.  After [RevokeUser],
    every token of the user that does not have the version 999 is refused for ever. *)
Theorem revocation_lasts m (s : S) t0 es t :
  HasStore (config m) = true → ordered t0 es → end_time t0 es <= t →
  (∀ token c, decodeClaims m token = Ok c → ExpireAt c - t0 < 2 ^ 63 → t ≠ ExpireAt c →
     (∀ t' token' c', (t', OLogout token') ∈ es → decodeClaims m token' = Ok c' → TokenID c' = TokenID c →
        ExpireAt c' = ExpireAt c) →
     missing (ValidateAccessToken t (final m es (Logout t0 token m s).2) m token)) ∧
  (∀ token c, decodeClaims m token = Ok c → Version c ≠ 999 →
     missing (ValidateAccessToken t (final m es (RevokeUser t0 (UserID c) m s).2) m token)).
Proof.
  intros Hs Ho Ht.
  assert (∀ s' token c, decodeClaims m token = Ok c → ¬ valid_now t s' m c → missing (ValidateAccessToken t s' m token)) as Hno.
  { intros s' token c Hd Hn. destruct (ValidateAccessToken t s' m token) as [c'|e] eqn:E; [|by exists e].
    apply ValidateAccessToken_decoded in E as [? ?]. assert (c' = c) as -> by congruence. done. }
  split.
  - intros token c Hd He Hne Hsame. apply (Hno _ _ c Hd). intros (_ & Hle & Hv).
    destruct (final_invariant (λ t' s', t0 <= t' ∧ on_blacklist c t' s') m es t0 (Logout t0 token m s).2 Ho) as [Ht0 Hb].
    { intros t1 s1 [t2 o] Hin Hle2 [Hge HP]. cbn [fst] in *. split; [lia|].
      apply (on_blacklist_step m c t1 s1 (t2, o)); [done|lia|done| |done]. cbn. intros token' c' ->. by eapply Hsame. }
    { split; [done|]. by apply Logout_blacklists. }
    destruct (Hv Hs) as [[e Hm] _]. destruct (Hb t) as [v Hg]; [lia|]. congruence.
  - intros token c Hd Hne. apply (Hno _ _ c Hd). intros (_ & _ & Hv).
    assert (version_999 (UserID c) (end_time t0 es) (final m es (RevokeUser t0 (UserID c) m s).2)) as Hb.
    { apply final_invariant; [done| |].
      - intros t1 s1 e _ ? ?. by apply version_999_step with (t0 := t1).
      - intros t1 Ht1. unfold RevokeUser. rewrite Hs. apply Set_keeps; lia. }
    apply Hne. symmetry. destruct (Hv Hs) as [_ Hver]. apply (Hver "999"), Hb. done.
Qed.

End Runs.

(** ** An instance of the interfaces

    A store in memory, a cipher that satisfies the two equations, and an
    injective text of claims. *)

Module Demo.

Abbreviation MemStore := (gmap string (string * option Z)).

#[export] Instance MemStore_store : TokenStore MemStore := {
  st_Set now k v ttl s := (None, <[k := (v, if ttl =? 0 then None else Some (now + ttl))]> s);
  st_Get now k s :=
    match s !! k with
    | Some (v, None) => Ok v
    | Some (v, Some deadline) => if now <? deadline then Ok v else Err (GoError.Errorf "key not found" [])
    | None => Err (GoError.Errorf "key not found" [])
    end;
  st_Del now k s := (None, delete k s);
}.

#[export] Instance MemStore_laws : StoreLaws MemStore.
Proof.
  split; unfold st_Set, st_Get, st_Del, MemStore_store; cbn [fst snd]; intros.
  - done.
  - rewrite lookup_insert_eq. destruct (Z.eqb_spec ttl 0); [done|]. by rewrite (proj2 (Z.ltb_lt _ _)) by lia.
  - by rewrite lookup_insert_ne.
  - done.
  - rewrite lookup_delete_eq. by eexists.
  - by rewrite lookup_delete_ne.
Qed.

(** A store that cannot be reached. *)
Record DownStore := MkDown { inner : MemStore }.

#[export] Instance DownStore_store : TokenStore DownStore := {
  st_Set _ _ _ _ s := (Some (GoError.Errorf "connection refused" []), s);
  st_Get _ _ _ := Err (GoError.Errorf "connection refused" []);
  st_Del _ _ s := (Some (GoError.Errorf "connection refused" []), s);
}.

#[export] Instance demo_AEAD : AEAD := {
  Sum256 s := s;
  Seal k n d := (k +:+ n) +:+ d;
  Open k n c := if HasPrefix c (k +:+ n) then Some (TrimPrefix c (k +:+ n)) else None;
}.

#[export] Instance demo_AEADLaws : AEADLaws.
Proof.
  split; unfold Seal, Open, demo_AEAD; intros k n c; [|intros d].
  - rewrite (proj2 (HasPrefix_spec _ _)) by eauto. by rewrite TrimPrefix_app.
  - destruct (HasPrefix c (k +:+ n)) eqn:E; [|done]. apply HasPrefix_spec in E as [t ->].
    rewrite TrimPrefix_app. by intros [= ->].
Qed.

#[export] Instance Claims_countable : Countable Claims.
Proof.
  refine (inj_countable' (λ c, (UserID c, Username c, DeviceID c, TokenID c, Version c, Typ c, IssuedAt c, ExpireAt c, Payload c))
            (λ '(u, n, dev, id, v, ty, i, x, p), MkClaims u n dev id v ty i x p) _).
  by intros [].
Defined.

Fixpoint bits (p : positive) : string :=
  match p with
  | xH => ""
  | xO p => String.String "0" (bits p)
  | xI p => String.String "1" (bits p)
  end.

Fixpoint unbits (s : string) : positive :=
  match s with
  | String.String "0"%char s => xO (unbits s)
  | String.String _ s => xI (unbits s)
  | String.EmptyString => xH
  end.

Lemma unbits_bits p : unbits (bits p) = p.
Proof. induction p as [p IH|p IH|]; cbn; by rewrite ?IH. Qed.

#[export] Instance demo_JSON : ClaimsJSON := {
  Marshal c := Some (bits (encode c));
  Unmarshal s := decode (unbits s);
  encodable _ := True;
}.

#[export] Instance demo_JSONLaws : JSONLaws.
Proof. split. intros c _. eexists. split; [done|]. cbn. by rewrite unbits_bits, decode_encode. Qed.

Definition ex_manager : Manager := NewManager (MkConfig "secret" 0 0 true).
Definition ex_draws (a r : string) : draws := MkDraws a r (Some "nonce-123456") (Some "nonce-654321").
Definition T (r : result TokenPair * MemStore) : TokenPair := match r.1 with Ok p => p | Err _ => MkPair "" "" end.

(** Alice logs in at time 100. *)
Definition ex_login : result TokenPair * MemStore :=
  GenerateTokenPair 100 (ex_draws "a1" "r1") "alice" "Alice" "phone" ex_manager ∅.

Definition ex_claims : Claims :=
  MkClaims "alice" "Alice" "phone" "a1" 1 TokenTypeAccess 100 (100 + Minute * 15) ∅.

End Demo.
Import Demo.

Lemma access_token_decision_witness :
  ValidateAccessToken 200 ex_login.2 ex_manager (AccessToken (T ex_login)) = Ok ex_claims ∧
  sealed ex_manager (AccessToken (T ex_login)) ex_claims.
Proof.
  assert (ValidateAccessToken 200 ex_login.2 ex_manager (AccessToken (T ex_login)) = Ok ex_claims) as H by (vm_compute; reflexivity).
  split; [exact H|]. exact (proj1 (proj1 (access_token_decision _ _ _ _ _) H)).
Defined.

(** A login and three attempts to refresh with the same token, one of them before
    any other. *)
Definition ex_run : list event :=
  [(100, OGenerate (ex_draws "a1" "r1") "alice" "Alice" "phone");
   (200, ORefresh (ex_draws "a2" "r2") (RefreshToken (T ex_login)));
   (300, ORefresh (ex_draws "a3" "r3") (RefreshToken (T ex_login)));
   (400, ORefresh (ex_draws "a4" "r4") (RefreshToken (T ex_login)))].

Lemma refresh_token_single_use_witness :
  refreshed ex_manager ex_run (∅ : MemStore) = ["r1"] ∧
  NoDup (refreshed ex_manager ex_run (∅ : MemStore)).
Proof.
  split; [vm_compute; reflexivity|]. apply (refresh_token_single_use ex_manager ex_run (∅ : MemStore)).
  - reflexivity.
  - intros t id. eexists. reflexivity.
  - apply (bool_decide_unpack _). vm_compute. exact I.
Defined.

Lemma revocation_lasts_witness :
  missing (ValidateAccessToken 400 (final ex_manager ex_run (Logout 90 (AccessToken (T ex_login)) ex_manager ∅).2)
             ex_manager (AccessToken (T ex_login))) ∧
  missing (ValidateAccessToken 400 (final ex_manager ex_run (RevokeUser 90 "alice" ex_manager ∅).2)
             ex_manager (AccessToken (T ex_login))).
Proof.
  assert (decodeClaims ex_manager (AccessToken (T ex_login)) = Ok ex_claims) as Hd by (vm_compute; reflexivity).
  destruct (revocation_lasts ex_manager (∅ : MemStore) 90 ex_run 400) as [H1 H2];
    [reflexivity|repeat split; vm_compute; discriminate|vm_compute; discriminate|].
  split.
  - apply (H1 _ ex_claims Hd); [vm_compute; reflexivity|vm_compute; discriminate|].
    intros t' token' c' Hin. exfalso. unfold ex_run in Hin.
    rewrite !elem_of_cons in Hin. repeat (destruct Hin as [Hin|Hin]; [discriminate Hin|]).
    by apply not_elem_of_nil in Hin.
  - apply (H2 _ ex_claims Hd). discriminate.
Defined.

(** ** What the package does not prevent *)

(** [Refresh] looks neither at the user's version nor at the blacklist: a revoked
    user refreshes and gets tokens that are accepted, and so does one who logged
    out, with either token. *)
Theorem revoked_user_refreshes :
  let s := (RevokeUser 200 "alice" ex_manager ex_login.2).2 in
  let again := Refresh 300 (ex_draws "a2" "r2") (RefreshToken (T ex_login)) ex_manager s in
  missing (ValidateAccessToken 300 s ex_manager (AccessToken (T ex_login))) ∧
  ∃ c, ValidateAccessToken 400 again.2 ex_manager (AccessToken (T again)) = Ok c ∧ UserID c = "alice".
Proof. vm_compute. split; [by eexists|]. by eexists. Qed.

Theorem logged_out_user_refreshes :
  let s := (Logout 210 (RefreshToken (T ex_login)) ex_manager
              (Logout 200 (AccessToken (T ex_login)) ex_manager ex_login.2).2).2 in
  let again := Refresh 300 (ex_draws "a2" "r2") (RefreshToken (T ex_login)) ex_manager s in
  ∃ c, ValidateAccessToken 400 again.2 ex_manager (AccessToken (T again)) = Ok c ∧ UserID c = "alice".
Proof. vm_compute. by eexists. Qed.

(** [RevokeUser] sets the version to 999 instead of incrementing it, so it works
    once: tokens issued after the first revocation survive every later one. *)
Theorem second_revocation_ineffective :
  let s := (RevokeUser 200 "alice" ex_manager ex_login.2).2 in
  let again := GenerateTokenPair 300 (ex_draws "a2" "r2") "alice" "Alice" "phone" ex_manager s in
  let s' := (RevokeUser 400 "alice" ex_manager again.2).2 in
  ∃ c, ValidateAccessToken 500 s' ex_manager (AccessToken (T again)) = Ok c ∧ Version c = 999.
Proof. vm_compute. by eexists. Qed.

(** Two refreshes that both look before either deletes get a pair each. *)
Theorem concurrent_refresh_two_pairs :
  let c := refresh_claims 100 (ex_draws "a1" "r1") "alice" "Alice" "phone" 1 ex_manager in
  let r1 := refresh_take 201 (ex_draws "a2" "r2") c ex_manager ex_login.2 in
  let r2 := refresh_take 202 (ex_draws "a3" "r3") c ex_manager r1.2 in
  refresh_check 200 ex_login.2 ex_manager (RefreshToken (T ex_login)) = Ok c ∧
  (∃ p, r1.1 = Ok p) ∧ ∃ p, r2.1 = Ok p.
Proof. vm_compute. split; [reflexivity|]. split; eexists; reflexivity. Qed.

Section Gaps.
Context `{!AEAD, !ClaimsJSON} {S : Type} `{!TokenStore S}.

(** A store that does not answer counts as an empty one: what was revoked is
    accepted again. *)
Theorem silent_store_accepts now (s : S) m token c :
  (∀ t k, missing (st_Get t k s)) → decodeClaims m token = Ok c → Typ c = TokenTypeAccess → now <= ExpireAt c →
  ValidateAccessToken now s m token = Ok c.
Proof.
  intros Hs Hd Ht He. apply ValidateAccessToken_decoded. split; [done|]. split; [done|]. split; [done|].
  intros _. split; [apply Hs|]. intros v Hv. destruct (Hs now (version_key (UserID c))) as [e He']. congruence.
Qed.

(** Without a store logging out and revoking report success and do nothing. *)
Theorem storeless_revocation_ignored now (s : S) m token c u :
  HasStore (config m) = false → decodeClaims m token = Ok c →
  Logout now token m s = (None, s) ∧ RevokeUser now u m s = (None, s).
Proof. intros Hs Hd. unfold Logout, RevokeUser. by rewrite Hd, Hs. Qed.

(** The middleware takes the whole header for the token: a header in the form
    that clients send, with the word Bearer before it, is always refused. *)
Theorem bearer_header_refused now (s : S) m token :
  ∃ e, Middleware now s m ("Bearer " +:+ token) = Unauthorized e.
Proof.
  unfold Middleware. rewrite bool_decide_eq_false_2 by done.
  unfold ValidateAccessToken, decodeClaims, decrypt.
  destruct (DecodeString ("Bearer " +:+ token)) as [d|] eqn:E; [|by eexists].
  apply DecodeString_accepted in E. exfalso.
  rewrite Forall_forall in E. destruct (E " "%char) as [[v Hv]|[?|?]]; [cbn; set_solver|done..].
Qed.

(** A line break after a token gives another text that is accepted in its place. *)
Theorem token_not_unique now (s : S) m token :
  ValidateAccessToken now s m (token +:+ String.String (byte 10) "") = ValidateAccessToken now s m token.
Proof. unfold ValidateAccessToken, decodeClaims, decrypt. by rewrite DecodeString_newline. Qed.

End Gaps.

(** Before [Init], and after an authentication manager refused its configuration
    for want of a secret, the package's functions use the key of the empty secret:
    whoever makes a manager with it makes tokens that are accepted. *)
Theorem default_key_is_known `{!AEAD, !ClaimsJSON, !AEADLaws, !JSONLaws} (S : Type) `{!TokenStore S} (c : AuthConfig)
    (forged : Claims) now (s : S) n :
  Enabled c = true → Secret (JWT_config c) = "" → String.length n = NonceSize → encodable forged →
  Typ forged = TokenTypeAccess → now <= ExpireAt forged →
  (NewAuthManager c defaultManager).2 = defaultManager ∧
  ∃ token, encodeClaims (Some n) (NewManager (MkConfig "" 1 1 false)) forged = Ok token ∧
    ValidateAccessToken now s (NewAuthManager c defaultManager).2 token = Ok forged.
Proof.
  intros He Hsec Hn Henc Ht Hexp.
  assert ((NewAuthManager c defaultManager).2 = defaultManager) as ->.
  { unfold NewAuthManager, Validate. by rewrite He, bool_decide_eq_true_2. }
  split; [done|].
  destruct (encodeClaims_sealed (NewManager (MkConfig "" 1 1 false)) n forged Hn Henc) as (token & Ht1 & Ht2).
  exists token. split; [done|]. apply ValidateAccessToken_decoded. split; [exact Ht2|]. split; [done|]. by split.
Qed.

(** An authentication manager is ready exactly with a valid configuration; an
    enabled one then has a manager with the configured, non-empty secret, which is
    also the package's. *)
Lemma NewAuthManager_ready c dm :
  let '(am, dm') := NewAuthManager c dm in
  (IsReady (Some am) = true ↔ Validate (Some c) = None) ∧
  (IsReady (Some am) = true → IsEnabled am = true →
   ∃ m, JWT (Some am) = Some m ∧ dm' = m ∧ Secret (config m) = Secret (JWT_config c) ∧ Secret (config m) ≠ "").
Proof.
  unfold NewAuthManager, IsReady. destruct (Validate (Some c)) as [e|] eqn:Hv; cbn.
  { by split. }
  unfold IsEnabled. destruct (Enabled c) eqn:He; cbn; rewrite ?He; split; try done.
  intros _ _. eexists. repeat split; [done..|]. cbn. unfold Validate in Hv. rewrite He in Hv. cbn in Hv.
  by case_bool_decide.
Qed.
