(* ===== verification/AuthMiddleware.v ===== *)
(** * plugins/middleware/auth.go and apikey.go

    The gin handlers that authenticate a request with a token or an API key and
    authorise it by roles and permissions.  A handler reads the request and the
    values of its context and either passes on, with values added, or answers with
    an error and aborts; a route is the chain of its handlers.  Tokens are checked
    by the package's manager of [Jwt], permissions by any implementation of
    [PermissionChecker], of which the policy of [Rbac] is one. *)

From Stdlib Require Import Ascii.
From S2P Require Import Prelude GoString GoBase64 Jwt JwtProps Rbac.

Open Scope Z_scope.

(** ** Requests, contexts and handlers *)

Record request := MkRequest {
  Path : string;
  GetHeader : string → string;
  Query : string → string;
  Cookie : string → option string;
}.

(** What is stored under a key of the context is of any type. *)
Inductive value := VString (s : string) | VClaims (c : Claims) | VOther.

#[export] Instance value_eq_dec : EqDecision value.
Proof. solve_decision. Defined.

Abbreviation context := (gmap string value).

(** An aborted request is answered with a message, to which the text of an error
    may be appended, and with the status 400. *)
Inductive reaction := Pass (ctx : context) | Abort (msg : string) (cause : option GoError.error).

Definition handler : Type := request → context → reaction.

(** The handlers of a route in turn, each by its call of [c.Next()]. *)
Fixpoint chain (hs : list handler) (r : request) (ctx : context) : reaction :=
  match hs with
  | [] => Pass ctx
  | h :: hs =>
      match h r ctx with
      | Pass ctx => chain hs r ctx
      | Abort msg cause => Abort msg cause
      end
  end.

(** ** Tokens *)

Record AuthConfig := MkAuthConfig {
  SkipPaths : list string;
  Skipper : option (string → bool);
  Required : bool;
  TokenHeader : string;
  TokenQuery : string;
  CookieName : string;
  TokenLookup : string;
  KeyFunc : option (Claims → string);
  Enabled : bool;
}.

Definition DefaultAuthConfig : AuthConfig :=
  MkAuthConfig ["/health"; "/metrics"; "/ping"] None true "Authorization" "token" "auth_token" "" None true.

Definition shouldSkipAuth (r : request) (c : AuthConfig) : bool :=
  (match Skipper c with Some f => f (Path r) | None => false end) || existsb (HasPrefix (Path r)) (SkipPaths c).

Definition errNotSupported : string := "feature not supported".
Definition errMissingFile : string := "http: no such file".
Definition errNoCookie : string := "http: named cookie not present".

(** The token, or the text of the error. *)
Definition extractToken (r : request) (lookup : string) : string + string :=
  match Split ":" lookup with
  | [source; name; prefix] =>
      if bool_decide (source = "header") then
        let header := GetHeader r name in
        if bool_decide (header = "") then inr errMissingFile
        else if negb (bool_decide (prefix = "")) then
          if negb (HasPrefix header prefix) then inr errMissingFile else inl (TrimPrefix header prefix)
        else inl header
      else if bool_decide (source = "query") then
        let query := Query r name in
        if bool_decide (query = "") then inr errMissingFile else inl query
      else if bool_decide (source = "cookie") then
        match Cookie r name with
        | Some cookie => inl cookie
        | None => inr errNoCookie
        end
      else inr errNotSupported
  | _ => inr errNotSupported
  end.

Definition defaultLookup : string := "header:Authorization:Bearer ".

Definition lookup_of (c : AuthConfig) : string :=
  if bool_decide (TokenLookup c = "") then defaultLookup else TokenLookup c.

Definition userID_of (c : AuthConfig) (claims : Claims) : string :=
  match KeyFunc c with
  | Some f => if bool_decide (f claims = "") then UserID claims else f claims
  | None => UserID claims
  end.

(** The values that both token middlewares store. *)
Definition set_user (c : AuthConfig) (claims : Claims) (ctx : context) : context :=
  <["claims" := VClaims claims]> (<["device_id" := VString (DeviceID claims)]>
    (<["username" := VString (Username claims)]> (<["user_id" := VString (userID_of c claims)]> ctx))).

Section Tokens.
Context `{!AEAD, !ClaimsJSON} {S : Type} `{!TokenStore S}.

(** [dm] is the package's manager, [s] its store. *)
Definition JWT (now : Z) (s : S) (dm : Manager) (c : AuthConfig) : handler := λ r ctx,
  if shouldSkipAuth r c then Pass ctx
  else
    match extractToken r (lookup_of c) with
    | inr e => Abort ("Authentication required: " +:+ e) None
    | inl token =>
        match ValidateAccessToken now s dm token with
        | Err e => Abort "Invalid token: " (Some e)
        | Ok claims => Pass (set_user c claims ctx)
        end
    end.

Definition JWTOptional (now : Z) (s : S) (dm : Manager) (c : AuthConfig) : handler := λ r ctx,
  if shouldSkipAuth r c then Pass ctx
  else
    match extractToken r (lookup_of c) with
    | inr e => Pass ctx
    | inl token =>
        match ValidateAccessToken now s dm token with
        | Err e => Pass ctx
        | Ok claims => Pass (set_user c claims ctx)
        end
    end.

End Tokens.

(** ** Roles and permissions *)

Definition parts_of (claims : Claims) (k : string) : list string :=
  match Payload claims !! k with
  | None => []
  | Some text => TrimSpace <$> Split "," text
  end.

Definition getUserRoles (claims : Claims) : list string := parts_of claims "roles".

Definition getUserPermissions (claims : Claims) : list string := parts_of claims "permissions".

Definition hasDirectPermission (claims : Claims) (permission : string) : bool :=
  existsb (λ perm, bool_decide (perm = permission)) (getUserPermissions claims).

Definition hasAnyDirectPermission (claims : Claims) (permissions : list string) : bool :=
  existsb (λ required, existsb (λ existing, bool_decide (required = existing)) (getUserPermissions claims)) permissions.

(** The interface [PermissionChecker]. *)
Class PermissionChecker (P : Type) := {
  hasPermission : P → list string → string → bool;
  hasAnyPermission : P → list string → list string → bool;
}.

#[export] Instance Policy_checker : PermissionChecker Policy := {
  hasPermission := HasPermission;
  hasAnyPermission := HasAnyPermission;
}.

(** The claims of the context, or the error that the handlers answer. *)
Definition claims_in (ctx : context) : Claims + string :=
  match ctx !! "claims" with
  | None => inr "Authentication required"
  | Some (VClaims c) => inl c
  | Some _ => inr "Invalid claims"
  end.

Section Permissions.
Context {P : Type} `{!PermissionChecker P}.

(** A nil policy, or a nil pointer in the interface, is [None]. *)
Definition RequirePermission (policy : option P) (permission : string) : handler := λ r ctx,
  match policy with
  | None => Abort "RBAC policy is not configured" None
  | Some policy =>
      match claims_in ctx with
      | inr e => Abort e None
      | inl c =>
          if hasDirectPermission c permission then Pass ctx
          else if negb (hasPermission policy (getUserRoles c) permission) then Abort "Insufficient permissions" None
          else Pass ctx
      end
  end.

Definition RequireAnyPermission (policy : option P) (permissions : list string) : handler := λ r ctx,
  match policy with
  | None => Abort "RBAC policy is not configured" None
  | Some policy =>
      match claims_in ctx with
      | inr e => Abort e None
      | inl c =>
          if hasAnyDirectPermission c permissions then Pass ctx
          else if negb (hasAnyPermission policy (getUserRoles c) permissions) then Abort "Insufficient permissions" None
          else Pass ctx
      end
  end.

End Permissions.

Definition RequireAuth : handler := λ r ctx,
  match ctx !! "user_id" with
  | None => Abort "Authentication required" None
  | Some v => if bool_decide (v = VString "") then Abort "Invalid user" None else Pass ctx
  end.

Definition RequireRole (roles : list string) : handler := λ r ctx,
  match claims_in ctx with
  | inr e => Abort e None
  | inl c =>
      if existsb (λ required, existsb (λ role, bool_decide (role = required)) (getUserRoles c)) roles
      then Pass ctx else Abort "Insufficient permissions" None
  end.

(** A value of another type makes the type assertion panic. *)
Definition GetUserID (ctx : context) : outcome (string * bool) :=
  match ctx !! "user_id" with
  | None => Ret ("", false)
  | Some (VString s) => Ret (s, true)
  | Some _ => Panic "interface conversion" []
  end.

Definition GetUsername (ctx : context) : outcome (string * bool) :=
  match ctx !! "username" with
  | None => Ret ("", false)
  | Some (VString s) => Ret (s, true)
  | Some _ => Panic "interface conversion" []
  end.

Definition GetClaims (ctx : context) : outcome (option Claims) :=
  match ctx !! "claims" with
  | None => Ret None
  | Some (VClaims c) => Ret (Some c)
  | Some _ => Panic "interface conversion" []
  end.

(** ** API keys *)

Record APIKeyConfig := MkAPIKeyConfig {
  APIKeys : gmap string string;
  HeaderName : string;
  QueryName : string;
  key_SkipPaths : list string;
  key_Skipper : option (request → bool);
  key_Enabled : bool;
}.

Definition DefaultAPIKeyConfig : APIKeyConfig :=
  MkAPIKeyConfig ∅ "X-API-Key" "api_key" ["/health"; "/metrics"; "/docs"] None false.

Definition shouldSkipAPIKeyAuth (r : request) (c : APIKeyConfig) : bool :=
  (match key_Skipper c with Some f => f r | None => false end) || existsb (HasPrefix (Path r)) (key_SkipPaths c).

Definition extractAPIKey (r : request) (c : APIKeyConfig) : string + string :=
  let headerKey := GetHeader r (HeaderName c) in
  if negb (bool_decide (headerKey = "")) then inl headerKey
  else
    let queryKey := Query r (QueryName c) in
    if negb (bool_decide (queryKey = "")) then inl queryKey else inr errMissingFile.

(** [subtle.ConstantTimeCompare] decides equality of byte strings. *)
Definition validateAPIKey (key : string) (validKeys : gmap string string) : bool :=
  existsb (λ validKey, bool_decide (key = validKey)) (map_to_list validKeys).*1.

(** The names that the constructors of both key middlewares fill in. *)
Definition with_names (c : APIKeyConfig) : APIKeyConfig :=
  MkAPIKeyConfig (APIKeys c) (if bool_decide (HeaderName c = "") then "X-API-Key" else HeaderName c)
    (if bool_decide (QueryName c = "") then "api_key" else QueryName c)
    (key_SkipPaths c) (key_Skipper c) (key_Enabled c).

Definition set_key (c : APIKeyConfig) (key : string) (ctx : context) : context :=
  <["api_user" := VString (default "" (APIKeys c !! key))]> (<["api_key" := VString key]> ctx).

Definition APIKey (c : APIKeyConfig) : handler := λ r ctx,
  if negb (key_Enabled c) then Pass ctx
  else
    let c := with_names c in
    if shouldSkipAPIKeyAuth r c then Pass ctx
    else
      match extractAPIKey r c with
      | inr e => Abort ("API key required: " +:+ e) None
      | inl key =>
          if negb (validateAPIKey key (APIKeys c)) then Abort "Invalid API key" None
          else Pass (set_key c key ctx)
      end.

Definition APIKeyOptional (c : APIKeyConfig) : handler := λ r ctx,
  if negb (key_Enabled c) then Pass ctx
  else
    let c := with_names c in
    if shouldSkipAPIKeyAuth r c then Pass ctx
    else
      match extractAPIKey r c with
      | inr e => Pass ctx
      | inl key =>
          if negb (validateAPIKey key (APIKeys c)) then Pass ctx
          else Pass (set_key c key ctx)
      end.

Definition GetAPIKey (ctx : context) : outcome (string * bool) :=
  match ctx !! "api_key" with
  | None => Ret ("", false)
  | Some (VString s) => Ret (s, true)
  | Some _ => Panic "interface conversion" []
  end.

Definition RequireAPIKey (ctx : context) : outcome reaction :=
  let! k := GetAPIKey ctx in
  if negb k.2 then Ret (Abort "API key required" None)
  else if bool_decide (k.1 = "") then Ret (Abort "Invalid API key" None)
  else Ret (Pass ctx).

Definition with_keys (keys : gmap string string) (c : APIKeyConfig) : APIKeyConfig :=
  MkAPIKeyConfig keys (HeaderName c) (QueryName c) (key_SkipPaths c) (key_Skipper c) (key_Enabled c).

Definition AddAPIKey (key description : string) (c : APIKeyConfig) : APIKeyConfig :=
  with_keys (<[key := description]> (APIKeys c)) c.

Definition RemoveAPIKey (key : string) (c : APIKeyConfig) : APIKeyConfig := with_keys (delete key (APIKeys c)) c.

Definition HasAPIKey (key : string) (c : APIKeyConfig) : bool :=
  match APIKeys c !! key with Some _ => true | None => false end.

(** ** Reading roles back *)

(** Roles written with commas between them are read back. *)
Lemma roles_read_back claims role roles :
  Payload claims !! "roles" = Some (Join "," (role :: roles)) →
  Forall (λ r, trimmed r ∧ Contains r "," = false) (role :: roles) → getUserRoles claims = role :: roles.
Proof.
  intros Hp Hf. unfold getUserRoles, parts_of. rewrite Hp, Split_Join.
  - rewrite <-(list_fmap_id (role :: roles)) at 2. apply list_fmap_ext. intros i r Hr. apply TrimSpace_trimmed.
    by apply (Forall_lookup_1 _ _ _ _ Hf) in Hr as [? _].
  - eapply Forall_impl; [done|]. by intros ? [_ ?].
Qed.

(** ** Who gets through *)

(** The table of a policy has no entry for the empty role. *)
Lemma policy_no_empty_role history :
  rolePerm (fold_right (λ g p, apply_grant p g) (MkPolicy ∅) history) !! "" = None.
Proof.
  induction history as [|[r perms|r perm] history IH]; cbn; [apply lookup_empty|..].
  - unfold SetRolePermissions. case_decide; [done|]. cbn. by rewrite lookup_insert_ne.
  - unfold AddPermission. case_decide as Hd; [done|]. cbn. rewrite lookup_insert_ne; [done|]. intros ->. tauto.
Qed.

Lemma HasPermission_granted history roles permission :
  HasPermission (fold_right (λ g p, apply_grant p g) (MkPolicy ∅) history) roles permission = true ↔
  permission ≠ "" ∧ ∃ role, role ∈ roles ∧ role ≠ "" ∧ granted history role permission.
Proof.
  unfold HasPermission. case_decide as Hp; [naive_solver|]. rewrite any_role_true. split.
  - intros (role & perms & Hin & Hl & Hperm). split; [done|]. exists role. split; [done|].
    assert (role ≠ "") as Hr by (intros ->; by rewrite policy_no_empty_role in Hl). split; [done|].
    apply granted_table; eauto.
  - intros [_ (role & Hin & Hr & Hg)]. apply granted_table in Hg as (perms & ? & ?); eauto.
Qed.

Lemma existsb_eq_elem x (l : list string) : existsb (λ y, bool_decide (y = x)) l = true ↔ x ∈ l.
Proof.
  rewrite existsb_exists. setoid_rewrite bool_decide_eq_true. setoid_rewrite <-list_elem_of_In. naive_solver.
Qed.

Lemma hasDirectPermission_elem c permission : hasDirectPermission c permission = true ↔ permission ∈ getUserPermissions c.
Proof. apply existsb_eq_elem. Qed.

Lemma hasAnyDirectPermission_elem c permissions :
  hasAnyDirectPermission c permissions = true ↔ ∃ p, p ∈ permissions ∧ p ∈ getUserPermissions c.
Proof.
  unfold hasAnyDirectPermission. rewrite existsb_exists. setoid_rewrite <-list_elem_of_In.
  split; intros (p & Hp & H); exists p; (split; [done|]).
  - apply existsb_exists in H as (q & Hq & ->%bool_decide_eq_true). by apply list_elem_of_In.
  - apply existsb_exists. exists p. by rewrite bool_decide_eq_true, <-list_elem_of_In.
Qed.

Section Routes.
Context `{!AEAD, !ClaimsJSON, !AEADLaws} {S : Type} `{!TokenStore S}.

(** The token that a request presents and the manager accepts. *)
Definition authenticated (now : Z) (s : S) (dm : Manager) (cfg : AuthConfig) (r : request) (c : Claims) : Prop :=
  ∃ token, extractToken r (lookup_of cfg) = inl token ∧ sealed dm token c ∧ valid_now now s dm c.

Lemma JWT_passes now (s : S) dm cfg r ctx ctx' :
  JWT now s dm cfg r ctx = Pass ctx' ↔
  (shouldSkipAuth r cfg = true ∧ ctx' = ctx) ∨
  (shouldSkipAuth r cfg = false ∧ ∃ c, authenticated now s dm cfg r c ∧ ctx' = set_user cfg c ctx).
Proof.
  unfold JWT, authenticated. destruct (shouldSkipAuth r cfg).
  { split; [intros [= <-]; by left|]. by intros [[_ ->]|[? _]]. }
  destruct (extractToken r (lookup_of cfg)) as [token|e].
  2:{ split; [done|]. intros [[? _]|(_ & c & (token & ? & _) & _)]; done. }
  destruct (ValidateAccessToken now s dm token) as [c|e] eqn:E; split.
  - intros [= <-]. right. split; [done|]. exists c. split; [|done]. exists token. split; [done|].
    rewrite <-decodeClaims_spec. by apply ValidateAccessToken_decoded in E.
  - intros [[? _]|(_ & c' & (token' & [= <-] & Hs & Hv) & ->)]; [done|].
    rewrite <-decodeClaims_spec in Hs. pose proof (proj2 (ValidateAccessToken_decoded _ _ _ _ _) (conj Hs Hv)). congruence.
  - done.
  - intros [[? _]|(_ & c' & (token' & [= <-] & Hs & Hv) & ->)]; [done|].
    rewrite <-decodeClaims_spec in Hs. pose proof (proj2 (ValidateAccessToken_decoded _ _ _ _ _) (conj Hs Hv)). congruence.
Qed.

(** The optional middleware stores the same values and refuses nobody. *)
Lemma JWTOptional_relaxes now (s : S) dm cfg r ctx :
  JWTOptional now s dm cfg r ctx = match JWT now s dm cfg r ctx with Pass ctx' => Pass ctx' | Abort _ _ => Pass ctx end.
Proof. unfold JWTOptional, JWT. by repeat case_match. Qed.

Lemma claims_in_set_user cfg c ctx : claims_in (set_user cfg c ctx) = inl c.
Proof. unfold claims_in, set_user. by rewrite lookup_insert_eq. Qed.


End Routes.

(** An enabled key middleware lets exactly the exempt paths and the requests with
    a registered key through, the key of the header before that of the query. *)
Lemma APIKey_correct c r ctx ctx' : key_Enabled c = true →
  APIKey c r ctx = Pass ctx' ↔
  (shouldSkipAPIKeyAuth r (with_names c) = true ∧ ctx' = ctx) ∨
  (shouldSkipAPIKeyAuth r (with_names c) = false ∧
   ∃ key, extractAPIKey r (with_names c) = inl key ∧ is_Some (APIKeys c !! key) ∧ ctx' = set_key (with_names c) key ctx).
Proof.
  intros He. unfold APIKey. rewrite He. cbn [negb].
  destruct (shouldSkipAPIKeyAuth r (with_names c)).
  { split; [intros [= <-]; by left|]. by intros [[_ ->]|[? _]]. }
  destruct (extractAPIKey r (with_names c)) as [key|e].
  2:{ split; [done|]. intros [[? _]|(_ & key & ? & _)]; done. }
  assert (validateAPIKey key (APIKeys (with_names c)) = true ↔ is_Some (APIKeys c !! key)) as Hv.
  { unfold validateAPIKey. cbn [with_names APIKeys].
    rewrite existsb_exists. setoid_rewrite bool_decide_eq_true. setoid_rewrite <-list_elem_of_In.
    setoid_rewrite list_elem_of_fmap. split.
    - intros (x & ([k v] & -> & Hin%elem_of_map_to_list) & ->). by exists v.
    - intros [v Hv]. exists key. split; [|done]. exists (key, v). by rewrite elem_of_map_to_list. }
  destruct (validateAPIKey key _); cbn [negb]; split.
  - intros [= <-]. right. split; [done|]. exists key. split; [done|]. split; [by apply Hv|done].
  - intros [[? _]|(_ & key' & [= <-] & _ & ->)]; done.
  - done.
  - intros [[? _]|(_ & key' & [= <-] & Hk & ->)]; [done|]. apply Hv in Hk. done.
Qed.

(** ** Examples *)

Import Demo.

Definition ex_token : string :=
  match SignAccessClaims 100 "t1" (Some "nonce-123456") ex_manager
          (MkClaims "alice" "Alice" "" "" 1 "" 0 0 {["roles" := "user, admin"]}) with
  | Ok token => token
  | Err _ => ""
  end.

Definition ex_request (path authorization : string) : request :=
  MkRequest path (λ name, if bool_decide (name = "Authorization") then authorization else "") (λ _, "") (λ _, None).

Definition ex_user : Claims :=
  MkClaims "alice" "Alice" "" "t1" 1 TokenTypeAccess 100 (100 + GoTime.Minute * 15) {["roles" := "user, admin"]}.


(** ** What the handlers do not do *)

(** Paths are exempt by prefix: with the defaults every path that starts with the
    letters of an exempt one is open. *)
Theorem exempt_prefix_too_wide `{!AEAD, !ClaimsJSON} (S : Type) `{!TokenStore S} now (s : S) dm rest header :
  JWT now s dm DefaultAuthConfig (ex_request ("/ping" +:+ rest) header) ∅ = Pass ∅.
Proof.
  unfold JWT, shouldSkipAuth. cbn [Skipper DefaultAuthConfig orb SkipPaths Path ex_request].
  assert (existsb (HasPrefix ("/ping" +:+ rest)) ["/health"; "/metrics"; "/ping"] = true) as ->; [|done].
  apply existsb_exists. exists "/ping". split; [right; right; by left|]. apply HasPrefix_spec. eauto.
Qed.

(** A lookup without a prefix, such as cookie:auth_token, has two parts and
    refuses every request. *)
Theorem two_part_lookup_refuses `{!AEAD, !ClaimsJSON} (S : Type) `{!TokenStore S} now (s : S) dm cfg r ctx source name :
  TokenLookup cfg = source +:+ ":" +:+ name → Contains source ":" = false → Contains name ":" = false →
  shouldSkipAuth r cfg = false →
  JWT now s dm cfg r ctx = Abort "Authentication required: feature not supported" None.
Proof.
  intros Hl Hs Hn Hskip. unfold JWT. rewrite Hskip. unfold lookup_of. rewrite bool_decide_eq_false_2.
  2:{ rewrite Hl. by destruct source. }
  unfold extractToken. rewrite Hl. change (":" +:+ name) with (String.String ":" name).
  by rewrite Split_app, Split_no_sep.
Qed.

(** [Enabled], [Required], [TokenHeader], [TokenQuery] and [CookieName] change
    nothing: a disabled middleware refuses as an enabled one. *)
Theorem inert_auth_settings `{!AEAD, !ClaimsJSON} (S : Type) `{!TokenStore S} now (s : S) dm r ctx skip skipper lookup key
    req1 h1 q1 c1 en1 req2 h2 q2 c2 en2 :
  JWT now s dm (MkAuthConfig skip skipper req1 h1 q1 c1 lookup key en1) r ctx =
  JWT now s dm (MkAuthConfig skip skipper req2 h2 q2 c2 lookup key en2) r ctx.
Proof. reflexivity. Qed.
