(* ===== verification/GoPath.v ===== *)
(** * Paths of package path and path/filepath

    [Clean], [Join], [Abs], [Rel], [Ext] and [Base] on slash-separated paths, and the
    lemmas that relate them to lists of components. *)

From Stdlib Require Import Ascii.
From S2P Require Import Prelude GoString.

Open Scope list_scope.

(** ** The functions *)

(** The stack of components is kept with the last one first. *)
Definition clean_step (rooted : bool) (st : list string) (c : string) : list string :=
  if bool_decide (c = "") || bool_decide (c = ".") then st
  else if bool_decide (c = "..") then
    match st with
    | [] => if rooted then [] else [".."]
    | x :: st' => if bool_decide (x = "..") then ".." :: st else st'
    end
  else c :: st.

Definition Clean (p : string) : string :=
  if bool_decide (p = "") then "."
  else
    let rooted := HasPrefix p "/" in
    let out := GoString.Join "/" (reverse (foldl (clean_step rooted) [] (Split "/" p))) in
    if rooted then "/" +:+ out else if bool_decide (out = "") then "." else out.

(** [Join] of two elements. *)
Definition path_Join (a b : string) : string :=
  if bool_decide (a = "") then (if bool_decide (b = "") then "" else Clean b)
  else Clean (a +:+ "/" +:+ b).

(** [Abs] in the working directory [cwd]. *)
Definition Abs (cwd p : string) : string := if HasPrefix p "/" then Clean p else path_Join cwd p.

Fixpoint strip_common (b t : list string) : list string * list string :=
  match b, t with
  | x :: b', y :: t' => if decide (x = y) then strip_common b' t' else (b, t)
  | _, _ => (b, t)
  end.

(** The components of an absolute path. *)
Definition components (p : string) : list string := filter (λ c, c ≠ "") (Split "/" p).

(** [Rel] of two absolute paths that are clean. *)
Definition Rel (base targ : string) : string :=
  let '(b, t) := strip_common (components base) (components targ) in
  match (replicate (length b) ".." ++ t)%list with
  | [] => "."
  | r => GoString.Join "/" r
  end.

(** From the end to the last dot, up to a slash. *)
Fixpoint ext_rev (s acc : string) : string :=
  match s with
  | String.EmptyString => ""
  | String.String c s =>
      if decide (c = "/"%char) then ""
      else if decide (c = "."%char) then String.String c acc
      else ext_rev s (String.String c acc)
  end.

Definition Ext (p : string) : string := ext_rev (reversed p) "".

(** ** Components *)

Definition comp_ok (c : string) : Prop := c ≠ "" ∧ c ≠ "." ∧ c ≠ ".." ∧ Contains c "/" = false.

(** The absolute path of components. *)
Definition abs (cs : list string) : string := "/" +:+ GoString.Join "/" cs.

Lemma Split_parts (sep : ascii) s : Forall (λ c, Contains c (String.String sep "") = false) (Split sep s).
Proof.
  induction s as [|c s IH]; cbn [Split]; [by repeat constructor|].
  case_decide as E; [by constructor|]. pose proof (Split_not_nil sep s). destruct (Split sep s) as [|p ps]; [done|].
  apply Forall_cons in IH as [Hp Hps]. constructor; [|done].
  cbn [Contains]. apply orb_false_iff. split; [|done]. cbn. by destruct (ascii_dec sep c) as [->|].
Qed.

(** A relative path may begin with components that go up. *)
Definition stack_ok (rooted : bool) (st : list string) : Prop :=
  ∃ n cs, st = reverse (replicate n ".." ++ cs)%list ∧ Forall comp_ok cs ∧ (rooted = true → n = 0%nat).

Lemma clean_step_ok rooted st c :
  stack_ok rooted st → Contains c "/" = false → stack_ok rooted (clean_step rooted st c).
Proof.
  intros (n & cs & -> & Hcs & Hn) Hc. unfold clean_step.
  destruct (bool_decide (c = "")) eqn:E1; [by exists n, cs|]. destruct (bool_decide (c = ".")) eqn:E2; [by exists n, cs|]. simpl.
  apply bool_decide_eq_false in E1, E2.
  destruct (bool_decide (c = "..")) eqn:E3.
  - destruct cs as [|x cs' _] using rev_ind.
    + rewrite app_nil_r. destruct n as [|n].
      * destruct rooted; simpl; [by exists 0%nat, []|]. by exists 1%nat, [].
      * rewrite reverse_replicate. simpl. exists (S (S n)), []. rewrite app_nil_r, reverse_replicate. split; [done|].
        split; [constructor|]. intros H. by specialize (Hn H).
    + rewrite (assoc_L (++)), reverse_snoc. apply Forall_app in Hcs as [Hcs' Hx]. rewrite Forall_singleton in Hx. destruct Hx as (_ & _ & Hx & _).
      rewrite bool_decide_eq_false_2 by done. by exists n, cs'.
  - apply bool_decide_eq_false in E3. exists n, (cs ++ [c]). rewrite (assoc_L (++)), reverse_snoc. split; [done|].
    split; [|done]. apply Forall_app. split; [done|]. by apply Forall_singleton.
Qed.

Lemma clean_fold_ok rooted st l :
  stack_ok rooted st → Forall (λ c, Contains c "/" = false) l → stack_ok rooted (foldl (clean_step rooted) st l).
Proof.
  intros Hst Hl. revert st Hst. induction Hl as [|c l Hc _ IH]; intros st Hst; [done|]. simpl. by apply IH, clean_step_ok.
Qed.

Lemma clean_fold_comps rooted st cs :
  Forall comp_ok cs → foldl (clean_step rooted) st cs = (reverse cs ++ st)%list.
Proof.
  intros Hcs. revert st. induction Hcs as [|c cs Hc _ IH]; intros st; [done|]. simpl. rewrite IH.
  destruct Hc as (H1 & H2 & H3 & _). unfold clean_step. rewrite !bool_decide_eq_false_2 by done. simpl.
  rewrite reverse_cons. by rewrite <-(assoc_L (++)).
Qed.

Lemma Split_app_sep (sep : ascii) p s : Split sep (p +:+ String.String sep s) = (Split sep p ++ Split sep s)%list.
Proof.
  induction p as [|c p IH].
  - change ("" +:+ ?t) with t. cbn [Split]. by rewrite decide_True.
  - change (String.String c p +:+ String.String sep s) with (String.String c (p +:+ String.String sep s)).
    cbn [Split]. rewrite IH. case_decide; [done|]. pose proof (Split_not_nil sep p). by destruct (Split sep p).
Qed.

Lemma comps_no_slash cs : Forall comp_ok cs → Forall (λ c, Contains c "/" = false) cs.
Proof. intros H. eapply Forall_impl; [exact H|]. by intros c (_ & _ & _ & ?). Qed.

(** The components of an absolute path, with the empty one before the first slash. *)
Lemma Split_join_comps cs : Forall comp_ok cs → Split "/" (GoString.Join "/" cs) = match cs with [] => [""] | _ => cs end.
Proof.
  intros Hcs. destruct cs as [|c cs]; [done|]. apply (Split_Join "/"%char). by apply comps_no_slash.
Qed.

Lemma Split_abs cs : Forall comp_ok cs → Split "/" (abs cs) = "" :: match cs with [] => [""] | _ => cs end.
Proof.
  intros Hcs. unfold abs. change ("/" +:+ ?t) with (String.String "/"%char t). cbn [Split]. rewrite decide_True by done.
  by rewrite Split_join_comps.
Qed.

Lemma fold_abs st cs : Forall comp_ok cs → foldl (clean_step true) st (Split "/" (abs cs)) = (reverse cs ++ st)%list.
Proof. intros Hcs. rewrite Split_abs by done. simpl. destruct cs as [|c cs]; [done|]. by apply (clean_fold_comps true st). Qed.

Lemma rooted_abs cs : HasPrefix (abs cs) "/" = true.
Proof. apply HasPrefix_spec. by eexists. Qed.

Lemma Clean_abs cs : Forall comp_ok cs → Clean (abs cs) = abs cs.
Proof.
  intros Hcs. unfold Clean. rewrite bool_decide_eq_false_2 by done. rewrite rooted_abs, fold_abs by done.
  by rewrite app_nil_r, reverse_involutive.
Qed.

Lemma Clean_rooted p : HasPrefix p "/" = true → ∃ cs, Forall comp_ok cs ∧ Clean p = abs cs.
Proof.
  intros Hp. unfold Clean. rewrite Hp. rewrite bool_decide_eq_false_2 by (by intros ->).
  destruct (clean_fold_ok true [] (Split "/" p)) as (n & cs & -> & Hcs & Hn).
  - by exists 0%nat, [].
  - apply Split_parts.
  - rewrite Hn by done. rewrite reverse_involutive. by exists cs.
Qed.

Lemma Join_nonempty c cs : c ≠ "" → GoString.Join "/" (c :: cs) ≠ "".
Proof. destruct c as [|x c]; [done|]. by destruct cs. Qed.

(** A relative path: it may go up before it goes down. *)
Lemma Clean_relative p : HasPrefix p "/" = false → ∃ n cs, Forall comp_ok cs ∧
  Clean p = match (replicate n ".." ++ cs)%list with [] => "." | r => GoString.Join "/" r end.
Proof.
  intros Hp. unfold Clean. destruct (decide (p = "")) as [->|Hne].
  { rewrite bool_decide_eq_true_2 by done. by exists 0%nat, []. }
  rewrite bool_decide_eq_false_2 by done. rewrite Hp.
  destruct (clean_fold_ok false [] (Split "/" p)) as (n & cs & -> & Hcs & _).
  - by exists 0%nat, [].
  - apply Split_parts.
  - rewrite reverse_involutive. exists n, cs. split; [done|]. destruct (replicate n ".." ++ cs)%list as [|c r] eqn:E; [done|].
    rewrite bool_decide_eq_false_2; [done|]. apply Join_nonempty. destruct n as [|n]; simpl in E; simplify_eq; [|done].
    apply Forall_cons in Hcs as [(Hc & _) _]. done.
Qed.

(** Joining an absolute path with components, given with or without a slash. *)
Lemma Join_abs bs cs q :
  Forall comp_ok bs → Forall comp_ok cs → q = abs cs ∨ (q = GoString.Join "/" cs ∧ cs ≠ []) →
  path_Join (abs bs) q = abs (bs ++ cs)%list.
Proof.
  intros Hbs Hcs Hq. unfold path_Join. rewrite bool_decide_eq_false_2 by done.
  change ("/" +:+ q) with (String.String "/"%char q). unfold Clean.
  rewrite bool_decide_eq_false_2 by done.
  assert (Hr : HasPrefix (abs bs +:+ String.String "/"%char q) "/" = true) by (apply HasPrefix_spec; by eexists).
  rewrite Hr, Split_app_sep, foldl_app, fold_abs, app_nil_r by done.
  assert (Hf : foldl (clean_step true) (reverse bs) (Split "/" q) = (reverse cs ++ reverse bs)%list).
  { destruct Hq as [-> |[-> Hne]]; [by apply fold_abs|]. rewrite Split_join_comps by done. destruct cs as [|c cs]; [done|].
    by apply clean_fold_comps. }
  rewrite Hf, <-reverse_app, reverse_involutive. done.
Qed.

Lemma components_abs cs : Forall comp_ok cs → components (abs cs) = cs.
Proof.
  intros Hcs. unfold components. rewrite Split_abs by done. rewrite filter_cons_False by naive_solver.
  destruct cs as [|c cs]; [done|]. apply filter_all. intros x Hx. rewrite Forall_forall in Hcs. exact (proj1 (Hcs x Hx)).
Qed.

Lemma strip_common_app b t : strip_common b (b ++ t)%list = ([], t).
Proof. induction b as [|x b IH]; [by destruct t|]. simpl. by rewrite decide_True. Qed.

Lemma Rel_inside bs cs : Forall comp_ok bs → Forall comp_ok cs →
  Rel (abs bs) (abs (bs ++ cs)%list) = match cs with [] => "." | _ => GoString.Join "/" cs end.
Proof.
  intros Hbs Hcs. unfold Rel. rewrite !components_abs by (try apply Forall_app; done). rewrite strip_common_app. by destruct cs.
Qed.
