(* ===== verification/Gateway.v ===== *)
(** * The HTTP gateway: plugins/gateway

    gateway.go (routes, their targets and the lifecycle), proxy.go (the handler of
    a route, forwarding with retries, permissions and readiness), discovery.go,
    health_checker.go, middleware.go (API keys), route_utils.go and http_service.go.

    The balancer is any implementation of the interface [LoadBalancer], of which
    the adapter is one.  What net/url makes of a target, what discovery and a dial
    answer and what an upstream returns are arguments.  Tracing, metrics, logging
    and the audit are left out.  Texts that are compared with ASCII words are
    lower- and upper-cased as ASCII. *)

From Stdlib Require Import Ascii.
From stdpp Require Import pretty.
From S2P Require Import Prelude GoString GoPath LoadBalancer LoadBalancerProps Rbac Health Jwt AuthMiddleware.

Open Scope Z_scope.

(** ** Configuration *)

Record RouteConfig := MkRouteConfig {
  Path : string;
  Method : string;
  Service : string;
  Targets : list string;
  StripPrefix : bool;
  Timeout : Z;
  Retries : Z;
  Headers : gmap string string;
  QueryParams : gmap string string;
  Protocol : string;
  RequiredPermissions : list string;
  PermissionMode : string;
}.

Definition with_path (p : string) (rc : RouteConfig) : RouteConfig :=
  MkRouteConfig p (Method rc) (Service rc) (Targets rc) (StripPrefix rc) (Timeout rc) (Retries rc) (Headers rc)
    (QueryParams rc) (Protocol rc) (RequiredPermissions rc) (PermissionMode rc).

Record GatewayAuthConfig := MkAuth {
  auth_Enabled : bool;
  auth_HeaderName : string;
  auth_QueryName : string;
  auth_SkipPaths : list string;
  auth_SkipMethods : list string;
  auth_APIKeys : gmap string string;
}.

(** The fields of [Config] that the modelled code reads. *)
Record GConfig := MkGConfig {
  Routes : list RouteConfig;
  DiscoveryEnabled : bool;
  DiscoveryType : string;
  DiscoveryEndpoints : list string;
  BusinessPaths : list string;
  Auth : GatewayAuthConfig;
}.

(** ** Routes *)

Definition upper_ascii (c : ascii) : ascii :=
  let n := nat_of_ascii c in if ((97 <=? n) && (n <=? 122))%nat then ascii_of_nat (n - 32) else c.

Fixpoint map_string (f : ascii → ascii) (s : string) : string :=
  match s with
  | String.EmptyString => ""
  | String.String c s => String.String (f c) (map_string f s)
  end.

Definition ToUpper : string → string := map_string upper_ascii.
Definition ToLower : string → string := map_string lower_ascii.

Definition normalizeGinRoutePath (p : string) : string :=
  let p := TrimSpace p in
  if bool_decide (p = "") then p
  else if HasSuffix p "/*" then p +:+ "path"
  else p.

Definition routeKey (path method : string) : string :=
  let method := ToUpper (TrimSpace method) in
  let method := if bool_decide (method = "") then "*" else method in
  let method := if bool_decide (method = "ANY") then "*" else method in
  method +:+ ":" +:+ path.

Record Route := MkRoute {
  config : RouteConfig;
  targets : list string;
  healthyTargets : list string;
  lastHealthCheck : Z;
  timeout : Z;
  retries : Z;
}.

Definition new_route (rc : RouteConfig) (ts : list string) : Route :=
  MkRoute rc ts [] 0 (Timeout rc) (Retries rc).

Definition set_targets (ts healthy : list string) (r : Route) : Route :=
  MkRoute (config r) ts healthy (lastHealthCheck r) (timeout r) (retries r).

(** The interface [LoadBalancer] of the gateway; the draw and the time are those
    of the call. *)
Class Balancer (B : Type) := {
  Bal_Select : Z → Z → list string → B → outcome (result string) * B;
  Bal_UpdateTargets : Z → list string → B → B;
}.

(** A usable balancer selects one of the targets it is given. *)
Class BalancerLaws (B : Type) `{!Balancer B} := {
  usable : B → Prop;
  Select_member draw now ts b : usable b → ts ≠ [] → Z.of_nat (length ts) < 2 ^ 63 →
    (∃ t, (Bal_Select draw now ts b).1 = Ret (Ok t) ∧ t ∈ ts) ∧ usable (Bal_Select draw now ts b).2;
  Update_usable now ts b : usable b → Z.of_nat (length ts) < 2 ^ 63 → usable (Bal_UpdateTargets now ts b);
}.

(** The adapter with the store of its targets. *)
#[export] Instance Adapter_Balancer : Balancer (heap * LoadBalancerAdapter AnyLoadBalancer) := {
  Bal_Select draw now ts b := let '(h, a, r) := Adapter_Select ts draw now b.1 b.2 in (r, (h, a));
  Bal_UpdateTargets now ts b := Adapter_UpdateTargets ts now b.1 b.2;
}.

Record Gateway (B : Type) := MkGateway {
  cfg : GConfig;
  routes : gmap string Route;
  balancer : B;
  dynamic : bool;                       (** [discovery.discovery != nil] *)
  health : option HealthManager;
  rbacPolicy : option Policy;
  auth : option GatewayAuthConfig;
  started : bool;
  cancelled : bool;                     (** [ctx] is done *)
}.
Arguments MkGateway {B}.
Arguments cfg {B}.
Arguments routes {B}.
Arguments balancer {B}.
Arguments dynamic {B}.
Arguments health {B}.
Arguments rbacPolicy {B}.
Arguments auth {B}.
Arguments started {B}.
Arguments cancelled {B}.

Definition set_router {B} (rs : gmap string Route) (b : B) (g : Gateway B) : Gateway B :=
  MkGateway (cfg g) rs b (dynamic g) (health g) (rbacPolicy g) (auth g) (started g) (cancelled g).

(** [NewServiceDiscovery] makes a client only for an enabled backend with an
    address; [opened] is the answer of its factory. *)
Definition NewServiceDiscovery (c : GConfig) (opened : option GoError.error) : result bool :=
  if negb (DiscoveryEnabled c) then Ok false
  else if bool_decide (DiscoveryType c = "static") || bool_decide (DiscoveryEndpoints c = []) then Ok false
  else
    match opened with
    | Some e => Err (GoError.ErrorfW "failed to create discovery: %w" [] e)
    | None => Ok true
    end.

(** An instance as discovery reports it: its address and port. *)
Definition endpoint (i : string * Z) : string := "http://" +:+ i.1 +:+ ":" +:+ pretty i.2.

Definition answers : Type := string → result (list (string * Z)).

Definition GetServiceEndpoints (dyn : bool) (answer : answers) (service : string) : result (list string) :=
  if negb dyn then Err (GoError.Errorf "static discovery should use route targets directly: %s" [service])
  else
    match answer service with
    | Err e => Err (GoError.ErrorfW "failed to get service %s: %w" [service] e)
    | Ok instances =>
        match endpoint <$> instances with
        | [] => Err (GoError.Errorf "no instances found for service: %s" [service])
        | endpoints => Ok endpoints
        end
    end.

Section Gateway.
Context {B : Type} `{!Balancer B}.

Definition add_route (now : Z) (acc : gmap string Route * B) (rc : RouteConfig) : gmap string Route * B :=
  let rc := with_path (normalizeGinRoutePath (Path rc)) rc in
  let r := new_route rc (Targets rc) in
  (<[routeKey (Path rc) (Method rc) := r]> acc.1,
   match Targets rc with [] => acc.2 | _ => Bal_UpdateTargets now (Targets rc) acc.2 end).

(** [NewGateway]; [policy] is the policy made of the configured bindings, and the
    balancer that of the configured strategy. *)
Definition NewGateway (now : Z) (c : GConfig) (b : B) (policy : option Policy) : Gateway B :=
  let '(rs, b) := foldl (add_route now) (∅, b) (Routes c) in
  MkGateway c rs b false None policy None false false.

(** The targets that [initRoutes] gives to a route. *)
Definition init_targets (enabled dyn : bool) (answer : answers) (rc : RouteConfig) : list string :=
  if enabled then
    match GetServiceEndpoints dyn answer (Service rc) with
    | Err _ => Targets rc
    | Ok [] => Targets rc
    | Ok endpoints => endpoints
    end
  else Targets rc.

Definition init_route (enabled dyn : bool) (answer : answers) (rs : gmap string Route) (rc : RouteConfig) :
    gmap string Route :=
  let rc := with_path (normalizeGinRoutePath (Path rc)) rc in
  <[routeKey (Path rc) (Method rc) := new_route rc (init_targets enabled dyn answer rc)]> rs.

Definition initRoutes (answer : answers) (g : Gateway B) : Gateway B :=
  set_router (foldl (init_route (DiscoveryEnabled (cfg g)) (dynamic g) answer) (routes g) (Routes (cfg g))) (balancer g) g.

(** The health manager with the checker of the upstreams and its configuration. *)
Definition initHealth (checker : HealthChecker) : HealthManager :=
  let c := DefaultHealthCheckConfig in
  RegisterChecker checker
    (MkCheckConfig (cc_Name c) (Type_ c) (Target c) (2 * GoTime.Second) (Interval c) (FailureThreshold c)
       (SuccessThreshold c) true (Critical c) (Options c)) NewHealthManager.

(** [Initialize]: discovery, routes, the health manager with the checker of the
    upstreams, the authentication. *)
Definition Initialize (opened : option GoError.error) (answer : answers) (checker : HealthChecker) (g : Gateway B) :
    option GoError.error * Gateway B :=
  match NewServiceDiscovery (cfg g) opened with
  | Err e => (Some (GoError.ErrorfW "failed to create service discovery: %w" [] e), g)
  | Ok dyn =>
      let g := MkGateway (cfg g) (routes g) (balancer g) dyn (health g) (rbacPolicy g) (auth g) (started g) (cancelled g) in
      let g := initRoutes answer g in
      (None, MkGateway (cfg g) (routes g) (balancer g) (dynamic g)
               (Some (initHealth checker))
               (rbacPolicy g) (Some (Auth (cfg g))) (started g) (cancelled g))
  end.

(** One route of [refreshServices], with the balancer. *)
Definition refresh_route (now : Z) (dyn : bool) (answer : answers) (r : Route) (b : B) : Route * B :=
  match GetServiceEndpoints dyn answer (Service (config r)) with
  | Err _ =>
      (match Targets (config r) with [] => r | ts => set_targets ts (healthyTargets r) r end, b)
  | Ok endpoints =>
      let ts :=
        match endpoints, Targets (config r) with
        | [], _ :: _ => Targets (config r)
        | _, _ => endpoints
        end in
      (set_targets ts [] r, Bal_UpdateTargets now ts b)
  end.

(** [order] is the enumeration of the map of routes. *)
Definition refreshServices (now : Z) (order : list string) (answer : answers) (g : Gateway B) : Gateway B :=
  if negb (DiscoveryEnabled (cfg g)) then g
  else
    let '(rs, b) :=
      foldl (λ acc key,
               match acc.1 !! key with
               | Some r => let '(r, b) := refresh_route now (dynamic g) answer r acc.2 in (<[key := r]> acc.1, b)
               | None => acc
               end) (routes g, balancer g) order in
    set_router rs b g.

(** ** Health of the upstreams *)

(** What net/url makes of a target: host and path, or the text of an error. *)
Context (parse : string → (string * string) + string).

(** [dial host] succeeds. *)
Definition reachable (dial : string → bool) (t : string) : bool :=
  match parse t with
  | inr _ => false
  | inl (host, _) => if bool_decide (host = "") then false else dial host
  end.

Definition check_route (now : Z) (dial : string → bool) (r : Route) : Route :=
  MkRoute (config r) (targets r) (List.filter (reachable dial) (targets r)) now (timeout r) (retries r).

Definition healthy_routes (rs : gmap string Route) : nat :=
  length (List.filter (λ kr, match healthyTargets kr.2 with [] => false | _ => true end) (map_to_list rs)).

(** [upstreamHealthChecker.Check]: the new routes, the status and the message. *)
Definition Check (now : Z) (dial : string → bool) (g : Gateway B) : Gateway B * HealthStatus * string :=
  let rs := check_route now dial <$> routes g in
  let '(status, msg) :=
    if bool_decide (size rs = 0%nat) then (StatusDegraded, "no routes configured")
    else if bool_decide (healthy_routes rs = 0%nat) then (StatusUnhealthy, "no healthy upstream")
    else (StatusHealthy, "ok") in
  (set_router rs (balancer g) g, status, msg).

(** The status of [readinessCheck], with its reason. *)
Definition readinessCheck (g : Gateway B) : Z * string :=
  if negb (started g) then (503, "gateway not started")
  else if bool_decide (size (routes g) = 0%nat) then (503, "no routes configured")
  else if bool_decide (healthy_routes (routes g) = 0%nat) then (503, "no healthy upstream")
  else (200, "ready").

(** ** Lifecycle *)

Definition ErrGatewayAlreadyStarted : GoError.error := GoError.Sentinel "gateway.ErrGatewayAlreadyStarted".
Definition ErrGatewayNotStarted : GoError.error := GoError.Sentinel "gateway.ErrGatewayNotStarted".

Definition set_life (h : option HealthManager) (st ca : bool) (g : Gateway B) : Gateway B :=
  MkGateway (cfg g) (routes g) (balancer g) (dynamic g) h (rbacPolicy g) (auth g) st ca.

(** [Start]; the two background loops run while the context is not cancelled. *)
Definition StartGateway (g : Gateway B) : option GoError.error * Gateway B :=
  if started g then (Some ErrGatewayAlreadyStarted, g)
  else (None, set_life (Health.Start <$> health g) true (cancelled g) g).

Definition loops_running (g : Gateway B) : bool := started g && negb (cancelled g).

Definition StopGateway (g : Gateway B) : outcome (option GoError.error * Gateway B) :=
  if negb (started g) then Ret (Some ErrGatewayNotStarted, g)
  else
    match health g with
    | None => Ret (None, set_life None false true g)
    | Some hm =>
        let! hm := Health.Stop hm in
        Ret (None, set_life (Some hm) false true g)
    end.

Definition SetRBACPolicy (p : option Policy) (g : Gateway B) : Gateway B :=
  MkGateway (cfg g) (routes g) (balancer g) (dynamic g) (health g) p (auth g) (started g) (cancelled g).

(** ** Forwarding *)

Abbreviation header := (gmap string (list string)).

(** [http.CanonicalHeaderKey]. *)
Fixpoint canonical (up : bool) (s : string) : string :=
  match s with
  | String.EmptyString => ""
  | String.String c s => String.String (if up then upper_ascii c else lower_ascii c) (canonical (bool_decide (c = "-"%char)) s)
  end.

Definition token_char (c : ascii) : bool :=
  let n := byte_of c in
  within 48 57 n || within 65 90 n || within 97 122 n ||
  existsb (Z.eqb n) [33; 35; 36; 37; 38; 39; 42; 43; 45; 46; 94; 95; 96; 124; 126].

Definition CanonicalHeaderKey (s : string) : string :=
  if forallb token_char (String.list_ascii_of_string s) then canonical true s else s.

Definition header_Set (k v : string) (h : header) : header := <[CanonicalHeaderKey k := [v]]> h.

Definition header_Get (k : string) (h : header) : string :=
  match h !! CanonicalHeaderKey k with Some (v :: _) => v | _ => "" end.

(** The keys of the source are canonical, as the server makes them. *)
Definition copyHeaders (src dst : header) : header :=
  map_fold (λ k vs d, foldl (λ d v, <[k := default [] (d !! k) ++ [v]]> d) d vs) dst src.

Record http_request := MkHttp {
  rq_Method : string;
  rq_Path : string;
  rq_RawQuery : string;
  rq_Header : header;
  rq_Body : option (string + string);    (** what reading the body gives: bytes or the text of an error *)
  rq_ClientIP : string;
  rq_TLS : bool;
}.

(** The response of an upstream; [resp_CopyErr] is the text of the error that ends
    the copying of its body, of which [resp_Body] is then what was copied. *)
Record response := MkResponse {
  resp_Status : Z;
  resp_Header : header;
  resp_Body : string;
  resp_CopyErr : option string;
}.

(** A request to an upstream: the target, the path and query put into its URL,
    and the rest of the request; no body when a streamed one was consumed. *)
Record upstream := MkUpstream {
  up_Target : string;
  up_Path : string;
  up_Query : string;
  up_Method : string;
  up_Header : header;
  up_Body : option string;
}.

Definition stream_types : list string :=
  ["multipart/form-data"; "application/octet-stream"; "application/pdf"; "image/"; "video/"; "audio/"].

Definition shouldStreamBody (paths : list string) (rq : http_request) : bool :=
  match rq_Body rq with
  | None => false
  | Some _ =>
      existsb (λ prefix, negb (bool_decide (prefix = "")) && HasPrefix (rq_Path rq) prefix) paths ||
      (let contentType := header_Get "Content-Type" (rq_Header rq) in
       negb (bool_decide (contentType = "")) && existsb (HasPrefix (ToLower contentType)) stream_types)
  end.

(** The query after the parameters of a route were set, by net/url. *)
Context (set_query : gmap string string → string → string).

(** [http.NewRequestWithContext] of a method and a URL, here the target with the
    path and the query put into it: the text of its error if it refuses them. *)
Context (new_request : string → string → string → string → option string).

Definition proxy_headers (rc : RouteConfig) (rq : http_request) : header :=
  let h := copyHeaders (rq_Header rq) ∅ in
  let h := foldl (λ h kv, header_Set kv.1 kv.2 h) h (map_to_list (Headers rc)) in
  let h := header_Set "X-Gateway-Request-ID" (header_Get "X-Request-ID" (rq_Header rq)) h in
  let h := header_Set "X-Forwarded-For" (rq_ClientIP rq) h in
  header_Set "X-Forwarded-Proto" (if rq_TLS rq then "https" else "http") h.

Definition proxy_path (rc : RouteConfig) (rq : http_request) : string :=
  if StripPrefix rc then TrimPrefix (rq_Path rq) (Path rc) else rq_Path rq.

Definition upstream_request (target base : string) (rc : RouteConfig) (rq : http_request) (body : option string) : upstream :=
  MkUpstream target (path_Join base (proxy_path rc rq))
    (if bool_decide (QueryParams rc = ∅) then rq_RawQuery rq else set_query (QueryParams rc) (rq_RawQuery rq))
    (rq_Method rq) (proxy_headers rc rq) body.

(** The retry loop: [answer i] is the response to the attempt [i] or the text of
    its error. *)
Fixpoint attempts (n i : nat) (mk : nat → upstream) (answer : nat → response + string) (lastErr : string) :
    list upstream * (response + string) :=
  match n with
  | O => ([], inr lastErr)
  | S n =>
      match answer i with
      | inl resp => ([mk i], inl resp)
      | inr e => let '(sent, r) := attempts n (S i) mk answer e in (mk i :: sent, r)
      end
  end.

Definition maxRetries (r : Route) : Z := if retries r <=? 0 then 1 else retries r.

(** The body of the attempt [i]: a streamed one is consumed by the first attempt. *)
Definition sent_body (stream : bool) (rq : http_request) (i : nat) : option string :=
  match rq_Body rq with
  | None => Some ""
  | Some (inl b) => if stream && negb (i =? 0)%nat then None else Some b
  | Some (inr _) => None
  end.

(** How proxying ends: with an error before a response, with a response that was
    copied to the client, or with an error in the middle of copying it. *)
Inductive proxied := Failed (text : string) | Copied (resp : response) | CutOff (resp : response) (text : string).

(** What is sent, and how it ends.  The method and the URL of the attempts are the
    same, so that [new_request] refuses the first one or none. *)
Definition proxyRequest (paths : list string) (answer : nat → response + string) (target : string) (r : Route)
    (rq : http_request) : list upstream * proxied :=
  match parse target with
  | inr e => ([], Failed ("invalid target URL: " +:+ e))
  | inl (_, base) =>
      let stream := shouldStreamBody paths rq in
      match stream, rq_Body rq with
      | false, Some (inr e) => ([], Failed ("failed to read request body: " +:+ e))
      | _, _ =>
          match new_request (rq_Method rq) target (path_Join base (proxy_path (config r) rq)) (rq_RawQuery rq) with
          | Some e => ([], Failed ("failed to create proxy request: " +:+ e))
          | None =>
              let '(sent, res) :=
                attempts (Z.to_nat (maxRetries r)) 0
                  (λ i, upstream_request target base (config r) rq (sent_body stream rq i)) answer "" in
              (sent,
               match res with
               | inr e =>
                   Failed ("failed to execute proxy request after " +:+ pretty (maxRetries r) +:+ " retries: " +:+ e)
               | inl resp =>
                   match resp_CopyErr resp with
                   | Some e => CutOff resp ("failed to copy response body: " +:+ e)
                   | None => Copied resp
                   end
               end)
          end
      end
  end.

Definition IsTimeout (text : string) : bool := Contains text "timeout" || Contains text "deadline exceeded".
Definition IsTooManyRetries (text : string) : bool := Contains text "too many retries".

(** What the client gets: a response, an error of the gateway, or a response whose
    copying broke off, followed by the error of the gateway. *)
Inductive reply :=
| Answer (resp : response)
| Refuse (status : Z) (msg : string)
| Broken (resp : response) (status : Z) (msg : string).

Definition handleProxyError (text : string) : Z * string :=
  if IsTimeout text then (504, "Gateway timeout")
  else if IsTooManyRetries text then (502, "Service temporarily unavailable")
  else (500, "Internal server error").

Definition reply_of (p : proxied) : reply :=
  match p with
  | Copied resp => Answer resp
  | Failed text => let '(status, msg) := handleProxyError text in Refuse status msg
  | CutOff resp text => let '(status, msg) := handleProxyError text in Broken resp status msg
  end.

Definition find_route (g : Gateway B) (path method : string) : option Route :=
  match routes g !! routeKey path method with
  | Some r => Some r
  | None => routes g !! routeKey path "*"
  end.

Definition select_targets (r : Route) : list string :=
  match healthyTargets r with [] => targets r | healthy => healthy end.

Definition set_balancer (b : B) (g : Gateway B) : Gateway B := set_router (routes g) b g.

(** [handleRoute]: the reply, what is sent upstream, and the gateway. *)
Definition handleRoute (draw now : Z) (answer : nat → response + string) (rc : RouteConfig) (rq : http_request)
    (g : Gateway B) : outcome (reply * list upstream) * Gateway B :=
  match find_route g (normalizeGinRoutePath (Path rc)) (rq_Method rq) with
  | None => (Ret (Refuse 404 "Route not found", []), g)
  | Some r =>
      let '(sel, b) := Bal_Select draw now (select_targets r) (balancer g) in
      let g := set_balancer b g in
      (match sel with
       | Panic m a => Panic m a
       | Ret (Err _) => Ret (Refuse 503 "Service unavailable", [])
       | Ret (Ok target) =>
           let '(sent, res) := proxyRequest (BusinessPaths (cfg g)) answer target r rq in
           Ret (reply_of res, sent)
       end, g)
  end.

(** ** Who may call a route *)

Definition isGRPCRoute (path : string) : bool :=
  existsb (HasPrefix path) ["/grpc/"; "/api/grpc/"; "/v1/"; "/v2/"] || Contains path "grpc".

Definition isJSONRPCRoute (path method : string) : bool :=
  existsb (HasPrefix path) ["/rpc/"; "/api/rpc/"; "/jsonrpc/"; "/api/jsonrpc/"] && bool_decide (method = "POST").

(** [protocol] is the value under that key of the context. *)
Definition isRPCRoute (protocol : option value) (path method : string) : bool :=
  match protocol with
  | Some (VString p) => bool_decide (p = "grpc") || bool_decide (p = "jsonrpc")
  | _ => isGRPCRoute path || isJSONRPCRoute path method
  end.

Definition IsRPCRoutePublic (path method protocol : string) : bool :=
  bool_decide (protocol = "grpc") || bool_decide (protocol = "jsonrpc") || isGRPCRoute path || isJSONRPCRoute path method.

Definition matchPath (path pattern : string) : bool :=
  if bool_decide (pattern = path) then true
  else if HasSuffix pattern "/*" then HasPrefix path (TrimSuffix pattern "/*")
  else false.

Definition shouldSkipPath (c : GatewayAuthConfig) (path : string) : bool := existsb (matchPath path) (auth_SkipPaths c).
Definition shouldSkipMethod (c : GatewayAuthConfig) (method : string) : bool := existsb (EqualFold method) (auth_SkipMethods c).

Definition extractGatewayKey (c : GatewayAuthConfig) (r : request) : option string :=
  let k := GetHeader r (auth_HeaderName c) in
  if negb (bool_decide (k = "")) then Some k
  else let q := Query r (auth_QueryName c) in if negb (bool_decide (q = "")) then Some q else None.

Definition gateway_validateAPIKey (c : GatewayAuthConfig) (key : string) : bool :=
  existsb (λ valid, bool_decide (key = valid)) (map_to_list (auth_APIKeys c)).*1.

Definition Execute (c : GatewayAuthConfig) (method : string) (r : request) (ctx : context) : context + (Z * string) :=
  if negb (auth_Enabled c) then inl ctx
  else if negb (isRPCRoute (ctx !! "protocol") (AuthMiddleware.Path r) method) then inl ctx
  else if shouldSkipPath c (AuthMiddleware.Path r) then inl ctx
  else if shouldSkipMethod c method then inl ctx
  else
    match extractGatewayKey c r with
    | None => inr (401, "API key required")
    | Some k =>
        if negb (gateway_validateAPIKey c k) then inr (401, "Invalid API key")
        else inl (<["authenticated" := VOther]> (<["api_user" := VString (default "" (auth_APIKeys c !! k))]>
                    (<["api_key" := VString k]> ctx)))
    end.

Definition role_list (claims : Claims) : list string :=
  TrimSpace <$> Split "," (TrimSpace (default "" (Payload claims !! "roles"))).

(** [None] when the request may go on, else the answer. *)
Definition checkRoutePermission (policy : option Policy) (ctx : context) (rc : RouteConfig) : outcome (option (Z * string)) :=
  if bool_decide (RequiredPermissions rc = []) then Ret None
  else
    match policy with
    | None => Ret (Some (403, "RBAC policy is not configured"))
    | Some policy =>
        let! claims := GetClaims ctx in
        match claims with
        | None => Ret (Some (401, "Authentication required"))
        | Some claims =>
            let mode := ToLower (TrimSpace (PermissionMode rc)) in
            let mode := if bool_decide (mode = "") then "any" else mode in
            let allowed :=
              if bool_decide (mode = "all") then HasAllPermissions policy (role_list claims) (RequiredPermissions rc)
              else HasAnyPermission policy (role_list claims) (RequiredPermissions rc) in
            Ret (if allowed then None else Some (403, "Insufficient permissions"))
        end
    end.

(** What the gateway does with a request that matches the route [rc]: the
    authentication runs before the handler of the route, which checks the
    permissions, records the protocol and forwards.  An RPC protocol forwards to
    the targets of the configuration. *)
Inductive forwarded :=
| Rejected (status : Z) (msg : string)
| ToHTTP (ctx : context)
| ToRPC (protocol : string) (targets : list string).

Definition serve (c : GatewayAuthConfig) (policy : option Policy) (rc : RouteConfig) (method : string) (r : request)
    (ctx : context) : outcome forwarded :=
  let authd := if auth_Enabled c then Execute c method r ctx else inl ctx in
  match authd with
  | inr (status, msg) => Ret (Rejected status msg)
  | inl ctx =>
      let! refused := checkRoutePermission policy ctx rc in
      match refused with
      | Some (status, msg) => Ret (Rejected status msg)
      | None =>
          if bool_decide (Protocol rc = "grpc") || bool_decide (Protocol rc = "jsonrpc")
          then Ret (ToRPC (Protocol rc) (Targets rc))
          else Ret (ToHTTP (<["service" := VString (Service rc)]> (<["protocol" := VString (Protocol rc)]> ctx)))
      end
  end.

End Gateway.

(** ** Keys and the HTTP service *)

Definition with_api_keys (keys : gmap string string) (c : GatewayAuthConfig) : GatewayAuthConfig :=
  MkAuth (auth_Enabled c) (auth_HeaderName c) (auth_QueryName c) (auth_SkipPaths c) (auth_SkipMethods c) keys.

Definition GatewayAuth_AddAPIKey (key description : string) (c : GatewayAuthConfig) : GatewayAuthConfig :=
  with_api_keys (<[key := description]> (auth_APIKeys c)) c.

Definition GatewayAuth_RemoveAPIKey (key : string) (c : GatewayAuthConfig) : GatewayAuthConfig :=
  with_api_keys (delete key (auth_APIKeys c)) c.

Definition GatewayAuth_HasAPIKey (key : string) (c : GatewayAuthConfig) : bool :=
  match auth_APIKeys c !! key with Some _ => true | None => false end.

Section Service.
Context {R A : Type}.

(** An [http.Handler] by what it answers; a middleware may be nil. *)
Definition buildHandler (gatewayHandler : R → A) (biz : option (R → A)) (isBiz : option (string → bool)) (path : R → string) : R → A :=
  match biz, isBiz with
  | Some biz, Some isBiz => λ r, if isBiz (path r) then biz r else gatewayHandler r
  | _, _ => gatewayHandler
  end.

Definition chainMiddlewares (h : R → A) (mws : list (option ((R → A) → R → A))) : R → A :=
  foldr (λ mw h, match mw with Some mw => mw h | None => h end) h mws.

End Service.
