(* ===== verification/GatewayProps.v ===== *)
(** * Properties of the gateway

    The adapter obeys the laws of the balancer; where requests are forwarded and
    what is answered; which targets a route may have; who may call a route; and
    what the gateway does not do. *)

From Stdlib Require Import Ascii.
From stdpp Require Import pretty.
From S2P Require Import Prelude GoString GoPath LoadBalancer LoadBalancerProps Rbac Health Jwt JwtProps AuthMiddleware Gateway.

Open Scope Z_scope.

(** ** The adapter as a balancer *)

#[export] Instance Adapter_BalancerLaws : BalancerLaws (heap * LoadBalancerAdapter AnyLoadBalancer).
Proof.
  refine {| usable b := closed (base (adapter_lb b.2)) = false ∧ Z.of_nat (length (adapter_targets b.2)) < 2 ^ 63 |}.
  - intros draw now ts [h a] [Hcl Hlen] Hne Hts. unfold Bal_Select, Adapter_Balancer. cbn [fst snd] in *.
    pose proof (adapter_select_sound ts draw now h a Hcl Hts Hlen) as H. rewrite decide_False in H by done.
    destruct (Adapter_Select ts draw now h a) as [[h' a'] r]. destruct H as (Ha & Hc & H).
    rewrite decide_False in H by done. cbn [fst snd]. rewrite Ha. auto.
  - intros now ts [h a] [Hcl Hlen] Hts. unfold Bal_UpdateTargets, Adapter_Balancer. cbn [fst snd] in *.
    destruct (decide (ts = [])) as [->|Hne].
    { unfold Adapter_UpdateTargets. by rewrite decide_True. }
    destruct (Adapter_UpdateTargets_open ts now h a Hne Hcl) as [? Ht]. by rewrite Ht.
Defined.

(** ** Forwarding *)

Lemma attempts_spec n i mk answer e0 sent res :
  attempts n i mk answer e0 = (sent, res) →
  sent = mk <$> seq i (length sent) ∧
  match res with
  | inl resp => ∃ k, length sent = S k ∧ (k < n)%nat ∧ answer (i + k)%nat = inl resp ∧
                  ∀ j, (j < k)%nat → ∃ e, answer (i + j)%nat = inr e
  | inr _ => length sent = n ∧ ∀ j, (j < n)%nat → ∃ e, answer (i + j)%nat = inr e
  end.
Proof.
  revert i e0 sent res. induction n as [|n IH]; intros i e0 sent res; cbn.
  { intros [= <- <-]. cbn. split; [done|]. split; [done|]. lia. }
  destruct (answer i) as [resp|e] eqn:Ha.
  - intros [= <- <-]. cbn. split; [done|]. exists 0%nat. rewrite Nat.add_0_r.
    split; [done|]. split; [lia|]. split; [done|lia].
  - destruct (attempts n (S i) mk answer e) as [sent' res'] eqn:Hr. intros [= <- <-].
    apply IH in Hr as [Hs Hr]. cbn. split; [by f_equal|].
    assert (∀ m, (∀ j, (j < m)%nat → ∃ e, answer (S i + j)%nat = inr e) →
      ∀ j, (j < S m)%nat → ∃ e, answer (i + j)%nat = inr e) as Hshift.
    { intros m Hm [|j] Hj; [rewrite Nat.add_0_r; eauto|]. replace (i + S j)%nat with (S i + j)%nat by lia. apply Hm. lia. }
    destruct res' as [resp|e'].
    + destruct Hr as (k & Hl & Hk & Hans & Hj). exists (S k). rewrite Hl.
      replace (i + S k)%nat with (S i + k)%nat by lia. split; [done|]. split; [lia|].
      split; [done|]. by apply Hshift.
    + destruct Hr as [Hl Hj]. rewrite Hl. split; [done|]. by apply Hshift.
Qed.

(** ** The headers of a forwarded request *)

Abbreviation header := (gmap string (list string)).

Lemma add_values_lookup (k k' : string) (vs : list string) : ∀ d : header,
  foldl (λ d v, <[k := default [] (d !! k) ++ [v]]> d) d vs !! k' =
  match vs with [] => d !! k' | _ => if decide (k = k') then Some (default [] (d !! k) ++ vs) else d !! k' end.
Proof.
  induction vs as [|v vs IH]; intros d; [done|]. cbn [foldl]. rewrite IH. destruct vs as [|v' vs].
  - destruct (decide (k = k')) as [->|]; [by rewrite lookup_insert_eq|by rewrite lookup_insert_ne].
  - destruct (decide (k = k')) as [->|]; [|by rewrite lookup_insert_ne].
    rewrite lookup_insert_eq. cbn. f_equal. by rewrite <-(app_assoc (default [] (d !! k'))).
Qed.

Lemma copyHeaders_lookup (src : header) k v vs :
  src !! k = Some (v :: vs) → copyHeaders src ∅ !! k = Some (v :: vs).
Proof.
  assert (∀ k', copyHeaders src ∅ !! k' = match src !! k' with Some [] | None => None | Some l => Some l end) as H.
  { unfold copyHeaders.
    apply (map_fold_weak_ind (λ d m, ∀ k', d !! k' = match m !! k' with Some [] | None => None | Some l => Some l end)).
    { intros k'. by rewrite !lookup_empty. }
    intros k1 l m d Hm IH k'. rewrite add_values_lookup.
    destruct (decide (k1 = k')) as [->|Hne].
    - rewrite lookup_insert_eq. rewrite IH, Hm. by destruct l.
    - rewrite lookup_insert_ne by done. rewrite IH. by destruct l. }
  intros Hk. by rewrite H, Hk.
Qed.

Lemma header_Set_other k k' v (h : header) : CanonicalHeaderKey k ≠ k' → header_Set k v h !! k' = h !! k'.
Proof. intros H. unfold header_Set. by rewrite lookup_insert_ne. Qed.

(** A header of the client that neither the route nor the gateway sets. *)
Definition untouched (rc : RouteConfig) (k : string) : Prop :=
  k ∉ ["X-Gateway-Request-Id"; "X-Forwarded-For"; "X-Forwarded-Proto"] ∧
  ∀ k', is_Some (Headers rc !! k') → CanonicalHeaderKey k' ≠ k.

Lemma route_headers_other k (kvs : list (string * string)) : (∀ kv, kv ∈ kvs → CanonicalHeaderKey kv.1 ≠ k) → ∀ h : header,
  foldl (λ h kv, header_Set kv.1 kv.2 h) h kvs !! k = h !! k.
Proof.
  induction kvs as [|kv kvs IH]; intros H h; [done|]. cbn [foldl]. rewrite IH.
  - apply header_Set_other, H. by left.
  - intros kv' ?. apply H. by right.
Qed.

Lemma proxy_headers_untouched rc rq k v vs :
  rq_Header rq !! k = Some (v :: vs) → untouched rc k → proxy_headers rc rq !! k = Some (v :: vs).
Proof.
  intros Hk [Hg Hr]. unfold proxy_headers.
  change (λ h kv, header_Set kv.1 kv.2 h) with (λ (h : header) (kv : string * string), header_Set kv.1 kv.2 h).
  rewrite !header_Set_other.
  - rewrite route_headers_other; [by apply copyHeaders_lookup|].
    intros [k' v'] Hin%elem_of_map_to_list. apply Hr. by eexists.
  - intros <-. apply Hg. by left.
  - intros <-. apply Hg. right. by left.
  - intros <-. apply Hg. do 2 right. by left.
Qed.

Section Forwarding.
Context {B : Type} `{!Balancer B, !BalancerLaws B}.
Context (parse : string → (string * string) + string) (set_query : gmap string string → string → string).
Context (new_request : string → string → string → string → option string).

Abbreviation handle := (handleRoute parse set_query new_request).

(** The path of the client, without the prefix that the route strips. *)
Definition forwarded_path (rc : RouteConfig) (rq : http_request) : string :=
  if StripPrefix rc then TrimPrefix (rq_Path rq) (Path rc) else rq_Path rq.

(** A request to an upstream carries the method and the headers of the client and
    its address, goes to the path that is made of the target's and the client's,
    and has the query of the client unless the route sets parameters. *)
Definition faithful (target base : string) (rc : RouteConfig) (rq : http_request) (u : upstream) : Prop :=
  up_Target u = target ∧ up_Method u = rq_Method rq ∧ up_Path u = path_Join base (forwarded_path rc rq) ∧
  (QueryParams rc = ∅ → up_Query u = rq_RawQuery rq) ∧
  up_Header u !! "X-Forwarded-For" = Some [rq_ClientIP rq] ∧
  (∀ k v vs, rq_Header rq !! k = Some (v :: vs) → untouched rc k → up_Header u !! k = Some (v :: vs)).

(** What keeps a request from being sent at all: the target cannot be parsed, the
    body cannot be read into memory, or no request can be made of it. *)
Definition unsendable (paths : list string) (target : string) (rc : RouteConfig) (rq : http_request) : Prop :=
  (∃ e, parse target = inr e) ∨ (shouldStreamBody paths rq = false ∧ ∃ e, rq_Body rq = Some (inr e)) ∨
  ∃ host base e, parse target = inl (host, base) ∧
    new_request (rq_Method rq) target (path_Join base (forwarded_path rc rq)) (rq_RawQuery rq) = Some e.

(** The response [resp] is the answer to the last request that was sent; those
    before it failed. *)
Definition first_response (answer : nat → response + string) (sent : list upstream) (resp : response) : Prop :=
  ∃ k, length sent = S k ∧ answer k = inl resp ∧ ∀ j, (j < k)%nat → ∃ e, answer j = inr e.

(** Nothing could be sent, or every attempt failed. *)
Definition no_response (answer : nat → response + string) (r : Route) (sent : list upstream) : Prop :=
  sent = [] ∨ (Z.of_nat (length sent) = Z.max 1 (retries r) ∧ ∀ j, (j < length sent)%nat → ∃ e, answer j = inr e).

(** The body of the client is in the first request, and in all when it is not
    streamed. *)
Definition carry_body (paths : list string) (rq : http_request) (sent : list upstream) : Prop :=
  ∀ b, rq_Body rq = Some (inl b) →
    (∀ u, head sent = Some u → up_Body u = Some b) ∧
    (shouldStreamBody paths rq = false → Forall (λ u, up_Body u = Some b) sent).

Lemma upstream_request_faithful target base rc rq body :
  faithful target base rc rq (upstream_request set_query target base rc rq body).
Proof.
  split; [done|]. split; [done|]. split; [done|]. split.
  { intros H. cbn. by rewrite bool_decide_eq_true_2. }
  split; [|intros; by apply proxy_headers_untouched].
  cbn [up_Header upstream_request]. unfold proxy_headers. rewrite header_Set_other by done. apply lookup_insert_eq.
Qed.

Lemma sent_bodies paths rq mk l :
  (∀ i, up_Body (mk i) = sent_body (shouldStreamBody paths rq) rq i) → carry_body paths rq (mk <$> seq 0 l).
Proof.
  intros Hmk b Hb. split.
  - intros u. destruct l; [done|]. cbn. intros [= <-]. rewrite Hmk. unfold sent_body. rewrite Hb.
    by destruct (shouldStreamBody paths rq).
  - intros Hs. apply Forall_fmap, Forall_forall. intros i _. cbn. rewrite Hmk. unfold sent_body. by rewrite Hb, Hs.
Qed.

Lemma proxyRequest_spec paths answer target r rq sent res :
  proxyRequest parse set_query new_request paths answer target r rq = (sent, res) →
  (∀ host base, parse target = inl (host, base) → Forall (faithful target base (config r) rq) sent) ∧
  Z.of_nat (length sent) <= Z.max 1 (retries r) ∧
  (sent = [] ↔ unsendable paths target (config r) rq) ∧
  carry_body paths rq sent ∧
  match res with
  | Copied resp => first_response answer sent resp ∧ resp_CopyErr resp = None
  | CutOff resp _ => first_response answer sent resp ∧ is_Some (resp_CopyErr resp)
  | Failed _ => no_response answer r sent
  end.
Proof.
  assert (∀ text, unsendable paths target (config r) rq → ([], Failed text) = (sent, res) →
    (∀ host base, parse target = inl (host, base) → Forall (faithful target base (config r) rq) sent) ∧
    Z.of_nat (length sent) <= Z.max 1 (retries r) ∧ (sent = [] ↔ unsendable paths target (config r) rq) ∧
    carry_body paths rq sent ∧
    match res with
    | Copied resp => first_response answer sent resp ∧ resp_CopyErr resp = None
    | CutOff resp _ => first_response answer sent resp ∧ is_Some (resp_CopyErr resp)
    | Failed _ => no_response answer r sent
    end) as Hnone.
  { intros text Hun [= <- <-]. split; [intros; constructor|]. split; [cbn; lia|]. split; [done|].
    split; [|by left]. intros b Hb. split; [done|]. intros; constructor. }
  unfold proxyRequest. destruct (parse target) as [[host base]|e] eqn:Hp; [|apply Hnone; left; eauto].
  destruct (match shouldStreamBody paths rq, rq_Body rq with false, Some (inr _) => true | _, _ => false end) eqn:Hbad.
  { destruct (shouldStreamBody paths rq) eqn:Hs; [by destruct (rq_Body rq) as [[]|]|].
    destruct (rq_Body rq) as [[b|e]|] eqn:Hb; [done| |done]. apply Hnone. right; left. eauto. }
  destruct (new_request (rq_Method rq) target (path_Join base (proxy_path (config r) rq)) (rq_RawQuery rq)) as [e|] eqn:Hn.
  { assert (unsendable paths target (config r) rq) as Hun by (right; right; eauto).
    destruct (shouldStreamBody paths rq); destruct (rq_Body rq) as [[b|e']|]; try done; by apply Hnone. }
  destruct (attempts _ 0 _ answer "") as [s1 r1] eqn:E. intros H.
  assert (s1 = sent ∧ match r1 with
    | inl resp => match resp_CopyErr resp with Some _ => ∃ t, res = CutOff resp t | None => res = Copied resp end
    | inr _ => ∃ t, res = Failed t end) as [-> Hres].
  { assert (Hs : (s1, match r1 with
               | inr e => Failed ("failed to execute proxy request after " +:+ pretty (maxRetries r) +:+ " retries: " +:+ e)
               | inl resp => match resp_CopyErr resp with
                   | Some e => CutOff resp ("failed to copy response body: " +:+ e) | None => Copied resp end end)
            = (sent, res)).
    { destruct (shouldStreamBody paths rq); destruct (rq_Body rq) as [[b|e]|]; done. }
    injection Hs as <- <-. split; [done|]. destruct r1 as [resp|]; [|eauto]. destruct (resp_CopyErr resp); eauto. }
  clear H. apply attempts_spec in E as [Hs Hr].
  assert (Hmax : Z.of_nat (Z.to_nat (maxRetries r)) = Z.max 1 (retries r)).
  { unfold maxRetries. destruct (Z.leb_spec (retries r) 0); lia. }
  assert (Hne : sent ≠ []).
  { intros ->. cbn in Hr. destruct r1; [by destruct Hr as (? & ? & _)|]. destruct Hr as [? _]. lia. }
  split.
  { intros host' base' [= <- <-]. rewrite Hs. apply Forall_fmap, Forall_forall. intros i _. apply upstream_request_faithful. }
  split.
  { rewrite <-Hmax. destruct r1; [destruct Hr as (k & -> & ? & _)|destruct Hr as [-> _]]; lia. }
  split.
  { split; [done|]. intros [[e ?]|[[Hst [e He]]|(h & b & e & Hp' & Hn')]]; [congruence| |].
    - by rewrite Hst, He in Hbad.
    - rewrite Hp in Hp'. injection Hp' as <- <-. unfold forwarded_path in Hn'. unfold proxy_path in Hn. congruence. }
  split; [rewrite Hs; by apply sent_bodies|].
  destruct r1 as [resp|].
  - destruct Hr as (k & Hl & _ & Ha & Hj).
    assert (first_response answer sent resp) as Hf by (exists k; auto).
    destruct (resp_CopyErr resp) as [e|] eqn:Hc; [destruct Hres as [t ->]; rewrite Hc|subst res]; eauto.
  - destruct Hres as [t ->]. right. destruct Hr as [Hl Hj]. rewrite Hl. split; [done|]. exact Hj.
Qed.

Lemma handleRoute_routes draw now answer rc rq g :
  routes (handle draw now answer rc rq g).2 = routes g ∧ cfg (handle draw now answer rc rq g).2 = cfg g ∧
  dynamic (handle draw now answer rc rq g).2 = dynamic g.
Proof.
  unfold handleRoute. destruct (find_route _ _ _) as [r|]; [|done]. by destruct (Bal_Select _ _ _ _) as [sel b].
Qed.

(** The route of a request: the one that is stored for its method, else the one
    for all methods. *)
Definition routed (g : Gateway B) (rc : RouteConfig) (rq : http_request) (r : Route) : Prop :=
  let path := normalizeGinRoutePath (Path rc) in
  routes g !! routeKey path (rq_Method rq) = Some r ∨
  (routes g !! routeKey path (rq_Method rq) = None ∧ routes g !! routeKey path "*" = Some r).

(** A target that a request of the route may go to: a healthy one if the last
    check found any. *)
Definition eligible (r : Route) (t : string) : Prop :=
  (healthyTargets r ≠ [] → t ∈ healthyTargets r) ∧ (healthyTargets r = [] → t ∈ targets r).

Definition has_targets (r : Route) : Prop :=
  (targets r ≠ [] ∨ healthyTargets r ≠ []) ∧
  Z.of_nat (length (targets r)) < 2 ^ 63 ∧ Z.of_nat (length (healthyTargets r)) < 2 ^ 63.

(** The selection gives a target of the route, to which the request is proxied. *)
Lemma handleRoute_forwards draw now answer rc rq (g : Gateway B) r :
  usable (balancer g) → routed g rc rq r → has_targets r →
  ∃ target b sent res, eligible r target ∧ usable b ∧
    proxyRequest parse set_query new_request (BusinessPaths (cfg g)) answer target r rq = (sent, res) ∧
    handle draw now answer rc rq g = (Ret (reply_of res, sent), set_balancer b g).
Proof.
  intros Hu Hf (Hne & Hl1 & Hl2).
  assert (find_route g (normalizeGinRoutePath (Path rc)) (rq_Method rq) = Some r) as Hf'.
  { unfold find_route. by destruct Hf as [->|[-> Hf]]. }
  assert (select_targets r ≠ [] ∧ Z.of_nat (length (select_targets r)) < 2 ^ 63) as [Hne' Hlen].
  { unfold select_targets. destruct (healthyTargets r) as [|t ts]; [naive_solver|done]. }
  unfold handleRoute. rewrite Hf'.
  destruct (Select_member draw now (select_targets r) (balancer g) Hu Hne' Hlen) as [(target & Hsel & Hin) Hu'].
  destruct (Bal_Select draw now (select_targets r) (balancer g)) as [sel b]. cbn [fst snd] in *. subst sel.
  change (cfg (set_balancer b g)) with (cfg g).
  destruct (proxyRequest parse set_query new_request (BusinessPaths (cfg g)) answer target r rq) as [sent res] eqn:E.
  exists target, b, sent, res. split; [|auto].
  unfold select_targets in Hin. unfold eligible. destruct (healthyTargets r); naive_solver.
Qed.

(** C17: A request on a route that has targets is forwarded to one of them, a
    healthy one if the last check found any: at most as often as configured and
    once at least unless the target, the body or the request is no good, always
    with the client's method, headers, body (a streamed one only the first time)
    and address to the target's path joined with the client's.  The answer is the
    upstream's first response, which an error of the gateway follows if copying it
    breaks off; without a response it is an error of the gateway. *)
Theorem handleRoute_correct draw now answer rc rq (g : Gateway B) r :
  usable (balancer g) → routed g rc rq r → has_targets r →
  ∃ rep sent g' target, handle draw now answer rc rq g = (Ret (rep, sent), g') ∧
    usable (balancer g') ∧ routes g' = routes g ∧ eligible r target ∧
    (∀ host base, parse target = inl (host, base) → Forall (faithful target base (config r) rq) sent) ∧
    Z.of_nat (length sent) <= Z.max 1 (retries r) ∧
    (sent = [] ↔ unsendable (BusinessPaths (cfg g)) target (config r) rq) ∧
    carry_body (BusinessPaths (cfg g)) rq sent ∧
    match rep with
    | Answer resp => first_response answer sent resp ∧ resp_CopyErr resp = None
    | Broken resp status _ =>
        first_response answer sent resp ∧ is_Some (resp_CopyErr resp) ∧ status ∈ [500; 502; 504]
    | Refuse status _ => no_response answer r sent ∧ status ∈ [500; 502; 504]
    end.
Proof.
  intros Hu Hf Ht.
  destruct (handleRoute_forwards draw now answer rc rq g r Hu Hf Ht) as (target & b & sent & res & Hin & Hb & E & ->).
  apply proxyRequest_spec in E as (Hfa & Hle & Hnil & Hbody & Hres).
  eexists _, sent, _, target. do 8 (split; [first [reflexivity|assumption]|]).
  assert (∀ text, (handleProxyError text).1 ∈ [500; 502; 504]) as Hst.
  { intros text. unfold handleProxyError. destruct (IsTimeout text), (IsTooManyRetries text); set_solver. }
  destruct res as [text|resp|resp text]; cbn [reply_of]; [|done|];
    specialize (Hst text); destruct (handleProxyError text); cbn [fst] in Hst; [done|]. by destruct Hres.
Qed.

(** Without a route the answer is 404 and nothing is forwarded. *)
Lemma handleRoute_unknown draw now answer rc rq (g : Gateway B) :
  find_route g (normalizeGinRoutePath (Path rc)) (rq_Method rq) = None →
  handle draw now answer rc rq g = (Ret (Refuse 404 "Route not found", []), g).
Proof. unfold handleRoute. by intros ->. Qed.

(** ** Which targets a route may have *)

(** A step of the running gateway. *)
Inductive gstep : Gateway B → option answers → Gateway B → Prop :=
| SInit g opened answer checker g' :
    Initialize opened answer checker g = (None, g') → gstep g (Some answer) g'
| SRefresh g now order answer : gstep g (Some answer) (refreshServices now order answer g)
| SCheck g now dial : gstep g None (Check parse now dial g).1.1
| SRequest g draw now answer rc rq : gstep g None (handle draw now answer rc rq g).2.

(** The gateways that are reached from a new one, with what discovery answered. *)
Inductive reached (g0 : Gateway B) : list answers → Gateway B → Prop :=
| reached_start : reached g0 [] g0
| reached_step history g a g' :
    reached g0 history g → gstep g a g' → reached g0 (match a with Some a => a :: history | None => history end) g'.

(** A target that the route's configuration names or discovery has named for its
    service. *)
Definition known (history : list answers) (rc : RouteConfig) (t : string) : Prop :=
  t ∈ Targets rc ∨ ∃ answer instances, answer ∈ history ∧ answer (Service rc) = Ok instances ∧ t ∈ endpoint <$> instances.

Definition known_route (history : list answers) (r : Route) : Prop :=
  Forall (known history (config r)) (targets r) ∧ Forall (known history (config r)) (healthyTargets r).

Definition known_routes (history : list answers) (rs : gmap string Route) : Prop :=
  map_Forall (λ _, known_route history) rs.

Lemma known_mono a history rc t : known history rc t → known (a :: history) rc t.
Proof. intros [?|(x & l & Hin & ?)]; [by left|]. right. exists x, l. split; [by right|done]. Qed.

Lemma known_route_mono a history r : known_route history r → known_route (a :: history) r.
Proof. intros [H1 H2]. split; (eapply Forall_impl; [eassumption|]); intros; by apply known_mono. Qed.

Lemma static_known history rc : Forall (known history rc) (Targets rc).
Proof. apply Forall_forall. intros t Ht. by left. Qed.

Lemma GetServiceEndpoints_known dyn answer history rc ts :
  GetServiceEndpoints dyn answer (Service rc) = Ok ts → Forall (known (answer :: history) rc) ts.
Proof.
  unfold GetServiceEndpoints. destruct dyn; cbn [negb]; [|done].
  destruct (answer (Service rc)) as [l|] eqn:Ha; [|done]. intros H. apply Forall_forall. intros t Ht.
  right. exists answer, l. split; [by left|]. split; [done|]. by destruct (endpoint <$> l); simplify_eq.
Qed.

Lemma init_targets_known enabled dyn answer history rc :
  Forall (known (answer :: history) rc) (init_targets enabled dyn answer rc).
Proof.
  unfold init_targets. destruct enabled; [|apply static_known].
  destruct (GetServiceEndpoints dyn answer (Service rc)) as [[|t ts]|] eqn:E; [apply static_known| |apply static_known].
  by eapply GetServiceEndpoints_known.
Qed.

Lemma initRoutes_known dyn enabled answer history rcs : ∀ rs,
  known_routes (answer :: history) rs → known_routes (answer :: history) (foldl (init_route enabled dyn answer) rs rcs).
Proof.
  induction rcs as [|rc rcs IH]; intros rs Hrs; [done|]. cbn [foldl]. apply IH.
  apply map_Forall_insert_2; [|done]. split; [apply init_targets_known|constructor].
Qed.

Lemma refresh_route_known now dyn answer history r b :
  known_route history r → known_route (answer :: history) (refresh_route now dyn answer r b).1.
Proof.
  intros Hr%(known_route_mono answer). unfold refresh_route.
  destruct (GetServiceEndpoints dyn answer (Service (config r))) as [eps|] eqn:E; cbn [fst].
  - apply (GetServiceEndpoints_known _ _ history) in E.
    split; cbn; [|constructor]. destruct eps, (Targets (config r)) eqn:Ht; [done| |done..].
    rewrite <-Ht. apply static_known.
  - destruct (Targets (config r)) eqn:Ht; [done|]. destruct Hr as [_ Hh]. split; cbn; [|done].
    rewrite <-Ht. apply static_known.
Qed.

Lemma refreshServices_known now answer history order (g : Gateway B) :
  known_routes history (routes g) → known_routes (answer :: history) (routes (refreshServices now order answer g)).
Proof.
  intros Hg.
  assert (known_routes (answer :: history) (routes g)) as Hg'.
  { intros k r Hr. by apply known_route_mono, (Hg k). }
  unfold refreshServices. destruct (negb (DiscoveryEnabled (cfg g))); [done|].
  set (step := λ acc key, _).
  assert (∀ acc, known_routes (answer :: history) acc.1 →
    known_routes (answer :: history) (foldl step acc order).1) as Hfold.
  { induction order as [|key order IH]; intros [rs b] Hacc; [done|]. cbn [foldl]. apply IH. unfold step. cbn [fst snd].
    destruct (rs !! key) as [r|] eqn:Er; [|done].
    pose proof (refresh_route_known now (dynamic g) answer (answer :: history) r b (Hacc key r Er)) as Hr.
    destruct (refresh_route now (dynamic g) answer r b) as [r' b']. cbn [fst] in *.
    apply map_Forall_insert_2; [|done].
    destruct Hr as [H1 H2]. split; (eapply Forall_impl; [eassumption|]);
      intros t [?|(x & l & Hin & ?)]; [by left| |by left|]; right; exists x, l; (split; [|done]); set_solver. }
  specialize (Hfold (routes g, balancer g) Hg'). by destruct (foldl step (routes g, balancer g) order).
Qed.

Lemma gstep_known history g a g' : gstep g a g' → known_routes history (routes g) →
  known_routes (match a with Some a => a :: history | None => history end) (routes g').
Proof.
  intros [g1 opened answer checker g2 Hi|g1 now order answer|g1 now dial|g1 draw now answer rc rq] Hg.
  - unfold Initialize in Hi. destruct (NewServiceDiscovery _ _) as [dyn|]; [|done]. injection Hi as <-. cbn.
    apply initRoutes_known. intros k r Hr. by apply known_route_mono, (Hg k).
  - by apply refreshServices_known.
  - unfold Check. assert (known_routes history (check_route parse now dial <$> routes g1)) as Hc.
    { intros k r. rewrite lookup_fmap. intros (r0 & Hr0 & ->)%fmap_Some. destruct (Hg k r0 Hr0) as [Ht _].
      split; [done|]. cbn. apply Forall_forall. intros t [_ Hin]%list_elem_of_In%filter_In%and_comm.
      rewrite Forall_forall in Ht. apply Ht. by apply list_elem_of_In. }
    by repeat case_bool_decide.
  - destruct (handleRoute_routes draw now answer rc rq g1) as [-> _]. done.
Qed.

Lemma NewGateway_known now c (b : B) policy : known_routes [] (routes (NewGateway now c b policy)).
Proof.
  unfold NewGateway.
  assert (∀ rcs acc, known_routes [] acc.1 → known_routes [] (foldl (add_route now) acc rcs).1) as H.
  { induction rcs as [|rc rcs IH]; intros acc Hacc; [done|]. cbn [foldl]. apply IH. unfold add_route. cbn [fst].
    apply map_Forall_insert_2; [|done]. split; [apply static_known|constructor]. }
  specialize (H (Routes c) (∅, b) (map_Forall_empty _)). by destruct (foldl (add_route now) (∅, b) (Routes c)).
Qed.

(** C18: However initialisation, refreshes with any answers of discovery, health
    checks and requests follow one another, a request on a route that has targets
    is forwarded, by a balancer that is open, only to targets that the
    configuration of its route names or that discovery has named for the service of
    its route.  (A route that has no targets is outside: the balancer is shared and
    answers with the targets of another route, [empty_route_uses_other_targets].) *)
Theorem requests_go_to_known_targets now0 c b policy history (g : Gateway B) draw now answer rc rq r :
  reached (NewGateway now0 c b policy) history g → usable (balancer g) → routed g rc rq r → has_targets r →
  ∃ rep sent, (handle draw now answer rc rq g).1 = Ret (rep, sent) ∧ Forall (λ u, known history (config r) (up_Target u)) sent.
Proof.
  intros Hreach Hu Hf Hts.
  assert (known_routes history (routes g)) as Hk.
  { clear -Hreach. induction Hreach as [|history g a g' _ IH Hs]; [apply NewGateway_known|]. by eapply gstep_known. }
  destruct (handleRoute_forwards draw now answer rc rq g r Hu Hf Hts) as (target & b' & sent & res & Hin & _ & E & ->).
  apply proxyRequest_spec in E as (Hfa & _ & Hnil & _). eexists _, sent. split; [reflexivity|].
  assert (known history (config r) target) as Ht.
  { assert (known_route history r) as [H1 H2].
    { destruct Hf as [Hf|[_ Hf]]; by eapply Hk. }
    rewrite Forall_forall in H1, H2. destruct Hin as [Hh Ha].
    destruct (decide (healthyTargets r = [])); eauto. }
  destruct (parse target) as [[host base]|] eqn:Hp.
  - eapply Forall_impl; [by eapply Hfa|]. by intros u (-> & _).
  - rewrite (proj2 Hnil); [constructor|]. left. eauto.
Qed.

End Forwarding.

(** ** Who may call a route *)

Lemma HasAnyPermission_exists p roles perms :
  HasAnyPermission p roles perms = true ↔ ∃ perm, perm ∈ perms ∧ HasPermission p roles perm = true.
Proof.
  induction perms as [|x perms IH]; cbn; [split; [done|]; intros (? & H & _); by apply not_elem_of_nil in H|].
  destruct (HasPermission p roles x) eqn:E.
  - split; [|done]. intros _. exists x. split; [by left|done].
  - rewrite IH. split; intros (y & Hy & Hp); exists y; (split; [|done]); [by right|].
    apply elem_of_cons in Hy as [->|Hy]; [congruence|done].
Qed.

Lemma HasAllPermissions_forall p roles perms :
  HasAllPermissions p roles perms = true ↔ ∀ perm, perm ∈ perms → HasPermission p roles perm = true.
Proof.
  induction perms as [|x perms IH]; cbn; [split; [intros _ ? H; by apply not_elem_of_nil in H|done]|].
  destruct (HasPermission p roles x) eqn:E.
  - rewrite IH. split; intros H perm; [intros [->|?]%elem_of_cons; auto|]. intros ?. apply H. by right.
  - split; [done|]. intros H. rewrite <-E. apply H. by left.
Qed.

(** A route with required permissions is open exactly to requests with claims
    whose roles are granted one of them, or all of them in the mode all. *)
Lemma checkRoutePermission_correct history ctx rc claims :
  RequiredPermissions rc ≠ [] → ctx !! "claims" = Some (VClaims claims) →
  let allowed perm := perm ≠ "" ∧ ∃ role, role ∈ role_list claims ∧ role ≠ "" ∧ granted history role perm in
  checkRoutePermission (Some (fold_right (λ g p, apply_grant p g) (MkPolicy ∅) history)) ctx rc = Ret None ↔
  if bool_decide (ToLower (TrimSpace (PermissionMode rc)) = "all")
  then ∀ perm, perm ∈ RequiredPermissions rc → allowed perm
  else ∃ perm, perm ∈ RequiredPermissions rc ∧ allowed perm.
Proof.
  intros Hne Hc allowed. unfold checkRoutePermission, GetClaims. rewrite bool_decide_eq_false_2 by done. rewrite Hc.
  assert (∀ m, bool_decide ((if bool_decide (m = "") then "any" else m) = "all") = bool_decide (m = "all")) as Hmode.
  { intros m. destruct (bool_decide_reflect (m = "")) as [->|]; done. }
  rewrite Hmode. set (policy := fold_right _ _ history).
  assert (∀ perm, HasPermission policy (role_list claims) perm = true ↔ allowed perm) as Hperm.
  { intros perm. apply HasPermission_granted. }
  destruct (bool_decide (ToLower _ = "all")).
  - trans (HasAllPermissions policy (role_list claims) (RequiredPermissions rc) = true).
    { by destruct (HasAllPermissions _ _ _). }
    rewrite HasAllPermissions_forall. split; intros H perm Hin; apply Hperm, H, Hin.
  - trans (HasAnyPermission policy (role_list claims) (RequiredPermissions rc) = true).
    { by destruct (HasAnyPermission _ _ _). }
    rewrite HasAnyPermission_exists. split; intros (perm & Hin & H); exists perm; (split; [done|]); by apply Hperm.
Qed.

(** The authentication lets a request through exactly if it is off, if the path
    does not look like one of RPC, if path or method are exempt, or with a
    registered key. *)
Lemma Execute_correct c method r ctx : ctx !! "protocol" = None →
  (∃ ctx', Execute c method r ctx = inl ctx') ↔
  auth_Enabled c = false ∨ isGRPCRoute (AuthMiddleware.Path r) || isJSONRPCRoute (AuthMiddleware.Path r) method = false ∨
  shouldSkipPath c (AuthMiddleware.Path r) = true ∨ shouldSkipMethod c method = true ∨
  ∃ key, extractGatewayKey c r = Some key ∧ is_Some (auth_APIKeys c !! key).
Proof.
  intros Hp. unfold Execute. rewrite Hp. cbn [isRPCRoute].
  destruct (auth_Enabled c); cbn [negb]; [|naive_solver].
  destruct (isGRPCRoute _ || _); cbn [negb]; [|naive_solver].
  destruct (shouldSkipPath c _); [naive_solver|]. destruct (shouldSkipMethod c method); [naive_solver|].
  destruct (extractGatewayKey c r) as [key|]; [|naive_solver].
  assert (gateway_validateAPIKey c key = true ↔ is_Some (auth_APIKeys c !! key)) as Hv.
  { unfold gateway_validateAPIKey. rewrite existsb_exists. setoid_rewrite bool_decide_eq_true.
    setoid_rewrite <-list_elem_of_In. setoid_rewrite list_elem_of_fmap. split.
    - intros (x & ([k v] & -> & Hin%elem_of_map_to_list) & ->). by exists v.
    - intros [v Hv]. exists key. split; [|done]. exists (key, v). by rewrite elem_of_map_to_list. }
  destruct (gateway_validateAPIKey c key); cbn [negb]; split.
  - intros _. do 4 right. exists key. split; [done|]. by apply Hv.
  - naive_solver.
  - by intros [ctx' ?].
  - intros [?|[?|[?|[?|(k & [= <-] & Hk)]]]]; try done. by apply Hv in Hk.
Qed.

(** ** The HTTP service *)

(** The first middleware is the outermost one; nil ones are skipped. *)
Lemma chainMiddlewares_app {R A} (h : R → A) ms1 ms2 :
  chainMiddlewares h (ms1 ++ ms2) = chainMiddlewares (chainMiddlewares h ms2) ms1.
Proof. apply foldr_app. Qed.

(** ** Examples *)

Definition ex_route (path method service : string) (ts : list string) (strip : bool) (n : Z) (proto : string) : RouteConfig :=
  MkRouteConfig path method service ts strip 0 n ∅ ∅ proto [] "".

Definition no_auth : GatewayAuthConfig := MkAuth false "X-API-Key" "api_key" [] [] ∅.

Definition ex_config : GConfig :=
  MkGConfig [ex_route "/orders/*" "*" "orders" ["http://a:1"; "http://b:1"] false 3 "http";
             ex_route "/users/*" "*" "users" [] false 1 "http"] true "consul" ["consul:8500"] [] no_auth.

(** Targets of the form http://host. *)
Definition ex_parse (t : string) : (string * string) + string :=
  if HasPrefix t "http://" then inl (TrimPrefix t "http://", "") else inr "missing protocol scheme".

Definition ex_balancer : heap * LoadBalancerAdapter AnyLoadBalancer := ([], NewLoadBalancerAdapter "round_robin").

Definition ex_gateway : Gateway (heap * LoadBalancerAdapter AnyLoadBalancer) :=
  NewGateway 0 ex_config ex_balancer None.

Definition ex_rq (method path : string) : http_request := MkHttp method path "" ∅ (Some (inl "body")) "10.0.0.1" false.

Definition ex_answer (i : nat) : response + string :=
  match i with O => inr "connection refused" | _ => inl (MkResponse 200 ∅ "ok" None) end.

Definition ex_orders : RouteConfig := ex_route "/orders/*" "*" "orders" ["http://a:1"; "http://b:1"] false 3 "http".

Definition ex_orders_route : Route := new_route (with_path "/orders/*path" ex_orders) ["http://a:1"; "http://b:1"].

(** The same gateway after a check that only the second upstream passed. *)
Definition ex_checked : Gateway (heap * LoadBalancerAdapter AnyLoadBalancer) :=
  (Check ex_parse 5 (λ host, bool_decide (host = "b:1")) ex_gateway).1.1.

Definition ex_checked_route : Route :=
  MkRoute (with_path "/orders/*path" ex_orders) ["http://a:1"; "http://b:1"] ["http://b:1"] 5 0 3.

Lemma ex_routed : routed ex_checked ex_orders (ex_rq "GET" "/orders/7") ex_checked_route ∧ has_targets ex_checked_route.
Proof.
  split; [right; split; vm_compute; reflexivity|].
  split; [left; discriminate|]. split; reflexivity.
Qed.

Lemma handleRoute_correct_witness :
  ∃ rep sent g', handleRoute ex_parse (λ _ q, q) (λ _ _ _ _, None) 0 0 ex_answer ex_orders (ex_rq "GET" "/orders/7") ex_checked
    = (Ret (rep, sent), g') ∧ Z.of_nat (length sent) <= 3 ∧ Forall (λ u, up_Target u = "http://b:1") sent.
Proof.
  destruct (handleRoute_correct ex_parse (λ _ q, q) (λ _ _ _ _, None) 0 0 ex_answer ex_orders (ex_rq "GET" "/orders/7")
              ex_checked ex_checked_route) as (rep & sent & g' & target & H & _ & _ & [Ht _] & Hfa & Hle & _).
  - vm_compute. split; reflexivity.
  - exact (proj1 ex_routed).
  - exact (proj2 ex_routed).
  - exists rep, sent, g'. split; [exact H|]. split; [exact Hle|].
    apply list_elem_of_singleton in Ht; [|discriminate]. subst target.
    eapply Forall_impl; [exact (Hfa "b:1" "" eq_refl)|]. intros u Hu. apply Hu.
Defined.

(** Discovery knows one instance of the orders service. *)
Definition ex_answers : answers := λ service,
  if bool_decide (service = "orders") then Ok [("10.0.0.7", 80)] else Err (GoError.Errorf "unreachable" []).

Definition ex_checker : HealthChecker :=
  MkChecker "gateway_upstreams" (λ _, None).

Definition ex_initialized : Gateway (heap * LoadBalancerAdapter AnyLoadBalancer) :=
  (Initialize None ex_answers ex_checker ex_gateway).2.

Definition ex_discovered_route : Route := new_route (with_path "/orders/*path" ex_orders) ["http://10.0.0.7:80"].

Lemma requests_go_to_known_targets_witness :
  ∃ rep sent, (handleRoute ex_parse (λ _ q, q) (λ _ _ _ _, None) 0 0 ex_answer ex_orders (ex_rq "GET" "/orders/7") ex_initialized).1
    = Ret (rep, sent) ∧ Forall (λ u, known [ex_answers] ex_orders (up_Target u)) sent.
Proof.
  destruct (requests_go_to_known_targets ex_parse (λ _ q, q) (λ _ _ _ _, None) 0 ex_config ex_balancer None [ex_answers] ex_initialized 0 0
              ex_answer ex_orders (ex_rq "GET" "/orders/7") ex_discovered_route) as (rep & sent & H & Hk).
  - refine (reached_step _ _ _ _ [] _ (Some ex_answers) _ (reached_start _ _ _ _) _).
    apply (SInit _ _ _ _ None ex_answers ex_checker). reflexivity.
  - vm_compute. split; reflexivity.
  - right. split; vm_compute; reflexivity.
  - split; [left; discriminate|]. split; reflexivity.
  - exists rep, sent. split; [exact H|]. exact Hk.
Defined.

(** ** What the gateway does not do *)

(** A route without targets: the shared balancer answers with the targets it was
    last given, so the request goes to the upstream of another route. *)
Theorem empty_route_uses_other_targets :
  ∃ rep u g', handleRoute ex_parse (λ _ q, q) (λ _ _ _ _, None) 0 0 (λ _, inl (MkResponse 200 ∅ "ok" None))
                (ex_route "/users/*" "*" "users" [] false 1 "http") (ex_rq "GET" "/users/7") ex_gateway
              = (Ret (rep, [u]), g') ∧ up_Target u ∈ Targets ex_orders ∧
    (∀ history, (∀ a : answers, a ∈ history → ∃ e, a "users" = Err e) →
       ¬ known history (ex_route "/users/*" "*" "users" [] false 1 "http") (up_Target u)).
Proof.
  eexists _, _, _. split; [vm_compute; reflexivity|]. split; [vm_compute; set_solver|].
  intros history Hh [?%not_elem_of_nil|(a & l & Hin & Ha & _)]; [done|].
  destruct (Hh a Hin) as [e He]. cbn in Ha. congruence.
Qed.

(** When discovery fails the route goes back to its static targets, but keeps the
    healthy ones of the instances that discovery named before, and requests still
    go to those. *)
Theorem failed_refresh_keeps_old_targets {B} `{!Balancer B} now answer (r : Route) (b : B) e t ts :
  answer (Service (config r)) = Err e → Targets (config r) = t :: ts → healthyTargets r ≠ [] →
  let r' := (refresh_route now true answer r b).1 in
  targets r' = t :: ts ∧ select_targets r' = healthyTargets r.
Proof.
  intros Ha Ht Hh. unfold refresh_route, GetServiceEndpoints. cbn [negb]. rewrite Ha, Ht. cbn.
  split; [done|]. unfold select_targets. cbn. by destruct (healthyTargets r).
Qed.

(** The authentication runs before the handler of the route records its protocol,
    so it goes by the path: an RPC route under another path is open without a key,
    although [IsRPCRoutePublic] says that it is one of RPC. *)
Theorem rpc_route_bypasses_auth c policy rc method r ctx :
  Protocol rc = "grpc" → RequiredPermissions rc = [] → ctx !! "protocol" = None →
  isGRPCRoute (AuthMiddleware.Path r) = false → isJSONRPCRoute (AuthMiddleware.Path r) method = false →
  serve c policy rc method r ctx = Ret (ToRPC "grpc" (Targets rc)) ∧
  IsRPCRoutePublic (AuthMiddleware.Path r) method (Protocol rc) = true.
Proof.
  intros Hp Hperm Hc Hg Hj. split; [|unfold IsRPCRoutePublic; by rewrite Hp].
  assert (Execute c method r ctx = inl ctx) as He.
  { unfold Execute. rewrite Hc. cbn [isRPCRoute]. rewrite Hg, Hj. by destruct (auth_Enabled c). }
  unfold serve. rewrite He. unfold checkRoutePermission. rewrite bool_decide_eq_true_2 by done.
  destruct (auth_Enabled c); by rewrite Hp.
Qed.

(** [StripPrefix] of a route with a wildcard strips nothing: the prefix it looks
    for ends in the name that gin needs for the wildcard. *)
Theorem wildcard_prefix_not_stripped rc rq :
  HasPrefix (rq_Path rq) (Path rc) = false → proxy_path rc rq = rq_Path rq.
Proof. intros H. unfold proxy_path. destruct (StripPrefix rc); [|done]. by apply TrimPrefix_none. Qed.

Theorem wildcard_prefix_example :
  let rc := with_path (normalizeGinRoutePath "/api/*") (ex_route "/api/*" "*" "api" [] true 1 "http") in
  proxy_path rc (ex_rq "GET" "/api/users") = "/api/users".
Proof. by vm_compute. Qed.

(** The joined path is cleaned after the client's part was appended, so dots in it
    climb out of the base path of the target. *)
Theorem dots_leave_base_path : path_Join "/public" "/files/../../admin" = "/admin".
Proof. by vm_compute. Qed.

(** The identifier that the gateway makes for a request is set on the response
    only: upstreams get an empty one. *)
Theorem generated_id_not_forwarded rc rq :
  Headers rc = ∅ → header_Get "X-Request-ID" (rq_Header rq) = "" →
  header_Get "X-Gateway-Request-ID" (proxy_headers rc rq) = "".
Proof.
  intros _ Hid. unfold proxy_headers. rewrite Hid. unfold header_Get, header_Set.
  change (CanonicalHeaderKey "X-Forwarded-Proto") with "X-Forwarded-Proto".
  change (CanonicalHeaderKey "X-Forwarded-For") with "X-Forwarded-For".
  change (CanonicalHeaderKey "X-Gateway-Request-ID") with "X-Gateway-Request-Id".
  by rewrite lookup_insert_ne, lookup_insert_ne, lookup_insert_eq.
Qed.

(** An upstream that refuses the connection is answered with 500: the text that is
    tested for the answer 502 is not the one that the proxy writes. *)
Theorem refused_connection_is_500 :
  (handleRoute ex_parse (λ _ q, q) (λ _ _ _ _, None) 0 0 (λ _, inr "dial tcp 10.0.0.7:80: connect: connection refused") ex_orders
     (ex_rq "GET" "/orders/7") ex_gateway).1 = Ret (Refuse 500 "Internal server error",
       replicate 3 (upstream_request (λ _ q, q) "http://a:1" "" (with_path "/orders/*path" ex_orders)
                      (ex_rq "GET" "/orders/7") (Some "body"))).
Proof. by vm_compute. Qed.

(** A streamed body is sent once: a retry goes out without it. *)
Theorem streamed_retry_without_body :
  ∃ rep u1 u2 g',
    handleRoute ex_parse (λ _ q, q) (λ _ _ _ _, None) 0 0 ex_answer ex_orders
      (MkHttp "POST" "/orders/7" "" {["Content-Type" := ["application/octet-stream"]]} (Some (inl "bytes")) "10.0.0.1" false)
      ex_gateway = (Ret (rep, [u1; u2]), g') ∧ up_Body u1 = Some "bytes" ∧ up_Body u2 = None.
Proof. eexists _, _, _, _. split; [vm_compute; reflexivity|]. split; reflexivity. Qed.

(** A gateway that is started again runs without its background loops, and its
    next stop panics. *)
Theorem gateway_restart_panics {B} (g g1 g2 g3 : Gateway B) hm :
  started g = false → cancelled g = false → health g = Some hm → running hm = false →
  StartGateway g = (None, g1) → StopGateway g1 = Ret (None, g2) → StartGateway g2 = (None, g3) →
  loops_running g1 = true ∧ loops_running g3 = false ∧ StopGateway g3 = Panic "close of closed channel" [].
Proof.
  intros Hs Hc Hh Hr. unfold StartGateway. rewrite Hs. intros [= <-].
  unfold StopGateway. cbn. rewrite Hh. cbn. destruct (Health.Stop (Health.Start hm)) as [hm'|] eqn:E; [|done].
  intros [= <-]. cbn. intros [= <-]. cbn. unfold loops_running. cbn. rewrite Hc. split; [done|]. split; [done|].
  destruct (restart_is_dead hm hm' Hr E) as (_ & _ & ->). done.
Qed.

(** The pattern of a wildcard exempts every path that starts with its letters. *)
Theorem wildcard_exempts_neighbours : matchPath "/debugger/state" "/debug/*" = true.
Proof. by vm_compute. Qed.
