(* ===== verification/ServiceManager.v ===== *)
(** * internal/bootstrap/service_manager.go: services managed by the framework

    Named factories, the services built from them, starting and stopping them.
    [C] is everything a factory or a service reads and writes (the components of
    the process and the world outside); a factory runs under the lock of the
    manager and cannot call it back, and the services of this repository do not,
    so the maps of the manager are not part of [C].  [L] is the type of
    [context.Context], with nil as [None]. *)

From S2P Require Import Prelude.
Import GoError.

Definition ServiceAPIGateway : string := "api-gateway".
Definition ServiceRPC : string := "rpc".
Definition ServiceWebSocket : string := "websocket".

Section Services.
Context {C L : Type}.

(** [ManagedService] is an interface: its methods. *)
Record ManagedService := MkService {
  svc_Name : string;
  svc_Start : option L → C → C * option error;
  svc_Stop : option L → C → C * option error
}.

Definition ServiceFactory : Type := C → C * result ManagedService.

(** [managedServiceAdapter]: functions that may be nil. *)
Record managedServiceAdapter := MkAdapter {
  ad_name : string;
  startFn : option (option L → C → C * option error);
  stopFn : option (option L → C → C * option error)
}.

Definition adapter_Start (s : managedServiceAdapter) (ctx : option L) (c : C) : C * option error :=
  match startFn s with
  | None => (c, None)
  | Some f => f ctx c
  end.

Definition adapter_Stop (s : managedServiceAdapter) (ctx : option L) (c : C) : C * option error :=
  match stopFn s with
  | None => (c, None)
  | Some f => f ctx c
  end.

(** The adapter as a [ManagedService]. *)
Definition of_adapter (s : managedServiceAdapter) : ManagedService :=
  MkService (ad_name s) (adapter_Start s) (adapter_Stop s).

(** The fields of [Bootstrap] behind [serviceMu]. *)
Record Services := MkServices {
  serviceFactories : gmap string ServiceFactory;
  managedServices : gmap string ManagedService;
  serviceOrder : list string;
  serviceDeps : gmap string (list string)
}.

Definition no_services : Services := MkServices ∅ ∅ [] ∅.

(** ** Registration *)

Definition RegisterServiceFactory (name : string) (factory : option ServiceFactory) (b : Services) :
    Services * option error :=
  if decide (name = "") then (b, Some (Errorf "service name is required" []))
  else
    match factory with
    | None => (b, Some (Errorf "service factory %s is nil" [name]))
    | Some f =>
        match serviceFactories b !! name with
        | Some _ => (b, Some (Errorf "service factory %s already registered" [name]))
        | None =>
            (MkServices (<[name := f]> (serviceFactories b)) (managedServices b)
               (serviceOrder b ++ [name]) (serviceDeps b), None)
        end
    end.

Definition RegisterServiceDependencies (name : string) (keys : list string) (b : Services) : Services :=
  MkServices (serviceFactories b) (managedServices b) (serviceOrder b) (<[name := keys]> (serviceDeps b)).

Definition serviceDependencies (name : string) (b : Services) : option (list string) :=
  serviceDeps b !! name.

Definition ListServiceFactories (b : Services) : list string := serviceOrder b.

Definition resolveServiceNames (names : list string) (b : Services) : list string :=
  match names with
  | [] => serviceOrder b
  | _ => names
  end.

(** ** Building *)

Definition getManagedService (name : string) (b : Services) : option ManagedService :=
  managedServices b !! name.

(** The part of [ensureManagedService] under the write lock. *)
Definition ensure_locked (name : string) (b : Services) (c : C) : Services * C * result ManagedService :=
  match managedServices b !! name with
  | Some svc => (b, c, Ok svc)
  | None =>
      match serviceFactories b !! name with
      | None => (b, c, Err (Errorf "service factory %s not found" [name]))
      | Some factory =>
          match factory c with
          | (c, Err e) => (b, c, Err (ErrorfW "failed to build service %s: %w" [name] e))
          | (c, Ok service) =>
              (MkServices (serviceFactories b) (<[name := service]> (managedServices b))
                 (serviceOrder b) (serviceDeps b), c, Ok service)
          end
      end
  end.

Definition ensureManagedService (name : string) (b : Services) (c : C) : Services * C * result ManagedService :=
  match getManagedService name b with
  | Some svc => (b, c, Ok svc)
  | None => ensure_locked name b c
  end.

(** ** Starting and stopping *)

Fixpoint start_services (ctx : option L) (names : list string) (b : Services) (c : C) :
    Services * C * option error :=
  match names with
  | [] => (b, c, None)
  | name :: names =>
      match ensureManagedService name b c with
      | (b, c, Err e) => (b, c, Some e)
      | (b, c, Ok svc) =>
          match svc_Start svc ctx c with
          | (c, Some e) => (b, c, Some (ErrorfW "failed to start service %s: %w" [name] e))
          | (c, None) => start_services ctx names b c
          end
      end
  end.

Definition StartServices (ctx : option L) (names : list string) (b : Services) (c : C) :
    Services * C * option error :=
  start_services ctx (resolveServiceNames names b) b c.

(** The loop of [StopServices], which counts down: over the names reversed. *)
Fixpoint stop_services (ctx : option L) (rev_names : list string) (b : Services) (c : C) : C * option error :=
  match rev_names with
  | [] => (c, None)
  | name :: rest =>
      match getManagedService name b with
      | None => stop_services ctx rest b c
      | Some svc =>
          match svc_Stop svc ctx c with
          | (c, Some e) => (c, Some (ErrorfW "failed to stop service %s: %w" [name] e))
          | (c, None) => stop_services ctx rest b c
          end
      end
  end.

Definition StopServices (ctx : option L) (names : list string) (b : Services) (c : C) : C * option error :=
  stop_services ctx (reverse (resolveServiceNames names b)) b c.

(** ** Invariant *)

Record services_wf (b : Services) : Prop := {
  so_nodup : NoDup (serviceOrder b);
  so_dom : ∀ n, n ∈ serviceOrder b ↔ is_Some (serviceFactories b !! n);
  so_named : "" ∉ serviceOrder b;
  so_managed : ∀ n, is_Some (managedServices b !! n) → is_Some (serviceFactories b !! n)
}.

Lemma no_services_wf : services_wf no_services.
Proof.
  split; simpl; [constructor| | |].
  - intros n. rewrite lookup_empty, elem_of_nil. split; [done|by intros []].
  - apply not_elem_of_nil.
  - intros n [? H]. by rewrite lookup_empty in H.
Qed.

Lemma RegisterServiceFactory_wf name f b :
  services_wf b → services_wf (RegisterServiceFactory name f b).1.
Proof.
  intros [Hnd Hdom Hne Hm]. unfold RegisterServiceFactory.
  destruct (decide (name = "")) as [|Hn]; [done|]. destruct f as [f|]; [|done].
  destruct (serviceFactories b !! name) as [g|] eqn:Hg; [done|].
  assert (Hfresh : name ∉ serviceOrder b) by (rewrite Hdom, Hg; by intros []).
  split; simpl.
  - by apply NoDup_snoc.
  - intros n. rewrite elem_of_snoc, Hdom, lookup_insert. case_decide; subst; naive_solver.
  - rewrite elem_of_snoc. naive_solver.
  - intros n Hn'. rewrite lookup_insert. case_decide; [done|]. by apply Hm.
Qed.

Lemma RegisterServiceDependencies_wf name ks b :
  services_wf b → services_wf (RegisterServiceDependencies name ks b).
Proof. by intros []. Qed.

Lemma ensure_locked_wf name b c : services_wf b → services_wf (ensure_locked name b c).1.1.
Proof.
  intros [Hnd Hdom Hne Hm]. unfold ensure_locked.
  destruct (managedServices b !! name); [done|].
  destruct (serviceFactories b !! name) as [f|] eqn:Hf; [|done].
  destruct (f c) as [c' [s|e]]; [|done].
  split; simpl; try done. intros n. rewrite lookup_insert. case_decide; subst; [eauto|apply Hm].
Qed.

Lemma ensureManagedService_locked name b c : ensureManagedService name b c = ensure_locked name b c.
Proof.
  unfold ensureManagedService, ensure_locked, getManagedService. by destruct (managedServices b !! name).
Qed.

Lemma start_services_wf ctx names b c : services_wf b → services_wf (start_services ctx names b c).1.1.
Proof.
  revert b c. induction names as [|n names IH]; intros b c Hwf; [done|]. simpl.
  rewrite ensureManagedService_locked. pose proof (ensure_locked_wf n b c Hwf) as Hwf1.
  destruct (ensure_locked n b c) as [[b1 c1] [svc|e]]; [|done].
  destruct (svc_Start svc ctx c1) as [c2 [e|]]; [done|]. by apply IH.
Qed.

(** ** What a service built once is *)

(** Any number of goroutines call [ensureManagedService]; each passes the write
    lock in some order. *)
Inductive ensured : Services * C → Services * C → Prop :=
| ensured_refl st : ensured st st
| ensured_step name b c b' c' r st :
    ensure_locked name b c = (b', c', r) → ensured (b', c') st → ensured (b, c) st
| ensured_other b c c' st : ensured (b, c') st → ensured (b, c) st.

Lemma ensure_locked_keeps name b c n s :
  managedServices b !! n = Some s → managedServices (ensure_locked name b c).1.1 !! n = Some s.
Proof.
  intros Hs. unfold ensure_locked.
  destruct (managedServices b !! name) eqn:Hm; [done|].
  destruct (serviceFactories b !! name) as [f|]; [|done].
  destruct (f c) as [c' [s'|e]]; [|done]. simpl.
  rewrite lookup_insert_ne; [done|congruence].
Qed.

Lemma ensured_keeps st st' n s :
  ensured st st' → managedServices st.1 !! n = Some s → managedServices st'.1 !! n = Some s.
Proof.
  induction 1 as [|name b c b' c' r st Hl _ IH|]; intros Hs; [done| |by apply IHensured].
  apply IH. simpl. pose proof (ensure_locked_keeps name b c n s Hs) as Hk. by rewrite Hl in Hk.
Qed.

(** ** Specification: the calls of a start and of a stop *)

Abbreviation services_map := (gmap string ManagedService).

(** [Start] of the services named, in turn, each returning nil: a service is the one
    that was built before or is built by its factory.  The list is what was started. *)
Inductive starts (ctx : option L) (facts : gmap string ServiceFactory) :
    list string → services_map * C → list (string * ManagedService) → services_map * C → Prop :=
| starts_nil st : starts ctx facts [] st [] st
| starts_known n ns m c svc c1 l st :
    m !! n = Some svc → svc_Start svc ctx c = (c1, None) →
    starts ctx facts ns (m, c1) l st → starts ctx facts (n :: ns) (m, c) ((n, svc) :: l) st
| starts_built n ns m c f c0 svc c1 l st :
    m !! n = None → facts !! n = Some f → f c = (c0, Ok svc) → svc_Start svc ctx c0 = (c1, None) →
    starts ctx facts ns (<[n := svc]> m, c1) l st → starts ctx facts (n :: ns) (m, c) ((n, svc) :: l) st.

(** Why the start of one service fails, and what it leaves. *)
Inductive start_fails (ctx : option L) (facts : gmap string ServiceFactory) (n : string) (m : services_map) (c : C) :
    services_map → C → error → Prop :=
| fails_unknown :
    m !! n = None → facts !! n = None →
    start_fails ctx facts n m c m c (Errorf "service factory %s not found" [n])
| fails_build f c0 e :
    m !! n = None → facts !! n = Some f → f c = (c0, Err e) →
    start_fails ctx facts n m c m c0 (ErrorfW "failed to build service %s: %w" [n] e)
| fails_known svc c1 e :
    m !! n = Some svc → svc_Start svc ctx c = (c1, Some e) →
    start_fails ctx facts n m c m c1 (ErrorfW "failed to start service %s: %w" [n] e)
| fails_built f c0 svc c1 e :
    m !! n = None → facts !! n = Some f → f c = (c0, Ok svc) → svc_Start svc ctx c0 = (c1, Some e) →
    start_fails ctx facts n m c (<[n := svc]> m) c1 (ErrorfW "failed to start service %s: %w" [n] e).

(** [Stop] of the services, in turn, up to the first that fails. *)
Inductive stops (ctx : option L) : list (string * ManagedService) → C → C → option error → Prop :=
| stops_nil c : stops ctx [] c c None
| stops_ok n svc l c c1 c2 e :
    svc_Stop svc ctx c = (c1, None) → stops ctx l c1 c2 e → stops ctx ((n, svc) :: l) c c2 e
| stops_err n svc l c c1 e :
    svc_Stop svc ctx c = (c1, Some e) →
    stops ctx ((n, svc) :: l) c c1 (Some (ErrorfW "failed to stop service %s: %w" [n] e)).

(** A service whose [Stop], called on the state its [Start] left, restores the state
    before it. *)
Definition undone (svc : ManagedService) : Prop :=
  ∀ ctx ctx' c c1, svc_Start svc ctx c = (c1, None) → svc_Stop svc ctx' c1 = (c, None).

Lemma start_services_spec ctx names b c :
  let '(b', c', err) := start_services ctx names b c in
  (serviceOrder b' = serviceOrder b ∧ serviceFactories b' = serviceFactories b) ∧
  match err with
  | None => ∃ l, starts ctx (serviceFactories b) names (managedServices b, c) l (managedServices b', c')
  | Some e => ∃ l1 n l2 l m c1, names = l1 ++ n :: l2 ∧
      starts ctx (serviceFactories b) l1 (managedServices b, c) l (m, c1) ∧
      start_fails ctx (serviceFactories b) n m c1 (managedServices b') c' e
  end.
Proof.
  revert b c. induction names as [|n names IH]; intros b c; cbn [start_services].
  { split; [done|]. exists []. constructor. }
  rewrite ensureManagedService_locked. unfold ensure_locked.
  destruct (managedServices b !! n) as [svc|] eqn:Hm.
  - destruct (svc_Start svc ctx c) as [c1 [e|]] eqn:Hs.
    + split; [done|]. exists [], n, names, [], (managedServices b), c. split; [done|]. split; [constructor|]. by econstructor.
    + specialize (IH b c1). destruct (start_services ctx names b c1) as [[b' c'] [e|]]; destruct IH as [Ho IH]; (split; [done|]).
      * destruct IH as (l1 & n' & l2 & l & m & c2 & -> & Hst & Hf). exists (n :: l1), n', l2, ((n, svc) :: l), m, c2.
        split; [done|]. split; [by eapply starts_known|done].
      * destruct IH as (l & Hst). exists ((n, svc) :: l). by eapply starts_known.
  - destruct (serviceFactories b !! n) as [f|] eqn:Hf.
    2:{ split; [done|]. exists [], n, names, [], (managedServices b), c. split; [done|]. split; [constructor|]. by constructor. }
    destruct (f c) as [c0 [svc|e]] eqn:Hfc.
    2:{ split; [done|]. exists [], n, names, [], (managedServices b), c. split; [done|]. split; [constructor|]. by econstructor. }
    destruct (svc_Start svc ctx c0) as [c1 [e|]] eqn:Hs.
    + split; [done|]. exists [], n, names, [], (managedServices b), c. split; [done|]. split; [constructor|]. by econstructor.
    + specialize (IH (MkServices (serviceFactories b) (<[n := svc]> (managedServices b)) (serviceOrder b) (serviceDeps b)) c1).
      destruct (start_services ctx names _ c1) as [[b' c'] [e|]]; destruct IH as [Ho IH]; (split; [done|]).
      * destruct IH as (l1 & n' & l2 & l & m & c2 & -> & Hst & Hf'). exists (n :: l1), n', l2, ((n, svc) :: l), m, c2.
        split; [done|]. split; [by eapply starts_built|done].
      * destruct IH as (l & Hst). exists ((n, svc) :: l). by eapply starts_built.
Qed.

(** The services under the given names that were built. *)
Definition known (m : services_map) (names : list string) : list (string * ManagedService) :=
  omap (λ n, pair n <$> m !! n) names.

Lemma stop_services_spec ctx names b c :
  let '(c', e) := stop_services ctx names b c in stops ctx (known (managedServices b) names) c c' e.
Proof.
  revert c. induction names as [|n names IH]; intros c; cbn [stop_services]; [constructor|].
  unfold getManagedService, known. cbn [omap list_omap]. destruct (managedServices b !! n) as [svc|]; cbn [fmap option_fmap option_map].
  - destruct (svc_Stop svc ctx c) as [c1 [e|]] eqn:Hs; [by constructor|].
    specialize (IH c1). destruct (stop_services ctx names b c1). by econstructor.
  - apply IH.
Qed.

Lemma known_app m l1 l2 : known m (l1 ++ l2) = known m l1 ++ known m l2.
Proof. apply omap_app. Qed.

Lemma known_reverse m names : known m (reverse names) = reverse (known m names).
Proof.
  induction names as [|n names IH]; [done|]. rewrite reverse_cons, known_app, IH.
  unfold known at 2 3. cbn [omap list_omap]. destruct (m !! n); cbn [fmap option_fmap option_map].
  - by rewrite reverse_cons.
  - by rewrite app_nil_r.
Qed.

Lemma known_names m names n svc : (n, svc) ∈ known m names → n ∈ names.
Proof.
  intros (x & Hx & He)%list_elem_of_omap. destruct (m !! x); [|done]. by injection He as -> ->.
Qed.

Lemma starts_keeps ctx facts names st l st' n svc :
  starts ctx facts names st l st' → st.1 !! n = Some svc → st'.1 !! n = Some svc.
Proof.
  induction 1; simpl in *; intros Hn; [done|auto|]. apply IHstarts.
  rewrite lookup_insert_ne; [done|]. by intros ->; congruence.
Qed.

(** What was started is what a manager that has at least these services knows. *)
Lemma starts_known_names ctx facts names st l st' (m : services_map) :
  starts ctx facts names st l st' → (∀ n svc, st'.1 !! n = Some svc → m !! n = Some svc) → known m names = l.
Proof.
  induction 1 as [|n ns m0 c svc c1 l st Hn Hs Hst IH|n ns m0 c f c0 svc c1 l st Hn Hf Hfc Hs Hst IH]; intros Hsub; [done|..].
  - unfold known. cbn [omap list_omap]. rewrite (Hsub n svc) by (by eapply starts_keeps).
    cbn [fmap option_fmap option_map]. f_equal. by apply IH.
  - unfold known. cbn [omap list_omap].
    rewrite (Hsub n svc) by (eapply starts_keeps; [done|]; apply lookup_insert_eq).
    cbn [fmap option_fmap option_map]. f_equal. by apply IH.
Qed.

Lemma stops_app ctx l1 l2 c c1 c2 e :
  stops ctx l1 c c1 None → stops ctx l2 c1 c2 e → stops ctx (l1 ++ l2) c c2 e.
Proof.
  intros H1 H2. remember None as none eqn:He. induction H1; simplify_eq; [done|]. simpl. econstructor; eauto.
Qed.

Lemma stops_det ctx l c c1 c2 e1 e2 : stops ctx l c c1 e1 → stops ctx l c c2 e2 → c1 = c2 ∧ e1 = e2.
Proof.
  intros H1. revert c2 e2.
  induction H1 as [c|n svc l c d1 d2 e Hs H1 IH|n svc l c d1 e Hs]; intros c2 e2 H2.
  - by inversion H2.
  - inversion H2 as [|? ? ? ? d3 ? ? Hs' H2'|]; subst; rewrite Hs in *; simplify_eq. by apply IH.
  - inversion H2; subst; rewrite Hs in *; by simplify_eq.
Qed.

(** Stopping in reverse order undoes the start. *)
Lemma starts_undone ctx ctx' facts names st l st' :
  starts ctx facts names st l st' → (∀ n f c, facts !! n = Some f → (f c).1 = c) →
  (∀ n svc, (n, svc) ∈ l → undone svc) → stops ctx' (reverse l) st'.2 st.2 None.
Proof.
  intros Hst Hpure. induction Hst as [|n ns m c svc c1 l st Hn Hs Hst IH|n ns m c f c0 svc c1 l st Hn Hf Hfc Hs Hst IH];
    intros Hu; [constructor|..]; rewrite reverse_cons; (eapply stops_app; [apply IH; intros; eapply Hu; by right|]); simpl.
  - eapply stops_ok; [|constructor]. eapply Hu; [by left|done].
  - pose proof (Hpure _ _ c Hf) as Hc. rewrite Hfc in Hc. simpl in Hc. subst c0.
    eapply stops_ok; [|constructor]. eapply Hu; [by left|done].
Qed.

End Services.
