(* ===== verification/BootConfig.v ===== *)
(** * Configuration of the framework

    The sections of [pkg/config] ([config.go]) and of
    [bootstrap/pluginconfig] that the bootstrap reads, their defaults and
    validation, and the translation of database sections: [buildDBConfig] of
    [internal/bootstrap/bootstrap.go], the service-level format of
    [internal/bootstrap/bootstrap_service_db.go] and [LoadDatabaseConfig] of
    [bootstrap/bootstrap.go].  A decoded YAML document is a [yval]; the decoder
    is outside the repository. *)

From S2P Require Import Prelude GoString GoFloat RedisClient.
From Stdlib Require Import Ascii.
Import GoError.

Open Scope Z_scope.

(** ** time.ParseDuration

    The duration strings of configuration files, as the package time of Go 1.22
    reads them: a sign, then numbers with a unit, in nanoseconds.  Fractions go
    through float64 as in the library. *)

Definition is_digit (c : ascii) : bool := within 48 57 (byte_of c).

(** [leadingInt]: the value and the rest; [None] when it passes [1<<63]. *)
Fixpoint leadingInt (s : string) (x : Z) : option (Z * string) :=
  match s with
  | String.String c s' =>
      if is_digit c then
        if x >? 2 ^ 63 / 10 then None
        else
          let x' := x * 10 + (byte_of c - 48) in
          if x' >? 2 ^ 63 then None else leadingInt s' x'
      else Some (x, s)
  | String.EmptyString => Some (x, s)
  end.

(** [leadingFraction]: digits that would overflow are skipped. *)
Fixpoint leadingFraction (s : string) (x : Z) (scale : float64) (overflow : bool) : Z * float64 * string :=
  match s with
  | String.String c s' =>
      if is_digit c then
        let y := x * 10 + (byte_of c - 48) in
        if overflow || (x >? (2 ^ 63 - 1) / 10) || (y >? 2 ^ 63) then leadingFraction s' x scale true
        else leadingFraction s' y (fmul scale (of_int 10)) false
      else (x, scale, s)
  | String.EmptyString => (x, scale, s)
  end.

(** The unit: everything up to a digit or a point. *)
Fixpoint leadingUnit (s : string) : string * string :=
  match s with
  | String.String c s' =>
      if is_digit c || Ascii.eqb c "."%char then ("", s)
      else let '(u, r) := leadingUnit s' in (String.String c u, r)
  | String.EmptyString => ("", "")
  end.

Definition unitMap (u : string) : option Z :=
  if decide (u = "ns") then Some 1
  else if decide (u = "us" ∨ u = chars [194; 181; 115]%nat ∨ u = chars [206; 188; 115]%nat) then Some 1000
  else if decide (u = "ms") then Some 1000000
  else if decide (u = "s") then Some 1000000000
  else if decide (u = "m") then Some 60000000000
  else if decide (u = "h") then Some 3600000000000
  else None.

(** One number with its unit, from a text that is not empty. *)
Definition parse_part (s : string) : option (Z * string) :=
  match s with
  | String.EmptyString => None
  | String.String c _ =>
      if negb (Ascii.eqb c "."%char || is_digit c) then None
      else
        match leadingInt s 0 with
        | None => None
        | Some (v, s1) =>
            let pre := negb (bool_decide (s1 = s)) in
            let '(f, scale, s2, post) :=
              match s1 with
              | String.String "."%char s' =>
                  let '(f, scale, s2) := leadingFraction s' 0 (of_int 1) false in
                  (f, scale, s2, negb (bool_decide (s2 = s')))
              | _ => (0, of_int 1, s1, false)
              end in
            if negb pre && negb post then None
            else
              let '(u, s3) := leadingUnit s2 in
              match unitMap u with
              | None => None
              | Some unit =>
                  if v >? 2 ^ 63 / unit then None
                  else
                    let v := v * unit +
                      (if f >? 0 then to_int (fmul (of_int f) (fdiv (of_int unit) scale)) else 0) in
                    if v >? 2 ^ 63 then None else Some (v, s3)
              end
        end
  end.

(** The loop; a part that does not shorten the text cannot happen, and the length
    is fuel. *)
Fixpoint parse_parts (fuel : nat) (s : string) (d : Z) : option Z :=
  match s with
  | String.EmptyString => Some d
  | _ =>
      match fuel with
      | O => None
      | S fuel =>
          match parse_part s with
          | None => None
          | Some (v, s') => if d + v >? 2 ^ 63 then None else parse_parts fuel s' (d + v)
          end
      end
  end.

Definition ParseDuration (s : string) : option Z :=
  let '(neg, body) :=
    match s with
    | String.String "-"%char s => (true, s)
    | String.String "+"%char s => (false, s)
    | _ => (false, s)
    end in
  if decide (body = "0") then Some 0
  else if decide (body = "") then None
  else
    match parse_parts (String.length body) body 0 with
    | None => None
    | Some d =>
        if neg : bool then Some (- d)
        else if d >? 2 ^ 63 - 1 then None else Some d
    end.

Example duration_simple : ParseDuration "1h30m" = Some 5400000000000.
Proof. vm_compute. done. Qed.
Example duration_fraction : ParseDuration "-1.5s" = Some (-1500000000).
Proof. vm_compute. done. Qed.
Example duration_no_unit : ParseDuration "30" = None.
Proof. vm_compute. done. Qed.
Example duration_zero : ParseDuration "0" = Some 0 ∧ ParseDuration "" = None ∧ ParseDuration "." = None.
Proof. vm_compute. done. Qed.

(** *** The fuel is enough: every part is at least two bytes long *)

Lemma leadingInt_length s x v r :
  leadingInt s x = Some (v, r) → (String.length r <= String.length s)%nat.
Proof.
  revert x. induction s as [|c s IH]; intros x; simpl; [by intros [= <- <-]|].
  destruct (is_digit c); [|by intros [= <- <-]].
  destruct (_ >? _); [done|]. destruct (_ >? _); [done|]. intros H%IH. lia.
Qed.

Lemma leadingFraction_length s x sc o :
  (String.length (leadingFraction s x sc o).2 <= String.length s)%nat.
Proof.
  revert x sc o. induction s as [|c s IH]; intros x sc o; simpl; [done|].
  destruct (is_digit c); [|done]. case_match; (etrans; [apply IH|lia]).
Qed.

Lemma leadingUnit_length s u r :
  leadingUnit s = (u, r) → (String.length r + String.length u = String.length s)%nat.
Proof.
  revert u r. induction s as [|c s IH]; intros u r; simpl; [by intros [= <- <-]|].
  destruct (_ || _); [intros [= <- <-]; simpl; lia|].
  destruct (leadingUnit s) as [u' r'] eqn:E. intros [= <- <-]. specialize (IH _ _ eq_refl). simpl. lia.
Qed.

Lemma parse_part_length s v r : parse_part s = Some (v, r) → (String.length r < String.length s)%nat.
Proof.
  destruct s as [|c s]; [done|]. unfold parse_part.
  destruct (negb _); [done|].
  destruct (leadingInt _ 0) as [[v1 s1]|] eqn:Hi; [|done]. apply leadingInt_length in Hi.
  assert (Hrest : ∀ s2 : string, (String.length s2 <= String.length s1)%nat →
    ∀ u s3, leadingUnit s2 = (u, s3) → is_Some (unitMap u) → (String.length s3 < String.length (String.String c s))%nat).
  { intros s2 H2 u s3 Hu Hm. apply leadingUnit_length in Hu.
    assert (u ≠ "") by (intros ->; vm_compute in Hm; by destruct Hm).
    destruct u; [done|]. simpl in *. lia. }
  set (q := match s1 with String.String "."%char s' => _ | _ => _ end).
  assert (Hq : (String.length q.1.2 <= String.length s1)%nat).
  { subst q. destruct s1 as [|c1 s1']; [done|].
    destruct (Ascii.eqb_spec c1 "."%char) as [->|Hc].
    - pose proof (leadingFraction_length s1' 0 (of_int 1) false).
      destruct (leadingFraction s1' 0 (of_int 1) false) as [[f sc] s2]. simpl in *. lia.
    - destruct c1 as [[] [] [] [] [] [] [] []]; try done. }
  destruct q as [[[f sc] s2] post]. simpl in Hq.
  destruct (_ && _); [done|]. destruct (leadingUnit s2) as [u s3] eqn:Hu.
  destruct (unitMap u) as [unit|] eqn:Hm; [|done].
  destruct (_ >? _); [done|]. destruct (_ >? _); [done|]. intros [= _ <-].
  eapply Hrest; [done|done|by eexists].
Qed.

Lemma parse_parts_fuel n m s d :
  (String.length s <= n)%nat → (n <= m)%nat → parse_parts m s d = parse_parts n s d.
Proof.
  revert m s d. induction n as [|n IH]; intros m s d Hs Hm.
  { destruct s; [by destruct m|simpl in Hs; lia]. }
  destruct m as [|m]; [lia|]. destruct s as [|c s]; [done|]. cbn [parse_parts].
  destruct (parse_part _) as [[v r]|] eqn:Hp; [|done]. apply parse_part_length in Hp.
  destruct (_ >? _); [done|]. apply IH; simpl in *; lia.
Qed.

(** ** pkg/config: the sections in use *)

Record AppConfig := MkApp { App_Name : string; Version : string; Environment : string }.

Record FrameworkConfig := MkFramework { ValidateCoverage : bool; FServices : list string }.

Record HTTPConfig := MkHTTPConfig {
  HTTP_Enabled : bool; HTTP_Host : string; HTTP_Port : Z;
  HTTP_ReadTimeout : Z; HTTP_WriteTimeout : Z; HTTP_IdleTimeout : Z }.

Record GRPCConfig := MkGRPCConfig { GRPC_Host : string; GRPC_Port : Z }.

Record ServerConfig := MkServerConfig { HTTP : HTTPConfig; GRPC : GRPCConfig; ShutdownTimeout : Z }.

Record DBConfig := MkDBConfig {
  DB_Enabled : bool;
  Driver : string;
  DB_Host : string;
  DB_Port : Z;
  DB_Database : string;
  DB_Username : string;
  DB_Password : string;
  DB_SSLMode : string;
  DB_LogEnabled : bool;
  DB_LogLevel : string;
  DB_SlowQueryThreshold : Z
}.

Definition no_db : DBConfig := MkDBConfig false "" "" 0 "" "" "" "" false "" 0.

Record DBPoolConfig := MkDBPoolConfig {
  Pool_MaxOpenConns : Z; Pool_MaxIdleConns : Z; Pool_ConnMaxLifetime : Z; Pool_ConnMaxIdleTime : Z }.

Record DatabaseConfig := MkDatabaseConfig { Primary : DBConfig; Replica : DBConfig; Pool : DBPoolConfig }.

Record MetricsConfig := MkMetricsConfig { Metrics_Enabled : bool; Metrics_Endpoint : string; ListenAddr : string }.

Record TracingConfig := MkTracingConfig {
  Tracing_Enabled : bool; Tracing_Type : string; Tracing_Endpoint : string; SampleRate : float64 }.

Record GlobalConfig := MkGlobal {
  App : AppConfig;
  Framework : FrameworkConfig;
  Server : ServerConfig;
  Database : DatabaseConfig;
  Metrics : MetricsConfig;
  Tracing : TracingConfig
}.

Definition DefaultConfig : GlobalConfig :=
  MkGlobal (MkApp "golang-gin-rpc" "1.0.0" "development")
    (MkFramework true ["rpc"])
    (MkServerConfig
       (MkHTTPConfig true "0.0.0.0" 8080 (30 * GoTime.Second) (30 * GoTime.Second) (120 * GoTime.Second))
       (MkGRPCConfig "0.0.0.0" 9090) (30 * GoTime.Second))
    (MkDatabaseConfig (MkDBConfig true "postgres" "localhost" 5432 "app" "" "" "disable" false "" 0) no_db
       (MkDBPoolConfig 25 10 (5 * GoTime.Minute) (10 * GoTime.Minute)))
    (MkMetricsConfig true "/metrics" "")
    (MkTracingConfig false "jaeger" "" (fdiv (of_int 1) (of_int 10))).

(** [Loader.validate]. *)
Definition validate (c : GlobalConfig) : option error :=
  if decide (App_Name (App c) = "") then Some (Errorf "app name is required" [])
  else if HTTP_Enabled (HTTP (Server c)) && (HTTP_Port (HTTP (Server c)) =? 0) then
    Some (Errorf "http port is required when enabled" [])
  else if DB_Enabled (Primary (Database c)) && bool_decide (DB_Host (Primary (Database c)) = "") then
    Some (Errorf "database host is required" [])
  else None.

(** ** A decoded YAML value *)

Inductive yval : Type :=
| YStr (s : string)
| YInt (z : Z)
| YFloat (f : float64)
| YBool (b : bool)
| YMap (kvs : list (string * yval))
| YOther.

(** [m[k]] of a [map[string]interface{}]; a decoded mapping has a key once. *)
Definition yget (k : string) (m : list (string * yval)) : option yval :=
  snd <$> List.find (λ kv, bool_decide (kv.1 = k)) m.

(** The type assertions, with ok. *)
Definition as_string (v : option yval) : option string := match v with Some (YStr s) => Some s | _ => None end.
Definition as_bool (v : option yval) : option bool := match v with Some (YBool b) => Some b | _ => None end.
Definition as_map (v : option yval) : option (list (string * yval)) := match v with Some (YMap m) => Some m | _ => None end.

(** [if p, ok := v.(int); ok ... else if f, ok := v.(float64); ok ...]. *)
Definition as_number (v : option yval) : option Z :=
  match v with
  | Some (YInt z) => Some z
  | Some (YFloat f) => Some (to_int f)
  | _ => None
  end.

(** A string that parses as a duration; any other value is ignored. *)
Definition as_duration (v : option yval) : option Z :=
  match as_string v with
  | Some s => ParseDuration s
  | None => None
  end.

(** [normalizeFlatServer]: the decoded section [server], when the file has one
    that decodes: its host, its port and whether it has a section [http]. *)
Record server_section := MkServerSection { sec_Host : string; sec_Port : option yval; sec_HTTP : bool }.

Definition set_http (h : HTTPConfig) (c : GlobalConfig) : GlobalConfig :=
  MkGlobal (App c) (Framework c) (MkServerConfig h (GRPC (Server c)) (ShutdownTimeout (Server c)))
    (Database c) (Metrics c) (Tracing c).

Definition normalizeFlatServer (sec : option server_section) (c : GlobalConfig) : GlobalConfig :=
  match sec with
  | None => c
  | Some sec =>
      if sec_HTTP sec then c
      else
        let h := HTTP (Server c) in
        let host := if decide (sec_Host sec = "") then HTTP_Host h else sec_Host sec in
        let port :=
          match sec_Port sec with
          | Some (YInt z) => z
          | Some (YStr s) => default (HTTP_Port h) (GoStrconv.Atoi s)
          | _ => HTTP_Port h
          end in
        set_http (MkHTTPConfig (HTTP_Enabled h) host port (HTTP_ReadTimeout h) (HTTP_WriteTimeout h)
                    (HTTP_IdleTimeout h)) c
  end.

(** ** bootstrap/pluginconfig *)

Record RPCServerConfig := MkRPCServer {
  rs_Type : string; rs_Host : string; rs_Port : Z; rs_Network : string;
  rs_Timeout : Z; rs_MaxMsgSize : Z; rs_EnableTLS : bool; rs_Reflection : bool }.

Record DegradationCfg := MkDegradationCfg {
  deg_Enabled : bool; deg_Level : string; deg_AutoDetect : bool; deg_CPUThreshold : float64;
  deg_MemoryThreshold : float64; deg_ErrorRateThreshold : float64; deg_LatencyThreshold : Z;
  deg_EnableCircuitBreaker : bool }.

Record RPCConfig := MkRPCConfig {
  RPC_Enabled : bool; Protocol : string; RPC_Servers : gmap string RPCServerConfig; RPC_Degradation : DegradationCfg }.

Record DiscoveryCfg := MkDiscoveryCfg {
  Disc_Enabled : bool; Disc_Type : string; Disc_Address : string; Disc_Timeout : Z; Disc_Config : gmap string string }.

Record RedisCfg := MkRedisCfg {
  Redis_Mode : string; Redis_Host : string; Redis_Port : Z; Redis_Password : string; Redis_Database : Z;
  Redis_PoolSize : Z; Redis_MinIdleConns : Z; Redis_Nodes : list NodeConfig }.

Record JWTConfig := MkJWTConfig { JWT_Enabled : bool; JWT_Secret : string; JWT_Expiration : Z }.

Record CORSConfig := MkCORSConfig {
  AllowOrigins : list string; AllowMethods : list string; AllowHeaders : list string; AllowCredentials : bool }.

Record RateLimitConfig := MkRateLimitConfig { Rate_Enabled : bool; Rate_Limit : Z; Rate_Window : Z }.

Record PluginConfig := MkPluginConfig {
  Redis : RedisCfg;
  RPC : RPCConfig;
  Discovery : DiscoveryCfg;
  JWT : JWTConfig;
  CORS : CORSConfig;
  RateLimit : RateLimitConfig
}.

Definition pluginconfig_Default : PluginConfig :=
  MkPluginConfig
    (MkRedisCfg "single" "localhost" 6379 "" 0 10 2 [])
    (MkRPCConfig true "grpc" ∅
       (MkDegradationCfg true "normal" true (of_int 80) (of_int 85) (of_int 50) (5 * GoTime.Second) true))
    (MkDiscoveryCfg false "consul" "" 0 ∅)
    (MkJWTConfig false "" (24 * 60 * GoTime.Minute))
    (MkCORSConfig ["*"] ["GET"; "POST"; "PUT"; "DELETE"; "OPTIONS"] ["*"] false)
    (MkRateLimitConfig false 100 GoTime.Minute).

(** [Load]: the sections in turn, each decoded over its default; [decode] is what
    [UnmarshalSection] does with a section, [None] for a nil source. *)
Definition pluginconfig_Load (decode : option (string → PluginConfig → PluginConfig * option error)) :
    result PluginConfig :=
  match decode with
  | None => Ok pluginconfig_Default
  | Some decode =>
      foldl (λ acc name,
        match acc with
        | Err e => Err e
        | Ok cfg =>
            match decode name cfg with
            | (_, Some e) => Err (ErrorfW "pluginconfig: %w" [] e)
            | (cfg, None) => Ok cfg
            end
        end) (Ok pluginconfig_Default) ["redis"; "rpc"; "discovery"; "messaging"; "security"]
  end.

(** ** Helpers of bootstrap.go *)

Definition firstNonEmpty (value fallback : string) : string :=
  if decide (value = "") then fallback else value.

Definition rpcTimeoutOrDefault (seconds : Z) : Z := if seconds >? 0 then seconds else 30.

Definition rpcMaxMsgSizeOrDefault (maxMsgSize : Z) : Z :=
  if maxMsgSize >? 0 then maxMsgSize else 4 * 1024 * 1024.

Definition splitAndTrim (value : string) : list string :=
  if decide (value = "") then []
  else filter (λ part, part ≠ "") (TrimSpace <$> Split ","%char value).

(** The levels of rpc.DegradationLevel. *)
Definition parseDegradationLevel (level : string) : Z :=
  if decide (level = "light") then 1
  else if decide (level = "medium") then 2
  else if decide (level = "heavy") then 3
  else if decide (level = "emergency") then 4
  else 0.

(** ** Database sections *)

Record mysql_Config := MkMySQL {
  my_Host : string; my_Port : Z; my_Database : string; my_Username : string; my_Password : string;
  my_Charset : string; my_MaxOpenConns : Z; my_MaxIdleConns : Z; my_ConnMaxLifetime : Z; my_ConnMaxIdleTime : Z;
  my_LogEnabled : bool; my_LogLevel : string; my_SlowQueryThreshold : Z }.

Definition mysql_DefaultConfig : mysql_Config :=
  MkMySQL "localhost" 3306 "" "" "" "utf8mb4" 25 10 Hour (30 * GoTime.Minute) false "" 0.

Record postgres_Config := MkPostgres {
  pg_Host : string; pg_Port : Z; pg_Database : string; pg_Username : string; pg_Password : string;
  pg_SSLMode : string; pg_MaxOpenConns : Z; pg_MaxIdleConns : Z; pg_ConnMaxLifetime : Z;
  pg_LogEnabled : bool; pg_LogLevel : string; pg_SlowQueryThreshold : Z }.

Definition postgres_DefaultConfig : postgres_Config :=
  MkPostgres "localhost" 5432 "" "" "" "disable" 25 10 Hour false "" 0.

(** [db.Config] with the section of its type. *)
Inductive db_Config := DbMySQL (c : mysql_Config) | DbPostgres (c : postgres_Config) | DbRedis (c : RedisClient.Config).

Definition positive_or (z d : Z) : Z := if z >? 0 then z else d.

Definition buildDBConfig (dbConfig : DBConfig) (poolCfg : DBPoolConfig) : result db_Config :=
  let log := DB_LogEnabled dbConfig in
  let level d := if log && negb (bool_decide (DB_LogLevel dbConfig = "")) then DB_LogLevel dbConfig else d in
  let slow d := if log && (DB_SlowQueryThreshold dbConfig >? 0) then DB_SlowQueryThreshold dbConfig else d in
  if decide (Driver dbConfig = "mysql") then
    let cfg := mysql_DefaultConfig in
    Ok (DbMySQL (MkMySQL (DB_Host dbConfig) (DB_Port dbConfig) (DB_Database dbConfig) (DB_Username dbConfig)
      (DB_Password dbConfig) (my_Charset cfg)
      (positive_or (Pool_MaxOpenConns poolCfg) (my_MaxOpenConns cfg))
      (positive_or (Pool_MaxIdleConns poolCfg) (my_MaxIdleConns cfg))
      (positive_or (Pool_ConnMaxLifetime poolCfg) (my_ConnMaxLifetime cfg))
      (positive_or (Pool_ConnMaxIdleTime poolCfg) (my_ConnMaxIdleTime cfg))
      (my_LogEnabled cfg || log) (level (my_LogLevel cfg)) (slow (my_SlowQueryThreshold cfg))))
  else if decide (Driver dbConfig = "postgres" ∨ Driver dbConfig = "postgresql") then
    let cfg := postgres_DefaultConfig in
    Ok (DbPostgres (MkPostgres (DB_Host dbConfig) (DB_Port dbConfig) (DB_Database dbConfig) (DB_Username dbConfig)
      (DB_Password dbConfig) (DB_SSLMode dbConfig)
      (positive_or (Pool_MaxOpenConns poolCfg) (pg_MaxOpenConns cfg))
      (positive_or (Pool_MaxIdleConns poolCfg) (pg_MaxIdleConns cfg))
      (positive_or (Pool_ConnMaxLifetime poolCfg) (pg_ConnMaxLifetime cfg))
      (pg_LogEnabled cfg || log) (level (pg_LogLevel cfg)) (slow (pg_SlowQueryThreshold cfg))))
  else Err (Errorf "unsupported database driver: %s" [Driver dbConfig]).

(** ** The service-level format (bootstrap_service_db.go) *)

(** The configuration [createMySQLFromServiceConfig] builds. *)
Definition mysql_from_service (m : list (string * yval)) : mysql_Config :=
  let c := mysql_DefaultConfig in
  MkMySQL (default (my_Host c) (as_string (yget "host" m)))
    (default (my_Port c) (as_number (yget "port" m)))
    (default (my_Database c) (as_string (yget "database" m)))
    (default (my_Username c) (as_string (yget "username" m)))
    (default (my_Password c) (as_string (yget "password" m)))
    (default (my_Charset c) (as_string (yget "charset" m)))
    (default (my_MaxOpenConns c) (as_number (yget "max_open_conns" m)))
    (default (my_MaxIdleConns c) (as_number (yget "max_idle_conns" m)))
    (default (my_ConnMaxLifetime c) (as_duration (yget "conn_max_lifetime" m)))
    (default (my_ConnMaxIdleTime c) (as_duration (yget "conn_max_idle_time" m)))
    (default (my_LogEnabled c) (as_bool (yget "log_enabled" m)))
    (default (my_LogLevel c) (as_string (yget "log_level" m)))
    (default (my_SlowQueryThreshold c) (as_duration (yget "slow_query_threshold" m))).

(** [createPostgresFromServiceConfig]; the idle time is parsed and dropped. *)
Definition postgres_from_service (m : list (string * yval)) : postgres_Config :=
  let c := postgres_DefaultConfig in
  MkPostgres (default (pg_Host c) (as_string (yget "host" m)))
    (default (pg_Port c) (as_number (yget "port" m)))
    (default (pg_Database c) (as_string (yget "database" m)))
    (default (pg_Username c) (as_string (yget "username" m)))
    (default (pg_Password c) (as_string (yget "password" m)))
    (default (pg_SSLMode c) (as_string (yget "ssl_mode" m)))
    (default (pg_MaxOpenConns c) (as_number (yget "max_open_conns" m)))
    (default (pg_MaxIdleConns c) (as_number (yget "max_idle_conns" m)))
    (default (pg_ConnMaxLifetime c) (as_duration (yget "conn_max_lifetime" m)))
    (default (pg_LogEnabled c) (as_bool (yget "log_enabled" m)))
    (default (pg_LogLevel c) (as_string (yget "log_level" m)))
    (default (pg_SlowQueryThreshold c) (as_duration (yget "slow_query_threshold" m))).

(** [createRedisFromServiceConfig]. *)
Definition redis_from_service (m : list (string * yval)) : RedisClient.Config :=
  let c := RedisClient.DefaultConfig in
  let t := tuning c in
  RedisClient.MkConfig (default (RedisClient.mode c) (as_string (yget "mode" m))) (Nodes c)
    (default (RedisClient.Host c) (as_string (yget "host" m)))
    (default (RedisClient.Port c) (as_number (yget "port" m)))
    (default (Password c) (as_string (yget "password" m)))
    (default (RedisClient.Database c) (as_number (yget "database" m))) (KeyPrefix c)
    (MkTuning (Timeout t)
       (default (MaxRetries t) (as_number (yget "max_retries" m)))
       (default (PoolSize t) (as_number (yget "pool_size" m)))
       (default (MinIdleConns t) (as_number (yget "min_idle_conns" m)))
       (MaxIdleConns t) (ConnMaxIdleTime t) (ConnMaxLifetime t)
       (default (DialTimeout t) (as_duration (yget "dial_timeout" m)))
       (default (ReadTimeout t) (as_duration (yget "read_timeout" m)))
       (default (WriteTimeout t) (as_duration (yget "write_timeout" m)))
       (default (PoolTimeout t) (as_duration (yget "pool_timeout" m)))
       (IdleTimeout t) (IdleCheckFrequency t))
    (RedisClient.Enabled c) (RedisClient.Sentinel c) (RedisClient.Cluster c) (RedisClient.Multi c).

(** [processServiceDatabaseConfig] up to the creation of the client: the name of
    the database for messages, the role and the configuration. *)
Definition service_db_config (key : string) (config : yval) : result (string * string * db_Config) :=
  match Split "_"%char key with
  | dbType :: role :: _ =>
      let role := if decide (dbType = "redis" ∧ role = "cache") then "primary" else role in
      match config with
      | YMap configMap =>
          if decide (as_string (yget "type" configMap) = Some dbType) then
            match as_map (yget dbType configMap) with
            | None => Err (Errorf "missing %s configuration in %s" [dbType; key])
            | Some m =>
                if decide (dbType = "mysql") then Ok ("MySQL", role, DbMySQL (mysql_from_service m))
                else if decide (dbType = "postgres" ∨ dbType = "postgresql") then
                  Ok ("PostgreSQL", role, DbPostgres (postgres_from_service m))
                else if decide (dbType = "redis") then Ok ("Redis", role, DbRedis (redis_from_service m))
                else Err (Errorf "unsupported database type: %s" [dbType])
            end
          else Err (Errorf "database type mismatch for %s: expected %s" [key; dbType])
      | _ => Err (Errorf "invalid database config format for %s" [key])
      end
  | _ => Err (Errorf "invalid database config key format: %s" [key])
  end.

(** ** LoadDatabaseConfig (bootstrap/bootstrap.go) *)

(** A port may also be a text here. *)
Definition as_port (v : option yval) (d : Z) : Z :=
  match v with
  | Some (YInt z) => z
  | Some (YFloat f) => to_int f
  | Some (YStr s) => default d (GoStrconv.Atoi s)
  | _ => d
  end.

(** Driver by the type, or else by the name of the entry. *)
Definition db_driver (name : string) (configMap : list (string * yval)) : string :=
  match yget "type" configMap with
  | Some v => default "" (as_string (Some v))
  | None =>
      if Contains name "mysql" then "mysql"
      else if Contains name "postgres" || Contains name "pg" then "postgres"
      else ""
  end.

Definition load_db_entry (name : string) (configMap : list (string * yval)) : DBConfig :=
  let drv := db_driver name configMap in
  match yget "mysql" configMap with
  | Some (YMap m) =>
      MkDBConfig true drv (default "" (as_string (yget "host" m))) (as_port (yget "port" m) 0)
        (default "" (as_string (yget "database" m))) (default "" (as_string (yget "username" m)))
        (default "" (as_string (yget "password" m))) (default "" (as_string (yget "charset" m)))
        (default false (as_bool (yget "log_enabled" m))) (default "" (as_string (yget "log_level" m)))
        (default 0 (as_duration (yget "slow_query_threshold" m)))
  | Some _ => MkDBConfig true drv "" 0 "" "" "" "" false "" 0
  | None =>
      MkDBConfig true drv (default "" (as_string (yget "host" configMap))) (as_port (yget "port" configMap) 0)
        (default "" (as_string (yget "database" configMap))) (default "" (as_string (yget "username" configMap)))
        (default "" (as_string (yget "password" configMap))) "" false "" 0
  end.

(** The entries that are mappings, by name. *)
Definition load_db_entries (raw : list (string * yval)) : gmap string DBConfig :=
  foldl (λ acc kv, match kv.2 with YMap m => <[kv.1 := load_db_entry kv.1 m]> acc | _ => acc end) ∅ raw.

(** [UpdateDatabaseConfig] on the configuration. *)
Definition update_databases (dbs : gmap string DBConfig) (c : GlobalConfig) : GlobalConfig :=
  let d := Database c in
  MkGlobal (App c) (Framework c) (Server c)
    (MkDatabaseConfig (default (Primary d) (dbs !! "mysql_primary")) (default (Replica d) (dbs !! "mysql_replica"))
       (Pool d))
    (Metrics c) (Tracing c).

(** ** Lemmas *)

(** A list of tags written with commas is read back. *)
Lemma splitAndTrim_Join ps :
  Forall (λ p, p ≠ "" ∧ trimmed p ∧ Contains p "," = false) ps → splitAndTrim (GoString.Join "," ps) = ps.
Proof.
  intros Hps. destruct ps as [|p ps]; [done|]. unfold splitAndTrim.
  assert (Hne : GoString.Join "," (p :: ps) ≠ "").
  { apply Forall_cons in Hps as [(Hp & _) _]. destruct ps; [done|].
    rewrite Join_cons by done. destruct p; done. }
  rewrite decide_False by done. rewrite Split_Join by (eapply Forall_impl; [exact Hps|by intros ? (_ & _ & ?)]).
  assert (Hm : TrimSpace <$> p :: ps = p :: ps).
  { clear Hne. induction Hps as [|q qs (_ & Hq & _) _ IH]; [done|].
    rewrite fmap_cons, IH. by rewrite TrimSpace_trimmed. }
  rewrite Hm. apply filter_all. intros x Hx. rewrite Forall_forall in Hps. by apply Hps.
Qed.

(** A configuration that is built has a driver that is supported, keeps the
    address and the credentials of its section, and a positive pool setting
    replaces the default one. *)
Lemma buildDBConfig_spec d p :
  match buildDBConfig d p with
  | Ok (DbMySQL c) => Driver d = "mysql" ∧ my_Host c = DB_Host d ∧ my_Port c = DB_Port d ∧
      my_Database c = DB_Database d ∧ my_Username c = DB_Username d ∧ my_Password c = DB_Password d ∧
      my_MaxOpenConns c > 0 ∧ my_MaxIdleConns c > 0 ∧ my_LogEnabled c = DB_LogEnabled d
  | Ok (DbPostgres c) => (Driver d = "postgres" ∨ Driver d = "postgresql") ∧ pg_Host c = DB_Host d ∧
      pg_Port c = DB_Port d ∧ pg_Database c = DB_Database d ∧ pg_Username c = DB_Username d ∧
      pg_Password c = DB_Password d ∧ pg_SSLMode c = DB_SSLMode d ∧
      pg_MaxOpenConns c > 0 ∧ pg_MaxIdleConns c > 0 ∧ pg_LogEnabled c = DB_LogEnabled d
  | Ok (DbRedis _) => False
  | Err e => Driver d ∉ ["mysql"; "postgres"; "postgresql"] ∧
      e = Errorf "unsupported database driver: %s" [Driver d]
  end.
Proof.
  unfold buildDBConfig, positive_or.
  destruct (decide (Driver d = "mysql")) as [Hm|Hm].
  { split_and!; simpl; try done; case_match; lia. }
  destruct (decide (_ ∨ _)) as [Hp|Hp].
  { split_and!; simpl; try done; case_match; lia. }
  split; [|done]. set_solver.
Qed.

(** The pool settings of a MySQL section whose limits are all set are those. *)
Lemma positive_or_pos z d : z > 0 → positive_or z d = z.
Proof. unfold positive_or. intros H. destruct (z >? 0) eqn:E; [done|lia]. Qed.

Lemma load_db_entries_enabled raw name c : load_db_entries raw !! name = Some c → DB_Enabled c = true.
Proof.
  unfold load_db_entries.
  assert (H : ∀ l (acc : gmap string DBConfig), (∀ n c, acc !! n = Some c → DB_Enabled c = true) →
    ∀ n c, foldl (λ acc kv, match kv.2 with YMap m => <[kv.1 := load_db_entry kv.1 m]> acc | _ => acc end) acc l !! n
      = Some c → DB_Enabled c = true).
  { induction l as [|[k v] l IH]; intros acc Hacc n c' Hn; [by eapply Hacc|].
    simpl in Hn. eapply IH; [|exact Hn]. destruct v; try done. intros m c0.
    rewrite lookup_insert. case_decide; [|apply Hacc]. intros [= <-]. unfold load_db_entry.
    by repeat case_match. }
  apply H. intros n c0. by rewrite lookup_empty.
Qed.
