(* ===== verification/Bootstrap.v ===== *)
(** * internal/bootstrap: assembling the framework

    Models [bootstrap.go], the [init_*.go] files, [plugins_builtin.go],
    [dependency_coverage.go], [framework_entry.go] and the services of
    [service_manager.go] over [ServiceManager], [Kernel], [Loader] and
    [BootConfig].

    The components (cache, RPC manager, tracer, ...) are used through the
    operations of the class [Components]; the files that model them are the
    implementations.  [H] is the type of pointers to components, [X] the rest of
    the process and the network, [L] the type of [context.Context].  The fields
    of [Bootstrap] that a plugin, a factory or a service can reach are the record
    [Core]; those behind [pluginMu] and [serviceMu] are in [Framework]. *)

From S2P Require Import Prelude GoString GoFloat StableSort Kernel Loader ServiceManager BootConfig.
From S2P Require Discovery Degradation Jwt RedisClient.
From stdpp Require Import pretty functions.
Import GoError.

Open Scope Z_scope.

(** ** What the bootstrap hands to its components *)

(** [rpc.Config]. *)
Record rpc_Config := MkRpc {
  rpc_Type : string; rpc_Host : string; rpc_Port : Z; rpc_Network : string; rpc_Timeout : Z;
  rpc_MaxMsgSize : Z; rpc_EnableTLS : bool; rpc_Reflection : bool }.

(** [rpc.DiscoveryRegistrationConfig]. *)
Record registration := MkRegistration {
  reg_Enabled : bool; reg_ServiceName : string; reg_ServiceAddress : string; reg_ServiceTags : list string;
  reg_Metadata : gmap string string }.

(** The fields of [gateway.Config] that are set; the rest is [DefaultConfig].  The
    window is handed over as the text of this duration. *)
Record gateway_Config := MkGatewayConfig {
  gw_Host : string; gw_Port : Z; gw_ReadTimeout : Z; gw_WriteTimeout : Z; gw_IdleTimeout : Z;
  gw_AllowedOrigins : list string; gw_AllowedMethods : list string; gw_AllowedHeaders : list string;
  gw_AllowCredentials : bool; gw_RateEnabled : bool; gw_Requests : Z; gw_Window : Z;
  gw_DiscoveryType : string; gw_Endpoints : list string; gw_Namespace : string; gw_DiscoveryTimeout : Z;
  gw_DiscoveryEnabled : bool }.

Definition gateway_DefaultConfig : gateway_Config :=
  MkGatewayConfig "0.0.0.0" 8080 (30 * GoTime.Second) (30 * GoTime.Second) (60 * GoTime.Second)
    ["*"] ["GET"; "POST"; "PUT"; "DELETE"; "OPTIONS"] ["*"] false false 100 GoTime.Minute
    "static" [] "default" (5 * GoTime.Second) false.

(** The fields of [tracing.Config] that are set. *)
Record tracing_Config := MkTracing {
  tr_Enabled : bool; tr_Type : string; tr_Endpoint : string; tr_SampleRate : float64; tr_ServiceName : string;
  tr_ServiceVersion : string; tr_Environment : string }.

(** The section [actor] of the file. *)
Record actor_section := MkActorSection {
  act_Enabled : bool; act_MailboxSize : Z; act_MaxRestarts : Z; act_RestartAlways : bool }.

(** The options of the actor system: mailbox size, and the restarts of
    [RestartAlways] when it is the default supervision. *)
Record actor_options := MkActorOptions { opt_MailboxSize : Z; opt_Supervision : option Z }.

Definition actor_DefaultOptions : actor_options := MkActorOptions 64 None.

(** The fields of [Bootstrap] that point to components. *)
Inductive field :=
| Fdb | Fcache | FrpcManager | FwebsocketServer | FwebsocketManager | FactorSystem | FdiscoveryManager
| FhealthManager | FmetricsCollector | FauthManager | Ftracer | Fgateway | Fuploader.
#[global] Instance field_eq_dec : EqDecision field.
Proof. solve_decision. Defined.

(** Dependency keys (dependency_keys.go). *)
Definition DepDBFactory : string := "db.factory".
Definition DepCache : string := "cache".
Definition DepRPCManager : string := "rpc.manager".
Definition DepDiscoveryManager : string := "discovery.manager".
Definition DepErrorsInitialized : string := "errors.initialized".
Definition DepHealthManager : string := "health.manager".
Definition DepMetricsCollector : string := "metrics.collector".
Definition DepAuthManager : string := "auth.manager".
Definition DepTracer : string := "tracer".
Definition DepUploader : string := "upload.uploader".
Definition DepActorSystem : string := "actor.system".
Definition DepGateway : string := "gateway".
Definition DepGatewayHTTPService : string := "gateway.http_service".
Definition DepWebSocketServer : string := "websocket.server".
Definition DepWebSocketManager : string := "websocket.manager".

(** The operations of the components. *)
Class Components (H X L : Type) := {
  (* package context *)
  ctx_Background : L;
  ctx_WithTimeout : Z → L;
  (* plugins/db *)
  db_NewFactory : X → X * H;
  db_Create : H → db_Config → X → X * result H;
  db_Ping : H → X → X * option error;
  db_SetGlobalFactory : H → X → X;
  (* the file system: the decoded service database file, in the order the map is
     enumerated, or the error of finding, reading or decoding it *)
  service_db_file : X → result (list (string * yval));
  (* plugins/cache *)
  cache_New : RedisClient.Config → X → X * result H;
  cache_Close : H → X → X * option error;
  (* plugins/upload, plugins/actor *)
  upload_New : X → X * H;
  actor_New : actor_options → X → X * H;
  actor_Shutdown : H → X → X * option error;
  (* plugins/discovery *)
  discovery_New : Discovery.ManagerConfig → X → X * result H;
  discovery_Start : H → X → X * option error;
  discovery_Stop : H → X → X * option error;
  (* plugins/rpc *)
  rpc_New : gmap string rpc_Config → X → X * H;
  rpc_NewDegradation : Degradation.DegradationConfig → X → X * result H;
  rpc_SetDegradation : H → H → X → X;
  rpc_Start : H → X → X * option error;
  rpc_Stop : H → X → X * option error;
  rpc_IsStarted : H → X → bool;
  rpc_SetDiscovery : H → H → registration → X → X * option error;
  (* plugins/health, plugins/metrics, plugins/auth, plugins/tracing *)
  health_New : X → X * H;
  health_Register : H → string → X → X;
  metrics_New : X → X * H;
  metrics_Serve : H → string → X → X;
  auth_New : Jwt.AuthConfig → X → X * H;
  tracing_New : tracing_Config → X → X * result H;
  tracing_Shutdown : H → L → X → X * option error;
  tracing_Global : X → option H;
  tracing_SetGlobal : option H → X → X;
  (* plugins/gateway and net/http *)
  gateway_New : gateway_Config → X → X * H;
  gateway_Initialize : H → X → X * option error;
  gateway_Start : H → X → X * option error;
  gateway_Stop : H → X → X * option error;
  gateway_NewHTTP : gateway_Config → X → X * result H;
  gateway_Of : H → H;
  gateway_CloseHTTP : H → X → X * option error;
  http_Listen : string → H → X → X * H;
  http_Shutdown : H → L → X → X * option error;
  (* plugins/websocket *)
  ws_NewServer : X → X * H;
  ws_NewManager : X → X * H;
  ws_Handle : H → string → H → X → X;
  ws_Start : H → X → X * option error;
  ws_Stop : H → L → X → X * option error;
  ws_CloseAll : H → X → X;
  ws_CloseRooms : X → X
}.

Section Bootstrap.
Context {H X L V : Type} `{!EqDecision H} `{!Components H X L}.

Inductive dependency := DepObject (h : H) | DepTrue.

(** What the loader decodes from the sections [gateway], [upload] and [actor]:
    an error, or the section when it is there. *)
Record Sections := MkSections {
  sec_gateway : result (option Z);
  sec_upload : result (option bool);
  sec_actor : result (option actor_section)
}.

Record Core := MkCore {
  config : GlobalConfig;
  pluginConfig : PluginConfig;
  sections : Sections;
  objects : field → option H;
  dependencies : gmap string dependency;
  skippedComponents : gset string;
  serviceDBConfigLoaded : bool;
  gatewayServices : gmap string (H * H);   (* server and HTTP service of the gateway services that run *)
  outside : X
}.

Definition set_object (f : field) (h : H) (b : Core) : Core :=
  MkCore (config b) (pluginConfig b) (sections b) (<[f := Some h]> (objects b)) (dependencies b)
    (skippedComponents b) (serviceDBConfigLoaded b) (gatewayServices b) (outside b).

Definition set_outside (x : X) (b : Core) : Core :=
  MkCore (config b) (pluginConfig b) (sections b) (objects b) (dependencies b)
    (skippedComponents b) (serviceDBConfigLoaded b) (gatewayServices b) x.

Definition setDependency (key : string) (v : dependency) (b : Core) : Core :=
  MkCore (config b) (pluginConfig b) (sections b) (objects b) (<[key := v]> (dependencies b))
    (skippedComponents b) (serviceDBConfigLoaded b) (gatewayServices b) (outside b).

Definition GetDependency (key : string) (b : Core) : option dependency := dependencies b !! key.

Definition MustGetDependency (key : string) (b : Core) : outcome dependency :=
  match GetDependency key b with
  | None => Panic "dependency not found: %s" [key]
  | Some v => Ret v
  end.

Definition markComponentSkipped (name : string) (b : Core) : Core :=
  MkCore (config b) (pluginConfig b) (sections b) (objects b) (dependencies b)
    ({[name]} ∪ skippedComponents b) (serviceDBConfigLoaded b) (gatewayServices b) (outside b).

Definition componentSkipped (name : string) (b : Core) : bool := bool_decide (name ∈ skippedComponents b).

Definition UpdateDatabaseConfig (dbConfigs : gmap string DBConfig) (b : Core) : Core :=
  MkCore (update_databases dbConfigs (config b)) (pluginConfig b) (sections b) (objects b) (dependencies b)
    (skippedComponents b) true (gatewayServices b) (outside b).

(** [b.x = h; b.setDependency(key, h)]. *)
Definition inject (f : field) (key : string) (h : H) (b : Core) : Core :=
  setDependency key (DepObject h) (set_object f h b).

(** An operation of the outside that returns an object. *)
Definition alloc {A} (op : X → X * A) (b : Core) : Core * A :=
  let '(x, a) := op (outside b) in (set_outside x b, a).

(** [shutdownTimeoutOrDefault], for a configuration that is not nil. *)
Definition shutdownTimeoutOrDefault (b : Core) : Z :=
  if ShutdownTimeout (Server (config b)) >? 0 then ShutdownTimeout (Server (config b)) else 30 * GoTime.Second.

(** ** init_database.go *)

(** One entry of [configs]: a client is created and pinged; the error of the ping is
    logged only. *)
Definition init_database (factory : H) (name : string) (dbConfig : DBConfig) (b : Core) : Core * option error :=
  if negb (DB_Enabled dbConfig) then (b, None)
  else
    match buildDBConfig dbConfig (Pool (Database (config b))) with
    | Err e => (b, Some (ErrorfW "failed to build database config %s: %w" [name] e))
    | Ok clientConfig =>
        match alloc (db_Create factory clientConfig) b with
        | (b, Err e) => (b, Some (ErrorfW "failed to create database client %s: %w" [name] e))
        | (b, Ok client) => ((alloc (db_Ping client) b).1, None)
        end
    end.

Fixpoint init_databases (factory : H) (configs : list (string * DBConfig)) (b : Core) : Core * option error :=
  match configs with
  | [] => (b, None)
  | (name, c) :: rest =>
      match init_database factory name c b with
      | (b, Some e) => (b, Some e)
      | (b, None) => init_databases factory rest b
      end
  end.

(** The two databases of the framework, in the order in which the map is
    enumerated. *)
Definition framework_databases (replica_first : bool) (b : Core) : list (string * DBConfig) :=
  let d := Database (config b) in
  if replica_first then [("replica", Replica d); ("primary", Primary d)]
  else [("primary", Primary d); ("replica", Replica d)].

(** bootstrap_service_db.go: the entries of the service database file. *)
Definition processServiceDatabaseConfig (factory : H) (key : string) (v : yval) (b : Core) : Core * option error :=
  match service_db_config key v with
  | Err e => (b, Some e)
  | Ok (db, role, c) =>
      match alloc (db_Create factory c) b with
      | (b, Err e) => (b, Some (ErrorfW ("failed to create " +:+ db +:+ " client for role %s: %w") [role] e))
      | (b, Ok client) => ((alloc (db_Ping client) b).1, None)
      end
  end.

Fixpoint process_all (factory : H) (entries : list (string * yval)) (b : Core) : Core * option error :=
  match entries with
  | [] => (b, None)
  | (key, v) :: rest =>
      match processServiceDatabaseConfig factory key v b with
      | (b, Some e) => (b, Some (ErrorfW "failed to process service database config %s: %w" [key] e))
      | (b, None) => process_all factory rest b
      end
  end.

Definition initializeServiceDatabases (factory : H) (b : Core) : Core * option error :=
  match service_db_file (outside b) with
  | Err e => (b, Some e)
  | Ok entries => process_all factory entries b
  end.

(** The end of [InitializeDatabases]. *)
Definition use_factory (factory : H) (b : Core) : Core :=
  let b := inject Fdb DepDBFactory factory b in
  set_outside (db_SetGlobalFactory factory (outside b)) b.

(** [InitializeDatabases]; the logger of the component is left out. *)
Definition InitializeDatabases (replica_first : bool) (b : Core) : Core * option error :=
  let '(b, factory) := alloc db_NewFactory b in
  if serviceDBConfigLoaded b then
    match init_databases factory (framework_databases replica_first b) b with
    | (b, Some e) => (b, Some e)
    | (b, None) => (use_factory factory b, None)
    end
  else
    match initializeServiceDatabases factory b with
    | (b, None) => (use_factory factory b, None)
    | (b, Some _) =>
        if negb (DB_Enabled (Primary (Database (config b)))) && negb (DB_Enabled (Replica (Database (config b)))) then
          (markComponentSkipped "db" b, None)
        else
          match init_databases factory (framework_databases replica_first b) b with
          | (b, Some e) => (b, Some e)
          | (b, None) => (use_factory factory b, None)
          end
    end.

(** ** The other components *)

Definition cache_config (r : RedisCfg) : RedisClient.Config :=
  let c := RedisClient.DefaultConfig in
  let t := RedisClient.tuning c in
  RedisClient.MkConfig (RedisClient.mode c) (RedisClient.Nodes c) (Redis_Host r) (Redis_Port r) (Redis_Password r)
    (Redis_Database r) (RedisClient.KeyPrefix c)
    (RedisClient.MkTuning (RedisClient.Timeout t) (RedisClient.MaxRetries t) (Redis_PoolSize r) (Redis_MinIdleConns r)
       (RedisClient.MaxIdleConns t) (RedisClient.ConnMaxIdleTime t) (RedisClient.ConnMaxLifetime t)
       (RedisClient.DialTimeout t) (RedisClient.ReadTimeout t) (RedisClient.WriteTimeout t) (RedisClient.PoolTimeout t)
       (RedisClient.IdleTimeout t) (RedisClient.IdleCheckFrequency t))
    (RedisClient.Enabled c) (RedisClient.Sentinel c) (RedisClient.Cluster c) (RedisClient.Multi c).

Definition InitializeCache (b : Core) : Core * option error :=
  let r := Redis (pluginConfig b) in
  if decide (Redis_Host r = "") then (markComponentSkipped "cache" b, None)
  else
    match alloc (cache_New (cache_config r)) b with
    | (b, Err e) => (b, Some (ErrorfW "failed to create redis cache: %w" [] e))
    | (b, Ok h) => (inject Fcache DepCache h b, None)
    end.

Definition InitializeUpload (b : Core) : Core * option error :=
  match sec_upload (sections b) with
  | Err e => (b, Some (ErrorfW "failed to parse upload config: %w" [] e))
  | Ok (Some true) => let '(b, h) := alloc upload_New b in (inject Fuploader DepUploader h b, None)
  | Ok _ => (b, None)
  end.

Definition InitializeActor (b : Core) : Core * option error :=
  match sec_actor (sections b) with
  | Err e => (b, Some (ErrorfW "failed to parse actor config: %w" [] e))
  | Ok None => (b, None)
  | Ok (Some s) =>
      if negb (act_Enabled s) then (b, None)
      else
        let opts := MkActorOptions
          (if act_MailboxSize s >? 0 then act_MailboxSize s else opt_MailboxSize actor_DefaultOptions)
          (if act_RestartAlways s then Some (act_MaxRestarts s) else opt_Supervision actor_DefaultOptions) in
        let '(b, h) := alloc (actor_New opts) b in (inject FactorSystem DepActorSystem h b, None)
  end.

Definition InitializeAuth (b : Core) : Core * option error :=
  let j := JWT (pluginConfig b) in
  if negb (JWT_Enabled j) then (markComponentSkipped "auth" b, None)
  else
    let cfg := Jwt.MkAuthConfig (JWT_Enabled j)
      (Jwt.MkConfig (JWT_Secret j) (JWT_Expiration j) (GoInt.i64 (JWT_Expiration j * 7)) false) in
    let '(b, h) := alloc (auth_New cfg) b in (inject FauthManager DepAuthManager h b, None).

Definition InitializeErrors (b : Core) : Core * option error :=
  (setDependency DepErrorsInitialized DepTrue b, None).

Definition InitializeHealth (b : Core) : Core * option error :=
  let '(b, h) := alloc health_New b in
  let register f name b :=
    match objects b f with
    | Some _ => set_outside (health_Register h name (outside b)) b
    | None => b
    end in
  let b := register Fcache "cache" (register Fdb "database" b) in
  (inject FhealthManager DepHealthManager h b, None).

(** The address of the metrics server. *)
Definition metrics_addr (m : MetricsConfig) : string :=
  if bool_decide (Metrics_Endpoint m = "") || HasPrefix (Metrics_Endpoint m) "/" then
    if decide (ListenAddr m = "") then ":9090" else ListenAddr m
  else Metrics_Endpoint m.

Definition InitializeMetrics (b : Core) : Core * option error :=
  if negb (Metrics_Enabled (Metrics (config b))) then (b, None)
  else
    let '(b, h) := alloc metrics_New b in
    let b := inject FmetricsCollector DepMetricsCollector h b in
    (set_outside (metrics_Serve h (metrics_addr (Metrics (config b))) (outside b)) b, None).

Definition InitializeTracing (b : Core) : Core * option error :=
  let t := Tracing (config b) in
  let a := App (config b) in
  if negb (Tracing_Enabled t) then (markComponentSkipped "tracing" b, None)
  else
    match alloc (tracing_New (MkTracing (Tracing_Enabled t) (Tracing_Type t) (Tracing_Endpoint t) (SampleRate t)
                                (App_Name a) (Version a) (Environment a))) b with
    | (b, Err e) => (b, Some (ErrorfW "failed to initialize tracing: %w" [] e))
    | (b, Ok h) =>
        let b := set_object Ftracer h b in
        let b := set_outside (tracing_SetGlobal (Some h) (outside b)) b in
        (setDependency DepTracer (DepObject h) b, None)
    end.

Definition shutdownTracer (h : H) (ctx : L) (b : Core) : Core * option error :=
  let b := if decide (tracing_Global (outside b) = Some h) then set_outside (tracing_SetGlobal None (outside b)) b else b in
  alloc (tracing_Shutdown h ctx) b.

(** ** init_rpc.go *)

Definition rpc_server_config (s : RPCServerConfig) : rpc_Config :=
  MkRpc (if decide (rs_Type s = "jsonrpc") then "jsonrpc" else "grpc") (rs_Host s) (rs_Port s)
    (firstNonEmpty (rs_Network s) "tcp") (rpcTimeoutOrDefault (rs_Timeout s)) (rpcMaxMsgSizeOrDefault (rs_MaxMsgSize s))
    false (rs_Reflection s).

(** The servers of the manager: those of the section, or one of the protocol. *)
Definition rpc_servers (b : Core) : gmap string rpc_Config :=
  let r := RPC (pluginConfig b) in
  let s := Server (config b) in
  if decide (RPC_Servers r = ∅) then
    if decide (Protocol r = "jsonrpc") then
      {[ "jsonrpc" := MkRpc "jsonrpc" (HTTP_Host (HTTP s)) (HTTP_Port (HTTP s)) "tcp" 30 0 false false ]}
    else
      {[ "grpc" := MkRpc "grpc" (GRPC_Host (GRPC s)) (GRPC_Port (GRPC s)) "tcp" 30 (4 * 1024 * 1024) false true ]}
  else rpc_server_config <$> RPC_Servers r.

Definition degradation_config (d : DegradationCfg) : Degradation.DegradationConfig :=
  let c := Degradation.DefaultDegradationConfig in
  Degradation.MkDegConfig (deg_Enabled d) (parseDegradationLevel (deg_Level d)) (deg_AutoDetect d)
    (deg_CPUThreshold d) (deg_MemoryThreshold d) (deg_ErrorRateThreshold d) (deg_LatencyThreshold d)
    (Degradation.EssentialMethods c) (Degradation.DisabledMethods c).

(** The registration of the RPC servers with discovery. *)
Definition registration_config (b : Core) : registration :=
  let d := Discovery (pluginConfig b) in
  let get k := default "" (Disc_Config d !! k) in
  MkRegistration (Disc_Enabled d) (App_Name (App (config b)))
    (firstNonEmpty (get "service_address")
       (firstNonEmpty (GRPC_Host (GRPC (Server (config b)))) (HTTP_Host (HTTP (Server (config b))))))
    (["rpc"; Protocol (RPC (pluginConfig b))] ++ splitAndTrim (get "rpc_tags")) (Disc_Config d).

Definition InitializeRPC (b : Core) : Core * option error :=
  let r := RPC (pluginConfig b) in
  if negb (RPC_Enabled r) then (b, None)
  else
    let '(b, m) := alloc (rpc_New (rpc_servers b)) b in
    let b := inject FrpcManager DepRPCManager m b in
    let '(b, err) :=
      if deg_Enabled (RPC_Degradation r) then
        match alloc (rpc_NewDegradation (degradation_config (RPC_Degradation r))) b with
        | (b, Err e) => (b, Some (ErrorfW "failed to create degradation manager: %w" [] e))
        | (b, Ok dm) => (set_outside (rpc_SetDegradation m dm (outside b)) b, None)
        end
      else (b, None) in
    match err with
    | Some e => (b, Some e)
    | None =>
        match alloc (rpc_Start m) b with
        | (b, Some e) => (b, Some (ErrorfW "failed to start RPC manager: %w" [] e))
        | (b, None) =>
            match objects b FdiscoveryManager with
            | None => (b, None)
            | Some d =>
                match alloc (rpc_SetDiscovery m d (registration_config b)) b with
                | (b, Some e) =>
                    (b, Some (ErrorfW "failed to connect rpc manager with discovery manager: %w" [] e))
                | (b, None) => (b, None)
                end
            end
        end
    end.

Definition discovery_config (b : Core) : Discovery.ManagerConfig :=
  let c := Discovery.DefaultManagerConfig in
  let d := Discovery (pluginConfig b) in
  Discovery.MkManagerConfig (Disc_Enabled d) (Disc_Type d) (Disc_Address d) (Disc_Timeout d)
    (Discovery.HealthCheckInterval c) (Discovery.HealthCheckTimeout c) (Discovery.AutoRegister c)
    (App_Name (App (config b))) (HTTP_Host (HTTP (Server (config b)))) (HTTP_Port (HTTP (Server (config b))))
    (Discovery.ServiceTags c).

Definition InitializeDiscovery (b : Core) : Core * option error :=
  let d := Discovery (pluginConfig b) in
  if negb (Disc_Enabled d) then (markComponentSkipped "discovery" b, None)
  else if decide (Disc_Address d = "") then (markComponentSkipped "discovery" b, None)
  else
    match alloc (discovery_New (discovery_config b)) b with
    | (b, Err e) => (b, Some (ErrorfW "failed to create discovery manager: %w" [] e))
    | (b, Ok m) =>
        match alloc (discovery_Start m) b with
        | (b, Some e) => (b, Some (ErrorfW "failed to start discovery manager: %w" [] e))
        | (b, None) =>
            let b := inject FdiscoveryManager DepDiscoveryManager m b in
            match objects b FrpcManager with
            | None => (b, None)
            | Some r =>
                match alloc (rpc_SetDiscovery r m (registration_config b)) b with
                | (b, Some e) =>
                    (b, Some (ErrorfW "failed to connect discovery manager with rpc manager: %w" [] e))
                | (b, None) => (b, None)
                end
            end
        end
    end.

(** ** init_gateway.go *)

Definition resolveGatewayPort (b : Core) : Z :=
  let port := GoInt.i64 (HTTP_Port (HTTP (Server (config b))) + 2) in
  match sec_gateway (sections b) with
  | Ok (Some p) => if p >? 0 then p else port
  | _ => port
  end.

(** The configuration of the gateway, which [InitializeGateway] and the factory of
    the service build alike. *)
Definition gateway_config (b : Core) : gateway_Config :=
  let c := gateway_DefaultConfig in
  let h := HTTP (Server (config b)) in
  let p := pluginConfig b in
  let d := Discovery p in
  MkGatewayConfig (HTTP_Host h) (resolveGatewayPort b) (HTTP_ReadTimeout h) (HTTP_WriteTimeout h) (HTTP_IdleTimeout h)
    (AllowOrigins (CORS p)) (AllowMethods (CORS p)) (AllowHeaders (CORS p)) (AllowCredentials (CORS p))
    (Rate_Enabled (RateLimit p)) (Rate_Limit (RateLimit p)) (Rate_Window (RateLimit p))
    (Disc_Type d) (if decide (Disc_Address d = "") then gw_Endpoints c else [Disc_Address d])
    (firstNonEmpty (default "" (Disc_Config d !! "namespace")) "default") (Disc_Timeout d)
    (gw_DiscoveryEnabled c).

Definition InitializeGateway (b : Core) : Core * option error :=
  let '(b, g) := alloc (gateway_New (gateway_config b)) b in
  let b := inject Fgateway DepGateway g b in
  match alloc (gateway_Initialize g) b with
  | (b, Some e) => (b, Some (ErrorfW "failed to initialize gateway: %w" [] e))
  | (b, None) =>
      match alloc (gateway_Start g) b with
      | (b, Some e) => (b, Some (ErrorfW "failed to start gateway: %w" [] e))
      | (b, None) => (b, None)
      end
  end.

(** ** InitializeAll *)

Fixpoint initialize_each (steps : list (string * (Core → Core * option error))) (b : Core) : Core * option error :=
  match steps with
  | [] => (b, None)
  | (what, step) :: steps =>
      match step b with
      | (b, Some e) => (b, Some (ErrorfW ("failed to initialize " +:+ what +:+ ": %w") [] e))
      | (b, None) => initialize_each steps b
      end
  end.

Definition InitializeAll (replica_first : bool) (b : Core) : Core * option error :=
  initialize_each
    [("databases", InitializeDatabases replica_first); ("cache", InitializeCache); ("upload", InitializeUpload);
     ("errors", InitializeErrors); ("health", InitializeHealth); ("metrics", InitializeMetrics);
     ("auth", InitializeAuth); ("tracing", InitializeTracing); ("RPC", InitializeRPC);
     ("discovery", InitializeDiscovery); ("gateway", InitializeGateway)] b.

(** ** The services of service_manager.go *)

Abbreviation Service := (@ManagedService Core L).
Abbreviation Factory := (@ServiceFactory Core L).

Definition set_gateway_service (name : string) (v : option (H * H)) (b : Core) : Core :=
  MkCore (config b) (pluginConfig b) (sections b) (objects b) (dependencies b)
    (skippedComponents b) (serviceDBConfigLoaded b)
    (match v with Some p => <[name := p]> (gatewayServices b) | None => delete name (gatewayServices b) end)
    (outside b).

(** [managedAPIGatewayService]. *)
Definition gateway_service_Start (name : string) (cfg : gateway_Config) (b : Core) : Core * option error :=
  match gatewayServices b !! name with
  | Some _ => (b, None)
  | None =>
      match alloc (gateway_NewHTTP cfg) b with
      | (b, Err e) => (b, Some e)
      | (b, Ok svc) =>
          let '(b, server) := alloc (http_Listen (gw_Host cfg +:+ ":" +:+ pretty (gw_Port cfg)) svc) b in
          (set_gateway_service name (Some (server, svc)) b, None)
      end
  end.

Definition gateway_service_Stop (name : string) (stopTimeout : Z) (ctx : option L) (b : Core) : Core * option error :=
  match gatewayServices b !! name with
  | None => (b, None)
  | Some (server, svc) =>
      let stopCtx :=
        match ctx with
        | Some c => c
        | None => ctx_WithTimeout (if stopTimeout <=? 0 then 30 * GoTime.Second else stopTimeout)
        end in
      let '(b, err) := alloc (http_Shutdown server stopCtx) b in
      let '(b, closeErr) := alloc (gateway_CloseHTTP svc) b in
      (set_gateway_service name None b, match err with None => closeErr | Some _ => err end)
  end.

(** The [startFn] of both gateway factories. *)
Definition gateway_start (name : string) (cfg : gateway_Config) (b : Core) : Core * option error :=
  match gateway_service_Start name cfg b with
  | (b, Some e) => (b, Some e)
  | (b, None) =>
      match gatewayServices b !! name with
      | None => (b, None)
      | Some (_, svc) =>
          let b := inject Fgateway DepGateway (gateway_Of svc) b in
          (setDependency DepGatewayHTTPService (DepObject svc) b, None)
      end
  end.

Definition gateway_adapter (name : string) (cfg : gateway_Config) (stopTimeout : Z) : Service :=
  of_adapter (MkAdapter name (Some (λ _, gateway_start name cfg)) (Some (gateway_service_Stop name stopTimeout))).

Definition default_gateway_factory : Factory :=
  λ b, (b, Ok (gateway_adapter ServiceAPIGateway (gateway_config b) (shutdownTimeoutOrDefault b))).

Definition rpc_service_Start (b : Core) : Core * option error :=
  match objects b FrpcManager with
  | None => InitializeRPC b
  | Some m => if rpc_IsStarted m (outside b) then (b, None) else alloc (rpc_Start m) b
  end.

Definition rpc_service_Stop (b : Core) : Core * option error :=
  match objects b FrpcManager with
  | None => (b, None)
  | Some m => if negb (rpc_IsStarted m (outside b)) then (b, None) else alloc (rpc_Stop m) b
  end.

Definition rpc_factory : Factory :=
  λ b, (b, Ok (of_adapter (MkAdapter ServiceRPC (Some (λ _, rpc_service_Start)) (Some (λ _, rpc_service_Stop))))).

Definition RegisterDefaultServiceFactories (s : @Services Core L) : @Services Core L * option error :=
  match RegisterServiceFactory ServiceAPIGateway (Some default_gateway_factory) s with
  | (s, Some e) => (s, Some e)
  | (s, None) =>
      match RegisterServiceFactory ServiceRPC (Some rpc_factory) s with
      | (s, Some e) => (s, Some e)
      | (s, None) => (s, None)
      end
  end.

Definition RegisterAPIGatewayServiceFactory (oname : string) (ocfg : option gateway_Config) (s : @Services Core L) :
    @Services Core L * option error :=
  let name := if decide (oname = "") then ServiceAPIGateway else oname in
  let cfg := default gateway_DefaultConfig ocfg in
  RegisterServiceFactory name (Some (λ b, (b, Ok (gateway_adapter name cfg 0)))) s.

(** [WebSocketServiceOptions]: the handler is left out, [HasRooms] says that a room
    manager is set. *)
Record WebSocketServiceOptions := MkWsOptions {
  ws_Name : string; ws_Addr : string; ws_ConfigPath : string; ws_Path : string; HasRooms : bool; ws_Manager : option H }.

Definition ws_path (o : WebSocketServiceOptions) : string :=
  let configured := if decide (ws_Addr o = "") then "/ws" else ws_ConfigPath o in
  let path := if decide (ws_Path o = "") then configured else ws_Path o in
  if decide (path = "") then "/ws" else path.

Definition ws_service_Start (o : WebSocketServiceOptions) (mgr : H) (b : Core) : Core * option error :=
  match objects b FwebsocketServer with
  | Some server => alloc (ws_Start server) b
  | None =>
      let '(b, server) := alloc ws_NewServer b in
      let b := set_outside (ws_Handle server (ws_path o) mgr (outside b)) b in
      let b := inject FwebsocketServer DepWebSocketServer server b in
      let b := inject FwebsocketManager DepWebSocketManager mgr b in
      alloc (ws_Start server) b
  end.

Definition ws_service_Stop (o : WebSocketServiceOptions) (mgr : H) (ctx : option L) (b : Core) : Core * option error :=
  match objects b FwebsocketServer with
  | None => (b, None)
  | Some server =>
      let b := if HasRooms o then set_outside (ws_CloseRooms (outside b)) b else b in
      let b := set_outside (ws_CloseAll mgr (outside b)) b in
      alloc (ws_Stop server (default (ctx_WithTimeout (10 * GoTime.Second)) ctx)) b
  end.

Definition RegisterWebSocketServiceFactory (o : WebSocketServiceOptions) (s : @Services Core L) :
    @Services Core L * option error :=
  let name := if decide (ws_Name o = "") then ServiceWebSocket else ws_Name o in
  RegisterServiceFactory name
    (Some (λ b,
       let '(b, mgr) := match ws_Manager o with Some m => (b, m) | None => alloc ws_NewManager b end in
       (b, Ok (of_adapter (MkAdapter name (Some (λ _, ws_service_Start o mgr)) (Some (ws_service_Stop o mgr))))))) s.

(** ** plugins_builtin.go *)

Abbreviation world := (@Kernel.world V Core).
Abbreviation Plugin := (@Kernel.Plugin V Core (option L)).

(** [builtinPlugin]. *)
Record builtinPlugin := MkBuiltin {
  bp_name : string;
  bp_softDeps : list string;
  bp_startFn : Core → Core * option error;
  bp_stopFn : option (option L → Core → Core * option error)
}.

Definition on_core (f : Core → Core * option error) (w : world) : world * option error :=
  let '(c, e) := f (Kernel.outside w) in (World (Kernel.services w) c, e).

(** As a [kernel.Plugin]: no hard dependencies, and a [Configure] that does
    nothing. *)
Definition builtin_plugin (p : builtinPlugin) : Plugin :=
  MkPlugin (bp_name p) [] (Some (bp_softDeps p)) (λ _ w, (w, None))
    (λ _, on_core (bp_startFn p))
    (λ ctx w, match bp_stopFn p with None => (w, None) | Some f => on_core (f (lifecycle ctx)) w end).

(** [if b.x != nil { return op(b.x) }]. *)
Definition stop_object (f : field) (op : H → Core → Core * option error) (b : Core) : Core * option error :=
  match objects b f with
  | None => (b, None)
  | Some h => op h b
  end.

(** Callers hand on a context that is not nil; a nil one would reach the tracer, and
    the model takes the background context for it. *)
Definition ctx_or_background (ctx : option L) : L := default ctx_Background ctx.

Definition builtins (replica_first : bool) : list builtinPlugin := [
  MkBuiltin "db" [] (InitializeDatabases replica_first) None;
  MkBuiltin "cache" [] InitializeCache (Some (λ _, stop_object Fcache (λ h, alloc (cache_Close h))));
  MkBuiltin "discovery" [] InitializeDiscovery
    (Some (λ _, stop_object FdiscoveryManager (λ h, alloc (discovery_Stop h))));
  MkBuiltin "tracing" [] InitializeTracing
    (Some (λ ctx, stop_object Ftracer (λ h, shutdownTracer h (ctx_or_background ctx))));
  MkBuiltin "auth" [] InitializeAuth None;
  MkBuiltin "metrics" [] InitializeMetrics None;
  MkBuiltin "health" ["db"; "cache"] InitializeHealth None;
  MkBuiltin "errors" [] InitializeErrors None;
  MkBuiltin "upload" [] InitializeUpload None;
  MkBuiltin "actor" [] InitializeActor (Some (λ _, stop_object FactorSystem (λ h, alloc (actor_Shutdown h))))
].

Abbreviation Reg := (@Kernel.Registry V Core (option L)).

(** The loop of [registerBuiltinPlugins]: a name of the default registry or of the
    registry is kept. *)
Fixpoint register_builtins (dr : Reg) (ps : list builtinPlugin) (r : Reg) : outcome Reg :=
  match ps with
  | [] => Ret r
  | p :: ps =>
      if decide (is_Some (Kernel.Get (bp_name p) dr)) then register_builtins dr ps r
      else if decide (is_Some (Kernel.Get (bp_name p) r)) then register_builtins dr ps r
      else
        match MustRegister (Some (builtin_plugin p)) r with
        | Panic f args => Panic f args
        | Ret r => register_builtins dr ps r
        end
  end.

(** ** framework_entry.go *)

Abbreviation App_ := (@Loader.App V Core (option L)).

Record Framework := MkFramework_ {
  core : Core;
  svcs : @Services Core L;
  locator : gmap string V;
  loader : ConfigSource;
  registry : option Reg;
  pluginApp : option App_;
  stoppedSet : gset string
}.

Definition set_core (c : Core) (f : Framework) : Framework :=
  MkFramework_ c (svcs f) (locator f) (loader f) (registry f) (pluginApp f) (stoppedSet f).
Definition set_svcs (s : @Services Core L) (f : Framework) : Framework :=
  MkFramework_ (core f) s (locator f) (loader f) (registry f) (pluginApp f) (stoppedSet f).
Definition set_world (w : world) (f : Framework) : Framework :=
  MkFramework_ (Kernel.outside w) (svcs f) (Kernel.services w) (loader f) (registry f) (pluginApp f) (stoppedSet f).
Definition set_registry (r : Reg) (f : Framework) : Framework :=
  MkFramework_ (core f) (svcs f) (locator f) (loader f) (Some r) (pluginApp f) (stoppedSet f).
Definition set_app (a : option App_) (f : Framework) : Framework :=
  MkFramework_ (core f) (svcs f) (locator f) (loader f) (registry f) a (stoppedSet f).

Definition pluginStarted (name : string) (f : Framework) : bool :=
  match pluginApp f with
  | None => false
  | Some a => App_Started a name
  end.

Definition pluginStopped (name : string) (f : Framework) : bool := bool_decide (name ∈ stoppedSet f).

Record FrameworkOptions := MkOptions {
  ValidateDependencyCoverage_ : bool;
  WebSocket : option WebSocketServiceOptions;
  Services_ : list string
}.

Definition DefaultFrameworkOptions : FrameworkOptions := MkOptions true None [ServiceRPC; ServiceAPIGateway].

Definition FrameworkOptionsFromConfig (f : Framework) : FrameworkOptions :=
  let c := BootConfig.Framework (config (core f)) in
  MkOptions (ValidateCoverage c) None (FServices c).

(** ** dependency_coverage.go *)

Definition componentDependencyKeys : list (string * string) :=
  [("db", DepDBFactory); ("cache", DepCache); ("discovery", DepDiscoveryManager); ("tracing", DepTracer);
   ("auth", DepAuthManager); ("metrics", DepMetricsCollector); ("health", DepHealthManager);
   ("errors", DepErrorsInitialized)].

(** The keys a service needs. *)
Definition service_keys (s : @Services Core L) (service : string) : list string :=
  let svc := TrimSpace service in
  match serviceDependencies svc s with
  | Some keys => keys
  | None =>
      if decide (svc = ServiceRPC) then [DepRPCManager]
      else if decide (svc = ServiceAPIGateway) then [DepGateway; DepGatewayHTTPService]
      else if decide (svc = ServiceWebSocket) then [DepWebSocketServer]
      else
        (if HasPrefix svc "api-gateway" then [DepGateway; DepGatewayHTTPService] else []) ++
        (if HasPrefix svc "websocket" then [DepWebSocketServer] else [])
  end.

Definition required_keys (services : list string) (f : Framework) : gset string :=
  list_to_set (snd <$> filter (λ p, pluginStarted p.1 f = true ∧ componentSkipped p.1 (core f) = false)
                         componentDependencyKeys)
  ∪ list_to_set (services ≫= service_keys (svcs f)).

Definition missing_keys (services : list string) (f : Framework) : list string :=
  filter (λ k, GetDependency k (core f) = None) (elements (required_keys services f)).

Definition ValidateDependencyCoverage (services : list string) (f : Framework) : option error :=
  let missing := missing_keys services f in
  match missing with
  | [] => None
  | _ => Some (Errorf "bootstrap dependency coverage validation failed, missing: %s"
                 [GoString.Join ", " (sortStrings missing)])
  end.

(** ** StartFramework *)

(** [StartFramework] after the plugins have started. *)
Definition start_services_and_validate (ctx : option L) (o : FrameworkOptions) (f : Framework) :
    Framework * option error :=
  let '(f, err) :=
    match WebSocket o with
    | None => (f, None)
    | Some w => let '(s, e) := RegisterWebSocketServiceFactory w (svcs f) in (set_svcs s f, e)
    end in
  match err with
  | Some e => (f, Some e)
  | None =>
      let '(f, err) :=
        match Services_ o with
        | [] => (f, None)
        | names =>
            let '(s, c, e) := StartServices ctx names (svcs f) (core f) in (set_core c (set_svcs s f), e)
        end in
      match err with
      | Some e => (f, Some e)
      | None => (f, if ValidateDependencyCoverage_ o then ValidateDependencyCoverage (Services_ o) f else None)
      end
  end.

(** [dr] is the process-wide registry, [ranges] the enumerations of the kernel's maps
    and [replica_first] that of the databases. *)
Definition StartFramework (dr : Reg) (ranges : gmap string Plugin → list string * list string * list string * list string)
    (replica_first : bool) (ctx : option L) (o : FrameworkOptions) (f : Framework) :
    outcome (Framework * option error) :=
  match register_builtins dr (builtins replica_first) (default NewRegistry (registry f)) with
  | Panic m args => Panic m args
  | Ret r =>
      let f := set_registry r f in
      let '(w, _, built) :=
        Build (MkLoader (Some (loader f)) (OwnRegistry r)) dr (Some ctx_Background) ranges
          (World (locator f) (core f)) in
      match built with
      | Panic m args => Panic m args
      | Ret (Err e) => Ret (set_world w f, Some (ErrorfW "failed to build plugin app: %w" [] e))
      | Ret (Ok app) =>
          match App_Start app ctx w with
          | (_, w, _, Some e) => Ret (set_world w f, Some e)
          | (app, w, _, None) =>
              Ret (start_services_and_validate ctx o (set_app (Some app) (set_world w f)))
          end
      end
  end.

(** ** Stopping *)

(** [stopPluginApp]: the errors of the plugins are logged only. *)
Definition stopPluginApp (ctx : option L) (f : Framework) : Framework * option error :=
  match pluginApp f with
  | None => (f, None)
  | Some app =>
      let '(_, w, _, _) := App_Stop app ctx (World (locator f) (core f)) in
      let f := set_app None (set_world w f) in
      (MkFramework_ (core f) (svcs f) (locator f) (loader f) (registry f) (pluginApp f)
         (list_to_set (Name <$> App_Plugins app) ∪ stoppedSet f), None)
  end.

Definition StopFramework (ctx : option L) (services : list string) (f : Framework) : Framework * option error :=
  let '(f, err) :=
    match services with
    | [] => (f, None)
    | _ => let '(c, e) := StopServices ctx services (svcs f) (core f) in (set_core c f, e)
    end in
  match err with
  | Some e => (f, Some e)
  | None => stopPluginApp ctx f
  end.

(** One step of [Close]: the component is closed unless it is nil or was stopped
    with its plugin. *)
Definition close_object (fld : field) (plugin : option string) (op : H → Core → Core * option error) (what : string)
    (st : Framework * list error) : Framework * list error :=
  let '(f, errs) := st in
  match objects (core f) fld with
  | None => st
  | Some h =>
      if match plugin with Some p => pluginStopped p f | None => false end then st
      else
        let '(c, e) := op h (core f) in
        (set_core c f, errs ++ match e with Some e => [ErrorfW (what +:+ " error: %w") [] e] | None => [] end)
  end.

(** [Close] with the errors it collects; it returns an error when there are any. *)
Definition Close (f : Framework) : Framework * list error :=
  let st :=
    if pluginStarted "cache" f || pluginStarted "rpc" f || pluginStarted "discovery" f || pluginStarted "tracing" f then
      match stopPluginApp (Some (ctx_WithTimeout (shutdownTimeoutOrDefault (core f)))) f with
      | (f, Some e) => (f, [ErrorfW "plugin app stop error: %w" [] e])
      | (f, None) => (f, [])
      end
    else (f, []) in
  let st := close_object Fcache (Some "cache") (λ h, alloc (cache_Close h)) "cache close" st in
  let st := close_object FrpcManager (Some "rpc") (λ h, alloc (rpc_Stop h)) "rpc manager close" st in
  let st := close_object FwebsocketServer None
              (λ h, alloc (ws_Stop h (ctx_WithTimeout (10 * GoTime.Second)))) "websocket server close" st in
  let st := close_object FdiscoveryManager (Some "discovery") (λ h, alloc (discovery_Stop h)) "discovery manager close" st in
  let st := close_object Ftracer (Some "tracing") (λ h, shutdownTracer h ctx_Background) "tracer close" st in
  let st := close_object Fgateway None (λ h, alloc (gateway_Stop h)) "gateway close" st in
  close_object FactorSystem (Some "actor") (λ h, alloc (actor_Shutdown h)) "actor system shutdown" st.

(** [NewBootstrap] once the configuration is loaded. *)
Definition NewBootstrap (cfg : GlobalConfig) (pcfg : result PluginConfig) (secs : Sections) (src : ConfigSource) (x : X) :
    result Framework :=
  match pcfg with
  | Err e => Err (ErrorfW "failed to load plugin config: %w" [] e)
  | Ok pcfg =>
      match RegisterDefaultServiceFactories no_services with
      | (_, Some e) => Err e
      | (s, None) =>
          Ok (MkFramework_ (MkCore cfg pcfg secs (λ _, None) ∅ ∅ false ∅ x) s ∅ src None None ∅)
      end
  end.

End Bootstrap.
