(* ===== verification/BootstrapProps.v ===== *)
(** * The framework: what a start and a stop achieve

    Theorems about [ServiceManager] and [Bootstrap], with the kernel's [Build] and
    [Start] ([Loader]) underneath. *)

From S2P Require Import Prelude GoString GoFloat StableSort TopoSort Kernel Loader ServiceManager BootConfig Bootstrap.
From stdpp Require Import functions.
Import GoError.

Open Scope Z_scope.

(** ** The services *)

Section ServiceProps.
Context {C L : Type}.


End ServiceProps.

(** Two services that record themselves, the second of which fails to start. *)
Definition recording (name : string) (ok : bool) : @ManagedService (list string) unit :=
  MkService name
    (λ _ c, if ok then (name :: c, None) else (c, Some (Errorf "port in use" [])))
    (λ _ c, match c with [] => ([], None) | _ :: c => (c, None) end).

Definition two_services : @Services (list string) unit :=
  (RegisterServiceFactory "rpc" (Some (λ c, (c, Ok (recording "rpc" true))))
    (RegisterServiceFactory "gateway" (Some (λ c, (c, Ok (recording "gateway" true)))) no_services).1).1.

(** Both services run, and stopping them restores the start. *)
Example two_services_stopped :
  let '(b, c, err) := StartServices (Some tt) [] two_services [] in
  c = ["rpc"; "gateway"] ∧ err = None ∧ StopServices (Some tt) [] b c = ([], None).
Proof. vm_compute. done. Qed.

(** The services before a failing one keep running: nothing stops them. *)
Example no_rollback_of_services :
  (StartServices (Some tt) []
     (RegisterServiceFactory "gateway" (Some (λ c, (c, Ok (recording "gateway" false))))
       (RegisterServiceFactory "rpc" (Some (λ c, (c, Ok (recording "rpc" true)))) no_services).1).1 [])
  .1.2 = ["rpc"].
Proof. vm_compute. done. Qed.

(** ** The components *)

Section FrameworkProps.
Context {H X L V : Type} `{!EqDecision H} `{!Components H X L}.

Abbreviation Core := (@Core H X).
Abbreviation world := (@Kernel.world V Core).
Abbreviation Plugin := (@Kernel.Plugin V Core (option L)).
Abbreviation Reg := (@Kernel.Registry V Core (option L)).

(** What starting components never takes back. *)
Record grows (b b' : Core) : Prop := {
  gr_config : config b' = config b;
  gr_plugin : pluginConfig b' = pluginConfig b;
  gr_deps : ∀ k, is_Some (dependencies b !! k) → is_Some (dependencies b' !! k);
  gr_skipped : skippedComponents b ⊆ skippedComponents b'
}.

#[local] Instance grows_preorder : PreOrder grows.
Proof.
  split; [by split|]. intros b1 b2 b3 [? ? H1 ?] [? ? H2 ?].
  split; [congruence|congruence|by intros k ?%H1%H2|by etrans].
Qed.

Lemma grows_outside x (b : Core) : grows b (set_outside x b).
Proof. by split. Qed.

Lemma grows_object f h (b : Core) : grows b (set_object f h b).
Proof. by split. Qed.

Lemma grows_dep k v (b : Core) : grows b (setDependency k v b).
Proof. split; try done. intros k' Hk. simpl. rewrite lookup_insert. case_decide; [done|]. exact Hk. Qed.

Lemma grows_skip n (b : Core) : grows b (markComponentSkipped n b).
Proof. split; try done. simpl. set_solver. Qed.

Lemma grows_inject f k h (b : Core) : grows b (inject f k h b).
Proof. unfold inject. etrans; [apply grows_object|apply grows_dep]. Qed.

Lemma grows_alloc {A} (op : X → X * A) (b b' : Core) a : alloc op b = (b', a) → grows b b'.
Proof. unfold alloc. destruct (op (outside b)). intros [= <- _]. apply grows_outside. Qed.

Lemma grows_init_database fac n c (b b' : Core) e : init_database fac n c b = (b', e) → grows b b'.
Proof.
  unfold init_database. destruct (negb _); [by intros [= <- _]|].
  destruct (buildDBConfig _ _) as [cfg|?]; [|by intros [= <- _]].
  destruct (alloc (db_Create fac cfg) b) as [b1 [cl|?]] eqn:H1; intros [= <- _]; [|by eapply grows_alloc].
  etrans; [by eapply grows_alloc|]. destruct (alloc (db_Ping cl) b1) eqn:H2. by eapply grows_alloc.
Qed.

Lemma grows_init_databases fac cs (b b' : Core) e : init_databases fac cs b = (b', e) → grows b b'.
Proof.
  revert b. induction cs as [|[n c] cs IH]; intros b; simpl; [by intros [= <- _]|].
  destruct (init_database fac n c b) as [b1 [e1|]] eqn:H1; [intros [= <- _]|intros H2];
    [by eapply grows_init_database|]. etrans; [by eapply grows_init_database|by apply IH].
Qed.

Lemma grows_process_all fac es (b b' : Core) e : process_all fac es b = (b', e) → grows b b'.
Proof.
  revert b. induction es as [|[k v] es IH]; intros b; simpl; [by intros [= <- _]|].
  assert (Hp : ∀ b1 e1, processServiceDatabaseConfig fac k v b = (b1, e1) → grows b b1).
  { intros b1 e1. unfold processServiceDatabaseConfig.
    destruct (service_db_config k v) as [[[d r] c]|?]; [|by intros [= <- _]].
    destruct (alloc (db_Create fac c) b) as [b2 [cl|?]] eqn:H1; intros [= <- _]; [|by eapply grows_alloc].
    etrans; [by eapply grows_alloc|]. destruct (alloc (db_Ping cl) b2) eqn:H2. by eapply grows_alloc. }
  destruct (processServiceDatabaseConfig fac k v b) as [b1 [e1|]] eqn:H1; [intros [= <- _]; by eapply Hp|].
  intros H2%IH. etrans; [by eapply Hp|done].
Qed.

Lemma use_factory_spec fac (b : Core) :
  grows b (use_factory fac b) ∧ is_Some (dependencies (use_factory fac b) !! DepDBFactory).
Proof.
  split; [unfold use_factory; etrans; [apply grows_inject|apply grows_outside]|].
  simpl. rewrite lookup_insert_eq. eauto.
Qed.

(** What a component's start leaves: its key or its mark. *)
Definition covers (name key : string) (b : Core) : Prop :=
  is_Some (dependencies b !! key) ∨ name ∈ skippedComponents b.

Lemma covers_grows name key (b b' : Core) : covers name key b → grows b b' → covers name key b'.
Proof. intros [Hk|Hs] Hg; [left; by apply (gr_deps _ _ Hg)|right; by apply (gr_skipped _ _ Hg)]. Qed.

Lemma covers_inject name f key h (b : Core) : covers name key (inject f key h b).
Proof. left. simpl. rewrite lookup_insert_eq. eauto. Qed.

Lemma covers_skip name key (b : Core) : covers name key (markComponentSkipped name b).
Proof. right. simpl. set_solver. Qed.

(** The start of a component grows the state, and when it returns nil the
    component is covered. *)
Definition starts_ok (cover : Core → Core → Prop) (f : Core → Core * option error) : Prop :=
  ∀ b, grows b (f b).1 ∧ ((f b).2 = None → cover b (f b).1).

Lemma InitializeDatabases_ok rf : starts_ok (λ _, covers "db" DepDBFactory) (InitializeDatabases rf).
Proof.
  intros b. unfold InitializeDatabases. destruct (alloc db_NewFactory b) as [b0 fac] eqn:H0.
  apply grows_alloc in H0. destruct (use_factory_spec fac b0) as [Hug Huk].
  assert (Hfw : ∀ b1 cs, grows b b1 → let r := match init_databases fac cs b1 with
      | (b, Some e) => (b, Some e) | (b, None) => (use_factory fac b, None) end in
      grows b r.1 ∧ (r.2 = None → covers "db" DepDBFactory r.1)).
  { intros b1 cs Hb. destruct (init_databases fac cs b1) as [b2 [e|]] eqn:Hi; apply grows_init_databases in Hi; simpl.
    - split; [by etrans|done].
    - destruct (use_factory_spec fac b2) as [Hg Hk]. split; [etrans; [by etrans|done]|by left]. }
  destruct (serviceDBConfigLoaded b0); [by apply Hfw|].
  assert (Hs : grows b0 (initializeServiceDatabases fac b0).1).
  { unfold initializeServiceDatabases. destruct (service_db_file _) as [es|]; [|done].
    destruct (process_all fac es b0) eqn:Hp. by eapply grows_process_all. }
  destruct (initializeServiceDatabases fac b0) as [b1 [e|]]; simpl in Hs.
  - destruct (_ && _); simpl.
    + split; [etrans; [by etrans|apply grows_skip]|intros _; apply covers_skip].
    + apply Hfw. by etrans.
  - destruct (use_factory_spec fac b1) as [Hg Hk]. simpl. split; [etrans; [by etrans|done]|by left].
Qed.

Lemma InitializeCache_ok : starts_ok (λ _, covers "cache" DepCache) InitializeCache.
Proof.
  intros b. unfold InitializeCache. case_decide; simpl; [split; [apply grows_skip|intros _; apply covers_skip]|].
  destruct (alloc _ b) as [b1 [h|e]] eqn:H1; apply grows_alloc in H1; simpl; [|done].
  split; [etrans; [done|apply grows_inject]|intros _; apply covers_inject].
Qed.

Lemma InitializeDiscovery_ok : starts_ok (λ _, covers "discovery" DepDiscoveryManager) InitializeDiscovery.
Proof.
  intros b. unfold InitializeDiscovery.
  destruct (negb _); [split; [apply grows_skip|intros _; apply covers_skip]|].
  case_decide; [split; [apply grows_skip|intros _; apply covers_skip]|].
  destruct (alloc _ b) as [b1 [m|e]] eqn:H1; apply grows_alloc in H1; [|done].
  destruct (alloc _ b1) as [b2 [e|]] eqn:H2; apply grows_alloc in H2; [simpl; split; [by etrans|done]|].
  cbv zeta.
  set (b3 := inject FdiscoveryManager DepDiscoveryManager m b2).
  assert (H3 : grows b b3) by (etrans; [by etrans|apply grows_inject]).
  assert (Hc : covers "discovery" DepDiscoveryManager b3) by apply covers_inject.
  destruct (objects b3 FrpcManager) as [r|]; [|by split].
  destruct (alloc _ b3) as [b4 [e|]] eqn:H4; apply grows_alloc in H4; simpl; (split; [by etrans|]);
    [done|intros _; by eapply covers_grows].
Qed.

Lemma InitializeTracing_ok : starts_ok (λ _, covers "tracing" DepTracer) InitializeTracing.
Proof.
  intros b. unfold InitializeTracing.
  destruct (negb _); simpl; [split; [apply grows_skip|intros _; apply covers_skip]|].
  destruct (alloc _ b) as [b1 [h|e]] eqn:H1; apply grows_alloc in H1; [|done]. cbn zeta. cbn [fst snd].
  split; [|intros _; left; simpl; rewrite lookup_insert_eq; eauto].
  etrans; [done|]. etrans; [apply (grows_object Ftracer h)|]. etrans; [apply grows_outside|apply grows_dep].
Qed.

Lemma InitializeAuth_ok : starts_ok (λ _, covers "auth" DepAuthManager) InitializeAuth.
Proof.
  intros b. unfold InitializeAuth. destruct (negb _); simpl; [split; [apply grows_skip|intros _; apply covers_skip]|].
  destruct (alloc _ b) as [b1 h] eqn:H1; apply grows_alloc in H1; simpl.
  split; [etrans; [done|apply grows_inject]|intros _; apply covers_inject].
Qed.

(** The metrics component is covered only when the configuration enables it. *)
Lemma InitializeMetrics_ok :
  starts_ok (λ b b', Metrics_Enabled (Metrics (config b)) = true → covers "metrics" DepMetricsCollector b')
    InitializeMetrics.
Proof.
  intros b. unfold InitializeMetrics. destruct (Metrics_Enabled _) eqn:Hm; simpl; [|done].
  destruct (alloc _ b) as [b1 h] eqn:H1; apply grows_alloc in H1; simpl.
  split; [etrans; [done|]; etrans; [apply grows_inject|apply grows_outside]|].
  intros _ _. eapply covers_grows; [apply (covers_inject _ FmetricsCollector _ h)|apply grows_outside].
Qed.

Lemma InitializeHealth_ok : starts_ok (λ _, covers "health" DepHealthManager) InitializeHealth.
Proof.
  intros b. unfold InitializeHealth. destruct (alloc _ b) as [b1 h] eqn:H1; apply grows_alloc in H1; simpl.
  split; [|intros _; apply covers_inject]. etrans; [|apply grows_inject]. etrans; [done|].
  repeat case_match; try done; repeat (etrans; [|apply grows_outside]); done.
Qed.

Lemma InitializeErrors_ok : starts_ok (λ _, covers "errors" DepErrorsInitialized) InitializeErrors.
Proof.
  intros b. simpl. split; [apply grows_dep|]. intros _. left. simpl. rewrite lookup_insert_eq. eauto.
Qed.

Lemma InitializeUpload_ok : starts_ok (λ _ _, True) InitializeUpload.
Proof.
  intros b. split; [|done]. unfold InitializeUpload.
  destruct (sec_upload _) as [[[]|]|]; try done.
  destruct (alloc _ b) as [b1 h] eqn:H1; apply grows_alloc in H1; simpl. etrans; [done|apply grows_inject].
Qed.

Lemma InitializeActor_ok : starts_ok (λ _ _, True) InitializeActor.
Proof.
  intros b. split; [|done]. unfold InitializeActor.
  destruct (sec_actor _) as [[s|]|]; try done. destruct (negb _); [done|].
  destruct (alloc _ b) as [b1 h] eqn:H1; apply grows_alloc in H1; simpl. etrans; [done|apply grows_inject].
Qed.

(** Every built-in component that has a dependency key. *)
Lemma builtins_ok rf p b :
  p ∈ builtins (L := L) rf →
  grows b (bp_startFn p b).1 ∧
  ((bp_startFn p b).2 = None → ∀ key, (bp_name p, key) ∈ componentDependencyKeys →
    (bp_name p = "metrics" → Metrics_Enabled (Metrics (config b)) = true) →
    covers (bp_name p) key (bp_startFn p b).1).
Proof.
  assert (Hcase : ∀ (name : string) (f : Core → Core * option error) (cov : Core → Core → Prop),
    starts_ok cov f →
    (∀ b b' key, cov b b' → (name, key) ∈ componentDependencyKeys →
       (name = "metrics" → Metrics_Enabled (Metrics (config b)) = true) → covers name key b') →
    ∀ b, grows b (f b).1 ∧ ((f b).2 = None → ∀ key, (name, key) ∈ componentDependencyKeys →
      (name = "metrics" → Metrics_Enabled (Metrics (config b)) = true) → covers name key (f b).1)).
  { intros name f cov Hok Hcov b0. destruct (Hok b0) as [Hg Hc]. split; [done|]. eauto. }
  intros Hp. repeat (apply elem_of_cons in Hp as [-> |Hp]); [..|by apply elem_of_nil in Hp]; simpl bp_startFn; simpl bp_name;
    (eapply Hcase; [first [apply InitializeDatabases_ok|apply InitializeCache_ok|apply InitializeDiscovery_ok
      |apply InitializeTracing_ok|apply InitializeAuth_ok|apply InitializeMetrics_ok|apply InitializeHealth_ok
      |apply InitializeErrors_ok|apply InitializeUpload_ok|apply InitializeActor_ok]|]);
    intros b1 b2 key Hc Hk Hm; unfold componentDependencyKeys in Hk;
    repeat (apply elem_of_cons in Hk as [Hk|Hk]; [simplify_eq|]); try done; try (by apply elem_of_nil in Hk).
  by apply Hc, Hm.
Qed.

(** ** The plugins of the framework *)

(** A plugin of the application that leaves the components of the framework
    alone and has a name of its own. *)
Record bystander (q : Plugin) : Prop := {
  by_name : Name q ∉ componentDependencyKeys.*1;
  by_start : ∀ ctx w, grows (Kernel.outside w) (Kernel.outside (Start q ctx w).1);
  by_conf : ∀ ctx w, Kernel.outside (Configure q ctx w).1 = Kernel.outside w
}.

(** A plugin that takes part in a start: built in, or a bystander. *)
Definition fits (rf : bool) (q : Plugin) : Prop :=
  (∃ p, p ∈ builtins rf ∧ q = builtin_plugin p) ∨ bystander q.

Lemma fits_configure rf q ctx w : fits rf q → Kernel.outside (Configure q ctx w).1 = Kernel.outside w.
Proof. intros [(p & _ & ->)|Hq]; [done|by apply by_conf]. Qed.

Lemma fits_start rf q ctx (w : world) w' e :
  fits rf q → Start q ctx w = (w', e) →
  grows (Kernel.outside w) (Kernel.outside w') ∧
  (e = None → ∀ key, (Name q, key) ∈ componentDependencyKeys →
     (Name q = "metrics" → Metrics_Enabled (Metrics (config (Kernel.outside w))) = true) →
     covers (Name q) key (Kernel.outside w')).
Proof.
  intros [(p & Hp & ->)|Hq] HS.
  - pose proof (builtins_ok rf p (Kernel.outside w) Hp) as [Hg Hc].
    cbn in HS. unfold on_core in HS. destruct (bp_startFn p (Kernel.outside w)) as [c e'] eqn:He.
    simpl in Hg, Hc. injection HS as <- <-. cbn [Kernel.outside Name builtin_plugin]. split; [done|exact Hc].
  - pose proof (by_start q Hq ctx w) as Hg. rewrite HS in Hg. split; [done|].
    intros _ key Hk. exfalso. apply (by_name q Hq). apply list_elem_of_fmap. by exists (Name q, key).
Qed.

(** Registering the built-ins. *)
Lemma register_builtins_spec (dr : Reg) (ps : list builtinPlugin) (r : Reg) :
  registry_wf r → Forall (λ p, bp_name p ≠ "") ps →
  ∃ r', register_builtins dr ps r = Ret r' ∧ registry_wf r' ∧
    (∀ n q, plugins r' !! n = Some q → plugins r !! n = Some q ∨ ∃ p, p ∈ ps ∧ q = builtin_plugin p) ∧
    (∀ n, n ∈ bp_name <$> ps → is_Some (plugins dr !! n) ∨ is_Some (plugins r' !! n)) ∧
    (∀ n, is_Some (plugins r !! n) → is_Some (plugins r' !! n)).
Proof.
  intros Hwf Hne. revert r Hwf. induction Hne as [|p ps Hp _ IH]; intros r Hwf.
  { exists r. split; [done|]. split; [done|]. split; [by left|]. split; [|done]. intros n Hn. by apply elem_of_nil in Hn. }
  cbn [register_builtins]. unfold Kernel.Get.
  destruct (decide (is_Some (plugins dr !! bp_name p))) as [Hd|Hd].
  { destruct (IH r Hwf) as (r' & -> & Hwf' & Hin & Hall & Hk). exists r'. split; [done|]. split; [done|].
    split; [|split; [|done]].
    - intros n q [?|(p' & ? & ->)]%Hin; [by left|right]. exists p'. split; [by right|done].
    - intros n [-> |Hn]%elem_of_cons; [by left|by apply Hall]. }
  destruct (decide (is_Some (plugins r !! bp_name p))) as [Hr|Hr].
  { destruct (IH r Hwf) as (r' & -> & Hwf' & Hin & Hall & Hk). exists r'. split; [done|]. split; [done|].
    split; [|split; [|done]].
    - intros n q [?|(p' & ? & ->)]%Hin; [by left|right]. exists p'. split; [by right|done].
    - intros n [-> |Hn]%elem_of_cons; [right; by apply Hk|by apply Hall]. }
  pose proof (Register_wf (Some (builtin_plugin p)) r Hwf) as Hwf1.
  unfold MustRegister, Register in *. change (Name (builtin_plugin p)) with (bp_name p) in *.
  rewrite decide_False in Hwf1 |- * by done.
  destruct (plugins r !! bp_name p) as [q|] eqn:Hq; [by destruct Hr|]. simpl in Hwf1.
  destruct (IH _ Hwf1) as (r' & -> & Hwf' & Hin & Hall & Hk). exists r'. split; [done|]. split; [done|]. split; [|split].
  - intros n q [Hn|(p' & ? & ->)]%Hin; [|right; exists p'; split; [by right|done]].
    simpl in Hn. rewrite lookup_insert in Hn. case_decide; [|by left].
    right. exists p. split; [by left|congruence].
  - intros n [-> |Hn]%elem_of_cons; [|by apply Hall]. right. apply Hk. simpl. rewrite lookup_insert_eq. eauto.
  - intros n Hn. apply Hk. simpl. rewrite lookup_insert. case_decide; [eauto|done].
Qed.

Lemma registered_elem l (dr r : Reg) ps p :
  registry_wf dr → registry_wf r → Loader.registry l = OwnRegistry r →
  registered l dr = Some ps → p ∈ ps → plugins r !! Name p = Some p ∨ plugins dr !! Name p = Some p.
Proof.
  intros Hdr Hr Hl. unfold registered. rewrite Hl.
  destruct (Plugins_deref r Hr) as (rs & -> & _ & Hrs). destruct (Plugins_deref dr Hdr) as (ds & -> & _ & Hds).
  intros [= <-] [Hp|Hp]%elem_of_app; [left; by apply Hrs|].
  apply list_elem_of_filter in Hp as [_ Hp]. right. by apply Hds.
Qed.

Lemma registered_name l (dr r : Reg) ps n :
  registry_wf dr → registry_wf r → Loader.registry l = OwnRegistry r →
  registered l dr = Some ps → is_Some (plugins r !! n) ∨ is_Some (plugins dr !! n) → n ∈ Name <$> ps.
Proof.
  intros Hdr Hr Hl. unfold registered. rewrite Hl.
  destruct (Plugins_deref r Hr) as (rs & -> & Hrn & _). destruct (Plugins_deref dr Hdr) as (ds & -> & Hdn & _).
  intros [= <-] Hn. rewrite fmap_app, elem_of_app, Hrn. rewrite (wf_dom _ Hr).
  destruct (decide (is_Some (plugins r !! n))) as [|Hno]; [by left|right].
  destruct Hn as [Hn|Hn]; [done|]. apply (wf_dom _ Hdr) in Hn. rewrite <- Hdn in Hn.
  apply list_elem_of_fmap in Hn as (q & -> & Hq). apply list_elem_of_fmap_2. by apply list_elem_of_filter.
Qed.

(** Building the application leaves the components alone. *)
Lemma configure_all_outside shared bg (ps : list Plugin) en conf (w : world) :
  (∀ q ctx w, q ∈ ps → Kernel.outside (Configure q ctx w).1 = Kernel.outside w) →
  Kernel.outside (configure_all shared bg ps en conf w).1.1 = Kernel.outside w.
Proof.
  revert en conf w. induction ps as [|q ps IH]; intros en conf w Hc; [done|]. simpl.
  destruct (en !! Name q); [|apply IH; intros; apply Hc; by right].
  pose proof (Hc q (clone shared bg (Name q)) w ltac:(by left)) as Hq.
  destruct (Configure q (clone shared bg (Name q)) w) as [w1 [e|]]; simpl in Hq.
  - destruct (Is e ErrDisabled); [|done].
    specialize (IH (delete (Name q) en) conf w1 ltac:(intros; apply Hc; by right)).
    destruct (configure_all _ _ _ _ _ _) as [[w2 lg] r2]. simpl in *. congruence.
  - rewrite IH; [done|]. intros; apply Hc; by right.
Qed.

Lemma Build_outside l (dr : Reg) bg ranges (w : world) ps :
  registered l dr = Some ps →
  (∀ q ctx w, q ∈ ps → Kernel.outside (Configure q ctx w).1 = Kernel.outside w) →
  Kernel.outside (Build l dr bg ranges w).1.1 = Kernel.outside w.
Proof.
  intros Hps Hc. unfold Build. rewrite Hps. destruct (select_enabled l ps ∅) as [en lg1].
  match goal with |- context [configure_all ?s ?g ps en ∅ ?w0] =>
    pose proof (configure_all_outside s g ps en ∅ w0 Hc) as Ho;
    destruct (configure_all s g ps en ∅ w0) as [[w2 lg2] [conf|e]] end; simpl in *; [|done].
  destruct (ranges conf) as [[[r0 r1] r2] r3]. destruct (check_deps conf r0); [done|].
  destruct (topoSort conf ps r1 r2 r3) as [[o|e]|]; try done. by destruct (mapM _ o).
Qed.

(** A plugin that opts out returned an error from [Configure]. *)
Lemma configure_all_opted shared bg (ps : list Plugin) en conf (w : world) n :
  LogOptedOut n ∈ (configure_all shared bg ps en conf w).1.2 →
  ∃ q ctx w, q ∈ ps ∧ Name q = n ∧ (Configure q ctx w).2 ≠ None.
Proof.
  revert en conf w. induction ps as [|q ps IH]; intros en conf w; simpl; [by intros ?%elem_of_nil|].
  assert (Hr : ∀ en conf w, LogOptedOut n ∈ (configure_all shared bg ps en conf w).1.2 →
    ∃ q' ctx w, q' ∈ q :: ps ∧ Name q' = n ∧ (Configure q' ctx w).2 ≠ None).
  { intros en' conf' w' (q' & c & w2 & ? & ?)%IH. exists q', c, w2. split; [by right|done]. }
  destruct (en !! Name q); [|apply Hr].
  destruct (Configure q (clone shared bg (Name q)) w) as [w1 [e|]] eqn:Hq; [|apply Hr].
  destruct (Is e ErrDisabled); [|by intros ?%elem_of_nil].
  specialize (Hr (delete (Name q) en) conf w1).
  destruct (configure_all _ _ _ _ _ _) as [[w2 lg] r2]. simpl in *.
  intros [[= ->]|?]%elem_of_cons; [|by apply Hr].
  exists q, (clone shared bg (Name q)), w. split; [by left|]. split; [done|]. by rewrite Hq.
Qed.

Lemma Build_opted l (dr : Reg) bg ranges (w : world) ps n :
  registered l dr = Some ps → LogOptedOut n ∈ (Build l dr bg ranges w).1.2 →
  ∃ q ctx w, q ∈ ps ∧ Name q = n ∧ (Configure q ctx w).2 ≠ None.
Proof.
  intros Hps. unfold Build. rewrite Hps.
  pose proof (select_enabled_log l ps ∅ n) as Hs. destruct (select_enabled l ps ∅) as [en lg1]. simpl in Hs.
  match goal with |- context [configure_all ?s ?g ps en ∅ ?w0] =>
    pose proof (configure_all_opted s g ps en ∅ w0 n) as Ho;
    destruct (configure_all s g ps en ∅ w0) as [[w2 lg2] [conf|e]] end; simpl in Ho.
  - assert (Hx : ∀ lg', (LogOptedOut n ∉ lg') → LogOptedOut n ∈ lg1 ++ lg2 ++ lg' → LogOptedOut n ∈ lg2).
    { intros lg' Hn Hin. rewrite !elem_of_app in Hin. naive_solver. }
    pose proof (Hx [] (not_elem_of_nil _)) as Hx0. rewrite app_nil_r in Hx0.
    destruct (ranges conf) as [[[r0 r1] r2] r3].
    destruct (check_deps conf r0); [simpl; intros; by apply Ho, Hx0|].
    destruct (topoSort conf ps r1 r2 r3) as [[o|e]|]; [|simpl; intros; by apply Ho, Hx0..].
    destruct (mapM _ o); simpl; intros Hin; apply Ho; [|by apply Hx0].
    eapply Hx; [|exact Hin]. set_solver.
  - simpl. rewrite elem_of_app. naive_solver.
Qed.

(** Starting plugins that fit covers every one of them. *)
Lemma all_start_covers rf ctx lc (qs : list Plugin) (w w' : world) :
  all_start ctx lc qs w w' → (∀ q, q ∈ qs → fits rf q) →
  grows (Kernel.outside w) (Kernel.outside w') ∧
  ∀ q key, q ∈ qs → (Name q, key) ∈ componentDependencyKeys →
    (Name q = "metrics" → Metrics_Enabled (Metrics (config (Kernel.outside w))) = true) →
    covers (Name q) key (Kernel.outside w').
Proof.
  induction 1 as [w|p qs w w1 w2 HS Hall IH]; intros Hf.
  { split; [done|]. intros q key Hq. by apply elem_of_nil in Hq. }
  destruct (fits_start rf p _ w w1 None (Hf p ltac:(by left)) HS) as [Hg Hc].
  destruct IH as [Hg2 Hc2]; [intros; apply Hf; by right|]. split; [by etrans|].
  intros q key [-> |Hq]%elem_of_cons Hk Hm; [eapply covers_grows; [by apply Hc|done]|].
  apply Hc2; [done..|]. intros Hn. rewrite (gr_config _ _ Hg). by apply Hm.
Qed.

(** Nothing is missing when what was started is covered. *)
Lemma coverage_ok (f : @Framework H X L V) :
  (∀ name key, (name, key) ∈ componentDependencyKeys → pluginStarted name f = true → covers name key (core f)) →
  ValidateDependencyCoverage [] f = None.
Proof.
  intros Hc. unfold ValidateDependencyCoverage.
  assert (Hm : missing_keys [] f = []); [|by rewrite Hm].
  unfold missing_keys. apply filter_none. intros k Hk Hno. apply elem_of_elements in Hk.
  unfold required_keys in Hk. simpl in Hk. rewrite union_empty_r_L in Hk. apply elem_of_list_to_set in Hk.
  apply list_elem_of_fmap in Hk as ([name key] & -> & [[Hst Hsk] Hin]%list_elem_of_filter). simpl in *.
  destruct (Hc name key Hin Hst) as [[v Hv]|Hs].
  - unfold GetDependency in Hno. congruence.
  - unfold componentSkipped in Hsk. by apply bool_decide_eq_false in Hsk.
Qed.

Lemma started_in_elem names n : started_in names n = true ↔ n ∈ names.
Proof.
  induction names as [|m names IH]; simpl; [by rewrite elem_of_nil|].
  rewrite elem_of_cons. case_decide; naive_solver.
Qed.

(** The application that [StartFramework] builds: the enabled built-in plugins
    and the bystanders. *)
Lemma framework_app (dr r : Reg) ranges rf (f : @Framework H X L V) (w' : world) lg app
    (Hdr : registry_wf dr) (Hby : ∀ n q, plugins dr !! n = Some q → bystander q) (Hranges : ranges_ok ranges)
    (Hr : registry_wf r) (Hin : ∀ n q, plugins r !! n = Some q → ∃ p, p ∈ builtins rf ∧ q = builtin_plugin p)
    (Hall : ∀ n, n ∈ bp_name <$> builtins (H := H) (X := X) (L := L) rf → is_Some (plugins dr !! n) ∨ is_Some (plugins r !! n)) :
  let l := MkLoader (Some (loader f)) (OwnRegistry r) in
  Build l dr (Some ctx_Background) ranges (World (locator f) (core f)) = (w', lg, Ret (Ok app)) →
  started app = [] ∧ deps_first (app_plugins app) ∧ (∀ q, q ∈ app_plugins app → fits rf q) ∧
  Kernel.outside w' = core f ∧
  (∀ q, q ∈ app_plugins app → isEnabled l (Name q) = true) ∧
  (∀ n, n ∈ bp_name <$> builtins (H := H) (X := X) (L := L) rf → isEnabled l n = true → plugins dr !! n = None → n ∈ Name <$> app_plugins app).
Proof.
  intros l HB.
  destruct (Build_spec l dr (Some ctx_Background) ranges (World (locator f) (core f))) as (ps & Hps & Hspec);
    [done|by intros ? [= <-]|done|].
  assert (Hfits : ∀ q, q ∈ ps → fits rf q).
  { intros q [Hq|Hq]%(registered_elem l dr r ps q Hdr Hr eq_refl Hps); [left; by eapply Hin|right; by eapply Hby]. }
  pose proof (Build_outside l dr (Some ctx_Background) ranges (World (locator f) (core f)) ps Hps) as Ho.
  pose proof (λ n, Build_opted l dr (Some ctx_Background) ranges (World (locator f) (core f)) ps n Hps) as Hopt.
  rewrite HB in Hspec, Ho, Hopt. destruct Hspec as (Hst & Hdf & Htp).
  split; [done|]. split; [done|]. split; [intros q Hq; apply Hfits; by apply Htp|]. split; [|split].
  - simpl in Ho. apply Ho. intros q ctx w Hq. eapply fits_configure. by apply Hfits.
  - intros q Hq. by apply Htp.
  - intros n Hn He Hnd.
    assert (Hreg : is_Some (plugins r !! n)) by (destruct (Hall n Hn) as [[? ?]|?]; [congruence|done]).
    pose proof (registered_name l dr r ps n Hdr Hr eq_refl Hps (or_introl Hreg)) as Hnps.
    apply list_elem_of_fmap in Hnps as (q & -> & Hq). apply list_elem_of_fmap_2. apply Htp.
    split; [done|]. split; [done|]. intros (q' & ctx & w & Hq' & Hnq & Hc)%Hopt.
    destruct (registered_elem l dr r ps q' Hdr Hr eq_refl Hps Hq') as [Hp|Hp]; [|rewrite Hnq in Hp; congruence].
    apply Hin in Hp as (p & _ & ->). by apply Hc.
Qed.

(** The components of the repository that are plugins. *)
Definition component_names : list string := ["db"; "cache"; "discovery"; "tracing"; "auth"; "metrics"; "health"; "errors"; "upload"; "actor"].

Definition off (f : @Framework H X L V) (n : string) : Prop :=
  disabled_by_config (MkLoader (V := V) (X := Core) (L := option L) (Some (loader f)) NoRegistry) n.

(** The plugin application of a started framework: dependencies first, all plugins
    started, among them every component that the configuration does not disable and that
    no plugin of the application [dr] replaces. *)
Definition plugins_running (dr : Reg) (f f' : @Framework H X L V) : Prop :=
  ∃ app, pluginApp f' = Some app ∧ deps_first (app_plugins app) ∧ started app = Name <$> app_plugins app ∧
    ∀ n, n ∈ component_names → plugins dr !! n = None → ¬ off f n → n ∈ started app.

Lemma coverage_none services (f : @Framework H X L V) name key :
  ValidateDependencyCoverage services f = None → (name, key) ∈ componentDependencyKeys → pluginStarted name f = true →
  covers name key (core f).
Proof.
  intros Hv Hk Hst. unfold ValidateDependencyCoverage in Hv.
  destruct (missing_keys services f) eqn:Hm; [|done]. unfold covers.
  destruct (componentSkipped name (core f)) eqn:Hsk; [right; by apply bool_decide_eq_true in Hsk|left].
  destruct (dependencies (core f) !! key) eqn:Hd; [by eexists|exfalso].
  assert (Hin : key ∈ missing_keys services f); [|rewrite Hm in Hin; by apply elem_of_nil in Hin].
  unfold missing_keys. apply list_elem_of_filter. split; [done|]. apply elem_of_elements. unfold required_keys.
  apply elem_of_union_l, elem_of_list_to_set, (list_elem_of_fmap_2 snd _ (name, key)), list_elem_of_filter. done.
Qed.

(** The services and the check come after the plugins. *)
Lemma start_services_and_validate_spec ctx o (f : @Framework H X L V) :
  (∀ name key, (name, key) ∈ componentDependencyKeys → pluginStarted name f = true → covers name key (core f)) →
  let '(f', err) := start_services_and_validate ctx o f in
  pluginApp f' = pluginApp f ∧
  match err with
  | Some _ => WebSocket o ≠ None ∨ Services_ o ≠ []
  | None =>
      (Services_ o ≠ [] → ∃ m c l,
        starts ctx (serviceFactories (svcs f')) (Services_ o) (m, c) l (managedServices (svcs f'), core f')) ∧
      (ValidateDependencyCoverage_ o = true ∨ Services_ o = [] → ∀ name key,
        (name, key) ∈ componentDependencyKeys → pluginStarted name f' = true → covers name key (core f'))
  end.
Proof.
  intros Hc. unfold start_services_and_validate.
  set (ws := match WebSocket o with None => (f, None) | Some w => _ end).
  assert (Hws : pluginApp ws.1 = pluginApp f ∧ core ws.1 = core f ∧ (ws.2 ≠ None → WebSocket o ≠ None)).
  { unfold ws. destruct (WebSocket o) as [w|]; [|done]. by destruct (RegisterWebSocketServiceFactory w (svcs f)). }
  destruct ws as [f1 [e|]]; simpl in Hws; destruct Hws as (Ha & Hcore & Hne).
  { split; [done|]. left. by apply Hne. }
  assert (Hst : ∀ f2 : @Framework H X L V, pluginApp f2 = pluginApp f → ∀ n, pluginStarted n f2 = pluginStarted n f)
    by (intros f2 H2 n; unfold pluginStarted; by rewrite H2).
  destruct (Services_ o) as [|name names] eqn:Hs.
  { assert (Hc1 : ∀ name key, (name, key) ∈ componentDependencyKeys → pluginStarted name f1 = true → covers name key (core f1))
      by (intros name key; rewrite Hcore, (Hst f1 Ha); apply Hc).
    destruct (ValidateDependencyCoverage_ o); [rewrite (coverage_ok f1 Hc1)|]; (split; [done|]; split; [done|]); by intros _. }
  pose proof (start_services_spec ctx (name :: names) (svcs f1) (core f1)) as HS. unfold StartServices, resolveServiceNames.
  destruct (start_services ctx (name :: names) (svcs f1) (core f1)) as [[s c] [e|]].
  { split; [done|]. by right. }
  destruct HS as ((_ & HF) & l & HS).
  set (f2 := set_core c (set_svcs s f1)). destruct (ValidateDependencyCoverage_ o).
  - destruct (ValidateDependencyCoverage (name :: names) f2) eqn:Hv; (split; [done|]); [by right|]. split.
    + intros _. exists (managedServices (svcs f1)), (core f1), l. cbn [svcs set_core set_svcs core f2]. by rewrite HF.
    + intros _ n k Hk Hn. by apply (coverage_none (name :: names)).
  - split; [done|]. split; [|by intros [?|?]].
    intros _. exists (managedServices (svcs f1)), (core f1), l. cbn [svcs set_core set_svcs core f2]. by rewrite HF.
Qed.


(** ** Closing *)

(** After [StopFramework], [Close] touches no component a second time that was
    stopped with its plugin: of the components it would close only the RPC manager,
    the websocket server and the gateway, which have no plugin, are left. *)
Theorem close_after_stop ctx (f : @Framework H X L V) app
    (Happ : pluginApp f = Some app)
    (Hnames : ∀ n, n ∈ ["cache"; "discovery"; "tracing"; "actor"] → n ∈ Name <$> app_plugins app)
    (Hrpc : "rpc" ∉ Name <$> app_plugins app) (Hst : "rpc" ∉ stoppedSet f) :
  let f1 := (StopFramework ctx [] f).1 in
  (StopFramework ctx [] f).2 = None ∧
  Close f1 =
    close_object Fgateway None (λ h, alloc (gateway_Stop h)) "gateway close"
      (close_object FwebsocketServer None
        (λ h, alloc (ws_Stop h (ctx_WithTimeout (10 * GoTime.Second)))) "websocket server close"
        (close_object FrpcManager None (λ h, alloc (rpc_Stop h)) "rpc manager close" (f1, []))).
Proof.
  intros f1.
  assert (Hf1 : pluginApp f1 = None ∧ stoppedSet f1 = list_to_set (Name <$> app_plugins app) ∪ stoppedSet f ∧
    (StopFramework ctx [] f).2 = None).
  { unfold f1, StopFramework, stopPluginApp. rewrite Happ.
    destruct (App_Stop app ctx _) as [[[a w] lg] e]. done. }
  destruct Hf1 as (Hno & Hset & Herr). split; [done|].
  assert (Hstopped : ∀ n, n ∈ ["cache"; "discovery"; "tracing"; "actor"] → n ∈ stoppedSet f1).
  { intros n Hn. rewrite Hset. apply elem_of_union_l, elem_of_list_to_set. by apply Hnames. }
  assert (Hrpc' : "rpc" ∉ stoppedSet f1).
  { rewrite Hset, not_elem_of_union, elem_of_list_to_set. done. }
  assert (Hskip : ∀ fld n op what (g : @Framework H X L V) errs, n ∈ stoppedSet g →
    close_object fld (Some n) op what (g, errs) = (g, errs)).
  { intros fld n op what g errs Hn. unfold close_object, pluginStopped.
    destruct (objects (core g) fld); [|done]. by rewrite bool_decide_true. }
  assert (Hkeep : ∀ fld op what (g : @Framework H X L V) errs, "rpc" ∉ stoppedSet g →
    close_object fld (Some "rpc") op what (g, errs) = close_object fld None op what (g, errs)).
  { intros fld op what g errs Hn. unfold close_object, pluginStopped. by rewrite bool_decide_false. }
  assert (Hset' : ∀ fld op what (st : @Framework H X L V * list error), stoppedSet (close_object fld None op what st).1 = stoppedSet st.1).
  { intros fld op what [g errs]. unfold close_object. destruct (objects (core g) fld); [|done].
    by destruct (op _ _). }
  unfold Close, pluginStarted. rewrite Hno. cbn [orb].
  rewrite Hskip by (apply Hstopped; set_solver). rewrite Hkeep by done.
  set (s1 := close_object FrpcManager None _ _ _). set (s2 := close_object FwebsocketServer None _ _ s1).
  assert (H2 : stoppedSet s2.1 = stoppedSet f1) by (unfold s2, s1; by rewrite !Hset').
  destruct s2 as [g2 e2] eqn:Es2. simpl in H2.
  rewrite Hskip by (rewrite H2; apply Hstopped; set_solver).
  rewrite Hskip by (rewrite H2; apply Hstopped; set_solver).
  set (s3 := close_object Fgateway None _ _ _).
  assert (H3 : stoppedSet s3.1 = stoppedSet f1) by (unfold s3; by rewrite Hset').
  destruct s3 as [g3 e3] eqn:Es3. simpl in H3.
  by rewrite Hskip by (rewrite H3; apply Hstopped; set_solver).
Qed.

End FrameworkProps.

(** ** A process that records what is done to its components *)

Module Traced.

Definition new (what : string) (x : list string) : list string * nat := (x ++ [what], length x).
Definition new_ok (what : string) (x : list string) : list string * result nat := (x ++ [what], Ok (length x)).
Definition did (what : string) (x : list string) : list string * option error := (x ++ [what], None).

#[export] Instance traced : Components nat (list string) unit := {|
  ctx_Background := tt; ctx_WithTimeout _ := tt;
  db_NewFactory := new "db factory"; db_Create _ _ := new_ok "db client"; db_Ping _ := did "db ping";
  db_SetGlobalFactory _ x := x; service_db_file _ := Err (Errorf "no service database configuration file found" []);
  cache_New _ := new_ok "cache"; cache_Close _ := did "cache close";
  upload_New := new "uploader"; actor_New _ := new "actors"; actor_Shutdown _ := did "actors shutdown";
  discovery_New _ := new_ok "discovery"; discovery_Start _ := did "discovery start"; discovery_Stop _ := did "discovery stop";
  rpc_New _ := new "rpc"; rpc_NewDegradation _ := new_ok "degradation"; rpc_SetDegradation _ _ x := x;
  rpc_Start _ := did "rpc start"; rpc_Stop _ := did "rpc stop";
  rpc_IsStarted _ x := bool_decide ("rpc start" ∈ x); rpc_SetDiscovery _ _ _ := did "rpc discovery";
  health_New := new "health"; health_Register _ n x := x ++ [n]; metrics_New := new "metrics"; metrics_Serve _ a x := x ++ [a];
  auth_New _ := new "auth"; tracing_New _ := new_ok "tracer"; tracing_Shutdown _ _ := did "tracer shutdown";
  tracing_Global _ := None; tracing_SetGlobal _ x := x;
  gateway_New _ := new "gateway"; gateway_Initialize _ := did "gateway init"; gateway_Start _ := did "gateway start";
  gateway_Stop _ := did "gateway stop"; gateway_NewHTTP _ := new_ok "gateway service"; gateway_Of h := h;
  gateway_CloseHTTP _ := did "gateway service close"; http_Listen a _ := new a; http_Shutdown _ _ := did "http shutdown";
  ws_NewServer := new "websocket"; ws_NewManager := new "connections"; ws_Handle _ _ _ x := x;
  ws_Start _ := did "websocket start"; ws_Stop _ _ := did "websocket stop"; ws_CloseAll _ x := x; ws_CloseRooms x := x
|}.

Abbreviation FW := (@Framework nat (list string) unit unit).

(** A configuration file without the sections [plugins], [gateway], [upload] and
    [actor]. *)
Definition no_sections : Sections := MkSections (Ok None) (Ok None) (Ok None).
Definition no_source : ConfigSource := {| UnmarshalSection _ := (∅, (false, None)) |}.
Definition all_ranges (m : gmap string (@Kernel.Plugin unit (@Core nat (list string)) (option unit))) :=
  let k := (map_to_list m).*1 in (k, k, k, k).

Definition fresh (cfg : GlobalConfig) (pcfg : PluginConfig) : result FW :=
  NewBootstrap cfg (Ok pcfg) no_sections no_source [].

Definition start (services : list string) (f : FW) : outcome (FW * option error) :=
  StartFramework NewRegistry all_ranges false (Some tt) (MkOptions true None services) f.

(** The trace and the error of a start. *)
Definition run (cfg : GlobalConfig) (pcfg : PluginConfig) (services : list string) : option (list string * option error) :=
  match fresh cfg pcfg with
  | Err _ => None
  | Ok f => match start services f with Ret (f', e) => Some (outside (core f'), e) | Panic _ _ => None end
  end.

Definition boot : FW :=
  match fresh DefaultConfig pluginconfig_Default with
  | Ok f => f
  | Err _ => MkFramework_ (MkCore DefaultConfig pluginconfig_Default no_sections (λ _, None) ∅ ∅ false ∅ []) no_services ∅ no_source None None ∅
  end.

Lemma all_ranges_ok : ranges_ok all_ranges.
Proof. intros m. unfold all_ranges, range_of. by split_and!. Qed.

Lemma no_plugins n (q : @Kernel.Plugin unit (@Core nat (list string)) (option unit)) :
  plugins NewRegistry !! n = Some q → bystander q.
Proof. intros Hq. exfalso. pose proof (lookup_empty (M := gmap string) (A := @Kernel.Plugin unit (@Core nat (list string)) (option unit)) n). simpl in Hq. congruence. Qed.


(** The default configuration: what is started, in order. *)
Example default_start :
  run DefaultConfig pluginconfig_Default [] =
  Some (["db factory"; "db client"; "db ping"; "cache"; "metrics"; ":9090"; "health"; "database"; "cache"], None).
Proof. vm_compute. done. Qed.

(** A metrics section that is disabled makes every start fail: the component is
    not marked as skipped. *)
Example metrics_disabled_start_fails :
  match run (MkGlobal (App DefaultConfig) (BootConfig.Framework DefaultConfig) (Server DefaultConfig)
               (Database DefaultConfig) (MkMetricsConfig false "" "") (Tracing DefaultConfig)) pluginconfig_Default [] with
  | Some (_, Some e) => e = Errorf "bootstrap dependency coverage validation failed, missing: %s" ["metrics.collector"]
  | _ => False
  end.
Proof. vm_compute. done. Qed.

(** So does the service rpc, which is started by default, when the section is
    disabled; the plugins stay started. *)
Example rpc_disabled_start_fails :
  match run DefaultConfig
    (MkPluginConfig (Redis pluginconfig_Default) (MkRPCConfig false "grpc" ∅ (RPC_Degradation (RPC pluginconfig_Default)))
       (Discovery pluginconfig_Default) (JWT pluginconfig_Default) (CORS pluginconfig_Default) (RateLimit pluginconfig_Default))
    ["rpc"] with
  | Some (x, Some e) => e = Errorf "bootstrap dependency coverage validation failed, missing: %s" ["rpc.manager"]
      ∧ "cache close" ∉ x
  | _ => False
  end.
Proof. vm_compute. split; [done|]. intros Hx. repeat (apply elem_of_cons in Hx as [Hx|Hx]; [done|]). by apply elem_of_nil in Hx. Qed.

Definition running : FW := match start [] boot with Ret (f', _) => f' | Panic _ _ => boot end.

(** Starting twice opens a second cache; the first one is never closed. *)
Example second_start_leaks :
  match start [] running with
  | Ret (f', _) => length (filter (λ s, s = "cache close") (outside (core (Close f').1))) = 1%nat ∧
      objects (core running) Fcache ≠ objects (core f') Fcache
  | Panic _ _ => False
  end.
Proof. vm_compute. done. Qed.

(** TLS of an RPC server is configured and dropped; so are the mode and the nodes
    of Redis, and discovery of the gateway stays off. *)
Example tls_is_dropped s : rpc_EnableTLS (rpc_server_config s) = false.
Proof. done. Qed.
Example redis_mode_is_dropped r :
  RedisClient.mode (cache_config r) = RedisClient.ModeSingle ∧ RedisClient.Nodes (cache_config r) = [].
Proof. done. Qed.
Example gateway_discovery_stays_off (b : @Core nat (list string)) : gw_DiscoveryEnabled (gateway_config b) = false.
Proof. done. Qed.

(** A database file for PostgreSQL is read and ignored, and the framework goes on
    with the configuration it had. *)
Example postgres_file_is_ignored :
  update_databases (load_db_entries [("postgres_primary", YMap [("host", YStr "db.internal")])]) DefaultConfig = DefaultConfig.
Proof. vm_compute. done. Qed.

Definition names (f : FW) : list string := match pluginApp f with Some a => Name <$> app_plugins a | None => [] end.

Lemma names_running :
  names running = ["db"; "cache"; "discovery"; "tracing"; "auth"; "metrics"; "health"; "errors"; "upload"; "actor"].
Proof. vm_compute. reflexivity. Qed.

Lemma stopped_names n : n ∈ ["cache"; "discovery"; "tracing"; "actor"] →
  n ∈ ["db"; "cache"; "discovery"; "tracing"; "auth"; "metrics"; "health"; "errors"; "upload"; "actor"].
Proof. set_solver. Qed.

Lemma names_app (f : FW) app : pluginApp f = Some app → Name <$> app_plugins app = names f.
Proof. unfold names. by intros ->. Qed.

Lemma not_rpc : "rpc" ∉ names running ∧ stoppedSet running = ∅.
Proof. rewrite names_running. split; [set_solver|vm_compute; reflexivity]. Qed.

Lemma has_cache : objects (core running) Fcache ≠ None.
Proof. vm_compute. discriminate. Qed.

(** Stopped with its plugin, the cache is closed once. *)
Example cache_closed_once :
  outside (core (Close (StopFramework (Some tt) [] running).1).1) = outside (core running) ++ ["cache close"].
Proof. vm_compute. reflexivity. Qed.

#[local] Opaque running.

Lemma close_after_stop_witness :
  match pluginApp running with
  | None => False
  | Some app => "cache" ∈ Name <$> app_plugins app
  end ∧
  (StopFramework (Some tt) [] running).2 = None ∧
  objects (core running) Fcache ≠ None.
Proof.
  assert (Hs : ∀ app, pluginApp running = Some app → (StopFramework (Some tt) [] running).2 = None).
  { intros app Ha. refine (proj1 (close_after_stop (Some tt) running app Ha _ _ _)).
    - intros n Hn. rewrite (names_app _ _ Ha), names_running. exact (stopped_names n Hn).
    - rewrite (names_app _ _ Ha). apply not_rpc.
    - rewrite (proj2 not_rpc). apply not_elem_of_empty. }
  assert (Hn : "cache" ∈ names running) by (rewrite names_running; apply stopped_names; left).
  unfold names in Hn. destruct (pluginApp running) as [app|] eqn:Ha; [|exact (False_ind _ (not_elem_of_nil _ Hn))].
  split; [exact Hn|]. split; [exact (Hs app eq_refl)|exact has_cache].
Defined.

End Traced.
