(* ===== verification/Ddl.v ===== *)
(** * plugins/db/orm/ddl_builder.go: CREATE TABLE and DROP TABLE

    The builder of table definitions and the statements on indexes, over the
    dialects of [Orm].  A dialect is known by its Go type here, because the
    builder tests for it: [DefaultDialect] embeds [MySQLDialect] and is a type of
    its own. *)

From S2P Require Import Prelude Orm OrmUtil SqlText.
From Stdlib Require Import Ascii.
From stdpp Require Import pretty.
Import GoError.

Open Scope Z_scope.

Inductive dialect_type := TMySQL | TPostgreSQL | TSQLite | TClickHouse | TDefault.
#[global] Instance dialect_type_eq_dec : EqDecision dialect_type.
Proof. solve_decision. Defined.

Definition dialect_of (t : dialect_type) : Dialect :=
  match t with
  | TMySQL => MySQLDialect
  | TPostgreSQL => PostgreSQLDialect
  | TSQLite => SQLiteDialect
  | TClickHouse => ClickHouseDialect
  | TDefault => NewDefaultDialect
  end.

Definition is_mysql (t : dialect_type) : bool := bool_decide (t = TMySQL).
Definition is_pg (t : dialect_type) : bool := bool_decide (t = TPostgreSQL).

Definition quote (t : dialect_type) (s : string) : string := QuoteIdentifier (dialect_of t) s.

Record ColumnDef := MkColumn {
  Name : string;
  Type_ : string;
  Length : Z;
  Precision : Z;
  Scale : Z;
  Nullable : bool;
  Default : string;
  AutoIncrement : bool;
  PrimaryKey : bool;
  Unique : bool;
  Comment : string
}.

Record IndexDef := MkIndex { Index_Name : string; Columns : list string; Index_Unique : bool }.

Record TableBuilder := MkTable {
  dialect : dialect_type;
  createMode : bool;
  tableName : string;
  ifNotExists : bool;
  columns : list ColumnDef;
  indexes : list IndexDef;
  primaryKeys : list string;
  dropMode : bool;
  ifExists : bool;
  cascade : bool
}.

(** [CreateTable] and [DropTable]; a nil dialect is the default one. *)
Definition CreateTable (d : option dialect_type) (table : string) : TableBuilder :=
  MkTable (default TDefault d) true table false [] [] [] false false false.

Definition DropTable (d : option dialect_type) (table : string) : TableBuilder :=
  MkTable (default TDefault d) false table false [] [] [] true false false.

Definition IfNotExists (tb : TableBuilder) : TableBuilder :=
  MkTable (dialect tb) (createMode tb) (tableName tb) true (columns tb) (indexes tb) (primaryKeys tb)
    (dropMode tb) (ifExists tb) (cascade tb).

Definition IfExists (tb : TableBuilder) : TableBuilder :=
  MkTable (dialect tb) (createMode tb) (tableName tb) (ifNotExists tb) (columns tb) (indexes tb) (primaryKeys tb)
    (dropMode tb) true (cascade tb).

Definition Cascade (tb : TableBuilder) : TableBuilder :=
  MkTable (dialect tb) (createMode tb) (tableName tb) (ifNotExists tb) (columns tb) (indexes tb) (primaryKeys tb)
    (dropMode tb) (ifExists tb) true.

Definition Column (def : ColumnDef) (tb : TableBuilder) : TableBuilder :=
  MkTable (dialect tb) (createMode tb) (tableName tb) (ifNotExists tb) (columns tb ++ [def]) (indexes tb)
    (if PrimaryKey def then primaryKeys tb ++ [Name def] else primaryKeys tb)
    (dropMode tb) (ifExists tb) (cascade tb).

(** A column of a type, and whether it is nullable (the first of the optional
    arguments). *)
Definition column_of (name ty : string) (length precision scale : Z) (nullable : list bool) : ColumnDef :=
  MkColumn name ty length precision scale (default false (head nullable)) "" false false false "".

Definition Int (name : string) (nullable : list bool) : TableBuilder → TableBuilder :=
  Column (column_of name "INT" 0 0 0 nullable).
Definition BigInt (name : string) (nullable : list bool) : TableBuilder → TableBuilder :=
  Column (column_of name "BIGINT" 0 0 0 nullable).
Definition Varchar (name : string) (length : Z) (nullable : list bool) : TableBuilder → TableBuilder :=
  Column (column_of name "VARCHAR" length 0 0 nullable).
Definition Text (name : string) (nullable : list bool) : TableBuilder → TableBuilder :=
  Column (column_of name "TEXT" 0 0 0 nullable).
Definition Boolean (name : string) (nullable : list bool) : TableBuilder → TableBuilder :=
  Column (column_of name "BOOLEAN" 0 0 0 nullable).
Definition DateTime (name : string) (nullable : list bool) : TableBuilder → TableBuilder :=
  Column (column_of name "DATETIME" 0 0 0 nullable).
Definition Timestamp (name : string) (nullable : list bool) : TableBuilder → TableBuilder :=
  Column (column_of name "TIMESTAMP" 0 0 0 nullable).
Definition Decimal (name : string) (precision scale : Z) (nullable : list bool) : TableBuilder → TableBuilder :=
  Column (column_of name "DECIMAL" 0 precision scale nullable).
Definition ID (name : string) : TableBuilder → TableBuilder :=
  Column (MkColumn name "BIGINT" 0 0 0 false "" true true false "").

(** [PrimaryKey] replaces the keys. *)
Definition SetPrimaryKey (cols : list string) (tb : TableBuilder) : TableBuilder :=
  MkTable (dialect tb) (createMode tb) (tableName tb) (ifNotExists tb) (columns tb) (indexes tb) cols
    (dropMode tb) (ifExists tb) (cascade tb).

Definition add_index (i : IndexDef) (tb : TableBuilder) : TableBuilder :=
  MkTable (dialect tb) (createMode tb) (tableName tb) (ifNotExists tb) (columns tb) (indexes tb ++ [i]) (primaryKeys tb)
    (dropMode tb) (ifExists tb) (cascade tb).

Definition Index (name : string) (cols : list string) : TableBuilder → TableBuilder := add_index (MkIndex name cols false).
Definition UniqueIndex (name : string) (cols : list string) : TableBuilder → TableBuilder := add_index (MkIndex name cols true).

(** ** The text *)

Definition buildColumnType (t : dialect_type) (col : ColumnDef) : string :=
  let typeName := ToUpper (Type_ col) in
  if decide (typeName = "VARCHAR") then
    "VARCHAR(" +:+ pretty (if Length col <=? 0 then 255 else Length col) +:+ ")"
  else if decide (typeName = "CHAR") then
    "CHAR(" +:+ pretty (if Length col <=? 0 then 1 else Length col) +:+ ")"
  else if decide (typeName = "DECIMAL") then
    "DECIMAL(" +:+ pretty (if Precision col <=? 0 then 10 else Precision col) +:+ "," +:+
      pretty (if Scale col <? 0 then 0 else Scale col) +:+ ")"
  else if decide (typeName = "BOOLEAN") then (if is_mysql t then "TINYINT(1)" else "BOOLEAN")
  else if decide (typeName = "DATETIME" ∨ typeName = "TIMESTAMP") then
    (if is_pg t then "TIMESTAMP WITH TIME ZONE" else typeName)
  else typeName.

Definition buildColumnDef (t : dialect_type) (col : ColumnDef) : string :=
  quote t (Name col) +:+ " " +:+ buildColumnType t col +:+
  (if Nullable col then " NULL" else " NOT NULL") +:+
  (if decide (Default col = "") then "" else " DEFAULT " +:+ Default col) +:+
  (if AutoIncrement col then
     if is_mysql t then " AUTO_INCREMENT" else if is_pg t then " GENERATED ALWAYS AS IDENTITY" else ""
   else "") +:+
  (if negb (bool_decide (Comment col = "")) && is_mysql t then " COMMENT '" +:+ Comment col +:+ "'" else "").

(** The loops that write a list with [", "] between its elements. *)
Fixpoint write_list (f : string → string) (first : bool) (ss : list string) : string :=
  match ss with
  | [] => ""
  | s :: ss => (if first then "" else ", ") +:+ f s +:+ write_list f false ss
  end.

Fixpoint write_columns (t : dialect_type) (first : bool) (cs : list ColumnDef) : string :=
  match cs with
  | [] => ""
  | c :: cs => (if first then "" else ", ") +:+ buildColumnDef t c +:+ write_columns t false cs
  end.

Definition index_def (t : dialect_type) (i : IndexDef) : string :=
  (if Index_Unique i then "UNIQUE " else "") +:+ "INDEX " +:+ quote t (Index_Name i) +:+ " (" +:+
  write_list (quote t) true (Columns i) +:+ ")".

Fixpoint write_indexes (t : dialect_type) (is_ : list IndexDef) : string :=
  match is_ with
  | [] => ""
  | i :: is_ => ", " +:+ index_def t i +:+ write_indexes t is_
  end.

Definition key_def (t : dialect_type) (keys : list string) : string :=
  "PRIMARY KEY (" +:+ write_list (quote t) true keys +:+ ")".

(** What stands between the parentheses of the table. *)
Definition table_body (tb : TableBuilder) : string :=
  let t := dialect tb in
  write_columns t true (columns tb) +:+
  (match primaryKeys tb with [] => "" | ks => ", " +:+ key_def t ks end) +:+
  (if is_mysql t then write_indexes t (indexes tb) else "").

Definition buildCreate (tb : TableBuilder) : result string :=
  match columns tb with
  | [] => Err (Errorf "no columns defined for table %s" [tableName tb])
  | _ =>
      Ok ("CREATE TABLE " +:+ (if ifNotExists tb then "IF NOT EXISTS " else "") +:+ quote (dialect tb) (tableName tb) +:+
          " (" +:+ table_body tb +:+ ")" +:+
          (if is_mysql (dialect tb) then " ENGINE=InnoDB DEFAULT CHARSET=utf8mb4" else ""))
  end.

Definition buildDrop (tb : TableBuilder) : result string :=
  Ok ("DROP TABLE " +:+ (if ifExists tb then "IF EXISTS " else "") +:+ quote (dialect tb) (tableName tb) +:+
      (if cascade tb then " CASCADE" else "")).

Definition Build (tb : TableBuilder) : result string :=
  if createMode tb then buildCreate tb
  else if dropMode tb then buildDrop tb
  else Err (Errorf "no operation mode set" []).

(** [Exec]: [exec] is the database. *)
Definition Exec {W} (exec : string → W → W * option error) (tb : TableBuilder) (w : W) : W * option error :=
  match Build tb with
  | Err e => (w, Some e)
  | Ok query => exec query w
  end.

(** ** Indexes and tables *)

Definition create_index_query (t : dialect_type) (table name : string) (unique : bool) (cols : list string) : string :=
  (if unique then "CREATE UNIQUE INDEX " else "CREATE INDEX ") +:+ quote t name +:+ " ON " +:+ quote t table +:+ " (" +:+
  write_list (quote t) true cols +:+ ")".

Definition CreateIndex {W} (exec : string → W → W * option error) (t : dialect_type) (table name : string)
    (unique : bool) (cols : list string) (w : W) : W * option error :=
  exec (create_index_query t table name unique cols) w.

Definition drop_index_query (t : dialect_type) (table name : string) : string :=
  if is_mysql t then "DROP INDEX " +:+ quote t name +:+ " ON " +:+ quote t table else "DROP INDEX " +:+ quote t name.

Definition DropIndex {W} (exec : string → W → W * option error) (t : dialect_type) (table name : string) (w : W) :
    W * option error :=
  exec (drop_index_query t table name) w.

Definition has_table_query (t : dialect_type) (table : string) : string * list string :=
  if is_mysql t then
    ("SELECT 1 FROM information_schema.tables WHERE table_schema = DATABASE() AND table_name = ?", [table])
  else if is_pg t then ("SELECT 1 FROM pg_tables WHERE tablename = $1", [table])
  else ("SELECT 1 FROM " +:+ quote t table +:+ " LIMIT 1", []).

(** [HasTable]: [query] tells whether there is a row, or fails; the error is
    dropped. *)
Definition HasTable {W} (query : string → list string → W → result bool) (t : dialect_type) (table : string) (w : W) :
    bool * option error :=
  let '(q, args) := has_table_query t table in
  match query q args w with
  | Err _ => (false, None)
  | Ok b => (b, None)
  end.

Definition truncate_query (t : dialect_type) (table : string) (cascade : list bool) : string :=
  "TRUNCATE TABLE " +:+ quote t table +:+ (if default false (head cascade) then " CASCADE" else "").

Definition TruncateTable {W} (exec : string → W → W * option error) (t : dialect_type) (table : string)
    (cascade : list bool) (w : W) : W * option error :=
  exec (truncate_query t table cascade) w.

(** ** How a database reads the body of a table

    Definitions are separated by the commas outside parentheses and quotes. *)

Record reader := MkReader { depth : nat; quoted : option ascii }.
Definition outside : reader := MkReader 0 None.

Definition read_char (st : reader) (c : ascii) : reader :=
  match quoted st with
  | Some q => if Ascii.eqb c q then MkReader (depth st) None else st
  | None =>
      if Ascii.eqb c "`" || Ascii.eqb c "'" || Ascii.eqb c (ascii_of_nat 34) then MkReader (depth st) (Some c)
      else if Ascii.eqb c "(" then MkReader (S (depth st)) None
      else if Ascii.eqb c ")" then MkReader (pred (depth st)) None
      else st
  end.

Definition at_top (st : reader) : bool := Nat.eqb (depth st) 0 && negb (bool_decide (is_Some (quoted st))).

(** The definitions of a body; the blank after a comma is skipped. *)
Fixpoint definitions (st : reader) (s : string) : list string :=
  match s with
  | String.EmptyString => [""]
  | String.String c s' =>
      if at_top st && Ascii.eqb c "," then
        "" :: match s' with String.String " " s'' => definitions st s'' | _ => definitions st s' end
      else
        match definitions (read_char st c) s' with
        | d :: ds => String.String c d :: ds
        | [] => [String.String c ""]
        end
  end.

(** Reading a text without leaving a definition: the state after it. *)
Fixpoint read_within (st : reader) (s : string) : option reader :=
  match s with
  | String.EmptyString => Some st
  | String.String c s' => if at_top st && Ascii.eqb c "," then None else read_within (read_char st c) s'
  end.

Definition closed (s : string) : Prop := read_within outside s = Some outside.

Lemma read_within_app st s t :
  read_within st (s +:+ t) = match read_within st s with Some st' => read_within st' t | None => None end.
Proof.
  revert st. induction s as [|c s IH]; intros st; [done|].
  change (String.String c s +:+ t) with (String.String c (s +:+ t)). cbn [read_within].
  destruct (_ && _); [done|]. apply IH.
Qed.

Lemma closed_app s t : closed s → closed t → closed (s +:+ t).
Proof. unfold closed. intros Hs Ht. by rewrite read_within_app, Hs. Qed.

Lemma definitions_within st st' s t :
  read_within st s = Some st' →
  definitions st (s +:+ t) = match definitions st' t with d :: ds => (s +:+ d) :: ds | [] => [s] end.
Proof.
  revert st. induction s as [|c s IH]; intros st.
  { intros [= <-]. change ("" +:+ t) with t. destruct (definitions st t) eqn:E; [|done].
    destruct t as [|a t]; simpl in E; [done|]. repeat case_match; done. }
  change (String.String c s +:+ t) with (String.String c (s +:+ t)). cbn [read_within definitions].
  destruct (at_top st && Ascii.eqb c ","); [done|]. intros H. rewrite (IH _ H).
  by destruct (definitions st' t).
Qed.

Lemma definitions_closed s : closed s → definitions outside s = [s].
Proof.
  intros Hs. pose proof (definitions_within outside outside s "" Hs) as H.
  rewrite app_nil_string in H. rewrite H. simpl. by rewrite app_nil_string.
Qed.

Lemma definitions_comma s t : closed s → definitions outside (s +:+ ", " +:+ t) = s :: definitions outside t.
Proof.
  intros Hs. rewrite (definitions_within outside outside _ _ Hs).
  change (", " +:+ t) with (String.String "," (String.String " " t)). simpl. by rewrite app_nil_string.
Qed.

Lemma definitions_concat ss : ss ≠ [] → Forall closed ss → definitions outside (String.concat ", " ss) = ss.
Proof.
  intros Hne Hss. destruct ss as [|s ss]; [done|]. clear Hne. revert s Hss.
  induction ss as [|t ss IH]; intros s Hss.
  { apply Forall_cons in Hss as [Hs _]. by apply definitions_closed. }
  apply Forall_cons in Hss as [Hs Hss]. rewrite concat_cons_string, definitions_comma by done. by rewrite IH.
Qed.

(** ** The body is its definitions, joined *)

Lemma write_columns_concat t cs :
  write_columns t true cs = String.concat ", " (buildColumnDef t <$> cs) ∧
  (cs ≠ [] → write_columns t false cs = ", " +:+ String.concat ", " (buildColumnDef t <$> cs)).
Proof.
  induction cs as [|c cs [_ IH]]; [done|]. simpl.
  assert (H : buildColumnDef t c +:+ write_columns t false cs =
    String.concat ", " (buildColumnDef t <$> c :: cs)).
  { destruct cs as [|c' cs]; [simpl; by rewrite app_nil_string|]. by rewrite IH. }
  split; [exact H|]. intros _. exact (f_equal (λ s, ", " +:+ s) H).
Qed.

Lemma write_indexes_concat t is_ s :
  s +:+ write_indexes t is_ = String.concat ", " (s :: (index_def t <$> is_)).
Proof.
  revert s. induction is_ as [|i is_ IH]; intros s; [simpl; by rewrite app_nil_string|].
  cbn [write_indexes].
  change (String.concat ", " (s :: (index_def t <$> i :: is_)))
    with (s +:+ ", " +:+ String.concat ", " (index_def t i :: (index_def t <$> is_))).
  by rewrite <- IH.
Qed.

(** The definitions a table consists of. *)
Definition table_parts (tb : TableBuilder) : list string :=
  let t := dialect tb in
  (buildColumnDef t <$> columns tb) ++
  (match primaryKeys tb with [] => [] | ks => [key_def t ks] end) ++
  (if is_mysql t then index_def t <$> indexes tb else []).

Lemma concat_app_string sep ss ts : ss ≠ [] → ts ≠ [] →
  String.concat sep (ss ++ ts) = String.concat sep ss +:+ sep +:+ String.concat sep ts.
Proof.
  intros Hs Ht. induction ss as [|s ss IH]; [done|]. destruct ss as [|s' ss].
  { by destruct ts. }
  change ((s :: s' :: ss) ++ ts) with (s :: s' :: (ss ++ ts)).
  rewrite !concat_cons_string. change (s' :: (ss ++ ts)) with ((s' :: ss) ++ ts).
  by rewrite IH, !app_assoc_string.
Qed.

Lemma table_body_concat tb : columns tb ≠ [] → table_body tb = String.concat ", " (table_parts tb).
Proof.
  intros Hc. unfold table_body, table_parts.
  destruct (write_columns_concat (dialect tb) (columns tb)) as [-> _].
  set (cs := buildColumnDef (dialect tb) <$> columns tb).
  assert (Hcs : cs ≠ []) by (unfold cs; by destruct (columns tb)).
  set (is_ := if is_mysql (dialect tb) then indexes tb else []).
  assert (Hw : (if is_mysql (dialect tb) then write_indexes (dialect tb) (indexes tb) else "") =
    write_indexes (dialect tb) is_) by (unfold is_; by destruct (is_mysql _)).
  assert (Hi : (if is_mysql (dialect tb) then index_def (dialect tb) <$> indexes tb else []) =
    index_def (dialect tb) <$> is_) by (unfold is_; by destruct (is_mysql _)).
  rewrite Hw, Hi. destruct (primaryKeys tb) as [|k ks].
  - rewrite app_nil_l. destruct is_ as [|i is_]; [simpl; by rewrite app_nil_string, app_nil_r|].
    rewrite concat_app_string by done. cbn [write_indexes]. rewrite write_indexes_concat. done.
  - rewrite app_assoc_string. rewrite concat_app_string by done. do 2 f_equal.
    by rewrite write_indexes_concat.
Qed.

(** ** Definitions of well-formed names are closed *)

Definition specials : list ascii := ["`"; "'"; ascii_of_nat 34; "("; ")"; ","]%char.

(** A text that does not change the state of the reader. *)
Definition neutral (s : string) : Prop := ∀ c, c ∈ specials → count_char c s = 0%nat.

Lemma count_cons_0 c a s : count_char c (String.String a s) = 0%nat → a ≠ c ∧ count_char c s = 0%nat.
Proof. simpl. destruct (Ascii.eqb_spec a c) as [->|]; intros; [lia|]. split; [done|lia]. Qed.

Lemma read_neutral d s : neutral s → read_within (MkReader d None) s = Some (MkReader d None).
Proof.
  induction s as [|a s IH]; intros Hs; [done|]. cbn [read_within].
  assert (Ha : ∀ c, c ∈ specials → Ascii.eqb a c = false).
  { intros c Hc. apply Ascii.eqb_neq. by apply (count_cons_0 c a s), Hs. }
  unfold read_char. cbn [quoted depth]. rewrite !Ha by set_solver. rewrite andb_false_r. cbn [orb].
  apply IH. intros c Hc. by apply (count_cons_0 c a s), Hs.
Qed.

Lemma read_in_quote d c s : count_char c s = 0%nat → read_within (MkReader d (Some c)) s = Some (MkReader d (Some c)).
Proof.
  induction s as [|a s IH]; intros Hs; [done|]. apply count_cons_0 in Hs as [Ha Hs]. cbn [read_within].
  unfold at_top, read_char. cbn [quoted depth]. rewrite bool_decide_true by eauto. rewrite andb_false_r. cbn [andb].
  apply Ascii.eqb_neq in Ha. rewrite Ha. by apply IH.
Qed.

Lemma closed_neutral s : neutral s → closed s.
Proof. apply read_neutral. Qed.

(** A text in quotes, anywhere outside quotes. *)
Lemma read_quoted d c s : c ∈ ["`"; "'"; ascii_of_nat 34]%char → count_char c s = 0%nat →
  read_within (MkReader d None) (String.String c "" +:+ s +:+ String.String c "") = Some (MkReader d None).
Proof.
  intros Hc Hs. rewrite !read_within_app.
  assert (H1 : read_within (MkReader d None) (String.String c "") = Some (MkReader d (Some c))).
  { cbn [read_within]. unfold read_char. cbn [quoted depth].
    repeat (apply elem_of_cons in Hc as [-> |Hc]); [..|by apply elem_of_nil in Hc]; by rewrite andb_false_r. }
  rewrite H1. cbv iota beta. rewrite read_within_app, (read_in_quote d c s Hs). cbv iota beta. cbn [read_within]. unfold at_top, read_char. cbn [quoted depth].
  rewrite bool_decide_true by eauto. rewrite andb_false_r. cbn [andb]. by rewrite Ascii.eqb_refl.
Qed.

Lemma neutral_app s t : neutral s → neutral t → neutral (s +:+ t).
Proof. intros Hs Ht c Hc. rewrite count_char_app, Hs, Ht; done. Qed.

Lemma neutral_pretty (z : Z) : neutral (pretty z).
Proof.
  intros c Hc. apply pretty_count;
    (repeat (apply elem_of_cons in Hc as [-> |Hc]; [done|]); by apply elem_of_nil in Hc).
Qed.

(** A name: letters, digits and underscores. *)
Definition word (s : string) : Prop := s ≠ "" ∧ all_chars is_word s = true.

Lemma word_char_spec c : is_word c = true →
  is_space c = false ∧ contains_char c "()*,+-/\" = false ∧ Ascii.eqb c " " = false ∧ Ascii.eqb c "." = false.
Proof. destruct c as [[] [] [] [] [] [] [] []]; vm_compute; done. Qed.

Lemma word_mysql w : word w → mysql_quote 2 w = backquote w.
Proof.
  intros [Hne Hw].
  assert (Hs : no_space w ∧ contains_any "()*,+-/\" w = false ∧ contains_char " " w = false ∧ contains_char "." w = false).
  { clear Hne. induction w as [|c w IH]; [done|]. cbn [all_chars] in Hw. apply andb_true_iff in Hw as [Hc Hw].
    destruct (IH Hw) as (H1 & H2 & H3 & H4). destruct (word_char_spec c Hc) as (H5 & H6 & H7 & H8).
    split; [by split|]. split; [cbn [contains_any]; by rewrite H6, H2|].
    cbn [contains_char]. by rewrite H3, H4, H7, H8. }
  destruct Hs as (H1 & H2 & H3 & H4). cbn [mysql_quote].
  rewrite trim_no_space by done. rewrite decide_False by done. by rewrite H2, H3, H4.
Qed.

Lemma quote_word t w : word w →
  ∃ c, c ∈ ["`"; "'"; ascii_of_nat 34]%char ∧ count_char c w = 0%nat ∧
    quote t w = String.String c "" +:+ w +:+ String.String c "".
Proof.
  intros Hw. assert (Hb : mysql_quote 2 w = "`" +:+ w +:+ "`") by by rewrite word_mysql.
  assert (Hc : ∀ c, is_word c = false → count_char c w = 0%nat) by (intros c Hc; by apply word_count; [|apply Hw]).
  destruct t; unfold quote; simpl;
    first [exists "`"%char; split; [set_solver|]; split; [by apply Hc|done]
          |exists (ascii_of_nat 34); split; [set_solver|]; split; [by apply Hc|done]].
Qed.

Lemma read_quote_word d t w : word w → read_within (MkReader d None) (quote t w) = Some (MkReader d None).
Proof. intros Hw. destruct (quote_word t w Hw) as (c & Hc & Hn & ->). by apply read_quoted. Qed.

(** Reads the first of two texts. *)
Ltac read_on H := rewrite read_within_app, H; cbv iota beta.

(** A list of names in parentheses: its commas are not at the top. *)
Lemma read_list d t first ws : Forall word ws →
  read_within (MkReader (S d) None) (write_list (quote t) first ws) = Some (MkReader (S d) None).
Proof.
  intros Hws. revert first. induction Hws as [|w ws Hw _ IH]; intros first; [done|]. cbn [write_list].
  assert (Hsep : read_within (MkReader (S d) None) (if first then "" else ", ") = Some (MkReader (S d) None)).
  { by destruct first. }
  read_on Hsep. read_on (read_quote_word (S d) t w Hw). apply IH.
Qed.

Lemma closed_parens t pre ws : closed pre → Forall word ws →
  closed (pre +:+ "(" +:+ write_list (quote t) true ws +:+ ")").
Proof.
  intros Hp Hws. unfold closed. read_on Hp. read_on (eq_refl : read_within outside "(" = Some (MkReader 1 None)).
  by read_on (read_list 0 t true ws Hws).
Qed.

(** What the names, types, defaults and comments of a table have to be: a default
    or a type may use quotes and parentheses, but has to close them; a comment has no
    quote. *)
Record column_ok (c : ColumnDef) : Prop := {
  ok_name : word (Name c);
  ok_type : closed (ToUpper (Type_ c));
  ok_default : closed (Default c);
  ok_comment : count_char "'" (Comment c) = 0%nat
}.

Definition index_ok (i : IndexDef) : Prop := word (Index_Name i) ∧ Forall word (Columns i).

Record table_ok (tb : TableBuilder) : Prop := {
  ok_columns : Forall column_ok (columns tb);
  ok_keys : Forall word (primaryKeys tb);
  ok_indexes : Forall index_ok (indexes tb)
}.

Lemma closed_type t c : closed (ToUpper (Type_ c)) → closed (buildColumnType t c).
Proof.
  intros Ht. unfold buildColumnType.
  assert (Hz : ∀ z : Z, read_within (MkReader 1 None) (pretty z) = Some (MkReader 1 None)).
  { intros z. apply read_neutral, neutral_pretty. }
  assert (Hp : ∀ (a : string) (z : Z), read_within outside a = Some (MkReader 1 None) → closed (a +:+ pretty z +:+ ")")).
  { intros a z Ha. unfold closed. read_on Ha. by read_on (Hz z). }
  case_decide; [by apply (Hp "VARCHAR(")|]. case_decide; [by apply (Hp "CHAR(")|].
  case_decide.
  { set (z1 := if Precision c <=? 0 then _ else _). set (z2 := if Scale c <? 0 then _ else _).
    unfold closed. read_on (eq_refl : read_within outside "DECIMAL(" = Some (MkReader 1 None)).
    read_on (Hz z1). read_on (eq_refl : read_within (MkReader 1 None) "," = Some (MkReader 1 None)). by read_on (Hz z2). }
  case_decide; [by destruct (is_mysql t)|]. case_decide; [by destruct (is_pg t)|]. done.
Qed.

Lemma closed_column t c : column_ok c → closed (buildColumnDef t c).
Proof.
  intros [Hn Ht Hd Hc]. unfold buildColumnDef.
  apply closed_app; [by apply read_quote_word|]. apply closed_app; [done|].
  apply closed_app; [by apply closed_type|]. apply closed_app; [by destruct (Nullable c)|].
  apply closed_app; [case_decide; [done|]; by apply (closed_app " DEFAULT ")|].
  apply closed_app; [by destruct (AutoIncrement c), (is_mysql t), (is_pg t)|].
  destruct (_ && _); [|done].
  apply (closed_app " COMMENT " ("'" +:+ Comment c +:+ "'")); [done|]. apply (read_quoted 0 "'"); [set_solver|done].
Qed.

Lemma closed_index t i : index_ok i → closed (index_def t i).
Proof.
  intros [Hn Hc]. unfold index_def.
  assert (Hpre : closed ((if Index_Unique i then "UNIQUE " else "") +:+ "INDEX " +:+ quote t (Index_Name i) +:+ " ")).
  { apply closed_app; [by destruct (Index_Unique i)|]. apply closed_app; [done|].
    apply closed_app; [by apply read_quote_word|done]. }
  pose proof (closed_parens t _ (Columns i) Hpre Hc) as H. by rewrite !app_assoc_string in H.
Qed.

Lemma table_parts_closed tb : table_ok tb → Forall closed (table_parts tb).
Proof.
  intros [Hc Hk Hi]. unfold table_parts. apply Forall_app. split.
  { apply Forall_fmap. eapply Forall_impl; [exact Hc|]. intros c. apply closed_column. }
  apply Forall_app. split.
  - destruct (primaryKeys tb) as [|k ks]; [constructor|]. apply Forall_singleton.
    by apply (closed_parens (dialect tb) "PRIMARY KEY ").
  - destruct (is_mysql _); [|constructor]. apply Forall_fmap. eapply Forall_impl; [exact Hi|]. intros i. apply closed_index.
Qed.

(** ** Properties *)

(** [Build] of a table fails exactly when no column was defined, and otherwise
    writes the name of the table and, between parentheses, a list in which a
    database finds, at the commas outside parentheses and quotes, exactly the
    columns in the order of the calls, the primary key when there is one and, for
    MySQL, the indexes, whatever the lengths, precisions, defaults and comments. *)
Theorem create_table_readable (tb : TableBuilder)
    (Hmode : createMode tb = true) (Hok : table_ok tb) :
  match Build tb with
  | Err e => columns tb = [] ∧ e = Errorf "no columns defined for table %s" [tableName tb]
  | Ok q => columns tb ≠ [] ∧ ∃ body,
      q = "CREATE TABLE " +:+ (if ifNotExists tb then "IF NOT EXISTS " else "") +:+ quote (dialect tb) (tableName tb) +:+
          " (" +:+ body +:+ ")" +:+
          (if is_mysql (dialect tb) then " ENGINE=InnoDB DEFAULT CHARSET=utf8mb4" else "") ∧
      definitions outside body =
        (buildColumnDef (dialect tb) <$> columns tb) ++
        (match primaryKeys tb with [] => [] | ks => [key_def (dialect tb) ks] end) ++
        (if is_mysql (dialect tb) then index_def (dialect tb) <$> indexes tb else [])
  end.
Proof.
  unfold Build, buildCreate. rewrite Hmode. destruct (columns tb) as [|c cs] eqn:Hcs; [done|].
  split; [done|]. exists (table_body tb). split; [done|].
  rewrite table_body_concat by (by rewrite Hcs).
  rewrite definitions_concat; [by rewrite <- Hcs| |by apply table_parts_closed].
  unfold table_parts. by rewrite Hcs.
Qed.

Definition users (d : dialect_type) : TableBuilder :=
  Index "idx_name" ["name"; "email"]
    (Decimal "balance" 12 2 [true] (Varchar "name" 64 [] (Varchar "email" 0 [] (ID "id" (CreateTable (Some d) "users"))))).

Example users_mysql :
  Build (users TMySQL) = Ok "CREATE TABLE `users` (`id` BIGINT NOT NULL AUTO_INCREMENT, `email` VARCHAR(255) NOT NULL, `name` VARCHAR(64) NOT NULL, `balance` DECIMAL(12,2) NULL, PRIMARY KEY (`id`), INDEX `idx_name` (`name`, `email`)) ENGINE=InnoDB DEFAULT CHARSET=utf8mb4".
Proof. vm_compute. done. Qed.

Lemma create_table_readable_witness :
  createMode (users TMySQL) = true ∧ length (definitions outside (table_body (users TMySQL))) = 6%nat ∧
  match Build (users TMySQL) with Ok _ => columns (users TMySQL) ≠ [] | Err _ => False end.
Proof.
  split; [reflexivity|]. split; [vm_compute; reflexivity|].
  assert (Hok : table_ok (users TMySQL)).
  { split; repeat constructor; done. }
  pose proof (create_table_readable (users TMySQL) eq_refl Hok) as T.
  assert (E : match Build (users TMySQL) with Ok _ => true | Err _ => false end = true) by (vm_compute; reflexivity).
  destruct (Build (users TMySQL)) as [q|e]; [exact (proj1 T)|discriminate E].
Defined.

(** ** What the builder does not handle *)

(** Outside MySQL the indexes of a table are dropped without an error. *)
Example indexes_dropped :
  table_parts (users TPostgreSQL) = take 5 (table_parts (users TPostgreSQL)) ∧ indexes (users TPostgreSQL) ≠ [] ∧
  match Build (users TPostgreSQL) with Ok _ => True | Err _ => False end.
Proof. vm_compute. done. Qed.

(** The default dialect is documented to be compatible with MySQL; its tables have
    neither an automatic key nor the indexes. *)
Example default_dialect_loses_identity :
  Build (ID "id" (Index "i" ["id"] (CreateTable None "t"))) = Ok "CREATE TABLE `t` (`id` BIGINT NOT NULL, PRIMARY KEY (`id`))".
Proof. vm_compute. done. Qed.

(** [PrimaryKey] drops the keys that the columns declared. *)
Example primary_key_overridden :
  primaryKeys (SetPrimaryKey ["tenant"] (ID "id" (CreateTable (Some TMySQL) "t"))) = ["tenant"].
Proof. done. Qed.

(** A quote in a comment ends it. *)
Example comment_not_escaped :
  length (definitions outside (table_body (Column (MkColumn "a" "INT" 0 0 0 false "" false false false "it's, b")
    (CreateTable (Some TMySQL) "t")))) = 2%nat.
Proof. vm_compute. done. Qed.

(** A failing query is reported as a table that does not exist. *)
Example has_table_hides_errors W (w : W) t table e : HasTable (λ _ _ _, Err e) t table w = (false, None).
Proof. unfold HasTable. by destruct (has_table_query t table). Qed.

(** [Unique] of a column is never written. *)
Lemma unique_ignored t c b :
  buildColumnDef t (MkColumn (Name c) (Type_ c) (Length c) (Precision c) (Scale c) (Nullable c) (Default c)
    (AutoIncrement c) (PrimaryKey c) b (Comment c)) = buildColumnDef t c.
Proof. done. Qed.
