(* ===== verification/Scopes.v ===== *)
(** * plugins/db/orm/scopes.go: reusable parts of a query

    A scope is a function on the builder, which keeps a list of scopes: scopes are
    first-order here, the functions of the file as constructors and any other
    function as [Custom], whose behaviour is given by the argument [custom].  A
    function works on the builder it is given and returns a builder or nil, so it is
    a map to the builder it leaves and the one it returns. *)

From S2P Require Import Prelude GoString Orm SqlText.
From stdpp Require Import pretty.

Open Scope Z_scope.

Inductive ScopeType := ScopeQuery | ScopeRouting | ScopeMeta.
#[global] Instance ScopeType_eq_dec : EqDecision ScopeType.
Proof. solve_decision. Defined.

(** Arguments of a statement. *)
Inductive arg := AStr (s : string) | AInt (z : Z) | ATime (t : Z).

Inductive Scope : Type :=
| Active (column : string)
| NotDeleted
| Paginate (page size : Z)
| OrderByDesc (col : string)
| CreatedAfter (t : Z)
| HashTable (base : string) (shardKey count : Z)
| ShardByUser (userID : Z)
| Trace (name : string)
| Same                                     (* the scope of [If] and [IfNotZero] that do not apply *)
| Compose (scopes : list Scope)
| Custom (n : nat).

(** [If] and [IfNotZero]. *)
Definition If (cond : bool) (s : Scope) : Scope := if cond then s else Same.
Definition IfNotZero (v : Z) (fn : Z → Scope) : Scope := if v =? 0 then Same else fn v.

Record Scoped := MkScoped { Name : string; Type_ : ScopeType; Fn : Scope }.

Definition Named (name : string) (t : ScopeType) (fn : Scope) : Scoped := MkScoped name t fn.

Record Builder := MkBuilder {
  table : string;
  where_ : list string;
  args : list arg;
  orderBy : list string;
  limit : option Z;
  offset : option Z;
  scopes : list Scoped;
  applied : list string
}.

Definition NewBuilder (t : string) : Builder := MkBuilder t [] [] [] None None [] [].

(** ** Operations of the builder *)

Definition Table (name : string) (b : Builder) : Builder :=
  MkBuilder name (where_ b) (args b) (orderBy b) (limit b) (offset b) (scopes b) (applied b).
Definition Where (cond : string) (vs : list arg) (b : Builder) : Builder :=
  MkBuilder (table b) (where_ b ++ [cond]) (args b ++ vs) (orderBy b) (limit b) (offset b) (scopes b) (applied b).
Definition OrderBy (expr : string) (b : Builder) : Builder :=
  MkBuilder (table b) (where_ b) (args b) (orderBy b ++ [expr]) (limit b) (offset b) (scopes b) (applied b).
Definition Limit (n : Z) (b : Builder) : Builder :=
  MkBuilder (table b) (where_ b) (args b) (orderBy b) (Some n) (offset b) (scopes b) (applied b).
Definition Offset (n : Z) (b : Builder) : Builder :=
  MkBuilder (table b) (where_ b) (args b) (orderBy b) (limit b) (Some n) (scopes b) (applied b).
Definition Add (s : Scoped) (b : Builder) : Builder :=
  MkBuilder (table b) (where_ b) (args b) (orderBy b) (limit b) (offset b) (scopes b ++ [s]) (applied b).
Definition record_applied (name : string) (b : Builder) : Builder :=
  MkBuilder (table b) (where_ b) (args b) (orderBy b) (limit b) (offset b) (scopes b) (applied b ++ [name]).

Definition AddScope (fn : Scope) : Builder → Builder := Add (MkScoped "" ScopeQuery fn).
Definition Routing (fn : Scope) : Builder → Builder := Add (MkScoped "" ScopeRouting fn).
Definition Meta (fn : Scope) : Builder → Builder := Add (MkScoped "" ScopeMeta fn).
Definition AppliedScopes (b : Builder) : list string := applied b.

Definition Build (b : Builder) : string * list arg :=
  ("SELECT * FROM " +:+ table b +:+
   (match where_ b with [] => "" | ws => " WHERE " +:+ String.concat " AND " ws end) +:+
   (match orderBy b with [] => "" | os => " ORDER BY " +:+ String.concat ", " os end) +:+
   (match limit b with None => "" | Some n => " LIMIT " +:+ pretty n end) +:+
   (match offset b with None => "" | Some n => " OFFSET " +:+ pretty n end),
   args b).

(** ** Running scopes *)

Section Apply.
(** What a function of the application does: the builder it leaves, and the one it
    returns ([None] for nil); or it panics. *)
Context (custom : nat → Builder → outcome (Builder * option Builder)).

Definition paginate (page size : Z) (b : Builder) : Builder :=
  let page := if page <? 1 then 1 else page in
  let size := if size <=? 0 then 10 else size in
  Offset (GoInt.i64 ((page - 1) * size)) (Limit size b).

(** A scope on a builder, seen through the pointer: what [*b] is after
    [newB := fn(ctx, b); if newB != nil { *b = *newB }].  A division by zero panics. *)
Fixpoint run (s : Scope) (b : Builder) : outcome Builder :=
  match s with
  | Active column => Ret (Where (column +:+ " = ?") [AStr "active"] b)
  | NotDeleted => Ret (Where "deleted_at IS NULL" [] b)
  | Paginate page size => Ret (paginate page size b)
  | OrderByDesc col => Ret (OrderBy (col +:+ " DESC") b)
  | CreatedAfter t => Ret (Where "created_at >= ?" [ATime t] b)
  | HashTable base shardKey count =>
      if count =? 0 then Panic "integer divide by zero" []
      else Ret (Table (base +:+ "_" +:+ pretty (Z.rem shardKey count)) b)
  | ShardByUser userID => Ret (Where "user_id = ?" [AInt userID] b)
  | Trace _ => Ret b
  | Same => Ret b
  | Compose ss =>
      (fix go (ss : list Scope) (b : Builder) : outcome Builder :=
         match ss with
         | [] => Ret b
         | s :: ss => match run s b with Ret b => go ss b | Panic m a => Panic m a end
         end) ss b
  | Custom n =>
      match custom n b with
      | Panic m a => Panic m a
      | Ret (b', None) => Ret b'
      | Ret (_, Some b') => Ret b'
      end
  end.

(** The scopes of a list, in order. *)
Fixpoint run_all (ss : list Scope) (b : Builder) : outcome Builder :=
  match ss with
  | [] => Ret b
  | s :: ss => match run s b with Ret b => run_all ss b | Panic m a => Panic m a end
  end.

(** The loop of [applyByType] over the slice it ranges over, which is the one of the
    moment the loop starts. *)
Fixpoint apply_loop (t : ScopeType) (ss : list Scoped) (b : Builder) : outcome Builder :=
  match ss with
  | [] => Ret b
  | s :: ss =>
      if decide (Type_ s = t) then
        match run (Fn s) b with
        | Panic m a => Panic m a
        | Ret b => apply_loop t ss (if decide (Name s = "") then b else record_applied (Name s) b)
        end
      else apply_loop t ss b
  end.

Definition applyByType (t : ScopeType) (b : Builder) : outcome Builder := apply_loop t (scopes b) b.

Definition ApplyScopes (b : Builder) : outcome Builder :=
  match applyByType ScopeRouting b with
  | Panic m a => Panic m a
  | Ret b =>
      match applyByType ScopeQuery b with
      | Panic m a => Panic m a
      | Ret b => applyByType ScopeMeta b
      end
  end.

(** ** What scopes mean *)

(** A builder that has more conditions, arguments and orders and is otherwise the
    same. *)
Record adds (b : Builder) (conds : list string) (vs : list arg) (orders : list string) (b' : Builder) : Prop := {
  ad_table : table b' = table b;
  ad_where : where_ b' = where_ b ++ conds;
  ad_args : args b' = args b ++ vs;
  ad_order : orderBy b' = orderBy b ++ orders;
  ad_limit : limit b' = limit b;
  ad_offset : offset b' = offset b;
  ad_scopes : scopes b' = scopes b;
  ad_applied : applied b' = applied b
}.

(** What a scope makes of a builder: those of the file add their condition or
    order, set a page or a table, or nothing; one composed of others does what they
    do one after the other; a function of the application is called once, on the
    builder there is, and gives the builder it returns, or if that is nil the one it
    leaves. *)
Inductive effect : Scope → Builder → Builder → Prop :=
| eff_active c b b' : adds b [c +:+ " = ?"] [AStr "active"] [] b' → effect (Active c) b b'
| eff_not_deleted b b' : adds b ["deleted_at IS NULL"] [] [] b' → effect NotDeleted b b'
| eff_page page size b :
    let n := if decide (size <= 0) then 10 else size in
    effect (Paginate page size) b
      (MkBuilder (table b) (where_ b) (args b) (orderBy b) (Some n) (Some (GoInt.i64 ((Z.max 1 page - 1) * n)))
         (scopes b) (applied b))
| eff_order c b b' : adds b [] [] [c +:+ " DESC"] b' → effect (OrderByDesc c) b b'
| eff_created t b b' : adds b ["created_at >= ?"] [ATime t] [] b' → effect (CreatedAfter t) b b'
| eff_hash base key count b : count ≠ 0 →
    effect (HashTable base key count) b
      (MkBuilder (base +:+ "_" +:+ pretty (Z.rem key count)) (where_ b) (args b) (orderBy b) (limit b) (offset b)
         (scopes b) (applied b))
| eff_shard u b b' : adds b ["user_id = ?"] [AInt u] [] b' → effect (ShardByUser u) b b'
| eff_trace name b : effect (Trace name) b b
| eff_same b : effect Same b b
| eff_none b : effect (Compose []) b b
| eff_compose s ss b b1 b2 : effect s b b1 → effect (Compose ss) b1 b2 → effect (Compose (s :: ss)) b b2
| eff_custom_left n b b' : custom n b = Ret (b', None) → effect (Custom n) b b'
| eff_custom_returned n b left b' : custom n b = Ret (left, Some b') → effect (Custom n) b b'.

(** The registered scopes of a list take effect one after the other, and each that
    has a name is recorded. *)
Inductive in_sequence : list Scoped → Builder → Builder → Prop :=
| seq_nil b : in_sequence [] b b
| seq_cons s ss b b1 b2 b' :
    effect (Fn s) b b1 →
    b2 = MkBuilder (table b1) (where_ b1) (args b1) (orderBy b1) (limit b1) (offset b1) (scopes b1)
           (applied b1 ++ if decide (Name s = "") then [] else [Name s]) →
    in_sequence ss b2 b' → in_sequence (s :: ss) b b'.

(** The parts of a scope. *)
Inductive part_of (x : Scope) : Scope → Prop :=
| part_self : part_of x x
| part_compose s ss : s ∈ ss → part_of x s → part_of x (Compose ss).

(** Why a scope does not return. *)
Definition panics (s : Scope) (m : string) (a : list string) : Prop :=
  (∃ base key, part_of (HashTable base key 0) s ∧ m = "integer divide by zero") ∨
  (∃ n b, part_of (Custom n) s ∧ custom n b = Panic m a).

(** Induction over scopes through the lists of [Compose]. *)
Lemma Scope_list_ind (P : Scope → Prop) :
  (∀ s, (∀ ss, s ≠ Compose ss) → P s) → (∀ ss, Forall P ss → P (Compose ss)) → ∀ s, P s.
Proof.
  intros Hbase Hc. fix IH 1. intros s.
  destruct s as [| | | | | | | | |ss|]; try (apply Hbase; intros ?; discriminate).
  apply Hc. induction ss as [|s ss IHss]; [constructor|]. constructor; [apply IH|exact IHss].
Qed.

Lemma adds_where c vs b : adds b [c] vs [] (Where c vs b).
Proof. split; try done. simpl. by rewrite app_nil_r. Qed.

Lemma panics_part s s' ss m a : s ∈ ss → panics s m a → s' = Compose ss → panics s' m a.
Proof.
  intros Hin [(base & key & Hp & Hm)|(n & b & Hp & Hm)] ->; [left; exists base, key|right; exists n, b];
    (split; [|done]); by eapply part_compose.
Qed.

Lemma run_Compose ss b : run (Compose ss) b = run_all ss b.
Proof. revert b. induction ss as [|s ss IH]; intros b; [done|]. simpl. destruct (run s b); [|done]. apply IH. Qed.

(** Running a scope has its effect, or fails for one of the two reasons. *)
Lemma run_effect s : ∀ b, match run s b with Ret b' => effect s b b' | Panic m a => panics s m a end.
Proof.
  induction s as [s Hs|ss IH] using Scope_list_ind; intros b.
  - destruct s as [c| |page size|c|t|base key count|u|name| |ss|n]; cbn [run].
    + apply eff_active, adds_where.
    + apply eff_not_deleted, adds_where.
    + pose proof (eff_page page size b) as H. unfold paginate.
      replace (if page <? 1 then 1 else page) with (Z.max 1 page) by (destruct (Z.ltb_spec page 1); lia).
      replace (if size <=? 0 then 10 else size) with (if decide (size <= 0) then 10 else size); [exact H|].
      destruct (Z.leb_spec size 0); case_decide; done || lia.
    + apply eff_order. split; try done; simpl; by rewrite app_nil_r.
    + apply eff_created, adds_where.
    + destruct (Z.eqb_spec count 0) as [->|]; [left; exists base, key; split; [constructor|done]|by apply eff_hash].
    + apply eff_shard, adds_where.
    + constructor.
    + constructor.
    + by destruct (Hs ss).
    + destruct (custom n b) as [[b' [b''|]]|m a] eqn:E; [by eapply eff_custom_returned|by apply eff_custom_left|].
      right. exists n, b. split; [constructor|done].
  - rewrite run_Compose. revert b. induction IH as [|s ss Hs _ IHss]; intros b; [constructor|].
    cbn [run_all]. specialize (Hs b). destruct (run s b) as [b1|m a].
    + specialize (IHss b1). destruct (run_all ss b1) as [b2|m a]; [by eapply eff_compose|].
      destruct IHss as [(base & key & Hp & Hm)|(n & b0 & Hp & Hm)]; [left; exists base, key|right; exists n, b0];
        (split; [|done]); inversion Hp as [|s' ss' Hin Hp']; subst; eapply part_compose; [right; exact Hin|exact Hp'
        |right; exact Hin|exact Hp'].
    + by eapply panics_part; [left|exact Hs|].
Qed.

(** Routing first, then the query, then meta; within a type in order of addition. *)
Definition by_type (ss : list Scoped) : list Scoped :=
  filter (λ s, Type_ s = ScopeRouting) ss ++ filter (λ s, Type_ s = ScopeQuery) ss ++ filter (λ s, Type_ s = ScopeMeta) ss.

Lemma in_sequence_app ss ts b b1 b2 : in_sequence ss b b1 → in_sequence ts b1 b2 → in_sequence (ss ++ ts) b b2.
Proof. induction 1; [done|]. intros. eapply seq_cons; eauto. Qed.

(** The loop of [applyByType] against the sequence. *)
Lemma apply_loop_sequence t ss : ∀ b,
  match apply_loop t ss b with
  | Ret b' => in_sequence (filter (λ s, Type_ s = t) ss) b b'
  | Panic m a => ∃ s, s ∈ ss ∧ panics (Fn s) m a
  end.
Proof.
  induction ss as [|s ss IH]; intros b; [constructor|]. cbn [apply_loop]. rewrite filter_cons.
  destruct (decide (Type_ s = t)).
  - pose proof (run_effect (Fn s) b) as He. destruct (run (Fn s) b) as [b1|m a]; [|exists s; split; [by left|done]].
    specialize (IH (if decide (Name s = "") then b1 else record_applied (Name s) b1)).
    destruct (apply_loop t ss _) as [b'|m a].
    + eapply seq_cons; [exact He|reflexivity|]. replace (MkBuilder _ _ _ _ _ _ _ _)
        with (if decide (Name s = "") then b1 else record_applied (Name s) b1); [done|].
      case_decide; [|done]. rewrite app_nil_r. by destruct b1.
    + destruct IH as (x & Hin & Hx). exists x. split; [by right|done].
  - specialize (IH b). destruct (apply_loop t ss b) as [b'|m a]; [done|].
    destruct IH as (x & Hin & Hx). exists x. split; [by right|done].
Qed.

Section Tidy.
(** Functions of the application that leave the registered scopes and the recorded
    names alone, as all do that work through the operations on the query. *)
Hypothesis Htidy : ∀ s b b', effect s b b' → (∃ n, s = Custom n) → scopes b' = scopes b ∧ applied b' = applied b.

Lemma effect_tidy s b b' : effect s b b' → scopes b' = scopes b ∧ applied b' = applied b.
Proof.
  induction 1 as [c b b' []|b b' []| |c b b' []|t b b' []|base key count b H|u b b' []|name b|b|b
    |s ss b b1 b2 _ [H1 H2] _ [H3 H4]|n b b' H|n b left b' H]; try done; try (split; congruence).
  - eapply Htidy; [by apply eff_custom_left|eauto].
  - eapply Htidy; [by eapply eff_custom_returned|eauto].
Qed.

Lemma in_sequence_tidy ss b b' : in_sequence ss b b' →
  scopes b' = scopes b ∧ applied b' = applied b ++ filter (λ n, n ≠ "") (Name <$> ss).
Proof.
  induction 1 as [b|s ss b b1 b2 b' He -> _ [IH1 IH2]]; [by rewrite app_nil_r|].
  apply effect_tidy in He as [H1 H2]. cbn [scopes applied] in *. rewrite IH1, IH2, H1, H2. split; [done|].
  rewrite fmap_cons, filter_cons, <-(assoc_L (++)). f_equal. case_decide as Hn.
  - by rewrite decide_False by (intros H; by apply H).
  - by rewrite decide_True.
Qed.

Lemma ApplyScopes_sequence b :
  match ApplyScopes b with
  | Ret b' => in_sequence (by_type (scopes b)) b b'
  | Panic m a => ∃ s, s ∈ scopes b ∧ panics (Fn s) m a
  end.
Proof.
  unfold ApplyScopes, applyByType, by_type. pose proof (apply_loop_sequence ScopeRouting (scopes b) b) as H1.
  destruct (apply_loop ScopeRouting (scopes b) b) as [b1|]; [|done].
  pose proof (in_sequence_tidy _ _ _ H1) as [Hs1 _]. rewrite Hs1.
  pose proof (apply_loop_sequence ScopeQuery (scopes b) b1) as H2.
  destruct (apply_loop ScopeQuery (scopes b) b1) as [b2|]; [|done].
  pose proof (in_sequence_tidy _ _ _ H2) as [Hs2 _]. rewrite Hs2, Hs1.
  pose proof (apply_loop_sequence ScopeMeta (scopes b) b2) as H3.
  destruct (apply_loop ScopeMeta (scopes b) b2) as [b3|]; [|done].
  eapply in_sequence_app; [exact H1|]. by eapply in_sequence_app.
Qed.

End Tidy.

(** ** Arguments *)

(** The names of a scope have no question mark. *)
Fixpoint plain_names (s : Scope) : bool :=
  match s with
  | Active c | OrderByDesc c => Nat.eqb (count_q c) 0
  | HashTable base _ _ => Nat.eqb (count_q base) 0
  | Compose ss => forallb plain_names ss
  | _ => true
  end.

(** Every question mark of the statement has its argument. *)
Record bound (b : Builder) : Prop := {
  bd_where : count_all (where_ b) = length (args b);
  bd_table : no_q (table b);
  bd_order : Forall no_q (orderBy b)
}.

Lemma bound_adds b conds vs orders b' :
  adds b conds vs orders b' → count_all conds = length vs → Forall no_q orders → bound b → bound b'.
Proof.
  intros [Ht Hw Ha Ho _ _ _ _] Hc Hor [Hb1 Hb2 Hb3].
  split; [rewrite Hw, Ha, count_all_app, length_app; lia|by rewrite Ht|]. rewrite Ho. by apply Forall_app.
Qed.

Lemma bound_effect s b b' :
  (∀ n b b', effect (Custom n) b b' → bound b → bound b') →
  effect s b b' → plain_names s = true → bound b → bound b'.
Proof.
  intros Hcust. induction 1 as [c b b' H|b b' H|page size b|c b b' H|t b b' H|base key count b H|u b b' H|name b|b|b
    |s ss b b1 b2 _ IH1 _ IH2|n b b' H|n b left b' H]; intros Hp Hb; cbn [plain_names forallb] in Hp; try done.
  - apply (bound_adds _ _ _ _ _ H); [|done..]. simpl. rewrite count_q_app. apply Nat.eqb_eq in Hp. by rewrite Hp.
  - by apply (bound_adds _ _ _ _ _ H).
  - by destruct Hb.
  - apply (bound_adds _ _ _ _ _ H); [done| |done]. apply Forall_singleton, no_q_app; [by apply Nat.eqb_eq|done].
  - by apply (bound_adds _ _ _ _ _ H).
  - destruct Hb. split; simpl; [done| |done].
    apply no_q_app; [by apply Nat.eqb_eq|]. apply no_q_app; [done|]. apply pretty_count; done.
  - by apply (bound_adds _ _ _ _ _ H).
  - apply andb_true_iff in Hp as [Hp1 Hp2]. auto.
  - eapply Hcust; [by apply eff_custom_left|done].
  - eapply Hcust; [by eapply eff_custom_returned|done].
Qed.

Lemma bound_sequence ss b b' :
  (∀ n b b', effect (Custom n) b b' → bound b → bound b') →
  in_sequence ss b b' → Forall (λ s, plain_names (Fn s) = true) ss → bound b → bound b'.
Proof.
  intros Hcust. induction 1 as [b|s ss b b1 b2 b' He -> _ IH]; [done|]. intros [Hs Hss]%Forall_cons Hb.
  apply IH; [done|]. by destruct (bound_effect _ _ _ Hcust He Hs Hb).
Qed.

Lemma bound_Build b : bound b → count_q (Build b).1 = length (Build b).2.
Proof.
  intros [Hw Ht Ho]. unfold Build. cbn [fst snd]. rewrite !count_q_app, Ht.
  assert (H1 : count_q match where_ b with [] => "" | ws => " WHERE " +:+ String.concat " AND " ws end = length (args b)).
  { destruct (where_ b) as [|w ws] eqn:E; [done|]. rewrite count_q_app, count_q_concat by done. done. }
  assert (H2 : count_q match orderBy b with [] => "" | os => " ORDER BY " +:+ String.concat ", " os end = 0%nat).
  { destruct (orderBy b) as [|o os] eqn:E; [done|]. rewrite count_q_app.
    pose proof (concat_no_q ", " (o :: os) eq_refl Ho) as H. unfold no_q in H. rewrite H. done. }
  assert (H3 : ∀ (o : option Z) (w : string), count_q w = 0%nat →
    count_q match o with None => "" | Some n => w +:+ pretty n end = 0%nat).
  { intros [n|] w Hq; [|done]. rewrite count_q_app, Hq. by apply pretty_count. }
  rewrite H1, H2, (H3 (limit b) " LIMIT "), (H3 (offset b) " OFFSET ") by done. done.
Qed.

End Apply.

(** ** Properties *)

(** C29: applying the scopes of a builder, those of the library and functions of the
    application alike, has the effect of every one of them once, routing before
    query before meta and otherwise in the order they were added, whatever the order
    of the calls that added them, and records exactly the names of those that have
    one in that order.  If the builder and the functions of the application bind
    their arguments, the statement then has as many question marks as arguments.
    The only ways not to return are a table hashed over zero shards and a panic of a
    function of the application.  The functions are those that do not register
    scopes or record names themselves. *)
Theorem scopes_in_order custom (b : Builder)
    (Htidy : ∀ n b b', effect custom (Custom n) b b' → scopes b' = scopes b ∧ applied b' = applied b) :
  match ApplyScopes custom b with
  | Ret b' =>
      in_sequence custom (by_type (scopes b)) b b' ∧ scopes b' = scopes b ∧
      applied b' = applied b ++ filter (λ n, n ≠ "") (Name <$> by_type (scopes b)) ∧
      ((∀ n b b', effect custom (Custom n) b b' → bound b → bound b') →
       Forall (λ s, plain_names (Fn s) = true) (scopes b) → bound b →
       count_q (Build b').1 = length (Build b').2)
  | Panic m a => ∃ s, s ∈ scopes b ∧ panics custom (Fn s) m a
  end.
Proof.
  assert (Ht : ∀ s b b', effect custom s b b' → (∃ n, s = Custom n) → scopes b' = scopes b ∧ applied b' = applied b).
  { intros s b1 b2 He [n ->]. by eapply Htidy. }
  pose proof (ApplyScopes_sequence custom Ht b) as H. destruct (ApplyScopes custom b) as [b'|m a]; [|done].
  split; [done|]. destruct (in_sequence_tidy custom Ht _ _ _ H) as [Hs Ha].
  split; [done|]. split; [done|]. intros Hcust Hplain Hb. apply bound_Build.
  eapply bound_sequence; [exact Hcust|exact H| |done].
  apply Forall_forall. intros s Hs'. rewrite Forall_forall in Hplain. apply Hplain.
  unfold by_type in Hs'. rewrite !elem_of_app, !list_elem_of_filter in Hs'. naive_solver.
Qed.

(** The functions of an application: one that filters by tenant and returns the
    builder it was given, and one that sets the table and returns nil. *)
Definition app_scopes (n : nat) (b : Builder) : outcome (Builder * option Builder) :=
  match n with
  | O => let b' := Where "tenant = ?" [AInt 7] b in Ret (b', Some b')
  | _ => Ret (Table "users_archive" b, None)
  end.

Definition listing : Builder :=
  AddScope (Paginate 3 20) (Add (Named "tenant" ScopeQuery (Compose [Custom 0; NotDeleted]))
    (Add (Named "active" ScopeQuery (Active "status"))
      (Meta (Trace "list") (Add (Named "archive" ScopeRouting (Custom 1)) (NewBuilder "users"))))).

Lemma app_scopes_effect n b b' : effect app_scopes (Custom n) b b' →
  b' = Where "tenant = ?" [AInt 7] b ∨ b' = Table "users_archive" b.
Proof. intros H. inversion H as [| | | | | | | | | | |? ? ? Hc|? ? ? ? Hc]; subst; destruct n; cbn in Hc; simplify_eq; auto. Qed.

Lemma scopes_in_order_witness :
  match ApplyScopes app_scopes listing with
  | Ret b' =>
      Build b' = ("SELECT * FROM users_archive WHERE status = ? AND tenant = ? AND deleted_at IS NULL LIMIT 20 OFFSET 40",
        [AStr "active"; AInt 7]) ∧
      in_sequence app_scopes (by_type (scopes listing)) listing b' ∧ applied b' = ["archive"; "active"; "tenant"]
  | Panic _ _ => False
  end.
Proof.
  pose proof (scopes_in_order app_scopes listing) as H.
  destruct (ApplyScopes app_scopes listing) as [b'|m a] eqn:E; [|vm_compute in E; discriminate].
  split; [vm_compute in E; injection E as <-; vm_compute; reflexivity|].
  destruct H as (H1 & _ & H2 & _); [|split; [exact H1|rewrite H2; vm_compute; reflexivity]].
  intros n b1 b2 [-> | ->]%app_scopes_effect; split; reflexivity.
Defined.

(** ** Pages *)

(** The pages of one size follow each other without gap or overlap. *)
Lemma paginate_next page size b :
  1 <= page → 0 < size → page * size < 2 ^ 63 →
  ∃ o, offset (paginate page size b) = Some o ∧ limit (paginate page size b) = Some size ∧
    offset (paginate (page + 1) size b) = Some (o + size) ∧ 0 <= o.
Proof.
  intros Hp Hs Hb. unfold paginate.
  replace (page <? 1) with false by lia. replace (page + 1 <? 1) with false by lia. replace (size <=? 0) with false by lia.
  simpl. exists ((page - 1) * size). rewrite !GoInt.i64_id by (unfold GoInt.in_i64; nia).
  split_and!; try done; [f_equal; lia|nia].
Qed.

(** ** What the scopes do not handle *)

(** A negative key names a table that does not exist; a late page wraps around. *)
Example negative_shard : run (λ _ b, Ret (b, None)) (HashTable "users" (-3) 8) (NewBuilder "users") = Ret (NewBuilder "users_-3").
Proof. vm_compute. done. Qed.
Example page_wraps : offset (paginate (2 ^ 62) 4 (NewBuilder "t")) = Some (-4).
Proof. vm_compute. done. Qed.

(** Applying twice repeats every condition. *)
Example applied_twice :
  match ApplyScopes (λ _ b, Ret (b, None)) (AddScope NotDeleted (NewBuilder "t")) with
  | Ret b => match ApplyScopes (λ _ b, Ret (b, None)) b with
             | Ret b => (Build b).1 = "SELECT * FROM t WHERE deleted_at IS NULL AND deleted_at IS NULL"
             | Panic _ _ => False end
  | Panic _ _ => False
  end.
Proof. vm_compute. done. Qed.

(** A condition with OR is joined to the others without parentheses. *)
Example or_not_grouped :
  (Build (Where "a = 1 OR b = 2" [] (Where "deleted_at IS NULL" [] (NewBuilder "t")))).1 =
  "SELECT * FROM t WHERE deleted_at IS NULL AND a = 1 OR b = 2".
Proof. vm_compute. done. Qed.

(** An offset without a limit is written as it is, which MySQL refuses. *)
Example offset_alone : (Build (Offset 5 (NewBuilder "t"))).1 = "SELECT * FROM t OFFSET 5".
Proof. vm_compute. done. Qed.
