(* ===== verification/WsClient.v ===== *)
(** * plugins/websocket/client.go: the reconnecting client

    [Connect], [Close], the calls that use the connection and the two background
    loops as goroutines over the state behind the locks of [Client].  A goroutine is
    at one of the points between two accesses to that state; [exec] runs one
    goroutine to its next point.  A connection is a number, given when its dial
    succeeds; a background context likewise.  The network, the timers and the
    schedule are the events. *)

From S2P Require Import Prelude GoString GoFloat.
From stdpp Require Import strings.
Import GoError.

Open Scope Z_scope.

(** ** Configuration *)

Record Config := MkConfig {
  Origin : string;
  MessageFormat : string;
  HandshakeTimeout : Z;
  ReadTimeout : Z;
  WriteTimeout : Z;
  AutoReconnect : bool;
  ReconnectInterval : Z;
  MaxReconnectAttempts : Z;
  MaxReconnectInterval : Z;
  ReconnectMultiplier : float64;
  ReconnectJitter : float64;
  HeartbeatInterval : Z;
  HeartbeatMessage : string
}.

Definition MessageFormatJSON : string := "json".
Definition MessageFormatProtobuf : string := "protobuf".

(** [strings.ToLower] on ASCII. *)
Fixpoint ToLower (s : string) : string :=
  match s with
  | String.EmptyString => s
  | String.String c s =>
      String.String (if within 65 90 (byte_of c) then Ascii.ascii_of_nat (Ascii.nat_of_ascii c + 32) else c) (ToLower s)
  end.

Definition normalizeMessageFormat (format : string) : string :=
  let format := ToLower (TrimSpace format) in
  if decide (format = "") then MessageFormatJSON else format.

Definition validateMessageFormat (format : string) : option error :=
  let f := normalizeMessageFormat format in
  if decide (f = MessageFormatJSON ∨ f = MessageFormatProtobuf) then None
  else Some (Errorf "unsupported websocket message format: %s" [format]).

Definition positive_or (z d : Z) : Z := if z <=? 0 then d else z.

(** The configuration of [NewClient]. *)
Definition NewClient_config (c : Config) : Config :=
  let f := normalizeMessageFormat (MessageFormat c) in
  MkConfig (or_default_s (Origin c) "http://localhost/")
    (match validateMessageFormat f with Some _ => MessageFormatJSON | None => f end)
    (positive_or (HandshakeTimeout c) (10 * GoTime.Second))
    (positive_or (ReadTimeout c) (30 * GoTime.Second))
    (positive_or (WriteTimeout c) (30 * GoTime.Second))
    (AutoReconnect c)
    (positive_or (ReconnectInterval c) (3 * GoTime.Second))
    (MaxReconnectAttempts c)
    (positive_or (MaxReconnectInterval c) (30 * GoTime.Second))
    (if SFleb (ReconnectMultiplier c) (of_int 1) then of_int 2 else ReconnectMultiplier c)
    (if fgt (of_int 0) (ReconnectJitter c) then of_int 0 else ReconnectJitter c)
    (positive_or (HeartbeatInterval c) (30 * GoTime.Second))
    (or_default_s (HeartbeatMessage c) "ping").

(** [nextReconnectDelay]: [pow] is [math.Pow] at the multiplier and the attempt,
    [draw] is [rng.Float64()*2 - 1]. *)
Definition nextReconnectDelay (c : Config) (pow : Z → float64) (draw : float64) (attempt : Z) : Z :=
  if attempt <=? 0 then ReconnectInterval c
  else
    let delay := fmul (of_int (ReconnectInterval c)) (pow attempt) in
    let maxDelay := of_int (MaxReconnectInterval c) in
    let delay := if fgt delay maxDelay then maxDelay else delay in
    let delay :=
      if fgt (ReconnectJitter c) (of_int 0)
      then fmul delay (SFadd 53 1024 (of_int 1) (fmul draw (ReconnectJitter c))) else delay in
    let delay := if fgt (of_int GoTime.Millisecond) delay then of_int GoTime.Millisecond else delay in
    to_int delay.

(** ** State *)

(** The fields of [Client], the connections that the client has closed, and the
    counters of connections and contexts. *)
Record shared := MkShared {
  conn : option nat;
  bgCtx : option nat;
  heartbeatStarted : bool;
  reconnectStarted : bool;
  cancelled : gset nat;
  closed : list nat;
  next_conn : nat;
  next_ctx : nat
}.

(** Where a goroutine is.  A loop knows its context and the number of attempts. *)
Inductive thread :=
| Dial                                        (* Connect, dialling *)
| Dialled (c : nat)                           (* before c.conn = conn *)
| Connected                                   (* before startBackgroundLoops *)
| Closing (oc : option nat)                   (* Close has taken the connection *)
| Cancelled (oc : option nat)                 (* and stopped the loops *)
| Using (c : nat)                             (* send, Receive, Ping: inside the call on the connection *)
| Failing                                     (* before handleConnectionError takes the connection *)
| Dropping (oc : option nat)                  (* before it closes it *)
| Heartbeat (ctx : nat)
| Waiting (ctx : nat) (attempts : Z)          (* reconnectLoop in its select *)
| RDial (ctx : nat) (attempts : Z)            (* in Connect *)
| RDialled (ctx : nat) (attempts : Z) (c : nat)
| RConnected (ctx : nat) (attempts : Z).

Record Client := MkClient { sh : shared; threads : list thread }.

Definition NewClient : Client := MkClient (MkShared None None false false ∅ [] 0 0) [].

Definition IsConnected (s : shared) : bool := bool_decide (is_Some (conn s)).

Definition set_conn (c : option nat) (s : shared) : shared :=
  MkShared c (bgCtx s) (heartbeatStarted s) (reconnectStarted s) (cancelled s) (closed s) (next_conn s) (next_ctx s).

Definition close_conn (oc : option nat) (s : shared) : shared :=
  MkShared (conn s) (bgCtx s) (heartbeatStarted s) (reconnectStarted s) (cancelled s)
    (match oc with Some c => c :: closed s | None => closed s end) (next_conn s) (next_ctx s).

Definition new_conn (s : shared) : shared :=
  MkShared (conn s) (bgCtx s) (heartbeatStarted s) (reconnectStarted s) (cancelled s) (closed s)
    (S (next_conn s)) (next_ctx s).

Section Steps.
Context (cfg : Config).

(** [startBackgroundLoops] with the goroutines it starts. *)
Definition startBackgroundLoops (s : shared) : shared * list thread :=
  let '(k, fresh) := match bgCtx s with Some k => (k, next_ctx s) | None => (next_ctx s, S (next_ctx s)) end in
  let beat := (HeartbeatInterval cfg >? 0) && negb (heartbeatStarted s) in
  let loop := AutoReconnect cfg && negb (reconnectStarted s) in
  (MkShared (conn s) (Some k) (heartbeatStarted s || beat) (reconnectStarted s || loop) (cancelled s) (closed s)
     (next_conn s) fresh,
   (if beat then [Heartbeat k] else []) ++ (if loop then [Waiting k 0] else [])).

(** The part of [Close] under [bgMu]. *)
Definition stop_loops (s : shared) : shared :=
  MkShared (conn s) None false false
    (match bgCtx s with Some k => {[k]} ∪ cancelled s | None => cancelled s end) (closed s) (next_conn s) (next_ctx s).

(** The steps of a goroutine to its next point, one definition per function of the
    source.  [ok] is the outcome of the network, or the choice of a select between its
    context and its timer; a select takes the context only after it was cancelled.  A
    dial succeeds only under a context that is not cancelled. *)
Definition Connect (ok : bool) (t : thread) (s : shared) : option (shared * list thread) :=
  match t with
  | Dial => if ok then Some (new_conn s, [Dialled (next_conn s)]) else Some (s, [])
  | Dialled c => Some (set_conn (Some c) s, [Connected])
  | Connected => Some (startBackgroundLoops s)
  | _ => None
  end.

(** [Close] after it has taken the connection. *)
Definition Close (t : thread) (s : shared) : option (shared * list thread) :=
  match t with
  | Closing oc => Some (stop_loops s, [Cancelled oc])
  | Cancelled oc => Some (close_conn oc s, [])
  | _ => None
  end.

(** [send], and the other calls that use the connection they have read. *)
Definition send (ok : bool) (s : shared) : option (shared * list thread) :=
  if ok then Some (s, []) else Some (s, [Failing]).

Definition handleConnectionError (t : thread) (s : shared) : option (shared * list thread) :=
  match t with
  | Failing => Some (set_conn None s, [Dropping (conn s)])
  | Dropping oc => Some (close_conn oc s, [])
  | _ => None
  end.

(** A tick starts a send on the connection, if there is one.  The loop does not wait
    for it here, which only adds interleavings. *)
Definition heartbeatLoop (ok : bool) (k : nat) (s : shared) : option (shared * list thread) :=
  if ok then Some (s, Heartbeat k :: match conn s with Some c => [Using c] | None => [] end)
  else if decide (k ∈ cancelled s) then Some (s, []) else None.

(** [reconnectLoop] with the [Connect] it calls. *)
Definition reconnectLoop (ok : bool) (t : thread) (s : shared) : option (shared * list thread) :=
  match t with
  | Waiting k attempts =>
      if ok then
        if IsConnected s then Some (s, [Waiting k 0])
        else if (MaxReconnectAttempts cfg >? 0) && (attempts >=? MaxReconnectAttempts cfg) then Some (s, [])
        else Some (s, [RDial k (attempts + 1)])
      else if decide (k ∈ cancelled s) then Some (s, []) else None
  | RDial k attempts =>
      if ok then
        if decide (k ∈ cancelled s) then None
        else Some (new_conn s, [RDialled k attempts (next_conn s)])
      else Some (s, [Waiting k attempts])
  | RDialled k attempts c => Some (set_conn (Some c) s, [RConnected k attempts])
  | RConnected k attempts => let '(s, ts) := startBackgroundLoops s in Some (s, Waiting k attempts :: ts)
  | _ => None
  end.

Definition advance (ok : bool) (t : thread) (s : shared) : option (shared * list thread) :=
  match t with
  | Dial | Dialled _ | Connected => Connect ok t s
  | Closing _ | Cancelled _ => Close t s
  | Using _ => send ok s
  | Failing | Dropping _ => handleConnectionError t s
  | Heartbeat k => heartbeatLoop ok k s
  | Waiting _ _ | RDial _ _ | RDialled _ _ _ | RConnected _ _ => reconnectLoop ok t s
  end.

Inductive event :=
| ECall_Connect
| ECall_Close
| ECall_Use            (* SendText, SendBinary, SendJSON, Receive, ReceiveJSON, Ping *)
| ERun (i : nat) (ok : bool).

(** The connection of the client, or the error "websocket client is not connected". *)
Definition getConn (s : shared) : option nat := conn s.

Definition exec (e : event) (m : Client) : option Client :=
  match e with
  | ECall_Connect => Some (MkClient (sh m) (threads m ++ [Dial]))
  | ECall_Close => Some (MkClient (set_conn None (sh m)) (threads m ++ [Closing (conn (sh m))]))
  | ECall_Use =>
      match getConn (sh m) with
      | None => None
      | Some c => Some (MkClient (sh m) (threads m ++ [Using c]))
      end
  | ERun i ok =>
      match threads m !! i with
      | None => None
      | Some t =>
          match advance ok t (sh m) with
          | None => None
          | Some (s, ts) => Some (MkClient s (take i (threads m) ++ ts ++ drop (S i) (threads m)))
          end
      end
  end.

Inductive reachable : Client → Prop :=
| reachable_new : reachable NewClient
| reachable_step e m m' : reachable m → exec e m = Some m' → reachable m'.

Fixpoint run (es : list event) (m : Client) : option Client :=
  match es with
  | [] => Some m
  | e :: es => match exec e m with Some m => run es m | None => None end
  end.

Lemma run_reachable es m m' : reachable m → run es m = Some m' → reachable m'.
Proof.
  revert m. induction es as [|e es IH]; intros m Hm; simpl; [by intros [= <-]|].
  destruct (exec e m) as [m1|] eqn:He; [|done]. apply IH. by econstructor.
Qed.

(** ** Who may close a connection *)

(** The connections a goroutine holds on its own: dialled, or taken out of the
    client. *)
Definition holds (t : thread) : list nat :=
  match t with
  | Dialled c | RDialled _ _ c => [c]
  | Closing oc | Cancelled oc | Dropping oc => option_list oc
  | _ => []
  end.

Fixpoint held (ts : list thread) : list nat :=
  match ts with
  | [] => []
  | t :: ts => holds t ++ held ts
  end.

(** Every connection has one owner at most: the client, a goroutine, or nobody after
    it was closed. *)
Definition owned (m : Client) : list nat := option_list (conn (sh m)) ++ held (threads m) ++ closed (sh m).

Record conns_ok (m : Client) : Prop := {
  co_nodup : NoDup (owned m);
  co_fresh : ∀ c, c ∈ owned m → (c < next_conn (sh m))%nat
}.

Lemma NoDup_sub (l k : list nat) : l ⊆+ k → NoDup k → NoDup l.
Proof. intros [k' ->]%submseteq_Permutation. by intros [? _]%NoDup_app. Qed.

(** The connections are fewer, or in another order. *)
Lemma conns_ok_sub m m' :
  conns_ok m → owned m' ⊆+ owned m → (next_conn (sh m) <= next_conn (sh m'))%nat → conns_ok m'.
Proof.
  intros [Hnd Hf] Hsub Hn. split.
  - by eapply NoDup_sub.
  - intros c Hc. eapply elem_of_submseteq in Hc; [|exact Hsub]. apply Hf in Hc. lia.
Qed.

Lemma conns_ok_new m m' :
  conns_ok m → owned m' ⊆+ next_conn (sh m) :: owned m → next_conn (sh m') = S (next_conn (sh m)) → conns_ok m'.
Proof.
  intros [Hnd Hf] Hsub Hn. split.
  - eapply NoDup_sub; [exact Hsub|]. apply NoDup_cons. split; [|done]. intros Hin%Hf. lia.
  - intros c Hc. eapply elem_of_submseteq in Hc; [|exact Hsub]. apply elem_of_cons in Hc as [-> |Hc%Hf]; lia.
Qed.

Lemma held_app l1 l2 : held (l1 ++ l2) = held l1 ++ held l2.
Proof. induction l1 as [|t l1 IH]; [done|]. simpl. by rewrite IH, app_assoc. Qed.

(** Goroutines that hold nothing. *)
Lemma held_none ts : Forall (λ t, holds t = []) ts → held ts = [].
Proof. induction 1 as [|t ts Ht _ IH]; [done|]. simpl. by rewrite Ht, IH. Qed.

Lemma start_holds s : held (startBackgroundLoops s).2 = [].
Proof.
  apply held_none. unfold startBackgroundLoops. destruct (bgCtx s); simpl;
    apply Forall_app; split; (destruct (_ && _); [by apply Forall_singleton|constructor]).
Qed.

(** What one goroutine does to the ownership. *)
Lemma advance_owned ok t s s' ts :
  advance ok t s = Some (s', ts) →
  (option_list (conn s') ++ held ts ++ closed s' ⊆+ option_list (conn s) ++ holds t ++ closed s ∧
   next_conn s' = next_conn s) ∨
  (option_list (conn s') ++ held ts ++ closed s' ⊆+ next_conn s :: option_list (conn s) ++ holds t ++ closed s ∧
   next_conn s' = S (next_conn s)).
Proof.
  assert (Hst : ∀ (s1 : shared) pre, held pre = [] →
    option_list (conn (startBackgroundLoops s1).1) ++ held (pre ++ (startBackgroundLoops s1).2) ++ closed (startBackgroundLoops s1).1
      = option_list (conn s1) ++ closed s1 ∧ next_conn (startBackgroundLoops s1).1 = next_conn s1).
  { intros s1 pre Hpre. rewrite held_app, start_holds, Hpre. unfold startBackgroundLoops. by destruct (bgCtx s1). }
  destruct t; unfold advance, Connect, Close, send, handleConnectionError, heartbeatLoop, reconnectLoop; cbn [holds]; intros Ha.
  - destruct ok; simplify_eq; [right|left; done]. simpl. split; [|done]. solve_submseteq.
  - simplify_eq. left. simpl. split; [|done]. by apply submseteq_inserts_l.
  - left. destruct (Hst s [] eq_refl) as [H1 H2]. injection Ha as Hp. rewrite Hp in H1, H2. simpl in *. rewrite H1.
    by split.
  - simplify_eq. left. simpl. by rewrite app_nil_r.
  - simplify_eq. left. simpl. split; [|done]. by destruct oc.
  - left. by destruct ok; simplify_eq.
  - simplify_eq. left. simpl. split; [|done]. rewrite app_nil_r. done.
  - simplify_eq. left. simpl. split; [|done]. by destruct oc.
  - left. destruct ok; [injection Ha as <- <-; by destruct (conn s)|]. case_decide; by simplify_eq.
  - left. destruct ok; [repeat case_match; by simplify_eq|]. case_decide; by simplify_eq.
  - destruct ok; [|left; by simplify_eq]. case_decide; [done|]. simplify_eq. right. simpl. split; [|done]. solve_submseteq.
  - simplify_eq. left. simpl. split; [|done]. by apply submseteq_inserts_l.
  - left. destruct (Hst s [Waiting ctx attempts] eq_refl) as [H1 H2].
    destruct (startBackgroundLoops s) as [s1 ts1]. simplify_eq. simpl in *. rewrite H1. by split.
Qed.

(** The goroutines before and after one of them ran. *)
Lemma exec_run i ok m m' :
  exec (ERun i ok) m = Some m' →
  ∃ l1 t l2 s ts, threads m = l1 ++ t :: l2 ∧ advance ok t (sh m) = Some (s, ts) ∧ m' = MkClient s (l1 ++ ts ++ l2).
Proof.
  simpl. destruct (threads m !! i) as [t|] eqn:Ht; [|done].
  destruct (advance ok t (sh m)) as [[s ts]|] eqn:Ha; [|done]. intros [= <-].
  exists (take i (threads m)), t, (drop (S i) (threads m)), s, ts. split; [by symmetry; apply take_drop_middle|done].
Qed.

Lemma owned_split s l1 ts l2 :
  owned (MkClient s (l1 ++ ts ++ l2)) ≡ₚ (option_list (conn s) ++ held ts ++ closed s) ++ held (l1 ++ l2).
Proof. unfold owned. cbn [sh threads]. rewrite !held_app. solve_Permutation. Qed.

Lemma conns_ok_step e m m' : conns_ok m → exec e m = Some m' → conns_ok m'.
Proof.
  intros Hm He. destruct e as [| | |i ok].
  - injection He as <-. eapply conns_ok_sub; [exact Hm| |done]. unfold owned. simpl. rewrite held_app. simpl.
    by rewrite app_nil_r.
  - injection He as <-. eapply conns_ok_sub; [exact Hm| |done]. unfold owned. simpl. rewrite held_app. simpl.
    rewrite app_nil_r. apply Permutation_submseteq. solve_Permutation.
  - simpl in He. unfold getConn in He. destruct (conn (sh m)) as [c|] eqn:Hc; [|done]. injection He as <-.
    eapply conns_ok_sub; [exact Hm| |done]. unfold owned. simpl. rewrite held_app. simpl. by rewrite app_nil_r.
  - apply exec_run in He as (l1 & t & l2 & s & ts & Hts & Ha & ->).
    assert (Hold : owned m ≡ₚ (option_list (conn (sh m)) ++ holds t ++ closed (sh m)) ++ held (l1 ++ l2)).
    { destruct m as [s0 ts0]. simpl in *. subst ts0. rewrite (owned_split s0 l1 [t] l2). simpl. by rewrite app_nil_r. }
    destruct (advance_owned ok t (sh m) s ts Ha) as [[Hsub Hn]|[Hsub Hn]].
    + eapply conns_ok_sub; [exact Hm| |simpl; lia]. rewrite owned_split, Hold. by apply submseteq_app.
    + eapply conns_ok_new; [exact Hm| |done]. rewrite owned_split, Hold.
      change (next_conn (sh m) :: ?l ++ held (l1 ++ l2)) with ((next_conn (sh m) :: l) ++ held (l1 ++ l2)).
      by apply submseteq_app.
Qed.

Lemma reachable_conns m : reachable m → conns_ok m.
Proof.
  induction 1 as [|e m m' _ IH He]; [|by eapply conns_ok_step].
  split; [constructor|]. intros c Hc. by apply elem_of_nil in Hc.
Qed.

(** ** How many loops run *)

Definition rctx (t : thread) : option nat :=
  match t with
  | Waiting k _ | RDial k _ | RDialled k _ _ | RConnected k _ => Some k
  | _ => None
  end.

Definition bctx (t : thread) : option nat := match t with Heartbeat k => Some k | _ => None end.

(** The number of goroutines of a kind with context [k]. *)
Definition count_ctx (f : thread → option nat) (k : nat) (ts : list thread) : nat :=
  length (filter (λ t, f t = Some k) ts).

Lemma count_app f k l1 l2 : count_ctx f k (l1 ++ l2) = (count_ctx f k l1 + count_ctx f k l2)%nat.
Proof. unfold count_ctx. by rewrite filter_app, length_app. Qed.

Lemma count_cons f k t ts :
  count_ctx f k (t :: ts) = ((if decide (f t = Some k) then 1 else 0) + count_ctx f k ts)%nat.
Proof. unfold count_ctx. rewrite filter_cons. by case_decide. Qed.

Definition b2n (b : bool) : nat := if b then 1%nat else 0%nat.

(** The loops of a kind: those of cancelled contexts are on their way out; the
    current context has one if the flag says so.  [exact] says that it cannot have
    ended. *)
Record kind_ok (f : thread → option nat) (flag exact : bool) (s : shared) (ts : list thread) : Prop := {
  ko_old : ∀ t k, t ∈ ts → f t = Some k → (k < next_ctx s)%nat ∧ (k ∈ cancelled s ∨ bgCtx s = Some k);
  ko_one : ∀ k, bgCtx s = Some k → (count_ctx f k ts <= b2n flag)%nat;
  ko_exact : exact = true → ∀ k, bgCtx s = Some k → count_ctx f k ts = b2n flag;
  ko_none : bgCtx s = None → flag = false
}.

Record ctx_ok (s : shared) : Prop := {
  cx_current : ∀ k, bgCtx s = Some k → (k < next_ctx s)%nat ∧ k ∉ cancelled s;
  cx_cancelled : ∀ k, k ∈ cancelled s → (k < next_ctx s)%nat
}.

Definition same_bg (s s' : shared) : Prop :=
  bgCtx s' = bgCtx s ∧ cancelled s' = cancelled s ∧ next_ctx s' = next_ctx s.

(** A step that keeps the goroutines of a kind, or ends one whose context is
    cancelled. *)
Lemma kind_ok_same f flag exact s s' l1 t ts l2 :
  kind_ok f flag exact s (l1 ++ t :: l2) → ctx_ok s → same_bg s s' →
  (∀ k, count_ctx f k ts = count_ctx f k [t] ∨ (count_ctx f k ts = 0%nat ∧ (k ∈ cancelled s ∨ exact = false))) →
  (∀ t' k, t' ∈ ts → f t' = Some k → f t = Some k) →
  kind_ok f flag exact s' (l1 ++ ts ++ l2).
Proof.
  intros [Ho H1 He Hn] Hcx (Hb & Hc & Hx) Hcnt Hts.
  assert (Hle : ∀ k, bgCtx s = Some k → (count_ctx f k (l1 ++ ts ++ l2) <= count_ctx f k (l1 ++ t :: l2))%nat ∧
    (exact = true → count_ctx f k (l1 ++ ts ++ l2) = count_ctx f k (l1 ++ t :: l2))).
  { intros k Hk. rewrite !count_app. change (t :: l2) with ([t] ++ l2). rewrite count_app.
    destruct (Hcnt k) as [->|[-> [Hkc|Hex]]]; [lia| |split; [lia|congruence]].
    destruct (cx_current s Hcx k Hk) as [_ Hno]. done. }
  split.
  - intros t' k Ht' Hk. rewrite Hb, Hc, Hx. rewrite !elem_of_app in Ht'.
    destruct Ht' as [Ht'|[Ht'|Ht']]; [apply (Ho t'); [set_solver|done]| |apply (Ho t'); [set_solver|done]].
    apply (Ho t); [set_solver|by eapply Hts].
  - intros k Hk. rewrite Hb in Hk. specialize (H1 k Hk). destruct (Hle k Hk). lia.
  - intros Hex k Hk. rewrite Hb in Hk. destruct (Hle k Hk) as [_ Hle2]. rewrite Hle2 by done. by apply He.
  - by rewrite Hb.
Qed.

(** [Close] cancels the context. *)
Lemma kind_ok_stop f flag exact s l1 t ts l2 :
  kind_ok f flag exact s (l1 ++ t :: l2) → (∀ t', t' ∈ ts → f t' = None) →
  kind_ok f false exact (stop_loops s) (l1 ++ ts ++ l2).
Proof.
  intros [Ho H1 He Hn] Hts. split; simpl; [|done..].
  intros t' k Ht' Hk. rewrite !elem_of_app in Ht'.
  assert (Hin : t' ∈ l1 ++ t :: l2).
  { destruct Ht' as [?|[Ht'|?]]; [set_solver| |set_solver]. rewrite Hts in Hk by done. done. }
  destruct (Ho t' k Hin Hk) as [? [?|Hb]]; split; try done; left; [destruct (bgCtx s); set_solver|].
  rewrite Hb. set_solver.
Qed.

(** [startBackgroundLoops] starts a loop of the kind unless the flag is set. *)
Lemma kind_ok_start f flag exact (want : bool) s l1 t ts l2 s' k0 :
  kind_ok f flag exact s (l1 ++ t :: l2) → ctx_ok s →
  k0 = match bgCtx s with Some k => k | None => next_ctx s end →
  bgCtx s' = Some k0 → cancelled s' = cancelled s →
  next_ctx s' = match bgCtx s with Some _ => next_ctx s | None => S (next_ctx s) end →
  (∀ k, count_ctx f k ts = (count_ctx f k [t] + if decide (k = k0) then b2n (want && negb flag) else 0)%nat) →
  (∀ t' k, t' ∈ ts → f t' = Some k → f t = Some k ∨ (k = k0)) →
  kind_ok f (flag || (want && negb flag)) exact s' (l1 ++ ts ++ l2).
Proof.
  intros [Ho H1 He Hn] Hcx Hk0 Hb Hc Hx Hcnt Hts.
  assert (Hcount : ∀ k, count_ctx f k (l1 ++ ts ++ l2) =
    (count_ctx f k (l1 ++ t :: l2) + if decide (k = k0) then b2n (want && negb flag) else 0)%nat).
  { intros k. rewrite !count_app, Hcnt. change (t :: l2) with ([t] ++ l2). rewrite count_app. lia. }
  assert (Hzero : bgCtx s = None → count_ctx f k0 (l1 ++ t :: l2) = 0%nat).
  { intros Hbn. rewrite Hbn in Hk0. unfold count_ctx. apply length_zero_iff_nil, filter_none.
    intros t' Ht' Hf. destruct (Ho t' k0 Ht' Hf). lia. }
  assert (Hlt : (k0 < next_ctx s')%nat).
  { rewrite Hx, Hk0. destruct (bgCtx s) as [k|] eqn:E; [apply (cx_current s Hcx k E)|lia]. }
  split.
  - intros t' k Ht' Hk. rewrite Hb, Hc. rewrite !elem_of_app in Ht'.
    assert (Hcase : f t' = Some k ∧ t' ∈ l1 ++ t :: l2 ∨ f t = Some k ∨ k = k0).
    { destruct Ht' as [?|[Ht'|?]]; [left; set_solver|right; by eapply Hts|left; set_solver]. }
    assert (Hold : ∀ t'', t'' ∈ l1 ++ t :: l2 → f t'' = Some k →
      (k < next_ctx s')%nat ∧ (k ∈ cancelled s ∨ Some k0 = Some k)).
    { intros t'' Hin Hf. destruct (Ho t'' k Hin Hf) as [Hlt' Hor]. split; [rewrite Hx; destruct (bgCtx s); lia|].
      destruct Hor as [?|Hbk]; [by left|right]. rewrite Hk0, Hbk. done. }
    destruct Hcase as [[? ?]|[Hf| ->]]; [by eapply Hold|eapply (Hold t); [set_solver|done]|split; [done|by right]].
  - intros k Hk. rewrite Hb in Hk. injection Hk as <-. rewrite Hcount, decide_True by done.
    destruct (bgCtx s) as [k|] eqn:E.
    + subst k0. specialize (H1 k eq_refl). destruct flag, want; simpl in *; lia.
    + rewrite Hzero by done. rewrite Hn by done. by destruct want.
  - intros Hex k Hk. rewrite Hb in Hk. injection Hk as <-. rewrite Hcount, decide_True by done.
    destruct (bgCtx s) as [k|] eqn:E.
    + subst k0. rewrite (He Hex k eq_refl). destruct flag, want; simpl; lia.
    + rewrite Hzero by done. rewrite Hn by done. by destruct want.
  - by rewrite Hb.
Qed.

Lemma kind_ok_spawn f flag exact s s' ts t :
  kind_ok f flag exact s ts → same_bg s s' → f t = None → kind_ok f flag exact s' (ts ++ [t]).
Proof.
  intros [Ho H1 He Hn] (Hb & Hc & Hx) Ht.
  assert (Hcnt : ∀ k, count_ctx f k (ts ++ [t]) = count_ctx f k ts).
  { intros k. rewrite count_app, count_cons, decide_False by (by rewrite Ht). unfold count_ctx. simpl. lia. }
  split.
  - intros t' k [Ht'|Ht']%elem_of_app Hk; rewrite Hb, Hc, Hx; [by apply (Ho t')|].
    apply list_elem_of_singleton in Ht' as ->. congruence.
  - intros k Hk. rewrite Hb in Hk. rewrite Hcnt. by apply H1.
  - intros Hex k Hk. rewrite Hb in Hk. rewrite Hcnt. by apply He.
  - by rewrite Hb.
Qed.

(** The attempts of a loop. *)
Definition tries (t : thread) : Z :=
  match t with
  | Waiting _ a | RDial _ a | RDialled _ a _ | RConnected _ a => a
  | _ => 0
  end.

Definition tries_ok (t : thread) : Prop := MaxReconnectAttempts cfg > 0 → 0 <= tries t <= MaxReconnectAttempts cfg.

Record loops_ok (m : Client) : Prop := {
  lk_ctx : ctx_ok (sh m);
  lk_reconnect : kind_ok rctx (reconnectStarted (sh m)) (MaxReconnectAttempts cfg <=? 0) (sh m) (threads m);
  lk_beat : kind_ok bctx (heartbeatStarted (sh m)) true (sh m) (threads m);
  lk_started : ∀ k, bgCtx (sh m) = Some k → AutoReconnect cfg = true → reconnectStarted (sh m) = true;
  lk_tries : Forall tries_ok (threads m)
}.

(** The shared state after a step that does not touch the loops. *)
Definition quiet (s s' : shared) : Prop :=
  same_bg s s' ∧ reconnectStarted s' = reconnectStarted s ∧ heartbeatStarted s' = heartbeatStarted s.

Lemma ctx_ok_same s s' : ctx_ok s → same_bg s s' → ctx_ok s'.
Proof. intros [H1 H2] (Hb & Hc & Hx). split; intros k; rewrite ?Hb, Hc, Hx; auto. Qed.

Lemma loops_ok_spawn m s' t :
  loops_ok m → quiet (sh m) s' → rctx t = None → bctx t = None → tries t = 0 → loops_ok (MkClient s' (threads m ++ [t])).
Proof.
  intros [Hc Hr Hb Hs Ht] (Hbg & Hqr & Hqb) H1 H2 H3. split; simpl.
  - by eapply ctx_ok_same.
  - rewrite Hqr. by eapply kind_ok_spawn.
  - rewrite Hqb. by eapply kind_ok_spawn.
  - intros k Hk. destruct Hbg as (Hb1 & _). rewrite Hb1 in Hk. rewrite Hqr. by eapply Hs.
  - apply Forall_app. split; [done|]. apply Forall_singleton. intros Hmx. rewrite H3. lia.
Qed.

Lemma loops_ok_quiet m s' l1 t ts l2 :
  loops_ok m → threads m = l1 ++ t :: l2 → quiet (sh m) s' →
  (∀ k, count_ctx rctx k ts = count_ctx rctx k [t] ∨
     (count_ctx rctx k ts = 0%nat ∧ (k ∈ cancelled (sh m) ∨ (MaxReconnectAttempts cfg <=? 0) = false))) →
  (∀ t' k, t' ∈ ts → rctx t' = Some k → rctx t = Some k) →
  (∀ k, count_ctx bctx k ts = count_ctx bctx k [t] ∨ (count_ctx bctx k ts = 0%nat ∧ (k ∈ cancelled (sh m) ∨ true = false))) →
  (∀ t' k, t' ∈ ts → bctx t' = Some k → bctx t = Some k) →
  Forall tries_ok ts → loops_ok (MkClient s' (l1 ++ ts ++ l2)).
Proof.
  intros [Hc Hr Hb Hs Ht] Hm (Hbg & Hqr & Hqb) Hr1 Hr2 Hb1 Hb2 Hts. rewrite Hm in Hr, Hb, Ht. split; simpl.
  - by eapply ctx_ok_same.
  - rewrite Hqr. by eapply kind_ok_same.
  - rewrite Hqb. by eapply kind_ok_same.
  - intros k Hk. destruct Hbg as (Hb3 & _). rewrite Hb3 in Hk. rewrite Hqr. by eapply Hs.
  - rewrite !Forall_app in *. rewrite Forall_cons in Ht. naive_solver.
Qed.

(** [startBackgroundLoops] by the goroutine [t], which goes on as [pre]. *)
Lemma loops_ok_start m l1 t pre l2 :
  loops_ok m → threads m = l1 ++ t :: l2 →
  (∀ k, count_ctx rctx k pre = count_ctx rctx k [t]) → (∀ t' k, t' ∈ pre → rctx t' = Some k → rctx t = Some k) →
  (∀ k, count_ctx bctx k pre = count_ctx bctx k [t]) → (∀ t' k, t' ∈ pre → bctx t' = Some k → bctx t = Some k) →
  Forall tries_ok pre →
  let '(s', ts) := startBackgroundLoops (sh m) in loops_ok (MkClient s' (l1 ++ (pre ++ ts) ++ l2)).
Proof.
  intros [Hc Hr Hb Hs Ht] Hm Hr1 Hr2 Hb1 Hb2 Hpre. rewrite Hm in Hr, Hb, Ht.
  destruct (startBackgroundLoops (sh m)) as [s' ts] eqn:E. unfold startBackgroundLoops in E.
  set (k0 := match bgCtx (sh m) with Some k => k | None => next_ctx (sh m) end).
  set (fr := match bgCtx (sh m) with Some _ => next_ctx (sh m) | None => S (next_ctx (sh m)) end).
  assert (Hp : match bgCtx (sh m) with Some k => (k, next_ctx (sh m)) | None => (next_ctx (sh m), S (next_ctx (sh m))) end
    = (k0, fr)) by (unfold k0, fr; by destruct (bgCtx (sh m))).
  rewrite Hp in E. clear Hp. set (beat := (HeartbeatInterval cfg >? 0) && negb (heartbeatStarted (sh m))) in *.
  set (loop := AutoReconnect cfg && negb (reconnectStarted (sh m))) in *. injection E as <- <-.
  assert (Hcr : ∀ k, count_ctx rctx k ((if beat then [Heartbeat k0] else []) ++ (if loop then [Waiting k0 0] else [])) =
    if decide (k = k0) then b2n loop else 0%nat).
  { intros k. rewrite count_app. destruct beat, loop; rewrite ?count_cons; unfold count_ctx; simpl; repeat case_decide; simplify_eq; done. }
  assert (Hcb : ∀ k, count_ctx bctx k ((if beat then [Heartbeat k0] else []) ++ (if loop then [Waiting k0 0] else [])) =
    if decide (k = k0) then b2n beat else 0%nat).
  { intros k. rewrite count_app. destruct beat, loop; rewrite ?count_cons; unfold count_ctx; simpl; repeat case_decide; simplify_eq; done. }
  assert (Hin : ∀ (f : thread → option nat) t' k, t' ∈ ((if beat then [Heartbeat k0] else []) ++ (if loop then [Waiting k0 0] else [])) →
    (f = rctx ∨ f = bctx) → f t' = Some k → k = k0).
  { intros f t' k Ht' Hf. apply elem_of_app in Ht' as [Ht'|Ht']; [destruct beat|destruct loop];
      try (by apply elem_of_nil in Ht'); apply list_elem_of_singleton in Ht' as ->; destruct Hf as [-> | ->]; simpl; congruence. }
  split; cbn [sh threads].
  - destruct Hc as [Hc1 Hc2]. split; simpl.
    + intros k [= <-]. unfold k0, fr. destruct (bgCtx (sh m)) as [k|] eqn:E; [by apply Hc1|].
      split; [lia|]. intros Hin'%Hc2. lia.
    + intros k Hk%Hc2. unfold fr. destruct (bgCtx (sh m)); lia.
  - cbn [reconnectStarted]. eapply kind_ok_start; [exact Hr|done|reflexivity|reflexivity|reflexivity|reflexivity| |].
    + intros k. rewrite count_app, Hr1, Hcr. done.
    + intros t' k [?|?]%elem_of_app Hk; [left; by eapply Hr2|right; by eapply (Hin rctx); [|left|]].
  - cbn [heartbeatStarted]. eapply kind_ok_start; [exact Hb|done|reflexivity|reflexivity|reflexivity|reflexivity| |].
    + intros k. rewrite count_app, Hb1, Hcb. done.
    + intros t' k [?|?]%elem_of_app Hk; [left; by eapply Hb2|right; by eapply (Hin bctx); [|right|]].
  - cbn [reconnectStarted]. intros k _ Ha. unfold loop. rewrite Ha. by destruct (reconnectStarted (sh m)).
  - rewrite !Forall_app in *. rewrite Forall_cons in Ht. split; [tauto|]. split; [|tauto]. split; [done|].
    assert (Hz : ∀ t', tries t' = 0 → tries_ok t') by (intros t' H0 Hmx; rewrite H0; lia).
    split; [destruct beat|destruct loop]; try constructor; try (by apply Hz); constructor.
Qed.

(** A step that leaves the loops as they are. *)
Ltac quiet_step :=
  match goal with
  | Hm : loops_ok ?m, Hts : threads ?m = _ |- _ =>
      eapply loops_ok_quiet; [exact Hm|exact Hts|done|..];
        [intros ?; left; by rewrite ?count_cons
        |let H := fresh in intros ? ? H; repeat (apply elem_of_cons in H as [-> |H]; [done|]); by apply elem_of_nil in H
        |intros ?; left; by rewrite ?count_cons
        |let H := fresh in intros ? ? H; repeat (apply elem_of_cons in H as [-> |H]; [done|]); by apply elem_of_nil in H
        |repeat apply Forall_cons_2; try apply Forall_nil_2; try assumption; auto]
  end.

Lemma loops_ok_step e m m' : loops_ok m → exec e m = Some m' → loops_ok m'.
Proof.
  intros Hm He. destruct e as [| | |i ok].
  - injection He as <-. by apply loops_ok_spawn.
  - injection He as <-. by apply loops_ok_spawn.
  - simpl in He. unfold getConn in He. destruct (conn (sh m)) as [c|]; [|done]. injection He as <-. by apply loops_ok_spawn.
  - apply exec_run in He as (l1 & t & l2 & s & ts & Hts & Ha & ->).
    assert (Htr : tries_ok t).
    { pose proof (lk_tries m Hm) as H. rewrite Hts, Forall_app, Forall_cons in H. tauto. }
    assert (Hone : ∀ t', tries_ok t' → Forall tries_ok [t']) by (intros; by apply Forall_singleton).
    assert (Hz : ∀ t', tries t' = 0 → tries_ok t') by (intros t' H0 Hmx; rewrite H0; lia).
    destruct t; unfold advance, Connect, Close, send, handleConnectionError, heartbeatLoop, reconnectLoop in Ha.
    + destruct ok; injection Ha as <- <-; quiet_step.
    + injection Ha as <- <-; quiet_step.
    + pose proof (loops_ok_start m l1 Connected [] l2 Hm Hts) as Hst. injection Ha as Ha. rewrite Ha in Hst.
      apply Hst; [done|by intros ? ? ?%elem_of_nil|done|by intros ? ? ?%elem_of_nil|constructor].
    + injection Ha as <- <-. destruct Hm as [Hc Hr Hb Hs Ht]. rewrite Hts in Hr, Hb, Ht. split; cbn [sh threads].
      * destruct Hc as [Hc1 Hc2]. split; simpl; [done|]. intros k. destruct (bgCtx (sh m)) as [k'|] eqn:E; [|apply Hc2].
        intros [->%elem_of_singleton|?]%elem_of_union; [by apply Hc1|by apply Hc2].
      * eapply kind_ok_stop; [exact Hr|]. intros t' ->%list_elem_of_singleton. done.
      * eapply kind_ok_stop; [exact Hb|]. intros t' ->%list_elem_of_singleton. done.
      * done.
      * rewrite !Forall_app in *. rewrite Forall_cons in Ht. split; [tauto|]. split; [by apply Hone, Hz|tauto].
    + injection Ha as <- <-; quiet_step.
    + destruct ok; injection Ha as <- <-; quiet_step.
    + injection Ha as <- <-; quiet_step.
    + injection Ha as <- <-; quiet_step.
    + destruct ok; [|case_decide; [|done]]; injection Ha as <- <-.
      * destruct (conn (sh m)) as [c|]; quiet_step.
      * eapply loops_ok_quiet; [exact Hm|exact Hts|done|..]; try (by intros ? ? ?%elem_of_nil); try apply Forall_nil_2.
        -- by left.
        -- intros k. destruct (decide (k = ctx)) as [->|]; [right; split; [done|by left]|left].
           rewrite count_cons, decide_False by (simpl; congruence). done.
    + destruct ok; [|case_decide; [|done]].
      * destruct (IsConnected (sh m)); [injection Ha as <- <-; quiet_step|].
        destruct (MaxReconnectAttempts cfg >? 0) eqn:Hmx; cbn [andb] in Ha.
        -- destruct (attempts >=? MaxReconnectAttempts cfg) eqn:Hat; injection Ha as <- <-.
           ++ eapply loops_ok_quiet; [exact Hm|exact Hts|done|..]; try (by intros ? ? ?%elem_of_nil); try apply Forall_nil_2.
              ** intros k. right. split; [done|right]. lia.
              ** by left.
           ++ quiet_step. intros H0. specialize (Htr H0). simpl in *. lia.
        -- injection Ha as <- <-. quiet_step. intros H0. lia.
      * injection Ha as <- <-.
        eapply loops_ok_quiet; [exact Hm|exact Hts|done|..]; try (by intros ? ? ?%elem_of_nil); try apply Forall_nil_2; [|by left].
        intros k. destruct (decide (k = ctx)) as [->|]; [right; split; [done|by left]|left].
        rewrite count_cons, decide_False by (simpl; congruence). done.
    + destruct ok; [case_decide; [done|]|]; injection Ha as <- <-; quiet_step.
    + injection Ha as <- <-; quiet_step.
    + pose proof (loops_ok_start m l1 (RConnected ctx attempts) [Waiting ctx attempts] l2 Hm Hts) as Hst.
      destruct (startBackgroundLoops (sh m)) as [s1 ts1]. injection Ha as <- <-.
      apply Hst; [by intros; rewrite !count_cons|by intros ? ? ->%list_elem_of_singleton|by intros; rewrite !count_cons|by intros ? ? ->%list_elem_of_singleton|by apply Hone].
Qed.

Lemma reachable_loops m : reachable m → loops_ok m.
Proof.
  induction 1 as [|e m m' _ IH He]; [|by eapply loops_ok_step].
  split; simpl; [split; [done|set_solver]| | |done|constructor]; (split; simpl; [set_solver|done|done|done]).
Qed.

(** C32: under every interleaving of connects, closes, sends, receives, failures and the
    two background loops, the connection of the client is never one that the client
    has closed or is about to close, every connection is closed once at most, at most
    one reconnect loop and one heartbeat loop run under a context that is not
    cancelled, and a loop never makes more consecutive attempts than configured. *)
Theorem client_interleavings (m : Client) (Hm : reachable m) :
  (∀ c, conn (sh m) = Some c → c ∉ closed (sh m) ∧ c ∉ held (threads m)) ∧
  NoDup (closed (sh m)) ∧
  (∀ f, f = rctx ∨ f = bctx →
     (∀ t k, t ∈ threads m → f t = Some k → k ∉ cancelled (sh m) → bgCtx (sh m) = Some k) ∧
     ∀ k, k ∉ cancelled (sh m) → (count_ctx f k (threads m) <= 1)%nat) ∧
  (MaxReconnectAttempts cfg > 0 → ∀ t, t ∈ threads m → tries t <= MaxReconnectAttempts cfg).
Proof.
  destruct (reachable_conns m Hm) as [Hnd _]. destruct (reachable_loops m Hm) as [Hc Hr Hb _ Ht].
  unfold owned in Hnd. apply NoDup_app in Hnd as (Hn1 & Hdis & Hnd2). apply NoDup_app in Hnd2 as (_ & _ & Hn3).
  split; [|split; [done|split]].
  - intros c Hcc. rewrite Hcc in Hdis. specialize (Hdis c ltac:(by left)). rewrite elem_of_app in Hdis. tauto.
  - assert (Hkind : ∀ f flag ex, kind_ok f flag ex (sh m) (threads m) →
      (∀ t k, t ∈ threads m → f t = Some k → k ∉ cancelled (sh m) → bgCtx (sh m) = Some k) ∧
      ∀ k, k ∉ cancelled (sh m) → (count_ctx f k (threads m) <= 1)%nat).
    { intros f flag ex Hk.
      assert (Hcur : ∀ t k, t ∈ threads m → f t = Some k → k ∉ cancelled (sh m) → bgCtx (sh m) = Some k).
      { intros t k Hin Hf Hno. by destruct (ko_old _ _ _ _ _ Hk t k Hin Hf) as [_ [?|?]]. }
      split; [done|]. intros k Hno. destruct (decide (bgCtx (sh m) = Some k)) as [Hbk|Hbk].
      - etrans; [by apply (ko_one _ _ _ _ _ Hk)|]. destruct flag; simpl; lia.
      - assert (Hz : count_ctx f k (threads m) = 0%nat); [|lia].
        unfold count_ctx. apply length_zero_iff_nil, filter_none. intros t Hin Hf. by apply Hbk, (Hcur t). }
    intros f [-> | ->]; by eapply Hkind.
  - intros Hmx t Hin. rewrite Forall_forall in Ht. by apply Ht.
Qed.

(** A client that reconnects without a limit of attempts does so until it is
    closed: from its first connection on there is exactly one reconnect loop, and
    whenever the loop wakes up without a connection it dials. *)
Theorem reconnects_until_closed (m : Client) (k : nat) (Hm : reachable m)
    (Hauto : AutoReconnect cfg = true) (Hmax : MaxReconnectAttempts cfg <= 0) (Hopen : bgCtx (sh m) = Some k) :
  count_ctx rctx k (threads m) = 1%nat ∧
  ∀ i a, threads m !! i = Some (Waiting k a) → conn (sh m) = None →
    ∃ m', exec (ERun i true) m = Some m' ∧ threads m' !! i = Some (RDial k (a + 1)).
Proof.
  destruct (reachable_loops m Hm) as [_ Hr _ Hs _]. split.
  - rewrite (ko_exact _ _ _ _ _ Hr) by (done || lia). by rewrite (Hs k Hopen Hauto).
  - intros i a Hi Hc. simpl. rewrite Hi. unfold advance, Connect, Close, send, handleConnectionError, heartbeatLoop, reconnectLoop. unfold IsConnected.
    rewrite Hc, bool_decide_false by (by intros []). replace (MaxReconnectAttempts cfg >? 0) with false by lia. cbn [andb].
    eexists. split; [done|]. simpl.
    assert (Hl : length (take i (threads m)) = i) by (apply length_take_le; apply lookup_lt_Some in Hi; lia).
    rewrite lookup_app_r by lia. by rewrite Hl, Nat.sub_diag.
Qed.

End Steps.

(** ** Runs *)

Definition example_config (attempts : Z) : Config :=
  NewClient_config (MkConfig "" "" 0 0 0 true 0 attempts 0 (of_int 0) (of_int 0) 0 "").

Example default_values :
  example_config 0 = MkConfig "http://localhost/" "json" (10 * GoTime.Second) (30 * GoTime.Second) (30 * GoTime.Second)
    true (3 * GoTime.Second) 0 (30 * GoTime.Second) (of_int 2) (of_int 0) (30 * GoTime.Second) "ping".
Proof. vm_compute. done. Qed.

(** Connected, and the connection fails in a send. *)
Definition connect_events : list event := [ECall_Connect; ERun 0 true; ERun 0 true; ERun 0 true].
Definition fail_events : list event := [ECall_Use; ERun 2 false; ERun 2 true; ERun 2 true].

Definition after (attempts : Z) (es : list event) : Client :=
  default NewClient (run (example_config attempts) es NewClient).

Lemma after_reachable attempts es :
  is_Some (run (example_config attempts) es NewClient) → reachable (example_config attempts) (after attempts es).
Proof.
  intros [m Hm]. unfold after. rewrite Hm. simpl. eapply run_reachable; [constructor|exact Hm].
Qed.

Lemma client_interleavings_witness :
  reachable (example_config 0) (after 0 (connect_events ++ fail_events)) ∧
  closed (sh (after 0 (connect_events ++ fail_events))) = [0%nat] ∧
  NoDup (closed (sh (after 0 (connect_events ++ fail_events)))).
Proof.
  assert (Hr : reachable (example_config 0) (after 0 (connect_events ++ fail_events))).
  { apply after_reachable. vm_compute. eexists. reflexivity. }
  split; [exact Hr|]. split; [vm_compute; reflexivity|].
  exact (proj1 (proj2 (client_interleavings (example_config 0) _ Hr))).
Defined.

Lemma reconnects_until_closed_witness :
  bgCtx (sh (after 0 (connect_events ++ fail_events))) = Some 0%nat ∧
  conn (sh (after 0 (connect_events ++ fail_events))) = None ∧
  count_ctx rctx 0 (threads (after 0 (connect_events ++ fail_events))) = 1%nat.
Proof.
  assert (Hb : bgCtx (sh (after 0 (connect_events ++ fail_events))) = Some 0%nat) by (vm_compute; reflexivity).
  split; [exact Hb|]. split; [vm_compute; reflexivity|].
  refine (proj1 (reconnects_until_closed (example_config 0) _ 0 _ _ _ Hb)).
  - apply after_reachable. vm_compute. eexists. reflexivity.
  - reflexivity.
  - vm_compute. discriminate.
Defined.

(** ** What the client does not handle *)

(** After the last attempt the loop is gone while its flag stays set: a client that
    the application connects again does not reconnect any more. *)
Definition exhausted_events : list event :=
  connect_events ++ fail_events ++ [ERun 1 true; ERun 1 false; ERun 1 true] ++
  [ECall_Connect; ERun 1 true; ERun 1 true; ERun 1 true; ECall_Use; ERun 1 false; ERun 1 true; ERun 1 true].

Example exhausted_for_good :
  let m := after 1 exhausted_events in
  is_Some (run (example_config 1) exhausted_events NewClient) ∧ conn (sh m) = None ∧ reconnectStarted (sh m) = true ∧
  bgCtx (sh m) = Some 0%nat ∧ count_ctx rctx 0 (threads m) = 0%nat.
Proof. vm_compute. split; [eexists; reflexivity|done]. Qed.

(** A [Close] while the loop has just dialled: the loop stores its connection and
    starts new loops, so the closed client is connected again. *)
Definition resurrect_events : list event :=
  connect_events ++ fail_events ++ [ERun 1 true; ERun 1 true; ECall_Close; ERun 2 true; ERun 2 true; ERun 1 true; ERun 1 true].

Example closed_client_reconnects :
  let m := after 0 resurrect_events in
  is_Some (run (example_config 0) resurrect_events NewClient) ∧ is_Some (conn (sh m)) ∧ bgCtx (sh m) = Some 1%nat ∧
  count_ctx rctx 1 (threads m) = 1%nat.
Proof. vm_compute. split; [eexists; reflexivity|]. split; [eexists; reflexivity|done]. Qed.

(** A call that fails on the old connection closes the new one. *)
Definition late_failure_events : list event :=
  connect_events ++ [ECall_Use; ECall_Connect; ERun 3 true; ERun 3 true; ERun 3 true; ERun 2 false; ERun 2 true; ERun 2 true].

Example late_failure_closes_new_connection :
  let m := after 0 late_failure_events in
  is_Some (run (example_config 0) late_failure_events NewClient) ∧ conn (sh m) = None ∧ closed (sh m) = [1%nat].
Proof. vm_compute. split; [eexists; reflexivity|done]. Qed.

(** Connecting a connected client drops its connection without closing it: nobody
    owns connection 0 any more. *)
Example second_connect_leaks :
  owned (after 0 (connect_events ++ [ECall_Connect; ERun 2 true; ERun 2 true])) = [1%nat].
Proof. vm_compute. done. Qed.

(** The jitter is applied after the maximum, which a delay may then exceed. *)
Example delay_above_maximum :
  let c := MkConfig "" "" 0 0 0 true (3 * GoTime.Second) 0 (30 * GoTime.Second) (of_int 2) (fdiv (of_int 1) (of_int 5)) 0 "" in
  nextReconnectDelay c (λ a, of_int (2 ^ a)) (fdiv (of_int 9) (of_int 10)) 10 = 35400000000.
Proof. vm_compute. done. Qed.
