(* ===== verification/AuditEvents.v ===== *)
(** * plugins/audit and plugins/middleware/audit.go, audit_dynamic.go

    Audit events, the masking of sensitive fields, the sinks that write an event at
    once (SQL, and several sinks in a row) and the gin handler that emits an event
    per request.  The sinks with buffers and goroutines are in [BatchSink] and [AsyncSink].  The
    JSON encoder is a parameter: it may refuse a value. *)

From Stdlib Require Import Ascii.
From S2P Require Import Prelude GoString.
From stdpp Require Import strings.
Import GoError.

Open Scope Z_scope.

(** ** Events *)

(** What an [interface{}] of the metadata holds.  [VOpaque] is a value that JSON
    cannot represent, such as a channel or a function. *)
Inductive any :=
| VString (s : string)
| VInt (z : Z)
| VMap (m : list (string * any))
| VOpaque.

Abbreviation Metadata_t := (gmap string any).

Definition ActionRead : string := "read".
Definition ActionCreate : string := "create".
Definition ActionUpdate : string := "update".
Definition ActionDelete : string := "delete".
Definition ActionLogin : string := "login".
Definition ActionCustom : string := "custom".

Record Event := MkEvent {
  Timestamp : Z;
  RequestID : string;
  TraceID : string;
  TenantID : string;
  UserID : string;
  Username : string;
  ClientIP : string;
  Method : string;
  Path : string;
  StatusCode : Z;
  Action : string;
  Resource : string;
  Result : string;
  Message : string;
  Metadata : option Metadata_t;
  Sensitive : bool;
  DurationMS : Z
}.

(** ** Masking *)

Definition maskedValue : string := "***".

(** The lower-case keys. *)
Record Masker := MkMasker { sensitiveKeys : gset (list Z) }.

Definition lower (k : string) : list Z := to_lower (runes k).

Fixpoint add_keys (keys : list string) (m : gset (list Z)) : gset (list Z) :=
  match keys with
  | [] => m
  | k :: keys => add_keys keys (if decide (k = "") then m else {[lower k]} ∪ m)
  end.

Definition NewMasker (keys : list string) : Masker := MkMasker (add_keys keys ∅).

Definition mask_value (m : Masker) (k : string) (v : any) : any :=
  if decide (lower k ∈ sensitiveKeys m) then VString maskedValue else v.

Definition MaskMap (m : Masker) (input : option Metadata_t) : option Metadata_t :=
  match input with
  | None => None
  | Some input => Some (map_imap (λ k v, Some (mask_value m k v)) input)
  end.

(** ** Sinks that write at once *)

(** A sink changes the outside world [S] and may fail. *)
Definition Sink (S : Type) : Type := Event → S → S * option error.

Fixpoint MultiSink_Write {S} (sinks : list (Sink S)) (event : Event) (s : S) : S * option error :=
  match sinks with
  | [] => (s, None)
  | sink :: sinks =>
      match sink event s with
      | (s, Some err) => (s, Some err)
      | (s, None) => MultiSink_Write sinks event s
      end
  end.

(** The pattern [^[a-zA-Z0-9_\.]+$] of table names. *)
Definition table_char (c : Ascii.ascii) : bool :=
  let b := byte_of c in within 97 122 b || within 65 90 b || within 48 57 b || (b =? 95) || (b =? 46).

Fixpoint all_chars (p : Ascii.ascii → bool) (s : string) : bool :=
  match s with
  | String.EmptyString => true
  | String.String c s => p c && all_chars p s
  end.

Definition auditTableNamePattern (s : string) : bool := negb (bool_decide (s = "")) && all_chars table_char s.

Definition ErrInvalidAuditTable : error := Sentinel "audit.ErrInvalidAuditTable".

Definition columns : string :=
  "timestamp, request_id, trace_id, tenant_id, user_id, username, client_ip, method, path, status_code, action, resource, result, message, metadata, sensitive, duration_ms".

Definition row_placeholders : string := "(?, ?, ?, ?, ?, ?, ?, ?, ?, ?, ?, ?, ?, ?, ?, ?, ?)".

Definition insert_into (table : string) : string := "INSERT INTO " +:+ table +:+ " (" +:+ columns +:+ ") VALUES ".

(** Arguments of a statement. *)
Inductive arg := ATime (t : Z) | AString (s : string) | AInt (z : Z) | ABool (b : bool).

#[export] Instance arg_eq_dec : EqDecision arg.
Proof. solve_decision. Defined.

Section Sql.
Context (Marshal : option Metadata_t → result string).

Definition event_args (e : Event) (metadata : string) : list arg :=
  [ATime (Timestamp e); AString (RequestID e); AString (TraceID e); AString (TenantID e); AString (UserID e);
   AString (Username e); AString (ClientIP e); AString (Method e); AString (Path e); AInt (StatusCode e);
   AString (Action e); AString (Resource e); AString (Result e); AString (Message e); AString metadata;
   ABool (Sensitive e); AInt (DurationMS e)].

(** [NewSQLSink]: the table of the sink. *)
Definition NewSQLSink (table : string) : result string :=
  let table := or_default_s table "audit_events" in
  if auditTableNamePattern table then Ok table else Err ErrInvalidAuditTable.

(** A database takes a statement with its arguments, and answers with an error or not. *)
Definition SQLSink_Write {S} (ExecContext : string → list arg → S → S * option error) (table : string) : Sink S :=
  λ event s,
    match Marshal (Metadata event) with
    | Err err => (s, Some err)
    | Ok metadata => ExecContext (insert_into table +:+ row_placeholders) (event_args event metadata) s
    end.

(** The loop of [batchInsert] over the events: the placeholders and the arguments. *)
Fixpoint batch_args (events : list Event) : result (list string * list arg) :=
  match events with
  | [] => Ok ([], [])
  | event :: events =>
      match Marshal (Metadata event) with
      | Err err => Err err
      | Ok metadata =>
          match batch_args events with
          | Err err => Err err
          | Ok (placeholders, args) => Ok (row_placeholders :: placeholders, event_args event metadata ++ args)
          end
      end
  end.

Fixpoint join_from (result sep : string) (strs : list string) : string :=
  match strs with
  | [] => result
  | x :: strs => join_from (result +:+ (sep +:+ x)) sep strs
  end.

Definition joinStrings (strs : list string) (sep : string) : string :=
  match strs with
  | [] => ""
  | x :: strs => join_from x sep strs
  end.

(** The statement of [batchInsert], which is not executed when a value of the
    metadata cannot be encoded. *)
Definition batch_statement (table : string) (events : list Event) : result (string * list arg) :=
  match batch_args events with
  | Err err => Err err
  | Ok (placeholders, args) => Ok (insert_into table +:+ joinStrings placeholders ", ", args)
  end.

(** ** What a database reads in the statement *)

(** The rows of the arguments, in groups of seventeen. *)
Fixpoint rows (n : nat) (args : list arg) : list (list arg) :=
  match n with
  | O => []
  | S n => take 17 args :: rows n (drop 17 args)
  end.

Fixpoint count_marks (s : string) : nat :=
  match s with
  | String.EmptyString => 0
  | String.String c s => (if decide (c = "?"%char) then 1 else 0) + count_marks s
  end%nat.

Lemma count_marks_app s t : count_marks (s +:+ t) = (count_marks s + count_marks t)%nat.
Proof.
  induction s as [|c s IH]; [done|]. change (String.String c s +:+ t) with (String.String c (s +:+ t)).
  cbn [count_marks]. rewrite IH. lia.
Qed.

Lemma join_from_app acc sep strs : join_from acc sep strs = acc +:+ join_from "" sep strs.
Proof.
  revert acc. induction strs as [|x strs IH]; intros acc; cbn [join_from].
  - induction acc as [|c acc IHa]; [done|].
    change (String.String c acc +:+ "") with (String.String c (acc +:+ "")). by rewrite <-IHa.
  - change ("" +:+ (sep +:+ x)) with (sep +:+ x). rewrite IH, (IH (sep +:+ x)). by rewrite !(assoc String.append).
Qed.

(** [joinStrings] is [strings.Join]. *)
Lemma joinStrings_Join strs sep : joinStrings strs sep = GoString.Join sep strs.
Proof.
  destruct strs as [|x strs]; [done|]. unfold joinStrings. revert x.
  induction strs as [|y strs IH]; intros x; [done|].
  rewrite GoString.Join_cons, <-(IH y) by done. cbn [join_from]. rewrite join_from_app, (join_from_app y).
  by rewrite !(assoc String.append).
Qed.

Lemma batch_args_ok events placeholders args :
  batch_args events = Ok (placeholders, args) →
  placeholders = replicate (length events) row_placeholders ∧
  Forall2 (λ e row, ∃ md, Marshal (Metadata e) = Ok md ∧ row = event_args e md) events (rows (length events) args) ∧
  length args = (17 * length events)%nat.
Proof.
  revert placeholders args. induction events as [|e events IH]; intros ps args; simpl.
  - intros [= <- <-]. by repeat constructor.
  - destruct (Marshal (Metadata e)) as [md|] eqn:Hm; [|done].
    destruct (batch_args events) as [[ps' args']|] eqn:Hb; [|done]. intros [= <- <-].
    destruct (IH ps' args' eq_refl) as (-> & Hrows & Hlen). split; [done|].
    split; [|simpl; rewrite Hlen; lia].
    change (drop 17 _) with args'. change (take 17 _) with (event_args e md). constructor; [by exists md|done].
Qed.

Lemma batch_args_err events err :
  batch_args events = Err err → ∃ e, e ∈ events ∧ Marshal (Metadata e) = Err err.
Proof.
  induction events as [|e events IH]; simpl; [done|].
  destruct (Marshal (Metadata e)) as [md|] eqn:Hm.
  - destruct (batch_args events) as [[ps args]|err'] eqn:Hb; [done|]. intros [= ->].
    destruct (IH eq_refl) as (e' & Hin & He). exists e'. split; [by right|done].
  - intros [= ->]. exists e. split; [by left|done].
Qed.

Lemma marks_columns table : count_marks (insert_into table) = count_marks table.
Proof. unfold insert_into. rewrite !count_marks_app. simpl. lia. Qed.

Lemma marks_rows n : count_marks (GoString.Join ", " (replicate n row_placeholders)) = (17 * n)%nat.
Proof.
  induction n as [|n IH]; [done|]. destruct n as [|n]; [done|].
  change (replicate (S (S n)) row_placeholders) with (row_placeholders :: replicate (S n) row_placeholders).
  rewrite GoString.Join_cons by done. rewrite !count_marks_app, IH. change (count_marks row_placeholders) with 17%nat.
  change (count_marks ", ") with 0%nat. lia.
Qed.

Lemma table_no_marks s : all_chars table_char s = true → count_marks s = 0%nat.
Proof.
  induction s as [|c s IH]; [done|]. cbn [all_chars count_marks]. intros [Hc Hs]%andb_true_iff. rewrite IH by done.
  case_decide as E; [|done]. subst c. by vm_compute in Hc.
Qed.

(** The statement of a batch has exactly one placeholder per argument, and its
    arguments read in groups of seventeen are the rows of the events in order; it is
    refused only when the metadata of one of the events cannot be encoded. *)
Theorem batch_statement_correct (table t : string) (events : list Event) (Ht : NewSQLSink table = Ok t) :
  match batch_statement t events with
  | Ok (query, args) =>
      count_marks query = length args ∧
      Forall2 (λ e row, ∃ md, Marshal (Metadata e) = Ok md ∧ row = event_args e md) events (rows (length events) args)
  | Err err => ∃ e, e ∈ events ∧ Marshal (Metadata e) = Err err
  end.
Proof.
  unfold NewSQLSink in Ht. destruct (auditTableNamePattern _) eqn:Hp; [|done]. injection Ht as <-.
  unfold auditTableNamePattern in Hp. apply andb_true_iff in Hp as [_ Hp]. apply table_no_marks in Hp.
  unfold batch_statement. destruct (batch_args events) as [[ps args]|err] eqn:Hb; [|by apply batch_args_err].
  destruct (batch_args_ok events ps args Hb) as (-> & Hrows & Hlen). split; [|done].
  rewrite joinStrings_Join, count_marks_app, marks_columns, marks_rows, Hp, Hlen. done.
Qed.

End Sql.

(** ** What is masked *)

Lemma add_keys_elem keys m x : x ∈ add_keys keys m ↔ x ∈ m ∨ ∃ k, k ∈ keys ∧ k ≠ "" ∧ x = lower k.
Proof.
  revert m. induction keys as [|k keys IH]; intros m; simpl.
  - split; [by left|]. intros [?|(k & Hk & _)]; [done|]. by apply elem_of_nil in Hk.
  - rewrite IH. setoid_rewrite elem_of_cons. case_decide as E; [subst; naive_solver|].
    rewrite elem_of_union, elem_of_singleton. naive_solver.
Qed.

Lemma masked_iff keys k : lower k ∈ sensitiveKeys (NewMasker keys) ↔ ∃ s, s ∈ keys ∧ s ≠ "" ∧ lower k = lower s.
Proof. unfold NewMasker. cbn [sensitiveKeys]. rewrite add_keys_elem. set_solver. Qed.

Lemma MaskMap_lookup m input k :
  map_imap (λ k v, Some (mask_value m k v)) input !! k = mask_value m k <$> (input !! k).
Proof. rewrite map_lookup_imap. by destruct (input !! k). Qed.

Lemma MaskMap_idemp m input : MaskMap m (MaskMap m input) = MaskMap m input.
Proof.
  destruct input as [input|]; [|done]. simpl. f_equal. apply map_eq. intros k. rewrite !MaskMap_lookup.
  destruct (input !! k) as [v|]; [|done]. simpl. f_equal. unfold mask_value. by case_decide.
Qed.

(** ** The handler *)

Record GinContext := MkGin {
  ReqMethod : string;
  URLPath : string;
  RawQuery : string;
  Header : gmap string (list string);
  Keys : gmap string any;           (** [c.Get] *)
  CtxClientIP : string;
  FullPath : string;
  Status : Z;
  Errors : list string
}.

Record RuntimeAuditConfig := MkRuntime {
  rt_Enabled : bool;
  rt_SkipPaths : list string;
  rt_SensitiveKeys : list string
}.

(** The configuration that a [DynamicAuditConfig] stores, if any. *)
Definition Snapshot (d : option RuntimeAuditConfig) : RuntimeAuditConfig :=
  match d with None => MkRuntime true [] [] | Some cfg => cfg end.

Definition Update (cfg : RuntimeAuditConfig) (d : option RuntimeAuditConfig) : option RuntimeAuditConfig := Some cfg.

Record AuditConfig := MkAuditConfig {
  Enabled : bool;
  SkipPaths : list string;
  SensitiveKeys : list string;
  Dynamic : option (option RuntimeAuditConfig);
  ActionResolver : option (GinContext → string);
  ResourceResolver : option (GinContext → string)
}.

Definition NewDynamicAuditConfig (base : AuditConfig) : option RuntimeAuditConfig :=
  Some (MkRuntime (Enabled base) (SkipPaths base) (SensitiveKeys base)).

Definition action_of_method (c : GinContext) : string :=
  let m := ReqMethod c in
  if decide (m ∈ ["GET"; "HEAD"; "OPTIONS"]) then ActionRead
  else if decide (m = "POST") then ActionCreate
  else if decide (m ∈ ["PUT"; "PATCH"]) then ActionUpdate
  else if decide (m = "DELETE") then ActionDelete
  else ActionCustom.

Definition DefaultAuditConfig : AuditConfig :=
  MkAuditConfig true ["/health"; "/ready"; "/metrics"] ["password"; "token"; "authorization"; "api_key"; "secret"]
    None (Some action_of_method) (Some FullPath).

Fixpoint shouldSkipAuditPath (path : string) (skipPaths : list string) : bool :=
  match skipPaths with
  | [] => false
  | p :: skipPaths =>
      bool_decide (p = path) || (HasSuffix p "/*" && HasPrefix path (TrimSuffix p "/*"))
      || shouldSkipAuditPath path skipPaths
  end.

Definition headersToAuditMap (h : gmap string (list string)) : Metadata_t :=
  (λ values, VString (match values with [v] => v | _ => GoString.Join "," values end)) <$> h.

Definition getStringFromContext (c : GinContext) (key : string) : string :=
  match Keys c !! key with
  | Some (VString s) => s
  | _ => ""
  end.

Definition auditResult (code : Z) : string := if (200 <=? code) && (code <? 400) then "success" else "failure".

Section Handler.
(** [c.Errors.String()] of gin. *)
Context (Errors_String : list string → string).

(** The configuration after the defaults of [Audit]. *)
Definition with_defaults (cfg : AuditConfig) : AuditConfig :=
  MkAuditConfig (Enabled cfg) (SkipPaths cfg) (SensitiveKeys cfg) (Dynamic cfg)
    (Some (default action_of_method (ActionResolver cfg))) (Some (default FullPath (ResourceResolver cfg))).

(** The event of a request; [c] is the context after the handlers that follow. *)
Definition audit_event (cfg : AuditConfig) (masker : Masker) (start now : Z) (c : GinContext) : Event :=
  MkEvent now (getStringFromContext c "request_id") (getStringFromContext c "trace_id")
    (getStringFromContext c "tenant_id") (getStringFromContext c "user_id") (getStringFromContext c "username")
    (CtxClientIP c) (ReqMethod c) (URLPath c) (Status c)
    (default action_of_method (ActionResolver cfg) c) (default FullPath (ResourceResolver cfg) c)
    (auditResult (Status c)) (match Errors c with [] => "" | _ => Errors_String (Errors c) end)
    (Some (<["query" := VString (RawQuery c)]>
       {[ "headers" := match MaskMap masker (Some (headersToAuditMap (Header c))) with
                       | Some m => VMap (map_to_list m) | None => VOpaque end ]}))
    false (Z.quot (GoTime.Sub now start) GoTime.Millisecond).

(** [Audit]: [next] runs the handlers that follow.  The result is the context after
    them and the events written to the sink, whose errors are ignored. *)
Definition Audit (config : list AuditConfig) (next : GinContext → GinContext) (start now : Z) (c : GinContext)
    : GinContext * list Event :=
  let cfg := match config with [] => DefaultAuditConfig | cfg :: _ => cfg end in
  match Dynamic cfg, Enabled cfg with
  | None, false => (next c, [])
  | _, _ =>
      let cfg := with_defaults cfg in
      let rt := match Dynamic cfg with
                | Some d => Snapshot d
                | None => MkRuntime (Enabled cfg) (SkipPaths cfg) (SensitiveKeys cfg)
                end in
      let masker := NewMasker (rt_SensitiveKeys rt) in
      if negb (rt_Enabled rt) then (next c, [])
      else if shouldSkipAuditPath (URLPath c) (rt_SkipPaths rt) then (next c, [])
      else let c := next c in (c, [audit_event cfg masker start now c])
  end.

(** The configuration in force. *)
Definition in_force (cfg : AuditConfig) : RuntimeAuditConfig :=
  match Dynamic cfg with
  | Some d => Snapshot d
  | None => MkRuntime (Enabled cfg) (SkipPaths cfg) (SensitiveKeys cfg)
  end.

(** The handler always runs the handlers that follow once, and writes exactly one
    event, with the status they left, unless auditing is off or the path is skipped;
    the headers of the event are those of the request, where a header shows its value
    exactly when its name is not, up to case, one of the sensitive keys in force. *)
Theorem audit_handler_correct (cfg : AuditConfig) next start now c :
  let rt := in_force cfg in
  let '(c', events) := Audit [cfg] next start now c in
  c' = next c ∧
  (if rt_Enabled rt && negb (shouldSkipAuditPath (URLPath c) (rt_SkipPaths rt))
   then ∃ e md hs, events = [e] ∧ StatusCode e = Status c' ∧ Path e = URLPath c' ∧
     (Result e = "success" ↔ 200 <= Status c' < 400) ∧ Metadata e = Some md ∧
     md !! "headers" = Some (VMap (map_to_list hs)) ∧
     ∀ h values, Header c' !! h = Some values →
       ((∃ s, s ∈ rt_SensitiveKeys rt ∧ s ≠ "" ∧ lower h = lower s) → hs !! h = Some (VString maskedValue)) ∧
       ((¬ ∃ s, s ∈ rt_SensitiveKeys rt ∧ s ≠ "" ∧ lower h = lower s) → hs !! h = Some (VString (GoString.Join "," values)))
   else events = []).
Proof.
  intros rt. set (event c1 := audit_event (with_defaults cfg) (NewMasker (rt_SensitiveKeys rt)) start now c1).
  assert (HA : Audit [cfg] next start now c =
    if rt_Enabled rt && negb (shouldSkipAuditPath (URLPath c) (rt_SkipPaths rt))
    then (next c, [event (next c)]) else (next c, [])).
  { unfold Audit, event, rt, in_force. cbn [Dynamic with_defaults Enabled SkipPaths SensitiveKeys].
    destruct (Dynamic cfg) as [d|]; [|destruct (Enabled cfg); [|done]]; cbn [rt_Enabled rt_SkipPaths rt_SensitiveKeys].
    - destruct (rt_Enabled (Snapshot d)); [|done]. by destruct (shouldSkipAuditPath _ _).
    - by destruct (shouldSkipAuditPath _ _). }
  rewrite HA. destruct (_ && _); [|done]. split; [done|].
  exists (event (next c)). unfold event, audit_event. do 2 eexists. split; [done|]. cbn [StatusCode Path Result Metadata].
  split; [done|]. split; [done|]. split.
  { unfold auditResult. destruct (200 <=? _) eqn:E1, (_ <? 400) eqn:E2; simpl; split; (lia || done). }
  split; [done|]. cbn [MaskMap]. rewrite lookup_insert_ne by done. split; [by rewrite lookup_singleton_eq|].
  intros h values Hh. rewrite MaskMap_lookup. unfold headersToAuditMap. rewrite lookup_fmap, Hh. cbn [fmap option_fmap option_map].
  unfold mask_value. split; intros Hs.
  - by rewrite decide_True by (by apply masked_iff).
  - rewrite decide_False by (by rewrite masked_iff). by destruct values as [|v [|? ?]].
Qed.

End Handler.

(** ** What the defaults leave out *)

Definition login_request : GinContext :=
  MkGin "POST" "/login" "password=hunter2" {[ "X-Api-Key" := ["k-123"]; "Authorization" := ["Bearer t"] ]} ∅
    "10.0.0.1" "/login" 200 [].

(** The key [api_key] of the defaults does not match the header [X-Api-Key], which the
    authentication of the framework reads, and the query is not masked at all. *)
Example key_and_query_in_clear : ∃ e md hs,
  (Audit (λ _, "") [DefaultAuditConfig] id 0 0 login_request).2 = [e] ∧ Metadata e = Some md ∧
  md !! "query" = Some (VString "password=hunter2") ∧
  md !! "headers" = Some (VMap hs) ∧
  ("X-Api-Key", VString "k-123") ∈ hs ∧ ("Authorization", VString "***") ∈ hs.
Proof.
  eexists _, _, _. repeat split; [vm_compute; reflexivity..| |].
  - vm_compute. apply elem_of_cons. by (left + (right; apply elem_of_cons; left)).
  - vm_compute. apply elem_of_cons. by (left + (right; apply elem_of_cons; left)).
Qed.

(** A skipped subtree skips its siblings with the same prefix too. *)
Example skip_covers_siblings : shouldSkipAuditPath "/administrators/1/delete" ["/admin/*"] = true.
Proof. reflexivity. Qed.

(** A sink that fails keeps the event from the sinks after it. *)
Example multi_sink_stops e :
  MultiSink_Write [λ _ s, (s, Some (Errorf "disk full" [])); λ e s, (e :: s, None)] e [] = ([], Some (Errorf "disk full" [])).
Proof. reflexivity. Qed.

(** The fields inside a field are not masked. *)
Example nested_not_masked :
  MaskMap (NewMasker ["password"]) (Some {[ "user" := VMap [("password", VString "hunter2")] ]}) =
    Some {[ "user" := VMap [("password", VString "hunter2")] ]}.
Proof. apply (f_equal Some), map_eq. intros k. rewrite MaskMap_lookup. destruct (decide (k = "user")) as [->|Hk].
  - reflexivity.
  - by rewrite !lookup_singleton_ne.
Qed.

Definition sample_event (n : Z) : Event :=
  MkEvent n "r" "t" "" "u1" "" "10.0.0.1" "GET" "/" 200 ActionRead "/" "success" "" None false 3.

Lemma batch_statement_correct_witness :
  NewSQLSink "" = Ok "audit_events" ∧
  match batch_statement (λ _, Ok "{}") "audit_events" [sample_event 1; sample_event 2] with
  | Ok (query, args) => count_marks query = length args
  | Err _ => False
  end.
Proof.
  split; [reflexivity|].
  pose proof (batch_statement_correct (λ _, Ok "{}") "" "audit_events" [sample_event 1; sample_event 2] eq_refl) as H.
  exact (proj1 H).
Defined.
