(* ===== verification/BatchSink.v ===== *)
(** * plugins/audit/batch_sql_sink.go: the batching sink

    A state is what the lock and the channels hold, together with the goroutines inside
    a call, each at a point between two accesses to that state; the events choose the
    schedule and the answers of the database.  A statement whose execution returns an
    error is taken as not executed. *)

From S2P Require Import Prelude GoString AuditEvents.
Import GoError.

Open Scope Z_scope.

(** ** Configuration *)

Record BatchSQLSinkConfig := MkConfig {
  Table : string;
  BatchSize : Z;
  FlushInterval : Z;
  MaxRetries : Z;
  RetryDelay : Z
}.

Definition DefaultBatchSQLSinkConfig : BatchSQLSinkConfig :=
  MkConfig "audit_events" 100 (5 * GoTime.Second) 3 (100 * GoTime.Millisecond).

Definition positive_or (z d : Z) : Z := if z <=? 0 then d else z.

Definition ErrBatchSQLSinkClosed : error := Sentinel "audit.ErrBatchSQLSinkClosed".

(** The configuration of [NewBatchSQLSink]. *)
Definition normalize (cfg : BatchSQLSinkConfig) : result BatchSQLSinkConfig :=
  let d := DefaultBatchSQLSinkConfig in
  let table := or_default_s (Table cfg) (Table d) in
  if auditTableNamePattern table then
    Ok (MkConfig table (positive_or (BatchSize cfg) (BatchSize d)) (positive_or (FlushInterval cfg) (FlushInterval d))
          (positive_or (MaxRetries cfg) (MaxRetries d)) (positive_or (RetryDelay cfg) (RetryDelay d)))
  else Err ErrInvalidAuditTable.

(** The fields of the sink, and what has happened to the events: those [Write] has
    taken, those of the batches that are done with whether they were inserted, and
    the statements the database has executed. *)
Record sink := MkSink {
  buffer : list Event;
  stopped : bool;
  stopCh : bool;                  (** closed *)
  flushSem : bool;                (** taken *)
  taken : list Event;
  finished : list (list Event * bool);
  executed : list (string * list arg)
}.

(** Who flushes. *)
Inductive caller := ByWrite | ByFlush | ByTicker | ByClose.

(** Where a goroutine is. *)
Inductive thread :=
| Background                                        (* in its select *)
| Stopping                                          (* Close, before close(stopCh) *)
| Flushing                                          (* Close, before its flush *)
| Inserting (who : caller) (events : list Event)    (* outside the lock *)
| Inserted (who : caller) (events : list Event) (r : option error).   (* before it takes the lock again *)

Record state := MkState { sh : sink; threads : list thread }.

Section Sink.
Context (Marshal : option Metadata_t → result string) (cfg : BatchSQLSinkConfig).

Definition NewBatchSQLSink : state := MkState (MkSink [] false false false [] [] []) [Background].

(** [batchInsert]: [ok] is what the database answers. *)
Definition batchInsert (ok : bool) (events : list Event) : option error * option (string * list arg) :=
  match events with
  | [] => (None, None)
  | _ =>
      match batch_statement Marshal (Table cfg) events with
      | Err err => (Some err, None)
      | Ok stmt => if ok then (None, Some stmt) else (Some (Errorf "exec" []), None)
      end
  end.

(** The loop of [batchInsertWithRetry] over the answers of the database to the
    attempts; a missing answer is a failure. *)
Fixpoint insert_attempts (n : nat) (oks : list bool) (lastErr : option error) (events : list Event)
    : option error * option (string * list arg) :=
  match n with
  | O => (Some (match lastErr with Some e => ErrorfW "batch insert failed after %d retries: %w" [] e
                | None => Errorf "batch insert failed after %d retries: %w" [] end), None)
  | S n =>
      match batchInsert (match oks with ok :: _ => ok | [] => false end) events with
      | (None, stmt) => (None, stmt)
      | (Some e, _) => insert_attempts n (tail oks) (Some e) events
      end
  end.

Definition batchInsertWithRetry (oks : list bool) (events : list Event) : option error * option (string * list arg) :=
  insert_attempts (Z.to_nat (MaxRetries cfg)) oks None events.

Definition set_buffer (b : list Event) (s : sink) : sink :=
  MkSink b (stopped s) (stopCh s) (flushSem s) (taken s) (finished s) (executed s).
Definition set_sem (b : bool) (s : sink) : sink :=
  MkSink (buffer s) (stopped s) (stopCh s) b (taken s) (finished s) (executed s).
Definition set_stop (b c : bool) (s : sink) : sink :=
  MkSink (buffer s) b c (flushSem s) (taken s) (finished s) (executed s).
Definition take_event (e : Event) (s : sink) : sink :=
  MkSink (buffer s ++ [e]) (stopped s) (stopCh s) (flushSem s) (taken s ++ [e]) (finished s) (executed s).
Definition finish (events : list Event) (ok : bool) (s : sink) : sink :=
  MkSink (buffer s) (stopped s) (stopCh s) (flushSem s) (taken s) (finished s ++ [(events, ok)]) (executed s).
Definition execute (stmt : option (string * list arg)) (s : sink) : sink :=
  MkSink (buffer s) (stopped s) (stopCh s) (flushSem s) (taken s) (finished s)
    (executed s ++ match stmt with Some q => [q] | None => [] end).

(** [flushUnlocked] up to the point where it releases the lock: the goroutine that
    goes on to insert, if any. *)
Definition flushUnlocked (who : caller) (s : sink) : sink * list thread :=
  match buffer s with
  | [] => (s, [])
  | events => if flushSem s then (s, []) else (set_buffer [] (set_sem true s), [Inserting who events])
  end.

(** What becomes of a goroutine after a flush that it has called. *)
Definition after_flush (who : caller) : list thread := match who with ByTicker => [Background] | _ => [] end.

Definition flush (who : caller) (s : sink) : sink * list thread :=
  match flushUnlocked who s with
  | (s, []) => (s, after_flush who)
  | r => r
  end.

Inductive event :=
| ECall_Write (e : Event)
| ECall_Flush
| ECall_Close
| ERun (i : nat) (oks : list bool) (tick : bool).

(** [Write], up to its flush.  [None] is [ErrBatchSQLSinkClosed]. *)
Definition Write (e : Event) (s : sink) : option (sink * list thread) :=
  if stopped s then None
  else
    let s := take_event e s in
    if Z.of_nat (length (buffer s)) >=? BatchSize cfg then Some (flush ByWrite s) else Some (s, []).

(** The select of [backgroundFlush]; a tick may come at any time. *)
Definition backgroundFlush (tick : bool) (s : sink) : option (sink * list thread) :=
  if tick then Some (flush ByTicker s) else if stopCh s then Some (s, []) else None.

(** [Close] after it has set [stopped]; a second one closes the channel again. *)
Definition Close (t : thread) (s : sink) : outcome (option (sink * list thread)) :=
  match t with
  | Stopping => if stopCh s then Panic "close of closed channel" [] else Ret (Some (set_stop (stopped s) true s, [Flushing]))
  | Flushing => Ret (Some (flush ByClose s))
  | _ => Ret None
  end.

(** [flushUnlocked] after it has released the lock. *)
Definition flush_rest (oks : list bool) (t : thread) (s : sink) : option (sink * list thread) :=
  match t with
  | Inserting who events =>
      let '(err, stmt) := batchInsertWithRetry oks events in Some (execute stmt s, [Inserted who events err])
  | Inserted who events err =>
      Some (finish events (match err with None => true | Some _ => false end) (set_sem false s), after_flush who)
  | _ => None
  end.

(** One goroutine to its next point; [None] when it cannot move. *)
Definition advance (oks : list bool) (tick : bool) (t : thread) (s : sink) : outcome (option (sink * list thread)) :=
  match t with
  | Background => Ret (backgroundFlush tick s)
  | Stopping | Flushing => Close t s
  | Inserting _ _ | Inserted _ _ _ => Ret (flush_rest oks t s)
  end.

Definition exec (e : event) (m : state) : outcome (option state) :=
  match e with
  | ECall_Write ev =>
      Ret (match Write ev (sh m) with Some (s, ts) => Some (MkState s (threads m ++ ts)) | None => None end)
  | ECall_Flush => let '(s, ts) := flush ByFlush (sh m) in Ret (Some (MkState s (threads m ++ ts)))
  | ECall_Close => Ret (Some (MkState (set_stop true (stopCh (sh m)) (sh m)) (threads m ++ [Stopping])))
  | ERun i oks tick =>
      match threads m !! i with
      | None => Ret None
      | Some t =>
          match advance oks tick t (sh m) with
          | Panic f a => Panic f a
          | Ret None => Ret None
          | Ret (Some (s, ts)) => Ret (Some (MkState s (take i (threads m) ++ ts ++ drop (S i) (threads m))))
          end
      end
  end.

Inductive reachable : state → Prop :=
| reachable_new : reachable NewBatchSQLSink
| reachable_step e m m' : reachable m → exec e m = Ret (Some m') → reachable m'.

(** ** Where the events are *)

(** The batch of a goroutine that inserts, and that of one whose statement the
    database has executed. *)
Definition flying (t : thread) : list (list Event) :=
  match t with Inserting _ es | Inserted _ es _ => [es] | _ => [] end.
Definition landed (t : thread) : list (list Event) :=
  match t with Inserted _ es None => [es] | _ => [] end.

Definition inserted (s : sink) : list (list Event) := fst <$> filter (λ b, b.2 = true) (finished s).

Definition b2n (b : bool) : nat := if b then 1%nat else 0%nat.

Record inv (s : sink) (ts : list thread) : Prop := {
  i_sem : length (ts ≫= flying) = b2n (flushSem s);
  i_taken : taken s = concat (fst <$> finished s) ++ concat (ts ≫= flying) ++ buffer s;
  i_exec : Forall2 (λ es q, batch_statement Marshal (Table cfg) es = Ok q) (inserted s ++ (ts ≫= landed)) (executed s);
  i_some : Forall (λ es, es ≠ []) (ts ≫= flying)
}.

Lemma landed_flying t es : es ∈ landed t → es ∈ flying t.
Proof. destruct t as [| | | |who es' [e|]]; simpl; auto; by intros ?%elem_of_nil. Qed.

Lemma no_flight l : l ≫= flying = [] → l ≫= landed = [].
Proof.
  intros H. destruct (l ≫= landed) as [|es r] eqn:E; [done|].
  assert (Hes : es ∈ l ≫= flying); [|rewrite H in Hes; by apply elem_of_nil in Hes].
  assert (He : es ∈ l ≫= landed) by (rewrite E; by left).
  apply list_elem_of_bind in He as (t & Ht & Hin). apply list_elem_of_bind. exists t. split; [by apply landed_flying|done].
Qed.

(** When a goroutine inserts, no other does. *)
Lemma alone s l1 t l2 : inv s (l1 ++ t :: l2) → flying t ≠ [] →
  flushSem s = true ∧ l1 ≫= flying = [] ∧ l2 ≫= flying = [].
Proof.
  intros [Hs _ _ _] Ht. rewrite bind_app, list_bind_cons, !length_app in Hs.
  destruct (flying t) as [|es r] eqn:E; [done|]. simpl in Hs.
  destruct (l1 ≫= flying), (l2 ≫= flying); simpl in Hs; destruct (flushSem s); simpl in Hs; (lia || done).
Qed.

Lemma after_flush_quiet who : after_flush who ≫= flying = [] ∧ after_flush who ≫= landed = [].
Proof. by destruct who. Qed.

(** [flush] by a goroutine that did not insert before. *)
Lemma flush_inv s l1 old l2 who :
  inv s (l1 ++ old ++ l2) → old ≫= flying = [] → inv (flush who s).1 (l1 ++ (flush who s).2 ++ l2).
Proof.
  intros Hi Hold. pose proof (no_flight _ Hold) as Hol. destruct (after_flush_quiet who) as [Hq1 Hq2].
  assert (Hstay : inv s (l1 ++ after_flush who ++ l2)).
  { destruct Hi as [H1 H2 H3 H4]. rewrite !bind_app in *. rewrite Hold, ?Hol in *. split; by rewrite !bind_app, ?Hq1, ?Hq2. }
  unfold flush, flushUnlocked. destruct (buffer s) as [|e b] eqn:Hb; [exact Hstay|].
  destruct (flushSem s) eqn:Hsem; [exact Hstay|].
  destruct Hi as [H1 H2 H3 H4]. rewrite !bind_app, Hold, app_nil_l in H1, H2, H4. rewrite !bind_app, Hol, app_nil_l in H3.
  rewrite Hsem, length_app in H1. change (b2n false) with 0%nat in H1.
  assert (E1 : l1 ≫= flying = []) by (apply length_zero_iff_nil; lia).
  assert (E2 : l2 ≫= flying = []) by (apply length_zero_iff_nil; lia).
  rewrite (no_flight _ E1), (no_flight _ E2) in H3. rewrite E1, E2, Hb in H2.
  split; cbn [fst snd]; rewrite ?bind_app, ?list_bind_cons, ?E1, ?E2, ?(no_flight _ E1), ?(no_flight _ E2).
  - done.
  - simpl in *. rewrite H2. by rewrite !app_nil_r.
  - done.
  - simpl. by apply Forall_singleton.
Qed.

(** A step that leaves the batches and the buffer alone. *)
Lemma batch_inv_quiet s s' l1 old new l2 :
  inv s (l1 ++ old ++ l2) → old ≫= flying = [] → new ≫= flying = [] →
  (flushSem s', taken s', finished s', buffer s', executed s') = (flushSem s, taken s, finished s, buffer s, executed s) →
  inv s' (l1 ++ new ++ l2).
Proof.
  intros [H1 H2 H3 H4] Ho Hn [= Hf Ht Hfi Hb He]. pose proof (no_flight _ Ho) as Hol. pose proof (no_flight _ Hn) as Hnl.
  rewrite !bind_app, ?Ho, ?Hol in *. split; rewrite ?bind_app, ?Hn, ?Hnl, ?Hf, ?Ht, ?Hb, ?He; [done| |..|done].
  - by rewrite Hfi.
  - unfold inserted in *. by rewrite Hfi.
Qed.

Lemma attempts_result n oks e0 es err stmt :
  es ≠ [] → insert_attempts n oks e0 es = (err, stmt) →
  match err with
  | None => ∃ q, stmt = Some q ∧ batch_statement Marshal (Table cfg) es = Ok q
  | Some _ => stmt = None
  end.
Proof.
  intros Hes. revert oks e0. induction n as [|n IH]; intros oks e0; simpl; [intros [= <- <-]; done|].
  destruct (batchInsert _ es) as [[e|] st] eqn:Hb; [apply IH|]. intros [= <- <-].
  unfold batchInsert in Hb. destruct es as [|e es]; [done|].
  destruct (batch_statement Marshal (Table cfg) (e :: es)) as [q|]; [|done].
  destruct (match oks with [] => false | ok :: _ => ok end); [|done]. injection Hb as <-. by exists q.
Qed.
Lemma batch_advance_inv oks tick t s s' ts l1 l2 :
  inv s (l1 ++ t :: l2) → advance oks tick t s = Ret (Some (s', ts)) → inv s' (l1 ++ ts ++ l2).
Proof.
  intros Hi Ha. change (t :: l2) with ([t] ++ l2) in Hi. destruct t as [| | |who es|who es err];
    unfold advance, backgroundFlush, Close, flush_rest in Ha.
  - destruct tick; [injection Ha as Ha|destruct (stopCh s); [|done]; injection Ha as <- <-].
    + pose proof (flush_inv s l1 [Background] l2 ByTicker Hi eq_refl) as H. by rewrite Ha in H.
    + by eapply (batch_inv_quiet s).
  - destruct (stopCh s); [done|]. injection Ha as <- <-. by eapply (batch_inv_quiet s).
  - injection Ha as Ha. pose proof (flush_inv s l1 [Flushing] l2 ByClose Hi eq_refl) as H. by rewrite Ha in H.
  - destruct (batchInsertWithRetry oks es) as [err stmt] eqn:Hr. injection Ha as <- <-.
    destruct (alone s l1 (Inserting who es) l2 Hi ltac:(done)) as (Hsem & E1 & E2).
    destruct Hi as [H1 H2 H3 H4]. rewrite !bind_app, list_bind_cons in H1, H2, H3, H4.
    rewrite (no_flight _ E1), (no_flight _ E2) in H3. rewrite E1, E2 in H4. simpl in H3, H4.
    rewrite Forall_singleton in H4. apply attempts_result in Hr; [|exact H4].
    split; cbn [execute flushSem taken finished buffer executed inserted]; rewrite ?bind_app, ?list_bind_cons; try done.
    + rewrite (no_flight _ E1), (no_flight _ E2). rewrite app_nil_r in H3. change (inserted (execute stmt s)) with (inserted s).
      destruct err as [err|]; simpl; [subst stmt; rewrite !app_nil_r; done|].
      destruct Hr as (q & -> & Hq). apply Forall2_app; [done|]. by repeat constructor.
    + rewrite E1, E2. by apply Forall_singleton.
  - injection Ha as <- <-. destruct (alone s l1 (Inserted who es err) l2 Hi ltac:(done)) as (Hsem & E1 & E2).
    destruct Hi as [H1 H2 H3 H4]. rewrite !bind_app, list_bind_cons in H1, H2, H3, H4.
    rewrite (no_flight _ E1), (no_flight _ E2) in H3. rewrite E1, E2 in H2. simpl in H2, H3.
    destruct (after_flush_quiet who) as [Hq1 Hq2].
    split; cbn [finish set_sem flushSem taken finished buffer executed];
      rewrite ?bind_app, ?E1, ?E2, ?Hq1, ?Hq2, ?(no_flight _ E1), ?(no_flight _ E2).
    + done.
    + rewrite H2, fmap_app, concat_app. simpl. rewrite !app_nil_r. by rewrite (assoc_L (++)).
    + unfold inserted in *. cbn [finish set_sem finished]. rewrite filter_app, fmap_app.
      destruct err as [err|]; cbn [landed] in H3; rewrite ?app_nil_l, ?app_nil_r in *; exact H3.
    + done.
Qed.

Lemma batch_inv_step e m m' : inv (sh m) (threads m) → exec e m = Ret (Some m') → inv (sh m') (threads m').
Proof.
  intros Hi He. destruct e as [ev| | |i oks tick]; simpl in He.
  - unfold Write in He. destruct (stopped (sh m)); [done|].
    assert (Ht : inv (take_event ev (sh m)) (threads m ++ [] ++ [])).
    { simpl. rewrite app_nil_r. destruct Hi as [H1 H2 H3 H4]. split; try done. cbn [take_event taken finished buffer].
      rewrite H2. by rewrite <-!(assoc_L (++)). }
    destruct (_ >=? _).
    + pose proof (flush_inv _ (threads m) [] [] ByWrite Ht eq_refl) as H.
      destruct (flush ByWrite _) as [s ts]. injection He as <-. by rewrite app_nil_r in H.
    + injection He as <-. by rewrite app_nil_l in Ht.
  - assert (Ht : inv (sh m) (threads m ++ [] ++ [])) by (simpl; by rewrite app_nil_r).
    pose proof (flush_inv _ (threads m) [] [] ByFlush Ht eq_refl) as H.
    destruct (flush ByFlush (sh m)) as [s ts]. injection He as <-. by rewrite app_nil_r in H.
  - injection He as <-. cbn [sh threads].
    assert (Ht : inv (sh m) (threads m ++ [] ++ [])) by (simpl; by rewrite app_nil_r).
    pose proof (batch_inv_quiet _ (set_stop true (stopCh (sh m)) (sh m)) _ [] [Stopping] [] Ht eq_refl eq_refl eq_refl) as H.
    by rewrite app_nil_r in H.
  - destruct (threads m !! i) as [t|] eqn:Hl; [|done].
    destruct (advance oks tick t (sh m)) as [[[s ts]|]|] eqn:Ha; [|done..]. injection He as <-. cbn [sh threads].
    eapply batch_advance_inv; [|exact Ha]. by rewrite take_drop_middle.
Qed.

Lemma batch_reachable_inv m : reachable m → inv (sh m) (threads m).
Proof. induction 1 as [|e m m' _ IH He]; [by repeat constructor|by eapply batch_inv_step]. Qed.

(** C20: under every interleaving of writes, flushes, ticks and closes, the events the
    sink has taken are, in the order they were written, those of the batches that are
    done, then those of the one batch that may be inserting, then the buffer; and the
    statements the database has executed are those of the batches that succeeded, once
    each and in order. *)
Theorem batch_sink_accounts (m : state) (Hm : reachable m) :
  ∃ flights executing : list (list Event),
    taken (sh m) = concat (fst <$> finished (sh m)) ++ concat flights ++ buffer (sh m) ∧
    (length flights <= 1)%nat ∧ (flushSem (sh m) = false → flights = []) ∧
    Forall2 (λ es q, batch_statement Marshal (Table cfg) es = Ok q) (inserted (sh m) ++ executing) (executed (sh m)) ∧
    executing ⊆ flights.
Proof.
  destruct (batch_reachable_inv m Hm) as [H1 H2 H3 _]. exists (threads m ≫= flying), (threads m ≫= landed).
  split; [done|]. split; [rewrite H1; destruct (flushSem (sh m)); simpl; lia|].
  split; [intros Hf; rewrite Hf in H1; by apply length_zero_iff_nil|]. split; [done|].
  intros es (t & Hes & Ht)%list_elem_of_bind. apply list_elem_of_bind. exists t. split; [by apply landed_flying|done].
Qed.

(** ** Closing *)

Fixpoint run (es : list event) (m : state) : outcome (option state) :=
  match es with
  | [] => Ret (Some m)
  | e :: es =>
      match exec e m with
      | Ret (Some m) => run es m
      | Ret None => Ret None
      | Panic f a => Panic f a
      end
  end.

Lemma run_app es es' m :
  run (es ++ es') m = match run es m with Ret (Some m) => run es' m | Ret None => Ret None | Panic f a => Panic f a end.
Proof.
  revert m. induction es as [|e es IH]; intros m; [done|]. simpl. destruct (exec e m) as [[m'|]|]; [apply IH|done..].
Qed.

Lemma batch_run_reachable es m m' : reachable m → run es m = Ret (Some m') → reachable m'.
Proof.
  revert m. induction es as [|e es IH]; intros m Hm; simpl; [by intros [= <-]|].
  destruct (exec e m) as [[m1|]|] eqn:He; [|done..]. apply IH. by econstructor.
Qed.

Lemma retry_succeeds oks es q :
  es ≠ [] → batch_statement Marshal (Table cfg) es = Ok q → true ∈ take (Z.to_nat (MaxRetries cfg)) oks →
  batchInsertWithRetry oks es = (None, Some q).
Proof.
  intros Hes Hq. unfold batchInsertWithRetry. generalize (Z.to_nat (MaxRetries cfg)). intros n.
  enough (Hall : ∀ e0, true ∈ take n oks → insert_attempts n oks e0 es = (None, Some q)) by apply Hall.
  revert oks. induction n as [|n IH]; intros oks e0 Hin.
  { by apply elem_of_nil in Hin. }
  destruct oks as [|ok oks]; [by apply elem_of_nil in Hin|]. simpl in Hin |- *.
  unfold batchInsert. destruct es as [|e es]; [done|]. rewrite Hq. destruct ok; [done|].
  apply elem_of_cons in Hin as [?|Hin]; [done|]. by apply IH.
Qed.

(** The steps of a [Close] that nothing interrupts, when [n] goroutines are there. *)
Definition close_steps (n : nat) (oks : list bool) (b : list Event) : list event :=
  [ECall_Close; ERun n [] false; ERun n [] false] ++
  match b with [] => [] | _ => [ERun n oks false; ERun n [] false] end.

(** A goroutine that was started last runs. *)
Lemma run_last oks tick s ts t s' ts' :
  advance oks tick t s = Ret (Some (s', ts')) →
  exec (ERun (length ts) oks tick) (MkState s (ts ++ [t])) = Ret (Some (MkState s' (ts ++ ts'))).
Proof.
  intros Ha. simpl. rewrite list_lookup_middle by done. rewrite Ha. do 2 f_equal. f_equal.
  rewrite take_app_length, drop_ge by (rewrite length_app; simpl; lia). by rewrite app_nil_r.
Qed.

(** A close that finds no flush in progress writes what is left: if the metadata
    can be encoded and the database accepts one of the attempts, the events of the
    buffer are inserted as one batch, nothing remains in the buffer and no event can be
    written any more. *)
Theorem close_writes_everything (m : state) (oks : list bool) (q : string * list arg)
    (Hm : reachable m) (Hquiet : flushSem (sh m) = false) (Hopen : stopCh (sh m) = false)
    (Hq : batch_statement Marshal (Table cfg) (buffer (sh m)) = Ok q)
    (Hok : true ∈ take (Z.to_nat (MaxRetries cfg)) oks) :
  ∃ s, run (close_steps (length (threads m)) oks (buffer (sh m))) m = Ret (Some (MkState s (threads m))) ∧
    buffer s = [] ∧ taken s = taken (sh m) ∧ flushSem s = false ∧
    concat (inserted s) = concat (inserted (sh m)) ++ buffer (sh m) ∧
    executed s = executed (sh m) ++ (match buffer (sh m) with [] => [] | _ => [q] end) ∧
    ∀ e, Write e s = None.
Proof.
  destruct m as [s ts]. cbn [sh threads] in *. unfold close_steps. rewrite run_app.
  set (s1 := set_stop true (stopCh s) s). set (s2 := set_stop true true s1).
  assert (Hc : run [ECall_Close; ERun (length ts) [] false; ERun (length ts) [] false] (MkState s ts) =
    Ret (Some (MkState (flush ByClose s2).1 (ts ++ (flush ByClose s2).2)))).
  { cbn [run]. change (exec ECall_Close (MkState s ts)) with (Ret (Some (MkState s1 (ts ++ [Stopping])))). cbv iota.
    rewrite (run_last [] false s1 ts Stopping s2 [Flushing]) by (simpl; by rewrite Hopen).
    rewrite (run_last [] false s2 ts Flushing (flush ByClose s2).1 (flush ByClose s2).2); [done|].
    simpl. by rewrite <-surjective_pairing. }
  rewrite Hc. clear Hc. unfold flush, flushUnlocked. change (buffer s2) with (buffer s). change (flushSem s2) with (flushSem s).
  destruct (buffer s) as [|e b] eqn:Hb.
  - exists s2. cbn [fst snd after_flush]. rewrite !app_nil_r. split; [done|]. split; [exact Hb|]. by repeat split.
  - rewrite Hquiet. cbn [fst snd run].
    set (s3 := set_buffer [] (set_sem true s2)).
    rewrite (run_last oks false s3 ts (Inserting ByClose (e :: b)) (execute (Some q) s3) [Inserted ByClose (e :: b) None]).
    2:{ simpl. by rewrite (retry_succeeds oks (e :: b) q) by done. }
    rewrite (run_last [] false _ ts (Inserted ByClose (e :: b) None) (finish (e :: b) true (set_sem false (execute (Some q) s3))) [])
      by done.
    eexists. split; [by rewrite app_nil_r|]. repeat split.
    unfold inserted. cbn [finish finished]. rewrite filter_app, fmap_app, concat_app.
    change (filter (λ b0, b0.2 = true) [(e :: b, true)]) with [(e :: b, true)]. simpl. by rewrite app_nil_r.
Qed.

End Sink.

(** ** Examples *)

Definition small : BatchSQLSinkConfig := MkConfig "audit_events" 2 GoTime.Second 3 GoTime.Second.

(** JSON refuses a channel. *)
Definition plain_json (m : option Metadata_t) : result string :=
  match m with
  | None => Ok "null"
  | Some m => if existsb (λ p, match p.2 with VOpaque => true | _ => false end) (map_to_list m) then Err (Errorf "json: unsupported type" []) else Ok "{}"
  end.

Definition poison : Event :=
  let e := sample_event 9 in
  MkEvent 9 (RequestID e) (TraceID e) (TenantID e) (UserID e) (Username e) (ClientIP e) (Method e) (Path e) (StatusCode e)
    (Action e) (Resource e) (Result e) (Message e) (Some {[ "ch" := VOpaque ]}) false 0.

(** Three writes, of which two were flushed; then a close. *)
Definition three_writes : list event :=
  [ECall_Write (sample_event 1); ECall_Write (sample_event 2); ERun 1 [false; true] false; ERun 1 [] false;
   ECall_Write (sample_event 3)].

Definition at_three : state :=
  match run plain_json small three_writes NewBatchSQLSink with Ret (Some m) => m | _ => NewBatchSQLSink end.

Definition stmt_three : string * list arg :=
  match batch_statement plain_json "audit_events" [sample_event 3] with Ok q => q | Err _ => ("", []) end.

Lemma batch_sink_accounts_witness :
  reachable plain_json small at_three ∧
  ∃ flights : list (list Event),
    taken (sh at_three) = concat (fst <$> finished (sh at_three)) ++ concat flights ++ buffer (sh at_three) ∧
    (length flights <= 1)%nat.
Proof.
  assert (Hr : reachable plain_json small at_three).
  { apply (batch_run_reachable plain_json small three_writes NewBatchSQLSink); [constructor|vm_compute; reflexivity]. }
  split; [exact Hr|]. destruct (batch_sink_accounts plain_json small at_three Hr) as (fl & ex & H1 & H2 & _).
  exists fl. exact (conj H1 H2).
Defined.

Lemma close_writes_everything_witness :
  reachable plain_json small at_three ∧ flushSem (sh at_three) = false ∧ stopCh (sh at_three) = false ∧
  ∃ s, run plain_json small (close_steps 1 [true] (buffer (sh at_three))) at_three = Ret (Some (MkState s [Background])) ∧
    buffer s = [].
Proof.
  assert (Hr : reachable plain_json small at_three).
  { apply (batch_run_reachable plain_json small three_writes NewBatchSQLSink); [constructor|vm_compute; reflexivity]. }
  split; [exact Hr|]. split; [reflexivity|]. split; [reflexivity|].
  destruct (close_writes_everything plain_json small at_three [true] stmt_three Hr) as (s & H1 & H2 & _);
    [reflexivity|reflexivity|vm_compute; reflexivity|apply elem_of_cons; left; reflexivity|].
  exists s. exact (conj H1 H2).
Defined.

(** A close that finds a flush of the ticker in progress returns without an error and
    without writing the buffer; when every goroutine has ended, the event is still in
    the buffer, where nothing will write it. *)
Example close_during_flush_loses : ∃ s,
  run plain_json small
    [ECall_Write (sample_event 1); ERun 0 [] true; ECall_Write (sample_event 2);
     ECall_Close; ERun 1 [] false; ERun 1 [] false; ERun 0 [true] false; ERun 0 [] false; ERun 0 [] false] NewBatchSQLSink
    = Ret (Some (MkState s [])) ∧
  stopped s = true ∧ buffer s = [sample_event 2] ∧ inserted s = [[sample_event 1]].
Proof. eexists. vm_compute. repeat split. Qed.

(** One event whose metadata cannot be encoded loses the events that share its batch,
    and no statement reaches the database. *)
Example poison_loses_batch : ∃ s,
  run plain_json small
    [ECall_Write (sample_event 1); ECall_Write poison; ERun 1 [true; true; true] false; ERun 1 [] false] NewBatchSQLSink
    = Ret (Some (MkState s [Background])) ∧
  buffer s = [] ∧ finished s = [([sample_event 1; poison], false)] ∧ executed s = [].
Proof. eexists. vm_compute. repeat split. Qed.

(** A flush of the ticker that fails drops its events without a caller to report to. *)
Example ticker_failure_drops : ∃ s,
  run plain_json small [ECall_Write (sample_event 1); ERun 0 [] true; ERun 0 [] false; ERun 0 [] false] NewBatchSQLSink
    = Ret (Some (MkState s [Background])) ∧
  buffer s = [] ∧ finished s = [([sample_event 1], false)].
Proof. eexists. vm_compute. repeat split. Qed.

Example second_close_panics :
  run plain_json small [ECall_Close; ERun 1 [] false; ERun 1 [] false; ECall_Close; ERun 1 [] false] NewBatchSQLSink
    = Panic "close of closed channel" [].
Proof. reflexivity. Qed.
