(* ===== verification/AsyncSink.v ===== *)
(** * plugins/audit/async_sink.go: the asynchronous sink

    Writers, workers and closers as goroutines over the channels and the wait group, each
    at a point between two accesses to them; the events choose the schedule, the answers
    of the target and which ready case a select takes. *)

From S2P Require Import Prelude GoString AuditEvents.
Import GoError.

Open Scope Z_scope.

(** ** Configuration *)

Record AsyncSinkConfig := MkConfig {
  BufferSize : Z;
  Workers : Z;
  DropOnFull : bool
}.

Definition DefaultAsyncSinkConfig : AsyncSinkConfig := MkConfig 1024 1 false.

Definition positive_or (z d : Z) : Z := if z <=? 0 then d else z.

(** The configuration of [NewAsyncSink]. *)
Definition normalize (cfg : AsyncSinkConfig) : AsyncSinkConfig :=
  MkConfig (positive_or (BufferSize cfg) (BufferSize DefaultAsyncSinkConfig))
    (positive_or (Workers cfg) (Workers DefaultAsyncSinkConfig)) (DropOnFull cfg).

Definition ErrAsyncSinkClosed : error := Sentinel "audit.ErrAsyncSinkClosed".
Definition ErrAsyncSinkBufferFull : error := Sentinel "audit.ErrAsyncSinkBufferFull".

(** The channels and the wait group, the events [Write] has accepted and those given
    to the target with whether it took them. *)
Record sink := MkSink {
  ch : list Event;
  closed : bool;
  chClosed : bool;
  once : bool;
  closeDone : bool;
  wg : nat;
  accepted : list Event;
  delivered : list (Event * bool)
}.

Inductive thread :=
| Sending (e : Event)         (* Write, after its first select *)
| Worker                      (* receiving *)
| Busy (e : Event)            (* in the target *)
| Closing                     (* Close, before close(s.ch) *)
| Draining                    (* in wg.Wait *)
| Waiting.                    (* another Close, in once.Do *)

Record state := MkState { sh : sink; threads : list thread }.

(** The case a select takes, or what the target answers. *)
Inductive choice := TakeClosed | TakeDone | TakeSend | Answer (ok : bool).

Section Sink.
Context (cfg : AsyncSinkConfig).

Definition NewAsyncSink : state :=
  MkState (MkSink [] false false false false (Z.to_nat (Workers cfg)) [] []) (replicate (Z.to_nat (Workers cfg)) Worker).

Definition room (s : sink) : bool := Z.of_nat (length (ch s)) <? BufferSize cfg.

Definition enqueue (e : Event) (s : sink) : sink :=
  MkSink (ch s ++ [e]) (closed s) (chClosed s) (once s) (closeDone s) (wg s) (accepted s ++ [e]) (delivered s).

(** The send of [Write]. *)
Definition Write_send (c : choice) (e : Event) (s : sink) : outcome (option (sink * list thread)) :=
  if DropOnFull cfg then
    if chClosed s then Panic "send on closed channel" []
    else Ret (Some (if room s then enqueue e s else s, []))
  else
    match c with
    | TakeClosed => Ret (if closed s then Some (s, []) else None)
    | TakeDone => Ret (Some (s, []))
    | TakeSend =>
        if chClosed s then Panic "send on closed channel" []
        else Ret (if room s then Some (enqueue e s, []) else None)
    | Answer _ => Ret None
    end.

(** [worker]: receives until the channel is closed and empty. *)
Definition worker_receive (s : sink) : option (sink * list thread) :=
  match ch s with
  | e :: rest =>
      Some (MkSink rest (closed s) (chClosed s) (once s) (closeDone s) (wg s) (accepted s) (delivered s), [Busy e])
  | [] =>
      if chClosed s then
        Some (MkSink [] (closed s) (chClosed s) (once s) (closeDone s) (pred (wg s)) (accepted s) (delivered s), [])
      else None
  end.

Definition worker_deliver (ok : bool) (e : Event) (s : sink) : sink * list thread :=
  (MkSink (ch s) (closed s) (chClosed s) (once s) (closeDone s) (wg s) (accepted s) (delivered s ++ [(e, ok)]), [Worker]).

(** The function of [once.Do] after [close(s.closed)]. *)
Definition Close_rest (t : thread) (s : sink) : option (sink * list thread) :=
  match t with
  | Closing =>
      Some (MkSink (ch s) (closed s) true (once s) (closeDone s) (wg s) (accepted s) (delivered s), [Draining])
  | Draining =>
      if decide (wg s = 0%nat) then
        Some (MkSink (ch s) (closed s) (chClosed s) (once s) true (wg s) (accepted s) (delivered s), [])
      else None
  | Waiting => if closeDone s then Some (s, []) else None
  | _ => None
  end.

Definition advance (c : choice) (t : thread) (s : sink) : outcome (option (sink * list thread)) :=
  match t with
  | Sending e => Write_send c e s
  | Worker => Ret (worker_receive s)
  | Busy e => Ret (match c with Answer ok => Some (worker_deliver ok e s) | _ => None end)
  | Closing | Draining | Waiting => Ret (Close_rest t s)
  end.

Inductive event := ECall_Write (e : Event) | ECall_Close | ERun (i : nat) (c : choice).

(** [Write] up to its first select; the sink refuses the event when it is closed. *)
Definition Write (e : Event) (s : sink) : list thread := if closed s then [] else [Sending e].

Definition Close (s : sink) : sink * list thread :=
  if once s then (s, [Waiting])
  else (MkSink (ch s) true (chClosed s) true (closeDone s) (wg s) (accepted s) (delivered s), [Closing]).

Definition exec (e : event) (m : state) : outcome (option state) :=
  match e with
  | ECall_Write ev => Ret (Some (MkState (sh m) (threads m ++ Write ev (sh m))))
  | ECall_Close => let '(s, ts) := Close (sh m) in Ret (Some (MkState s (threads m ++ ts)))
  | ERun i c =>
      match threads m !! i with
      | None => Ret None
      | Some t =>
          match advance c t (sh m) with
          | Panic f a => Panic f a
          | Ret None => Ret None
          | Ret (Some (s, ts)) => Ret (Some (MkState s (take i (threads m) ++ ts ++ drop (S i) (threads m))))
          end
      end
  end.

Inductive reachable : state → Prop :=
| reachable_new : reachable NewAsyncSink
| reachable_step e m m' : reachable m → exec e m = Ret (Some m') → reachable m'.

Fixpoint run (es : list event) (m : state) : outcome (option state) :=
  match es with
  | [] => Ret (Some m)
  | e :: es =>
      match exec e m with
      | Ret (Some m) => run es m
      | Ret None => Ret None
      | Panic f a => Panic f a
      end
  end.

(** ** Where the events are *)

Definition busy (t : thread) : list Event := match t with Busy e => [e] | _ => [] end.
Definition working (t : thread) : list unit := match t with Worker | Busy _ => [()] | _ => [] end.
Definition draining (t : thread) : list unit := match t with Draining => [()] | _ => [] end.

Record inv (s : sink) (ts : list thread) : Prop := {
  i_wg : wg s = length (ts ≫= working);
  i_max : (wg s <= Z.to_nat (Workers cfg))%nat;
  i_room : Z.of_nat (length (ch s)) <= Z.max 0 (BufferSize cfg);
  i_perm : accepted s ≡ₚ (fst <$> delivered s) ++ (ts ≫= busy) ++ ch s;
  i_fifo : Workers cfg = 1 → accepted s = (fst <$> delivered s) ++ (ts ≫= busy) ++ ch s;
  i_ended : (wg s < Z.to_nat (Workers cfg))%nat → chClosed s = true ∧ ch s = [];
  i_closed : chClosed s = true → closed s = true;
  i_drain : ts ≫= draining ≠ [] → chClosed s = true;
  i_done : closeDone s = true → chClosed s = true ∧ wg s = 0%nat;
  i_closing : Closing ∈ ts → closed s = true
}.

(** A step of a goroutine that is no worker and delivers nothing. *)
Lemma async_inv_quiet s s' l1 t ts l2 :
  inv s (l1 ++ t :: l2) → working t = [] → ts ≫= working = [] → ts ≫= busy = [] →
  (wg s', ch s', accepted s', delivered s') = (wg s, ch s, accepted s, delivered s) →
  (chClosed s = true → chClosed s' = true) → (chClosed s' = true → closed s' = true) →
  (chClosed s' = true ∨ ts ≫= draining = []) →
  (closeDone s' = true → chClosed s' = true ∧ wg s = 0%nat) →
  closed s' = closed s → Closing ∉ ts →
  inv s' (l1 ++ ts ++ l2).
Proof.
  intros [H1 H2 H3 H4 H5 H6 H7 H8 H9 H10] Ht Hw Hb [= Ew Ec Ea Ed] Hc Hcl Hd Hdone Hcc Hnc.
  assert (Htb : busy t = []) by (by destruct t).
  rewrite bind_app, list_bind_cons in H1. rewrite bind_app, list_bind_cons in H4. rewrite bind_app, list_bind_cons in H5.
  rewrite bind_app, list_bind_cons in H8. rewrite Ht, app_nil_l in H1. rewrite Htb, app_nil_l in H4. rewrite Htb, app_nil_l in H5.
  split; rewrite ?bind_app, ?Hw, ?Hb, ?Ew, ?Ec, ?Ea, ?Ed; try done.
  - intros Hlt. destruct (H6 Hlt). auto.
  - destruct Hd as [Hd|Hd]; [done|]. rewrite Hd, app_nil_l. intros Hne. apply Hc, H8. intros E.
    apply Hne. destruct (l1 ≫= draining); [|done]. destruct (draining t); [done|done].
  - rewrite Hcc. intros Hin. apply H10. rewrite !elem_of_app, elem_of_cons in *. tauto.
Qed.

Lemma inv_spawn s s' ts t :
  inv s ts → working t = [] → draining t = [] → (t = Closing → closed s' = true) →
  (wg s', ch s', accepted s', delivered s', closeDone s') = (wg s, ch s, accepted s, delivered s, closeDone s) →
  chClosed s' = chClosed s → (closed s = true → closed s' = true) → inv s' (ts ++ [t]).
Proof.
  intros [H1 H2 H3 H4 H5 H6 H7 H8 H9 H10] Ht Htd Htc [= Ew Ec Ea Ed Ecd] Hc Hcl.
  assert (Htb : busy t = []) by (by destruct t).
  split; rewrite ?bind_app, ?list_bind_cons, ?Ht, ?Htb, ?Htd, ?Ew, ?Ec, ?Ea, ?Ed, ?Ecd, ?Hc; simpl; rewrite ?app_nil_r; auto.
  intros [?|E%list_elem_of_singleton]%elem_of_app; [auto|]. by apply Htc.
Qed.

(** The three lists of the goroutines around one of them. *)
Lemma inv_split s l1 t l2 : inv s (l1 ++ t :: l2) →
  wg s = (length (l1 ≫= working) + length (working t) + length (l2 ≫= working))%nat ∧
  accepted s ≡ₚ (fst <$> delivered s) ++ ((l1 ≫= busy) ++ busy t ++ (l2 ≫= busy)) ++ ch s ∧
  (Workers cfg = 1 → accepted s = (fst <$> delivered s) ++ ((l1 ≫= busy) ++ busy t ++ (l2 ≫= busy)) ++ ch s) ∧
  ((l1 ≫= draining) ++ draining t ++ (l2 ≫= draining) ≠ [] → chClosed s = true).
Proof.
  intros [H1 _ _ H4 H5 _ _ H8 _ _]. rewrite bind_app, list_bind_cons in H1. rewrite bind_app, list_bind_cons in H4.
  rewrite bind_app, list_bind_cons in H5. rewrite bind_app, list_bind_cons in H8. rewrite !length_app in H1.
  split; [lia|done].
Qed.

Lemma busy_working l : (length (l ≫= busy) <= length (l ≫= working))%nat.
Proof.
  induction l as [|t l IH]; [done|]. rewrite !list_bind_cons, !length_app. destruct t; simpl; lia.
Qed.

Lemma idle_none l : length (l ≫= working) = 0%nat → l ≫= busy = [].
Proof. intros Hl. apply length_zero_iff_nil. pose proof (busy_working l). lia. Qed.

Lemma closing_stays (t : thread) (l1 new l2 : list thread) :
  Closing ∉ new → Closing ∈ l1 ++ new ++ l2 → Closing ∈ l1 ++ t :: l2.
Proof. intros Hn Hin. rewrite !elem_of_app, elem_of_cons in *. tauto. Qed.

Lemma no_closing : Closing ∉ [].
Proof. by intros ?%elem_of_nil. Qed.

(** A goroutine that is no worker ends. *)
Lemma inv_end s l1 t l2 : inv s (l1 ++ t :: l2) → working t = [] → inv s (l1 ++ [] ++ l2).
Proof.
  intros Hi Ht. pose proof Hi as [_ _ _ _ _ _ H7 _ H9 _].
  eapply async_inv_quiet; [exact Hi|exact Ht|done..|exact (λ x, x)|exact H7|by right|exact H9|done|exact no_closing].
Qed.

Lemma enqueue_inv s l1 e l2 :
  inv s (l1 ++ Sending e :: l2) → chClosed s = false → room s = true → inv (enqueue e s) (l1 ++ [] ++ l2).
Proof.
  intros Hi Hc Hr. destruct (inv_split s l1 _ l2 Hi) as (Hw & Hp & Hf & Hd).
  destruct Hi as [_ H2 H3 _ _ H6 H7 _ H9 H10]. rewrite app_nil_l. simpl in Hp, Hf, Hw.
  assert (Hwg : wg s = Z.to_nat (Workers cfg)).
  { destruct (decide (wg s < Z.to_nat (Workers cfg))%nat) as [Hlt|]; [|lia]. destruct (H6 Hlt). congruence. }
  split; cbn [enqueue wg ch accepted delivered chClosed closed closeDone]; rewrite ?bind_app; auto.
  - rewrite length_app. lia.
  - unfold room in Hr. rewrite length_app. simpl. lia.
  - rewrite Hp. by rewrite <-!(assoc_L (++)).
  - intros H. rewrite (Hf H). by rewrite <-!(assoc_L (++)).
  - intros. lia.
  - intros Hin. by apply H10, (closing_stays _ _ []), Hin; apply no_closing.
Qed.

Lemma receive_inv s s' ts l1 l2 :
  inv s (l1 ++ Worker :: l2) → worker_receive s = Some (s', ts) → inv s' (l1 ++ ts ++ l2).
Proof.
  intros Hi Ha. destruct (inv_split s l1 _ l2 Hi) as (Hw & Hp & Hf & Hd).
  destruct Hi as [_ H2 H3 _ _ H6 H7 _ H9 H10]. simpl in Hw, Hp, Hf, Hd.
  unfold worker_receive in Ha. destruct (ch s) as [|e rest] eqn:Hch.
  - destruct (chClosed s) eqn:Hc; [|done]. injection Ha as <- <-.
    split; cbn [wg ch accepted delivered chClosed closed closeDone]; rewrite ?app_nil_l, ?bind_app; auto.
    + rewrite length_app. lia.
    + lia.
    + intros Hx. destruct (H9 Hx) as [_ E]. by rewrite E.
  - injection Ha as <- <-.
    split; cbn [wg ch accepted delivered chClosed closed closeDone]; rewrite ?bind_app, ?list_bind_cons; simpl; auto.
    + rewrite length_app. simpl. lia.
    + simpl in H3. lia.
    + rewrite Hp. solve_Permutation.
    + intros H. rewrite (Hf H), (idle_none l1), (idle_none l2) by lia. done.
    + intros Hlt. by destruct (H6 Hlt).
    + intros Hin. apply H10, (closing_stays _ _ [Busy e]); [by intros ?%list_elem_of_singleton|done].
Qed.

Lemma deliver_inv s l1 e l2 ok :
  inv s (l1 ++ Busy e :: l2) → inv (worker_deliver ok e s).1 (l1 ++ (worker_deliver ok e s).2 ++ l2).
Proof.
  intros Hi. destruct (inv_split s l1 _ l2 Hi) as (Hw & Hp & Hf & Hd).
  destruct Hi as [_ H2 H3 _ _ H6 H7 _ H9 H10]. simpl in Hw, Hp, Hf, Hd.
  split; cbn [worker_deliver wg ch accepted delivered chClosed closed closeDone fst snd];
    rewrite ?bind_app, ?list_bind_cons; simpl; auto.
  - rewrite length_app. simpl. lia.
  - rewrite Hp, fmap_app. simpl. solve_Permutation.
  - intros H. rewrite (Hf H), fmap_app, (idle_none l1), (idle_none l2) by lia. simpl. by rewrite <-!(assoc_L (++)).
  - intros Hin. apply H10, (closing_stays _ _ [Worker]); [by intros ?%list_elem_of_singleton|done].
Qed.

Lemma async_advance_inv c t s s' ts l1 l2 :
  inv s (l1 ++ t :: l2) → advance c t s = Ret (Some (s', ts)) → inv s' (l1 ++ ts ++ l2).
Proof.
  intros Hi Ha. destruct (inv_split s l1 t l2 Hi) as (_ & _ & _ & Hd). pose proof Hi as [_ _ _ _ _ _ H7 _ H9 H10].
  destruct t as [e| |e| | |]; simpl in Ha.
  - unfold Write_send in Ha. destruct (DropOnFull cfg).
    + destruct (chClosed s) eqn:Hc; [done|]. destruct (room s) eqn:Hr; injection Ha as <- <-; [by apply enqueue_inv|].
      by apply (inv_end s l1 (Sending e)).
    + destruct c.
      * destruct (closed s) eqn:Hcl; [|done]. injection Ha as <- <-. by apply (inv_end s l1 (Sending e)).
      * injection Ha as <- <-. by apply (inv_end s l1 (Sending e)).
      * destruct (chClosed s) eqn:Hc; [done|]. destruct (room s) eqn:Hr; [|done]. injection Ha as <- <-.
        by apply enqueue_inv.
      * done.
  - injection Ha as Ha. by eapply receive_inv.
  - destruct c as [| | |ok]; [done..|]. injection Ha as <- <-. by apply (deliver_inv s l1 e l2 ok).
  - injection Ha as <- <-. eapply async_inv_quiet; [exact Hi|done..| |by left| |done|by intros ?%list_elem_of_singleton].
    + intros _. apply H10, elem_of_app. right. by left.
    + intros Hx. by destruct (H9 Hx).
  - case_decide as E; [|done]. injection Ha as <- <-.
    assert (Hc : chClosed s = true) by (apply Hd; simpl; by destruct (l1 ≫= draining)).
    eapply async_inv_quiet; [exact Hi|done..|auto|auto|by right|auto|done|exact no_closing].
  - destruct (closeDone s) eqn:Hc; [|done]. injection Ha as <- <-. by apply (inv_end s l1 Waiting).
Qed.

Lemma async_inv_step e m m' : inv (sh m) (threads m) → exec e m = Ret (Some m') → inv (sh m') (threads m').
Proof.
  intros Hi He. destruct e as [ev| |i c]; simpl in He.
  - injection He as <-. unfold Write. cbn [sh threads]. destruct (closed (sh m)); [by rewrite app_nil_r|].
    by eapply inv_spawn.
  - unfold Close in He. destruct (once (sh m)); injection He as <-; cbn [sh threads]; by eapply inv_spawn.
  - destruct (threads m !! i) as [t|] eqn:Hl; [|done].
    destruct (advance c t (sh m)) as [[[s ts]|]|] eqn:Ha; [|done..]. injection He as <-. cbn [sh threads].
    eapply async_advance_inv; [|exact Ha]. by rewrite take_drop_middle.
Qed.

Lemma new_inv : inv (sh NewAsyncSink) (threads NewAsyncSink).
Proof.
  unfold NewAsyncSink. cbn [sh threads].
  assert (Hw : ∀ n, length (replicate n Worker ≫= working) = n) by (induction n; [done|]; simpl; by f_equal).
  assert (Hb : ∀ n, replicate n Worker ≫= busy = []) by (by induction n).
  assert (Hd : ∀ n, replicate n Worker ≫= draining = []) by (by induction n).
  split; cbn [wg ch accepted delivered chClosed closed closeDone]; rewrite ?Hw, ?Hb, ?Hd; try done; try lia.
  - simpl. lia.
  - intros [? _]%elem_of_replicate. done.
Qed.

Lemma async_reachable_inv m : reachable m → inv (sh m) (threads m).
Proof. induction 1 as [|e m m' _ IH He]; [exact new_inv|by eapply async_inv_step]. Qed.

Lemma none_busy s ts : inv s ts → wg s = 0%nat → ts ≫= busy = [].
Proof. intros [H1 _ _ _ _ _ _ _ _ _] Hz. apply idle_none. congruence. Qed.

(** C21: under every interleaving, every event whose write was accepted is in exactly one
    place: given to the target, in the hands of a worker, or in the channel, which never
    holds more than its capacity; one worker gives the events on in the order they were
    accepted; when [Close] has returned all of them were given to the target; and a
    write panics only once the sink is being closed. *)
Theorem async_sink_delivers (m : state) (Hm : reachable m) (Hw : 0 < Workers cfg) (Hb : 0 < BufferSize cfg) :
  accepted (sh m) ≡ₚ (fst <$> delivered (sh m)) ++ (threads m ≫= busy) ++ ch (sh m) ∧
  Z.of_nat (length (ch (sh m))) <= BufferSize cfg ∧
  (Workers cfg = 1 → accepted (sh m) = (fst <$> delivered (sh m)) ++ (threads m ≫= busy) ++ ch (sh m)) ∧
  (closeDone (sh m) = true → accepted (sh m) ≡ₚ fst <$> delivered (sh m)) ∧
  (∀ e f a, exec e m = Panic f a → closed (sh m) = true).
Proof.
  pose proof (async_reachable_inv m Hm) as Hi. pose proof Hi as [H1 _ H3 H4 H5 H6 H7 _ H9 _].
  split; [done|]. split; [lia|]. split; [done|]. split.
  - intros Hd. destruct (H9 Hd) as [_ Hz]. rewrite H4, (none_busy _ _ Hi Hz).
    destruct H6 as [_ ->]; [lia|]. by rewrite !app_nil_r.
  - intros e f a He. destruct e as [ev| |i c]; simpl in He; [done| |].
    { unfold Close in He. by destruct (once (sh m)). }
    destruct (threads m !! i) as [t|]; [|done].
    destruct (advance c t (sh m)) as [[[s ts]|]|] eqn:Ha; [done..|]. apply H7.
    destruct t; simpl in Ha; try done. unfold Write_send in Ha.
    destruct (DropOnFull cfg); [|destruct c; try done]; by destruct (chClosed (sh m)).
Qed.

(** ** Closing ends *)

(** The work left for the workers. *)
Definition left_to_do (m : state) : nat := (2 * length (ch (sh m)) + length (threads m ≫= busy) + wg (sh m))%nat.

Lemma exec_at l1 t l2 c s s' ts :
  advance c t s = Ret (Some (s', ts)) →
  exec (ERun (length l1) c) (MkState s (l1 ++ t :: l2)) = Ret (Some (MkState s' (l1 ++ ts ++ l2))).
Proof.
  intros Ha. simpl. rewrite list_lookup_middle by done. rewrite Ha. do 2 f_equal. f_equal.
  rewrite take_app_length. replace (S (length l1)) with (length l1 + 1)%nat by lia. by rewrite drop_app_add.
Qed.

(** While a worker is left, one of them can run, and does part of the work. *)
Lemma worker_step m : inv (sh m) (threads m) → chClosed (sh m) = true → (0 < wg (sh m))%nat →
  ∃ i c m', exec (ERun i c) m = Ret (Some m') ∧ (left_to_do m' < left_to_do m)%nat ∧
    accepted (sh m') = accepted (sh m) ∧ chClosed (sh m') = true.
Proof.
  intros Hi Hc Hw. pose proof Hi as [H1 _ _ _ _ _ _ _ _ _]. destruct m as [s ts]. cbn [sh threads] in *.
  assert (Hne : ts ≫= working ≠ []) by (intros E; rewrite E in H1; simpl in H1; lia).
  assert (Hex : ∃ u, u ∈ ts ≫= working) by (destruct (ts ≫= working) as [|u r]; [done|exists u; by left]).
  destruct Hex as [u (t & Hu & (l1 & l2 & ->)%list_elem_of_split)%list_elem_of_bind].
  destruct t as [e| |e| | |]; simpl in Hu; try (by apply elem_of_nil in Hu).
  - destruct (ch s) as [|e rest] eqn:Hch.
    + exists (length l1), TakeSend. eexists. split.
      { apply exec_at. simpl. unfold worker_receive. rewrite Hch, Hc. done. }
      unfold left_to_do. cbn [sh threads ch wg accepted chClosed]. rewrite !bind_app, !list_bind_cons, !length_app. simpl.
      rewrite Hch. simpl. split; [lia|done].
    + exists (length l1), TakeSend. eexists. split.
      { apply exec_at. simpl. unfold worker_receive. rewrite Hch. done. }
      unfold left_to_do. cbn [sh threads ch wg accepted chClosed]. rewrite !bind_app, !list_bind_cons, !length_app. simpl.
      rewrite Hch. simpl. split; [lia|done].
  - exists (length l1), (Answer true). eexists. split; [by apply exec_at|].
    unfold left_to_do. cbn [sh threads worker_deliver ch wg accepted chClosed fst snd].
    rewrite !bind_app, !list_bind_cons, !length_app. simpl. split; [lia|done].
Qed.

(** Once [Close] has closed the channel, the workers end after as many steps as
    they have work left, at most, and then every accepted event has been given to the
    target. *)
Theorem async_close_drains (m : state) (Hm : reachable m) (Hw : 0 < Workers cfg) (Hc : chClosed (sh m) = true) :
  ∃ es m', (length es <= left_to_do m)%nat ∧ Forall (λ e, ∃ i c, e = ERun i c) es ∧ run es m = Ret (Some m') ∧
    wg (sh m') = 0%nat ∧ accepted (sh m') = accepted (sh m) ∧ accepted (sh m) ≡ₚ fst <$> delivered (sh m').
Proof.
  apply async_reachable_inv in Hm. revert Hm Hc. remember (left_to_do m) as n eqn:Hn. revert m Hn.
  induction n as [n IH] using lt_wf_ind. intros m -> Hi Hc.
  destruct (decide (wg (sh m) = 0%nat)) as [Hz|Hnz].
  - exists [], m. split; [simpl; lia|]. split; [constructor|]. split; [done|]. split; [done|]. split; [done|].
    pose proof Hi as [_ _ _ H4 _ H6 _ _ _ _]. destruct H6 as [_ Hch]; [lia|].
    rewrite H4, (none_busy _ _ Hi Hz), Hch. by rewrite !app_nil_r.
  - destruct (worker_step m Hi Hc ltac:(lia)) as (i & c & m1 & He & Hlt & Ha & Hc1).
    destruct (IH (left_to_do m1) Hlt m1 eq_refl (async_inv_step _ _ _ Hi He) Hc1)
      as (es & m' & Hl & Hes & Hr & Hz & Ha' & Hp).
    exists (ERun i c :: es), m'. split; [simpl; lia|]. split; [constructor; [by exists i, c|done]|].
    split; [simpl in He |- *; by rewrite He|]. rewrite <-Ha. done.
Qed.

Lemma async_run_reachable es m m' : reachable m → run es m = Ret (Some m') → reachable m'.
Proof.
  revert m. induction es as [|e es IH]; intros m Hm; simpl; [by intros [= <-]|].
  destruct (exec e m) as [[m1|]|] eqn:He; [|done..]. apply IH. by econstructor.
Qed.

End Sink.

(** ** Examples *)

Definition one_worker : AsyncSinkConfig := normalize (MkConfig 2 0 false).

(** Two writes, a close that has closed the channel, one event delivered. *)
Definition closing_events : list event :=
  [ECall_Write (sample_event 1); ERun 1 TakeSend; ECall_Write (sample_event 2); ERun 1 TakeSend; ERun 0 TakeSend;
   ECall_Close; ERun 1 TakeSend].

Definition at_close : state :=
  match run one_worker closing_events (NewAsyncSink one_worker) with Ret (Some m) => m | _ => NewAsyncSink one_worker end.

Lemma at_close_reachable : reachable one_worker at_close.
Proof.
  apply (async_run_reachable one_worker closing_events (NewAsyncSink one_worker)); [constructor|vm_compute; reflexivity].
Qed.

Lemma async_sink_delivers_witness :
  0 < Workers one_worker ∧ accepted (sh at_close) = [sample_event 1; sample_event 2] ∧
  accepted (sh at_close) ≡ₚ (fst <$> delivered (sh at_close)) ++ (threads at_close ≫= busy) ++ ch (sh at_close).
Proof.
  split; [reflexivity|]. split; [reflexivity|].
  exact (proj1 (async_sink_delivers one_worker at_close at_close_reachable eq_refl eq_refl)).
Defined.

Lemma async_close_drains_witness :
  chClosed (sh at_close) = true ∧ left_to_do at_close = 4%nat ∧
  ∃ es m', (length es <= left_to_do at_close)%nat ∧ run one_worker es at_close = Ret (Some m') ∧ wg (sh m') = 0%nat.
Proof.
  split; [reflexivity|]. split; [reflexivity|].
  destruct (async_close_drains one_worker at_close at_close_reachable eq_refl eq_refl) as (es & m' & H1 & _ & H2 & H3 & _).
  exists es, m'. exact (conj H1 (conj H2 H3)).
Defined.

(** A write that has found the sink open sends on the channel that a close has closed
    meanwhile: the goroutine that serves the request panics. *)
Example write_close_panics :
  run one_worker [ECall_Write (sample_event 1); ECall_Close; ERun 2 TakeSend; ERun 1 TakeSend] (NewAsyncSink one_worker)
    = Panic "send on closed channel" [].
Proof. reflexivity. Qed.

(** Two workers may give the events on in the other order. *)
Example two_workers_reorder : ∃ m,
  run (MkConfig 2 2 false)
    [ECall_Write (sample_event 1); ERun 2 TakeSend; ECall_Write (sample_event 2); ERun 2 TakeSend;
     ERun 0 TakeSend; ERun 1 TakeSend; ERun 1 (Answer true); ERun 0 (Answer true)] (NewAsyncSink (MkConfig 2 2 false))
    = Ret (Some m) ∧ accepted (sh m) = [sample_event 1; sample_event 2] ∧
  fst <$> delivered (sh m) = [sample_event 2; sample_event 1].
Proof. eexists. vm_compute. repeat split. Qed.
