(* ===== verification/RedisLimiter.v ===== *)
(** * plugins/ratelimit/redis_limiter.go: the rate limiter shared through Redis

    The counter of a key lives in Redis; a Lua script, which the server runs as one
    step, increments it, sets its life when it is new and compares it with the limit.
    The server is a class of commands with the documented laws, as in [RedisLock]; the
    calls of any number of instances are a list with the server's clock, and a call
    may be lost before or after the server has run the script.  The reference is one
    window per key. *)

From S2P Require Import Prelude GoString RateLimitProps RedisLock.
Import GoError.

Open Scope Z_scope.

(** ** The server *)

Class RedisCounters (DB : Type) := {
  rc_get : Z → string → DB → option Z;
  rc_incr : Z → string → DB → DB * Z;
  rc_pexpire : Z → string → Z → DB → DB
}.

(** [INCR] of a missing key stores one without a deadline; of another it keeps the
    deadline.  [PEXPIRE] with a life that is not positive deletes the key. *)
Class RedisCounterLaws (DB : Type) `{!RedisCounters DB} : Prop := {
  incr_new now k db :
    rc_get now k db = None →
    (rc_incr now k db).2 = 1 ∧
    ∀ t k', now <= t → rc_get t k' (rc_incr now k db).1 = if decide (k' = k) then Some 1 else rc_get t k' db;
  incr_old now k db n :
    rc_get now k db = Some n →
    (rc_incr now k db).2 = n + 1 ∧
    ∀ t k', now <= t → rc_get t k' (rc_incr now k db).1 =
      if decide (k' = k) then (if rc_get t k db then Some (n + 1) else None) else rc_get t k' db;
  cpexpire_spec now k ms db n :
    rc_get now k db = Some n →
    ∀ t k', now <= t → rc_get t k' (rc_pexpire now k ms db) =
      if decide (k' = k) then (if t <? now + ms * GoTime.Millisecond then Some n else None) else rc_get t k' db
}.

(** A server: counters with an optional deadline. *)
Notation cdb := (gmap string (Z * option Z)).

Definition c_get (now : Z) (k : string) (db : cdb) : option Z :=
  match db !! k with
  | Some (n, Some d) => if now <? d then Some n else None
  | Some (n, None) => Some n
  | None => None
  end.

#[export] Instance cdb_server : RedisCounters cdb := {
  rc_get := c_get;
  rc_incr now k db :=
    match c_get now k db, db !! k with
    | Some n, Some (_, d) => (<[k := (n + 1, d)]> db, n + 1)
    | _, _ => (<[k := (1, None)]> db, 1)
    end;
  rc_pexpire now k ms db :=
    match c_get now k db with
    | Some n => <[k := (n, Some (now + ms * GoTime.Millisecond))]> db
    | None => db
    end
}.

Lemma c_get_insert t k k' n d (db : cdb) :
  c_get t k' (<[k := (n, d)]> db) =
  if decide (k' = k) then match d with Some d => if t <? d then Some n else None | None => Some n end else c_get t k' db.
Proof.
  unfold c_get. case_decide as E; [subst; by rewrite lookup_insert_eq|by rewrite lookup_insert_ne].
Qed.

#[export] Instance cdb_laws : RedisCounterLaws cdb.
Proof.
  split; cbn; intros now k db; intros.
  - match goal with H : c_get _ _ _ = _ |- _ => rewrite H end. split; [done|]. intros. apply c_get_insert.
  - pose proof H as Hg. unfold c_get in H. destruct (db !! k) as [[v d]|] eqn:Hk; [|done]. rewrite Hg. split; [done|].
    intros t k' Ht. cbn [fst]. rewrite c_get_insert. case_decide; [|done]. subst k'. unfold c_get. rewrite Hk.
    destruct d as [d|]; [|done]. by destruct (t <? d).
  - match goal with H : c_get _ _ _ = _ |- _ => rewrite H end. by rewrite c_get_insert.
Qed.

(** ** The limiter *)

Record RedisLimiterConfig := MkConfig {
  Requests : Z;
  Window : Z;
  Prefix : string
}.

Definition DefaultRedisLimiterConfig : RedisLimiterConfig := MkConfig 60 GoTime.Minute "ratelimit:".

(** [NewRedisLimiter] with a runner. *)
Definition NewRedisLimiter (cfg : RedisLimiterConfig) : result RedisLimiterConfig :=
  if Requests cfg <=? 0 then Err (Errorf "ratelimit: requests must be positive" [])
  else if Window cfg <=? 0 then Err (Errorf "ratelimit: window must be positive" [])
  else Ok (MkConfig (Requests cfg) (Window cfg) (or_default_s (Prefix cfg) "ratelimit:")).

Section Limiter.
Context {DB : Type} `{!RedisCounters DB}.

(** The script: [ms] and [limit] are its arguments. *)
Definition luaRedisFixedWindow (now : Z) (key : string) (ms limit : Z) (db : DB) : DB * Z :=
  let '(db, current) := rc_incr now key db in
  let db := if current =? 1 then rc_pexpire now key ms db else db in
  (db, if current >? limit then 0 else 1).

(** [Allow] on the way [f] of the call. *)
Definition Allow (l : RedisLimiterConfig) (f : fate) (now : Z) (key : string) (db : DB) : DB * result bool :=
  if decide (key = "") then (db, Err (Errorf "ratelimit: empty key" []))
  else
    let '(db', n) := luaRedisFixedWindow now (Prefix l +:+ key) (Milliseconds (Window l)) (Requests l) db in
    match f with
    | NotSent => (db, Err (ErrorfW "ratelimit: redis eval: %w" [] errConn))
    | AnswerLost => (db', Err (ErrorfW "ratelimit: redis eval: %w" [] errConn))
    | Answered => (db', Ok (n =? 1))
    end.

(** The calls of all instances in the order the server runs them. *)
Fixpoint run (l : RedisLimiterConfig) (ops : list (string * Z * fate)) (db : DB) : list (result bool) :=
  match ops with
  | [] => []
  | (key, now, f) :: ops => let '(db, r) := Allow l f now key db in r :: run l ops db
  end.

End Limiter.

(** ** The reference: a window per key *)

(** The end of the window and the calls counted in it. *)
Notation windows := (gmap string (Z * Z)).

Definition count_call (w : Z) (key : string) (now : Z) (m : windows) : windows * Z :=
  let '(e, c) := match m !! key with
                 | Some (e, c) => if now <? e then (e, c + 1) else (now + w, 1)
                 | None => (now + w, 1)
                 end in
  (<[key := (e, c)]> m, c).

Fixpoint ref_run (limit w : Z) (ops : list (string * Z * fate)) (m : windows) : list (result bool) :=
  match ops with
  | [] => []
  | (key, now, f) :: ops =>
      if decide (key = "") then Err (Errorf "ratelimit: empty key" []) :: ref_run limit w ops m
      else
        let '(m', c) := count_call w key now m in
        match f with
        | NotSent => Err (ErrorfW "ratelimit: redis eval: %w" [] errConn) :: ref_run limit w ops m
        | AnswerLost => Err (ErrorfW "ratelimit: redis eval: %w" [] errConn) :: ref_run limit w ops m'
        | Answered => Ok (c <=? limit) :: ref_run limit w ops m'
        end
  end.

Section Refinement.
Context {DB : Type} `{!RedisCounters DB} `{!RedisCounterLaws DB} (l : RedisLimiterConfig).

Definition life : Z := Milliseconds (Window l) * GoTime.Millisecond.

(** From time [t] on, the database answers as the windows. *)
Definition sim (t : Z) (m : windows) (db : DB) : Prop :=
  ∀ k u, t <= u → rc_get u (Prefix l +:+ k) db =
    match m !! k with Some (e, c) => if u <? e then Some c else None | None => None end.

(** Counts are positive, so that only a new counter answers one. *)
Definition counts_pos (m : windows) : Prop := map_Forall (λ _ p, 0 < p.2) m.

Lemma sim_later t t' m db : sim t m db → t <= t' → sim t' m db.
Proof. intros H Ht k u Hu. apply H. lia. Qed.

Lemma prefix_inj p k k' : p +:+ k' = p +:+ k → k' = k.
Proof.
  induction p as [|c p IH]; [done|]. change (String.String c (p +:+ k') = String.String c (p +:+ k) → k' = k).
  intros [= H]. by apply IH.
Qed.

(** The script counts the call. *)
Lemma script_counts t now key m db :
  sim t m db → counts_pos m → t <= now → 0 < life →
  let '(db', n) := luaRedisFixedWindow now (Prefix l +:+ key) (Milliseconds (Window l)) (Requests l) db in
  let '(m', c) := count_call life key now m in
  n = (if c <=? Requests l then 1 else 0) ∧ sim now m' db' ∧ counts_pos m'.
Proof.
  intros Hs Hp Ht Hl. pose proof (sim_later t now m db Hs Ht) as Hs'. pose proof (Hs' key now ltac:(lia)) as Hg.
  unfold luaRedisFixedWindow, count_call. set (pk := Prefix l +:+ key) in *.
  assert (Hother : ∀ k, k ≠ key → Prefix l +:+ k ≠ pk) by (intros k Hk E; by apply Hk, (prefix_inj (Prefix l))).
  assert (Hfresh : rc_get now pk db = None →
    let '(db', n) := (let '(db, current) := rc_incr now pk db in
      (if current =? 1 then rc_pexpire now pk (Milliseconds (Window l)) db else db, if current >? Requests l then 0 else 1)) in
    n = (if 1 <=? Requests l then 1 else 0) ∧ sim now (<[key := (now + life, 1)]> m) db').
  { intros Hn. destruct (incr_new now pk db Hn) as [H1 H2]. destruct (rc_incr now pk db) as [db1 cur]. simpl in *. subst cur.
    simpl. split; [destruct (1 >? Requests l) eqn:E1, (1 <=? Requests l) eqn:E2; lia|].
    assert (Hn1 : rc_get now pk db1 = Some 1) by (rewrite H2 by lia; by rewrite decide_True).
    intros k u Hu. rewrite (cpexpire_spec now pk _ db1 1 Hn1) by done. unfold life. destruct (decide (k = key)) as [->|Hk].
    - rewrite decide_True by done. by rewrite lookup_insert_eq.
    - rewrite decide_False by (by apply Hother). rewrite lookup_insert_ne by done. rewrite H2 by done.
      rewrite decide_False by (by apply Hother). by apply Hs'. }
  destruct (m !! key) as [[e c]|] eqn:Hm.
  - destruct (now <? e) eqn:He.
    + destruct (incr_old now pk db c Hg) as [H1 H2]. destruct (rc_incr now pk db) as [db1 cur]. simpl in H1, H2. subst cur.
      assert (Hc : 0 < c) by (exact (Hp key (e, c) Hm)). replace (c + 1 =? 1) with false by lia.
      split; [destruct (c + 1 >? Requests l) eqn:E1, (c + 1 <=? Requests l) eqn:E2; lia|]. split.
      * intros k u Hu. rewrite H2 by done. destruct (decide (k = key)) as [->|Hk].
        -- rewrite decide_True by done. rewrite lookup_insert_eq. pose proof (Hs' key u Hu) as Hgu. rewrite Hm in Hgu.
           fold pk in Hgu. rewrite Hgu. by destruct (u <? e).
        -- rewrite decide_False by (by apply Hother). rewrite lookup_insert_ne by done. by apply Hs'.
      * apply map_Forall_insert_2; [simpl; lia|done].
    + specialize (Hfresh Hg). destruct (rc_incr now pk db) as [db1 cur]. destruct Hfresh as [-> Hsim].
      split; [done|]. split; [done|]. by apply map_Forall_insert_2.
  - specialize (Hfresh Hg). destruct (rc_incr now pk db) as [db1 cur]. destruct Hfresh as [-> Hsim].
    split; [done|]. split; [done|]. by apply map_Forall_insert_2.
Qed.

Lemma run_ref ops t m db :
  sim t m db → counts_pos m → increasing t (ops.*1).*2 → 0 < life → run l ops db = ref_run (Requests l) life ops m.
Proof.
  revert t m db. induction ops as [|[[key now] f] ops IH]; intros t m db Hs Hp Hinc Hl; [done|].
  simpl in Hinc. destruct Hinc as [Ht Hinc]. simpl. unfold Allow.
  pose proof (sim_later t now m db Hs Ht) as Hs'.
  destruct (decide (key = "")) as [_|_]; [f_equal; by apply (IH now)|].
  pose proof (script_counts t now key m db Hs Hp Ht Hl) as Hc.
  destruct (luaRedisFixedWindow now _ _ _ db) as [db' n]. destruct (count_call life key now m) as [m' c].
  destruct Hc as (-> & Hsim & Hp'). destruct f; f_equal; try (by apply (IH now)).
  by destruct (c <=? Requests l).
Qed.

(** C23: the limiters of any number of instances that share a Redis answer as one counter
    per key, whose window opens at the first call and lasts for the configured time: a
    call is allowed exactly when it is among the first of its window, and calls of other
    keys, of other instances and lost calls change nothing else. *)
Theorem redis_limiter_refines (cfg : RedisLimiterConfig) (ops : list (string * Z * fate)) (t : Z) (db : DB)
    (Hnew : NewRedisLimiter cfg = Ok l) (Hw : GoTime.Millisecond <= Window cfg)
    (Hempty : ∀ k u, t <= u → rc_get u (Prefix l +:+ k) db = None) (Hinc : increasing t (ops.*1).*2) :
  run l ops db = ref_run (Requests l) (Milliseconds (Window l) * GoTime.Millisecond) ops ∅.
Proof.
  assert (Hl : 0 < life).
  { unfold NewRedisLimiter in Hnew. destruct (_ <=? 0); [done|]. destruct (_ <=? 0); [done|]. injection Hnew as Hnew.
    assert (HW : Window l = Window cfg) by (by rewrite <-Hnew). unfold life, Milliseconds, GoTime.Millisecond in *. rewrite HW.
    pose proof (Z.quot_le_mono 1000000 (Window cfg) 1000000 ltac:(lia) Hw) as Hq. rewrite Z.quot_same in Hq by lia.
    apply Z.mul_pos_pos; lia. }
  apply (run_ref ops t); [|apply map_Forall_empty|done|done].
  intros k u Hu. rewrite lookup_empty. by apply Hempty.
Qed.

End Refinement.

(** ** The bound *)

(** Calls of [key] in the interval from [a] to [b] that were allowed. *)
Fixpoint allowed (key : string) (a b : Z) (ops : list (string * Z * fate)) (rs : list (result bool)) : Z :=
  match ops, rs with
  | (k, now, _) :: ops, r :: rs =>
      (if decide (k = key) then
         if (a <=? now) && (now <? b) then match r with Ok true => 1 | _ => 0 end else 0
       else 0) + allowed key a b ops rs
  | _, _ => 0
  end.

(** What can still be allowed before [a + w], when the time is [t]. *)
Definition budget (limit w : Z) (key : string) (a t : Z) (m : windows) : Z :=
  if t >=? a + w then 0
  else match m !! key with
  | Some (e, c) =>
      if t <? e then if e >=? a + w then Z.max 0 (limit - c) else Z.max 0 (limit - c) + limit else limit
  | None => limit
  end.

Lemma count_other w k now m key : k ≠ key → (count_call w k now m).1 !! key = m !! key.
Proof. intros Hk. unfold count_call. destruct (match m !! k with Some _ => _ | None => _ end). by apply lookup_insert_ne. Qed.

(** A call of the key uses a unit of the budget when it is allowed. *)
Lemma budget_step limit w key a t now m :
  0 < limit → 0 < w → a <= t → t <= now →
  (if now <? a + w then if (count_call w key now m).2 <=? limit then 1 else 0 else 0)
    + budget limit w key a now (count_call w key now m).1 <= budget limit w key a t m.
Proof.
  intros Hlim Hw Ha Ht. unfold budget, count_call. destruct (m !! key) as [[e c]|].
  - destruct (now <? e) eqn:He; cbn [fst snd]; rewrite lookup_insert_eq.
    + rewrite He. replace (t <? e) with true by lia.
      destruct (t >=? a + w) eqn:E4, (now >=? a + w) eqn:E5, (e >=? a + w) eqn:E1, (c + 1 <=? limit) eqn:E2,
        (now <? a + w) eqn:E3; lia.
    + replace (now <? now + w) with true by lia. replace (now + w >=? a + w) with true by lia.
      destruct (t >=? a + w) eqn:E4, (now >=? a + w) eqn:E5, (t <? e) eqn:E0, (e >=? a + w) eqn:E1,
        (1 <=? limit) eqn:E2, (now <? a + w) eqn:E3; lia.
  - cbn [fst snd]. rewrite lookup_insert_eq. replace (now <? now + w) with true by lia.
    replace (now + w >=? a + w) with true by lia. destruct (t >=? a + w) eqn:E4, (now >=? a + w) eqn:E5, (1 <=? limit) eqn:E2,
      (now <? a + w) eqn:E3; lia.
Qed.

Lemma budget_later limit w key a t now m :
  0 < limit → a <= t → t <= now → budget limit w key a now m <= budget limit w key a t m.
Proof.
  intros Hlim Ha Ht. unfold budget. destruct (m !! key) as [[e c]|];
    destruct (t >=? a + w) eqn:E4, (now >=? a + w) eqn:E5; try lia.
  all: destruct (now <? e) eqn:E1, (t <? e) eqn:E2, (e >=? a + w) eqn:E3; lia.
Qed.

Lemma allowed_budget limit w key a ops t m :
  0 < limit → 0 < w → a <= t → increasing t (ops.*1).*2 →
  allowed key a (a + w) ops (ref_run limit w ops m) <= budget limit w key a t m.
Proof.
  intros Hlim Hw. revert t m. induction ops as [|[[k now] f] ops IH]; intros t m Ha Hinc.
  { simpl. unfold budget. destruct (m !! key) as [[e c]|]; repeat case_match; lia. }
  simpl in Hinc. destruct Hinc as [Ht Hinc]. pose proof (budget_later limit w key a t now m Hlim Ha Ht) as Hlat.
  pose proof (IH now m ltac:(lia) Hinc) as Hm. cbn [ref_run].
  destruct (decide (k = "")) as [_|_].
  { cbn [allowed]. destruct (decide (k = key)); [destruct (_ && _)|]; lia. }
  pose proof (budget_step limit w k a t now m Hlim Hw Ha Ht) as Hst.
  assert (Hoth : k ≠ key → budget limit w key a now (count_call w k now m).1 = budget limit w key a now m).
  { intros Hk. unfold budget. by rewrite count_other. }
  destruct (count_call w k now m) as [m' c]. cbn [fst snd] in Hst, Hoth. pose proof (IH now m' ltac:(lia) Hinc) as Hm'.
  destruct (decide (k = key)) as [->|Hk].
  - destruct f; cbn [allowed]; rewrite decide_True by done; replace (a <=? now) with true by lia; simpl;
      destruct (now <? a + w), (c <=? limit); lia.
  - specialize (Hoth Hk). destruct f; cbn [allowed]; rewrite decide_False by done; lia.
Qed.

Lemma budget_max limit w key a t m : 0 < limit → counts_pos m → budget limit w key a t m <= 2 * limit.
Proof.
  intros Hlim Hp. unfold budget. destruct (m !! key) as [[e c]|] eqn:Hm; [|destruct (_ >=? _); lia].
  pose proof (Hp key (e, c) Hm) as Hc. simpl in Hc. repeat case_match; lia.
Qed.

Lemma count_pos w key now m : counts_pos m → counts_pos (count_call w key now m).1.
Proof.
  intros Hp. unfold count_call. destruct (m !! key) as [[e c]|] eqn:Hm.
  - pose proof (Hp key (e, c) Hm) as Hc. simpl in Hc.
    destruct (now <? e); cbn [fst]; apply map_Forall_insert_2; simpl; (lia || done).
  - by apply map_Forall_insert_2.
Qed.

Lemma allowed_max limit w key a ops t m :
  0 < limit → 0 < w → counts_pos m → increasing t (ops.*1).*2 →
  allowed key a (a + w) ops (ref_run limit w ops m) <= 2 * limit.
Proof.
  intros Hlim Hw. revert t m. induction ops as [|[[k now] f] ops IH]; intros t m Hp Hinc; [simpl; lia|].
  destruct (decide (a <= now)) as [Ha|Ha].
  - etrans; [|by apply (budget_max limit w key a now m)]. apply allowed_budget; [done..|]. simpl in Hinc |- *. by destruct Hinc.
  - simpl in Hinc. destruct Hinc as [Ht Hinc]. pose proof (IH now m Hp Hinc) as Hm.
    pose proof (IH now _ (count_pos w k now m Hp) Hinc) as Hm'. cbn [ref_run].
    destruct (decide (k = "")) as [_|_]; [|destruct (count_call w k now m) as [m' c]; cbn [fst] in Hm'; destruct f];
      cbn [allowed]; replace (a <=? now) with false by lia; simpl; destruct (decide (k = key)); lia.
Qed.

(** Whatever the instances do, no key is allowed more than twice the limit in any
    interval as long as the window, and no more than the limit itself in the window that
    its first call opens. *)
Theorem redis_limiter_bound {DB} `{!RedisCounters DB} `{!RedisCounterLaws DB} (cfg l : RedisLimiterConfig)
    (ops : list (string * Z * fate)) (t : Z) (db : DB) (key : string) (a : Z)
    (Hnew : NewRedisLimiter cfg = Ok l) (Hw : GoTime.Millisecond <= Window cfg)
    (Hempty : ∀ k u, t <= u → rc_get u (Prefix l +:+ k) db = None) (Hinc : increasing t (ops.*1).*2) :
  allowed key a (a + life l) ops (run l ops db) <= 2 * Requests l ∧
  ∀ t0 ops', ops = (key, t0, Answered) :: ops' → key ≠ "" →
    allowed key t0 (t0 + life l) ops (run l ops db) <= Requests l.
Proof.
  assert (HR : 0 < Requests l ∧ 0 < life l).
  { unfold NewRedisLimiter in Hnew. destruct (Requests cfg <=? 0) eqn:E1; [done|].
    destruct (Window cfg <=? 0) eqn:E2; [done|]. injection Hnew as <-. unfold life, Milliseconds, GoTime.Millisecond in *.
    cbn [Requests Window]. split; [lia|].
    pose proof (Z.quot_le_mono 1000000 (Window cfg) 1000000 ltac:(lia) Hw) as Hq. rewrite Z.quot_same in Hq by lia.
    apply Z.mul_pos_pos; lia. }
  destruct HR as [HR Hl].
  assert (Href : run l ops db = ref_run (Requests l) (life l) ops ∅).
  { apply (run_ref l ops t); [|apply map_Forall_empty|done|done]. intros k u Hu. rewrite lookup_empty. by apply Hempty. }
  rewrite Href. split; [by apply (allowed_max _ _ _ _ _ t); [done..|apply map_Forall_empty|done]|].
  intros t0 ops' -> Hk. etrans; [apply (allowed_budget _ _ _ _ _ t0 ∅); [done..|]|].
  - simpl in Hinc |- *. by destruct Hinc.
  - unfold budget. rewrite lookup_empty. destruct (_ >=? _); lia.
Qed.

(** ** Examples *)

Definition per_second : RedisLimiterConfig := MkConfig 2 GoTime.Second "".
Definition per_second_l : RedisLimiterConfig := MkConfig 2 GoTime.Second "ratelimit:".

Definition calls : list (string * Z * fate) :=
  [("u1", 0, Answered); ("u1", 10, AnswerLost); ("u2", 20, Answered); ("u1", 30, Answered); ("u1", GoTime.Second, Answered)].

Lemma redis_limiter_refines_witness :
  NewRedisLimiter per_second = Ok per_second_l ∧
  run per_second_l calls (∅ : cdb) = ref_run 2 GoTime.Second calls ∅ ∧
  map (λ r, match r with Ok b => b | Err _ => false end) (run per_second_l calls (∅ : cdb)) = [true; false; true; false; true].
Proof.
  split; [reflexivity|]. split; [|vm_compute; reflexivity].
  apply (redis_limiter_refines per_second_l per_second calls 0 (∅ : cdb)); [reflexivity|vm_compute; discriminate|reflexivity|].
  vm_compute. repeat split; discriminate.
Defined.

Lemma redis_limiter_bound_witness :
  NewRedisLimiter per_second = Ok per_second_l ∧
  allowed "u1" 0 (0 + life per_second_l) calls (run per_second_l calls (∅ : cdb)) <= 2 * 2.
Proof.
  split; [reflexivity|].
  apply (redis_limiter_bound per_second per_second_l calls 0 (∅ : cdb) "u1" 0);
    [reflexivity|vm_compute; discriminate|reflexivity|].
  vm_compute. repeat split; discriminate.
Defined.

(** A window below a millisecond is accepted and never limits: the script deletes the
    counter it has just made. *)
Example window_below_millisecond :
  NewRedisLimiter (MkConfig 1 999999 "p:") = Ok (MkConfig 1 999999 "p:") ∧
  run (MkConfig 1 999999 "p:") [("u", 0, Answered); ("u", 0, Answered); ("u", 1, Answered)] (∅ : cdb) = [Ok true; Ok true; Ok true].
Proof. split; reflexivity. Qed.
