(* ===== verification/Upload.v ===== *)
(** * plugins/upload: validated file uploads

    config.go, namer.go, validator.go and upload.go over a file system whose paths are
    lists of components ([GoPath]).  The working directory, the clock and the random
    names are arguments, as are [http.DetectContentType] and the failures of the
    operating system.  Logging and the HTTP writer of a download are left out. *)

From Stdlib Require Import Ascii.
From stdpp Require Import pretty.
From S2P Require Import Prelude GoString GoPath.
Import GoError.

Open Scope Z_scope.

(** ** Configuration *)

Record Config := MkConfig {
  UploadDir : string;
  MaxFileSize : Z;
  AllowedExtensions : list string;
  AllowedMimeTypes : list string;
  NamingStrategy : string;
  CustomNameTemplate : string;
  PreserveExtension : bool;
  AutoCreateDir : bool;
  EnableOverwrite : bool
}.

Definition DefaultConfig : Config :=
  MkConfig "./uploads" (10 * 1024 * 1024)
    [".jpg"; ".jpeg"; ".png"; ".gif"; ".pdf"; ".doc"; ".docx"; ".xls"; ".xlsx"]
    ["image/jpeg"; "image/png"; "image/gif"; "application/pdf"; "application/msword";
     "application/vnd.openxmlformats-officedocument.wordprocessingml.document"; "application/vnd.ms-excel";
     "application/vnd.openxmlformats-officedocument.spreadsheetml.sheet"]
    "uuid" "" true true false.

(** ** Names *)

(** What the clock and the generator of identifiers answer. *)
Record draws := MkDraws {
  uuid : string;
  stamp : string;     (** [time.Now().Format("20060102150405")] *)
  date : string;
  nano : Z
}.

(** [strings.ReplaceAll] of a text that is not empty; [skip] bytes of an occurrence
    are left. *)
Fixpoint replace_all (old new : string) (skip : nat) (s : string) : string :=
  match s with
  | String.EmptyString => ""
  | String.String c s' =>
      match skip with
      | S skip => replace_all old new skip s'
      | O =>
          if HasPrefix s old then new +:+ replace_all old new (pred (String.length old)) s'
          else String.String c (replace_all old new 0 s')
      end
  end.

Definition ReplaceAll (s old new : string) : string := replace_all old new 0 s.

Inductive Namer :=
| UUIDNamer (preserveExtension : bool)
| TimestampNamer (preserveExtension : bool)
| OriginalNamer
| CustomNamer (template : string) (preserveExtension : bool).

Definition GetNamer (strategy customTemplate : string) (preserveExtension : bool) : Namer :=
  if decide (strategy = "uuid") then UUIDNamer preserveExtension
  else if decide (strategy = "timestamp") then TimestampNamer preserveExtension
  else if decide (strategy = "original") then OriginalNamer
  else if decide (strategy = "custom") then CustomNamer customTemplate preserveExtension
  else UUIDNamer preserveExtension.

Definition kept_ext (preserve : bool) (originalName : string) : string := if preserve then Ext originalName else "".

Definition Generate (n : Namer) (d : draws) (originalName : string) : string :=
  match n with
  | UUIDNamer p => uuid d +:+ kept_ext p originalName
  | TimestampNamer p => stamp d +:+ kept_ext p originalName
  | OriginalNamer => originalName
  | CustomNamer template p =>
      let nameWithoutExt := TrimSuffix originalName (Ext originalName) in
      let r := ReplaceAll template "{uuid}" (uuid d) in
      let r := ReplaceAll r "{timestamp}" (stamp d) in
      let r := ReplaceAll r "{date}" (date d) in
      let r := ReplaceAll r "{original}" nameWithoutExt in
      let r := ReplaceAll r "{random}" (pretty (nano d)) in
      r +:+ kept_ext p originalName
  end.

(** ** Validation *)

(** A part of a multipart form. *)
Record FileHeader := MkFileHeader {
  Filename : string;
  Size : Z;
  content : string;
  opens : bool          (** [Open] succeeds *)
}.

Definition invalid (field message : string) : error := Errorf field [message].

Definition lower (s : string) : list Z := to_lower (runes s).

Section Validator.
(** [http.DetectContentType]. *)
Context (DetectContentType : string → string).

Definition IsAllowedExtension (cfg : Config) (filename : string) : bool :=
  match AllowedExtensions cfg with
  | [] => true
  | exts => existsb (λ e, bool_decide (lower e = lower (Ext filename))) exts
  end.

Definition mime_matches (mimeType allowedMime : string) : bool :=
  HasPrefix mimeType (match Split "/" allowedMime with major :: _ => major | [] => "" end +:+ "/")
  || bool_decide (mimeType = allowedMime).

Definition IsAllowedMimeType (cfg : Config) (mimeType : string) : bool :=
  match AllowedMimeTypes cfg with
  | [] => true
  | types => existsb (mime_matches mimeType) types
  end.

(** The first 512 bytes of a file in a buffer of that size, padded with zeros. *)
Fixpoint buffer512 (n : nat) (s : string) : string :=
  match n with
  | O => ""
  | S n =>
      match s with
      | String.String c s => String.String c (buffer512 n s)
      | String.EmptyString => String.String zero (buffer512 n "")
      end
  end.

Definition Validate (cfg : Config) (h : FileHeader) : option error :=
  if Size h >? MaxFileSize cfg then Some (invalid "file_size" (Filename h))
  else if negb (IsAllowedExtension cfg (Filename h)) then Some (invalid "file_extension" (Filename h))
  else
    match AllowedMimeTypes cfg with
    | [] => None
    | types =>
        if negb (opens h) then Some (invalid "file_open" (Filename h))
        else
          let mimeType := DetectContentType (buffer512 512 (content h)) in
          if existsb (mime_matches mimeType) types then None else Some (invalid "file_mime_type" mimeType)
    end.

Definition ValidateMultiple (cfg : Config) (hs : list FileHeader) : list error := omap (Validate cfg) hs.

(** ** Files *)

Inductive node := File (data : string) | Dir.

#[export] Instance node_eq_dec : EqDecision node.
Proof. solve_decision. Defined.

Abbreviation FS := (gmap (list string) node).

Definition is_dir (fs : FS) (cs : list string) : bool :=
  bool_decide (cs = []) || bool_decide (fs !! cs = Some Dir).

Definition exists_at (fs : FS) (cs : list string) : bool := bool_decide (cs = []) || bool_decide (is_Some (fs !! cs)).

(** [os.MkdirAll]. *)
Fixpoint mkdir_all (pre rest : list string) (fs : FS) : FS * option error :=
  match rest with
  | [] => (fs, None)
  | c :: rest =>
      let p := (pre ++ [c])%list in
      match fs !! p with
      | Some (File _) => (fs, Some (Errorf "not a directory" []))
      | Some Dir => mkdir_all p rest fs
      | None => mkdir_all p rest (<[p := Dir]> fs)
      end
  end.

(** [os.OpenFile] for writing, with [O_EXCL] or [O_TRUNC]: the path must not be a
    directory and its parent must be one. *)
Definition open_write (excl : bool) (p : list string) (fs : FS) : FS * option error :=
  match fs !! p with
  | Some Dir => (fs, Some (Errorf "is a directory" []))
  | Some (File _) => if excl then (fs, Some (Errorf "file exists" [])) else (<[p := File ""]> fs, None)
  | None =>
      if bool_decide (p = []) then (fs, Some (Errorf "is a directory" []))
      else if is_dir fs (removelast p) then (<[p := File ""]> fs, None) else (fs, Some (Errorf "no such directory" []))
  end.

(** [os.Remove]: a directory must be empty. *)
Definition remove (p : list string) (fs : FS) : FS * option error :=
  match fs !! p with
  | None => (fs, Some (Errorf "no such file" []))
  | Some (File _) => (delete p fs, None)
  | Some Dir =>
      if existsb (λ q, bool_decide (length p < length q)%nat && bool_decide (take (length p) q = p)) (fst <$> map_to_list fs)
      then (fs, Some (Errorf "directory not empty" [])) else (delete p fs, None)
  end.

Section Uploader.
Context (cfg : Config) (cwd : string).

Definition backslash : string := String.String "\"%char "".

Definition invalid_name (filename : string) : error := Errorf "invalid filename: %s" [filename].

Definition resolveSafeFilePath (filename : string) : result string :=
  let clean := TrimSpace filename in
  if decide (clean = "") then Err (Errorf "filename is required" [])
  else if Contains clean backslash then Err (invalid_name filename)
  else
    let normalized := Clean clean in
    if decide (normalized = "." ∨ normalized = "..") then Err (invalid_name filename)
    else if HasPrefix normalized "../" || Contains normalized "/../" then Err (invalid_name filename)
    else
      let baseDir := Abs cwd (UploadDir cfg) in
      let fullPathAbs := Abs cwd (path_Join baseDir normalized) in
      let rel := Rel baseDir fullPathAbs in
      if bool_decide (rel = "..") || HasPrefix rel "../" then Err (invalid_name filename) else Ok fullPathAbs.

Record UploadResult := MkResult {
  SavedFilename : string;
  FilePath : string;
  MimeType : string;
  Success : bool;
  Error : option error
}.

Definition failed (err : error) : UploadResult := MkResult "" "" "" false (Some err).

(** The directory is made when the configuration says so. *)
Definition make_dir (fs : FS) : FS * option error :=
  if AutoCreateDir cfg then
    match mkdir_all [] (components (Abs cwd (UploadDir cfg))) fs with
    | (fs, Some err) => (fs, Some (ErrorfW "failed to create upload directory: %w" [] err))
    | r => r
    end
  else (fs, None).

Definition namer : Namer := GetNamer (NamingStrategy cfg) (CustomNameTemplate cfg) (PreserveExtension cfg).

(** [Upload]; the copy writes the whole content, or [Some n] bytes before it fails. *)
Definition Upload (d : draws) (copy : option nat) (h : FileHeader) (fs : FS) : FS * UploadResult :=
  match Validate cfg h with
  | Some err => (fs, failed err)
  | None =>
      let newFilename := Generate namer d (Filename h) in
      match make_dir fs with
      | (fs, Some err) => (fs, failed err)
      | (fs, None) =>
          match resolveSafeFilePath newFilename with
          | Err err => (fs, failed err)
          | Ok filePath =>
              let p := components filePath in
              if negb (EnableOverwrite cfg) && exists_at fs p then (fs, failed (Errorf "file already exists: %s" [filePath]))
              else if negb (opens h) then (fs, failed (Errorf "failed to open uploaded file: %w" []))
              else
                match open_write (negb (EnableOverwrite cfg)) p fs with
                | (fs, Some err) => (fs, failed (ErrorfW "failed to create destination file: %w" [] err))
                | (fs, None) =>
                    match copy with
                    | Some n => (<[p := File (String.substring 0 n (content h))]> fs, failed (Errorf "failed to copy file content: %w" []))
                    | None =>
                        (<[p := File (content h)]> fs,
                         MkResult newFilename (path_Join (UploadDir cfg) newFilename)
                           (if bool_decide (content h = "") then "" else DetectContentType (buffer512 512 (content h))) true None)
                    end
                end
          end
      end
  end.

Fixpoint UploadMultiple (ds : list draws) (hs : list FileHeader) (fs : FS) : FS * list UploadResult :=
  match hs, ds with
  | h :: hs, d :: ds =>
      let '(fs, r) := Upload d None h fs in
      let '(fs, rs) := UploadMultiple ds hs fs in (fs, r :: rs)
  | _, _ => (fs, [])
  end.

Definition UploadFromBytes (d : draws) (filename data : string) (fs : FS) : FS * UploadResult :=
  let mimeType := DetectContentType data in
  if Z.of_nat (String.length data) >? MaxFileSize cfg then (fs, failed (invalid "file_size" filename))
  else if negb (IsAllowedExtension cfg filename) then (fs, failed (invalid "file_extension" filename))
  else if negb (IsAllowedMimeType cfg mimeType) then (fs, failed (invalid "file_mime_type" mimeType))
  else
    let newFilename := Generate namer d filename in
    match make_dir fs with
    | (fs, Some err) => (fs, failed err)
    | (fs, None) =>
        match resolveSafeFilePath newFilename with
        | Err err => (fs, failed err)
        | Ok filePath =>
            let p := components filePath in
            if negb (EnableOverwrite cfg) && exists_at fs p then (fs, failed (Errorf "file already exists: %s" [filePath]))
            else
              match open_write false p fs with
              | (fs, Some err) => (fs, failed (ErrorfW "failed to write file: %w" [] err))
              | (fs, None) =>
                  (<[p := File data]> fs, MkResult newFilename (path_Join (UploadDir cfg) newFilename) mimeType true None)
              end
        end
    end.

Definition Delete (filename : string) (fs : FS) : FS * option error :=
  match resolveSafeFilePath filename with
  | Err err => (fs, Some err)
  | Ok filePath => remove (components filePath) fs
  end.

Definition Exists (filename : string) (fs : FS) : bool :=
  match resolveSafeFilePath filename with
  | Err _ => false
  | Ok filePath => exists_at fs (components filePath)
  end.

(** [ServeFile]: the content type and the content that are sent. *)
Definition ServeFile (TypeByExtension : string → string) (filename : string) (fs : FS) : result (string * string) :=
  match resolveSafeFilePath filename with
  | Err err => Err err
  | Ok filePath =>
      match fs !! components filePath with
      | Some (File data) =>
          let contentType := DetectContentType (String.substring 0 512 data) in
          let ext := TypeByExtension (Ext filename) in
          Ok (if bool_decide (contentType = "application/octet-stream") && negb (bool_decide (ext = "")) then ext else contentType,
              data)
      | Some Dir => Err (Errorf "failed to seek or stream a directory" [])
      | None => Err (Errorf "file not found: %s" [filename])
      end
  end.

(** The names of the files with their sizes, in the order of [os.ReadDir]. *)
Definition by_name (x y : string * Z) : Prop := String.leb x.1 y.1 = true.

#[local] Instance by_name_dec x y : Decision (by_name x y).
Proof. unfold by_name. apply _. Defined.

Definition entry (dir q : list string) (n : node) : option (string * Z) :=
  match n with
  | File data =>
      if bool_decide (removelast q = dir ∧ q ≠ []) then
        match last q with Some name => Some (name, Z.of_nat (String.length data)) | None => None end
      else None
  | Dir => None
  end.

Definition ListFiles (fs : FS) : result (list (string * Z)) :=
  let dir := components (Abs cwd (UploadDir cfg)) in
  if is_dir fs dir then Ok (merge_sort by_name (omap (λ '(q, n), entry dir q n) (map_to_list fs)))
  else Err (Errorf "failed to read upload directory: %w" []).

(** ** Where the files are *)

Context (Hcwd : HasPrefix cwd "/" = true).

Lemma Abs_rooted p : ∃ bs, Forall comp_ok bs ∧ Abs cwd p = abs bs.
Proof.
  unfold Abs. destruct (HasPrefix p "/") eqn:Hp; [by apply Clean_rooted|].
  unfold path_Join. rewrite bool_decide_eq_false_2 by (intros E; by rewrite E in Hcwd).
  apply Clean_rooted. apply HasPrefix_spec in Hcwd as [s ->]. apply HasPrefix_spec.
  exists (s +:+ "/" +:+ p). by rewrite !(assoc String.append).
Qed.

Lemma Join_no_up cs : Forall comp_ok cs → GoString.Join "/" cs ≠ ".." ∧ HasPrefix (GoString.Join "/" cs) "../" = false.
Proof.
  intros Hcs. destruct cs as [|c cs]; [done|]. apply Forall_cons in Hcs as [(_ & _ & Hc & Hs) _]. split.
  - destruct cs as [|c' cs]; [done|]. intros E. rewrite GoString.Join_cons in E by done.
    destruct c as [|x [|y c]]; [done|..].
    + change (String.String x ("/" +:+ GoString.Join "/" (c' :: cs)) = "..") in E. by injection E.
    + change (String.String x (String.String y (c +:+ "/" +:+ GoString.Join "/" (c' :: cs))) = "..") in E.
      injection E as _ _ E. by destruct c.
  - apply not_true_iff_false. intros [t Ht]%HasPrefix_spec.
    destruct cs as [|c' cs].
    + simpl in Ht. subst c. rewrite (proj2 (Contains_spec ("../" +:+ t) "/")) in Hs; [done|]. by exists "..", t.
    + rewrite GoString.Join_cons in Ht by done. apply Hc. destruct c as [|x [|y [|z c]]].
      * done.
      * change (String.String x ("/" +:+ GoString.Join "/" (c' :: cs)) = "../" +:+ t) in Ht. by injection Ht.
      * change (String.String x (String.String y ("/" +:+ GoString.Join "/" (c' :: cs))) = "../" +:+ t) in Ht.
        by injection Ht as -> ->.
      * change (String.String x (String.String y (String.String z (c +:+ "/" +:+ GoString.Join "/" (c' :: cs)))) = "../" +:+ t) in Ht.
        injection Ht as -> -> -> _. rewrite (proj2 (Contains_spec _ "/")) in Hs; [done|]. by exists "..", c.
Qed.

(** What [resolveSafeFilePath] makes of components. *)
Lemma resolve_inside bs cs normalized :
  Forall comp_ok bs → Forall comp_ok cs → Abs cwd (UploadDir cfg) = abs bs →
  normalized = abs cs ∨ (normalized = GoString.Join "/" cs ∧ cs ≠ []) →
  let full := Abs cwd (path_Join (Abs cwd (UploadDir cfg)) normalized) in
  full = abs (bs ++ cs) ∧
  bool_decide (Rel (Abs cwd (UploadDir cfg)) full = "..") || HasPrefix (Rel (Abs cwd (UploadDir cfg)) full) "../" = false.
Proof.
  intros Hbs Hcs Hb Hn. rewrite Hb, (Join_abs bs cs normalized) by done.
  assert (Hall : Forall comp_ok (bs ++ cs)) by (by apply Forall_app). unfold Abs. rewrite rooted_abs, Clean_abs by done.
  split; [done|]. rewrite Rel_inside by done. destruct (Join_no_up cs Hcs) as [H1 H2].
  destruct cs as [|c cs]; [done|]. apply orb_false_iff. split; [by apply bool_decide_eq_false_2|done].
Qed.

Lemma resolve_ok filename p bs :
  Forall comp_ok bs → Abs cwd (UploadDir cfg) = abs bs → resolveSafeFilePath filename = Ok p →
  ∃ cs, Forall comp_ok cs ∧ p = abs (bs ++ cs) ∧ (cs = [] → Clean (TrimSpace filename) = "/").
Proof.
  intros Hbs Hb. unfold resolveSafeFilePath. destruct (decide (TrimSpace filename = "")) as [_|Hne]; [done|].
  destruct (Contains _ backslash); [done|]. destruct (decide _) as [_|Hdot]; [done|].
  destruct (HasPrefix _ "../" || _) eqn:Hup; [done|]. apply orb_false_iff in Hup as [Hup _].
  assert (Hcs : ∃ cs, Forall comp_ok cs ∧
    (Clean (TrimSpace filename) = abs cs ∨ (Clean (TrimSpace filename) = GoString.Join "/" cs ∧ cs ≠ []))).
  { destruct (HasPrefix (TrimSpace filename) "/") eqn:Hr.
    - destruct (Clean_rooted _ Hr) as (cs & Hcs & E). exists cs. split; [done|by left].
    - destruct (Clean_relative _ Hr) as (n & cs & Hcs & E). exists cs. split; [done|]. right.
      destruct n as [|n].
      + simpl in E. destruct cs as [|c cs]; [exfalso; apply Hdot; by left|done].
      + simpl in E. exfalso. destruct (replicate n ".." ++ cs)%list as [|c r].
        * apply Hdot. by right.
        * rewrite E in Hup. change (HasPrefix (".." +:+ "/" +:+ GoString.Join "/" (c :: r)) "../" = false) in Hup.
          rewrite (proj2 (HasPrefix_spec _ "../")) in Hup; [done|]. by eexists. }
  destruct Hcs as (cs & Hcs & Hn). destruct (resolve_inside bs cs _ Hbs Hcs Hb Hn) as [Hfull Hrel].
  rewrite Hrel, Hfull. intros [= <-]. exists cs. split; [done|]. split; [done|].
  intros ->. destruct Hn as [->|[_ ?]]; done.
Qed.

(** A name that is a path of proper components is accepted. *)
Lemma Join_no_dots cs : Forall comp_ok cs → Contains (GoString.Join "/" cs) "/../" = false.
Proof.
  intros Hcs. apply not_true_iff_false. intros (pre & post & E)%Contains_spec.
  assert (Hs : Split "/" (GoString.Join "/" cs) = (Split "/" pre ++ ".." :: Split "/" post)%list).
  { rewrite E. change ("/../" +:+ post) with (String.String "/"%char (".." +:+ String.String "/"%char post)).
    by rewrite !Split_app_sep. }
  rewrite Split_join_comps in Hs by done. destruct cs as [|c cs].
  - assert (Hin : ".." ∈ [""]) by (rewrite Hs; apply elem_of_app; right; by left). by apply list_elem_of_singleton in Hin.
  - assert (Hin : ".." ∈ c :: cs) by (rewrite Hs; apply elem_of_app; right; by left).
    rewrite Forall_forall in Hcs. by destruct (Hcs _ Hin) as (_ & _ & ? & _).
Qed.

Lemma resolve_accepts filename bs cs :
  Forall comp_ok bs → Abs cwd (UploadDir cfg) = abs bs → Forall comp_ok cs → cs ≠ [] →
  TrimSpace filename = GoString.Join "/" cs → Contains (TrimSpace filename) backslash = false →
  resolveSafeFilePath filename = Ok (abs (bs ++ cs)).
Proof.
  intros Hbs Hb Hcs Hne Ht Hbk. unfold resolveSafeFilePath. rewrite Hbk, Ht.
  destruct cs as [|c cs]; [done|]. pose proof Hcs as [Hc _]%Forall_cons. pose proof Hc as (Hc1 & Hc2 & _ & Hc4).
  assert (Hj : GoString.Join "/" (c :: cs) ≠ "") by (by apply Join_nonempty).
  assert (Hr : HasPrefix (GoString.Join "/" (c :: cs)) "/" = false).
  { apply not_true_iff_false. intros [s Hs]%HasPrefix_spec. destruct c as [|x c]; [done|].
    assert (Hx : x = "/"%char) by (destruct cs; simpl in Hs; by injection Hs).
    subst x. rewrite (proj2 (Contains_spec _ "/")) in Hc4; [done|]. by exists "", c. }
  assert (Hcl : Clean (GoString.Join "/" (c :: cs)) = GoString.Join "/" (c :: cs)).
  { unfold Clean. rewrite bool_decide_eq_false_2, Hr, Split_join_comps, clean_fold_comps by done.
    rewrite app_nil_r, reverse_involutive. by rewrite bool_decide_eq_false_2. }
  rewrite Hcl, decide_False by done. destruct (Join_no_up (c :: cs) Hcs) as [Hup1 Hup2].
  rewrite decide_False.
  2:{ intros [E|E]; [|done]. destruct cs as [|c' cs]; [done|]. rewrite GoString.Join_cons in E by done.
      destruct c as [|x [|y c]]; [done| |]; change ("" +:+ ?s) with s in E.
      - change (String.String x ("/" +:+ GoString.Join "/" (c' :: cs)) = ".") in E. by injection E.
      - change (String.String x (String.String y (c +:+ "/" +:+ GoString.Join "/" (c' :: cs))) = ".") in E. by injection E. }
  rewrite Hup2, Join_no_dots by done. change (false || false) with false. cbv iota zeta.
  destruct (resolve_inside bs (c :: cs) _ Hbs Hcs Hb (or_intror (conj eq_refl Hne))) as [Hfull Hrel].
  rewrite Hrel, Hfull. done.
Qed.

(** ** What an upload changes *)

(** Nothing but directories that were missing. *)
Definition only_dirs (fs fs' : FS) : Prop := ∀ q, fs' !! q = fs !! q ∨ (fs !! q = None ∧ fs' !! q = Some Dir).

Lemma mkdir_only_dirs pre rest fs : only_dirs fs (mkdir_all pre rest fs).1.
Proof.
  revert pre fs. induction rest as [|c rest IH]; intros pre fs q; [by left|]. simpl.
  destruct (fs !! (pre ++ [c])%list) as [[data|]|] eqn:E; [by left|apply IH|].
  destruct (IH (pre ++ [c])%list (<[(pre ++ [c])%list := Dir]> fs) q) as [H|[H1 H2]].
  - destruct (decide (q = (pre ++ [c])%list)) as [->|Hne]; [right; by rewrite H, lookup_insert_eq|].
    left. by rewrite H, lookup_insert_ne.
  - destruct (decide (q = (pre ++ [c])%list)) as [->|Hne]; [by rewrite lookup_insert_eq in H1|].
    right. by rewrite lookup_insert_ne in H1.
Qed.

Lemma make_dir_only_dirs fs : only_dirs fs (make_dir fs).1.
Proof.
  unfold make_dir. destruct (AutoCreateDir cfg); [|by left].
  pose proof (mkdir_only_dirs [] (components (Abs cwd (UploadDir cfg))) fs) as H. by destruct (mkdir_all _ _ _) as [fs' [e|]].
Qed.

Lemma open_write_spec excl p fs fs' err :
  open_write excl p fs = (fs', err) →
  match err with
  | Some _ => fs' = fs
  | None => fs' = <[p := File ""]> fs ∧ p ≠ [] ∨ fs' = <[p := File ""]> fs ∧ is_Some (fs !! p)
  end ∧ (err = None → excl = true → fs !! p = None).
Proof.
  unfold open_write. destruct (fs !! p) as [[data|]|] eqn:E.
  - destruct excl; intros [= <- <-]; [done|]. split; [right; by split|done].
  - by intros [= <- <-].
  - destruct (bool_decide (p = [])) eqn:Ep; [by intros [= <- <-]|]. apply bool_decide_eq_false in Ep.
    destruct (is_dir fs (removelast p)); intros [= <- <-]; [|done]. split; [by left|done].
Qed.

(** The changes of an upload: directories, and one file at [p]. *)
Definition stores (p : list string) (data : string) (fs fs' : FS) : Prop :=
  ∃ fs1, only_dirs fs fs1 ∧ fs' = <[p := File data]> fs1 ∧ (EnableOverwrite cfg = false → fs1 !! p = None).

Lemma exists_at_none fs p : exists_at fs p = false → fs !! p = None.
Proof.
  unfold exists_at. intros [_ H%bool_decide_eq_false]%orb_false_iff. destruct (fs !! p); [|done]. by destruct H.
Qed.

Lemma Upload_stores d copy h fs bs :
  Forall comp_ok bs → Abs cwd (UploadDir cfg) = abs bs →
  let '(fs', r) := Upload d copy h fs in
  (only_dirs fs fs' ∧ Success r = false) ∨
  ∃ cs data, Forall comp_ok cs ∧ stores (bs ++ cs) data fs fs' ∧
    (Success r = true → copy = None ∧ data = content h ∧ Validate cfg h = None ∧
       SavedFilename r = Generate namer d (Filename h) ∧ resolveSafeFilePath (SavedFilename r) = Ok (abs (bs ++ cs))).
Proof.
  intros Hbs Hb. unfold Upload. destruct (Validate cfg h) as [e|] eqn:Hv; [left; split; [by left|done]|].
  pose proof (make_dir_only_dirs fs) as Hd. destruct (make_dir fs) as [fs1 [e|]]; [by left|]. simpl in Hd.
  destruct (resolveSafeFilePath _) as [filePath|e] eqn:Hr; [|by left].
  destruct (resolve_ok _ _ bs Hbs Hb Hr) as (cs & Hcs & -> & _).
  assert (Hall : Forall comp_ok (bs ++ cs)) by (by apply Forall_app). rewrite components_abs by done.
  destruct (negb (EnableOverwrite cfg) && exists_at fs1 (bs ++ cs)) eqn:Hex; [by left|].
  destruct (negb (opens h)); [by left|].
  destruct (open_write (negb (EnableOverwrite cfg)) (bs ++ cs) fs1) as [fs2 [e|]] eqn:Ho;
    apply open_write_spec in Ho as [Ho Hno]; [subst fs2; by left|].
  assert (Hfs2 : fs2 = <[(bs ++ cs)%list := File ""]> fs1) by (by destruct Ho as [[-> _]|[-> _]]).
  assert (Hst : ∀ data, stores (bs ++ cs) data fs (<[(bs ++ cs)%list := File data]> fs2)).
  { intros data. exists fs1. split; [done|]. split; [subst fs2; by rewrite insert_insert_eq|]. intros Hov. apply Hno; [done|by rewrite Hov]. }
  destruct copy as [n|]; right.
  - exists cs, (String.substring 0 n (content h)). split; [done|]. split; [apply Hst|done].
  - exists cs, (content h). split; [done|]. split; [apply Hst|done].
Qed.

Lemma FromBytes_stores d filename data fs bs :
  Forall comp_ok bs → Abs cwd (UploadDir cfg) = abs bs →
  let '(fs', r) := UploadFromBytes d filename data fs in
  (only_dirs fs fs' ∧ Success r = false) ∨
  ∃ cs, Forall comp_ok cs ∧ stores (bs ++ cs) data fs fs' ∧ Success r = true ∧
    Z.of_nat (String.length data) <= MaxFileSize cfg ∧ IsAllowedExtension cfg filename = true ∧
    resolveSafeFilePath (SavedFilename r) = Ok (abs (bs ++ cs)).
Proof.
  intros Hbs Hb. unfold UploadFromBytes. destruct (_ >? _) eqn:Hsz; [left; split; [by left|done]|].
  destruct (IsAllowedExtension cfg filename) eqn:Hext; [|left; split; [by left|done]].
  destruct (IsAllowedMimeType cfg _); [|left; split; [by left|done]]. simpl negb. cbv iota.
  pose proof (make_dir_only_dirs fs) as Hd. destruct (make_dir fs) as [fs1 [e|]]; [by left|]. simpl in Hd.
  destruct (resolveSafeFilePath _) as [filePath|e] eqn:Hr; [|by left].
  destruct (resolve_ok _ _ bs Hbs Hb Hr) as (cs & Hcs & -> & _).
  assert (Hall : Forall comp_ok (bs ++ cs)) by (by apply Forall_app). rewrite components_abs by done.
  destruct (negb (EnableOverwrite cfg) && exists_at fs1 (bs ++ cs)) eqn:Hex; [by left|].
  destruct (open_write false (bs ++ cs) fs1) as [fs2 [e|]] eqn:Ho;
    apply open_write_spec in Ho as [Ho _]; [subst fs2; by left|].
  assert (Hfs2 : fs2 = <[(bs ++ cs)%list := File ""]> fs1) by (by destruct Ho as [[-> _]|[-> _]]).
  right. exists cs. split; [done|]. split; [|split; [done|]; split; [lia|done]].
  exists fs1. split; [done|]. split; [subst fs2; by rewrite insert_insert_eq|].
  intros Hov. rewrite Hov in Hex. by apply exists_at_none.
Qed.

(** A change of that kind leaves the files alone. *)
Lemma stores_outside bs cs data fs fs' q :
  stores (bs ++ cs) data fs fs' → ¬ bs `prefix_of` q →
  fs' !! q = fs !! q ∨ (fs !! q = None ∧ fs' !! q = Some Dir).
Proof.
  intros (fs1 & Hd & -> & _) Hq. rewrite lookup_insert_ne; [apply Hd|]. intros <-. apply Hq. by exists cs.
Qed.

Lemma stores_keeps bs cs data fs fs' q old :
  stores (bs ++ cs) data fs fs' → EnableOverwrite cfg = false → fs !! q = Some (File old) → fs' !! q = Some (File old).
Proof.
  intros (fs1 & Hd & -> & Hno) Hov Hq. assert (H1 : fs1 !! q = Some (File old)) by (destruct (Hd q) as [->|[? _]]; congruence).
  rewrite lookup_insert_ne; [done|]. intros <-. rewrite Hno in H1 by done. done.
Qed.

(** C19: an upload, whatever the client calls its file, changes nothing outside the
    upload directory except that missing parents of it may be made, and without
    overwriting it changes no existing file; when it succeeds the part was small enough
    and of an allowed extension, and the saved name serves exactly its content. *)
Theorem upload_stays_inside (d : draws) (copy : option nat) (h : FileHeader) (fs : FS) :
  let '(fs', r) := Upload d copy h fs in
  (∀ q, ¬ components (Abs cwd (UploadDir cfg)) `prefix_of` q →
     fs' !! q = fs !! q ∨ (fs !! q = None ∧ fs' !! q = Some Dir)) ∧
  (EnableOverwrite cfg = false → ∀ q old, fs !! q = Some (File old) → fs' !! q = Some (File old)) ∧
  (Success r = true →
     Size h <= MaxFileSize cfg ∧ IsAllowedExtension cfg (Filename h) = true ∧
     Exists (SavedFilename r) fs' = true ∧
     ∀ tbe, ∃ ct, ServeFile tbe (SavedFilename r) fs' = Ok (ct, content h)).
Proof.
  destruct (Abs_rooted (UploadDir cfg)) as (bs & Hbs & Hb). rewrite Hb, components_abs by done.
  pose proof (Upload_stores d copy h fs bs Hbs Hb) as H. destruct (Upload d copy h fs) as [fs' r].
  destruct H as [[Hd Hs]|(cs & data & Hcs & Hst & Hok)].
  - split; [intros q _; apply Hd|]. split; [|congruence]. intros _ q old Hq. destruct (Hd q) as [->|[? _]]; congruence.
  - split; [intros q; by apply (stores_outside bs cs data)|]. split; [intros Hov q old; by apply (stores_keeps bs cs data)|].
    intros Hs. destruct (Hok Hs) as (_ & -> & Hv & _ & Hr). unfold Validate in Hv.
    destruct (Size h >? MaxFileSize cfg) eqn:Hsz; [done|]. split; [lia|].
    destruct (IsAllowedExtension cfg (Filename h)); [|done]. split; [done|].
    assert (Hall : Forall comp_ok (bs ++ cs)) by (by apply Forall_app).
    destruct Hst as (fs1 & _ & -> & _). unfold Exists, ServeFile. rewrite Hr, components_abs by done.
    rewrite lookup_insert_eq. split.
    + unfold exists_at. apply orb_true_iff. right. apply bool_decide_eq_true_2. rewrite lookup_insert_eq. by eexists.
    + intros tbe. by eexists.
Qed.

(** A name is refused, or it is resolved to a path below the upload directory, of
    which the directory itself is the only one that is not properly inside; and every
    relative path of proper components without a backslash is accepted. *)
Theorem resolve_is_safe (filename : string) :
  let base := components (Abs cwd (UploadDir cfg)) in
  (∀ p, resolveSafeFilePath filename = Ok p → ∃ cs, Forall comp_ok cs ∧ p = abs (base ++ cs) ∧
     (cs = [] → Clean (TrimSpace filename) = "/")) ∧
  (∀ cs, Forall comp_ok cs → cs ≠ [] → TrimSpace filename = GoString.Join "/" cs →
     Contains (TrimSpace filename) backslash = false → resolveSafeFilePath filename = Ok (abs (base ++ cs))).
Proof.
  destruct (Abs_rooted (UploadDir cfg)) as (bs & Hbs & Hb). rewrite Hb, components_abs by done.
  split; [intros p; by apply resolve_ok|intros cs; by apply resolve_accepts].
Qed.

End Uploader.
End Validator.

(** ** Examples *)

Definition sniff (data : string) : string :=
  if HasPrefix data "MZ" then "application/octet-stream" else "application/pdf".

Definition cfg_in (strategy : string) (overwrite : bool) : Config :=
  MkConfig "up" 100 [".pdf"] ["application/pdf"] strategy "" true true overwrite.

Definition at_noon : draws := MkDraws "1b4e28ba" "20240101120000" "20240101" 7.

Definition report : FileHeader := MkFileHeader "../../etc/report.PDF" 4 "data" true.

Lemma upload_stays_inside_witness :
  HasPrefix "/srv" "/" = true ∧
  Success (Upload sniff (cfg_in "uuid" false) "/srv" at_noon None report ∅).2 = true ∧
  SavedFilename (Upload sniff (cfg_in "uuid" false) "/srv" at_noon None report ∅).2 = "1b4e28ba.PDF" ∧
  Size report <= MaxFileSize (cfg_in "uuid" false).
Proof.
  split; [reflexivity|]. assert (HS : Success (Upload sniff (cfg_in "uuid" false) "/srv" at_noon None report ∅).2 = true).
  { vm_compute. reflexivity. }
  split; [exact HS|]. split; [vm_compute; reflexivity|].
  pose proof (upload_stays_inside sniff (cfg_in "uuid" false) "/srv" eq_refl at_noon None report ∅) as H.
  destruct (Upload sniff (cfg_in "uuid" false) "/srv" at_noon None report ∅) as [fs' r].
  exact (proj1 (proj2 (proj2 H) HS)).
Defined.

Lemma resolve_is_safe_witness :
  HasPrefix "/srv" "/" = true ∧ resolveSafeFilePath (cfg_in "uuid" false) "/srv" " a/b.pdf " = Ok "/srv/up/a/b.pdf".
Proof.
  split; [reflexivity|].
  apply (proj2 (resolve_is_safe (cfg_in "uuid" false) "/srv" eq_refl " a/b.pdf ") ["a"; "b.pdf"]);
    [repeat constructor; discriminate|discriminate|reflexivity|reflexivity].
Defined.

(** The name "/" is the upload directory itself: deleting it removes the directory when
    it is empty, and the uploads after it fail unless they make it again. *)
Example slash_deletes_directory :
  Delete (cfg_in "uuid" false) "/srv" "/" {[ ["srv"] := Dir; ["srv"; "up"] := Dir ]} = ({[ ["srv"] := Dir ]}, None).
Proof. vm_compute. reflexivity. Qed.

(** An allowed type allows every type with the same first part: an executable named as
    a document passes. *)
Example executable_accepted :
  Validate sniff (cfg_in "uuid" false) (MkFileHeader "setup.pdf" 2 "MZ" true) = None ∧
  IsAllowedMimeType DefaultConfig "application/octet-stream" = true ∧ IsAllowedMimeType DefaultConfig "image/svg+xml" = true.
Proof. vm_compute. done. Qed.

(** A copy that fails leaves what it has written; with overwriting the old file is lost. *)
Example failed_copy_leaves_part :
  let '(fs, r) := Upload sniff (cfg_in "original" true) "/srv" at_noon (Some 2%nat) (MkFileHeader "a.pdf" 4 "data" true)
    {[ ["srv"] := Dir; ["srv"; "up"] := Dir; ["srv"; "up"; "a.pdf"] := File "old" ]} in
  (fs, Success r) = ({[ ["srv"] := Dir; ["srv"; "up"] := Dir; ["srv"; "up"; "a.pdf"] := File "da" ]}, false).
Proof. vm_compute. reflexivity. Qed.

(** Two uploads in the same second get the same name. *)
Example timestamps_collide :
  Success <$> (UploadMultiple sniff (cfg_in "timestamp" false) "/srv" [at_noon; at_noon]
    [MkFileHeader "a.pdf" 1 "a" true; MkFileHeader "b.pdf" 1 "b" true] ∅).2 = [true; false].
Proof. vm_compute. reflexivity. Qed.
